(* ===== verification/_CoqProject ===== *)
-Q . S2P
Prelude.v
Bytes.v
Crypto.v
Protocol.v
Policy.v
Evidence.v
FixtureTransaction.v
Admission.v
AdmissionProperties.v
CrypttabProtocol.v
Session.v
SessionProperties.v
JournalChain.v
JournalChainProperties.v
JournalBackend.v
Journal.v
JournalInit.v
JournalSpecs.v
JournalDemo.v
JournalChainClaims.v
JournalRun.v
JournalProperties.v
JournalReplay.v
JournalOpen.v
JournalOpenProperties.v
Ordered.v
Text.v
Signatures.v
CanonicalJson.v
Documents.v
ReportParser.v
ReportGrammar.v
ReportDocument.v
DeviceIdentity.v
FleetAudit.v
FleetAuditProperties.v
FleetPolicy.v
FleetPolicyProperties.v
UpdateClient.v
UpdateMachine.v
UpdateClientProperties.v
Entitlements.v
EntitlementsProperties.v
VaultWire.v
RepairVault.v
RepairVaultProperties.v
RescueVault.v
VaultAllowlist.v
RescueVaultProperties.v
VaultTransport.v
VaultClient.v
VaultEndpoints.v
VaultClientProperties.v
VaultTransportProperties.v
ConfigLines.v
ConfigEdit.v
FstabPreview.v
FstabPreviewProperties.v
CrypttabPreview.v
CrypttabPreviewProperties.v
FstabPlan.v
FstabPlanProperties.v
RepairServiceTypes.v
RepairService.v
RepairServiceInvariant.v
RepairServiceProperties.v
RepairStoreTypes.v
RepairStoreEvents.v
RepairStoreCompaction.v
RepairStore.v
RepairStoreFacts.v
RepairStoreInvariant.v
RepairStorePreservation.v
RepairStoreSnapshot.v
RepairStoreRestore.v
RepairStoreCompactionProperties.v
RepairStoreProperties.v
RepairStoreLive.v
RepairStoreCalls.v
RepairStoreDurability.v
