(* ===== verification/Prelude.v ===== *)
(** * KernAid: a verification library for the Rust core

    KernAid diagnoses and repairs computers. Its Rust workspace (src/crates)
    separates what may decide from what may act: evidence is collected and
    normalized, a session admits it and stages at most one typed plan, a closed
    policy says which plans exist, approvals are one-shot and bound to digests,
    and every event is written to an encrypted, hash-chained journal whose head
    is anchored in a native secret store. Reports leave the device in envelopes
    signed by its identity; audit events, policy bundles, licenses and update
    manifests are signed canonical JSON documents, each with a checkpoint against
    rollback. This library models these decision, persistence and exchange
    components and proves what they promise.

    ** The program and the files that model it

    - [Prelude] (this file): Rust's [Result], methods on [&mut self] as state
      passing with the state after a failing call kept ([method]), early returns
      ([reject], [fail_if]), a weakest-precondition calculus for methods ([wp]),
      machine integers at their width ([checked_add_u64] and the like), tactics
      ([guards], [inv_ok], [run_ok], [run_methods], [solve_guarded]) and the hint
      databases [kernaid] and [kernaid_methods].
    - [Bytes]: bytes, UTF-8 text, big-endian integers, hexadecimal, the shared
      identifier and digest checks, length-prefixed framing and its injectivity.
    - [Crypto]: SHA-256 and XChaCha20-Poly1305 as operation classes with laws.
      Third-party code is a parameter. No law says that a hash is injective:
      theorems about tampering return the two colliding inputs instead.
    - [Protocol], [CrypttabProtocol]: crates/protocol - plans, steps, risks, and
      the closed values of the crypttab candidate.
    - [Policy]: crates/policy - the phase-zero, fixture-lab and candidate
      validators with their order of errors.
    - [Evidence]: crates/evidence - normalized snapshots, their validation, hash,
      canonical bytes and parser. [serde_json] is a parameter with its
      round-trip laws and an executable instance.
    - [FixtureTransaction]: crates/core - the fixture repair and rollback state
      machines.
    - [Admission], [AdmissionProperties]: crates/core - the crypttab, fstab and
      rollback candidate bindings, approvals, admissions and canonical digests,
      one Module each.
    - [Session], [SessionProperties]: crates/core - the session with every entry
      point, and its abstract transition relation.
    - [JournalChain], [JournalChainProperties], [JournalChainClaims]:
      crates/storage - anchors, record hashes, [scan_chain], [validate_anchor],
      [replay_verified_chain] as functions of what a database cursor yields.
    - [JournalBackend]: the interface of the journal to SQLite, the secret store,
      the file system and the entropy source: one operation per statement or
      call (class [Backend]), and their documented behaviour against an
      observation of the world (class [BackendLaws]). Every operation may fail at
      any time; a failing commit or store may or may not have taken effect. A
      world without faults is [reliable].
    - [Journal]: [SecureJournal] with [head], [verify], [first_entry], [entries],
      [append], [append_expected], [replay], [fold] and the path checks.
    - [JournalInit]: [SecureJournal::open], creation, recovery of an interrupted
      creation, schema and record checks.
    - [JournalSpecs], [JournalRun], [JournalOpen]: specifications of these
      functions against the laws, with one parameter [L] that says whether the
      run is free of faults, so that safety under faults and success without
      faults come from one proof.
    - [JournalDemo]: an executable world with a fault schedule that satisfies the
      laws; the witnesses evaluate the journal in it.
    - [JournalProperties], [JournalReplay], [JournalOpenProperties]: what the
      journal promises.
    - [Ordered]: byte-wise string order, [strictly_sorted], the binary search of
      the Rust slice library and when it agrees with membership.
    - [Text]: UTF-8, splitting, prefixes and ordered sets of strings of the Rust
      standard library.
    - [Signatures]: Ed25519 and unpadded base64url as operation classes with laws,
      and executable instances for the witnesses.
    - [CanonicalJson]: the canonical writer [write_canonical_value], the check
      [validate_json_value] and [import_canonical], which crates/fleet-audit,
      fleet-policy and update-client hold as textual copies; generic in the error
      type of the crate (class [JsonErrors]) and in the document (classes [ToValue]
      for Serialize and [FromSlice] for Deserialize).
    - [Documents]: the field validators, the signature decoding and the framing
      that these crates share, the size bounds, and the invariant of a log that
      only moves to newer documents ([newest]).
    - [ReportParser], [ReportGrammar], [ReportDocument]: crates/device-identity -
      the hand-written envelope parser, a grammar of the accepted texts as
      inductive predicates, and the proof that they agree.
    - [DeviceIdentity]: crates/device-identity - key handling, signing and every
      form of verification of reports.
    - [FleetAudit], [FleetAuditProperties]: crates/fleet-audit - signed audit
      events, offline exchange and the chain checkpoint.
    - [FleetPolicy], [FleetPolicyProperties]: crates/fleet-policy - signed bundles,
      evaluation of an operation and the checkpoint.
    - [UpdateClient], [UpdateMachine], [UpdateClientProperties]:
      crates/update-client/src/lib.rs - manifests, eligibility, admission,
      staging plans and the two-slot boot state machine.
    - [Entitlements], [EntitlementsProperties]: crates/entitlements - licenses,
      revocation lists, checkpoints and licensed capabilities.
    - [VaultWire]: crates/protocol - violations, tokens, descriptor declarations
      and the checked texts (request and report identifiers, SHA-256 digests) that
      the vault files share.
    - [RepairVault], [RepairVaultProperties]: crates/protocol/rescue_repair_vault.rs
      - backups, execution intents, repair transactions, rollbacks and the write
      leases over them, each with constructor, validation and canonical digest.
    - [RescueVault], [VaultAllowlist], [RescueVaultProperties]:
      crates/protocol/rescue_vault.rs - peer allowlists, roles and permissions,
      decoding of requests with every payload and descriptor check, the encoding
      of successes, errors and rejections.
    - [VaultTransport]: crates/protocol/rescue_vault_transport.rs - sending and
      receiving one SEQPACKET record before a deadline; the socket and the clock
      are one operation class ([Kernel]).
    - [VaultClient], [VaultClientProperties]: the same file - requests of a client
      and decoding of responses.
    - [VaultEndpoints], [VaultTransportProperties]: both files - authentication of
      the two ends and the exchanges over an authenticated socket.
    - [ConfigLines], [ConfigEdit]: packs/linux - the loops over lines and fields
      that the two previews below share as textual copies, what they compute, and
      the edit that comments out one line, for any line parser.
    - [FstabPreview], [FstabPreviewProperties]: rescue_fstab_candidate.rs - which
      entry of an fstab is disabled and the bytes that are proposed.
    - [CrypttabPreview], [CrypttabPreviewProperties]:
      rescue_crypttab_candidate.rs - the same for a mapping of a crypttab.
    - [FstabPlan], [FstabPlanProperties]: rescue_fstab_transaction_candidate.rs and
      production_candidate_contract.rs - the plan that binds a preview.
    - [RepairServiceTypes], [RepairService], [RepairServiceInvariant],
      [RepairServiceProperties]: crates/broker/rescue_repair_service.rs - the local
      repair service: its requests and responses, the handlers of the service
      thread, the worker thread that runs the engine, the two channels between
      them, and a step relation that interleaves frames, moves of the worker,
      panics of the engine and the end of the service. The engine is a class
      ([RepairEngine]); the history of its calls is part of the state.
    - [RepairStoreTypes], [RepairStoreEvents], [RepairStoreCompaction]:
      crates/rescue-secrets/repair_store.rs - the durable repair store as its
      journal determines it: reservations, releases, transactions and rollbacks,
      one definition per event of [apply_repair_event], replay, the consistency
      check, and the snapshot that a compaction writes and validates.
    - [RepairStoreFacts], [RepairStoreInvariant], [RepairStorePreservation]: the
      invariant of the recovered state and that every event keeps it.
    - [RepairStoreSnapshot], [RepairStoreRestore], [RepairStoreCompactionProperties],
      [RepairStoreProperties]: a snapshot rebuilds what it describes, and what
      holds over whole journals.
    - [RepairStore]: the handle of the store ([RepairVaultStore]), every call that appends events or returns a status,
      compaction, recovery, opening, and a store over its lifetime ([run]). The
      operations on files are the class [StoreFiles], in which each may fail.
    - [RepairStoreLive], [RepairStoreCalls], [RepairStoreDurability]: the events
      that a state accepts, the invariant between a handle and its journal, that every
      call keeps it, and the theorems over a lifetime.

    A session calls the policy validators, the snapshot parser and the rollback
    bindings; the admissions hash with SHA-256; the journal methods call the
    chain functions on the cursors of the backend; an audit event is signed and
    verified as a report payload of a device identity. Each client is proved
    against the class or the closed form of what it calls. A theorem that imports
    a document assumes of the Deserialize parameter only that it reads this one
    document back ([reads_back]). The vault server answers a client over the
    transport: its readers and writers are classes ([RequestJson], [RequestWriter],
    [ResponseJson], [ResponseWriter]) with laws that a reader gives back what the
    writer of the other side wrote. The repair service names its candidates by the
    contracts of [FstabPlan], [Protocol], [RepairVault] and the confirmations of
    [Admission], and checks a rollback against the canonical plan of [Admission].
    The repair store replays its events over the secure journal and builds its
    status payloads and leases with the constructors of [RepairVault].

    ** What the theorems show

    - Journal: the scan accepts exactly the linked, authentic, bounded chains; a
      head pins its chain and an accepted anchor a prefix of it, up to a hash
      collision; no acknowledged event is lost under any faults, within a process
      and across restarts; opening is crash safe, recovers from every
      interruption and fails closed without its secrets; append is a
      compare-and-append; replay authenticates before it delivers, delivers
      exactly the chain, and [fold] is a left fold; a poisoned journal is inert;
      the anchor encoding is a bijection.
    - Session, admissions, fixture transactions: refinement of abstract transition
      systems over arbitrary call sequences, reachable states, origin of staged
      plans, one-shot approvals, freshness of rollbacks, and digests that commit
      to every field.
    - Policy and protocol: exact characterizations of the accepted plans, corpora,
      descriptors and snapshots, and round trips of snapshot envelopes.
    - Reports: the parser accepts exactly the texts of the grammar, terminates on
      every input and never grows a string; signed envelopes verify; an envelope
      that verifies is one the device signed, up to another signature, or its
      message was signed as a protocol payload under the domain of envelopes, or,
      with the identifier as the only anchor, the fingerprint of its key collides.
    - Canonical JSON: every valid value has one canonical text and a text one
      value, whatever the order of its entries.
    - Signed documents: what verifies agrees with what the holder of the key
      signed; valid content can always be signed, exported within the limits and
      imported; no sequence of calls goes back to an older document, and two
      documents with one number are equal or collide under SHA-256.
    - Audit: the checkpoint refines an append-only log and pins all of it.
    - Fleet policy and licenses: exact conditions for a repair and for each
      capability; a policy never extends what the device permits, and no license
      state takes diagnostics, report export or rollback away.
    - Updates: the slot machine refines its table, a release that does not report
      is abandoned after its attempts, a stage plan needs the signed artifact,
      and local rollback is always possible.
    - Vault: an authenticated socket delivers only what its UID may ask for, from
      the kernel's credentials to the decoded payload; requests and responses
      survive the wire; a response carries exactly the descriptors of its
      operation; the allowlist is exactly what was configured; the transport does
      nothing without a clock reading before its deadline.
    - Repair records: a write lease exists exactly under the approved, durable and
      fresh authority it names, its digest pins all of that authority up to a
      collision, and validation admits exactly what the constructors build.
    - Configuration repairs: the previews of fstab and crypttab exist exactly for
      one missing entry, edit one line, leave every other entry in place, can be
      undone and leave nothing more to repair; a volume that a mandatory mount
      needs is never disabled; a plan digest pins the file before and after.
    - Repair service: the engine sees only well-formed commands and only approvals
      bound to what it prepared; authorities are never lost or used twice; a
      waiting phase is always answered; versions tell states apart, end states
      are final, and approvals are accepted exactly when they repeat the plan.
    - Repair store: every accepted journal leads to a consistent state with one
      unresolved transaction or rollback at most, whose backup stays until it is
      resolved; identifiers are never used twice, a boot leases a transaction
      once; a compaction gives back the store it was taken from; over a whole
      lifetime, whatever is called and whichever file operations fail, the journal
      replays and a healthy handle holds the state it replays to, as long as fewer
      than 2^63 requests are made and no rollback is asked for the resolution it
      already has.
    - Three theorems show defects: the list limits of a license exceed the size
      limit of the document, so that a license can be signed that no device can
      verify ([entitlement_signs_unverifiable_license]); a compaction of a full
      repair store with a release to retain always fails
      ([compaction_full_table_fails]); and asking a rollback in manual
      reconciliation for the resolution it already has makes the repair journal
      unreadable ([repeated_rollback_resolution_corrupts]).

    ** Bounds, fuel and simplifications

    The loops of the source run over finite cursors and lists and are structural,
    with four exceptions. The report parser moves an offset: its loops take fuel,
    one more than the length of the text, and [report_parser_terminates] proves
    that it is never used up and that more does not change the result. The
    binary search halves a range: its fuel is the length of the slice, and
    [Ordered] proves the search right with it. The transport repeats calls
    that are interrupted or not ready until its deadline; how often depends on the
    kernel, whose clock is not assumed to advance, so its fuel is any number:
    [vault_transport_keeps_deadline] proves that each round uses one such answer
    before the deadline, that the code returns with more fuel than there are such
    answers, and that more does not change the result. The line and field loops of
    [ConfigLines] move a cursor: their fuel is one more than the bytes, and
    [parse_loop_lines] and [field_loop_tokens] prove that they compute the lines
    and tokens with it. Widths are those of the source; [usize] is 64 bits.
    The candidate features of the crates are enabled. A cipher is its key; memory
    zeroization, debug output, error texts and [Display] are not modelled. Record
    projections stand for the accessor methods. The journal is used by one
    process at a time, as its documentation demands.

    ** What is not modelled, and the plan

    Next, in this order: the artifact staging of the update client (staging.rs),
    the physical-parent and repair services of crates/protocol
    (rescue_physical_parent.rs, rescue_repair.rs), the file operations of the repair
    store with the recovery of an interrupted exchange of its journals, fleet-client, fleet-coordinator and fleet-runtime, report-schema and
    redaction, and the adapters of the broker. Parsers and cryptography of third
    parties (serde_json, ed25519-dalek, base64, the RFC 3339 and URL parsers, SQLite)
    are parameters with laws. Descriptor crates, secret-store implementations,
    provider bridges, the media creator, the desktop application, services and
    tools are input and output around these contracts and stay outside. *)

From stdpp Require Export base tactics option list numbers strings sets.

#[global] Set Default Proof Using "Type".

(** ** Fallible computations *)

(** Rust's [Result<A, E>]. The error type comes first so that [result E] is a
    monad in the sense of stdpp. *)
Inductive result (E A : Type) : Type :=
| Ok (a : A)
| Err (e : E).
Arguments Ok {E A} a.
Arguments Err {E A} e.

#[export] Instance result_ret E : MRet (result E) := λ A a, Ok a.
#[export] Instance result_bind E : MBind (result E) := λ A B f m,
  match m with Ok a => f a | Err e => Err e end.

#[export] Instance result_eq_dec `{EqDecision E, EqDecision A} : EqDecision (result E A).
Proof. solve_decision. Defined.

(** [Option::ok_or] and [Result::map_err]. *)
Definition ok_or {E A} (o : option A) (e : E) : result E A :=
  match o with Some a => Ok a | None => Err e end.

Definition map_err {E E' A} (f : E → E') (r : result E A) : result E' A :=
  match r with Ok a => Ok a | Err e => Err (f e) end.

Definition is_ok {E A} (r : result E A) : bool :=
  match r with Ok _ => true | Err _ => false end.

(** ** Rust-like surface notation *)

Declare Scope rust_scope.
Delimit Scope rust_scope with rust.

(** [==] and [!=] are decidable Leibniz equality, as derived [PartialEq]. *)
Notation "x == y" := (bool_decide (x = y))
  (at level 70, no associativity) : rust_scope.
Notation "x != y" := (bool_decide (x ≠ y))
  (at level 70, no associativity) : rust_scope.

(** [if c { return Err(e); } k] in a function that returns a [Result]. *)
Notation "'reject' c 'with' e ; k" := (if c then Err e else k)
  (at level 100, c at level 99, e at level 99, k at level 200,
   right associativity) : rust_scope.

Open Scope rust_scope.

(** ** Methods on [&mut self]

    A method that takes [&mut self] and returns [Result<A, E>] is a function
    from the state to the state after the call and the result. The state after
    a failing call is part of the model: that a failing call leaves it alone is
    a theorem about the code and not a convention. *)
Definition method (S E A : Type) : Type := S → S * result E A.

#[export] Instance method_ret S E : MRet (method S E) := λ A a s, (s, Ok a).
#[export] Instance method_bind S E : MBind (method S E) := λ A B f m s,
  match m s with
  | (s', Ok a) => f a s'
  | (s', Err e) => (s', Err e)
  end.

Section methods.
Context {S E : Type}.

Definition throw {A} (e : E) : method S E A := λ s, (s, Err e).
Definition get_self : method S E S := λ s, (s, Ok s).
Definition modify_self (f : S → S) : method S E unit := λ s, (f s, Ok tt).

(** [if c { return Err(e); }] as a statement. *)
Definition fail_if (c : bool) (e : E) : method S E unit :=
  if c then throw e else mret tt.

(** [r?] for a pure [Result]. *)
Definition lift {A} (r : result E A) : method S E A := λ s, (s, r).
End methods.

(** [self.field.call(..)?], a method call on one field of the state. *)
Definition on_field {S T E A} (get : S → T) (set : T → S → S) (m : method T E A) :
    method S E A := λ s,
  let '(t, r) := m (get s) in (set t s, r).

(** [call(..).map_err(f)] for a method. *)
Definition map_err_method {S E E' A} (f : E → E') (m : method S E A) : method S E' A := λ s,
  let '(s, r) := m s in (s, map_err f r).

(** [match call(..) { Ok(a) => .., Err(e) => .. }]: the result as a value. *)
Definition attempt {S E E' A} (m : method S E A) : method S E' (result E A) := λ s,
  let '(s, r) := m s in (s, Ok r).

(** [if let Err(error) = call(..) { self.f(); return Err(error); }]. *)
Definition on_error {S E A} (f : S → S) (m : method S E A) : method S E A := λ s,
  match m s with
  | (s, Ok a) => (s, Ok a)
  | (s, Err e) => (f s, Err e)
  end.

(** The result and the state after a call. *)
Definition final {S E A} (m : method S E A) (s : S) : S := (m s).1.
Definition outcome {S E A} (m : method S E A) (s : S) : result E A := (m s).2.

(** ** Inversion of guarded code *)

Lemma reject_Ok {E A} (c : bool) (e : E) (k : result E A) a :
  (if c then Err e else k) = Ok a ↔ c = false ∧ k = Ok a.
Proof. destruct c; naive_solver. Qed.

Lemma result_bind_Ok {E A B} (m : result E A) (f : A → result E B) b :
  m ≫= f = Ok b ↔ ∃ a, m = Ok a ∧ f a = Ok b.
Proof. destruct m; naive_solver. Qed.

Lemma ok_or_Ok {E A} (o : option A) (e : E) a : ok_or o e = Ok a ↔ o = Some a.
Proof. destruct o; naive_solver. Qed.

Lemma map_err_Ok {E E' A} (f : E → E') (r : result E A) a : map_err f r = Ok a ↔ r = Ok a.
Proof. destruct r; naive_solver. Qed.

Lemma run_bind {S E A B} (m : method S E A) (f : A → method S E B) s s' r :
  (m ≫= f) s = (s', r) ↔
    (∃ s1 a, m s = (s1, Ok a) ∧ f a s1 = (s', r)) ∨
    (∃ e, m s = (s', Err e) ∧ r = Err e).
Proof.
  unfold mbind, method_bind. destruct (m s) as [s1 [a|e]]; naive_solver.
Qed.

Lemma run_bind_Ok {S E A B} (m : method S E A) (f : A → method S E B) s s' b :
  (m ≫= f) s = (s', Ok b) ↔ ∃ s1 a, m s = (s1, Ok a) ∧ f a s1 = (s', Ok b).
Proof. rewrite run_bind. naive_solver. Qed.

Lemma run_fail_if {S E} (c : bool) (e : E) (s s' : S) r :
  fail_if c e s = (s', r) ↔ s' = s ∧ r = (if c then Err e else Ok tt).
Proof. destruct c; unfold fail_if, throw, mret, method_ret; naive_solver. Qed.

Lemma bool_decide_not_false_1 (P : Prop) `{!Decision (¬ P), !Decision P} :
  bool_decide (¬ P) = false → P.
Proof. intros H%bool_decide_eq_false_1. by apply dec_stable. Qed.

Lemma eq_refl_true {A} (x : A) `{!Decision (x = x)} : (x == x) = true.
Proof. by apply bool_decide_eq_true. Qed.

Lemma ne_refl_false {A} (x : A) `{!Decision (x ≠ x)} : (x != x) = false.
Proof. apply bool_decide_eq_false. auto. Qed.

(** Boolean guards as propositions. *)
Ltac guards :=
  repeat match goal with
  | H : _ || _ = false |- _ => apply orb_false_iff in H as [? H]
  | H : _ && _ = true |- _ => apply andb_true_iff in H as [? H]
  | H : negb _ = false |- _ => apply negb_false_iff in H
  | H : negb _ = true |- _ => apply negb_true_iff in H
  | H : bool_decide (_ ≠ _) = false |- _ => apply bool_decide_not_false_1 in H; [|solve [apply _]]
  | H : bool_decide _ = true |- _ => apply bool_decide_eq_true_1 in H
  | H : bool_decide _ = false |- _ => apply bool_decide_eq_false_1 in H
  | H : _ ∧ _ |- _ => destruct H
  | u : () |- _ => destruct u
  end.

Lemma Ok_inj_1 {E A} (a b : A) : @Ok E A a = Ok b → a = b.
Proof. by intros [= ->]. Qed.

Lemma reject_Ok_1 {E A} (c : bool) (e : E) (k : result E A) a :
  (if c then Err e else k) = Ok a → c = false ∧ k = Ok a.
Proof. apply reject_Ok. Qed.

Lemma result_bind_Ok_1 {E A B} (m : result E A) (f : A → result E B) b :
  m ≫= f = Ok b → ∃ a, m = Ok a ∧ f a = Ok b.
Proof. apply result_bind_Ok. Qed.

Lemma ok_or_Ok_1 {E A} (o : option A) (e : E) a : ok_or o e = Ok a → o = Some a.
Proof. apply ok_or_Ok. Qed.

Lemma map_err_Ok_1 {E E' A} (f : E → E') (r : result E A) a : map_err f r = Ok a → r = Ok a.
Proof. apply map_err_Ok. Qed.

(** Inverts a hypothesis [_ = Ok _] about guarded code, one layer at a time. *)
Ltac inv_ok H :=
  repeat first
    [ match type of H with
      | Ok ?x = Ok ?y => apply Ok_inj_1 in H; try first [subst y | subst x]
      | Err _ = Ok _ => discriminate H
      | (if ?c then Err _ else _) = Ok _ =>
          let C := fresh "Hguard" in
          apply reject_Ok_1 in H as [C H]
      | mbind _ _ = Ok _ =>
          let a := fresh "v" in let C := fresh "Hcall" in
          apply result_bind_Ok_1 in H as (a & C & H); cbv beta in H;
          repeat match type of C with
          | map_err _ _ = Ok _ => apply map_err_Ok_1 in C
          | ok_or _ _ = Ok _ => apply ok_or_Ok_1 in C
          end
      | map_err _ _ = Ok _ => apply map_err_Ok_1 in H
      | ok_or _ _ = Ok _ => apply ok_or_Ok_1 in H
      | match ?x with _ => _ end = Ok _ => destruct x eqn:?; try discriminate H
      end ].

(** Passing one guard or one call of guarded code whose outcome is known. *)
Lemma reject_pass {E A} (c : bool) (e : E) (k r : result E A) :
  c = false → k = r → (if c then Err e else k) = r.
Proof. by intros ->. Qed.

Lemma bind_pass {E A B} (m : result E A) (f : A → result E B) a r :
  m = Ok a → f a = r → m ≫= f = r.
Proof. by intros -> <-. Qed.

Lemma bind_pass_unit {E B} (m : result E ()) (f : () → result E B) r :
  m = Ok tt → f tt = r → m ≫= f = r.
Proof. by intros -> <-. Qed.

Lemma ok_or_pass {E A} (o : option A) (e : E) a : o = Some a → ok_or o e = Ok a.
Proof. by intros ->. Qed.

(** Runs guarded code forward; [tac] discharges each guard and call. *)
Ltac run_ok tac :=
  repeat first
    [ apply reject_pass; [solve [tac]|]
    | apply bind_pass_unit; [solve [tac]|]; cbv beta
    | eapply bind_pass; [solve [tac]|]; cbv beta ].

(** Runs the method combinators on a given state. *)
Ltac run_methods :=
  unfold mbind, method_bind, get_self, fail_if, throw, modify_self, mret, method_ret, lift,
    on_field.

(** ** Methods that check first and change the state last *)

(** A method that changes nothing, and one that changes nothing when it fails. *)
Definition read_only {S E A} (m : method S E A) : Prop := ∀ s, (m s).1 = s.
Definition guarded {S E A} (m : method S E A) : Prop := ∀ s s' e, m s = (s', Err e) → s' = s.

Lemma read_only_guarded {S E A} (m : method S E A) : read_only m → guarded m.
Proof. intros Hm s s' e He. specialize (Hm s). by rewrite He in Hm. Qed.

Lemma guarded_bind {S E A B} (m : method S E A) (f : A → method S E B) :
  read_only m → (∀ a, guarded (f a)) → guarded (m ≫= f).
Proof.
  intros Hm Hf s s' e. rewrite run_bind. intros [(s1 & a & Hs & Hk)|(e' & Hs & _)].
  - specialize (Hm s). rewrite Hs in Hm. simpl in Hm. subst. by eapply Hf.
  - specialize (Hm s). by rewrite Hs in Hm.
Qed.

Lemma guarded_modify_bind {S E A} (f : S → S) (a : A) :
  guarded (E := E) (modify_self f;; mret a).
Proof. intros s s' e. run_methods. done. Qed.

Lemma guarded_modify {S E} (f : S → S) : guarded (E := E) (modify_self f).
Proof. intros s s' e. done. Qed.

Lemma read_only_get_self {S E} : read_only (E := E) (@get_self S E).
Proof. done. Qed.
Lemma read_only_fail_if {S E} c (e : E) : read_only (@fail_if S E c e).
Proof. by destruct c. Qed.
Lemma read_only_lift {S E A} (r : result E A) : read_only (@lift S E A r).
Proof. done. Qed.
Lemma read_only_throw {S E A} (e : E) : read_only (@throw S E A e).
Proof. done. Qed.

(** Inversion of one statement of a method that returned [Ok]. *)
Lemma run_get_self_1 {S E A} (f : S → method S E A) s r : (get_self ≫= f) s = r → f s s = r.
Proof. done. Qed.
Lemma run_modify_1 {S E A} (f : S → S) (k : method S E A) s r :
  (modify_self f;; k) s = r → k (f s) = r.
Proof. done. Qed.
Lemma run_fail_if_1 {S E A} c (e : E) (k : method S E A) s s' a :
  (fail_if c e;; k) s = (s', Ok a) → c = false ∧ k s = (s', Ok a).
Proof. destruct c; [done|]. by split. Qed.
Lemma run_lift_1 {S E A B} (r : result E A) (f : A → method S E B) s s' b :
  (lift r ≫= f) s = (s', Ok b) → ∃ a, r = Ok a ∧ f a s = (s', Ok b).
Proof. destruct r; [|done]. eauto. Qed.
Lemma run_ret_1 {S E A} (a b : A) (s s' : S) :
  mret (M := method S E) a s = (s', Ok b) → a = b ∧ s = s'.
Proof. by intros [= -> ->]. Qed.
Lemma run_modify_last_1 {S E} (f : S → S) s s' u :
  modify_self (E := E) f s = (s', Ok u) → s' = f s.
Proof. by intros [= <- _]. Qed.

(** Inverts [m s = (s', Ok a)], one statement at a time. *)
Ltac inv_run H :=
  repeat lazymatch type of H with
  | mbind _ get_self _ = _ => apply run_get_self_1 in H; cbv beta in H
  | mbind _ (fail_if _ _) _ = _ =>
      let C := fresh "Hguard" in apply run_fail_if_1 in H as [C H]
  | mbind _ (lift _) _ = _ =>
      let a := fresh "v" in let C := fresh "Hcall" in
      apply run_lift_1 in H as (a & C & H); cbv beta in H
  | mbind _ (modify_self _) _ = _ => apply run_modify_1 in H
  | mret _ _ = _ =>
      let C := fresh in apply run_ret_1 in H as [C H]; subst
  | modify_self _ _ = _ => apply run_modify_last_1 in H; subst
  end.

Create HintDb kernaid_methods.
#[export] Hint Resolve guarded_modify_bind guarded_modify read_only_get_self read_only_fail_if
  read_only_lift read_only_throw read_only_guarded : kernaid_methods.

(** Shows that a method changes nothing when it fails. *)
Ltac solve_guarded :=
  repeat first [ solve [auto with kernaid_methods nocore]
               | match goal with |- guarded (match ?x with _ => _ end) => destruct x end
               | apply guarded_bind;
                 [repeat case_match; solve [auto with kernaid_methods nocore]|intros ?] ].

(** ** Specifications of methods

    [wp m Q R s]: called in [s], the method returns [Ok a] in a state with [Q a],
    or [Err e] in a state with [R e]. *)
Definition wp {S E A} (m : method S E A) (Q : A → S → Prop) (R : E → S → Prop) (s : S) : Prop :=
  match m s with
  | (s', Ok a) => Q a s'
  | (s', Err e) => R e s'
  end.

Section wp.
Context {S E : Type}.

Lemma wp_mono {A} (m : method S E A) (Q Q' : A → S → Prop) (R R' : E → S → Prop) s :
  wp m Q R s → (∀ a s', Q a s' → Q' a s') → (∀ e s', R e s' → R' e s') → wp m Q' R' s.
Proof. unfold wp. destruct (m s) as [s' [a|e]]; auto. Qed.

Lemma wp_bind {A B} (m : method S E A) (f : A → method S E B) Q R s :
  wp m (λ a, wp (f a) Q R) R s → wp (m ≫= f) Q R s.
Proof. unfold wp, mbind, method_bind. by destruct (m s) as [s' [a|e]]. Qed.

Lemma wp_ret {A} (a : A) (Q : A → S → Prop) R s : Q a s → wp (E := E) (mret a) Q R s.
Proof. done. Qed.

Lemma wp_get_self (Q : S → S → Prop) R s : Q s s → wp (E := E) get_self Q R s.
Proof. done. Qed.

Lemma wp_modify (f : S → S) (Q : () → S → Prop) R s : Q tt (f s) → wp (E := E) (modify_self f) Q R s.
Proof. done. Qed.

Lemma wp_throw {A} (e : E) (Q : A → S → Prop) R s : R e s → wp (throw e) Q R s.
Proof. done. Qed.

Lemma wp_fail_if c (e : E) (Q : () → S → Prop) R s :
  (c = true → R e s) → (c = false → Q tt s) → wp (fail_if c e) Q R s.
Proof. intros Ht Hf. destruct c; [by apply Ht|by apply Hf]. Qed.

Lemma wp_lift {A} (r : result E A) (Q : A → S → Prop) R s :
  (∀ a, r = Ok a → Q a s) → (∀ e, r = Err e → R e s) → wp (lift r) Q R s.
Proof. intros Ho He. destruct r; [by apply Ho|by apply He]. Qed.

(** From a specification to the equation of a run. *)
Lemma wp_run {A} (m : method S E A) Q R s s' r :
  wp m Q R s → m s = (s', r) → match r with Ok a => Q a s' | Err e => R e s' end.
Proof. unfold wp. intros Hwp Hrun. rewrite Hrun in Hwp. by destruct r. Qed.

Lemma run_wp {A} (m : method S E A) (Q : A → S → Prop) (R : E → S → Prop) s :
  (∀ s' r, m s = (s', r) → match r with Ok a => Q a s' | Err e => R e s' end) → wp m Q R s.
Proof. unfold wp. intros Hr. specialize (Hr (m s).1 (m s).2). destruct (m s) as [s' [|]]; by apply Hr. Qed.
End wp.

Lemma wp_map_err {S E E' A} (f : E → E') (m : method S E A) Q R s :
  wp m Q (λ e, R (f e)) s → wp (map_err_method f m) Q R s.
Proof. unfold wp, map_err_method. by destruct (m s) as [s' [|]]. Qed.

Lemma wp_attempt {S E E' A} (m : method S E A) (Q : result E A → S → Prop) (R : E' → S → Prop) s :
  wp m (λ a, Q (Ok a)) (λ e, Q (Err e)) s → wp (attempt m) Q R s.
Proof. unfold wp, attempt. by destruct (m s) as [s' [|]]. Qed.

Lemma wp_on_error {S E A} (f : S → S) (m : method S E A) Q R s :
  wp m Q (λ e s, R e (f s)) s → wp (on_error f m) Q R s.
Proof. unfold wp, on_error. by destruct (m s) as [s' [|]]. Qed.

Lemma wp_on_field {S T E A} (get : S → T) (set : T → S → S) (m : method T E A) Q R s :
  wp m (λ a t, Q a (set t s)) (λ e t, R e (set t s)) (get s) → wp (on_field get set m) Q R s.
Proof. unfold wp, on_field. by destruct (m (get s)) as [t [|]]. Qed.

Lemma existsb_false {A} (f : A → bool) l : existsb f l = false ↔ Forall (λ a, f a = false) l.
Proof. induction l as [|a l IH]; simpl; [by split|]. by rewrite orb_false_iff, Forall_cons, IH. Qed.

(** ** Machine integers *)

Definition U16_MAX : Z := 2 ^ 16 - 1.
Definition U32_MAX : Z := 2 ^ 32 - 1.
Definition U64_MAX : Z := 2 ^ 64 - 1.
Definition I64_MAX : Z := 2 ^ 63 - 1.

Definition is_u64 (z : Z) : Prop := (0 ≤ z ≤ U64_MAX)%Z.
#[export] Instance is_u64_dec z : Decision (is_u64 z).
Proof. unfold is_u64. apply _. Defined.

(** [u64::checked_add], [u64::checked_sub] and [u32::saturating_add]. *)
Definition checked_add_u64 (a b : Z) : option Z :=
  if (a + b <=? U64_MAX)%Z then Some (a + b)%Z else None.
Definition checked_sub_u64 (a b : Z) : option Z :=
  if (b <=? a)%Z then Some (a - b)%Z else None.
Definition saturating_add_u32 (a b : Z) : Z := Z.min (a + b) U32_MAX.

(** [u64::try_from] of an [i64]. *)
Definition u64_try_from_i64 (z : Z) : option Z :=
  if (0 <=? z)%Z then Some z else None.

Lemma checked_add_u64_Some a b c :
  checked_add_u64 a b = Some c ↔ c = (a + b)%Z ∧ (a + b ≤ U64_MAX)%Z.
Proof. unfold checked_add_u64. destruct (Z.leb_spec (a + b) U64_MAX); naive_solver lia. Qed.

Lemma checked_sub_u64_Some a b c :
  checked_sub_u64 a b = Some c ↔ c = (a - b)%Z ∧ (b ≤ a)%Z.
Proof. unfold checked_sub_u64. destruct (Z.leb_spec b a); naive_solver lia. Qed.

Lemma u64_try_from_i64_Some a c : u64_try_from_i64 a = Some c ↔ c = a ∧ (0 ≤ a)%Z.
Proof. unfold u64_try_from_i64. destruct (Z.leb_spec 0 a); naive_solver lia. Qed.

Lemma checked_add_u64_fits a b : (a + b ≤ U64_MAX)%Z → checked_add_u64 a b = Some (a + b)%Z.
Proof. intros. by apply checked_add_u64_Some. Qed.
Lemma checked_sub_u64_fits a b : (b ≤ a)%Z → checked_sub_u64 a b = Some (a - b)%Z.
Proof. intros. by apply checked_sub_u64_Some. Qed.
Lemma u64_try_from_i64_fits a : (0 ≤ a)%Z → u64_try_from_i64 a = Some a.
Proof. intros. by apply u64_try_from_i64_Some. Qed.

(** ** Hint databases *)

Create HintDb kernaid.
Create Rewrite HintDb kernaid.
#[export] Hint Rewrite @eq_refl_true @ne_refl_false : kernaid.
