(* ===== verification/Bytes.v ===== *)
(** * Bytes, integers on the wire, hexadecimal and length-prefixed encodings

    Rust strings are their UTF-8 bytes: a [String] or [&str] is modelled by
    [string], one [ascii] character per byte, and [&[u8]] by [list byte].
    The file gives the standard-library operations the sources use on them
    ([to_be_bytes], [from_be_bytes], [len], [strip_prefix], the ASCII
    classes, [{:x}] formatting) and the length-prefixed framing that every
    approval and plan hash of the core is computed over. *)

From Stdlib.Strings Require Import Byte.
From Stdlib Require String Ascii.
From S2P Require Import Prelude.

Abbreviation byte := Byte.byte.
Abbreviation bytes := (list Byte.byte).

#[export] Instance byte_eq_dec : EqDecision byte.
Proof. intros x y. apply Byte.byte_eq_dec. Defined.

(** ** Bytes as numbers *)

Definition byte_val (b : byte) : Z := Z.of_N (Byte.to_N b).
Definition byte_of_Z (z : Z) : byte :=
  default x00 (Byte.of_N (Z.to_N (z mod 256))).

Lemma byte_val_range b : (0 ≤ byte_val b < 256)%Z.
Proof. unfold byte_val. pose proof (Byte.to_N_bounded b). lia. Qed.

Lemma byte_of_val b : byte_of_Z (byte_val b) = b.
Proof.
  unfold byte_of_Z. pose proof (byte_val_range b).
  rewrite Z.mod_small by done. unfold byte_val. rewrite N2Z.id, Byte.of_to_N. done.
Qed.

Lemma byte_val_of_Z z : byte_val (byte_of_Z z) = (z mod 256)%Z.
Proof.
  unfold byte_of_Z, byte_val. pose proof (Z.mod_pos_bound z 256 ltac:(done)).
  destruct (Byte.of_N (Z.to_N (z mod 256))) as [b|] eqn:E; simpl.
  - apply Byte.to_of_N in E. rewrite E. lia.
  - apply Byte.of_N_None_iff in E. lia.
Qed.

#[export] Instance byte_val_inj : Inj (=) (=) byte_val.
Proof. intros x y H. by rewrite <-(byte_of_val x), H, byte_of_val. Qed.

(** ** Big-endian integers *)

Fixpoint be_bytes (n : nat) (z : Z) : bytes :=
  match n with
  | O => []
  | S n => be_bytes n (z / 256) ++ [byte_of_Z z]
  end.

Definition be_value (l : bytes) : Z :=
  fold_left (λ acc b, acc * 256 + byte_val b)%Z l 0%Z.

(** [u64::to_be_bytes] and [u64::from_be_bytes]. *)
Definition to_be_bytes (z : Z) : bytes := be_bytes 8 z.
Definition from_be_bytes (l : bytes) : Z := be_value l.

Lemma length_be_bytes n z : length (be_bytes n z) = n.
Proof.
  revert z. induction n as [|n IH]; intros z; [done|].
  simpl. rewrite length_app, IH. simpl. lia.
Qed.

Lemma be_value_snoc l b : be_value (l ++ [b]) = (be_value l * 256 + byte_val b)%Z.
Proof. unfold be_value. by rewrite fold_left_app. Qed.

Lemma be_value_be_bytes n z : be_value (be_bytes n z) = (z mod 256 ^ Z.of_nat n)%Z.
Proof.
  revert z. induction n as [|n IH]; intros z; cbn [be_bytes].
  - by rewrite Z.mod_1_r.
  - rewrite be_value_snoc, IH, byte_val_of_Z.
    rewrite Nat2Z.inj_succ, Z.pow_succ_r by lia.
    rewrite Z.rem_mul_r by (try lia; apply Z.pow_nonzero; lia). lia.
Qed.

Lemma be_value_range l : (0 ≤ be_value l < 256 ^ Z.of_nat (length l))%Z.
Proof.
  induction l as [|b l IH] using rev_ind; [done|].
  rewrite be_value_snoc, length_app. simpl.
  rewrite Nat2Z.inj_add, Z.pow_add_r by lia. pose proof (byte_val_range b). lia.
Qed.

Lemma be_bytes_be_value l : be_bytes (length l) (be_value l) = l.
Proof.
  induction l as [|b l IH] using rev_ind; [done|].
  rewrite length_app, be_value_snoc. simpl. rewrite Nat.add_1_r. cbn [be_bytes].
  pose proof (byte_val_range b).
  rewrite Z.add_comm, Z.div_add, (Z.div_small (byte_val b)) by lia. rewrite Z.add_0_l, IH.
  f_equal. f_equal. rewrite <-(byte_of_val b) at 2. unfold byte_of_Z.
  by rewrite Z.mod_add by lia.
Qed.

Lemma length_to_be_bytes z : length (to_be_bytes z) = 8.
Proof. apply length_be_bytes. Qed.

Lemma from_to_be_bytes z : is_u64 z → from_be_bytes (to_be_bytes z) = z.
Proof.
  intros [? Hz]. unfold from_be_bytes, to_be_bytes. rewrite be_value_be_bytes.
  apply Z.mod_small. unfold U64_MAX in Hz. change (256 ^ Z.of_nat 8)%Z with (2 ^ 64)%Z. lia.
Qed.

Lemma to_from_be_bytes l : length l = 8 → to_be_bytes (from_be_bytes l) = l.
Proof. intros Hl. unfold to_be_bytes. rewrite <-Hl. apply be_bytes_be_value. Qed.

Lemma from_be_bytes_u64 l : length l = 8 → is_u64 (from_be_bytes l).
Proof.
  intros Hl. pose proof (be_value_range l) as Hr. rewrite Hl in Hr.
  change (256 ^ Z.of_nat 8)%Z with (2 ^ 64)%Z in Hr.
  unfold is_u64, U64_MAX, from_be_bytes. lia.
Qed.

Lemma to_be_bytes_inj z z' : is_u64 z → is_u64 z' → to_be_bytes z = to_be_bytes z' → z = z'.
Proof. intros ?? H%(f_equal from_be_bytes). by rewrite !from_to_be_bytes in H. Qed.

(** ** Strings as bytes *)

Definition as_bytes (s : string) : bytes := String.list_byte_of_string s.
Definition len (s : string) : Z := Z.of_nat (String.length s).
Definition blen (l : bytes) : Z := Z.of_nat (length l).
Definition is_empty (s : string) : bool := s == ""%string.

#[export] Instance as_bytes_inj : Inj (=) (=) as_bytes.
Proof.
  intros s s' H%(f_equal String.string_of_list_byte).
  by rewrite !String.string_of_list_byte_of_string in H.
Qed.

Lemma length_as_bytes s : length (as_bytes s) = String.length s.
Proof.
  induction s as [|a s IH]; [done|]. unfold as_bytes, String.list_byte_of_string in *.
  simpl. rewrite length_map in *. simpl. by rewrite IH.
Qed.

Lemma as_bytes_cons a s : as_bytes (String a s) = Ascii.byte_of_ascii a :: as_bytes s.
Proof. done. Qed.

Lemma as_bytes_app s t : as_bytes (s +:+ t) = as_bytes s ++ as_bytes t.
Proof.
  induction s as [|a s IH]; [done|].
  change (String a s +:+ t) with (String a (s +:+ t)). by rewrite !as_bytes_cons, IH.
Qed.

Lemma len_app s t : len (s +:+ t) = (len s + len t)%Z.
Proof. unfold len. rewrite <-!length_as_bytes, as_bytes_app, length_app. lia. Qed.

(** [str::strip_prefix]. *)
Fixpoint strip_prefix (prefix s : string) : option string :=
  match prefix, s with
  | "", _ => Some s
  | String a p, String b t => if decide (a = b) then strip_prefix p t else None
  | _, _ => None
  end%string.

Lemma strip_prefix_Some p s t : strip_prefix p s = Some t ↔ s = p +:+ t.
Proof.
  revert s. induction p as [|a p IH]; intros s; simpl; [naive_solver|].
  destruct s as [|b s]; [done|]. case_decide as Hab.
  - subst. rewrite IH. split; [by intros -> | by intros [= ->]].
  - split; [done|]. intros [= -> _]. done.
Qed.

(** ASCII classes of [u8]. *)
Definition in_range (lo hi : Z) (b : byte) : bool :=
  (lo <=? byte_val b)%Z && (byte_val b <=? hi)%Z.
Definition is_ascii_digit (b : byte) : bool := in_range 48 57 b.
Definition is_ascii_uppercase (b : byte) : bool := in_range 65 90 b.
Definition is_ascii_lowercase (b : byte) : bool := in_range 97 122 b.
Definition is_ascii_alphanumeric (b : byte) : bool :=
  is_ascii_digit b || is_ascii_uppercase b || is_ascii_lowercase b.
(** [b'a'..=b'f']. *)
Definition is_lower_a_f (b : byte) : bool := in_range 97 102 b.
Definition is_ascii_hexdigit (b : byte) : bool :=
  is_ascii_digit b || in_range 65 70 b || is_lower_a_f b.

Definition all_bytes (f : byte → bool) (s : string) : bool := forallb f (as_bytes s).

(** ** Hexadecimal formatting *)

(** One digit of [{:x}]. *)
Definition hex_digit (z : Z) : Ascii.ascii :=
  Ascii.ascii_of_byte (byte_of_Z (if (z <? 10)%Z then z + 48 else z + 87)).

(** [format!("{:x}", digest)]: two lower-case digits per byte. *)
Fixpoint hex_string (l : bytes) : string :=
  match l with
  | [] => ""
  | b :: l =>
      String (hex_digit (byte_val b / 16))
        (String (hex_digit (byte_val b mod 16)) (hex_string l))
  end.

Lemma byte_of_hex_digit z :
  Ascii.byte_of_ascii (hex_digit z) =
  byte_of_Z (if (z <? 10)%Z then z + 48 else z + 87)%Z.
Proof. apply Ascii.byte_of_ascii_of_byte. Qed.

Lemma hex_digit_inj z z' :
  (0 ≤ z < 16)%Z → (0 ≤ z' < 16)%Z → hex_digit z = hex_digit z' → z = z'.
Proof.
  intros ?? H%(f_equal (λ a, byte_val (Ascii.byte_of_ascii a))).
  rewrite !byte_of_hex_digit, !byte_val_of_Z in H.
  destruct (Z.ltb_spec z 10), (Z.ltb_spec z' 10); rewrite !Z.mod_small in H by lia; lia.
Qed.

Lemma nibbles_range b : (0 ≤ byte_val b / 16 < 16 ∧ 0 ≤ byte_val b mod 16 < 16)%Z.
Proof.
  pose proof (byte_val_range b). split; [|apply Z.mod_pos_bound; done].
  split; [apply Z.div_pos; lia | apply Z.div_lt_upper_bound; lia].
Qed.

#[export] Instance hex_string_inj : Inj (=) (=) hex_string.
Proof.
  intros l. induction l as [|b l IH]; intros [|b' l']; try done.
  simpl. intros [= H1 H2 H3%IH]. subst l'. f_equal.
  destruct (nibbles_range b) as [Hb1 Hb2], (nibbles_range b') as [Hc1 Hc2].
  apply hex_digit_inj in H1; [|done..]. apply hex_digit_inj in H2; [|done..].
  apply (inj byte_val).
  by rewrite (Z.div_mod (byte_val b) 16), (Z.div_mod (byte_val b') 16), H1, H2 by done.
Qed.

Lemma length_hex_string l : String.length (hex_string l) = 2 * length l.
Proof. induction l as [|b l IH]; [done|]. simpl. rewrite IH. lia. Qed.

Lemma hex_digit_class z :
  (0 ≤ z < 16)%Z →
  is_ascii_digit (Ascii.byte_of_ascii (hex_digit z)) ||
  is_lower_a_f (Ascii.byte_of_ascii (hex_digit z)) = true.
Proof.
  intros ?. rewrite byte_of_hex_digit. unfold is_ascii_digit, is_lower_a_f, in_range.
  rewrite byte_val_of_Z. destruct (Z.ltb_spec z 10); rewrite Z.mod_small by lia; lia.
Qed.

Lemma hex_string_class l :
  all_bytes (λ b, is_ascii_digit b || is_lower_a_f b) (hex_string l) = true.
Proof.
  induction l as [|b l IH]; [done|].
  destruct (nibbles_range b). unfold all_bytes in *. simpl hex_string.
  rewrite !as_bytes_cons. cbn [forallb]. by rewrite !hex_digit_class, IH by done.
Qed.

(** ** Typed digests *)

(** The check the core, the policy and the protocol apply to every hash they
    accept: the text [sha256:] and 64 lower-case hexadecimal digits. *)
Definition sha256_text (value : string) : bool :=
  match strip_prefix "sha256:" value with
  | Some digest =>
      (len digest =? 64)%Z
      && all_bytes (λ b, is_ascii_digit b || is_lower_a_f b) digest
  | None => false
  end.

(** The check applied to every typed identifier: the prefix, a nonempty suffix
    of ASCII letters, digits and dashes, at most 128 bytes in all. *)
Definition typed_id (value prefix : string) : bool :=
  match strip_prefix prefix value with
  | Some suffix =>
      negb (is_empty suffix)
      && (len value <=? 128)%Z
      && all_bytes (λ b, is_ascii_alphanumeric b || (b == x2d)) suffix
  | None => false
  end.

Lemma sha256_text_len s : sha256_text s = true → len s = 71%Z.
Proof.
  unfold sha256_text. destruct (strip_prefix _ s) as [d|] eqn:E; [|done].
  apply strip_prefix_Some in E as ->. intros [Hl _]%andb_true_iff.
  apply Z.eqb_eq in Hl. rewrite len_app, Hl. done.
Qed.

Lemma typed_id_len s p : typed_id s p = true → (0 ≤ len s ≤ 128)%Z.
Proof.
  unfold typed_id. destruct (strip_prefix _ s) as [d|] eqn:E; [|done].
  intros [[_ Hl]%andb_true_iff _]%andb_true_iff. apply Z.leb_le in Hl.
  unfold len in *. lia.
Qed.

(** [format!("sha256:{:x}", digest)]. *)
Definition sha256_format (digest : bytes) : string := "sha256:" +:+ hex_string digest.

#[export] Instance sha256_format_inj : Inj (=) (=) sha256_format.
Proof. intros x y. unfold sha256_format. simpl. intros [= H]. by apply (inj hex_string). Qed.

Lemma sha256_format_text d : length d = 32 → sha256_text (sha256_format d) = true.
Proof.
  intros Hd. unfold sha256_text, sha256_format.
  replace (strip_prefix "sha256:" ("sha256:" +:+ hex_string d)) with (Some (hex_string d))
    by (symmetry; by apply strip_prefix_Some).
  unfold len. by rewrite length_hex_string, Hd, hex_string_class.
Qed.

(** ** Length-prefixed framing *)

(** [digest.update((value.len() as u64).to_be_bytes()); digest.update(value)]. *)
Definition frame (v : bytes) : bytes := to_be_bytes (blen v) ++ v.
Definition frames (vs : list bytes) : bytes := concat (map frame vs).

(** A value fits when its length is a [u64]. *)
Definition fits (v : bytes) : Prop := is_u64 (blen v).

Lemma frame_app_inj v v' t t' :
  fits v → fits v' → frame v ++ t = frame v' ++ t' → v = v' ∧ t = t'.
Proof.
  intros Hv Hv'. unfold frame. rewrite <-!app_assoc. intros H.
  apply app_inj_1 in H as [Hl H]; [|by rewrite !length_to_be_bytes].
  apply to_be_bytes_inj in Hl; [|done..]. unfold blen in Hl.
  apply app_inj_1 in H; [done|lia].
Qed.

Lemma frames_cons v vs : frames (v :: vs) = frame v ++ frames vs.
Proof. done. Qed.

Lemma frames_app_inj vs vs' t t' :
  length vs = length vs' → Forall fits vs → Forall fits vs' →
  frames vs ++ t = frames vs' ++ t' → vs = vs' ∧ t = t'.
Proof.
  revert vs'. induction vs as [|v vs IH]; intros [|v' vs'] Hl Hv Hv' Heq; try done.
  rewrite Forall_cons in Hv, Hv'. destruct Hv as [??], Hv' as [??].
  rewrite !frames_cons, <-!app_assoc in Heq.
  apply frame_app_inj in Heq as [-> Heq]; [|done..].
  simpl in Hl. apply IH in Heq as [-> ->]; [done|lia|done|done].
Qed.

Lemma fits_as_bytes s : (len s ≤ U64_MAX)%Z → fits (as_bytes s).
Proof. intros ?. unfold fits, is_u64, blen. rewrite length_as_bytes. unfold len in *. lia. Qed.

Lemma fits_sha256_text s : sha256_text s = true → fits (as_bytes s).
Proof. intros H%sha256_text_len. apply fits_as_bytes. rewrite H. done. Qed.

Lemma fits_typed_id s p : typed_id s p = true → fits (as_bytes s).
Proof. intros H%typed_id_len. apply fits_as_bytes. unfold U64_MAX. lia. Qed.

#[export] Hint Resolve fits_sha256_text fits_typed_id length_to_be_bytes : kernaid.

Lemma blen_app (a b : bytes) : blen (a ++ b) = (blen a + blen b)%Z.
Proof. unfold blen. rewrite length_app. lia. Qed.

(** ** Domain tags *)

(** A hash domain is a text without a NUL byte followed by one NUL. *)
Definition nul_free (l : bytes) : bool := forallb (λ b, b != x00) l.
Definition domain (s : string) : bytes := as_bytes s ++ [x00].

Lemma nul_terminated_inj l l' t t' :
  nul_free l = true → nul_free l' = true →
  l ++ x00 :: t = l' ++ x00 :: t' → l = l' ∧ t = t'.
Proof.
  revert l'. induction l as [|b l IH]; intros [|b' l'] Hl Hl' Heq; simpl in *; simplify_eq; try done.
  apply andb_true_iff in Hl as [_ Hl], Hl' as [_ Hl'].
  by destruct (IH _ Hl Hl' ltac:(done)) as [-> ->].
Qed.

Lemma domain_app_inj d d' t t' :
  nul_free (as_bytes d) = true → nul_free (as_bytes d') = true →
  domain d ++ t = domain d' ++ t' → d = d' ∧ t = t'.
Proof.
  unfold domain. rewrite <-!app_assoc. simpl. intros ?? H.
  apply nul_terminated_inj in H as [H ->]; [|done..]. by apply (inj as_bytes) in H.
Qed.

(** ** Framed strings *)

Definition text_fits (s : string) : Prop := fits (as_bytes s).

#[export] Instance text_fits_dec s : Decision (text_fits s).
Proof. unfold text_fits, fits. apply _. Defined.

Lemma texts_app_inj ss ss' t t' :
  length ss = length ss' → Forall text_fits ss → Forall text_fits ss' →
  frames (map as_bytes ss) ++ t = frames (map as_bytes ss') ++ t' → ss = ss' ∧ t = t'.
Proof.
  intros Hl Hs Hs' Heq. apply frames_app_inj in Heq as [Heq ->].
  - split; [|done]. by apply (inj (map as_bytes)) in Heq.
  - by rewrite !length_map.
  - by apply Forall_map.
  - by apply Forall_map.
Qed.

Lemma texts_inj ss ss' :
  length ss = length ss' → Forall text_fits ss → Forall text_fits ss' →
  frames (map as_bytes ss) = frames (map as_bytes ss') → ss = ss'.
Proof.
  intros Hl Hs Hs' Heq. apply (f_equal (.++ [])) in Heq.
  by apply texts_app_inj in Heq as [-> _].
Qed.

Lemma to_be_bytes_app_inj z z' t t' :
  is_u64 z → is_u64 z' → to_be_bytes z ++ t = to_be_bytes z' ++ t' → z = z' ∧ t = t'.
Proof.
  intros ?? Heq. apply app_inj_1 in Heq as [Hz ->]; [|by rewrite !length_to_be_bytes].
  by apply to_be_bytes_inj in Hz.
Qed.

Lemma frame_text_inj s s' :
  text_fits s → text_fits s' → frame (as_bytes s) = frame (as_bytes s') → s = s'.
Proof.
  intros Hs Hs' Heq. apply (f_equal (.++ [])) in Heq.
  apply frame_app_inj in Heq as [Heq _]; [|done..]. by apply (inj as_bytes).
Qed.

Lemma text_fits_sha256 s : sha256_text s = true → text_fits s.
Proof. apply fits_sha256_text. Qed.
Lemma text_fits_typed_id s p : typed_id s p = true → text_fits s.
Proof. apply fits_typed_id. Qed.
#[export] Hint Resolve text_fits_sha256 text_fits_typed_id : kernaid.

#[global] Arguments as_bytes : simpl never.
#[global] Arguments to_be_bytes : simpl never.
#[global] Arguments frame : simpl never.
#[global] Arguments frames : simpl never.
#[global] Arguments domain : simpl never.
