(* ===== verification/Crypto.v ===== *)
(** * Interfaces of the cryptographic packages the sources call

    [sha2] and [chacha20poly1305] are third-party packages. What the sources
    call of them is a parameter: an operation class, and a class of laws for
    the documented behaviour a theorem relies on. No law says that a hash is
    injective or that a forgery is impossible. A theorem about tampering
    returns the two inputs whose digests agree instead ([collision]). *)

From Stdlib.Strings Require Import Byte.
From S2P Require Import Prelude Bytes.

(** ** SHA-256 *)

Class Sha256 : Type := sha256 : bytes → bytes.

Class Sha256Laws `{Sha256} : Prop :=
  length_sha256 : ∀ m, length (sha256 m) = 32.

(** Two inputs that break collision resistance. *)
Definition collision `{Sha256} (m m' : bytes) : Prop :=
  m ≠ m' ∧ sha256 m = sha256 m'.

(** [format!("sha256:{:x}", Sha256::digest(m))]. *)
Definition sha256_tagged `{Sha256} (m : bytes) : string := sha256_format (sha256 m).

Lemma sha256_tagged_text `{Sha256Laws} m : sha256_text (sha256_tagged m) = true.
Proof. apply sha256_format_text, length_sha256. Qed.

Lemma sha256_tagged_inj `{Sha256} m m' :
  sha256_tagged m = sha256_tagged m' → m = m' ∨ collision m m'.
Proof.
  intros Heq%(inj sha256_format). destruct (decide (m = m')); [by left | by right].
Qed.

Lemma sha256_tagged_ne `{Sha256} m m' :
  m ≠ m' → sha256_tagged m = sha256_tagged m' → collision m m'.
Proof. intros ? [->|]%sha256_tagged_inj; done. Qed.

#[export] Hint Resolve sha256_tagged_text : kernaid.

(** ** XChaCha20-Poly1305 *)

(** Key, nonce, associated data and message. *)
Class Aead : Type := {
  aead_encrypt : bytes → bytes → bytes → bytes → option bytes;
  aead_decrypt : bytes → bytes → bytes → bytes → option bytes;
}.

Definition AEAD_TAG_BYTES : Z := 16.

(** Decryption inverts encryption, a ciphertext is as long as its message and a
    16-byte tag, and encryption succeeds on every message the cipher accepts, of which
    the journal uses those up to one mebibyte. *)
Class AeadLaws `{Aead} : Prop := {
  aead_roundtrip k n a m c :
    aead_encrypt k n a m = Some c → aead_decrypt k n a c = Some m;
  aead_length k n a m c :
    aead_encrypt k n a m = Some c → blen c = (blen m + AEAD_TAG_BYTES)%Z;
  aead_open_length k n a m c :
    aead_decrypt k n a c = Some m → blen c = (blen m + AEAD_TAG_BYTES)%Z;
  aead_total k n a m :
    (blen m ≤ 1048576)%Z → is_Some (aead_encrypt k n a m);
}.

(** ** Instances for evaluation

    Small computable functions with the stated laws. They are not secure and
    model no package: the witnesses evaluate the definitions with them. *)
Module Demo.

Definition demo_sha256 : Sha256 := λ m, be_bytes 32 (be_value m * 256 + blen m).

Lemma demo_sha256_laws : @Sha256Laws demo_sha256.
Proof. intros m. apply length_be_bytes. Qed.

Definition demo_tag : bytes := replicate 16 x54.

Definition demo_aead : Aead := {|
  aead_encrypt k n a m := Some (m ++ demo_tag);
  aead_decrypt k n a c :=
    if decide (drop (length c - 16) c = demo_tag) then Some (take (length c - 16) c) else None;
|}.

Lemma demo_aead_laws : @AeadLaws demo_aead.
Proof.
  split; simpl.
  - intros _ _ _ m c [= <-]. rewrite length_app. change (length demo_tag) with 16.
    replace (length m + 16 - 16) with (length m) by lia.
    rewrite drop_app_length, decide_True, take_app_length by done. done.
  - intros _ _ _ m c [= <-]. unfold blen. rewrite length_app.
    change (length demo_tag) with 16. unfold AEAD_TAG_BYTES. lia.
  - intros _ _ _ m c Hd. destruct (decide _) as [Ht|]; [|done]. injection Hd as <-.
    apply (f_equal length) in Ht. rewrite length_drop in Ht. change (length demo_tag) with 16 in Ht.
    unfold blen. rewrite length_take. unfold AEAD_TAG_BYTES. lia.
  - intros. by eexists.
Qed.

End Demo.
