(* ===== verification/Protocol.v ===== *)
(** * The typed plan protocol (crates/protocol/src/lib.rs)

    Risk levels, action steps and the plans the core admits, with the closed
    identifiers of the crypttab repair contract. *)

From S2P Require Import Prelude.

(** [Risk]. *)
Inductive Risk := R0 | R1 | R2 | R3 | R4.

#[export] Instance Risk_eq_dec : EqDecision Risk.
Proof. solve_decision. Defined.

(** [ActionStep]. *)
Record ActionStep := mkActionStep {
  action : string;
  risk : Risk;
  step_target_fingerprint : string;
  evidence_ids : list string;
  preconditions : list string;
  backup : option string;
  validation : string;
  rollback : option string;
}.

#[export] Instance ActionStep_eq_dec : EqDecision ActionStep.
Proof. solve_decision. Defined.

(** [ValidatedPlan]. *)
Record ValidatedPlan := mkValidatedPlan {
  plan_id : string;
  target_fingerprint : string;
  steps : list ActionStep;
}.

#[export] Instance ValidatedPlan_eq_dec : EqDecision ValidatedPlan.
Proof. solve_decision. Defined.

(** The constants of [rescue_crypttab_repair]. *)
Module rescue_crypttab_repair.

Definition ACTION_ID : string := "linux.crypttab.disable-missing-uuid.v1".
Definition RESOURCE_ID : string := "rescue:selected-linux-root:etc/crypttab".
Definition FINDING_ID : string := "KA-LNX-P0-012".
Definition FINDING_VERSION : Z := 1.
Definition EVIDENCE_IDS : list string :=
  ["E-LINUX-CRYPTTAB"; "E-LINUX-FSTAB"; "E-LINUX-LSBLK"].

End rescue_crypttab_repair.
