(* ===== verification/Policy.v ===== *)
(** * The admission policy (crates/policy/src/lib.rs)

    One validator per build feature: the phase-zero validator of every build,
    the disposable-fixture lab, and the repair and rollback contracts of the
    fstab and crypttab candidates. The theorems show that each candidate
    validator admits exactly one plan shape ([*_closed]), that the contracts
    exclude each other and the phase-zero validator, and that the sorted
    duplicate check of the fixture evidence decides [NoDup]. *)

From Stdlib.Strings Require Import Byte.
From stdpp Require Import sorting.
From S2P Require Import Prelude Bytes Protocol.

(** ** Constants *)

Definition FIXTURE_FSTAB_ACTION_ID : string := "linux.fstab.repair-entry.fixture-v1".
Definition FIXTURE_FSTAB_PREFLIGHT_ID : string := "linux.fstab.preflight".
Definition FIXTURE_FSTAB_BACKUP : string := "required".
Definition FIXTURE_FSTAB_VALIDATION_ID : string := "linux.boot.validate-fstab".
Definition FIXTURE_FSTAB_ROLLBACK_ID : string := "linux.fstab.restore".

Definition RESCUE_FSTAB_ACTION_ID : string := "linux.fstab.disable-missing-uuid.v1".
Definition RESCUE_FSTAB_FINDING_ID : string := "KA-LNX-P0-003".
Definition RESCUE_FSTAB_FINDING_VERSION : Z := 2.
Definition RESCUE_FSTAB_RESOURCE_ID : string := "rescue:selected-linux-root:etc/fstab".
Definition RESCUE_FSTAB_PREFLIGHT_ID : string := "linux.fstab.preflight".
Definition RESCUE_FSTAB_BACKUP : string := "required".
Definition RESCUE_FSTAB_VALIDATION_ID : string := "linux.boot.validate-fstab".
Definition RESCUE_FSTAB_ROLLBACK_ID : string := "linux.fstab.restore".
Definition RESCUE_FSTAB_ROLLBACK_EVIDENCE_ID : string := "E-RESCUE-FSTAB-SOURCE-RECEIPT".
Definition RESCUE_FSTAB_ROLLBACK_PREFLIGHT_ID : string := "linux.fstab.rollback-source.committed".
Definition RESCUE_FSTAB_ROLLBACK_BACKUP : string := "source-vault-backup".
Definition RESCUE_FSTAB_EVIDENCE_IDS : list string := ["E-LINUX-FSTAB"; "E-LINUX-LSBLK"].

Definition RESCUE_CRYPTTAB_ACTION_ID : string := rescue_crypttab_repair.ACTION_ID.
Definition RESCUE_CRYPTTAB_FINDING_ID : string := rescue_crypttab_repair.FINDING_ID.
Definition RESCUE_CRYPTTAB_FINDING_VERSION : Z := rescue_crypttab_repair.FINDING_VERSION.
Definition RESCUE_CRYPTTAB_RESOURCE_ID : string := rescue_crypttab_repair.RESOURCE_ID.
Definition RESCUE_CRYPTTAB_PREFLIGHT_ID : string := "linux.crypttab.preflight".
Definition RESCUE_CRYPTTAB_BACKUP : string := "required".
Definition RESCUE_CRYPTTAB_VALIDATION_ID : string := "linux.boot.validate-crypttab".
Definition RESCUE_CRYPTTAB_ROLLBACK_ID : string := "linux.crypttab.disable-missing-source.v1".
Definition RESCUE_CRYPTTAB_ROLLBACK_EVIDENCE_ID : string := "E-RESCUE-CRYPTTAB-SOURCE-RECEIPT".
Definition RESCUE_CRYPTTAB_ROLLBACK_PREFLIGHT_ID : string :=
  "linux.crypttab.rollback-source.committed".
Definition RESCUE_CRYPTTAB_ROLLBACK_BACKUP : string := "source-vault-backup".
Definition RESCUE_CRYPTTAB_EVIDENCE_IDS : list string := rescue_crypttab_repair.EVIDENCE_IDS.

Definition MAX_FIXTURE_EVIDENCE_IDS : Z := 32.
Definition MAX_TYPED_ID_BYTES : Z := 128.

(** [PolicyError]. *)
Inductive PolicyError :=
| MissingEvidence
| MissingValidation
| MutationDisabled
| MissingBackup
| MissingRollback
| InvalidFixturePlan
| IncoherentTargetFingerprint
| InvalidFixtureEvidence
| InvalidFixturePrecondition
| InvalidFixtureBackup
| InvalidFixtureValidation
| InvalidFixtureRollback
| InvalidRescueFstabPlan
| IncoherentRescueTargetFingerprint
| InvalidRescueFstabEvidence
| InvalidRescueFstabPrecondition
| InvalidRescueFstabBackup
| InvalidRescueFstabValidation
| InvalidRescueFstabRollback
| InvalidRescueCrypttabPlan
| InvalidRescueCrypttabEvidence
| InvalidRescueCrypttabPrecondition
| InvalidRescueCrypttabBackup
| InvalidRescueCrypttabValidation
| InvalidRescueCrypttabRollback.

#[export] Instance PolicyError_eq_dec : EqDecision PolicyError.
Proof. solve_decision. Defined.

(** ** Text helpers *)

(** The bytes of one Unicode [White_Space] character in UTF-8, as
    [str::trim] recognizes them: U+0009 to U+000D and U+0020; U+0085 and
    U+00A0; U+1680, U+2000 to U+200A, U+2028, U+2029, U+202F, U+205F and
    U+3000. *)
Definition white1 (b : byte) : bool := in_range 9 13 b || (b == x20).
Definition white2 (b c : byte) : bool := (b == xc2) && ((c == x85) || (c == xa0)).
Definition white3 (b c d : byte) : bool :=
  ((b == xe1) && (c == x9a) && (d == x80))
  || ((b == xe2) && (c == x80)
      && (in_range 128 138 d || (d == xa8) || (d == xa9) || (d == xaf)))
  || ((b == xe2) && (c == x81) && (d == x9f))
  || ((b == xe3) && (c == x80) && (d == x80)).

Fixpoint all_white (l : bytes) : bool :=
  match l with
  | [] => true
  | b :: l1 =>
      if white1 b then all_white l1
      else match l1 with
      | [] => false
      | c :: l2 =>
          if white2 b c then all_white l2
          else match l2 with
          | [] => false
          | d :: l3 => if white3 b c d then all_white l3 else false
          end
      end
  end.

(** [value.trim().is_empty()]. *)
Definition trim_is_empty (value : string) : bool := all_white (as_bytes value).

Definition valid_typed_id (value prefix : string) : bool :=
  match strip_prefix prefix value with
  | None => false
  | Some suffix =>
      negb (is_empty suffix)
      && (len value <=? MAX_TYPED_ID_BYTES)%Z
      && all_bytes (λ b, is_ascii_alphanumeric b || (b == x2d)) suffix
  end.

Definition valid_sha256_fingerprint (value : string) : bool := sha256_text value.

(** [slice.windows(2).any(|pair| pair[0] == pair[1])]. *)
Fixpoint adjacent_duplicates (l : list string) : bool :=
  match l with
  | a :: ((b :: _) as l') => (a == b) || adjacent_duplicates l'
  | _ => false
  end.

(** [sort_unstable] on strings: the order of equal strings is not observable. *)
Definition sort_unstable (l : list string) : list string := merge_sort String.le l.

(** ** Validators *)

Definition validate_phase_zero (step : ActionStep) : result PolicyError () :=
  reject (step.(evidence_ids) == []) with MissingEvidence;
  reject (trim_is_empty step.(validation)) with MissingValidation;
  reject (step.(risk) != R0) with MutationDisabled;
  Ok tt.

Definition validate_mutation_metadata (step : ActionStep) : result PolicyError () :=
  reject (((step.(risk) == R2) || (step.(risk) == R3)) && (step.(backup) == None))
    with MissingBackup;
  reject (((step.(risk) == R1) || (step.(risk) == R2) || (step.(risk) == R3))
          && (step.(rollback) == None))
    with MissingRollback;
  Ok tt.

Definition validate_fixture_evidence_ids (ids : list string) : result PolicyError () :=
  reject ((ids == []) || (MAX_FIXTURE_EVIDENCE_IDS <? Z.of_nat (length ids))%Z)
    with MissingEvidence;
  reject (existsb (λ id, negb (valid_typed_id id "E-")) ids) with InvalidFixtureEvidence;
  let canonical := sort_unstable ids in
  reject (adjacent_duplicates canonical) with InvalidFixtureEvidence;
  Ok tt.

Definition validate_fixture_repair_lab_plan (plan : ValidatedPlan)
    (session_target_fingerprint : string) : result PolicyError () :=
  reject (negb (valid_sha256_fingerprint session_target_fingerprint)
          || (plan.(target_fingerprint) != session_target_fingerprint))
    with IncoherentTargetFingerprint;
  match plan.(steps) with
  | [step] =>
      reject ((step.(action) != FIXTURE_FSTAB_ACTION_ID) || (step.(risk) != R2))
        with MutationDisabled;
      reject ((step.(step_target_fingerprint) != plan.(target_fingerprint))
              || negb (valid_sha256_fingerprint step.(step_target_fingerprint)))
        with IncoherentTargetFingerprint;
      _ ← validate_fixture_evidence_ids step.(evidence_ids);
      reject (negb (Nat.eqb (length step.(preconditions)) 1)
              || (step.(preconditions) !! 0 != Some FIXTURE_FSTAB_PREFLIGHT_ID))
        with InvalidFixturePrecondition;
      reject (step.(backup) != Some FIXTURE_FSTAB_BACKUP) with InvalidFixtureBackup;
      reject (step.(validation) != FIXTURE_FSTAB_VALIDATION_ID)
        with InvalidFixtureValidation;
      reject (step.(rollback) != Some FIXTURE_FSTAB_ROLLBACK_ID)
        with InvalidFixtureRollback;
      Ok tt
  | _ => Err InvalidFixturePlan
  end.

Definition validate_rescue_fstab_production_candidate_plan (plan : ValidatedPlan)
    (session_target_fingerprint : string) : result PolicyError () :=
  reject (negb (valid_sha256_fingerprint session_target_fingerprint)
          || (plan.(target_fingerprint) != session_target_fingerprint))
    with IncoherentRescueTargetFingerprint;
  match plan.(steps) with
  | [step] =>
      reject ((step.(action) != RESCUE_FSTAB_ACTION_ID) || (step.(risk) != R2))
        with MutationDisabled;
      reject ((step.(step_target_fingerprint) != plan.(target_fingerprint))
              || negb (valid_sha256_fingerprint step.(step_target_fingerprint)))
        with IncoherentRescueTargetFingerprint;
      reject (step.(evidence_ids) != RESCUE_FSTAB_EVIDENCE_IDS)
        with InvalidRescueFstabEvidence;
      reject (step.(preconditions) != [RESCUE_FSTAB_PREFLIGHT_ID])
        with InvalidRescueFstabPrecondition;
      reject (step.(backup) != Some RESCUE_FSTAB_BACKUP) with InvalidRescueFstabBackup;
      reject (step.(validation) != RESCUE_FSTAB_VALIDATION_ID)
        with InvalidRescueFstabValidation;
      reject (step.(rollback) != Some RESCUE_FSTAB_ROLLBACK_ID)
        with InvalidRescueFstabRollback;
      Ok tt
  | _ => Err InvalidRescueFstabPlan
  end.

Definition validate_rescue_fstab_rollback_plan (plan : ValidatedPlan)
    (session_target_fingerprint : string) : result PolicyError () :=
  reject (negb (valid_sha256_fingerprint session_target_fingerprint)
          || (plan.(target_fingerprint) != session_target_fingerprint))
    with IncoherentRescueTargetFingerprint;
  match plan.(steps) with
  | [step] =>
      reject ((step.(action) != RESCUE_FSTAB_ROLLBACK_ID) || (step.(risk) != R2))
        with MutationDisabled;
      reject ((step.(step_target_fingerprint) != plan.(target_fingerprint))
              || negb (valid_sha256_fingerprint step.(step_target_fingerprint)))
        with IncoherentRescueTargetFingerprint;
      reject (step.(evidence_ids) != [RESCUE_FSTAB_ROLLBACK_EVIDENCE_ID])
        with InvalidRescueFstabEvidence;
      reject (step.(preconditions) != [RESCUE_FSTAB_ROLLBACK_PREFLIGHT_ID])
        with InvalidRescueFstabPrecondition;
      reject (step.(backup) != Some RESCUE_FSTAB_ROLLBACK_BACKUP)
        with InvalidRescueFstabBackup;
      reject (step.(validation) != RESCUE_FSTAB_VALIDATION_ID)
        with InvalidRescueFstabValidation;
      reject (step.(rollback) != None) with InvalidRescueFstabRollback;
      Ok tt
  | _ => Err InvalidRescueFstabPlan
  end.

Definition validate_rescue_crypttab_production_candidate_plan (plan : ValidatedPlan)
    (session_target_fingerprint : string) : result PolicyError () :=
  reject (negb (valid_sha256_fingerprint session_target_fingerprint)
          || (plan.(target_fingerprint) != session_target_fingerprint))
    with IncoherentRescueTargetFingerprint;
  match plan.(steps) with
  | [step] =>
      reject ((step.(action) != RESCUE_CRYPTTAB_ACTION_ID) || (step.(risk) != R2))
        with MutationDisabled;
      reject ((step.(step_target_fingerprint) != plan.(target_fingerprint))
              || negb (valid_sha256_fingerprint step.(step_target_fingerprint)))
        with IncoherentRescueTargetFingerprint;
      reject (step.(evidence_ids) != RESCUE_CRYPTTAB_EVIDENCE_IDS)
        with InvalidRescueCrypttabEvidence;
      reject (step.(preconditions) != [RESCUE_CRYPTTAB_PREFLIGHT_ID])
        with InvalidRescueCrypttabPrecondition;
      reject (step.(backup) != Some RESCUE_CRYPTTAB_BACKUP)
        with InvalidRescueCrypttabBackup;
      reject (step.(validation) != RESCUE_CRYPTTAB_VALIDATION_ID)
        with InvalidRescueCrypttabValidation;
      reject (step.(rollback) != Some RESCUE_CRYPTTAB_ROLLBACK_ID)
        with InvalidRescueCrypttabRollback;
      Ok tt
  | _ => Err InvalidRescueCrypttabPlan
  end.

Definition validate_rescue_crypttab_rollback_plan (plan : ValidatedPlan)
    (session_target_fingerprint : string) : result PolicyError () :=
  reject (negb (valid_sha256_fingerprint session_target_fingerprint)
          || (plan.(target_fingerprint) != session_target_fingerprint))
    with IncoherentRescueTargetFingerprint;
  match plan.(steps) with
  | [step] =>
      reject ((step.(action) != RESCUE_CRYPTTAB_ROLLBACK_ID) || (step.(risk) != R2))
        with MutationDisabled;
      reject ((step.(step_target_fingerprint) != plan.(target_fingerprint))
              || negb (valid_sha256_fingerprint step.(step_target_fingerprint)))
        with IncoherentRescueTargetFingerprint;
      reject (step.(evidence_ids) != [RESCUE_CRYPTTAB_ROLLBACK_EVIDENCE_ID])
        with InvalidRescueCrypttabEvidence;
      reject (step.(preconditions) != [RESCUE_CRYPTTAB_ROLLBACK_PREFLIGHT_ID])
        with InvalidRescueCrypttabPrecondition;
      reject (step.(backup) != Some RESCUE_CRYPTTAB_ROLLBACK_BACKUP)
        with InvalidRescueCrypttabBackup;
      reject (step.(validation) != RESCUE_CRYPTTAB_VALIDATION_ID)
        with InvalidRescueCrypttabValidation;
      reject (step.(rollback) != None) with InvalidRescueCrypttabRollback;
      Ok tt
  | _ => Err InvalidRescueCrypttabPlan
  end.

(** ** Sorting finds every duplicate *)

Lemma adjacent_duplicates_spec l :
  StronglySorted String.le l → adjacent_duplicates l = false ↔ NoDup l.
Proof.
  induction l as [|a [|b l] IH]; intros Hs; [split; [constructor|done]|
    split; [intros; apply NoDup_singleton|done]|].
  apply StronglySorted_cons in Hs as [Ha Hs]. rewrite NoDup_cons. cbn [adjacent_duplicates].
  rewrite orb_false_iff, bool_decide_eq_false, (IH Hs). split; [|set_solver].
  intros [Hab Hnd]. split; [|done].
  rewrite Forall_cons in Ha. destruct Ha as [Hle _].
  intros [->|Hin]%elem_of_cons; [done|]. apply Hab.
  apply StronglySorted_cons in Hs as [Hb _]. rewrite Forall_forall in Hb.
  by apply (anti_symm String.le); [|apply Hb].
Qed.

Lemma sort_unstable_duplicates l : adjacent_duplicates (sort_unstable l) = false ↔ NoDup l.
Proof.
  unfold sort_unstable. rewrite adjacent_duplicates_spec.
  - by rewrite merge_sort_Permutation.
  - apply (StronglySorted_merge_sort String.le).
Qed.

(** ** Closed contracts *)

(** The four repair contracts that a candidate build can admit. *)
Inductive rescue_contract :=
| FstabRepair | FstabRollback | CrypttabRepair | CrypttabRollback.

Definition validate_contract (k : rescue_contract) :
    ValidatedPlan → string → result PolicyError () :=
  match k with
  | FstabRepair => validate_rescue_fstab_production_candidate_plan
  | FstabRollback => validate_rescue_fstab_rollback_plan
  | CrypttabRepair => validate_rescue_crypttab_production_candidate_plan
  | CrypttabRollback => validate_rescue_crypttab_rollback_plan
  end.

(** The one step each contract describes. *)
Definition contract_step (k : rescue_contract) (target : string) : ActionStep :=
  match k with
  | FstabRepair =>
      mkActionStep "linux.fstab.disable-missing-uuid.v1" R2 target
        ["E-LINUX-FSTAB"; "E-LINUX-LSBLK"] ["linux.fstab.preflight"] (Some "required")
        "linux.boot.validate-fstab" (Some "linux.fstab.restore")
  | FstabRollback =>
      mkActionStep "linux.fstab.restore" R2 target
        ["E-RESCUE-FSTAB-SOURCE-RECEIPT"] ["linux.fstab.rollback-source.committed"]
        (Some "source-vault-backup") "linux.boot.validate-fstab" None
  | CrypttabRepair =>
      mkActionStep "linux.crypttab.disable-missing-uuid.v1" R2 target
        ["E-LINUX-CRYPTTAB"; "E-LINUX-FSTAB"; "E-LINUX-LSBLK"] ["linux.crypttab.preflight"]
        (Some "required") "linux.boot.validate-crypttab"
        (Some "linux.crypttab.disable-missing-source.v1")
  | CrypttabRollback =>
      mkActionStep "linux.crypttab.disable-missing-source.v1" R2 target
        ["E-RESCUE-CRYPTTAB-SOURCE-RECEIPT"] ["linux.crypttab.rollback-source.committed"]
        (Some "source-vault-backup") "linux.boot.validate-crypttab" None
  end%string.

Definition contract_plan (k : rescue_contract) (id target : string) : ValidatedPlan :=
  mkValidatedPlan id target [contract_step k target].

Lemma validate_contract_closed k plan target :
  validate_contract k plan target = Ok tt ↔
    sha256_text target = true ∧ plan = contract_plan k plan.(plan_id) target.
Proof.
  split.
  - destruct plan as [id fp ss]; destruct k; unfold validate_contract,
      validate_rescue_fstab_production_candidate_plan,
      validate_rescue_fstab_rollback_plan, validate_rescue_crypttab_production_candidate_plan,
      validate_rescue_crypttab_rollback_plan, valid_sha256_fingerprint;
      cbn [target_fingerprint steps plan_id]; intros Hok; inv_ok Hok; guards;
      (split; [assumption|]); destruct a; cbn in *; subst; reflexivity.
  - intros [Ht ->]. destruct k; unfold validate_contract,
      validate_rescue_fstab_production_candidate_plan,
      validate_rescue_fstab_rollback_plan, validate_rescue_crypttab_production_candidate_plan,
      validate_rescue_crypttab_rollback_plan, valid_sha256_fingerprint;
      cbn [contract_plan contract_step target_fingerprint steps plan_id action risk backup
           step_target_fingerprint evidence_ids preconditions validation rollback];
      rewrite Ht; by autorewrite with kernaid.
Qed.

(** A contract step is exactly what the phase-zero validator refuses. *)
Lemma contract_step_phase_zero k target :
  validate_phase_zero (contract_step k target) = Err MutationDisabled.
Proof. destruct k; vm_compute; reflexivity. Qed.

Lemma contract_plan_inj k k' id id' t t' :
  contract_plan k id t = contract_plan k' id' t' → k = k' ∧ t = t'.
Proof. destruct k, k'; intros Heq; simplify_eq; done. Qed.

(** ** The fixture plan *)

Definition fixture_step (target : string) (ids : list string) : ActionStep :=
  mkActionStep FIXTURE_FSTAB_ACTION_ID R2 target ids [FIXTURE_FSTAB_PREFLIGHT_ID]
    (Some FIXTURE_FSTAB_BACKUP) FIXTURE_FSTAB_VALIDATION_ID (Some FIXTURE_FSTAB_ROLLBACK_ID).

(** The evidence lists the fixture lab accepts. *)
Definition fixture_evidence (ids : list string) : Prop :=
  (1 ≤ length ids ≤ 32) ∧ NoDup ids ∧ Forall (λ id, typed_id id "E-" = true) ids.

Lemma existsb_negb_false {A} (f : A → bool) l :
  existsb (λ x, negb (f x)) l = false ↔ Forall (λ x, f x = true) l.
Proof.
  induction l as [|x l IH]; simpl; [split; [constructor|done]|].
  rewrite orb_false_iff, negb_false_iff, IH, Forall_cons. done.
Qed.

Lemma validate_fixture_evidence_ids_Ok ids u :
  validate_fixture_evidence_ids ids = Ok u ↔ fixture_evidence ids.
Proof.
  unfold validate_fixture_evidence_ids, fixture_evidence, MAX_FIXTURE_EVIDENCE_IDS.
  rewrite !reject_Ok, orb_false_iff, bool_decide_eq_false, existsb_negb_false.
  rewrite sort_unstable_duplicates, Z.ltb_ge. destruct u, ids; naive_solver lia.
Qed.

Lemma validate_fixture_repair_lab_plan_closed plan target :
  validate_fixture_repair_lab_plan plan target = Ok tt ↔
    sha256_text target = true ∧
    ∃ ids, fixture_evidence ids ∧
      plan = mkValidatedPlan plan.(plan_id) target [fixture_step target ids].
Proof.
  unfold validate_fixture_repair_lab_plan, valid_sha256_fingerprint. split.
  - destruct plan as [id fp ss]. cbn [target_fingerprint steps plan_id]. intros Hok.
    inv_ok Hok. guards.
    destruct a as [? ? ? ids pre ? ? ?]; cbn in *.
    destruct pre as [|? [|]]; try done. cbn in *. simplify_eq.
    split; [done|]. exists ids. split; [by eapply validate_fixture_evidence_ids_Ok|done].
  - intros (Ht & ids & Hids & ->).
    cbn [target_fingerprint steps plan_id fixture_step action risk backup
         step_target_fingerprint evidence_ids preconditions validation rollback].
    rewrite Ht. apply (validate_fixture_evidence_ids_Ok ids tt) in Hids.
    autorewrite with kernaid. cbn [negb orb]. rewrite Hids. cbn [mbind result_bind length lookup list_lookup].
    by autorewrite with kernaid.
Qed.

(** ** Properties *)

(** C32. Each candidate contract admits exactly one plan per plan identifier and
    target: a plan passes a repair or rollback validator if and only if the
    session target is a well-formed SHA-256 text and the plan is the one-step R2
    plan that the contract spells out, bound to that target. The contracts
    exclude each other: no plan passes two of them, nor one of them for two
    session targets. *)
Theorem rescue_contracts_closed_and_exclusive k k' plan target target' :
  (validate_contract k plan target = Ok tt ↔
     sha256_text target = true ∧ plan = contract_plan k plan.(plan_id) target) ∧
  ¬ (validate_contract k plan target = Ok tt ∧
     validate_contract k' plan target' = Ok tt ∧ (k ≠ k' ∨ target ≠ target')).
Proof.
  split; [apply validate_contract_closed|].
  rewrite !validate_contract_closed. intros ([_ H] & [_ H'] & Hne).
  rewrite H in H'. apply contract_plan_inj in H'. naive_solver.
Qed.

(** Mutation never enters through the phase-zero door: every step of a plan
    that the fixture lab or a candidate contract admits is refused by the
    phase-zero validator, with the error for disabled mutation. *)
Theorem mutation_plans_fail_phase_zero plan target :
  (validate_fixture_repair_lab_plan plan target = Ok tt ∨
   ∃ k, validate_contract k plan target = Ok tt) →
  ∃ step, plan.(steps) = [step] ∧ validate_phase_zero step = Err MutationDisabled.
Proof.
  intros [H|[k H]].
  - apply validate_fixture_repair_lab_plan_closed in H as (_ & ids & [Hlen _] & ->).
    eexists; split; [done|]. destruct ids; [simpl in *; lia|]. vm_compute. done.
  - apply validate_contract_closed in H as [_ ->].
    eexists; split; [done|]. apply contract_step_phase_zero.
Qed.

Definition sample_target : string :=
  "sha256:aaaaaaaaaaaaaaaaaaaaaaaaaaaaaaaaaaaaaaaaaaaaaaaaaaaaaaaaaaaaaaaa".

Lemma mutation_plans_fail_phase_zero_witness :
  ∃ step, (contract_plan CrypttabRepair "P-1" sample_target).(steps) = [step] ∧
          validate_phase_zero step = Err MutationDisabled.
Proof.
  apply (mutation_plans_fail_phase_zero (contract_plan CrypttabRepair "P-1" sample_target)
           sample_target).
  right. exists CrypttabRepair. vm_compute. reflexivity.
Defined.

(** The fixture-lab validator admits a plan if and only if it is the pinned
    one-step fixture plan on the session target whose evidence is one to 32
    well-formed evidence identifiers without repetition: the sort-and-compare
    duplicate check finds every duplicate and rejects nothing else. *)
Theorem fixture_lab_admits_exactly plan target :
  validate_fixture_repair_lab_plan plan target = Ok tt ↔
    sha256_text target = true ∧
    ∃ ids, (1 ≤ length ids ≤ 32) ∧ NoDup ids ∧
      Forall (λ id, typed_id id "E-" = true) ids ∧
      plan = mkValidatedPlan plan.(plan_id) target [fixture_step target ids].
Proof.
  rewrite validate_fixture_repair_lab_plan_closed. unfold fixture_evidence. naive_solver.
Qed.
