(* ===== verification/Evidence.v ===== *)
(** * Evidence records and the Linux snapshot envelope (crates/evidence)

    The normalized snapshot, its contract and its envelope. The JSON writer
    and reader are [serde_json] with derived implementations: a parameter
    ([SnapshotSerde]) with the round trip as its law. The theorems show that
    [parse] accepts one byte string per envelope, that it inverts [new] and
    [canonical_json], and that the envelope hash commits to the snapshot. *)

From Stdlib.Strings Require Import Byte.
From S2P Require Import Prelude Bytes Crypto.

(** ** Evidence *)

(** [Evidence]. *)
Record Evidence := mkEvidence {
  ev_id : string;
  ev_collector : string;
  ev_target : string;
  ev_captured_at : string;
  ev_content_type : string;
  ev_sha256 : string;
  ev_sensitivity : string;
  ev_trust : string;
  ev_summary : string;
  ev_blob_ref : string;
}.

Definition is_untrusted (e : Evidence) : bool := e.(ev_trust) == "observed-untrusted"%string.

(** ** Constants *)

Definition COLLECTOR : string := "linux.normalized-snapshot.v1".
Definition CONTENT_TYPE : string := "application/json".
Definition SCHEMA_VERSION : string := "1.0".
Definition KIND : string := "linux-normalized-snapshot".
Definition SNAPSHOT_SCOPE : string := "installed-root-static".
Definition COLLECTION_SCOPE : string := "root-filesystem-only".
Definition MAX_ENVELOPE_BYTES : Z := 48 * 1024.
Definition HASH_DOMAIN : bytes := domain "KERNAID_LINUX_NORMALIZED_SNAPSHOT_V1".
Definition MAX_RELEASE_VALUE_BYTES : Z := 256.
Definition MAX_BOOT_ENTRIES : Z := 512.
Definition MAX_FSTAB_ENTRIES : Z := 65536.

(** [SnapshotError]. *)
Inductive SnapshotError := InvalidSize | InvalidJson | InvalidContract | HashMismatch.

#[export] Instance SnapshotError_eq_dec : EqDecision SnapshotError.
Proof. solve_decision. Defined.

(** ** Data *)

(** [LinuxSnapshotCapture]. *)
Inductive LinuxSnapshotCapture :=
| Resident (target_scope access_policy : string)
    (caller_supplied_path mutation_requested cross_device_traversal_allowed : bool)
| Rescue (target_scope access_policy : string)
    (device_opened_read_only journal_replay_prevented private_mount_namespace
     mount_cleanup_verified mutation_performed cross_device_traversal_allowed : bool).

Definition capture_resident : LinuxSnapshotCapture :=
  Resident "running-root" "fixed-descriptor-read-only" false false false.
Definition capture_rescue : LinuxSnapshotCapture :=
  Rescue "selected-installed-target" "temporary-read-only-no-replay"
    true true true true false false.

Definition is_resident (c : LinuxSnapshotCapture) : bool :=
  match c with Resident _ _ _ _ _ => true | _ => false end.
Definition is_rescue (c : LinuxSnapshotCapture) : bool :=
  match c with Rescue _ _ _ _ _ _ _ _ => true | _ => false end.

Definition capture_valid (c : LinuxSnapshotCapture) : bool :=
  match c with
  | Resident target_scope access_policy caller_supplied_path mutation_requested cross =>
      (target_scope == "running-root"%string)
      && (access_policy == "fixed-descriptor-read-only"%string)
      && negb caller_supplied_path && negb mutation_requested && negb cross
  | Rescue target_scope access_policy read_only no_replay private cleanup mutated cross =>
      (target_scope == "selected-installed-target"%string)
      && (access_policy == "temporary-read-only-no-replay"%string)
      && read_only && no_replay && private && cleanup && negb mutated && negb cross
  end.

(** [LinuxFilesystemTopology]. *)
Record LinuxFilesystemTopology := mkTopology {
  collection_scope : string;
  separate_etc_mount_present : bool;
  separate_boot_mount_present : bool;
  separate_usr_mount_present : bool;
  separate_var_mount_present : bool;
  relevant_separate_mount_present : bool;
  supported : bool;
}.

(** [LinuxRelease]. *)
Record LinuxRelease := mkRelease {
  release_id : option string;
  release_name : option string;
  release_pretty_name : option string;
  release_version_id : option string;
  release_source : string;
}.

(** [LinuxBoot]; the counts are [u32]. *)
Record LinuxBoot := mkBoot {
  directory_present : bool;
  kernel_artifact_count : Z;
  initramfs_artifact_count : Z;
  bootloader_directory_count : Z;
  symlink_artifact_count : Z;
}.

(** [LinuxFstabSummary]; the counts are [u32]. *)
Record LinuxFstabSummary := mkFstab {
  fstab_present : bool;
  entry_count : Z;
  root_entry_present : bool;
  efi_entry_present : bool;
  swap_entry_count : Z;
  network_entry_count : Z;
  malformed_line_count : Z;
}.

(** [LinuxConfiguration]. *)
Record LinuxConfiguration := mkConfiguration {
  fstab : LinuxFstabSummary;
  machine_id_present : bool;
}.

(** [LinuxPackageDatabases]. *)
Record LinuxPackageDatabases := mkPackageDatabases {
  dpkg_status_present : bool;
  rpm_database_present : bool;
  pacman_database_present : bool;
}.

(** [LinuxNormalizedSnapshot]. *)
Record LinuxNormalizedSnapshot := mkSnapshot {
  family : string;
  scope : string;
  installation_confirmed : bool;
  topology : LinuxFilesystemTopology;
  release : LinuxRelease;
  boot : LinuxBoot;
  configuration : LinuxConfiguration;
  package_databases : LinuxPackageDatabases;
}.

(** [LinuxNormalizedSnapshotEnvelope]. *)
Record LinuxNormalizedSnapshotEnvelope := mkEnvelope {
  schema_version : string;
  kind : string;
  snapshot_sha256 : string;
  capture : LinuxSnapshotCapture;
  snapshot : LinuxNormalizedSnapshot;
}.

(** ** The snapshot contract *)

(** [value.chars().any(char::is_control)] on UTF-8: U+0000 to U+001F, U+007F,
    and U+0080 to U+009F, which are the byte C2 followed by 80 to 9F. *)
Fixpoint has_control (l : bytes) : bool :=
  match l with
  | [] => false
  | b :: l' =>
      in_range 0 31 b || (b == x7f)
      || ((b == xc2) && match l' with c :: _ => in_range 128 159 c | [] => false end)
      || has_control l'
  end.

Definition release_values (r : LinuxRelease) : list (option string) :=
  [r.(release_id); r.(release_name); r.(release_pretty_name); r.(release_version_id)].

Definition bad_release_value (value : string) : bool :=
  is_empty value
  || (MAX_RELEASE_VALUE_BYTES <? len value)%Z
  || has_control (as_bytes value).

Definition snapshot_validate (s : LinuxNormalizedSnapshot) : result SnapshotError () :=
  let t := s.(topology) in
  let r := s.(release) in
  let b := s.(boot) in
  let f := s.(configuration).(fstab) in
  reject (
    (s.(family) != "linux"%string)
    || (s.(scope) != SNAPSHOT_SCOPE)
    || (t.(collection_scope) != COLLECTION_SCOPE)
    || negb (Bool.eqb t.(relevant_separate_mount_present)
         (t.(separate_etc_mount_present) || t.(separate_boot_mount_present)
          || t.(separate_usr_mount_present) || t.(separate_var_mount_present)))
    || Bool.eqb t.(supported) t.(relevant_separate_mount_present)
    || existsb (λ v, match v with Some v => bad_release_value v | None => false end)
         (release_values r)
    || negb ((r.(release_source) == "etc-os-release"%string)
             || (r.(release_source) == "usr-lib-os-release"%string)
             || (r.(release_source) == "absent"%string))
    || ((r.(release_source) == "absent"%string)
        && existsb (λ v, bool_decide (is_Some v)) (release_values r))
    || (s.(installation_confirmed) && (r.(release_id) == None))
    || (MAX_BOOT_ENTRIES <? b.(kernel_artifact_count))%Z
    || (MAX_BOOT_ENTRIES <? b.(initramfs_artifact_count))%Z
    || (3 <? b.(bootloader_directory_count))%Z
    || (MAX_BOOT_ENTRIES <? b.(symlink_artifact_count))%Z
    || (negb b.(directory_present)
        && ((b.(kernel_artifact_count) != 0%Z)
            || (b.(initramfs_artifact_count) != 0%Z)
            || (b.(bootloader_directory_count) != 0%Z)
            || (b.(symlink_artifact_count) != 0%Z)))
    || (MAX_FSTAB_ENTRIES <? f.(entry_count))%Z
    || (MAX_FSTAB_ENTRIES <? f.(malformed_line_count))%Z
    || (MAX_FSTAB_ENTRIES <? saturating_add_u32 f.(entry_count) f.(malformed_line_count))%Z
    || (f.(entry_count) <? f.(swap_entry_count))%Z
    || (f.(entry_count) <? f.(network_entry_count))%Z
    || (negb f.(fstab_present)
        && ((f.(entry_count) != 0%Z)
            || f.(root_entry_present)
            || f.(efi_entry_present)
            || (f.(swap_entry_count) != 0%Z)
            || (f.(network_entry_count) != 0%Z)
            || (f.(malformed_line_count) != 0%Z))))
    with InvalidContract;
  Ok tt.

Definition valid_hash (value : string) : bool :=
  (len value =? 64)%Z
  && all_bytes (λ b, is_ascii_hexdigit b && negb (is_ascii_uppercase b)) value.

(** ** Serialization *)

(** [serde_json::to_vec] on the two derived types, and [deserialize] followed by
    [Deserializer::end] on the envelope. *)
Class SnapshotSerde : Type := {
  snapshot_to_vec : LinuxNormalizedSnapshot → option bytes;
  envelope_to_vec : LinuxNormalizedSnapshotEnvelope → option bytes;
  envelope_from_slice : bytes → option LinuxNormalizedSnapshotEnvelope;
}.

(** Reading what was written gives the value back; distinct snapshots are
    written differently. *)
Class SnapshotSerdeLaws `{SnapshotSerde} : Prop := {
  envelope_from_to e b : envelope_to_vec e = Some b → envelope_from_slice b = Some e;
  snapshot_to_vec_inj s s' b :
    snapshot_to_vec s = Some b → snapshot_to_vec s' = Some b → s = s';
}.

Section envelope.
Context `{sha : Sha256} `{serde : SnapshotSerde}.

Definition snapshot_canonical_json (s : LinuxNormalizedSnapshot) :
    result SnapshotError bytes :=
  _ ← snapshot_validate s;
  ok_or (snapshot_to_vec s) InvalidJson.

Definition snapshot_hash (s : LinuxNormalizedSnapshot) : result SnapshotError string :=
  canonical ← snapshot_canonical_json s;
  Ok (hex_string (sha256 (HASH_DOMAIN ++ canonical))).

Definition envelope_new (c : LinuxSnapshotCapture) (s : LinuxNormalizedSnapshot) :
    result SnapshotError LinuxNormalizedSnapshotEnvelope :=
  _ ← snapshot_validate s;
  reject (negb (capture_valid c)) with InvalidContract;
  h ← snapshot_hash s;
  Ok (mkEnvelope SCHEMA_VERSION KIND h c s).

Definition envelope_validate (e : LinuxNormalizedSnapshotEnvelope) :
    result SnapshotError () :=
  reject ((e.(schema_version) != SCHEMA_VERSION)
          || (e.(kind) != KIND)
          || negb (capture_valid e.(capture))
          || negb (valid_hash e.(snapshot_sha256)))
    with InvalidContract;
  _ ← snapshot_validate e.(snapshot);
  h ← snapshot_hash e.(snapshot);
  reject (h != e.(snapshot_sha256)) with HashMismatch;
  Ok tt.

Definition envelope_canonical_json (e : LinuxNormalizedSnapshotEnvelope) :
    result SnapshotError bytes :=
  _ ← envelope_validate e;
  ok_or (envelope_to_vec e) InvalidJson.

Definition envelope_parse (input : bytes) :
    result SnapshotError LinuxNormalizedSnapshotEnvelope :=
  reject ((input == []) || (MAX_ENVELOPE_BYTES <? blen input)%Z) with InvalidSize;
  envelope ← ok_or (envelope_from_slice input) InvalidJson;
  _ ← envelope_validate envelope;
  canonical ← envelope_canonical_json envelope;
  reject (canonical != input) with InvalidJson;
  Ok envelope.

(** What [snapshot_hash] feeds to SHA-256. *)
Definition snapshot_preimage (s : LinuxNormalizedSnapshot) : bytes :=
  HASH_DOMAIN ++ default [] (snapshot_to_vec s).

(** ** Lemmas *)

Lemma hex_digest_valid_hash d : length d = 32 → valid_hash (hex_string d) = true.
Proof.
  intros Hd. unfold valid_hash, len. rewrite length_hex_string, Hd.
  apply andb_true_iff; split; [done|].
  pose proof (hex_string_class d) as Hc. unfold all_bytes in *.
  rewrite forallb_forall in Hc |- *. intros b Hb%Hc. revert Hb.
  unfold is_ascii_hexdigit, is_ascii_uppercase, is_ascii_digit, is_lower_a_f, in_range. lia.
Qed.

Lemma snapshot_hash_Ok s h :
  snapshot_hash s = Ok h ↔
    ∃ b, snapshot_validate s = Ok tt ∧ snapshot_to_vec s = Some b ∧
         h = hex_string (sha256 (HASH_DOMAIN ++ b)).
Proof.
  unfold snapshot_hash, snapshot_canonical_json.
  destruct (snapshot_validate s) as [[]|]; [|naive_solver].
  destruct (snapshot_to_vec s); simpl; naive_solver.
Qed.

Lemma envelope_validate_Ok e :
  envelope_validate e = Ok tt ↔
    e = mkEnvelope SCHEMA_VERSION KIND e.(snapshot_sha256) e.(capture) e.(snapshot) ∧
    capture_valid e.(capture) = true ∧ valid_hash e.(snapshot_sha256) = true ∧
    snapshot_hash e.(snapshot) = Ok e.(snapshot_sha256).
Proof.
  unfold envelope_validate. split.
  - intros Hok. inv_ok Hok. guards. destruct e; simpl in *; by subst.
  - destruct e as [v k h c s]; cbn [schema_version kind capture snapshot snapshot_sha256].
    intros ([= -> ->] & Hc & Hh & Hs). rewrite Hc, Hh, Hs. apply snapshot_hash_Ok in Hs as (b & -> & _).
    cbn. by autorewrite with kernaid.
Qed.

Lemma envelope_parse_Ok input e :
  envelope_parse input = Ok e ↔
    input ≠ [] ∧ (blen input ≤ MAX_ENVELOPE_BYTES)%Z ∧
    envelope_from_slice input = Some e ∧ envelope_validate e = Ok tt ∧
    envelope_to_vec e = Some input.
Proof.
  unfold envelope_parse, envelope_canonical_json. split.
  - intros Hok. inv_ok Hok. inv_ok Hcall1. guards. rewrite Z.ltb_ge in Hguard. by subst.
  - intros (Hne & Hle & Hf & Hv & Ht). rewrite Hf. cbn. rewrite Hv. cbn. rewrite Ht. cbn.
    rewrite (bool_decide_eq_false_2 (input = [])) by done.
    rewrite (proj2 (Z.ltb_ge _ _) Hle). by autorewrite with kernaid.
Qed.

Lemma envelope_new_valid `{!Sha256Laws} c s e :
  envelope_new c s = Ok e → envelope_validate e = Ok tt ∧ e.(capture) = c ∧ e.(snapshot) = s.
Proof.
  unfold envelope_new. intros Hok. inv_ok Hok. guards.
  split; [|done]. apply envelope_validate_Ok. repeat split; [done| |done].
  cbn. apply snapshot_hash_Ok in Hcall0 as (b & _ & _ & ->).
  apply hex_digest_valid_hash, length_sha256.
Qed.

End envelope.

(** ** Properties *)

Section properties.
Context `{sha : Sha256} `{serde : SnapshotSerde} {serde_laws : SnapshotSerdeLaws}.

(** The parser accepts only the canonical bytes of a valid envelope: what it
    returns is valid, serializes back to exactly the accepted input, and its
    recorded hash is the domain-separated digest of the canonical snapshot; and
    no two accepted inputs give the same envelope. *)
Theorem snapshot_parse_canonical input input' e :
  envelope_parse input = Ok e →
  envelope_canonical_json e = Ok input ∧
  (∃ b, snapshot_canonical_json e.(snapshot) = Ok b ∧
        e.(snapshot_sha256) = hex_string (sha256 (HASH_DOMAIN ++ b))) ∧
  (envelope_parse input' = Ok e → input' = input).
Proof.
  intros (_ & _ & _ & Hv & Ht)%envelope_parse_Ok.
  pose proof (proj1 (envelope_validate_Ok e) Hv) as (_ & _ & _ & (b & Hs & Hb & Hh)%snapshot_hash_Ok).
  split; [|split].
  - unfold envelope_canonical_json. rewrite Hv. cbn. by rewrite Ht.
  - exists b. split; [|done]. unfold snapshot_canonical_json. rewrite Hs. cbn. by rewrite Hb.
  - intros (_ & _ & _ & _ & Ht')%envelope_parse_Ok. congruence.
Qed.

(** Building an envelope and parsing its canonical bytes gives the envelope
    back, for every envelope [new] builds whose bytes are within the size
    limit. *)
Theorem snapshot_new_parse_roundtrip `{!Sha256Laws} c s e b :
  envelope_new c s = Ok e → envelope_canonical_json e = Ok b →
  b ≠ [] → (blen b ≤ MAX_ENVELOPE_BYTES)%Z →
  envelope_parse b = Ok e ∧ e.(capture) = c ∧ e.(snapshot) = s.
Proof using serde_laws.
  intros (Hv & Hc & Hs)%envelope_new_valid Hb Hne Hle. split; [|done].
  unfold envelope_canonical_json in Hb. inv_ok Hb.
  apply envelope_parse_Ok. auto using envelope_from_to.
Qed.

(** The envelope hash commits to the snapshot: two parsed envelopes with the
    same recorded hash carry the same snapshot, or the hash inputs of the two
    snapshots are a SHA-256 collision. *)
Theorem snapshot_hash_binds input input' e e' :
  envelope_parse input = Ok e → envelope_parse input' = Ok e' →
  e.(snapshot_sha256) = e'.(snapshot_sha256) →
  e.(snapshot) = e'.(snapshot) ∨
  collision (snapshot_preimage e.(snapshot)) (snapshot_preimage e'.(snapshot)).
Proof using serde_laws.
  intros (_ & _ & _ & Hv & _)%envelope_parse_Ok (_ & _ & _ & Hv' & _)%envelope_parse_Ok Heq.
  apply envelope_validate_Ok in Hv as (_ & _ & _ & (b & _ & Hb & Hh)%snapshot_hash_Ok).
  apply envelope_validate_Ok in Hv' as (_ & _ & _ & (b' & _ & Hb' & Hh')%snapshot_hash_Ok).
  rewrite Hh, Hh' in Heq. apply (inj hex_string) in Heq.
  destruct (decide (b = b')) as [->|Hne]; [left; by eapply snapshot_to_vec_inj|right].
  unfold collision, snapshot_preimage. rewrite Hb, Hb'. split; [|done].
  by intros ?%app_inv_head.
Qed.

End properties.

(** ** Witnesses *)

(** A computable serializer with the laws: fields one after the other, each in a
    self-delimiting binary code. It stands for no JSON. *)
Module DemoSerde.

Class Codec (A : Type) : Type := { enc : A → bytes; dec : bytes → option (A * bytes) }.
Class CodecLaw A `{Codec A} : Prop := dec_enc a t : dec (enc a ++ t) = Some (a, t).

Definition dec_bool (l : bytes) : option (bool * bytes) :=
  match l with x00 :: l => Some (false, l) | x01 :: l => Some (true, l) | _ => None end.

#[export] Instance bool_codec : Codec bool := {|
  enc b := [if b : bool then x01 else x00];
  dec := dec_bool;
|}.

#[export] Instance bool_law : CodecLaw bool.
Proof. by intros [] t. Qed.

Fixpoint dec_list (l : bytes) : option (bytes * bytes) :=
  match l with
  | x00 :: t => Some ([], t)
  | x01 :: b :: t => '(l, t) ← dec_list t; Some (b :: l, t)
  | _ => None
  end.

#[export] Instance list_codec : Codec bytes := {|
  enc l := concat (map (λ b, [x01; b]) l) ++ [x00];
  dec := dec_list;
|}.

#[export] Instance list_law : CodecLaw bytes.
Proof. intros l t. induction l as [|b l IH]; [done|]. simpl in *. by rewrite IH. Qed.

#[export] Instance prod_codec `{Codec A, Codec B} : Codec (A * B) := {|
  enc p := enc p.1 ++ enc p.2;
  dec l := '(a, l) ← dec l; '(b, l) ← dec l; Some ((a, b), l);
|}.

#[export] Instance prod_law `{CodecLaw A, CodecLaw B} : CodecLaw (A * B).
Proof.
  intros [a b] t. unfold enc, dec; simpl. rewrite <-app_assoc, dec_enc. simpl.
  by rewrite dec_enc.
Qed.

(** A type read through an encoding into another one. *)
Definition via {A B} (f : A → B) (g : B → option A) `{Codec B} : Codec A := {|
  enc a := enc (f a);
  dec l := '(b, l) ← dec l; a ← g b; Some (a, l);
|}.

Lemma via_law {A B} (f : A → B) (g : B → option A) `{CodecLaw B} :
  (∀ a, g (f a) = Some a) → @CodecLaw A (via f g).
Proof. intros Hfg a t. unfold enc, dec; simpl. rewrite dec_enc. simpl. by rewrite Hfg. Qed.

#[export] Instance string_codec : Codec string :=
  via as_bytes (λ l, Some (String.string_of_list_byte l)).
#[export] Instance string_law : CodecLaw string.
Proof. apply via_law; [apply _|]. intros s. f_equal. apply String.string_of_list_byte_of_string. Qed.

#[export] Instance Z_codec : Codec Z :=
  via (λ z, ((z <? 0)%Z, be_bytes (S (Z.to_nat (Z.log2 (Z.abs z)))) (Z.abs z)))
      (λ p, Some (if p.1 then - be_value p.2 else be_value p.2)%Z).
#[export] Instance Z_law : CodecLaw Z.
Proof.
  apply via_law; [apply _|]. intros z. cbv beta. cbn [fst snd]. rewrite be_value_be_bytes, Z.mod_small.
  - f_equal. destruct (Z.ltb_spec z 0); lia.
  - split; [lia|]. rewrite Nat2Z.inj_succ, Z2Nat.id by apply Z.log2_nonneg.
    destruct (decide (z = 0%Z)) as [->|]; [done|].
    apply Z.lt_le_trans with (2 ^ Z.succ (Z.log2 (Z.abs z)))%Z; [apply Z.log2_spec; lia|].
    apply Z.pow_le_mono_l. lia.
Qed.

#[export] Instance option_codec `{Codec A} : Codec (option A) := {|
  enc o := match o with None => [x00] | Some a => x01 :: enc a end;
  dec (l : bytes) := match l with
           | x00 :: l => Some (None, l)
           | x01 :: l => '(a, l) ← dec l; Some (Some a, l)
           | _ => None
           end;
|}.
#[export] Instance option_law `{CodecLaw A} : CodecLaw (option A).
Proof. intros [a|] t; [|done]. simpl. by rewrite dec_enc. Qed.

#[export] Instance sum_codec `{Codec A, Codec B} : Codec (A + B) := {|
  enc o := match o with inl a => x00 :: enc a | inr b => x01 :: enc b end;
  dec (l : bytes) := match l with
           | x00 :: l => '(a, l) ← dec l; Some (inl a, l)
           | x01 :: l => '(b, l) ← dec l; Some (inr b, l)
           | _ => None
           end;
|}.
#[export] Instance sum_law `{CodecLaw A, CodecLaw B} : CodecLaw (A + B).
Proof. intros [a|b] t; simpl; by rewrite dec_enc. Qed.

#[export] Instance topology_codec : Codec LinuxFilesystemTopology :=
  via (λ t, (collection_scope t, separate_etc_mount_present t, separate_boot_mount_present t,
             separate_usr_mount_present t, separate_var_mount_present t,
             relevant_separate_mount_present t, supported t))
      (λ '(a, b, c, d, e, f, g), Some (mkTopology a b c d e f g)).
#[export] Instance topology_law : CodecLaw LinuxFilesystemTopology.
Proof. apply via_law; [apply _|]. by intros []. Qed.

#[export] Instance release_codec : Codec LinuxRelease :=
  via (λ r, (release_id r, release_name r, release_pretty_name r, release_version_id r,
             release_source r))
      (λ '(a, b, c, d, e), Some (mkRelease a b c d e)).
#[export] Instance release_law : CodecLaw LinuxRelease.
Proof. apply via_law; [apply _|]. by intros []. Qed.

#[export] Instance boot_codec : Codec LinuxBoot :=
  via (λ b, (directory_present b, kernel_artifact_count b, initramfs_artifact_count b,
             bootloader_directory_count b, symlink_artifact_count b))
      (λ '(a, b, c, d, e), Some (mkBoot a b c d e)).
#[export] Instance boot_law : CodecLaw LinuxBoot.
Proof. apply via_law; [apply _|]. by intros []. Qed.

#[export] Instance fstab_codec : Codec LinuxFstabSummary :=
  via (λ f, (fstab_present f, entry_count f, root_entry_present f, efi_entry_present f,
             swap_entry_count f, network_entry_count f, malformed_line_count f))
      (λ '(a, b, c, d, e, f, g), Some (mkFstab a b c d e f g)).
#[export] Instance fstab_law : CodecLaw LinuxFstabSummary.
Proof. apply via_law; [apply _|]. by intros []. Qed.

#[export] Instance configuration_codec : Codec LinuxConfiguration :=
  via (λ c, (fstab c, machine_id_present c)) (λ '(a, b), Some (mkConfiguration a b)).
#[export] Instance configuration_law : CodecLaw LinuxConfiguration.
Proof. apply via_law; [apply _|]. by intros []. Qed.

#[export] Instance packages_codec : Codec LinuxPackageDatabases :=
  via (λ p, (dpkg_status_present p, rpm_database_present p, pacman_database_present p))
      (λ '(a, b, c), Some (mkPackageDatabases a b c)).
#[export] Instance packages_law : CodecLaw LinuxPackageDatabases.
Proof. apply via_law; [apply _|]. by intros []. Qed.

#[export] Instance snapshot_codec : Codec LinuxNormalizedSnapshot :=
  via (λ s, (family s, scope s, installation_confirmed s, topology s, release s, boot s,
             configuration s, package_databases s))
      (λ '(a, b, c, d, e, f, g, h), Some (mkSnapshot a b c d e f g h)).
#[export] Instance snapshot_law : CodecLaw LinuxNormalizedSnapshot.
Proof. apply via_law; [apply _|]. by intros []. Qed.

#[export] Instance capture_codec : Codec LinuxSnapshotCapture :=
  via (λ c, match c with
            | Resident a b c d e => inl (a, b, c, d, e)
            | Rescue a b c d e f g h => inr (a, b, c, d, e, f, g, h)
            end)
      (λ x, Some match x with
            | inl (a, b, c, d, e) => Resident a b c d e
            | inr (a, b, c, d, e, f, g, h) => Rescue a b c d e f g h
            end).
#[export] Instance capture_law : CodecLaw LinuxSnapshotCapture.
Proof. apply via_law; [apply _|]. by intros []. Qed.

#[export] Instance envelope_codec : Codec LinuxNormalizedSnapshotEnvelope :=
  via (λ e, (schema_version e, kind e, snapshot_sha256 e, capture e, snapshot e))
      (λ '(a, b, c, d, e), Some (mkEnvelope a b c d e)).
#[export] Instance envelope_law : CodecLaw LinuxNormalizedSnapshotEnvelope.
Proof. apply via_law; [apply _|]. by intros []. Qed.

Definition demo_serde : SnapshotSerde := {|
  snapshot_to_vec s := Some (enc s);
  envelope_to_vec e := Some (enc e);
  envelope_from_slice b := match dec b with Some (e, []) => Some e | _ => None end;
|}.

Lemma demo_serde_laws : @SnapshotSerdeLaws demo_serde.
Proof.
  split; cbn [snapshot_to_vec envelope_to_vec envelope_from_slice demo_serde].
  - intros e b Heb. apply (inj Some) in Heb as <-.
    by rewrite <-(app_nil_r (enc e)), dec_enc.
  - intros s s' b Heb Heq. apply (inj Some) in Heb as <-. apply (inj Some) in Heq.
    pose proof (dec_enc s []) as H. rewrite <-Heq, dec_enc in H. by simplify_eq.
Qed.

Definition sample_snapshot : LinuxNormalizedSnapshot :=
  mkSnapshot "linux" SNAPSHOT_SCOPE true
    (mkTopology COLLECTION_SCOPE false false false false false true)
    (mkRelease (Some "fixture") None None None "etc-os-release")
    (mkBoot true 1 1 1 0)
    (mkConfiguration (mkFstab true 3 true true 1 0 0) true)
    (mkPackageDatabases true false false).

Definition sample_envelope (c : LinuxSnapshotCapture) : LinuxNormalizedSnapshotEnvelope :=
  mkEnvelope SCHEMA_VERSION KIND
    (hex_string (@sha256 Demo.demo_sha256
       (HASH_DOMAIN ++ enc sample_snapshot))) c sample_snapshot.

Definition sample_bytes (c : LinuxSnapshotCapture) : bytes :=
  enc (sample_envelope c).

End DemoSerde.

Lemma snapshot_parse_canonical_witness :
  let sha := Demo.demo_sha256 in let serde := DemoSerde.demo_serde in
  envelope_canonical_json (DemoSerde.sample_envelope capture_rescue) =
    Ok (DemoSerde.sample_bytes capture_rescue).
Proof.
  intros sha serde.
  apply (snapshot_parse_canonical (DemoSerde.sample_bytes capture_rescue) []).
  vm_compute. reflexivity.
Defined.

Lemma snapshot_new_parse_roundtrip_witness :
  let sha := Demo.demo_sha256 in let serde := DemoSerde.demo_serde in
  envelope_parse (DemoSerde.sample_bytes capture_resident) =
    Ok (DemoSerde.sample_envelope capture_resident).
Proof.
  intros sha serde.
  apply (@snapshot_new_parse_roundtrip sha serde DemoSerde.demo_serde_laws
           Demo.demo_sha256_laws capture_resident DemoSerde.sample_snapshot);
    [vm_compute; reflexivity | vm_compute; reflexivity | vm_compute; discriminate |
     vm_compute; discriminate].
Defined.

Lemma snapshot_hash_binds_witness :
  let sha := Demo.demo_sha256 in let serde := DemoSerde.demo_serde in
  DemoSerde.sample_snapshot = DemoSerde.sample_snapshot ∨
  collision (snapshot_preimage DemoSerde.sample_snapshot)
    (snapshot_preimage DemoSerde.sample_snapshot).
Proof.
  intros sha serde.
  apply (@snapshot_hash_binds sha serde DemoSerde.demo_serde_laws
           (DemoSerde.sample_bytes capture_resident) (DemoSerde.sample_bytes capture_rescue)
           (DemoSerde.sample_envelope capture_resident)
           (DemoSerde.sample_envelope capture_rescue)); vm_compute; reflexivity.
Defined.
