(* ===== verification/FixtureTransaction.v ===== *)
(** * The disposable-fixture transactions (crates/core/src/lib.rs)

    The binding, the transition proof, and the two state machines of the fixture
    lab: the repair and the separately approved rollback. Both refine one
    abstract protocol ([phase], [spec_step]): a transaction is approved once,
    and every later step must present the very same proof, in order. *)

From Stdlib.Strings Require Import Byte.
From S2P Require Import Prelude Bytes.

(** ** Data *)

(** [FixtureMutationBinding]. *)
Record FixtureMutationBinding := mkMutationBinding {
  fm_plan_id : string;
  fm_plan_hash : string;
  fm_target_snapshot : string;
  fm_resource_id : string;
  fm_resource_precondition : string;
}.

#[export] Instance FixtureMutationBinding_eq_dec : EqDecision FixtureMutationBinding.
Proof. solve_decision. Defined.

(** [FixtureTransitionProof]. *)
Record FixtureTransitionProof := mkTransitionProof {
  proof_mutation : FixtureMutationBinding;
  proof_approval_id : string;
  proof_approval_sequence : Z;
}.

#[export] Instance FixtureTransitionProof_eq_dec : EqDecision FixtureTransitionProof.
Proof. solve_decision. Defined.

(** [FixtureVerificationOutcome]. *)
Inductive FixtureVerificationOutcome := Succeeded | Failed.

#[export] Instance FixtureVerificationOutcome_eq_dec : EqDecision FixtureVerificationOutcome.
Proof. solve_decision. Defined.

(** [FixtureRepairTransactionState]. *)
Inductive FixtureRepairTransactionState :=
| RepairStaged
| RepairApproved
| Repairing
| RepairVerified (o : FixtureVerificationOutcome)
| RepairComplete (o : FixtureVerificationOutcome).

#[export] Instance RepairState_eq_dec : EqDecision FixtureRepairTransactionState.
Proof. solve_decision. Defined.

(** [FixtureRollbackTransactionState]. *)
Inductive FixtureRollbackTransactionState :=
| RollbackStaged
| RollbackApproved
| RollingBack
| RollbackVerified (o : FixtureVerificationOutcome)
| RollbackComplete (o : FixtureVerificationOutcome).

#[export] Instance RollbackState_eq_dec : EqDecision FixtureRollbackTransactionState.
Proof. solve_decision. Defined.

(** [FixtureTransactionError]. *)
Inductive FixtureTransactionError :=
| InvalidBinding
| InvalidApproval
| InvalidTransition
| BindingMismatch
| ApprovalMismatch
| RollbackApprovalNotDistinct.

(** ** Constructors *)

Definition valid_fixture_sha256 (value : string) : bool := sha256_text value.

Definition valid_fixture_identifier (value : string) : bool :=
  negb (is_empty value)
  && (len value <=? 128)%Z
  && all_bytes (λ b, is_ascii_alphanumeric b
                     || ((b == x2e) || (b == x5f) || (b == x3a) || (b == x2d))) value.

(** [FixtureMutationBinding::new]. *)
Definition mutation_binding_new (plan_id plan_hash target_snapshot resource_id
    resource_precondition : string) : result FixtureTransactionError FixtureMutationBinding :=
  let binding :=
    mkMutationBinding plan_id plan_hash target_snapshot resource_id resource_precondition in
  reject (negb (valid_fixture_identifier binding.(fm_plan_id))
          || negb (valid_fixture_sha256 binding.(fm_plan_hash))
          || negb (valid_fixture_sha256 binding.(fm_target_snapshot))
          || negb (valid_fixture_identifier binding.(fm_resource_id))
          || negb (valid_fixture_sha256 binding.(fm_resource_precondition)))
    with InvalidBinding;
  Ok binding.

(** [FixtureTransitionProof::new]. *)
Definition transition_proof_new (mutation : FixtureMutationBinding) (approval_id : string)
    (approval_sequence : Z) : result FixtureTransactionError FixtureTransitionProof :=
  let proof := mkTransitionProof mutation approval_id approval_sequence in
  reject (negb (valid_fixture_identifier proof.(proof_approval_id))
          || (proof.(proof_approval_sequence) == 0%Z))
    with InvalidApproval;
  Ok proof.

(** ** The bound transaction *)

(** [BoundFixtureTransaction]. *)
Record BoundFixtureTransaction := mkBound {
  mutation : FixtureMutationBinding;
  approval_id : option string;
  approval_sequence : option Z;
}.

Definition bound_staged (m : FixtureMutationBinding) : BoundFixtureTransaction :=
  mkBound m None None.

Definition bound_validate_mutation (proof : FixtureTransitionProof) :
    method BoundFixtureTransaction FixtureTransactionError () :=
  self ← get_self;
  fail_if (self.(mutation) != proof.(proof_mutation)) BindingMismatch.

Definition bound_approve (proof : FixtureTransitionProof) :
    method BoundFixtureTransaction FixtureTransactionError () :=
  bound_validate_mutation proof;;
  self ← get_self;
  fail_if (bool_decide (is_Some self.(approval_id))
           || bool_decide (is_Some self.(approval_sequence))) InvalidTransition;;
  modify_self (λ self, mkBound self.(mutation) (Some proof.(proof_approval_id))
                         self.(approval_sequence));;
  modify_self (λ self, mkBound self.(mutation) self.(approval_id)
                         (Some proof.(proof_approval_sequence))).

Definition bound_validate_proof (proof : FixtureTransitionProof) :
    method BoundFixtureTransaction FixtureTransactionError () :=
  bound_validate_mutation proof;;
  self ← get_self;
  fail_if ((self.(approval_id) != Some proof.(proof_approval_id))
           || (self.(approval_sequence) != Some proof.(proof_approval_sequence)))
    ApprovalMismatch.

(** ** The repair transaction *)

(** [FixtureRepairTransaction]. *)
Record FixtureRepairTransaction := mkRepair {
  repair_bound : BoundFixtureTransaction;
  repair_state : FixtureRepairTransactionState;
}.

Definition with_repair_bound (b : BoundFixtureTransaction) (t : FixtureRepairTransaction) :=
  mkRepair b t.(repair_state).
Definition with_repair_state (s : FixtureRepairTransactionState) (t : FixtureRepairTransaction) :=
  mkRepair t.(repair_bound) s.

Definition repair_stage (m : FixtureMutationBinding) : FixtureRepairTransaction :=
  mkRepair (bound_staged m) RepairStaged.

Definition repair_approve (proof : FixtureTransitionProof) :
    method FixtureRepairTransaction FixtureTransactionError () :=
  self ← get_self;
  fail_if (self.(repair_state) != RepairStaged) InvalidTransition;;
  on_field repair_bound with_repair_bound (bound_approve proof);;
  modify_self (with_repair_state RepairApproved).

Definition repair_begin_repair (proof : FixtureTransitionProof) :
    method FixtureRepairTransaction FixtureTransactionError () :=
  self ← get_self;
  fail_if (self.(repair_state) != RepairApproved) InvalidTransition;;
  on_field repair_bound with_repair_bound (bound_validate_proof proof);;
  modify_self (with_repair_state Repairing).

Definition repair_record_verification (proof : FixtureTransitionProof)
    (o : FixtureVerificationOutcome) :
    method FixtureRepairTransaction FixtureTransactionError () :=
  self ← get_self;
  fail_if (self.(repair_state) != Repairing) InvalidTransition;;
  on_field repair_bound with_repair_bound (bound_validate_proof proof);;
  modify_self (with_repair_state (RepairVerified o)).

Definition repair_complete (proof : FixtureTransitionProof) :
    method FixtureRepairTransaction FixtureTransactionError () :=
  self ← get_self;
  match self.(repair_state) with
  | RepairVerified o =>
      on_field repair_bound with_repair_bound (bound_validate_proof proof);;
      modify_self (with_repair_state (RepairComplete o))
  | _ => throw InvalidTransition
  end.

(** ** The rollback transaction *)

(** [FixtureRollbackTransaction]. *)
Record FixtureRollbackTransaction := mkRollback {
  rollback_bound : BoundFixtureTransaction;
  repair_approval_id : string;
  repair_plan_hash : string;
  rollback_state : FixtureRollbackTransactionState;
}.

Definition with_rollback_bound (b : BoundFixtureTransaction) (t : FixtureRollbackTransaction) :=
  mkRollback b t.(repair_approval_id) t.(repair_plan_hash) t.(rollback_state).
Definition with_rollback_state (s : FixtureRollbackTransactionState)
    (t : FixtureRollbackTransaction) :=
  mkRollback t.(rollback_bound) t.(repair_approval_id) t.(repair_plan_hash) s.

Definition rollback_stage (m : FixtureMutationBinding) (repair_approval_id repair_plan_hash : string) :
    result FixtureTransactionError FixtureRollbackTransaction :=
  reject (negb (valid_fixture_identifier repair_approval_id)
          || negb (valid_fixture_sha256 repair_plan_hash)) with InvalidBinding;
  Ok (mkRollback (bound_staged m) repair_approval_id repair_plan_hash RollbackStaged).

Definition rollback_approve (proof : FixtureTransitionProof) :
    method FixtureRollbackTransaction FixtureTransactionError () :=
  self ← get_self;
  fail_if (self.(rollback_state) != RollbackStaged) InvalidTransition;;
  fail_if (proof.(proof_approval_id) == self.(repair_approval_id)) RollbackApprovalNotDistinct;;
  on_field rollback_bound with_rollback_bound (bound_approve proof);;
  modify_self (with_rollback_state RollbackApproved).

Definition rollback_begin_rollback (proof : FixtureTransitionProof) :
    method FixtureRollbackTransaction FixtureTransactionError () :=
  self ← get_self;
  fail_if (self.(rollback_state) != RollbackApproved) InvalidTransition;;
  on_field rollback_bound with_rollback_bound (bound_validate_proof proof);;
  modify_self (with_rollback_state RollingBack).

Definition rollback_record_verification (proof : FixtureTransitionProof)
    (o : FixtureVerificationOutcome) :
    method FixtureRollbackTransaction FixtureTransactionError () :=
  self ← get_self;
  fail_if (self.(rollback_state) != RollingBack) InvalidTransition;;
  on_field rollback_bound with_rollback_bound (bound_validate_proof proof);;
  modify_self (with_rollback_state (RollbackVerified o)).

Definition rollback_complete (proof : FixtureTransitionProof) :
    method FixtureRollbackTransaction FixtureTransactionError () :=
  self ← get_self;
  match self.(rollback_state) with
  | RollbackVerified o =>
      on_field rollback_bound with_rollback_bound (bound_validate_proof proof);;
      modify_self (with_rollback_state (RollbackComplete o))
  | _ => throw InvalidTransition
  end.

(** ** Sequences of calls *)

Inductive call :=
| Approve (p : FixtureTransitionProof)
| Begin (p : FixtureTransitionProof)
| Verify (p : FixtureTransitionProof) (o : FixtureVerificationOutcome)
| Finish (p : FixtureTransitionProof).

Definition repair_call (c : call) : method FixtureRepairTransaction FixtureTransactionError () :=
  match c with
  | Approve p => repair_approve p
  | Begin p => repair_begin_repair p
  | Verify p o => repair_record_verification p o
  | Finish p => repair_complete p
  end.

Definition rollback_call (c : call) :
    method FixtureRollbackTransaction FixtureTransactionError () :=
  match c with
  | Approve p => rollback_approve p
  | Begin p => rollback_begin_rollback p
  | Verify p o => rollback_record_verification p o
  | Finish p => rollback_complete p
  end.

(** Runs calls in order, whatever they return; collects the accepted ones. *)
Fixpoint run_calls {T} (step : call → method T FixtureTransactionError ()) (t : T)
    (cs : list call) : T * list call :=
  match cs with
  | [] => (t, [])
  | c :: cs =>
      match step c t with
      | (t, Ok _) => let '(t, acc) := run_calls step t cs in (t, c :: acc)
      | (t, Err _) => run_calls step t cs
      end
  end.

(** ** The abstract protocol *)

(** What a transaction promises: nothing happens before an approval, and one
    proof governs every later step. *)
Inductive phase :=
| Waiting
| Held (p : FixtureTransitionProof)
| Applying (p : FixtureTransitionProof)
| Checked (p : FixtureTransitionProof) (o : FixtureVerificationOutcome)
| Closed (p : FixtureTransitionProof) (o : FixtureVerificationOutcome).

Section protocol.
Context (m : FixtureMutationBinding) (admissible : string → bool).

Definition spec_step (ph : phase) (c : call) : option phase :=
  match ph, c with
  | Waiting, Approve p =>
      if (p.(proof_mutation) == m) && admissible p.(proof_approval_id) then Some (Held p)
      else None
  | Held q, Begin p => if decide (p = q) then Some (Applying q) else None
  | Applying q, Verify p o => if decide (p = q) then Some (Checked q o) else None
  | Checked q o, Finish p => if decide (p = q) then Some (Closed q o) else None
  | _, _ => None
  end.

Fixpoint spec_run (ph : phase) (cs : list call) : phase * list call :=
  match cs with
  | [] => (ph, [])
  | c :: cs =>
      match spec_step ph c with
      | Some ph => let '(ph, acc) := spec_run ph cs in (ph, c :: acc)
      | None => spec_run ph cs
      end
  end.

(** The proof a phase holds. *)
Definition held (ph : phase) : option FixtureTransitionProof :=
  match ph with
  | Waiting => None
  | Held p | Applying p | Checked p _ | Closed p _ => Some p
  end.

Definition phase_ok (ph : phase) : Prop :=
  ∀ p, held ph = Some p → p.(proof_mutation) = m ∧ admissible p.(proof_approval_id) = true.

Lemma spec_step_ok ph c ph' : phase_ok ph → spec_step ph c = Some ph' → phase_ok ph'.
Proof.
  unfold phase_ok. intros Hok Hs p Hp.
  destruct ph, c; simpl in *; repeat case_match; simplify_eq/=; guards; auto.
Qed.

(** The accepted calls up to a phase. *)
Definition script (ph : phase) : list call :=
  match ph with
  | Waiting => []
  | Held p => [Approve p]
  | Applying p => [Approve p; Begin p]
  | Checked p o => [Approve p; Begin p; Verify p o]
  | Closed p o => [Approve p; Begin p; Verify p o; Finish p]
  end.

Lemma spec_step_script ph c ph' : spec_step ph c = Some ph' → script ph' = script ph ++ [c].
Proof. destruct ph, c; simpl; repeat case_match; naive_solver. Qed.

Lemma spec_run_script cs ph ph' acc :
  phase_ok ph → spec_run ph cs = (ph', acc) → phase_ok ph' ∧ script ph' = script ph ++ acc.
Proof.
  revert ph acc. induction cs as [|c cs IH]; intros ph acc Hok; simpl.
  - intros [= <- <-]. by rewrite app_nil_r.
  - destruct (spec_step ph c) as [ph1|] eqn:Hs; [|by apply IH].
    destruct (spec_run ph1 cs) as [ph2 acc2] eqn:Hr. intros [= -> <-].
    apply IH in Hr as [? ->]; [|by eapply spec_step_ok].
    by rewrite (spec_step_script _ _ _ Hs), <-app_assoc.
Qed.

End protocol.

(** ** Refinement *)

(** A step function refines the protocol through a representation of phases:
    it accepts what the protocol accepts, and a refused call changes nothing. *)
Class Refines {T} (step : call → method T FixtureTransactionError ())
    (repr : phase → T) (m : FixtureMutationBinding) (admissible : string → bool) : Prop :=
  refine_step ph c : phase_ok m admissible ph →
    match spec_step m admissible ph c with
    | Some ph' => step c (repr ph) = (repr ph', Ok tt)
    | None => ∃ e, step c (repr ph) = (repr ph, Err e)
    end.

Lemma refine_run `{Refines T step repr m admissible} ph cs :
  phase_ok m admissible ph →
  run_calls step (repr ph) cs =
    let '(ph', acc) := spec_run m admissible ph cs in (repr ph', acc).
Proof.
  revert ph. induction cs as [|c cs IH]; intros ph Hok; simpl; [done|].
  pose proof (refine_step ph c Hok) as Hs.
  destruct (spec_step m admissible ph c) as [ph1|] eqn:Hspec.
  - rewrite Hs, IH by (by eapply spec_step_ok). by destruct (spec_run _ _ ph1 cs).
  - destruct Hs as [e ->]. by apply IH.
Qed.

Definition bound_repr (m : FixtureMutationBinding) (ph : phase) : BoundFixtureTransaction :=
  mkBound m (proof_approval_id <$> held ph) (proof_approval_sequence <$> held ph).

Definition repair_repr (m : FixtureMutationBinding) (ph : phase) : FixtureRepairTransaction :=
  mkRepair (bound_repr m ph)
    match ph with
    | Waiting => RepairStaged
    | Held _ => RepairApproved
    | Applying _ => Repairing
    | Checked _ o => RepairVerified o
    | Closed _ o => RepairComplete o
    end.

Definition rollback_repr (m : FixtureMutationBinding) (id hash : string) (ph : phase) :
    FixtureRollbackTransaction :=
  mkRollback (bound_repr m ph) id hash
    match ph with
    | Waiting => RollbackStaged
    | Held _ => RollbackApproved
    | Applying _ => RollingBack
    | Checked _ o => RollbackVerified o
    | Closed _ o => RollbackComplete o
    end.

Lemma bound_approve_run m p :
  bound_approve p (bound_repr m Waiting) =
    if p.(proof_mutation) == m then (bound_repr m (Held p), Ok tt)
    else (bound_repr m Waiting, Err BindingMismatch).
Proof.
  unfold bound_approve, bound_validate_mutation. run_methods. cbn.
  destruct (decide (p.(proof_mutation) = m)) as [<-|Hne].
  - by autorewrite with kernaid.
  - rewrite (bool_decide_eq_true_2 (m ≠ _)), (bool_decide_eq_false_2 (_ = m)) by auto. done.
Qed.

Lemma bound_validate_run m ph p q :
  held ph = Some q → q.(proof_mutation) = m →
  bound_validate_proof p (bound_repr m ph) =
    (bound_repr m ph, if decide (p = q) then Ok tt
                      else if decide (p.(proof_mutation) = m) then Err ApprovalMismatch
                      else Err BindingMismatch).
Proof.
  intros Hh Hq. unfold bound_validate_proof, bound_validate_mutation, bound_repr. rewrite Hh. run_methods. cbn.
  destruct p as [pm pi ps], q as [qm qi qs]; cbn in *; subst qm.
  destruct (decide (pm = m)) as [->|Hm].
  - autorewrite with kernaid. cbn.
    case_decide as Heq; [simplify_eq; by autorewrite with kernaid|].
    rewrite (proj2 (orb_true_iff _ _)); [done|].
    rewrite !bool_decide_eq_true. destruct (decide (qi = pi)); [right|left]; naive_solver.
  - rewrite (bool_decide_eq_true_2 (m ≠ pm)) by auto.
    rewrite decide_False by naive_solver. done.
Qed.

Lemma repair_bound_repr m ph : repair_bound (repair_repr m ph) = bound_repr m ph.
Proof. done. Qed.

Lemma rollback_bound_repr m id hash ph :
  rollback_bound (rollback_repr m id hash ph) = bound_repr m ph.
Proof. done. Qed.

Lemma repair_state_checked m p o : repair_state (repair_repr m (Checked p o)) = RepairVerified o.
Proof. done. Qed.

Lemma rollback_state_checked m id hash p o :
  rollback_state (rollback_repr m id hash (Checked p o)) = RollbackVerified o.
Proof. done. Qed.

(** One step of a transaction whose state agrees with the phase. *)
Ltac refine_cases :=
  repeat first [ progress case_decide | case_bool_decide ];
  cbn -[bound_approve bound_validate_proof bound_repr repair_repr rollback_repr];
  try done; try (by eexists);
  rewrite ?repair_state_checked, ?rollback_state_checked; cbv beta iota;
  rewrite ?repair_bound_repr, ?rollback_bound_repr;
  rewrite ?bound_approve_run;
  try (erewrite bound_validate_run by (first [reflexivity | naive_solver]));
  repeat first [ rewrite decide_True by done | rewrite decide_False by done
               | rewrite bool_decide_eq_true_2 by done
               | rewrite bool_decide_eq_false_2 by done ];
  try case_decide; try done; try (by eexists).

#[export] Instance repair_refines m : Refines repair_call (repair_repr m) m (λ _, true).
Proof.
  intros ph c Hok; unfold phase_ok in Hok.
  destruct ph, c; cbn [spec_step repair_call];
    unfold repair_approve, repair_begin_repair, repair_record_verification, repair_complete;
    run_methods; cbn -[bound_approve bound_validate_proof bound_repr repair_repr];
    refine_cases.
Qed.

#[export] Instance rollback_refines m id hash :
  Refines rollback_call (rollback_repr m id hash) m (λ a, a != id).
Proof.
  intros ph c Hok; unfold phase_ok in Hok.
  destruct ph, c; cbn [spec_step rollback_call];
    unfold rollback_approve, rollback_begin_rollback, rollback_record_verification,
      rollback_complete;
    run_methods; cbn -[bound_approve bound_validate_proof bound_repr rollback_repr];
    refine_cases.
Qed.

(** ** Properties *)

(** C31. Both fixture transactions implement the approval protocol: for every
    sequence of calls, in any order and with any proofs, the repair transaction
    accepts exactly the calls the protocol accepts and ends in the state that
    represents the protocol's phase, and so does the rollback transaction, for
    which an approval that reuses the repair's approval identifier is not
    admissible. A refused call changes nothing. *)
Theorem fixture_transactions_refine_protocol m cs :
  (run_calls repair_call (repair_stage m) cs =
     let '(ph, acc) := spec_run m (λ _, true) Waiting cs in (repair_repr m ph, acc)) ∧
  (∀ id hash t, rollback_stage m id hash = Ok t →
     run_calls rollback_call t cs =
       let '(ph, acc) := spec_run m (λ a, a != id) Waiting cs in
       (rollback_repr m id hash ph, acc)).
Proof.
  split.
  - by apply (refine_run (repr := repair_repr m) Waiting).
  - intros id hash t Ht. unfold rollback_stage in Ht. inv_ok Ht.
    by apply (refine_run (repr := rollback_repr m id hash) Waiting).
Qed.

Definition sample_hash : string :=
  "sha256:1111111111111111111111111111111111111111111111111111111111111111".
Definition sample_mutation : FixtureMutationBinding :=
  mkMutationBinding "P-1" sample_hash sample_hash "fixture:fstab" sample_hash.
Definition sample_proof (id : string) : FixtureTransitionProof :=
  mkTransitionProof sample_mutation id 2.

Lemma fixture_transactions_refine_protocol_witness :
  let p := sample_proof "A-rollback" in
  let cs := [Approve (sample_proof "A-repair"); Approve p; Begin p; Verify p Succeeded; Finish p] in
  run_calls rollback_call
    (mkRollback (bound_staged sample_mutation) "A-repair" sample_hash RollbackStaged) cs =
  (rollback_repr sample_mutation "A-repair" sample_hash (Closed p Succeeded), drop 1 cs).
Proof.
  intros p cs.
  rewrite (proj2 (fixture_transactions_refine_protocol sample_mutation cs)
             "A-repair" sample_hash); vm_compute; reflexivity.
Defined.

(** A fixture repair that completes did so through exactly one approval:
    whatever calls are made, when the transaction is complete the accepted calls
    are approve, begin, verify and complete, once each and in this order, all
    with one proof that carries the staged binding, and the recorded outcome is
    the verified one. For the rollback the approval also differs from the
    approval of the repair it reverts. *)
Theorem fixture_completion_history m cs o :
  (∀ t acc, run_calls repair_call (repair_stage m) cs = (t, acc) →
     t.(repair_state) = RepairComplete o →
     ∃ p, p.(proof_mutation) = m ∧ acc = [Approve p; Begin p; Verify p o; Finish p]) ∧
  (∀ id hash t0 t acc, rollback_stage m id hash = Ok t0 →
     run_calls rollback_call t0 cs = (t, acc) → t.(rollback_state) = RollbackComplete o →
     ∃ p, p.(proof_mutation) = m ∧ p.(proof_approval_id) ≠ id ∧
          acc = [Approve p; Begin p; Verify p o; Finish p]).
Proof.
  split.
  - intros t acc Hr Hs. rewrite (refine_run (repr := repair_repr m) Waiting) in Hr by done.
    destruct (spec_run _ _ Waiting cs) as [ph acc'] eqn:Hspec. simplify_eq.
    apply spec_run_script in Hspec as [Hok Hscript]; [|done].
    destruct ph; simplify_eq/=. exists p. split; [by apply Hok|done].
  - intros id hash t0 t acc Ht Hr Hs. unfold rollback_stage in Ht. inv_ok Ht.
    change (mkRollback (bound_staged m) id hash RollbackStaged)
      with (rollback_repr m id hash Waiting) in Hr.
    rewrite (refine_run (repr := rollback_repr m id hash) Waiting) in Hr by done.
    destruct (spec_run _ _ Waiting cs) as [ph acc'] eqn:Hspec. simplify_eq.
    apply spec_run_script in Hspec as [Hok Hscript]; [|done].
    destruct ph; simplify_eq/=. exists p. destruct (Hok p) as [? Hid]; [done|].
    split; [done|]. split; [by apply bool_decide_eq_true_1 in Hid|done].
Qed.

Lemma fixture_completion_history_witness :
  let p := sample_proof "A-repair" in
  let cs := [Begin p; Approve p; Approve p; Begin p; Verify p Failed; Finish p] in
  ∃ q, q.(proof_mutation) = sample_mutation ∧
       (run_calls repair_call (repair_stage sample_mutation) cs).2 =
         [Approve q; Begin q; Verify q Failed; Finish q].
Proof.
  intros p cs.
  apply (proj1 (fixture_completion_history sample_mutation cs Failed)
           (run_calls repair_call (repair_stage sample_mutation) cs).1);
    vm_compute; reflexivity.
Defined.
