(* ===== verification/Admission.v ===== *)
(** * Approval-only admissions of the Rescue candidates (crates/core/src/lib.rs)

    The crypttab candidate, the fstab candidate and the shared post-commit
    rollback: bindings, approvals, admissions and the domain-separated approval
    and plan hashes. The theorems show that an admission accepts one approval
    over its whole life, that the accepted approval carries the exact binding,
    sequence and confirmation, and that every hash commits to its purpose and to
    every field. *)

From Stdlib.Strings Require Import Byte.
From S2P Require Import Prelude Bytes Crypto Protocol Policy.

(** ** Shared checks *)

(** [valid_rescue_candidate_sha256] and [valid_rescue_candidate_id]. *)
Definition valid_rescue_candidate_sha256 (value : string) : bool := sha256_text value.
Definition valid_rescue_candidate_id (value prefix : string) : bool := typed_id value prefix.

(** ** The crypttab candidate *)

Module Crypttab.

Definition TYPED_CONFIRMATION : string := "DISABILITA VOCE CRYPTTAB".

Definition valid_crypttab_id (value prefix : string) : bool := typed_id value prefix.
Definition valid_crypttab_hash (value : string) : bool := sha256_text value.

(** [RescueCrypttabCandidateBinding]. *)
Record Binding := mkBinding {
  session_id : string;
  binding_plan_id : string;
  plan_sha256 : string;
  binding_target_fingerprint : string;
  target_snapshot : string;
}.

#[global] Instance Binding_eq_dec : EqDecision Binding.
Proof. solve_decision. Defined.

(** [RescueCrypttabAdmissionError]. *)
Inductive AdmissionError :=
| InvalidBinding
| InvalidApproval
| PolicyRejected
| BindingMismatch
| WrongConfirmation
| ApprovalReplay.

Definition binding_new (session_id plan_id plan_sha256 target_fingerprint target_snapshot : string) :
    result AdmissionError Binding :=
  let value := mkBinding session_id plan_id plan_sha256 target_fingerprint target_snapshot in
  reject (negb (valid_crypttab_id value.(Crypttab.session_id) "S-")
          || negb (valid_crypttab_id value.(binding_plan_id) "P-")
          || negb (valid_crypttab_hash value.(Crypttab.plan_sha256))
          || negb (valid_crypttab_hash value.(binding_target_fingerprint))
          || negb (valid_crypttab_hash value.(Crypttab.target_snapshot)))
    with InvalidBinding;
  Ok value.

(** [RescueCrypttabCandidateApproval]. *)
Record Approval := mkApproval {
  approval_id : string;
  sequence : Z;
  binding : Binding;
  typed_confirmation : string;
}.

Definition approval_new (approval_id : string) (sequence : Z) (binding : Binding)
    (typed_confirmation : string) : result AdmissionError Approval :=
  let value := mkApproval approval_id sequence binding typed_confirmation in
  reject (negb (valid_crypttab_id value.(Crypttab.approval_id) "A-")
          || (value.(Crypttab.sequence) == 0%Z))
    with InvalidApproval;
  Ok value.

(** [RescueCrypttabAdmissionState]. *)
Inductive AdmissionState := Staged | Approved.

#[global] Instance AdmissionState_eq_dec : EqDecision AdmissionState.
Proof. solve_decision. Defined.

(** [RescueCrypttabCandidateAdmission]. *)
Record Admission := mkAdmission {
  adm_binding : Binding;
  adm_state : AdmissionState;
  adm_approval_id : option string;
  adm_approval_sequence : option Z;
  adm_approval_sha256 : option string;
}.

Definition stage (plan : ValidatedPlan) (binding : Binding) : result AdmissionError Admission :=
  _ ← map_err (λ _, PolicyRejected)
        (validate_rescue_crypttab_production_candidate_plan plan
           binding.(binding_target_fingerprint));
  reject ((plan.(plan_id) != binding.(binding_plan_id))
          || (plan.(target_fingerprint) != binding.(binding_target_fingerprint)))
    with BindingMismatch;
  Ok (mkAdmission binding Staged None None None).

(** What [canonical_crypttab_approval_sha256] feeds to the hasher. *)
Definition approval_preimage (a : Approval) : bytes :=
  domain "kernaid:rescue-crypttab:approval:v1"
  ++ frames (map as_bytes
       [a.(approval_id);
        a.(binding).(session_id);
        a.(binding).(binding_plan_id);
        a.(binding).(plan_sha256);
        a.(binding).(binding_target_fingerprint);
        a.(binding).(target_snapshot);
        a.(typed_confirmation)])
  ++ to_be_bytes a.(sequence).

Definition canonical_crypttab_approval_sha256 `{Sha256} (a : Approval) : string :=
  sha256_tagged (approval_preimage a).

Definition approve `{Sha256} (a : Approval) : method Admission AdmissionError () :=
  self ← get_self;
  fail_if ((self.(adm_state) != Staged)
           || bool_decide (is_Some self.(adm_approval_id))
           || bool_decide (is_Some self.(adm_approval_sequence))
           || bool_decide (is_Some self.(adm_approval_sha256))) ApprovalReplay;;
  fail_if ((a.(binding) != self.(adm_binding)) || (a.(sequence) != 1%Z)) BindingMismatch;;
  fail_if (a.(typed_confirmation) != TYPED_CONFIRMATION) WrongConfirmation;;
  let sha := canonical_crypttab_approval_sha256 a in
  modify_self (λ self, mkAdmission self.(adm_binding) Approved
    (Some a.(approval_id)) (Some a.(sequence)) (Some sha)).

End Crypttab.

(** ** The fstab candidate *)

Module FstabCandidate.

Definition TYPED_CONFIRMATION : string := "DISABILITA VOCE FSTAB".
Definition APPROVAL_HASH_DOMAIN : string :=
  "kernaid:linux.fstab.disable-missing-uuid.v1:approval:v1".

(** [RescueFstabCandidateAdmissionError]. *)
Inductive AdmissionError :=
| InvalidSessionState
| WrongSessionMode
| PolicyRejected (e : PolicyError)
| InvalidBinding
| InvalidApproval
| InvalidBrokerEvidence
| BindingMismatch
| NonMonotonicApproval
| TypedConfirmationMismatch
| ApprovalReplay
| SequenceExhausted.

(** [RescueFstabBrokerDerivedEvidence]; [finding_version] is a [u16]. *)
Record BrokerEvidence := mkBrokerEvidence {
  be_session_id : string;
  be_plan_id : string;
  be_plan_hash : string;
  be_target_fingerprint : string;
  be_target_snapshot : string;
  be_action_id : string;
  be_finding_id : string;
  be_finding_version : Z;
  be_resource_id : string;
  be_evidence : (string * string) * (string * string);
}.

Definition broker_evidence_new (session_id plan_id plan_hash target_fingerprint target_snapshot
    action_id finding_id : string) (finding_version : Z) (resource_id : string)
    (evidence : (string * string) * (string * string)) : result AdmissionError BrokerEvidence :=
  let binding := mkBrokerEvidence session_id plan_id plan_hash target_fingerprint
    target_snapshot action_id finding_id finding_version resource_id evidence in
  reject (negb (valid_rescue_candidate_id binding.(be_session_id) "S-")
          || negb (valid_rescue_candidate_id binding.(be_plan_id) "P-")
          || negb (valid_rescue_candidate_sha256 binding.(be_plan_hash))
          || negb (valid_rescue_candidate_sha256 binding.(be_target_fingerprint))
          || negb (valid_rescue_candidate_sha256 binding.(be_target_snapshot))
          || (binding.(be_action_id) != RESCUE_FSTAB_ACTION_ID)
          || (binding.(be_finding_id) != RESCUE_FSTAB_FINDING_ID)
          || (binding.(be_finding_version) != RESCUE_FSTAB_FINDING_VERSION)
          || (binding.(be_resource_id) != RESCUE_FSTAB_RESOURCE_ID)
          || (Some binding.(be_evidence).1.1 != RESCUE_FSTAB_EVIDENCE_IDS !! 0)
          || (Some binding.(be_evidence).2.1 != RESCUE_FSTAB_EVIDENCE_IDS !! 1)
          || existsb (λ '(_, hash), negb (valid_rescue_candidate_sha256 hash))
               [binding.(be_evidence).1; binding.(be_evidence).2])
    with InvalidBrokerEvidence;
  Ok binding.

(** [RescueFstabCandidateBinding]. *)
Record Binding := mkBinding {
  session_id : string;
  binding_plan_id : string;
  plan_hash : string;
  binding_target_fingerprint : string;
  resource_precondition : string;
}.

#[global] Instance Binding_eq_dec : EqDecision Binding.
Proof. solve_decision. Defined.

Definition binding_new (session_id plan_id plan_hash target_fingerprint
    resource_precondition : string) : result AdmissionError Binding :=
  let binding := mkBinding session_id plan_id plan_hash target_fingerprint
    resource_precondition in
  reject (negb (valid_rescue_candidate_id binding.(FstabCandidate.session_id) "S-")
          || negb (valid_rescue_candidate_id binding.(binding_plan_id) "P-")
          || negb (valid_rescue_candidate_sha256 binding.(FstabCandidate.plan_hash))
          || negb (valid_rescue_candidate_sha256 binding.(binding_target_fingerprint))
          || negb (valid_rescue_candidate_sha256 binding.(FstabCandidate.resource_precondition)))
    with InvalidBinding;
  Ok binding.

(** [RescueFstabCandidateApproval]. *)
Record Approval := mkApproval {
  binding : Binding;
  approval_id : string;
  approval_sequence : Z;
  typed_confirmation : string;
}.

Definition approval_new (binding : Binding) (approval_id : string) (approval_sequence : Z)
    (typed_confirmation : string) : result AdmissionError Approval :=
  let approval := mkApproval binding approval_id approval_sequence typed_confirmation in
  reject (negb (valid_rescue_candidate_id approval.(FstabCandidate.approval_id) "A-")
          || (approval.(FstabCandidate.approval_sequence) == 0%Z))
    with InvalidApproval;
  Ok approval.

(** [RescueFstabCandidateAdmissionState]. *)
Inductive AdmissionState := Staged | Approved.

#[global] Instance AdmissionState_eq_dec : EqDecision AdmissionState.
Proof. solve_decision. Defined.

(** [RescueFstabCandidateAdmission]. *)
Record Admission := mkAdmission {
  adm_binding : Binding;
  adm_state : AdmissionState;
  next_approval_sequence : Z;
  adm_approval_id : option string;
  adm_approval_sequence : option Z;
  adm_approval_sha256 : option string;
}.

Definition stage (binding : Binding) (last_approval_sequence : Z) :
    result AdmissionError Admission :=
  next ← ok_or (checked_add_u64 last_approval_sequence 1) SequenceExhausted;
  Ok (mkAdmission binding Staged next None None None).

(** What [rescue_fstab_approval_sha256] feeds to the hasher. *)
Definition approval_preimage (a : Approval) : bytes :=
  domain APPROVAL_HASH_DOMAIN
  ++ frames (map as_bytes
       [a.(binding).(session_id);
        a.(binding).(binding_plan_id);
        a.(binding).(plan_hash);
        a.(binding).(binding_target_fingerprint);
        a.(binding).(resource_precondition);
        RESCUE_FSTAB_RESOURCE_ID;
        a.(approval_id)])
  ++ to_be_bytes a.(approval_sequence)
  ++ frame (as_bytes a.(typed_confirmation)).

Definition rescue_fstab_approval_sha256 `{Sha256} (a : Approval) : string :=
  sha256_tagged (approval_preimage a).

Definition approve `{Sha256} (a : Approval) : method Admission AdmissionError () :=
  self ← get_self;
  fail_if (self.(adm_state) != Staged) ApprovalReplay;;
  fail_if (a.(binding) != self.(adm_binding)) BindingMismatch;;
  fail_if (a.(approval_sequence) != self.(next_approval_sequence)) NonMonotonicApproval;;
  fail_if (a.(typed_confirmation) != TYPED_CONFIRMATION) TypedConfirmationMismatch;;
  let sha := rescue_fstab_approval_sha256 a in
  modify_self (λ self, mkAdmission self.(adm_binding) Approved self.(next_approval_sequence)
    (Some a.(approval_id)) (Some a.(approval_sequence)) (Some sha)).

End FstabCandidate.

(** ** The post-commit rollback *)

Module Rollback.

Definition FSTAB_TYPED_CONFIRMATION : string := "RIPRISTINA FSTAB ORIGINALE".
Definition CRYPTTAB_TYPED_CONFIRMATION : string := "RIPRISTINA CRYPTTAB ORIGINALE".

Definition FSTAB_APPROVAL_HASH_DOMAIN : string := "kernaid:linux.fstab.restore:approval:v1".
Definition FSTAB_PLAN_HASH_DOMAIN : string := "kernaid:linux.fstab.restore:plan:v1".
Definition CRYPTTAB_APPROVAL_HASH_DOMAIN : string :=
  "kernaid:linux.crypttab.disable-missing-source.v1:approval:v1".
Definition CRYPTTAB_PLAN_HASH_DOMAIN : string :=
  "kernaid:linux.crypttab.disable-missing-source.v1:plan:v1".

(** [RescueRepairRollbackResource]. *)
Inductive Resource := Fstab | Crypttab.

#[global] Instance Resource_eq_dec : EqDecision Resource.
Proof. solve_decision. Defined.

Definition resource_action_id (r : Resource) : string :=
  match r with Fstab => RESCUE_FSTAB_ROLLBACK_ID | Crypttab => RESCUE_CRYPTTAB_ROLLBACK_ID end.
Definition resource_resource_id (r : Resource) : string :=
  match r with Fstab => RESCUE_FSTAB_RESOURCE_ID | Crypttab => RESCUE_CRYPTTAB_RESOURCE_ID end.
Definition resource_evidence_id (r : Resource) : string :=
  match r with
  | Fstab => RESCUE_FSTAB_ROLLBACK_EVIDENCE_ID
  | Crypttab => RESCUE_CRYPTTAB_ROLLBACK_EVIDENCE_ID
  end.
Definition resource_preflight_id (r : Resource) : string :=
  match r with
  | Fstab => RESCUE_FSTAB_ROLLBACK_PREFLIGHT_ID
  | Crypttab => RESCUE_CRYPTTAB_ROLLBACK_PREFLIGHT_ID
  end.
Definition resource_backup (r : Resource) : string :=
  match r with
  | Fstab => RESCUE_FSTAB_ROLLBACK_BACKUP
  | Crypttab => RESCUE_CRYPTTAB_ROLLBACK_BACKUP
  end.
Definition resource_validation_id (r : Resource) : string :=
  match r with
  | Fstab => RESCUE_FSTAB_VALIDATION_ID
  | Crypttab => RESCUE_CRYPTTAB_VALIDATION_ID
  end.
Definition resource_typed_confirmation (r : Resource) : string :=
  match r with Fstab => FSTAB_TYPED_CONFIRMATION | Crypttab => CRYPTTAB_TYPED_CONFIRMATION end.
Definition resource_validate_plan (r : Resource) (plan : ValidatedPlan)
    (target_fingerprint : string) : result PolicyError () :=
  match r with
  | Fstab => validate_rescue_fstab_rollback_plan plan target_fingerprint
  | Crypttab => validate_rescue_crypttab_rollback_plan plan target_fingerprint
  end.

(** [RescueFstabRollbackAdmissionError]. *)
Inductive AdmissionError :=
| InvalidSessionState
| WrongSessionMode
| PolicyRejected (e : PolicyError)
| InvalidSourceReceipt
| InvalidBinding
| InvalidApproval
| BindingMismatch
| ApprovalNotFresh
| NonMonotonicApproval
| TypedConfirmationMismatch
| ApprovalReplay
| SequenceExhausted.

(** ** The canonical rollback plan *)

(** The inputs of [canonical_rescue_repair_rollback_plan]. *)
Record PlanInput := mkPlanInput {
  pi_resource : Resource;
  pi_plan_id : string;
  pi_rollback_id : string;
  pi_target_fingerprint : string;
  pi_reservation_id : string;
  pi_transaction_binding_sha256 : string;
}.

(** What the function feeds to the hasher for the plan it rebuilds. *)
Definition plan_preimage (i : PlanInput) : bytes :=
  let resource := i.(pi_resource) in
  domain (match resource with
          | Fstab => FSTAB_PLAN_HASH_DOMAIN
          | Crypttab => CRYPTTAB_PLAN_HASH_DOMAIN
          end)
  ++ frames (map as_bytes
       [i.(pi_plan_id);
        i.(pi_target_fingerprint);
        resource_action_id resource;
        "R2"%string;
        i.(pi_target_fingerprint);
        resource_evidence_id resource;
        resource_preflight_id resource;
        resource_backup resource;
        resource_validation_id resource;
        "rollback:none"%string;
        i.(pi_rollback_id);
        i.(pi_reservation_id);
        i.(pi_transaction_binding_sha256)]).

Definition canonical_rescue_repair_rollback_plan `{Sha256} (i : PlanInput) :
    result AdmissionError (ValidatedPlan * string) :=
  let resource := i.(pi_resource) in
  reject (negb (valid_rescue_candidate_id i.(pi_plan_id) "P-")
          || negb (valid_rescue_candidate_id i.(pi_rollback_id) "RB-")
          || negb (valid_rescue_candidate_sha256 i.(pi_target_fingerprint))
          || negb (valid_rescue_candidate_id i.(pi_reservation_id) "B-")
          || negb (valid_rescue_candidate_sha256 i.(pi_transaction_binding_sha256)))
    with InvalidBinding;
  let plan := mkValidatedPlan i.(pi_plan_id) i.(pi_target_fingerprint)
    [mkActionStep (resource_action_id resource) R2 i.(pi_target_fingerprint)
       [resource_evidence_id resource] [resource_preflight_id resource]
       (Some (resource_backup resource)) (resource_validation_id resource) None] in
  _ ← map_err PolicyRejected
        (resource_validate_plan resource plan i.(pi_target_fingerprint));
  Ok (plan, sha256_tagged (plan_preimage i)).

Definition canonical_rescue_fstab_rollback_plan `{Sha256} (plan_id rollback_id
    target_fingerprint reservation_id transaction_binding_sha256 : string) :
    result AdmissionError (ValidatedPlan * string) :=
  canonical_rescue_repair_rollback_plan
    (mkPlanInput Fstab plan_id rollback_id target_fingerprint reservation_id
       transaction_binding_sha256).

(** ** Bindings *)

(** [RescueFstabRollbackSourceBinding]. *)
Record SourceBinding := mkSourceBinding {
  source_plan_id : string;
  source_plan_hash : string;
  source_approval_id : string;
  source_approval_sequence : Z;
  reservation_id : string;
  transaction_binding_sha256 : string;
  backup_locator : string;
}.

#[global] Instance SourceBinding_eq_dec : EqDecision SourceBinding.
Proof. solve_decision. Defined.

Definition source_binding_new (source_plan_id source_plan_hash source_approval_id : string)
    (source_approval_sequence : Z) (reservation_id transaction_binding_sha256
     backup_locator : string) : result AdmissionError SourceBinding :=
  let value := mkSourceBinding source_plan_id source_plan_hash source_approval_id
    source_approval_sequence reservation_id transaction_binding_sha256 backup_locator in
  reject (negb (valid_rescue_candidate_id value.(Rollback.source_plan_id) "P-")
          || negb (valid_rescue_candidate_sha256 value.(Rollback.source_plan_hash))
          || negb (valid_rescue_candidate_id value.(Rollback.source_approval_id) "A-")
          || (value.(Rollback.source_approval_sequence) == 0%Z)
          || negb (valid_rescue_candidate_id value.(Rollback.reservation_id) "B-")
          || negb (valid_rescue_candidate_sha256 value.(Rollback.transaction_binding_sha256))
          || (strip_prefix "vault://repair/" value.(Rollback.backup_locator)
              != Some value.(Rollback.reservation_id)))
    with InvalidSourceReceipt;
  Ok value.

(** [RescueFstabRollbackBinding]. *)
Record Binding := mkBinding {
  resource : Resource;
  session_id : string;
  rollback_id : string;
  binding_plan_id : string;
  plan_hash : string;
  binding_target_fingerprint : string;
  source : SourceBinding;
}.

#[global] Instance Binding_eq_dec : EqDecision Binding.
Proof. solve_decision. Defined.

Definition binding_new_for_resource (resource : Resource) (session_id rollback_id plan_id
    plan_hash target_fingerprint : string) (source : SourceBinding) :
    result AdmissionError Binding :=
  let value := mkBinding resource session_id rollback_id plan_id plan_hash
    target_fingerprint source in
  reject (negb (valid_rescue_candidate_id value.(Rollback.session_id) "S-")
          || negb (valid_rescue_candidate_id value.(Rollback.rollback_id) "RB-")
          || negb (valid_rescue_candidate_id value.(binding_plan_id) "P-")
          || negb (valid_rescue_candidate_sha256 value.(Rollback.plan_hash))
          || negb (valid_rescue_candidate_sha256 value.(binding_target_fingerprint))
          || (value.(binding_plan_id) == value.(Rollback.source).(source_plan_id))
          || (value.(Rollback.plan_hash) == value.(Rollback.source).(source_plan_hash)))
    with InvalidBinding;
  Ok value.

Definition binding_new (session_id rollback_id plan_id plan_hash target_fingerprint : string)
    (source : SourceBinding) : result AdmissionError Binding :=
  binding_new_for_resource Fstab session_id rollback_id plan_id plan_hash target_fingerprint source.

(** ** Approval and admission *)

(** [RescueFstabRollbackApproval]. *)
Record Approval := mkApproval {
  binding : Binding;
  approval_id : string;
  approval_sequence : Z;
  typed_confirmation : string;
}.

Definition approval_new (binding : Binding) (approval_id : string) (approval_sequence : Z)
    (typed_confirmation : string) : result AdmissionError Approval :=
  let value := mkApproval binding approval_id approval_sequence typed_confirmation in
  reject (negb (valid_rescue_candidate_id value.(Rollback.approval_id) "A-")
          || (value.(Rollback.approval_sequence) == 0%Z))
    with InvalidApproval;
  Ok value.

(** [RescueFstabRollbackAdmissionState]. *)
Inductive AdmissionState := Staged | Approved.

#[global] Instance AdmissionState_eq_dec : EqDecision AdmissionState.
Proof. solve_decision. Defined.

(** [RescueFstabRollbackAdmission]. *)
Record Admission := mkAdmission {
  adm_binding : Binding;
  adm_state : AdmissionState;
  next_approval_sequence : Z;
  adm_approval_id : option string;
  adm_approval_sha256 : option string;
}.

Definition stage (binding : Binding) : result AdmissionError Admission :=
  next ← ok_or (checked_add_u64 binding.(source).(source_approval_sequence) 1)
           SequenceExhausted;
  Ok (mkAdmission binding Staged next None None).

(** What [rescue_fstab_rollback_approval_sha256] feeds to the hasher. *)
Definition approval_preimage (a : Approval) : bytes :=
  let b := a.(binding) in
  domain (match b.(resource) with
          | Fstab => FSTAB_APPROVAL_HASH_DOMAIN
          | Crypttab => CRYPTTAB_APPROVAL_HASH_DOMAIN
          end)
  ++ frames (map as_bytes
       [b.(session_id);
        b.(rollback_id);
        b.(binding_plan_id);
        b.(plan_hash);
        b.(binding_target_fingerprint);
        resource_resource_id b.(resource);
        b.(source).(source_plan_id);
        b.(source).(source_plan_hash);
        b.(source).(source_approval_id);
        b.(source).(reservation_id);
        b.(source).(transaction_binding_sha256);
        b.(source).(backup_locator);
        a.(approval_id)])
  ++ to_be_bytes b.(source).(source_approval_sequence)
  ++ to_be_bytes a.(approval_sequence)
  ++ frame (as_bytes a.(typed_confirmation)).

Definition rescue_fstab_rollback_approval_sha256 `{Sha256} (a : Approval) : string :=
  sha256_tagged (approval_preimage a).

Definition approve `{Sha256} (a : Approval) : method Admission AdmissionError () :=
  self ← get_self;
  fail_if (self.(adm_state) != Staged) ApprovalReplay;;
  fail_if (a.(binding) != self.(adm_binding)) BindingMismatch;;
  fail_if (a.(approval_id) == self.(adm_binding).(source).(source_approval_id))
    ApprovalNotFresh;;
  fail_if (a.(approval_sequence) != self.(next_approval_sequence)) NonMonotonicApproval;;
  fail_if (a.(typed_confirmation)
           != resource_typed_confirmation self.(adm_binding).(resource))
    TypedConfirmationMismatch;;
  modify_self (λ self, mkAdmission self.(adm_binding) self.(adm_state)
    self.(next_approval_sequence) self.(adm_approval_id)
    (Some (rescue_fstab_rollback_approval_sha256 a)));;
  modify_self (λ self, mkAdmission self.(adm_binding) Approved
    self.(next_approval_sequence) (Some a.(approval_id)) self.(adm_approval_sha256)).

End Rollback.
