(* ===== verification/AdmissionProperties.v ===== *)
(** * Properties of the approval-only admissions

    An interface for one-shot admissions with its three implementations, the
    commitment of the approval and plan hashes, and the canonical rollback
    plan. *)

From Stdlib.Strings Require Import Byte.
From S2P Require Import Prelude Bytes Crypto Protocol Policy Admission.

(** ** One-shot admissions *)

(** What an admission promises its caller: while staged it accepts the
    acceptable approvals and no other, a refused approval changes nothing, and
    once approved it refuses everything and never changes again. *)
Class OneShot {S A E} (step : A → method S E ()) (staged : S) (acceptable : A → bool)
    (approved : A → S) : Prop := {
  one_shot_accept a : acceptable a = true → step a staged = (approved a, Ok tt);
  one_shot_refuse a : acceptable a = false → ∃ e, step a staged = (staged, Err e);
  one_shot_replay a b : ∃ e, step b (approved a) = (approved a, Err e);
}.

(** Presents approvals one after the other; collects the accepted ones. *)
Fixpoint present {S A E} (step : A → method S E ()) (s : S) (l : list A) : S * list A :=
  match l with
  | [] => (s, [])
  | a :: l =>
      match step a s with
      | (s, Ok _) => let '(s, acc) := present step s l in (s, a :: acc)
      | (s, Err _) => present step s l
      end
  end.

Section one_shot.
Context {S A E : Type} {step : A → method S E ()} {staged : S}
  {acceptable : A → bool} {approved : A → S} `{!OneShot step staged acceptable approved}.

Lemma present_approved a l : present step (approved a) l = (approved a, []).
Proof using All.
  induction l as [|b l IH]; [done|]. simpl.
  destruct (one_shot_replay a b) as [e ->]. exact IH.
Qed.

Lemma present_staged l :
  present step staged l =
    match find acceptable l with
    | Some a => (approved a, [a])
    | None => (staged, [])
    end.
Proof using All.
  induction l as [|a l IH]; [done|]. simpl.
  destruct (acceptable a) eqn:Ha.
  - by rewrite one_shot_accept, present_approved.
  - by destruct (one_shot_refuse a Ha) as [e ->].
Qed.

End one_shot.

(** ** The three admissions *)

(** Runs an [approve] method against concrete guards. *)
Ltac run_guards :=
  run_methods; cbn;
  repeat match goal with
  | H : bool_decide ?P = _ |- context [bool_decide ?P] => rewrite H
  | |- context [bool_decide ?P] => case_bool_decide
  end; simpl in *; try done; eauto.

Section admissions.
Context `{sha : Sha256}.

Definition crypttab_acceptable (b : Crypttab.Binding) (a : Crypttab.Approval) : bool :=
  (a.(Crypttab.binding) == b) && (a.(Crypttab.sequence) == 1%Z)
  && (a.(Crypttab.typed_confirmation) == "DISABILITA VOCE CRYPTTAB"%string).

Definition crypttab_approved (b : Crypttab.Binding) (a : Crypttab.Approval) :
    Crypttab.Admission :=
  Crypttab.mkAdmission b Crypttab.Approved (Some a.(Crypttab.approval_id))
    (Some a.(Crypttab.sequence)) (Some (Crypttab.canonical_crypttab_approval_sha256 a)).

#[export] Instance crypttab_one_shot b :
  OneShot Crypttab.approve (Crypttab.mkAdmission b Crypttab.Staged None None None)
    (crypttab_acceptable b) (crypttab_approved b).
Proof.
  split; unfold crypttab_acceptable, Crypttab.approve, crypttab_approved; intros a Ha; run_guards.
Qed.

Definition fstab_acceptable (b : FstabCandidate.Binding) (last : Z)
    (a : FstabCandidate.Approval) : bool :=
  (a.(FstabCandidate.binding) == b)
  && (a.(FstabCandidate.approval_sequence) == (last + 1)%Z)
  && (a.(FstabCandidate.typed_confirmation) == "DISABILITA VOCE FSTAB"%string).

Definition fstab_approved (b : FstabCandidate.Binding) (last : Z)
    (a : FstabCandidate.Approval) : FstabCandidate.Admission :=
  FstabCandidate.mkAdmission b FstabCandidate.Approved (last + 1)
    (Some a.(FstabCandidate.approval_id)) (Some a.(FstabCandidate.approval_sequence))
    (Some (FstabCandidate.rescue_fstab_approval_sha256 a)).

#[export] Instance fstab_one_shot b last :
  OneShot FstabCandidate.approve
    (FstabCandidate.mkAdmission b FstabCandidate.Staged (last + 1) None None None)
    (fstab_acceptable b last) (fstab_approved b last).
Proof.
  split; unfold fstab_acceptable, FstabCandidate.approve, fstab_approved; intros a Ha; run_guards.
Qed.

Definition rollback_acceptable (b : Rollback.Binding) (a : Rollback.Approval) : bool :=
  (a.(Rollback.binding) == b)
  && negb (a.(Rollback.approval_id) == b.(Rollback.source).(Rollback.source_approval_id))
  && (a.(Rollback.approval_sequence)
      == (b.(Rollback.source).(Rollback.source_approval_sequence) + 1)%Z)
  && (a.(Rollback.typed_confirmation)
      == match b.(Rollback.resource) with
         | Rollback.Fstab => "RIPRISTINA FSTAB ORIGINALE"%string
         | Rollback.Crypttab => "RIPRISTINA CRYPTTAB ORIGINALE"%string
         end).

Definition rollback_approved (b : Rollback.Binding) (a : Rollback.Approval) :
    Rollback.Admission :=
  Rollback.mkAdmission b Rollback.Approved
    (b.(Rollback.source).(Rollback.source_approval_sequence) + 1)
    (Some a.(Rollback.approval_id)) (Some (Rollback.rescue_fstab_rollback_approval_sha256 a)).

#[export] Instance rollback_one_shot b :
  OneShot Rollback.approve
    (Rollback.mkAdmission b Rollback.Staged
       (b.(Rollback.source).(Rollback.source_approval_sequence) + 1) None None)
    (rollback_acceptable b) (rollback_approved b).
Proof.
  split; unfold rollback_acceptable, Rollback.approve, rollback_approved; intros a Ha;
    destruct b as [[] ?]; run_guards.
Qed.

End admissions.

(** ** What the hashes commit to *)

(** The structured inputs of the four domain-separated hashes of the candidate
    builds. *)
Inductive hash_input :=
| FstabApproval (a : FstabCandidate.Approval)
| CrypttabApproval (a : Crypttab.Approval)
| RollbackApproval (a : Rollback.Approval)
| RollbackPlan (i : Rollback.PlanInput).

Definition input_preimage (x : hash_input) : bytes :=
  match x with
  | FstabApproval a => FstabCandidate.approval_preimage a
  | CrypttabApproval a => Crypttab.approval_preimage a
  | RollbackApproval a => Rollback.approval_preimage a
  | RollbackPlan i => Rollback.plan_preimage i
  end.

Definition input_sha256 `{Sha256} (x : hash_input) : string :=
  match x with
  | FstabApproval a => FstabCandidate.rescue_fstab_approval_sha256 a
  | CrypttabApproval a => Crypttab.canonical_crypttab_approval_sha256 a
  | RollbackApproval a => Rollback.rescue_fstab_rollback_approval_sha256 a
  | RollbackPlan i => sha256_tagged (Rollback.plan_preimage i)
  end.

(** A typed confirmation is a Rust string and a sequence number a [u64]. *)
Definition machine_sized (text : string) (seq : Z) : Prop :=
  (len text ≤ U64_MAX)%Z ∧ is_u64 seq.

(** The values that the constructors of the API build. *)
Definition constructed `{Sha256} (x : hash_input) : Prop :=
  match x with
  | FstabApproval a =>
      let b := a.(FstabCandidate.binding) in
      FstabCandidate.binding_new b.(FstabCandidate.session_id)
        b.(FstabCandidate.binding_plan_id) b.(FstabCandidate.plan_hash)
        b.(FstabCandidate.binding_target_fingerprint)
        b.(FstabCandidate.resource_precondition) = Ok b ∧
      FstabCandidate.approval_new b a.(FstabCandidate.approval_id)
        a.(FstabCandidate.approval_sequence) a.(FstabCandidate.typed_confirmation) = Ok a ∧
      machine_sized a.(FstabCandidate.typed_confirmation) a.(FstabCandidate.approval_sequence)
  | CrypttabApproval a =>
      let b := a.(Crypttab.binding) in
      Crypttab.binding_new b.(Crypttab.session_id) b.(Crypttab.binding_plan_id)
        b.(Crypttab.plan_sha256) b.(Crypttab.binding_target_fingerprint)
        b.(Crypttab.target_snapshot) = Ok b ∧
      Crypttab.approval_new a.(Crypttab.approval_id) a.(Crypttab.sequence) b
        a.(Crypttab.typed_confirmation) = Ok a ∧
      machine_sized a.(Crypttab.typed_confirmation) a.(Crypttab.sequence)
  | RollbackApproval a =>
      let b := a.(Rollback.binding) in
      let s := b.(Rollback.source) in
      Rollback.source_binding_new s.(Rollback.source_plan_id) s.(Rollback.source_plan_hash)
        s.(Rollback.source_approval_id) s.(Rollback.source_approval_sequence)
        s.(Rollback.reservation_id) s.(Rollback.transaction_binding_sha256)
        s.(Rollback.backup_locator) = Ok s ∧
      Rollback.binding_new_for_resource b.(Rollback.resource) b.(Rollback.session_id)
        b.(Rollback.rollback_id) b.(Rollback.binding_plan_id) b.(Rollback.plan_hash)
        b.(Rollback.binding_target_fingerprint) s = Ok b ∧
      Rollback.approval_new b a.(Rollback.approval_id) a.(Rollback.approval_sequence)
        a.(Rollback.typed_confirmation) = Ok a ∧
      is_u64 s.(Rollback.source_approval_sequence) ∧
      machine_sized a.(Rollback.typed_confirmation) a.(Rollback.approval_sequence)
  | RollbackPlan i => is_ok (Rollback.canonical_rescue_repair_rollback_plan i) = true
  end.

(** The domain tag of an input and the bytes that follow it. *)
Definition input_domain (x : hash_input) : string :=
  match x with
  | FstabApproval _ => FstabCandidate.APPROVAL_HASH_DOMAIN
  | CrypttabApproval _ => "kernaid:rescue-crypttab:approval:v1"
  | RollbackApproval a =>
      match a.(Rollback.binding).(Rollback.resource) with
      | Rollback.Fstab => Rollback.FSTAB_APPROVAL_HASH_DOMAIN
      | Rollback.Crypttab => Rollback.CRYPTTAB_APPROVAL_HASH_DOMAIN
      end
  | RollbackPlan i =>
      match i.(Rollback.pi_resource) with
      | Rollback.Fstab => Rollback.FSTAB_PLAN_HASH_DOMAIN
      | Rollback.Crypttab => Rollback.CRYPTTAB_PLAN_HASH_DOMAIN
      end
  end.

Lemma input_preimage_domain x : ∃ body, input_preimage x = domain (input_domain x) ++ body.
Proof.
  destruct x; simpl; unfold FstabCandidate.approval_preimage, Crypttab.approval_preimage,
    Rollback.approval_preimage, Rollback.plan_preimage; by eexists.
Qed.

Lemma input_domain_nul_free x : nul_free (as_bytes (input_domain x)) = true.
Proof.
  destruct x as [a|a|a|i]; simpl; try done;
    [destruct (Rollback.resource _)|destruct (Rollback.pi_resource _)]; done.
Qed.

Lemma input_domain_inj x y : input_preimage x = input_preimage y → input_domain x = input_domain y.
Proof.
  destruct (input_preimage_domain x) as [? ->], (input_preimage_domain y) as [? ->].
  intros Heq. apply domain_app_inj in Heq; [tauto|apply input_domain_nul_free..].
Qed.

(** ** The preimages are injective *)

Lemma text_fits_len s : (len s ≤ U64_MAX)%Z → text_fits s.
Proof. apply fits_as_bytes. Qed.

Lemma text_fits_locator r l :
  typed_id r "B-" = true → strip_prefix "vault://repair/" l = Some r → text_fits l.
Proof.
  intros Hr%typed_id_len Hl%strip_prefix_Some. subst l. apply fits_as_bytes.
  rewrite len_app. change (len "vault://repair/") with 15%Z. unfold U64_MAX. lia.
Qed.

Lemma resource_texts_fit r :
  text_fits (Rollback.resource_action_id r) ∧ text_fits (Rollback.resource_evidence_id r) ∧
  text_fits (Rollback.resource_preflight_id r) ∧ text_fits (Rollback.resource_backup r) ∧
  text_fits (Rollback.resource_validation_id r) ∧ text_fits (Rollback.resource_resource_id r).
Proof. destruct r; split_and!; by apply (bool_decide_unpack _). Qed.

(** Facts about the fields of a constructed value, from its constructors. *)
Ltac field_facts :=
  unfold constructed, FstabCandidate.binding_new, FstabCandidate.approval_new,
    Crypttab.binding_new, Crypttab.approval_new, Rollback.source_binding_new,
    Rollback.binding_new_for_resource, Rollback.approval_new, machine_sized,
    valid_rescue_candidate_id, valid_rescue_candidate_sha256, Crypttab.valid_crypttab_id,
    Crypttab.valid_crypttab_hash in *; cbn in *;
  repeat match goal with
  | H : _ ∧ _ |- _ => destruct H
  | H : (if _ then Err _ else _) = Ok _ |- _ => apply reject_Ok_1 in H as [? _]
  end; guards.

Ltac text_bounds :=
  cbn; repeat apply Forall_cons_2; try apply Forall_nil_2;
  eauto using text_fits_len, text_fits_locator with kernaid;
  by apply (bool_decide_unpack _).

Section injectivity.
Context `{sha : Sha256}.

Lemma fstab_preimage_inj a a' :
  constructed (FstabApproval a) → constructed (FstabApproval a') →
  FstabCandidate.approval_preimage a = FstabCandidate.approval_preimage a' → a = a'.
Proof.
  intros Ha Ha' Heq. destruct a as [[]], a' as [[]]. field_facts.
  unfold FstabCandidate.approval_preimage in Heq. apply app_inv_head in Heq.
  apply texts_app_inj in Heq as [Htexts Heq]; [|done|text_bounds..].
  apply to_be_bytes_app_inj in Heq as [Hseq Heq]; [|done..].
  apply frame_text_inj in Heq; [|by apply text_fits_len..]. by simplify_eq/=.
Qed.

Lemma crypttab_preimage_inj a a' :
  constructed (CrypttabApproval a) → constructed (CrypttabApproval a') →
  Crypttab.approval_preimage a = Crypttab.approval_preimage a' → a = a'.
Proof.
  intros Ha Ha' Heq. destruct a as [? ? []], a' as [? ? []]. field_facts.
  unfold Crypttab.approval_preimage in Heq. apply app_inv_head in Heq.
  apply texts_app_inj in Heq as [Htexts Heq]; [|done|text_bounds..].
  apply to_be_bytes_inj in Heq as Hseq; [|done..]. by simplify_eq/=.
Qed.

Lemma rollback_preimage_inj a a' :
  constructed (RollbackApproval a) → constructed (RollbackApproval a') →
  Rollback.approval_preimage a = Rollback.approval_preimage a' → a = a'.
Proof.
  intros Ha Ha' Heq.
  assert (Hr : Rollback.resource (Rollback.binding a) = Rollback.resource (Rollback.binding a')).
  { pose proof (input_domain_inj (RollbackApproval a) (RollbackApproval a') Heq) as Hd.
    simpl in Hd. by destruct (Rollback.resource _), (Rollback.resource _). }
  destruct a as [[? ? ? ? ? ? []]], a' as [[? ? ? ? ? ? []]]. cbn in Hr. subst. field_facts.
  unfold Rollback.approval_preimage in Heq. apply app_inv_head in Heq.
  apply texts_app_inj in Heq as [Htexts Heq];
    [|done|destruct (resource_texts_fit resource0) as (?&?&?&?&?&?); text_bounds..].
  apply to_be_bytes_app_inj in Heq as [Hs Heq]; [|done..].
  apply to_be_bytes_app_inj in Heq as [Hs' Heq]; [|done..].
  apply frame_text_inj in Heq; [|by apply text_fits_len..]. by simplify_eq/=.
Qed.

End injectivity.

(** ** The canonical rollback plan *)

Definition rollback_contract (r : Rollback.Resource) : rescue_contract :=
  match r with Rollback.Fstab => FstabRollback | Rollback.Crypttab => CrypttabRollback end.

Definition plan_input_valid (i : Rollback.PlanInput) : bool :=
  typed_id i.(Rollback.pi_plan_id) "P-" && typed_id i.(Rollback.pi_rollback_id) "RB-"
  && sha256_text i.(Rollback.pi_target_fingerprint)
  && typed_id i.(Rollback.pi_reservation_id) "B-"
  && sha256_text i.(Rollback.pi_transaction_binding_sha256).

Lemma resource_validate_contract r : Rollback.resource_validate_plan r =
  validate_contract (rollback_contract r).
Proof. by destruct r. Qed.

Section canonical_plan.
Context `{sha : Sha256}.

Lemma canonical_plan_eq i :
  Rollback.canonical_rescue_repair_rollback_plan i =
    if plan_input_valid i then
      Ok (contract_plan (rollback_contract i.(Rollback.pi_resource)) i.(Rollback.pi_plan_id)
            i.(Rollback.pi_target_fingerprint),
          sha256_tagged (Rollback.plan_preimage i))
    else Err Rollback.InvalidBinding.
Proof.
  unfold Rollback.canonical_rescue_repair_rollback_plan, plan_input_valid,
    valid_rescue_candidate_id, valid_rescue_candidate_sha256.
  rewrite resource_validate_contract, <-!negb_andb.
  destruct (_ && _) eqn:Hv; cbn [negb]; [|done]. guards.
  set (plan := mkValidatedPlan _ _ _).
  replace plan with (contract_plan (rollback_contract i.(Rollback.pi_resource))
    i.(Rollback.pi_plan_id) i.(Rollback.pi_target_fingerprint))
    by (by destruct (Rollback.pi_resource i)).
  set (v := validate_contract _ _ _).
  assert (v = Ok tt) as -> by (by apply validate_contract_closed).
  done.
Qed.

Lemma plan_preimage_inj i i' :
  constructed (RollbackPlan i) → constructed (RollbackPlan i') →
  Rollback.plan_preimage i = Rollback.plan_preimage i' → i = i'.
Proof.
  unfold constructed. rewrite !canonical_plan_eq. intros Hi Hi' Heq.
  assert (Hr : Rollback.pi_resource i = Rollback.pi_resource i').
  { pose proof (input_domain_inj (RollbackPlan i) (RollbackPlan i') Heq) as Hd.
    simpl in Hd. by destruct (Rollback.pi_resource i), (Rollback.pi_resource i'). }
  destruct (plan_input_valid i) eqn:Hv; [|done]. destruct (plan_input_valid i') eqn:Hv'; [|done].
  destruct i as [r], i' as [r']. cbn in Hr. subst r'. unfold plan_input_valid in *. cbn in *. guards.
  unfold Rollback.plan_preimage in Heq. apply app_inv_head in Heq.
  apply texts_inj in Heq;
    [|done|destruct (resource_texts_fit r) as (?&?&?&?&?&?); text_bounds..].
  by simplify_eq/=.
Qed.

Lemma input_preimage_inj x y :
  constructed x → constructed y → input_preimage x = input_preimage y → x = y.
Proof.
  intros Hx Hy Heq. pose proof (input_domain_inj x y Heq) as Hd.
  destruct x as [a|a|a|i], y as [b|b|b|j]; cbn [input_domain] in Hd;
    repeat match type of Hd with
    | context [match ?r with Rollback.Fstab => _ | Rollback.Crypttab => _ end] =>
        destruct r
    end; try discriminate Hd; f_equal;
    first [by apply fstab_preimage_inj | by apply crypttab_preimage_inj
          | by apply rollback_preimage_inj | by apply plan_preimage_inj].
Qed.

Lemma input_sha256_preimage x : input_sha256 x = sha256_tagged (input_preimage x).
Proof. by destruct x. Qed.

End canonical_plan.

(** ** Properties *)

(** C33. Each admission is one-shot: whatever approvals are presented to a freshly
    staged fstab, crypttab or rollback admission and in whatever order, exactly
    the first acceptable one is accepted, every other one is refused without a
    trace, and the admission ends up approved by it or still as staged. An
    approval is acceptable when it carries the staged binding, the exact next
    sequence number, the exact typed confirmation and, for a rollback, an
    approval identifier different from the one of the source transaction. *)
Theorem admissions_accept_first_acceptable `{sha : Sha256} :
  (∀ plan b adm l, Crypttab.stage plan b = Ok adm →
     present Crypttab.approve adm l =
       match find (crypttab_acceptable b) l with
       | Some a => (crypttab_approved b a, [a])
       | None => (adm, [])
       end) ∧
  (∀ b last adm l, FstabCandidate.stage b last = Ok adm →
     present FstabCandidate.approve adm l =
       match find (fstab_acceptable b last) l with
       | Some a => (fstab_approved b last a, [a])
       | None => (adm, [])
       end) ∧
  (∀ b adm l, Rollback.stage b = Ok adm →
     present Rollback.approve adm l =
       match find (rollback_acceptable b) l with
       | Some a => (rollback_approved b a, [a])
       | None => (adm, [])
       end).
Proof.
  split_and!.
  - intros plan b adm l Hs. unfold Crypttab.stage in Hs. inv_ok Hs.
    apply present_staged.
  - intros b last adm l Hs. unfold FstabCandidate.stage in Hs. inv_ok Hs.
    apply checked_add_u64_Some in Hcall as [-> _]. apply present_staged.
  - intros b adm l Hs. unfold Rollback.stage in Hs. inv_ok Hs.
    apply checked_add_u64_Some in Hcall as [-> _]. apply present_staged.
Qed.

Definition sample_binding : FstabCandidate.Binding :=
  FstabCandidate.mkBinding "S-1" "P-1" sample_target sample_target sample_target.

Definition sample_approval (seq : Z) (text : string) : FstabCandidate.Approval :=
  FstabCandidate.mkApproval sample_binding "A-1" seq text.

Lemma admissions_accept_first_acceptable_witness :
  present (FstabCandidate.approve (H := Demo.demo_sha256))
    (FstabCandidate.mkAdmission sample_binding FstabCandidate.Staged 42 None None None)
    [sample_approval 41 "DISABILITA VOCE FSTAB"; sample_approval 42 "disabilita voce fstab";
     sample_approval 42 "DISABILITA VOCE FSTAB"; sample_approval 42 "DISABILITA VOCE FSTAB"]
  = (fstab_approved (sha := Demo.demo_sha256) sample_binding 41
       (sample_approval 42 "DISABILITA VOCE FSTAB"),
     [sample_approval 42 "DISABILITA VOCE FSTAB"]).
Proof.
  destruct (admissions_accept_first_acceptable (sha := Demo.demo_sha256)) as (_ & Hf & _).
  refine (eq_trans (Hf sample_binding 41%Z _ _ _) _); vm_compute; reflexivity.
Defined.

(** The approval and plan digests commit to their purpose and to every
    field: when two values that the API constructs (fstab approval, crypttab
    approval, rollback approval of either resource, canonical rollback plan)
    have the same digest, they are the same value of the same kind, or the two
    byte strings that were hashed are a SHA-256 collision. No digest of one
    kind can be replayed as a digest of another. *)
Theorem approval_and_plan_digests_commit `{sha : Sha256} x y :
  constructed x → constructed y → input_sha256 x = input_sha256 y →
  x = y ∨ collision (input_preimage x) (input_preimage y).
Proof.
  intros Hx Hy Heq. rewrite !input_sha256_preimage in Heq.
  apply sha256_tagged_inj in Heq as [Heq|]; [|by right].
  left. by apply input_preimage_inj.
Qed.

Definition sample_source : Rollback.SourceBinding :=
  Rollback.mkSourceBinding "P-0" sample_target "A-0" 1 "B-0" sample_target "vault://repair/B-0".
Definition other_target : string :=
  "sha256:bbbbbbbbbbbbbbbbbbbbbbbbbbbbbbbbbbbbbbbbbbbbbbbbbbbbbbbbbbbbbbbb".
Definition sample_rollback (r : Rollback.Resource) : hash_input :=
  RollbackApproval (Rollback.mkApproval
    (Rollback.mkBinding r "S-1" "RB-1" "P-1" other_target sample_target sample_source)
    "A-1" 2 (Rollback.resource_typed_confirmation r)).

Lemma approval_and_plan_digests_commit_witness :
  sample_rollback Rollback.Fstab = sample_rollback Rollback.Fstab ∨
  collision (H := Demo.demo_sha256) (input_preimage (sample_rollback Rollback.Fstab))
    (input_preimage (sample_rollback Rollback.Fstab)).
Proof.
  apply (approval_and_plan_digests_commit (sha := Demo.demo_sha256));
    [vm_compute; naive_solver..|reflexivity].
Defined.

(** The canonical rollback plan is total on valid input: the plan is the
    closed rollback contract of the selected resource bound to the plan
    identifier and target, with the digest of its canonical preimage, exactly
    when all five inputs are well formed, and [InvalidBinding] otherwise. The
    policy re-validation inside never fails, and the policy check that session
    staging applies to the plan accepts it. *)
Theorem canonical_rollback_plan_total `{sha : Sha256} i :
  (plan_input_valid i = true ∧
   Rollback.canonical_rescue_repair_rollback_plan i =
     Ok (contract_plan (rollback_contract i.(Rollback.pi_resource)) i.(Rollback.pi_plan_id)
           i.(Rollback.pi_target_fingerprint),
         sha256_tagged (Rollback.plan_preimage i)) ∧
   Rollback.resource_validate_plan i.(Rollback.pi_resource)
     (contract_plan (rollback_contract i.(Rollback.pi_resource)) i.(Rollback.pi_plan_id)
        i.(Rollback.pi_target_fingerprint)) i.(Rollback.pi_target_fingerprint) = Ok tt) ∨
  (plan_input_valid i = false ∧
   Rollback.canonical_rescue_repair_rollback_plan i = Err Rollback.InvalidBinding).
Proof.
  rewrite canonical_plan_eq, resource_validate_contract.
  destruct (plan_input_valid i) eqn:Hv; [left|by right]. split_and!; try done.
  unfold plan_input_valid in Hv. guards. by apply validate_contract_closed.
Qed.

(** A rollback can only be approved fresh: an approval that a staged
    rollback accepts is bound to a plan identifier and a plan hash different
    from those of the source transaction, carries an approval identifier
    different from the source approval and the sequence number right after it,
    and staging itself is refused exactly when that number does not fit a
    [u64]. *)
Theorem rollback_approval_is_fresh `{sha : Sha256} r sid rid pid ph tf src b :
  Rollback.binding_new_for_resource r sid rid pid ph tf src = Ok b →
  is_u64 src.(Rollback.source_approval_sequence) →
  (Rollback.stage b = Err Rollback.SequenceExhausted ↔
     src.(Rollback.source_approval_sequence) = U64_MAX) ∧
  ∀ adm adm' a, Rollback.stage b = Ok adm → Rollback.approve a adm = (adm', Ok tt) →
    b.(Rollback.binding_plan_id) ≠ src.(Rollback.source_plan_id) ∧
    b.(Rollback.plan_hash) ≠ src.(Rollback.source_plan_hash) ∧
    a.(Rollback.approval_id) ≠ src.(Rollback.source_approval_id) ∧
    a.(Rollback.approval_sequence) = (src.(Rollback.source_approval_sequence) + 1)%Z ∧
    is_u64 a.(Rollback.approval_sequence) ∧ a.(Rollback.binding) = b.
Proof.
  unfold Rollback.binding_new_for_resource. intros Hb Hu. inv_ok Hb. guards. cbn in *. split.
  - unfold Rollback.stage, checked_add_u64. cbn. unfold is_u64 in Hu.
    destruct (Z.leb_spec (src.(Rollback.source_approval_sequence) + 1) U64_MAX); cbn;
      naive_solver lia.
  - intros adm adm' a Hs Ha. pose proof (rollback_one_shot
      (Rollback.mkBinding r sid rid pid ph tf src)) as Hone.
    unfold Rollback.stage in Hs. inv_ok Hs.
    apply checked_add_u64_Some in Hcall as [-> Hmax]. cbn in Hmax, Ha.
    destruct (rollback_acceptable (Rollback.mkBinding r sid rid pid ph tf src) a) eqn:Hacc.
    + unfold rollback_acceptable in Hacc. cbn in Hacc. guards. unfold is_u64 in *.
      split_and!; try done; lia.
    + destruct (one_shot_refuse a Hacc) as [e He]. cbn in He. congruence.
Qed.

Definition fresh_binding : Rollback.Binding :=
  Rollback.mkBinding Rollback.Crypttab "S-1" "RB-1" "P-1" other_target sample_target sample_source.
Definition fresh_approval : Rollback.Approval :=
  Rollback.mkApproval fresh_binding "A-1" 2 "RIPRISTINA CRYPTTAB ORIGINALE".

Lemma rollback_approval_is_fresh_witness :
  fresh_approval.(Rollback.approval_id) ≠ sample_source.(Rollback.source_approval_id) ∧
  fresh_approval.(Rollback.approval_sequence) =
    (sample_source.(Rollback.source_approval_sequence) + 1)%Z.
Proof.
  destruct (rollback_approval_is_fresh (sha := Demo.demo_sha256) Rollback.Crypttab "S-1" "RB-1"
    "P-1" other_target sample_target sample_source fresh_binding) as [_ Hfresh];
    [vm_compute; reflexivity|by vm_compute|].
  edestruct (Hfresh (Rollback.mkAdmission fresh_binding Rollback.Staged 2 None None)
    (rollback_approved (sha := Demo.demo_sha256) fresh_binding fresh_approval)
    fresh_approval) as (_ & _ & Hid & Hseq & _); [vm_compute; reflexivity..|].
  by split.
Defined.
