(* ===== verification/CrypttabProtocol.v ===== *)
(** * Closed values of the crypttab candidate (crates/protocol/src/rescue_crypttab_repair.rs)

    The request that starts a crypttab preview, the evidence bindings and the
    descriptor of a prepared candidate: constructors that accept only
    well-formed, path-free values. *)

From Stdlib.Strings Require Import Byte.
From S2P Require Import Prelude Bytes Crypto Protocol Admission.
Import rescue_crypttab_repair.

(** ** Values *)

Inductive RescueCrypttabProtocolError :=
| InvalidRequestId
| InvalidSessionId
| InvalidPlanId
| InvalidScanFingerprint
| InvalidTargetId
| InvalidHash
| InvalidEvidence
| InvalidContract.

Record RescueCrypttabPrepareRequest := mkRequest {
  request_id : string;
  request_session_id : string;
  request_plan_id : string;
  request_scan_fingerprint : string;
  request_target_id : string;
  request_target_fingerprint : string;
}.

Record RescueCrypttabEvidenceBinding := mkEvidenceBinding {
  evidence_id : string;
  evidence_sha256 : string;
}.

Record RescueCrypttabPreparedDescriptor := mkDescriptor {
  descriptor_request_id : string;
  descriptor_session_id : string;
  descriptor_plan_id : string;
  descriptor_plan_sha256 : string;
  descriptor_scan_fingerprint : string;
  descriptor_target_id : string;
  descriptor_target_fingerprint : string;
  before_sha256 : string;
  after_sha256 : string;
  diff_sha256 : string;
  observed_uuid_set_sha256 : string;
  fstab_consumer_set_sha256 : string;
  evidence : RescueCrypttabEvidenceBinding * RescueCrypttabEvidenceBinding
             * RescueCrypttabEvidenceBinding;
}.

(** ** Validators *)

Definition valid_prefixed_id (value prefix : string) : bool := typed_id value prefix.

Definition valid_digest (value prefix : string) : bool :=
  match strip_prefix prefix value with
  | Some digest =>
      (len digest =? 64)%Z && all_bytes (λ b, is_ascii_digit b || is_lower_a_f b) digest
  | None => false
  end.

(** The positions of the dashes of a UUID after the two-byte prefix. *)
Definition dashes : list nat := [10; 15; 20; 25].

Definition valid_request_id (value : string) : bool :=
  let bytes := as_bytes value in
  (length bytes == 38)
  && (take 2 bytes == as_bytes "R-")
  && forallb (λ index, bytes !! index == Some x2d) dashes
  && forallb (λ '(index, byte),
       (index <? 2) || bool_decide (index ∈ dashes) || is_ascii_digit byte || is_lower_a_f byte)
       (imap pair bytes).

(** ** Constructors *)

Definition request_new (request_id session_id plan_id scan_fingerprint target_id
    target_fingerprint : string) :
    result RescueCrypttabProtocolError RescueCrypttabPrepareRequest :=
  let value := mkRequest request_id session_id plan_id scan_fingerprint target_id
                 target_fingerprint in
  reject (negb (valid_request_id value.(CrypttabProtocol.request_id))) with InvalidRequestId;
  reject (negb (valid_prefixed_id value.(request_session_id) "S-")) with InvalidSessionId;
  reject (negb (valid_prefixed_id value.(request_plan_id) "P-")) with InvalidPlanId;
  reject (negb (valid_digest value.(request_scan_fingerprint) "scan:"))
    with InvalidScanFingerprint;
  reject (negb (valid_digest value.(request_target_id) "target:")) with InvalidTargetId;
  reject (negb (valid_digest value.(request_target_fingerprint) "sha256:")) with InvalidHash;
  Ok value.

Definition evidence_binding_new (evidence_id sha256 : string) :
    result RescueCrypttabProtocolError RescueCrypttabEvidenceBinding :=
  let value := mkEvidenceBinding evidence_id sha256 in
  reject (negb (bool_decide (value.(CrypttabProtocol.evidence_id) ∈ EVIDENCE_IDS))
          || negb (valid_digest value.(evidence_sha256) "sha256:")) with InvalidEvidence;
  Ok value.

Definition descriptor_new (request : RescueCrypttabPrepareRequest)
    (plan_sha256 before_sha256 after_sha256 diff_sha256 observed_uuid_set_sha256
     fstab_consumer_set_sha256 : string)
    (evidence : RescueCrypttabEvidenceBinding * RescueCrypttabEvidenceBinding
                * RescueCrypttabEvidenceBinding) :
    result RescueCrypttabProtocolError RescueCrypttabPreparedDescriptor :=
  let value := mkDescriptor request.(request_id) request.(request_session_id)
    request.(request_plan_id) plan_sha256 request.(request_scan_fingerprint)
    request.(request_target_id) request.(request_target_fingerprint) before_sha256 after_sha256
    diff_sha256 observed_uuid_set_sha256 fstab_consumer_set_sha256 evidence in
  let '(e1, e2, e3) := value.(CrypttabProtocol.evidence) in
  reject (existsb (λ hash, negb (valid_digest hash "sha256:"))
            [value.(descriptor_plan_sha256); value.(descriptor_target_fingerprint);
             value.(CrypttabProtocol.before_sha256); value.(CrypttabProtocol.after_sha256);
             value.(CrypttabProtocol.diff_sha256);
             value.(CrypttabProtocol.observed_uuid_set_sha256);
             value.(CrypttabProtocol.fstab_consumer_set_sha256)]
          || negb (valid_digest value.(descriptor_scan_fingerprint) "scan:")
          || negb (valid_digest value.(descriptor_target_id) "target:")
          || (value.(CrypttabProtocol.before_sha256) == value.(CrypttabProtocol.after_sha256))
          || (map evidence_id [e1; e2; e3] != EVIDENCE_IDS)) with InvalidContract;
  Ok value.

(** ** Properties *)

Lemma descriptor_new_Ok q plan before after diff uuids consumers e1 e2 e3 d :
  valid_digest q.(request_scan_fingerprint) "scan:" = true →
  valid_digest q.(request_target_id) "target:" = true →
  sha256_text q.(request_target_fingerprint) = true →
  descriptor_new q plan before after diff uuids consumers (e1, e2, e3) = Ok d ↔
    (∀ h, h ∈ [plan; before; after; diff; uuids; consumers] → sha256_text h = true) ∧
    before ≠ after ∧ map evidence_id [e1; e2; e3] = EVIDENCE_IDS ∧
    d = mkDescriptor q.(request_id) q.(request_session_id) q.(request_plan_id) plan
          q.(request_scan_fingerprint) q.(request_target_id) q.(request_target_fingerprint)
          before after diff uuids consumers (e1, e2, e3).
Proof.
  intros Hs Ht Hf. unfold descriptor_new. cbv zeta.
  cbn [CrypttabProtocol.evidence descriptor_plan_sha256 descriptor_target_fingerprint
    CrypttabProtocol.before_sha256 CrypttabProtocol.after_sha256 CrypttabProtocol.diff_sha256
    CrypttabProtocol.observed_uuid_set_sha256 CrypttabProtocol.fstab_consumer_set_sha256
    descriptor_scan_fingerprint descriptor_target_id existsb].
  change (λ hash, negb (valid_digest hash "sha256:")) with (λ hash, negb (sha256_text hash)).
  rewrite reject_Ok, Hs, Ht, !orb_false_iff, !negb_false_iff, !bool_decide_eq_false.
  split.
  - intros [[[[[(H1 & _ & H2 & H3 & H4 & H5 & H6 & _) _] _] Hne] He] Hd].
    apply dec_stable in He. injection Hd as <-. split_and!; [|done..].
    intros h Hh. rewrite !elem_of_cons in Hh. destruct Hh as [->|[->|[->|[->|[->|[->|Hh]]]]]]; try done.
    by apply elem_of_nil in Hh.
  - intros (Hh & Hne & He & ->). split; [|done]. split_and!; try done; try (apply Hh; set_solver).
    auto.
Qed.

(** The request and descriptor constructors pin the identity that the core
    admits: for every accepted request, a descriptor is built exactly when the
    six digests are well formed, the file changes and the evidence is the closed
    list in its order, so the repeated checks on the request's fields never
    fail; it copies the identity of the request; and the candidate binding that
    the core derives from the same values is accepted. *)
Theorem crypttab_descriptor_binds rid sid pid scan tid tfp q plan before after diff uuids consumers
    e1 e2 e3 :
  request_new rid sid pid scan tid tfp = Ok q →
  (is_ok (descriptor_new q plan before after diff uuids consumers (e1, e2, e3)) = true ↔
     (∀ h, h ∈ [plan; before; after; diff; uuids; consumers] → sha256_text h = true) ∧
     before ≠ after ∧ map evidence_id [e1; e2; e3] = EVIDENCE_IDS) ∧
  ∀ d, descriptor_new q plan before after diff uuids consumers (e1, e2, e3) = Ok d →
    d = mkDescriptor rid sid pid plan scan tid tfp before after diff uuids consumers (e1, e2, e3) ∧
    Crypttab.binding_new d.(descriptor_session_id) d.(descriptor_plan_id)
      d.(descriptor_plan_sha256) d.(descriptor_target_fingerprint) d.(before_sha256) =
    Ok (Crypttab.mkBinding sid pid plan tfp before).
Proof.
  unfold request_new. intros Hq. inv_ok Hq. guards.
  cbn [CrypttabProtocol.request_id request_session_id request_plan_id request_scan_fingerprint
    request_target_id request_target_fingerprint] in *.
  pose proof (descriptor_new_Ok (mkRequest rid sid pid scan tid tfp) plan before after diff uuids
    consumers e1 e2 e3) as Hd.
  cbn [request_id request_session_id request_plan_id request_scan_fingerprint request_target_id
    request_target_fingerprint] in Hd. split.
  - split.
    + destruct (descriptor_new (mkRequest rid sid pid scan tid tfp) _ _ _ _ _ _ _) as [d|] ; [|done]. intros _.
      by destruct (proj1 (Hd d Hguard2 Hguard3 Hguard4) eq_refl) as (? & ? & ? & _).
    + intros (Hh & Hne & He). by rewrite (proj2 (Hd _ Hguard2 Hguard3 Hguard4) (conj Hh (conj Hne (conj He eq_refl)))).
  - intros d (Hh & _ & _ & ->)%Hd; [|done..]. split; [done|]. unfold Crypttab.binding_new. cbn.
    apply reject_pass; [|done]. unfold Crypttab.valid_crypttab_id, Crypttab.valid_crypttab_hash.
    unfold valid_prefixed_id in *. change (valid_digest tfp "sha256:") with (sha256_text tfp) in *.
    rewrite Hguard0, Hguard1, Hguard4, (Hh plan), (Hh before); [done|right; left|left].
Qed.

Definition sample_digest (prefix fill : string) : string :=
  prefix +:+ String.concat "" (replicate 64 fill).

Lemma crypttab_descriptor_binds_witness :
  let e id := mkEvidenceBinding id (sample_digest "sha256:" "e") in
  ∃ d, descriptor_new
         (mkRequest "R-01234567-89ab-cdef-0123-456789abcdef" "S-1" "P-1" (sample_digest "scan:" "0")
            (sample_digest "target:" "1") (sample_digest "sha256:" "2"))
         (sample_digest "sha256:" "3") (sample_digest "sha256:" "4") (sample_digest "sha256:" "5")
         (sample_digest "sha256:" "6") (sample_digest "sha256:" "7") (sample_digest "sha256:" "8")
         (e "E-LINUX-CRYPTTAB", e "E-LINUX-FSTAB", e "E-LINUX-LSBLK")%string = Ok d ∧
    is_ok (Crypttab.binding_new d.(descriptor_session_id) d.(descriptor_plan_id)
             d.(descriptor_plan_sha256) d.(descriptor_target_fingerprint) d.(before_sha256)) = true.
Proof.
  intros e. eexists. split; [vm_compute; reflexivity|].
  destruct (crypttab_descriptor_binds "R-01234567-89ab-cdef-0123-456789abcdef" "S-1" "P-1"
    (sample_digest "scan:" "0") (sample_digest "target:" "1") (sample_digest "sha256:" "2")
    (mkRequest "R-01234567-89ab-cdef-0123-456789abcdef" "S-1" "P-1" (sample_digest "scan:" "0")
       (sample_digest "target:" "1") (sample_digest "sha256:" "2"))
    (sample_digest "sha256:" "3") (sample_digest "sha256:" "4") (sample_digest "sha256:" "5")
    (sample_digest "sha256:" "6") (sample_digest "sha256:" "7") (sample_digest "sha256:" "8")
    (e "E-LINUX-CRYPTTAB"%string) (e "E-LINUX-FSTAB"%string) (e "E-LINUX-LSBLK"%string)) as [_ Hall].
  - vm_compute. reflexivity.
  - refine (f_equal is_ok (proj2 (Hall _ _))). vm_compute. reflexivity.
Defined.
