(* ===== verification/Session.v ===== *)
(** * The session state machine (crates/core/src/lib.rs, [Session])

    The session object that gates every plan: its evidence transitions and its
    five staging entry points, as methods on the session state, and the
    sequences of calls a client can make. *)

From Stdlib.Strings Require Import Byte.
From stdpp Require Import gmap sorting.
From S2P Require Import Prelude Bytes Crypto Protocol Policy Evidence Admission.

(** ** Data *)

(** [State]. *)
Inductive State := Observe | Diagnose | Plan | Repair | Verify | Complete.

#[export] Instance State_eq_dec : EqDecision State.
Proof. solve_decision. Defined.

(** [SessionMode]. *)
Inductive SessionMode := NonLinux | LinuxResident | LinuxRescue.

#[export] Instance SessionMode_eq_dec : EqDecision SessionMode.
Proof. solve_decision. Defined.

(** [LinuxSnapshotBinding]. *)
Record LinuxSnapshotBinding := mkSnapshotBinding {
  lsb_evidence_id : string;
  lsb_evidence_sha256 : string;
  lsb_snapshot_sha256 : string;
  lsb_target : string;
  lsb_target_fingerprint : string;
  lsb_capture_mode : string;
}.

(** [Session]. *)
Record Session := mkSession {
  state : State;
  fingerprint : string;
  mode : SessionMode;
  linux_snapshot : option LinuxSnapshotBinding;
}.

Definition set_state (x : State) (self : Session) : Session :=
  mkSession x self.(fingerprint) self.(mode) self.(linux_snapshot).
Definition set_linux_snapshot (b : LinuxSnapshotBinding) (self : Session) : Session :=
  mkSession self.(state) self.(fingerprint) self.(mode) (Some b).

(** [LinuxSnapshotAdmissionError]. *)
Inductive LinuxSnapshotAdmissionError :=
| InvalidSessionState
| InvalidEvidenceBinding
| InvalidEnvelope (e : SnapshotError)
| DuplicateSnapshot
| ModeMismatch
| IncompleteLinuxCorpus
| ExplicitLinuxAdmissionRequired
| UnsupportedLinuxTopology.

Definition LINUX_RESIDENT_P0_COLLECTORS : list string :=
  ["linux.block.inventory"; "linux.mounts.read-only"; "linux.systemd.failed";
   "linux.systemd.state"; "linux.fstab"; "linux.df"; "linux.network.links";
   "linux.network.routes"; "linux.dpkg.audit"].

Definition LINUX_RESIDENT_REQUIRED_COLLECTORS : list string :=
  ["system.hostname"; "linux.hardware.inventory"; "linux.block.inventory";
   "linux.mounts.read-only"; "linux.systemd.failed"; "linux.systemd.state"; "linux.fstab";
   "linux.df"; "linux.network.links"; "linux.network.routes"; "linux.dpkg.audit"].

(** [iter().filter(p).count()]. *)
Definition count {A} (p : A → bool) (l : list A) : nat := length (filter (λ x, p x = true) l).

(** ** Methods *)

Definition session_new (fingerprint : string) (mode : SessionMode) : Session :=
  mkSession Observe fingerprint mode None.

Definition evidence_complete : method Session LinuxSnapshotAdmissionError () :=
  self ← get_self;
  fail_if (self.(state) != Observe) InvalidSessionState;;
  fail_if (self.(mode) != NonLinux) ExplicitLinuxAdmissionRequired;;
  modify_self (set_state Diagnose).

Section session.
Context `{sha : Sha256} `{serde : SnapshotSerde}.

Definition admit_linux_snapshot (evidence : Evidence) (envelope_bytes : bytes) :
    method Session LinuxSnapshotAdmissionError LinuxSnapshotBinding :=
  self ← get_self;
  fail_if (self.(state) != Observe) InvalidSessionState;;
  fail_if (bool_decide (is_Some self.(linux_snapshot))) DuplicateSnapshot;;
  envelope ← lift (map_err InvalidEnvelope (envelope_parse envelope_bytes));
  fail_if (negb envelope.(snapshot).(topology).(supported)) UnsupportedLinuxTopology;;
  let evidence_hash := hex_string (sha256 envelope_bytes) in
  '(capture_mode, target_valid) ← lift
    match self.(mode), is_resident envelope.(capture), is_rescue envelope.(capture) with
    | LinuxResident, true, _ => Ok ("resident"%string, evidence.(ev_target) == "local-machine"%string)
    | LinuxRescue, _, true =>
        Ok ("rescue"%string, evidence.(ev_target) == "selected-installed-target"%string)
    | _, _, _ => Err ModeMismatch
    end;
  fail_if (is_empty evidence.(ev_id)
           || (evidence.(ev_collector) != COLLECTOR)
           || (evidence.(ev_content_type) != CONTENT_TYPE)
           || negb (is_untrusted evidence)
           || negb target_valid
           || (evidence.(ev_sha256) != evidence_hash)
           || (evidence.(ev_blob_ref) != "sha256:" +:+ evidence_hash)) InvalidEvidenceBinding;;
  let binding := mkSnapshotBinding evidence.(ev_id) evidence_hash envelope.(snapshot_sha256)
    evidence.(ev_target) self.(fingerprint) capture_mode in
  modify_self (set_linux_snapshot binding);;
  mret binding.

Definition bound_snapshot (binding : LinuxSnapshotBinding) (item : Evidence) : bool :=
  (item.(ev_id) == binding.(lsb_evidence_id))
  && (item.(ev_collector) == COLLECTOR)
  && (item.(ev_sha256) == binding.(lsb_evidence_sha256))
  && (item.(ev_target) == binding.(lsb_target)).

Definition linux_evidence_complete (evidence : list Evidence) :
    method Session LinuxSnapshotAdmissionError () :=
  self ← get_self;
  fail_if (self.(state) != Observe) InvalidSessionState;;
  binding ← lift (ok_or self.(linux_snapshot) InvalidEvidenceBinding);
  let snapshot_collector_count := count (λ item, item.(ev_collector) == COLLECTOR) evidence in
  let bound_snapshot_count := count (bound_snapshot binding) evidence in
  let evidence_ids : gset string := list_to_set (map ev_id evidence) in
  fail_if ((snapshot_collector_count != 1)
           || (bound_snapshot_count != 1)
           || (size evidence_ids != length evidence)
           || existsb (λ item, (item.(ev_target) != binding.(lsb_target))
                               || negb (is_untrusted item)) evidence)
    IncompleteLinuxCorpus;;
  match self.(mode) with
  | LinuxResident =>
      fail_if ((length evidence != length LINUX_RESIDENT_REQUIRED_COLLECTORS + 1)
               || existsb (λ item, (item.(ev_collector) != COLLECTOR)
                    && negb (bool_decide (item.(ev_collector)
                                          ∈ LINUX_RESIDENT_REQUIRED_COLLECTORS))) evidence
               || existsb (λ collector,
                    count (λ item, item.(ev_collector) == collector) evidence != 1)
                    LINUX_RESIDENT_REQUIRED_COLLECTORS)
        IncompleteLinuxCorpus
  | LinuxRescue => fail_if (length evidence != 1) IncompleteLinuxCorpus
  | NonLinux => throw ModeMismatch
  end;;
  modify_self (set_state Diagnose).

Fixpoint validate_steps (ss : list ActionStep) : result PolicyError () :=
  match ss with
  | [] => Ok tt
  | step :: ss => _ ← validate_phase_zero step; validate_steps ss
  end.

Definition stage (plan : ValidatedPlan) : method Session PolicyError () :=
  self ← get_self;
  fail_if (self.(state) != Diagnose) MutationDisabled;;
  lift (validate_steps plan.(steps));;
  fail_if (plan.(target_fingerprint) != self.(fingerprint)) MutationDisabled;;
  modify_self (set_state Plan).

Definition stage_fixture_repair_lab (plan : ValidatedPlan) : method Session PolicyError () :=
  self ← get_self;
  fail_if (self.(state) != Diagnose) MutationDisabled;;
  lift (validate_fixture_repair_lab_plan plan self.(fingerprint));;
  modify_self (set_state Plan).

Definition stage_rescue_fstab_production_candidate (plan : ValidatedPlan)
    (session_id plan_hash resource_precondition : string) (last_approval_sequence : Z) :
    method Session FstabCandidate.AdmissionError FstabCandidate.Admission :=
  self ← get_self;
  fail_if (self.(state) != Diagnose) FstabCandidate.InvalidSessionState;;
  fail_if (self.(mode) != LinuxRescue) FstabCandidate.WrongSessionMode;;
  lift (map_err FstabCandidate.PolicyRejected
          (validate_rescue_fstab_production_candidate_plan plan self.(fingerprint)));;
  binding ← lift (FstabCandidate.binding_new session_id plan.(plan_id) plan_hash
                    plan.(target_fingerprint) resource_precondition);
  admission ← lift (FstabCandidate.stage binding last_approval_sequence);
  modify_self (set_state Plan);;
  mret admission.

(** The two evidence indexings are in range after the policy check; an index
    out of range panics in the source and compares unequal here. *)
Definition stage_rescue_fstab_broker_candidate (plan : ValidatedPlan)
    (evidence : FstabCandidate.BrokerEvidence) (last_approval_sequence : Z) :
    method Session FstabCandidate.AdmissionError FstabCandidate.Admission :=
  self ← get_self;
  fail_if ((self.(state) != Observe) || bool_decide (is_Some self.(linux_snapshot)))
    FstabCandidate.InvalidSessionState;;
  fail_if (self.(mode) != LinuxRescue) FstabCandidate.WrongSessionMode;;
  lift (map_err FstabCandidate.PolicyRejected
          (validate_rescue_fstab_production_candidate_plan plan self.(fingerprint)));;
  step ← lift match plan.(steps) with
              | [step] => Ok step
              | _ => Err FstabCandidate.InvalidBrokerEvidence
              end;
  fail_if ((evidence.(FstabCandidate.be_plan_id) != plan.(plan_id))
           || (evidence.(FstabCandidate.be_target_fingerprint) != self.(fingerprint))
           || (evidence.(FstabCandidate.be_target_fingerprint) != plan.(target_fingerprint))
           || (evidence.(FstabCandidate.be_action_id) != step.(action))
           || (evidence.(FstabCandidate.be_resource_id) != RESCUE_FSTAB_RESOURCE_ID)
           || (evidence.(FstabCandidate.be_finding_id) != RESCUE_FSTAB_FINDING_ID)
           || (evidence.(FstabCandidate.be_finding_version) != RESCUE_FSTAB_FINDING_VERSION)
           || (Some evidence.(FstabCandidate.be_evidence).1.1 != step.(evidence_ids) !! 0)
           || (Some evidence.(FstabCandidate.be_evidence).2.1 != step.(evidence_ids) !! 1))
    FstabCandidate.InvalidBrokerEvidence;;
  binding ← lift (FstabCandidate.binding_new evidence.(FstabCandidate.be_session_id)
                    evidence.(FstabCandidate.be_plan_id) evidence.(FstabCandidate.be_plan_hash)
                    evidence.(FstabCandidate.be_target_fingerprint)
                    evidence.(FstabCandidate.be_target_snapshot));
  admission ← lift (FstabCandidate.stage binding last_approval_sequence);
  modify_self (set_state Plan);;
  mret admission.

Definition stage_rescue_repair_rollback (plan : ValidatedPlan) (binding : Rollback.Binding) :
    method Session Rollback.AdmissionError Rollback.Admission :=
  self ← get_self;
  fail_if ((self.(state) != Observe) || bool_decide (is_Some self.(linux_snapshot)))
    Rollback.InvalidSessionState;;
  fail_if (self.(mode) != LinuxRescue) Rollback.WrongSessionMode;;
  lift (map_err Rollback.PolicyRejected
          (Rollback.resource_validate_plan binding.(Rollback.resource) plan self.(fingerprint)));;
  fail_if ((binding.(Rollback.binding_plan_id) != plan.(plan_id))
           || (binding.(Rollback.binding_target_fingerprint) != plan.(target_fingerprint))
           || (binding.(Rollback.binding_target_fingerprint) != self.(fingerprint)))
    Rollback.BindingMismatch;;
  admission ← lift (Rollback.stage binding);
  modify_self (set_state Plan);;
  mret admission.

Definition stage_rescue_fstab_rollback (plan : ValidatedPlan) (binding : Rollback.Binding) :
    method Session Rollback.AdmissionError Rollback.Admission :=
  fail_if (binding.(Rollback.resource) != Rollback.Fstab) Rollback.BindingMismatch;;
  stage_rescue_repair_rollback plan binding.

(** ** Sequences of calls *)

Inductive call :=
| CallEvidenceComplete
| CallAdmitLinuxSnapshot (e : Evidence) (envelope : bytes)
| CallLinuxEvidenceComplete (l : list Evidence)
| CallStage (plan : ValidatedPlan)
| CallStageFixture (plan : ValidatedPlan)
| CallStageFstab (plan : ValidatedPlan) (session_id plan_hash precondition : string) (last : Z)
| CallStageBroker (plan : ValidatedPlan) (e : FstabCandidate.BrokerEvidence) (last : Z)
| CallStageFstabRollback (plan : ValidatedPlan) (b : Rollback.Binding)
| CallStageRollback (plan : ValidatedPlan) (b : Rollback.Binding).

(** The plan a staging call presents. *)
Definition call_plan (c : call) : option ValidatedPlan :=
  match c with
  | CallStage p | CallStageFixture p | CallStageFstab p _ _ _ _ | CallStageBroker p _ _
  | CallStageFstabRollback p _ | CallStageRollback p _ => Some p
  | _ => None
  end.

(** The session after a call and whether the call succeeded. *)
Definition report {E A} (m : method Session E A) (s : Session) : Session * bool :=
  (final m s, is_ok (outcome m s)).

Definition step (c : call) (s : Session) : Session * bool :=
  match c with
  | CallEvidenceComplete => report evidence_complete s
  | CallAdmitLinuxSnapshot e b => report (admit_linux_snapshot e b) s
  | CallLinuxEvidenceComplete l => report (linux_evidence_complete l) s
  | CallStage p => report (stage p) s
  | CallStageFixture p => report (stage_fixture_repair_lab p) s
  | CallStageFstab p i h r n =>
      report (stage_rescue_fstab_production_candidate p i h r n) s
  | CallStageBroker p e n => report (stage_rescue_fstab_broker_candidate p e n) s
  | CallStageFstabRollback p b => report (stage_rescue_fstab_rollback p b) s
  | CallStageRollback p b => report (stage_rescue_repair_rollback p b) s
  end.

(** Runs calls in order; returns the calls that succeeded. *)
Fixpoint run (cs : list call) (s : Session) : Session * list call :=
  match cs with
  | [] => (s, [])
  | c :: cs =>
      let '(s, ok) := step c s in
      let '(s, done) := run cs s in
      (s, if ok then c :: done else done)
  end.

End session.
