(* ===== verification/SessionProperties.v ===== *)
(** * Properties of the session state machine

    The permitted transitions as a relation, the refinement of the methods to
    it, and the invariants of every reachable session. *)

From Stdlib.Strings Require Import Byte.
From stdpp Require Import gmap sorting.
From S2P Require Import Prelude Bytes Crypto Protocol Policy Evidence Admission Session.

(** ** Counting *)

Lemma count_map {A B} (f : A → B) (p : B → bool) l : count (λ x, p (f x)) l = count p (map f l).
Proof.
  unfold count. induction l as [|x l IH]; [done|]. cbn [map].
  rewrite !filter_cons. repeat case_decide; try done. simpl. by rewrite IH.
Qed.

Lemma count_Permutation {A} (p : A → bool) l l' : l ≡ₚ l' → count p l = count p l'.
Proof. intros Hl. unfold count. by rewrite Hl. Qed.

Lemma count_mono {A} (p q : A → bool) l :
  (∀ x, p x = true → q x = true) → count p l ≤ count q l.
Proof.
  intros Hpq. unfold count. induction l as [|x l IH]; [done|]. rewrite !filter_cons.
  repeat case_decide; simpl; naive_solver lia.
Qed.

Lemma count_pos {A} (p : A → bool) l : 1 ≤ count p l ↔ ∃ x, x ∈ l ∧ p x = true.
Proof.
  unfold count. split.
  - destruct (filter _ l) as [|x k] eqn:Hf; simpl; [lia|]. intros _. exists x.
    assert (x ∈ filter (λ x, p x = true) l) as Hx by (rewrite Hf; left).
    by apply list_elem_of_filter in Hx as [? ?].
  - intros (x & Hx & Hp).
    assert (x ∈ filter (λ x, p x = true) l) as Hin by (by apply list_elem_of_filter).
    destruct (filter _ l); [by apply not_elem_of_nil in Hin|]. simpl. lia.
Qed.

Lemma size_list_to_set_NoDup (l : list string) :
  size (list_to_set l : gset string) = length l ↔ NoDup l.
Proof.
  split; [|apply size_list_to_set].
  assert (∀ k : list string, size (list_to_set k : gset string) ≤ length k) as Hle.
  { induction k as [|x k IH]; [done|]. cbn [list_to_set length].
    rewrite size_union_alt, size_singleton. etrans; [|apply le_n_S, IH].
    apply le_n_S, subseteq_size. set_solver. }
  induction l as [|x l IH]; [constructor|]. cbn [list_to_set length]. intros Hs.
  destruct (decide (x ∈ l)).
  - replace ({[x]} ∪ list_to_set l : gset string) with (list_to_set l : gset string) in Hs
      by set_solver. specialize (Hle l). lia.
  - rewrite size_union in Hs by set_solver. rewrite size_singleton in Hs.
    constructor; [done|]. apply IH. lia.
Qed.

(** ** Complete corpora *)

Lemma count_collector c l :
  count (λ item, item.(ev_collector) == c) l = count (λ d, d == c) (map ev_collector l).
Proof. exact (count_map ev_collector (λ d, d == c) l). Qed.

(** What a complete corpus is for each mode. *)
Definition complete_corpus (m : SessionMode) (b : LinuxSnapshotBinding) (l : list Evidence) : Prop :=
  (∃ item, item ∈ l ∧ bound_snapshot b item = true) ∧
  NoDup (map ev_id l) ∧
  Forall (λ item, item.(ev_target) = b.(lsb_target) ∧ is_untrusted item = true) l ∧
  match m with
  | LinuxResident => map ev_collector l ≡ₚ COLLECTOR :: LINUX_RESIDENT_REQUIRED_COLLECTORS
  | LinuxRescue => length l = 1
  | NonLinux => False
  end.

Definition corpus_guard (b : LinuxSnapshotBinding) (l : list Evidence) : bool :=
  (count (λ item, item.(ev_collector) == COLLECTOR) l != 1)
  || (count (bound_snapshot b) l != 1)
  || (size (list_to_set (map ev_id l) : gset string) != length l)
  || existsb (λ item, (item.(ev_target) != b.(lsb_target)) || negb (is_untrusted item)) l.

Definition resident_guard (l : list Evidence) : bool :=
  (length l != length LINUX_RESIDENT_REQUIRED_COLLECTORS + 1)
  || existsb (λ item, (item.(ev_collector) != COLLECTOR)
       && negb (bool_decide (item.(ev_collector) ∈ LINUX_RESIDENT_REQUIRED_COLLECTORS))) l
  || existsb (λ collector, count (λ item, item.(ev_collector) == collector) l != 1)
       LINUX_RESIDENT_REQUIRED_COLLECTORS.

Lemma corpus_guard_false b l :
  corpus_guard b l = false ↔
    count (λ item, item.(ev_collector) == COLLECTOR) l = 1 ∧
    (∃ item, item ∈ l ∧ bound_snapshot b item = true) ∧
    NoDup (map ev_id l) ∧
    Forall (λ item, item.(ev_target) = b.(lsb_target) ∧ is_untrusted item = true) l.
Proof.
  unfold corpus_guard. rewrite !orb_false_iff, existsb_false.
  assert (∀ P `{Decision P}, bool_decide (¬ P) = false ↔ P) as Hbd.
  { intros P HP. rewrite bool_decide_eq_false. split; [apply dec_stable|tauto]. }
  rewrite !Hbd, <-(length_map ev_id l), size_list_to_set_NoDup, <-count_pos.
  pose proof (count_mono (bound_snapshot b) (λ item, item.(ev_collector) == COLLECTOR) l) as Hle.
  assert (Forall (λ x, (ev_target x != lsb_target b) || negb (is_untrusted x) = false) l ↔
          Forall (λ item, ev_target item = lsb_target b ∧ is_untrusted item = true) l) as ->.
  { apply Forall_proper; [|done]. intros x.
    by rewrite orb_false_iff, Hbd, negb_false_iff. }
  assert (∀ x, bound_snapshot b x = true → (ev_collector x == COLLECTOR) = true) as Hb.
  { unfold bound_snapshot. intros x Hx. guards. by apply bool_decide_eq_true. }
  specialize (Hle Hb). split; [|naive_solver lia]. intros [[[Hc Hbc] ?] ?]. by rewrite Hbc.
Qed.

Lemma resident_guard_false l :
  count (λ item, item.(ev_collector) == COLLECTOR) l = 1 →
  resident_guard l = false ↔
    map ev_collector l ≡ₚ COLLECTOR :: LINUX_RESIDENT_REQUIRED_COLLECTORS.
Proof.
  intros Hc. unfold resident_guard. rewrite count_collector in Hc.
  rewrite !orb_false_iff, !existsb_false. split.
  - intros [[Hlen _] Heach]. guards. symmetry. apply submseteq_length_Permutation.
    + apply NoDup_submseteq; [by apply (bool_decide_unpack _)|].
      intros x [->|Hx]%elem_of_cons.
      * destruct (proj1 (count_pos (λ c, c == COLLECTOR) (map ev_collector l))) as (y & ? & ?);
          [lia|]. guards. by subst.
      * rewrite Forall_forall in Heach. specialize (Heach x Hx). guards.
        rewrite count_collector in Heach.
        destruct (proj1 (count_pos (λ c, c == x) (map ev_collector l))) as (y & ? & ?);
          [lia|]. guards. by subst.
    + rewrite length_map, Hlen. done.
  - intros Hp. split; [split|].
    + apply Permutation_length in Hp.
      rewrite length_map in Hp. rewrite Hp. by vm_compute.
    + apply Forall_forall. intros item Hitem.
      assert (ev_collector item ∈ COLLECTOR :: LINUX_RESIDENT_REQUIRED_COLLECTORS) as Hin.
      { rewrite <-Hp. apply list_elem_of_fmap. eauto. }
      apply elem_of_cons in Hin as [->|Hin]; [by autorewrite with kernaid|].
      apply andb_false_iff. right. by rewrite bool_decide_eq_true_2.
    + apply Forall_forall. intros c Hin.
      rewrite count_collector, (count_Permutation _ _ _ Hp).
      revert c Hin. apply Forall_forall. by apply (bool_decide_unpack _).
Qed.

(** ** Permitted transitions *)

(** The capture tag and the evidence target that belong to a mode and a
    capture. *)
Inductive capture_for : SessionMode → LinuxSnapshotCapture → string → string → Prop :=
| capture_for_resident c :
    is_resident c = true → capture_for LinuxResident c "resident" "local-machine"
| capture_for_rescue c :
    is_rescue c = true → capture_for LinuxRescue c "rescue" "selected-installed-target".

(** An evidence record that describes exactly the given envelope bytes. *)
Definition snapshot_evidence `{Sha256} (e : Evidence) (target : string) (envelope : bytes) : Prop :=
  e.(ev_id) ≠ ""%string ∧ e.(ev_collector) = COLLECTOR ∧ e.(ev_content_type) = CONTENT_TYPE ∧
  is_untrusted e = true ∧ e.(ev_target) = target ∧
  e.(ev_sha256) = hex_string (sha256 envelope) ∧
  e.(ev_blob_ref) = "sha256:" +:+ hex_string (sha256 envelope).

(** Where a rollback or a broker candidate may start: a fresh Rescue session. *)
Definition fresh_rescue (s : Session) : Prop :=
  s.(state) = Observe ∧ s.(linux_snapshot) = None ∧ s.(mode) = LinuxRescue.

(** Broker evidence that names exactly the fstab candidate of a plan. *)
Definition broker_evidence_for (e : FstabCandidate.BrokerEvidence) (id target : string) : Prop :=
  e.(FstabCandidate.be_plan_id) = id ∧
  e.(FstabCandidate.be_target_fingerprint) = target ∧
  e.(FstabCandidate.be_action_id) = RESCUE_FSTAB_ACTION_ID ∧
  e.(FstabCandidate.be_resource_id) = RESCUE_FSTAB_RESOURCE_ID ∧
  e.(FstabCandidate.be_finding_id) = RESCUE_FSTAB_FINDING_ID ∧
  e.(FstabCandidate.be_finding_version) = RESCUE_FSTAB_FINDING_VERSION ∧
  [e.(FstabCandidate.be_evidence).1.1; e.(FstabCandidate.be_evidence).2.1]
    = RESCUE_FSTAB_EVIDENCE_IDS.

(** The transitions of the session and nothing else. *)
Inductive transition `{Sha256} `{SnapshotSerde} : Session → call → Session → Prop :=
| tr_evidence s :
    s.(state) = Observe → s.(mode) = NonLinux →
    transition s CallEvidenceComplete (set_state Diagnose s)
| tr_admit s e b env tag target :
    s.(state) = Observe → s.(linux_snapshot) = None →
    envelope_parse b = Ok env → env.(snapshot).(topology).(supported) = true →
    capture_for s.(mode) env.(capture) tag target → snapshot_evidence e target b →
    transition s (CallAdmitLinuxSnapshot e b)
      (set_linux_snapshot (mkSnapshotBinding e.(ev_id) (hex_string (sha256 b))
         env.(snapshot_sha256) target s.(fingerprint) tag) s)
| tr_corpus s b l :
    s.(state) = Observe → s.(linux_snapshot) = Some b → complete_corpus s.(mode) b l →
    transition s (CallLinuxEvidenceComplete l) (set_state Diagnose s)
| tr_stage s p :
    s.(state) = Diagnose → Forall (λ st, validate_phase_zero st = Ok tt) p.(steps) →
    p.(target_fingerprint) = s.(fingerprint) →
    transition s (CallStage p) (set_state Plan s)
| tr_fixture s p :
    s.(state) = Diagnose → validate_fixture_repair_lab_plan p s.(fingerprint) = Ok tt →
    transition s (CallStageFixture p) (set_state Plan s)
| tr_fstab s id sid ph pre last b adm :
    s.(state) = Diagnose → s.(mode) = LinuxRescue → sha256_text s.(fingerprint) = true →
    FstabCandidate.binding_new sid id ph s.(fingerprint) pre = Ok b →
    FstabCandidate.stage b last = Ok adm →
    transition s
      (CallStageFstab (contract_plan FstabRepair id s.(fingerprint)) sid ph pre last)
      (set_state Plan s)
| tr_broker s id e last b adm :
    fresh_rescue s → sha256_text s.(fingerprint) = true →
    broker_evidence_for e id s.(fingerprint) →
    FstabCandidate.binding_new e.(FstabCandidate.be_session_id) id
      e.(FstabCandidate.be_plan_hash) s.(fingerprint)
      e.(FstabCandidate.be_target_snapshot) = Ok b →
    FstabCandidate.stage b last = Ok adm →
    transition s (CallStageBroker (contract_plan FstabRepair id s.(fingerprint)) e last)
      (set_state Plan s)
| tr_rollback s b adm :
    fresh_rescue s → sha256_text s.(fingerprint) = true →
    b.(Rollback.binding_target_fingerprint) = s.(fingerprint) →
    Rollback.stage b = Ok adm →
    transition s
      (CallStageRollback
         (contract_plan (match b.(Rollback.resource) with
                         | Rollback.Fstab => FstabRollback
                         | Rollback.Crypttab => CrypttabRollback
                         end) b.(Rollback.binding_plan_id) s.(fingerprint)) b)
      (set_state Plan s)
| tr_fstab_rollback s b adm :
    fresh_rescue s → sha256_text s.(fingerprint) = true →
    b.(Rollback.binding_target_fingerprint) = s.(fingerprint) →
    b.(Rollback.resource) = Rollback.Fstab → Rollback.stage b = Ok adm →
    transition s
      (CallStageFstabRollback
         (contract_plan FstabRollback b.(Rollback.binding_plan_id) s.(fingerprint)) b)
      (set_state Plan s).

(** ** Calls *)

Section methods.
Context `{sha : Sha256} `{serde : SnapshotSerde}.

Lemma step_failed c s : (step c s).2 = false → (step c s).1 = s.
Proof.
  assert (∀ E A (m : method Session E A), guarded m →
            (report m s).2 = false → (report m s).1 = s) as Hrep.
  { intros E A m Hm. unfold report, final, outcome. specialize (Hm s).
    destruct (m s) as [s' [|e]]; [done|]. intros _. by eapply Hm. }
  destruct c; apply Hrep; unfold evidence_complete, admit_linux_snapshot,
    linux_evidence_complete, stage, stage_fixture_repair_lab,
    stage_rescue_fstab_production_candidate, stage_rescue_fstab_broker_candidate,
    stage_rescue_fstab_rollback, stage_rescue_repair_rollback; solve_guarded.
Qed.

(** [step] succeeds when the underlying method does. *)
Lemma report_true {E A} (m : method Session E A) s s' :
  report m s = (s', true) ↔ ∃ a, m s = (s', Ok a).
Proof. unfold report, final, outcome. destruct (m s) as [? [|]]; naive_solver. Qed.

Lemma is_empty_false x : is_empty x = false ↔ x ≠ ""%string.
Proof. unfold is_empty. apply bool_decide_eq_false. Qed.

Lemma validate_steps_Ok ss :
  validate_steps ss = Ok tt ↔ Forall (λ st, validate_phase_zero st = Ok tt) ss.
Proof.
  induction ss as [|st ss IH]; cbn [validate_steps]; [split; [constructor|done]|].
  rewrite Forall_cons, <-IH.
  destruct (validate_phase_zero st) as [[]|]; cbn; naive_solver.
Qed.

Lemma admit_sound e b s s' a :
  admit_linux_snapshot e b s = (s', Ok a) → transition s (CallAdmitLinuxSnapshot e b) s'.
Proof.
  unfold admit_linux_snapshot. intros Hrun. inv_run Hrun. destruct v0 as [tag valid]. inv_run Hrun.
  apply map_err_Ok_1 in Hcall. guards.
  assert (linux_snapshot s = None) as Hnone by (by destruct (linux_snapshot s); [destruct Hguard0|]).
  assert (∃ target, capture_for (mode s) (capture v) tag target ∧ valid = (ev_target e == target))
    as (target & Hcap & ->).
  { destruct (mode s), (is_resident (capture v)) eqn:?, (is_rescue (capture v)) eqn:?;
      simplify_eq; eauto using capture_for_resident, capture_for_rescue. }
  guards. subst target. econstructor; eauto.
  split_and!; try done. by apply is_empty_false.
Qed.

Lemma admit_complete e b env tag target s :
  s.(state) = Observe → s.(linux_snapshot) = None →
  envelope_parse b = Ok env → env.(snapshot).(topology).(supported) = true →
  capture_for s.(mode) env.(capture) tag target → snapshot_evidence e target b →
  admit_linux_snapshot e b s =
    let binding := mkSnapshotBinding e.(ev_id) (hex_string (sha256 b))
         env.(snapshot_sha256) target s.(fingerprint) tag in
    (set_linux_snapshot binding s, Ok binding).
Proof.
  intros Hst Hsn Hparse Hsup Hcap (Hid & Hcol & Hct & Hun & Ht & Hsha & Hblob).
  unfold admit_linux_snapshot. run_methods. rewrite Hst, Hsn, Hparse.
  autorewrite with kernaid. cbn. rewrite Hsup.
  assert (is_empty (ev_id e) = false) as Hne by (by apply is_empty_false).
  destruct Hcap as [c Hc|c Hc]; rewrite Hc; [|destruct (is_resident c)];
    rewrite Hne, Hcol, Hct, Hun, Ht, Hsha, Hblob; autorewrite with kernaid; done.
Qed.

Lemma corpus_sound l s s' u :
  linux_evidence_complete l s = (s', Ok u) → transition s (CallLinuxEvidenceComplete l) s'.
Proof.
  unfold linux_evidence_complete. intros Hrun. inv_run Hrun. apply ok_or_Ok_1 in Hcall.
  change (corpus_guard v l = false) in Hguard0.
  apply corpus_guard_false in Hguard0 as (Hone & Hb & Hnd & Hall). guards.
  destruct (mode s) eqn:Hm; inv_run Hrun; [done|..].
  - econstructor; eauto. rewrite Hm. split_and!; try done.
    by apply resident_guard_false.
  - econstructor; eauto. rewrite Hm. guards. by split_and!.
Qed.

Lemma corpus_complete l b s :
  s.(state) = Observe → s.(linux_snapshot) = Some b → complete_corpus s.(mode) b l →
  linux_evidence_complete l s = (set_state Diagnose s, Ok tt).
Proof.
  intros Hst Hsn (Hb & Hnd & Hall & Hm).
  assert (count (λ item, ev_collector item == COLLECTOR) l = 1) as Hone.
  { rewrite count_collector. destruct (mode s); [done|..].
    - rewrite (count_Permutation _ _ _ Hm). by vm_compute.
    - destruct Hb as (item & Hin & Hitem). destruct l as [|x [|? ?]]; try done.
      apply list_elem_of_singleton in Hin as ->. unfold bound_snapshot in Hitem. guards.
      unfold count. cbn [map]. rewrite filter_cons, decide_True; [done|].
      by apply bool_decide_eq_true. }
  unfold linux_evidence_complete. run_methods. rewrite Hst, Hsn. cbn [ok_or].
  assert (corpus_guard b l = false) as Hg by (by apply corpus_guard_false).
  unfold corpus_guard in Hg. autorewrite with kernaid. cbv beta iota. rewrite Hg.
  destruct (mode s) eqn:Hmode; [done|..].
  - apply resident_guard_false in Hm; [|done]. unfold resident_guard in Hm. by rewrite Hm.
  - rewrite Hm. by autorewrite with kernaid.
Qed.

Lemma not_is_Some_None {A} (o : option A) : ¬ is_Some o → o = None.
Proof. destruct o; [|done]. intros []. eauto. Qed.

(** The policy check of a candidate entry point pins the plan. *)
Lemma contract_pinned k p target u :
  validate_contract k p target = Ok u → sha256_text target = true ∧ p = contract_plan k p.(plan_id) target.
Proof. destruct u. apply validate_contract_closed. Qed.

Lemma contract_accepted k id target :
  sha256_text target = true → validate_contract k (contract_plan k id target) target = Ok tt.
Proof. intros. by apply validate_contract_closed. Qed.

Lemma resource_contract r :
  Rollback.resource_validate_plan r =
    validate_contract (match r with
                       | Rollback.Fstab => FstabRollback
                       | Rollback.Crypttab => CrypttabRollback
                       end).
Proof. by destruct r. Qed.

Lemma fstab_sound p sid ph pre last s s' a :
  stage_rescue_fstab_production_candidate p sid ph pre last s = (s', Ok a) →
  transition s (CallStageFstab p sid ph pre last) s'.
Proof.
  unfold stage_rescue_fstab_production_candidate. intros Hrun. inv_run Hrun.
  apply map_err_Ok_1, (contract_pinned FstabRepair) in Hcall as [Hfp Hp]. guards.
  rewrite Hp in Hcall0 |- *. eapply tr_fstab; eauto.
Qed.

Lemma broker_sound p e last s s' a :
  stage_rescue_fstab_broker_candidate p e last s = (s', Ok a) →
  transition s (CallStageBroker p e last) s'.
Proof.
  unfold stage_rescue_fstab_broker_candidate. intros Hrun. inv_run Hrun.
  apply map_err_Ok_1, (contract_pinned FstabRepair) in Hcall as [Hfp Hp].
  rewrite Hp in Hcall0, Hguard1. cbn in Hcall0. apply Ok_inj_1 in Hcall0 as <-.
  guards. cbn in *. apply not_is_Some_None in Hguard. simplify_eq.
  rewrite Hp. eapply tr_broker; eauto; unfold fresh_rescue, broker_evidence_for; [by split_and!|..].
  - split_and!; try done. by rewrite Hguard1, H.
  - congruence.
Qed.

Lemma rollback_sound p b s s' a :
  stage_rescue_repair_rollback p b s = (s', Ok a) →
  s' = set_state Plan s ∧ fresh_rescue s ∧ sha256_text s.(fingerprint) = true ∧
  b.(Rollback.binding_target_fingerprint) = s.(fingerprint) ∧ Rollback.stage b = Ok a ∧
  p = contract_plan (match b.(Rollback.resource) with
                     | Rollback.Fstab => FstabRollback
                     | Rollback.Crypttab => CrypttabRollback
                     end) b.(Rollback.binding_plan_id) s.(fingerprint).
Proof.
  unfold stage_rescue_repair_rollback. intros Hrun. inv_run Hrun.
  rewrite resource_contract in Hcall.
  apply map_err_Ok_1, contract_pinned in Hcall as [Hfp Hp]. guards.
  apply not_is_Some_None in Hguard. split_and!; try done. by rewrite Hp at 1; f_equal.
Qed.

Lemma rollback_complete b adm s :
  fresh_rescue s → sha256_text s.(fingerprint) = true →
  b.(Rollback.binding_target_fingerprint) = s.(fingerprint) → Rollback.stage b = Ok adm →
  stage_rescue_repair_rollback
    (contract_plan (match b.(Rollback.resource) with
                    | Rollback.Fstab => FstabRollback
                    | Rollback.Crypttab => CrypttabRollback
                    end) b.(Rollback.binding_plan_id) s.(fingerprint)) b s
  = (set_state Plan s, Ok adm).
Proof.
  intros (Hst & Hsn & Hm) Hfp Hb Hadm. unfold stage_rescue_repair_rollback.
  rewrite resource_contract. run_methods. rewrite contract_accepted by done.
  rewrite Hst, Hsn, Hm, Hb, Hadm. cbn [map_err contract_plan plan_id target_fingerprint].
  by autorewrite with kernaid.
Qed.

Lemma step_sound c s s' : step c s = (s', true) → transition s c s'.
Proof.
  destruct c; cbn [step]; intros [a Hrun]%report_true.
  - unfold evidence_complete in Hrun. inv_run Hrun. guards. by constructor.
  - by eapply admit_sound.
  - by eapply corpus_sound.
  - unfold stage in Hrun. inv_run Hrun. guards. apply tr_stage; try done.
    by apply validate_steps_Ok.
  - unfold stage_fixture_repair_lab in Hrun. inv_run Hrun. guards. by apply tr_fixture.
  - by eapply fstab_sound.
  - by eapply broker_sound.
  - unfold stage_rescue_fstab_rollback in Hrun. inv_run Hrun. guards.
    apply rollback_sound in Hrun as (-> & ? & ? & ? & ? & ->). rewrite Hguard.
    by eapply tr_fstab_rollback.
  - apply rollback_sound in Hrun as (-> & ? & ? & ? & ? & ->). by eapply tr_rollback.
Qed.

Lemma step_complete c s s' : transition s c s' → step c s = (s', true).
Proof.
  intros Htr. destruct Htr; cbn [step]; apply report_true.
  - exists tt. unfold evidence_complete. run_methods. rewrite H, H0. by autorewrite with kernaid.
  - eexists. by apply admit_complete.
  - exists tt. by eapply corpus_complete.
  - exists tt. unfold stage. run_methods. apply validate_steps_Ok in H0. rewrite H, H0, H1.
    by autorewrite with kernaid.
  - exists tt. unfold stage_fixture_repair_lab. run_methods. rewrite H, H0.
    by autorewrite with kernaid.
  - exists adm. unfold stage_rescue_fstab_production_candidate. run_methods.
    change validate_rescue_fstab_production_candidate_plan with (validate_contract FstabRepair).
    rewrite contract_accepted by done. rewrite H, H0.
    cbn [map_err contract_plan plan_id target_fingerprint]. rewrite H2, H3.
    by autorewrite with kernaid.
  - exists adm. destruct H as (Hst & Hsn & Hm), H1 as (Hi & Ht & Ha & Hr & Hf & Hv & He).
    unfold stage_rescue_fstab_broker_candidate. run_methods.
    change validate_rescue_fstab_production_candidate_plan with (validate_contract FstabRepair).
    rewrite contract_accepted by done. rewrite Hst, Hsn, Hm. unfold RESCUE_FSTAB_EVIDENCE_IDS in He.
    injection He as He1 He2. rewrite Hi, Ht, Ha, Hr, Hf, Hv, He1, He2. autorewrite with kernaid.
    cbn. autorewrite with kernaid. rewrite H2. cbn. by rewrite H3.
  - exists adm. by apply rollback_complete.
  - exists adm. unfold stage_rescue_fstab_rollback.
    pose proof (rollback_complete b adm s) as Hroll. rewrite H2 in Hroll |- *.
    cbn. by apply Hroll.
Qed.

End methods.

(** ** Histories *)

(** The successful calls of a session, in order, and where they lead. *)
Inductive history `{Sha256} `{SnapshotSerde} (fp : string) (m : SessionMode) :
    list call → Session → Prop :=
| history_new : history fp m [] (session_new fp m)
| history_call d s c s' :
    history fp m d s → transition s c s' → history fp m (d ++ [c]) s'.

(** The plans staged by a list of successful calls. *)
Definition staged_plans (d : list call) : list ValidatedPlan := omap call_plan d.

(** The binding of the session is the one of an admitted envelope. *)
Definition binding_admitted `{Sha256} (fp : string) (m : SessionMode) (d : list call)
    (b : LinuxSnapshotBinding) : Prop :=
  ∃ e bytes, CallAdmitLinuxSnapshot e bytes ∈ d ∧
    b.(lsb_evidence_sha256) = hex_string (sha256 bytes) ∧
    b.(lsb_evidence_id) = e.(ev_id) ∧ b.(lsb_target_fingerprint) = fp ∧
    ((m = LinuxResident ∧ b.(lsb_capture_mode) = "resident"%string ∧
        b.(lsb_target) = "local-machine"%string) ∨
     (m = LinuxRescue ∧ b.(lsb_capture_mode) = "rescue"%string ∧
        b.(lsb_target) = "selected-installed-target"%string)).

Definition session_invariant `{Sha256} (fp : string) (m : SessionMode) (d : list call)
    (s : Session) : Prop :=
  s.(fingerprint) = fp ∧ s.(mode) = m ∧
  (∀ b, s.(linux_snapshot) = Some b → binding_admitted fp m d b) ∧
  match s.(state) with
  | Observe => staged_plans d = []
  | Diagnose => staged_plans d = [] ∧ (m ≠ NonLinux → is_Some s.(linux_snapshot))
  | Plan => ∃ p, staged_plans d = [p] ∧ p.(target_fingerprint) = fp
  | _ => False
  end.

Section histories.
Context `{sha : Sha256} `{serde : SnapshotSerde}.

Lemma run_history fp m cs s d s' d' :
  history fp m d s → run cs s = (s', d') → history fp m (d ++ d') s'.
Proof.
  revert s d d'. induction cs as [|c cs IH]; intros s d d' Hh Hrun; cbn in Hrun.
  - injection Hrun as <- <-. by rewrite app_nil_r.
  - destruct (step c s) as [s1 ok] eqn:Hstep, (run cs s1) as [s2 d2] eqn:Hrest.
    injection Hrun as <- <-. destruct ok.
    + rewrite (assoc_L (++) d [c] d2 : d ++ c :: d2 = _). eapply IH; [|done].
      econstructor; [done|]. by apply step_sound.
    + pose proof (step_failed c s) as Hs. rewrite Hstep in Hs. simpl in Hs.
      rewrite Hs in Hrest by done. by eapply IH.
Qed.

Lemma staged_plans_snoc d c :
  staged_plans (d ++ [c]) = staged_plans d ++ option_list (call_plan c).
Proof. unfold staged_plans. rewrite omap_app. simpl. by destruct (call_plan c). Qed.

Lemma binding_admitted_mono fp m d c b :
  binding_admitted fp m d b → binding_admitted fp m (d ++ [c]) b.
Proof.
  intros (e & bs & Hin & Hrest). exists e, bs. split; [|done].
  by apply elem_of_app; left.
Qed.

Lemma validated_target p target :
  validate_fixture_repair_lab_plan p target = Ok tt → p.(target_fingerprint) = target.
Proof. intros (_ & ids & _ & ->)%validate_fixture_repair_lab_plan_closed. done. Qed.

Lemma history_invariant fp m d s : history fp m d s → session_invariant fp m d s.
Proof.
  induction 1 as [|d s c s' Hh (Hfp & Hm & Hb & Hst) Htr];
    [unfold session_invariant; cbn; by split_and!|].
  unfold session_invariant. rewrite staged_plans_snoc.
  assert (∀ b, linux_snapshot s = Some b → binding_admitted fp m (d ++ [c]) b) as Hb'
    by eauto using binding_admitted_mono.
  destruct Htr; try match goal with H : fresh_rescue _ |- _ => destruct H as (? & ? & ?) end;
    destruct s as [st f mo sn]; cbn in *; subst; cbn in *;
    split_and!; try done; rewrite ?app_nil_r; try (by destruct Hst).
  - intros b' [= <-]. exists e, b. split; [set_solver|].
    destruct H4 as (_ & _ & _ & _ & _ & _). destruct H3; cbn; split_and!; auto.
  - by destruct Hst as [-> _]; eauto.
  - destruct Hst as [-> _]. exists p. split; [done|]. by apply validated_target.
  - destruct Hst as [-> _]. eauto.
  - rewrite Hst. eauto.
  - rewrite Hst. eauto.
  - rewrite Hst. eauto.
Qed.

End histories.

(** ** Properties *)

(** C28. The session methods implement exactly the transition relation: a call
    succeeds if and only if the relation permits it, and then leads to the state
    the relation gives; a call that the relation does not permit fails and
    leaves the whole session as it was. *)
Theorem session_refines_transitions `{sha : Sha256} `{serde : SnapshotSerde} c s :
  (∃ s', step c s = (s', true) ∧ transition s c s') ∨
  (step c s = (s, false) ∧ ∀ s', ¬ transition s c s').
Proof.
  destruct (step c s) as [s' []] eqn:Hstep.
  - left. eauto using step_sound.
  - right. pose proof (step_failed c s) as Hs. rewrite Hstep in Hs. simpl in Hs.
    rewrite Hs by done. split; [done|]. intros s2 Htr%step_complete. congruence.
Qed.

(** Over its whole life, whatever calls are made in whatever order, a
    session keeps its fingerprint and mode and never leaves Observe, Diagnose
    and Plan: no repair, verification or completion state is reachable. It
    stages at most one plan, it is in Plan exactly when it has staged one, and
    that plan targets the session fingerprint. A Linux session in Diagnose has
    an admitted snapshot, and the binding it holds is always the digest of an
    envelope admitted for its own mode, target and fingerprint. *)
Theorem session_lifetime `{sha : Sha256} `{serde : SnapshotSerde} fp m cs s d :
  run cs (session_new fp m) = (s, d) →
  s.(fingerprint) = fp ∧ s.(mode) = m ∧
  (s.(state) = Observe ∨ s.(state) = Diagnose ∨ s.(state) = Plan) ∧
  length (staged_plans d) ≤ 1 ∧
  (s.(state) = Plan ↔ ∃ p, staged_plans d = [p] ∧ p.(target_fingerprint) = fp) ∧
  (s.(state) = Diagnose → m ≠ NonLinux → is_Some s.(linux_snapshot)) ∧
  (∀ b, s.(linux_snapshot) = Some b → binding_admitted fp m d b).
Proof.
  intros Hrun. apply (run_history fp m cs _ []) in Hrun; [|constructor].
  apply history_invariant in Hrun as (Hfp & Hm & Hb & Hst). cbn [app] in *.
  destruct (state s) eqn:Hs; [|destruct Hst as [Hst ?]|destruct Hst as (p & Hst & ?)|done..];
    rewrite Hst; split_and!; eauto; naive_solver lia.
Qed.

Lemma session_lifetime_witness :
  let s := (run (sha := Demo.demo_sha256) (serde := DemoSerde.demo_serde)
              [CallEvidenceComplete; CallStage (mkValidatedPlan "P-1" "fp" []);
               CallStage (mkValidatedPlan "P-2" "fp" [])] (session_new "fp" NonLinux)).1 in
  s.(state) = Plan ∧ (s.(state) = Observe ∨ s.(state) = Diagnose ∨ s.(state) = Plan).
Proof.
  split; [vm_compute; reflexivity|].
  eapply (session_lifetime (sha := Demo.demo_sha256) (serde := DemoSerde.demo_serde) "fp" NonLinux).
  apply surjective_pairing.
Defined.

(** Every plan a session stages came through the entry point for its kind:
    the general entry point stages only plans whose every step passes the
    phase-zero validator, the lab entry point only the fixture plan, and the
    candidate entry points only the closed contract of their resource, in a
    Rescue session. A plan with a step that phase zero refuses is therefore
    never staged in a resident or non-Linux session outside the fixture lab. *)
Theorem staged_plan_origin `{sha : Sha256} `{serde : SnapshotSerde} fp m cs s d c p :
  run cs (session_new fp m) = (s, d) → c ∈ d → call_plan c = Some p →
  (c = CallStage p ∧ Forall (λ st, validate_phase_zero st = Ok tt) p.(steps)) ∨
  (c = CallStageFixture p ∧ validate_fixture_repair_lab_plan p fp = Ok tt) ∨
  (m = LinuxRescue ∧ ∃ k, k ≠ CrypttabRepair ∧ validate_contract k p fp = Ok tt).
Proof.
  intros Hrun Hin Hp. apply (run_history fp m cs _ []) in Hrun; [|constructor].
  cbn [app] in Hrun. induction Hrun as [|d s c' s' Hh IH Htr]; [by apply not_elem_of_nil in Hin|].
  apply history_invariant in Hh as (Hfp & Hm & _). subst fp m.
  apply elem_of_app in Hin as [Hin|<-%list_elem_of_singleton]; [by apply IH|].
  destruct Htr; simplify_eq/=; auto; right; right;
    try match goal with H : fresh_rescue _ |- _ => destruct H as (? & ? & ?) end;
    (split; [done|]); eexists; (split; [|by apply contract_accepted]);
    try done; by destruct (Rollback.resource b).
Qed.

Definition broker_plan : ValidatedPlan := contract_plan FstabRepair "P-1" sample_target.
Definition broker_evidence : FstabCandidate.BrokerEvidence :=
  FstabCandidate.mkBrokerEvidence "S-1" "P-1" sample_target sample_target sample_target
    RESCUE_FSTAB_ACTION_ID RESCUE_FSTAB_FINDING_ID RESCUE_FSTAB_FINDING_VERSION
    RESCUE_FSTAB_RESOURCE_ID
    (("E-LINUX-FSTAB", sample_target), ("E-LINUX-LSBLK", sample_target))%string.

Lemma staged_plan_origin_witness :
  LinuxRescue = LinuxRescue ∧ ∃ k, k ≠ CrypttabRepair ∧
    validate_contract k broker_plan sample_target = Ok tt.
Proof.
  destruct (staged_plan_origin (sha := Demo.demo_sha256) (serde := DemoSerde.demo_serde)
    sample_target LinuxRescue [CallStageBroker broker_plan broker_evidence 7]
    (mkSession Plan sample_target LinuxRescue None)
    [CallStageBroker broker_plan broker_evidence 7]
    (CallStageBroker broker_plan broker_evidence 7) broker_plan) as [[[=] _]|[[[=] _]|Hc]];
    [vm_compute; reflexivity|left|reflexivity|exact Hc].
Defined.

(** A resident corpus is complete exactly when it holds the normalized
    snapshot and each of the eleven required collectors once and nothing else:
    the three counting loops accept precisely the permutations of that list,
    with distinct evidence identifiers, one common target, only untrusted
    observations, and the bound snapshot among them. Otherwise the call fails
    and the session does not move. *)
Theorem resident_corpus_exact l s b :
  s.(state) = Observe → s.(mode) = LinuxResident → s.(linux_snapshot) = Some b →
  (linux_evidence_complete l s = (set_state Diagnose s, Ok tt) ↔
     map ev_collector l ≡ₚ COLLECTOR :: LINUX_RESIDENT_REQUIRED_COLLECTORS ∧
     NoDup (map ev_id l) ∧
     Forall (λ item, item.(ev_target) = b.(lsb_target) ∧ is_untrusted item = true) l ∧
     ∃ item, item ∈ l ∧ bound_snapshot b item = true) ∧
  (linux_evidence_complete l s = (set_state Diagnose s, Ok tt) ∨
   linux_evidence_complete l s = (s, Err IncompleteLinuxCorpus)).
Proof.
  intros Hst Hm Hsn. split.
  - split.
    + intros Hrun. apply (corpus_sound (sha := Demo.demo_sha256) (serde := DemoSerde.demo_serde)) in Hrun.
      inversion Hrun as [| |? b' ? ? Hsn' Hc| | | | | |]; subst. rewrite Hsn in Hsn'.
      injection Hsn' as <-. unfold complete_corpus in Hc. rewrite Hm in Hc. naive_solver.
    + intros (Hp & Hnd & Hall & Hb). eapply corpus_complete; eauto.
      rewrite Hm. by split_and!.
  - unfold linux_evidence_complete. run_methods. rewrite Hst, Hsn, Hm. cbn [ok_or].
    autorewrite with kernaid. cbv beta iota.
    repeat match goal with |- context [if ?c then _ else _] => destruct c end; auto.
Qed.

Definition corpus_item (id collector sha256 : string) : Evidence :=
  mkEvidence id collector "local-machine" "" "" sha256 "" "observed-untrusted" "" "".
Definition sample_corpus : list Evidence :=
  corpus_item "E-0" COLLECTOR "aa"
  :: imap (λ i c, corpus_item (String (Ascii.ascii_of_nat (65 + i)) "") c "bb")
       LINUX_RESIDENT_REQUIRED_COLLECTORS.
Definition observing : Session :=
  mkSession Observe "fp" LinuxResident
    (Some (mkSnapshotBinding "E-0" "aa" "cc" "local-machine" "fp" "resident")).

Lemma resident_corpus_exact_witness :
  map ev_collector (rev sample_corpus) ≡ₚ COLLECTOR :: LINUX_RESIDENT_REQUIRED_COLLECTORS.
Proof.
  destruct (resident_corpus_exact (rev sample_corpus) observing
    (mkSnapshotBinding "E-0" "aa" "cc" "local-machine" "fp" "resident")) as [Hiff _];
    [reflexivity..|].
  apply Hiff. vm_compute. reflexivity.
Defined.
