(* ===== verification/JournalChain.v ===== *)
(** * The encrypted hash chain of the journal (crates/storage/src/lib.rs)

    Anchors, the hash and associated data of an entry, and the routines that
    read the chain: [scan_chain], [replay_verified_chain], [validate_anchor] and
    [validate_expected_head]. They work on what a SQLite cursor yields; the
    statements that produce it are in JournalBackend.v. *)

From Stdlib.Strings Require Import Byte.
From S2P Require Import Prelude Bytes Crypto.

(** ** Constants *)

Definition LEGACY_SCHEMA_VERSION : Z := 2.
Definition SCHEMA_VERSION : Z := 3.
Definition JOURNAL_ID_BYTES : nat := 16.
Definition NONCE_BYTES : nat := 24.
Definition HASH_BYTES : nat := 32.
Definition JOURNAL_KEY_BYTES : nat := 32.
Definition ZERO_HASH : bytes := replicate HASH_BYTES x00.
Definition AAD_DOMAIN : bytes := domain "KERNAID-SECURE-JOURNAL-AAD-V2".
Definition HASH_DOMAIN : bytes := domain "KERNAID-SECURE-JOURNAL-ENTRY-V2".
Definition INITIALIZATION_AAD_DOMAIN : bytes := domain "KERNAID-SECURE-JOURNAL-INIT-AAD-V3".
Definition INITIALIZATION_PLAINTEXT : bytes := domain "KERNAID-SECURE-JOURNAL-KEY-CHECK-V3".
Definition INITIALIZATION_PENDING : Z := 0.
Definition INITIALIZATION_READY : Z := 1.
Definition ANCHOR_MAGIC : bytes := domain "KNAUDV2".
Definition MAX_EVENT_BYTES : Z := 1024 * 1024.
Definition MAX_JOURNAL_ENTRIES : Z := 1000000.
Definition MAX_JOURNAL_CIPHERTEXT_BYTES : Z := 8 * 1024 * 1024 * 1024.
Definition MAX_RETURNED_PLAINTEXT_BYTES : Z := 16 * 1024 * 1024.
Definition MAX_RETURNED_ENTRIES : Z := 10000.
Definition MAX_REPLAY_PLAINTEXT_BYTES : Z := MAX_JOURNAL_CIPHERTEXT_BYTES.

(** ** Anchors *)

(** [JournalAnchor]; [sequence] is a [u64]. *)
Record JournalAnchor := mkAnchor {
  anchor_journal_id : bytes;
  anchor_sequence : Z;
  anchor_entry_hash : bytes;
}.

#[export] Instance JournalAnchor_eq_dec : EqDecision JournalAnchor.
Proof. solve_decision. Defined.

(** What the Rust type guarantees: fixed-size arrays and a [u64]. *)
Definition wf_anchor (a : JournalAnchor) : Prop :=
  length a.(anchor_journal_id) = JOURNAL_ID_BYTES ∧ is_u64 a.(anchor_sequence) ∧
  length a.(anchor_entry_hash) = HASH_BYTES.

Definition ENCODED_BYTES : nat := 8 + JOURNAL_ID_BYTES + 8 + HASH_BYTES.

Definition to_bytes (a : JournalAnchor) : bytes :=
  ANCHOR_MAGIC ++ a.(anchor_journal_id) ++ to_be_bytes a.(anchor_sequence)
  ++ a.(anchor_entry_hash).

(** [AnchorDecodeError]. *)
Inductive AnchorDecodeError_t := AnchorDecodeError.

(** [slice[from..to]]. *)
Definition slice (from to : nat) (l : bytes) : bytes := take (to - from) (drop from l).

Definition from_bytes (encoded : bytes) : result AnchorDecodeError_t JournalAnchor :=
  reject ((length encoded != ENCODED_BYTES) || (slice 0 8 encoded != ANCHOR_MAGIC))
    with AnchorDecodeError;
  Ok (mkAnchor (slice 8 24 encoded) (from_be_bytes (slice 24 32 encoded)) (drop 32 encoded)).

Definition initial_anchor (journal_id : bytes) : JournalAnchor := mkAnchor journal_id 0 ZERO_HASH.

(** [JournalError]; the two string arguments are the sanitized messages of the
    database and of the secret store. *)
Inductive JournalError :=
| Database (message : string)
| SecretStore (message : string)
| InvalidPath
| SymlinkRejected
| UnsupportedFormat
| MissingKey
| MissingAnchor
| SecretStateConflict
| AuthenticationFailed
| CorruptChain
| RollbackDetected
| EventTooLarge
| JournalTooLarge
| SequenceOverflow
| EncryptionFailed
| ReadLimitExceeded
| UnexpectedHead (expected actual : JournalAnchor)
| Poisoned.

(** [JournalReplayError]. *)
Inductive JournalReplayError (CallbackError : Type) :=
| ReplayJournal (e : JournalError)
| ReplayCallback (e : CallbackError).
Arguments ReplayJournal {CallbackError} e.
Arguments ReplayCallback {CallbackError} e.

(** ** Entries *)

(** [JournalEntry] and [JournalEntryRef]. *)
Record JournalEntry := mkEntry {
  sequence : Z;
  event : bytes;
  previous_hash : bytes;
  entry_hash : bytes;
}.

#[export] Instance JournalEntry_eq_dec : EqDecision JournalEntry.
Proof. solve_decision. Defined.

(** [JournalReplayLimits]. *)
Record JournalReplayLimits := mkLimits {
  max_sequence : Z;
  max_plaintext_bytes : Z;
}.

Definition limits_new (max_sequence max_plaintext_bytes : Z) :
    result JournalError JournalReplayLimits :=
  reject ((MAX_JOURNAL_ENTRIES <? max_sequence)%Z
          || (MAX_REPLAY_PLAINTEXT_BYTES <? max_plaintext_bytes)%Z) with ReadLimitExceeded;
  Ok (mkLimits max_sequence max_plaintext_bytes).

(** A row of [secure_journal_entries]. *)
Record Row := mkRow {
  row_sequence : Z;
  row_nonce : bytes;
  row_ciphertext : bytes;
  row_previous_hash : bytes;
  row_entry_hash : bytes;
}.

#[export] Instance Row_eq_dec : EqDecision Row.
Proof. solve_decision. Defined.

(** The nine columns of the scan statements. Each [row.get] can fail on its own,
    since SQLite types values and not columns. *)
Record RawRow := mkRaw {
  col_sequence : result string Z;
  col_nonce_len : result string Z;
  col_nonce : result string bytes;
  col_ciphertext_len : result string Z;
  col_ciphertext : result string bytes;
  col_previous_hash_len : result string Z;
  col_previous_hash : result string bytes;
  col_entry_hash_len : result string Z;
  col_entry_hash : result string bytes;
}.

(** What the statements select from a row with blobs in its blob columns. *)
Definition raw_of (r : Row) : RawRow :=
  mkRaw (Ok r.(row_sequence)) (Ok (blen r.(row_nonce))) (Ok r.(row_nonce))
    (Ok (blen r.(row_ciphertext))) (Ok r.(row_ciphertext))
    (Ok (blen r.(row_previous_hash))) (Ok r.(row_previous_hash))
    (Ok (blen r.(row_entry_hash))) (Ok r.(row_entry_hash)).

(** [rows.next()?] or [row.get(i)?]. *)
Definition get {A} (r : result string A) : result JournalError A := map_err Database r.

(** [<[u8; N]>::try_from(Vec<u8>)]. *)
Definition try_into (n : nat) (l : bytes) (e : JournalError) : result JournalError bytes :=
  reject (length l != n) with e; Ok l.

Section chain.
Context `{sha : Sha256} `{aead : Aead}.

(** [cipher_from_key]; the cipher is its key. *)
Definition cipher_from_key (key : bytes) : result JournalError bytes :=
  reject (length key != JOURNAL_KEY_BYTES) with AuthenticationFailed; Ok key.

Definition associated_data (journal_id : bytes) (sequence : Z) (previous_hash : bytes) : bytes :=
  AAD_DOMAIN ++ journal_id ++ to_be_bytes sequence ++ previous_hash.

(** What [hash_entry] feeds to the hasher. *)
Definition entry_preimage (journal_id : bytes) (sequence : Z)
    (previous_hash nonce ciphertext : bytes) : bytes :=
  HASH_DOMAIN ++ journal_id ++ to_be_bytes sequence ++ previous_hash ++ nonce
  ++ to_be_bytes (blen ciphertext) ++ ciphertext.

Definition hash_entry (journal_id : bytes) (sequence : Z)
    (previous_hash nonce ciphertext : bytes) : bytes :=
  sha256 (entry_preimage journal_id sequence previous_hash nonce ciphertext).

(** ** Scanning *)

(** [ChainHead], [ChainScan] and [ScanMode]. *)
Record ChainHead := mkHead { head_sequence : Z; head_entry_hash : bytes }.

Record ChainScan := mkScan {
  scan_head : ChainHead;
  scan_anchor_prefix_hash : option bytes;
  scan_ciphertext_bytes : Z;
  scan_plaintext_bytes : Z;
  scan_entries : list JournalEntry;
}.

Inductive ScanMode := ScanNone | ScanFirst | ScanAllBounded.

#[export] Instance ScanMode_eq_dec : EqDecision ScanMode.
Proof. solve_decision. Defined.

(** The local variables of the scanning loop. *)
Record ScanState := mkScanState {
  expected_sequence : Z;
  expected_previous : bytes;
  anchor_prefix_hash : option bytes;
  ciphertext_bytes : Z;
  plaintext_bytes : Z;
  entries_so_far : list JournalEntry;
}.

(** The checks on the four length columns and the sequence, which the two loops
    share. *)
Definition bad_shape (sequence expected nonce_len ciphertext_len previous_hash_len
    entry_hash_len max_ciphertext : Z) : bool :=
  (sequence != expected)
  || (nonce_len != Z.of_nat NONCE_BYTES)
  || (ciphertext_len <? AEAD_TAG_BYTES)%Z
  || (max_ciphertext <? ciphertext_len)%Z
  || (previous_hash_len != Z.of_nat HASH_BYTES)
  || (entry_hash_len != Z.of_nat HASH_BYTES).

(** One iteration of the loop of [scan_chain]. *)
Definition scan_row (cipher journal_id : bytes) (anchor_sequence : Z) (mode : ScanMode)
    (replay_limits : option JournalReplayLimits) (st : ScanState) (row : RawRow) :
    result JournalError ScanState :=
  reject (MAX_JOURNAL_ENTRIES <? st.(expected_sequence))%Z with JournalTooLarge;
  reject (match replay_limits with
          | Some limits => (limits.(max_sequence) <? st.(expected_sequence))%Z
          | None => false
          end) with ReadLimitExceeded;
  sequence_raw ← get row.(col_sequence);
  sequence ← ok_or (u64_try_from_i64 sequence_raw) CorruptChain;
  nonce_len ← get row.(col_nonce_len);
  ciphertext_len ← get row.(col_ciphertext_len);
  previous_hash_len ← get row.(col_previous_hash_len);
  entry_hash_len ← get row.(col_entry_hash_len);
  max_ciphertext ← ok_or (checked_add_u64 MAX_EVENT_BYTES AEAD_TAG_BYTES) JournalTooLarge;
  reject (bad_shape sequence st.(expected_sequence) nonce_len ciphertext_len
            previous_hash_len entry_hash_len max_ciphertext) with CorruptChain;
  record_ciphertext_bytes ← ok_or (u64_try_from_i64 ciphertext_len) CorruptChain;
  record_plaintext_bytes ←
    ok_or (checked_sub_u64 record_ciphertext_bytes AEAD_TAG_BYTES) CorruptChain;
  next_ciphertext_bytes ←
    ok_or (checked_add_u64 st.(ciphertext_bytes) record_ciphertext_bytes) JournalTooLarge;
  next_plaintext_bytes ←
    ok_or (checked_add_u64 st.(plaintext_bytes) record_plaintext_bytes) JournalTooLarge;
  reject (MAX_JOURNAL_CIPHERTEXT_BYTES <? next_ciphertext_bytes)%Z with JournalTooLarge;
  reject (match replay_limits with
          | Some limits => (limits.(max_plaintext_bytes) <? next_plaintext_bytes)%Z
          | None => false
          end) with ReadLimitExceeded;
  nonce_vec ← get row.(col_nonce);
  nonce ← try_into NONCE_BYTES nonce_vec CorruptChain;
  ciphertext ← get row.(col_ciphertext);
  previous_vec ← get row.(col_previous_hash);
  previous_hash ← try_into HASH_BYTES previous_vec CorruptChain;
  entry_vec ← get row.(col_entry_hash);
  entry_hash ← try_into HASH_BYTES entry_vec CorruptChain;
  reject ((previous_hash != st.(expected_previous))
          || (entry_hash != hash_entry journal_id sequence previous_hash nonce ciphertext))
    with CorruptChain;
  let aad := associated_data journal_id sequence previous_hash in
  plaintext ← ok_or (aead_decrypt cipher nonce aad ciphertext) AuthenticationFailed;
  reject ((MAX_EVENT_BYTES <? blen plaintext)%Z
          || (blen plaintext != record_plaintext_bytes)) with CorruptChain;
  let prefix := if sequence == anchor_sequence then Some entry_hash
                else st.(anchor_prefix_hash) in
  reject ((mode == ScanAllBounded)
          && ((MAX_RETURNED_ENTRIES <? sequence)%Z
              || (MAX_RETURNED_PLAINTEXT_BYTES <? next_plaintext_bytes)%Z))
    with ReadLimitExceeded;
  let entries :=
    if (mode == ScanAllBounded) || ((mode == ScanFirst) && (sequence == 1%Z))
    then st.(entries_so_far) ++ [mkEntry sequence plaintext previous_hash entry_hash]
    else st.(entries_so_far) in
  next ← ok_or (checked_add_u64 st.(expected_sequence) 1) SequenceOverflow;
  Ok (mkScanState next entry_hash prefix next_ciphertext_bytes next_plaintext_bytes entries).

(** The loop: a cursor yields rows until it ends or fails. *)
Fixpoint scan_rows (cipher journal_id : bytes) (anchor_sequence : Z) (mode : ScanMode)
    (replay_limits : option JournalReplayLimits) (rows : list (result string RawRow))
    (st : ScanState) : result JournalError ScanState :=
  match rows with
  | [] => Ok st
  | r :: rows =>
      row ← get r;
      st ← scan_row cipher journal_id anchor_sequence mode replay_limits st row;
      scan_rows cipher journal_id anchor_sequence mode replay_limits rows st
  end.

Definition scan_chain (rows : list (result string RawRow)) (cipher journal_id : bytes)
    (anchor_sequence : Z) (mode : ScanMode) (replay_limits : option JournalReplayLimits) :
    result JournalError ChainScan :=
  st ← scan_rows cipher journal_id anchor_sequence mode replay_limits rows
         (mkScanState 1 ZERO_HASH (if anchor_sequence == 0%Z then Some ZERO_HASH else None)
            0 0 []);
  Ok (mkScan (mkHead (st.(expected_sequence) - 1) st.(expected_previous))
        st.(anchor_prefix_hash) st.(ciphertext_bytes) st.(plaintext_bytes)
        st.(entries_so_far)).

Definition validate_anchor (anchor : JournalAnchor) (scan : ChainScan) (journal_id : bytes) :
    result JournalError bool :=
  reject (anchor.(anchor_journal_id) != journal_id) with RollbackDetected;
  reject (scan.(scan_head).(head_sequence) <? anchor.(anchor_sequence))%Z
    with RollbackDetected;
  if anchor.(anchor_sequence) == scan.(scan_head).(head_sequence) then
    reject (anchor.(anchor_entry_hash) != scan.(scan_head).(head_entry_hash))
      with RollbackDetected;
    Ok false
  else
    reject (scan.(scan_anchor_prefix_hash) != Some anchor.(anchor_entry_hash))
      with RollbackDetected;
    Ok true.

(** ** Streaming replay *)

(** The local variables of the replay loop. *)
Record ReplayState := mkReplayState {
  replay_sequence : Z;
  replay_previous : bytes;
  replay_plaintext : Z;
}.

(** One iteration of the loop of [replay_verified_chain] up to the callback: the
    entry handed to it and the local variables after it. *)
Definition replay_row (cipher journal_id : bytes) (verified_plaintext_bytes : Z)
    (st : ReplayState) (row : RawRow) : result JournalError (JournalEntry * Z) :=
  reject (MAX_JOURNAL_ENTRIES <? st.(replay_sequence))%Z with JournalTooLarge;
  sequence_raw ← get row.(col_sequence);
  sequence ← ok_or (u64_try_from_i64 sequence_raw) CorruptChain;
  nonce_len ← get row.(col_nonce_len);
  ciphertext_len ← get row.(col_ciphertext_len);
  previous_hash_len ← get row.(col_previous_hash_len);
  entry_hash_len ← get row.(col_entry_hash_len);
  max_ciphertext ← ok_or (checked_add_u64 MAX_EVENT_BYTES AEAD_TAG_BYTES) JournalTooLarge;
  reject (bad_shape sequence st.(replay_sequence) nonce_len ciphertext_len
            previous_hash_len entry_hash_len max_ciphertext) with CorruptChain;
  nonce_vec ← get row.(col_nonce);
  nonce ← try_into NONCE_BYTES nonce_vec CorruptChain;
  ciphertext ← get row.(col_ciphertext);
  previous_vec ← get row.(col_previous_hash);
  previous_hash ← try_into HASH_BYTES previous_vec CorruptChain;
  entry_vec ← get row.(col_entry_hash);
  entry_hash ← try_into HASH_BYTES entry_vec CorruptChain;
  reject ((previous_hash != st.(replay_previous))
          || (entry_hash != hash_entry journal_id sequence previous_hash nonce ciphertext))
    with CorruptChain;
  let aad := associated_data journal_id sequence previous_hash in
  plaintext ← ok_or (aead_decrypt cipher nonce aad ciphertext) AuthenticationFailed;
  reject (MAX_EVENT_BYTES <? blen plaintext)%Z with CorruptChain;
  plaintext_bytes ←
    ok_or (checked_add_u64 st.(replay_plaintext) (blen plaintext)) JournalTooLarge;
  reject (verified_plaintext_bytes <? plaintext_bytes)%Z with CorruptChain;
  Ok (mkEntry sequence plaintext previous_hash entry_hash, plaintext_bytes).

Section replay.
Context {C CallbackError : Type} (callback : JournalEntry → method C CallbackError ()).

Fixpoint replay_rows (cipher journal_id : bytes) (verified_plaintext_bytes : Z)
    (rows : list (result string RawRow)) (st : ReplayState) :
    method C (JournalReplayError CallbackError) ReplayState :=
  match rows with
  | [] => mret st
  | r :: rows =>
      row ← lift (map_err ReplayJournal (get r));
      '(entry, plaintext_bytes) ←
        lift (map_err ReplayJournal
                (replay_row cipher journal_id verified_plaintext_bytes st row));
      map_err_method ReplayCallback (callback entry);;
      next ← lift (map_err ReplayJournal
                     (ok_or (checked_add_u64 st.(replay_sequence) 1) SequenceOverflow));
      replay_rows cipher journal_id verified_plaintext_bytes rows
        (mkReplayState next entry.(entry_hash) plaintext_bytes)
  end.

Definition replay_verified_chain (rows : list (result string RawRow))
    (cipher journal_id : bytes) (verified_head : ChainHead) (verified_plaintext_bytes : Z) :
    method C (JournalReplayError CallbackError) () :=
  st ← replay_rows cipher journal_id verified_plaintext_bytes rows (mkReplayState 1 ZERO_HASH 0);
  observed_sequence ←
    lift (map_err ReplayJournal
            (ok_or (checked_sub_u64 st.(replay_sequence) 1) CorruptChain));
  fail_if ((observed_sequence != verified_head.(head_sequence))
           || (st.(replay_previous) != verified_head.(head_entry_hash))
           || (st.(replay_plaintext) != verified_plaintext_bytes))
    (ReplayJournal CorruptChain).

End replay.

End chain.
