(* ===== verification/JournalChainProperties.v ===== *)
(** * Properties of the hash chain

    What a scan accepts, what an anchor pins, and what the replay hands to its
    callback. *)

From Stdlib.Strings Require Import Byte.
From S2P Require Import Prelude Bytes Crypto JournalChain.

(** ** Valid chains *)

(** SQLite's [length(x)] of a blob column is the length of the blob. *)
Definition raw_wf (raw : RawRow) : Prop :=
  (∀ b, raw.(col_nonce) = Ok b → raw.(col_nonce_len) = Ok (blen b)) ∧
  (∀ b, raw.(col_ciphertext) = Ok b → raw.(col_ciphertext_len) = Ok (blen b)) ∧
  (∀ b, raw.(col_previous_hash) = Ok b → raw.(col_previous_hash_len) = Ok (blen b)) ∧
  (∀ b, raw.(col_entry_hash) = Ok b → raw.(col_entry_hash_len) = Ok (blen b)).

Lemma raw_of_wf r : raw_wf (raw_of r).
Proof. unfold raw_wf, raw_of. simpl. split_and!; by intros ? [= <-]. Qed.

#[export] Instance raw_of_inj : Inj (=) (=) raw_of.
Proof. intros [] [] Heq. unfold raw_of in Heq. simpl in Heq. congruence. Qed.

Definition cursor_of (rows : list Row) : list (result string RawRow) :=
  map (λ r, Ok (raw_of r)) rows.

#[export] Instance cursor_of_inj : Inj (=) (=) cursor_of.
Proof.
  intros rows. induction rows as [|r rows IH]; intros [|r' rows'] Heq; try done.
  injection Heq as Hr Hrest. f_equal; [by destruct r, r'; simpl in *; congruence|by apply IH].
Qed.

(** ** Column reads and limits *)

Lemma get_Ok_1 {A} (r : result string A) a : get r = Ok a → r = Ok a.
Proof. apply map_err_Ok_1. Qed.

Lemma try_into_Ok_1 n l e b : try_into n l e = Ok b → b = l ∧ length l = n.
Proof. unfold try_into. intros Hok. inv_ok Hok. by guards. Qed.

(** Everything a step learns from the columns it reads. *)
Ltac columns :=
  repeat match goal with
  | H : get _ = Ok _ |- _ => apply get_Ok_1 in H
  | H : try_into _ _ _ = Ok _ |- _ => apply try_into_Ok_1 in H as [-> ?]
  | H : u64_try_from_i64 _ = Some _ |- _ => apply u64_try_from_i64_Some in H as [-> ?]
  | H : checked_sub_u64 _ _ = Some _ |- _ => apply checked_sub_u64_Some in H as [-> ?]
  | H : checked_add_u64 _ _ = Some _ |- _ => apply checked_add_u64_Some in H as [-> ?]
  end.

Lemma blen_nonneg l : (0 ≤ blen l)%Z.
Proof. unfold blen. lia. Qed.

Lemma blen_length l n : blen l = Z.of_nat n ↔ length l = n.
Proof. unfold blen. lia. Qed.

Lemma try_into_pass n l e : length l = n → try_into n l e = Ok l.
Proof. intros Hl. unfold try_into. apply reject_pass; [|done]. rewrite Hl. apply ne_refl_false. Qed.

Lemma bad_shape_false seq expected n c p h m :
  seq = expected → n = Z.of_nat NONCE_BYTES → (AEAD_TAG_BYTES ≤ c ≤ m)%Z →
  p = Z.of_nat HASH_BYTES → h = Z.of_nat HASH_BYTES → bad_shape seq expected n c p h m = false.
Proof.
  intros -> -> Hc -> ->. unfold bad_shape. rewrite !ne_refl_false. simpl.
  rewrite !orb_false_r. lia.
Qed.

(** Exposes the numeric limits to [lia]. *)
Ltac journal_limits :=
  unfold MAX_EVENT_BYTES, MAX_JOURNAL_ENTRIES, MAX_REPLAY_PLAINTEXT_BYTES,
    MAX_JOURNAL_CIPHERTEXT_BYTES, MAX_RETURNED_PLAINTEXT_BYTES, MAX_RETURNED_ENTRIES,
    AEAD_TAG_BYTES, U64_MAX in *.

(** Discharges one column read, conversion or bound. *)
Ltac pass_column :=
  first [ reflexivity | lia
        | apply ok_or_pass; first
            [ eassumption | apply u64_try_from_i64_fits; journal_limits; lia
            | apply checked_add_u64_fits; journal_limits; lia
            | apply checked_sub_u64_fits; journal_limits; lia ]
        | apply try_into_pass; eassumption
        | apply bad_shape_false; first [assumption | by apply blen_length | journal_limits; lia] ].

Section chain.
Context `{sha : Sha256} `{aead : Aead}.
Variables (k jid : bytes).

(** A row that continues a chain at sequence [seq] after the hash [prev] and
    holds the event [ev]. *)
Definition row_valid (seq : Z) (prev : bytes) (r : Row) (ev : bytes) : Prop :=
  r.(row_sequence) = seq ∧ r.(row_previous_hash) = prev ∧
  length r.(row_nonce) = NONCE_BYTES ∧ length r.(row_previous_hash) = HASH_BYTES ∧
  length r.(row_entry_hash) = HASH_BYTES ∧
  r.(row_entry_hash) = hash_entry jid seq prev r.(row_nonce) r.(row_ciphertext) ∧
  aead_decrypt k r.(row_nonce) (associated_data jid seq prev) r.(row_ciphertext) = Some ev ∧
  (blen ev ≤ MAX_EVENT_BYTES)%Z ∧ blen r.(row_ciphertext) = (blen ev + AEAD_TAG_BYTES)%Z.

(** A chain of rows with their events. *)
Inductive linked : Z → bytes → list Row → list bytes → Prop :=
| linked_nil seq prev : linked seq prev [] []
| linked_cons seq prev r rows ev evs :
    row_valid seq prev r ev → linked (seq + 1) r.(row_entry_hash) rows evs →
    linked seq prev (r :: rows) (ev :: evs).

(** The number of ciphertext and plaintext bytes. *)
Definition ciphertext_total (rows : list Row) : Z :=
  foldr (λ r acc, blen r.(row_ciphertext) + acc)%Z 0%Z rows.
Definition plaintext_total (evs : list bytes) : Z := foldr (λ e acc, blen e + acc)%Z 0%Z evs.

(** The hash after the rows of a chain that starts at [prev]. *)
Fixpoint last_hash (prev : bytes) (rows : list Row) : bytes :=
  match rows with [] => prev | r :: rows => last_hash r.(row_entry_hash) rows end.

(** The hash that a chain has at a sequence number. *)
Definition hash_at (rows : list Row) (n : Z) : option bytes :=
  if (n =? 0)%Z then Some ZERO_HASH
  else if (n <? 0)%Z then None
  else row_entry_hash <$> rows !! Z.to_nat (n - 1).

(** The entry a scan or replay reports for a row. *)
Definition entry_of (r : Row) (ev : bytes) : JournalEntry :=
  mkEntry r.(row_sequence) ev r.(row_previous_hash) r.(row_entry_hash).

(** The limits that one row meets. *)
Definition row_fits (mode : ScanMode) (limits : option JournalReplayLimits) (st : ScanState)
    (r : Row) (ev : bytes) : Prop :=
  (st.(expected_sequence) ≤ MAX_JOURNAL_ENTRIES)%Z ∧
  (st.(ciphertext_bytes) + blen r.(row_ciphertext) ≤ MAX_JOURNAL_CIPHERTEXT_BYTES)%Z ∧
  (∀ l, limits = Some l → (st.(expected_sequence) ≤ l.(max_sequence))%Z ∧
     (st.(plaintext_bytes) + blen ev ≤ l.(max_plaintext_bytes))%Z) ∧
  (mode = ScanAllBounded → (st.(expected_sequence) ≤ MAX_RETURNED_ENTRIES)%Z ∧
     (st.(plaintext_bytes) + blen ev ≤ MAX_RETURNED_PLAINTEXT_BYTES)%Z).

Definition scan_next (anchor : Z) (mode : ScanMode) (st : ScanState) (r : Row) (ev : bytes) :
    ScanState :=
  mkScanState (st.(expected_sequence) + 1) r.(row_entry_hash)
    (if r.(row_sequence) == anchor then Some r.(row_entry_hash) else st.(anchor_prefix_hash))
    (st.(ciphertext_bytes) + blen r.(row_ciphertext)) (st.(plaintext_bytes) + blen ev)
    (if (mode == ScanAllBounded) || ((mode == ScanFirst) && (r.(row_sequence) == 1%Z))
     then st.(entries_so_far) ++ [entry_of r ev] else st.(entries_so_far)).

(** The loop variables stay in range. *)
Definition scan_wf (st : ScanState) : Prop :=
  (1 ≤ st.(expected_sequence))%Z ∧ (0 ≤ st.(ciphertext_bytes) ≤ MAX_JOURNAL_CIPHERTEXT_BYTES)%Z ∧
  (0 ≤ st.(plaintext_bytes) ≤ st.(ciphertext_bytes))%Z.

Lemma scan_row_sound anchor mode limits st raw st' :
  raw_wf raw → scan_row k jid anchor mode limits st raw = Ok st' →
  ∃ r ev, raw = raw_of r ∧ row_valid st.(expected_sequence) st.(expected_previous) r ev ∧
    row_fits mode limits st r ev ∧ st' = scan_next anchor mode st r ev.
Proof.
  intros (Hw1 & Hw2 & Hw3 & Hw4) Hrun. unfold scan_row in Hrun. inv_ok Hrun. columns.
  unfold bad_shape in *. guards. simplify_eq.
  specialize (Hw1 _ Hcall10). specialize (Hw2 _ Hcall12). specialize (Hw3 _ Hcall13).
  specialize (Hw4 _ Hcall15). rewrite Hw1 in Hcall1. rewrite Hw2 in Hcall2.
  rewrite Hw3 in Hcall3. rewrite Hw4 in Hcall4. simplify_eq.
  exists (mkRow (expected_sequence st) v10 v12 (expected_previous st)
            (hash_entry jid (expected_sequence st) (expected_previous st) v10 v12)), v17.
  split_and!.
  - destruct raw; simpl in *; by subst.
  - unfold row_valid; simpl; split_and!; auto; lia.
  - unfold row_fits; simpl; split_and!; try lia.
    + intros l ->. lia.
    + intros ->. rewrite eq_refl_true in Hguard6. simpl in Hguard6. guards. lia.
  - unfold scan_next, entry_of; simpl. do 2 f_equal; lia.
Qed.

Lemma scan_row_complete anchor mode limits st r ev :
  scan_wf st → row_valid st.(expected_sequence) st.(expected_previous) r ev →
  row_fits mode limits st r ev →
  scan_row k jid anchor mode limits st (raw_of r) = Ok (scan_next anchor mode st r ev).
Proof.
  intros (Hs & Hc & Hp) (Hseq & Hprev & Hn & Hpl & Hhl & Hh & Hd & Hev & Hct)
    (Hf1 & Hf2 & Hlim & Hmode).
  pose proof (blen_nonneg ev). unfold scan_row, raw_of. cbn -[Z.add].
  rewrite Hprev in Hpl |- *. rewrite Hseq.
  assert (blen (row_ciphertext r) - AEAD_TAG_BYTES = blen ev)%Z as Hpt by lia.
  run_ok ltac:(first [ pass_column | journal_limits; lia
    | destruct limits as [l|]; [specialize (Hlim l eq_refl); journal_limits; lia|done]
    | by rewrite <-Hh, !ne_refl_false
    | rewrite Hpt, ne_refl_false, orb_false_r; lia
    | destruct mode; [done..|specialize (Hmode eq_refl); journal_limits; cbn -[Z.add]; lia] ]).
  unfold scan_next, entry_of. rewrite Hseq, Hprev. do 2 f_equal; lia.
Qed.

Lemma scan_next_wf anchor mode limits st r ev :
  scan_wf st → row_valid st.(expected_sequence) st.(expected_previous) r ev →
  row_fits mode limits st r ev → scan_wf (scan_next anchor mode st r ev).
Proof.
  intros (? & ? & ?) (_ & _ & _ & _ & _ & _ & _ & ? & ?) (? & ? & _).
  pose proof (blen_nonneg ev). unfold scan_wf, scan_next. simpl. journal_limits. lia.
Qed.

(** ** Rows of a scan *)

(** The limits on the whole scan, from a state of the loop on. *)
Fixpoint rows_fit (mode : ScanMode) (limits : option JournalReplayLimits) (anchor : Z)
    (st : ScanState) (rows : list Row) (evs : list bytes) : Prop :=
  match rows, evs with
  | r :: rows, ev :: evs =>
      row_fits mode limits st r ev ∧
      rows_fit mode limits anchor (scan_next anchor mode st r ev) rows evs
  | _, _ => True
  end.

Fixpoint scan_all (mode : ScanMode) (anchor : Z) (st : ScanState) (rows : list Row)
    (evs : list bytes) : ScanState :=
  match rows, evs with
  | r :: rows, ev :: evs => scan_all mode anchor (scan_next anchor mode st r ev) rows evs
  | _, _ => st
  end.

Lemma scan_rows_sound anchor mode limits st cursor st' :
  (∀ raw, Ok raw ∈ cursor → raw_wf raw) →
  scan_rows k jid anchor mode limits cursor st = Ok st' →
  ∃ rows evs, cursor = map (λ r, Ok (raw_of r)) rows ∧
    linked st.(expected_sequence) st.(expected_previous) rows evs ∧
    rows_fit mode limits anchor st rows evs ∧ st' = scan_all mode anchor st rows evs.
Proof.
  revert st. induction cursor as [|c cursor IH]; intros st Hwf Hrun; cbn [scan_rows] in Hrun.
  - exists [], []. inv_ok Hrun. split_and!; try done. constructor.
  - inv_ok Hrun. apply get_Ok_1 in Hcall. subst c.
    apply scan_row_sound in Hcall0 as (r & ev & -> & Hv & Hf & ->); [|apply Hwf; left].
    apply IH in Hrun as (rows & evs & -> & Hl & Hfs & ->); [|intros; apply Hwf; by right].
    exists (r :: rows), (ev :: evs). split_and!; try done. by constructor.
Qed.

Lemma scan_rows_complete anchor mode limits st rows evs :
  scan_wf st → linked st.(expected_sequence) st.(expected_previous) rows evs →
  rows_fit mode limits anchor st rows evs →
  scan_rows k jid anchor mode limits (map (λ r, Ok (raw_of r)) rows) st
    = Ok (scan_all mode anchor st rows evs).
Proof.
  revert st evs. induction rows as [|r rows IH]; intros st evs Hwf Hl Hf;
    inversion Hl as [|? ? ? ? ev evs' Hv Hl']; subst; [done|].
  destruct Hf as [Hf Hfs]. cbn [map scan_rows scan_all].
  eapply bind_pass; [done|]. cbv beta.
  eapply bind_pass; [by apply scan_row_complete|]. cbv beta.
  apply IH; [by eapply scan_next_wf|done..].
Qed.

(** ** Closed forms *)

Lemma linked_length seq prev rows evs : linked seq prev rows evs → length rows = length evs.
Proof. induction 1; simpl; lia. Qed.

Lemma ciphertext_total_nonneg rows : (0 ≤ ciphertext_total rows)%Z.
Proof. induction rows as [|r rows IH]; simpl; [done|]. pose proof (blen_nonneg (row_ciphertext r)). lia. Qed.

Lemma plaintext_total_nonneg evs : (0 ≤ plaintext_total evs)%Z.
Proof. induction evs as [|e evs IH]; simpl; [done|]. pose proof (blen_nonneg e). lia. Qed.

(** The limits on a whole chain that starts in a state of the loop. *)
Definition within (mode : ScanMode) (limits : option JournalReplayLimits) (seq ct pt : Z) : Prop :=
  (seq ≤ MAX_JOURNAL_ENTRIES)%Z ∧ (ct ≤ MAX_JOURNAL_CIPHERTEXT_BYTES)%Z ∧
  (∀ l, limits = Some l → (seq ≤ l.(max_sequence))%Z ∧ (pt ≤ l.(max_plaintext_bytes))%Z) ∧
  (mode = ScanAllBounded → (seq ≤ MAX_RETURNED_ENTRIES)%Z ∧ (pt ≤ MAX_RETURNED_PLAINTEXT_BYTES)%Z).

Lemma within_mono mode limits seq ct pt seq' ct' pt' :
  within mode limits seq' ct' pt' → (seq ≤ seq')%Z → (ct ≤ ct')%Z → (pt ≤ pt')%Z →
  within mode limits seq ct pt.
Proof.
  unfold within. intros (? & ? & Hl & Hm) ? ? ?. split_and!; try lia.
  - intros l Hlim. specialize (Hl l Hlim). lia.
  - intros Hmode. specialize (Hm Hmode). lia.
Qed.

Lemma row_fits_within mode limits st r ev :
  row_fits mode limits st r ev ↔
    within mode limits st.(expected_sequence) (st.(ciphertext_bytes) + blen r.(row_ciphertext))
      (st.(plaintext_bytes) + blen ev).
Proof. done. Qed.

Lemma rows_fit_within mode limits anchor st rows evs seq prev :
  linked seq prev rows evs →
  rows_fit mode limits anchor st rows evs ↔
    rows = [] ∨
    within mode limits (st.(expected_sequence) + Z.of_nat (length rows) - 1)
      (st.(ciphertext_bytes) + ciphertext_total rows) (st.(plaintext_bytes) + plaintext_total evs).
Proof.
  intros Hl. revert st. induction Hl as [|seq prev r rows ev evs Hv Hl IH]; intros st; [naive_solver|].
  cbn [rows_fit]. rewrite IH, row_fits_within. cbn [scan_next expected_sequence ciphertext_bytes
    plaintext_bytes ciphertext_total plaintext_total foldr length].
  fold (ciphertext_total rows) (plaintext_total evs).
  pose proof (ciphertext_total_nonneg rows). pose proof (plaintext_total_nonneg evs).
  split.
  - intros [Hr [->|Hw]]; right.
    + apply linked_length in Hl. destruct evs; [|done]. simpl.
      eapply within_mono; [exact Hr|simpl; lia..].
    + eapply within_mono; [exact Hw|lia..].
  - intros [|Hw]; [done|]. split; [|right]; (eapply within_mono; [exact Hw|lia..]).
Qed.

(** The entries that a scan collects. *)
Definition collected (mode : ScanMode) (first : bool) (rows : list Row) (evs : list bytes) :
    list JournalEntry :=
  match mode with
  | ScanNone => []
  | ScanFirst => if first then take 1 (zip_with entry_of rows evs) else []
  | ScanAllBounded => zip_with entry_of rows evs
  end.

Lemma scan_all_closed mode anchor st rows evs :
  linked st.(expected_sequence) st.(expected_previous) rows evs →
  (1 ≤ st.(expected_sequence))%Z →
  scan_all mode anchor st rows evs =
    mkScanState (st.(expected_sequence) + Z.of_nat (length rows))
      (last_hash st.(expected_previous) rows)
      (if bool_decide (st.(expected_sequence) ≤ anchor
                       < st.(expected_sequence) + Z.of_nat (length rows))%Z
       then row_entry_hash <$> rows !! Z.to_nat (anchor - st.(expected_sequence))
       else st.(anchor_prefix_hash))
      (st.(ciphertext_bytes) + ciphertext_total rows)
      (st.(plaintext_bytes) + plaintext_total evs)
      (st.(entries_so_far) ++ collected mode (st.(expected_sequence) == 1%Z) rows evs).
Proof.
  revert st evs. induction rows as [|r rows IH]; intros st evs Hl Hs;
    inversion Hl as [|? ? ? ? ev evs' Hv Hl']; subst; cbn [scan_all].
  - destruct st as [es ep ap cb pb ents]. cbn in *. rewrite bool_decide_eq_false_2 by lia.
    f_equal; try lia. destruct mode; simpl; try case_match; by rewrite app_nil_r.
  - rewrite IH; [|done|simpl; lia]. destruct Hv as (Hseq & _).
    destruct st as [es ep ap cb pb ents]. cbn -[Z.add] in *. subst es.
    unfold ciphertext_total, plaintext_total. f_equal; try lia.
    + destruct (decide (row_sequence r = anchor)) as [->|Hne].
      * rewrite eq_refl_true, bool_decide_eq_false_2, bool_decide_eq_true_2 by lia.
        by rewrite Z.sub_diag.
      * rewrite (bool_decide_eq_false_2 (row_sequence r = anchor)) by done.
        destruct (decide (row_sequence r + 1 ≤ anchor <
          row_sequence r + 1 + Z.of_nat (length rows))%Z).
        -- rewrite !bool_decide_eq_true_2 by lia.
           by replace (Z.to_nat (anchor - row_sequence r)) with
             (S (Z.to_nat (anchor - (row_sequence r + 1)))) by lia.
        -- by rewrite !bool_decide_eq_false_2 by lia.
    + rewrite (bool_decide_eq_false_2 (row_sequence r + 1 = 1)%Z) by lia.
      destruct mode; repeat case_bool_decide; try done; cbn; by rewrite <-?app_assoc, ?app_nil_r.
Qed.

(** What a successful scan of a chain reports. *)
Definition scan_result (anchor : Z) (mode : ScanMode) (rows : list Row) (evs : list bytes) :
    ChainScan :=
  mkScan (mkHead (Z.of_nat (length rows)) (last_hash ZERO_HASH rows)) (hash_at rows anchor)
    (ciphertext_total rows) (plaintext_total evs) (collected mode true rows evs).

(** A chain from the start of the journal, within the limits of a scan. *)
Definition scannable (mode : ScanMode) (limits : option JournalReplayLimits) (rows : list Row)
    (evs : list bytes) : Prop :=
  linked 1 ZERO_HASH rows evs ∧
  (rows = [] ∨ within mode limits (Z.of_nat (length rows)) (ciphertext_total rows)
                 (plaintext_total evs)).

Lemma scan_chain_closed anchor mode rows evs :
  linked 1 ZERO_HASH rows evs →
  (let st := scan_all mode anchor
     (mkScanState 1 ZERO_HASH (if anchor == 0%Z then Some ZERO_HASH else None) 0 0 []) rows evs in
   mkScan (mkHead (st.(expected_sequence) - 1) st.(expected_previous)) st.(anchor_prefix_hash)
     st.(ciphertext_bytes) st.(plaintext_bytes) st.(entries_so_far))
  = scan_result anchor mode rows evs.
Proof.
  intros Hl. rewrite scan_all_closed by (simpl; done || lia). cbn -[Z.add].
  unfold scan_result, hash_at. rewrite eq_refl_true. f_equal; [f_equal; lia|].
  destruct (Z.eqb_spec anchor 0) as [->|Hne].
  - rewrite bool_decide_eq_false_2 by lia. by rewrite eq_refl_true.
  - destruct (Z.ltb_spec anchor 0); [rewrite !bool_decide_eq_false_2 by lia; done|].
    case_bool_decide; [done|]. rewrite bool_decide_eq_false_2 by done.
    symmetry. apply fmap_None, lookup_ge_None. lia.
Qed.

Lemma scan_chain_sound cursor anchor mode limits scan :
  (∀ raw, Ok raw ∈ cursor → raw_wf raw) →
  scan_chain cursor k jid anchor mode limits = Ok scan →
  ∃ rows evs, cursor = cursor_of rows ∧ scannable mode limits rows evs ∧
    scan = scan_result anchor mode rows evs.
Proof.
  intros Hwf Hrun. unfold scan_chain in Hrun. inv_ok Hrun.
  apply scan_rows_sound in Hcall as (rows & evs & -> & Hl & Hf & ->); [|done].
  exists rows, evs. split_and!; [done| |by apply scan_chain_closed].
  split; [done|]. eapply rows_fit_within in Hf as [|Hw]; [by left| |done].
  right. eapply within_mono; [exact Hw|simpl; lia..].
Qed.

Lemma scan_chain_complete anchor mode limits rows evs :
  scannable mode limits rows evs →
  scan_chain (cursor_of rows) k jid anchor mode limits = Ok (scan_result anchor mode rows evs).
Proof.
  intros [Hl Hw]. unfold scan_chain. eapply bind_pass.
  - apply scan_rows_complete; [unfold scan_wf; simpl; journal_limits; lia|done|].
    eapply rows_fit_within; [done|]. destruct Hw as [|Hw]; [by left|right].
    eapply within_mono; [exact Hw|simpl; lia..].
  - cbv beta. f_equal. by apply scan_chain_closed.
Qed.

(** ** Extending a chain *)

Lemma linked_app seq prev rows evs rows' evs' :
  linked seq prev rows evs →
  linked (seq + Z.of_nat (length rows)) (last_hash prev rows) rows' evs' →
  linked seq prev (rows ++ rows') (evs ++ evs').
Proof.
  induction 1 as [|seq prev r rows ev evs Hv Hl IH]; simpl; intros H'.
  - by rewrite Z.add_0_r in H'.
  - constructor; [done|]. apply IH. by replace (seq + 1 + Z.of_nat (length rows))%Z with
      (seq + Z.of_nat (S (length rows)))%Z by lia.
Qed.

Lemma linked_app_inv seq prev rows rows' evs :
  linked seq prev (rows ++ rows') evs →
  ∃ evs1 evs2, evs = evs1 ++ evs2 ∧ linked seq prev rows evs1 ∧
    linked (seq + Z.of_nat (length rows)) (last_hash prev rows) rows' evs2.
Proof.
  revert seq prev evs. induction rows as [|r rows IH]; simpl; intros seq prev evs Hl.
  - exists [], evs. rewrite Z.add_0_r. split_and!; [done|constructor|done].
  - inversion Hl as [|? ? ? ? ev evs' Hv Hl']; subst.
    apply IH in Hl' as (e1 & e2 & -> & H1 & H2). exists (ev :: e1), e2. split_and!; [done|by constructor|].
    by replace (seq + Z.of_nat (S (length rows)))%Z with (seq + 1 + Z.of_nat (length rows))%Z by lia.
Qed.

Lemma linked_fun seq prev rows evs evs' :
  linked seq prev rows evs → linked seq prev rows evs' → evs = evs'.
Proof.
  intros Hl. revert evs'. induction Hl as [|seq prev r rows ev evs Hv Hl IH]; intros evs' Hl'.
  - by inversion Hl'.
  - inversion Hl' as [|? ? ? ? ev' evs2 Hv' Hl2]; subst. f_equal; [|by apply IH].
    destruct Hv as (_ & _ & _ & _ & _ & _ & Hd & _), Hv' as (_ & _ & _ & _ & _ & _ & Hd' & _).
    congruence.
Qed.

Lemma last_hash_app prev rows rows' :
  last_hash prev (rows ++ rows') = last_hash (last_hash prev rows) rows'.
Proof. revert prev. by induction rows; simpl. Qed.

Lemma linked_last_hash seq prev rows evs :
  linked seq prev rows evs → length prev = HASH_BYTES → length (last_hash prev rows) = HASH_BYTES.
Proof.
  induction 1 as [|seq prev r rows ev evs Hv Hl IH]; simpl; intros Hp; [done|].
  apply IH. by destruct Hv as (_ & _ & _ & _ & ? & _).
Qed.

Lemma linked_sequences seq prev rows evs i r :
  linked seq prev rows evs → rows !! i = Some r → r.(row_sequence) = (seq + Z.of_nat i)%Z.
Proof.
  intros Hl. revert i. induction Hl as [|seq prev r' rows ev evs Hv Hl IH]; intros [|i] Hr; try done.
  - injection Hr as <-. destruct Hv as (-> & _). lia.
  - simpl in Hr. apply IH in Hr. lia.
Qed.

Lemma hash_at_last rows n :
  (0 ≤ n ≤ Z.of_nat (length rows))%Z →
  hash_at rows n = Some (last_hash ZERO_HASH (take (Z.to_nat n) rows)).
Proof.
  intros Hn. unfold hash_at. destruct (Z.eqb_spec n 0) as [->|Hne]; [done|].
  destruct (Z.ltb_spec n 0); [lia|].
  destruct (lookup_lt_is_Some_2 rows (Z.to_nat (n - 1))) as [r Hr]; [lia|]. rewrite Hr.
  replace (Z.to_nat n) with (S (Z.to_nat (n - 1))) by lia.
  by rewrite (take_S_r _ _ _ Hr), last_hash_app.
Qed.

End chain.

(** ** What a hash pins *)

Definition row_preimage (jid : bytes) (r : Row) : bytes :=
  entry_preimage jid r.(row_sequence) r.(row_previous_hash) r.(row_nonce) r.(row_ciphertext).

Section pinning.
Context `{sha : Sha256} `{aead : Aead}.

Lemma entry_preimage_inj jid s p n c s' p' n' c' :
  is_u64 s → is_u64 s' → length p = HASH_BYTES → length p' = HASH_BYTES →
  length n = NONCE_BYTES → length n' = NONCE_BYTES → fits c → fits c' →
  entry_preimage jid s p n c = entry_preimage jid s' p' n' c' →
  s = s' ∧ p = p' ∧ n = n' ∧ c = c'.
Proof.
  intros Hs Hs' Hp Hp' Hn Hn' Hc Hc' Heq. unfold entry_preimage in Heq.
  apply app_inv_head, app_inv_head in Heq.
  apply to_be_bytes_app_inj in Heq as [-> Heq]; [|done..].
  apply app_inj_1 in Heq as [-> Heq]; [|congruence].
  apply app_inj_1 in Heq as [-> Heq]; [|congruence].
  apply to_be_bytes_app_inj in Heq as [_ ->]; [|done..]. done.
Qed.

(** Two rows at the same place whose hashes agree are equal or collide. *)
Lemma rows_commit k k' jid seq prev prev' r r' ev ev' :
  row_valid k jid seq prev r ev → row_valid k' jid seq prev' r' ev' → is_u64 seq →
  r.(row_entry_hash) = r'.(row_entry_hash) →
  r = r' ∨ collision (row_preimage jid r) (row_preimage jid r').
Proof.
  intros (Hs & Hp & Hn & Hpl & _ & Hh & _ & He & Hc) (Hs' & Hp' & Hn' & Hpl' & _ & Hh' & _ & He' & Hc')
    Hu Heq.
  assert (sha256 (row_preimage jid r) = sha256 (row_preimage jid r')) as Hsha.
  { unfold row_preimage. rewrite Hs, Hs', Hp, Hp'. unfold hash_entry in Hh, Hh'. congruence. }
  destruct (decide (row_preimage jid r = row_preimage jid r')) as [Hpre|]; [left|by right].
  pose proof (blen_nonneg (row_ciphertext r)). pose proof (blen_nonneg (row_ciphertext r')).
  assert (fits (row_ciphertext r)) by (unfold fits, is_u64; journal_limits; lia).
  assert (fits (row_ciphertext r')) by (unfold fits, is_u64; journal_limits; lia).
  unfold row_preimage in Hpre. apply entry_preimage_inj in Hpre as (? & ? & ? & ?);
    [|congruence..]. destruct r, r'; simpl in *; congruence.
Qed.

(** A chain is pinned by its length and last hash. *)
Lemma linked_commit k k' jid seq prev rows rows' evs evs' :
  linked k jid seq prev rows evs → linked k' jid seq prev rows' evs' →
  length rows = length rows' → is_u64 seq → is_u64 (seq + Z.of_nat (length rows)) →
  last_hash prev rows = last_hash prev rows' →
  rows = rows' ∨
  ∃ i r r', rows !! i = Some r ∧ rows' !! i = Some r' ∧
    collision (row_preimage jid r) (row_preimage jid r').
Proof.
  revert rows' evs evs'. induction rows as [|r rows IH] using rev_ind;
    intros rows' evs evs' Hl Hl' Hlen Hu Hu2 Hlast; [left; by destruct rows'|].
  destruct rows' as [|r' rows' _] using rev_ind; [rewrite length_app in Hlen; simpl in *; lia|].
  rewrite !length_app in *. simpl in Hlen, Hu2.
  apply linked_app_inv in Hl as (e1 & e2 & -> & Hl1 & Hl2).
  apply linked_app_inv in Hl' as (e1' & e2' & -> & Hl1' & Hl2').
  inversion Hl2 as [|? ? ? ? ev ? Hv _]; subst. inversion Hl2' as [|? ? ? ? ev' ? Hv' _]; subst.
  assert (length rows = length rows') as Hlr by lia. rewrite <-Hlr in Hv'.
  rewrite !last_hash_app in Hlast. simpl in Hlast. unfold is_u64 in Hu, Hu2.
  destruct (rows_commit _ _ _ _ _ _ _ _ _ _ Hv Hv') as [->|Hcol]; [unfold is_u64; lia|done| |].
  - assert (last_hash prev rows = last_hash prev rows') as Hprev.
    { destruct Hv as (_ & <- & _), Hv' as (_ & <- & _). done. }
    destruct (IH rows' e1 e1') as [->|(i & x & x' & Hx & Hx' & Hcol)]; try done;
      [unfold is_u64; lia|by left|].
    right. exists i, x, x'. split_and!; try done; by apply lookup_app_l_Some.
  - right. exists (length rows), r, r'. split_and!; try done; [|rewrite Hlr]; by apply list_lookup_middle.
Qed.

(** ** Anchors *)

(** The anchor names a prefix of the chain. *)
Definition anchors (jid : bytes) (rows : list Row) (a : JournalAnchor) : Prop :=
  a.(anchor_journal_id) = jid ∧ (0 ≤ a.(anchor_sequence) ≤ Z.of_nat (length rows))%Z ∧
  a.(anchor_entry_hash) = last_hash ZERO_HASH (take (Z.to_nat a.(anchor_sequence)) rows).

(** The anchor of the whole chain. *)
Definition head_anchor (jid : bytes) (rows : list Row) : JournalAnchor :=
  mkAnchor jid (Z.of_nat (length rows)) (last_hash ZERO_HASH rows).

Lemma validate_anchor_spec jid rows evs mode a lags :
  (0 ≤ a.(anchor_sequence))%Z →
  validate_anchor a (scan_result a.(anchor_sequence) mode rows evs) jid = Ok lags ↔
    anchors jid rows a ∧ lags = (a.(anchor_sequence) <? Z.of_nat (length rows))%Z.
Proof.
  intros Hpos. unfold validate_anchor, anchors. cbn. split.
  - intros Hok. inv_ok Hok; guards; subst.
    + split; [|symmetry; lia]. split_and!; [done|lia|lia|].
      by rewrite firstn_all2 by lia.
    + rewrite hash_at_last in Hguard1 by lia. injection Hguard1 as Hh.
      split; [|symmetry; lia]. split_and!; [done|lia|lia|done].
  - intros [(-> & Hr & Hh) ->]. apply reject_pass; [apply ne_refl_false|].
    apply reject_pass; [lia|]. case_bool_decide as Heq.
    + rewrite Heq, Nat2Z.id, firstn_all in Hh. apply reject_pass; [rewrite Hh; apply ne_refl_false|].
      f_equal. lia.
    + rewrite hash_at_last, Hh by lia. apply reject_pass; [apply ne_refl_false|]. f_equal. lia.
Qed.

Lemma head_anchor_anchors jid rows : anchors jid rows (head_anchor jid rows).
Proof. split_and!; simpl; [done|lia|lia|]. by rewrite Nat2Z.id, firstn_all. Qed.

Lemma anchors_app jid rows rows' a : anchors jid rows a → anchors jid (rows ++ rows') a.
Proof.
  intros (Hj & Hr & Hh). split_and!; [done|lia|rewrite length_app; lia|].
  by rewrite take_app_le by lia.
Qed.

End pinning.

(** ** Streaming replay *)

Section replay.
Context `{sha : Sha256} `{aead : Aead} (k jid : bytes).
Context {C CallbackError : Type} (callback : JournalEntry → method C CallbackError ()).

(** The callback on one entry after the other, until it fails. *)
Fixpoint visit (es : list JournalEntry) : method C CallbackError () :=
  match es with
  | [] => mret tt
  | e :: es => callback e;; visit es
  end.

Lemma replay_row_complete total st r ev :
  (1 ≤ st.(replay_sequence) ≤ MAX_JOURNAL_ENTRIES)%Z →
  row_valid k jid st.(replay_sequence) st.(replay_previous) r ev →
  (0 ≤ st.(replay_plaintext))%Z → (st.(replay_plaintext) + blen ev ≤ total)%Z →
  (total ≤ MAX_JOURNAL_CIPHERTEXT_BYTES)%Z →
  replay_row k jid total st (raw_of r) = Ok (entry_of r ev, (st.(replay_plaintext) + blen ev)%Z).
Proof.
  intros Hs (Hseq & Hprev & Hn & Hpl & Hhl & Hh & Hd & Hev & Hct) Hp Ht Hmax.
  pose proof (blen_nonneg ev). unfold replay_row, raw_of. cbn -[Z.add].
  rewrite Hprev in Hpl |- *. rewrite Hseq.
  run_ok ltac:(first [ pass_column | journal_limits; lia | by rewrite <-Hh, !ne_refl_false ]).
  unfold entry_of. by rewrite Hseq, Hprev.
Qed.

Lemma replay_rows_app total rows evs tail st c :
  linked k jid st.(replay_sequence) st.(replay_previous) rows evs →
  (1 ≤ st.(replay_sequence))%Z →
  (st.(replay_sequence) + Z.of_nat (length rows) - 1 ≤ MAX_JOURNAL_ENTRIES)%Z →
  (0 ≤ st.(replay_plaintext))%Z → (st.(replay_plaintext) + plaintext_total evs ≤ total)%Z →
  (total ≤ MAX_JOURNAL_CIPHERTEXT_BYTES)%Z →
  replay_rows callback k jid total (cursor_of rows ++ tail) st c =
    match visit (zip_with entry_of rows evs) c with
    | (c', Ok _) =>
        replay_rows callback k jid total tail
          (mkReplayState (st.(replay_sequence) + Z.of_nat (length rows))
             (last_hash st.(replay_previous) rows)
             (st.(replay_plaintext) + plaintext_total evs)) c'
    | (c', Err e) => (c', Err (ReplayCallback e))
    end.
Proof.
  revert st evs c. induction rows as [|r rows IH]; intros st evs c Hl Hs Hlen Hp Ht Hmax;
    inversion Hl as [|? ? ? ? ev evs' Hv Hl']; subst.
  - destruct st as [sq pr pt]. cbn. by rewrite !Z.add_0_r.
  - cbn [cursor_of map app replay_rows zip_with visit]. fold (cursor_of rows).
    cbn [length] in Hlen. pose proof (blen_nonneg ev). pose proof (plaintext_total_nonneg evs').
    unfold plaintext_total in Ht. cbn [foldr] in Ht. fold (plaintext_total evs') in Ht.
    run_methods. cbn [get map_err]. rewrite (replay_row_complete total st r ev) by (done || lia).
    cbn [map_err]. unfold map_err_method.
    destruct (callback (entry_of r ev) c) as [c' [[]|e]]; cbn [map_err]; [|done].
    rewrite checked_add_u64_fits by (journal_limits; lia). cbn [ok_or map_err].
    rewrite (IH _ evs'); cbn [replay_sequence replay_previous replay_plaintext entry_of entry_hash];
      [|done|lia..]. cbn [length last_hash].
    destruct (visit _ c') as [c2 [[]|e]]; [|done]. f_equal. f_equal; [lia|].
    unfold plaintext_total. cbn [foldr]. lia.
Qed.

Lemma replay_verified_chain_complete rows evs c :
  linked k jid 1 ZERO_HASH rows evs → (Z.of_nat (length rows) ≤ MAX_JOURNAL_ENTRIES)%Z →
  (plaintext_total evs ≤ MAX_JOURNAL_CIPHERTEXT_BYTES)%Z →
  replay_verified_chain callback (cursor_of rows) k jid
    (mkHead (Z.of_nat (length rows)) (last_hash ZERO_HASH rows)) (plaintext_total evs) c =
  map_err_method ReplayCallback (visit (zip_with entry_of rows evs)) c.
Proof.
  intros Hl Hlen Hmax. unfold replay_verified_chain, map_err_method, mbind, method_bind.
  rewrite <-(app_nil_r (cursor_of rows)), (replay_rows_app _ _ evs)
    by (done || cbn; lia). cbn [replay_sequence replay_previous replay_plaintext].
  destruct (visit _ c) as [c' [[]|e]]; [|done]. cbn [replay_rows]. unfold mret, method_ret.
  unfold lift. cbn [replay_sequence replay_previous replay_plaintext head_sequence head_entry_hash].
  rewrite checked_sub_u64_fits by lia. cbn [ok_or map_err].
  replace (1 + Z.of_nat (length rows) - 1)%Z with (Z.of_nat (length rows)) by lia.
  by rewrite !ne_refl_false.
Qed.

(** A cursor that fails after some rows. *)
Lemma replay_verified_chain_cut rows evs n err c h :
  linked k jid 1 ZERO_HASH rows evs → (Z.of_nat (length rows) ≤ MAX_JOURNAL_ENTRIES)%Z →
  (plaintext_total evs ≤ MAX_JOURNAL_CIPHERTEXT_BYTES)%Z →
  replay_verified_chain callback (cursor_of (take n rows) ++ [Err err]) k jid h
    (plaintext_total evs) c =
  match visit (take n (zip_with entry_of rows evs)) c with
  | (c', Ok _) => (c', Err (ReplayJournal (Database err)))
  | (c', Err e) => (c', Err (ReplayCallback e))
  end.
Proof.
  intros Hl Hlen Hmax. unfold replay_verified_chain, mbind, method_bind.
  rewrite <-(take_drop n rows) in Hl at 1. apply linked_app_inv in Hl as (e1 & e2 & -> & Hl1 & Hl2).
  assert (plaintext_total (e1 ++ e2) = plaintext_total e1 + plaintext_total e2)%Z as Htot.
  { clear. induction e1 as [|e e1 IH]; cbn; [done|]. unfold plaintext_total in *. rewrite IH. lia. }
  pose proof (plaintext_total_nonneg e2). pose proof (length_take rows n).
  rewrite (replay_rows_app _ _ e1) by (done || cbn; lia).
  assert (take n (e1 ++ e2) = e1) as He1.
  { apply linked_length in Hl1. apply linked_length in Hl2. rewrite length_drop in Hl2.
    destruct (decide (n ≤ length rows)); [apply take_app_length'; lia|].
    destruct e2; [|simpl in *; lia]. rewrite app_nil_r. apply firstn_all2. lia. }
  rewrite zip_with_take, He1.
  destruct (visit _ c) as [c' [[]|e]]; [|done]. done.
Qed.

End replay.
