(* ===== verification/JournalBackend.v ===== *)
(** * What the journal calls: SQLite, the secret store, files and entropy

    [rusqlite], the [JournalSecretStore] implementations, the operating system
    and [OsRng] are not part of the crate. Each statement and call the source
    makes is an operation of the class [Backend], over a type [W] of worlds that
    the class leaves abstract. [BackendLaws] states the documented behaviour
    the journal relies on, against an observation [view] of the world: what is
    committed, what the open transaction sees, which key and anchor are stored.
    Every operation may fail at any time, except in a [reliable] world. A failed
    commit or store may or may not have taken effect. *)

From Stdlib.Strings Require Import Byte.
From S2P Require Import Prelude Bytes Crypto JournalChain.

(** ** Paths and files *)

(** A path by its components, as [Path::components] yields them. *)
Record PathBuf := mkPath { absolute : bool; components : list string }.

#[export] Instance PathBuf_eq_dec : EqDecision PathBuf.
Proof. solve_decision. Defined.

(** What the source reads of [fs::Metadata]. *)
Record Metadata := mkMetadata {
  is_symlink : bool;
  is_dir : bool;
  is_file : bool;
  md_len : Z;
}.

(** [io::Error]: whether its kind is [NotFound], and its text. *)
Record IoError := mkIoError { not_found : bool; io_message : string }.

(** ** Database contents *)

(** Rows of [secure_journal_metadata] and [secure_journal_initialization]. *)
Record MetaRow := mkMeta { meta_singleton : Z; meta_version : Z; meta_journal_id : bytes }.
Record InitRow := mkInit {
  init_singleton : Z;
  init_state : Z;
  init_nonce : bytes;
  init_ciphertext : bytes;
}.

(** The content of a database file: [PRAGMA user_version], the type and name of
    the objects in [sqlite_schema], and the rows of the three tables, those of
    [secure_journal_entries] in the order of their primary key. *)
Record Db := mkDb {
  db_version : Z;
  db_schema : list (string * string);
  db_metadata : list MetaRow;
  db_entries : list RawRow;
  db_initialization : list InitRow;
}.

Definition empty_db : Db := mkDb 0 [] [] [] [].

Definition METADATA : string := "secure_journal_metadata".
Definition ENTRIES : string := "secure_journal_entries".
Definition INITIALIZATION : string := "secure_journal_initialization".
Definition UPDATE_GUARD : string := "secure_journal_initialization_no_update".

Definition has (kind name : string) (db : Db) : bool := bool_decide ((kind, name) ∈ db.(db_schema)).
Definition count_objects (p : string * string → bool) (db : Db) : Z :=
  Z.of_nat (length (filter (λ o, p o = true) db.(db_schema))).

(** The result of a query that needs a table. *)
Definition from_table {A} (name : string) (db : Db) (a : option A) : option A :=
  if has "table" name db then a else None.

Definition to_option {E A} (r : result E A) : option A :=
  match r with Ok a => Some a | Err _ => None end.

Definition raw_sequence (raw : RawRow) : Z := default 0%Z (to_option raw.(col_sequence)).

(** [min(x)] and [max(x)] of a column. *)
Definition column_min (l : list Z) : option Z :=
  match l with [] => None | x :: l => Some (fold_left Z.min l x) end.
Definition column_max (l : list Z) : option Z :=
  match l with [] => None | x :: l => Some (fold_left Z.max l x) end.

(** *** Queries *)

(** [name LIKE 'sqlite_%']: case-insensitive, and [_] is any one character. *)
Definition ascii_lower (b : byte) : Z :=
  if is_ascii_uppercase b then (byte_val b + 32)%Z else byte_val b.
Definition like_sqlite (name : string) : bool :=
  (7 <=? len name)%Z
  && (map ascii_lower (take 6 (as_bytes name)) == map byte_val (as_bytes "sqlite")).

Definition ans_object_count (db : Db) : option Z :=
  Some (count_objects (λ o, negb (like_sqlite o.2)) db).
Definition ans_user_version (db : Db) : option Z := Some db.(db_version).
Definition ans_required_tables (db : Db) : option Z :=
  Some (count_objects (λ o, (o.1 == "table"%string) && ((o.2 == METADATA) || (o.2 == ENTRIES))) db).
Definition ans_initialization_tables (db : Db) : option Z :=
  Some (count_objects (λ o, o == ("table"%string, INITIALIZATION)) db).
Definition ans_update_guards (db : Db) : option Z :=
  Some (count_objects (λ o, o == ("trigger"%string, UPDATE_GUARD)) db).
Definition ans_metadata_rows (db : Db) : option Z :=
  from_table METADATA db (Some (Z.of_nat (length db.(db_metadata)))).
Definition meta_row (db : Db) : option MetaRow :=
  from_table METADATA db (find (λ r, r.(meta_singleton) == 1%Z) db.(db_metadata)).
Definition ans_schema_version (db : Db) : option Z := meta_version <$> meta_row db.
Definition ans_journal_id (db : Db) : option (Z * bytes) :=
  (λ r, (blen r.(meta_journal_id), r.(meta_journal_id))) <$> meta_row db.
Definition ans_initialization_rows (db : Db) : option Z :=
  from_table INITIALIZATION db (Some (Z.of_nat (length db.(db_initialization)))).
Definition ans_initialization (db : Db) : option (Z * Z * bytes * Z * bytes) :=
  (λ r, (r.(init_state), blen r.(init_nonce), r.(init_nonce),
         blen r.(init_ciphertext), r.(init_ciphertext)))
  <$> from_table INITIALIZATION db (find (λ r, r.(init_singleton) == 1%Z) db.(db_initialization)).
Definition ans_entries_exist (db : Db) : option Z :=
  from_table ENTRIES db (Some (match db.(db_entries) with [] => 0%Z | _ => 1%Z end)).
Definition ans_stats (db : Db) : option (Z * option Z * option Z) :=
  let seqs := map raw_sequence db.(db_entries) in
  from_table ENTRIES db (Some (Z.of_nat (length seqs), column_min seqs, column_max seqs)).
Definition entry_at (z : Z) (db : Db) : option RawRow :=
  from_table ENTRIES db (find (λ raw, raw_sequence raw == z) db.(db_entries)).
Definition ans_hash_at (z : Z) (db : Db) : option (Z * bytes) :=
  raw ← entry_at z db;
  n ← to_option raw.(col_entry_hash_len);
  h ← to_option raw.(col_entry_hash);
  Some (n, h).
(** The eight columns of the tail query, in the shape of a row. *)
Definition ans_tail_at (z : Z) (db : Db) : option (Z * bytes * (Z * bytes) * (Z * bytes) * (Z * bytes)) :=
  raw ← entry_at z db;
  nl ← to_option raw.(col_nonce_len);
  n ← to_option raw.(col_nonce);
  cl ← to_option raw.(col_ciphertext_len);
  c ← to_option raw.(col_ciphertext);
  pl ← to_option raw.(col_previous_hash_len);
  p ← to_option raw.(col_previous_hash);
  hl ← to_option raw.(col_entry_hash_len);
  h ← to_option raw.(col_entry_hash);
  Some (nl, n, (cl, c), (pl, p), (hl, h)).

(** *** Statements *)

(** Inserts a row in primary-key order. *)
Fixpoint insert_ordered (raw : RawRow) (rows : list RawRow) : list RawRow :=
  match rows with
  | [] => [raw]
  | r :: rows =>
      if (raw_sequence raw <? raw_sequence r)%Z then raw :: r :: rows
      else r :: insert_ordered raw rows
  end.

(** [INSERT INTO secure_journal_entries]: the primary key and the nonce are
    unique and the column checks hold, or the statement fails. *)
Definition do_insert_entry (r : Row) (db : Db) : option (() * Db) :=
  if has "table" ENTRIES db
     && forallb (λ raw, (raw_sequence raw != r.(row_sequence))
                        && (to_option raw.(col_nonce) != Some r.(row_nonce))) db.(db_entries)
     && (length r.(row_nonce) == NONCE_BYTES) && (AEAD_TAG_BYTES <=? blen r.(row_ciphertext))%Z
     && (length r.(row_previous_hash) == HASH_BYTES) && (length r.(row_entry_hash) == HASH_BYTES)
  then Some (tt, mkDb db.(db_version) db.(db_schema) db.(db_metadata)
                   (insert_ordered (raw_of r) db.(db_entries)) db.(db_initialization))
  else None.

(** The three [CREATE TABLE] statements. *)
Definition do_create_tables (db : Db) : option (() * Db) :=
  if has "table" METADATA db || has "table" ENTRIES db || has "table" INITIALIZATION db then None
  else Some (tt, mkDb db.(db_version)
    (db.(db_schema) ++ [("table", METADATA); ("table", ENTRIES); ("table", INITIALIZATION)]%string)
    [] [] []).

Definition do_insert_metadata (version : Z) (journal_id : bytes) (db : Db) : option (() * Db) :=
  if has "table" METADATA db && negb (has "trigger" "secure_journal_metadata_no_insert" db)
     && (db.(db_metadata) == []) && (version == SCHEMA_VERSION)
     && (length journal_id == JOURNAL_ID_BYTES)
  then Some (tt, mkDb db.(db_version) db.(db_schema) [mkMeta 1 version journal_id]
                   db.(db_entries) db.(db_initialization))
  else None.

(** The length of the key-check ciphertext that the table admits. *)
Definition INIT_CIPHERTEXT_BYTES : Z := 52.

Definition do_insert_initialization (nonce ciphertext : bytes) (db : Db) : option (() * Db) :=
  if has "table" INITIALIZATION db
     && negb (has "trigger" "secure_journal_initialization_no_insert" db)
     && (db.(db_initialization) == []) && (length nonce == NONCE_BYTES)
     && (blen ciphertext == INIT_CIPHERTEXT_BYTES)
  then Some (tt, mkDb db.(db_version) db.(db_schema) db.(db_metadata) db.(db_entries)
                   [mkInit 1 INITIALIZATION_PENDING nonce ciphertext])
  else None.

Definition JOURNAL_TRIGGERS : list (string * string) :=
  [("trigger", "secure_journal_entries_no_update"); ("trigger", "secure_journal_entries_no_delete");
   ("trigger", "secure_journal_metadata_no_update"); ("trigger", "secure_journal_metadata_no_delete");
   ("trigger", "secure_journal_metadata_no_insert");
   ("trigger", "secure_journal_initialization_no_delete");
   ("trigger", "secure_journal_initialization_no_insert")]%string.

(** The seven [CREATE TRIGGER] statements and [PRAGMA user_version=3]. *)
Definition do_create_triggers (db : Db) : option (() * Db) :=
  if existsb (λ o, bool_decide (o ∈ db.(db_schema))) JOURNAL_TRIGGERS then None
  else Some (tt, mkDb SCHEMA_VERSION (db.(db_schema) ++ JOURNAL_TRIGGERS) db.(db_metadata)
                   db.(db_entries) db.(db_initialization)).

(** The rows that the two [UPDATE]s select. *)
Definition pending_row (db : Db) (r : InitRow) : bool :=
  (r.(init_singleton) == 1%Z) && (r.(init_state) == 0%Z) && bool_decide (db.(db_entries) = []).

Definition do_update (f : InitRow → InitRow) (db : Db) : option (Z * Db) :=
  let changed := Z.of_nat (length (filter (λ r, pending_row db r = true) db.(db_initialization))) in
  if has "table" INITIALIZATION db && has "table" ENTRIES db
     && ((changed == 0%Z) || negb (has "trigger" UPDATE_GUARD db))
  then Some (changed, mkDb db.(db_version) db.(db_schema) db.(db_metadata) db.(db_entries)
               (map (λ r, if pending_row db r then f r else r) db.(db_initialization)))
  else None.

Definition do_update_key (nonce ciphertext : bytes) : Db → option (Z * Db) :=
  do_update (λ r, mkInit r.(init_singleton) r.(init_state) nonce ciphertext).
Definition do_update_ready : Db → option (Z * Db) :=
  do_update (λ r, mkInit r.(init_singleton) 1 r.(init_nonce) r.(init_ciphertext)).

Definition do_create_update_guard (db : Db) : option (() * Db) :=
  if has "trigger" UPDATE_GUARD db || negb (has "table" INITIALIZATION db) then None
  else Some (tt, mkDb db.(db_version) (db.(db_schema) ++ [("trigger"%string, UPDATE_GUARD)])
                   db.(db_metadata) db.(db_entries) db.(db_initialization)).

(** ** Operations *)

Class Backend (W : Type) : Type := {
  (* rusqlite *)
  connect : PathBuf → method W string ();
  configure : method W string ();
  disconnect : W → W;
  begin_immediate : method W string ();
  commit : method W string ();
  drop_transaction : W → W;
  select_object_count : method W string Z;
  select_user_version : method W string Z;
  select_required_tables : method W string Z;
  select_metadata_rows : method W string Z;
  select_schema_version : method W string Z;
  select_initialization_tables : method W string Z;
  select_journal_id : method W string (Z * bytes);
  select_initialization_rows : method W string Z;
  select_initialization : method W string (Z * Z * bytes * Z * bytes);
  select_update_guards : method W string Z;
  select_entries_exist : method W string Z;
  select_entries : method W string (list (result string RawRow));
  select_stats : method W string (Z * option Z * option Z);
  select_hash_at : Z → method W string (Z * bytes);
  select_tail_at : Z → method W string (Z * bytes * (Z * bytes) * (Z * bytes) * (Z * bytes));
  insert_entry : Row → method W string ();
  create_tables : method W string ();
  insert_metadata : Z → bytes → method W string ();
  insert_initialization : bytes → bytes → method W string ();
  create_triggers : method W string ();
  update_initialization_key : bytes → bytes → method W string Z;
  update_initialization_ready : method W string Z;
  create_update_guard : method W string ();
  (* JournalSecretStore *)
  load_key : method W string (option bytes);
  store_key : bytes → method W string ();
  load_anchor : method W string (option JournalAnchor);
  store_anchor : JournalAnchor → method W string ();
  (* std::fs *)
  symlink_metadata : PathBuf → method W IoError Metadata;
  set_permissions : PathBuf → Z → method W IoError ();
  create_new : PathBuf → Z → method W IoError ();
  (* OsRng *)
  fill_bytes : nat → W → W * bytes;
}.

(** ** Observations and laws *)

(** [DatabasePathState]. *)
Inductive DatabasePathState := Missing | Empty | Existing.

#[export] Instance DatabasePathState_eq_dec : EqDecision DatabasePathState.
Proof. solve_decision. Defined.

(** What is observed of a world: the state of the database file, the committed
    database, the database that an open transaction sees, and the stored key and
    anchor. *)
Record View := mkView {
  file : DatabasePathState;
  durable : Db;
  working : option Db;
  stored_key : option bytes;
  stored_anchor : option JournalAnchor;
}.

(** What a statement sees. *)
Definition visible (v : View) : Db := default v.(durable) v.(working).

Definition set_working (db : option Db) (v : View) : View :=
  mkView v.(file) v.(durable) db v.(stored_key) v.(stored_anchor).
(** A commit writes the file. *)
Definition set_durable (db : Db) (v : View) : View :=
  mkView Existing db None v.(stored_key) v.(stored_anchor).
Definition set_file (f : DatabasePathState) (v : View) : View :=
  mkView f v.(durable) v.(working) v.(stored_key) v.(stored_anchor).
Definition set_key (key : bytes) (v : View) : View :=
  mkView v.(file) v.(durable) v.(working) (Some key) v.(stored_anchor).
Definition set_anchor (a : JournalAnchor) (v : View) : View :=
  mkView v.(file) v.(durable) v.(working) v.(stored_key) (Some a).

Class Observed (W : Type) : Type := {
  view : W → View;
  reliable : W → Prop;
}.

Section specs.
Context {W : Type} `{obs : Observed W}.

(** An operation with a successful effect [Q] on the view and a failure that
    leaves [R]; in a reliable world it fails only where [refusable]. *)
Definition op_spec {E A} (op : method W E A) (Q : A → View → View → Prop)
    (R : View → View → Prop) (refusable : View → Prop) : Prop :=
  ∀ w, wp op (λ a w', Q a (view w) (view w') ∧ (reliable w → reliable w'))
          (λ _ w', R (view w) (view w') ∧ (reliable w → refusable (view w) ∧ reliable w')) w.

Definition unchanged (v v' : View) : Prop := v' = v.

(** A query answers from the visible database and changes nothing. *)
Definition query_spec {A} (op : method W string A) (answer : Db → option A) : Prop :=
  op_spec op (λ a v v', v' = v ∧ answer (visible v) = Some a) unchanged
    (λ v, answer (visible v) = None).

(** A statement inside a transaction changes what the transaction sees, or
    fails and changes nothing. *)
Definition stmt_spec {A} (op : method W string A) (effect : Db → option (A * Db)) : Prop :=
  op_spec op
    (λ a v v', ∃ db', effect (visible v) = Some (a, db') ∧ v' = set_working (Some db') v)
    unchanged (λ v, effect (visible v) = None).

(** A store takes effect when it succeeds, and may or may not when it fails. *)
Definition store_spec (op : method W string ()) (effect : View → View) : Prop :=
  op_spec op (λ _ v v', v' = effect v) (λ v v', v' = v ∨ v' = effect v) (λ _, False).

(** A call that reads or configures something else. *)
Definition silent_spec {E A} (op : method W E A) : Prop :=
  op_spec op (λ _ v v', v' = v) unchanged (λ _, False).

(** The rows a cursor yields: all of them, or some and then an error. *)
Definition cursor_yields (rows : list RawRow) (cursor : list (result string RawRow)) : Prop :=
  cursor = map Ok rows ∨
  ∃ n e, cursor = map Ok (take n rows) ++ [Err e].

End specs.

(** [Path::parent], with [.] for a relative file name, and the side files. *)
Definition parent (path : PathBuf) : option PathBuf :=
  match reverse path.(components) with
  | [] => None
  | _ :: front => Some (mkPath path.(absolute) (reverse front))
  end.

Definition path_is_empty (path : PathBuf) : bool :=
  negb path.(absolute) && (path.(components) == []).

Definition parent_directory (path : PathBuf) : PathBuf :=
  match parent path with
  | Some value => if path_is_empty value then mkPath false ["."%string] else value
  | None => mkPath false ["."%string]
  end.

Definition database_sidecar (path : PathBuf) (suffix : string) : PathBuf :=
  mkPath path.(absolute)
    match reverse path.(components) with
    | [] => [suffix]
    | last :: front => reverse front ++ [last +:+ suffix]
    end.

(** Metadata in the layout of a reliable world: the journal lies in a real
    directory, the journal and its side files are regular files. *)
Definition expected_metadata (path p : PathBuf) (md : Metadata) : Prop :=
  md.(is_symlink) = false ∧
  if p == parent_directory path then md.(is_dir) = true else md.(is_file) = true.

Class BackendLaws (W : Type) `{Backend W, Observed W} (path : PathBuf) : Prop := {
  file_law w : (view w).(file) ≠ Existing → (view w).(durable) = empty_db;
  connect_law : op_spec (connect path) (λ _ v v', v' = v ∧ v.(file) ≠ Missing) unchanged
    (λ v, v.(file) = Missing);
  configure_law : op_spec configure (λ _ v v', v' = v ∨ v' = set_file Existing v)
    (λ v v', v' = v ∨ v' = set_file Existing v) (λ _, False);
  disconnect_law w :
    view (disconnect w) = set_working None (view w) ∧ (reliable w → reliable (disconnect w));
  begin_law : op_spec begin_immediate
    (λ _ v v', v.(working) = None ∧ v' = set_working (Some v.(durable)) v) unchanged
    (λ v, is_Some v.(working));
  commit_law : op_spec commit
    (λ _ v v', v' = set_durable (visible v) v)
    (λ v v', v' = set_working None v ∨ v' = set_durable (visible v) v) (λ _, False);
  drop_transaction_law w :
    view (drop_transaction w) = set_working None (view w) ∧
    (reliable w → reliable (drop_transaction w));
  object_count_law : query_spec select_object_count ans_object_count;
  user_version_law : query_spec select_user_version ans_user_version;
  required_tables_law : query_spec select_required_tables ans_required_tables;
  metadata_rows_law : query_spec select_metadata_rows ans_metadata_rows;
  schema_version_law : query_spec select_schema_version ans_schema_version;
  initialization_tables_law : query_spec select_initialization_tables ans_initialization_tables;
  journal_id_law : query_spec select_journal_id ans_journal_id;
  initialization_rows_law : query_spec select_initialization_rows ans_initialization_rows;
  initialization_law : query_spec select_initialization ans_initialization;
  update_guards_law : query_spec select_update_guards ans_update_guards;
  entries_exist_law : query_spec select_entries_exist ans_entries_exist;
  stats_law : query_spec select_stats ans_stats;
  hash_at_law z : query_spec (select_hash_at z) (ans_hash_at z);
  tail_at_law z : query_spec (select_tail_at z) (ans_tail_at z);
  entries_law : ∀ w,
    wp select_entries
      (λ cursor w', view w' = view w ∧ has "table" ENTRIES (visible (view w)) = true ∧
         cursor_yields (visible (view w)).(db_entries) cursor ∧
         (reliable w → cursor = map Ok (visible (view w)).(db_entries) ∧ reliable w'))
      (λ _ w', view w' = view w ∧
         (reliable w → has "table" ENTRIES (visible (view w)) = false ∧ reliable w')) w;
  insert_entry_law r : stmt_spec (insert_entry r) (do_insert_entry r);
  create_tables_law : stmt_spec create_tables do_create_tables;
  insert_metadata_law v i : stmt_spec (insert_metadata v i) (do_insert_metadata v i);
  insert_initialization_law n c :
    stmt_spec (insert_initialization n c) (do_insert_initialization n c);
  create_triggers_law : stmt_spec create_triggers do_create_triggers;
  update_key_law n c : stmt_spec (update_initialization_key n c) (do_update_key n c);
  update_ready_law : stmt_spec update_initialization_ready do_update_ready;
  create_update_guard_law : stmt_spec create_update_guard do_create_update_guard;
  load_key_law : op_spec load_key (λ k v v', v' = v ∧ k = v.(stored_key)) unchanged (λ _, False);
  store_key_law k : store_spec (store_key k) (set_key k);
  load_anchor_law :
    op_spec load_anchor (λ a v v', v' = v ∧ a = v.(stored_anchor)) unchanged (λ _, False);
  store_anchor_law a : store_spec (store_anchor a) (set_anchor a);
  metadata_law p : ∀ w,
    wp (symlink_metadata p)
      (λ md w', view w' = view w ∧
         (p = path → (view w).(file) = if md.(md_len) == 0%Z then Empty else Existing) ∧
         (reliable w → reliable w' ∧ expected_metadata path p md ∧
            (p = database_sidecar path "-wal" ∨ p = database_sidecar path "-shm" →
             (view w).(file) = Existing)))
      (λ e w', view w' = view w ∧
         (p = path → e.(not_found) = true → (view w).(file) = Missing) ∧
         (reliable w → reliable w' ∧ e.(not_found) = true ∧ p ≠ parent_directory path ∧
            (p = path → (view w).(file) = Missing))) w;
  set_permissions_law p m : silent_spec (set_permissions p m);
  create_new_law m :
    op_spec (create_new path m) (λ _ v v', v.(file) = Missing ∧ v' = set_file Empty v)
      (λ v v', v' = v ∨ (v.(file) = Missing ∧ v' = set_file Empty v)) (λ v, v.(file) ≠ Missing);
  fill_bytes_law n w :
    view (fill_bytes n w).1 = view w ∧ length (fill_bytes n w).2 = n ∧
    (reliable w → reliable (fill_bytes n w).1);
}.
