(* ===== verification/Journal.v ===== *)
(** * The secure journal (crates/storage/src/lib.rs, [SecureJournal])

    The path checks, the transaction discipline and the methods of an open
    journal: [head], [verify], [append], [append_expected], [first_entry],
    [entries], [replay] and [fold]. *)

From Stdlib.Strings Require Import Byte.
From S2P Require Import Prelude Bytes Crypto JournalChain JournalBackend.

(** ** Errors of the calls *)

Section calls.
Context {W : Type}.

(** [?] on a [rusqlite] result, on a [SecretStoreError] and on an [io::Error]. *)
Definition db {A} (m : method W string A) : method W JournalError A := map_err_method Database m.
Definition secret {A} (m : method W string A) : method W JournalError A :=
  map_err_method SecretStore m.
Definition database_io_error (e : IoError) : JournalError := Database e.(io_message).

End calls.

(** ** Paths *)

Section files.
Context {W : Type} `{backend : Backend W}.

Definition reject_link_like (md : Metadata) : result JournalError () :=
  reject md.(is_symlink) with SymlinkRejected; Ok tt.

Definition validate_parent_directory (path : PathBuf) : method W JournalError () :=
  md ← map_err_method database_io_error (symlink_metadata (parent_directory path));
  lift (reject_link_like md);;
  fail_if (negb md.(is_dir)) InvalidPath.

(** One iteration of the loop over the side files. *)
Definition inspect_sidecar (state : DatabasePathState) (sidecar : PathBuf) :
    method W JournalError () :=
  r ← attempt (symlink_metadata sidecar);
  match r with
  | Ok md =>
      lift (reject_link_like md);;
      fail_if (negb md.(is_file) || (state != Existing)) InvalidPath
  | Err e => fail_if (negb e.(not_found)) (database_io_error e)
  end.

Definition inspect_database_path (path : PathBuf) : method W JournalError DatabasePathState :=
  fail_if (path_is_empty path || (path == mkPath false [":memory:"%string])) InvalidPath;;
  validate_parent_directory path;;
  r ← attempt (symlink_metadata path);
  state ← match r with
          | Ok md =>
              lift (reject_link_like md);;
              fail_if (negb md.(is_file)) InvalidPath;;
              mret (if md.(md_len) == 0%Z then Empty else Existing)
          | Err e => if e.(not_found) then mret Missing else throw (database_io_error e)
          end;
  inspect_sidecar state (database_sidecar path "-wal");;
  inspect_sidecar state (database_sidecar path "-shm");;
  mret state.

Definition create_database_file (path : PathBuf) : method W JournalError () :=
  map_err_method database_io_error (create_new path 384).

(** One iteration of the loop of [harden_database_files]; 0o600 is 384. *)
Definition harden_file (candidate : PathBuf) (required : bool) : method W JournalError () :=
  r ← attempt (symlink_metadata candidate);
  match r with
  | Ok md =>
      lift (reject_link_like md);;
      fail_if (negb md.(is_file)) InvalidPath;;
      map_err_method database_io_error (set_permissions candidate 384)
  | Err e => fail_if (negb (e.(not_found) && negb required)) (database_io_error e)
  end.

Definition harden_database_files (path : PathBuf) : method W JournalError () :=
  validate_parent_directory path;;
  harden_file path true;;
  harden_file (database_sidecar path "-wal") false;;
  harden_file (database_sidecar path "-shm") false.

(** ** Transactions *)

(** The body runs with a live [Transaction] value. Returning with an error drops
    it, which rolls back what was not committed. *)
Definition with_transaction {S E A} (get : S → W) (set : W → S → S) (into : string → E)
    (body : method S E A) : method S E A :=
  on_field get set (map_err_method into begin_immediate);;
  on_error (λ s, set (drop_transaction (get s)) s) body.

Definition load_required_anchor : method W JournalError JournalAnchor :=
  anchor ← secret load_anchor;
  lift (ok_or anchor MissingAnchor).

Definition load_journal_id : method W JournalError bytes :=
  '(length, journal_id) ← db select_journal_id;
  fail_if (length != Z.of_nat JOURNAL_ID_BYTES) UnsupportedFormat;;
  lift (try_into JOURNAL_ID_BYTES journal_id UnsupportedFormat).

End files.

(** ** The expected head *)

Section expected_head.
Context {W : Type} `{backend : Backend W} `{sha : Sha256} `{aead : Aead}.

(** [i64::try_from] of a [u64]. *)
Definition i64_try_from_u64 (z : Z) : option Z := if (z <=? I64_MAX)%Z then Some z else None.

(** The head that the counting queries describe, the [match] of
    [validate_expected_head]. *)
Definition actual_head (journal_id : bytes) (count : Z) (minimum_raw maximum_raw : option Z) :
    method W JournalError JournalAnchor :=
  match minimum_raw, maximum_raw with
  | None, None =>
      if count == 0%Z then mret (initial_anchor journal_id) else throw CorruptChain
  | Some minimum_raw, Some maximum_raw =>
      minimum ← lift (ok_or (u64_try_from_i64 minimum_raw) CorruptChain);
      maximum ← lift (ok_or (u64_try_from_i64 maximum_raw) CorruptChain);
      fail_if ((minimum != 1%Z) || (maximum != count) || (MAX_JOURNAL_ENTRIES <? maximum)%Z)
        CorruptChain;;
      '(hash_length, entry_hash) ← db (select_hash_at maximum_raw);
      fail_if (hash_length != Z.of_nat HASH_BYTES) CorruptChain;;
      entry_hash ← lift (try_into HASH_BYTES entry_hash CorruptChain);
      mret (mkAnchor journal_id maximum entry_hash)
  | _, _ => throw CorruptChain
  end.

Definition validate_expected_head (cipher journal_id : bytes) (expected : JournalAnchor) :
    method W JournalError () :=
  fail_if (expected.(anchor_journal_id) != journal_id) RollbackDetected;;
  id ← load_journal_id;
  fail_if (id != journal_id) RollbackDetected;;
  '(count_raw, minimum_raw, maximum_raw) ← db select_stats;
  count ← lift (ok_or (u64_try_from_i64 count_raw) CorruptChain);
  fail_if (MAX_JOURNAL_ENTRIES <? count)%Z JournalTooLarge;;
  actual ← actual_head journal_id count minimum_raw maximum_raw;
  fail_if ((actual != expected)
           && (actual.(anchor_sequence) <=? expected.(anchor_sequence))%Z) RollbackDetected;;
  fail_if (actual != expected) (UnexpectedHead expected actual);;
  if expected.(anchor_sequence) == 0%Z then
    fail_if (expected.(anchor_entry_hash) != ZERO_HASH) RollbackDetected
  else
    sequence ← lift (ok_or (i64_try_from_u64 expected.(anchor_sequence)) CorruptChain);
    '(nonce_length, nonce, (ciphertext_length, ciphertext),
      (previous_hash_length, previous_hash), (entry_hash_length, entry_hash))
      ← db (select_tail_at sequence);
    max_ciphertext ←
      lift (ok_or (checked_add_u64 MAX_EVENT_BYTES AEAD_TAG_BYTES) JournalTooLarge);
    fail_if ((nonce_length != Z.of_nat NONCE_BYTES)
             || (ciphertext_length <? AEAD_TAG_BYTES)%Z
             || (max_ciphertext <? ciphertext_length)%Z
             || (previous_hash_length != Z.of_nat HASH_BYTES)
             || (entry_hash_length != Z.of_nat HASH_BYTES)) CorruptChain;;
    nonce ← lift (try_into NONCE_BYTES nonce CorruptChain);
    previous_hash ← lift (try_into HASH_BYTES previous_hash CorruptChain);
    entry_hash ← lift (try_into HASH_BYTES entry_hash CorruptChain);
    fail_if ((entry_hash != expected.(anchor_entry_hash))
             || (entry_hash != hash_entry journal_id expected.(anchor_sequence) previous_hash
                                 nonce ciphertext)) CorruptChain;;
    let aad := associated_data journal_id expected.(anchor_sequence) previous_hash in
    plaintext ← lift (ok_or (aead_decrypt cipher nonce aad ciphertext) AuthenticationFailed);
    fail_if (MAX_EVENT_BYTES <? blen plaintext)%Z CorruptChain.

End expected_head.

(** ** The journal object *)

(** [SecureJournal]; [world] stands for its connection and its secret store. *)
Record SecureJournal (W : Type) := mkJournal {
  world : W;
  cipher : bytes;
  journal_id : bytes;
  journal_path : PathBuf;
  trusted_head : JournalAnchor;
  verified_ciphertext_bytes : Z;
  healthy : bool;
}.
Arguments mkJournal {W}.
Arguments world {W}.
Arguments cipher {W}.
Arguments journal_id {W}.
Arguments journal_path {W}.
Arguments trusted_head {W}.
Arguments verified_ciphertext_bytes {W}.
Arguments healthy {W}.

Section journal.
Context {W : Type} `{backend : Backend W} `{sha : Sha256} `{aead : Aead}.

Abbreviation journal := (SecureJournal W).

Definition set_world (w : W) (j : journal) : journal :=
  mkJournal w j.(cipher) j.(journal_id) j.(journal_path) j.(trusted_head)
    j.(verified_ciphertext_bytes) j.(healthy).
Definition poison (j : journal) : journal :=
  mkJournal j.(world) j.(cipher) j.(journal_id) j.(journal_path) j.(trusted_head)
    j.(verified_ciphertext_bytes) false.
Definition set_verified (head : JournalAnchor) (n : Z) (j : journal) : journal :=
  mkJournal j.(world) j.(cipher) j.(journal_id) j.(journal_path) head n j.(healthy).

(** A call on the connection or on the secret store of the journal. *)
Definition on_world {A} (m : method W JournalError A) : method journal JournalError A :=
  on_field world set_world m.

Definition in_transaction {A} (body : method journal JournalError A) :
    method journal JournalError A := with_transaction world set_world Database body.

Definition ensure_hardened : method journal JournalError () :=
  self ← get_self;
  on_error poison (on_world (harden_database_files self.(journal_path))).

(** Reads the chain of the open transaction and checks the anchor: the part that
    [head], [first_entry], [entries] and [replay] share. *)
Definition scan_and_validate (mode : ScanMode) (limits : option JournalReplayLimits) :
    method journal JournalError (ChainScan * bool) :=
  self ← get_self;
  anchor ← on_world load_required_anchor;
  rows ← on_world (db select_entries);
  scan ← lift (scan_chain rows self.(cipher) self.(journal_id) anchor.(anchor_sequence) mode limits);
  anchor_lags ← lift (validate_anchor anchor scan self.(journal_id));
  mret (scan, anchor_lags).

Definition anchor_of_head (journal_id : bytes) (head : ChainHead) : JournalAnchor :=
  mkAnchor journal_id head.(head_sequence) head.(head_entry_hash).

(** Advances a lagging anchor; a failed store poisons the journal. *)
Definition recover_anchor (anchor_lags : bool) (recovered : JournalAnchor) :
    method journal JournalError () :=
  if anchor_lags then on_error poison (on_world (secret (store_anchor recovered))) else mret tt.

(** The verification that [head], [first_entry] and [entries] perform. *)
Definition verified_scan (mode : ScanMode) : method journal JournalError ChainScan :=
  self ← get_self;
  fail_if (negb self.(healthy)) Poisoned;;
  ensure_hardened;;
  in_transaction (
    '(scan, anchor_lags) ← scan_and_validate mode None;
    let verified_head := anchor_of_head self.(journal_id) scan.(scan_head) in
    recover_anchor anchor_lags verified_head;;
    on_world (db commit);;
    modify_self (set_verified verified_head scan.(scan_ciphertext_bytes));;
    mret scan).

Definition head : method journal JournalError JournalAnchor :=
  self ← get_self;
  scan ← verified_scan ScanNone;
  mret (anchor_of_head self.(journal_id) scan.(scan_head)).

Definition verify : method journal JournalError () := head;; mret tt.

Definition first_entry : method journal JournalError (option JournalEntry) :=
  scan ← verified_scan ScanFirst;
  mret (last scan.(scan_entries)).

Definition entries : method journal JournalError (list JournalEntry) :=
  scan ← verified_scan ScanAllBounded;
  mret scan.(scan_entries).

(** [OsRng.fill_bytes]. *)
Definition random_bytes (n : nat) : method W JournalError bytes := λ w,
  let '(w, b) := fill_bytes n w in (w, Ok b).

(** The end of [append_expected]: commit, harden, then advance the anchor. *)
Definition commit_append (new_anchor : JournalAnchor) (new_ciphertext_bytes : Z) :
    method journal JournalError () :=
  self ← get_self;
  on_error poison (on_world (db commit));;
  on_error poison (on_world (harden_database_files self.(journal_path)));;
  on_error poison (on_world (secret (store_anchor new_anchor)));;
  modify_self (set_verified new_anchor new_ciphertext_bytes).

(** What [append_expected] does inside its transaction; [self] is the object when
    the transaction starts. *)
Definition append_body (self : journal) (expected : JournalAnchor) (event : bytes) :
    method journal JournalError JournalEntry :=
  anchor ← on_world load_required_anchor;
  fail_if (anchor.(anchor_journal_id) != self.(journal_id)) RollbackDetected;;
  fail_if (anchor != expected) (UnexpectedHead expected anchor);;
  on_world (validate_expected_head self.(cipher) self.(journal_id) expected);;
  sequence ← lift (ok_or (checked_add_u64 expected.(anchor_sequence) 1) SequenceOverflow);
  fail_if (MAX_JOURNAL_ENTRIES <? sequence)%Z JournalTooLarge;;
  nonce ← on_world (random_bytes NONCE_BYTES);
  let aad := associated_data self.(journal_id) sequence expected.(anchor_entry_hash) in
  ciphertext ← lift (ok_or (aead_encrypt self.(cipher) nonce aad event) EncryptionFailed);
  new_ciphertext_bytes ←
    lift (ok_or (checked_add_u64 self.(verified_ciphertext_bytes) (blen ciphertext))
            JournalTooLarge);
  fail_if (MAX_JOURNAL_CIPHERTEXT_BYTES <? new_ciphertext_bytes)%Z JournalTooLarge;;
  let entry_hash := hash_entry self.(journal_id) sequence expected.(anchor_entry_hash)
                      nonce ciphertext in
  on_world (db (insert_entry (mkRow sequence nonce ciphertext
                                expected.(anchor_entry_hash) entry_hash)));;
  let new_anchor := mkAnchor self.(journal_id) sequence entry_hash in
  commit_append new_anchor new_ciphertext_bytes;;
  mret (mkEntry sequence event expected.(anchor_entry_hash) entry_hash).

Definition append_expected (expected : JournalAnchor) (event : bytes) :
    method journal JournalError JournalEntry :=
  self ← get_self;
  fail_if (negb self.(healthy)) Poisoned;;
  fail_if (MAX_EVENT_BYTES <? blen event)%Z EventTooLarge;;
  ensure_hardened;;
  fail_if (expected != self.(trusted_head)) (UnexpectedHead expected self.(trusted_head));;
  in_transaction (append_body self expected event).

Definition append (event : bytes) : method journal JournalError JournalEntry :=
  expected ← head;
  append_expected expected event.

(** ** Replay *)

(** [JournalReplaySummary]. *)
Record JournalReplaySummary := mkSummary {
  summary_head : JournalAnchor;
  summary_entries : Z;
  summary_plaintext_bytes : Z;
}.

Section replay.
Context {C CallbackError : Type} (callback : JournalEntry → method C CallbackError ()).

Abbreviation state := (journal * C)%type.
Abbreviation error := (JournalReplayError CallbackError).

(** [?] on a journal call, which converts its error. *)
Definition on_journal {A} (m : method journal JournalError A) : method state error A :=
  on_field fst (λ j s, (j, s.2)) (map_err_method ReplayJournal m).

Definition on_callback {A} (m : method C error A) : method state error A :=
  on_field snd (λ c s, (s.1, c)) m.

(** What [replay] does inside its transaction: the scan, the limits, the second
    pass with the callback, the anchor and the commit. *)
Definition replay_body (self : journal) (limits : JournalReplayLimits) :
    method state error JournalReplaySummary :=
  '(scan, anchor_lags) ← on_journal (scan_and_validate ScanNone (Some limits));
  fail_if ((limits.(max_sequence) <? scan.(scan_head).(head_sequence))%Z
           || (limits.(max_plaintext_bytes) <? scan.(scan_plaintext_bytes))%Z)
    (ReplayJournal ReadLimitExceeded);;
  rows ← on_journal (on_world (db select_entries));
  on_callback (replay_verified_chain callback rows self.(cipher) self.(journal_id)
                 scan.(scan_head) scan.(scan_plaintext_bytes));;
  let verified_head := anchor_of_head self.(journal_id) scan.(scan_head) in
  on_journal (recover_anchor anchor_lags verified_head);;
  on_journal (on_world (db commit));;
  on_journal (modify_self (set_verified verified_head scan.(scan_ciphertext_bytes)));;
  mret (mkSummary verified_head scan.(scan_head).(head_sequence) scan.(scan_plaintext_bytes)).

Definition replay (limits : JournalReplayLimits) : method state error JournalReplaySummary :=
  '(self, _) ← get_self;
  fail_if (negb self.(healthy)) (ReplayJournal Poisoned);;
  fail_if ((MAX_JOURNAL_ENTRIES <? limits.(max_sequence))%Z
           || (MAX_REPLAY_PLAINTEXT_BYTES <? limits.(max_plaintext_bytes))%Z)
    (ReplayJournal ReadLimitExceeded);;
  on_journal ensure_hardened;;
  with_transaction (λ s, s.1.(world)) (λ w s, (set_world w s.1, s.2))
    (λ e, ReplayJournal (Database e)) (replay_body self limits).

End replay.

(** [fold]: the callback owns the accumulator, which is dropped on failure. *)
Definition fold {Acc CallbackError} (limits : JournalReplayLimits) (accumulator : Acc)
    (callback : JournalEntry → method Acc CallbackError ()) :
    method journal (JournalReplayError CallbackError) (Acc * JournalReplaySummary) := λ j,
  let '((j, accumulator), r) := replay callback limits (j, accumulator) in
  (j, match r with Ok summary => Ok (accumulator, summary) | Err e => Err e end).

End journal.
