(* ===== verification/JournalInit.v ===== *)
(** * Opening a journal (crates/storage/src/lib.rs, [SecureJournal::open])

    Creation of a new journal, recovery of an interrupted creation, and the
    checks on an existing one. A new journal is created in four durable steps:
    the database with a pending record, the key, the anchor, and the ready
    marker. *)

From Stdlib.Strings Require Import Byte.
From S2P Require Import Prelude Bytes Crypto JournalChain JournalBackend Journal.

(** ** Schema and initialization record *)

Inductive SchemaKind := Legacy | Recoverable.

#[export] Instance SchemaKind_eq_dec : EqDecision SchemaKind.
Proof. solve_decision. Defined.

Record InitializationRecord := mkInitialization {
  state : Z;
  nonce : bytes;
  ciphertext : bytes;
}.

Section init.
Context {W : Type} `{backend : Backend W} `{sha : Sha256} `{aead : Aead}.

Definition database_is_pristine : method W JournalError bool :=
  object_count ← db select_object_count;
  user_version ← db select_user_version;
  mret ((object_count == 0%Z) && (user_version == 0%Z)).

Definition journal_has_entries : method W JournalError bool :=
  exists_ ← db select_entries_exist;
  mret (exists_ != 0%Z).

Definition validate_schema : method W JournalError SchemaKind :=
  required_tables ← db select_required_tables;
  user_version ← db select_user_version;
  fail_if ((required_tables != 2%Z)
           || negb ((user_version == LEGACY_SCHEMA_VERSION) || (user_version == SCHEMA_VERSION)))
    UnsupportedFormat;;
  metadata_rows ← db select_metadata_rows;
  schema_version ← db select_schema_version;
  fail_if ((metadata_rows != 1%Z) || (schema_version != user_version)) UnsupportedFormat;;
  if schema_version == LEGACY_SCHEMA_VERSION then mret Legacy
  else
    fail_if (schema_version != SCHEMA_VERSION) UnsupportedFormat;;
    initialization_tables ← db select_initialization_tables;
    fail_if (initialization_tables != 1%Z) UnsupportedFormat;;
    mret Recoverable.

Definition load_initialization_record : method W JournalError InitializationRecord :=
  rows ← db select_initialization_rows;
  fail_if (rows != 1%Z) UnsupportedFormat;;
  '(state, nonce_length, nonce, ciphertext_length, ciphertext) ← db select_initialization;
  expected_ciphertext_length ←
    lift (ok_or (checked_add_u64 (blen INITIALIZATION_PLAINTEXT) AEAD_TAG_BYTES)
            UnsupportedFormat);
  fail_if (negb ((state == INITIALIZATION_PENDING) || (state == INITIALIZATION_READY))
           || (nonce_length != Z.of_nat NONCE_BYTES)
           || (ciphertext_length != expected_ciphertext_length)) UnsupportedFormat;;
  update_guards ← db select_update_guards;
  fail_if ((state == INITIALIZATION_PENDING) && (update_guards != 0%Z)
           || (state == INITIALIZATION_READY) && (update_guards != 1%Z)) UnsupportedFormat;;
  nonce ← lift (try_into NONCE_BYTES nonce UnsupportedFormat);
  mret (mkInitialization state nonce ciphertext).

Definition initialization_associated_data (journal_id : bytes) : bytes :=
  INITIALIZATION_AAD_DOMAIN ++ journal_id.

(** [JournalKey::generate]. *)
Definition generate : method W JournalError bytes := random_bytes JOURNAL_KEY_BYTES.

Definition create_initialization_record (key journal_id : bytes) :
    method W JournalError InitializationRecord :=
  cipher ← lift (cipher_from_key key);
  nonce ← random_bytes NONCE_BYTES;
  nonce_ref ← lift (try_into NONCE_BYTES nonce EncryptionFailed);
  let aad := initialization_associated_data journal_id in
  ciphertext ←
    lift (ok_or (aead_encrypt cipher nonce_ref aad INITIALIZATION_PLAINTEXT) EncryptionFailed);
  mret (mkInitialization INITIALIZATION_PENDING nonce ciphertext).

Definition verify_initialization_key (key journal_id : bytes)
    (initialization : InitializationRecord) : result JournalError () :=
  cipher ← cipher_from_key key;
  nonce_ref ← try_into NONCE_BYTES initialization.(nonce) UnsupportedFormat;
  let aad := initialization_associated_data journal_id in
  plaintext ← ok_or (aead_decrypt cipher nonce_ref aad initialization.(ciphertext))
                AuthenticationFailed;
  reject (plaintext != INITIALIZATION_PLAINTEXT) with AuthenticationFailed;
  Ok tt.

(** One SQL transaction over three calls, without a [Transaction] value: after an
    error it stays open until the connection is dropped. *)
Definition initialize_schema (journal_id : bytes) (initialization : InitializationRecord) :
    method W JournalError () :=
  db begin_immediate;;
  db create_tables;;
  db (insert_metadata SCHEMA_VERSION journal_id);;
  db (insert_initialization initialization.(nonce) initialization.(ciphertext));;
  db create_triggers;;
  db commit.

(** A transaction of a function that holds the connection itself. *)
Definition transaction {A} (body : method W JournalError A) : method W JournalError A :=
  with_transaction id (λ w _, w) Database body.

Definition finalize_pending_initialization (journal_id : bytes) : method W JournalError () :=
  transaction (
    schema ← validate_schema;
    fail_if (schema != Recoverable) SecretStateConflict;;
    id ← load_journal_id;
    fail_if (id != journal_id) SecretStateConflict;;
    has_entries ← journal_has_entries;
    fail_if has_entries SecretStateConflict;;
    initialization ← load_initialization_record;
    if initialization.(state) == INITIALIZATION_READY then db commit
    else
      fail_if (initialization.(state) != INITIALIZATION_PENDING) UnsupportedFormat;;
      changed ← db update_initialization_ready;
      fail_if (changed != 1%Z) SecretStateConflict;;
      db create_update_guard;;
      db commit).

(** ** The journal object *)

(** The literal that all three ways of opening end in. *)
Definition opened (key journal_id : bytes) (path : PathBuf) (w : W) : SecureJournal W :=
  mkJournal w key journal_id path (initial_anchor journal_id) 0 true.

(** [journal.verify()?; Ok(journal)]. *)
Definition verify_opened (key journal_id : bytes) (path : PathBuf) :
    method W JournalError (SecureJournal W) := λ w,
  let '(journal, r) := verify (opened key journal_id path w) in
  (journal.(world), match r with Ok _ => Ok journal | Err e => Err e end).

Definition initialize_new_journal (path : PathBuf) : method W JournalError (SecureJournal W) :=
  pristine ← database_is_pristine;
  fail_if (negb pristine) UnsupportedFormat;;
  journal_id ← random_bytes JOURNAL_ID_BYTES;
  key ← generate;
  cipher ← lift (cipher_from_key key);
  initialization ← create_initialization_record key journal_id;
  initialize_schema journal_id initialization;;
  harden_database_files path;;
  secret (store_key key);;
  secret (store_anchor (initial_anchor journal_id));;
  finalize_pending_initialization journal_id;;
  harden_database_files path;;
  w ← get_self;
  mret (opened cipher journal_id path w).

(** The [match] on the stored secrets in [recover_pending_initialization], inside
    its transaction. *)
Definition recover_secrets (journal_id : bytes) (initialization : InitializationRecord) :
    method W JournalError () :=
  key ← secret load_key;
  anchor ← secret load_anchor;
  match key, anchor with
  | None, None =>
      key ← generate;
      replacement ← create_initialization_record key journal_id;
      changed ← db (update_initialization_key replacement.(nonce) replacement.(ciphertext));
      fail_if (changed != 1%Z) SecretStateConflict;;
      db commit;;
      secret (store_key key);;
      secret (store_anchor (initial_anchor journal_id))
  | Some key, None =>
      lift (verify_initialization_key key journal_id initialization);;
      db commit;;
      secret (store_anchor (initial_anchor journal_id))
  | Some key, Some anchor =>
      lift (verify_initialization_key key journal_id initialization);;
      fail_if (anchor != initial_anchor journal_id) RollbackDetected;;
      db commit
  | None, Some _ => throw SecretStateConflict
  end.

Definition recover_pending_initialization (path : PathBuf) (journal_id : bytes) :
    method W JournalError (SecureJournal W) :=
  transaction (
    schema ← validate_schema;
    fail_if (schema != Recoverable) UnsupportedFormat;;
    id ← load_journal_id;
    fail_if (id != journal_id) UnsupportedFormat;;
    initialization ← load_initialization_record;
    if initialization.(state) == INITIALIZATION_PENDING then
      has_entries ← journal_has_entries;
      fail_if has_entries SecretStateConflict;;
      recover_secrets journal_id initialization
    else if initialization.(state) == INITIALIZATION_READY then db commit
    else throw UnsupportedFormat);;
  finalize_pending_initialization journal_id;;
  initialization ← load_initialization_record;
  key ← secret load_key;
  key ← lift (ok_or key MissingKey);
  lift (verify_initialization_key key journal_id initialization);;
  anchor ← secret load_anchor;
  fail_if (anchor == None) MissingAnchor;;
  cipher ← lift (cipher_from_key key);
  harden_database_files path;;
  verify_opened cipher journal_id path.

(** The last part of [open]: the secrets of an initialized journal must both be
    present. [initialization] is the ready record, absent in a legacy database. *)
Definition open_existing (path : PathBuf) (journal_id : bytes)
    (initialization : option InitializationRecord) : method W JournalError (SecureJournal W) :=
  key ← secret load_key;
  anchor ← secret load_anchor;
  key ← lift (ok_or key MissingKey);
  match initialization with
  | Some initialization => lift (verify_initialization_key key journal_id initialization)
  | None => mret tt
  end;;
  cipher ← lift (cipher_from_key key);
  fail_if (anchor == None) MissingAnchor;;
  verify_opened cipher journal_id path.

(** No secret may exist before the database does. *)
Definition require_no_secrets : method W JournalError () :=
  key ← secret load_key;
  anchor ← secret load_anchor;
  fail_if ((key != None) || (anchor != None)) SecretStateConflict.

(** A database that is not pristine: the schema decides how it is opened. *)
Definition open_initialized (path : PathBuf) : method W JournalError (SecureJournal W) :=
  schema ← validate_schema;
  journal_id ← load_journal_id;
  if schema == Recoverable then
    initialization ← load_initialization_record;
    if initialization.(state) == INITIALIZATION_PENDING then
      recover_pending_initialization path journal_id
    else
      fail_if (initialization.(state) != INITIALIZATION_READY) UnsupportedFormat;;
      open_existing path journal_id (Some initialization)
  else open_existing path journal_id None.

(** [open] once the connection is configured and the files are hardened. *)
Definition open_database (path : PathBuf) (path_state : DatabasePathState) :
    method W JournalError (SecureJournal W) :=
  pristine ← (if path_state != Existing then mret true else database_is_pristine);
  if (pristine : bool) then
    require_no_secrets;;
    initialize_new_journal path
  else open_initialized path.

(** [SecureJournal::open]. An error drops the connection. *)
Definition open (path : PathBuf) : method W JournalError (SecureJournal W) :=
  path_state ← inspect_database_path path;
  (if path_state != Existing then
     require_no_secrets;;
     if path_state == Missing then create_database_file path else mret tt
   else mret tt);;
  db (connect path);;
  on_error disconnect (
    db configure;;
    harden_database_files path;;
    open_database path path_state).

End init.
