(* ===== verification/JournalSpecs.v ===== *)
(** * Specifications of the journal's building blocks

    For the path checks, the expected-head check and the scan: what they leave
    unchanged, what their success implies, and that they fail only for a reason
    in a run without faults. *)

From Stdlib.Strings Require Import Byte.
From S2P Require Import Prelude Bytes Crypto JournalChain JournalChainProperties JournalBackend Journal.

(** ** Calls that change nothing

    [L] says that the run is free of faults. With [L := False] the rules give
    what holds under any faults, with [L := True] what a reliable world gives. *)

Section quiet.
Context {W : Type} `{backend : Backend W} `{obs : Observed W} (L : Prop).

(** A call that leaves the view alone, returns [Q], and fails without faults only
    where [allowed]. *)
Definition quiet {E A} (m : method W E A) (w : W) (Q : A → Prop) (allowed : E → Prop) : Prop :=
  (L → reliable w) →
  wp m (λ a w', view w' = view w ∧ (L → reliable w') ∧ Q a)
       (λ e w', view w' = view w ∧ (L → reliable w' ∧ allowed e)) w.

Lemma quiet_bind {E A B} (m : method W E A) (f : A → method W E B) w P Q allowed :
  quiet m w P allowed →
  (∀ a w', P a → view w' = view w → quiet (f a) w' Q allowed) →
  quiet (m ≫= f) w Q allowed.
Proof.
  intros Hm Hf Hw. apply wp_bind. eapply wp_mono; [by apply Hm|..]; [|auto].
  intros a w' (Hv & Hr & Ha). rewrite <-Hv. by apply Hf.
Qed.

Lemma quiet_mono {E A} (m : method W E A) w (P Q : A → Prop) (al al' : E → Prop) :
  quiet m w P al → (∀ a, P a → Q a) → (∀ e, al e → al' e) → quiet m w Q al'.
Proof. intros Hm HPQ Hal Hw. eapply wp_mono; [by apply Hm|naive_solver..]. Qed.

Lemma quiet_ret {E A} (a : A) w (Q : A → Prop) (allowed : E → Prop) :
  Q a → quiet (mret a) w Q allowed.
Proof. intros ??. by apply wp_ret. Qed.

Lemma quiet_throw {E A} (e : E) w (Q : A → Prop) (allowed : E → Prop) :
  (L → allowed e) → quiet (throw e) w Q allowed.
Proof. intros ??. apply wp_throw. auto. Qed.

Lemma quiet_fail_if {E} c (e : E) w (Q : () → Prop) allowed :
  (c = true → L → allowed e) → (c = false → Q tt) → quiet (fail_if c e) w Q allowed.
Proof. intros ???. apply wp_fail_if; auto. Qed.

Lemma quiet_lift {E A} (r : result E A) w (Q : A → Prop) allowed :
  (∀ a, r = Ok a → Q a) → (∀ e, r = Err e → L → allowed e) → quiet (lift r) w Q allowed.
Proof. intros ???. apply wp_lift; auto. Qed.

Lemma quiet_map_err {E E' A} (f : E → E') (m : method W E A) w Q (allowed : E' → Prop) :
  quiet m w Q (λ e, allowed (f e)) → quiet (map_err_method f m) w Q allowed.
Proof. intros Hm Hw. by apply wp_map_err, Hm. Qed.

Lemma quiet_query {A} (op : method W string A) (ans : Db → option A) w (allowed : string → Prop) :
  query_spec op ans → (∀ e, ans (visible (view w)) = None → allowed e) →
  quiet op w (λ a, ans (visible (view w)) = Some a) allowed.
Proof.
  intros Hop Hal Hw. eapply wp_mono; [apply Hop|..]; unfold unchanged; naive_solver.
Qed.

(** A check: [fail_if] with the rest of the body. *)
Lemma quiet_check {E A} c (e : E) (k : method W E A) w Q allowed :
  (c = true → L → allowed e) → (c = false → quiet k w Q allowed) →
  quiet (fail_if c e;; k) w Q allowed.
Proof.
  intros Hc Hk. destruct c.
  - intros Hw. apply wp_bind, wp_throw. auto.
  - intros Hw. by apply Hk.
Qed.

End quiet.

Section files.
Context {W : Type} `{backend : Backend W} `{obs : Observed W} {path : PathBuf}
  `{laws : !BackendLaws W path} (L : Prop).

(** ** Paths *)

Lemma metadata_quiet p w :
  (L → reliable w) →
  wp (symlink_metadata p)
    (λ md w', view w' = view w ∧ (L → reliable w') ∧
       (p = path → (view w).(file) = if md.(md_len) == 0%Z then Empty else Existing) ∧
       (L → expected_metadata path p md ∧
          (p = database_sidecar path "-wal" ∨ p = database_sidecar path "-shm" →
           (view w).(file) = Existing)))
    (λ e w', view w' = view w ∧
       (p = path → e.(not_found) = true → (view w).(file) = Missing) ∧
       (L → reliable w' ∧ e.(not_found) = true ∧ p ≠ parent_directory path ∧
       (p = path → (view w).(file) = Missing))) w.
Proof using laws. intros Hw. eapply wp_mono; [apply metadata_law|naive_solver..]. Qed.

Lemma parent_quiet w : quiet L (validate_parent_directory path) w (λ _, True) (λ _, False).
Proof using laws.
  unfold validate_parent_directory. eapply quiet_bind.
  { apply quiet_map_err. intros Hw. eapply wp_mono; [by apply metadata_quiet|..].
    - intros md w' (? & ? & _ & H). split_and!; [done..|exact H].
    - naive_solver. }
  intros md w' Hmd Hv. unfold expected_metadata in Hmd. rewrite eq_refl_true in Hmd.
  apply quiet_bind with (P := λ _, True).
  - apply quiet_lift; [done|]. unfold reject_link_like. intros e He HL.
    destruct (Hmd HL) as [[Hs _] _]. by rewrite Hs in He.
  - intros _ w2 _ _. apply quiet_fail_if; [|done]. intros Hd HL.
    destruct (Hmd HL) as [[_ Hd'] _]. by rewrite Hd' in Hd.
Qed.

(** A file that the loop hardens is not the parent directory. *)
Lemma harden_file_quiet p required w :
  p ≠ parent_directory path → (required = true → p = path) →
  quiet L (harden_file p required) w (λ _, True) (λ _, (view w).(file) = Missing).
Proof using laws.
  intros Hne Hreq. unfold harden_file.
  apply quiet_bind with (P := λ r, match r with
    | Ok md => L → expected_metadata path p md
    | Err e => L → e.(not_found) = true ∧ (p = path → (view w).(file) = Missing)
    end).
  { intros Hw. apply wp_attempt. eapply wp_mono; [by apply metadata_quiet|naive_solver..]. }
  intros [md|e] w' Hmd Hv; unfold expected_metadata in *.
  - rewrite bool_decide_eq_false_2 in Hmd by done. apply quiet_bind with (P := λ _, True).
    { apply quiet_lift; [done|]. unfold reject_link_like. intros e He HL.
      destruct (Hmd HL) as [Hs _]. by rewrite Hs in He. }
    intros _ w2 _ _. apply quiet_check.
    { intros Hf HL. destruct (Hmd HL) as [_ Hf']. by rewrite Hf' in Hf. }
    intros _. apply quiet_map_err. intros Hw. eapply wp_mono; [apply set_permissions_law|..];
      unfold unchanged; naive_solver.
  - apply quiet_fail_if; [|done]. intros Hc HL. destruct (Hmd HL) as [Hn Hm]. rewrite Hn in Hc.
    destruct required; [|done]. by apply Hm, Hreq.
Qed.

(** The journal path is not the one of its directory, nor are its side files. *)
Definition path_ok : Prop :=
  path ≠ parent_directory path ∧
  database_sidecar path "-wal" ≠ parent_directory path ∧
  database_sidecar path "-shm" ≠ parent_directory path ∧
  database_sidecar path "-wal" ≠ path ∧ database_sidecar path "-shm" ≠ path ∧
  path_is_empty path = false ∧ path ≠ mkPath false [":memory:"%string].

Lemma harden_quiet w :
  path_ok → quiet L (harden_database_files path) w (λ _, True) (λ _, (view w).(file) = Missing).
Proof using laws.
  intros (H1 & H2 & H3 & _). unfold harden_database_files.
  eapply quiet_bind; [eapply quiet_mono; [apply parent_quiet|done..]|].
  intros _ w1 _ Hv1. eapply quiet_bind.
  { rewrite <-Hv1. by apply harden_file_quiet. }
  intros _ w2 _ Hv2. eapply quiet_bind.
  { rewrite <-Hv1, <-Hv2. by apply harden_file_quiet. }
  intros _ w3 _ Hv3. rewrite <-Hv1, <-Hv2, <-Hv3. by apply harden_file_quiet.
Qed.

End files.

(** ** Queries on a database that holds a chain *)

(** The database holds the journal [jid] with the given rows. *)
Definition holds (jid : bytes) (rows : list Row) (d : Db) : Prop :=
  has "table" ENTRIES d = true ∧ d.(db_entries) = map raw_of rows ∧
  ans_journal_id d = Some (Z.of_nat JOURNAL_ID_BYTES, jid) ∧ length jid = JOURNAL_ID_BYTES.

Section chain_queries.
Context `{sha : Sha256} `{aead : Aead} (k jid : bytes).

Lemma linked_seqs seq prev rows evs :
  linked k jid seq prev rows evs → map row_sequence rows = seqZ seq (Z.of_nat (length rows)).
Proof.
  induction 1 as [|seq prev r rows ev evs Hv Hl IH]; [done|].
  cbn [map length]. rewrite IH. destruct Hv as (-> & _).
  rewrite (seqZ_cons seq) by lia.
  replace (Z.pred (Z.of_nat (S (length rows)))) with (Z.of_nat (length rows)) by lia.
  by rewrite Z.add_1_r.
Qed.

Lemma raw_seqs rows : map raw_sequence (map raw_of rows) = map row_sequence rows.
Proof. rewrite map_map. done. Qed.

Lemma fold_min_seqZ a b n : (a ≤ b)%Z → fold_left Z.min (seqZ b (Z.of_nat n)) a = a.
Proof.
  revert b. induction n as [|n IH]; intros b Hab; [done|].
  rewrite seqZ_cons by lia. cbn [fold_left]. rewrite Z.min_l by lia.
  replace (Z.pred (Z.of_nat (S n))) with (Z.of_nat n) by lia. apply IH. lia.
Qed.

Lemma fold_max_seqZ a n :
  fold_left Z.max (seqZ (a + 1) (Z.of_nat n)) a = (a + Z.of_nat n)%Z.
Proof.
  revert a. induction n as [|n IH]; intros a; [by rewrite Z.add_0_r|].
  rewrite seqZ_cons by lia. cbn [fold_left]. rewrite Z.max_r by lia.
  replace (Z.pred (Z.of_nat (S n))) with (Z.of_nat n) by lia.
  rewrite <-Z.add_1_r, IH. lia.
Qed.

Lemma stats_linked rows evs d :
  holds jid rows d → linked k jid 1 ZERO_HASH rows evs →
  ans_stats d = Some (Z.of_nat (length rows),
    if bool_decide (rows = []) then None else Some 1%Z,
    if bool_decide (rows = []) then None else Some (Z.of_nat (length rows))).
Proof.
  intros (Ht & He & _) Hl. unfold ans_stats, from_table. rewrite Ht, He, raw_seqs.
  rewrite (linked_seqs _ _ _ _ Hl), length_seqZ, Nat2Z.id.
  destruct rows as [|r rows]; [done|]. rewrite bool_decide_eq_false_2 by done.
  cbn [length]. rewrite seqZ_cons by lia. cbn [column_min column_max].
  replace (Z.pred (Z.of_nat (S (length rows)))) with (Z.of_nat (length rows)) by lia.
  rewrite <-Z.add_1_r, fold_min_seqZ, fold_max_seqZ by lia. do 3 f_equal. lia.
Qed.

Lemma entry_at_last rows r evs d :
  holds jid (rows ++ [r]) d → linked k jid 1 ZERO_HASH (rows ++ [r]) evs →
  entry_at (Z.of_nat (length (rows ++ [r]))) d = Some (raw_of r).
Proof.
  intros (Ht & He & _) Hl. unfold entry_at, from_table. rewrite Ht, He.
  assert (∀ i x, (rows ++ [r]) !! i = Some x → row_sequence x = (1 + Z.of_nat i)%Z) as Hseq.
  { intros i x Hx. by eapply linked_sequences. }
  assert (row_sequence r = Z.of_nat (length (rows ++ [r]))) as Hr.
  { rewrite (Hseq (length rows)), length_app; [simpl; lia|]. by apply list_lookup_middle. }
  assert (Forall (λ x, row_sequence x ≠ Z.of_nat (length (rows ++ [r]))) rows) as Hlt.
  { apply Forall_lookup_2. intros i x Hx.
    rewrite (Hseq i) by (by apply lookup_app_l_Some).
    apply lookup_lt_Some in Hx. rewrite length_app. simpl. lia. }
  revert Hlt Hr. generalize (Z.of_nat (length (rows ++ [r]))). clear.
  intros n Hlt Hr. induction Hlt as [|x rows Hx _ IH]; cbn.
  - unfold raw_sequence. cbn. by rewrite Hr, eq_refl_true.
  - unfold raw_sequence at 1. cbn. rewrite bool_decide_eq_false_2 by done. exact IH.
Qed.

Lemma rows_snoc (rows : list Row) : rows = [] ∨ ∃ rows' r, rows = rows' ++ [r].
Proof. destruct rows using rev_ind; eauto. Qed.

Lemma last_hash_snoc prev rows r : last_hash prev (rows ++ [r]) = r.(row_entry_hash).
Proof. by rewrite last_hash_app. Qed.

End chain_queries.

Section expected_head.
Context {W : Type} `{backend : Backend W} `{obs : Observed W} {path : PathBuf}
  `{laws : !BackendLaws W path} `{sha : Sha256} `{aead : Aead} (L : Prop).

Lemma quiet_db {A} (op : method W string A) (ans : Db → option A) w a (allowed : JournalError → Prop) :
  query_spec op ans → ans (visible (view w)) = Some a → quiet L (db op) w (λ b, b = a) allowed.
Proof.
  intros Hop Ha. apply quiet_map_err. eapply quiet_mono;
    [apply (quiet_query L op ans) with (allowed := λ _, False); [done|congruence]| |done].
  intros b Hb. congruence.
Qed.

Lemma quiet_value {E A} (r : result E A) a w (allowed : E → Prop) :
  r = Ok a → quiet L (lift r) w (λ b, b = a) allowed.
Proof. intros ->. apply quiet_lift; naive_solver. Qed.

Lemma load_journal_id_answer w jid allowed :
  ans_journal_id (visible (view w)) = Some (Z.of_nat JOURNAL_ID_BYTES, jid) →
  length jid = JOURNAL_ID_BYTES → quiet L load_journal_id w (λ b, b = jid) allowed.
Proof using laws.
  intros Hj Hlen. unfold load_journal_id.
  eapply quiet_bind; [by eapply quiet_db, Hj; apply journal_id_law|].
  intros ? w' -> _. apply quiet_check; [by rewrite ne_refl_false|]. intros _.
  apply quiet_value. by apply try_into_pass.
Qed.

Lemma load_journal_id_quiet w jid rows allowed :
  holds jid rows (visible (view w)) → quiet L load_journal_id w (λ b, b = jid) allowed.
Proof using laws. intros (_ & _ & Hj & Hlen). by apply load_journal_id_answer. Qed.

Lemma quiet_pass {E A} c (e : E) (m : method W E A) w Q allowed :
  c = false → quiet L m w Q allowed → quiet L (fail_if c e;; m) w Q allowed.
Proof. intros -> Hm. apply quiet_check; [done|]. intros _. exact Hm. Qed.

Lemma quiet_let {E A B} (r : result E A) (f : A → method W E B) a w Q allowed :
  r = Ok a → (∀ w', view w' = view w → quiet L (f a) w' Q allowed) →
  quiet L (lift r ≫= f) w Q allowed.
Proof.
  intros Hr Hf. eapply quiet_bind; [by apply quiet_value|]. intros ? w' -> Hv. by apply Hf.
Qed.

Lemma quiet_select {A B} (op : method W string A) (ans : Db → option A)
    (f : A → method W JournalError B) a w Q allowed :
  query_spec op ans → ans (visible (view w)) = Some a →
  (∀ w', view w' = view w → quiet L (f a) w' Q allowed) → quiet L (db op ≫= f) w Q allowed.
Proof.
  intros Hop Ha Hf. eapply quiet_bind; [by eapply quiet_db|]. intros ? w' -> Hv. by apply Hf.
Qed.

(** The last row of a chain. *)
Lemma last_row_valid k jid rows r evs :
  linked k jid 1 ZERO_HASH (rows ++ [r]) evs →
  ∃ ev, row_valid k jid (Z.of_nat (length (rows ++ [r]))) (last_hash ZERO_HASH rows) r ev.
Proof.
  intros Hl. apply linked_app_inv in Hl as (e1 & e2 & -> & Hl1 & Hl2).
  inversion Hl2 as [|? ? ? ? ev ? Hv _]; subst. exists ev. rewrite length_app. simpl.
  by replace (Z.of_nat (length rows + 1)) with (1 + Z.of_nat (length rows))%Z by lia.
Qed.

Lemma select_last k jid rows r evs d :
  holds jid (rows ++ [r]) d → linked k jid 1 ZERO_HASH (rows ++ [r]) evs →
  ans_hash_at (Z.of_nat (length (rows ++ [r]))) d
    = Some (blen r.(row_entry_hash), r.(row_entry_hash)) ∧
  ans_tail_at (Z.of_nat (length (rows ++ [r]))) d
    = Some (blen r.(row_nonce), r.(row_nonce), (blen r.(row_ciphertext), r.(row_ciphertext)),
        (blen r.(row_previous_hash), r.(row_previous_hash)),
        (blen r.(row_entry_hash), r.(row_entry_hash))).
Proof.
  intros Hh Hl. unfold ans_hash_at, ans_tail_at. by rewrite (entry_at_last k jid rows r evs).
Qed.

(** The head that the three queries reconstruct. *)
Lemma actual_head_quiet w k jid rows evs (allowed : JournalError → Prop) :
  holds jid rows (visible (view w)) → linked k jid 1 ZERO_HASH rows evs →
  (Z.of_nat (length rows) ≤ MAX_JOURNAL_ENTRIES)%Z →
  quiet L (actual_head jid (Z.of_nat (length rows))
    (if bool_decide (rows = []) then None else Some 1%Z)
    (if bool_decide (rows = []) then None else Some (Z.of_nat (length rows)))) w
    (λ a, a = head_anchor jid rows) allowed.
Proof using laws.
  intros Hh Hl Hmax. unfold actual_head. destruct (rows_snoc rows) as [->|(rows' & r & ->)].
  { rewrite !bool_decide_eq_true_2 by done. by apply quiet_ret. }
  rewrite !bool_decide_eq_false_2 by (by destruct rows').
  destruct (last_row_valid _ _ _ _ _ Hl) as (ev & _ & _ & _ & _ & Hhl & _).
  destruct (select_last _ _ _ _ _ _ Hh Hl) as [Hsel _].
  eapply quiet_let; [done|]. intros w1 Hv1.
  eapply quiet_let; [apply ok_or_pass, u64_try_from_i64_fits; lia|]. intros w2 Hv2.
  apply quiet_pass; [rewrite !ne_refl_false; simpl; lia|].
  eapply quiet_select; [apply hash_at_law|by rewrite Hv2, Hv1|]. intros w3 Hv3.
  apply quiet_pass; [rewrite (proj2 (blen_length _ _) Hhl); apply ne_refl_false|].
  eapply quiet_let; [by apply try_into_pass|]. intros w4 _.
  apply quiet_ret. unfold head_anchor. by rewrite last_hash_snoc.
Qed.

Lemma expected_head_quiet w k jid rows evs expected :
  holds jid rows (visible (view w)) → linked k jid 1 ZERO_HASH rows evs →
  (Z.of_nat (length rows) ≤ MAX_JOURNAL_ENTRIES)%Z →
  quiet L (validate_expected_head k jid expected) w (λ _, expected = head_anchor jid rows)
    (λ _, expected ≠ head_anchor jid rows).
Proof using laws.
  intros Hh Hl Hmax. unfold validate_expected_head.
  apply quiet_check; [intros Hj%bool_decide_eq_true_1 _ ->; done|intros _].
  eapply quiet_bind; [by eapply load_journal_id_quiet|]. intros ? w1 -> Hv1.
  apply quiet_pass; [apply ne_refl_false|].
  eapply quiet_select; [apply stats_law|rewrite Hv1; by eapply stats_linked|]. intros w2 Hv2.
  eapply quiet_let; [apply ok_or_pass, u64_try_from_i64_fits; lia|]. intros w3 Hv3.
  apply quiet_pass; [lia|]. rewrite <-Hv1, <-Hv2, <-Hv3 in Hh.
  eapply quiet_bind; [by eapply actual_head_quiet|]. intros ? w4 -> Hv4. rewrite <-Hv4 in Hh.
  apply quiet_check; [intros [Hne%bool_decide_eq_true_1 _]%andb_true_iff; congruence|intros _].
  apply quiet_check; [intros Hne%bool_decide_eq_true_1; congruence|].
  intros <-%bool_decide_not_false_1; [|apply _].
  destruct (rows_snoc rows) as [->|(rows' & r & ->)].
  { cbn. apply quiet_fail_if; [by rewrite ne_refl_false|done]. }
  destruct (last_row_valid _ _ _ _ _ Hl) as (ev & Hseq & Hprev & Hn & Hpl & Hhl & Hhash & Hd & Hev & Hct).
  destruct (select_last _ _ _ _ _ _ Hh Hl) as [_ Hsel]. cbn [head_anchor anchor_sequence anchor_entry_hash].
  rewrite last_hash_snoc, bool_decide_eq_false_2 by (rewrite length_app; simpl; lia).
  eapply quiet_let.
  { apply ok_or_pass. unfold i64_try_from_u64. rewrite (proj2 (Z.leb_le _ _)); [done|].
    unfold I64_MAX. journal_limits. lia. }
  intros w5 Hv5. eapply quiet_select; [apply tail_at_law|by rewrite Hv5|]. intros w6 _.
  eapply quiet_let; [apply ok_or_pass, checked_add_u64_fits; journal_limits; lia|]. intros w7 _.
  apply quiet_pass.
  { rewrite !(proj2 (blen_length _ _) Hn), !(proj2 (blen_length _ _) Hpl),
      !(proj2 (blen_length _ _) Hhl), !ne_refl_false. simpl.
    pose proof (blen_nonneg ev). rewrite Hct. journal_limits. lia. }
  eapply quiet_let; [by apply try_into_pass|]. intros w8 _.
  eapply quiet_let; [by apply try_into_pass|]. intros w9 _.
  eapply quiet_let; [by apply try_into_pass|]. intros w10 _.
  rewrite Hprev. apply quiet_pass; [by rewrite <-Hhash, !ne_refl_false|].
  eapply quiet_let; [by apply ok_or_pass|]. intros w11 _.
  apply quiet_fail_if; [|done]. intros Hbad. exfalso. lia.
Qed.

End expected_head.
