(* ===== verification/JournalDemo.v ===== *)
(** * An executable world with a fault schedule

    An instance of the backend interface that the witnesses evaluate: the view
    itself, a list that says for each coming operation whether it fails and
    whether a failing commit or store still takes effect, and a counter as the
    source of entropy. It satisfies the laws, so the laws are consistent. A
    two-entry chain goes with it. *)

From Stdlib.Strings Require Import Byte.
From S2P Require Import Prelude Bytes Crypto JournalChain JournalChainProperties JournalBackend JournalSpecs.

Module DemoWorld.

Record world := mkWorld {
  dw_view : View;
  dw_faults : list (option bool);
  dw_counter : Z;
}.

Definition path : PathBuf := mkPath true ["vault"; "journal.db"]%string.

(** A file that is missing or empty holds nothing. *)
Definition normal (v : View) : View :=
  match v.(file) with
  | Existing => v
  | f => mkView f empty_db v.(working) v.(stored_key) v.(stored_anchor)
  end.

#[global] Instance demo_observed : Observed world := {|
  view w := normal w.(dw_view);
  reliable w := Forall (λ f, f = None) w.(dw_faults);
|}.

Definition put (v : View) (w : world) : world := mkWorld v w.(dw_faults) w.(dw_counter).
Definition next (w : world) : option bool * world :=
  match w.(dw_faults) with
  | [] => (None, w)
  | f :: l => (f, mkWorld w.(dw_view) l w.(dw_counter))
  end.

Definition fault : string := "fault".

(** An operation whose effect may refuse, and what a fault leaves. *)
Definition operation {E A} (effect : View → result E (A * View)) (cut : bool → View → View)
    (err : E) : method world E A := λ w,
  match next w with
  | (Some b, w) => (put (cut b (view w)) w, Err err)
  | (None, w) =>
      match effect (view w) with
      | Ok (a, v) => (put v w, Ok a)
      | Err e => (w, Err e)
      end
  end.

Definition plain {E A} (effect : View → result E (A * View)) (err : E) : method world E A :=
  operation effect (λ _ v, v) err.
Definition query {A} (answer : Db → option A) : method world string A :=
  plain (λ v, ok_or ((λ a, (a, v)) <$> answer (visible v)) fault) fault.
Definition statement {A} (effect : Db → option (A * Db)) : method world string A :=
  plain (λ v, ok_or ((λ p, (p.1, set_working (Some p.2) v)) <$> effect (visible v)) fault) fault.
Definition storing (effect : View → View) : method world string () :=
  operation (λ v, Ok (tt, effect v)) (λ (b : bool) v, if b then effect v else v) fault.

Definition demo_metadata (p : PathBuf) (v : View) : result IoError (Metadata * View) :=
  if p == parent_directory path then Ok (mkMetadata false true false 0, v)
  else if p == path then
    match v.(file) with
    | Missing => Err (mkIoError true "missing")
    | Empty => Ok (mkMetadata false false true 0, v)
    | Existing => Ok (mkMetadata false false true 4096, v)
    end
  else Err (mkIoError true "missing").

#[global] Instance demo_backend : Backend world := {|
  connect p := plain (λ v, if v.(file) == Missing then Err fault else Ok (tt, v)) fault;
  configure := operation (λ v, Ok (tt, set_file Existing v)) (λ _ v, v) fault;
  disconnect w := put (set_working None (view w)) w;
  begin_immediate := plain (λ v, match v.(working) with
    | None => Ok (tt, set_working (Some v.(durable)) v)
    | Some _ => Err fault
    end) fault;
  commit := operation (λ v, Ok (tt, set_durable (visible v) v))
    (λ (b : bool) v, if b then set_durable (visible v) v else set_working None v) fault;
  drop_transaction w := put (set_working None (view w)) w;
  select_object_count := query ans_object_count;
  select_user_version := query ans_user_version;
  select_required_tables := query ans_required_tables;
  select_metadata_rows := query ans_metadata_rows;
  select_schema_version := query ans_schema_version;
  select_initialization_tables := query ans_initialization_tables;
  select_journal_id := query ans_journal_id;
  select_initialization_rows := query ans_initialization_rows;
  select_initialization := query ans_initialization;
  select_update_guards := query ans_update_guards;
  select_entries_exist := query ans_entries_exist;
  select_entries := query (λ d, from_table ENTRIES d (Some (map Ok d.(db_entries))));
  select_stats := query ans_stats;
  select_hash_at z := query (ans_hash_at z);
  select_tail_at z := query (ans_tail_at z);
  insert_entry r := statement (do_insert_entry r);
  create_tables := statement do_create_tables;
  insert_metadata n i := statement (do_insert_metadata n i);
  insert_initialization n c := statement (do_insert_initialization n c);
  create_triggers := statement do_create_triggers;
  update_initialization_key n c := statement (do_update_key n c);
  update_initialization_ready := statement do_update_ready;
  create_update_guard := statement do_create_update_guard;
  load_key := plain (λ v, Ok (v.(stored_key), v)) fault;
  store_key k := storing (set_key k);
  load_anchor := plain (λ v, Ok (v.(stored_anchor), v)) fault;
  store_anchor a := storing (set_anchor a);
  symlink_metadata p := plain (demo_metadata p) (mkIoError false "fault");
  set_permissions p m := plain (λ v, Ok (tt, v)) (mkIoError false "fault");
  create_new p m := plain (λ v, if v.(file) == Missing then Ok (tt, set_file Empty v)
                               else Err (mkIoError false "exists")) (mkIoError false "fault");
  fill_bytes n w :=
    (mkWorld w.(dw_view) w.(dw_faults) (w.(dw_counter) + 1), be_bytes n (w.(dw_counter) mod 2 ^ 64));
|}.

(** ** The laws *)

Lemma normal_idem v : normal (normal v) = normal v.
Proof. destruct v as [[] ? ? ? ?]; done. Qed.

Lemma normal_iff v : normal v = v ↔ (v.(file) ≠ Existing → v.(durable) = empty_db).
Proof.
  destruct v as [[] d ? ? ?]; unfold normal; cbn; split; intros Hv; try done; try congruence;
    try (by injection Hv; auto); by rewrite Hv.
Qed.

(** The effects of the interface keep views normal. *)
Lemma normal_set_working d v : normal v = v → normal (set_working d v) = set_working d v.
Proof. by rewrite !normal_iff. Qed.
Lemma normal_set_anchor a v : normal v = v → normal (set_anchor a v) = set_anchor a v.
Proof. by rewrite !normal_iff. Qed.
Lemma normal_set_key k v : normal v = v → normal (set_key k v) = set_key k v.
Proof. by rewrite !normal_iff. Qed.

Lemma view_put v w : normal v = v → view (put v w) = v.
Proof. done. Qed.

Lemma next_spec w f w' :
  next w = (f, w') → view w' = view w ∧ w'.(dw_counter) = w.(dw_counter) ∧
    (reliable w → f = None ∧ reliable w').
Proof.
  unfold next. destruct w as [v [|g l] n]; cbn; intros [= <- <-]; split_and!; try done.
  intros [? ?]%Forall_cons. done.
Qed.

(** An operation meets a specification when its effect and its cut do. *)
Lemma operation_wp {E A} (effect : View → result E (A * View)) cut err w
    (Q : A → View → Prop) (R : E → View → Prop) :
  (∀ a v, effect (view w) = Ok (a, v) → normal v = v ∧ Q a v) →
  (∀ b, normal (cut b (view w)) = cut b (view w) ∧ R err (cut b (view w))) →
  (∀ e, effect (view w) = Err e → R e (view w)) →
  wp (operation effect cut err)
    (λ a w', Q a (view w') ∧ (reliable w → reliable w'))
    (λ e w', R e (view w') ∧ (reliable w → effect (view w) = Err e ∧ view w' = view w ∧ reliable w')) w.
Proof.
  intros Hok Hcut Herr. unfold wp, operation. destruct (next w) as [f w1] eqn:Hn.
  apply next_spec in Hn as (Hv & _ & Hr). rewrite Hv. destruct f as [b|].
  - destruct (Hcut b) as [Hnorm HR]. rewrite view_put by done. split; [done|].
    intros Hrel. by destruct (Hr Hrel).
  - destruct (effect (view w)) as [[a v]|e] eqn:He.
    + destruct (Hok a v eq_refl) as [Hnorm HQ]. rewrite view_put by done. split; [done|].
      intros Hrel. by destruct (Hr Hrel).
    + rewrite Hv. split; [by apply Herr|]. intros Hrel. by destruct (Hr Hrel).
Qed.

Lemma view_normal w : normal (view w) = view w.
Proof. apply normal_idem. Qed.

Lemma query_law {A} (ans : Db → option A) : query_spec (query ans) ans.
Proof.
  intros w. eapply wp_mono; [apply operation_wp with
    (Q := λ a v, v = view w ∧ ans (visible (view w)) = Some a) (R := λ _ v, v = view w)|..].
  - intros a v He. destruct (ans (visible (view w))) as [b|]; [|done]. cbn in He. simplify_eq.
    split; [apply view_normal|done].
  - intros b. split; [apply view_normal|done].
  - done.
  - auto.
  - intros e w' [-> Hr]. split; [done|]. intros Hrel. destruct (Hr Hrel) as (He & _ & Hrel').
    split; [|done]. by destruct (ans (visible (view w))).
Qed.

Lemma statement_law {A} (eff : Db → option (A * Db)) : stmt_spec (statement eff) eff.
Proof.
  intros w. eapply wp_mono; [apply operation_wp with
    (Q := λ a v, ∃ d', eff (visible (view w)) = Some (a, d') ∧ v = set_working (Some d') (view w))
    (R := λ _ v, v = view w)|..].
  - intros a v He. destruct (eff (visible (view w))) as [[b d]|]; [|done]. cbn in He. simplify_eq.
    split; [|by eexists]. apply normal_set_working, view_normal.
  - intros b. split; [apply view_normal|done].
  - done.
  - auto.
  - intros e w' [-> Hr]. split; [done|]. intros Hrel. destruct (Hr Hrel) as (He & _ & Hrel').
    split; [|done]. by destruct (eff (visible (view w))) as [[]|].
Qed.

Create HintDb demo.
#[local] Hint Resolve normal_set_working normal_set_anchor normal_set_key view_normal : demo.

Lemma storing_law effect :
  (∀ v, normal v = v → normal (effect v) = effect v) → store_spec (storing effect) effect.
Proof.
  intros Heff w. eapply wp_mono; [apply operation_wp with
    (Q := λ _ v, v = effect (view w)) (R := λ _ v, v = view w ∨ v = effect (view w))|..].
  - intros a v [= <- <-]. split; [|done]. apply Heff, view_normal.
  - intros []; (split; [|by auto]); [apply Heff|]; apply view_normal.
  - by left.
  - auto.
  - intros e w' [Hv Hr]. split; [done|]. intros Hrel. by destruct (Hr Hrel).
Qed.

(** An operation that only looks. *)
Lemma look_law {E A} (effect : View → result E (A * View)) err (P : A → View → Prop)
    (refusable : View → Prop) :
  (∀ v a v', effect v = Ok (a, v') → v' = v ∧ P a v) →
  (∀ v e, effect v = Err e → refusable v) →
  op_spec (plain effect err) (λ a v v', v' = v ∧ P a v) unchanged refusable.
Proof.
  intros Hok Herr w. eapply wp_mono; [apply operation_wp with
    (Q := λ a v, v = view w ∧ P a (view w)) (R := λ _ v, v = view w)|..].
  - intros a v He. apply Hok in He as [-> HP]. auto with demo.
  - auto with demo.
  - done.
  - auto.
  - intros e w' [-> Hr]. split; [done|]. intros Hrel. destruct (Hr Hrel) as (He & _ & ?).
    eauto.
Qed.

Lemma look_silent {E A} (effect : View → result E (A * View)) err :
  (∀ v, ∃ a, effect v = Ok (a, v)) → silent_spec (plain effect err).
Proof.
  intros Hok w. eapply wp_mono; [apply (look_law effect err (λ _ _, True) (λ _, False))|..].
  - intros v a v' He. destruct (Hok v) as [b Hb]. rewrite He in Hb. by simplify_eq.
  - intros v e He. destruct (Hok v) as [b Hb]. by rewrite He in Hb.
  - cbn. naive_solver.
  - done.
Qed.

Lemma connect_demo : op_spec (connect path) (λ _ v v', v' = v ∧ v.(file) ≠ Missing) unchanged
    (λ v, v.(file) = Missing).
Proof.
  apply look_law.
  - intros v a v'. case_bool_decide; [done|]. by intros [= <- <-].
  - intros v e. by case_bool_decide.
Qed.

Lemma configure_demo : op_spec configure (λ _ v v', v' = v ∨ v' = set_file Existing v)
    (λ v v', v' = v ∨ v' = set_file Existing v) (λ _, False).
Proof.
  intros w. eapply wp_mono; [apply operation_wp with
    (Q := λ _ v, v = set_file Existing (view w)) (R := λ _ v, v = view w)|..].
  - by intros a v [= <- <-].
  - auto with demo.
  - done.
  - naive_solver.
  - intros e w' [Hv Hr]. split; [by left|]. intros Hrel. by destruct (Hr Hrel).
Qed.

Lemma begin_demo : op_spec begin_immediate
    (λ _ v v', v.(working) = None ∧ v' = set_working (Some v.(durable)) v) unchanged
    (λ v, is_Some v.(working)).
Proof.
  intros w. eapply wp_mono; [apply operation_wp with
    (Q := λ _ v, (view w).(working) = None ∧ v = set_working (Some (view w).(durable)) (view w))
    (R := λ _ v, v = view w)|..].
  - intros a v. destruct (working (view w)) eqn:Hwk; [done|]. intros [= <- <-].
    split; [apply normal_set_working, view_normal|done].
  - intros _. split; [apply view_normal|done].
  - done.
  - naive_solver.
  - intros e w' [Hv Hr]. split; [done|]. intros Hrel. destruct (Hr Hrel) as (He & _ & ?).
    split; [|done]. destruct (working (view w)); [by eexists|done].
Qed.

Lemma commit_demo : op_spec commit (λ _ v v', v' = set_durable (visible v) v)
    (λ v v', v' = set_working None v ∨ v' = set_durable (visible v) v) (λ _, False).
Proof.
  intros w. eapply wp_mono; [apply operation_wp with
    (Q := λ _ v, v = set_durable (visible (view w)) (view w))
    (R := λ _ v, v = set_working None (view w) ∨ v = set_durable (visible (view w)) (view w))|..].
  - by intros a v [= <- <-].
  - intros []; (split; [|by auto]); [done|apply normal_set_working, view_normal].
  - done.
  - auto.
  - intros e w' [Hv Hr]. split; [done|]. intros Hrel. by destruct (Hr Hrel).
Qed.

Lemma entries_demo w :
  wp select_entries
    (λ cursor w', view w' = view w ∧ has "table" ENTRIES (visible (view w)) = true ∧
       cursor_yields (visible (view w)).(db_entries) cursor ∧
       (reliable w → cursor = map Ok (visible (view w)).(db_entries) ∧ reliable w'))
    (λ _ w', view w' = view w ∧
       (reliable w → has "table" ENTRIES (visible (view w)) = false ∧ reliable w')) w.
Proof.
  eapply wp_mono; [apply query_law|..]; unfold from_table, cursor_yields, unchanged.
  - intros cursor w' [[Hv Ha] Hr]. destruct (has _ _ _); [|done]. injection Ha as <-.
    split_and!; [done|done|by left|auto].
  - intros e w' [Hv Hr]. split; [done|]. intros Hrel. destruct (Hr Hrel) as [Ha ?].
    by destruct (has _ _ _).
Qed.

Lemma metadata_demo p w :
  wp (symlink_metadata p)
    (λ md w', view w' = view w ∧
       (p = path → (view w).(file) = if md.(md_len) == 0%Z then Empty else Existing) ∧
       (reliable w → reliable w' ∧ expected_metadata path p md ∧
          (p = database_sidecar path "-wal" ∨ p = database_sidecar path "-shm" →
           (view w).(file) = Existing)))
    (λ e w', view w' = view w ∧
       (p = path → e.(not_found) = true → (view w).(file) = Missing) ∧
       (reliable w → reliable w' ∧ e.(not_found) = true ∧ p ≠ parent_directory path ∧
          (p = path → (view w).(file) = Missing))) w.
Proof.
  eapply wp_mono; [apply operation_wp with
    (Q := λ md v, v = view w ∧ demo_metadata p (view w) = Ok (md, view w))
    (R := λ e v, v = view w ∧ (demo_metadata p (view w) = Err e ∨ e.(not_found) = false))|..].
  - intros md v He. assert (v = view w) as ->; [|split; [apply view_normal|done]]. revert He. unfold demo_metadata.
    repeat case_bool_decide; try destruct (file (view w)); try done; by intros [= _ <-].
  - intros b. split; [apply view_normal|]. split; [done|]. by right.
  - auto.
  - intros md w' [[-> He] Hr]. unfold demo_metadata, expected_metadata in *.
    repeat case_bool_decide; subst; try done; destruct (file (view w)) eqn:?; simplify_eq/=;
      split_and!; try done; intros; split_and!; auto; intros [?|?]; done.
  - intros e w' [[-> He] Hr]. split; [done|]. unfold demo_metadata in *. split.
    + intros -> Hnf. destruct He as [He|He]; [|congruence]. rewrite bool_decide_eq_false_2 in He by done.
      rewrite eq_refl_true in He. by destruct (file (view w)).
    + intros Hrel. destruct (Hr Hrel) as (He' & _ & Hrel'). split; [done|].
      repeat case_bool_decide; subst; try done; destruct (file (view w)); simplify_eq/=;
        split_and!; done.
Qed.

#[global] Instance demo_laws : BackendLaws world path.
Proof.
  split; intros; try apply query_law; try apply statement_law; try (apply storing_law; auto with demo).
  - apply (normal_iff (view w)); [apply view_normal|done].
  - apply connect_demo.
  - apply configure_demo.
  - split; [apply view_put, normal_set_working, view_normal|done].
  - apply begin_demo.
  - apply commit_demo.
  - split; [apply view_put, normal_set_working, view_normal|done].
  - apply entries_demo.
  - eapply look_law; [by intros v a v' [= <- <-]|done].
  - eapply look_law; [by intros v a v' [= <- <-]|done].
  - apply metadata_demo.
  - apply look_silent. eauto.
  - intros w. eapply wp_mono; [apply operation_wp with
      (Q := λ _ v, (view w).(file) = Missing ∧ v = set_file Empty (view w)) (R := λ _ v, v = view w)|..].
    + intros a v. case_bool_decide as Hm; [|done]. intros [= <- <-]. split; [|done].
      apply normal_iff. intros _. pose proof (proj1 (normal_iff (view w)) (view_normal w)) as Hd.
      rewrite Hm in Hd. by apply Hd.
    + intros _. split; [apply view_normal|done].
    + done.
    + auto.
    + intros e w' [-> Hr]. split; [by left|]. intros Hrel. destruct (Hr Hrel) as (He & _ & ?).
      split; [|done]. revert He. by case_bool_decide.
  - cbn. split_and!; [done|apply length_be_bytes|done].
Qed.

Lemma demo_path_ok : path_ok (path := path).
Proof. unfold path_ok. split_and!; try done; by apply bool_decide_unpack. Qed.

End DemoWorld.

(** A two-entry chain for the evaluable primitives. *)
Module DemoChain.
#[export] Existing Instance Demo.demo_sha256.
#[export] Existing Instance Demo.demo_aead.

Definition jid : bytes := replicate 16 x4a.
Definition key : bytes := replicate 32 x4b.

Definition link (seq : Z) (prev : bytes) (nonce : byte) (ev : bytes) : Row :=
  let c := ev ++ Demo.demo_tag in
  mkRow seq (replicate 24 nonce) c prev (hash_entry jid seq prev (replicate 24 nonce) c).

Definition row1 : Row := link 1 ZERO_HASH x01 [x61].
Definition row2 : Row := link 2 row1.(row_entry_hash) x02 [x62; x63].

Lemma link_valid seq prev n ev :
  length prev = HASH_BYTES → (blen ev ≤ MAX_EVENT_BYTES)%Z →
  row_valid key jid seq prev (link seq prev n ev) ev.
Proof.
  intros Hp He. unfold row_valid, link. cbn [row_sequence row_nonce row_ciphertext row_previous_hash row_entry_hash].
  split_and!; try done.
  - by apply (@aead_roundtrip _ Demo.demo_aead_laws).
  - by apply (@aead_length _ Demo.demo_aead_laws key (replicate 24 n) [] ev).
Qed.

Lemma demo_linked : linked key jid 1 ZERO_HASH [row1; row2] [[x61]; [x62; x63]].
Proof.
  constructor; [by apply link_valid|]. constructor; [|constructor].
  apply link_valid; [apply Demo.demo_sha256_laws|done].
Qed.

End DemoChain.
