(* ===== verification/JournalChainClaims.v ===== *)
(** * What the chain guarantees

    The anchor encoding, what a scan accepts, and what tampering with the
    database or rolling it back leads to. *)

From Stdlib.Strings Require Import Byte.
From S2P Require Import Prelude Bytes Crypto JournalChain JournalChainProperties JournalDemo.

(** ** The anchor encoding *)

Lemma slice_app_l (l r : bytes) n : length l = n → slice 0 n (l ++ r) = l.
Proof. intros Hl. unfold slice. rewrite drop_0, Nat.sub_0_r. by apply take_app_length'. Qed.

Lemma slice_app_r (l r : bytes) a b n :
  length l = n → slice (n + a) (n + b) (l ++ r) = slice a b r.
Proof.
  intros <-. unfold slice.
  rewrite drop_app_ge by lia. replace (length l + a - length l) with a by lia.
  by replace (length l + b - (length l + a)) with (b - a) by lia.
Qed.

Lemma length_to_bytes a : wf_anchor a → length (to_bytes a) = ENCODED_BYTES.
Proof.
  intros (Hj & _ & Hh). unfold to_bytes. rewrite !length_app, length_to_be_bytes, Hj, Hh. done.
Qed.

Lemma to_bytes_slices a :
  wf_anchor a →
  slice 0 8 (to_bytes a) = ANCHOR_MAGIC ∧ slice 8 24 (to_bytes a) = a.(anchor_journal_id) ∧
  slice 24 32 (to_bytes a) = to_be_bytes a.(anchor_sequence) ∧
  drop 32 (to_bytes a) = a.(anchor_entry_hash).
Proof.
  intros (Hj & _ & Hh). unfold to_bytes. unfold JOURNAL_ID_BYTES in Hj. split_and!.
  - by apply slice_app_l.
  - etrans; [by apply (slice_app_r _ _ 0 16 8)|]. by apply slice_app_l.
  - etrans; [by apply (slice_app_r _ _ 16 24 8)|].
    etrans; [by apply (slice_app_r _ _ 0 8 16)|]. apply slice_app_l, length_to_be_bytes.
  - rewrite !app_assoc, drop_app_length'; [done|].
    by rewrite !length_app, Hj, length_to_be_bytes.
Qed.

Lemma four_slices (b : bytes) :
  slice 0 8 b ++ slice 8 24 b ++ slice 24 32 b ++ drop 32 b = b.
Proof.
  assert (∀ n m, take n (drop m b) ++ drop (m + n) b = drop m b) as Hd.
  { intros n m. rewrite <-drop_drop. apply take_drop. }
  unfold slice. cbn [Nat.sub]. pose proof (Hd 8 24) as H1. pose proof (Hd 16 8) as H2.
  pose proof (Hd 8 0) as H3. cbn [Nat.add] in *. by rewrite H1, H2, H3, drop_0.
Qed.

(** The anchor encoding is a bijection between well-formed anchors and the
    byte strings that the decoder accepts: decoding inverts encoding, and
    whatever decodes is the encoding of the result, so no second encoding of an
    anchor is accepted. *)
Theorem anchor_encoding_bijective b a :
  from_bytes b = Ok a ↔ wf_anchor a ∧ b = to_bytes a.
Proof.
  unfold from_bytes. split.
  - intros Hok. inv_ok Hok. guards. subst.
    assert (length (slice 8 24 b) = 16 ∧ length (slice 24 32 b) = 8 ∧ length (drop 32 b) = 32)
      as (H1 & H2 & H3).
    { unfold slice. rewrite !length_take, !length_drop.
      unfold ENCODED_BYTES, JOURNAL_ID_BYTES, HASH_BYTES in *. lia. }
    split; [split_and!; cbn; [done|by apply from_be_bytes_u64|done]|].
    unfold to_bytes. cbn [anchor_journal_id anchor_sequence anchor_entry_hash].
    rewrite to_from_be_bytes by done.
    rewrite <-(four_slices b) at 1. congruence.
  - intros [Hwf ->]. destruct (to_bytes_slices a Hwf) as (H1 & H2 & H3 & H4).
    apply reject_pass.
    + by rewrite length_to_bytes, H1, !ne_refl_false.
    + rewrite H2, H3, H4. destruct a as [j s h], Hwf as (_ & Hs & _).
      cbn [anchor_journal_id anchor_sequence anchor_entry_hash] in *. by rewrite from_to_be_bytes.
Qed.

(** ** Scans *)

(** C35. A scan accepts exactly the valid chains: over any cursor whose length
    columns are the lengths of its blobs, it succeeds if and only if the cursor
    delivers, without an error, rows numbered from 1 whose hashes link from the
    zero hash, whose ciphertexts decrypt under the key with the bound associated
    data, and which stay within the record, byte and read limits. It then
    reports the length and last hash of the chain, the hash at the anchored
    sequence number, the byte totals and the decrypted entries of its mode. *)
Theorem scan_accepts_exactly_chains `{sha : Sha256} `{aead : Aead} k jid cursor anchor mode
    limits scan :
  (∀ raw, Ok raw ∈ cursor → raw_wf raw) →
  scan_chain cursor k jid anchor mode limits = Ok scan ↔
    ∃ rows evs, cursor = cursor_of rows ∧ linked k jid 1 ZERO_HASH rows evs ∧
      (rows = [] ∨ within mode limits (Z.of_nat (length rows)) (ciphertext_total rows)
                     (plaintext_total evs)) ∧
      scan = scan_result anchor mode rows evs.
Proof.
  intros Hwf. split.
  - intros (rows & evs & -> & [? ?] & ->)%scan_chain_sound; [eauto 10|done].
  - intros (rows & evs & -> & Hl & Hw & ->). by apply scan_chain_complete.
Qed.

Import DemoChain.

Lemma scan_accepts_exactly_chains_witness :
  ∃ scan, scan_chain (cursor_of [row1; row2]) key jid 1 ScanAllBounded None = Ok scan ∧
    scan.(scan_entries) = [entry_of row1 [x61]; entry_of row2 [x62; x63]] ∧
    scan.(scan_anchor_prefix_hash) = Some row1.(row_entry_hash).
Proof.
  eexists. split; [|split; [|]].
  - apply (scan_accepts_exactly_chains key jid (cursor_of [row1; row2]) 1 ScanAllBounded None).
    + intros raw (r & [= ->] & _)%list_elem_of_fmap. apply raw_of_wf.
    + exists [row1; row2], [[x61]; [x62; x63]]. split; [reflexivity|]. split; [apply demo_linked|].
      split; [right; by vm_compute|reflexivity].
  - reflexivity.
  - reflexivity.
Defined.

(** C3. The head is tamper evident: if two databases, read under any keys, both
    pass the scan of the same journal and end in the same head (sequence number
    and hash), then they hold the same rows, or two of their rows at the same
    place are a SHA-256 collision of the hashed records. *)
Theorem head_pins_the_journal `{sha : Sha256} `{aead : Aead} k k' jid cursor cursor' n n' mode mode'
    limits limits' scan scan' :
  (∀ raw, Ok raw ∈ cursor ++ cursor' → raw_wf raw) →
  scan_chain cursor k jid n mode limits = Ok scan →
  scan_chain cursor' k' jid n' mode' limits' = Ok scan' →
  scan.(scan_head) = scan'.(scan_head) →
  cursor = cursor' ∨
  ∃ i r r', cursor !! i = Some (Ok (raw_of r)) ∧ cursor' !! i = Some (Ok (raw_of r')) ∧
    collision (row_preimage jid r) (row_preimage jid r').
Proof.
  intros Hwf H1 H2 Hhead.
  apply scan_chain_sound in H1 as (rows & evs & -> & [Hl Hw] & ->); [|set_solver].
  apply scan_chain_sound in H2 as (rows' & evs' & -> & [Hl' Hw'] & ->); [|set_solver].
  injection Hhead as Hlen Hhash. apply Nat2Z.inj in Hlen.
  destruct (linked_commit k k' jid 1 ZERO_HASH rows rows' evs evs')
    as [->|(i & r & r' & Hr & Hr' & Hcol)]; try done; [|by left|right].
  - destruct Hw as [->|(Hmax & _)]; unfold is_u64; journal_limits; simpl; lia.
  - exists i, r, r'. unfold cursor_of. rewrite !list_lookup_fmap, Hr, Hr'. done.
Qed.

Lemma head_pins_the_journal_witness :
  cursor_of [row1; row2] = cursor_of [row1; row2] ∨
  ∃ i r r', cursor_of [row1; row2] !! i = Some (Ok (raw_of r)) ∧
    cursor_of [row1; row2] !! i = Some (Ok (raw_of r')) ∧
    collision (row_preimage jid r) (row_preimage jid r').
Proof.
  eapply (head_pins_the_journal key key jid (cursor_of [row1; row2]) (cursor_of [row1; row2])
    0 2 ScanNone ScanFirst None None).
  - intros raw [Hin|Hin]%elem_of_app; apply list_elem_of_fmap in Hin as (r & [= ->] & _);
      apply raw_of_wf.
  - apply scan_chain_complete. split; [apply demo_linked|right; by vm_compute].
  - apply scan_chain_complete. split; [apply demo_linked|right; by vm_compute].
  - reflexivity.
Defined.

(** A rollback is detected: if the anchor was the head of a chain and a later
    scan of the database is accepted against that anchor, then the rows of that
    chain are still the first rows of the database, unchanged and in order, or
    two rows at the same place are a SHA-256 collision. The reported lag says
    whether rows were added since. *)
Theorem accepted_anchor_is_a_prefix `{sha : Sha256} `{aead : Aead} k k' jid rows evs cursor mode
    limits scan lags :
  linked k jid 1 ZERO_HASH rows evs → (Z.of_nat (length rows) ≤ MAX_JOURNAL_ENTRIES)%Z →
  (∀ raw, Ok raw ∈ cursor → raw_wf raw) →
  scan_chain cursor k' jid (head_anchor jid rows).(anchor_sequence) mode limits = Ok scan →
  validate_anchor (head_anchor jid rows) scan jid = Ok lags →
  (∃ rows', cursor = cursor_of (rows ++ rows') ∧ lags = negb (bool_decide (rows' = []))) ∨
  ∃ i r r', rows !! i = Some r ∧ cursor !! i = Some (Ok (raw_of r')) ∧
    collision (row_preimage jid r) (row_preimage jid r').
Proof.
  intros Hl Hmax Hwf Hscan Hval.
  apply scan_chain_sound in Hscan as (all & aevs & -> & [Hal Hw] & ->); [|done].
  apply validate_anchor_spec in Hval as [(_ & [_ Hle] & Hh) ->]; [|cbn; lia].
  cbn in Hle, Hh. rewrite Nat2Z.id in Hh.
  rewrite <-(take_drop (length rows) all) in Hal.
  apply linked_app_inv in Hal as (e1 & e2 & -> & Hal & _).
  assert (length (take (length rows) all) = length rows) as Htl by (rewrite length_take; lia).
  destruct (linked_commit k k' jid 1 ZERO_HASH rows (take (length rows) all) evs e1)
    as [Heq|(i & r & r' & Hr & Hr' & Hcol)]; try done; [|left|right].
  - unfold is_u64. journal_limits. lia.
  - exists (drop (length rows) all). rewrite Heq at 1. rewrite take_drop. split; [done|].
    cbn. case_bool_decide as Hd.
    + apply (f_equal length) in Hd. rewrite length_drop in Hd. simpl in Hd. simpl. lia.
    + destruct (drop (length rows) all) eqn:Hdrop; [done|].
      apply (f_equal length) in Hdrop. rewrite length_drop in Hdrop. simpl in *. lia.
  - exists i, r, r'. split_and!; [done| |done]. unfold cursor_of. rewrite list_lookup_fmap.
    apply lookup_take_Some in Hr' as [-> _]. done.
Qed.

Lemma accepted_anchor_is_a_prefix_witness :
  (∃ rows', cursor_of [row1; row2] = cursor_of ([row1] ++ rows') ∧
     true = negb (bool_decide (rows' = []))) ∨
  ∃ i r r', [row1] !! i = Some r ∧ cursor_of [row1; row2] !! i = Some (Ok (raw_of r')) ∧
    collision (row_preimage jid r) (row_preimage jid r').
Proof.
  eapply (accepted_anchor_is_a_prefix key key jid [row1] [[x61]] (cursor_of [row1; row2])
    ScanNone None).
  - constructor; [by apply link_valid|constructor].
  - by vm_compute.
  - intros raw (r & [= ->] & _)%list_elem_of_fmap. apply raw_of_wf.
  - apply scan_chain_complete. split; [apply demo_linked|right; by vm_compute].
  - vm_compute. reflexivity.
Defined.
