(* ===== verification/JournalRun.v ===== *)
(** * Runs of the journal methods

    The invariant of an open journal and the specification of every method
    against it, under any faults and without faults. *)

From Stdlib.Strings Require Import Byte.
From S2P Require Import Prelude Bytes Crypto JournalChain JournalChainProperties JournalBackend Journal JournalInit JournalSpecs.

Lemma set_world_id {W} (j : SecureJournal W) : set_world j.(world) j = j.
Proof. by destruct j. Qed.

(** ** The invariant *)

(** The part of a database that an append leaves alone. *)
Definition frame (d : Db) : Db :=
  mkDb d.(db_version) d.(db_schema) d.(db_metadata) [] d.(db_initialization).

Definition JOURNAL_TABLES : list (string * string) :=
  [("table", METADATA); ("table", ENTRIES); ("table", INITIALIZATION)]%string.

(** A created journal without its entries: pending, and ready. *)
Definition pending_db (jid n c : bytes) : Db :=
  mkDb SCHEMA_VERSION (JOURNAL_TABLES ++ JOURNAL_TRIGGERS) [mkMeta 1 SCHEMA_VERSION jid] []
    [mkInit 1 INITIALIZATION_PENDING n c].
Definition ready_db (jid n c : bytes) : Db :=
  mkDb SCHEMA_VERSION (JOURNAL_TABLES ++ JOURNAL_TRIGGERS ++ [("trigger"%string, UPDATE_GUARD)])
    [mkMeta 1 SCHEMA_VERSION jid] [] [mkInit 1 INITIALIZATION_READY n c].

(** The key opens the key check of the initialization record. *)
Definition opens `{Aead} (k jid n c : bytes) : Prop :=
  length k = JOURNAL_KEY_BYTES ∧ length n = NONCE_BYTES ∧ blen c = INIT_CIPHERTEXT_BYTES ∧
  aead_decrypt k n (initialization_associated_data jid) c = Some INITIALIZATION_PLAINTEXT.

(** What [validate_schema] reads of a legacy database. *)
Definition legacy (d : Db) : Prop :=
  ans_required_tables d = Some 2%Z ∧ ans_user_version d = Some LEGACY_SCHEMA_VERSION ∧
  ans_metadata_rows d = Some 1%Z ∧ ans_schema_version d = Some LEGACY_SCHEMA_VERSION.

(** The journal can be opened with its stored key: the database is one that was
    created by [open] and is ready, or a legacy one. *)
Definition sealed `{Aead} (k jid : bytes) (v : View) : Prop :=
  v.(stored_key) = Some k ∧ length k = JOURNAL_KEY_BYTES ∧
  ((∃ n c, frame v.(durable) = ready_db jid n c ∧ opens k jid n c) ∨ legacy (frame v.(durable))).

(** The stored state of a journal with the given chain: the committed database
    holds it, it verifies under the key within the limits, the journal can be
    opened, and the stored anchor names a prefix of the chain. *)
Definition stored `{Sha256} `{Aead} (k jid : bytes) (rows : list Row) (evs : list bytes)
    (v : View) : Prop :=
  v.(file) = Existing ∧ holds jid rows v.(durable) ∧
  linked k jid 1 ZERO_HASH rows evs ∧
  (Z.of_nat (length rows) ≤ MAX_JOURNAL_ENTRIES)%Z ∧
  (ciphertext_total rows ≤ MAX_JOURNAL_CIPHERTEXT_BYTES)%Z ∧ sealed k jid v ∧
  ∃ a, v.(stored_anchor) = Some a ∧ anchors jid rows a.

(** What the object remembers: a prefix of the chain that it has verified. *)
Definition remembers {W} (j : SecureJournal W) (rows : list Row) : Prop :=
  ∃ n, n ≤ length rows ∧ j.(trusted_head) = head_anchor j.(journal_id) (take n rows) ∧
    j.(verified_ciphertext_bytes) = ciphertext_total (take n rows).

(** An open journal between two calls. *)
Definition journal_inv {W} `{Observed W} `{Sha256} `{Aead} (path : PathBuf)
    (j : SecureJournal W) (rows : list Row) (evs : list bytes) : Prop :=
  j.(journal_path) = path ∧ (view j.(world)).(working) = None ∧
  stored j.(cipher) j.(journal_id) rows evs (view j.(world)) ∧ remembers j rows.

Section run.
Context {W : Type} `{backend : Backend W} `{obs : Observed W} {path : PathBuf}
  `{laws : !BackendLaws W path} `{sha : Sha256} `{aead : Aead} (L : Prop).

(** ** Calls on the world of a journal *)

Lemma wp_on_world {A} (m : method W JournalError A) w j Q R :
  wp m (λ a w', Q a (set_world w' j)) (λ e w', R e (set_world w' j)) w →
  wp (on_world m) Q R (set_world w j).
Proof. intros Hm. by apply wp_on_field. Qed.

Lemma on_world_quiet {A} (m : method W JournalError A) w j P al Q R :
  quiet L m w P al → (L → reliable w) →
  (∀ a w', view w' = view w → (L → reliable w') → P a → Q a (set_world w' j)) →
  (∀ e w', view w' = view w → (L → reliable w' ∧ al e) → R e (set_world w' j)) →
  wp (on_world m) Q R (set_world w j).
Proof.
  intros Hm Hw HQ HR. apply wp_on_world. eapply wp_mono; [by apply Hm|naive_solver..].
Qed.

Lemma load_anchor_quiet w a :
  (view w).(stored_anchor) = Some a →
  quiet L load_required_anchor w (λ b, b = a) (λ _, False).
Proof using laws.
  intros Ha. unfold load_required_anchor. apply quiet_bind with (P := λ b, b = Some a).
  - apply quiet_map_err. intros Hw. eapply wp_mono; [apply load_anchor_law|..];
      unfold unchanged; naive_solver.
  - intros ? w' -> _. by apply quiet_value.
Qed.

(** The cursor of the scan: all rows, unless a fault cuts it short. *)
Lemma entries_quiet w jid rows :
  holds jid rows (visible (view w)) →
  quiet L (db select_entries) w
    (λ cursor, cursor = cursor_of rows ∨
       ¬ L ∧ ∃ n e, cursor = cursor_of (take n rows) ++ [Err e]) (λ _, False).
Proof using laws.
  intros (Ht & He & _). apply quiet_map_err. intros Hw. eapply wp_mono; [apply entries_law|..].
  - intros cursor w' (Hv & _ & Hy & Hr). split_and!; [done|naive_solver|].
    rewrite He in Hy, Hr. unfold cursor_of.
    destruct Hy as [->|(n & e & ->)]; [left; by rewrite map_map|right].
    rewrite <-fmap_take, map_map. split; [|eauto]. intros HL. destruct (Hr (Hw HL)) as [Heq _].
    assert (Err e ∈ map (@Ok string RawRow) (map raw_of rows)) as Hin by (rewrite <-Heq; set_solver).
    apply list_elem_of_fmap in Hin as (? & ? & _). done.
  - intros e w' (Hv & Hr). split; [done|]. intros HL. destruct (Hr (Hw HL)). congruence.
Qed.

Lemma cursor_raw_wf rows tail raw :
  Ok raw ∈ cursor_of rows ++ tail → (∀ raw, Ok raw ∉ tail) → raw_wf raw.
Proof.
  intros [Hin|Hin]%elem_of_app Ht; [|by apply Ht in Hin].
  apply list_elem_of_fmap in Hin as (r & [= ->] & _). apply raw_of_wf.
Qed.

Lemma cursor_of_no_err rows e : Err e ∈ cursor_of rows → False.
Proof. intros (? & ? & _)%list_elem_of_fmap. done. Qed.

(** ** Scanning *)

Lemma scan_validate_wp w j rows evs mode limits a Q R :
  (L → reliable w) → holds j.(journal_id) rows (visible (view w)) →
  linked j.(cipher) j.(journal_id) 1 ZERO_HASH rows evs →
  (view w).(stored_anchor) = Some a → anchors j.(journal_id) rows a →
  (∀ w', view w' = view w → (L → reliable w') → scannable j.(cipher) j.(journal_id) mode limits rows evs →
     Q (scan_result a.(anchor_sequence) mode rows evs,
        (a.(anchor_sequence) <? Z.of_nat (length rows))%Z) (set_world w' j)) →
  (∀ e w', view w' = view w →
     (L → reliable w' ∧ ¬ scannable j.(cipher) j.(journal_id) mode limits rows evs) →
     R e (set_world w' j)) →
  wp (scan_and_validate mode limits) Q R (set_world w j).
Proof using laws.
  intros Hw Hh Hl Ha Hpre HQ HR. unfold scan_and_validate.
  apply wp_bind, wp_get_self, wp_bind.
  eapply on_world_quiet; [by apply load_anchor_quiet|done| |naive_solver].
  intros ? w1 Hv1 Hw1 ->. apply wp_bind.
  eapply on_world_quiet; [apply (entries_quiet w1 j.(journal_id) rows); by rewrite Hv1|done| |].
  2: { intros e w' Hv' He. apply HR; [congruence|naive_solver]. }
  intros cursor w2 Hv2 Hw2 Hc. rewrite Hv1 in Hv2. apply wp_bind, wp_lift.
  - intros scan Hscan. cbn in Hscan.
    apply scan_chain_sound in Hscan as (rows' & evs' & Hcur & Hsc & ->);
      [|destruct Hc as [->|[_ (n & e & ->)]]; intros raw Hin;
        [rewrite <-(app_nil_r (cursor_of rows)) in Hin|]; eapply cursor_raw_wf; [done|set_solver..]].
    destruct Hc as [Heq|[_ (n & e & ->)]];
      [|exfalso; apply (cursor_of_no_err rows' e); rewrite <-Hcur; set_solver].
    assert (rows' = rows) as ->.
    { rewrite Heq in Hcur. by apply (inj cursor_of) in Hcur. }
    destruct Hsc as [Hl' Hwithin]. rewrite (linked_fun _ _ _ _ _ _ _ Hl' Hl) in *.
    assert (validate_anchor a (scan_result (anchor_sequence a) mode rows evs) j.(journal_id)
            = Ok (anchor_sequence a <? Z.of_nat (length rows))%Z) as Hval.
    { apply validate_anchor_spec; [by destruct Hpre as (_ & [? _] & _)|by split]. }
    cbn. rewrite Hval. by apply HQ.
  - intros e Herr. apply HR; [done|]. intros HL. split; [auto|]. intros Hsc.
    destruct Hc as [->|[Hn _]]; [|done]. cbn in Herr.
    rewrite (scan_chain_complete _ _ _ _ _ _ _ Hsc) in Herr. done.
Qed.

(** ** Transactions and stores *)

Lemma in_transaction_wp {A} (body : method (SecureJournal W) JournalError A) w j Q R :
  (view w).(working) = None → (L → reliable w) →
  (∀ w', view w' = set_working (Some (view w).(durable)) (view w) → (L → reliable w') →
     wp body Q (λ e j', R e (set_world (drop_transaction j'.(world)) j')) (set_world w' j)) →
  (∀ e w', view w' = view w → ¬ L → R e (set_world w' j)) →
  wp (in_transaction body) Q R (set_world w j).
Proof using laws.
  intros Hidle Hw Hbody HR. unfold in_transaction, with_transaction. apply wp_bind.
  apply wp_on_field, wp_map_err. eapply wp_mono; [apply begin_law|..].
  - intros [] w' [[_ Hv] Hr]. apply wp_on_error. apply Hbody; [done|auto].
  - intros e w' [Hv Hr]. apply HR; [exact Hv|]. intros HL.
    destruct (Hr (Hw HL)) as [[d Hd] _]. cbn in Hd. congruence.
Qed.

Lemma ensure_hardened_wp w j Q R :
  path_ok (path := path) → j.(journal_path) = path → (view w).(file) = Existing →
  (L → reliable w) →
  (∀ w', view w' = view w → (L → reliable w') → Q tt (set_world w' j)) →
  (∀ e w', view w' = view w → ¬ L → R e (poison (set_world w' j))) →
  wp ensure_hardened Q R (set_world w j).
Proof using laws.
  intros Hp Hj Hf Hw HQ HR. unfold ensure_hardened. apply wp_bind, wp_get_self, wp_on_error.
  cbn. rewrite Hj. eapply on_world_quiet; [by apply harden_quiet|done|..].
  - intros [] w' Hv Hw' _. by apply HQ.
  - intros e w' Hv He. apply HR; [done|]. intros HL. destruct (He HL) as [_ Hm]. congruence.
Qed.

Lemma store_anchor_wp w j a Q R :
  (L → reliable w) →
  (∀ w', view w' = set_anchor a (view w) → (L → reliable w') → Q tt (set_world w' j)) →
  (∀ e w', view w' = view w ∨ view w' = set_anchor a (view w) → ¬ L →
     R e (poison (set_world w' j))) →
  wp (on_error poison (on_world (secret (store_anchor a)))) Q R (set_world w j).
Proof using laws.
  intros Hw HQ HR. apply wp_on_error, wp_on_world, wp_map_err.
  eapply wp_mono; [apply store_anchor_law|..].
  - intros [] w' [Hv Hr]. apply HQ; [done|auto].
  - intros e w' [Hv Hr]. apply HR; [done|]. intros HL. by destruct (Hr (Hw HL)).
Qed.

Lemma commit_wp w j Q R :
  (L → reliable w) →
  (∀ w', view w' = set_durable (visible (view w)) (view w) → (L → reliable w') →
     Q tt (set_world w' j)) →
  (∀ e w', view w' = set_working None (view w) ∨
           view w' = set_durable (visible (view w)) (view w) → ¬ L → R e (set_world w' j)) →
  wp (on_world (db commit)) Q R (set_world w j).
Proof using laws.
  intros Hw HQ HR. apply wp_on_world, wp_map_err. eapply wp_mono; [apply commit_law|..].
  - intros [] w' [Hv Hr]. apply HQ; [done|auto].
  - intros e w' [Hv Hr]. apply HR; [done|]. intros HL. by destruct (Hr (Hw HL)).
Qed.

(** ** Verification *)

(** The view after a commit that changed no row, with a given anchor. *)
Definition settled (v : View) (a : option JournalAnchor) : View :=
  mkView v.(file) v.(durable) None v.(stored_key) a.

Lemma stored_settled k jid rows evs v a :
  stored k jid rows evs v → anchors jid rows a → stored k jid rows evs (settled v (Some a)).
Proof. intros (? & ? & ? & ? & ? & ? & _) Ha. unfold stored. simpl. split_and!; eauto. Qed.

Lemma stored_idle k jid rows evs v :
  stored k jid rows evs v → stored k jid rows evs (settled v v.(stored_anchor)).
Proof. intros (? & ? & ? & ? & ? & ? & ?). unfold stored. by split_and!. Qed.

(** Evaluates the operations on views. *)
Ltac views := unfold settled, set_working, set_durable, set_anchor, set_key, set_file, visible; cbn.

(** The journals that differ from [j] in their world, health and verified head. *)
Definition same_journal (j j' : SecureJournal W) : Prop :=
  j'.(cipher) = j.(cipher) ∧ j'.(journal_id) = j.(journal_id) ∧
  j'.(journal_path) = j.(journal_path).

Lemma settled_inv j j' rows evs a :
  journal_inv path j rows evs → same_journal j j' → remembers j' rows →
  view j'.(world) = settled (view j.(world)) (Some a) → anchors j.(journal_id) rows a →
  journal_inv path j' rows evs.
Proof.
  intros (Hp & _ & Hs & _) (Hc & Hi & Hpath) Hr Hv Ha. unfold journal_inv.
  rewrite Hpath, Hv, Hc, Hi. split_and!; [done|done|by apply stored_settled|done].
Qed.

Lemma remembers_all (j : SecureJournal W) rows :
  j.(trusted_head) = head_anchor j.(journal_id) rows →
  j.(verified_ciphertext_bytes) = ciphertext_total rows → remembers j rows.
Proof. intros. exists (length rows). by rewrite firstn_all. Qed.

(** What a verification leaves behind: the anchor is at the head, or as before. *)
Definition after_scan (rows : list Row) (j j' : SecureJournal W) : Prop :=
  same_journal j j' ∧
  (view j'.(world) = settled (view j.(world)) (view j.(world)).(stored_anchor) ∨
   view j'.(world) = settled (view j.(world)) (Some (head_anchor j.(journal_id) rows))).

Lemma after_scan_inv j j' rows evs :
  journal_inv path j rows evs → after_scan rows j j' → remembers j' rows →
  journal_inv path j' rows evs.
Proof.
  intros Hinv [Hsame [Hv|Hv]] Hr.
  - destruct Hinv as (? & ? & (? & ? & ? & ? & ? & ? & a & Ha & Hpre) & ?). rewrite Ha in Hv.
    eapply settled_inv; eauto. split_and!; try done. unfold stored. eauto 10.
  - eapply settled_inv; eauto. apply head_anchor_anchors.
Qed.

(** Outcome of a verification of a journal with chain [rows]. *)
Definition scan_ok (mode : ScanMode) (rows : list Row) (evs : list bytes) (j : SecureJournal W)
    (scan : ChainScan) (j' : SecureJournal W) : Prop :=
  (∃ n, scan = scan_result n mode rows evs) ∧
  j.(healthy) = true ∧ j'.(healthy) = true ∧
  scannable j.(cipher) j.(journal_id) mode None rows evs ∧
  same_journal j j' ∧ j'.(trusted_head) = head_anchor j.(journal_id) rows ∧
  j'.(verified_ciphertext_bytes) = ciphertext_total rows ∧
  view j'.(world) = settled (view j.(world)) (Some (head_anchor j.(journal_id) rows)) ∧
  (L → reliable j'.(world)).

Definition scan_failed (mode : ScanMode) (rows : list Row) (evs : list bytes) (j : SecureJournal W)
    (e : JournalError) (j' : SecureJournal W) : Prop :=
  after_scan rows j j' ∧ j'.(trusted_head) = j.(trusted_head) ∧
  j'.(verified_ciphertext_bytes) = j.(verified_ciphertext_bytes) ∧
  (j.(healthy) = false → j' = j ∧ e = Poisoned) ∧
  (L → reliable j'.(world) ∧ j'.(healthy) = j.(healthy) ∧
     (j.(healthy) = false ∨ ¬ scannable j.(cipher) j.(journal_id) mode None rows evs)).

Lemma scan_failed_intro mode rows evs j e j' :
  j.(healthy) = true → same_journal j j' → j'.(trusted_head) = j.(trusted_head) →
  j'.(verified_ciphertext_bytes) = j.(verified_ciphertext_bytes) →
  (view j'.(world) = settled (view j.(world)) (view j.(world)).(stored_anchor) ∨
   view j'.(world) = settled (view j.(world)) (Some (head_anchor j.(journal_id) rows))) →
  (L → reliable j'.(world) ∧ j'.(healthy) = true ∧
     ¬ scannable j.(cipher) j.(journal_id) mode None rows evs) →
  scan_failed mode rows evs j e j'.
Proof. intros Hh Hs Ht Hv Hview HL. unfold scan_failed, after_scan. rewrite Hh. naive_solver. Qed.

Lemma settled_idle v : v.(working) = None → settled v v.(stored_anchor) = v.
Proof. destruct v. simpl. by intros ->. Qed.

(** Dropping the transaction of a scan leaves what was committed before. *)
Lemma drop_settled w v a :
  view w = mkView v.(file) v.(durable) (Some v.(durable)) v.(stored_key) a →
  view (drop_transaction w) = settled v a ∧ (reliable w → reliable (drop_transaction w)).
Proof using laws.
  intros Hv. destruct (drop_transaction_law (path := path) w) as [Hd Hr]. by rewrite Hd, Hv.
Qed.

Lemma anchors_head jid rows a :
  anchors jid rows a → (a.(anchor_sequence) <? Z.of_nat (length rows))%Z = false →
  a = head_anchor jid rows.
Proof.
  intros (Hj & Hr & Hh) Hlag. destruct a as [i n h]. cbn in *.
  assert (n = Z.of_nat (length rows)) as -> by lia.
  rewrite Nat2Z.id, firstn_all in Hh. by subst.
Qed.

Lemma recover_wp w j rows a Q R :
  (view w).(stored_anchor) = Some a → anchors j.(journal_id) rows a → (L → reliable w) →
  (∀ w', view w' = set_anchor (head_anchor j.(journal_id) rows) (view w) → (L → reliable w') →
     Q tt (set_world w' j)) →
  (∀ e w', view w' = view w ∨ view w' = set_anchor (head_anchor j.(journal_id) rows) (view w) →
     ¬ L → R e (poison (set_world w' j))) →
  wp (recover_anchor (a.(anchor_sequence) <? Z.of_nat (length rows))%Z
        (head_anchor j.(journal_id) rows)) Q R (set_world w j).
Proof using laws.
  intros Ha Hpre Hw HQ HR. unfold recover_anchor.
  destruct (_ <? _)%Z eqn:Hlag; [by apply store_anchor_wp|].
  apply wp_ret, HQ; [|done]. apply (anchors_head _ _ _ Hpre) in Hlag as <-.
  unfold set_anchor. destruct (view w). simpl in *. by subst.
Qed.

Lemma verified_scan_wp j rows evs mode :
  path_ok (path := path) → journal_inv path j rows evs → (L → reliable j.(world)) →
  wp (verified_scan mode) (scan_ok mode rows evs j) (scan_failed mode rows evs j) j.
Proof using laws.
  intros Hpath (Hp & Hidle & (Hf & Hh & Hl & Hn & Hc & Hse & a & Ha & Hpre) & Hrem) Hw.
  destruct j as [w k jid p th vb ok]. cbn in *. subst p.
  set (j := mkJournal w k jid path th vb ok).
  unfold verified_scan. apply wp_bind, wp_get_self, wp_bind, wp_fail_if.
  { intros Hok%negb_true_iff. cbn in Hok. subst ok. unfold scan_failed, after_scan, same_journal.
    cbn. rewrite settled_idle by done. naive_solver. }
  intros Hok%negb_false_iff. cbn in Hok. subst ok. change j with (set_world w j). apply wp_bind.
  apply ensure_hardened_wp; [done..| |].
  2: { intros e w1 Hv1 HL. apply scan_failed_intro; try done. left. cbn. by rewrite settled_idle. }
  intros w1 Hv1 Hw1. apply in_transaction_wp; [by rewrite Hv1|done| |].
  2: { intros e w2 Hv2 HL. apply scan_failed_intro; try done. left. cbn.
       rewrite settled_idle by done. congruence. }
  intros w2 Hv2 Hw2. rewrite Hv1 in Hv2. apply wp_bind.
  assert (∀ w x, view w = set_working (Some (durable (view j.(world)))) (view j.(world)) ∨
            view w = set_anchor x (set_working (Some (durable (view j.(world)))) (view j.(world))) →
            view (drop_transaction w) = settled (view j.(world)) (stored_anchor (view j.(world))) ∨
            view (drop_transaction w) = settled (view j.(world)) (Some x)) as Hdrop.
  { intros w' x [Hx|Hx]; [left|right]; by apply drop_settled in Hx as [-> _]. }
  eapply (scan_validate_wp w2 j rows evs mode None a); [done|by rewrite Hv2|done|by rewrite Hv2|done|..].
  2: { intros e w3 Hv3 Hsc. apply scan_failed_intro; try done.
       - cbn. left. rewrite Hv2 in Hv3. by apply drop_settled in Hv3 as [-> _].
       - cbn. intros HL. split_and!; [|done|by apply Hsc].
         rewrite Hv2 in Hv3. apply drop_settled in Hv3 as [_ Hr]. apply Hr, Hsc, HL. }
  intros w3 Hv3 Hw3 Hsc. rewrite Hv2 in Hv3. apply wp_bind.
  eapply (recover_wp w3 j rows a); [by rewrite Hv3|done|done| |].
  2: { intros e w4 Hv4 HL. rewrite Hv3 in Hv4. apply scan_failed_intro; try done.
       cbn. by apply Hdrop. }
  intros w4 Hv4 Hw4. rewrite Hv3 in Hv4. apply wp_bind, commit_wp; [done| |].
  2: { intros e w5 Hv5 HL. apply scan_failed_intro; try done. cbn. right.
       destruct (drop_transaction_law (path := path) w5) as [Hd _]. rewrite Hd.
       destruct Hv5 as [-> | ->]; rewrite Hv4; views; by rewrite ?Hf. }
  intros w5 Hv5 Hw5. apply wp_bind, wp_modify, wp_ret. unfold scan_ok, same_journal. cbn.
  split_and!; try done; [by eexists|]. rewrite Hv5, Hv4. views. by rewrite Hf.
Qed.

(** ** Appending *)

Lemma insert_ordered_last r rows :
  Forall (λ x, (x.(row_sequence) < r.(row_sequence))%Z) rows →
  insert_ordered (raw_of r) (map raw_of rows) = map raw_of (rows ++ [r]).
Proof.
  induction 1 as [|x rows Hx _ IH]; [done|]. cbn [map insert_ordered app].
  unfold raw_sequence. cbn. destruct (Z.ltb_spec (row_sequence r) (row_sequence x)); [lia|].
  by f_equal.
Qed.

Lemma linked_below k jid rows evs :
  linked k jid 1 ZERO_HASH rows evs →
  Forall (λ x, (x.(row_sequence) < Z.of_nat (length rows) + 1)%Z) rows.
Proof.
  intros Hl. apply Forall_lookup_2. intros i x Hx.
  rewrite (linked_sequences _ _ _ _ _ _ _ _ Hl Hx). apply lookup_lt_Some in Hx. lia.
Qed.

(** Inserting the next row appends it to the chain. *)
Lemma insert_holds k jid rows evs r d d' :
  holds jid rows d → linked k jid 1 ZERO_HASH rows evs →
  r.(row_sequence) = (Z.of_nat (length rows) + 1)%Z →
  do_insert_entry r d = Some (tt, d') → holds jid (rows ++ [r]) d'.
Proof.
  intros (Ht & He & Hj & Hlen) Hl Hseq Hins. unfold do_insert_entry in Hins.
  destruct (_ && _); [|done]. injection Hins as <-. unfold holds. cbn. split_and!; try done.
  rewrite He. apply insert_ordered_last. rewrite Hseq. by eapply linked_below.
Qed.

Lemma insert_frame r d d' : do_insert_entry r d = Some (tt, d') → frame d' = frame d.
Proof. unfold do_insert_entry. destruct (_ && _); [|done]. by intros [= <-]. Qed.

(** The insertion is refused only when the nonce was used before. *)
Lemma insert_refused k jid rows evs r ev d :
  holds jid rows d → linked k jid 1 ZERO_HASH rows evs →
  row_valid k jid (Z.of_nat (length rows) + 1) (last_hash ZERO_HASH rows) r ev →
  do_insert_entry r d = None → r.(row_nonce) ∈ map row_nonce rows.
Proof.
  intros (Ht & He & _) Hl (Hseq & _ & Hn & Hp & Hh & _ & _ & Hev & Hct) Hins.
  unfold do_insert_entry in Hins. rewrite Ht, Hn, Hp, Hh, !eq_refl_true, He in Hins.
  destruct (decide (row_nonce r ∈ map row_nonce rows)) as [|Hnew]; [done|exfalso].
  rewrite (proj2 (forallb_forall _ (map raw_of rows))) in Hins.
  - pose proof (blen_nonneg ev). destruct (Z.leb_spec AEAD_TAG_BYTES (blen (row_ciphertext r)));
      [done|]. rewrite Hct in *. lia.
  - intros raw Hin. apply list_elem_of_In, list_elem_of_fmap in Hin as (x & -> & Hx).
    apply linked_below in Hl.
    rewrite Forall_forall in Hl. specialize (Hl x Hx). unfold raw_sequence. cbn.
    apply andb_true_iff. split; apply bool_decide_eq_true; [lia|].
    intros [= Heq]. apply Hnew. rewrite <-Heq. apply list_elem_of_fmap. eauto.
Qed.

(** In a run without faults the entropy source does not repeat a nonce of the rows.
    [reliable] is closed under the operations, so that this is a statement about
    the nonces that the run can still draw. *)
Definition fresh_nonce (rows : list Row) : Prop :=
  ∀ w : W, reliable w → (fill_bytes NONCE_BYTES w).2 ∉ map row_nonce rows.

(** The row that [append_expected] builds. *)
Definition new_row (jid : bytes) (rows : list Row) (nonce ciphertext : bytes) : Row :=
  let seq := (Z.of_nat (length rows) + 1)%Z in
  mkRow seq nonce ciphertext (last_hash ZERO_HASH rows)
    (hash_entry jid seq (last_hash ZERO_HASH rows) nonce ciphertext).

Lemma new_row_valid `{!Sha256Laws} `{!AeadLaws} k jid rows evs nonce event c :
  linked k jid 1 ZERO_HASH rows evs → length nonce = NONCE_BYTES →
  (blen event ≤ MAX_EVENT_BYTES)%Z →
  aead_encrypt k nonce (associated_data jid (Z.of_nat (length rows) + 1)
    (last_hash ZERO_HASH rows)) event = Some c →
  row_valid k jid (Z.of_nat (length rows) + 1) (last_hash ZERO_HASH rows)
    (new_row jid rows nonce c) event.
Proof.
  intros Hl Hn He Henc. unfold row_valid, new_row. cbn. split_and!; try done.
  - by eapply linked_last_hash.
  - apply length_sha256.
  - by apply aead_roundtrip.
  - by eapply aead_length.
Qed.

Lemma linked_snoc k jid rows evs r ev :
  linked k jid 1 ZERO_HASH rows evs →
  row_valid k jid (Z.of_nat (length rows) + 1) (last_hash ZERO_HASH rows) r ev →
  linked k jid 1 ZERO_HASH (rows ++ [r]) (evs ++ [ev]).
Proof.
  intros Hl Hv. eapply linked_app; [done|]. rewrite Z.add_comm. constructor; [done|constructor].
Qed.

Lemma ciphertext_total_app rows rows' :
  ciphertext_total (rows ++ rows') = (ciphertext_total rows + ciphertext_total rows')%Z.
Proof. induction rows as [|r rows IH]; cbn; [done|]. unfold ciphertext_total in *. rewrite IH. lia. Qed.

(** Why an append is refused without a fault. *)
Definition refused (expected : JournalAnchor) (event : bytes) (rows : list Row)
    (j : SecureJournal W) : Prop :=
  j.(healthy) = false ∨ (MAX_EVENT_BYTES < blen event)%Z ∨ expected ≠ j.(trusted_head) ∨
  (view j.(world)).(stored_anchor) ≠ Some expected ∨ expected ≠ head_anchor j.(journal_id) rows ∨
  (MAX_JOURNAL_ENTRIES < Z.of_nat (length rows) + 1)%Z ∨
  (MAX_JOURNAL_CIPHERTEXT_BYTES < ciphertext_total rows + blen event + AEAD_TAG_BYTES)%Z ∨
  ¬ fresh_nonce rows.

Definition append_ok (expected : JournalAnchor) (event : bytes) (rows : list Row)
    (evs : list bytes) (j : SecureJournal W) (entry : JournalEntry) (j' : SecureJournal W) : Prop :=
  ∃ r, entry = entry_of r event ∧ expected = head_anchor j.(journal_id) rows ∧
    same_journal j j' ∧ j.(healthy) = true ∧ j'.(healthy) = true ∧
    journal_inv path j' (rows ++ [r]) (evs ++ [event]) ∧
    j'.(trusted_head) = head_anchor j.(journal_id) (rows ++ [r]) ∧
    (view j'.(world)).(stored_anchor) = Some j'.(trusted_head) ∧
    (L → reliable j'.(world)).

Definition append_failed (expected : JournalAnchor) (event : bytes) (rows : list Row)
    (evs : list bytes) (j : SecureJournal W) (e : JournalError) (j' : SecureJournal W) : Prop :=
  same_journal j j' ∧ j'.(trusted_head) = j.(trusted_head) ∧
  j'.(verified_ciphertext_bytes) = j.(verified_ciphertext_bytes) ∧
  (j.(healthy) = false → j' = j ∧ e = Poisoned) ∧
  (view j'.(world) = view j.(world) ∨
   j'.(healthy) = false ∧ expected = head_anchor j.(journal_id) rows ∧
     ∃ r, journal_inv path j' (rows ++ [r]) (evs ++ [event])) ∧
  (L → reliable j'.(world) ∧ j'.(healthy) = j.(healthy) ∧ view j'.(world) = view j.(world) ∧
     refused expected event rows j).

Lemma append_failed_intro expected event rows evs j e j' :
  j.(healthy) = true → same_journal j j' → j'.(trusted_head) = j.(trusted_head) →
  j'.(verified_ciphertext_bytes) = j.(verified_ciphertext_bytes) →
  view j'.(world) = view j.(world) →
  (L → reliable j'.(world) ∧ j'.(healthy) = true ∧ refused expected event rows j) →
  append_failed expected event rows evs j e j'.
Proof. intros Hh Hs Ht Hb Hv HL. unfold append_failed. rewrite Hh. naive_solver. Qed.

(** The remembered head is the whole chain when it is the head. *)
Lemma remembers_head (j : SecureJournal W) rows :
  remembers j rows → j.(trusted_head) = head_anchor j.(journal_id) rows →
  j.(verified_ciphertext_bytes) = ciphertext_total rows.
Proof.
  intros (n & Hn & Ht & Hb) Hh. rewrite Hh in Ht. injection Ht as Hlen _.
  rewrite length_take in Hlen. rewrite Hb, firstn_all2 by lia. done.
Qed.

Lemma remembers_app (j : SecureJournal W) rows r : remembers j rows → remembers j (rows ++ [r]).
Proof.
  intros (n & Hn & Ht & Hb). exists n. rewrite length_app, take_app_le by lia.
  split_and!; [simpl; lia|done|done].
Qed.

Lemma random_bytes_wp n w j Q R :
  (L → reliable w) →
  (∀ b w', view w' = view w → (L → reliable w') → length b = n → b = (fill_bytes n w).2 →
     Q b (set_world w' j)) →
  wp (on_world (random_bytes n)) Q R (set_world w j).
Proof using laws.
  intros Hw HQ. apply wp_on_world. unfold wp, random_bytes.
  destruct (fill_bytes_law (path := path) n w) as (Hv & Hl & Hr).
  destruct (fill_bytes n w) as [w' b] eqn:Hb. cbn in *. apply HQ; auto.
Qed.

(** A journal whose database gained the row [r]. *)
Lemma grown_inv `{!Sha256Laws} `{!AeadLaws} j j' rows evs r event d a :
  journal_inv path j rows evs → same_journal j j' → remembers j' (rows ++ [r]) →
  row_valid j.(cipher) j.(journal_id) (Z.of_nat (length rows) + 1) (last_hash ZERO_HASH rows) r event →
  (Z.of_nat (length rows) + 1 ≤ MAX_JOURNAL_ENTRIES)%Z →
  (ciphertext_total rows + blen r.(row_ciphertext) ≤ MAX_JOURNAL_CIPHERTEXT_BYTES)%Z →
  do_insert_entry r (view j.(world)).(durable) = Some (tt, d) →
  view j'.(world) = mkView Existing d None (view j.(world)).(stored_key) (Some a) →
  anchors j.(journal_id) (rows ++ [r]) a →
  journal_inv path j' (rows ++ [r]) (evs ++ [event]).
Proof.
  intros (Hp & _ & (Hf & Hh & Hl & Hn & Hc & Hse & _) & _) (Hci & Hji & Hpa) Hrem Hv Hmax Hct Hins Hview Ha.
  unfold journal_inv, stored. rewrite Hpa, Hview, Hci, Hji. cbn. split_and!; try done.
  - eapply insert_holds; eauto. by destruct Hv as [? _].
  - by apply linked_snoc.
  - rewrite length_app. simpl. lia.
  - rewrite ciphertext_total_app. cbn. lia.
  - unfold sealed in *. cbn. by rewrite (insert_frame _ _ _ Hins).
  - eauto.
Qed.

(** The end of an append, in a transaction that has inserted the row. *)
Lemma commit_append_wp w j d a new n Q R :
  path_ok (path := path) → j.(journal_path) = path →
  (view w).(working) = Some d → (view w).(stored_anchor) = Some a → (L → reliable w) →
  (∀ w', view w' = mkView Existing d None (view w).(stored_key) (Some new) →
     (L → reliable w') → Q tt (set_verified new n (set_world w' j))) →
  (∀ e w', ¬ L →
     (view w').(working) = None → (view w').(stored_key) = (view w).(stored_key) →
     (view w' = set_working None (view w) ∨
      (view w').(file) = Existing ∧ (view w').(durable) = d ∧
        ((view w').(stored_anchor) = Some a ∨ (view w').(stored_anchor) = Some new)) →
     R e (set_world w' (poison j))) →
  wp (commit_append new n) Q (λ e j', R e (set_world (drop_transaction j'.(world)) j'))
    (set_world w j).
Proof using laws.
  intros Hpath Hj Hwork Ha Hw HQ HR. unfold commit_append. apply wp_bind, wp_get_self.
  assert (∀ e w', ¬ L → (view w').(stored_key) = (view w).(stored_key) →
     (set_working None (view w') = set_working None (view w) ∨
      (view w').(file) = Existing ∧ (view w').(durable) = d ∧
        ((view w').(stored_anchor) = Some a ∨ (view w').(stored_anchor) = Some new)) →
     R e (set_world (drop_transaction w') (poison j))) as HR'.
  { intros e w' HL Hk Hv. destruct (drop_transaction_law (path := path) w') as [Hd _].
    apply HR; [done|by rewrite Hd..|]. rewrite Hd. destruct Hv as [->|Hv]; [by left|by right]. }
  apply wp_bind, wp_on_error, commit_wp; [done| |].
  2: { intros e w1 Hv HL. apply (HR' e w1); [done|destruct Hv as [-> | ->]; done|].
       unfold visible in Hv. rewrite Hwork in Hv. destruct Hv as [-> | ->]; views; rewrite ?Ha; auto. }
  intros w1 Hv1 Hw1. unfold visible in Hv1. rewrite Hwork in Hv1. cbn in Hv1.
  apply wp_bind, wp_on_error. cbn. rewrite Hj.
  eapply on_world_quiet; [by apply harden_quiet|done| |].
  2: { intros e w2 Hv2 HL. rewrite Hv1 in Hv2. apply (HR' e w2); rewrite ?Hv2;
         [|done|views; rewrite Ha; auto].
       intros HL'. destruct (HL HL') as [_ Hm]. by rewrite Hv1 in Hm. }
  intros _ w2 Hv2 Hw2 _. rewrite Hv1 in Hv2. apply wp_bind, store_anchor_wp; [done| |].
  2: { intros e w3 Hv3 HL. rewrite Hv2 in Hv3. apply (HR' e w3);
         [done|destruct Hv3 as [-> | ->]; done|destruct Hv3 as [-> | ->]; views; rewrite ?Ha; auto]. }
  intros w3 Hv3 Hw3. apply wp_modify, HQ; [|done]. by rewrite Hv3, Hv2.
Qed.

(** Aborting an append before its commit. *)
Lemma append_abort expected event rows evs j e w :
  j.(healthy) = true → (view j.(world)).(working) = None →
  (∃ d, view w = set_working (Some d) (view j.(world))) →
  (L → reliable w ∧ refused expected event rows j) →
  append_failed expected event rows evs j e
    (set_world (drop_transaction (set_world w j).(world)) (set_world w j)).
Proof using laws.
  intros Hh Hidle [d Hv] HL. destruct (drop_transaction_law (path := path) w) as [Hd Hr].
  apply append_failed_intro; try done; cbn.
  - rewrite Hd, Hv. destruct (view j.(world)). simpl in *. by subst.
  - intros Hl. destruct (HL Hl). split_and!; auto.
Qed.

Lemma head_anchor_snoc jid rows nonce c :
  head_anchor jid (rows ++ [new_row jid rows nonce c]) =
  mkAnchor jid (Z.of_nat (length rows) + 1) (new_row jid rows nonce c).(row_entry_hash).
Proof.
  unfold head_anchor. rewrite last_hash_snoc, length_app. cbn [length]. f_equal. lia.
Qed.

(** The insertion and the end of an append, once everything is checked. *)
Lemma append_insert_wp `{!Sha256Laws} `{!AeadLaws} w j rows evs event nonce c :
  path_ok (path := path) → journal_inv path j rows evs → j.(healthy) = true →
  j.(trusted_head) = head_anchor j.(journal_id) rows →
  view w = set_working (Some (view j.(world)).(durable)) (view j.(world)) → (L → reliable w) →
  (view j.(world)).(stored_anchor) = Some (head_anchor j.(journal_id) rows) →
  (Z.of_nat (length rows) + 1 ≤ MAX_JOURNAL_ENTRIES)%Z →
  (ciphertext_total rows + blen c ≤ MAX_JOURNAL_CIPHERTEXT_BYTES)%Z →
  row_valid j.(cipher) j.(journal_id) (Z.of_nat (length rows) + 1) (last_hash ZERO_HASH rows)
    (new_row j.(journal_id) rows nonce c) event →
  (L → nonce ∈ map row_nonce rows → ¬ fresh_nonce rows) →
  let r := new_row j.(journal_id) rows nonce c in
  wp (on_world (db (insert_entry r));;
      commit_append (head_anchor j.(journal_id) (rows ++ [r])) (ciphertext_total rows + blen c);;
      mret (entry_of r event))
    (append_ok (head_anchor j.(journal_id) rows) event rows evs j)
    (λ e j', append_failed (head_anchor j.(journal_id) rows) event rows evs j e
       (set_world (drop_transaction j'.(world)) j')) (set_world w j).
Proof using laws.
  intros Hpath Hinv Hok Ht Hv Hw Ha Hmax Hct Hrow Hfresh r. subst r.
  set (r := new_row _ _ _ _) in *. pose proof Hinv as (Hp & Hidle & (Hf & Hh & Hl & _) & Hrem).
  apply wp_bind, wp_on_world, wp_map_err. eapply wp_mono; [apply insert_entry_law|..].
  2: { intros e w' [Hv' Hr]. apply append_abort; [done|done|exists (durable (view (world j)));
         by rewrite Hv'|].
       intros HL. destruct (Hr (Hw HL)) as [Href Hrel]. split; [done|]. do 7 right.
       apply Hfresh; [done|]. rewrite Hv in Href.
       by eapply (insert_refused _ _ _ _ _ _ _ Hh Hl Hrow). }
  intros [] w1 [(d & Hins & Hv1) Hr1]. rewrite Hv in Hins, Hv1. cbn in Hins.
  apply wp_bind. eapply (commit_append_wp w1 j d (head_anchor j.(journal_id) rows));
    [done|done|by rewrite Hv1|by rewrite Hv1|auto|..].
  - intros w2 Hv2 Hw2. rewrite Hv1 in Hv2. apply wp_ret. exists r.
    split_and!; try done; cbn; [|by rewrite Hv2].
    eapply (grown_inv j); eauto; [done|..].
    + apply remembers_all; [done|]. cbn. rewrite ciphertext_total_app. cbn. lia.
    + apply head_anchor_anchors.
  - intros e w2 HL Hwork Hk Hw2. rewrite Hv1 in Hk, Hw2. unfold append_failed. cbn.
    split_and!; try done; [by rewrite Hok|]. destruct Hw2 as [Hw2|(Hfile & Hd & Han)]; [left|right].
    + rewrite Hw2. views. rewrite <-Hidle. by destruct (view j.(world)).
    + split_and!; [done|done|]. exists r.
      eapply (grown_inv j _ rows evs r event d
        (default (head_anchor j.(journal_id) rows) (view w2).(stored_anchor)));
        eauto; [done|by apply remembers_app|..].
      * cbn. destruct (view w2). cbn in *. subst. destruct Han as [-> | ->]; cbn; by rewrite ?Hk.
      * destruct Han as [-> | ->]; cbn; [|apply head_anchor_anchors].
        apply anchors_app, head_anchor_anchors.
Qed.

(** The body of the append transaction, after the cheap checks. *)
Lemma append_body_wp `{!Sha256Laws} `{!AeadLaws} w j rows evs expected event :
  path_ok (path := path) → journal_inv path j rows evs → j.(healthy) = true →
  (blen event ≤ MAX_EVENT_BYTES)%Z → expected = j.(trusted_head) →
  view w = set_working (Some (view j.(world)).(durable)) (view j.(world)) → (L → reliable w) →
  wp (append_body j expected event) (append_ok expected event rows evs j)
    (λ e j', append_failed expected event rows evs j e
       (set_world (drop_transaction j'.(world)) j')) (set_world w j).
Proof using laws.
  intros Hpath Hinv Hok Hev Ht Hv Hw.
  pose proof Hinv as (Hp & Hidle & (Hf & Hh & Hl & Hn & Hc & Hse & a & Ha & Hpre) & Hrem).
  assert (∀ e w', view w' = view w → (L → reliable w' ∧ refused expected event rows j) →
            append_failed expected event rows evs j e
              (set_world (drop_transaction (set_world w' j).(world)) (set_world w' j))) as Habort.
  { intros e w' Hv' HL. apply append_abort; [done|done|eexists; by rewrite Hv', Hv|done]. }
  unfold append_body. apply wp_bind.
  eapply on_world_quiet; [apply load_anchor_quiet; by rewrite Hv|done| |].
  2: { intros e w' Hv' HL. apply Habort; [done|]. intros HL'. by destruct (HL HL'). }
  intros ? w1 Hv1 Hw1 ->. apply wp_bind, wp_fail_if.
  { intros Hne%bool_decide_eq_true_1. by destruct Hpre as [? _]. }
  intros _. apply wp_bind, wp_fail_if.
  { intros Hne%bool_decide_eq_true_1. apply Habort; [done|]. intros HL. split; [auto|].
    do 3 right. left. congruence. }
  intros ->%bool_decide_not_false_1; [|apply _]. apply wp_bind.
  eapply on_world_quiet; [apply expected_head_quiet with (rows := rows) (evs := evs)|done|..];
    [by rewrite Hv1, Hv|done|done| |].
  2: { intros e w2 Hv2 HL. apply Habort; [congruence|]. intros HL'. destruct (HL HL'). split; [auto|].
       do 4 right. by left. }
  intros [] w2 Hv2 Hw2 Hhead. rewrite Hhead in *. cbn [anchor_sequence anchor_entry_hash head_anchor].
  apply wp_bind, wp_lift.
  2: { unfold checked_add_u64. intros e He. destruct (Z.leb_spec (Z.of_nat (length rows) + 1) U64_MAX);
         [done|]. journal_limits. lia. }
  intros seq [-> _]%ok_or_Ok_1%checked_add_u64_Some. apply wp_bind, wp_fail_if.
  { intros Hbig. apply Habort; [congruence|]. intros HL. split; [auto|]. do 5 right. left. lia. }
  intros Hmax. apply wp_bind, random_bytes_wp; [done|].
  intros nonce w3 Hv3 Hw3 Hnl Hnonce. apply wp_bind, wp_lift.
  2: { intros e He. destruct (aead_total (cipher j) nonce (associated_data (journal_id j)
         (Z.of_nat (length rows) + 1) (last_hash ZERO_HASH rows)) event) as [c Hc'];
         [journal_limits; lia|]. rewrite Hc' in He. done. }
  intros c Henc%ok_or_Ok_1. pose proof (aead_length _ _ _ _ _ Henc) as Hcl.
  rewrite (remembers_head j rows) by done.
  pose proof (ciphertext_total_nonneg rows). pose proof (blen_nonneg event).
  apply wp_bind, wp_lift.
  2: { unfold checked_add_u64. intros e He. destruct (Z.leb_spec (ciphertext_total rows + blen c) U64_MAX);
         [done|]. journal_limits. lia. }
  intros n [-> _]%ok_or_Ok_1%checked_add_u64_Some. apply wp_bind, wp_fail_if.
  { intros Hbig. apply Habort; [congruence|]. intros HL. split; [auto|]. do 6 right. left. lia. }
  intros Hsize.
  pose proof (append_insert_wp w3 j rows evs event nonce c) as Hins. cbv zeta in Hins.
  rewrite head_anchor_snoc in Hins. apply Hins; try done; try lia; [congruence|..].
  - by apply (new_row_valid _ _ _ evs).
  - intros HL Hin Hfresh. apply (Hfresh w2); [auto|by rewrite <-Hnonce].
Qed.

Lemma append_expected_wp `{!Sha256Laws} `{!AeadLaws} j rows evs expected event :
  path_ok (path := path) → journal_inv path j rows evs → (L → reliable j.(world)) →
  wp (append_expected expected event) (append_ok expected event rows evs j)
    (append_failed expected event rows evs j) j.
Proof using laws.
  intros Hpath Hinv Hw. pose proof Hinv as (Hp & Hidle & (Hf & _) & Hrem).
  unfold append_expected. apply wp_bind, wp_get_self, wp_bind, wp_fail_if.
  { intros Hok%negb_true_iff. unfold append_failed, refused, same_journal. rewrite Hok.
    split_and!; auto. }
  intros Hok%negb_false_iff. apply wp_bind, wp_fail_if.
  { intros Hbig. apply append_failed_intro; try done. intros HL. split_and!; auto.
    right. left. lia. }
  intros Hsize. apply wp_bind.
  rewrite <-(set_world_id j) at 1.
  apply ensure_hardened_wp; [done..| |].
  2: { intros e w1 Hv1 HL. by apply append_failed_intro. }
  intros w1 Hv1 Hw1. apply wp_bind, wp_fail_if.
  { intros Hne%bool_decide_eq_true_1. apply append_failed_intro; try done.
    intros HL. split_and!; auto. do 2 right. by left. }
  intros Ht%bool_decide_not_false_1; [|apply _].
  apply in_transaction_wp; [by rewrite Hv1|done| |].
  - intros w2 Hv2 Hw2. rewrite Hv1 in Hv2. apply append_body_wp; try done. lia.
  - intros e w2 Hv2 HL. apply append_failed_intro; try done.
    exact (eq_trans Hv2 Hv1).
Qed.

(** ** Replaying *)

Section replay.
Context {C CallbackError : Type} (callback : JournalEntry → method C CallbackError ()).

Lemma wp_on_journal {A} (m : method (SecureJournal W) JournalError A) j c
    (Q : A → SecureJournal W * C → Prop) (R : JournalReplayError CallbackError → _ → Prop) :
  wp m (λ a j', Q a (j', c)) (λ e j', R (ReplayJournal e) (j', c)) j →
  wp (on_journal m) Q R (j, c).
Proof. intros Hm. unfold on_journal. by apply wp_on_field, wp_map_err. Qed.

(** The callback has run on the first entries, and on nothing else. *)
Definition visited (rows : list Row) (evs : list bytes) (c c' : C) : Prop :=
  ∃ n, (visit callback (take n (zip_with entry_of rows evs)) c).1 = c'.

Definition replay_ok (rows : list Row) (evs : list bytes) (j : SecureJournal W) (c : C)
    (summary : JournalReplaySummary) (s : SecureJournal W * C) : Prop :=
  summary = mkSummary (head_anchor j.(journal_id) rows) (Z.of_nat (length rows))
              (plaintext_total evs) ∧
  visit callback (zip_with entry_of rows evs) c = (s.2, Ok tt) ∧
  j.(healthy) = true ∧ s.1.(healthy) = true ∧ same_journal j s.1 ∧
  s.1.(trusted_head) = head_anchor j.(journal_id) rows ∧
  s.1.(verified_ciphertext_bytes) = ciphertext_total rows ∧
  view s.1.(world) = settled (view j.(world)) (Some (head_anchor j.(journal_id) rows)) ∧
  (L → reliable s.1.(world)).

Definition replay_failed (limits : JournalReplayLimits) (rows : list Row) (evs : list bytes)
    (j : SecureJournal W) (c : C) (e : JournalReplayError CallbackError)
    (s : SecureJournal W * C) : Prop :=
  after_scan rows j s.1 ∧ s.1.(trusted_head) = j.(trusted_head) ∧
  s.1.(verified_ciphertext_bytes) = j.(verified_ciphertext_bytes) ∧
  visited rows evs c s.2 ∧
  match e with
  | ReplayCallback err =>
      view s.1.(world) = view j.(world) ∧ s.1.(healthy) = j.(healthy) ∧
      ∃ n, visit callback (take n (zip_with entry_of rows evs)) c = (s.2, Err err)
  | ReplayJournal err =>
      L → j.(healthy) = false ∨ (MAX_JOURNAL_ENTRIES < limits.(max_sequence))%Z ∨
          (MAX_REPLAY_PLAINTEXT_BYTES < limits.(max_plaintext_bytes))%Z ∨
          ¬ within ScanNone (Some limits) (Z.of_nat (length rows)) (ciphertext_total rows)
              (plaintext_total evs)
  end.

Lemma visited_refl rows evs c : visited rows evs c c.
Proof. by exists 0. Qed.

Lemma replay_failed_intro limits rows evs j c err j' :
  same_journal j j' → j'.(trusted_head) = j.(trusted_head) →
  j'.(verified_ciphertext_bytes) = j.(verified_ciphertext_bytes) →
  (view j'.(world)) = settled (view j.(world)) (view j.(world)).(stored_anchor) →
  (L → j.(healthy) = false ∨ (MAX_JOURNAL_ENTRIES < limits.(max_sequence))%Z ∨
       (MAX_REPLAY_PLAINTEXT_BYTES < limits.(max_plaintext_bytes))%Z ∨
       ¬ within ScanNone (Some limits) (Z.of_nat (length rows)) (ciphertext_total rows)
           (plaintext_total evs)) →
  replay_failed limits rows evs j c (ReplayJournal err) (j', c).
Proof. intros. unfold replay_failed, after_scan. eauto 10 using visited_refl. Qed.

(** The second pass, whatever the cursor yields. *)
Lemma second_pass_wp rows evs k jid cursor c (Q : () → C → Prop)
    (R : JournalReplayError CallbackError → C → Prop) :
  linked k jid 1 ZERO_HASH rows evs → (Z.of_nat (length rows) ≤ MAX_JOURNAL_ENTRIES)%Z →
  (plaintext_total evs ≤ MAX_JOURNAL_CIPHERTEXT_BYTES)%Z →
  (cursor = cursor_of rows ∨ ¬ L ∧ ∃ n err, cursor = cursor_of (take n rows) ++ [Err err]) →
  (∀ c', visit callback (zip_with entry_of rows evs) c = (c', Ok tt) → Q tt c') →
  (∀ c' err, visited rows evs c c' → ¬ L → R (ReplayJournal err) c') →
  (∀ n c' err, visit callback (take n (zip_with entry_of rows evs)) c = (c', Err err) →
     R (ReplayCallback err) c') →
  wp (replay_verified_chain callback cursor k jid
        (mkHead (Z.of_nat (length rows)) (last_hash ZERO_HASH rows)) (plaintext_total evs)) Q R c.
Proof.
  intros Hl Hn Hp Hcur HQ HJ HC. unfold wp. destruct Hcur as [->|[HL (n & err & ->)]].
  - rewrite replay_verified_chain_complete by done. unfold map_err_method.
    destruct (visit _ _ c) as [c' [[]|e]] eqn:Hv; cbn; [by apply HQ|].
    apply (HC (length (zip_with entry_of rows evs))). by rewrite firstn_all.
  - rewrite replay_verified_chain_cut by done.
    destruct (visit callback (take n _) c) as [c' [[]|e]] eqn:Hv; [|by eapply HC].
    apply HJ; [|done]. exists n. by rewrite Hv.
Qed.

Lemma visited_err rows evs c c' n err :
  visit callback (take n (zip_with entry_of rows evs)) c = (c', Err err) → visited rows evs c c'.
Proof. intros Hv. exists n. by rewrite Hv. Qed.

Lemma plaintext_le_ciphertext k jid seq prev rows evs :
  linked k jid seq prev rows evs → (plaintext_total evs ≤ ciphertext_total rows)%Z.
Proof.
  induction 1 as [|seq prev r rows ev evs Hv Hl IH]; [done|]. destruct Hv as (_&_&_&_&_&_&_&_&Hct).
  unfold plaintext_total, ciphertext_total in *. cbn. rewrite Hct. journal_limits. lia.
Qed.

(** The body of the replay transaction. *)
Lemma replay_body_wp limits w j c rows evs :
  journal_inv path j rows evs → j.(healthy) = true →
  (0 ≤ limits.(max_sequence))%Z → (0 ≤ limits.(max_plaintext_bytes))%Z →
  view w = set_working (Some (view j.(world)).(durable)) (view j.(world)) → (L → reliable w) →
  wp (replay_body callback j limits) (replay_ok rows evs j c)
    (λ e s, replay_failed limits rows evs j c e
       (set_world (drop_transaction s.1.(world)) s.1, s.2)) (set_world w j, c).
Proof using laws.
  intros (Hp & Hidle & (Hf & Hh & Hl & Hn & Hc & Hse & a & Ha & Hpre) & Hrem) Hok Hm1 Hm2 Hv Hw.
  assert (∀ w', view w' = view w → view (drop_transaction w') =
            settled (view j.(world)) (stored_anchor (view j.(world)))) as Hdrop.
  { intros w' Hv'. rewrite Hv in Hv'. by apply drop_settled in Hv' as [? _]. }
  assert (plaintext_total evs ≤ MAX_JOURNAL_CIPHERTEXT_BYTES)%Z as Hpt.
  { apply plaintext_le_ciphertext in Hl. lia. }
  unfold replay_body. apply wp_bind, wp_on_journal.
  eapply (scan_validate_wp w j rows evs ScanNone (Some limits) a); [done|by rewrite Hv|done|by rewrite Hv|done|..].
  2: { intros e w1 Hv1 Hsc. apply replay_failed_intro; try done; [by apply Hdrop|].
       intros HL. do 3 right. intros Hwi. apply (proj2 (Hsc HL)). split; [done|by right]. }
  intros w1 Hv1 Hw1 [_ Hwi]. apply wp_bind, wp_fail_if.
  { intros Hbig%orb_true_iff. apply replay_failed_intro; try done; [by apply Hdrop|].
    intros HL. exfalso. rewrite !Z.ltb_lt in Hbig. cbn in Hbig.
    destruct Hwi as [->|(_ & _ & Hlim & _)].
    - apply linked_length in Hl. destruct evs; [|done]. cbn in Hbig. lia.
    - specialize (Hlim limits eq_refl). lia. }
  intros _. apply wp_bind, wp_on_journal.
  eapply on_world_quiet; [apply (entries_quiet w1 j.(journal_id) rows); by rewrite Hv1, Hv|done| |].
  2: { intros e w2 Hv2 HL. apply replay_failed_intro; try done; [apply Hdrop; cbn; congruence|].
       intros HL'. by destruct (HL HL'). }
  intros cursor w2 Hv2 Hw2 Hcur. rewrite Hv1 in Hv2. apply wp_bind. unfold on_callback.
  apply wp_on_field. eapply second_pass_wp; [done..| | |].
  2: { intros c' err Hvis HL. unfold replay_failed, after_scan. cbn. split_and!; try done.
       left. by apply Hdrop. }
  2: { intros n c' err Hvis. cbn in Hvis. unfold replay_failed, after_scan. cbn. rewrite (Hdrop w2) by done.
       split_and!; try done; [by left|by eapply visited_err|by apply settled_idle|by eexists]. }
  intros c' Hvis. cbn in Hvis |- *. apply wp_bind, wp_on_journal.
  assert (∀ e j', view j'.(world) = settled (view j.(world)) (stored_anchor (view j.(world))) ∨
            view j'.(world) = settled (view j.(world)) (Some (head_anchor j.(journal_id) rows)) →
            same_journal j j' → trusted_head j' = trusted_head j →
            verified_ciphertext_bytes j' = verified_ciphertext_bytes j → ¬ L →
            replay_failed limits rows evs j c (ReplayJournal e) (j', c')) as Hlate.
  { intros e j' Hvw Hs Ht Hb HL. unfold replay_failed, after_scan. cbn. split_and!; try done.
    exists (length (zip_with entry_of rows evs)). by rewrite firstn_all, Hvis. }
  eapply (recover_wp w2 j rows a); [by rewrite Hv2, Hv|done|done| |].
  2: { intros e w3 Hv3 HL. rewrite Hv2, Hv in Hv3. apply Hlate; try done. cbn.
       destruct Hv3 as [Hv3|Hv3]; [left|right]; by apply drop_settled in Hv3 as [-> _]. }
  intros w3 Hv3 Hw3. rewrite Hv2, Hv in Hv3. apply wp_bind, wp_on_journal, commit_wp; [done| |].
  2: { intros e w4 Hv4 HL. apply Hlate; try done. cbn. right.
       destruct (drop_transaction_law (path := path) w4) as [-> _].
       destruct Hv4 as [-> | ->]; rewrite Hv3; views; by rewrite ?Hf. }
  intros w4 Hv4 Hw4. apply wp_bind, wp_on_journal, wp_modify, wp_ret. unfold replay_ok. cbn.
  split_and!; try done. rewrite Hv4, Hv3. views. by rewrite Hf.
Qed.

Lemma replay_wp limits j c rows evs :
  path_ok (path := path) → journal_inv path j rows evs → (L → reliable j.(world)) →
  (0 ≤ limits.(max_sequence))%Z → (0 ≤ limits.(max_plaintext_bytes))%Z →
  wp (replay callback limits) (replay_ok rows evs j c) (replay_failed limits rows evs j c) (j, c).
Proof using laws.
  intros Hpath Hinv Hw Hm1 Hm2. pose proof Hinv as (Hp & Hidle & (Hf & _) & _).
  unfold replay. apply wp_bind, wp_get_self, wp_bind, wp_fail_if.
  { intros Hok%negb_true_iff. apply replay_failed_intro; try done; [by rewrite settled_idle|].
    by left. }
  intros Hok%negb_false_iff. apply wp_bind, wp_fail_if.
  { rewrite orb_true_iff, !Z.ltb_lt. intros Hbig.
    apply replay_failed_intro; try done; [by rewrite settled_idle|]. intros _. right. tauto. }
  intros _. apply wp_bind, wp_on_journal. rewrite <-(set_world_id j) at 1. apply ensure_hardened_wp; [done..| |].
  2: { intros e w1 Hv1 HL. apply replay_failed_intro; try done. by rewrite settled_idle. }
  intros w1 Hv1 Hw1. unfold with_transaction. apply wp_bind, wp_on_field, wp_map_err.
  eapply wp_mono; [apply begin_law|..].
  - intros [] w2 [[_ Hv2] Hr]. cbn in Hv2. rewrite Hv1 in Hv2. apply wp_on_error.
    exact (replay_body_wp limits w2 j c rows evs Hinv Hok Hm1 Hm2 Hv2 (λ HL, Hr (Hw1 HL))).
  - intros e w2 [Hv2 Hr]. apply replay_failed_intro; try done; cbn.
    + rewrite settled_idle by done. exact (eq_trans Hv2 Hv1).
    + intros HL. destruct (Hr (Hw1 HL)) as [[d Hd] _]. cbn in Hd. congruence.
Qed.

End replay.

End run.
