(* ===== verification/JournalProperties.v ===== *)
(** * Properties of the secure journal *)

From Stdlib.Strings Require Import Byte.
From S2P Require Import Prelude Bytes Crypto JournalChain JournalChainProperties JournalBackend Journal JournalInit JournalSpecs JournalRun JournalDemo.

(** ** Whole methods *)

Section methods.
Context {W : Type} `{backend : Backend W} `{obs : Observed W} {path : PathBuf}
  `{laws : !BackendLaws W path} `{sha : Sha256} `{aead : Aead}.

(** A chain within its limits can always be verified. *)
Lemma inv_scannable j rows evs :
  journal_inv path j rows evs → scannable j.(cipher) j.(journal_id) ScanNone None rows evs.
Proof.
  intros (_ & _ & (_ & _ & Hl & Hn & Hc & _) & _). split; [done|]. right.
  by split_and!.
Qed.

Lemma scan_ok_inv (L : Prop) mode j j' rows evs scan :
  journal_inv path j rows evs → scan_ok L mode rows evs j scan j' → journal_inv path j' rows evs.
Proof.
  intros Hinv (_ & _ & _ & _ & Hsame & Ht & Hb & Hv & _).
  eapply settled_inv; [done|done| |done|apply head_anchor_anchors].
  apply remembers_all; [|done]. by destruct Hsame as (_ & -> & _).
Qed.

Lemma scan_failed_inv (L : Prop) mode j j' rows evs e :
  journal_inv path j rows evs → scan_failed L mode rows evs j e j' → journal_inv path j' rows evs.
Proof.
  intros Hinv (Hscan & Ht & Hb & _). eapply after_scan_inv; [done..|].
  destruct Hinv as (_ & _ & _ & n & Hn & Ht' & Hb'). destruct Hscan as [(_ & Hi & _) _].
  exists n. rewrite Ht, Hb, Hi. done.
Qed.

Lemma head_wp (L : Prop) j rows evs :
  path_ok (path := path) → journal_inv path j rows evs → (L → reliable j.(world)) →
  wp head
    (λ a j', a = head_anchor j.(journal_id) rows ∧
       ∃ scan, scan_ok L ScanNone rows evs j scan j')
    (λ e j', scan_failed L ScanNone rows evs j e j') j.
Proof using laws.
  intros Hp Hinv Hw. unfold head. apply wp_bind, wp_get_self, wp_bind.
  eapply wp_mono; [by apply verified_scan_wp|..]; [|done].
  intros scan j' Hok. apply wp_ret. split; [|eauto]. destruct Hok as ((n & ->) & _). done.
Qed.

Lemma append_failed_inv (L : Prop) expected event j j' rows evs e :
  journal_inv path j rows evs → append_failed L (path := path) expected event rows evs j e j' →
  journal_inv path j' rows evs ∨
  j'.(healthy) = false ∧ ∃ r, journal_inv path j' (rows ++ [r]) (evs ++ [event]).
Proof.
  intros Hinv ((Hc & Hi & Hp) & Ht & Hb & _ & [Hv|(? & _ & ?)] & _); [left|by right].
  destruct Hinv as (Hpath & Hidle & Hs & n & Hn & Ht' & Hb'). unfold journal_inv, remembers.
  rewrite Hp, Hv, Hc, Hi, Ht, Hb. split_and!; try done. eauto.
Qed.

(** What the two reading methods return. *)
Lemma entries_wp (L : Prop) j rows evs :
  path_ok (path := path) → journal_inv path j rows evs → (L → reliable j.(world)) →
  wp entries (λ l _, l = zip_with entry_of rows evs) (λ _ _, True) j.
Proof using laws.
  intros Hp Hinv Hw. unfold entries. apply wp_bind.
  eapply wp_mono; [by apply (verified_scan_wp L j rows evs)|..]; [|done].
  intros scan j' ((n & ->) & _). by apply wp_ret.
Qed.

Lemma first_entry_wp (L : Prop) j rows evs :
  path_ok (path := path) → journal_inv path j rows evs → (L → reliable j.(world)) →
  wp first_entry (λ o _, o = zip_with entry_of rows evs !! 0) (λ _ _, True) j.
Proof using laws.
  intros Hp Hinv Hw. unfold first_entry. apply wp_bind.
  eapply wp_mono; [by apply (verified_scan_wp L j rows evs)|..]; [|done].
  intros scan j' ((n & ->) & _). apply wp_ret. cbn. by destruct rows, evs.
Qed.

(** What limits an append to a chain. *)
Definition append_limits (event : bytes) (rows : list Row) (j : SecureJournal W) : Prop :=
  j.(healthy) = true ∧ (blen event ≤ MAX_EVENT_BYTES)%Z ∧
  (Z.of_nat (length rows) + 1 ≤ MAX_JOURNAL_ENTRIES)%Z ∧
  (ciphertext_total rows + blen event + AEAD_TAG_BYTES ≤ MAX_JOURNAL_CIPHERTEXT_BYTES)%Z ∧
  fresh_nonce (W := W) rows.

Lemma append_wp `{!Sha256Laws} `{!AeadLaws} (L : Prop) event j rows evs :
  path_ok (path := path) → journal_inv path j rows evs → (L → reliable j.(world)) →
  wp (append event)
    (λ entry j', ∃ r, entry = entry_of r event ∧ same_journal j j' ∧ j'.(healthy) = true ∧
       journal_inv path j' (rows ++ [r]) (evs ++ [event]) ∧
       (view j'.(world)).(stored_anchor) = Some (head_anchor j.(journal_id) (rows ++ [r])) ∧
       (L → reliable j'.(world)))
    (λ e j', (journal_inv path j' rows evs ∨
              j'.(healthy) = false ∧ ∃ r, journal_inv path j' (rows ++ [r]) (evs ++ [event])) ∧
       (L → ¬ append_limits event rows j)) j.
Proof using laws.
  intros Hp Hinv Hw. unfold append. apply wp_bind.
  eapply wp_mono; [by apply (head_wp L j rows evs)|..].
  2: { intros e j' Hf. split; [left; by eapply scan_failed_inv|]. intros HL (Hok & _).
       destruct Hf as (_ & _ & _ & _ & Hf). destruct (Hf HL) as (_ & _ & [Hbad|Hbad]); [congruence|].
       by apply Hbad, inv_scannable. }
  intros a j1 [-> (scan & Hok)]. pose proof (scan_ok_inv _ _ _ _ _ _ _ Hinv Hok) as Hinv1.
  destruct Hok as (_ & Hh & Hh1 & _ & (Hc & Hi & Hpa) & Ht & Hb & Hv & Hr).
  eapply wp_mono; [by apply (append_expected_wp L j1 rows evs)|..].
  - intros entry j' (r & -> & _ & (Hc' & Hi' & Hp') & _ & Hh' & Hinv' & Ht' & Ha & Hr').
    exists r. unfold same_journal. rewrite Hc', Hi', Hp'. split_and!; try done.
    rewrite Ha, Ht', Hi. done.
  - intros e j' Hf. split; [by eapply append_failed_inv|].
    intros HL (_ & Hev & Hn & Hct & Hfr). destruct Hf as (_ & _ & _ & _ & _ & Hf).
    destruct (Hf HL) as (_ & _ & _ & Href). unfold refused in Href.
    rewrite Hh1, Ht, Hv, Hi in Href. cbn in Href.
    destruct Href as [?|[?|[?|[?|[?|[?|[?|?]]]]]]]; try done; lia.
Qed.

End methods.

(** ** Sequences of calls *)

(** The calls on an open journal. A replay gets a callback without state. *)
Inductive journal_call :=
| CallHead
| CallVerify
| CallFirstEntry
| CallEntries
| CallAppend (event : bytes)
| CallAppendExpected (expected : JournalAnchor) (event : bytes)
| CallReplay (limits : JournalReplayLimits) (callback : JournalEntry → result () ()).

(** The limits of a replay are two [u64]. *)
Definition call_typed (c : journal_call) : Prop :=
  match c with
  | CallReplay l _ => (0 ≤ l.(max_sequence))%Z ∧ (0 ≤ l.(max_plaintext_bytes))%Z
  | _ => True
  end.

Section calls.
Context {W : Type} `{backend : Backend W} `{sha : Sha256} `{aead : Aead}.

Definition pure_callback (f : JournalEntry → result () ()) : JournalEntry → method () () () :=
  λ e c, (c, f e).

(** The events that a returning call acknowledges. *)
Definition ack {E A} (event : bytes) (p : SecureJournal W * result E A) :
    SecureJournal W * list bytes :=
  (p.1, if is_ok p.2 then [event] else []).

Definition do_call (c : journal_call) (j : SecureJournal W) : SecureJournal W * list bytes :=
  match c with
  | CallHead => ((head j).1, [])
  | CallVerify => ((verify j).1, [])
  | CallFirstEntry => ((first_entry j).1, [])
  | CallEntries => ((entries j).1, [])
  | CallAppend event => ack event (append event j)
  | CallAppendExpected expected event => ack event (append_expected expected event j)
  | CallReplay limits f => ((replay (pure_callback f) limits (j, tt)).1.1, [])
  end.

Fixpoint do_calls (cs : list journal_call) (j : SecureJournal W) : SecureJournal W * list bytes :=
  match cs with
  | [] => (j, [])
  | c :: cs =>
      let '(j, acked) := do_call c j in
      let '(j, acked') := do_calls cs j in
      (j, acked ++ acked')
  end.

(** A poisoned journal answers every call with [Poisoned] and does nothing. *)
Lemma poisoned_scan mode j : j.(healthy) = false → verified_scan mode j = (j, Err Poisoned).
Proof. intros Hh. unfold verified_scan. run_methods. by rewrite Hh. Qed.

Lemma poisoned_append_expected a event j :
  j.(healthy) = false → append_expected a event j = (j, Err Poisoned).
Proof. intros Hh. unfold append_expected. run_methods. by rewrite Hh. Qed.

Lemma poisoned_replay {C CallbackError} (callback : JournalEntry → method C CallbackError ())
    limits j c :
  j.(healthy) = false → replay callback limits (j, c) = ((j, c), Err (ReplayJournal Poisoned)).
Proof. intros Hh. unfold replay. run_methods. by rewrite Hh. Qed.

Lemma poisoned_calls cs j : j.(healthy) = false → do_calls cs j = (j, []).
Proof.
  intros Hh. induction cs as [|c cs IH]; [done|]. cbn [do_calls].
  assert (do_call c j = (j, [])) as ->; [|by rewrite IH].
  destruct c; cbn [do_call]; unfold verify, append, head, first_entry, entries, ack; run_methods;
    by rewrite ?poisoned_scan, ?poisoned_append_expected, ?poisoned_replay by done.
Qed.

End calls.

Section histories.
Context {W : Type} `{backend : Backend W} `{obs : Observed W} {path : PathBuf}
  `{laws : !BackendLaws W path} `{sha : Sha256} `{aead : Aead} {shalaws : Sha256Laws} {aeadlaws : AeadLaws}.

(** One call: the chain stays, or grows by the acknowledged event, or by an event
    whose append was not acknowledged, and then the journal is poisoned. *)
Lemma do_call_inv c j rows evs :
  path_ok (path := path) → call_typed c → journal_inv path j rows evs →
  let '(j', acked) := do_call c j in
  ∃ rows' pending, journal_inv path j' (rows ++ rows') (evs ++ acked ++ pending) ∧
    length pending ≤ 1 ∧ (pending ≠ [] → j'.(healthy) = false).
Proof using All.
  intros Hp Ht Hinv.
  assert (∀ j', journal_inv path j' rows evs → ∃ rows' pending,
    journal_inv path j' (rows ++ rows') (evs ++ [] ++ pending) ∧ length pending ≤ 1 ∧
    (pending ≠ [] → j'.(healthy) = false)) as Hsame.
  { intros j' Hj'. exists [], []. rewrite !app_nil_r. split_and!; [done|simpl; lia|done]. }
  assert (∀ mode, wp (verified_scan mode) (λ _ j', journal_inv path j' rows evs)
            (λ _ j', journal_inv path j' rows evs) j) as Hscan.
  { intros mode. eapply wp_mono; [by apply (verified_scan_wp False j rows evs)|..];
      intros; [by eapply scan_ok_inv|by eapply scan_failed_inv]. }
  unfold wp in Hscan. destruct c as [| | | |event|a event|l f]; cbn [do_call].
  - apply Hsame. unfold head. run_methods. specialize (Hscan ScanNone).
    by destruct (verified_scan ScanNone j) as [j' []].
  - apply Hsame. unfold verify, head. run_methods. specialize (Hscan ScanNone).
    by destruct (verified_scan ScanNone j) as [j' []].
  - apply Hsame. unfold first_entry. run_methods. specialize (Hscan ScanFirst).
    by destruct (verified_scan ScanFirst j) as [j' []].
  - apply Hsame. unfold entries. run_methods. specialize (Hscan ScanAllBounded).
    by destruct (verified_scan ScanAllBounded j) as [j' []].
  - pose proof (append_wp False event j rows evs Hp Hinv) as Hwp. unfold wp in Hwp.
    destruct (append event j) as [j' [entry|e]]; specialize (Hwp ltac:(done)); cbn.
    + destruct Hwp as (r & _ & _ & _ & Hj' & _). exists [r], []. rewrite ?app_nil_r.
      split_and!; [done|simpl; lia|done].
    + destruct Hwp as [[Hj'|[Hh (r & Hj')]] _]; [by apply Hsame|].
      exists [r], [event]. split_and!; [done|simpl; lia|done].
  - pose proof (append_expected_wp False j rows evs a event Hp Hinv) as Hwp. unfold wp in Hwp.
    destruct (append_expected a event j) as [j' [entry|e]]; specialize (Hwp ltac:(done)); cbn.
    + destruct Hwp as (r & _ & _ & _ & _ & _ & Hj' & _). exists [r], []. rewrite ?app_nil_r.
      split_and!; [done|simpl; lia|done].
    + apply append_failed_inv in Hwp as [Hj'|[Hh (r & Hj')]]; [by apply Hsame| |done].
      exists [r], [event]. split_and!; [done|simpl; lia|done].
  - apply Hsame. destruct Ht as [Ht1 Ht2].
    pose proof (replay_wp False (pure_callback f) l j tt rows evs Hp Hinv ltac:(done) Ht1 Ht2) as Hwp.
    unfold wp in Hwp. destruct (replay (pure_callback f) l (j, ())) as [[j' []] [sm|e]]; cbn.
    + destruct Hwp as (_ & _ & _ & _ & Hs & Hth & Hb & Hv & _). cbn in *.
      eapply settled_inv; [done|done| |done|apply head_anchor_anchors].
      apply remembers_all; [|done]. by destruct Hs as (_ & -> & _).
    + destruct Hwp as (Has & Hth & Hb & _). cbn in *. eapply after_scan_inv; [done|done|].
      destruct Hinv as (_ & _ & _ & n & Hn & Ht' & Hb'). destruct Has as [(_ & Hi & _) _].
      exists n. by rewrite Hth, Hb, Hi.
Qed.

Lemma do_calls_inv cs j rows evs :
  path_ok (path := path) → Forall call_typed cs → journal_inv path j rows evs →
  let '(j', acked) := do_calls cs j in
  ∃ rows' pending, journal_inv path j' (rows ++ rows') (evs ++ acked ++ pending) ∧
    length pending ≤ 1 ∧ (pending ≠ [] → j'.(healthy) = false).
Proof using All.
  intros Hp Hcs. revert j rows evs. induction Hcs as [|c cs Hc Hcs IH]; intros j rows evs Hinv.
  - exists [], []. rewrite !app_nil_r. split_and!; [done|simpl; lia|done].
  - cbn [do_calls]. pose proof (do_call_inv c j rows evs Hp Hc Hinv) as Hone.
    destruct (do_call c j) as [j1 acked]. destruct Hone as (rows1 & pending & Hinv1 & Hlen & Hpend).
    destruct (decide (pending = [])) as [->|Hne].
    + rewrite app_nil_r in Hinv1. specialize (IH _ _ _ Hinv1).
      destruct (do_calls cs j1) as [j2 acked2]. destruct IH as (rows2 & pending & Hinv2 & ? & ?).
      exists (rows1 ++ rows2), pending. rewrite <-!app_assoc in *. auto.
    + rewrite poisoned_calls by auto. exists rows1, pending. rewrite app_nil_r. auto.
Qed.

End histories.

(** ** A journal for evaluation *)

Module DemoJournal.
Export DemoChain.

(** A ready journal with the given rows. *)
Definition demo_db (rows : list Row) : Db :=
  let d := ready_db jid (replicate 24 x00) (INITIALIZATION_PLAINTEXT ++ Demo.demo_tag) in
  mkDb d.(db_version) d.(db_schema) d.(db_metadata) (map raw_of rows) d.(db_initialization).

Lemma demo_sealed rows f a :
  sealed key jid (mkView f (demo_db rows) None (Some key) a).
Proof.
  split_and!; [done..|]. left.
  exists (replicate 24 x00), (INITIALIZATION_PLAINTEXT ++ Demo.demo_tag). split; [done|].
  split_and!; by vm_compute.
Qed.

(** An empty journal in a world with the given faults. *)
Definition journal_with (faults : list (option bool)) : SecureJournal DemoWorld.world :=
  mkJournal (DemoWorld.mkWorld
      (mkView Existing (demo_db []) None (Some key) (Some (initial_anchor jid))) faults 7)
    key jid DemoWorld.path (initial_anchor jid) 0 true.

Lemma demo_inv faults : journal_inv DemoWorld.path (journal_with faults) [] [].
Proof.
  unfold journal_inv, stored, holds, remembers. cbn. split_and!; try done.
  - constructor.
  - apply demo_sealed.
  - exists (initial_anchor jid). split; [done|]. by vm_compute.
  - by exists 0.
Qed.

(** A chain of two entries whose anchor lags behind by one. *)
Definition lagging : SecureJournal DemoWorld.world :=
  mkJournal (DemoWorld.mkWorld
      (mkView Existing (demo_db [row1; row2]) None (Some key) (Some (head_anchor jid [row1]))) [] 7)
    key jid DemoWorld.path (initial_anchor jid) 0 true.

Lemma lagging_inv : journal_inv DemoWorld.path lagging [row1; row2] [[x61]; [x62; x63]].
Proof.
  unfold journal_inv, stored, holds, remembers. cbn [lagging journal_path world cipher journal_id].
  split_and!; try done.
  - apply demo_linked.
  - apply demo_sealed.
  - exists (head_anchor jid [row1]). split; [done|]. by vm_compute.
  - by exists 0; split_and!; [simpl; lia|..].
Qed.

End DemoJournal.

Import DemoJournal.

(** ** Properties *)

(** C2. No acknowledged event is lost, under any faults: whatever sequence of
    calls is made on a journal, and whichever database, secret-store and file
    operations fail on the way, the committed database afterwards is a valid
    chain that starts with the old rows, and its events are the old ones, then
    the acknowledged ones in order, then at most one event whose append
    returned an error; in that case the journal is poisoned. The stored anchor
    still names a prefix of the chain, so that the next verification can
    succeed. *)
Theorem acknowledged_events_survive {W} `{backend : Backend W} `{obs : Observed W} path
    `{laws : !BackendLaws W path} `{sha : Sha256} `{aead : Aead} {shalaws : Sha256Laws}
    {aeadlaws : AeadLaws} cs (j j' : SecureJournal W) rows evs acked :
  path_ok (path := path) → Forall call_typed cs → journal_inv path j rows evs →
  do_calls cs j = (j', acked) →
  ∃ rows' pending,
    journal_inv path j' (rows ++ rows') (evs ++ acked ++ pending) ∧
    length pending ≤ 1 ∧ (pending ≠ [] → j'.(healthy) = false).
Proof.
  intros Hp Hcs Hinv Hrun. pose proof (do_calls_inv cs j rows evs Hp Hcs Hinv) as Hall.
  by rewrite Hrun in Hall.
Qed.

Lemma acknowledged_events_survive_witness :
  let p := do_calls [CallAppend [x61]; CallEntries] (journal_with (replicate 19 None ++ [Some true])) in
  p.2 = [] ∧ p.1.(healthy) = false ∧
  ∃ rows' pending,
    journal_inv DemoWorld.path p.1 ([] ++ rows') ([] ++ p.2 ++ pending) ∧
    length pending ≤ 1 ∧ (pending ≠ [] → p.1.(healthy) = false).
Proof.
  cbv zeta. split; [vm_compute; reflexivity|]. split; [vm_compute; reflexivity|].
  apply (acknowledged_events_survive DemoWorld.path (shalaws := Demo.demo_sha256_laws)
    (aeadlaws := Demo.demo_aead_laws) [CallAppend [x61]; CallEntries]
    (journal_with (replicate 19 None ++ [Some true]))).
  - apply DemoWorld.demo_path_ok.
  - repeat constructor.
  - apply demo_inv.
  - apply surjective_pairing.
Defined.

(** Without faults a verification recovers every interrupted append: on a
    healthy journal in a reliable world, [head] returns the anchor of the whole
    committed chain, advances a lagging stored anchor to it and leaves the
    journal healthy, with the rows and events untouched. *)
Theorem verification_recovers {W} `{backend : Backend W} `{obs : Observed W} path
    `{laws : !BackendLaws W path} `{sha : Sha256} `{aead : Aead} (j : SecureJournal W) rows evs :
  path_ok (path := path) → journal_inv path j rows evs → reliable j.(world) →
  j.(healthy) = true →
  ∃ j', head j = (j', Ok (head_anchor j.(journal_id) rows)) ∧
    journal_inv path j' rows evs ∧ j'.(healthy) = true ∧ reliable j'.(world) ∧
    (view j'.(world)).(stored_anchor) = Some (head_anchor j.(journal_id) rows) ∧
    j'.(trusted_head) = head_anchor j.(journal_id) rows.
Proof.
  intros Hp Hinv Hr Hh. pose proof (head_wp True j rows evs Hp Hinv ltac:(done)) as Hwp.
  unfold wp in Hwp. destruct (head j) as [j' [a|e]].
  - destruct Hwp as [-> (scan & Hok)]. pose proof (scan_ok_inv _ _ _ _ _ _ _ Hinv Hok) as Hinv'.
    destruct Hok as (_ & _ & Hh' & _ & _ & Ht & _ & Hv & Hr'). exists j'.
    split_and!; auto. by rewrite Hv.
  - destruct Hwp as (_ & _ & _ & _ & Hf). destruct (Hf I) as (_ & _ & [Hbad|Hbad]); [congruence|].
    exfalso. by apply Hbad, (inv_scannable (path := path)).
Qed.

Lemma verification_recovers_witness :
  ∃ j', head lagging = (j', Ok (head_anchor jid [row1; row2])) ∧
    (view j'.(world)).(stored_anchor) = Some (head_anchor jid [row1; row2]).
Proof.
  destruct (verification_recovers DemoWorld.path lagging [row1; row2] [[x61]; [x62; x63]])
    as (j' & Hrun & _ & _ & _ & Ha & _).
  - apply DemoWorld.demo_path_ok.
  - apply lagging_inv.
  - constructor.
  - reflexivity.
  - exists j'. split; [exact Hrun|exact Ha].
Defined.

(** Without faults an append within the limits succeeds: on a healthy journal
    in a reliable world, for an event of at most one mebibyte that fits the
    record and byte limits and a nonce source that does not repeat a nonce of
    the journal, [append] returns the new entry with the next sequence number,
    the previous hash and the event, commits exactly one row and stores its
    hash as the anchor. *)
Theorem append_succeeds {W} `{backend : Backend W} `{obs : Observed W} path
    `{laws : !BackendLaws W path} `{sha : Sha256} `{aead : Aead} {shalaws : Sha256Laws}
    {aeadlaws : AeadLaws} (j : SecureJournal W) rows evs event :
  path_ok (path := path) → journal_inv path j rows evs → reliable j.(world) →
  append_limits event rows j →
  ∃ j' r, append event j = (j', Ok (entry_of r event)) ∧
    row_valid j.(cipher) j.(journal_id) (Z.of_nat (length rows) + 1) (last_hash ZERO_HASH rows) r event ∧
    journal_inv path j' (rows ++ [r]) (evs ++ [event]) ∧ j'.(healthy) = true ∧
    (view j'.(world)).(stored_anchor) = Some (head_anchor j.(journal_id) (rows ++ [r])).
Proof.
  intros Hp Hinv Hr Hlim. pose proof (append_wp True event j rows evs Hp Hinv ltac:(done)) as Hwp.
  unfold wp in Hwp. destruct (append event j) as [j' [entry|e]]; [|by destruct Hwp as [_ []]].
  destruct Hwp as (r & -> & (Hc & Hi & _) & Hh & Hinv' & Ha & _). exists j', r. split_and!; try done.
  destruct Hinv' as (_ & _ & (_ & _ & Hl & _) & _). rewrite Hc, Hi in Hl.
  apply linked_app_inv in Hl as (e1 & e2 & Heq & Hl1 & Hl2).
  inversion Hl2 as [|? ? ? ? ev ? Hv Hnil]; subst. inversion Hnil; subst.
  apply app_inj_tail in Heq as [_ <-]. by rewrite Z.add_comm.
Qed.

Lemma demo_fresh : fresh_nonce (W := DemoWorld.world) [row1; row2].
Proof.
  intros w _ Hin. cbn [fill_bytes DemoWorld.demo_backend snd map] in Hin.
  set (c := DemoWorld.dw_counter w) in Hin. pose proof (Z.mod_pos_bound c (2 ^ 64) ltac:(lia)).
  assert (be_value (be_bytes NONCE_BYTES (c mod 2 ^ 64)) = c mod 2 ^ 64)%Z as Hv.
  { rewrite be_value_be_bytes. apply Z.mod_small. change (256 ^ Z.of_nat NONCE_BYTES)%Z with (2 ^ 192)%Z. lia. }
  assert (∀ b, be_bytes NONCE_BYTES (c mod 2 ^ 64) = b → (be_value b < 2 ^ 64)%Z) as Hb.
  { intros b <-. lia. }
  apply list_elem_of_In in Hin. destruct Hin as [Hin|[Hin|[]]]; symmetry in Hin; apply Hb in Hin; by vm_compute in Hin.
Qed.

Lemma append_succeeds_witness :
  ∃ j' r, append [x64] lagging = (j', Ok (entry_of r [x64])) ∧
    (view j'.(world)).(stored_anchor) = Some (head_anchor jid [row1; row2; r]).
Proof.
  destruct (append_succeeds DemoWorld.path (shalaws := Demo.demo_sha256_laws)
    (aeadlaws := Demo.demo_aead_laws) lagging [row1; row2] [[x61]; [x62; x63]] [x64])
    as (j' & r & Hrun & _ & _ & _ & Ha).
  - apply DemoWorld.demo_path_ok.
  - apply lagging_inv.
  - constructor.
  - split_and!; [by vm_compute..|apply demo_fresh].
  - exists j', r. split; [exact Hrun|exact Ha].
Defined.

Lemma zip_events rows evs :
  length rows = length evs → map sequence (zip_with entry_of rows evs) = map row_sequence rows ∧
  map JournalChain.event (zip_with entry_of rows evs) = evs.
Proof.
  revert evs. induction rows as [|r rows IH]; intros [|e evs] Hlen; try done.
  injection Hlen as Hlen. destruct (IH _ Hlen) as [H1 H2]. cbn. by rewrite H1, H2.
Qed.

(** What is appended is read back: after a successful append, [entries]
    returns the old events followed by the new one, the last of them being the
    very entry that the append returned, and [first_entry] returns the first
    event of the journal. *)
Theorem append_then_read {W} `{backend : Backend W} `{obs : Observed W} path
    `{laws : !BackendLaws W path} `{sha : Sha256} `{aead : Aead} {shalaws : Sha256Laws}
    {aeadlaws : AeadLaws} (j j1 : SecureJournal W) rows evs event entry :
  path_ok (path := path) → journal_inv path j rows evs → append event j = (j1, Ok entry) →
  (∀ j2 l, entries j1 = (j2, Ok l) →
     map JournalChain.event l = evs ++ [event] ∧ last l = Some entry ∧
     map sequence l = seqZ 1 (Z.of_nat (length rows) + 1)) ∧
  (∀ j2 o, first_entry j1 = (j2, Ok o) → JournalChain.event <$> o = (evs ++ [event]) !! 0).
Proof.
  intros Hp Hinv Hrun. pose proof (append_wp False event j rows evs Hp Hinv ltac:(done)) as Hwp.
  apply (wp_run _ _ _ _ _ _ Hwp) in Hrun as (r & -> & _ & _ & Hinv1 & _).
  pose proof Hinv1 as (_ & _ & (_ & _ & Hl & _) & _).
  pose proof (linked_length _ _ _ _ _ _ Hl) as Hlen. destruct (zip_events _ _ Hlen) as [Hseq Hev].
  split.
  - intros j2 l He. pose proof (entries_wp False j1 _ _ Hp Hinv1 ltac:(done)) as Hr.
    apply (wp_run _ _ _ _ _ _ Hr) in He as ->. split_and!; [done| |].
    + rewrite !length_app in Hlen. simpl in Hlen. rewrite zip_with_app by lia. apply last_snoc.
    + rewrite Hseq, (linked_seqs _ _ _ _ _ _ Hl), length_app. f_equal. simpl. lia.
  - intros j2 o Hf. pose proof (first_entry_wp False j1 _ _ Hp Hinv1 ltac:(done)) as Hr.
    apply (wp_run _ _ _ _ _ _ Hr) in Hf as ->. rewrite <-list_lookup_fmap.
    exact (f_equal (λ l, l !! 0) Hev).
Qed.

Lemma append_then_read_witness :
  let j1 := (append [x61] (journal_with [])).1 in
  map JournalChain.event (match (entries j1).2 with Ok l => l | Err _ => [] end) = [] ++ [[x61]].
Proof.
  set (j1 := (append [x61] (journal_with [])).1). cbv zeta.
  eassert (append [x61] (journal_with []) = (j1, Ok _)) as Hrun by (vm_compute; reflexivity).
  eassert (entries j1 = (_, Ok _)) as Hread by (vm_compute; reflexivity).
  destruct (append_then_read DemoWorld.path (shalaws := Demo.demo_sha256_laws)
    (aeadlaws := Demo.demo_aead_laws) (journal_with []) j1 [] [] [x61] _
    DemoWorld.demo_path_ok (demo_inv []) Hrun) as [Hall _].
  rewrite Hread. exact (proj1 (Hall _ _ Hread)).
Defined.

(** [append_expected] is a compare-and-append: when it succeeds, [expected]
    was the head of the committed chain and the stored anchor, the new entry has
    the next sequence number and [expected]'s hash as its previous hash, and its
    own hash is the new stored anchor and trusted head. When it fails and the
    journal is still healthy, neither the database nor the secret store has
    changed. With a stale [expected] nothing is ever written. *)
Theorem append_expected_compares {W} `{backend : Backend W} `{obs : Observed W} path
    `{laws : !BackendLaws W path} `{sha : Sha256} `{aead : Aead} {shalaws : Sha256Laws}
    {aeadlaws : AeadLaws} (j j' : SecureJournal W) rows evs expected event r :
  path_ok (path := path) → journal_inv path j rows evs →
  append_expected expected event j = (j', r) →
  match r with
  | Ok entry =>
      expected = head_anchor j.(journal_id) rows ∧
      sequence entry = (anchor_sequence expected + 1)%Z ∧
      previous_hash entry = anchor_entry_hash expected ∧ JournalChain.event entry = event ∧
      j'.(trusted_head) = mkAnchor j.(journal_id) (sequence entry) (entry_hash entry) ∧
      (view j'.(world)).(stored_anchor) = Some j'.(trusted_head)
  | Err _ =>
      j'.(trusted_head) = j.(trusted_head) ∧
      (j'.(healthy) = true ∨ expected ≠ head_anchor j.(journal_id) rows →
       view j'.(world) = view j.(world))
  end.
Proof.
  intros Hp Hinv Hrun.
  pose proof (append_expected_wp False j rows evs expected event Hp Hinv ltac:(done)) as Hwp.
  apply (wp_run _ _ _ _ _ _ Hwp) in Hrun. destruct r as [entry|e].
  - destruct Hrun as (r & -> & -> & (Hc & Hi & _) & _ & _ & Hinv' & Ht & Ha & _).
    destruct Hinv' as (_ & _ & (_ & _ & Hl & _) & _). rewrite Hc, Hi in Hl.
    destruct (last_row_valid _ _ _ _ _ Hl) as (ev & Hseq & Hprev & _). cbn.
    rewrite Ha, Ht, Hprev, Hseq. unfold head_anchor. rewrite last_hash_snoc, length_app. cbn.
    split_and!; try done. lia.
  - destruct Hrun as (_ & Ht & _ & _ & [Hv|(Hh & -> & _)] & _); [done|]. split; [done|].
    intros [Hok|Hne]; [congruence|done].
Qed.

Lemma append_expected_compares_witness :
  (view (append_expected (head_anchor jid [row1]) [x64] (journal_with [])).1.(world))
  = view (journal_with []).(world).
Proof.
  pose proof (append_expected_compares DemoWorld.path (shalaws := Demo.demo_sha256_laws)
    (aeadlaws := Demo.demo_aead_laws) (journal_with [])
    (append_expected (head_anchor jid [row1]) [x64] (journal_with [])).1 [] []
    (head_anchor jid [row1]) [x64] (append_expected (head_anchor jid [row1]) [x64] (journal_with [])).2
    DemoWorld.demo_path_ok (demo_inv []) (surjective_pairing _)) as Hc.
  eassert ((append_expected (head_anchor jid [row1]) [x64] (journal_with [])).2 = Err _) as Herr
    by (vm_compute; reflexivity).
  rewrite Herr in Hc. apply Hc. right. done.
Defined.
