(* ===== verification/JournalReplay.v ===== *)
(** * Properties of the streaming replay and of a poisoned journal *)

From Stdlib.Strings Require Import Byte.
From S2P Require Import Prelude Bytes Crypto JournalChain JournalChainProperties JournalBackend Journal JournalSpecs JournalRun JournalDemo JournalProperties.

(** ** Replay over any cursor *)

Section sound.
Context `{sha : Sha256} `{aead : Aead} {aeadlaws : AeadLaws} (k jid : bytes).
Context {C CallbackError : Type} (callback : JournalEntry → method C CallbackError ()).

Lemma replay_row_sound total st raw entry n :
  raw_wf raw → replay_row k jid total st raw = Ok (entry, n) →
  ∃ r ev, raw = raw_of r ∧ row_valid k jid st.(replay_sequence) st.(replay_previous) r ev ∧
    entry = entry_of r ev ∧ n = (st.(replay_plaintext) + blen ev)%Z ∧
    (st.(replay_sequence) ≤ MAX_JOURNAL_ENTRIES)%Z.
Proof using aeadlaws.
  intros (Hw1 & Hw2 & Hw3 & Hw4) Hrun. unfold replay_row in Hrun. inv_ok Hrun. columns.
  unfold bad_shape in *. guards. simplify_eq.
  specialize (Hw1 _ Hcall6). specialize (Hw2 _ Hcall8). specialize (Hw3 _ Hcall9).
  specialize (Hw4 _ Hcall11). rewrite Hw1 in Hcall1. rewrite Hw2 in Hcall2.
  rewrite Hw3 in Hcall3. rewrite Hw4 in Hcall4. simplify_eq.
  pose proof (aead_open_length _ _ _ _ _ Hcall13).
  exists (mkRow (replay_sequence st) v6 v8 (replay_previous st)
            (hash_entry jid (replay_sequence st) (replay_previous st) v6 v8)), v13.
  split_and!; try done; [destruct raw; simpl in *; by subst| |lia].
  unfold row_valid; simpl; split_and!; auto; lia.
Qed.

(** What the callback has seen when the loop ends in any way. *)
Definition shown (r : result (JournalReplayError CallbackError) ReplayState) (es : list JournalEntry)
    (c c' : C) : Prop :=
  match r with
  | Err (ReplayCallback e) => visit callback es c = (c', Err e)
  | _ => visit callback es c = (c', Ok tt)
  end.

(** The rows of the cursor that the loop has shown to the callback, from a state of
    its variables on: a linked chain, and all of the cursor if the loop ends well. *)
Definition replay_trace (cursor : list (result string RawRow)) (st : ReplayState) (c c' : C)
    (r : result (JournalReplayError CallbackError) ReplayState) : Prop :=
  ∃ rows evs rest, cursor = cursor_of rows ++ rest ∧
    linked k jid st.(replay_sequence) st.(replay_previous) rows evs ∧
    shown r (zip_with entry_of rows evs) c c' ∧
    ∀ st', r = Ok st' → rest = [] ∧
      st' = mkReplayState (st.(replay_sequence) + Z.of_nat (length rows))
              (last_hash st.(replay_previous) rows) (st.(replay_plaintext) + plaintext_total evs).

Lemma replay_rows_sound total cursor st c c' r :
  (∀ raw, Ok raw ∈ cursor → raw_wf raw) →
  replay_rows callback k jid total cursor st c = (c', r) → replay_trace cursor st c c' r.
Proof using aeadlaws.
  revert st c. induction cursor as [|x cursor IH]; intros st c Hwf Hrun; cbn [replay_rows] in Hrun.
  - injection Hrun as <- <-. exists [], [], []. split_and!; [done|constructor|done|].
    intros st' [= <-]. destruct st. cbn. by rewrite !Z.add_0_r.
  - assert (∀ e, (c, Err (ReplayJournal e)) = (c', r) →
      replay_trace (x :: cursor) st c c' r) as Hstop.
    { intros e [= <- <-]. exists [], [], (x :: cursor). split_and!; [done|constructor|done|done]. }
    unfold mbind, method_bind, lift in Hrun.
    destruct x as [raw|e]; cbn [get map_err] in Hrun; [|by eapply Hstop].
    destruct (replay_row k jid total st raw) as [[entry n]|e] eqn:Hrow; cbn [map_err] in Hrun;
      [|by eapply Hstop].
    apply replay_row_sound in Hrow as (row & ev & -> & Hv & -> & -> & Hmax); [|apply Hwf; left].
    unfold map_err_method in Hrun.
    destruct (callback (entry_of row ev) c) as [c1 [[]|e]] eqn:Hcb; cbn [map_err] in Hrun.
    2: { injection Hrun as <- <-. exists [row], [ev], cursor. split_and!; [done| | |done].
         - constructor; [done|constructor].
         - cbn. unfold mbind, method_bind. by rewrite Hcb. }
    destruct (checked_add_u64 (replay_sequence st) 1) as [next|] eqn:Hnext; cbn [ok_or map_err] in Hrun.
    2: { exfalso. unfold checked_add_u64 in Hnext. destruct (Z.leb_spec (replay_sequence st + 1) U64_MAX);
           [done|journal_limits; lia]. }
    apply checked_add_u64_Some in Hnext as [-> _].
    apply IH in Hrun as (rows & evs & rest & -> & Hl & Hs & Hst); [|intros; apply Hwf; by right].
    exists (row :: rows), (ev :: evs), rest. split_and!; [done|by constructor| |].
    + unfold shown in *. cbn [zip_with visit]. unfold mbind, method_bind. by rewrite Hcb.
    + intros st' ->. destruct (Hst _ eq_refl) as [-> ->]. split; [done|]. cbn.
      unfold plaintext_total. cbn. f_equal; lia.
Qed.

End sound.

(** ** Properties *)

(** Whatever the second pass of a replay reads, even if it is not what the
    first pass verified, the callback only ever sees authentic entries in order:
    it has run on exactly the entries of the first rows of the cursor, which are
    numbered from 1, linked from the zero hash and decrypted under the key. If
    the replay of the cursor succeeds, these are all its rows, and their number,
    last hash and plaintext size are the verified ones. *)
Theorem replay_shows_authentic_entries `{sha : Sha256} `{aead : Aead} {aeadlaws : AeadLaws}
    {C CallbackError} (callback : JournalEntry → method C CallbackError ()) k jid cursor h total c c' r :
  (∀ raw, Ok raw ∈ cursor → raw_wf raw) →
  replay_verified_chain callback cursor k jid h total c = (c', r) →
  ∃ rows evs rest, cursor = cursor_of rows ++ rest ∧ linked k jid 1 ZERO_HASH rows evs ∧
    match r with
    | Err (ReplayCallback e) => visit callback (zip_with entry_of rows evs) c = (c', Err e)
    | Err (ReplayJournal _) => visit callback (zip_with entry_of rows evs) c = (c', Ok tt)
    | Ok _ => visit callback (zip_with entry_of rows evs) c = (c', Ok tt) ∧ rest = [] ∧
        h = mkHead (Z.of_nat (length rows)) (last_hash ZERO_HASH rows) ∧
        total = plaintext_total evs
    end.
Proof.
  intros Hwf Hrun. unfold replay_verified_chain, mbind, method_bind in Hrun.
  destruct (replay_rows _ _ _ _ _ _ c) as [c1 r1] eqn:Hrows.
  apply replay_rows_sound in Hrows as (rows & evs & rest & -> & Hl & Hs & Hst); [|done].
  exists rows, evs, rest. split; [done|]. split; [done|].
  destruct r1 as [st|[e|e]]; [|by injection Hrun as <- <-..].
  destruct (Hst _ eq_refl) as [-> ->]. unfold lift, fail_if in Hrun. cbn in Hrun, Hs.
  rewrite checked_sub_u64_fits in Hrun by lia. cbn [ok_or map_err] in Hrun.
  destruct (_ || _ || _) eqn:Hg in Hrun; injection Hrun as <- <-; [done|]. guards. subst.
  split_and!; try done. destruct h. cbn in *. f_equal; [lia|done].
Qed.

Import DemoChain.

(** A callback that collects what it sees. *)
Definition collect (e : JournalEntry) : method (list JournalEntry) () () := λ c, (c ++ [e], Ok tt).

Lemma replay_shows_authentic_entries_witness :
  ∃ rows evs rest, cursor_of [row1; row2] ++ [Err ""%string] = cursor_of rows ++ rest ∧
    linked key jid 1 ZERO_HASH rows evs ∧
    visit collect (zip_with entry_of rows evs) [] =
      ([entry_of row1 [x61]; entry_of row2 [x62; x63]], Ok tt).
Proof.
  set (cursor := cursor_of [row1; row2] ++ [Err ""%string]).
  assert (∀ raw, Ok raw ∈ cursor → raw_wf raw) as Hwf.
  { intros raw Hin. apply (cursor_raw_wf [row1; row2] [Err ""%string] raw Hin).
    intros raw' Hin'%list_elem_of_singleton. done. }
  assert (∃ e, replay_verified_chain collect cursor key jid (mkHead 2 (row_entry_hash row2)) 3 [] =
    ([entry_of row1 [x61]; entry_of row2 [x62; x63]], Err (ReplayJournal e))) as [e Hrun]
    by (eexists; vm_compute; reflexivity).
  destruct (replay_shows_authentic_entries (aeadlaws := Demo.demo_aead_laws) collect key jid cursor
    _ _ _ _ _ Hwf Hrun) as (rows & evs & rest & Hc & Hl & Hv).
  exists rows, evs, rest. split; [exact Hc|]. split; [exact Hl|]. exact Hv.
Defined.

(** Every run meets its own description. *)
Lemma wp_self {S E A} (m : method S E A) s :
  wp m (λ a s', m s = (s', Ok a)) (λ e s', m s = (s', Err e)) s.
Proof. unfold wp. by destruct (m s) as [s' []]. Qed.

Lemma wp_always {S E A} (m : method S E A) (Q : A → S → Prop) (R : E → S → Prop) s :
  (∀ a s, Q a s) → (∀ e s, R e s) → wp m Q R s.
Proof. intros HQ HR. unfold wp. destruct (m s) as [s' []]; auto. Qed.

(** Authentication comes first: if a replay has had any effect on the state of
    its callback, then the journal was healthy and a scan of the whole database
    in the same transaction, under the limits of the replay and against the
    stored anchor, has succeeded before. This holds for any database, secret
    store and file system, correct or not. *)
Theorem replay_authenticates_first {W} `{backend : Backend W} `{sha : Sha256} `{aead : Aead}
    {C CallbackError} (callback : JournalEntry → method C CallbackError ()) limits
    (j j' : SecureJournal W) c c' r :
  replay callback limits (j, c) = ((j', c'), r) → c' ≠ c →
  j.(healthy) = true ∧ (limits.(max_sequence) ≤ MAX_JOURNAL_ENTRIES)%Z ∧
  (limits.(max_plaintext_bytes) ≤ MAX_REPLAY_PLAINTEXT_BYTES)%Z ∧
  ∃ w j1 scan lags,
    scan_and_validate ScanNone (Some limits) (set_world w j) = (j1, Ok (scan, lags)) ∧
    (scan.(scan_head).(head_sequence) ≤ limits.(max_sequence))%Z ∧
    (scan.(scan_plaintext_bytes) ≤ limits.(max_plaintext_bytes))%Z.
Proof.
  intros Hrun Hne. match goal with |- ?G => set (goal := G) end.
  assert (wp (replay callback limits) (λ _ s, s.2 = c ∨ goal) (λ _ s, s.2 = c ∨ goal) (j, c)) as Hwp.
  2: { apply (wp_run _ _ _ _ _ _ Hwp) in Hrun. destruct r; cbn in Hrun; tauto. }
  unfold replay. apply wp_bind, wp_get_self, wp_bind, wp_fail_if; [by left|]. intros Hok.
  apply wp_bind, wp_fail_if; [by left|]. intros Hlim. apply wp_bind, wp_on_journal.
  unfold ensure_hardened. apply wp_bind, wp_get_self, wp_on_error.
  rewrite <-(set_world_id j) at 2. apply wp_on_world, wp_always; [|by left].
  intros [] w1. unfold with_transaction. apply wp_bind, wp_on_field, wp_map_err, wp_always; [|by left].
  intros [] w2. apply wp_on_error. cbn. unfold replay_body. apply wp_bind, wp_on_journal.
  eapply wp_mono; [apply wp_self|..]; [|by left]. intros [scan lags] j1 Hscan.
  apply wp_bind, wp_fail_if; [by left|]. intros Hhead. guards.
  assert goal by (subst goal; eauto 10 with lia). apply wp_always; by right.
Qed.

Import DemoJournal.

Definition wide : JournalReplayLimits := mkLimits 10 1000.

Lemma replay_authenticates_first_witness :
  (replay collect wide (lagging, [])).1.2 ≠ [] ∧
  lagging.(healthy) = true ∧
  ∃ w j1 scan lags, scan_and_validate ScanNone (Some wide) (set_world w lagging) = (j1, Ok (scan, lags)).
Proof.
  assert ((replay collect wide (lagging, [])).1.2 ≠ []) as Hne by (vm_compute; discriminate).
  split; [exact Hne|].
  destruct (replay_authenticates_first collect wide lagging
    (replay collect wide (lagging, [])).1.1 [] (replay collect wide (lagging, [])).1.2
    (replay collect wide (lagging, [])).2) as (Hok & _ & _ & w & j1 & scan & lags & Hscan & _).
  - by destruct (replay collect wide (lagging, [])) as [[??]?].
  - exact Hne.
  - split; [exact Hok|]. exists w, j1, scan, lags. exact Hscan.
Defined.

(** A replay of a journal in any fault environment delivers the journal: if it
    succeeds, the callback has run on every entry, in order, the summary is the
    head and the totals of the chain, and the head is stored as the anchor. If
    the callback fails, its error is returned, and the database, the anchor and
    the trusted head are as before. If the journal fails, the callback has run
    on a prefix of the entries and the trusted head is as before; without faults
    this happens only if the journal is poisoned or exceeds the limits. *)
Theorem replay_delivers_the_journal {W} `{backend : Backend W} `{obs : Observed W} path
    `{laws : !BackendLaws W path} `{sha : Sha256} `{aead : Aead} {C CallbackError}
    (callback : JournalEntry → method C CallbackError ()) limits (j j' : SecureJournal W)
    rows evs c c' r :
  path_ok (path := path) → journal_inv path j rows evs →
  (0 ≤ limits.(max_sequence))%Z → (0 ≤ limits.(max_plaintext_bytes))%Z →
  replay callback limits (j, c) = ((j', c'), r) →
  let es := zip_with entry_of rows evs in
  match r with
  | Ok summary =>
      visit callback es c = (c', Ok tt) ∧
      summary = mkSummary (head_anchor j.(journal_id) rows) (Z.of_nat (length rows))
                  (plaintext_total evs) ∧
      j'.(trusted_head) = head_anchor j.(journal_id) rows ∧
      (view j'.(world)).(stored_anchor) = Some j'.(trusted_head)
  | Err (ReplayCallback err) =>
      (∃ n, visit callback (take n es) c = (c', Err err)) ∧ view j'.(world) = view j.(world) ∧
      j'.(trusted_head) = j.(trusted_head) ∧ j'.(healthy) = j.(healthy)
  | Err (ReplayJournal err) =>
      (∃ n, (visit callback (take n es) c).1 = c') ∧ j'.(trusted_head) = j.(trusted_head) ∧
      (reliable j.(world) → j.(healthy) = true →
       (Z.of_nat (length rows) ≤ limits.(max_sequence) ≤ MAX_JOURNAL_ENTRIES)%Z →
       (plaintext_total evs ≤ limits.(max_plaintext_bytes) ≤ MAX_REPLAY_PLAINTEXT_BYTES)%Z → False)
  end.
Proof.
  intros Hp Hinv Hm1 Hm2 Hrun es.
  pose proof (replay_wp (reliable j.(world)) callback limits j c rows evs Hp Hinv id Hm1 Hm2) as Hwp.
  apply (wp_run _ _ _ _ _ _ Hwp) in Hrun. destruct r as [summary|[err|err]]; cbn in Hrun.
  - destruct Hrun as (-> & Hv & _ & _ & _ & Ht & _ & Hw & _). cbn in *. by rewrite Ht, Hw.
  - destruct Hrun as (_ & Ht & _ & Hv & Hlim). split_and!; [done..|].
    intros Hr Hok Hs Hpt. destruct (Hlim Hr) as [?|[?|[?|Hout]]]; [congruence|lia|lia|].
    destruct Hinv as (_ & _ & (_ & _ & _ & Hn & Hc & _) & _). apply Hout.
    split_and!; try done. intros l [= <-]. lia.
  - destruct Hrun as (_ & Ht & _ & _ & Hv & Hh & Hvis). done.
Qed.

Lemma replay_delivers_the_journal_witness :
  visit collect [entry_of row1 [x61]; entry_of row2 [x62; x63]] [] =
    ((replay collect wide (lagging, [])).1.2, Ok tt) ∧
  ((replay collect wide (lagging, [])).1.1).(trusted_head) = head_anchor jid [row1; row2].
Proof.
  pose proof (replay_delivers_the_journal DemoWorld.path collect wide lagging
    (replay collect wide (lagging, [])).1.1 [row1; row2] [[x61]; [x62; x63]] []
    (replay collect wide (lagging, [])).1.2 (replay collect wide (lagging, [])).2
    DemoWorld.demo_path_ok lagging_inv ltac:(done) ltac:(done)) as Hall.
  assert (is_ok (replay collect wide (lagging, [])).2 = true) as Hok by (vm_compute; reflexivity).
  destruct (replay collect wide (lagging, [])) as [[j' c'] [summary|e]]; [|discriminate].
  specialize (Hall eq_refl). destruct Hall as (Hv & _ & Ht & _). split; [exact Hv|exact Ht].
Defined.

(** ** Folding *)

(** A callback that updates its accumulator and never fails. *)
Definition pure_step {Acc} (f : Acc → JournalEntry → Acc) (e : JournalEntry) :
    method Acc () () := λ acc, (f acc e, Ok tt).

Lemma visit_pure {Acc} (f : Acc → JournalEntry → Acc) es acc :
  visit (pure_step f) es acc = (fold_left f es acc, Ok tt).
Proof.
  revert acc. induction es as [|e es IH]; intros acc; [done|]. cbn [visit fold_left].
  unfold mbind, method_bind, pure_step at 1. apply IH.
Qed.

(** [fold] is a left fold: on a healthy journal that fits the limits and
    without faults, it returns the fold of the function over all entries in
    order, together with the head and the totals of the journal. *)
Theorem fold_is_fold_left {W} `{backend : Backend W} `{obs : Observed W} path
    `{laws : !BackendLaws W path} `{sha : Sha256} `{aead : Aead} {Acc}
    (f : Acc → JournalEntry → Acc) acc limits (j : SecureJournal W) rows evs :
  path_ok (path := path) → journal_inv path j rows evs → reliable j.(world) →
  j.(healthy) = true →
  (Z.of_nat (length rows) ≤ limits.(max_sequence) ≤ MAX_JOURNAL_ENTRIES)%Z →
  (plaintext_total evs ≤ limits.(max_plaintext_bytes) ≤ MAX_REPLAY_PLAINTEXT_BYTES)%Z →
  ∃ j', fold limits acc (pure_step f) j =
    (j', Ok (fold_left f (zip_with entry_of rows evs) acc,
             mkSummary (head_anchor j.(journal_id) rows) (Z.of_nat (length rows))
               (plaintext_total evs))).
Proof.
  intros Hp Hinv Hr Hok Hs Hpt. pose proof (plaintext_total_nonneg evs).
  pose proof (replay_wp True (pure_step f) limits j acc rows evs Hp Hinv (λ _, Hr)
    ltac:(lia) ltac:(lia)) as Hwp. unfold fold, wp in *.
  destruct (replay _ _ _) as [[j' acc'] [summary|[err|err]]].
  - destruct Hwp as (-> & Hv & _). rewrite visit_pure in Hv. injection Hv as <-. by exists j'.
  - destruct Hwp as (_ & _ & _ & _ & Hlim). exfalso.
    destruct (Hlim I) as [?|[?|[?|Hout]]]; [congruence|lia|lia|].
    destruct Hinv as (_ & _ & (_ & _ & _ & Hn & Hc & _) & _). apply Hout.
    split_and!; try done. intros l [= <-]. lia.
  - destruct Hwp as (_ & _ & _ & _ & _ & _ & n & Hv). by rewrite visit_pure in Hv.
Qed.

Lemma fold_is_fold_left_witness :
  ∃ j', fold wide [] (pure_step (λ acc e, acc ++ JournalChain.event e)) lagging =
    (j', Ok ([x61; x62; x63], mkSummary (head_anchor jid [row1; row2]) 2 3)).
Proof.
  exact (fold_is_fold_left DemoWorld.path (λ acc e, acc ++ JournalChain.event e) [] wide lagging
    [row1; row2] [[x61]; [x62; x63]] DemoWorld.demo_path_ok lagging_inv ltac:(constructor) eq_refl
    ltac:(by vm_compute) ltac:(by vm_compute)).
Defined.

(** ** Poisoning *)

(** A poisoned journal is inert: once a commit or an anchor store has failed,
    every method returns [Poisoned], a replay does not touch its callback, and
    no sequence of calls changes the journal, its database or its secrets. *)
Theorem poisoned_journal_is_inert {W} `{backend : Backend W} `{sha : Sha256} `{aead : Aead}
    (j : SecureJournal W) :
  j.(healthy) = false →
  head j = (j, Err Poisoned) ∧ verify j = (j, Err Poisoned) ∧
  first_entry j = (j, Err Poisoned) ∧ entries j = (j, Err Poisoned) ∧
  (∀ event, append event j = (j, Err Poisoned)) ∧
  (∀ expected event, append_expected expected event j = (j, Err Poisoned)) ∧
  (∀ C E (callback : JournalEntry → method C E ()) limits c,
     replay callback limits (j, c) = ((j, c), Err (ReplayJournal Poisoned)) ∧
     fold limits c callback j = (j, Err (ReplayJournal Poisoned))) ∧
  ∀ cs, do_calls cs j = (j, []).
Proof.
  intros Hh. unfold verify, append, head, first_entry, entries, fold. run_methods.
  repeat split; intros;
    by rewrite ?poisoned_scan, ?poisoned_append_expected, ?poisoned_replay, ?poisoned_calls by done.
Qed.

Lemma poisoned_journal_is_inert_witness :
  append [x61] (poison (journal_with [])) = (poison (journal_with []), Err Poisoned).
Proof. apply (poisoned_journal_is_inert (poison (journal_with []))). reflexivity. Defined.
