(* ===== verification/JournalOpen.v ===== *)
(** * Runs of [open]

    The states that a journal can be left in between two processes, and the
    specification of [open] against them: with faults it moves between these
    states and loses nothing, without faults it opens the journal. *)

From Stdlib.Strings Require Import Byte.
From S2P Require Import Prelude Bytes Crypto JournalChain JournalChainProperties JournalBackend Journal JournalInit JournalSpecs JournalRun JournalProperties.

(** ** Journals at rest *)

(** Nothing has been created. *)
Definition fresh (v : View) : Prop :=
  v.(durable) = empty_db ∧ v.(stored_key) = None ∧ v.(stored_anchor) = None.

(** The database exists with a pending record, and the key and the anchor were
    stored in this order or not yet. *)
Definition pending `{Aead} (v : View) : Prop :=
  v.(file) = Existing ∧ ∃ jid n c,
    v.(durable) = pending_db jid n c ∧ length jid = JOURNAL_ID_BYTES ∧
    length n = NONCE_BYTES ∧ blen c = INIT_CIPHERTEXT_BYTES ∧
    match v.(stored_key) with
    | None => v.(stored_anchor) = None
    | Some k => opens k jid n c ∧
        (v.(stored_anchor) = None ∨ v.(stored_anchor) = Some (initial_anchor jid))
    end.

Definition ready `{Sha256} `{Aead} (v : View) (rows : list Row) (evs : list bytes) : Prop :=
  ∃ k jid, stored k jid rows evs v.

Definition at_rest `{Sha256} `{Aead} (v : View) (rows : list Row) (evs : list bytes) : Prop :=
  v.(working) = None ∧ (rows = [] ∧ evs = [] ∧ (fresh v ∨ pending v) ∨ ready v rows evs).

Section open.
Context {W : Type} `{backend : Backend W} `{obs : Observed W} {path : PathBuf}
  `{laws : !BackendLaws W path} `{sha : Sha256} `{aead : Aead} (L : Prop).

(** ** Queries of the format *)

(** What the three queries on the initialization record answer. *)
Definition has_record (st : Z) (n c : bytes) (d : Db) : Prop :=
  ans_initialization_rows d = Some 1%Z ∧
  ans_initialization d = Some (st, blen n, n, blen c, c) ∧
  ans_update_guards d = Some (if st == INITIALIZATION_PENDING then 0 else 1)%Z ∧
  (st = INITIALIZATION_PENDING ∨ st = INITIALIZATION_READY) ∧
  length n = NONCE_BYTES ∧ blen c = INIT_CIPHERTEXT_BYTES.

Lemma load_record_quiet w st n c allowed :
  has_record st n c (visible (view w)) →
  quiet L load_initialization_record w (λ r, r = mkInitialization st n c) allowed.
Proof using laws.
  intros (Hr & Hi & Hg & Hst & Hn & Hc). unfold load_initialization_record.
  eapply quiet_select; [apply initialization_rows_law|done|]. intros w1 Hv1.
  apply quiet_pass; [done|].
  eapply quiet_select; [apply initialization_law|by rewrite Hv1|]. intros w2 Hv2.
  eapply quiet_let; [by apply ok_or_pass, checked_add_u64_fits|]. intros w3 Hv3.
  apply quiet_pass; [rewrite Hc, (proj2 (blen_length _ _) Hn); by destruct Hst as [-> | ->]|].
  eapply quiet_select; [apply update_guards_law|by rewrite Hv3, Hv2, Hv1|]. intros w4 _.
  apply quiet_pass; [by destruct Hst as [-> | ->]|].
  eapply quiet_let; [by apply try_into_pass|]. intros w5 _. by apply quiet_ret.
Qed.

Definition has_schema (kind : SchemaKind) (d : Db) : Prop :=
  let v := match kind with Legacy => LEGACY_SCHEMA_VERSION | Recoverable => SCHEMA_VERSION end in
  ans_required_tables d = Some 2%Z ∧ ans_user_version d = Some v ∧
  ans_metadata_rows d = Some 1%Z ∧ ans_schema_version d = Some v ∧
  (kind = Recoverable → ans_initialization_tables d = Some 1%Z).

Lemma validate_schema_quiet w kind allowed :
  has_schema kind (visible (view w)) → quiet L validate_schema w (λ k, k = kind) allowed.
Proof using laws.
  intros (Ht & Hu & Hm & Hs & Hi). unfold validate_schema.
  eapply quiet_select; [apply required_tables_law|done|]. intros w1 Hv1.
  eapply quiet_select; [apply user_version_law|by rewrite Hv1|]. intros w2 Hv2.
  apply quiet_pass; [by destruct kind|].
  eapply quiet_select; [apply metadata_rows_law|by rewrite Hv2, Hv1|]. intros w3 Hv3.
  eapply quiet_select; [apply schema_version_law|by rewrite Hv3, Hv2, Hv1|]. intros w4 Hv4.
  apply quiet_pass; [by destruct kind|]. destruct kind; cbn; [by apply quiet_ret|].
  apply quiet_pass; [done|].
  eapply quiet_select; [apply initialization_tables_law|rewrite Hv4, Hv3, Hv2, Hv1; by apply Hi|].
  intros w5 _. by apply quiet_ret.
Qed.

Lemma pristine_quiet w o u allowed :
  ans_object_count (visible (view w)) = Some o → ans_user_version (visible (view w)) = Some u →
  quiet L database_is_pristine w (λ b, b = ((o == 0%Z) && (u == 0%Z))) allowed.
Proof using laws.
  intros Ho Hu. unfold database_is_pristine.
  eapply quiet_select; [apply object_count_law|done|]. intros w1 Hv1.
  eapply quiet_select; [apply user_version_law|by rewrite Hv1|]. intros w2 _. by apply quiet_ret.
Qed.

Lemma has_entries_quiet w n allowed :
  ans_entries_exist (visible (view w)) = Some n →
  quiet L journal_has_entries w (λ b, b = (n != 0%Z)) allowed.
Proof using laws.
  intros Hn. unfold journal_has_entries.
  eapply quiet_select; [apply entries_exist_law|done|]. intros w1 _. by apply quiet_ret.
Qed.

(** Loading secrets. *)
Lemma load_key_quiet w allowed :
  quiet L (secret load_key) w (λ k, k = (view w).(stored_key)) allowed.
Proof using laws.
  apply quiet_map_err. intros Hw. eapply wp_mono; [apply load_key_law|..]; unfold unchanged; naive_solver.
Qed.

Lemma load_anchor_quiet' w allowed :
  quiet L (secret load_anchor) w (λ a, a = (view w).(stored_anchor)) allowed.
Proof using laws.
  apply quiet_map_err. intros Hw. eapply wp_mono; [apply load_anchor_law|..]; unfold unchanged; naive_solver.
Qed.

Lemma random_quiet n w allowed : quiet L (random_bytes n) w (λ b, length b = n) allowed.
Proof using laws.
  intros Hw. unfold wp, random_bytes. destruct (fill_bytes_law (path := path) n w) as (Hv & Hl & Hr).
  destruct (fill_bytes n w) as [w' b]. cbn in *. auto.
Qed.

(** The state of the file, as [open] sees it. *)
Lemma inspect_sidecar_quiet w suffix :
  path_ok (path := path) → suffix = "-wal"%string ∨ suffix = "-shm"%string →
  quiet L (inspect_sidecar (view w).(file) (database_sidecar path suffix)) w (λ _, True) (λ _, False).
Proof using laws.
  intros (H1 & H2 & H3 & H4 & H5 & _) Hs.
  assert (database_sidecar path suffix ≠ parent_directory path) as Hp by (by destruct Hs as [-> | ->]).
  unfold inspect_sidecar.
  apply quiet_bind with (P := λ r, match r with
    | Ok md => L → md.(is_symlink) = false ∧ md.(is_file) = true ∧ (view w).(file) = Existing
    | Err e => L → e.(not_found) = true
    end).
  { intros Hw. apply wp_attempt. eapply wp_mono; [by apply metadata_quiet|..]; [|naive_solver].
    intros md w' (Hv & Hr & _ & Hmd). split_and!; [done..|]. intros HL.
    destruct (Hmd HL) as [[Hsym Hf] He]. rewrite bool_decide_eq_false_2 in Hf by done.
    split_and!; [done..|]. apply He. destruct Hs as [-> | ->]; auto. }
  intros [md|e] w' Hmd Hv.
  - apply quiet_bind with (P := λ _, True).
    + apply quiet_lift; [done|]. unfold reject_link_like. intros e He HL.
      destruct (Hmd HL) as [Hsym _]. by rewrite Hsym in He.
    + intros _ w2 _ _. apply quiet_fail_if; [|done]. intros Hc HL.
      destruct (Hmd HL) as (_ & Hf & He). rewrite Hf, He in Hc. done.
  - apply quiet_fail_if; [|done]. intros Hc HL. by rewrite Hmd in Hc.
Qed.

Lemma inspect_quiet w :
  path_ok (path := path) →
  quiet L (inspect_database_path path) w (λ s, s = (view w).(file)) (λ _, False).
Proof using laws.
  intros Hpath. pose proof Hpath as (Hdir & _ & _ & _ & _ & Hempty & Hmem). unfold inspect_database_path.
  apply quiet_pass; [rewrite Hempty; by apply bool_decide_eq_false_2|].
  eapply quiet_bind; [apply parent_quiet|]. intros _ w1 _ Hv1.
  apply quiet_bind with (P := λ r, match r with
    | Ok md => (view w).(file) = (if md.(md_len) == 0%Z then Empty else Existing) ∧
        (L → md.(is_symlink) = false ∧ md.(is_file) = true)
    | Err e => (e.(not_found) = true → (view w).(file) = Missing) ∧ (L → e.(not_found) = true)
    end).
  { intros Hw. apply wp_attempt. eapply wp_mono; [by apply metadata_quiet|..]; rewrite Hv1.
    - intros md w' (Hv & Hr & Hf & Hmd). split_and!; [done..|by apply Hf|].
      intros HL. destruct (Hmd HL) as [[Hs Hi] _]. by rewrite bool_decide_eq_false_2 in Hi.
    - naive_solver. }
  intros r w2 Hr Hv2. apply quiet_bind with (P := λ s, s = (view w).(file)).
  { destruct r as [md|e]; destruct Hr as [Hf HL'].
    - apply quiet_bind with (P := λ _, True).
      + apply quiet_lift; [done|]. unfold reject_link_like. intros e He HL.
        destruct (HL' HL) as [Hs _]. by rewrite Hs in He.
      + intros _ w3 _ _. apply quiet_check; [|intros _; by apply quiet_ret].
        intros Hc HL. destruct (HL' HL) as [_ Hi]. by rewrite Hi in Hc.
    - destruct (not_found e); [apply quiet_ret; by rewrite Hf|].
      apply quiet_throw. intros HL. by specialize (HL' HL). }
  intros ? w3 -> Hv3. eapply quiet_bind.
  { rewrite <-Hv1, <-Hv2, <-Hv3. by apply inspect_sidecar_quiet; [|left]. }
  intros _ w4 _ Hv4. eapply quiet_bind.
  { rewrite <-Hv1, <-Hv2, <-Hv3, <-Hv4. by apply inspect_sidecar_quiet; [|right]. }
  intros _ w5 _ _. by apply quiet_ret.
Qed.

(** ** Calls that change the view *)

(** What holds when [open] fails, once its connection is dropped. *)
Definition crashed (rows : list Row) (evs : list bytes) (e : JournalError) (w : W) : Prop :=
  ¬ L ∧ at_rest (set_working None (view w)) rows evs.

(** What holds when [open] succeeds. *)
Definition opened_ok (rows : list Row) (evs : list bytes) (j : SecureJournal W) (w : W) : Prop :=
  j.(world) = w ∧ journal_inv path j rows evs ∧ j.(healthy) = true ∧
  j.(trusted_head) = head_anchor j.(journal_id) rows ∧
  (view w).(stored_anchor) = Some j.(trusted_head) ∧ (L → reliable w).

Lemma crashed_drop rows evs e w :
  crashed rows evs e w → crashed rows evs e (drop_transaction w).
Proof using laws.
  intros [HL Hr]. split; [done|]. destruct (drop_transaction_law (path := path) w) as [-> _]. done.
Qed.

Lemma quiet_run {A} (m : method W JournalError A) w P Q R :
  quiet L m w P (λ _, False) → (L → reliable w) →
  (∀ a w', view w' = view w → (L → reliable w') → P a → Q a w') →
  (∀ e w', view w' = view w → ¬ L → R e w') → wp m Q R w.
Proof. intros Hm Hw HQ HR. eapply wp_mono; [by apply Hm|naive_solver..]. Qed.

Lemma stmt_run {A} (op : method W string A) effect w a d Q R :
  stmt_spec op effect → effect (visible (view w)) = Some (a, d) → (L → reliable w) →
  (∀ w', view w' = set_working (Some d) (view w) → (L → reliable w') → Q a w') →
  (∀ e w', view w' = view w → ¬ L → R e w') → wp (db op) Q R w.
Proof.
  intros Hop He Hw HQ HR. apply wp_map_err. eapply wp_mono; [apply Hop|..].
  - intros b w' [(d' & He' & Hv) Hr]. rewrite He in He'. simplify_eq. auto.
  - intros e w' [Hv Hr]. apply HR; [done|]. intros HL. destruct (Hr (Hw HL)). congruence.
Qed.

Lemma store_run (op : method W string ()) effect w Q R :
  store_spec op effect → (L → reliable w) →
  (∀ w', view w' = effect (view w) → (L → reliable w') → Q tt w') →
  (∀ e w', view w' = view w ∨ view w' = effect (view w) → ¬ L → R e w') → wp (secret op) Q R w.
Proof.
  intros Hop Hw HQ HR. apply wp_map_err. eapply wp_mono; [apply Hop|..].
  - intros [] w' [Hv Hr]. auto.
  - intros e w' [Hv Hr]. apply HR; [done|]. intros HL. by destruct (Hr (Hw HL)).
Qed.

Lemma commit_run w d Q R :
  (view w).(working) = Some d → (L → reliable w) →
  (∀ w', view w' = set_durable d (view w) → (L → reliable w') → Q tt w') →
  (∀ e w', view w' = set_working None (view w) ∨ view w' = set_durable d (view w) → ¬ L → R e w') →
  wp (db commit) Q R w.
Proof using laws.
  intros Hd Hw HQ HR. apply wp_map_err. eapply wp_mono; [apply commit_law|..]; unfold visible;
    rewrite Hd; cbn.
  - intros [] w' [Hv Hr]. auto.
  - intros e w' [Hv Hr]. apply HR; [done|]. intros HL. by destruct (Hr (Hw HL)).
Qed.

Lemma begin_run w Q R :
  (view w).(working) = None → (L → reliable w) →
  (∀ w', view w' = set_working (Some (view w).(durable)) (view w) → (L → reliable w') → Q tt w') →
  (∀ e w', view w' = view w → ¬ L → R e w') → wp (db begin_immediate) Q R w.
Proof using laws.
  intros Hd Hw HQ HR. apply wp_map_err. eapply wp_mono; [apply begin_law|..].
  - intros [] w' [[_ Hv] Hr]. auto.
  - intros e w' [Hv Hr]. apply HR; [done|]. intros HL. destruct (Hr (Hw HL)) as [[d Hd'] _].
    cbn in Hd'. congruence.
Qed.

Lemma transaction_run {A} (body : method W JournalError A) w rows evs Q :
  (view w).(working) = None → (L → reliable w) → at_rest (view w) rows evs →
  (∀ w', view w' = set_working (Some (view w).(durable)) (view w) → (L → reliable w') →
     wp body Q (crashed rows evs) w') →
  wp (transaction body) Q (crashed rows evs) w.
Proof using laws.
  intros Hd Hw Hrest Hbody. unfold transaction, with_transaction. apply wp_bind, wp_on_field.
  apply begin_run; [done..| |].
  - intros w' Hv Hr. apply wp_on_error. eapply wp_mono; [by apply Hbody|done|].
    intros. by apply crashed_drop.
  - intros e w' Hv HL. split; [done|]. cbn. unfold id in *. rewrite Hv.
    assert (set_working None (view w) = view w) as ->; [|done].
    destruct (view w). simpl in *. by subst.
Qed.

(** ** The views of a creation *)

Definition pending_view (jid n c : bytes) (key : option bytes) (anchor : option JournalAnchor) : View :=
  mkView Existing (pending_db jid n c) None key anchor.
Definition ready_view (jid n c k : bytes) : View :=
  mkView Existing (ready_db jid n c) None (Some k) (Some (initial_anchor jid)).

(** A record for a generated key. *)
Definition record_for (k jid : bytes) (r : InitializationRecord) : Prop :=
  r.(state) = INITIALIZATION_PENDING ∧ opens k jid r.(nonce) r.(ciphertext).

Lemma create_record_quiet `{!AeadLaws} k jid w :
  length k = JOURNAL_KEY_BYTES →
  quiet L (create_initialization_record k jid) w (record_for k jid) (λ _, False).
Proof using laws.
  intros Hk. unfold create_initialization_record.
  eapply quiet_let; [unfold cipher_from_key; rewrite Hk; by apply reject_pass|]. intros w1 _.
  eapply quiet_bind; [apply random_quiet|]. intros n w2 Hn _.
  eapply quiet_let; [by apply try_into_pass|]. intros w3 _.
  destruct (aead_total k n (initialization_associated_data jid) INITIALIZATION_PLAINTEXT) as [c Hc];
    [by vm_compute|].
  eapply quiet_let; [by apply ok_or_pass|]. intros w4 _. apply quiet_ret. split; [done|].
  split_and!; [done..| |by apply aead_roundtrip].
  cbn [ciphertext]. by rewrite (aead_length _ _ _ _ _ Hc).
Qed.

Lemma pending_holds jid n c : length jid = JOURNAL_ID_BYTES → holds jid [] (pending_db jid n c).
Proof.
  intros Hj. split_and!; try done. change (Some (blen jid, jid) = Some (Z.of_nat JOURNAL_ID_BYTES, jid)).
  by rewrite (proj2 (blen_length _ _) Hj).
Qed.

Lemma ready_holds jid n c : length jid = JOURNAL_ID_BYTES → holds jid [] (ready_db jid n c).
Proof.
  intros Hj. split_and!; try done. change (Some (blen jid, jid) = Some (Z.of_nat JOURNAL_ID_BYTES, jid)).
  by rewrite (proj2 (blen_length _ _) Hj).
Qed.

Lemma pending_schema jid n c : has_schema Recoverable (pending_db jid n c).
Proof. by split_and!. Qed.

Lemma pending_record jid n c :
  length n = NONCE_BYTES → blen c = INIT_CIPHERTEXT_BYTES →
  has_record INITIALIZATION_PENDING n c (pending_db jid n c).
Proof. intros Hn Hc. split_and!; try done. by left. Qed.

Lemma harden_run w Q R :
  path_ok (path := path) → (view w).(file) ≠ Missing → (L → reliable w) →
  (∀ w', view w' = view w → (L → reliable w') → Q tt w') →
  (∀ e w', view w' = view w → ¬ L → R e w') → wp (harden_database_files path) Q R w.
Proof using laws.
  intros Hp Hf Hw HQ HR.
  apply (quiet_run _ w (λ _, True)); [|done| |done].
  - eapply quiet_mono; [by apply harden_quiet|done|]. by intros e.
  - intros [] w' Hv Hr _. by apply HQ.
Qed.

(** Views that a crash leaves at rest. *)
Lemma crashed_view rows evs e w v :
  ¬ L → at_rest v rows evs → view w = v → crashed rows evs e w.
Proof. intros HL [Hi Hr] <-. split; [done|]. destruct (view w). simpl in *. subst. by split. Qed.

(** The secrets that go with a pending record. *)
Definition pending_secrets (jid n c : bytes) (key : option bytes) (anchor : option JournalAnchor) :
    Prop :=
  length jid = JOURNAL_ID_BYTES ∧ length n = NONCE_BYTES ∧ blen c = INIT_CIPHERTEXT_BYTES ∧
  match key with
  | None => anchor = None
  | Some k => opens k jid n c ∧ (anchor = None ∨ anchor = Some (initial_anchor jid))
  end.

Lemma pending_rest jid n c key anchor :
  pending_secrets jid n c key anchor → at_rest (pending_view jid n c key anchor) [] [].
Proof.
  intros (Hj & Hn & Hc & Hs). split; [done|]. left. split_and!; [done..|]. right. split; [done|].
  exists jid, n, c. by split_and!.
Qed.

Lemma pending_crashed jid n c key anchor d e w :
  pending_secrets jid n c key anchor → ¬ L →
  view w = set_working d (pending_view jid n c key anchor) → crashed [] [] e w.
Proof. intros Hs HL Hv. split; [done|]. rewrite Hv. by apply pending_rest. Qed.

(** The durable steps of a creation, from one state at rest to the next. *)
Lemma pending_commit jid n c n' c' key anchor w Q :
  pending_secrets jid n c key anchor → pending_secrets jid n' c' key anchor →
  view w = set_working (Some (pending_db jid n' c')) (pending_view jid n c key anchor) →
  (L → reliable w) →
  (∀ w', view w' = pending_view jid n' c' key anchor → (L → reliable w') → Q tt w') →
  wp (db commit) Q (crashed [] []) w.
Proof using laws.
  intros Hs Hs' Hv Hw HQ. eapply commit_run; [by rewrite Hv|done|..].
  - intros w1 Hv1 Hw1. apply HQ; [|done]. by rewrite Hv1, Hv.
  - intros e w1 [Hv1|Hv1] HL; rewrite Hv in Hv1.
    + by apply (pending_crashed jid n c key anchor None).
    + by apply (pending_crashed jid n' c' key anchor None).
Qed.

Lemma pending_store_key k jid n c w Q :
  pending_secrets jid n c None None → opens k jid n c →
  view w = pending_view jid n c None None → (L → reliable w) →
  (∀ w', view w' = pending_view jid n c (Some k) None → (L → reliable w') → Q tt w') →
  wp (secret (store_key k)) Q (crashed [] []) w.
Proof using laws.
  intros Hs Ho Hv Hw HQ. eapply store_run; [apply store_key_law|done|..]; rewrite Hv; [done|].
  intros e w1 [Hv1|Hv1] HL.
  - by apply (pending_crashed jid n c None None None).
  - apply (pending_crashed jid n c (Some k) None None); [|done..].
    destruct Hs as (? & ? & ? & _). split_and!; auto.
Qed.

Lemma pending_store_anchor k jid n c a w Q :
  pending_secrets jid n c (Some k) a →
  view w = pending_view jid n c (Some k) a → (L → reliable w) →
  (∀ w', view w' = pending_view jid n c (Some k) (Some (initial_anchor jid)) → (L → reliable w') →
     Q tt w') →
  wp (secret (store_anchor (initial_anchor jid))) Q (crashed [] []) w.
Proof using laws.
  intros Hs Hv Hw HQ. eapply store_run; [apply store_anchor_law|done|..]; rewrite Hv; [done|].
  intros e w1 [Hv1|Hv1] HL.
  - by apply (pending_crashed jid n c (Some k) a None).
  - apply (pending_crashed jid n c (Some k) (Some (initial_anchor jid)) None); [|done..].
    destruct Hs as (? & ? & ? & ? & _). split_and!; auto.
Qed.

Lemma ready_stored k jid n c :
  length jid = JOURNAL_ID_BYTES → opens k jid n c → stored k jid [] [] (ready_view jid n c k).
Proof.
  intros Hj Ho. split_and!; try done; [by apply ready_holds|constructor| |].
  - split_and!; [done|by destruct Ho|]. left. by exists n, c.
  - exists (initial_anchor jid). split; [done|]. by split_and!.
Qed.

Lemma ready_rest k jid n c :
  length jid = JOURNAL_ID_BYTES → opens k jid n c → at_rest (ready_view jid n c k) [] [].
Proof. intros Hj Ho. split; [done|]. right. exists k, jid. by apply ready_stored. Qed.

(** ** Finalization *)

Lemma finalize_wp k jid n c w Q :
  length jid = JOURNAL_ID_BYTES → opens k jid n c →
  view w = pending_view jid n c (Some k) (Some (initial_anchor jid)) → (L → reliable w) →
  (∀ w', view w' = ready_view jid n c k → (L → reliable w') → Q tt w') →
  wp (finalize_pending_initialization jid) Q (crashed [] []) w.
Proof using laws.
  intros Hj Ho Hv Hw HQ. pose proof Ho as (_ & Hn & Hc & _).
  assert (pending_secrets jid n c (Some k) (Some (initial_anchor jid))) as Hs by (split_and!; auto).
  assert (∀ e w' d, view w' = set_working d (view w) → ¬ L → crashed [] [] e w') as Hcrash.
  { intros e w' d Hv' HL. eapply pending_crashed; [done..|]. by rewrite Hv', Hv. }
  apply transaction_run; [by rewrite Hv|done|rewrite Hv; by apply pending_rest|].
  intros w1 Hv1 Hw1. rewrite Hv in Hv1. cbn in Hv1. apply wp_bind.
  assert (∀ e w', view w' = view w1 → ¬ L → crashed [] [] e w') as Hsame.
  { intros e w' Hv'. apply (Hcrash e w' (Some (pending_db jid n c))). by rewrite Hv', Hv1, Hv. }
  eapply quiet_run; [apply (validate_schema_quiet w1 Recoverable); rewrite Hv1; apply pending_schema|..];
    try done. intros ? w2 Hv2 Hw2 ->. rewrite Hv1 in Hv2. apply wp_bind, wp_fail_if; [done|intros _].
  apply wp_bind. eapply quiet_run; [eapply (load_journal_id_quiet L w2 jid []); rewrite Hv2;
    by apply pending_holds|done| |]; [|intros e w' Hv'; apply Hsame; by rewrite Hv', Hv2].
  intros ? w3 Hv3 Hw3 ->. rewrite Hv2 in Hv3. apply wp_bind, wp_fail_if; [by rewrite ne_refl_false|intros _].
  apply wp_bind. eapply quiet_run; [eapply (has_entries_quiet w3 0); by rewrite Hv3|done| |];
    [|intros e w' Hv'; apply Hsame; by rewrite Hv', Hv3].
  intros ? w4 Hv4 Hw4 ->. rewrite Hv3 in Hv4. apply wp_bind, wp_fail_if; [done|intros _].
  apply wp_bind. eapply quiet_run; [eapply (load_record_quiet w4); rewrite Hv4; by apply pending_record
    |done| |]; [|intros e w' Hv'; apply Hsame; by rewrite Hv', Hv4].
  intros ? w5 Hv5 Hw5 ->. rewrite Hv4 in Hv5. cbn [state]. apply wp_bind, wp_fail_if; [done|intros _].
  apply wp_bind. eapply stmt_run; [apply update_ready_law|by rewrite Hv5|done| |];
    [|intros e w' Hv'; apply Hsame; by rewrite Hv', Hv5].
  intros w6 Hv6 Hw6. rewrite Hv5 in Hv6. cbn in Hv6. apply wp_bind, wp_fail_if; [done|intros _].
  apply wp_bind. eapply stmt_run; [apply create_update_guard_law|by rewrite Hv6|done| |].
  2: { intros e w' Hv'. eapply Hcrash. by rewrite Hv', Hv6, Hv. }
  intros w7 Hv7 Hw7. rewrite Hv6 in Hv7. cbn in Hv7.
  eapply commit_run; [by rewrite Hv7|done|..].
  - intros w8 Hv8 Hw8. apply HQ; [|done]. by rewrite Hv8, Hv7.
  - intros e w8 [Hv8|Hv8] HL; rewrite Hv7 in Hv8.
    + eapply (Hcrash e w8 None); [|done]. by rewrite Hv8, Hv.
    + split; [done|]. rewrite Hv8. by apply ready_rest.
Qed.

(** ** A new journal *)

Lemma opened_ready k jid n c w :
  length jid = JOURNAL_ID_BYTES → opens k jid n c → view w = ready_view jid n c k →
  (L → reliable w) → opened_ok [] [] (opened k jid path w) w.
Proof.
  intros Hj Ho Hv Hw. unfold opened_ok, journal_inv. cbn. rewrite Hv. split_and!; try done.
  - by apply ready_stored.
  - by exists 0.
Qed.

Lemma initialize_schema_wp f jid r w Q :
  length jid = JOURNAL_ID_BYTES → length r.(nonce) = NONCE_BYTES →
  blen r.(ciphertext) = INIT_CIPHERTEXT_BYTES →
  view w = mkView f empty_db None None None → (L → reliable w) →
  (∀ w', view w' = pending_view jid r.(nonce) r.(ciphertext) None None → (L → reliable w') → Q tt w') →
  wp (initialize_schema jid r) Q (crashed [] []) w.
Proof using laws.
  intros Hj Hn Hc Hv Hw HQ.
  assert (∀ e w' d, view w' = set_working d (view w) → ¬ L → crashed [] [] e w') as Hcrash.
  { intros e w' d Hv' HL. split; [done|]. rewrite Hv', Hv. split; [done|]. left.
    split_and!; [done..|]. by left. }
  unfold initialize_schema. apply wp_bind, begin_run; [by rewrite Hv|done| |].
  2: { intros e w' Hv'. apply (Hcrash e w' None). by rewrite Hv', Hv. }
  intros w1 Hv1 Hw1. rewrite Hv in Hv1. cbn in Hv1.
  apply wp_bind. eapply stmt_run; [apply create_tables_law|by rewrite Hv1|done| |];
    [|intros e w' Hv'; eapply Hcrash; by rewrite Hv', Hv1, Hv].
  intros w2 Hv2 Hw2. rewrite Hv1 in Hv2. cbn in Hv2.
  apply wp_bind. eapply stmt_run; [apply insert_metadata_law| |done| |];
    [rewrite Hv2; unfold do_insert_metadata; rewrite Hj; reflexivity
    | |intros e w' Hv'; eapply Hcrash; by rewrite Hv', Hv2, Hv].
  intros w3 Hv3 Hw3. rewrite Hv2 in Hv3. cbn in Hv3.
  apply wp_bind. eapply stmt_run; [apply insert_initialization_law| |done| |];
    [rewrite Hv3; unfold do_insert_initialization; rewrite Hn, Hc; reflexivity
    | |intros e w' Hv'; eapply Hcrash; by rewrite Hv', Hv3, Hv].
  intros w4 Hv4 Hw4. rewrite Hv3 in Hv4. cbn in Hv4.
  apply wp_bind. eapply stmt_run; [apply create_triggers_law|by rewrite Hv4|done| |];
    [|intros e w' Hv'; eapply Hcrash; by rewrite Hv', Hv4, Hv].
  intros w5 Hv5 Hw5. rewrite Hv4 in Hv5. cbn in Hv5.
  eapply commit_run; [by rewrite Hv5|done|..].
  - intros w6 Hv6 Hw6. apply HQ; [|done]. by rewrite Hv6, Hv5.
  - intros e w6 [Hv6|Hv6] HL; rewrite Hv5 in Hv6.
    + eapply (Hcrash e w6 None); [|done]. by rewrite Hv6, Hv.
    + apply (pending_crashed jid (nonce r) (ciphertext r) None None None); [by split_and!|done..].
Qed.

Lemma initialize_wp `{!AeadLaws} f w :
  path_ok (path := path) → f ≠ Missing →
  view w = mkView f empty_db None None None → (L → reliable w) →
  wp (initialize_new_journal path) (opened_ok [] []) (crashed [] []) w.
Proof using laws.
  intros Hp Hf Hv Hw.
  assert (at_rest (view w) [] []) as Hrest.
  { rewrite Hv. split; [done|]. left. split_and!; [done..|]. by left. }
  unfold initialize_new_journal. apply wp_bind.
  eapply quiet_run; [apply (pristine_quiet w 0 0); by rewrite Hv|done| |
    intros e w' Hv' HL; by eapply crashed_view].
  intros ? w1 Hv1 Hw1 ->. apply wp_bind, wp_fail_if; [done|intros _]. apply wp_bind.
  eapply quiet_run; [apply random_quiet|done| |
    intros e w' Hv' HL; eapply crashed_view; [done..|congruence]].
  intros jid w2 Hv2 Hw2 Hj. apply wp_bind.
  eapply quiet_run; [apply random_quiet|done| |
    intros e w' Hv' HL; eapply crashed_view; [done..|congruence]].
  intros k w3 Hv3 Hw3 Hk. apply wp_bind, wp_lift.
  2: { intros e. unfold cipher_from_key. rewrite Hk. by rewrite ne_refl_false. }
  intros ? Hcipher. assert (a = k) as ->.
  { unfold cipher_from_key in Hcipher. inv_ok Hcipher. done. }
  apply wp_bind. eapply quiet_run; [by apply create_record_quiet|done| |
    intros e w' Hv' HL; eapply crashed_view; [done..|congruence]].
  intros r w4 Hv4 Hw4 [_ Ho]. pose proof Ho as (_ & Hn & Hc & _). apply wp_bind.
  eapply (initialize_schema_wp f); [done..|congruence|done|]. intros w5 Hv5 Hw5.
  set (n := nonce r) in *. set (c := ciphertext r) in *.
  assert (pending_secrets jid n c None None) as Hs by (by split_and!).
  apply wp_bind, harden_run; [done|by rewrite Hv5|done| |].
  2: { intros e w' Hv' HL. rewrite Hv5 in Hv'. by apply (pending_crashed jid n c None None None). }
  intros w6 Hv6 Hw6. rewrite Hv5 in Hv6. apply wp_bind, (pending_store_key k jid n c); [done..|].
  intros w7 Hv7 Hw7. apply wp_bind, (pending_store_anchor k jid n c None); [split_and!; auto|done..|].
  intros w8 Hv8 Hw8. apply wp_bind.
  eapply (finalize_wp k jid n c); [done..|]. intros w9 Hv9 Hw9.
  apply wp_bind, harden_run; [done|by rewrite Hv9|done| |].
  2: { intros e w' Hv' HL. rewrite Hv9 in Hv'.
       apply (crashed_view _ _ _ _ (ready_view jid n c k)); [done|by apply ready_rest|done]. }
  intros w10 Hv10 Hw10. rewrite Hv9 in Hv10. apply wp_bind, wp_get_self, wp_ret.
  by apply (opened_ready k jid n c).
Qed.

(** ** An existing journal *)

Lemma verify_opened_wp k jid w rows evs :
  path_ok (path := path) → (view w).(working) = None → stored k jid rows evs (view w) →
  (L → reliable w) → wp (verify_opened k jid path) (opened_ok rows evs) (crashed rows evs) w.
Proof using laws.
  intros Hp Hidle Hs Hw. set (j := opened k jid path w).
  assert (journal_inv path j rows evs) as Hinv.
  { split_and!; try done. exists 0. split_and!; [lia|done..]. }
  assert (wp verify (λ _ j', ∃ scan, scan_ok L ScanNone rows evs j scan j')
            (λ e j', scan_failed L ScanNone rows evs j e j') j) as Hwp.
  { unfold verify. apply wp_bind. eapply wp_mono; [by apply (head_wp L j rows evs)|..]; [|done].
    intros a j' [_ Hok]. by apply wp_ret. }
  unfold wp, verify_opened in *. fold j. destruct (verify j) as [j' [[]|e]].
  - destruct Hwp as [scan Hok]. pose proof (scan_ok_inv _ _ _ _ _ _ _ Hinv Hok) as Hinv'.
    destruct Hok as (_ & _ & Hh & _ & (Hc & Hi & _) & Ht & _ & Hv & Hr).
    unfold opened_ok. rewrite Hi, Ht, Hv. by split_and!.
  - pose proof (scan_failed_inv _ _ _ _ _ _ _ Hinv Hwp) as (_ & Hidle' & Hs' & _).
    eapply crashed_view; [|split; [done|right; by eexists _, _]|done].
    intros HL. destruct Hwp as (_ & _ & _ & _ & Hf). destruct (Hf HL) as (_ & _ & [?|Hn]); [done|].
    by apply Hn, (inv_scannable (path := path) j).
Qed.

Lemma opens_verify k jid n c st :
  opens k jid n c → verify_initialization_key k jid (mkInitialization st n c) = Ok tt.
Proof.
  intros (Hk & Hn & _ & Hd). unfold verify_initialization_key, cipher_from_key. rewrite Hk.
  eapply bind_pass; [by apply reject_pass|]. cbn [nonce ciphertext].
  eapply bind_pass; [by apply try_into_pass|].
  eapply bind_pass; [by apply ok_or_pass|]. apply reject_pass; [apply ne_refl_false|done].
Qed.

(** The secrets of a pending journal, inside the recovery transaction. *)
Lemma recover_secrets_wp `{!AeadLaws} jid n c key anchor w Q :
  pending_secrets jid n c key anchor →
  view w = set_working (Some (pending_db jid n c)) (pending_view jid n c key anchor) →
  (L → reliable w) →
  (∀ k n c w', opens k jid n c →
     view w' = pending_view jid n c (Some k) (Some (initial_anchor jid)) → (L → reliable w') → Q tt w') →
  wp (recover_secrets jid (mkInitialization INITIALIZATION_PENDING n c)) Q (crashed [] []) w.
Proof using laws.
  intros Hs Hv Hw HQ.
  assert (∀ e w', view w' = view w → ¬ L → crashed [] [] e w') as Hcrash.
  { intros e w' Hv' HL. eapply pending_crashed; [done..|]. by rewrite Hv', Hv. }
  unfold recover_secrets. apply wp_bind. eapply quiet_run; [apply load_key_quiet|done| |done].
  intros ? w1 Hv1 Hw1 ->. apply wp_bind. eapply quiet_run; [apply load_anchor_quiet'|done| |];
    [|intros e w' Hv'; apply Hcrash; congruence].
  intros ? w2 Hv2 Hw2 ->. rewrite Hv1 in Hv2 |- *. rewrite Hv.
  cbn [set_working stored_key stored_anchor pending_view]. pose proof Hs as (Hj & Hn & Hc & Hka).
  destruct key as [k|]; [destruct Hka as [Ho [-> | ->]]|subst anchor].
  - apply wp_bind, wp_lift; rewrite opens_verify by done; [intros [] _|done].
    apply wp_bind, (pending_commit jid n c n c (Some k) None); [done|done|congruence|done|].
    intros w3 Hv3 Hw3. apply (pending_store_anchor k jid n c None); [done..|]. eauto.
  - apply wp_bind, wp_lift; rewrite opens_verify by done; [intros [] _|done].
    apply wp_bind, wp_fail_if; [by rewrite ne_refl_false|intros _].
    apply (pending_commit jid n c n c (Some k) (Some (initial_anchor jid)));
      [done|done|congruence|done|]. eauto.
  - apply wp_bind. eapply quiet_run; [apply random_quiet|done| |];
      [|intros e w' Hv'; apply Hcrash; congruence].
    intros k w3 Hv3 Hw3 Hk. apply wp_bind.
    eapply quiet_run; [by apply create_record_quiet|done| |];
      [|intros e w' Hv'; apply Hcrash; congruence].
    intros r w4 Hv4 Hw4 [_ Ho]. rewrite Hv3, Hv2 in Hv4. apply wp_bind.
    eapply stmt_run; [apply update_key_law|by rewrite Hv4, Hv|done| |];
      [|intros e w' Hv'; apply Hcrash; congruence].
    intros w5 Hv5 Hw5. rewrite Hv4, Hv in Hv5. cbn in Hv5. apply wp_bind, wp_fail_if; [done|intros _].
    pose proof Ho as (_ & Hn' & Hc' & _).
    assert (pending_secrets jid (nonce r) (ciphertext r) None None) as Hs' by (by split_and!).
    apply wp_bind, (pending_commit jid n c (nonce r) (ciphertext r) None None); [done..|].
    intros w6 Hv6 Hw6. apply wp_bind, (pending_store_key k jid (nonce r) (ciphertext r)); [done..|].
    intros w7 Hv7 Hw7. apply (pending_store_anchor k jid (nonce r) (ciphertext r) None); [|done..|].
    + split_and!; auto.
    + eauto.
Qed.

Lemma ready_record jid n c :
  length n = NONCE_BYTES → blen c = INIT_CIPHERTEXT_BYTES →
  has_record INITIALIZATION_READY n c (ready_db jid n c).
Proof. intros Hn Hc. split_and!; try done. by right. Qed.

Lemma cipher_from_key_pass k : length k = JOURNAL_KEY_BYTES → cipher_from_key k = Ok k.
Proof. intros Hk. unfold cipher_from_key. rewrite Hk. by apply reject_pass. Qed.

(** The end of a recovery, once the journal is ready. *)
Lemma recovered_wp k jid n c w :
  path_ok (path := path) → length jid = JOURNAL_ID_BYTES → opens k jid n c →
  view w = ready_view jid n c k → (L → reliable w) →
  wp (initialization ← load_initialization_record;
      key ← secret load_key;
      key ← lift (ok_or key MissingKey);
      lift (verify_initialization_key key jid initialization);;
      anchor ← secret load_anchor;
      fail_if (anchor == None) MissingAnchor;;
      cipher ← lift (cipher_from_key key);
      harden_database_files path;;
      verify_opened cipher jid path) (opened_ok [] []) (crashed [] []) w.
Proof using laws.
  intros Hp Hj Ho Hv Hw. pose proof Ho as (Hk & Hn & Hc & _).
  assert (∀ e w', view w' = ready_view jid n c k → ¬ L → crashed [] [] e w') as Hcrash.
  { intros e w' Hv' HL. apply (crashed_view _ _ _ _ (ready_view jid n c k)); [done|by apply ready_rest|done]. }
  apply wp_bind. eapply quiet_run; [eapply (load_record_quiet w); rewrite Hv; by apply ready_record
    |done| |intros e w'; rewrite Hv; apply Hcrash].
  intros ? w1 Hv1 Hw1 ->. rewrite Hv in Hv1. apply wp_bind.
  eapply quiet_run; [apply load_key_quiet|done| |intros e w'; rewrite Hv1; apply Hcrash].
  intros ? w2 Hv2 Hw2 ->. rewrite Hv1 in Hv2 |- *. cbn [ready_view stored_key ok_or].
  apply wp_bind, wp_lift; [intros ? [= <-]|done].
  apply wp_bind, wp_lift; rewrite opens_verify by done; [intros [] _|done]. apply wp_bind.
  eapply quiet_run; [apply load_anchor_quiet'|done| |intros e w'; rewrite Hv2; apply Hcrash].
  intros ? w3 Hv3 Hw3 ->. rewrite Hv2 in Hv3 |- *. apply wp_bind, wp_fail_if; [done|intros _].
  apply wp_bind, wp_lift; rewrite cipher_from_key_pass by done; [intros ? [= <-]|done].
  apply wp_bind, harden_run; [done|by rewrite Hv3|done| |intros e w'; rewrite Hv3; apply Hcrash].
  intros w4 Hv4 Hw4. rewrite Hv3 in Hv4. apply verify_opened_wp; [done|by rewrite Hv4| |done].
  rewrite Hv4. by apply ready_stored.
Qed.

Lemma recover_pending_wp `{!AeadLaws} jid n c key anchor w :
  path_ok (path := path) → pending_secrets jid n c key anchor →
  view w = pending_view jid n c key anchor → (L → reliable w) →
  wp (recover_pending_initialization path jid) (opened_ok [] []) (crashed [] []) w.
Proof using laws.
  intros Hp Hs Hv Hw. pose proof Hs as (Hj & Hn & Hc & _). unfold recover_pending_initialization.
  apply wp_bind, transaction_run; [by rewrite Hv|done|rewrite Hv; by apply pending_rest|].
  intros w1 Hv1 Hw1. rewrite Hv in Hv1. cbn [durable pending_view] in Hv1.
  assert (∀ e w', view w' = view w1 → ¬ L → crashed [] [] e w') as Hcrash.
  { intros e w' Hv' HL. eapply pending_crashed; [done..|]. by rewrite Hv', Hv1. }
  apply wp_bind. eapply quiet_run;
    [apply (validate_schema_quiet w1 Recoverable); rewrite Hv1; apply pending_schema|done| |done].
  intros ? w2 Hv2 Hw2 ->. apply wp_bind, wp_fail_if; [done|intros _]. rewrite Hv1 in *.
  apply wp_bind. eapply quiet_run; [eapply (load_journal_id_quiet L w2 jid []); rewrite Hv2;
    by apply pending_holds|done| |]; [|intros e w'; rewrite Hv2; apply Hcrash].
  intros ? w3 Hv3 Hw3 ->. apply wp_bind, wp_fail_if; [by rewrite ne_refl_false|intros _]. rewrite Hv2 in Hv3.
  apply wp_bind. eapply quiet_run; [eapply (load_record_quiet w3); rewrite Hv3; by apply pending_record
    |done| |]; [|intros e w'; rewrite Hv3; apply Hcrash].
  intros ? w4 Hv4 Hw4 ->. rewrite Hv3 in Hv4. cbn [state]. rewrite eq_refl_true.
  apply wp_bind. eapply quiet_run; [eapply (has_entries_quiet w4 0); by rewrite Hv4|done| |];
    [|intros e w'; rewrite Hv4; apply Hcrash].
  intros ? w5 Hv5 Hw5 ->. rewrite Hv4 in Hv5. apply wp_bind, wp_fail_if; [done|intros _].
  eapply recover_secrets_wp; [done..|]. intros k n' c' w6 Ho Hv6 Hw6.
  apply wp_bind. eapply finalize_wp; [done..|]. intros w7 Hv7 Hw7. by eapply recovered_wp.
Qed.

Lemma open_existing_wp k jid init w rows evs :
  path_ok (path := path) → (view w).(working) = None → stored k jid rows evs (view w) →
  (∀ i, init = Some i → verify_initialization_key k jid i = Ok tt) → (L → reliable w) →
  wp (open_existing path jid init) (opened_ok rows evs) (crashed rows evs) w.
Proof using laws.
  intros Hp Hidle Hs Hi Hw. pose proof Hs as (_ & _ & _ & _ & _ & (Hkey & Hk & _) & a & Ha & _).
  assert (∀ e w', view w' = view w → ¬ L → crashed rows evs e w') as Hcrash.
  { intros e w' Hv' HL. apply (crashed_view _ _ _ _ (view w)); [done| |done].
    split; [done|]. right. by exists k, jid. }
  unfold open_existing. apply wp_bind. eapply quiet_run; [apply load_key_quiet|done| |done].
  intros ? w1 Hv1 Hw1 ->. apply wp_bind.
  eapply quiet_run; [apply load_anchor_quiet'|done| |intros e w'; rewrite Hv1; apply Hcrash].
  intros ? w2 Hv2 Hw2 ->. rewrite Hv1 in Hv2 |- *. rewrite Hkey, Ha. cbn [ok_or].
  apply wp_bind, wp_lift; [intros ? [= <-]|done]. apply wp_bind.
  assert (wp match init with
    | Some initialization => lift (verify_initialization_key k jid initialization)
    | None => mret tt
    end (λ _ w', w' = w2) (λ _ _, False) w2) as Hcheck.
  { destruct init as [i|]; [|by apply wp_ret]. apply wp_lift; by rewrite (Hi i). }
  eapply wp_mono; [exact Hcheck| |done]. intros [] ? ->.
  apply wp_bind, wp_lift; rewrite cipher_from_key_pass by done; [intros ? [= <-]|done].
  apply wp_bind, wp_fail_if; [done|intros _].
  apply verify_opened_wp; [done|by rewrite Hv2|by rewrite Hv2|done].
Qed.

(** ** [open] *)

Lemma no_secrets_quiet w allowed :
  (view w).(stored_key) = None → (view w).(stored_anchor) = None →
  quiet L require_no_secrets w (λ _, True) allowed.
Proof using laws.
  intros Hk Ha. unfold require_no_secrets.
  eapply quiet_bind; [apply load_key_quiet|]. intros ? w1 -> Hv1.
  eapply quiet_bind; [apply load_anchor_quiet'|]. intros ? w2 -> Hv2.
  rewrite Hv1, Hk, Ha. by apply quiet_fail_if.
Qed.

(** The branch that [open] takes on a fresh database. *)
Lemma open_fresh_wp `{!AeadLaws} f w :
  path_ok (path := path) → f ≠ Missing → view w = mkView f empty_db None None None →
  (L → reliable w) →
  wp (require_no_secrets;; initialize_new_journal path) (opened_ok [] []) (crashed [] []) w.
Proof using laws.
  intros Hp Hf Hv Hw. apply wp_bind.
  eapply quiet_run; [apply no_secrets_quiet; by rewrite Hv|done| |].
  - intros [] w1 Hv1 Hw1 _. eapply (initialize_wp f); [done|done|congruence|done].
  - intros e w1 Hv1 HL. eapply crashed_view; [done| |exact Hv1]. rewrite Hv. split; [done|]. left.
    split_and!; [done..|]. by left.
Qed.

(** What the schema queries see of a stored journal. *)
Lemma sealed_schema k jid v :
  sealed k jid v →
  (∃ n c, has_schema Recoverable v.(durable) ∧ has_record INITIALIZATION_READY n c v.(durable) ∧
      verify_initialization_key k jid (mkInitialization INITIALIZATION_READY n c) = Ok tt) ∨
  has_schema Legacy v.(durable).
Proof.
  intros (_ & _ & [(n & c & Hf & Ho)|(H1 & H2 & H3 & H4)]).
  - left. exists n, c. pose proof Ho as (_ & Hn & Hc & _). split_and!.
    + change (has_schema Recoverable (frame v.(durable))). rewrite Hf. by split_and!.
    + change (has_record INITIALIZATION_READY n c (frame v.(durable))). rewrite Hf. by apply ready_record.
    + by apply opens_verify.
  - right. by split_and!.
Qed.

Lemma open_stored_wp k jid w rows evs :
  path_ok (path := path) → (view w).(working) = None → stored k jid rows evs (view w) →
  (L → reliable w) →
  wp (open_initialized path) (opened_ok rows evs) (crashed rows evs) w.
Proof using laws.
  intros Hp Hidle Hs Hw. pose proof Hs as (_ & Hh & _ & _ & _ & Hse & _).
  assert (visible (view w) = durable (view w)) as Hvis by (unfold visible; by rewrite Hidle).
  assert (∀ e w', view w' = view w → ¬ L → crashed rows evs e w') as Hcrash.
  { intros e w' Hv' HL. apply (crashed_view _ _ _ _ (view w)); [done| |done].
    split; [done|]. right. by exists k, jid. }
  assert (∃ kind, has_schema kind (durable (view w))) as [kind Hkind].
  { destruct (sealed_schema _ _ _ Hse) as [(n & c & ? & _)|?]; eauto. }
  unfold open_initialized. apply wp_bind. eapply quiet_run; [apply (validate_schema_quiet w kind); by rewrite Hvis|done| |done].
  intros ? w1 Hv1 Hw1 ->. apply wp_bind.
  eapply quiet_run; [apply (load_journal_id_quiet L w1 jid rows); by rewrite Hv1, Hvis|done| |];
    [|intros e w'; rewrite Hv1; apply Hcrash].
  intros ? w2 Hv2 Hw2 ->. rewrite Hv1 in Hv2.
  destruct (sealed_schema _ _ _ Hse) as [(n & c & (_ & Hu & _) & Hrec & Hver)|(_ & Hu & _)];
    destruct Hkind as (_ & Hu' & _); rewrite Hu in Hu'; destruct kind; try done; cbn [bool_decide decide].
  - rewrite eq_refl_true. apply wp_bind.
    eapply quiet_run; [eapply (load_record_quiet w2); by rewrite Hv2, Hvis|done| |];
      [|intros e w'; rewrite Hv2; apply Hcrash].
    intros ? w3 Hv3 Hw3 ->. rewrite Hv2 in Hv3. cbn [state].
    rewrite bool_decide_eq_false_2 by done. apply wp_bind, wp_fail_if; [done|intros _].
    apply (open_existing_wp k); [done|by rewrite Hv3|by rewrite Hv3|by intros i [= <-]|done].
  - rewrite bool_decide_eq_false_2 by done.
    apply (open_existing_wp k); [done|by rewrite Hv2|by rewrite Hv2|done|done].
Qed.

(** A crash that only changed the file, which was not yet in use. *)
Lemma at_rest_file v rows evs f :
  at_rest v rows evs → v.(file) ≠ Existing → at_rest (set_file f v) rows evs.
Proof.
  intros [Hi [(-> & -> & [Hf|[Hf _]])|(k & jid & Hf & _)]] Hne; [|done|done].
  split; [done|]. left. split_and!; [done..|]. by left.
Qed.

Lemma open_pending_wp `{!AeadLaws} jid n c key anchor w :
  path_ok (path := path) → pending_secrets jid n c key anchor →
  view w = pending_view jid n c key anchor → (L → reliable w) →
  wp (open_initialized path) (opened_ok [] []) (crashed [] []) w.
Proof using laws.
  intros Hp Hs Hv Hw. pose proof Hs as (Hj & Hn & Hc & _).
  assert (∀ e w', view w' = pending_view jid n c key anchor → ¬ L → crashed [] [] e w') as Hcrash.
  { intros e w' Hv' HL. by apply (pending_crashed jid n c key anchor None). }
  unfold open_initialized. apply wp_bind. eapply quiet_run;
    [apply (validate_schema_quiet w Recoverable); rewrite Hv; apply pending_schema|done| |];
    [|intros e w'; rewrite Hv; apply Hcrash].
  intros ? w1 Hv1 Hw1 ->. rewrite Hv in Hv1. apply wp_bind.
  eapply quiet_run; [eapply (load_journal_id_quiet L w1 jid []); rewrite Hv1; by apply pending_holds
    |done| |intros e w'; rewrite Hv1; apply Hcrash].
  intros ? w2 Hv2 Hw2 ->. rewrite Hv1 in Hv2. rewrite eq_refl_true. apply wp_bind.
  eapply quiet_run; [eapply (load_record_quiet w2); rewrite Hv2; by apply pending_record
    |done| |intros e w'; rewrite Hv2; apply Hcrash].
  intros ? w3 Hv3 Hw3 ->. rewrite Hv2 in Hv3. cbn [state]. rewrite eq_refl_true.
  by eapply recover_pending_wp.
Qed.

(** A database with a schema version is not pristine. *)
Lemma open_versioned_wp w u rows evs :
  (view w).(working) = None → ans_user_version (view w).(durable) = Some u → u ≠ 0%Z →
  at_rest (view w) rows evs → (L → reliable w) →
  (∀ w', view w' = view w → (L → reliable w') →
     wp (open_initialized path) (opened_ok rows evs) (crashed rows evs) w') →
  wp (open_database path Existing) (opened_ok rows evs) (crashed rows evs) w.
Proof using laws.
  intros Hidle Hu Hu0 Hrest Hw Hopen. unfold open_database. rewrite ne_refl_false. apply wp_bind.
  assert (visible (view w) = durable (view w)) as Hvis by (unfold visible; by rewrite Hidle).
  eapply quiet_run; [eapply (pristine_quiet w); [done|by rewrite Hvis]|done| |].
  - intros ? w1 Hv1 Hw1 ->. rewrite (bool_decide_eq_false_2 (u = 0%Z)), andb_false_r by done.
    by apply Hopen.
  - intros e w1 Hv1 HL. by eapply crashed_view.
Qed.

Lemma open_database_wp `{!AeadLaws} w rows evs path_state :
  path_ok (path := path) → at_rest (view w) rows evs → (view w).(file) ≠ Missing →
  (path_state ≠ Existing → fresh (view w)) → (L → reliable w) →
  wp (open_database path path_state) (opened_ok rows evs) (crashed rows evs) w.
Proof using laws.
  intros Hp Hrest Hf Hps Hw. pose proof Hrest as [Hidle Hcases].
  assert (visible (view w) = durable (view w)) as Hvis by (unfold visible; by rewrite Hidle).
  assert (¬ fresh (view w) → path_state = Existing) as Hex.
  { intros Hn. destruct (decide (path_state = Existing)); [done|]. by destruct Hn; apply Hps. }
  destruct Hcases as [(-> & -> & [(Hd & Hk & Ha)|Hpend])|(k & jid & Hs)].
  - assert (view w = mkView (file (view w)) empty_db None None None) as Hview.
    { destruct (view w). simpl in *. congruence. }
    assert (wp (if path_state != Existing then mret true else database_is_pristine)
      (λ b w', b = true ∧ view w' = view w ∧ (L → reliable w')) (crashed [] []) w) as Hpri.
    { destruct (path_state != Existing); [by apply wp_ret|].
      eapply quiet_run; [apply (pristine_quiet w 0 0); by rewrite Hvis, Hd|done| |].
      - intros b w' Hv' Hw' ->. by split_and!.
      - intros e w' Hv' HL. by eapply crashed_view. }
    unfold open_database. apply wp_bind. eapply wp_mono; [exact Hpri| |done].
    intros ? w1 (-> & Hv1 & Hw1). eapply (open_fresh_wp (file (view w))); [done..|congruence|done].
  - rewrite Hex by (intros (Hd & _); destruct Hpend as (_ & jid & n & c & Hd' & _); by rewrite Hd in Hd').
    destruct Hpend as (He & jid & n & c & Hd & Hj & Hn & Hc & Hs).
    apply (open_versioned_wp w SCHEMA_VERSION); [done|by rewrite Hd|done|done|done|].
    intros w1 Hv1 Hw1. apply (open_pending_wp jid n c (stored_key (view w)) (stored_anchor (view w)));
      [done|by split_and!| |done]. rewrite Hv1. destruct (view w). simpl in *. by subst.
  - pose proof Hs as (_ & (Ht & _) & _ & _ & _ & Hse & _).
    rewrite Hex by (intros (Hd & _); by rewrite Hd in Ht).
    assert (∃ u, ans_user_version (view w).(durable) = Some u ∧ u ≠ 0%Z) as (u & Hu & Hu0).
    { destruct (sealed_schema _ _ _ Hse) as [(n & c & (_ & Hu & _) & _)|(_ & Hu & _)]; by eexists. }
    apply (open_versioned_wp w u); try done. intros w1 Hv1 Hw1.
    apply (open_stored_wp k jid); [done|by rewrite Hv1..|done].
Qed.

(** Before there is a connection: an absent file is created, unless a secret exists. *)
Lemma prepare_wp w rows evs :
  at_rest (view w) rows evs → (L → reliable w) →
  wp (if (view w).(file) != Existing
      then require_no_secrets;;
           (if (view w).(file) == Missing then create_database_file path else mret tt)
      else mret tt)
    (λ _ w', (L → reliable w') ∧ (view w').(file) ≠ Missing ∧ at_rest (view w') rows evs ∧
       ((view w).(file) ≠ Existing → fresh (view w')))
    (λ _ w', ¬ L ∧ at_rest (view w') rows evs) w.
Proof using laws.
  intros Hrest Hw. case_bool_decide as Hne.
  2: { apply wp_ret. by rewrite Hne. }
  assert (fresh (view w)) as (Hd & Hk & Ha).
  { destruct Hrest as [_ [(_ & _ & [?|[? _]])|(k & jid & ? & _)]]; done. }
  apply wp_bind. eapply quiet_run; [by apply no_secrets_quiet|done| |intros e w' -> HL; by split].
  intros [] w1 Hv1 Hw1 _. case_bool_decide as Hm; [|apply wp_ret; by rewrite Hv1].
  unfold create_database_file. apply wp_map_err. eapply wp_mono; [apply create_new_law|..].
  - intros [] w2 [[_ Hv2] Hr]. rewrite Hv1 in Hv2. rewrite Hv2. split_and!; try done; [auto|].
    by apply at_rest_file.
  - intros e w2 [Hv2 Hr]. rewrite Hv1 in *. split.
    + intros HL. by destruct (Hr (Hw1 HL)).
    + destruct Hv2 as [-> |[_ ->]]; [done|by apply at_rest_file].
Qed.

Lemma open_wp `{!AeadLaws} w rows evs :
  path_ok (path := path) → at_rest (view w) rows evs → (L → reliable w) →
  wp (open path) (opened_ok rows evs) (λ _ w', ¬ L ∧ at_rest (view w') rows evs) w.
Proof using laws.
  intros Hp Hrest Hw. unfold open. apply wp_bind.
  eapply quiet_run; [by apply inspect_quiet|done| |intros e w' -> HL; by split].
  intros ? w1 Hv1 Hw1 ->. apply wp_bind. rewrite <-Hv1.
  eapply wp_mono; [apply prepare_wp; [by rewrite Hv1|done]| |done].
  intros [] w2 (Hw2 & Hf2 & Hrest2 & Hfresh2).
  apply wp_bind, wp_map_err. eapply wp_mono; [apply connect_law|..].
  2: { intros e w3 [Hv3 Hr]. cbn in Hv3. rewrite Hv3. split; [|done]. intros HL.
       by destruct (Hr (Hw2 HL)). }
  intros [] w3 [[Hv3 _] Hr3]. apply wp_on_error.
  eapply wp_mono with (Q := opened_ok rows evs) (R := crashed rows evs); [|done|].
  2: { intros e w' [HL Hc]. destruct (disconnect_law (path := path) w') as [-> _]. done. }
  apply wp_bind, wp_map_err. rewrite <-Hv3 in Hf2, Hrest2, Hfresh2.
  assert (∀ w', view w' = view w3 ∨ view w' = set_file Existing (view w3) →
    (view w').(file) ≠ Missing ∧ at_rest (view w') rows evs ∧
    (file (view w1) ≠ Existing → fresh (view w'))) as Hconf.
  { intros w' [-> | ->]; [done|]. destruct (decide (file (view w3) = Existing)) as [He|He].
    - assert (set_file Existing (view w3) = view w3) as ->; [|done].
      destruct (view w3). simpl in *. by subst.
    - split_and!; try done. by apply at_rest_file. }
  eapply wp_mono; [apply configure_law|..].
  2: { intros e w4 [Hv4 Hr]. eapply crashed_view; [|by apply (Hconf w4)|done].
       intros HL. by destruct (Hr (Hr3 (Hw2 HL))). }
  intros [] w4 [Hv4 Hr4]. destruct (Hconf w4 Hv4) as (Hf4 & Hrest4 & Hfresh4).
  apply wp_bind, harden_run; [done|done|auto| |].
  - intros w5 Hv5 Hw5. rewrite <-Hv5 in *. by apply open_database_wp.
  - intros e w5 Hv5 HL. by eapply crashed_view.
Qed.

End open.
