(* ===== verification/JournalOpenProperties.v ===== *)
(** * Properties of opening and of whole journal histories *)

From Stdlib.Strings Require Import Byte.
From S2P Require Import Prelude Bytes Crypto JournalChain JournalChainProperties JournalBackend Journal JournalInit JournalSpecs JournalRun JournalDemo JournalProperties JournalOpen.

(** ** Lifetimes *)

Section lifetimes.
Context {W : Type} `{backend : Backend W} `{sha : Sha256} `{aead : Aead}.

(** One process: it opens the journal, makes calls, and drops it. *)
Definition lifetime (path : PathBuf) (cs : list journal_call) (w : W) : W * list bytes :=
  match open path w with
  | (w, Err _) => (w, [])
  | (_, Ok j) =>
      let '(j, acked) := do_calls cs j in
      (disconnect j.(world), acked)
  end.

(** One process after the other, with the events that each saw acknowledged. *)
Fixpoint lifetimes (path : PathBuf) (css : list (list journal_call)) (w : W) :
    W * list (list bytes) :=
  match css with
  | [] => (w, [])
  | cs :: css =>
      let '(w, acked) := lifetime path cs w in
      let '(w, rest) := lifetimes path css w in
      (w, acked :: rest)
  end.

End lifetimes.

Section histories.
Context {W : Type} `{backend : Backend W} `{obs : Observed W} {path : PathBuf}
  `{laws : !BackendLaws W path} `{sha : Sha256} `{aead : Aead} {shalaws : Sha256Laws}
  {aeadlaws : AeadLaws}.

(** An open journal that is dropped is at rest. *)
Lemma inv_rest j rows evs :
  journal_inv path j rows evs → at_rest (view (disconnect j.(world))) rows evs.
Proof using laws.
  intros (_ & Hidle & Hs & _). destruct (disconnect_law (path := path) j.(world)) as [-> _].
  assert (set_working None (view j.(world)) = view j.(world)) as ->.
  { destruct (view j.(world)). simpl in *. by subst. }
  split; [done|]. right. by exists j.(cipher), j.(journal_id).
Qed.

Lemma lifetime_rest cs w rows evs :
  path_ok (path := path) → Forall call_typed cs → at_rest (view w) rows evs →
  let '(w', acked) := lifetime path cs w in
  ∃ rows' pending, at_rest (view w') (rows ++ rows') (evs ++ acked ++ pending) ∧ length pending ≤ 1.
Proof using All.
  intros Hp Hcs Hrest. unfold lifetime.
  pose proof (open_wp False w rows evs Hp Hrest ltac:(done)) as Hwp. unfold wp in Hwp.
  destruct (open path w) as [w1 [j|e]].
  - destruct Hwp as (_ & Hinv & _). pose proof (do_calls_inv cs j rows evs Hp Hcs Hinv) as Hall.
    destruct (do_calls cs j) as [j' acked]. destruct Hall as (rows' & pending & Hinv' & Hlen & _).
    exists rows', pending. split; [by apply inv_rest|done].
  - exists [], []. destruct Hwp as [_ Hwp]. rewrite !app_nil_r. split; [done|simpl; lia].
Qed.

Lemma lifetimes_rest css w rows evs :
  path_ok (path := path) → Forall (Forall call_typed) css → at_rest (view w) rows evs →
  let '(w', acks) := lifetimes path css w in
  ∃ rows' pendings, at_rest (view w') (rows ++ rows') (evs ++ concat (zip_with app acks pendings)) ∧
    length pendings = length acks ∧ Forall (λ p : list bytes, length p ≤ 1) pendings.
Proof using All.
  intros Hp Hcss. revert w rows evs. induction Hcss as [|cs css Hcs Hcss IH]; intros w rows evs Hrest.
  - exists [], []. cbn. by rewrite !app_nil_r.
  - cbn [lifetimes]. pose proof (lifetime_rest cs w rows evs Hp Hcs Hrest) as Hone.
    destruct (lifetime path cs w) as [w1 acked]. destruct Hone as (rows1 & pending & Hrest1 & Hlen).
    specialize (IH _ _ _ Hrest1). destruct (lifetimes path css w1) as [w2 acks].
    destruct IH as (rows2 & pendings & Hrest2 & Hlens & Hall).
    exists (rows1 ++ rows2), (pending :: pendings). cbn. rewrite <-!app_assoc in *.
    split_and!; [done|by rewrite Hlens|by constructor].
Qed.

End histories.

(** ** Properties *)

(** C36. Opening recovers: from every state that faults and interruptions can
    leave behind - no file, an empty or pristine file, a pending creation with
    or without key and anchor, a ready or legacy journal whose anchor lags - an
    [open] without faults succeeds. The journal it returns has exactly the stored
    chain, is healthy, and its trusted head and the stored anchor are the head
    of the chain. *)
Theorem open_recovers {W} `{backend : Backend W} `{obs : Observed W} path
    `{laws : !BackendLaws W path} `{sha : Sha256} `{aead : Aead} {aeadlaws : AeadLaws}
    (w : W) rows evs :
  path_ok (path := path) → at_rest (view w) rows evs → reliable w →
  ∃ w' j, open path w = (w', Ok j) ∧ j.(world) = w' ∧ journal_inv path j rows evs ∧
    j.(healthy) = true ∧ j.(trusted_head) = head_anchor j.(journal_id) rows ∧
    (view w').(stored_anchor) = Some j.(trusted_head).
Proof.
  intros Hp Hrest Hr. pose proof (open_wp True w rows evs Hp Hrest (λ _, Hr)) as Hwp.
  unfold wp in Hwp. destruct (open path w) as [w' [j|e]]; [|by destruct Hwp as [[] _]].
  destruct Hwp as (? & ? & ? & ? & ? & _). by exists w', j.
Qed.

Import DemoJournal.

(** A world without a journal, with the given faults. *)
Definition new_world (faults : list (option bool)) : DemoWorld.world :=
  DemoWorld.mkWorld (mkView Missing empty_db None None None) faults 7.

Lemma new_rest faults : at_rest (view (new_world faults)) [] [].
Proof. split; [done|]. left. split_and!; [done..|]. left. by split_and!. Qed.

Lemma open_recovers_witness :
  ∃ w' j, open DemoWorld.path (new_world []) = (w', Ok j) ∧
    journal_inv DemoWorld.path j [] [] ∧
    (view w').(stored_anchor) = Some (head_anchor j.(journal_id) []).
Proof.
  destruct (open_recovers DemoWorld.path (aeadlaws := Demo.demo_aead_laws) (new_world []) [] []
    DemoWorld.demo_path_ok (new_rest []) ltac:(constructor))
    as (w' & j & Hrun & _ & Hinv & _ & Ht & Ha).
  exists w', j. rewrite <-Ht. split_and!; [exact Hrun|exact Hinv|exact Ha].
Defined.

(** Opening is crash safe: whatever fails during an [open], and whether a
    failing commit or store took effect or not, what it leaves behind is again a
    state that an [open] recovers from, with the same chain. *)
Theorem open_is_crash_safe {W} `{backend : Backend W} `{obs : Observed W} path
    `{laws : !BackendLaws W path} `{sha : Sha256} `{aead : Aead} {aeadlaws : AeadLaws}
    (w w' : W) rows evs r :
  path_ok (path := path) → at_rest (view w) rows evs → open path w = (w', r) →
  match r with
  | Ok j => j.(world) = w' ∧ journal_inv path j rows evs ∧ j.(healthy) = true
  | Err _ => at_rest (view w') rows evs
  end.
Proof.
  intros Hp Hrest Hrun. pose proof (open_wp False w rows evs Hp Hrest ltac:(done)) as Hwp.
  apply (wp_run _ _ _ _ _ _ Hwp) in Hrun. destruct r as [j|e].
  - by destruct Hrun as (? & ? & ? & _).
  - by destruct Hrun.
Qed.

Lemma open_is_crash_safe_witness :
  let w' := (open DemoWorld.path (new_world (replicate 29 None ++ [Some true]))).1 in
  is_ok (open DemoWorld.path (new_world (replicate 29 None ++ [Some true]))).2 = false ∧
  is_Some (view w').(stored_key) ∧ at_rest (view w') [] [].
Proof.
  set (w := new_world (replicate 29 None ++ [Some true])).
  assert (is_ok (open DemoWorld.path w).2 = false) as Hfail by (vm_compute; reflexivity).
  split; [exact Hfail|]. split; [vm_compute; eexists; reflexivity|].
  pose proof (open_is_crash_safe DemoWorld.path (aeadlaws := Demo.demo_aead_laws) w
    (open DemoWorld.path w).1 [] [] (open DemoWorld.path w).2 DemoWorld.demo_path_ok (new_rest _)
    (surjective_pairing _)) as Hsafe.
  destruct (open DemoWorld.path w).2; [discriminate|exact Hsafe].
Defined.

(** C1. The journal survives restarts: over any number of processes that open
    the journal, make any calls and end, with any faults in any of them, every
    acknowledged event stays in the journal, in order. Besides these the chain
    holds at most one event per process, whose append returned an error. An
    [open] without faults afterwards succeeds and has this chain. *)
Theorem journal_survives_restarts {W} `{backend : Backend W} `{obs : Observed W} path
    `{laws : !BackendLaws W path} `{sha : Sha256} `{aead : Aead} {shalaws : Sha256Laws}
    {aeadlaws : AeadLaws} css (w w' : W) rows evs acks :
  path_ok (path := path) → Forall (Forall call_typed) css → at_rest (view w) rows evs →
  lifetimes path css w = (w', acks) →
  ∃ rows' pendings,
    length pendings = length acks ∧ Forall (λ p : list bytes, length p ≤ 1) pendings ∧
    let evs' := evs ++ concat (zip_with app acks pendings) in
    at_rest (view w') (rows ++ rows') evs' ∧
    (reliable w' → ∃ w'' j, open path w' = (w'', Ok j) ∧ journal_inv path j (rows ++ rows') evs').
Proof.
  intros Hp Hcss Hrest Hrun. pose proof (lifetimes_rest css w rows evs Hp Hcss Hrest) as Hall.
  rewrite Hrun in Hall. destruct Hall as (rows' & pendings & Hrest' & Hlen & Hp1).
  exists rows', pendings. split; [done|]. split; [done|]. intros evs'. split; [done|]. intros Hr.
  pose proof (open_wp True w' _ _ Hp Hrest' (λ _, Hr)) as Hwp. unfold wp in Hwp.
  destruct (open path w') as [w'' [j|e]]; [|by destruct Hwp as [[] _]].
  destruct Hwp as (_ & ? & _). by exists w'', j.
Qed.

Lemma journal_survives_restarts_witness :
  let css := [[CallAppend [x61]]; [CallAppend [x62]; CallEntries]] in
  let p := lifetimes DemoWorld.path css (new_world []) in
  p.2 = [[[x61]]; [[x62]]] ∧
  ∃ rows' pendings, length pendings = 2 ∧ Forall (λ p : list bytes, length p ≤ 1) pendings ∧
    at_rest (view p.1) rows' (concat (zip_with app [[[x61]]; [[x62]]] pendings)).
Proof.
  set (css := [[CallAppend [x61]]; [CallAppend [x62]; CallEntries]]). cbv zeta.
  assert ((lifetimes DemoWorld.path css (new_world [])).2 = [[[x61]]; [[x62]]]) as Hacks
    by (vm_compute; reflexivity).
  split; [exact Hacks|].
  destruct (journal_survives_restarts DemoWorld.path (shalaws := Demo.demo_sha256_laws)
    (aeadlaws := Demo.demo_aead_laws) css (new_world [])
    (lifetimes DemoWorld.path css (new_world [])).1 [] []
    (lifetimes DemoWorld.path css (new_world [])).2 DemoWorld.demo_path_ok) as
    (rows' & pendings & Hlen & Hall & Hrest & _).
  - repeat constructor.
  - apply new_rest.
  - apply surjective_pairing.
  - rewrite Hacks in Hlen, Hrest. exists rows', pendings. split_and!; [exact Hlen|exact Hall|exact Hrest].
Defined.

(** ** Failing closed *)

(** An initialized journal as [open] recognizes it: a ready record, or none in a
    legacy database. *)
Definition initialized (jid : bytes) (init : option InitializationRecord) (d : Db) : Prop :=
  ans_journal_id d = Some (Z.of_nat JOURNAL_ID_BYTES, jid) ∧ length jid = JOURNAL_ID_BYTES ∧
  match init with
  | Some i => has_schema Recoverable d ∧ i.(state) = INITIALIZATION_READY ∧
      has_record INITIALIZATION_READY i.(nonce) i.(ciphertext) d
  | None => has_schema Legacy d
  end.

(** A secret is missing, or the key is not the one of the journal. *)
Definition bad_secrets `{Aead} (jid : bytes) (init : option InitializationRecord) (v : View) : Prop :=
  v.(stored_key) = None ∨ v.(stored_anchor) = None ∨
  ∃ k i, v.(stored_key) = Some k ∧ init = Some i ∧
    is_ok (verify_initialization_key k jid i) = false.

Section refused.
Context {W : Type} `{backend : Backend W} `{obs : Observed W} {path : PathBuf}
  `{laws : !BackendLaws W path} `{sha : Sha256} `{aead : Aead}.

(** Never succeeds and leaves the view alone. *)
Abbreviation refuses m w := (quiet False m w (λ _, False) (λ _, True)).

Lemma open_existing_refuses jid init w :
  bad_secrets jid init (view w) → refuses (open_existing path jid init) w.
Proof using laws.
  intros Hbad. unfold open_existing.
  eapply quiet_bind; [apply load_key_quiet|]. intros ? w1 -> Hv1.
  eapply quiet_bind; [apply load_anchor_quiet'|]. intros ? w2 -> Hv2. rewrite Hv1.
  apply quiet_bind with (P := λ k, (view w).(stored_key) = Some k).
  { by apply quiet_lift; [intros k Hk%ok_or_Ok_1|]. }
  intros k w3 Hk Hv3.
  apply quiet_bind with (P := λ _, ∀ i, init = Some i → verify_initialization_key k jid i = Ok tt).
  { destruct init as [i|]; [|by apply quiet_ret]. apply quiet_lift; [|done]. by intros [] Hi ? [= <-]. }
  intros _ w4 Hi _. apply quiet_bind with (P := λ _, True); [by apply quiet_lift|]. intros c w5 _ _.
  apply quiet_check; [done|]. intros Ha%bool_decide_eq_false_1. exfalso.
  destruct Hbad as [Hb|[Hb|(k' & i & Hk' & Hinit & Hf)]]; [congruence|done|].
  rewrite Hk in Hk'. injection Hk' as <-. by rewrite (Hi i Hinit) in Hf.
Qed.

Lemma open_initialized_refuses jid init w :
  (view w).(working) = None → initialized jid init (view w).(durable) →
  bad_secrets jid init (view w) → refuses (open_initialized path) w.
Proof using laws.
  intros Hidle (Hj & Hlen & Hinit) Hbad. unfold open_initialized.
  assert (visible (view w) = durable (view w)) as Hvis by (unfold visible; by rewrite Hidle).
  rewrite <-Hvis in *. destruct init as [i|].
  - destruct Hinit as (Hs & Hst & Hr).
    eapply quiet_bind; [by eapply validate_schema_quiet|]. intros ? w1 -> Hv1.
    eapply quiet_bind; [eapply load_journal_id_answer; [by rewrite Hv1|done]|]. intros ? w2 -> Hv2.
    rewrite eq_refl_true.
    eapply quiet_bind; [eapply load_record_quiet; by rewrite Hv2, Hv1|]. intros ? w3 -> Hv3. cbn [state].
    rewrite bool_decide_eq_false_2 by done. apply quiet_pass; [done|].
    destruct i as [st n c]. cbn in Hst. subst st. apply open_existing_refuses.
    by rewrite Hv3, Hv2, Hv1.
  - eapply quiet_bind; [by eapply validate_schema_quiet|]. intros ? w1 -> Hv1.
    eapply quiet_bind; [eapply load_journal_id_answer; [by rewrite Hv1|done]|]. intros ? w2 -> Hv2.
    rewrite bool_decide_eq_false_2 by done. apply open_existing_refuses. by rewrite Hv2, Hv1.
Qed.

Lemma open_database_refuses jid init w :
  (view w).(working) = None → initialized jid init (view w).(durable) →
  bad_secrets jid init (view w) → refuses (open_database path Existing) w.
Proof using laws.
  intros Hidle Hinit Hbad. unfold open_database. rewrite ne_refl_false.
  assert (visible (view w) = durable (view w)) as Hvis by (unfold visible; by rewrite Hidle).
  assert (∃ u, ans_user_version (view w).(durable) = Some u ∧ u ≠ 0%Z) as (u & Hu & Hu0).
  { destruct Hinit as (_ & _ & Hi). destruct init as [i|].
    - destruct Hi as ((_ & Hu & _) & _). by eexists.
    - destruct Hi as (_ & Hu & _). by eexists. }
  eapply quiet_bind; [eapply pristine_quiet; [done|by rewrite Hvis]|]. intros ? w1 -> Hv1.
  rewrite (bool_decide_eq_false_2 (u = 0%Z)), andb_false_r by done.
  rewrite <-Hv1 in *. by eapply open_initialized_refuses.
Qed.

Lemma no_secrets_refuses w :
  (view w).(stored_key) ≠ None ∨ (view w).(stored_anchor) ≠ None → refuses require_no_secrets w.
Proof using laws.
  intros Hbad. unfold require_no_secrets.
  eapply quiet_bind; [apply load_key_quiet|]. intros ? w1 -> Hv1.
  eapply quiet_bind; [apply load_anchor_quiet'|]. intros ? w2 -> Hv2. rewrite Hv1.
  apply quiet_fail_if; [done|]. intros Hc%orb_false_iff. rewrite !bool_decide_eq_false in Hc. tauto.
Qed.

End refused.

(** Opening fails closed: if a key or an anchor exists without a database, or
    if an initialized journal - ready or legacy - misses its key or its anchor,
    or if the stored key does not open the key check of its record, then [open]
    returns an error, and the database, the file and the secrets are as before.
    This holds for any database content of that format, with any faults. *)
Theorem open_fails_closed {W} `{backend : Backend W} `{obs : Observed W} path
    `{laws : !BackendLaws W path} `{sha : Sha256} `{aead : Aead} (w w' : W) r :
  path_ok (path := path) → (view w).(working) = None → open path w = (w', r) →
  ((view w).(file) ≠ Existing ∧
     ((view w).(stored_key) ≠ None ∨ (view w).(stored_anchor) ≠ None) ∨
   (view w).(file) = Existing ∧
     ∃ jid init, initialized jid init (view w).(durable) ∧ bad_secrets jid init (view w)) →
  is_ok r = false ∧ view w' = view w.
Proof.
  intros Hp Hidle Hrun Hbad.
  assert (wp (open path) (λ _ _, False) (λ _ w', view w' = view w) w) as Hwp.
  2: { apply (wp_run _ _ _ _ _ _ Hwp) in Hrun. by destruct r. }
  unfold open. apply wp_bind.
  eapply (quiet_run False); [by apply inspect_quiet|done| |done]. intros ? w1 Hv1 _ ->.
  destruct Hbad as [[Hne Hs]|[Hex (jid & init & Hinit & Hs)]].
  - rewrite bool_decide_eq_true_2 by done. apply wp_bind, wp_bind. rewrite <-Hv1 in Hs.
    eapply wp_mono; [by apply (no_secrets_refuses w1 Hs)|..]; cbn; [tauto|]. intros. naive_solver congruence.
  - rewrite Hex, bool_decide_eq_false_2 by auto. apply wp_bind, wp_ret, wp_bind, wp_map_err.
    eapply wp_mono; [apply connect_law|..]; cbn; [|unfold unchanged; naive_solver congruence].
    intros [] w2 [[Hv2 _] _]. rewrite Hv1 in Hv2. apply wp_on_error.
    assert (∀ w3, view w3 = view w → view (disconnect w3) = view w) as Hdis.
    { intros w3 Hv3. destruct (disconnect_law (path := path) w3) as [-> _]. rewrite Hv3.
      destruct (view w). simpl in *. by subst. }
    assert (∀ w3, view w3 = view w2 ∨ view w3 = set_file Existing (view w2) → view w3 = view w) as Hconf.
    { rewrite Hv2. intros w3 [-> | ->]; [done|]. destruct (view w). simpl in *. by subst. }
    apply wp_bind, wp_map_err. eapply wp_mono; [apply configure_law|..].
    2: { intros e w3 [Hv3 _]. by apply Hdis, Hconf. }
    intros [] w3 [Hv3%Hconf _]. apply wp_bind, (harden_run False); [done|by rewrite Hv3, Hex|done| |].
    2: { intros e w4 Hv4 _. apply Hdis. congruence. }
    intros w4 Hv4 _. rewrite Hv3 in Hv4. rewrite <-Hv4 in Hidle, Hinit, Hs.
    eapply wp_mono; [by apply (open_database_refuses jid init w4 Hidle Hinit Hs)|..]; cbn; [tauto|].
    intros e w5 [Hv5 _]. apply Hdis. congruence.
Qed.

(** A ready journal whose anchor is gone. *)
Definition anchorless : DemoWorld.world :=
  DemoWorld.mkWorld (mkView Existing (demo_db [row1]) None (Some key) None) [] 7.

Lemma open_fails_closed_witness :
  (open DemoWorld.path anchorless).2 = Err MissingAnchor ∧
  view (open DemoWorld.path anchorless).1 = view anchorless.
Proof.
  split; [vm_compute; reflexivity|].
  apply (open_fails_closed (obs := DemoWorld.demo_observed) DemoWorld.path anchorless
    (open DemoWorld.path anchorless).1 (open DemoWorld.path anchorless).2 DemoWorld.demo_path_ok eq_refl
    (surjective_pairing _)).
  right. split; [reflexivity|].
  exists jid, (Some (mkInitialization 1 (replicate 24 x00) (INITIALIZATION_PLAINTEXT ++ Demo.demo_tag))).
  split; [|right; left; reflexivity]. split_and!; try reflexivity; [by split_and!|].
  split_and!; try reflexivity. by right.
Defined.
