(* ===== verification/Ordered.v ===== *)
(** * Order on text, sorted slices and binary search

    The documents of the fleet keep their lists strictly sorted, check it with
    [windows(2)] and look elements up with [binary_search_by]. The file gives
    these standard-library operations and shows that binary search is
    membership on a strictly sorted slice. *)

From Stdlib.Strings Require Import Byte.
From Stdlib Require String Ascii.
From S2P Require Import Prelude Bytes.

(** ** Order on strings *)

(** [str::cmp]: the lexicographic order of the bytes. *)
Definition str_cmp (a b : string) : comparison :=
  if bool_decide (a = b) then Eq else if bool_decide (String.le a b) then Lt else Gt.

Definition str_lt (a b : string) : bool :=
  match str_cmp a b with Lt => true | _ => false end.

Lemma str_cmp_Eq a b : str_cmp a b = Eq ↔ a = b.
Proof. unfold str_cmp. repeat case_bool_decide; naive_solver. Qed.

Lemma str_lt_spec a b : str_lt a b = true ↔ strict String.le a b.
Proof.
  unfold str_lt, str_cmp. rewrite strict_spec_alt. repeat case_bool_decide; naive_solver.
Qed.

Lemma str_lt_irrefl a : str_lt a a = false.
Proof. unfold str_lt, str_cmp. by rewrite bool_decide_true. Qed.

Lemma str_lt_trans a b c : str_lt a b = true → str_lt b c = true → str_lt a c = true.
Proof. rewrite !str_lt_spec. intros ??. by trans b. Qed.

Lemma str_cmp_Gt a b : str_cmp a b = Gt ↔ str_lt b a = true.
Proof.
  rewrite str_lt_spec, strict_spec_alt. unfold str_cmp. repeat case_bool_decide; split; try naive_solver.
  - intros [Hle Hne]. destruct Hne. by apply (anti_symm String.le).
  - intros _. split; [|naive_solver]. by destruct (total String.le a b).
Qed.

(** ** Strictly sorted slices *)

Section sorted.
Context {A : Type} (lt : A → A → bool).

(** [values.windows(2).all(|pair| pair[0] < pair[1])]. *)
Fixpoint strictly_sorted (l : list A) : bool :=
  match l with
  | a :: ((b :: _) as l') => lt a b && strictly_sorted l'
  | _ => true
  end.

Hypothesis lt_trans : ∀ a b c, lt a b = true → lt b c = true → lt a c = true.

Lemma strictly_sorted_cons a l :
  strictly_sorted (a :: l) = true ↔ Forall (λ b, lt a b = true) l ∧ strictly_sorted l = true.
Proof using lt_trans.
  revert a. induction l as [|b l IH]; intros a; [naive_solver|].
  change (strictly_sorted (a :: b :: l)) with (lt a b && strictly_sorted (b :: l)).
  rewrite andb_true_iff, Forall_cons. split; [|naive_solver].
  intros [Hab Hs]. split; [|done]. split; [done|]. apply IH in Hs as [Hb _].
  eapply Forall_impl; [exact Hb|]. simpl. eauto.
Qed.

Lemma strictly_sorted_lookup l i j a b :
  strictly_sorted l = true → i < j → l !! i = Some a → l !! j = Some b → lt a b = true.
Proof using lt_trans.
  revert i j. induction l as [|c l IH]; intros i j Hs Hij Hi Hj; [done|].
  apply strictly_sorted_cons in Hs as [Hc Hs]. destruct j as [|j]; [lia|].
  destruct i as [|i]; simplify_eq/=; [|eapply (IH i j); eauto with lia].
  rewrite Forall_lookup in Hc. eauto.
Qed.
End sorted.

(** ** Binary search *)

(** [slice.binary_search_by(f).is_ok()]: the loop of the standard library, which
    halves a window of [size] elements from [base]. *)
Section search.
Context {A : Type} (f : A → comparison) (l : list A).

Definition probe (i : nat) : comparison := match l !! i with Some a => f a | None => Gt end.

Fixpoint halve (fuel base size : nat) : nat :=
  match fuel with
  | O => base
  | S fuel =>
      if size <=? 1 then base
      else
        let half := size / 2 in
        let mid := base + half in
        halve fuel (match probe mid with Gt => base | _ => mid end) (size - half)
  end.

Definition binary_search_by : bool :=
  match length l with
  | O => false
  | size => match probe (halve size 0 size) with Eq => true | _ => false end
  end.

(** The slice is strictly sorted around what is sought. *)
Definition searchable : Prop :=
  ∀ i j a b, i < j → l !! i = Some a → l !! j = Some b → f b ≠ Gt → f a = Lt.

Lemma halve_finds fuel base size k a :
  searchable → l !! k = Some a → f a = Eq → base ≤ k < base + size → size ≤ fuel →
  halve fuel base size = k.
Proof.
  intros Hs Hk Ha. revert base size. induction fuel as [|fuel IH]; intros base size Hr Hf; [lia|].
  cbn [halve]. destruct (Nat.leb_spec size 1); [lia|].
  assert (1 ≤ size / 2 < size) as Hh by (split; [apply Nat.div_le_lower_bound; lia|apply Nat.div_lt; lia]).
  pose proof (Nat.Div0.mul_div_le size 2).
  unfold probe. destruct (l !! (base + size / 2)) as [m|] eqn:Hm.
  - destruct (f m) eqn:Hfm.
    + destruct (decide (k = base + size / 2)) as [->|Hne]; [apply IH; lia|].
      apply IH; [|lia]. destruct (Nat.lt_ge_cases k (base + size / 2)); [|lia].
      assert (f a = Lt) by (eapply (Hs k); [|done|exact Hm|by rewrite Hfm]; lia). congruence.
    + apply IH; [|lia]. destruct (Nat.lt_ge_cases k (base + size / 2)); [|lia].
      assert (f a = Lt) by (eapply (Hs k); [|done|exact Hm|by rewrite Hfm]; lia). congruence.
    + apply IH; [|lia]. destruct (Nat.le_gt_cases (base + size / 2) k) as [Hle|]; [|lia].
      destruct (decide (k = base + size / 2)) as [->|Hne]; [simplify_eq; congruence|].
      assert (f m = Lt) by (eapply (Hs (base + size / 2) k); [lia|done|exact Hk|by rewrite Ha]). congruence.
  - apply lookup_ge_None in Hm. apply lookup_lt_Some in Hk. apply IH; lia.
Qed.

Lemma binary_search_by_spec : searchable → binary_search_by = true ↔ ∃ a, a ∈ l ∧ f a = Eq.
Proof.
  intros Hs. unfold binary_search_by. split.
  - destruct (length l) eqn:Hl; [done|]. unfold probe.
    destruct (l !! _) as [a|] eqn:Ha; [|done]. destruct (f a) eqn:Hfa; try done. intros _.
    exists a. split; [|done]. by eapply list_elem_of_lookup_2.
  - intros (a & [k Hk]%list_elem_of_lookup & Ha). pose proof (lookup_lt_Some _ _ _ Hk).
    destruct (length l) as [|n] eqn:Hl; [lia|].
    rewrite (halve_finds (S n) 0 (S n) k a) by (done || lia). unfold probe. by rewrite Hk, Ha.
Qed.
End search.

(** [values.binary_search_by(|candidate| candidate.cmp(expected)).is_ok()] on strings. *)
Definition contains_sorted (values : list string) (expected : string) : bool :=
  binary_search_by (λ candidate, str_cmp candidate expected) values.

(** On a strictly sorted slice, binary search is membership. *)
Lemma contains_sorted_spec values expected :
  strictly_sorted str_lt values = true →
  contains_sorted values expected = bool_decide (expected ∈ values).
Proof.
  intros Hs. apply eq_bool_prop_intro. rewrite !Is_true_true, bool_decide_eq_true.
  unfold contains_sorted. rewrite binary_search_by_spec.
  - setoid_rewrite str_cmp_Eq. naive_solver.
  - intros i j a b Hij Ha Hb Hne.
    pose proof (strictly_sorted_lookup str_lt str_lt_trans _ _ _ _ _ Hs Hij Ha Hb) as Hab.
    assert (b = expected ∨ str_lt b expected = true) as Hbe.
    { unfold str_lt. destruct (str_cmp b expected) eqn:E; [left; by apply str_cmp_Eq|by right|done]. }
    assert (str_lt a expected = true) as Hae by (destruct Hbe as [<-|]; [done|by eapply str_lt_trans]).
    unfold str_lt in Hae. by destruct (str_cmp a expected).
Qed.

(** Checks of a list that stop at its first offender. *)
Lemma strictly_sorted_NoDup values : strictly_sorted str_lt values = true → NoDup values.
Proof.
  induction values as [|a l IH]; [constructor|].
  intros [Ha Hs]%(strictly_sorted_cons _ str_lt_trans). constructor; [|by apply IH].
  intros Hin. rewrite Forall_forall in Ha. specialize (Ha _ Hin). by rewrite str_lt_irrefl in Ha.
Qed.
