(* ===== verification/Text.v ===== *)
(** * Text: what the sources use of Rust's strings and byte slices

    UTF-8 validation, prefixes of byte slices, [split], [to_ascii_lowercase],
    [parse::<u32>], searching, and an ordered set of strings ([BTreeSet]) as the
    strictly increasing list of its elements, which is its iteration order. *)

From Stdlib.Strings Require Import Byte.
From Stdlib Require String Ascii.
From S2P Require Import Prelude Bytes Ordered.

(** ** UTF-8 *)

(** [std::str::from_utf8]: the well-formed sequences of the Unicode standard. *)
Definition continuation (b : byte) : bool := in_range 0x80 0xbf b.
Fixpoint utf8_valid (l : bytes) : bool :=
  match l with
  | [] => true
  | a :: rest =>
      if in_range 0 0x7f a then utf8_valid rest
      else match rest with
      | b :: rest1 =>
          if in_range 0xc2 0xdf a then continuation b && utf8_valid rest1
          else match rest1 with
          | c :: rest2 =>
              if ((a == xe0) && in_range 0xa0 0xbf b) || ((a == xed) && in_range 0x80 0x9f b)
                 || ((in_range 0xe1 0xec a || in_range 0xee 0xef a) && continuation b)
              then continuation c && utf8_valid rest2
              else match rest2 with
              | d :: rest3 =>
                  (((a == xf0) && in_range 0x90 0xbf b) || ((a == xf4) && in_range 0x80 0x8f b)
                   || (in_range 0xf1 0xf3 a && continuation b))
                  && continuation c && continuation d && utf8_valid rest3
              | [] => false
              end
          | [] => false
          end
      | [] => false
      end
  end.
Definition from_utf8 (l : bytes) : option string :=
  if utf8_valid l then Some (String.string_of_list_byte l) else None.

(** ** Byte slices *)

Fixpoint strip_prefix_bytes (p l : bytes) : option bytes :=
  match p, l with
  | [], _ => Some l
  | a :: p, b :: l => if a == b then strip_prefix_bytes p l else None
  | _ :: _, [] => None
  end.
Definition strip_suffix_bytes (s l : bytes) : option bytes :=
  reverse <$> strip_prefix_bytes (reverse s) (reverse l).

(** [iter().position(f)]. *)
Fixpoint position (f : byte → bool) (l : bytes) : option nat :=
  match l with
  | [] => None
  | b :: l => if f b then Some 0 else S <$> position f l
  end.

(** A loop that moves a cursor over the bytes that satisfy [f], as the part it
    passes and the part from the cursor on. *)
Fixpoint take_while (f : byte → bool) (l : bytes) : bytes :=
  match l with
  | b :: l => if f b then b :: take_while f l else []
  | [] => []
  end.
Fixpoint drop_while (f : byte → bool) (l : bytes) : bytes :=
  match l with
  | b :: l' => if f b then drop_while f l' else l
  | [] => []
  end.

(** ** Strings *)

(** [split(c)]: the parts between the separators, one more than there are. *)
Fixpoint split (c : byte) (s : string) : list string :=
  match s with
  | EmptyString => [""%string]
  | String a s =>
      if Ascii.byte_of_ascii a == c then ""%string :: split c s
      else match split c s with
      | part :: parts => String a part :: parts
      | [] => [String a ""]
      end
  end.

Definition starts_with (prefix s : string) : bool := bool_decide (is_Some (strip_prefix prefix s)).

(** [contains("..")]. *)
Fixpoint dot_dot (l : bytes) : bool :=
  match l with
  | a :: rest => ((a == x2e) && (head rest == Some x2e)) || dot_dot rest
  | [] => false
  end.

Definition lowercase_byte (b : byte) : byte := if is_ascii_uppercase b then byte_of_Z (byte_val b + 32) else b.
Definition to_ascii_lowercase (s : string) : string :=
  String.string_of_list_byte (lowercase_byte <$> as_bytes s).

(** [parse::<u32>]: an optional plus sign, then at least one digit, in range. *)
Definition digits_value (l : bytes) : Z :=
  foldl (λ n b, n * 10 + (byte_val b - 48))%Z 0%Z l.
Definition parse_u32 (l : bytes) : option Z :=
  let digits := match l with x2b :: rest => rest | _ => l end in
  if (digits != []) && forallb is_ascii_digit digits && (digits_value digits <=? U32_MAX)%Z
  then Some (digits_value digits) else None.

(** ** Ordered sets *)

(** [BTreeSet::insert]; [None] when the value was present. *)
Fixpoint set_insert (s : string) (set : list string) : option (list string) :=
  match set with
  | [] => Some [s]
  | t :: rest =>
      match str_cmp s t with
      | Lt => Some (s :: set)
      | Eq => None
      | Gt => cons t <$> set_insert s rest
      end
  end.

(** ** Lemmas *)

Lemma take_drop_while f l : take_while f l ++ drop_while f l = l.
Proof. induction l as [|b l IH]; simpl; [done|]. destruct (f b); simpl; congruence. Qed.

Lemma drop_while_head f l b r : drop_while f l = b :: r → f b = false.
Proof. induction l as [|a l IH]; simpl; [done|]. destruct (f a) eqn:E; [done|]. by intros [= <- <-]. Qed.

Lemma take_while_all f l : Forall (λ b, f b = true) (take_while f l).
Proof. induction l as [|b l IH]; simpl; [done|]. destruct (f b) eqn:E; by constructor. Qed.

Lemma strip_prefix_bytes_Some p l r : strip_prefix_bytes p l = Some r ↔ l = p ++ r.
Proof.
  revert l. induction p as [|a p IH]; intros [|b l]; simpl; try naive_solver.
  case_bool_decide; [subst; rewrite IH; naive_solver|naive_solver].
Qed.

Lemma strip_suffix_bytes_Some s l r : strip_suffix_bytes s l = Some r ↔ l = r ++ s.
Proof.
  unfold strip_suffix_bytes. rewrite fmap_Some. setoid_rewrite strip_prefix_bytes_Some. split.
  - intros (x & Hx & ->). apply (f_equal reverse) in Hx. by rewrite reverse_app, !reverse_involutive in Hx.
  - intros ->. exists (reverse r). by rewrite reverse_app, reverse_involutive.
Qed.

Lemma position_Some f l i :
  position f l = Some i ↔ ∃ a b c, l = a ++ b :: c ∧ length a = i ∧ f b = true ∧ Forall (λ b, f b = false) a.
Proof.
  revert i. induction l as [|x l IH]; intros i; simpl.
  { split; [done|]. intros (a & b & c & Hl & _). by destruct a. }
  destruct (f x) eqn:E.
  - split; [intros [= <-]; by exists [], x, l|]. intros (a & b & c & Hl & <- & Hb & Ha).
    destruct a as [|y a]; [done|]. injection Hl as -> ->. apply Forall_cons in Ha as [? _]. congruence.
  - rewrite fmap_Some. split.
    + intros (j & (a & b & c & -> & <- & Hb & Ha)%IH & ->). exists (x :: a), b, c. split_and!; try done. by constructor.
    + intros (a & b & c & Hl & <- & Hb & Ha). destruct a as [|y a]; injection Hl as -> ->; [congruence|].
      apply Forall_cons in Ha as [_ Ha]. exists (length a). split; [|done]. apply IH. eauto 10.
Qed.

Lemma position_None f l : position f l = None ↔ Forall (λ b, f b = false) l.
Proof.
  induction l as [|x l IH]; simpl; [by split|]. rewrite Forall_cons. destruct (f x) eqn:E; [naive_solver|].
  rewrite fmap_None, IH. naive_solver.
Qed.

(** An ASCII prefix does not change whether a text is UTF-8. *)
Lemma utf8_valid_ascii a l : Forall (λ b, in_range 0 0x7f b = true) a → utf8_valid (a ++ l) = utf8_valid l.
Proof. induction 1 as [|b a Hb Ha IH]; simpl; [done|]. by rewrite Hb. Qed.

(** An ASCII byte ends every sequence before it. *)
Lemma utf8_valid_app a b l :
  in_range 0 0x7f b = true → utf8_valid (a ++ b :: l) = utf8_valid a && utf8_valid l.
Proof.
  intros Hb. assert (∀ lo hi, (127 < lo)%Z → in_range lo hi b = false) as Hc.
  { unfold in_range in *. intros lo hi Hlo. apply andb_true_iff in Hb as [_ Hb]. apply Z.leb_le in Hb.
    apply andb_false_iff. left. apply Z.leb_gt. lia. }
  assert (continuation b = false) as Hcb by (apply Hc; lia).
  induction a as [a IH] using (induction_ltof1 _ length). unfold ltof in IH.
  destruct a as [|x1 a]; simpl; [by rewrite Hb|].
  destruct (in_range 0 127 x1); [apply IH; simpl; lia|].
  destruct a as [|x2 a]; cbn [app].
  { destruct (in_range 194 223 x1); [by rewrite Hcb|]. rewrite Hcb, !Hc, !andb_false_r by lia. simpl.
    destruct l as [|y l]; [done|]. rewrite ?andb_false_r. destruct l; done. }
  destruct (in_range 194 223 x1).
  { rewrite IH by (simpl; lia). by rewrite andb_assoc. }
  destruct a as [|x3 a]; cbn [app].
  { destruct (_ || _ || _); [by rewrite Hcb|]. destruct l; [done|]. by rewrite Hcb, andb_false_r. }
  destruct (_ || _ || _).
  { rewrite IH by (simpl; lia). by rewrite andb_assoc. }
  destruct a as [|x4 a]; cbn [app].
  { by rewrite Hcb, !andb_false_r. }
  rewrite IH by (simpl; lia). by rewrite !andb_assoc.
Qed.

Lemma set_insert_spec s set :
  strictly_sorted str_lt set = true →
  match set_insert s set with
  | Some set' => strictly_sorted str_lt set' = true ∧ (s ∉ set) ∧ (∀ x, x ∈ set' ↔ x = s ∨ x ∈ set)
  | None => s ∈ set
  end.
Proof.
  pose proof (strictly_sorted_cons str_lt str_lt_trans) as Hcons.
  induction set as [|t rest IH]; intros Hs; simpl.
  - split; [done|]. split; [apply not_elem_of_nil|]. intros x. by rewrite list_elem_of_singleton, elem_of_nil; naive_solver.
  - apply Hcons in Hs as [Ht Hs]. specialize (IH Hs). destruct (str_cmp s t) eqn:E.
    + apply str_cmp_Eq in E as ->. left.
    + assert (str_lt s t = true) as Hst by (unfold str_lt; by rewrite E).
      assert (Forall (λ b, str_lt s b = true) (t :: rest)) as Hall.
      { constructor; [done|]. eapply Forall_impl; [exact Ht|]. intros b Hb. by eapply str_lt_trans. }
      split; [apply Hcons; split; [done|]; by apply Hcons|].
      split; [|intros x; by rewrite elem_of_cons].
      intros Hin. rewrite Forall_forall in Hall. apply Hall in Hin. by rewrite str_lt_irrefl in Hin.
    + apply str_cmp_Gt in E. destruct (set_insert s rest) as [rest'|]; simpl; [|by right].
      destruct IH as (Hr & Hn & Hi). split_and!.
      * apply Hcons. split; [|done]. apply Forall_forall. intros x [->|Hx]%Hi; [done|]. rewrite Forall_forall in Ht. auto.
      * rewrite not_elem_of_cons. split; [|done]. intros ->. by rewrite str_lt_irrefl in E.
      * intros x. rewrite !elem_of_cons, Hi. naive_solver.
Qed.

Lemma strictly_sorted_ext a b :
  strictly_sorted str_lt a = true → strictly_sorted str_lt b = true → (∀ x, x ∈ a ↔ x ∈ b) → a = b.
Proof.
  pose proof (strictly_sorted_cons str_lt str_lt_trans) as Hcons.
  revert b. induction a as [|x a IH]; intros [|y b] Ha Hb Hab; [done|exfalso..|].
  - apply (elem_of_nil y), Hab. left.
  - apply (elem_of_nil x), Hab. left.
  - apply Hcons in Ha as [Hx Ha], Hb as [Hy Hb]. rewrite Forall_forall in Hx, Hy.
    assert (x = y) as <-.
    { destruct (proj1 (elem_of_cons b x y) (proj1 (Hab x) ltac:(left))) as [|Hin]; [done|].
      destruct (proj1 (elem_of_cons a y x) (proj2 (Hab y) ltac:(left))) as [|Hin']; [done|].
      exfalso. specialize (Hx _ Hin'). specialize (Hy _ Hin).
      pose proof (str_lt_trans _ _ _ Hx Hy) as H. by rewrite str_lt_irrefl in H. }
    f_equal. apply IH; [done..|]. intros z. specialize (Hab z). rewrite !elem_of_cons in Hab. split; intros Hz.
    + destruct (proj1 Hab (or_intror Hz)) as [->|]; [|done]. specialize (Hx _ Hz). by rewrite str_lt_irrefl in Hx.
    + destruct (proj2 Hab (or_intror Hz)) as [->|]; [|done]. specialize (Hy _ Hz). by rewrite str_lt_irrefl in Hy.
Qed.

Lemma set_insert_Forall (P : string → Prop) s set set' :
  set_insert s set = Some set' → P s → Forall P set → Forall P set' ∧ length set' = S (length set).
Proof.
  revert set'. induction set as [|t rest IH]; intros set' H Hs Hset; simpl in H.
  - injection H as <-. split; [by constructor|done].
  - apply Forall_cons in Hset as [Ht Hr]. destruct (str_cmp s t); [done|injection H as <-; by split; [repeat constructor|]|].
    apply fmap_Some in H as (r & H & ->). destruct (IH _ H Hs Hr) as [Hf Hl]. split; [by constructor|simpl; lia].
Qed.

Lemma to_ascii_lowercase_len s : len (to_ascii_lowercase s) = len s.
Proof.
  unfold to_ascii_lowercase, len. f_equal.
  rewrite <-!length_as_bytes. unfold as_bytes at 1. by rewrite String.list_byte_of_string_of_list_byte, length_fmap.
Qed.

Lemma from_utf8_len l s : from_utf8 l = Some s → len s = blen l.
Proof.
  unfold from_utf8. destruct (utf8_valid l); [|done]. intros [= <-]. unfold len, blen. f_equal.
  rewrite <-length_as_bytes. unfold as_bytes. by rewrite String.list_byte_of_string_of_list_byte.
Qed.
