(* ===== verification/Signatures.v ===== *)
(** * Interfaces of the signature and encoding packages

    [ed25519_dalek] and [base64] are third-party packages: their operations are
    a parameter, their documented behaviour a class of laws. A private key is
    its 32-byte seed, a public key and a signature their bytes. No law says that
    a signature cannot be forged: theorems that need it name it as a
    hypothesis on the messages that were signed. *)

From Stdlib.Strings Require Import Byte.
From Stdlib Require String Ascii.
From S2P Require Import Prelude Bytes Crypto.

(** ** Ed25519 *)

Class Ed25519 : Type := {
  (** [SigningKey::verifying_key().to_bytes()] *)
  ed_public : bytes → bytes;
  (** [SigningKey::sign(message).to_bytes()] *)
  ed_sign : bytes → bytes → bytes;
  (** [VerifyingKey::from_bytes(key).is_ok()] *)
  ed_key_valid : bytes → bool;
  (** [VerifyingKey::verify_strict(message, signature).is_ok()] *)
  ed_verify : bytes → bytes → bytes → bool;
}.

Class Ed25519Laws `{Ed25519} : Prop := {
  ed_public_length k : length (ed_public k) = 32;
  ed_sign_length k m : length (ed_sign k m) = 64;
  ed_public_valid k : ed_key_valid (ed_public k) = true;
  ed_sign_verify k m : ed_verify (ed_public k) m (ed_sign k m) = true;
}.

(** ** Base64 with the URL alphabet and no padding *)

Class Base64Url : Type := {
  b64_encode : bytes → string;
  b64_decode : string → option bytes;
}.

(** The length of an encoding without padding. *)
Definition b64_length (n : Z) : Z :=
  (n / 3 * 4 + (if n mod 3 =? 0 then 0 else if n mod 3 =? 1 then 2 else 3))%Z.

Class Base64UrlLaws `{Base64Url} : Prop := {
  b64_decode_encode m : b64_decode (b64_encode m) = Some m;
  b64_encode_length m : len (b64_encode m) = b64_length (blen m);
  b64_encode_ascii m : forallb (λ b, in_range 33 126 b && (b != x3d)) (as_bytes (b64_encode m)) = true;
}.

#[export] Instance b64_encode_inj `{Base64UrlLaws} : Inj (=) (=) b64_encode.
Proof. intros x y Hxy%(f_equal b64_decode). rewrite !b64_decode_encode in Hxy. by simplify_eq. Qed.

(** ** Instances for evaluation

    The encoding is base64url itself; the signature scheme is a computable
    function with the stated laws and no security. *)
Module SignatureDemo.

Definition checksum (m : bytes) : Z := fold_left (λ acc b, (acc * 257 + byte_val b) mod 2 ^ 61)%Z m 7%Z.

Definition light_sha256 : Sha256 := λ m, be_bytes 32 (checksum m).
Lemma light_sha256_laws : @Sha256Laws light_sha256.
Proof. intros m. apply length_be_bytes. Qed.

Definition demo_ed25519 : Ed25519 := {|
  ed_public k := be_bytes 32 (be_value k + 1);
  ed_sign k m := be_bytes 64 (checksum (be_bytes 32 (be_value k + 1) ++ m));
  ed_key_valid k := true;
  ed_verify p m s := s == be_bytes 64 (checksum (p ++ m));
|}.

Lemma demo_ed25519_laws : @Ed25519Laws demo_ed25519.
Proof.
  split; intros; cbn [ed_public ed_sign ed_key_valid ed_verify demo_ed25519].
  - apply length_be_bytes.
  - apply length_be_bytes.
  - done.
  - by apply bool_decide_eq_true.
Qed.

Definition alphabet (z : Z) : Ascii.ascii :=
  Ascii.ascii_of_byte (byte_of_Z
    (if z <? 26 then z + 65 else if z <? 52 then z + 71 else if z <? 62 then z - 4
     else if z =? 62 then 45 else 95)%Z).

Definition sextet (a : Ascii.ascii) : option Z :=
  let z := byte_val (Ascii.byte_of_ascii a) in
  (if (65 <=? z) && (z <=? 90) then Some (z - 65)
   else if (97 <=? z) && (z <=? 122) then Some (z - 71)
   else if (48 <=? z) && (z <=? 57) then Some (z + 4)
   else if z =? 45 then Some 62
   else if z =? 95 then Some 63 else None)%Z.

Fixpoint encode (l : bytes) : string :=
  match l with
  | a :: b :: c :: l =>
      let x := byte_val a in let y := byte_val b in let z := byte_val c in
      String (alphabet (x / 4)) (String (alphabet (x mod 4 * 16 + y / 16))
        (String (alphabet (y mod 16 * 4 + z / 64)) (String (alphabet (z mod 64)) (encode l))))
  | [a; b] =>
      let x := byte_val a in let y := byte_val b in
      String (alphabet (x / 4)) (String (alphabet (x mod 4 * 16 + y / 16))
        (String (alphabet (y mod 16 * 4)) EmptyString))
  | [a] => let x := byte_val a in String (alphabet (x / 4)) (String (alphabet (x mod 4 * 16)) EmptyString)
  | [] => EmptyString
  end%Z.

Fixpoint decode (s : string) : option bytes :=
  match s with
  | String a (String b (String c (String d s))) =>
      x ← sextet a; y ← sextet b; z ← sextet c; w ← sextet d; l ← decode s;
      Some (byte_of_Z (x * 4 + y / 16) :: byte_of_Z (y mod 16 * 16 + z / 4)
            :: byte_of_Z (z mod 4 * 64 + w) :: l)
  | String a (String b (String c EmptyString)) =>
      x ← sextet a; y ← sextet b; z ← sextet c;
      if z mod 4 =? 0 then Some [byte_of_Z (x * 4 + y / 16); byte_of_Z (y mod 16 * 16 + z / 4)] else None
  | String a (String b EmptyString) =>
      x ← sextet a; y ← sextet b;
      if y mod 16 =? 0 then Some [byte_of_Z (x * 4 + y / 16)] else None
  | String a EmptyString => None
  | EmptyString => Some []
  end%Z.

Definition demo_base64 : Base64Url := {| b64_encode := encode; b64_decode := decode |}.

Lemma sextet_alphabet z : (0 ≤ z < 64)%Z → sextet (alphabet z) = Some z.
Proof.
  intros Hz. unfold sextet, alphabet. rewrite Ascii.byte_of_ascii_of_byte, byte_val_of_Z.
  destruct (Z.ltb_spec z 26), (Z.ltb_spec z 52), (Z.ltb_spec z 62), (Z.eqb_spec z 62);
    try lia; rewrite Z.mod_small by lia; repeat case_match; try lia; f_equal; lia.
Qed.

Lemma alphabet_class z :
  (0 ≤ z < 64)%Z →
  in_range 33 126 (Ascii.byte_of_ascii (alphabet z)) && (Ascii.byte_of_ascii (alphabet z) != x3d) = true.
Proof.
  intros Hz. unfold alphabet. rewrite Ascii.byte_of_ascii_of_byte.
  assert (∀ w, (65 ≤ w ≤ 90 ∨ 97 ≤ w ≤ 122 ∨ 48 ≤ w ≤ 57 ∨ w = 45 ∨ w = 95)%Z →
    in_range 33 126 (byte_of_Z w) && (byte_of_Z w != x3d) = true) as Hw.
  { intros w Hw. unfold in_range. rewrite byte_val_of_Z, Z.mod_small by lia.
    apply andb_true_iff. split; [lia|]. apply bool_decide_eq_true. intros He%(f_equal byte_val).
    rewrite byte_val_of_Z, Z.mod_small in He by lia. change (byte_val x3d) with 61%Z in He. lia. }
  apply Hw. repeat case_match; lia.
Qed.

Ltac byte_ranges :=
  repeat match goal with |- context [byte_val ?b] =>
    lazymatch goal with H : (0 ≤ byte_val b < 256)%Z |- _ => fail
    | _ => pose proof (byte_val_range b) end end.

Lemma list_ind3 {A} (P : list A → Prop) :
  P [] → (∀ a, P [a]) → (∀ a b, P [a; b]) → (∀ a b c l, P l → P (a :: b :: c :: l)) → ∀ l, P l.
Proof.
  intros H0 H1 H2 H3. fix IH 1. intros [|a [|b [|c l]]]; [done|apply H1|apply H2|apply H3, IH].
Qed.

Lemma byte_of_Z_val z b : z = byte_val b → byte_of_Z z = b.
Proof. intros ->. apply byte_of_val. Qed.

Ltac sextets := byte_ranges; Z.to_euclidean_division_equations; lia.

Lemma decode_encode l : decode (encode l) = Some l.
Proof.
  induction l as [|a|a b|a b c l IH] using list_ind3; cbn [encode decode]; [done|..];
    repeat match goal with |- context [sextet (alphabet ?z)] =>
      rewrite (sextet_alphabet z) by sextets end;
    cbn [mbind option_bind].
  - rewrite (proj2 (Z.eqb_eq _ _)) by sextets. f_equal. f_equal. apply byte_of_Z_val. sextets.
  - rewrite (proj2 (Z.eqb_eq _ _)) by sextets. f_equal. f_equal; [|f_equal]; apply byte_of_Z_val; sextets.
  - rewrite IH. cbn [mbind option_bind]. f_equal.
    f_equal; [|f_equal; [|f_equal]]; apply byte_of_Z_val; sextets.
Qed.

Lemma len_String a s : len (String a s) = (len s + 1)%Z.
Proof. unfold len. simpl. lia. Qed.

Lemma encode_length l : len (encode l) = b64_length (blen l).
Proof.
  induction l as [|a|a b|a b c l IH] using list_ind3; [done..|].
  cbn [encode]. rewrite !len_String, IH. unfold b64_length, blen. cbn [length]. rewrite !Nat2Z.inj_succ.
  replace (Z.succ (Z.succ (Z.succ (Z.of_nat (length l))))) with (Z.of_nat (length l) + 1 * 3)%Z by lia.
  rewrite Z.div_add, Z.mod_add by done. lia.
Qed.

Lemma encode_ascii l : forallb (λ b, in_range 33 126 b && (b != x3d)) (as_bytes (encode l)) = true.
Proof.
  induction l as [|a|a b|a b c l IH] using list_ind3; [done|..]; cbn [encode]; rewrite !as_bytes_cons;
    cbn [forallb]; rewrite ?IH; repeat (rewrite alphabet_class by sextets); done.
Qed.

Lemma demo_base64_laws : @Base64UrlLaws demo_base64.
Proof. split; [exact decode_encode|exact encode_length|exact encode_ascii]. Qed.

End SignatureDemo.
