(* ===== verification/CanonicalJson.v ===== *)
(** * Canonical JSON

    fleet-audit, fleet-policy and update-client share one canonical form of
    JSON, with the same code in each crate: objects with sorted keys, no white
    space, integers only. The file models it once, with the error values of the
    crate as a parameter ([JsonErrors]); each crate instantiates it.

    [serde_json::Value] is an inductive type; an object is the list of its
    entries in the order of the map, which is a [BTreeMap]. The derived
    [Serialize] implementations are the functions to [Value] of the crates
    ([ToValue]). The text of a string literal and the readers are [serde_json]'s
    and a parameter.

    The main theorem says that the canonical text determines the value. *)

From Stdlib.Strings Require Import Byte.
From Stdlib Require String Ascii DecimalFacts DecimalString DecimalN.
From stdpp Require Import sorting.
From S2P Require Import Prelude Bytes Ordered.

Definition MAX_SAFE_JSON_INTEGER : N := 9007199254740991.

(** ** Values *)

(** [serde_json::Number]: a [u64], a negative [i64] or a float, which is what
    [Display] prints for it. *)
Inductive number := PosInt (n : N) | NegInt (z : Z) | Float (text : bytes).

#[local] Unset Elimination Schemes.
Inductive value :=
| Null
| Bool (b : bool)
| Num (n : number)
| Str (s : string)
| Arr (items : list value)
| Obj (fields : list (string * value)).

#[local] Set Elimination Schemes.

(** Induction with hypotheses for the items of arrays and objects. *)
Section induction.
Context (P : value → Prop).
Context (HNull : P Null) (HBool : ∀ b, P (Bool b)) (HNum : ∀ n, P (Num n)) (HStr : ∀ s, P (Str s)).
Context (HArr : ∀ l, Forall P l → P (Arr l)) (HObj : ∀ l, Forall (λ kv, P kv.2) l → P (Obj l)).

Fixpoint value_ind' (v : value) : P v :=
  match v with
  | Null => HNull
  | Bool b => HBool b
  | Num n => HNum n
  | Str s => HStr s
  | Arr l => HArr l ((fix go l : Forall P l :=
      match l with [] => Forall_nil_2 _ | x :: l => Forall_cons_2 _ _ _ (value_ind' x) (go l) end) l)
  | Obj l => HObj l ((fix go l : Forall (λ kv, P kv.2) l :=
      match l with [] => Forall_nil_2 _ | kv :: l => Forall_cons_2 _ kv _ (value_ind' kv.2) (go l) end) l)
  end.
End induction.

(** [Number::as_u64] and [Number::as_i64]. *)
Definition as_u64 (n : number) : option N := match n with PosInt n => Some n | _ => None end.
Definition as_i64 (n : number) : option Z :=
  match n with
  | PosInt n => if (Z.of_N n <=? I64_MAX)%Z then Some (Z.of_N n) else None
  | NegInt z => Some z
  | Float _ => None
  end.

(** [Display] of integers. *)
Definition decimal (n : N) : bytes :=
  as_bytes (DecimalString.NilEmpty.string_of_uint (N.to_uint n)).
Definition number_text (n : number) : bytes :=
  match n with
  | PosInt n => decimal n
  | NegInt z => x2d :: decimal (Z.to_N (- z))
  | Float text => text
  end.

(** ** What the crates take from serde_json *)

(** [serde_json::to_string] on a string. *)
Class JsonString : Type := json_string : string → option bytes.

(** Bytes that need no escape. *)
Definition plain (b : byte) : bool := in_range 32 126 b && (b != x22) && (b != x5c).

(** A string literal is always written, starts with a quotation mark and is
    delimited by itself; printable text is written as it is and any byte as at
    most six. *)
Class JsonStringLaws `{JsonString} : Prop := {
  json_string_total s : ∃ b, json_string s = Some (x22 :: b);
  json_string_delimited s s' a a' t t' :
    json_string s = Some a → json_string s' = Some a' → a ++ t = a' ++ t' → s = s' ∧ t = t';
  json_string_plain s : all_bytes plain s = true → json_string s = Some (x22 :: as_bytes s ++ [x22]);
  json_string_length s b : json_string s = Some b → (blen b ≤ 6 * len s + 2)%Z;
}.

(** The derived [Serialize], as [serde_json::to_value] sees it. *)
Class ToValue (T : Type) : Type := to_value : T → value.

(** [serde_json::from_slice] as a [Value] and as a [T]. *)
Class FromSlice (T : Type) : Type := {
  value_from_slice : bytes → option value;
  from_slice : bytes → option T;
}.

(** The errors of a crate. *)
Class JsonErrors (E : Type) : Type := {
  invalid_json : E;
  unsupported_json_value : E;
  unsafe_integer : E;
  non_canonical_json : E;
  document_too_large : E;
}.

(** Insertion into a [BTreeMap], and the object a struct serializes to. *)
Fixpoint map_insert (k : string) (v : value) (l : list (string * value)) : list (string * value) :=
  match l with
  | [] => [(k, v)]
  | (k', v') :: l' =>
      match str_cmp k k' with
      | Lt => (k, v) :: l
      | Eq => (k, v) :: l'
      | Gt => (k', v') :: map_insert k v l'
      end
  end.
Definition json_object (fields : list (string * value)) : value :=
  Obj (fold_left (λ m kv, map_insert kv.1 kv.2 m) fields []).

Definition json_text (o : option string) : value := match o with Some s => Str s | None => Null end.
Definition json_u64 (n : N) : value := Num (PosInt n).

(** ** The canonical writer *)

Section writer.
Context {E : Type} `{JsonErrors E} `{JsonString}.

Fixpoint validate_json_value (v : value) : result E () :=
  match v with
  | Null | Bool _ | Str _ => Ok tt
  | Num number =>
      match as_u64 number with
      | Some value =>
          if (value <=? MAX_SAFE_JSON_INTEGER)%N then Ok tt else Err unsafe_integer
      | None =>
          match as_i64 number with
          | Some value =>
              if (Z.abs_N value <=? MAX_SAFE_JSON_INTEGER)%N then Ok tt else Err unsafe_integer
          | None => Err unsupported_json_value
          end
      end
  | Arr values =>
      (fix all (l : list value) : result E () :=
        match l with [] => Ok tt | x :: l => _ ← validate_json_value x; all l end) values
  | Obj values =>
      (fix all (l : list (string * value)) : result E () :=
        match l with [] => Ok tt | kv :: l => _ ← validate_json_value kv.2; all l end) values
  end.

(** [keys.sort_unstable()]. *)
Definition sort_keys (keys : list string) : list string := merge_sort String.le keys.

(** [values.get(key)] on entries. *)
Fixpoint map_get {A} (key : string) (l : list (string * A)) : option A :=
  match l with
  | [] => None
  | (k, a) :: l => if k == key then Some a else map_get key l
  end.

(** A separator goes in front of every element but the first. *)
Definition separator (first : bool) : bytes := if first then [] else [x2c].

(** What writes one value to the end of the output. *)
Definition writer : Type := bytes → result E bytes.

Fixpoint write_items (first : bool) (items : list writer) (output : bytes) : result E bytes :=
  match items with
  | [] => Ok output
  | w :: items =>
      output ← w (output ++ separator first);
      write_items false items output
  end.

Fixpoint write_entries (first : bool) (keys : list string) (entries : list (string * writer))
    (output : bytes) : result E bytes :=
  match keys with
  | [] => Ok output
  | key :: keys =>
      encoded ← ok_or (json_string key) invalid_json;
      w ← ok_or (map_get key entries) invalid_json;
      output ← w (output ++ separator first ++ encoded ++ [x3a]);
      write_entries false keys entries output
  end.

Fixpoint write_canonical_value (v : value) (output : bytes) : result E bytes :=
  match v with
  | Null => Ok (output ++ as_bytes "null")
  | Bool b => Ok (output ++ as_bytes (if b then "true" else "false"))
  | Num n => Ok (output ++ number_text n)
  | Str s => encoded ← ok_or (json_string s) invalid_json; Ok (output ++ encoded)
  | Arr values =>
      output ← write_items true (map write_canonical_value values) (output ++ [x5b]);
      Ok (output ++ [x5d])
  | Obj values =>
      let keys := sort_keys (map fst values) in
      output ← write_entries true keys (map (λ kv, (kv.1, write_canonical_value kv.2)) values)
                 (output ++ [x7b]);
      Ok (output ++ [x7d])
  end.

Definition canonical_json {T} `{ToValue T} (t : T) : result E bytes :=
  let v := to_value t in
  _ ← validate_json_value v;
  write_canonical_value v [].

Definition validate_size (actual maximum : Z) : result E () :=
  reject ((actual =? 0) || (maximum <? actual))%Z with document_too_large; Ok tt.

Definition import_canonical {T} `{ToValue T} `{FromSlice T} (input : bytes) (maximum : Z) : result E T :=
  _ ← validate_size (blen input) maximum;
  v ← ok_or (value_from_slice input) invalid_json;
  _ ← validate_json_value v;
  parsed ← ok_or (from_slice input) invalid_json;
  canonical ← canonical_json parsed;
  reject (canonical != input) with non_canonical_json;
  Ok parsed.
End writer.

(** ** The text of a value *)

(** What [serde_json] keeps of every value: integers within their
    representation, objects with strictly increasing keys. *)
Definition number_ok (n : number) : Prop :=
  match n with PosInt n => True | NegInt z => (z < 0)%Z | Float _ => True end.

Fixpoint value_ok (v : value) : Prop :=
  match v with
  | Num n => number_ok n
  | Arr l => foldr (λ x P, value_ok x ∧ P) True l
  | Obj l => strictly_sorted str_lt (map fst l) = true ∧ foldr (λ kv P, value_ok kv.2 ∧ P) True l
  | _ => True
  end.

Lemma foldr_and_Forall {A} (P : A → Prop) l : foldr (λ x Q, P x ∧ Q) True l ↔ Forall P l.
Proof. induction l as [|x l IH]; simpl; [|rewrite IH, Forall_cons]; split; auto. Qed.

Lemma value_ok_Arr l : value_ok (Arr l) ↔ Forall value_ok l.
Proof. apply (foldr_and_Forall value_ok). Qed.
Lemma value_ok_Obj l :
  value_ok (Obj l) ↔ strictly_sorted str_lt (map fst l) = true ∧ Forall (λ kv, value_ok kv.2) l.
Proof. simpl. by rewrite (foldr_and_Forall (λ kv, value_ok kv.2)). Qed.

(** *** Keys in order *)

Lemma sort_keys_sorted keys : strictly_sorted str_lt keys = true → sort_keys keys = keys.
Proof.
  intros Hs. unfold sort_keys.
  apply (StronglySorted_unique String.le); [apply (StronglySorted_merge_sort String.le)| |apply merge_sort_Permutation].
  induction keys as [|k keys IH]; [constructor|].
  apply (strictly_sorted_cons _ str_lt_trans) in Hs as [Hk Hs]. constructor; [by apply IH|].
  eapply Forall_impl; [exact Hk|]. intros k' Hlt. simpl in Hlt. apply str_lt_spec in Hlt. by destruct Hlt.
Qed.

Lemma map_get_app {A} (pre l : list (string * A)) k a :
  k ∉ map fst pre → map_get k (pre ++ (k, a) :: l) = Some a.
Proof.
  induction pre as [|[k' a'] pre IH]; simpl; intros Hk.
  - by rewrite bool_decide_true.
  - rewrite bool_decide_false by set_solver. apply IH. set_solver.
Qed.

Lemma sort_keys_Permutation keys keys' : keys ≡ₚ keys' → sort_keys keys = sort_keys keys'.
Proof.
  intros Hp. unfold sort_keys.
  apply (StronglySorted_unique String.le); [apply (StronglySorted_merge_sort String.le)..|].
  by rewrite !merge_sort_Permutation.
Qed.

Lemma map_get_Permutation {A} (l l' : list (string * A)) k :
  l ≡ₚ l' → NoDup (map fst l) → map_get k l = map_get k l'.
Proof.
  induction 1 as [|[k' a] l l' Hp IH|[k1 a1] [k2 a2] l|l1 l2 l3 H12 IH12 H23 IH23]; simpl; intros Hn.
  - done.
  - apply NoDup_cons in Hn as [_ Hn]. by rewrite IH.
  - rewrite !NoDup_cons in Hn. destruct Hn as [Hk _].
    repeat case_bool_decide; subst; try done. destruct Hk. by left.
  - rewrite IH12 by done. apply IH23. by rewrite <-H12.
Qed.

Lemma map_insert_ok k v l :
  strictly_sorted str_lt (map fst l) = true → strictly_sorted str_lt (map fst (map_insert k v l)) = true.
Proof.
  assert (∀ a l, Forall (λ b, str_lt a b = true) (map fst l) → str_lt a k = true →
    Forall (λ b, str_lt a b = true) (map fst (map_insert k v l))) as Hins.
  { intros a l0. induction l0 as [|[k' v'] l0 IH]; simpl; [by repeat constructor|].
    intros [Hk' Hl]%Forall_cons Ha. destruct (str_cmp k k'); simpl; repeat (constructor; [done|]); auto. }
  induction l as [|[k' v'] l IH]; [done|]. cbn [map fst]. intros [Hk Hs]%(strictly_sorted_cons _ str_lt_trans).
  cbn [map_insert]. destruct (str_cmp k k') eqn:Hc; cbn [map fst]; apply (strictly_sorted_cons _ str_lt_trans).
  - apply str_cmp_Eq in Hc as ->. done.
  - assert (str_lt k k' = true) as Hlt by (unfold str_lt; by rewrite Hc).
    split; [|by apply (strictly_sorted_cons _ str_lt_trans)]. constructor; [done|].
    eapply Forall_impl; [exact Hk|]. intros b Hb. by eapply str_lt_trans.
  - apply str_cmp_Gt in Hc. auto.
Qed.

(** Structs serialize to objects with increasing keys. *)
Lemma json_object_ok fields : Forall (λ kv, value_ok kv.2) fields → value_ok (json_object fields).
Proof.
  intros Hf. apply value_ok_Obj. unfold json_object.
  assert (∀ m, strictly_sorted str_lt (map fst m) = true ∧ Forall (λ kv, value_ok kv.2) m →
    strictly_sorted str_lt (map fst (fold_left (λ m kv, map_insert kv.1 kv.2 m) fields m)) = true ∧
    Forall (λ kv, value_ok kv.2) (fold_left (λ m kv, map_insert kv.1 kv.2 m) fields m)) as H; [|by apply H].
  induction Hf as [|[k v] fields Hv Hf IH]; intros m [Hs Hm]; [done|]. simpl. apply IH.
  split; [by apply map_insert_ok|]. simpl in Hv. clear Hs. induction Hm as [|[k' v'] m Hv' Hm IHm]; simpl.
  - by constructor.
  - destruct (str_cmp k k'); by repeat constructor.
Qed.

(** The object of a struct: each field is found under its name, so the object
    determines the fields. *)
Lemma map_get_insert k v l k' :
  map_get k' (map_insert k v l) = if k == k' then Some v else map_get k' l.
Proof.
  induction l as [|[k2 v2] l IH]; [done|]. cbn [map_insert]. destruct (str_cmp k k2) eqn:Hc; cbn [map_get].
  - apply str_cmp_Eq in Hc as ->. by case_bool_decide.
  - done.
  - rewrite IH. repeat case_bool_decide; subst; try done. by rewrite (proj2 (str_cmp_Eq _ _)) in Hc.
Qed.

Lemma json_object_get fields m k :
  NoDup (map fst fields) →
  map_get k (fold_left (λ m kv, map_insert kv.1 kv.2 m) fields m) =
  match map_get k fields with Some v => Some v | None => map_get k m end.
Proof.
  revert m. induction fields as [|[k' v] fields IH]; intros m Hn; [done|]. simpl.
  apply NoDup_cons in Hn as [Hk Hn]. rewrite IH, map_get_insert by done.
  case_bool_decide as Hkk; [subst k'|done].
  assert (map_get k fields = None) as ->; [|done]. clear -Hk.
  induction fields as [|[k' v'] fields IH]; [done|]. simpl in *. rewrite bool_decide_false by set_solver.
  apply IH. set_solver.
Qed.

Lemma json_object_inj (keys : list string) (vs vs' : list value) :
  NoDup keys → length vs = length keys → length vs' = length keys →
  json_object (zip keys vs) = json_object (zip keys vs') → vs = vs'.
Proof.
  intros Hn Hl Hl' [= Heq].
  assert (∀ us : list value, length us = length keys → map fst (zip keys us) = keys) as Hz
    by (intros us Hus; apply fst_zip; lia).
  assert (∀ k, map_get k (zip keys vs) = map_get k (zip keys vs')) as Hg.
  { intros k. pose proof (json_object_get (zip keys vs) [] k) as H1.
    pose proof (json_object_get (zip keys vs') [] k) as H2. rewrite Hz in H1, H2 by done.
    specialize (H1 Hn). specialize (H2 Hn). rewrite Heq in H1. rewrite H1 in H2.
    destruct (map_get k (zip keys vs)), (map_get k (zip keys vs')); naive_solver. }
  clear Heq Hz. revert vs vs' Hl Hl' Hg. induction Hn as [|k keys Hk Hn IH]; intros [|v vs] [|v' vs']; try done.
  intros Hl Hl' Hg. simpl in *. pose proof (Hg k) as Hkk. rewrite bool_decide_true in Hkk by done.
  injection Hkk as ->. f_equal. apply IH; [lia..|]. intros k'. specialize (Hg k').
  case_bool_decide; [subst k'|done].
  assert (∀ us : list value, map_get k (zip keys us) = None) as Hnone; [|by rewrite !Hnone].
  clear -Hk. induction keys as [|k2 keys IH]; intros [|u us]; simpl; try done.
  rewrite bool_decide_false by set_solver. apply IH. set_solver.
Qed.

#[export] Instance Str_inj : Inj (=) (=) Str.
Proof. by intros ? ? [= ->]. Qed.
#[export] Instance json_text_inj : Inj (=) (=) json_text.
Proof. intros [] [] Heq; simpl in Heq; by simplify_eq. Qed.
#[export] Instance json_u64_inj : Inj (=) (=) json_u64.
Proof. by intros ? ? [= ->]. Qed.
#[export] Instance Arr_inj {A} (f : A → value) : Inj (=) (=) f → Inj (=) (=) (λ l, Arr (map f l)).
Proof. intros Hf l l' [= Heq]. revert Heq. by apply (list_fmap_eq_inj f). Qed.

Lemma value_ok_json_text o : value_ok (json_text o).
Proof. by destruct o. Qed.
Lemma value_ok_array {A} (f : A → value) l : (∀ a, value_ok (f a)) → value_ok (Arr (map f l)).
Proof. intros Hf. apply value_ok_Arr, Forall_map, Forall_true, Hf. Qed.

(** *** Values that pass validation *)

Section valid.
Context {E : Type} `{JsonErrors E}.

Lemma validate_Arr l :
  validate_json_value (E := E) (Arr l) = Ok tt ↔ Forall (λ v, validate_json_value (E := E) v = Ok tt) l.
Proof.
  cbn [validate_json_value]. induction l as [|v l IH]; [by split|]. rewrite result_bind_Ok, Forall_cons, <-IH.
  split; [by intros ([] & ? & ?)|intros [? ?]; by exists tt].
Qed.

Lemma validate_Obj l :
  validate_json_value (E := E) (Obj l) = Ok tt ↔ Forall (λ kv, validate_json_value (E := E) kv.2 = Ok tt) l.
Proof.
  cbn [validate_json_value]. induction l as [|v l IH]; [by split|]. rewrite result_bind_Ok, Forall_cons, <-IH.
  split; [by intros ([] & ? & ?)|intros [? ?]; by exists tt].
Qed.

Lemma validate_json_object fields :
  Forall (λ kv, validate_json_value (E := E) kv.2 = Ok tt) fields →
  validate_json_value (E := E) (json_object fields) = Ok tt.
Proof.
  intros Hf. apply validate_Obj. assert (∀ m, Forall (λ kv, validate_json_value (E := E) kv.2 = Ok tt) m →
    Forall (λ kv, validate_json_value (E := E) kv.2 = Ok tt)
      (fold_left (λ m kv, map_insert kv.1 kv.2 m) fields m)) as Hm; [|by apply Hm].
  induction Hf as [|[k v] fields Hv Hf IH]; intros m Hm; [done|]. apply IH. simpl in *. clear -Hm Hv.
  induction Hm as [|[k' v'] m Hv' Hm IHm]; simpl; [by constructor|]. destruct (str_cmp k k'); by repeat constructor.
Qed.

Lemma validate_json_u64 n : (n ≤ MAX_SAFE_JSON_INTEGER)%N → validate_json_value (E := E) (json_u64 n) = Ok tt.
Proof. intros Hn. simpl. by rewrite (proj2 (N.leb_le _ _)). Qed.
Lemma validate_json_text o : validate_json_value (E := E) (json_text o) = Ok tt.
Proof. by destruct o. Qed.
Lemma validate_array {A} (f : A → value) l :
  (∀ a, validate_json_value (E := E) (f a) = Ok tt) → validate_json_value (E := E) (Arr (map f l)) = Ok tt.
Proof. intros Hf. apply validate_Arr, Forall_map, Forall_true, Hf. Qed.
End valid.

#[export] Hint Resolve json_object_ok value_ok_json_text value_ok_array validate_json_object validate_json_u64
  validate_json_text validate_array : kernaid.

(** *** Numbers *)

Lemma uint_digits u : forallb is_ascii_digit (as_bytes (DecimalString.NilEmpty.string_of_uint u)) = true.
Proof.
  induction u as [|u IH|u IH|u IH|u IH|u IH|u IH|u IH|u IH|u IH|u IH]; [done|..];
    cbn [DecimalString.NilEmpty.string_of_uint]; rewrite as_bytes_cons; cbn [forallb]; by rewrite IH.
Qed.

Lemma decimal_digits n : forallb is_ascii_digit (decimal n) = true.
Proof. apply uint_digits. Qed.

#[export] Instance decimal_inj : Inj (=) (=) decimal.
Proof.
  unfold decimal. intros n n' H%(inj as_bytes).
  apply (f_equal DecimalString.NilEmpty.uint_of_string) in H. rewrite !DecimalString.NilEmpty.usu in H.
  injection H as H. apply (f_equal N.of_uint) in H. by rewrite !DecimalN.Unsigned.of_to in H.
Qed.

(** An integer has at most as many decimal digits as binary ones. *)
Lemma double_digits d :
  Decimal.nb_digits (Decimal.Little.double d) ≤ S (Decimal.nb_digits d) ∧
  Decimal.nb_digits (Decimal.Little.succ_double d) ≤ S (Decimal.nb_digits d).
Proof. induction d; simpl; lia. Qed.

Lemma decimal_length n : (blen (decimal n) ≤ Z.of_N (N.size n) + 1)%Z.
Proof.
  assert (∀ u, length (as_bytes (DecimalString.NilEmpty.string_of_uint u)) = Decimal.nb_digits u) as Hs
    by (induction u; [done|..]; cbn [DecimalString.NilEmpty.string_of_uint]; rewrite as_bytes_cons; simpl; congruence).
  unfold decimal, blen. rewrite Hs. destruct n as [|p]; [done|]. simpl.
  unfold Pos.to_uint. rewrite DecimalFacts.nb_digits_rev.
  induction p as [p IH|p IH|]; simpl; [..|done];
    pose proof (double_digits (Pos.to_little_uint p)); lia.
Qed.

Lemma decimal_safe_length n : (n ≤ MAX_SAFE_JSON_INTEGER)%N → (blen (decimal n) ≤ 54)%Z.
Proof.
  intros Hn. etrans; [apply decimal_length|]. destruct (decide (n = 0%N)) as [->|Hz]; [done|].
  rewrite N.size_log2 by done. assert (N.log2 n ≤ N.log2 MAX_SAFE_JSON_INTEGER)%N as Hl by by apply N.log2_le_mono.
  change (N.log2 MAX_SAFE_JSON_INTEGER) with 52%N in Hl. lia.
Qed.

Lemma decimal_head n : ∃ b r, decimal n = b :: r ∧ is_ascii_digit b = true.
Proof.
  pose proof (decimal_digits n) as Hd. destruct (decimal n) as [|b r] eqn:Hn; [exfalso|].
  - unfold decimal in Hn.
    assert (DecimalString.NilEmpty.string_of_uint (N.to_uint n) = ""%string) as He
      by by destruct (DecimalString.NilEmpty.string_of_uint _).
    apply (f_equal DecimalString.NilEmpty.uint_of_string) in He.
    rewrite DecimalString.NilEmpty.usu in He. injection He as He.
    pose proof (f_equal N.of_uint He) as Hz. rewrite DecimalN.Unsigned.of_to in Hz.
    rewrite Hz in He. discriminate He.
  - simpl in Hd. apply andb_true_iff in Hd as [Hb _]. by exists b, r.
Qed.

(** A value in an array or an object ends where one of these bytes or the text
    begins. *)
Definition delimiter (t : bytes) : Prop :=
  match t with [] => True | b :: _ => b = x2c ∨ b = x5d ∨ b = x7d end.

Lemma digits_delimited a a' t t' :
  forallb is_ascii_digit a = true → forallb is_ascii_digit a' = true →
  delimiter t → delimiter t' → a ++ t = a' ++ t' → a = a' ∧ t = t'.
Proof.
  assert (∀ b r t, is_ascii_digit b = true → delimiter t → t ≠ b :: r) as Hno.
  { intros b r t0 Hb Ht ->. by destruct Ht as [-> | [-> | ->]]. }
  revert a'. induction a as [|b a IH]; intros [|b' a'] Ha Ha' Ht Ht' Heq; simpl in *.
  - done.
  - apply andb_true_iff in Ha' as [Hb _]. by destruct (Hno _ _ _ Hb Ht Heq).
  - apply andb_true_iff in Ha as [Hb _]. by destruct (Hno _ _ _ Hb Ht' (eq_sym Heq)).
  - injection Heq as -> Heq. apply andb_true_iff in Ha as [_ Ha], Ha' as [_ Ha'].
    by destruct (IH a' Ha Ha' Ht Ht' Heq) as [-> ->].
Qed.

(** Values without floats. *)
Fixpoint integral (v : value) : Prop :=
  match v with
  | Num (Float _) => False
  | Arr l => foldr (λ x P, integral x ∧ P) True l
  | Obj l => foldr (λ kv P, integral kv.2 ∧ P) True l
  | _ => True
  end.

Lemma integral_Arr l : integral (Arr l) ↔ Forall integral l.
Proof. apply (foldr_and_Forall integral). Qed.
Lemma integral_Obj l : integral (Obj l) ↔ Forall (λ kv, integral kv.2) l.
Proof. apply (foldr_and_Forall (λ kv, integral kv.2)). Qed.

Lemma number_text_inj n n' t t' :
  number_ok n → number_ok n' → integral (Num n) → integral (Num n') → delimiter t → delimiter t' →
  number_text n ++ t = number_text n' ++ t' → n = n' ∧ t = t'.
Proof.
  destruct n as [n|z|], n' as [n'|z'|]; simpl; try done; intros Hn Hn' _ _ Ht Ht' Heq.
  - apply digits_delimited in Heq as [Heq ->]; [|apply decimal_digits..|done|done].
    by apply (inj decimal) in Heq as ->.
  - exfalso. destruct (decimal_head n) as (b & r & Hd & Hb). rewrite Hd in Heq. injection Heq as -> _. done.
  - exfalso. destruct (decimal_head n') as (b & r & Hd & Hb). rewrite Hd in Heq. injection Heq as <- _. done.
  - injection Heq as Heq. apply digits_delimited in Heq as [Heq ->]; [|apply decimal_digits..|done|done].
    apply (inj decimal) in Heq. split; [|done]. f_equal. lia.
Qed.

Section text.
Context `{JsonString}.

Definition literal (s : string) : bytes := default [] (json_string s).

Fixpoint items_text (first : bool) (items : list bytes) : bytes :=
  match items with
  | [] => []
  | x :: items => separator first ++ x ++ items_text false items
  end.

Fixpoint text (v : value) : bytes :=
  match v with
  | Null => as_bytes "null"
  | Bool b => as_bytes (if b then "true" else "false")
  | Num n => number_text n
  | Str s => literal s
  | Arr l => [x5b] ++ items_text true (map text l) ++ [x5d]
  | Obj l => [x7b] ++ items_text true (map (λ kv, literal kv.1 ++ [x3a] ++ text kv.2) l) ++ [x7d]
  end.

Context {E : Type} `{JsonErrors E} `{laws : !JsonStringLaws}.

Lemma json_string_literal s : json_string s = Some (literal s).
Proof using laws. unfold literal. by destruct (json_string_total s) as [b ->]. Qed.

Lemma literal_head s : ∃ b, literal s = x22 :: b.
Proof using laws. unfold literal. destruct (json_string_total s) as [b ->]. by exists b. Qed.

Lemma literal_inj s s' t t' : literal s ++ t = literal s' ++ t' → s = s' ∧ t = t'.
Proof using laws. apply json_string_delimited; apply json_string_literal. Qed.

Lemma write_items_text first vs output :
  Forall (λ v, ∀ o, write_canonical_value (E := E) v o = Ok (o ++ text v)) vs →
  write_items first (map write_canonical_value vs) output = Ok (output ++ items_text first (map text vs)).
Proof.
  intros Hvs. revert first output. induction Hvs as [|v vs Hv Hvs IH]; intros first output; simpl.
  - by rewrite app_nil_r.
  - rewrite Hv. simpl. rewrite IH. by rewrite <-!app_assoc.
Qed.

Lemma write_entries_text first pre fields output :
  NoDup (map fst (pre ++ fields)) →
  Forall (λ kv, ∀ o, write_canonical_value (E := E) kv.2 o = Ok (o ++ text kv.2)) fields →
  write_entries first (map fst fields)
    (map (λ kv, (kv.1, write_canonical_value kv.2)) (pre ++ fields)) output =
  Ok (output ++ items_text first (map (λ kv, literal kv.1 ++ [x3a] ++ text kv.2) fields)).
Proof using laws.
  intros Hn Hf. revert first pre Hn output. induction Hf as [|[k v] fields Hv Hf IH]; intros first pre Hn output.
  - simpl. by rewrite app_nil_r.
  - cbn [map fst snd write_entries]. rewrite json_string_literal. cbn [ok_or mbind result_bind].
    rewrite map_app. cbn [map fst snd]. rewrite map_get_app.
    + cbn [ok_or mbind result_bind]. rewrite Hv. cbn [mbind result_bind].
      replace (map (λ kv, (kv.1, write_canonical_value kv.2)) pre ++
          (k, write_canonical_value v) :: map (λ kv, (kv.1, write_canonical_value kv.2)) fields)
        with (map (λ kv, (kv.1, write_canonical_value (E := E) kv.2)) ((pre ++ [(k, v)]) ++ fields))
        by (by rewrite !map_app, <-app_assoc).
      rewrite IH by (by rewrite <-app_assoc). simpl. by rewrite <-!app_assoc.
    + rewrite map_app in Hn. apply NoDup_app in Hn as (_ & Hd & _). intros Hk. eapply (Hd k); [|simpl; left].
      by rewrite map_map in Hk.
Qed.

(** The writer appends the text. *)
Lemma write_canonical_text v output :
  value_ok v → write_canonical_value (E := E) v output = Ok (output ++ text v).
Proof using laws.
  revert output. induction v as [| | | |l IH|l IH] using value_ind'; intros output Hv; try done.
  - simpl. by rewrite json_string_literal.
  - cbn [write_canonical_value]. rewrite write_items_text; [simpl; by rewrite <-!app_assoc|].
    apply value_ok_Arr in Hv. apply Forall_forall. intros v Hin o. rewrite Forall_forall in IH, Hv. by apply IH, Hv.
  - apply value_ok_Obj in Hv as [Hs Hv]. cbn [write_canonical_value]. rewrite sort_keys_sorted by done.
    rewrite (write_entries_text true []); [simpl; by rewrite <-!app_assoc| |].
    + by apply strictly_sorted_NoDup.
    + apply Forall_forall. intros kv Hin o. rewrite Forall_forall in IH, Hv. by apply IH, Hv.
Qed.

(** *** How long a text is *)

Lemma literal_plain s : all_bytes plain s = true → blen (literal s) = (len s + 2)%Z.
Proof using laws.
  intros Hs. unfold literal. rewrite json_string_plain by done. simpl. unfold blen, len.
  cbn [length]. rewrite length_app, length_as_bytes. simpl. lia.
Qed.

Lemma literal_length s : (blen (literal s) ≤ 6 * len s + 2)%Z.
Proof using laws. eapply json_string_length, json_string_literal. Qed.

Lemma items_text_length first items :
  (blen (items_text first items) ≤ foldr (λ x n, blen x + 1 + n)%Z 0%Z items)%Z.
Proof.
  revert first. induction items as [|x items IH]; intros first; [done|]. simpl. unfold blen in *.
  rewrite !length_app. specialize (IH false). destruct first; simpl; lia.
Qed.

(** The fields of an object with the space their names and separators take. *)
Definition fields_length (fields : list (string * value)) : Z :=
  foldr (λ kv n, blen (literal kv.1) + blen (text kv.2) + 2 + n)%Z 0%Z fields.

Lemma map_insert_length k v l :
  (fields_length (map_insert k v l) ≤ blen (literal k) + blen (text v) + 2 + fields_length l)%Z.
Proof.
  induction l as [|[k' v'] l IH]; [done|]. cbn [map_insert]. destruct (str_cmp k k') eqn:Hc; simpl.
  - unfold blen. lia.
  - done.
  - unfold fields_length in *. lia.
Qed.

Lemma json_object_length fields : (blen (text (json_object fields)) ≤ 2 + fields_length fields)%Z.
Proof.
  assert (∀ m, fields_length (fold_left (λ m kv, map_insert kv.1 kv.2 m) fields m) ≤
    fields_length fields + fields_length m)%Z as Hf.
  { induction fields as [|[k v] fields IH]; intros m; simpl; [done|]. etrans; [apply IH|].
    pose proof (map_insert_length k v m). simpl in *. lia. }
  specialize (Hf []). unfold json_object. simpl in Hf.
  revert Hf. generalize (fold_left (λ m kv, map_insert kv.1 kv.2 m) fields []) as l. intros l Hl.
  cbn [text]. unfold blen at 1. rewrite !length_app.
  pose proof (items_text_length true (map (λ kv, literal kv.1 ++ [x3a] ++ text kv.2) l)) as Hi.
  assert (foldr (λ x n, blen x + 1 + n)%Z 0%Z (map (λ kv, literal kv.1 ++ [x3a] ++ text kv.2) l) =
    fields_length l) as He.
  { clear. induction l as [|kv l IH]; [done|]. cbn [map foldr]. rewrite IH.
    unfold fields_length. cbn [foldr]. unfold blen. rewrite !length_app. simpl. lia. }
  rewrite He in Hi. unfold blen in Hi. cbn [length]. lia.
Qed.

Lemma json_object_nonempty fields : (0 < blen (text (json_object fields)))%Z.
Proof. unfold blen. simpl. lia. Qed.

Lemma fields_length_app l l' : fields_length (l ++ l') = (fields_length l + fields_length l')%Z.
Proof. unfold fields_length. induction l as [|kv l IH]; simpl; [done|]. rewrite IH. lia. Qed.

Lemma array_length {A} (f : A → value) n (l : list A) :
  Forall (λ a, blen (text (f a)) ≤ n)%Z l →
  (blen (text (Arr (map f l))) ≤ 2 + Z.of_nat (length l) * (n + 1))%Z.
Proof.
  intros Hl. cbn [text]. unfold blen at 1. rewrite !length_app.
  pose proof (items_text_length true (map text (map f l))) as Hi.
  assert (foldr (λ x n, blen x + 1 + n)%Z 0%Z (map text (map f l)) ≤ Z.of_nat (length l) * (n + 1))%Z
    by (clear Hi; induction Hl; simpl; lia).
  unfold blen in *. simpl. lia.
Qed.

(** *** The text determines the value *)

(** What the first byte of a text can be. *)
Definition head_of (v : value) (b : byte) : Prop :=
  match v with
  | Null => b = x6e
  | Bool true => b = x74
  | Bool false => b = x66
  | Num (NegInt _) => b = x2d
  | Num _ => is_ascii_digit b = true
  | Str _ => b = x22
  | Arr _ => b = x5b
  | Obj _ => b = x7b
  end.

Lemma text_head v : integral v → ∃ b r, text v = b :: r ∧ head_of v b.
Proof using laws.
  destruct v as [|[]|[n|z|]|s|l|l]; intros Hv.
  - by exists x6e, (as_bytes "ull").
  - by exists x74, (as_bytes "rue").
  - by exists x66, (as_bytes "alse").
  - apply decimal_head.
  - by exists x2d, (decimal (Z.to_N (- z))).
  - done.
  - destruct (literal_head s) as [r Hr]. by exists x22, r.
  - by eexists x5b, _.
  - by eexists x7b, _.
Qed.

(** Values of different shapes start differently. *)
Definition same_shape (v v' : value) : Prop :=
  match v, v' with
  | Null, Null | Num _, Num _ | Str _, Str _ | Arr _, Arr _ | Obj _, Obj _ => True
  | Bool b, Bool b' => b = b'
  | _, _ => False
  end.

Lemma head_of_shape v v' b : head_of v b → head_of v' b → same_shape v v'.
Proof.
  destruct v as [|[]|[]| | |], v' as [|[]|[]| | |]; simpl; try done; intros; subst; done.
Qed.

Lemma text_shape v v' t t' :
  integral v → integral v' → text v ++ t = text v' ++ t' → same_shape v v'.
Proof using laws.
  intros (b & r & Hr & Hb)%text_head (b' & r' & Hr' & Hb')%text_head Heq.
  rewrite Hr, Hr' in Heq. injection Heq as -> _. by eapply head_of_shape.
Qed.

Lemma text_not_closing v b r : integral v → text v = b :: r → b ≠ x5d ∧ b ≠ x7d.
Proof using laws.
  intros (b' & r' & Hr & Hb)%text_head Heq. rewrite Heq in Hr. injection Hr as <- <-.
  destruct v as [|[]|[]| | |]; simpl in Hb; subst; try done; split; by intros ->.
Qed.

(** Two lists of items followed by the same closing byte. *)
Lemma items_text_inj {A} (f : A → bytes) (P : A → Prop) close first l l' t t' :
  (close = x5d ∨ close = x7d) →
  (∀ a b r, P a → f a = b :: r → b ≠ close) → (∀ a, P a → f a ≠ []) →
  Forall (λ a, ∀ a' u u', P a' → delimiter u → delimiter u' → f a ++ u = f a' ++ u' → a = a' ∧ u = u') l →
  Forall P l → Forall P l' →
  items_text first (map f l) ++ close :: t = items_text first (map f l') ++ close :: t' →
  l = l' ∧ t = t'.
Proof.
  intros Hc Hhead Hne Hinj Hl. revert first l'.
  assert (∀ fs (m : list A) u, fs = false → delimiter (items_text fs (map f m) ++ close :: u)) as Hdel.
  { intros fs [|a m] u ->; simpl; [|by left]. by destruct Hc as [-> | ->]; auto. }
  induction Hl as [|a l Ha Hl IH]; intros first [|a' l'] Hl' Heq; simpl in *.
  - by injection Heq.
  - exfalso. apply Forall_cons in Hl' as [Ha' _]. destruct first; simpl in Heq.
    + destruct (f a') as [|b r] eqn:Hb; [by eapply Hne|]. injection Heq as <- _. by eapply Hhead.
    + injection Heq as -> _. by destruct Hc.
  - exfalso. destruct first; simpl in Heq.
    + destruct (f a) as [|b r] eqn:Hb; [by eapply Hne|]. injection Heq as -> _. by eapply Hhead.
    + injection Heq as <- _. by destruct Hc.
  - apply Forall_cons in Hl' as [Ha' Hl'], Hinj as [Hi Hinj].
    rewrite <-!app_assoc in Heq. apply app_inv_head in Heq.
    apply Hi in Heq as [-> Heq]; [|done|by apply Hdel..].
    destruct (IH Hinj false l' Hl' Heq) as [-> ->]. done.
Qed.

Lemma text_inj v v' t t' :
  value_ok v → value_ok v' → integral v → integral v' → delimiter t → delimiter t' →
  text v ++ t = text v' ++ t' → v = v' ∧ t = t'.
Proof using laws.
  revert v' t t'. induction v as [|b|n|s|l IH|l IH] using value_ind'; intros v' t t' Hv Hv' Hi Hi' Ht Ht' Heq;
    pose proof (text_shape _ _ _ _ Hi Hi' Heq) as Hs; destruct v' as [|b'|n'|s'|l'|l']; try done.
  - by apply app_inv_head in Heq.
  - simpl in Hs. subst b'. by apply app_inv_head in Heq.
  - simpl in *. apply number_text_inj in Heq as [-> ->]; done.
  - simpl in Heq. by apply literal_inj in Heq as [-> ->].
  - apply value_ok_Arr in Hv, Hv'. apply integral_Arr in Hi, Hi'. simpl in Heq.
    injection Heq as Heq. rewrite <-!app_assoc in Heq.
    apply (items_text_inj text (λ v, value_ok v ∧ integral v) x5d) in Heq as [-> ->].
    + done.
    + by left.
    + intros a b r [_ Ha] Hb. by apply text_not_closing in Hb as [? _].
    + intros a [_ Ha]. by destruct (text_head a Ha) as (b & r & -> & _).
    + apply Forall_forall. intros a Hin a' u u' [Ha1 Ha2] Hu Hu' He.
      rewrite Forall_forall in IH, Hv, Hi. by apply (IH a); auto.
    + by apply Forall_and.
    + by apply Forall_and.
  - apply value_ok_Obj in Hv as [_ Hv], Hv' as [_ Hv']. apply integral_Obj in Hi, Hi'. simpl in Heq.
    injection Heq as Heq. rewrite <-!app_assoc in Heq.
    apply (items_text_inj (λ kv, literal kv.1 ++ [x3a] ++ text kv.2) (λ kv, value_ok kv.2 ∧ integral kv.2) x7d)
      in Heq as [-> ->].
    + done.
    + by right.
    + intros [k a] b r _ Hb. simpl in Hb. destruct (literal_head k) as [r' Hr]. rewrite Hr in Hb.
      injection Hb as <- _. done.
    + intros [k a] _. simpl. by destruct (literal_head k) as [r' ->].
    + apply Forall_forall. intros [k a] Hin [k' a'] u u' [Ha1 Ha2] Hu Hu' He. simpl in *.
      rewrite <-!app_assoc in He. apply literal_inj in He as [-> He]. injection He as He.
      rewrite Forall_forall in IH, Hv, Hi. specialize (IH _ Hin). specialize (Hv _ Hin). specialize (Hi _ Hin).
      simpl in *. by apply IH in He as [-> ->].
    + by apply Forall_and.
    + by apply Forall_and.
Qed.

Lemma validate_integral v : value_ok v → validate_json_value (E := E) v = Ok tt → integral v.
Proof.
  induction v as [|b|n|s|l IH|l IH] using value_ind'; intros Hok Hv; try done.
  - by destruct n.
  - apply integral_Arr. apply value_ok_Arr in Hok. apply validate_Arr in Hv.
    rewrite !Forall_forall in *. auto.
  - apply integral_Obj. apply value_ok_Obj in Hok as [_ Hok]. apply validate_Obj in Hv.
    rewrite !Forall_forall in *. auto.
Qed.

(** A type whose values serialize to what [serde_json] can hold, injectively. *)
Class ToValueOk (T : Type) `{ToValue T} : Prop := {
  to_value_ok t : value_ok (to_value t);
  to_value_inj (t t' : T) : to_value t = to_value t' → t = t';
}.

Lemma canonical_json_Ok {T} `{ToValueOk T} (t : T) b :
  canonical_json (E := E) t = Ok b ↔ validate_json_value (E := E) (to_value t) = Ok tt ∧ b = text (to_value t).
Proof using laws.
  unfold canonical_json. rewrite write_canonical_text by apply to_value_ok.
  destruct (validate_json_value (to_value t)) as [[]|]; simpl; naive_solver.
Qed.

Lemma canonical_json_inj {T} `{ToValueOk T} (t t' : T) b :
  canonical_json (E := E) t = Ok b → canonical_json (E := E) t' = Ok b → t = t'.
Proof using laws.
  intros [Hv ->]%canonical_json_Ok [Hv' Heq]%canonical_json_Ok. apply to_value_inj.
  apply (f_equal (.++ [])) in Heq.
  apply text_inj in Heq as [-> _]; try done; try apply to_value_ok; eapply validate_integral; eauto using to_value_ok.
Qed.

Lemma import_canonical_Ok {T} `{ToValueOk T} `{FromSlice T} input maximum (t : T) :
  import_canonical (E := E) input maximum = Ok t →
  canonical_json (E := E) t = Ok input ∧ (0 < blen input ≤ maximum)%Z.
Proof.
  unfold import_canonical, validate_size. intros Hok. inv_ok Hok. inv_ok Hcall. guards.
  split; [by subst|]. unfold blen in *. lia.
Qed.

(** [serde_json] reads a document back from its text. *)
Definition reads_back {T} `{ToValue T} `{FromSlice T} (t : T) : Prop :=
  value_from_slice (text (to_value t)) = Some (to_value t) ∧ from_slice (text (to_value t)) = Some t.

Lemma import_canonical_exact {T} `{ToValueOk T} `{FromSlice T} maximum (t : T) b :
  reads_back t → canonical_json (E := E) t = Ok b → (0 < blen b ≤ maximum)%Z →
  import_canonical (E := E) b maximum = Ok t.
Proof using laws.
  intros [Hv Ht] Hc [Hb Hm]. pose proof Hc as [Hval ->]%canonical_json_Ok.
  unfold import_canonical, validate_size.
  rewrite (proj2 (Z.eqb_neq _ _)), (proj2 (Z.ltb_ge _ _)) by lia. simpl.
  rewrite Hv. simpl. rewrite Hval. simpl. rewrite Ht. simpl. rewrite Hc. simpl. by rewrite ne_refl_false.
Qed.

(** Entries matter through their lookups only. *)
Lemma write_entries_get first keys entries entries' (output : bytes) :
  (∀ k, map_get k entries = map_get k entries') →
  write_entries (E := E) first keys entries output = write_entries first keys entries' output.
Proof.
  intros He. revert first output. induction keys as [|k keys IH]; intros first output; [done|]. simpl.
  rewrite He. destruct (json_string k); [|done]. simpl. destruct (map_get k entries'); [|done]. simpl.
  destruct (w _); [|done]. simpl. apply IH.
Qed.

Lemma validate_size_Ok n m u : validate_size (E := E) n m = Ok u ↔ (n ≠ 0 ∧ n ≤ m)%Z.
Proof.
  unfold validate_size. destruct u. destruct (Z.eqb_spec n 0), (Z.ltb_spec m n); simpl; split; try done; lia.
Qed.

(** C34. The canonical form is total and faithful: a valid value is always written, two valid
    values have the same canonical text exactly when they are equal, and the order in which an
    object lists its entries does not matter. *)
Theorem canonical_json_faithful :
  (∀ v, value_ok v → ∃ b, write_canonical_value (E := E) v [] = Ok b) ∧
  (∀ v v', value_ok v → value_ok v' →
     validate_json_value (E := E) v = Ok tt → validate_json_value (E := E) v' = Ok tt →
     write_canonical_value (E := E) v [] = write_canonical_value (E := E) v' [] ↔ v = v') ∧
  (∀ l l' o, l ≡ₚ l' → NoDup (map fst l) →
     write_canonical_value (E := E) (Obj l) o = write_canonical_value (E := E) (Obj l') o).
Proof using laws.
  split_and!.
  - intros v Hv. rewrite write_canonical_text by done. by eexists.
  - intros v v' Hv Hv' Hc Hc'. rewrite !write_canonical_text by done. split; [|by intros ->].
    intros Heq%Ok_inj_1. apply (f_equal (.++ [])) in Heq. simpl in Heq.
    apply text_inj in Heq as [-> _]; try done; by apply validate_integral.
  - intros l l' o Hp Hn. cbn [write_canonical_value].
    rewrite (sort_keys_Permutation (map fst l) (map fst l')) by by rewrite Hp.
    erewrite write_entries_get; [done|]. intros k. apply map_get_Permutation; [by rewrite Hp|by rewrite map_map].
Qed.
End text.

(** ** An instance for evaluation

    JSON string literals with the escapes that [serde_json] writes for quotation
    marks, backslashes and control characters below the first printable one,
    the latter all in their long form. *)
Module JsonDemo.

Definition escape_byte (b : byte) : bytes :=
  if bool_decide (b = x22) || bool_decide (b = x5c) then [x5c; b]
  else if in_range 0 31 b then x5c :: x75 :: x30 :: x30 :: as_bytes (hex_string [b])
  else [b].

Definition demo_json_string : JsonString := λ s,
  Some (x22 :: concat (map escape_byte (as_bytes s)) ++ [x22]).

Lemma escape_byte_inj b b' t t' : escape_byte b ++ t = escape_byte b' ++ t' → b = b' ∧ t = t'.
Proof.
  unfold escape_byte.
  destruct (bool_decide_reflect (b = x22)), (bool_decide_reflect (b = x5c)),
    (bool_decide_reflect (b' = x22)), (bool_decide_reflect (b' = x5c)); subst; simpl; try done;
    try (by intros [= ->]);
    repeat match goal with |- context [in_range 0 31 ?x] => destruct (in_range 0 31 x) eqn:? end;
    simpl; intros Heq; simplify_eq; try done.
  assert (as_bytes (hex_string [b]) = as_bytes (hex_string [b'])) as Heq by (cbn [hex_string]; rewrite !as_bytes_cons; congruence).
  apply (inj as_bytes), (inj hex_string) in Heq. by simplify_eq.
Qed.

Lemma escape_byte_head b : ∃ x r, escape_byte b = x :: r ∧ x ≠ x22.
Proof.
  unfold escape_byte. repeat case_bool_decide; subst; simpl; eauto.
  destruct (in_range 0 31 b); eauto.
Qed.

Lemma demo_json_string_laws : @JsonStringLaws demo_json_string.
Proof.
  split; unfold json_string, demo_json_string.
  - intros s. eauto.
  - intros s s' a a' t t' [= <-] [= <-] Heq. injection Heq as Heq. rewrite <-!app_assoc in Heq.
    assert (∀ l l', concat (map escape_byte l) ++ [x22] ++ t = concat (map escape_byte l') ++ [x22] ++ t' →
      l = l' ∧ t = t') as Hl.
    { induction l as [|b l IH]; intros [|b' l'] H; simpl in H.
      - by injection H.
      - exfalso. destruct (escape_byte_head b') as (x & r & Hx & Hne). rewrite Hx in H. by injection H.
      - exfalso. destruct (escape_byte_head b) as (x & r & Hx & Hne). rewrite Hx in H. by injection H.
      - rewrite <-!app_assoc in H. apply escape_byte_inj in H as [-> H]. by apply IH in H as [-> ->]. }
    apply Hl in Heq as [Heq ->]. by apply (inj as_bytes) in Heq as ->.
  - intros s Hs. do 2 f_equal. unfold all_bytes in Hs. revert Hs. generalize (as_bytes s) as l. clear s.
    induction l as [|b l IH]; [done|]. cbn [forallb map concat]. intros [Hb Hl]%andb_true_iff.
    rewrite <-app_assoc, (IH Hl). unfold plain in Hb. guards. unfold escape_byte.
    rewrite !bool_decide_false by done. unfold in_range in *. guards.
    destruct (Z.leb_spec (byte_val b) 31); [lia|]. by rewrite andb_false_r.
  - intros s b [= <-]. unfold len, blen. rewrite <-length_as_bytes. cbn [length]. rewrite length_app.
    generalize (as_bytes s) as l. induction l as [|b l IH]; [done|].
    cbn [map concat length] in *. rewrite length_app. assert (length (escape_byte b) ≤ 6).
    { unfold escape_byte. repeat case_match; simpl; rewrite ?length_as_bytes, ?length_hex_string; simpl; lia. }
    lia.
Qed.

Inductive demo_error := DemoInvalid | DemoUnsupported | DemoUnsafe | DemoNonCanonical | DemoTooLarge.
Definition demo_errors : JsonErrors demo_error :=
  {| invalid_json := DemoInvalid; unsupported_json_value := DemoUnsupported;
     unsafe_integer := DemoUnsafe; non_canonical_json := DemoNonCanonical;
     document_too_large := DemoTooLarge |}.

Definition demo_value : value :=
  Obj [("a", Arr [Num (PosInt 1); Num (NegInt (-20)); Str "x"]); ("b", Null)]%string.
Definition demo_value' : value :=
  Obj [("a", Arr [Num (PosInt 1); Num (NegInt (-2)); Str "x"]); ("b", Null)]%string.
End JsonDemo.

Import JsonDemo.

Lemma canonical_json_faithful_witness :
  (write_canonical_value (H := demo_errors) (H0 := demo_json_string) demo_value [] =
   write_canonical_value (H := demo_errors) (H0 := demo_json_string) demo_value' [] ↔ demo_value = demo_value') ∧
  write_canonical_value (H := demo_errors) (H0 := demo_json_string) (Obj [("a", Null); ("b", Bool true)]%string) [] =
  write_canonical_value (H := demo_errors) (H0 := demo_json_string) (Obj [("b", Bool true); ("a", Null)]%string) [].
Proof.
  split.
  - apply (proj1 (proj2 (canonical_json_faithful (E := demo_error) (H0 := demo_errors) (H := demo_json_string)
      (laws := demo_json_string_laws)))).
    + vm_compute. intuition discriminate.
    + vm_compute. intuition discriminate.
    + vm_compute. reflexivity.
    + vm_compute. reflexivity.
  - apply (proj2 (proj2 (canonical_json_faithful (E := demo_error) (H0 := demo_errors) (H := demo_json_string)
      (laws := demo_json_string_laws)))).
    + constructor.
    + apply (bool_decide_unpack _). vm_compute. exact I.
Defined.
