(* ===== verification/Documents.v ===== *)
(** * Checks that the signed documents of the fleet share

    fleet-audit, fleet-policy and update-client repeat the same validators of
    identifiers, digests, integers and signatures, each with its own error
    type. The file models them once with the error as an argument; the crates
    instantiate them. The lemmas say what each of them accepts. *)

From Stdlib.Strings Require Import Byte.
From Stdlib Require String.
From Stdlib.Sorting Require Import Sorted.
From S2P Require Import Prelude Bytes Crypto Signatures Ordered CanonicalJson.

Definition MAX_ID_BYTES : Z := 160.

(** [is_ascii_alphanumeric() || matches!(byte, b'-' | b'_' | b'.' | b':' | b'/')]. *)
Definition identifier_byte (b : byte) : bool :=
  is_ascii_alphanumeric b || bool_decide (b ∈ [x2d; x5f; x2e; x3a; x2f]).

(** [is_ascii_digit() || (b'a'..=b'f').contains(&byte)]. *)
Definition lower_hex_byte (b : byte) : bool := is_ascii_digit b || is_lower_a_f b.

(** ** What the checks accept *)

Definition identifier (value : string) : bool :=
  negb (is_empty value || (MAX_ID_BYTES <? len value)%Z || negb (all_bytes identifier_byte value)).
Definition digest_text (value : string) : bool :=
  negb ((len value != 64%Z) || negb (all_bytes lower_hex_byte value)).
Definition safe_nonzero (value : N) : bool :=
  negb ((value =? 0) || (MAX_SAFE_JSON_INTEGER <? value))%N.
Definition device_text (value : string) : bool :=
  match strip_prefix "KA-" value with
  | None => false
  | Some suffix => negb ((len suffix != 24%Z) || negb (all_bytes lower_hex_byte suffix))
  end.

Section checks.
Context {E : Type} (bad : string → E).

Definition validate_identifier (field value : string) : result E () :=
  reject (is_empty value || (MAX_ID_BYTES <? len value)%Z || negb (all_bytes identifier_byte value))
    with bad field;
  Ok tt.

Definition validate_safe_nonzero (field : string) (value : N) : result E () :=
  reject ((value =? 0) || (MAX_SAFE_JSON_INTEGER <? value))%N with bad field; Ok tt.

Definition validate_sha256 (field value : string) : result E () :=
  reject ((len value != 64%Z) || negb (all_bytes lower_hex_byte value)) with bad field; Ok tt.

Definition validate_device_id (value : string) : result E () :=
  match strip_prefix "KA-" value with
  | None => Err (bad "deviceId")
  | Some suffix =>
      reject ((len suffix != 24%Z) || negb (all_bytes lower_hex_byte suffix)) with bad "deviceId"; Ok tt
  end.

(** [for value in values { validate(value)?; }]. *)
Fixpoint for_each (validate : string → result E ()) (values : list string) : result E () :=
  match values with
  | [] => Ok tt
  | value :: values => _ ← validate value; for_each validate values
  end.

Definition decode_signature `{Base64Url} (encoded : string) : result E bytes :=
  reject (bool_decide (x3d ∈ as_bytes encoded) || (len encoded != 86%Z)) with bad "signature";
  decoded ← ok_or (b64_decode encoded) (bad "signature");
  reject ((blen decoded != 64%Z) || (b64_encode decoded != encoded)) with bad "signature";
  Ok decoded.

(** A domain, the length of the payload and the payload; [usize] has 64 bits. *)
Definition length_prefixed (too_large : E) (dom payload : bytes) : result E bytes :=
  length ← ok_or (if (blen payload <=? U64_MAX)%Z then Some (blen payload) else None) too_large;
  capacity ← ok_or (n ← checked_add_u64 (blen dom) 8; checked_add_u64 n (blen payload)) too_large;
  Ok (dom ++ to_be_bytes length ++ payload).

Lemma validate_identifier_Ok field value u : validate_identifier field value = Ok u ↔ identifier value = true.
Proof. unfold validate_identifier, identifier. destruct u, (_ || _); naive_solver. Qed.
Lemma validate_sha256_Ok field value u : validate_sha256 field value = Ok u ↔ digest_text value = true.
Proof. unfold validate_sha256, digest_text. destruct u, (_ || _); naive_solver. Qed.
Lemma validate_safe_nonzero_Ok field value u : validate_safe_nonzero field value = Ok u ↔ safe_nonzero value = true.
Proof. unfold validate_safe_nonzero, safe_nonzero. destruct u, (_ || _); naive_solver. Qed.

Lemma validate_device_id_Ok value u : validate_device_id value = Ok u ↔ device_text value = true.
Proof.
  unfold validate_device_id, device_text. destruct u, (strip_prefix _ _); [|naive_solver].
  destruct (_ || _); naive_solver.
Qed.

Lemma for_each_Ok validate values u :
  for_each validate values = Ok u ↔ Forall (λ value, validate value = Ok tt) values.
Proof.
  clear bad. destruct u. induction values as [|v vs IH]; simpl; [naive_solver|].
  rewrite result_bind_Ok, Forall_cons, <-IH. split; [by intros ([] & ? & ?)|intros [? ?]; by exists tt].
Qed.

Lemma decode_signature_Ok `{Base64UrlLaws} encoded d :
  decode_signature encoded = Ok d ↔ encoded = b64_encode d ∧ length d = 64.
Proof.
  unfold decode_signature. split.
  - intros Hd. inv_ok Hd. guards. split; [done|]. unfold blen in *. lia.
  - intros [-> Hd]. rewrite b64_encode_length, b64_decode_encode. unfold blen. rewrite Hd.
    change (b64_length (Z.of_nat 64)) with 86%Z. cbn [ok_or mbind result_bind].
    rewrite !ne_refl_false, (bool_decide_false (_ ∈ _)), Hd; [done|]. intros Hin.
    pose proof (b64_encode_ascii d) as Ha. rewrite forallb_forall in Ha.
    specialize (Ha x3d). apply list_elem_of_In in Hin. by specialize (Ha Hin).
Qed.

Lemma length_prefixed_Ok too_large dom payload m :
  length_prefixed too_large dom payload = Ok m →
  m = dom ++ to_be_bytes (blen payload) ++ payload ∧ fits payload.
Proof.
  unfold length_prefixed. intros Hm. inv_ok Hm. destruct (Z.leb_spec (blen payload) U64_MAX); [|done].
  simplify_eq. split; [done|]. unfold fits, is_u64, blen in *. lia.
Qed.

Lemma length_prefixed_small too_large dom payload :
  (blen dom + blen payload ≤ 2 ^ 32)%Z →
  length_prefixed too_large dom payload = Ok (dom ++ to_be_bytes (blen payload) ++ payload).
Proof.
  intros Hs. unfold length_prefixed. unfold blen, U64_MAX in *.
  rewrite (proj2 (Z.leb_le _ _)) by lia. simpl.
  rewrite checked_add_u64_fits by (unfold U64_MAX; lia). simpl.
  by rewrite checked_add_u64_fits by (unfold U64_MAX; lia).
Qed.

(** The message determines the payload. *)
Lemma length_prefixed_inj too_large dom p p' m :
  length_prefixed too_large dom p = Ok m → length_prefixed too_large dom p' = Ok m → p = p'.
Proof.
  intros [-> Hf]%length_prefixed_Ok [Heq Hf']%length_prefixed_Ok. apply app_inv_head in Heq.
  fold (frame p) (frame p') in Heq. apply (f_equal (.++ [])) in Heq.
  by apply frame_app_inj in Heq as [-> _].
Qed.
End checks.

(** ** Sizes *)

Lemma identifier_spec s :
  identifier s = true ↔ s ≠ ""%string ∧ (len s ≤ MAX_ID_BYTES)%Z ∧ all_bytes identifier_byte s = true.
Proof.
  unfold identifier, is_empty. rewrite negb_true_iff, !orb_false_iff, negb_false_iff, bool_decide_eq_false.
  rewrite Z.ltb_ge. tauto.
Qed.

Lemma digest_text_spec s : digest_text s = true ↔ len s = 64%Z ∧ all_bytes lower_hex_byte s = true.
Proof.
  unfold digest_text. rewrite negb_true_iff, orb_false_iff, negb_false_iff, bool_decide_eq_false.
  split; intros [? ?]; split; try done; [by apply dec_stable|auto].
Qed.

Lemma safe_nonzero_spec n : safe_nonzero n = true ↔ (0 < n ≤ MAX_SAFE_JSON_INTEGER)%N.
Proof.
  unfold safe_nonzero. destruct (N.eqb_spec n 0), (N.ltb_spec MAX_SAFE_JSON_INTEGER n); simpl; split; try done; lia.
Qed.

Lemma all_bytes_impl (f g : byte → bool) s :
  (∀ b, f b = true → g b = true) → all_bytes f s = true → all_bytes g s = true.
Proof. unfold all_bytes. rewrite !forallb_forall. eauto. Qed.

(** Characters that JSON writes as they are. *)
Lemma ranges_plain b :
  (in_range 48 58 b || in_range 65 90 b || in_range 97 122 b || in_range 45 47 b || in_range 95 95 b) = true →
  plain b = true.
Proof. by destruct b. Qed.
Lemma identifier_byte_plain b : identifier_byte b = true → plain b = true.
Proof. by destruct b. Qed.
Lemma lower_hex_byte_plain b : lower_hex_byte b = true → plain b = true.
Proof. by destruct b. Qed.

Lemma device_text_len s : device_text s = true → len s = 27%Z.
Proof.
  unfold device_text. destruct (strip_prefix "KA-" s) as [t|] eqn:Ht; [|done].
  apply strip_prefix_Some in Ht as ->. intros Hd. guards. rewrite len_app. change (len "KA-") with 3%Z. lia.
Qed.

Lemma hex_string_digest d : length d = 32 → digest_text (hex_string d) = true.
Proof.
  intros Hd. apply digest_text_spec. split; [|apply hex_string_class].
  unfold len. by rewrite length_hex_string, Hd.
Qed.

Section sizes.
Context `{JsonString} `{laws : !JsonStringLaws}.

Lemma identifier_length s : identifier s = true → (blen (literal s) ≤ 162)%Z.
Proof using laws.
  intros (_ & Hl & Hb)%identifier_spec. rewrite literal_plain.
  - unfold MAX_ID_BYTES in Hl. lia.
  - eapply all_bytes_impl; [|exact Hb]. apply identifier_byte_plain.
Qed.

Lemma digest_length s : digest_text s = true → blen (literal s) = 66%Z.
Proof using laws.
  intros [Hl Hb]%digest_text_spec. rewrite literal_plain, Hl; [done|].
  eapply all_bytes_impl; [|exact Hb]. apply lower_hex_byte_plain.
Qed.

Lemma device_length s : device_text s = true → (blen (literal s) ≤ 164)%Z.
Proof using laws. intros Hs%device_text_len. pose proof (literal_length s). lia. Qed.

Lemma json_text_length o n :
  (4 ≤ n)%Z → from_option (λ s, (blen (literal s) ≤ n)%Z) True o → (blen (text (json_text o)) ≤ n)%Z.
Proof. by destruct o. Qed.

Lemma identifier_option_length o :
  from_option (λ s, identifier s = true) True o → (blen (text (json_text o)) ≤ 162)%Z.
Proof using laws. intros Ho. apply json_text_length; [done|]. destruct o; [|done]. by apply identifier_length. Qed.

Lemma digest_option_length o :
  from_option (λ s, digest_text s = true) True o → (blen (text (json_text o)) ≤ 66)%Z.
Proof using laws.
  intros Ho. apply json_text_length; [done|]. destruct o; [|done]. simpl in *. by rewrite digest_length.
Qed.

Lemma safe_length n : safe_nonzero n = true → (blen (text (json_u64 n)) ≤ 54)%Z.
Proof. intros [_ Hn]%safe_nonzero_spec. by apply decimal_safe_length. Qed.

Lemma safe_valid {E} `{JsonErrors E} n :
  safe_nonzero n = true → validate_json_value (E := E) (json_u64 n) = Ok tt.
Proof. intros [_ Hn]%safe_nonzero_spec. by apply validate_json_u64. Qed.

Lemma strings_length l n :
  Forall (λ s, (blen (literal s) ≤ n)%Z) l →
  (blen (text (Arr (map Str l))) ≤ 2 + Z.of_nat (length l) * (n + 1))%Z.
Proof. apply (array_length Str). Qed.

Lemma signature_length `{Base64UrlLaws} d : length d = 64 → (blen (literal (b64_encode d)) ≤ 518)%Z.
Proof using laws.
  intros Hd. etrans; [apply literal_length|]. rewrite b64_encode_length. unfold blen. by rewrite Hd.
Qed.

End sizes.

#[export] Hint Resolve safe_valid : kernaid.

(** The length of a literal that is given. *)
Ltac literal_lengths :=
  repeat match goal with |- context [blen (literal (String ?a ?s))] =>
    let n := eval vm_compute in (len (String a s) + 2)%Z in
    replace (blen (literal (String a s))) with n by (symmetry; apply literal_plain; reflexivity)
  end.

(** Well-formed and valid objects, up to their integers. *)
Ltac object_ok :=
  apply json_object_ok; repeat apply Forall_cons_2; try apply Forall_nil_2; cbv beta; cbn [snd];
  try first [ exact I | apply value_ok_json_text | by apply value_ok_array ].
Ltac object_valid :=
  apply validate_json_object; repeat apply Forall_cons_2; try apply Forall_nil_2; cbv beta; cbn [snd];
  try first [ reflexivity | apply validate_json_text | by apply validate_array ].

(** Objects with the same keys have the same fields. *)
Ltac object_inj H := apply json_object_inj in H; [|by apply (bool_decide_unpack _)|done|done].

(** Comparisons of unsigned integers as propositions. *)
Ltac n_guards :=
  guards;
  repeat match goal with
  | H : (_ <=? _)%N = true |- _ => apply N.leb_le in H
  | H : (_ <? _)%N = true |- _ => apply N.ltb_lt in H
  | H : (_ <=? _)%N = false |- _ => apply N.leb_gt in H
  | H : (_ <? _)%N = false |- _ => apply N.ltb_ge in H
  end.

(** ** Logs of accepted documents

    A checkpoint keeps the number and the digest of the newest document. It
    accepts a document with a higher number, or the same number and digest. *)
Section newest.
Context {V : Type} (number : V → N) (digest : V → string).

Record newest (log : list V) (w : V) : Prop := {
  newest_member : w ∈ log;
  newest_highest q : q ∈ log → (number q ≤ number w)%N;
  newest_sorted : StronglySorted (λ q q', (number q' ≤ number q)%N) log;
  newest_unique q q' : q ∈ log → q' ∈ log → number q = number q' → digest q = digest q';
}.

Lemma newest_first v : newest [v] v.
Proof.
  split; [by left| | |]; try (by repeat constructor).
  - intros q ->%list_elem_of_singleton. lia.
  - by intros q q' ->%list_elem_of_singleton ->%list_elem_of_singleton.
Qed.

Lemma newest_cons_sorted log w v :
  newest log w → (number w ≤ number v)%N → StronglySorted (λ q q', (number q' ≤ number q)%N) (v :: log).
Proof.
  intros [_ Hh Hs _] Hle. constructor; [done|]. apply Forall_forall. intros q Hq. specialize (Hh q Hq). lia.
Qed.

Lemma newest_replay log w v :
  newest log w → number v = number w → digest v = digest w → newest (v :: log) w.
Proof.
  intros Hn Hv Hd. split; [right; apply Hn| |eapply newest_cons_sorted; [done|lia]|].
  - intros q [->|Hq]%elem_of_cons; [lia|by apply Hn].
  - intros q q' [->|Hq]%elem_of_cons [->|Hq']%elem_of_cons Heq; try done.
    + rewrite Hd. eapply Hn; [apply Hn|done|congruence].
    + rewrite Hd. eapply Hn; [done|apply Hn|congruence].
    + by eapply Hn.
Qed.

Lemma newest_advance log w v : newest log w → (number w < number v)%N → newest (v :: log) v.
Proof.
  intros Hn Hv. split; [left| |eapply newest_cons_sorted; [done|lia]|].
  - intros q [->|Hq]%elem_of_cons; [lia|]. pose proof (newest_highest _ _ Hn q Hq). lia.
  - intros q q' [->|Hq]%elem_of_cons [->|Hq']%elem_of_cons Heq; try done; [..|by eapply Hn].
    + pose proof (newest_highest _ _ Hn q' Hq'). lia.
    + pose proof (newest_highest _ _ Hn q Hq). lia.
Qed.
End newest.
