(* ===== verification/ReportParser.v ===== *)
(** * The parser of signed report envelopes (crates/device-identity)

    [SignedReportEnvelope] is read by a parser of its own, so that customer
    text never passes through an ordinary buffer. The model keeps the parser's
    offsets into the text and its loops, which get fuel. A [&str] is the list
    of its bytes; indexing by range fails off a character boundary as in Rust.

    [ReportGrammar] gives a grammar of the envelopes it reads, [ReportDocument]
    the theorems about it. *)

From Stdlib.Strings Require Import Byte.
From Stdlib Require String Ascii.
From S2P Require Import Prelude Bytes.

(** ** Results of a parser with fuel *)

(** [Some], [None], and a loop that ran out of fuel. *)
Inductive parsed (A : Type) : Type :=
| Parsed (a : A)
| Rejected
| Exhausted.
Arguments Parsed {A} a.
Arguments Rejected {A}.
Arguments Exhausted {A}.

#[export] Instance parsed_ret : MRet parsed := λ A a, Parsed a.
#[export] Instance parsed_bind : MBind parsed := λ A B f m,
  match m with Parsed a => f a | Rejected => Rejected | Exhausted => Exhausted end.

(** [o?] in a function that returns an [Option]. *)
Definition require {A} (o : option A) : parsed A :=
  match o with Some a => Parsed a | None => Rejected end.

(** [if c { return None; }]. *)
Definition refuse (c : bool) : parsed () := if c then Rejected else Parsed tt.

(** ** UTF-8 text *)

Definition is_continuation (b : byte) : bool := in_range 128 191 b.
Definition is_ascii (b : byte) : bool := in_range 0 127 b.

(** [str::is_char_boundary] and [str::get(a..b)]. *)
Definition is_char_boundary (s : bytes) (i : nat) : bool :=
  (i =? 0) || (i =? length s)
  || match s !! i with Some b => negb (is_continuation b) | None => false end.
Definition str_get (s : bytes) (a b : nat) : option bytes :=
  if (a <=? b) && is_char_boundary s a && is_char_boundary s b
  then Some (take (b - a) (drop a s)) else None.

(** [<[u8]>::get(a..b)]. *)
Definition slice_get (s : bytes) (a b : nat) : option bytes :=
  if (a <=? b) && (b <=? length s) then Some (take (b - a) (drop a s)) else None.

(** The width of the character that a leading byte starts, and
    [s.chars().next()] as the bytes of the character. *)
Definition utf8_width (b : byte) : nat :=
  if (byte_val b <? 128)%Z then 1
  else if (byte_val b <? 224)%Z then 2
  else if (byte_val b <? 240)%Z then 3
  else 4.
Definition chars_next (s : bytes) : option bytes :=
  match s with
  | [] => None
  | b :: _ => Some (take (utf8_width b) s)
  end.

(** [char::from_u32], and the bytes [String::push] appends. *)
Definition char_from_u32 (z : Z) : option Z :=
  if ((55296 <=? z) && (z <=? 57343))%Z || (1114111 <? z)%Z then None else Some z.
Definition encode_utf8 (z : Z) : bytes :=
  if (z <? 128)%Z then [byte_of_Z z]
  else if (z <? 2048)%Z then [byte_of_Z (192 + z / 64); byte_of_Z (128 + z mod 64)]
  else if (z <? 65536)%Z then
    [byte_of_Z (224 + z / 4096); byte_of_Z (128 + (z / 64) mod 64); byte_of_Z (128 + z mod 64)]
  else
    [byte_of_Z (240 + z / 262144); byte_of_Z (128 + (z / 4096) mod 64);
     byte_of_Z (128 + (z / 64) mod 64); byte_of_Z (128 + z mod 64)].

(** [usize::checked_add]. *)
Definition checked_add_usize (a b : nat) : option nat :=
  if (Z.of_nat (a + b) <=? U64_MAX)%Z then Some (a + b) else None.

(** [u64::from_str]. *)
Definition dec_value (l : bytes) : Z := fold_left (λ acc b, acc * 10 + (byte_val b - 48))%Z l 0%Z.
Definition u64_from_digits (l : bytes) : option Z :=
  if negb (bool_decide (l = [])) && forallb is_ascii_digit l && (dec_value l <=? U64_MAX)%Z
  then Some (dec_value l) else None.
Definition u64_from_str (l : bytes) : option Z :=
  match l with
  | x2b :: l' => u64_from_digits l'
  | _ => u64_from_digits l
  end.

Definition of_bytes (l : bytes) : string := String.string_of_list_byte l.

(** ** Data *)

Record SignedReportEnvelope := mkSignedReportEnvelope {
  schema : string;
  kind : string;
  algorithm : string;
  device_id : string;
  journal_sequence : Z;
  journal_entry_hash : string;
  payload_media_type : string;
  payload_sha256 : string;
  payload : string;
  public_key : string;
  signature : string;
}.

#[export] Instance SignedReportEnvelope_eq_dec : EqDecision SignedReportEnvelope.
Proof. solve_decision. Defined.

Record SignedReportEnvelopeFields := mkFields {
  f_schema : option string;
  f_kind : option string;
  f_algorithm : option string;
  f_device_id : option string;
  f_journal_sequence : option Z;
  f_journal_entry_hash : option string;
  f_payload_media_type : option string;
  f_payload_sha256 : option string;
  f_payload : option string;
  f_public_key : option string;
  f_signature : option string;
}.

Definition no_fields : SignedReportEnvelopeFields :=
  mkFields None None None None None None None None None None None.

Definition finish (f : SignedReportEnvelopeFields) : option SignedReportEnvelope :=
  schema ← f.(f_schema);
  kind ← f.(f_kind);
  algorithm ← f.(f_algorithm);
  device_id ← f.(f_device_id);
  journal_sequence ← f.(f_journal_sequence);
  journal_entry_hash ← f.(f_journal_entry_hash);
  payload_media_type ← f.(f_payload_media_type);
  payload_sha256 ← f.(f_payload_sha256);
  payload ← f.(f_payload);
  public_key ← f.(f_public_key);
  signature ← f.(f_signature);
  Some (mkSignedReportEnvelope schema kind algorithm device_id journal_sequence
    journal_entry_hash payload_media_type payload_sha256 payload public_key signature).

(** ** Decoding a string literal *)

Definition hex_quad_digit (b : byte) : option Z :=
  if is_ascii_digit b then Some (byte_val b - 48)%Z
  else if in_range 97 102 b then Some (byte_val b - 97 + 10)%Z
  else if in_range 65 70 b then Some (byte_val b - 65 + 10)%Z
  else None.

(** [(value << 4) | digit] on [u16]. *)
Definition push_nibble (value digit : Z) : Z := Z.lor (Z.shiftl value 4 mod 2 ^ 16) digit.

Fixpoint fold_hex (value : Z) (l : bytes) : option Z :=
  match l with
  | [] => Some value
  | b :: l => digit ← hex_quad_digit b; fold_hex (push_nibble value digit) l
  end.

Definition decode_hex_quad (s : bytes) (offset : nat) : option (Z * nat) :=
  stop ← checked_add_usize offset 4;
  quad ← slice_get s offset stop;
  value ← fold_hex 0 quad;
  Some (value, stop).

Definition is_high_surrogate (z : Z) : bool := ((55296 <=? z) && (z <=? 56319))%Z.
Definition is_low_surrogate (z : Z) : bool := ((56320 <=? z) && (z <=? 57343))%Z.

Definition decode_json_codepoint (s : bytes) (offset : nat) : option (Z * nat) :=
  '(first, next_offset) ← decode_hex_quad s offset;
  '(scalar, next_offset) ←
    (if is_high_surrogate first then
       stop ← checked_add_usize next_offset 2;
       mark ← slice_get s next_offset stop;
       if mark != [x5c; x75] then None
       else
         '(second, stop) ← decode_hex_quad s (next_offset + 2);
         if negb (is_low_surrogate second) then None
         else Some (65536 + Z.shiftl (first - 55296) 10 + (second - 56320), stop)%Z
     else if is_low_surrogate first then None
     else Some (first, next_offset));
  character ← char_from_u32 scalar;
  Some (character, next_offset).

(** The escapes other than [\u]. *)
Definition simple_escape (b : byte) : option byte :=
  match b with
  | x22 => Some x22
  | x5c => Some x5c
  | x2f => Some x2f
  | x62 => Some x08
  | x66 => Some x0c
  | x6e => Some x0a
  | x72 => Some x0d
  | x74 => Some x09
  | _ => None
  end.

Fixpoint decode_loop (fuel : nat) (s : bytes) (offset : nat) (decoded : bytes) : parsed bytes :=
  match s !! offset with
  | None => Parsed decoded
  | Some b =>
      match fuel with
      | O => Exhausted
      | S fuel =>
          if in_range 0 31 b then Rejected
          else if b == x5c then
            escaped ← require (s !! S offset);
            if escaped == x75 then
              '(codepoint, next_offset) ← require (decode_json_codepoint s (S (S offset)));
              decode_loop fuel s next_offset (decoded ++ encode_utf8 codepoint)
            else
              c ← require (simple_escape escaped);
              decode_loop fuel s (S (S offset)) (decoded ++ [c])
          else if is_ascii b then decode_loop fuel s (S offset) (decoded ++ [b])
          else
            rest ← require (str_get s offset (length s));
            character ← require (chars_next rest);
            decode_loop fuel s (offset + length character) (decoded ++ character)
      end
  end.

Definition decode_json_string (s : bytes) : parsed bytes := decode_loop (length s) s 0 [].

(** ** The parser *)

Section parser.
Context (fuel : nat) (raw : bytes).

Definition peek_byte (offset : nat) : option byte := raw !! offset.

Definition consume_byte (expected : byte) (offset : nat) : parsed nat :=
  b ← require (peek_byte offset);
  _ ← refuse (b != expected);
  Parsed (S offset).

Definition is_whitespace (b : byte) : bool :=
  (b == x20) || (b == x09) || (b == x0d) || (b == x0a).

Fixpoint skip_loop (p : byte → bool) (fuel : nat) (offset : nat) : parsed nat :=
  match peek_byte offset with
  | Some b =>
      if p b then match fuel with O => Exhausted | S fuel => skip_loop p fuel (S offset) end
      else Parsed offset
  | None => Parsed offset
  end.

Definition skip_whitespace (offset : nat) : parsed nat := skip_loop is_whitespace fuel offset.

Fixpoint scan_string (fuel : nat) (start offset : nat) : parsed (string * nat) :=
  match fuel with
  | O => Exhausted
  | S fuel =>
      b ← require (peek_byte offset);
      if b == x22 then
        text ← require (str_get raw start offset);
        decoded ← decode_json_string text;
        Parsed (of_bytes decoded, S offset)
      else if b == x5c then
        escaped ← require (peek_byte (S offset));
        if escaped == x75 then
          stop ← require (checked_add_usize (S (S offset)) 4);
          _ ← require (slice_get raw (S (S offset)) stop);
          scan_string fuel start stop
        else scan_string fuel start (S (S offset))
      else if in_range 0 31 b then Rejected
      else if is_ascii b then scan_string fuel start (S offset)
      else
        rest ← require (str_get raw offset (length raw));
        character ← require (chars_next rest);
        scan_string fuel start (offset + length character)
  end.

Definition parse_string (offset : nat) : parsed (string * nat) :=
  start ← consume_byte x22 offset;
  scan_string fuel start start.

Definition parse_u64 (offset : nat) : parsed (Z * nat) :=
  b ← require (peek_byte offset);
  stop ← (if b == x30 then Parsed (S offset)
          else if in_range 49 57 b then skip_loop is_ascii_digit fuel (S offset)
          else Rejected);
  digits ← require (str_get raw offset stop);
  value ← require (u64_from_str digits);
  Parsed (value, stop).

Definition parse_string_field (offset : nat) (field : option string) : parsed (string * nat) :=
  _ ← refuse (bool_decide (is_Some field));
  parse_string offset.

(** One [key: value] of the object, after the colon. *)
Definition parse_field (key : string) (f : SignedReportEnvelopeFields) (offset : nat) :
    parsed (SignedReportEnvelopeFields * nat) :=
  let '(mkFields sc ki al de se en me sh pa pu si) := f in
  if key == "schema"%string then
    '(s, o) ← parse_string_field offset sc; Parsed (mkFields (Some s) ki al de se en me sh pa pu si, o)
  else if key == "kind"%string then
    '(s, o) ← parse_string_field offset ki; Parsed (mkFields sc (Some s) al de se en me sh pa pu si, o)
  else if key == "algorithm"%string then
    '(s, o) ← parse_string_field offset al; Parsed (mkFields sc ki (Some s) de se en me sh pa pu si, o)
  else if key == "deviceId"%string then
    '(s, o) ← parse_string_field offset de; Parsed (mkFields sc ki al (Some s) se en me sh pa pu si, o)
  else if key == "journalSequence"%string then
    _ ← refuse (bool_decide (is_Some se));
    '(z, o) ← parse_u64 offset; Parsed (mkFields sc ki al de (Some z) en me sh pa pu si, o)
  else if key == "journalEntryHash"%string then
    '(s, o) ← parse_string_field offset en; Parsed (mkFields sc ki al de se (Some s) me sh pa pu si, o)
  else if key == "payloadMediaType"%string then
    '(s, o) ← parse_string_field offset me; Parsed (mkFields sc ki al de se en (Some s) sh pa pu si, o)
  else if key == "payloadSha256"%string then
    '(s, o) ← parse_string_field offset sh; Parsed (mkFields sc ki al de se en me (Some s) pa pu si, o)
  else if key == "payload"%string then
    '(s, o) ← parse_string_field offset pa; Parsed (mkFields sc ki al de se en me sh (Some s) pu si, o)
  else if key == "publicKey"%string then
    '(s, o) ← parse_string_field offset pu; Parsed (mkFields sc ki al de se en me sh pa (Some s) si, o)
  else if key == "signature"%string then
    '(s, o) ← parse_string_field offset si; Parsed (mkFields sc ki al de se en me sh pa pu (Some s), o)
  else Rejected.

Fixpoint parse_members (n : nat) (f : SignedReportEnvelopeFields) (offset : nat) :
    parsed (SignedReportEnvelopeFields * nat) :=
  match n with
  | O => Exhausted
  | S n =>
      o ← skip_whitespace offset;
      '(key, o) ← parse_string o;
      o ← skip_whitespace o;
      o ← consume_byte x3a o;
      o ← skip_whitespace o;
      '(f, o) ← parse_field key f o;
      o ← skip_whitespace o;
      b ← require (peek_byte o);
      if b == x7d then Parsed (f, S o)
      else if b == x2c then parse_members n f (S o)
      else Rejected
  end.

Definition parse : parsed SignedReportEnvelope :=
  o ← skip_whitespace 0;
  o ← consume_byte x7b o;
  o ← skip_whitespace o;
  '(f, o) ← (if bool_decide (peek_byte o = Some x7d) then Parsed (no_fields, S o)
             else parse_members fuel no_fields o);
  o ← skip_whitespace o;
  _ ← refuse (negb (o =? length raw));
  require (finish f).

End parser.

(** The parser with the fuel of its text. *)
Definition parse_envelope (raw : bytes) : parsed SignedReportEnvelope := parse (S (length raw)) raw.
