(* ===== verification/ReportGrammar.v ===== *)
(** * What the report envelope parser accepts

    A grammar of report envelopes as inductive relations, and the lemmas that
    relate the parts of the parser of [ReportParser] to it. *)

From Stdlib.Strings Require Import Byte.
From Stdlib Require String Ascii.
From S2P Require Import Prelude Bytes ReportParser.

(** ** Inversion of parser code *)

Lemma parsed_bind_Parsed {A B} (m : parsed A) (f : A → parsed B) b :
  m ≫= f = Parsed b ↔ ∃ a, m = Parsed a ∧ f a = Parsed b.
Proof. destruct m; naive_solver. Qed.

Lemma parsed_bind_Exhausted {A B} (m : parsed A) (f : A → parsed B) :
  m ≫= f = Exhausted ↔ m = Exhausted ∨ ∃ a, m = Parsed a ∧ f a = Exhausted.
Proof. destruct m; naive_solver. Qed.

Lemma require_Parsed {A} (o : option A) a : require o = Parsed a ↔ o = Some a.
Proof. destruct o; naive_solver. Qed.

Lemma refuse_Parsed c u : refuse c = Parsed u ↔ c = false.
Proof. destruct c, u; naive_solver. Qed.

(** Inverts [_ = Parsed _] about parser code, one statement at a time. *)
Ltac inv_parsed H :=
  repeat lazymatch type of H with
  | mbind _ _ = Parsed _ =>
      let a := fresh "v" in let C := fresh "Hstep" in
      apply parsed_bind_Parsed in H as (a & C & H); cbv beta in H;
      try (apply require_Parsed in C); try (apply refuse_Parsed in C);
      match type of a with (_ * _)%type => destruct a as [? ?] | _ => idtac end
  | Parsed _ = Parsed _ => injection H as H; subst
  | Rejected = Parsed _ => discriminate H
  | Exhausted = Parsed _ => discriminate H
  | require _ = Parsed _ => apply require_Parsed in H
  | refuse _ = Parsed _ => apply refuse_Parsed in H
  | (if ?c then _ else _) = Parsed _ => destruct c eqn:?
  end.

(** Shows that parser code is not exhausted when none of its steps is. *)
Ltac inv_exhausted H :=
  repeat lazymatch type of H with
  | mbind _ (require ?o) = Exhausted =>
      let E := fresh "Hstep" in destruct o eqn:E; [|discriminate H]; cbn [require mbind parsed_bind] in H
  | mbind _ (refuse ?c) = Exhausted =>
      let E := fresh "Hstep" in destruct c eqn:E; [discriminate H|]; cbn [refuse mbind parsed_bind] in H
  | mbind _ _ = Exhausted =>
      let a := fresh "v" in let C := fresh "Hstep" in
      apply parsed_bind_Exhausted in H as [H|(a & C & H)];
      [|match type of a with (_ * _)%type => destruct a as [? ?] | _ => idtac end]
  | require ?o = Exhausted => destruct o; discriminate H
  | refuse ?o = Exhausted => destruct o; discriminate H
  | Parsed _ = Exhausted => discriminate H
  | Rejected = Exhausted => discriminate H
  | (if ?c then _ else _) = Exhausted => destruct c eqn:?
  end.

(** ** Offsets *)

Lemma slice_get_Some s a b x :
  slice_get s a b = Some x ↔ a ≤ b ≤ length s ∧ x = take (b - a) (drop a s).
Proof.
  unfold slice_get. destruct (Nat.leb_spec a b), (Nat.leb_spec b (length s)); simpl; naive_solver lia.
Qed.

Lemma is_char_boundary_le s i : is_char_boundary s i = true → i ≤ length s.
Proof.
  unfold is_char_boundary. destruct (Nat.eqb_spec i 0), (Nat.eqb_spec i (length s)); try lia.
  destruct (s !! i) eqn:E; [|done]. apply lookup_lt_Some in E. lia.
Qed.

Lemma str_get_Some s a b x :
  str_get s a b = Some x ↔
    a ≤ b ≤ length s ∧ is_char_boundary s a = true ∧ is_char_boundary s b = true ∧
    x = take (b - a) (drop a s).
Proof.
  unfold str_get. pose proof (is_char_boundary_le s b).
  destruct (Nat.leb_spec a b), (is_char_boundary s a), (is_char_boundary s b); simpl;
    naive_solver lia.
Qed.

Lemma str_get_to_end s a x : str_get s a (length s) = Some x → x = drop a s.
Proof. intros (_ & _ & _ & ->)%str_get_Some. apply take_ge. rewrite length_drop. lia. Qed.

Lemma chars_next_Some s c : chars_next s = Some c → 1 ≤ length c ≤ length s ∧ c = take (length c) s.
Proof.
  destruct s as [|b s]; [done|]. cbn [chars_next]. intros [= <-].
  assert (1 ≤ utf8_width b) by (unfold utf8_width; repeat case_match; lia).
  rewrite length_take. split; [simpl; lia|]. destruct (Nat.le_ge_cases (utf8_width b) (length (b :: s))).
  - by rewrite Nat.min_l.
  - rewrite Nat.min_r, !take_ge by lia. done.
Qed.

(** A step over a character stays within the text. *)
Lemma char_step s o x c :
  s !! o = Some x → str_get s o (length s) ≫= chars_next = Some c →
  o < o + length c ≤ length s.
Proof.
  intros Ho (r & Hr & Hc)%bind_Some. apply str_get_to_end in Hr as ->.
  apply chars_next_Some in Hc as [Hc _]. rewrite length_drop in Hc.
  apply lookup_lt_Some in Ho. lia.
Qed.

(** Applies [char_step] to a step of a loop. *)
Ltac walk :=
  match goal with
  | Ho : ?s !! ?o = Some ?x, Hr : str_get ?s ?o (length ?s) = Some ?r, Hc : chars_next ?r = Some ?c |- _ =>
      pose proof (char_step s o x c Ho ltac:(rewrite Hr; exact Hc))
  | Ho : peek_byte ?s ?o = Some ?x, Hr : str_get ?s ?o (length ?s) = Some ?r, Hc : chars_next ?r = Some ?c |- _ =>
      pose proof (char_step s o x c Ho ltac:(rewrite Hr; exact Hc))
  end.

Lemma decode_hex_quad_step s o z o' : decode_hex_quad s o = Some (z, o') → o' = o + 4 ∧ o' ≤ length s.
Proof.
  unfold decode_hex_quad, checked_add_usize. destruct (Z.of_nat (o + 4) <=? U64_MAX)%Z; simpl; [|done].
  destruct (slice_get s o (o + 4)) eqn:E; simpl; [|done]. apply slice_get_Some in E as [? _].
  destruct (fold_hex 0 _); naive_solver lia.
Qed.

Lemma decode_json_codepoint_step s o z o' :
  decode_json_codepoint s o = Some (z, o') → o + 4 ≤ o' ≤ length s.
Proof.
  unfold decode_json_codepoint. intros ([first o1] & H1 & H)%bind_Some.
  apply decode_hex_quad_step in H1 as [-> ?].
  apply bind_Some in H as ([scalar o2] & H2 & H). apply bind_Some in H as (c & _ & [= <- <-]).
  destruct (is_high_surrogate first); [|destruct (is_low_surrogate first); naive_solver lia].
  apply bind_Some in H2 as (? & _ & H2). apply bind_Some in H2 as (? & _ & H2).
  case_bool_decide; [done|]. apply bind_Some in H2 as ([second o3] & H3 & H2).
  apply decode_hex_quad_step in H3 as [-> ?]. destruct (negb _); naive_solver lia.
Qed.

(** ** Termination *)

Lemma decode_loop_total n s o d : length s - o ≤ n → decode_loop n s o d ≠ Exhausted.
Proof.
  revert o d. induction n as [|n IH]; intros o d Hn Hd; cbn [decode_loop] in Hd;
    destruct (s !! o) as [b|] eqn:Ho; try done; pose proof (lookup_lt_Some _ _ _ Ho).
  - lia.
  - inv_exhausted Hd; try (eapply IH; [|exact Hd]; lia).
    + destruct p as [z o']. inv_exhausted Hd. apply decode_json_codepoint_step in Hstep0.
      eapply IH; [|exact Hd]; lia.
    + walk. eapply IH; [|exact Hd]; lia.
Qed.

Lemma decode_json_string_total s : decode_json_string s ≠ Exhausted.
Proof. apply decode_loop_total. lia. Qed.

Section progress.
Context (fuel : nat) (raw : bytes).

Lemma skip_loop_progress p n o o' : skip_loop raw p n o = Parsed o' → o ≤ o'.
Proof.
  revert o. induction n as [|n IH]; intros o; cbn [skip_loop];
    destruct (peek_byte raw o) as [b|]; try (destruct (p b)); intros H; simplify_eq; try lia.
  apply IH in H. lia.
Qed.

Lemma skip_loop_total p n o : length raw - o ≤ n → skip_loop raw p n o ≠ Exhausted.
Proof.
  revert o. induction n as [|n IH]; intros o Hn; cbn [skip_loop];
    destruct (peek_byte raw o) as [b|] eqn:Ho; try (destruct (p b)); try done;
    apply lookup_lt_Some in Ho; [lia|]. apply IH. lia.
Qed.

Lemma scan_string_progress n start o s o' : scan_string raw n start o = Parsed (s, o') → o < o' ≤ length raw.
Proof.
  revert o. induction n as [|n IH]; intros o H; cbn [scan_string] in H; [done|].
  inv_parsed H; pose proof (lookup_lt_Some _ _ _ Hstep); try (apply IH in H; lia).
  - lia.
  - apply slice_get_Some in Hstep2 as [? _]. apply IH in H. lia.
Qed.

Lemma scan_string_total n start o : length raw - o < n → scan_string raw n start o ≠ Exhausted.
Proof.
  revert o. induction n as [|n IH]; intros o Hn H; cbn [scan_string] in H; [lia|].
  inv_exhausted H; try (by eapply decode_json_string_total);
    pose proof (lookup_lt_Some _ _ _ Hstep).
  - apply slice_get_Some in Hstep2 as [? _]. apply lookup_lt_Some in Hstep0.
    eapply IH; [|exact H]. lia.
  - eapply IH; [|exact H]. lia.
  - eapply IH; [|exact H]. lia.
  - walk. eapply IH; [|exact H]. lia.
Qed.

Lemma consume_byte_Parsed b o o' : consume_byte raw b o = Parsed o' ↔ raw !! o = Some b ∧ o' = S o.
Proof.
  unfold consume_byte, peek_byte. split.
  - intros H. inv_parsed H. guards. by subst.
  - intros [-> ->]. simpl. by rewrite bool_decide_false by auto.
Qed.

Lemma parse_string_progress o s o' : parse_string fuel raw o = Parsed (s, o') → o < o' ≤ length raw.
Proof.
  unfold parse_string. intros (o1 & H1 & H)%parsed_bind_Parsed.
  apply consume_byte_Parsed in H1 as [_ ->]. apply scan_string_progress in H. lia.
Qed.

Lemma parse_u64_progress o z o' : parse_u64 fuel raw o = Parsed (z, o') → o ≤ o'.
Proof. unfold parse_u64. intros H. inv_parsed H; simplify_eq; apply str_get_Some in Hstep1; lia. Qed.

Lemma parse_field_progress k f o f' o' : parse_field fuel raw k f o = Parsed (f', o') → o ≤ o'.
Proof.
  unfold parse_field, parse_string_field. destruct f. intros H.
  inv_parsed H; try (apply parse_u64_progress in Hstep0);
    repeat match goal with HS : mbind _ _ = Parsed _ |- _ => inv_parsed HS end;
    repeat match goal with HS : parse_string _ _ _ = Parsed _ |- _ => apply parse_string_progress in HS end;
    lia.
Qed.

Context (Hfuel : length raw < fuel).

Lemma skip_whitespace_total o : skip_whitespace fuel raw o ≠ Exhausted.
Proof using Hfuel. apply skip_loop_total. lia. Qed.

Lemma consume_byte_total b o : consume_byte raw b o ≠ Exhausted.
Proof. unfold consume_byte. intros H. inv_exhausted H. Qed.

Lemma parse_string_total o : parse_string fuel raw o ≠ Exhausted.
Proof using Hfuel.
  unfold parse_string. intros H. inv_exhausted H; [by eapply consume_byte_total|].
  eapply scan_string_total; [|exact H]. lia.
Qed.

Lemma parse_u64_total o : parse_u64 fuel raw o ≠ Exhausted.
Proof using Hfuel.
  unfold parse_u64. intros H. inv_exhausted H. eapply skip_loop_total; [|exact H]. lia.
Qed.

Lemma parse_field_total k f o : parse_field fuel raw k f o ≠ Exhausted.
Proof using Hfuel.
  unfold parse_field, parse_string_field. destruct f. intros H.
  inv_exhausted H; first [by eapply parse_string_total | by eapply parse_u64_total | done].
Qed.

Lemma parse_members_total n f o : length raw - o < n → parse_members fuel raw n f o ≠ Exhausted.
Proof using Hfuel.
  revert f o. induction n as [|n IH]; intros f o Hn H; cbn [parse_members] in H; [lia|].
  inv_exhausted H; try (by eapply skip_whitespace_total); try (by eapply parse_string_total);
    try (by eapply consume_byte_total); try (by eapply parse_field_total).
  apply parse_string_progress in Hstep0. apply parse_field_progress in Hstep4.
  apply skip_loop_progress in Hstep, Hstep1, Hstep3, Hstep5. apply consume_byte_Parsed in Hstep2 as [_ ->].
  eapply IH; [|exact H]. lia.
Qed.

Lemma parse_total : parse fuel raw ≠ Exhausted.
Proof using Hfuel.
  unfold parse. intros H. inv_exhausted H; try (by eapply skip_whitespace_total);
    try (by eapply consume_byte_total).
  eapply parse_members_total; [|exact H]. lia.
Qed.
End progress.

(** ** Decoding never grows a string *)

Lemma encode_utf8_length z : length (encode_utf8 z) ≤ 4.
Proof. unfold encode_utf8. repeat case_match; simpl; lia. Qed.

Lemma decode_loop_length n s o d out :
  decode_loop n s o d = Parsed out → o ≤ length s → length out + o ≤ length d + length s.
Proof.
  revert o d. induction n as [|n IH]; intros o d H Hle; cbn [decode_loop] in H;
    destruct (s !! o) as [b|] eqn:Ho; simplify_eq; try lia;
    pose proof (lookup_lt_Some _ _ _ Ho).
  inv_parsed H; try walk.
  - apply decode_json_codepoint_step in Hstep0. pose proof (encode_utf8_length z).
    apply IH in H; [|lia]. rewrite length_app in H. lia.
  - apply lookup_lt_Some in Hstep. apply IH in H; [|lia]. rewrite length_app in H. simpl in H. lia.
  - apply IH in H; [|lia]. rewrite length_app in H. simpl in H. lia.
  - apply IH in H; [|lia]. rewrite length_app in H. lia.
Qed.

(** ** UTF-8 texts *)

(** A character: a leading byte and the continuation bytes it announces. *)
Definition utf8_char (c : bytes) : Prop :=
  match c with
  | [] => False
  | b :: t => is_continuation b = false ∧ length c = utf8_width b ∧ Forall (λ x, is_continuation x = true) t
  end.

Inductive utf8_text : bytes → Prop :=
| utf8_nil : utf8_text []
| utf8_app c s : utf8_char c → utf8_text s → utf8_text (c ++ s).

Lemma ascii_not_continuation b : is_ascii b = true → is_continuation b = false.
Proof. unfold is_ascii, is_continuation, in_range. lia. Qed.

Lemma ascii_char b : is_ascii b = true → utf8_char [b].
Proof.
  intros Hb. simpl. split; [by apply ascii_not_continuation|]. split; [|constructor].
  unfold utf8_width. unfold is_ascii, in_range in Hb. destruct (Z.ltb_spec (byte_val b) 128); [done|lia].
Qed.

Lemma ascii_text s : forallb is_ascii s = true → utf8_text s.
Proof.
  induction s as [|b s IH]; [constructor|]. simpl. intros [Hb Hs]%andb_true_iff.
  apply (utf8_app [b]); [by apply ascii_char|by apply IH].
Qed.

Lemma utf8_text_app s t : utf8_text s → utf8_text t → utf8_text (s ++ t).
Proof. intros Hs Ht. induction Hs; [done|]. rewrite <-app_assoc. by constructor. Qed.

Lemma utf8_char_pos c : utf8_char c → 1 ≤ length c.
Proof. destruct c; simpl; [done|lia]. Qed.

(** Inside a character there is no boundary. *)
Lemma no_boundary_inside c s o :
  utf8_char c → 0 < o < length c → is_char_boundary (c ++ s) o = false.
Proof.
  intros Hc Ho. unfold is_char_boundary. rewrite length_app.
  destruct (Nat.eqb_spec o 0), (Nat.eqb_spec o (length c + length s)); try lia. simpl.
  rewrite lookup_app_l by lia. destruct c as [|b c]; [done|]. destruct Hc as (_ & _ & Hc).
  destruct o as [|o]; [lia|]. simpl in *.
  destruct (c !! o) as [x|] eqn:Hx; [|done]. rewrite Forall_lookup in Hc. by rewrite (Hc _ _ Hx).
Qed.

Lemma boundary_app_r c s o :
  is_char_boundary (c ++ s) (length c + o) = true → is_char_boundary s o = true.
Proof.
  unfold is_char_boundary. rewrite length_app, lookup_app_r by lia.
  replace (length c + o - length c) with o by lia.
  destruct (Nat.eqb_spec o 0), (Nat.eqb_spec o (length s)),
    (Nat.eqb_spec (length c + o) 0), (Nat.eqb_spec (length c + o) (length c + length s)); simpl; try done; lia.
Qed.

Lemma utf8_text_split s o :
  utf8_text s → is_char_boundary s o = true → utf8_text (take o s) ∧ utf8_text (drop o s).
Proof.
  intros Hs. revert o. induction Hs as [|c s Hc Hs IH]; intros o Ho.
  - rewrite take_nil, drop_nil. by split; constructor.
  - destruct (decide (o = 0)) as [->|]; [split; [constructor|by constructor]|].
    destruct (Nat.lt_ge_cases o (length c)).
    + by rewrite no_boundary_inside in Ho by (done || lia).
    + replace o with (length c + (o - length c)) in Ho |- * by lia.
      apply boundary_app_r in Ho. apply IH in Ho as [Ht Hd].
      rewrite take_app_add, drop_app_add. split; [by constructor|done].
Qed.

Lemma boundary_app s t : utf8_text s → utf8_text t → is_char_boundary (s ++ t) (length s) = true.
Proof.
  intros _ Ht. unfold is_char_boundary. rewrite length_app, lookup_app_r, Nat.sub_diag by lia.
  destruct Ht as [|c t Hc Ht]; [rewrite Nat.add_0_r, Nat.eqb_refl; by destruct (_ =? 0)|].
  destruct c as [|b c]; [done|]. destruct Hc as (Hb & _). simpl. rewrite Hb. by rewrite !orb_true_r.
Qed.

Lemma utf8_text_str_get s a b x : utf8_text s → str_get s a b = Some x → utf8_text x.
Proof.
  intros Hs (Hab & Ha & Hb & ->)%str_get_Some.
  assert (drop a s = drop a (take b s ++ drop b s)) as -> by by rewrite take_drop.
  rewrite drop_app_le by (rewrite length_take; lia).
  rewrite take_app_length' by (rewrite length_drop, length_take; lia).
  destruct (utf8_text_split _ _ Hs Hb) as [Htb _]. eapply (utf8_text_split _ a) in Htb as [_ Hd]; [done|].
  unfold is_char_boundary in *. rewrite length_take, Nat.min_l by lia.
  destruct (Nat.eqb_spec a 0); [done|]. destruct (Nat.eqb_spec a b); [by rewrite orb_true_r|].
  destruct (Nat.eqb_spec a (length s)); [lia|]. simpl in *. by rewrite lookup_take_lt by lia.
Qed.

(** The character at a non-ASCII byte of a text. *)
Lemma utf8_next s b t :
  utf8_text s → s = b :: t → is_ascii b = false →
  ∃ c s', s = c ++ s' ∧ utf8_char c ∧ 2 ≤ length c ∧ chars_next s = Some c ∧ utf8_text s'.
Proof.
  intros Hs -> Hb. inversion Hs as [|c s' Hc Hs' Heq]. exists c, s'. split; [done|].
  destruct c as [|b' c]; [done|]. simpl in Heq. injection Heq as -> <-.
  pose proof Hc as (Hcont & Hw & _). split_and!; [done| | |done].
  - rewrite Hw. unfold utf8_width, is_ascii, in_range in *. pose proof (byte_val_range b).
    repeat case_match; lia.
  - change (Some (take (utf8_width b) ((b :: c) ++ s')) = Some (b :: c)).
    by rewrite <-Hw, take_app_length.
Qed.

(** ** Grammar of string literals *)

(** Four hexadecimal digits and their value. *)
Definition hex4 (q : bytes) (z : Z) : Prop :=
  ∃ a b c d, mapM hex_quad_digit q = Some [a; b; c; d] ∧ z = (((a * 16 + b) * 16 + c) * 16 + d)%Z.

(** One character of a literal and the bytes it stands for. [quotes] says
    whether a bare quotation mark counts as a character. *)
Inductive string_item (quotes : bool) : bytes → bytes → Prop :=
| item_ascii b :
    in_range 32 127 b = true → b ≠ x5c → (b = x22 → quotes = true) → string_item quotes [b] [b]
| item_char c : utf8_char c → 2 ≤ length c → string_item quotes c c
| item_escape e d : simple_escape e = Some d → string_item quotes [x5c; e] [d]
| item_unicode q z :
    hex4 q z → ¬ (55296 ≤ z ≤ 57343)%Z → string_item quotes (x5c :: x75 :: q) (encode_utf8 z)
| item_pair q q' hi lo :
    hex4 q hi → hex4 q' lo → (55296 ≤ hi ≤ 56319)%Z → (56320 ≤ lo ≤ 57343)%Z →
    string_item quotes (x5c :: x75 :: q ++ x5c :: x75 :: q')
      (encode_utf8 (65536 + (hi - 55296) * 1024 + (lo - 56320))).

Inductive string_body (quotes : bool) : bytes → bytes → Prop :=
| body_nil : string_body quotes [] []
| body_app r d rs ds : string_item quotes r d → string_body quotes rs ds → string_body quotes (r ++ rs) (d ++ ds).

Lemma hex_quad_digit_range b d : hex_quad_digit b = Some d → (0 ≤ d < 16)%Z.
Proof.
  unfold hex_quad_digit, is_ascii_digit, in_range. repeat case_match; intros; simplify_eq; lia.
Qed.

Lemma push_nibble_value v d : (0 ≤ v < 4096)%Z → (0 ≤ d < 16)%Z → push_nibble v d = (v * 16 + d)%Z.
Proof.
  intros Hv Hd. unfold push_nibble. pose proof (Z.shiftl_mul_pow2 v 4 ltac:(done)) as Hs.
  rewrite Z.mod_small by (rewrite Hs; lia).
  assert (Z.land (Z.shiftl v 4) d = 0%Z) as Hz.
  { apply Z.bits_inj'. intros n Hn. rewrite Z.land_spec, Z.bits_0.
    destruct (Z.lt_ge_cases n 4); [by rewrite Z.shiftl_spec_low|].
    replace d with (d mod 2 ^ 4)%Z by (apply Z.mod_small; lia).
    by rewrite Z.mod_pow2_bits_high, andb_false_r by lia. }
  pose proof (Z.add_lor_land (Z.shiftl v 4) d). lia.
Qed.

Lemma fold_hex_value q z : length q = 4 → fold_hex 0 q = Some z ↔ hex4 q z.
Proof.
  intros Hq. do 5 (destruct q as [|? q]; try done). clear Hq. unfold hex4. cbn [fold_hex mapM].
  repeat match goal with |- context [hex_quad_digit ?x] =>
    let E := fresh in destruct (hex_quad_digit x) eqn:E; [apply hex_quad_digit_range in E|];
      simpl; [|split; [done|intros (?&?&?&?&?&?); done]] end.
  repeat match goal with |- context [push_nibble ?v ?d] => rewrite (push_nibble_value v d) by lia end. split.
  - intros [= <-]. eexists _, _, _, _. split; [done|]. lia.
  - intros (?&?&?&?&[= <- <- <- <-]&->). done.
Qed.

Lemma hex4_length q z : hex4 q z → length q = 4.
Proof. intros (?&?&?&?&H&_). apply length_mapM in H. by rewrite H. Qed.

Lemma hex4_range q z : hex4 q z → (0 ≤ z < 65536)%Z.
Proof.
  intros (a&b&c&d&H&->). apply mapM_Some in H.
  repeat match goal with HF : Forall2 _ _ (_ :: _) |- _ => inversion HF; clear HF; subst end.
  repeat match goal with HF : hex_quad_digit _ = Some _ |- _ => apply hex_quad_digit_range in HF end. lia.
Qed.

Lemma decode_hex_quad_spec s o z o' :
  decode_hex_quad s o = Some (z, o') → ∃ q, drop o s = q ++ drop o' s ∧ hex4 q z.
Proof.
  intros H. pose proof (decode_hex_quad_step _ _ _ _ H) as [-> Hl]. unfold decode_hex_quad in H.
  apply bind_Some in H as (stop & Hs & H). unfold checked_add_usize in Hs. case_match; [|done]. simplify_eq.
  apply bind_Some in H as (q & Hq & H). apply slice_get_Some in Hq as [_ ->].
  apply bind_Some in H as (v & Hv & [= ->]). replace (o + 4 - o) with 4 in Hv by lia.
  exists (take 4 (drop o s)). rewrite <-drop_drop, take_drop. split; [done|].
  apply fold_hex_value in Hv; [done|]. rewrite length_take, length_drop. lia.
Qed.

Lemma decode_hex_quad_at s o q t z :
  (blen s ≤ U64_MAX)%Z → drop o s = q ++ t → hex4 q z → decode_hex_quad s o = Some (z, o + 4).
Proof.
  intros Hs Hd Hq. pose proof (hex4_length _ _ Hq) as Hl.
  assert (o + 4 ≤ length s).
  { apply (f_equal length) in Hd. rewrite length_drop, length_app in Hd. lia. }
  unfold decode_hex_quad, checked_add_usize, blen in *.
  destruct (Z.leb_spec (Z.of_nat (o + 4)) U64_MAX); [|lia]. cbn [mbind option_bind].
  destruct (slice_get s o (o + 4)) as [x|] eqn:E; apply slice_get_Some in E || (exfalso; revert E).
  - destruct E as [_ ->]. replace (o + 4 - o) with 4 by lia. rewrite Hd, take_app_length' by done.
    cbn [mbind option_bind]. by apply fold_hex_value in Hq as ->.
  - unfold slice_get. destruct (Nat.leb_spec o (o + 4)), (Nat.leb_spec (o + 4) (length s)); simpl; done || lia.
Qed.

Lemma surrogate_pair hi lo :
  (55296 ≤ hi ≤ 56319)%Z → (56320 ≤ lo ≤ 57343)%Z →
  (65536 + Z.shiftl (hi - 55296) 10 + (lo - 56320) = 65536 + (hi - 55296) * 1024 + (lo - 56320))%Z ∧
  char_from_u32 (65536 + (hi - 55296) * 1024 + (lo - 56320)) =
    Some (65536 + (hi - 55296) * 1024 + (lo - 56320))%Z.
Proof.
  intros Hh Hl. rewrite Z.shiftl_mul_pow2 by done. split; [done|]. unfold char_from_u32.
  destruct (Z.leb_spec 55296 (65536 + (hi - 55296) * 1024 + (lo - 56320))),
    (Z.leb_spec (65536 + (hi - 55296) * 1024 + (lo - 56320)) 57343),
    (Z.ltb_spec 1114111 (65536 + (hi - 55296) * 1024 + (lo - 56320))); simpl; done || lia.
Qed.

Lemma char_from_u32_plain z :
  (0 ≤ z < 65536)%Z → ¬ (55296 ≤ z ≤ 57343)%Z → char_from_u32 z = Some z.
Proof.
  intros. unfold char_from_u32.
  destruct (Z.leb_spec 55296 z), (Z.leb_spec z 57343), (Z.ltb_spec 1114111 z); simpl; done || lia.
Qed.

Lemma decode_json_codepoint_spec quotes s o z o' :
  decode_json_codepoint s o = Some (z, o') →
  ∃ r, drop o s = r ++ drop o' s ∧ string_item quotes (x5c :: x75 :: r) (encode_utf8 z).
Proof.
  unfold decode_json_codepoint. intros ([hi o1] & H1 & H)%bind_Some.
  apply decode_hex_quad_spec in H1 as (q & Hq & Hhi). pose proof (hex4_range _ _ Hhi).
  apply bind_Some in H as ([scalar o2] & H2 & H). apply bind_Some in H as (c & Hc & [= -> ->]).
  unfold is_high_surrogate, is_low_surrogate in H2.
  destruct (Z.leb_spec 55296 hi), (Z.leb_spec hi 56319), (Z.leb_spec 56320 hi), (Z.leb_spec hi 57343);
    simpl in H2; try lia; try done.
  2,3: injection H2 as <- <-; exists q; split; [done|];
    rewrite char_from_u32_plain in Hc by lia; injection Hc as <-; constructor; [done|lia].
  apply bind_Some in H2 as (stop & Hstop & H2). unfold checked_add_usize in Hstop.
  case_match; [|done]. injection Hstop as <-.
  apply bind_Some in H2 as (mark & Hm & H2). apply slice_get_Some in Hm as [Hle ->].
  case_bool_decide as Hmark; [done|].
  apply bind_Some in H2 as ([lo o3] & Hl3 & H2). apply decode_hex_quad_spec in Hl3 as (q' & Hq' & Hlo).
  destruct (Z.leb_spec 56320 lo), (Z.leb_spec lo 57343); simpl in H2; try done.
  injection H2 as <- <-. destruct (surrogate_pair hi lo ltac:(lia) ltac:(lia)) as [He Hs].
  rewrite He, Hs in Hc. injection Hc as <-.
  exists (q ++ x5c :: x75 :: q'). split; [|by constructor].
  rewrite Hq, <-app_assoc. f_equal. rewrite <-(take_drop 2 (drop o1 s)), drop_drop, Hq'.
  replace (o1 + 2 - o1) with 2 in Hmark by lia. by rewrite Hmark.
Qed.

(** *** Items are UTF-8 texts *)

Lemma utf8_char_tail c t : utf8_char c → utf8_text (c ++ t) → utf8_text t.
Proof.
  intros Hc Ht. inversion Ht as [He|c' t' Hc' Ht' He]; [by destruct c|].
  destruct c as [|b c], c' as [|b' c']; try done.
  pose proof He as He'. injection He' as -> _. destruct Hc as (_ & Hl & _), Hc' as (_ & Hl' & _).
  apply app_inj_1 in He as [_ ->]; [done|]. by rewrite Hl, Hl'.
Qed.

Lemma utf8_text_tail r t : utf8_text r → utf8_text (r ++ t) → utf8_text t.
Proof.
  intros Hr. induction Hr as [|c r Hc Hr IH]; [done|]. rewrite <-app_assoc.
  intros Ht%utf8_char_tail; auto.
Qed.

Lemma hex4_ascii q z : hex4 q z → forallb is_ascii q = true.
Proof.
  intros (a&b&c&d&H&_). apply mapM_Some in H.
  apply forallb_forall. intros x Hx%list_elem_of_In. apply list_elem_of_lookup in Hx as [i Hi].
  eapply Forall2_lookup_l in H as (y & _ & Hy); [|done]. revert Hy.
  unfold hex_quad_digit, is_ascii, is_ascii_digit, in_range. repeat case_match; intros; simplify_eq; lia.
Qed.

Lemma simple_escape_ascii e d : simple_escape e = Some d → is_ascii e = true.
Proof. by destruct e. Qed.

Lemma string_item_utf8 quotes r d : string_item quotes r d → utf8_text r.
Proof.
  destruct 1 as [b Hb| | | |].
  - apply ascii_text. simpl. rewrite andb_true_r. unfold is_ascii, in_range in *. lia.
  - rewrite <-(app_nil_r c). constructor; [done|constructor].
  - apply ascii_text. simpl. by erewrite simple_escape_ascii.
  - apply ascii_text. simpl. by eapply hex4_ascii.
  - apply ascii_text. simpl. rewrite forallb_app. simpl. by erewrite !hex4_ascii by done.
Qed.

Lemma string_body_utf8 quotes r d : string_body quotes r d → utf8_text r.
Proof. induction 1; [constructor|]. eauto using utf8_text_app, string_item_utf8. Qed.

Lemma string_item_pos quotes r d : string_item quotes r d → 1 ≤ length r.
Proof. destruct 1; simpl; lia. Qed.

(** *** Decoding *)

Lemma ascii_32_127 b : in_range 0 31 b = false → is_ascii b = true → in_range 32 127 b = true.
Proof. unfold is_ascii, in_range. lia. Qed.

(** The continuation of a decoding: [o] has been reached, [d] decoded. *)
Lemma decode_loop_sound n s o d out :
  utf8_text (drop o s) → decode_loop n s o d = Parsed out →
  ∃ ds, string_body true (drop o s) ds ∧ out = d ++ ds.
Proof.
  revert o d. induction n as [|n IH]; intros o d Hu H; cbn [decode_loop] in H;
    destruct (s !! o) as [b|] eqn:Ho; simplify_eq.
  1,3: apply lookup_ge_None in Ho; exists []; rewrite drop_ge, app_nil_r by done; split; [constructor|done].
  assert (∀ o' r e, drop o s = r ++ drop o' s → string_item true r e →
      decode_loop n s o' (d ++ e) = Parsed out →
      ∃ ds, string_body true (drop o s) ds ∧ out = d ++ ds) as Hnext.
  { intros o' r e Hr Hi Hd. rewrite Hr in Hu |- *.
    apply utf8_text_tail in Hu; [|by eapply string_item_utf8].
    apply IH in Hd as (ds & Hb & ->); [|done].
    exists (e ++ ds). rewrite app_assoc. split; [by constructor|done]. }
  pose proof (drop_S _ _ _ Ho) as Hdrop.
  inv_parsed H; guards; subst.
  - apply drop_S in Hstep. apply (decode_json_codepoint_spec true) in Hstep0 as (r & Hr & Hi).
    eapply (Hnext _ (x5c :: x75 :: r)); [|done..]. by rewrite Hdrop, Hstep, Hr.
  - apply drop_S in Hstep. eapply (Hnext _ [x5c; v]); [|by constructor|done]. by rewrite Hdrop, Hstep.
  - apply (Hnext (S o) [b] [b]); [done| |done]. constructor; [by apply ascii_32_127|done..].
  - apply str_get_to_end in Hstep as ->.
    destruct (utf8_next _ _ _ Hu Hdrop ltac:(done)) as (c & s' & Hc & Hcc & Hlen & Hn & _).
    rewrite Hn in Hstep0. injection Hstep0 as ->. eapply (Hnext _ v0); [|by constructor|done].
    rewrite <-drop_drop, Hc, drop_app_length. done.
Qed.

Lemma drop_lookup_app {A} (s r t : list A) o i x :
  drop o s = r ++ t → r !! i = Some x → s !! (o + i) = Some x.
Proof. intros Hd Hr. rewrite <-lookup_drop, Hd. by apply lookup_app_l_Some. Qed.

Lemma drop_app_next {A} (s r t : list A) o : drop o s = r ++ t → drop (o + length r) s = t.
Proof. intros Hd. by rewrite <-drop_drop, Hd, drop_app_length. Qed.

Lemma drop_app_le_length {A} (s r t : list A) o :
  drop o s = r ++ t → 1 ≤ length r → o + length r ≤ length s.
Proof. intros Hd%(f_equal length). rewrite length_drop, length_app in Hd. lia. Qed.

Lemma str_get_drop s o b :
  s !! o = Some b → is_continuation b = false → str_get s o (length s) = Some (drop o s).
Proof.
  intros Ho Hb. pose proof (lookup_lt_Some _ _ _ Ho). apply str_get_Some. split; [lia|].
  unfold is_char_boundary. rewrite Ho, Hb, Nat.eqb_refl, !orb_true_r. split_and!; [done..|].
  by rewrite take_ge by (rewrite length_drop; lia).
Qed.

Lemma slice_get_drop s o r t : drop o s = r ++ t → 1 ≤ length r → slice_get s o (o + length r) = Some r.
Proof.
  intros Hd Hr. apply slice_get_Some. pose proof (drop_app_le_length _ _ _ _ Hd Hr). split; [lia|].
  replace (o + length r - o) with (length r) by lia. by rewrite Hd, take_app_length.
Qed.

Lemma checked_add_fits s o n : (blen s ≤ U64_MAX)%Z → o + n ≤ length s → checked_add_usize o n = Some (o + n).
Proof. unfold blen, checked_add_usize. intros. destruct (Z.leb_spec (Z.of_nat (o + n)) U64_MAX); [done|lia]. Qed.

Lemma decode_json_codepoint_at quotes s o r t z :
  (blen s ≤ U64_MAX)%Z → drop o s = r ++ t → string_item quotes (x5c :: x75 :: r) z →
  ∃ c, decode_json_codepoint s o = Some (c, o + length r) ∧ z = encode_utf8 c.
Proof.
  intros Hs Hd Hi. inversion Hi as [|c Hc Hl| |q v Hq Hv|q q' hi lo Hq Hq' Hh Hl]; subst.
  - destruct Hc as (_ & Hw & _). change (utf8_width x5c) with 1 in Hw. simpl in Hw. lia.
  - done.
  - exists v. split; [|done]. unfold decode_json_codepoint.
    pose proof (hex4_length _ _ Hq) as Hlen. pose proof (hex4_range _ _ Hq).
    erewrite decode_hex_quad_at by done. cbn [mbind option_bind].
    unfold is_high_surrogate, is_low_surrogate.
    destruct (Z.leb_spec 55296 v), (Z.leb_spec v 56319), (Z.leb_spec 56320 v), (Z.leb_spec v 57343); simpl; try lia;
      rewrite char_from_u32_plain by lia; simpl; by rewrite Hlen.
  - exists (65536 + (hi - 55296) * 1024 + (lo - 56320))%Z. split; [|done].
    unfold decode_json_codepoint. pose proof (hex4_length _ _ Hq) as Hlen. pose proof (hex4_length _ _ Hq') as Hlen'.
    rewrite <-app_assoc in Hd. erewrite decode_hex_quad_at by done. cbn [mbind option_bind].
    unfold is_high_surrogate, is_low_surrogate.
    destruct (Z.leb_spec 55296 hi), (Z.leb_spec hi 56319); simpl; try lia.
    pose proof (drop_app_next _ _ _ _ Hd) as Hd1. rewrite Hlen in Hd1.
    change (x5c :: x75 :: q') with ([x5c; x75] ++ q') in Hd1. rewrite <-app_assoc in Hd1.
    pose proof (drop_app_next _ _ _ _ Hd1) as Hd2.
    pose proof (drop_app_le_length _ _ _ _ Hd2 ltac:(lia)).
    rewrite (checked_add_fits s) by (done || simpl in *; lia). cbn [mbind option_bind].
    erewrite (slice_get_drop _ _ [x5c; x75]) by (done || simpl; lia). cbn [mbind option_bind].
    rewrite bool_decide_false by auto. simpl in Hd2. erewrite (decode_hex_quad_at s (o + 4 + 2)) by done.
    cbn [mbind option_bind].
    destruct (Z.leb_spec 56320 lo), (Z.leb_spec lo 57343); simpl; try lia.
    destruct (surrogate_pair hi lo ltac:(lia) ltac:(lia)) as [-> ->]. simpl.
    rewrite length_app. simpl. f_equal. f_equal. lia.
Qed.

Lemma not_ascii_leading b c : utf8_char (b :: c) → 2 ≤ length (b :: c) → is_ascii b = false.
Proof.
  intros (_ & Hw & _) Hl. unfold utf8_width in Hw. unfold is_ascii, in_range.
  destruct (Z.ltb_spec (byte_val b) 128); [simpl in *; lia|]. lia.
Qed.

Lemma not_ascii_class b : is_ascii b = false → in_range 0 31 b = false ∧ b ≠ x5c ∧ b ≠ x22.
Proof. intros Hb. split; [unfold is_ascii, in_range in *; lia|]. split; by intros ->. Qed.

Lemma in_range_32_class b : in_range 32 127 b = true → in_range 0 31 b = false ∧ is_ascii b = true.
Proof. unfold is_ascii, in_range. lia. Qed.

Lemma simple_escape_not_u e d : simple_escape e = Some d → e ≠ x75.
Proof. by intros H ->. Qed.

(** The character a multi-byte item stands for, as the loops read it. *)
Lemma item_char_at s o c t :
  utf8_char c → 2 ≤ length c → drop o s = c ++ t →
  ∃ b, s !! o = Some b ∧ is_ascii b = false ∧
    str_get s o (length s) = Some (drop o s) ∧ chars_next (drop o s) = Some c.
Proof.
  intros Hc Hl Hd. destruct c as [|b c]; [done|].
  pose proof (drop_lookup_app _ _ _ _ 0 b Hd eq_refl) as Hb. rewrite Nat.add_0_r in Hb.
  exists b. split_and!; [done|by eapply not_ascii_leading|eapply str_get_drop; [done|apply Hc]|].
  rewrite Hd. change (Some (take (utf8_width b) ((b :: c) ++ t)) = Some (b :: c)).
  destruct Hc as (_ & <- & _). by rewrite take_app_length.
Qed.

(** Rewrites the tests of a loop on a byte that is known not to be special. *)
Ltac plain_byte Hb :=
  destruct (not_ascii_class _ Hb) as (? & ? & ?);
  rewrite ?bool_decide_false by done;
  repeat match goal with H : in_range _ _ _ = _ |- _ => rewrite H end; rewrite ?Hb.

(** The first two bytes of an escape. *)
Lemma escape_at s o x r t :
  drop o s = (x5c :: x :: r) ++ t →
  s !! o = Some x5c ∧ s !! S o = Some x ∧ drop (S (S o)) s = r ++ t ∧ S (S o) + length r ≤ length s.
Proof.
  intros Hd. pose proof (drop_lookup_app _ _ _ _ 0 x5c Hd eq_refl) as H0.
  pose proof (drop_lookup_app _ _ _ _ 1 x Hd eq_refl) as H1.
  pose proof (drop_app_next s [x5c; x] (r ++ t) o Hd) as H2.
  pose proof (drop_app_le_length _ _ _ _ Hd ltac:(simpl; lia)).
  rewrite Nat.add_0_r in H0. rewrite Nat.add_1_r in H1.
  replace (o + length [x5c; x]) with (S (S o)) in H2 by (simpl; lia). split_and!; [done..|simpl in *; lia].
Qed.

Lemma decode_item_u n s o r t e d :
  (blen s ≤ U64_MAX)%Z → drop o s = (x5c :: x75 :: r) ++ t → string_item true (x5c :: x75 :: r) e →
  decode_loop (S n) s o d = decode_loop n s (o + length (x5c :: x75 :: r)) (d ++ e).
Proof.
  intros Hs Hd Hi. destruct (escape_at _ _ _ _ _ Hd) as (H0 & H1 & H2 & _).
  destruct (decode_json_codepoint_at true s (S (S o)) r t e Hs H2 Hi) as (c & Hc & ->).
  cbn [decode_loop]. rewrite H0, H1. simpl. rewrite Hc. simpl. f_equal. lia.
Qed.

Lemma decode_item n s o r t e d :
  (blen s ≤ U64_MAX)%Z → drop o s = r ++ t → string_item true r e →
  decode_loop (S n) s o d = decode_loop n s (o + length r) (d ++ e).
Proof.
  intros Hs Hd Hi. destruct Hi as [b Hb Hb1 _|c Hc Hl|x y Hx|q z Hq Hz|q q' hi lo Hq Hq' Hh Hl].
  - pose proof (drop_lookup_app _ _ _ _ 0 b Hd eq_refl) as H0. rewrite Nat.add_0_r in H0.
    cbn [decode_loop]. rewrite H0. apply in_range_32_class in Hb as [-> ->].
    rewrite bool_decide_false by done. by rewrite Nat.add_1_r.
  - cbn [decode_loop]. destruct (item_char_at _ _ _ _ Hc Hl Hd) as (b & -> & Hb & -> & Hn).
    plain_byte Hb. cbn [require mbind parsed_bind]. by rewrite Hn.
  - destruct (escape_at _ _ _ _ _ Hd) as (H0 & H1 & _ & _). cbn [decode_loop]. rewrite H0, H1. simpl.
    rewrite bool_decide_false by by eapply simple_escape_not_u. rewrite Hx. simpl.
    by replace (S (S o)) with (o + 2) by lia.
  - by eapply decode_item_u; [| |constructor].
  - by eapply decode_item_u; [| |constructor].
Qed.

Lemma decode_loop_complete n s o r ds d :
  (blen s ≤ U64_MAX)%Z → string_body true r ds → drop o s = r → length r ≤ n →
  decode_loop n s o d = Parsed (d ++ ds).
Proof.
  intros Hs Hb. revert n o d. induction Hb as [|r e rs ds Hi Hb IH]; intros n o d Hd Hn.
  - assert (s !! o = None) as Ho.
    { apply lookup_ge_None. apply (f_equal length) in Hd. rewrite length_drop in Hd. simpl in Hd. lia. }
    destruct n; cbn [decode_loop]; rewrite Ho, app_nil_r; done.
  - pose proof (string_item_pos _ _ _ Hi). rewrite length_app in Hn. destruct n as [|n]; [lia|].
    erewrite decode_item by done. rewrite IH; [by rewrite app_assoc|by eapply drop_app_next|lia].
Qed.

Lemma decode_json_string_exact s d :
  (blen s ≤ U64_MAX)%Z → utf8_text s → decode_json_string s = Parsed d ↔ string_body true s d.
Proof.
  intros Hs Hu. unfold decode_json_string. split.
  - intros H. apply decode_loop_sound in H as (ds & Hb & ->); [done|]. by rewrite drop_0.
  - intros Hb. by erewrite decode_loop_complete.
Qed.

(** ** String literals in a text *)

(** An item is a bare quotation mark or an item of a literal. *)
Lemma string_item_quote r e : string_item true r e → r = [x22] ∨ string_item false r e.
Proof.
  destruct 1; [|right; by constructor..].
  destruct (decide (b = x22)) as [->|]; [by left|right; by constructor].
Qed.

Lemma string_item_weaken r e : string_item false r e → string_item true r e.
Proof. destruct 1; by constructor. Qed.

Lemma string_body_weaken r e : string_body false r e → string_body true r e.
Proof. induction 1; constructor; auto using string_item_weaken. Qed.

Section literals.
Context (raw : bytes).
Hypothesis Hraw : (blen raw ≤ U64_MAX)%Z.

Lemma scan_u n start o q t :
  drop o raw = (x5c :: x75 :: q) ++ t → length q = 4 →
  scan_string raw (S n) start o = scan_string raw n start (o + 6).
Proof using Hraw.
  intros Hd Hq. destruct (escape_at _ _ _ _ _ Hd) as (H0 & H1 & H2 & Hle). cbn [scan_string].
  unfold peek_byte. rewrite H0, H1. cbn [require mbind parsed_bind].
  rewrite bool_decide_false, !bool_decide_true by done. rewrite (checked_add_fits raw) by (done || lia).
  cbn [require mbind parsed_bind]. pose proof (slice_get_drop _ _ _ _ H2 ltac:(lia)) as Hs.
  rewrite Hq in Hs. rewrite Hs. cbn [require mbind parsed_bind]. f_equal. lia.
Qed.

(** A scan moves over an item. *)
Lemma scan_item n start o r t e :
  drop o raw = r ++ t → string_item false r e → length raw - o < n →
  ∃ n', length raw - (o + length r) < n' ∧
    scan_string raw n start o = scan_string raw n' start (o + length r).
Proof using Hraw.
  intros Hd Hi Hn. pose proof (drop_app_le_length _ _ _ _ Hd (string_item_pos _ _ _ Hi)).
  destruct n as [|n]; [lia|].
  destruct Hi as [b Hb Hb1 Hb2|c Hc Hl|x y Hx|q z Hq Hz|q q' hi lo Hq Hq' Hh Hl].
  - exists n. pose proof (drop_lookup_app _ _ _ _ 0 b Hd eq_refl) as H0. rewrite Nat.add_0_r in H0.
    cbn [scan_string]. unfold peek_byte. rewrite H0. cbn [require mbind parsed_bind].
    rewrite !bool_decide_false by (naive_solver). apply in_range_32_class in Hb as [-> ->].
    simpl. rewrite Nat.add_1_r in *. split; [lia|done].
  - exists n. destruct (item_char_at _ _ _ _ Hc Hl Hd) as (b & Ho & Hb & Hs & Hn').
    cbn [scan_string]. unfold peek_byte. rewrite Ho. cbn [require mbind parsed_bind]. plain_byte Hb.
    rewrite Hs. cbn [require mbind parsed_bind]. rewrite Hn'. split; [lia|done].
  - exists n. destruct (escape_at _ _ _ _ _ Hd) as (H0 & H1 & _ & _).
    cbn [scan_string]. unfold peek_byte. rewrite H0, H1. simpl. rewrite bool_decide_false by by eapply simple_escape_not_u.
    replace (S (S o)) with (o + 2) by lia. split; [simpl in *; lia|done].
  - exists n. pose proof (hex4_length _ _ Hq). split; [simpl in *; lia|].
    erewrite scan_u by done. f_equal. simpl. lia.
  - pose proof (hex4_length _ _ Hq) as Hq4. pose proof (hex4_length _ _ Hq') as Hq4'.
    change (x5c :: x75 :: q ++ x5c :: x75 :: q') with ((x5c :: x75 :: q) ++ (x5c :: x75 :: q')) in *.
    rewrite <-app_assoc in Hd. rewrite length_app in *. simpl length in *.
    pose proof (drop_app_next _ _ _ _ Hd) as Hd'. simpl length in Hd'. rewrite Hq4 in Hd'.
    destruct n as [|n]; [lia|]. exists n. split; [lia|].
    erewrite scan_u by done. erewrite scan_u by done. f_equal. lia.
Qed.

Lemma boundary_head o r t : drop o raw = r ++ t → utf8_text r → r ≠ [] → is_char_boundary raw o = true.
Proof.
  intros Hd Hr Hne. destruct Hr as [|c r Hc Hr]; [done|]. destruct c as [|b c]; [done|].
  pose proof (drop_lookup_app _ _ _ _ 0 b Hd eq_refl) as Hb. rewrite Nat.add_0_r in Hb.
  unfold is_char_boundary. destruct Hc as (Hc & _). by rewrite Hb, Hc, orb_true_r.
Qed.

Lemma scan_end n start o s o' :
  scan_string raw n start o = Parsed (s, o') →
  ∃ stop text d, o' = S stop ∧ raw !! stop = Some x22 ∧ str_get raw start stop = Some text ∧
    decode_json_string text = Parsed d ∧ s = of_bytes d.
Proof.
  revert o. induction n as [|n IH]; intros o H; cbn [scan_string] in H; [done|].
  inv_parsed H; try (by eapply IH). guards. subst. eauto 10.
Qed.

(** A scan that ends right after [r] met no bare quotation mark in [r]. *)
Lemma scan_aligned n start o r t s e :
  string_body true r e → drop o raw = r ++ t → length raw - o < n →
  scan_string raw n start o = Parsed (s, S (o + length r)) → string_body false r e.
Proof using Hraw.
  intros Hb. revert n o. induction Hb as [|r e rs es Hi Hb IH]; intros n o Hd Hn H; [constructor|].
  rewrite <-app_assoc in Hd. destruct (string_item_quote _ _ Hi) as [->|Hi'].
  - pose proof (drop_lookup_app _ _ _ _ 0 x22 Hd eq_refl) as H0. rewrite Nat.add_0_r in H0.
    destruct n as [|n]; [done|]. cbn [scan_string] in H. unfold peek_byte in H. rewrite H0 in H. simpl in H.
    inv_parsed H. lia.
  - destruct (scan_item n start _ _ _ _ Hd Hi' Hn) as (n' & Hn' & Heq). constructor; [done|].
    eapply IH; [by eapply drop_app_next|done|]. rewrite <-Heq, H, length_app. do 3 f_equal. lia.
Qed.

Lemma scan_body n start o r t e :
  drop o raw = r ++ t → string_body false r e → length raw - o < n →
  ∃ n', length raw - (o + length r) < n' ∧
    scan_string raw n start o = scan_string raw n' start (o + length r).
Proof using Hraw.
  intros Hd Hb. revert n o Hd. induction Hb as [|r e rs es Hi Hb IH]; intros n o Hd Hn.
  - exists n. simpl. by rewrite Nat.add_0_r.
  - rewrite <-app_assoc in Hd. destruct (scan_item n start _ _ _ _ Hd Hi Hn) as (n1 & Hn1 & ->).
    destruct (IH n1 (o + length r)) as (n2 & Hn2 & ->); [by eapply drop_app_next|done|].
    exists n2. by rewrite length_app, Nat.add_assoc.
Qed.
End literals.

(** A literal with its quotation marks, and the string it denotes. *)
Definition string_literal (lit : bytes) (s : string) : Prop :=
  ∃ body, lit = x22 :: body ++ [x22] ∧ string_body false body (as_bytes s).

Lemma as_bytes_of_bytes l : as_bytes (of_bytes l) = l.
Proof. apply String.list_byte_of_string_of_list_byte. Qed.

Lemma of_bytes_as_bytes s : of_bytes (as_bytes s) = s.
Proof. apply String.string_of_list_byte_of_string. Qed.

Lemma parse_string_sound fuel raw o s o' :
  (blen raw ≤ U64_MAX)%Z → utf8_text raw → length raw < fuel →
  parse_string fuel raw o = Parsed (s, o') →
  ∃ lit, drop o raw = lit ++ drop o' raw ∧ string_literal lit s.
Proof.
  intros Hraw Hu Hf H. unfold parse_string in H. inv_parsed H.
  apply consume_byte_Parsed in Hstep as [Ho ->].
  pose proof (scan_end _ _ _ _ _ _ H) as (stop & text & d & -> & Hq & Ht & Hdec & ->).
  pose proof Ht as (Hle & _ & _ & ->)%str_get_Some.
  apply decode_json_string_exact in Hdec; [|unfold blen in *; rewrite length_take, length_drop; lia|
    by eapply utf8_text_str_get].
  assert (drop (S o) raw = take (stop - S o) (drop (S o) raw) ++ x22 :: drop (S stop) raw) as Hsplit.
  { rewrite <-(drop_S _ _ _ Hq). rewrite <-(take_drop (stop - S o) (drop (S o) raw)) at 1.
    by rewrite drop_drop, Nat.add_comm, Nat.sub_add by lia. }
  exists (x22 :: take (stop - S o) (drop (S o) raw) ++ [x22]). split.
  - rewrite (drop_S _ _ _ Ho), Hsplit at 1. simpl. by rewrite <-app_assoc.
  - eexists. split; [done|]. rewrite as_bytes_of_bytes.
    eapply (scan_aligned raw Hraw fuel (S o) (S o)); [done|exact Hsplit|lia|].
    rewrite H. do 3 f_equal. rewrite length_take, length_drop. lia.
Qed.

Lemma parse_string_complete fuel raw o s lit t :
  (blen raw ≤ U64_MAX)%Z → length raw < fuel →
  drop o raw = lit ++ t → string_literal lit s → parse_string fuel raw o = Parsed (s, o + length lit).
Proof.
  intros Hraw Hf Hd (body & -> & Hb). unfold parse_string.
  pose proof (drop_lookup_app _ _ _ _ 0 x22 Hd eq_refl) as H0. rewrite Nat.add_0_r in H0.
  rewrite (proj2 (consume_byte_Parsed raw x22 o (S o))) by done. cbn [mbind parsed_bind].
  change (x22 :: body ++ [x22]) with ([x22] ++ body ++ [x22]) in Hd.
  rewrite <-!app_assoc in Hd. apply drop_app_next in Hd. rewrite Nat.add_1_r in Hd.
  destruct (scan_body raw Hraw fuel (S o) (S o) body ([x22] ++ t) _ Hd Hb) as (n & Hn & ->); [lia|].
  destruct n as [|n]; [lia|]. cbn [scan_string]. unfold peek_byte.
  pose proof (drop_app_next _ _ _ _ Hd) as Hd1.
  pose proof (drop_lookup_app _ _ _ _ 0 x22 Hd1 eq_refl) as H1. rewrite Nat.add_0_r in H1.
  rewrite H1. cbn [require mbind parsed_bind]. rewrite bool_decide_true by done.
  pose proof (drop_app_le_length _ _ _ _ Hd1 ltac:(simpl; lia)). simpl length in *.
  assert (str_get raw (S o) (S o + length body) = Some body) as ->.
  { apply str_get_Some. split; [lia|]. split_and!.
    - eapply (boundary_head raw _ (body ++ [x22]) t); [by rewrite <-app_assoc| |by destruct body].
      apply utf8_text_app; [by eapply string_body_utf8|by apply ascii_text].
    - eapply (boundary_head raw _ [x22]); [done|by apply ascii_text|done].
    - replace (S o + length body - S o) with (length body) by lia. by rewrite Hd, take_app_length. }
  cbn [require mbind parsed_bind].
  assert (decode_json_string body = Parsed (as_bytes s)) as ->.
  { apply decode_json_string_exact; [unfold blen in *; lia|by eapply string_body_utf8|].
    by apply string_body_weaken. }
  cbn [mbind parsed_bind]. rewrite of_bytes_as_bytes, length_app. simpl. do 2 f_equal. lia.
Qed.
