(* ===== verification/ReportDocument.v ===== *)
(** * The documents the report envelope parser accepts

    The grammar of whole envelopes: one JSON object with the eleven members of
    an envelope in any order, any white space, any escapes. The parser accepts
    exactly these texts, with the envelope they describe. *)

From Stdlib.Strings Require Import Byte.
From Stdlib Require String Ascii.
From S2P Require Import Prelude Bytes ReportParser ReportGrammar.

(** ** Grammar *)

Definition white (w : bytes) : Prop := forallb is_whitespace w = true.

(** Decimal integers without leading zeros that fit [u64]. *)
Definition number_literal (lit : bytes) (z : Z) : Prop :=
  (lit = [x30] ∧ z = 0%Z) ∨
  (∃ b t, lit = b :: t ∧ in_range 49 57 b = true ∧ forallb is_ascii_digit t = true ∧
     z = dec_value lit ∧ (z ≤ U64_MAX)%Z).

Inductive member_value := Text (s : string) | Number (z : Z).

Definition value_literal (lit : bytes) (v : member_value) : Prop :=
  match v with
  | Text s => string_literal lit s
  | Number z => number_literal lit z
  end.

(** [w1 "key" w2 : w3 value w4]. *)
Definition member_text (txt : bytes) (kv : string * member_value) : Prop :=
  ∃ w1 key w2 w3 value w4,
    txt = w1 ++ key ++ w2 ++ [x3a] ++ w3 ++ value ++ w4 ∧
    white w1 ∧ white w2 ∧ white w3 ∧ white w4 ∧
    string_literal key kv.1 ∧ value_literal value kv.2.

Inductive members_text : bytes → list (string * member_value) → Prop :=
| members_one txt kv : member_text txt kv → members_text txt [kv]
| members_cons txt kv rest kvs :
    member_text txt kv → members_text rest kvs →
    members_text (txt ++ [x2c] ++ rest) (kv :: kvs).

Definition object_text (raw : bytes) (kvs : list (string * member_value)) : Prop :=
  ∃ w body w', raw = w ++ [x7b] ++ body ++ [x7d] ++ w' ∧ white w ∧ white w' ∧ members_text body kvs.

Definition envelope_members (e : SignedReportEnvelope) : list (string * member_value) :=
  [("schema", Text e.(schema)); ("kind", Text e.(kind)); ("algorithm", Text e.(algorithm));
   ("deviceId", Text e.(device_id)); ("journalSequence", Number e.(journal_sequence));
   ("journalEntryHash", Text e.(journal_entry_hash));
   ("payloadMediaType", Text e.(payload_media_type));
   ("payloadSha256", Text e.(payload_sha256)); ("payload", Text e.(payload));
   ("publicKey", Text e.(public_key)); ("signature", Text e.(signature))]%string.

Definition envelope_text (raw : bytes) (e : SignedReportEnvelope) : Prop :=
  ∃ kvs, object_text raw kvs ∧ kvs ≡ₚ envelope_members e.

Lemma members_text_length body kvs : members_text body kvs → length kvs ≤ length body.
Proof.
  assert (∀ txt kv, member_text txt kv → 1 ≤ length txt) as H1.
  { intros ? ? (?&?&?&?&?&?&->&_). rewrite !length_app. simpl. lia. }
  induction 1 as [txt kv Hm|txt kv rest kvs Hm Hb IH]; simpl.
  - by apply H1 in Hm.
  - rewrite length_app. simpl. apply H1 in Hm. lia.
Qed.

Lemma white_app w w' : white w → white w' → white (w ++ w').
Proof. unfold white. intros. by rewrite forallb_app, andb_true_iff. Qed.

(** Leading white space belongs to the first member. *)
Lemma members_text_white w body kvs : white w → members_text body kvs → members_text (w ++ body) kvs.
Proof.
  intros Hw.
  assert (∀ txt kv, member_text txt kv → member_text (w ++ txt) kv) as Hone.
  { intros txt kv (w1 & kl & w2 & w3 & vl & w4 & -> & Hw1 & Hm).
    exists (w ++ w1), kl, w2, w3, vl, w4. split; [by rewrite <-app_assoc|].
    split; [by apply white_app|done]. }
  destruct 1; [|rewrite app_assoc]; constructor; auto.
Qed.

Lemma members_text_head body kvs :
  members_text body kvs →
  ∃ w body', body = w ++ body' ∧ white w ∧ members_text body' kvs ∧ ∃ t, body' = x22 :: t.
Proof.
  assert (∀ txt kv, member_text txt kv →
    ∃ w txt', txt = w ++ txt' ∧ white w ∧ member_text txt' kv ∧ ∃ t, txt' = x22 :: t) as Hhead.
  { intros txt kv (w1 & kl & w2 & w3 & vl & w4 & -> & Hw1 & Hw2 & Hw3 & Hw4 & Hk & Hv).
    exists w1, (kl ++ w2 ++ [x3a] ++ w3 ++ vl ++ w4). split_and!; [done..| |].
    - by exists [], kl, w2, w3, vl, w4.
    - destruct Hk as (body' & -> & _). eexists. simpl. done. }
  destruct 1 as [txt kv Hm|txt kv rest kvs Hm Hb];
    destruct (Hhead _ _ Hm) as (w & txt' & -> & Hw & Hm' & t & ->).
  - exists w, (x22 :: t). split_and!; [done..|by constructor|eauto].
  - exists w, ((x22 :: t) ++ [x2c] ++ rest). rewrite <-app_assoc. split_and!; [done..|by constructor|by eexists].
Qed.

(** ** Collected fields *)

(** The members a set of fields stands for. *)
Definition field_list (f : SignedReportEnvelopeFields) : list (string * option member_value) :=
  [("schema", Text <$> f.(f_schema)); ("kind", Text <$> f.(f_kind));
   ("algorithm", Text <$> f.(f_algorithm)); ("deviceId", Text <$> f.(f_device_id));
   ("journalSequence", Number <$> f.(f_journal_sequence));
   ("journalEntryHash", Text <$> f.(f_journal_entry_hash));
   ("payloadMediaType", Text <$> f.(f_payload_media_type));
   ("payloadSha256", Text <$> f.(f_payload_sha256)); ("payload", Text <$> f.(f_payload));
   ("publicKey", Text <$> f.(f_public_key)); ("signature", Text <$> f.(f_signature))]%string.

(** [f] holds exactly the members [kvs]. *)
Definition holds (f : SignedReportEnvelopeFields) (kvs : list (string * member_value)) : Prop :=
  NoDup kvs.*1 ∧ ∀ k v, (k, v) ∈ kvs ↔ (k, Some v) ∈ field_list f.

Lemma NoDup_keys_eq {A B} (l l' : list (A * B)) :
  NoDup l.*1 → l.*1 = l'.*1 → (∀ kv, kv ∈ l' → kv ∈ l) → l = l'.
Proof.
  intros Hn Hk Hin. apply list_eq. intros i.
  assert (length l = length l') as Hl by by rewrite <-(length_fmap fst l), Hk, length_fmap.
  destruct (l' !! i) as [[k v]|] eqn:Hi; [|apply lookup_ge_None in Hi; apply lookup_ge_None; lia].
  destruct (list_elem_of_lookup_1 _ _ (Hin _ (list_elem_of_lookup_2 _ _ _ Hi))) as [j Hj].
  assert (j = i) as ->; [|done].
  eapply (NoDup_lookup _ _ _ k Hn); [by rewrite list_lookup_fmap, Hj|].
  by rewrite Hk, list_lookup_fmap, Hi.
Qed.

Lemma field_list_keys f e : (field_list f).*1 = (envelope_members e).*1.
Proof. done. Qed.

Lemma envelope_members_keys e : NoDup (envelope_members e).*1.
Proof. apply (bool_decide_unpack _). vm_compute. exact I. Qed.

Lemma envelope_members_NoDup e : NoDup (envelope_members e).
Proof. eapply NoDup_fmap_1, envelope_members_keys. Qed.

Lemma finish_exact f e :
  finish f = Some e ↔ field_list f = (λ kv, (kv.1, Some kv.2)) <$> envelope_members e.
Proof.
  unfold finish, field_list, envelope_members. destruct f; simpl. split.
  - intros H. repeat (apply bind_Some in H as (? & -> & H)). by simplify_eq.
  - intros H. repeat match type of H with _ :: _ = _ :: _ => injection H as ? H end.
    destruct e; simpl in *.
    repeat match goal with Hx : _ <$> ?o = Some _ |- _ => apply fmap_Some in Hx as (? & -> & ?) end.
    simplify_eq. done.
Qed.

Lemma holds_none : holds no_fields [].
Proof.
  split; [constructor|]. intros k v. split; [by intros ?%elem_of_nil|].
  unfold field_list, no_fields. simpl. rewrite !elem_of_cons, elem_of_nil. naive_solver.
Qed.

(** Members collected without duplicates are a rearrangement of the envelope. *)
Lemma holds_finish f kvs e : holds f kvs → finish f = Some e ↔ kvs ≡ₚ envelope_members e.
Proof.
  intros [Hn Hm]. rewrite finish_exact. split.
  - intros Hf. apply NoDup_Permutation; [by eapply NoDup_fmap_1|apply envelope_members_NoDup|].
    intros [k v]. rewrite Hm, Hf, list_elem_of_fmap. split.
    + intros ([k' v'] & [= -> ->] & ?). done.
    + intros ?. by exists (k, v).
  - intros Hp. apply NoDup_keys_eq.
    + rewrite (field_list_keys f e). apply envelope_members_keys.
    + by rewrite (field_list_keys f e), <-list_fmap_compose.
    + intros kv ([k v] & -> & Hin)%list_elem_of_fmap. simpl. apply Hm. by rewrite Hp.
Qed.

(** Storing one more member. *)
Definition stored (k : string) (v : member_value) (f f' : SignedReportEnvelopeFields) : Prop :=
  field_list f' = (λ kx, (kx.1, if kx.1 == k then Some v else kx.2)) <$> field_list f.

Lemma holds_store f f' kvs k v :
  holds f kvs → (k, None) ∈ field_list f → stored k v f f' → holds f' ((k, v) :: kvs).
Proof.
  intros [Hn Hm] Hk Hs.
  assert (∀ x, (k, x) ∈ field_list f → x = None) as Huniq.
  { intros x [i Hi]%list_elem_of_lookup. apply list_elem_of_lookup in Hk as [j Hj].
    assert (i = j) as ->; [|by rewrite Hi in Hj; simplify_eq].
    eapply (NoDup_lookup (field_list f).*1 _ _ k); [|by rewrite list_lookup_fmap, ?Hi, ?Hj..].
    rewrite (field_list_keys f (mkSignedReportEnvelope "" "" "" "" 0 "" "" "" "" "" "")).
    apply envelope_members_keys. }
  split.
  - simpl. constructor; [|done]. intros ([k' v'] & -> & Hin)%list_elem_of_fmap.
    apply Hm, Huniq in Hin. done.
  - intros k' v'. rewrite elem_of_cons, Hm, Hs, list_elem_of_fmap. split.
    + intros [[= -> ->]|Hin]; [exists (k, None); simpl; by rewrite bool_decide_true|].
      exists (k', Some v'). simpl. split; [|done]. case_bool_decide; [|done]. subst. by apply Huniq in Hin.
    + intros ([k2 x] & [= -> Hx] & Hin). simpl in *. case_bool_decide; [left; by simplify_eq|by subst; right].
Qed.

(** ** White space and numbers *)

Lemma skip_loop_sound raw p n o o' :
  skip_loop raw p n o = Parsed o' →
  ∃ w, drop o raw = w ++ drop o' raw ∧ forallb p w = true ∧
    (∀ b, raw !! o' = Some b → p b = false).
Proof.
  revert o. induction n as [|n IH]; intros o; cbn [skip_loop]; unfold peek_byte;
    destruct (raw !! o) as [b|] eqn:Ho; try (destruct (p b) eqn:Hp); intros H; simplify_eq.
  - exists []. split_and!; [done..|]. intros. by simplify_eq.
  - exists []. split_and!; [done..|]. intros. by simplify_eq.
  - apply IH in H as (w & Hw & Hf & Hn). exists (b :: w).
    rewrite (drop_S _ _ _ Ho), Hw. simpl. by rewrite Hp, Hf.
  - exists []. split_and!; [done..|]. intros. by simplify_eq.
  - exists []. split_and!; [done..|]. intros. by simplify_eq.
Qed.

Lemma skip_loop_complete raw p n o w t :
  drop o raw = w ++ t → forallb p w = true → (∀ b t', t = b :: t' → p b = false) → length w ≤ n →
  skip_loop raw p n o = Parsed (o + length w).
Proof.
  revert n o. induction w as [|b w IH]; intros n o Hd Hw Ht Hn.
  - rewrite Nat.add_0_r. simpl in Hd.
    assert (∀ b, peek_byte raw o = Some b → p b = false) as Hp.
    { intros b Hb. unfold peek_byte in Hb. rewrite (drop_S _ _ _ Hb) in Hd. by eapply Ht. }
    destruct n; cbn [skip_loop]; destruct (peek_byte raw o) as [b|]; try done; by rewrite (Hp b).
  - simpl in Hw. apply andb_true_iff in Hw as [Hb Hw]. destruct n as [|n]; [simpl in Hn; lia|].
    pose proof (drop_lookup_app _ _ _ _ 0 b Hd eq_refl) as H0. rewrite Nat.add_0_r in H0.
    cbn [skip_loop]. unfold peek_byte. rewrite H0, Hb.
    apply (drop_app_next raw [b]) in Hd. simpl in Hd. rewrite Nat.add_1_r in Hd.
    rewrite IH; [simpl; f_equal; lia|done..|simpl in Hn; lia].
Qed.

Section document.
Context (fuel : nat) (raw : bytes).
Context (Hraw : (blen raw ≤ U64_MAX)%Z) (Hfuel : length raw < fuel).

Lemma skip_whitespace_sound o o' :
  skip_whitespace fuel raw o = Parsed o' → ∃ w, drop o raw = w ++ drop o' raw ∧ white w.
Proof. intros (w & ? & ? & _)%skip_loop_sound. eauto. Qed.

Lemma skip_whitespace_complete o w t :
  drop o raw = w ++ t → white w → (∀ b t', t = b :: t' → is_whitespace b = false) →
  skip_whitespace fuel raw o = Parsed (o + length w).
Proof using Hfuel.
  intros Hd Hw Ht. eapply skip_loop_complete; [done..|].
  apply (f_equal length) in Hd. rewrite length_drop, length_app in Hd. lia.
Qed.

Lemma digits_from_str b t :
  in_range 48 57 b = true → forallb is_ascii_digit t = true →
  u64_from_str (b :: t) = if (dec_value (b :: t) <=? U64_MAX)%Z then Some (dec_value (b :: t)) else None.
Proof.
  intros Hb Ht. assert (u64_from_str (b :: t) = u64_from_digits (b :: t)) as ->.
  { destruct b; done. }
  unfold u64_from_digits. rewrite bool_decide_false by done. simpl. unfold is_ascii_digit at 1.
  rewrite Hb, Ht. done.
Qed.

Lemma parse_u64_sound o z o' :
  parse_u64 fuel raw o = Parsed (z, o') → ∃ lit, drop o raw = lit ++ drop o' raw ∧ number_literal lit z.
Proof using Hfuel.
  unfold parse_u64. intros H. inv_parsed H. rename v into b.
  assert (∀ t, drop (S o) raw = t ++ drop o' raw → S o ≤ o' → str_get raw o o' = Some (b :: t)) as Hget.
  { intros t Ht Hle. apply str_get_Some in Hstep1 as (Hb & Hs & He & ->).
    apply str_get_Some. split_and!; [lia..|done|done|].
    unfold peek_byte in Hstep. rewrite (drop_S _ _ _ Hstep).
    replace (o' - o) with (S (o' - S o)) by lia. cbn [take]. f_equal.
    pose proof (f_equal length Ht) as Hl. rewrite length_app, !length_drop in Hl.
    rewrite Ht. symmetry. apply take_app_length'. lia. }
  inv_parsed Hstep0; guards; subst.
  - exists [x30]. split; [by rewrite (drop_S _ _ _ Hstep)|]. left. split; [done|].
    rewrite (Hget []) in Hstep1 by done. simplify_eq. vm_compute in Hstep2. by simplify_eq.
  - pose proof (skip_loop_progress _ _ _ _ _ Hstep0). apply skip_loop_sound in Hstep0 as (t & Ht & Hd & _).
    exists (b :: t). split; [by rewrite (drop_S _ _ _ Hstep), Ht|]. right. exists b, t.
    rewrite (Hget t) in Hstep1 by done. simplify_eq.
    rewrite digits_from_str in Hstep2 by (done || (unfold in_range in *; lia)).
    destruct (Z.leb_spec (dec_value (b :: t)) U64_MAX); by simplify_eq.
Qed.

Lemma ascii_boundary o b : raw !! o = Some b → is_ascii b = true → is_char_boundary raw o = true.
Proof.
  intros Ho Hb. unfold is_char_boundary. by rewrite Ho, (ascii_not_continuation _ Hb), orb_true_r.
Qed.

Lemma parse_u64_complete o lit z b t :
  drop o raw = lit ++ b :: t → number_literal lit z → is_ascii_digit b = false → is_ascii b = true →
  parse_u64 fuel raw o = Parsed (z, o + length lit).
Proof using Hfuel.
  intros Hd Hn Hb Ha. unfold parse_u64.
  assert (∃ c l, lit = c :: l ∧ in_range 48 57 c = true ∧ forallb is_ascii_digit l = true) as (c & l & -> & Hc & Hl).
  { destruct Hn as [[-> _]|(c & l & -> & Hc & Hl & _)]; [by exists x30, []|].
    exists c, l. split_and!; [done| |done]. unfold in_range in *. lia. }
  pose proof (drop_lookup_app _ _ _ _ 0 c Hd eq_refl) as H0. rewrite Nat.add_0_r in H0.
  pose proof (drop_app_next _ _ _ _ Hd) as Hd'.
  pose proof (drop_lookup_app _ [b] t _ 0 b Hd' eq_refl) as H1. rewrite Nat.add_0_r in H1.
  pose proof (drop_app_le_length _ _ _ _ Hd ltac:(simpl; lia)) as Hle.
  assert (str_get raw o (o + length (c :: l)) = Some (c :: l)) as Hget.
  { apply str_get_Some. split; [lia|]. split_and!.
    - eapply ascii_boundary; [done|]. unfold is_ascii, in_range in *. lia.
    - by eapply ascii_boundary.
    - replace (o + length (c :: l) - o) with (length (c :: l)) by lia. by rewrite Hd, take_app_length. }
  unfold peek_byte. rewrite H0. cbn [require mbind parsed_bind].
  assert ((if c == x30 then Parsed (S o)
    else if in_range 49 57 c then skip_loop raw is_ascii_digit fuel (S o) else Rejected) =
    Parsed (o + length (c :: l))) as ->.
  { destruct Hn as [[[= -> ->] _]|(c' & l' & [= <- <-] & Hc1 & _)].
    - rewrite bool_decide_true by done. f_equal. simpl. lia.
    - rewrite bool_decide_false by (by intros ->). rewrite Hc1.
      change (c :: l) with ([c] ++ l) in Hd. rewrite <-app_assoc in Hd. apply drop_app_next in Hd.
      rewrite Nat.add_1_r in Hd. rewrite (skip_loop_complete _ _ _ _ l (b :: t)); [f_equal; simpl; lia|done|done| |simpl in *; lia].
      by intros ?? [= <- _]. }
  cbn [mbind parsed_bind]. rewrite Hget. cbn [require mbind parsed_bind].
  rewrite digits_from_str by done.
  destruct Hn as [[[= -> ->] ->]|(c' & l' & [= <- <-] & Hc1 & _ & -> & Hz)]; [done|].
  destruct (Z.leb_spec (dec_value (c :: l)) U64_MAX); [done|lia].
Qed.

(** *** One member *)

Lemma parse_string_field_Parsed o x s o' :
  parse_string_field fuel raw o x = Parsed (s, o') ↔ x = None ∧ parse_string fuel raw o = Parsed (s, o').
Proof.
  unfold parse_string_field. destruct x; simpl; naive_solver.
Qed.

Lemma parse_field_sound k f o f' o' :
  utf8_text raw → parse_field fuel raw k f o = Parsed (f', o') →
  ∃ lit v, drop o raw = lit ++ drop o' raw ∧ value_literal lit v ∧
    (k, None) ∈ field_list f ∧ stored k v f f'.
Proof using Hraw Hfuel.
  intros Hu H. unfold parse_field in H. destruct f as [sc ki al de se en me sh pa pu si].
  inv_parsed H; guards; subst k;
    try match goal with HS : parse_string_field _ _ _ _ = _ |- _ =>
      apply parse_string_field_Parsed in HS as [-> HS];
      apply parse_string_sound in HS as (lit & Hd & Hl); [|done..];
      exists lit, (Text s); split_and!; [done..| |reflexivity]
    end.
  5: { apply eq_None_not_Some in Hstep as ->.
    apply parse_u64_sound in Hstep0 as (lit & Hd & Hl). exists lit, (Number z). split_and!; [done..| |reflexivity].
    unfold field_list. simpl. rewrite !elem_of_cons. naive_solver. }
  all: unfold field_list; simpl; rewrite !elem_of_cons; naive_solver.
Qed.

(** The members of an envelope have the type their key demands. *)
Definition typed (k : string) (v : member_value) : Prop := ∃ e, (k, v) ∈ envelope_members e.

Lemma parse_field_complete k v f o lit b t :
  drop o raw = lit ++ b :: t → value_literal lit v → is_ascii_digit b = false → is_ascii b = true →
  typed k v → (k, None) ∈ field_list f →
  ∃ f', parse_field fuel raw k f o = Parsed (f', o + length lit) ∧ stored k v f f'.
Proof using Hraw Hfuel.
  intros Hd Hl Hb Ha [e He] Hf. destruct f as [sc ki al de se en me sh pa pu si].
  assert (∀ s x, string_literal lit s → x = None →
    parse_string_field fuel raw o x = Parsed (s, o + length lit)) as Hstr.
  { intros s x Hs ->. apply parse_string_field_Parsed. split; [done|]. by eapply parse_string_complete. }
  unfold envelope_members in He. unfold field_list in Hf. cbn [fmap list_fmap] in Hf.
  repeat (apply elem_of_cons in He as [He|He]; [injection He as -> ->|]); [..|by apply elem_of_nil in He];
    repeat (apply elem_of_cons in Hf as [Hf|Hf];
      [first [discriminate Hf | injection Hf as Hf; symmetry in Hf; apply fmap_None in Hf; simpl in Hf; subst]|]);
    try (by apply elem_of_nil in Hf); unfold parse_field; simpl in Hl |- *.
  5: erewrite parse_u64_complete by done.
  all: try (rewrite (Hstr _ None) by done); by eexists.
Qed.

(** *** The members *)

Lemma whitespace_class b : is_whitespace b = true → is_ascii_digit b = false ∧ is_ascii b = true.
Proof. by destruct b. Qed.

Lemma white_head w c t :
  white w → is_ascii_digit c = false → is_ascii c = true →
  ∃ b t', w ++ c :: t = b :: t' ∧ is_ascii_digit b = false ∧ is_ascii b = true.
Proof.
  destruct w as [|b w]; intros Hw Hc Ha; [by exists c, t|].
  apply andb_true_iff in Hw as [Hb _]. exists b, (w ++ c :: t). split; [done|]. by apply whitespace_class.
Qed.

Lemma consume_at b o t : drop o raw = b :: t → consume_byte raw b o = Parsed (S o).
Proof.
  intros Hd. apply consume_byte_Parsed. split; [|done].
  pose proof (drop_lookup_app _ [b] t _ 0 b Hd eq_refl) as H0. by rewrite Nat.add_0_r in H0.
Qed.

Lemma number_literal_head lit z : number_literal lit z → ∃ b l, lit = b :: l ∧ is_whitespace b = false.
Proof.
  intros [[-> _]|(b & l & -> & Hb & _)]; [by exists x30, []|]. exists b, l. split; [done|].
  by destruct b.
Qed.

Lemma value_literal_head lit v : value_literal lit v → ∃ b l, lit = b :: l ∧ is_whitespace b = false.
Proof. destruct v; simpl; [intros (body & -> & _); by exists x22, (body ++ [x22])|apply number_literal_head]. Qed.

(** A member in front of [c] is read up to [c]. *)
Lemma members_step n f o txt k v c t :
  drop o raw = txt ++ c :: t → member_text txt (k, v) → c = x7d ∨ c = x2c →
  typed k v → (k, None) ∈ field_list f →
  ∃ f', stored k v f f' ∧
    parse_members fuel raw (S n) f o =
      (if c == x7d then Parsed (f', S (o + length txt)) else parse_members fuel raw n f' (S (o + length txt))).
Proof using Hraw Hfuel.
  intros Hd (w1 & kl & w2 & w3 & vl & w4 & -> & Hw1 & Hw2 & Hw3 & Hw4 & Hk & Hv) Hc Ht Hf. simpl in Hk, Hv.
  assert (is_ascii_digit c = false ∧ is_ascii c = true ∧ is_whitespace c = false) as (Hc1 & Hc2 & Hc3)
    by by destruct Hc as [-> | ->].
  rewrite <-!app_assoc in Hd. cbn [parse_members].
  erewrite skip_whitespace_complete; [|exact Hd|done|].
  2: { destruct Hk as (? & -> & _). by intros ?? [= <- _]. }
  cbn [mbind parsed_bind]. apply drop_app_next in Hd.
  erewrite parse_string_complete by done. cbn [mbind parsed_bind]. apply drop_app_next in Hd.
  erewrite skip_whitespace_complete; [|exact Hd|done|by intros ?? [= <- _]].
  cbn [mbind parsed_bind]. apply drop_app_next in Hd. erewrite consume_at by exact Hd.
  cbn [mbind parsed_bind]. apply drop_app_next in Hd. rewrite Nat.add_1_r in Hd.
  erewrite skip_whitespace_complete; [|exact Hd|done|].
  2: { destruct (value_literal_head _ _ Hv) as (b & l & -> & Hb). by intros ?? [= <- _]. }
  cbn [mbind parsed_bind]. apply drop_app_next in Hd.
  destruct (white_head w4 c t Hw4 Hc1 Hc2) as (b & t' & Hb & Hb1 & Hb2).
  pose proof Hd as Hd'. rewrite Hb in Hd'.
  destruct (parse_field_complete _ _ f _ _ _ _ Hd' Hv Hb1 Hb2 Ht Hf) as (f' & -> & Hs).
  cbn [mbind parsed_bind]. apply drop_app_next in Hd.
  erewrite skip_whitespace_complete; [|exact Hd|done|by intros ?? [= <- _]].
  cbn [mbind parsed_bind]. apply drop_app_next in Hd.
  pose proof (drop_lookup_app _ [c] t _ 0 c Hd eq_refl) as H0. rewrite Nat.add_0_r in H0.
  unfold peek_byte. rewrite H0. cbn [require mbind parsed_bind].
  exists f'. split; [done|].
  assert (∀ x, x = o + length (w1 ++ kl ++ w2 ++ [x3a] ++ w3 ++ vl ++ w4) →
    (if c == x7d then Parsed (f', S x) else if c == x2c then parse_members fuel raw n f' (S x) else Rejected) =
    (if c == x7d then Parsed (f', S (o + length (w1 ++ kl ++ w2 ++ [x3a] ++ w3 ++ vl ++ w4)))
     else parse_members fuel raw n f' (S (o + length (w1 ++ kl ++ w2 ++ [x3a] ++ w3 ++ vl ++ w4))))) as Hx.
  { intros x ->. by destruct Hc as [-> | ->]. }
  apply Hx. rewrite !length_app. simpl. lia.
Qed.

Lemma free_key f kvs k v : holds f kvs → typed k v → k ∉ kvs.*1 → (k, None) ∈ field_list f.
Proof.
  intros [_ Hm] [e He] Hk.
  assert (k ∈ (field_list f).*1) as ([k' x] & Heq & Hx)%list_elem_of_fmap.
  { rewrite (field_list_keys f e). apply list_elem_of_fmap. by exists (k, v). }
  simpl in Heq. subst k'. destruct x as [v'|]; [|done]. exfalso. apply Hk. apply list_elem_of_fmap.
  exists (k, v'). split; [done|]. by apply Hm.
Qed.

Lemma parse_members_complete body kvs t n f o pre :
  members_text body kvs → drop o raw = body ++ x7d :: t → holds f pre →
  Forall (λ kv, typed kv.1 kv.2) kvs → NoDup (pre ++ kvs).*1 → length kvs ≤ n →
  ∃ f', parse_members fuel raw n f o = Parsed (f', S (o + length body)) ∧ holds f' (reverse kvs ++ pre).
Proof using Hraw Hfuel.
  intros Hb. revert n f o pre. induction Hb as [txt [k v] Hm|txt [k v] rest kvs Hm Hb IH];
    intros n f o pre Hd Hh Ht Hn Hl; (destruct n as [|n]; [simpl in Hl; lia|]);
    apply Forall_cons in Ht as [Hkv Ht]; simpl in Hkv;
    rewrite fmap_app in Hn; apply NoDup_app in Hn as (Hn1 & Hdis & Hn2);
    assert ((k, None) ∈ field_list f) as Hfree
      by (eapply free_key; [done..|]; intros Hk; eapply Hdis; [done|]; simpl; left).
  - destruct (members_step n f o txt k v x7d t Hd Hm (or_introl eq_refl) Hkv Hfree) as (f' & Hs & ->).
    exists f'. split; [done|]. by eapply holds_store.
  - rewrite <-!app_assoc in Hd.
    destruct (members_step n f o txt k v x2c _ Hd Hm (or_intror eq_refl) Hkv Hfree) as (f' & Hs & ->).
    pose proof (holds_store _ _ _ _ _ Hh Hfree Hs) as Hh'.
    destruct (IH n f' (S (o + length txt)) ((k, v) :: pre)) as (f'' & Hp & Hh'').
    + apply drop_app_next in Hd. apply (drop_app_next _ [x2c]) in Hd. by rewrite Nat.add_1_r in Hd.
    + done.
    + done.
    + apply NoDup_cons in Hn2 as [Hk2 Hn2]. simpl. apply NoDup_cons. rewrite fmap_app. split.
      * rewrite elem_of_app. intros [?|?]; [|done]. eapply Hdis; [done|]. simpl. left.
      * apply NoDup_app. split_and!; [done| |done]. intros x Hx Hx'. eapply Hdis; [done|]. simpl. by right.
    + simpl in Hl. lia.
    + exists f''. simpl. rewrite Hp. split; [do 2 f_equal; rewrite !length_app; simpl; lia|].
      by rewrite reverse_cons, <-app_assoc.
Qed.

Lemma consume_byte_sound b o o' : consume_byte raw b o = Parsed o' → drop o raw = [b] ++ drop o' raw.
Proof. intros [Ho ->]%consume_byte_Parsed. by apply drop_S. Qed.

Lemma parse_members_sound n f o f' o' pre :
  utf8_text raw → holds f pre → parse_members fuel raw n f o = Parsed (f', o') →
  ∃ body kvs, drop o raw = body ++ x7d :: drop o' raw ∧ members_text body kvs ∧
    holds f' (reverse kvs ++ pre).
Proof using Hraw Hfuel.
  intros Hu. revert f o pre. induction n as [|n IH]; intros f o pre Hh H; cbn [parse_members] in H; [done|].
  apply parsed_bind_Parsed in H as (o1 & (w1 & Hd1 & Hw1)%skip_whitespace_sound & H).
  apply parsed_bind_Parsed in H as ([k o2] & (kl & Hd2 & Hk)%parse_string_sound & H); [|done..].
  apply parsed_bind_Parsed in H as (o3 & (w2 & Hd3 & Hw2)%skip_whitespace_sound & H).
  apply parsed_bind_Parsed in H as (o4 & Hd4%consume_byte_sound & H).
  apply parsed_bind_Parsed in H as (o5 & (w3 & Hd5 & Hw3)%skip_whitespace_sound & H).
  apply parsed_bind_Parsed in H as ([f1 o6] & (vl & v & Hd6 & Hv & Hfree & Hs)%parse_field_sound & H); [|done].
  apply parsed_bind_Parsed in H as (o7 & (w4 & Hd7 & Hw4)%skip_whitespace_sound & H).
  apply parsed_bind_Parsed in H as (c & Hc%require_Parsed & H).
  pose proof (drop_S _ _ _ Hc) as Hd8. pose proof (holds_store _ _ _ _ _ Hh Hfree Hs) as Hh1.
  set (txt := w1 ++ kl ++ w2 ++ [x3a] ++ w3 ++ vl ++ w4).
  assert (drop o raw = txt ++ c :: drop (S o7) raw) as Hd.
  { unfold txt. rewrite Hd1, Hd2, Hd3, Hd4, Hd5, Hd6, Hd7, Hd8. by rewrite <-!app_assoc. }
  assert (member_text txt (k, v)) as Hm by (exists w1, kl, w2, w3, vl, w4; done).
  clearbody txt. case_bool_decide as Hc7; [|case_bool_decide as Hc2; [|done]]; subst c.
  - injection H as <- <-. exists txt, [(k, v)]. split_and!; [done|by constructor|done].
  - apply (IH _ _ ((k, v) :: pre)) in H as (body & kvs & Hb & Hms & Hh2); [|done].
    exists (txt ++ [x2c] ++ body), ((k, v) :: kvs). split_and!.
    + by rewrite Hd, Hb, <-!app_assoc.
    + by constructor.
    + by rewrite reverse_cons, <-app_assoc.
Qed.

Lemma parse_sound e : utf8_text raw → parse fuel raw = Parsed e → envelope_text raw e.
Proof using Hraw Hfuel.
  intros Hu H. unfold parse in H.
  apply parsed_bind_Parsed in H as (o1 & (w1 & Hd1 & Hw1)%skip_whitespace_sound & H).
  apply parsed_bind_Parsed in H as (o2 & Hd2%consume_byte_sound & H).
  apply parsed_bind_Parsed in H as (o3 & (w2 & Hd3 & Hw2)%skip_whitespace_sound & H).
  apply parsed_bind_Parsed in H as ([f o4] & H4 & H).
  apply parsed_bind_Parsed in H as (o5 & (w5 & Hd5 & Hw5)%skip_whitespace_sound & H).
  apply parsed_bind_Parsed in H as ([] & H6%refuse_Parsed & H).
  apply require_Parsed in H. apply negb_false_iff, Nat.eqb_eq in H6.
  rewrite (drop_ge raw o5), app_nil_r in Hd5 by lia.
  case_bool_decide; [by injection H4 as <- <-|].
  apply (parse_members_sound _ _ _ _ _ [] Hu holds_none) in H4 as (body & kvs & Hb & Hm & Hh).
  rewrite app_nil_r in Hh. apply (holds_finish _ _ _ Hh) in H.
  exists kvs. split; [|by rewrite <-H, reverse_Permutation].
  exists w1, (w2 ++ body), w5. split_and!; [|done..|by apply members_text_white].
  rewrite drop_0 in Hd1. by rewrite Hd1, Hd2, Hd3, Hb, Hd5, <-!app_assoc.
Qed.

Lemma parse_complete e : envelope_text raw e → parse fuel raw = Parsed e.
Proof using Hraw Hfuel.
  intros (kvs & (w & body & w' & Hd & Hw & Hw' & Hm) & Hp).
  destruct (members_text_head _ _ Hm) as (w2 & body' & -> & Hw2 & Hm' & t & Hbody).
  rewrite <-!app_assoc in Hd. pose proof (f_equal length Hd) as Hlen. rewrite !length_app in Hlen.
  rewrite <-(drop_0 raw) in Hd. unfold parse.
  erewrite skip_whitespace_complete; [|exact Hd|done|by intros ?? [= <- _]].
  cbn [mbind parsed_bind]. apply drop_app_next in Hd. erewrite consume_at by exact Hd.
  cbn [mbind parsed_bind]. apply drop_app_next in Hd. rewrite Nat.add_1_r in Hd.
  erewrite skip_whitespace_complete; [|exact Hd|done|subst body'; by intros ?? [= <- _]].
  cbn [mbind parsed_bind]. apply drop_app_next in Hd.
  assert (peek_byte raw (S (0 + length w) + length w2) = Some x22) as Hpeek.
  { unfold peek_byte. rewrite Hbody in Hd.
    pose proof (drop_lookup_app _ _ _ _ 0 x22 Hd eq_refl) as H0. by rewrite Nat.add_0_r in H0. }
  rewrite Hpeek, bool_decide_false by done.
  destruct (parse_members_complete body' kvs w' fuel no_fields (S (0 + length w) + length w2) [])
    as (f & Hf & Hh); [done|done|apply holds_none| | | |].
  { apply Forall_forall. intros [k v] Hkv. exists e. by rewrite Hp in Hkv. }
  { simpl. rewrite Hp. apply envelope_members_keys. }
  { apply members_text_length in Hm'. apply (f_equal length) in Hd.
    rewrite length_drop, length_app in Hd. lia. }
  rewrite Hf. cbn [mbind parsed_bind]. rewrite app_nil_r in Hh.
  apply drop_app_next, (drop_app_next raw [x7d]) in Hd. rewrite Nat.add_1_r in Hd.
  rewrite <-(app_nil_r w') in Hd.
  erewrite skip_whitespace_complete; [|exact Hd|done|done]. cbn [mbind parsed_bind].
  rewrite (proj2 (Nat.eqb_eq _ _)) by (simpl in *; lia). cbn [negb refuse mbind parsed_bind].
  apply require_Parsed, (holds_finish _ _ _ Hh). by rewrite reverse_Permutation.
Qed.
End document.

(** ** Fuel *)

(** More fuel only turns an exhausted run into a result. *)
Definition improves {A} (m m' : parsed A) : Prop := m = Exhausted ∨ m = m'.

Lemma improves_refl {A} (m : parsed A) : improves m m.
Proof. by right. Qed.

Lemma improves_bind {A B} (m m' : parsed A) (f f' : A → parsed B) :
  improves m m' → (∀ a, improves (f a) (f' a)) → improves (m ≫= f) (m' ≫= f').
Proof. intros [-> | ->] Hf; [by left|]. destruct m'; simpl; [apply Hf|by right|by left]. Qed.

#[local] Hint Resolve improves_refl : core.

(** Compares two runs of the same code statement by statement. *)
Ltac improve :=
  repeat lazymatch goal with
  | |- improves ?m ?m => apply improves_refl
  | |- improves (mbind _ _) (mbind _ _) => apply improves_bind; [|intros ?]
  | |- improves (if ?c then _ else _) _ => destruct c
  | |- improves (let '(_, _) := ?p in _) _ => destruct p
  | |- improves (match ?p with _ => _ end) _ => destruct p
  end.

Section fuel.
Context (raw : bytes).

Lemma skip_loop_mono p n n' o : n ≤ n' → improves (skip_loop raw p n o) (skip_loop raw p n' o).
Proof.
  revert n' o. induction n as [|n IH]; intros n' o Hn; cbn [skip_loop].
  - destruct n'; cbn [skip_loop]; destruct (peek_byte raw o) as [b|]; try (destruct (p b)); auto; by left.
  - destruct n' as [|n']; [lia|]. cbn [skip_loop]. destruct (peek_byte raw o) as [b|]; [|auto].
    destruct (p b); [|auto]. apply IH. lia.
Qed.

Lemma scan_string_mono n n' start o : n ≤ n' → improves (scan_string raw n start o) (scan_string raw n' start o).
Proof.
  revert n' o. induction n as [|n IH]; intros n' o Hn; [by left|]. destruct n' as [|n']; [lia|].
  cbn [scan_string]. improve; apply IH; lia.
Qed.

Lemma parse_string_mono n n' o : n ≤ n' → improves (parse_string n raw o) (parse_string n' raw o).
Proof. intros Hn. unfold parse_string. improve. by apply scan_string_mono. Qed.

Lemma parse_field_mono n n' k f o : n ≤ n' → improves (parse_field n raw k f o) (parse_field n' raw k f o).
Proof.
  intros Hn. unfold parse_field, parse_string_field, parse_u64. destruct f.
  improve; first [by apply parse_string_mono | by apply skip_loop_mono].
Qed.

Lemma parse_members_mono m m' n n' f o :
  m ≤ m' → n ≤ n' → improves (parse_members m raw n f o) (parse_members m' raw n' f o).
Proof.
  intros Hm. revert n' f o. induction n as [|n IH]; intros n' f o Hn; [by left|]. destruct n' as [|n']; [lia|].
  cbn [parse_members]. unfold skip_whitespace.
  improve; first [by apply skip_loop_mono | by apply parse_string_mono | by apply parse_field_mono | apply IH; lia].
Qed.

Lemma parse_mono n n' : n ≤ n' → improves (parse n raw) (parse n' raw).
Proof.
  intros Hn. unfold parse, skip_whitespace.
  improve; first [by apply skip_loop_mono | by apply parse_members_mono].
Qed.
End fuel.

(** ** Sizes *)

Lemma string_item_length quotes r d : string_item quotes r d → length d ≤ length r.
Proof.
  destruct 1 as [| | |q z Hq|q q' hi lo Hq Hq']; simpl; try lia.
  - pose proof (encode_utf8_length z). apply hex4_length in Hq. lia.
  - pose proof (encode_utf8_length (65536 + (hi - 55296) * 1024 + (lo - 56320))).
    apply hex4_length in Hq. rewrite length_app. lia.
Qed.

Lemma string_literal_length lit s : string_literal lit s → String.length s + 2 ≤ length lit.
Proof.
  intros (body & -> & Hb). simpl. rewrite length_app, <-length_as_bytes. simpl.
  assert (length (as_bytes s) ≤ length body); [|lia].
  induction Hb as [|r d rs ds Hi Hb IH]; [done|]. rewrite !length_app. apply string_item_length in Hi. lia.
Qed.

(** The bytes of the text fields. *)
Definition value_size (v : member_value) : nat :=
  match v with Text s => String.length s | Number _ => 0 end.
Definition members_size (kvs : list (string * member_value)) : nat :=
  sum_list_with (λ kv, value_size kv.2) kvs.

#[export] Instance members_size_perm : Proper ((≡ₚ) ==> (=)) members_size.
Proof. unfold members_size. intros l l' Hl. induction Hl; simpl; lia. Qed.

Lemma members_text_size body kvs : members_text body kvs → members_size kvs ≤ length body.
Proof.
  assert (∀ txt kv, member_text txt kv → value_size kv.2 ≤ length txt) as H1.
  { intros txt [k v] (w1 & kl & w2 & w3 & vl & w4 & -> & _ & _ & _ & _ & _ & Hv). simpl in Hv.
    rewrite !length_app. destruct v; simpl in *; [apply string_literal_length in Hv; lia|lia]. }
  induction 1 as [txt kv Hm|txt kv rest kvs Hm Hb IH]; apply H1 in Hm; unfold members_size in *; simpl.
  - lia.
  - rewrite length_app. simpl. lia.
Qed.

(** ** What the parser promises *)

(** C25. The parser accepts exactly the texts of the grammar: a UTF-8 text parses to an envelope
    if and only if it is one JSON object whose members are those of the envelope, each exactly
    once, in any order, with any white space and any escapes. *)
Theorem report_parser_exact raw e :
  (blen raw ≤ U64_MAX)%Z → utf8_text raw →
  parse_envelope raw = Parsed e ↔ envelope_text raw e.
Proof.
  intros Hraw Hu. split; intros H.
  - by apply (parse_sound (S (length raw)) raw Hraw ltac:(lia)).
  - by apply (parse_complete (S (length raw)) raw Hraw ltac:(lia)).
Qed.

(** The parser terminates on every byte string: the fuel of [parse_envelope] is never used
    up, and more fuel does not change the result. *)
Theorem report_parser_terminates raw fuel :
  length raw < fuel → parse fuel raw = parse_envelope raw ∧ parse fuel raw ≠ Exhausted.
Proof.
  intros Hf. assert (parse fuel raw ≠ Exhausted) by (apply parse_total; lia). split; [|done].
  unfold parse_envelope. destruct (parse_mono raw (S (length raw)) fuel ltac:(lia)) as [He | ->]; [|done].
  exfalso. eapply parse_total; [|exact He]. lia.
Qed.

(** C39. Decoding never grows a string, on any input (the debug assertion of the code), and the
    text fields of a parsed envelope together are no longer than its text. *)
Theorem report_parser_bounded :
  (∀ s d, decode_json_string s = Parsed d → length d ≤ length s) ∧
  (∀ raw e, (blen raw ≤ U64_MAX)%Z → utf8_text raw → parse_envelope raw = Parsed e →
     members_size (envelope_members e) ≤ length raw).
Proof.
  split.
  - intros s d H. apply decode_loop_length in H; simpl in *; lia.
  - intros raw e Hraw Hu H.
    destruct (parse_sound (S (length raw)) raw Hraw ltac:(lia) e Hu H)
      as (kvs & (w & body & w' & -> & _ & _ & Hm) & Hp).
    rewrite <-Hp. apply members_text_size in Hm. rewrite !length_app. lia.
Qed.

(** ** Witnesses *)

(** A text with apostrophes for quotation marks. *)
Definition quoted (s : string) : bytes := map (λ b, if b == x27 then x22 else b) (as_bytes s).

Definition sample_text : bytes :=
  quoted " { 'kind' : 'k\u00e9\ud83d\ude00','schema':'s\n' ,'algorithm':'a','deviceId':'d','journalSequence':42 , 'journalEntryHash':'h','payloadMediaType':'m','payloadSha256':'x','publicKey':'p','payload':'','signature':'g'} ".

Definition sample_envelope : SignedReportEnvelope :=
  mkSignedReportEnvelope (of_bytes [x73; x0a]) (of_bytes [x6b; xc3; xa9; xf0; x9f; x98; x80])
    "a" "d" 42 "h" "m" "x" "" "p" "g".

Lemma sample_text_utf8 : utf8_text sample_text.
Proof. apply ascii_text. vm_compute. done. Qed.

Lemma report_parser_exact_witness : envelope_text sample_text sample_envelope.
Proof.
  apply (report_parser_exact sample_text sample_envelope).
  - vm_compute. discriminate.
  - exact sample_text_utf8.
  - vm_compute. reflexivity.
Defined.

Lemma report_parser_terminates_witness :
  parse 1000 sample_text = parse_envelope sample_text ∧ parse 1000 sample_text ≠ Exhausted.
Proof. apply (report_parser_terminates sample_text 1000). vm_compute. lia. Defined.

Lemma report_parser_bounded_witness :
  members_size (envelope_members sample_envelope) ≤ length sample_text.
Proof.
  apply (proj2 report_parser_bounded sample_text sample_envelope).
  - vm_compute. discriminate.
  - exact sample_text_utf8.
  - vm_compute. reflexivity.
Defined.
