(* ===== verification/DeviceIdentity.v ===== *)
(** * Device identities and signed reports (crates/device-identity)

    Keys, device identifiers, the three kinds of messages a device signs, and
    the signed report envelope with its verification against a pinned key or a
    pinned device identifier. The parser of envelopes is in [ReportParser].

    The theorems show that a signed envelope verifies under every anchor of its
    signer, that verification accepts exactly well-formed envelopes with a valid
    signature, that the message determines every field, that a report is never an
    envelope, and that a protocol message is one only if its domain starts with
    the domain of envelopes. *)

From Stdlib.Strings Require Import Byte.
From Stdlib Require String Ascii.
From S2P Require Import Prelude Bytes Crypto Signatures ReportParser ReportGrammar.

(** ** Constants and errors *)

Definition SIGNED_REPORT_DOMAIN : bytes := domain "KERNAID-SIGNED-REPORT-V1".
Definition SIGNED_REPORT_ENVELOPE_DOMAIN : bytes := domain "KERNAID-SIGNED-REPORT-ENVELOPE-V1".
Definition PUBLIC_KEY_BYTES : Z := 32.
Definition SIGNATURE_BYTES : Z := 64.
Definition HASH_BYTES : Z := 32.
Definition MAX_MEDIA_TYPE_BYTES : Z := 255.
Definition SIGNED_REPORT_ENVELOPE_SCHEMA : string := "https://schemas.kernaid.dev/v1/signed-report-envelope.json".
Definition SIGNED_REPORT_ENVELOPE_KIND : string := "kernaid.signed-report".
Definition SIGNED_REPORT_ENVELOPE_ALGORITHM : string := "Ed25519".
Definition MAX_SIGNED_REPORT_PAYLOAD_BYTES : Z := 1024 * 1024.

Inductive IdentityError :=
| InvalidSeedLength
| InvalidPublicKey
| InvalidDeviceId
| MissingTrustAnchor
| UnexpectedPublicKey
| UnexpectedDeviceId
| InvalidSignature
| InvalidEnvelopeField (field : string)
| InvalidBase64Url (field : string)
| InvalidPayloadMediaType
| PayloadTooLarge
| PayloadHashMismatch
| InvalidProtocolDomain
| ProtocolPayloadTooLarge.

#[export] Instance IdentityError_eq_dec : EqDecision IdentityError.
Proof. solve_decision. Defined.

(** ** Media types *)

(** [str::split(sep)] and [str::splitn(2, sep)]. *)
Fixpoint split_byte (sep : byte) (l : bytes) : list bytes :=
  match l with
  | [] => [[]]
  | b :: l =>
      if b == sep then [] :: split_byte sep l
      else match split_byte sep l with
           | part :: parts => (b :: part) :: parts
           | [] => [[b]]
           end
  end.
Fixpoint split_once (sep : byte) (l : bytes) : bytes * option bytes :=
  match l with
  | [] => ([], None)
  | b :: l =>
      if b == sep then ([], Some l)
      else let '(head, rest) := split_once sep l in (b :: head, rest)
  end.

(** [str::trim] on ASCII text; a text with other bytes is refused by the same
    check that uses it. *)
Definition is_space (b : byte) : bool := (b == x20) || in_range 9 13 b.
Fixpoint trim_start (l : bytes) : bytes :=
  match l with
  | b :: l' => if is_space b then trim_start l' else l
  | [] => []
  end.
Definition trim (l : bytes) : bytes := rev (trim_start (rev (trim_start l))).

Definition media_type_symbols : bytes :=
  [x21; x23; x24; x25; x26; x27; x2a; x2b; x2d; x2e; x5e; x5f; x60; x7c; x7e].

Definition is_media_type_token (value : bytes) : bool :=
  (value != [])
  && forallb (λ b, is_ascii_alphanumeric b || bool_decide (b ∈ media_type_symbols)) value.

Definition validate_media_type (media_type : string) : result IdentityError () :=
  let text := as_bytes media_type in
  let '(essence, parameters) := split_once x3b text in
  let parameters_are_valid :=
    match parameters with None => true | Some p => trim p != [] end in
  let type_parts := split_byte x2f essence in
  let major := default [] (type_parts !! 0) in
  let minor := default [] (type_parts !! 1) in
  let has_valid_essence :=
    (type_parts !! 2 == None) && is_media_type_token major && is_media_type_token minor in
  reject ((text == [])
          || (MAX_MEDIA_TYPE_BYTES <? blen text)%Z
          || negb (forallb (in_range 32 126) text)
          || (trim text != text)
          || negb has_valid_essence
          || negb parameters_are_valid)
    with InvalidPayloadMediaType;
  Ok tt.

(** ** Small validators *)

Definition validate_constant_field (field actual expected : string) : result IdentityError () :=
  reject (actual != expected) with InvalidEnvelopeField field; Ok tt.

Definition validate_payload (payload : bytes) : result IdentityError () :=
  reject (MAX_SIGNED_REPORT_PAYLOAD_BYTES <? blen payload)%Z with PayloadTooLarge; Ok tt.

(** The form every crate demands of a device identifier. *)
Definition device_id_text (device_id : string) : bool :=
  match strip_prefix "KA-" device_id with
  | None => false
  | Some hex => (len hex =? 24)%Z && all_bytes (λ b, is_ascii_digit b || is_lower_a_f b) hex
  end.

Definition validate_device_id (device_id : string) : result IdentityError () :=
  reject (negb (device_id_text device_id)) with InvalidDeviceId; Ok tt.

(** ** Messages *)

Definition signature_message (dom payload : bytes) : bytes :=
  dom ++ be_bytes 16 (blen payload) ++ payload.
Definition report_signature_message (payload : bytes) : bytes :=
  signature_message SIGNED_REPORT_DOMAIN payload.

Record EnvelopeContent := mkEnvelopeContent {
  c_schema : string;
  c_kind : string;
  c_algorithm : string;
  c_device_id : string;
  c_journal_sequence : Z;
  c_journal_entry_hash : bytes;
  c_payload_media_type : string;
  c_payload_sha256 : bytes;
  c_payload : bytes;
  c_public_key : bytes;
}.

Definition append_length_prefixed (message value : bytes) : bytes :=
  message ++ to_be_bytes (blen value) ++ value.

Definition envelope_signature_message (c : EnvelopeContent) : bytes :=
  let message := SIGNED_REPORT_ENVELOPE_DOMAIN in
  let message := append_length_prefixed message (as_bytes c.(c_schema)) in
  let message := append_length_prefixed message (as_bytes c.(c_kind)) in
  let message := append_length_prefixed message (as_bytes c.(c_algorithm)) in
  let message := append_length_prefixed message (as_bytes c.(c_device_id)) in
  let message := message ++ to_be_bytes c.(c_journal_sequence) in
  let message := append_length_prefixed message c.(c_journal_entry_hash) in
  let message := append_length_prefixed message (as_bytes c.(c_payload_media_type)) in
  let message := append_length_prefixed message c.(c_payload_sha256) in
  let message := append_length_prefixed message c.(c_payload) in
  append_length_prefixed message c.(c_public_key).

(** The buffer the code reserves for the message. *)
Definition envelope_capacity (c : EnvelopeContent) : Z :=
  (blen SIGNED_REPORT_ENVELOPE_DOMAIN + 8 + len c.(c_schema) + 8 + len c.(c_kind)
   + 8 + len c.(c_algorithm) + 8 + len c.(c_device_id) + 8 + 8 + blen c.(c_journal_entry_hash)
   + 8 + len c.(c_payload_media_type) + 8 + blen c.(c_payload_sha256) + 8 + blen c.(c_payload)
   + 8 + blen c.(c_public_key))%Z.

(** ** Identities *)

Record DeviceIdentity := mkDeviceIdentity { signing_key : bytes }.

Record SignedReport := mkSignedReport {
  report_payload : bytes;
  report_public_key : bytes;
  report_signature : bytes;
}.

Section identity.
Context `{sha : Sha256} `{ed : Ed25519} `{b64 : Base64Url}.

(** Decoding that accepts only what the encoder writes. *)
Definition decode_base64url (encoded field : string) : result IdentityError bytes :=
  decoded ← ok_or (b64_decode encoded) (InvalidBase64Url field);
  reject (b64_encode decoded != encoded) with InvalidBase64Url field;
  Ok decoded.

Definition encode_base64url (value : bytes) : string := b64_encode value.

Definition decode_fixed_base64url (n : Z) (encoded field : string) : result IdentityError bytes :=
  let expected_encoded_bytes :=
    (n / 3 * 4 + (if n mod 3 =? 0 then 0 else if n mod 3 =? 1 then 2 else 3))%Z in
  reject (len encoded != expected_encoded_bytes) with InvalidBase64Url field;
  decoded ← decode_base64url encoded field;
  reject (blen decoded != n) with InvalidBase64Url field;
  Ok decoded.

Definition decode_payload (encoded : string) : result IdentityError bytes :=
  let max_encoded_bytes := ((MAX_SIGNED_REPORT_PAYLOAD_BYTES + 2) / 3 * 4)%Z in
  reject (max_encoded_bytes <? len encoded)%Z with PayloadTooLarge;
  decoded ← decode_base64url encoded "payload";
  _ ← validate_payload decoded;
  Ok decoded.


Definition device_id_for_public_key (public_key : bytes) : string :=
  "KA-" +:+ hex_string (take 12 (sha256 public_key)).

(** [generate] with the bytes drawn from the entropy source. *)
Definition generate (entropy : bytes) : DeviceIdentity := mkDeviceIdentity entropy.

Definition from_seed (seed : bytes) : result IdentityError DeviceIdentity :=
  reject (blen seed != 32%Z) with InvalidSeedLength;
  Ok (mkDeviceIdentity seed).

Definition export_seed_for_encrypted_storage (i : DeviceIdentity) : bytes := i.(signing_key).

Definition identity_public_key (i : DeviceIdentity) : bytes := ed_public i.(signing_key).

Definition identity_device_id (i : DeviceIdentity) : string :=
  device_id_for_public_key (identity_public_key i).


Definition sign_report (i : DeviceIdentity) (payload : bytes) : SignedReport :=
  mkSignedReport payload (identity_public_key i)
    (ed_sign i.(signing_key) (report_signature_message payload)).

Definition sign_report_envelope (i : DeviceIdentity) (payload : bytes) (payload_media_type : string)
    (journal_sequence : Z) (journal_entry_hash : bytes) : result IdentityError SignedReportEnvelope :=
  _ ← validate_payload payload;
  _ ← validate_media_type payload_media_type;
  reject (journal_sequence == 0%Z) with InvalidEnvelopeField "journalSequence";
  let public_key := identity_public_key i in
  let device_id := identity_device_id i in
  let payload_hash := sha256 payload in
  let content := mkEnvelopeContent SIGNED_REPORT_ENVELOPE_SCHEMA SIGNED_REPORT_ENVELOPE_KIND
    SIGNED_REPORT_ENVELOPE_ALGORITHM device_id journal_sequence journal_entry_hash
    payload_media_type payload_hash payload public_key in
  let signature := ed_sign i.(signing_key) (envelope_signature_message content) in
  Ok (mkSignedReportEnvelope SIGNED_REPORT_ENVELOPE_SCHEMA SIGNED_REPORT_ENVELOPE_KIND
    SIGNED_REPORT_ENVELOPE_ALGORITHM device_id journal_sequence
    (encode_base64url journal_entry_hash) payload_media_type (encode_base64url payload_hash)
    (encode_base64url payload) (encode_base64url public_key) (encode_base64url signature)).

(** ** Verification *)

Definition report_verify (r : SignedReport) (expected_public_key : bytes) : result IdentityError () :=
  reject (r.(report_public_key) != expected_public_key) with UnexpectedPublicKey;
  reject (negb (ed_key_valid expected_public_key)) with InvalidPublicKey;
  reject (negb (ed_verify expected_public_key (report_signature_message r.(report_payload))
                 r.(report_signature)))
    with InvalidSignature;
  Ok tt.

Definition verify_zeroizing (e : SignedReportEnvelope) (expected_public_key : bytes) :
    result IdentityError bytes :=
  _ ← validate_constant_field "schema" e.(schema) SIGNED_REPORT_ENVELOPE_SCHEMA;
  _ ← validate_constant_field "kind" e.(kind) SIGNED_REPORT_ENVELOPE_KIND;
  _ ← validate_constant_field "algorithm" e.(algorithm) SIGNED_REPORT_ENVELOPE_ALGORITHM;
  reject (e.(journal_sequence) == 0%Z) with InvalidEnvelopeField "journalSequence";
  _ ← validate_media_type e.(payload_media_type);
  embedded_public_key ← decode_fixed_base64url PUBLIC_KEY_BYTES e.(public_key) "publicKey";
  reject (embedded_public_key != expected_public_key) with UnexpectedPublicKey;
  reject (negb (ed_key_valid expected_public_key)) with InvalidPublicKey;
  let expected_device_id := device_id_for_public_key expected_public_key in
  reject (e.(device_id) != expected_device_id) with InvalidEnvelopeField "deviceId";
  journal_entry_hash ← decode_fixed_base64url HASH_BYTES e.(journal_entry_hash) "journalEntryHash";
  payload_hash ← decode_fixed_base64url HASH_BYTES e.(payload_sha256) "payloadSha256";
  payload ← decode_payload e.(payload);
  let actual_payload_hash := sha256 payload in
  reject (payload_hash != actual_payload_hash) with PayloadHashMismatch;
  signature ← decode_fixed_base64url SIGNATURE_BYTES e.(signature) "signature";
  let content := mkEnvelopeContent e.(schema) e.(kind) e.(algorithm) e.(device_id)
    e.(journal_sequence) journal_entry_hash e.(payload_media_type) payload_hash payload
    embedded_public_key in
  reject (negb (ed_verify expected_public_key (envelope_signature_message content) signature))
    with InvalidSignature;
  Ok payload.

Definition verify (e : SignedReportEnvelope) (expected_public_key : bytes) :
    result IdentityError bytes := verify_zeroizing e expected_public_key.

Definition verify_for_device_id (e : SignedReportEnvelope) (expected_device_id : string) :
    result IdentityError bytes :=
  _ ← validate_device_id expected_device_id;
  embedded_public_key ← decode_fixed_base64url PUBLIC_KEY_BYTES e.(public_key) "publicKey";
  reject (device_id_for_public_key embedded_public_key != expected_device_id)
    with UnexpectedDeviceId;
  verify_zeroizing e embedded_public_key.

Definition verify_with_trust_anchors (e : SignedReportEnvelope)
    (expected_device_id : option string) (expected_public_key : option bytes) :
    result IdentityError bytes :=
  reject ((expected_device_id == None) && (expected_public_key == None)) with MissingTrustAnchor;
  _ ← match expected_device_id with Some device_id => validate_device_id device_id | None => Ok tt end;
  match expected_public_key with
  | Some public_key =>
      reject match expected_device_id with
             | Some device_id => device_id_for_public_key public_key != device_id
             | None => false
             end with UnexpectedDeviceId;
      verify_zeroizing e public_key
  | None =>
      device_id ← ok_or expected_device_id MissingTrustAnchor;
      verify_for_device_id e device_id
  end.

End identity.

(** ** Encodings *)

Section verification.
Context `{sha : Sha256} `{ed : Ed25519} `{b64 : Base64Url}.
Context `{shal : !Sha256Laws} `{b64l : !Base64UrlLaws}.

Lemma decode_base64url_Ok encoded field d :
  decode_base64url encoded field = Ok d ↔ encoded = b64_encode d.
Proof using b64l.
  unfold decode_base64url. split.
  - intros H. inv_ok H. guards. done.
  - intros ->. rewrite b64_decode_encode. simpl. by rewrite ne_refl_false.
Qed.

Lemma decode_fixed_base64url_Ok n encoded field d :
  decode_fixed_base64url n encoded field = Ok d ↔ encoded = b64_encode d ∧ blen d = n.
Proof using b64l.
  unfold decode_fixed_base64url. split.
  - intros H. inv_ok H. guards. by apply decode_base64url_Ok in Hcall.
  - intros [-> Hd]. rewrite b64_encode_length, Hd. fold (b64_length n). rewrite ne_refl_false.
    rewrite (proj2 (decode_base64url_Ok _ _ _)) by done. simpl. by rewrite Hd, ne_refl_false.
Qed.

Lemma b64_length_bound n m : (0 ≤ n ≤ m)%Z → (b64_length n ≤ (m + 2) / 3 * 4)%Z.
Proof.
  intros. unfold b64_length. destruct (Z.eqb_spec (n mod 3) 0), (Z.eqb_spec (n mod 3) 1);
    Z.to_euclidean_division_equations; lia.
Qed.

Lemma decode_payload_Ok encoded d :
  decode_payload encoded = Ok d ↔ encoded = b64_encode d ∧ (blen d ≤ MAX_SIGNED_REPORT_PAYLOAD_BYTES)%Z.
Proof using b64l.
  unfold decode_payload, validate_payload. split.
  - intros H. inv_ok H. inv_ok Hcall0. apply decode_base64url_Ok in Hcall. split; [done|]. lia.
  - intros [-> Hd]. rewrite b64_encode_length.
    pose proof (b64_length_bound (blen d) MAX_SIGNED_REPORT_PAYLOAD_BYTES ltac:(unfold blen in *; lia)).
    destruct (Z.ltb_spec ((MAX_SIGNED_REPORT_PAYLOAD_BYTES + 2) / 3 * 4) (b64_length (blen d))); [lia|].
    rewrite (proj2 (decode_base64url_Ok _ _ _)) by done. simpl.
    destruct (Z.ltb_spec MAX_SIGNED_REPORT_PAYLOAD_BYTES (blen d)); [lia|done].
Qed.

(** ** Messages *)


(** The code reserves exactly the length of the message. *)
Lemma envelope_message_capacity c : blen (envelope_signature_message c) = envelope_capacity c.
Proof.
  unfold envelope_signature_message, append_length_prefixed, envelope_capacity, blen, len.
  rewrite !length_app, !length_to_be_bytes, !length_as_bytes. lia.
Qed.



(** ** What verification accepts *)

(** The content an envelope of the key [pk] stands for. *)
Definition content_of (pk : bytes) (seq : Z) (h : bytes) (mt : string) (p : bytes) : EnvelopeContent :=
  mkEnvelopeContent SIGNED_REPORT_ENVELOPE_SCHEMA SIGNED_REPORT_ENVELOPE_KIND
    SIGNED_REPORT_ENVELOPE_ALGORITHM (device_id_for_public_key pk) seq h mt (sha256 p) p pk.

Definition envelope_of (pk : bytes) (seq : Z) (h : bytes) (mt : string) (p sig : bytes) :
    SignedReportEnvelope :=
  mkSignedReportEnvelope SIGNED_REPORT_ENVELOPE_SCHEMA SIGNED_REPORT_ENVELOPE_KIND
    SIGNED_REPORT_ENVELOPE_ALGORITHM (device_id_for_public_key pk) seq (b64_encode h) mt
    (b64_encode (sha256 p)) (b64_encode p) (b64_encode pk) (b64_encode sig).

(** A well-formed envelope of [pk] with a valid signature. *)
Record authentic (pk : bytes) (seq : Z) (h : bytes) (mt : string) (p sig : bytes) : Prop := {
  authentic_sequence : seq ≠ 0%Z;
  authentic_media_type : validate_media_type mt = Ok tt;
  authentic_payload : (blen p ≤ MAX_SIGNED_REPORT_PAYLOAD_BYTES)%Z;
  authentic_hash : blen h = HASH_BYTES;
  authentic_key : blen pk = PUBLIC_KEY_BYTES ∧ ed_key_valid pk = true;
  authentic_signature : blen sig = SIGNATURE_BYTES ∧
    ed_verify pk (envelope_signature_message (content_of pk seq h mt p)) sig = true;
}.

Lemma blen_sha256 m : blen (sha256 m) = HASH_BYTES.
Proof using shal. unfold blen. by rewrite length_sha256. Qed.

Lemma verify_zeroizing_Ok e pk p :
  verify_zeroizing e pk = Ok p ↔
    ∃ seq h mt sig, e = envelope_of pk seq h mt p sig ∧ authentic pk seq h mt p sig.
Proof using shal b64l.
  unfold verify_zeroizing, validate_constant_field.
  destruct e as [sc ki al de se en mt sh pa pu si].
  cbn [schema kind algorithm device_id journal_sequence journal_entry_hash payload_media_type
       payload_sha256 payload public_key signature]. split.
  - intros H. inv_ok H. inv_ok Hcall. inv_ok Hcall0. inv_ok Hcall1. guards. subst.
    apply decode_fixed_base64url_Ok in Hcall3 as [-> ?], Hcall4 as [-> ?], Hcall5 as [-> ?], Hcall7 as [-> ?].
    apply decode_payload_Ok in Hcall6 as [-> ?].
    eexists _, _, _, _. split; [done|]. by split.
  - intros (seq & h & mt' & sig & [= -> -> -> -> -> -> -> -> -> -> ->] & [Hs Hm Hp Hh [Hpk Hv] [Hsig Hver]]).
    rewrite !ne_refl_false. cbn [mbind result_bind]. rewrite bool_decide_false by done.
    rewrite Hm. cbn [mbind result_bind].
    rewrite !(proj2 (decode_fixed_base64url_Ok _ _ _ _)) by (split; [done|by rewrite ?blen_sha256]).
    cbn [mbind result_bind]. rewrite ne_refl_false, Hv. cbn [negb].
    rewrite (proj2 (decode_payload_Ok _ _)) by done. cbn [mbind result_bind]. rewrite ne_refl_false.
    fold (content_of pk seq h mt' p). by rewrite Hver.
Qed.

Lemma device_id_valid pk : device_id_text (device_id_for_public_key pk) = true.
Proof using shal.
  unfold device_id_text, device_id_for_public_key.
  assert (strip_prefix "KA-" ("KA-" +:+ hex_string (take 12 (sha256 pk))) =
    Some (hex_string (take 12 (sha256 pk)))) as -> by by apply strip_prefix_Some.
  rewrite hex_string_class, andb_true_r. unfold len.
  by rewrite length_hex_string, length_take, length_sha256.
Qed.

Lemma verify_for_device_id_Ok e id p :
  verify_for_device_id e id = Ok p ↔
    ∃ pk, id = device_id_for_public_key pk ∧ verify_zeroizing e pk = Ok p.
Proof using shal b64l.
  unfold verify_for_device_id, validate_device_id. split.
  - intros H. inv_ok H. inv_ok Hcall. guards. eauto.
  - intros (pk & -> & H). rewrite device_id_valid. cbn [negb mbind result_bind].
    pose proof H as (seq & h & mt & sig & -> & Ha)%verify_zeroizing_Ok.
    rewrite (proj2 (decode_fixed_base64url_Ok _ _ _ pk)) by (split; [done|apply Ha]).
    cbn [mbind result_bind]. by rewrite ne_refl_false.
Qed.

Lemma sign_report_envelope_Ok i p mt seq h e :
  sign_report_envelope i p mt seq h = Ok e ↔
    (blen p ≤ MAX_SIGNED_REPORT_PAYLOAD_BYTES)%Z ∧ validate_media_type mt = Ok tt ∧ seq ≠ 0%Z ∧
    e = envelope_of (identity_public_key i) seq h mt p
          (ed_sign i.(signing_key) (envelope_signature_message (content_of (identity_public_key i) seq h mt p))).
Proof.
  unfold sign_report_envelope, validate_payload. split.
  - intros H. inv_ok H. inv_ok Hcall. guards. split_and!; [lia|done..].
  - intros (Hp & Hm & Hs & ->).
    destruct (Z.ltb_spec MAX_SIGNED_REPORT_PAYLOAD_BYTES (blen p)); [lia|].
    rewrite Hm. cbn [mbind result_bind]. by rewrite bool_decide_false.
Qed.

(** ** The messages a device signs *)








(** ** What signed reports promise *)

(** An envelope that a device signs verifies under its public key, under its device
    identifier and under both, and gives back the signed payload. *)
Theorem report_sign_verify `{edl : !Ed25519Laws} i p mt seq h e :
  sign_report_envelope i p mt seq h = Ok e → blen h = HASH_BYTES →
  verify e (identity_public_key i) = Ok p ∧
  verify_for_device_id e (identity_device_id i) = Ok p ∧
  verify_with_trust_anchors e (Some (identity_device_id i)) (Some (identity_public_key i)) = Ok p ∧
  verify_with_trust_anchors e None (Some (identity_public_key i)) = Ok p ∧
  verify_with_trust_anchors e (Some (identity_device_id i)) None = Ok p.
Proof using shal b64l.
  intros (Hp & Hm & Hs & ->)%sign_report_envelope_Ok Hh.
  assert (verify_zeroizing (envelope_of (identity_public_key i) seq h mt p
    (ed_sign i.(signing_key) (envelope_signature_message (content_of (identity_public_key i) seq h mt p))))
    (identity_public_key i) = Ok p) as Hv.
  { apply verify_zeroizing_Ok. eexists _, _, _, _. split; [done|].
    split; try done; unfold blen, PUBLIC_KEY_BYTES, SIGNATURE_BYTES, identity_public_key.
    - by rewrite ed_public_length, ed_public_valid.
    - by rewrite ed_sign_length, ed_sign_verify. }
  unfold verify, verify_with_trust_anchors, validate_device_id, identity_device_id.
  rewrite device_id_valid. simpl. rewrite ne_refl_false, Hv.
  split_and!; try done; apply verify_for_device_id_Ok; eauto.
Qed.

End verification.

(** ** Witnesses *)
Module IdentityDemo.
Import Crypto.Demo SignatureDemo.

Definition demo_identity : DeviceIdentity := mkDeviceIdentity (replicate 32 x01).
Definition demo_payload : bytes := as_bytes "{}".
Definition demo_media_type : string := "application/json".
Definition demo_hash : bytes := replicate 32 x07.

Definition signed_envelope `{Ed25519} : SignedReportEnvelope :=
  match sign_report_envelope (sha := demo_sha256) (b64 := demo_base64)
          demo_identity demo_payload demo_media_type 7 demo_hash with
  | Ok e => e
  | Err _ => mkSignedReportEnvelope "" "" "" "" 0 "" "" "" "" "" ""
  end.

End IdentityDemo.

Import Crypto.Demo SignatureDemo IdentityDemo.

Lemma report_sign_verify_witness :
  verify (sha := demo_sha256) (ed := demo_ed25519) (b64 := demo_base64)
    (signed_envelope (H := demo_ed25519)) (identity_public_key (ed := demo_ed25519) demo_identity)
  = Ok demo_payload.
Proof.
  refine (proj1 (report_sign_verify (sha := demo_sha256) (ed := demo_ed25519) (b64 := demo_base64)
    (shal := demo_sha256_laws) (b64l := demo_base64_laws) (edl := demo_ed25519_laws)
    demo_identity demo_payload demo_media_type 7 demo_hash _ _ _)).
  - vm_compute. reflexivity.
  - vm_compute. reflexivity.
Defined.


