(* ===== verification/FleetAudit.v ===== *)
(** * Fleet audit events (crates/fleet-audit)

    A device signs each audit event; the events of a session form a hash chain,
    and a checkpoint keeps its durable tail. The file models the whole crate.
    The shared canonical JSON and the shared validators are instances of
    [CanonicalJson] and [Documents]; signatures are reports of [DeviceIdentity].
    The theorems are in [FleetAuditProperties]. *)

From Stdlib.Strings Require Import Byte.
From Stdlib Require String.
From S2P Require Import Prelude Bytes Crypto Signatures Ordered CanonicalJson Documents DeviceIdentity.

Definition AUDIT_ENVELOPE_SCHEMA : string := "dev.kernaid.fleet.audit-envelope.v1".
Definition AUDIT_CHECKPOINT_SCHEMA : string := "dev.kernaid.fleet.audit-checkpoint.v1".
Definition AUDIT_SIGNATURE_DOMAIN : bytes := domain "kernaid:fleet:audit:v1".
Definition MAX_EVENT_BYTES : Z := 64 * 1024.
Definition MAX_CHECKPOINT_BYTES : Z := 4 * 1024.
Definition MAX_TIMESTAMP_BYTES : Z := 64.
Definition MAX_EVIDENCE_DIGESTS : Z := 64.

(** [chrono::DateTime::parse_from_rfc3339(value).is_ok()]. *)
Class Rfc3339 : Type := rfc3339_valid : string → bool.

(** ** Data *)

Inductive AuditKind :=
| DiagnosticStarted | DiagnosticCompleted | RepairProposed | AuthorizationDecision
| RepairStarted | RepairCompleted | RollbackStarted | RollbackCompleted | PolicyApplied.
Inductive AuditOutcome := Pending | Started | Allowed | Succeeded | Failed | Denied | Cancelled.
Inductive AuditRisk := R0 | R1 | R2 | R3 | R4.

#[export] Instance AuditKind_eq_dec : EqDecision AuditKind.
Proof. solve_decision. Defined.
#[export] Instance AuditOutcome_eq_dec : EqDecision AuditOutcome.
Proof. solve_decision. Defined.
#[export] Instance AuditRisk_eq_dec : EqDecision AuditRisk.
Proof. solve_decision. Defined.

Inductive FleetAuditError :=
| InvalidField (field : string)
| InvalidEventSemantics
| InvalidJson
| UnsupportedJsonValue
| UnsafeInteger
| NonCanonicalJson
| EventTooLarge
| InvalidSignature
| UnexpectedTenant
| UnexpectedDevice
| InvalidChainStart
| UnexpectedChain
| NonContiguousSequence
| ChainFork
| SequenceExhausted.

#[export] Instance audit_errors : JsonErrors FleetAuditError := {|
  invalid_json := InvalidJson;
  unsupported_json_value := UnsupportedJsonValue;
  unsafe_integer := UnsafeInteger;
  non_canonical_json := NonCanonicalJson;
  document_too_large := EventTooLarge;
|}.

Record AuditEventContent := mkContent {
  content_tenant_id : string;
  content_session_id : string;
  content_event_id : string;
  content_sequence : N;
  content_previous_event_sha256 : option string;
  content_occurred_at : string;
  content_kind : AuditKind;
  content_outcome : AuditOutcome;
  content_risk : option AuditRisk;
  content_action_id : option string;
  content_target_sha256 : option string;
  content_report_sha256 : option string;
  content_evidence_sha256 : list string;
}.

Record SignedAuditEnvelope := mkEnvelope {
  schema : string;
  tenant_id : string;
  device_id : string;
  session_id : string;
  event_id : string;
  sequence : N;
  previous_event_sha256 : option string;
  occurred_at : string;
  kind : AuditKind;
  outcome : AuditOutcome;
  risk : option AuditRisk;
  action_id : option string;
  target_sha256 : option string;
  report_sha256 : option string;
  evidence_sha256 : list string;
  signature : string;
}.

Record UnsignedAuditEnvelope := mkUnsigned {
  u_schema : string;
  u_tenant_id : string;
  u_device_id : string;
  u_session_id : string;
  u_event_id : string;
  u_sequence : N;
  u_previous_event_sha256 : option string;
  u_occurred_at : string;
  u_kind : AuditKind;
  u_outcome : AuditOutcome;
  u_risk : option AuditRisk;
  u_action_id : option string;
  u_target_sha256 : option string;
  u_report_sha256 : option string;
  u_evidence_sha256 : list string;
}.

Record VerifiedAuditEnvelope := mkVerified {
  envelope : SignedAuditEnvelope;
  digest : bytes;
}.

Record AuditChainCheckpoint := mkCheckpoint {
  cp_schema : string;
  cp_tenant_id : string;
  cp_device_id : string;
  cp_session_id : string;
  last_sequence : N;
  last_event_sha256 : string;
}.

Inductive ChainAdmission := Advanced | IdempotentReplay.

(** ** The derived serializations *)

Definition kind_name (k : AuditKind) : string :=
  match k with
  | DiagnosticStarted => "diagnostic_started"
  | DiagnosticCompleted => "diagnostic_completed"
  | RepairProposed => "repair_proposed"
  | AuthorizationDecision => "authorization_decision"
  | RepairStarted => "repair_started"
  | RepairCompleted => "repair_completed"
  | RollbackStarted => "rollback_started"
  | RollbackCompleted => "rollback_completed"
  | PolicyApplied => "policy_applied"
  end.
Definition outcome_name (o : AuditOutcome) : string :=
  match o with
  | Pending => "pending"
  | Started => "started"
  | Allowed => "allowed"
  | Succeeded => "succeeded"
  | Failed => "failed"
  | Denied => "denied"
  | Cancelled => "cancelled"
  end.
Definition risk_name (r : AuditRisk) : string :=
  match r with R0 => "R0" | R1 => "R1" | R2 => "R2" | R3 => "R3" | R4 => "R4" end.

Definition unsigned_keys : list string :=
  ["schema"; "tenantId"; "deviceId"; "sessionId"; "eventId"; "sequence"; "previousEventSha256";
   "occurredAt"; "kind"; "outcome"; "risk"; "actionId"; "targetSha256"; "reportSha256";
   "evidenceSha256"]%string.
Definition unsigned_values (u : UnsignedAuditEnvelope) : list value :=
  [Str u.(u_schema); Str u.(u_tenant_id); Str u.(u_device_id); Str u.(u_session_id);
   Str u.(u_event_id); json_u64 u.(u_sequence); json_text u.(u_previous_event_sha256);
   Str u.(u_occurred_at); Str (kind_name u.(u_kind)); Str (outcome_name u.(u_outcome));
   json_text (risk_name <$> u.(u_risk)); json_text u.(u_action_id);
   json_text u.(u_target_sha256); json_text u.(u_report_sha256);
   Arr (map Str u.(u_evidence_sha256))].
#[export] Instance unsigned_to_value : ToValue UnsignedAuditEnvelope := λ u,
  json_object (zip unsigned_keys (unsigned_values u)).

Definition unsigned (e : SignedAuditEnvelope) : UnsignedAuditEnvelope :=
  mkUnsigned e.(schema) e.(tenant_id) e.(device_id) e.(session_id) e.(event_id) e.(sequence)
    e.(previous_event_sha256) e.(occurred_at) e.(kind) e.(outcome) e.(risk) e.(action_id)
    e.(target_sha256) e.(report_sha256) e.(evidence_sha256).

Definition signed_keys : list string := unsigned_keys ++ ["signature"%string].
#[export] Instance signed_to_value : ToValue SignedAuditEnvelope := λ e,
  json_object (zip signed_keys (unsigned_values (unsigned e) ++ [Str e.(signature)])).

Definition checkpoint_keys : list string :=
  ["schema"; "tenantId"; "deviceId"; "sessionId"; "lastSequence"; "lastEventSha256"]%string.
#[export] Instance checkpoint_to_value : ToValue AuditChainCheckpoint := λ c,
  json_object (zip checkpoint_keys
    [Str c.(cp_schema); Str c.(cp_tenant_id); Str c.(cp_device_id); Str c.(cp_session_id);
     json_u64 c.(last_sequence); Str c.(last_event_sha256)]).

(** ** Validation *)

Definition validate_identifier : string → string → result FleetAuditError () :=
  Documents.validate_identifier InvalidField.
Definition validate_safe_nonzero : string → N → result FleetAuditError () :=
  Documents.validate_safe_nonzero InvalidField.
Definition validate_sha256 : string → string → result FleetAuditError () :=
  Documents.validate_sha256 InvalidField.

Definition validate_optional_sha256 (field : string) (value : option string) :
    result FleetAuditError () :=
  match value with Some value => validate_sha256 field value | None => Ok tt end.

Definition validate_sequence_and_chain (sequence : N) (previous_event_sha256 : option string) :
    result FleetAuditError () :=
  _ ← validate_safe_nonzero "sequence" sequence;
  match previous_event_sha256 with
  | None => if (sequence =? 1)%N then Ok tt else Err (InvalidField "previousEventSha256")
  | Some digest =>
      if (sequence =? 1)%N then Err (InvalidField "previousEventSha256")
      else validate_sha256 "previousEventSha256" digest
  end.

Definition validate_kind_outcome (kind : AuditKind) (outcome : AuditOutcome) :
    result FleetAuditError () :=
  let valid :=
    match kind with
    | DiagnosticStarted | RepairStarted | RollbackStarted => outcome == Started
    | DiagnosticCompleted | RepairCompleted | RollbackCompleted =>
        match outcome with Succeeded | Failed | Cancelled => true | _ => false end
    | RepairProposed => outcome == Pending
    | AuthorizationDecision => match outcome with Allowed | Denied => true | _ => false end
    | PolicyApplied => match outcome with Succeeded | Failed => true | _ => false end
    end in
  reject (negb valid) with InvalidEventSemantics; Ok tt.

Definition validate_action (kind : AuditKind) (outcome : AuditOutcome) (risk : option AuditRisk)
    (action_id : option string) : result FleetAuditError () :=
  _ ← match action_id with Some action_id => validate_identifier "actionId" action_id | None => Ok tt end;
  let action_required :=
    match kind with
    | RepairProposed | AuthorizationDecision | RepairStarted | RepairCompleted
    | RollbackStarted | RollbackCompleted => true
    | _ => false
    end in
  reject (action_required && ((action_id == None) || (risk == None))) with InvalidEventSemantics;
  reject ((risk == Some R4) && negb ((kind == AuthorizationDecision) && (outcome == Denied)))
    with InvalidEventSemantics;
  Ok tt.

Definition validate_evidence_digests (values : list string) : result FleetAuditError () :=
  reject (MAX_EVIDENCE_DIGESTS <? Z.of_nat (length values))%Z with InvalidField "evidenceSha256";
  _ ← for_each (validate_sha256 "evidenceSha256") values;
  reject (negb (strictly_sorted str_lt values)) with InvalidField "evidenceSha256";
  Ok tt.

(** [validate_device_id(..).map_err(|_| FleetAuditError::InvalidField(field))]. *)
Definition check_device_id (field value : string) : result FleetAuditError () :=
  map_err (λ _, InvalidField field) (DeviceIdentity.validate_device_id value).

Definition hex_sha256 (digest : bytes) : string := hex_string digest.

Definition audit_signature_payload (canonical : bytes) : result FleetAuditError bytes :=
  length_prefixed EventTooLarge AUDIT_SIGNATURE_DOMAIN canonical.

Definition validate_size : Z → Z → result FleetAuditError () := CanonicalJson.validate_size.
Definition validate_json_value : value → result FleetAuditError () := CanonicalJson.validate_json_value.

Section audit.
Context `{sha : Sha256} `{ed : Ed25519} `{b64 : Base64Url} `{js : JsonString} `{time : Rfc3339}.
Context `{read_event : FromSlice SignedAuditEnvelope} `{read_checkpoint : FromSlice AuditChainCheckpoint}.

Definition write_canonical_value : value → bytes → result FleetAuditError bytes :=
  CanonicalJson.write_canonical_value.
Definition canonical_json {T} `{ToValue T} : T → result FleetAuditError bytes :=
  CanonicalJson.canonical_json.
Definition import_canonical {T} `{ToValue T} `{FromSlice T} : bytes → Z → result FleetAuditError T :=
  CanonicalJson.import_canonical.

Definition validate_timestamp (value : string) : result FleetAuditError () :=
  reject (is_empty value || (MAX_TIMESTAMP_BYTES <? len value)%Z || negb (rfc3339_valid value))
    with InvalidField "occurredAt";
  Ok tt.

Definition decode_signature : string → result FleetAuditError bytes :=
  Documents.decode_signature InvalidField.

Definition validate_unsigned_fields (e : SignedAuditEnvelope) : result FleetAuditError () :=
  reject (e.(schema) != AUDIT_ENVELOPE_SCHEMA) with InvalidField "schema";
  _ ← validate_identifier "tenantId" e.(tenant_id);
  _ ← check_device_id "deviceId" e.(device_id);
  _ ← validate_identifier "sessionId" e.(session_id);
  _ ← validate_identifier "eventId" e.(event_id);
  _ ← validate_sequence_and_chain e.(sequence) e.(previous_event_sha256);
  _ ← validate_timestamp e.(occurred_at);
  _ ← validate_kind_outcome e.(kind) e.(outcome);
  _ ← validate_action e.(kind) e.(outcome) e.(risk) e.(action_id);
  _ ← validate_optional_sha256 "targetSha256" e.(target_sha256);
  _ ← validate_optional_sha256 "reportSha256" e.(report_sha256);
  validate_evidence_digests e.(evidence_sha256).

Definition validate_fields (e : SignedAuditEnvelope) : result FleetAuditError () :=
  _ ← validate_unsigned_fields e;
  _ ← decode_signature e.(signature);
  Ok tt.

Definition unsigned_canonical_json (e : SignedAuditEnvelope) : result FleetAuditError bytes :=
  canonical_json (unsigned e).

(** ** Signed events *)

Definition unsigned_envelope (i : DeviceIdentity) (c : AuditEventContent) : SignedAuditEnvelope :=
  mkEnvelope AUDIT_ENVELOPE_SCHEMA c.(content_tenant_id) (identity_device_id i)
    c.(content_session_id) c.(content_event_id) c.(content_sequence)
    c.(content_previous_event_sha256) c.(content_occurred_at) c.(content_kind)
    c.(content_outcome) c.(content_risk) c.(content_action_id) c.(content_target_sha256)
    c.(content_report_sha256) c.(content_evidence_sha256) "".

(** [envelope.signature = ..]. *)
Definition set_signature (s : string) (e : SignedAuditEnvelope) : SignedAuditEnvelope :=
  mkEnvelope e.(schema) e.(tenant_id) e.(device_id) e.(session_id) e.(event_id) e.(sequence)
    e.(previous_event_sha256) e.(occurred_at) e.(kind) e.(outcome) e.(risk) e.(action_id)
    e.(target_sha256) e.(report_sha256) e.(evidence_sha256) s.

Definition sign (identity : DeviceIdentity) (content : AuditEventContent) :
    result FleetAuditError SignedAuditEnvelope :=
  let envelope := unsigned_envelope identity content in
  _ ← validate_unsigned_fields envelope;
  unsigned ← unsigned_canonical_json envelope;
  audit_payload ← audit_signature_payload unsigned;
  let report := sign_report identity audit_payload in
  let envelope := set_signature (b64_encode report.(report_signature)) envelope in
  _ ← validate_fields envelope;
  Ok envelope.

Definition export_offline (e : SignedAuditEnvelope) : result FleetAuditError bytes :=
  _ ← validate_fields e;
  b ← canonical_json e;
  _ ← validate_size (blen b) MAX_EVENT_BYTES;
  Ok b.

Definition verify (e : SignedAuditEnvelope) (expected_tenant_id expected_device_id : string)
    (enrolled_public_key : bytes) : result FleetAuditError VerifiedAuditEnvelope :=
  _ ← validate_fields e;
  _ ← validate_identifier "expectedTenantId" expected_tenant_id;
  _ ← check_device_id "expectedDeviceId" expected_device_id;
  reject (e.(tenant_id) != expected_tenant_id) with UnexpectedTenant;
  reject ((e.(device_id) != expected_device_id)
          || (device_id_for_public_key enrolled_public_key != expected_device_id))
    with UnexpectedDevice;
  signature ← decode_signature e.(signature);
  unsigned ← unsigned_canonical_json e;
  audit_payload ← audit_signature_payload unsigned;
  let report := mkSignedReport audit_payload enrolled_public_key signature in
  _ ← map_err (λ _, InvalidSignature) (report_verify report enrolled_public_key);
  canonical ← export_offline e;
  Ok (mkVerified e (sha256 canonical)).

Definition import_offline (b : bytes) (expected_tenant_id expected_device_id : string)
    (enrolled_public_key : bytes) : result FleetAuditError VerifiedAuditEnvelope :=
  envelope ← import_canonical b MAX_EVENT_BYTES;
  verify envelope expected_tenant_id expected_device_id enrolled_public_key.

Definition event_sha256 (e : SignedAuditEnvelope) : result FleetAuditError string :=
  b ← export_offline e;
  Ok (hex_sha256 (sha256 b)).

Definition verified_event_sha256 (v : VerifiedAuditEnvelope) : string := hex_sha256 v.(digest).
Definition verified_export_offline (v : VerifiedAuditEnvelope) : result FleetAuditError bytes :=
  export_offline v.(envelope).

(** ** Checkpoints *)

Definition checkpoint_validate (c : AuditChainCheckpoint) : result FleetAuditError () :=
  reject (c.(cp_schema) != AUDIT_CHECKPOINT_SCHEMA) with InvalidField "checkpoint.schema";
  _ ← validate_identifier "checkpoint.tenantId" c.(cp_tenant_id);
  _ ← check_device_id "checkpoint.deviceId" c.(cp_device_id);
  _ ← validate_identifier "checkpoint.sessionId" c.(cp_session_id);
  _ ← validate_safe_nonzero "checkpoint.lastSequence" c.(last_sequence);
  validate_sha256 "checkpoint.lastEventSha256" c.(last_event_sha256).

Definition start (first : VerifiedAuditEnvelope) : result FleetAuditError AuditChainCheckpoint :=
  let e := first.(envelope) in
  reject ((e.(sequence) != 1%N) || (e.(previous_event_sha256) != None)) with InvalidChainStart;
  Ok (mkCheckpoint AUDIT_CHECKPOINT_SCHEMA e.(tenant_id) e.(device_id) e.(session_id) 1
        (verified_event_sha256 first)).

(** [self.last_sequence = ..] and [self.last_event_sha256 = ..]. *)
Definition set_last (n : N) (digest : string) (c : AuditChainCheckpoint) : AuditChainCheckpoint :=
  mkCheckpoint c.(cp_schema) c.(cp_tenant_id) c.(cp_device_id) c.(cp_session_id) n digest.

Definition next_sequence (n : N) : option N :=
  value ← checked_add_u64 (Z.of_N n) 1;
  if (Z.to_N value <=? MAX_SAFE_JSON_INTEGER)%N then Some (Z.to_N value) else None.

Definition checkpoint_admit (event : VerifiedAuditEnvelope) :
    method AuditChainCheckpoint FleetAuditError ChainAdmission :=
  self ← get_self;
  lift (checkpoint_validate self);;
  let e := event.(envelope) in
  fail_if ((self.(cp_tenant_id) != e.(tenant_id)) || (self.(cp_device_id) != e.(device_id))
           || (self.(cp_session_id) != e.(session_id))) UnexpectedChain;;
  let digest := verified_event_sha256 event in
  if e.(sequence) == self.(last_sequence) then
    if digest == self.(last_event_sha256) then mret IdempotentReplay else throw ChainFork
  else
    expected_sequence ← lift (ok_or (next_sequence self.(last_sequence)) SequenceExhausted);
    fail_if (e.(sequence) != expected_sequence) NonContiguousSequence;;
    fail_if (e.(previous_event_sha256) != Some self.(last_event_sha256)) ChainFork;;
    modify_self (set_last e.(sequence) digest);;
    mret Advanced.

Definition checkpoint_export_canonical (c : AuditChainCheckpoint) : result FleetAuditError bytes :=
  _ ← checkpoint_validate c;
  b ← canonical_json c;
  _ ← validate_size (blen b) MAX_CHECKPOINT_BYTES;
  Ok b.

Definition checkpoint_import_canonical (b : bytes) : result FleetAuditError AuditChainCheckpoint :=
  checkpoint ← import_canonical b MAX_CHECKPOINT_BYTES;
  _ ← checkpoint_validate checkpoint;
  Ok checkpoint.
End audit.
