(* ===== verification/FleetAuditProperties.v ===== *)
(** * What fleet audit events promise

    - a valid event is always signed, fits its size limit, verifies under the
      anchors of its signer and survives export and import;
    - an event that verifies was signed with every field as it stands;
    - the checkpoint implements an append-only log, and it pins the whole log up
      to a collision of SHA-256. *)

From Stdlib.Strings Require Import Byte.
From Stdlib Require String.
From S2P Require Import Prelude Bytes Crypto Signatures Ordered CanonicalJson Documents DeviceIdentity FleetAudit.

(** ** Serialization *)

#[export] Instance kind_name_inj : Inj (=) (=) kind_name.
Proof. by intros [] []. Qed.
#[export] Instance outcome_name_inj : Inj (=) (=) outcome_name.
Proof. by intros [] []. Qed.
#[export] Instance risk_name_inj : Inj (=) (=) risk_name.
Proof. by intros [] []. Qed.

Lemma audit_unsigned_values_inj u u' : unsigned_values u = unsigned_values u' → u = u'.
Proof.
  destruct u, u'. unfold unsigned_values. cbn. intros Heq. injection Heq as -> -> -> -> -> -> Hp -> Hk Ho Hr Ha Ht Hrs He.
  apply (inj json_text) in Hp, Hr, Ha, Ht, Hrs. apply (inj kind_name) in Hk. apply (inj outcome_name) in Ho.
  apply (inj (fmap risk_name)) in Hr. apply (list_fmap_eq_inj Str) in He; [|apply _]. by subst.
Qed.

#[export] Instance unsigned_value_ok : ToValueOk UnsignedAuditEnvelope.
Proof.
  split.
  - intros u. object_ok.
  - intros u u' Heq. object_inj Heq.
    by apply audit_unsigned_values_inj.
Qed.

#[export] Instance signed_value_ok : ToValueOk SignedAuditEnvelope.
Proof.
  split.
  - intros u. object_ok.
  - intros u u' Heq. object_inj Heq.
    apply app_inj_2 in Heq as [Heq [= Hs]]; [|done]. apply audit_unsigned_values_inj in Heq.
    destruct u, u'. unfold unsigned in Heq. simpl in *. injection Heq; intros; by subst.
Qed.

#[export] Instance checkpoint_value_ok : ToValueOk AuditChainCheckpoint.
Proof.
  split.
  - intros c. object_ok.
  - intros c c' Heq. object_inj Heq.
    destruct c, c'. simpl in *. by simplify_eq.
Qed.

(** ** Valid events *)

Record event_ok `{Rfc3339} (e : SignedAuditEnvelope) : Prop := {
  ok_schema : e.(schema) = AUDIT_ENVELOPE_SCHEMA;
  ok_tenant : identifier e.(tenant_id) = true;
  ok_device : device_id_text e.(device_id) = true;
  ok_session : identifier e.(session_id) = true;
  ok_event : identifier e.(event_id) = true;
  ok_sequence : safe_nonzero e.(sequence) = true;
  ok_previous : match e.(previous_event_sha256) with
                | None => e.(sequence) = 1%N
                | Some d => e.(sequence) ≠ 1%N ∧ digest_text d = true
                end;
  ok_time : e.(occurred_at) ≠ ""%string ∧ (len e.(occurred_at) ≤ MAX_TIMESTAMP_BYTES)%Z ∧
            rfc3339_valid e.(occurred_at) = true;
  ok_outcome : validate_kind_outcome e.(kind) e.(outcome) = Ok tt;
  ok_action : validate_action e.(kind) e.(outcome) e.(risk) e.(action_id) = Ok tt;
  ok_target : from_option (λ d, digest_text d = true) True e.(target_sha256);
  ok_report : from_option (λ d, digest_text d = true) True e.(report_sha256);
  ok_evidence : length e.(evidence_sha256) ≤ 64 ∧
                Forall (λ d, digest_text d = true) e.(evidence_sha256) ∧
                strictly_sorted str_lt e.(evidence_sha256) = true;
}.

Lemma check_device_id_Ok field value u : check_device_id field value = Ok u ↔ device_id_text value = true.
Proof.
  unfold check_device_id, DeviceIdentity.validate_device_id. destruct u, (device_id_text value); naive_solver.
Qed.

Lemma validate_sequence_Ok n p u :
  validate_sequence_and_chain n p = Ok u ↔
  safe_nonzero n = true ∧ match p with None => n = 1%N | Some d => n ≠ 1%N ∧ digest_text d = true end.
Proof.
  destruct u. unfold validate_sequence_and_chain. rewrite result_bind_Ok. split.
  - intros ([] & Hn%validate_safe_nonzero_Ok & Hp). split; [done|]. destruct p, (N.eqb_spec n 1); try done.
    by apply validate_sha256_Ok in Hp.
  - intros [Hn Hp]. exists tt. split; [by apply validate_safe_nonzero_Ok|]. destruct p, (N.eqb_spec n 1); try done.
    + by destruct Hp.
    + by apply validate_sha256_Ok, Hp.
Qed.

Lemma validate_optional_sha256_Ok field o u :
  validate_optional_sha256 field o = Ok u ↔ from_option (λ d, digest_text d = true) True o.
Proof. destruct u, o; simpl; [apply validate_sha256_Ok|done]. Qed.

Lemma validate_evidence_Ok l u :
  validate_evidence_digests l = Ok u ↔
  length l ≤ 64 ∧ Forall (λ d, digest_text d = true) l ∧ strictly_sorted str_lt l = true.
Proof.
  destruct u. unfold validate_evidence_digests, MAX_EVIDENCE_DIGESTS.
  assert (Forall (λ d, validate_sha256 "evidenceSha256" d = Ok tt) l ↔ Forall (λ d, digest_text d = true) l) as Hf
    by (apply Forall_proper; [|done]; intros d; apply validate_sha256_Ok).
  split.
  - intros H. inv_ok H. guards. apply for_each_Ok in Hcall. split_and!; [lia|by apply Hf|done].
  - intros (Hl & Hd & ->). rewrite (proj2 (Z.ltb_ge _ _)) by lia. apply (bind_pass _ _ tt); [|done].
    by apply for_each_Ok, Hf.
Qed.

Lemma validate_timestamp_Ok `{Rfc3339} s u :
  validate_timestamp s = Ok u ↔
  s ≠ ""%string ∧ (len s ≤ MAX_TIMESTAMP_BYTES)%Z ∧ rfc3339_valid s = true.
Proof.
  destruct u. unfold validate_timestamp, is_empty. rewrite reject_Ok.
  rewrite !orb_false_iff, negb_false_iff, bool_decide_eq_false, Z.ltb_ge. tauto.
Qed.

Lemma audit_validate_unsigned_Ok `{Rfc3339} e u : validate_unsigned_fields e = Ok u ↔ event_ok e.
Proof.
  destruct u. unfold validate_unsigned_fields. split.
  - intros Hv. inv_ok Hv. guards.
    apply validate_identifier_Ok in Hcall, Hcall1, Hcall2. apply check_device_id_Ok in Hcall0.
    apply validate_sequence_Ok in Hcall3 as [? ?]. apply validate_timestamp_Ok in Hcall4.
    apply validate_optional_sha256_Ok in Hcall7, Hcall8. apply validate_evidence_Ok in Hv. by split.
  - intros []. rewrite ok_schema0, ne_refl_false.
    run_ok ltac:(first [ by apply validate_identifier_Ok | by apply check_device_id_Ok
      | by apply validate_sequence_Ok | by apply validate_timestamp_Ok | done
      | by apply validate_optional_sha256_Ok ]).
    by apply validate_evidence_Ok.
Qed.

(** ** Sizes *)

Lemma device_id_length id : device_id_text id = true → len id = 27%Z.
Proof.
  unfold device_id_text. destruct (strip_prefix "KA-" id) as [s|] eqn:Hs; [|done].
  apply strip_prefix_Some in Hs as ->. intros Hd. guards. rewrite len_app. change (len "KA-") with 3%Z. lia.
Qed.

Lemma action_identifier k o r a :
  validate_action k o r a = Ok tt → from_option (λ s, identifier s = true) True a.
Proof.
  unfold validate_action. intros H. inv_ok H. destruct a; [|done]. by apply validate_identifier_Ok in Hcall.
Qed.

Section audit.
Context `{sha : Sha256} `{ed : Ed25519} `{b64 : Base64Url} `{js : JsonString} `{time : Rfc3339}.
Context `{read_event : FromSlice SignedAuditEnvelope} `{read_checkpoint : FromSlice AuditChainCheckpoint}.
Context `{shal : !Sha256Laws} `{edl : !Ed25519Laws} `{b64l : !Base64UrlLaws} `{jsl : !JsonStringLaws}.

Lemma enum_lengths k o r :
  (blen (literal (kind_name k)) ≤ 24 ∧ blen (literal (outcome_name o)) ≤ 11 ∧
   blen (text (json_text (risk_name <$> r))) ≤ 4)%Z.
Proof using jsl.
  split_and!.
  - destruct k; cbn [kind_name]; literal_lengths; done.
  - destruct o; cbn [outcome_name]; literal_lengths; done.
  - destruct r as [[]|]; cbn; literal_lengths; done.
Qed.

Lemma audit_unsigned_fields_length e :
  event_ok e → (fields_length (zip unsigned_keys (unsigned_values (unsigned e))) ≤ 16384)%Z.
Proof using jsl.
  intros []. destruct ok_time0 as (_ & Ht & _). destruct ok_evidence0 as (Hl & He & _).
  pose proof (literal_length (occurred_at e)). pose proof (literal_length (device_id e)) as Hd.
  rewrite device_id_length in Hd by done.
  pose proof (enum_lengths (kind e) (outcome e) (risk e)) as (? & ? & ?).
  pose proof (digest_option_length _ ok_target0). pose proof (digest_option_length _ ok_report0).
  pose proof (identifier_option_length _ (action_identifier _ _ _ _ ok_action0)).
  pose proof (safe_length _ ok_sequence0).
  assert (blen (text (json_text (previous_event_sha256 e))) ≤ 66)%Z.
  { apply digest_option_length. destruct (previous_event_sha256 e); [|done]. by destruct ok_previous0. }
  pose proof (identifier_length _ ok_tenant0). pose proof (identifier_length _ ok_session0).
  pose proof (identifier_length _ ok_event0).
  assert (blen (text (Arr (map Str (evidence_sha256 e)))) ≤ 2 + Z.of_nat (length (evidence_sha256 e)) * (66 + 1))%Z.
  { apply strings_length. eapply Forall_impl; [exact He|]. intros d Hdg. simpl. by rewrite digest_length. }
  unfold fields_length, unsigned_keys, unsigned_values, unsigned, MAX_TIMESTAMP_BYTES in *.
  cbn -[text Z.mul Z.add blen literal json_u64] in *. rewrite ok_schema0. cbn [text] in *.
  unfold AUDIT_ENVELOPE_SCHEMA. literal_lengths. lia.
Qed.

(** A valid event with a decodable signature. *)
Definition signed_ok (e : SignedAuditEnvelope) : Prop :=
  event_ok e ∧ ∃ d, e.(signature) = b64_encode d ∧ length d = 64.

Lemma audit_signature_text s d : decode_signature s = Ok d ↔ s = b64_encode d ∧ length d = 64.
Proof using b64l. apply (Documents.decode_signature_Ok InvalidField). Qed.

Lemma audit_validate_fields_Ok e u : validate_fields e = Ok u ↔ signed_ok e.
Proof using b64l.
  destruct u. unfold validate_fields. split.
  - intros Hv. inv_ok Hv. guards. apply audit_validate_unsigned_Ok in Hcall. apply audit_signature_text in Hcall0.
    split; eauto.
  - intros [He (d & Hs)]. run_ok ltac:(first [by apply audit_validate_unsigned_Ok | by apply audit_signature_text]). done.
Qed.

Lemma audit_unsigned_canonical e :
  event_ok e → unsigned_canonical_json e = Ok (text (to_value (unsigned e))) ∧
  (blen (text (to_value (unsigned e))) ≤ 16386)%Z.
Proof using jsl.
  intros He. split.
  - apply canonical_json_Ok. split; [|done]. object_valid. apply safe_valid, He.
  - etrans; [apply json_object_length|]. pose proof (audit_unsigned_fields_length e He). lia.
Qed.

Lemma audit_signed_canonical e :
  signed_ok e → canonical_json e = Ok (text (to_value e)) ∧ (0 < blen (text (to_value e)) ≤ MAX_EVENT_BYTES)%Z.
Proof using jsl b64l.
  intros [He (d & Hs & Hd)]. split.
  - apply canonical_json_Ok. split; [|done]. object_valid. apply safe_valid, He.
  - split; [apply json_object_nonempty|]. etrans; [apply json_object_length|].
    unfold signed_keys. rewrite zip_with_app by done. rewrite fields_length_app.
    pose proof (audit_unsigned_fields_length e He). pose proof (signature_length d Hd).
    unfold fields_length at 2. cbn [zip_with foldr fst snd text]. rewrite Hs. literal_lengths.
    unfold MAX_EVENT_BYTES. lia.
Qed.

Lemma export_offline_Ok e b : export_offline e = Ok b ↔ signed_ok e ∧ b = text (to_value e).
Proof using jsl b64l.
  unfold export_offline. split.
  - intros H. inv_ok H. apply audit_validate_fields_Ok in Hcall. split; [done|].
    by apply canonical_json_Ok in Hcall0 as [_ ->].
  - intros [He ->]. destruct (audit_signed_canonical e He) as [Hc Hl].
    eapply bind_pass; [by apply audit_validate_fields_Ok|]. rewrite Hc. cbn [mbind result_bind].
    eapply bind_pass; [|done]. apply validate_size_Ok. lia.
  Unshelve. all: exact tt.
Qed.

(** ** Signing and verification *)

(** What a device signs for an event. *)
Definition audit_payload (e : SignedAuditEnvelope) : bytes :=
  let t := text (to_value (unsigned e)) in AUDIT_SIGNATURE_DOMAIN ++ to_be_bytes (blen t) ++ t.

Lemma audit_payload_Ok e t : event_ok e → unsigned_canonical_json e = Ok t → audit_signature_payload t = Ok (audit_payload e).
Proof using jsl.
  intros He Ht. destruct (audit_unsigned_canonical e He) as [Hu Hl]. rewrite Ht in Hu. apply Ok_inj_1 in Hu as ->.
  apply length_prefixed_small. change (blen AUDIT_SIGNATURE_DOMAIN) with 23%Z. lia.
Qed.

Lemma event_ok_set_signature s e : event_ok (set_signature s e) ↔ event_ok e.
Proof. split; intros []; by split. Qed.

(** The event [sign] returns. *)
Definition signed_event (i : DeviceIdentity) (c : AuditEventContent) : SignedAuditEnvelope :=
  set_signature (b64_encode (sign_report i (audit_payload (unsigned_envelope i c))).(report_signature))
    (unsigned_envelope i c).

Lemma audit_sign_inv i c e : sign i c = Ok e → event_ok (unsigned_envelope i c) ∧ e = signed_event i c.
Proof using jsl.
  unfold sign. intros H. inv_ok H. apply audit_validate_unsigned_Ok in Hcall. split; [done|].
  rewrite (audit_payload_Ok _ _ Hcall Hcall0) in Hcall1. by apply Ok_inj_1 in Hcall1 as <-.
Qed.

Lemma audit_sign_Ok i c e :
  sign i c = Ok e ↔ event_ok (unsigned_envelope i c) ∧ e = signed_event i c.
Proof using jsl b64l edl.
  split; [apply audit_sign_inv|]. unfold sign.
  - intros [He ->]. destruct (audit_unsigned_canonical _ He) as [Hu _].
    apply bind_pass_unit; [by apply audit_validate_unsigned_Ok|]. rewrite Hu. cbn [mbind result_bind].
    rewrite (audit_payload_Ok _ _ He Hu). cbn [mbind result_bind].
    apply bind_pass_unit; [|done]. apply audit_validate_fields_Ok. split; [by apply event_ok_set_signature|].
    eexists. split; [done|]. apply ed_sign_length.
Qed.

Lemma audit_verify_Ok e tenant device pk v :
  verify e tenant device pk = Ok v ↔
    signed_ok e ∧ e.(tenant_id) = tenant ∧ e.(device_id) = device ∧ device_id_for_public_key pk = device ∧
    ed_key_valid pk = true ∧
    (∃ d, e.(signature) = b64_encode d ∧ ed_verify pk (report_signature_message (audit_payload e)) d = true) ∧
    v = mkVerified e (sha256 (text (to_value e))).
Proof using jsl b64l.
  unfold verify, report_verify. cbn [report_public_key report_payload report_signature]. split.
  - intros H. inv_ok H. inv_ok Hcall5. guards. apply audit_validate_fields_Ok in Hcall as [He Hs].
    rewrite (audit_payload_Ok _ _ He Hcall3) in Hcall4. apply Ok_inj_1 in Hcall4 as <-.
    apply audit_signature_text in Hcall2 as [? ?]. apply export_offline_Ok in Hcall6 as [_ ->].
    split_and!; try done. eauto.
  - intros ([He Hsig] & <- & <- & Hd & Hk & (d & Hs & Hv) & ->).
    destruct Hsig as (d' & Hs' & Hd'). rewrite Hs in Hs'. apply (inj b64_encode) in Hs' as <-.
    assert (signed_ok e) as Hok by (split; eauto). destruct (audit_unsigned_canonical _ He) as [Hu _].
    run_ok ltac:(first [by apply audit_validate_fields_Ok | by apply validate_identifier_Ok, He
      | by apply check_device_id_Ok, He | by rewrite ?Hd, !ne_refl_false]).
    rewrite (proj2 (audit_signature_text _ _) (conj Hs Hd')), Hu. cbn [mbind result_bind].
    rewrite (audit_payload_Ok _ _ He Hu). cbn [mbind result_bind].
    rewrite ne_refl_false, Hk, Hv. cbn [negb map_err mbind result_bind].
    by rewrite (proj2 (export_offline_Ok _ _) (conj Hok eq_refl)).
Qed.

(** The payload determines every field but the signature. *)
Lemma audit_payload_inj e e' :
  event_ok e → event_ok e' → audit_payload e = audit_payload e' → unsigned e = unsigned e'.
Proof using jsl.
  intros He He' Heq. destruct (audit_unsigned_canonical _ He) as [Hc Hl], (audit_unsigned_canonical _ He') as [Hc' Hl'].
  assert (text (to_value (unsigned e)) = text (to_value (unsigned e'))) as Ht.
  { eapply (length_prefixed_inj EventTooLarge AUDIT_SIGNATURE_DOMAIN);
      [exact (audit_payload_Ok _ _ He Hc)|]. rewrite Heq. exact (audit_payload_Ok _ _ He' Hc'). }
  rewrite Ht in Hc. by eapply (canonical_json_inj (E := FleetAuditError)).
Qed.

(** ** Chains *)

(** The results of [verify]. *)
Definition genuine (v : VerifiedAuditEnvelope) : Prop :=
  signed_ok v.(envelope) ∧ v.(digest) = sha256 (text (to_value v.(envelope))).

Lemma audit_verify_genuine e tenant device pk v : verify e tenant device pk = Ok v → genuine v ∧ v.(envelope) = e.
Proof using jsl b64l. intros (Hs & _ & _ & _ & _ & _ & ->)%audit_verify_Ok. done. Qed.

(** The session an event or a checkpoint belongs to. *)
Definition session_of (v : VerifiedAuditEnvelope) : string * string * string :=
  (v.(envelope).(tenant_id), v.(envelope).(device_id), v.(envelope).(session_id)).

(** The logs of a session, the latest event first. *)
Inductive chain : list VerifiedAuditEnvelope → Prop :=
| chain_first v :
    genuine v → v.(envelope).(sequence) = 1%N → v.(envelope).(previous_event_sha256) = None → chain [v]
| chain_next v w log :
    chain (w :: log) → genuine v → session_of v = session_of w →
    v.(envelope).(sequence) = (w.(envelope).(sequence) + 1)%N →
    v.(envelope).(previous_event_sha256) = Some (verified_event_sha256 w) →
    chain (v :: w :: log).

(** The checkpoint of a log. *)
Definition checkpoint_of (v : VerifiedAuditEnvelope) : AuditChainCheckpoint :=
  mkCheckpoint AUDIT_CHECKPOINT_SCHEMA v.(envelope).(tenant_id) v.(envelope).(device_id)
    v.(envelope).(session_id) v.(envelope).(sequence) (verified_event_sha256 v).

Definition tracks (c : AuditChainCheckpoint) (log : list VerifiedAuditEnvelope) : Prop :=
  chain log ∧ ∃ v, head log = Some v ∧ c = checkpoint_of v.

Lemma audit_checkpoint_of_valid v : genuine v → checkpoint_validate (checkpoint_of v) = Ok tt.
Proof using shal.
  intros [[He _] Hd]. unfold checkpoint_validate, checkpoint_of. cbn. rewrite ne_refl_false.
  run_ok ltac:(first [ by apply validate_identifier_Ok, He | by apply check_device_id_Ok, He
    | by apply validate_safe_nonzero_Ok, He]).
  apply validate_sha256_Ok, hex_string_digest. rewrite Hd. apply length_sha256.
Qed.

Lemma chain_head_genuine v log : chain (v :: log) → genuine v.
Proof. by inversion 1. Qed.

Lemma next_sequence_Some n m : next_sequence n = Some m ↔ m = (n + 1)%N ∧ (n + 1 ≤ MAX_SAFE_JSON_INTEGER)%N.
Proof.
  unfold next_sequence, checked_add_u64, U64_MAX. destruct (Z.leb_spec (Z.of_N n + 1) (2 ^ 64 - 1)); simpl.
  - destruct (N.leb_spec (Z.to_N (Z.of_N n + 1)) MAX_SAFE_JSON_INTEGER); split; try done; intros.
    + simplify_eq. lia.
    + f_equal. lia.
    + lia.
  - split; [done|]. unfold MAX_SAFE_JSON_INTEGER. lia.
Qed.

(** Events with the same digest text are the same event, up to a collision. *)
Lemma audit_same_digest v w :
  genuine v → genuine w → verified_event_sha256 v = verified_event_sha256 w →
  v = w ∨ collision (text (to_value v.(envelope))) (text (to_value w.(envelope))).
Proof using jsl b64l.
  intros [Hv Hdv] [Hw Hdw] Heq. unfold verified_event_sha256, hex_sha256 in Heq. apply (inj hex_string) in Heq.
  destruct (decide (text (to_value v.(envelope)) = text (to_value w.(envelope)))) as [Ht|]; [left|right; split; congruence].
  destruct (audit_signed_canonical _ Hv) as [Hc _], (audit_signed_canonical _ Hw) as [Hc' _]. rewrite Ht in Hc.
  assert (v.(envelope) = w.(envelope)) by by eapply (canonical_json_inj (E := FleetAuditError)).
  destruct v, w. simpl in *. by subst.
Qed.

Lemma triple_ne (a b c a' b' c' : string) :
  ((a, b, c) != (a', b', c')) = (a != a') || (b != b') || (c != c').
Proof.
  apply Bool.eq_iff_eq_true. rewrite !orb_true_iff, !bool_decide_eq_true.
  destruct (decide (a = a')), (decide (b = b')), (decide (c = c')); naive_solver.
Qed.

(** [checkpoint_admit] on the checkpoint of a log, by cases of the event. *)
Lemma audit_admit_checkpoint v w :
  genuine w →
  checkpoint_admit v (checkpoint_of w) =
    if session_of w != session_of v then (checkpoint_of w, Err UnexpectedChain)
    else if v.(envelope).(sequence) == w.(envelope).(sequence) then
      (checkpoint_of w, if verified_event_sha256 v == verified_event_sha256 w then Ok IdempotentReplay else Err ChainFork)
    else if (MAX_SAFE_JSON_INTEGER <? w.(envelope).(sequence) + 1)%N then (checkpoint_of w, Err SequenceExhausted)
    else if v.(envelope).(sequence) != (w.(envelope).(sequence) + 1)%N then (checkpoint_of w, Err NonContiguousSequence)
    else if v.(envelope).(previous_event_sha256) != Some (verified_event_sha256 w) then (checkpoint_of w, Err ChainFork)
    else (set_last v.(envelope).(sequence) (verified_event_sha256 v) (checkpoint_of w), Ok Advanced).
Proof using shal.
  intros Hw. unfold checkpoint_admit. run_methods. rewrite audit_checkpoint_of_valid by done.
  unfold session_of. cbn [checkpoint_of cp_tenant_id cp_device_id cp_session_id last_sequence last_event_sha256].
  rewrite triple_ne.
  destruct (_ || _ || _); [done|]. case_bool_decide; [by case_bool_decide|].
  destruct (N.ltb_spec MAX_SAFE_JSON_INTEGER (sequence (envelope w) + 1)) as [Hlt|Hle].
  - destruct (next_sequence (sequence (envelope w))) eqn:Hn; [|done]. apply next_sequence_Some in Hn. lia.
  - rewrite (proj2 (next_sequence_Some _ _) (conj eq_refl Hle)). cbn [ok_or].
    by repeat case_bool_decide.
Qed.

(** ** The claims *)

(** Every valid event can be exchanged: a content whose fields are valid is signed, its document
    stays within the size limit, it verifies under the tenant, the device identifier and the key of
    its signer, and import gives back the verified event, with the digest that the next event
    names. A content with an invalid field is refused with the error of that field. *)
Theorem audit_event_exchange i c :
  match validate_unsigned_fields (unsigned_envelope i c) with
  | Err err => sign i c = Err err
  | Ok _ =>
      ∃ e b v, sign i c = Ok e ∧ export_offline e = Ok b ∧ (blen b ≤ MAX_EVENT_BYTES)%Z ∧
        v = mkVerified e (sha256 b) ∧ event_sha256 e = Ok (verified_event_sha256 v) ∧
        verify e c.(content_tenant_id) (identity_device_id i) (identity_public_key i) = Ok v ∧
        (reads_back e →
         import_offline b c.(content_tenant_id) (identity_device_id i) (identity_public_key i) = Ok v)
  end.
Proof using jsl b64l edl shal.
  destruct (validate_unsigned_fields _) as [[]|err] eqn:Hv; [|unfold sign; by rewrite Hv].
  apply audit_validate_unsigned_Ok in Hv.
  pose proof (proj2 (audit_sign_Ok i c _) (conj Hv eq_refl)) as Hs.
  set (e := signed_event i c) in Hs. assert (signed_ok e) as He.
  { split; [by apply event_ok_set_signature|]. eexists. split; [done|]. apply ed_sign_length. }
  destruct (audit_signed_canonical e He) as [Hc Hl].
  pose proof (proj2 (export_offline_Ok e _) (conj He eq_refl)) as Hx.
  assert (verify e c.(content_tenant_id) (identity_device_id i) (identity_public_key i) =
    Ok (mkVerified e (sha256 (text (to_value e))))) as Hver.
  { apply audit_verify_Ok. split_and!; try done; [apply ed_public_valid|]. eexists. split; [done|]. apply ed_sign_verify. }
  eexists e, _, _. split_and!; [done|exact Hx|lia|done| |done|].
  - unfold event_sha256. by rewrite Hx.
  - intros Hr. unfold import_offline. eapply bind_pass; [|exact Hver].
    apply (import_canonical_exact (E := FleetAuditError)); [done|exact Hc|lia].
Qed.

(** An event that verifies is the device's own: if every signature under the enrolled key is on
    a message for an event that the device signed, or on a message of another kind, then the device
    signed an event that agrees with the verified one in every field but the signature. *)
Theorem audit_event_authentic i e tenant device v :
  (∀ m s, ed_verify (identity_public_key i) m s = true →
     (∃ c e', sign i c = Ok e' ∧ m = report_signature_message (audit_payload e')) ∨
     (∀ p, m ≠ report_signature_message (AUDIT_SIGNATURE_DOMAIN ++ p))) →
  verify e tenant device (identity_public_key i) = Ok v →
  ∃ c e', sign i c = Ok e' ∧ e = set_signature e.(signature) e'.
Proof using jsl b64l.
  intros Hunf ([He _] & _ & _ & _ & _ & (d & Hs & Hd) & _)%audit_verify_Ok.
  apply Hunf in Hd as [(c & e' & Hsign & Hm)|Hno]; [|by destruct (Hno _ eq_refl)].
  exists c, e'. split; [done|]. pose proof Hsign as [He' Heq]%audit_sign_inv.
  unfold report_signature_message, signature_message in Hm. apply app_inv_head in Hm.
  apply app_inj_1 in Hm as [_ Hm]; [|by rewrite !length_be_bytes].
  apply audit_payload_inj in Hm; [|done|rewrite Heq; by apply event_ok_set_signature].
  destruct e, e'. unfold unsigned in Hm. simpl in *. unfold set_signature. simpl. injection Hm; intros; by subst.
Qed.

(** C26. The checkpoint implements an append-only log of linked events: it starts from a first event
    only, an admission either appends the event to the log, or is a replay of the latest event, or
    fails, and then the event does not continue the log; a checkpoint that does not advance is
    unchanged. *)
Theorem audit_checkpoint_refines_log :
  (∀ v, genuine v →
     match start v with
     | Ok c => tracks c [v]
     | Err _ => ¬ chain [v]
     end) ∧
  (∀ c log v, tracks c log → genuine v →
     match checkpoint_admit v c with
     | (c', Ok Advanced) => tracks c' (v :: log)
     | (c', Ok IdempotentReplay) =>
         c' = c ∧ ∃ w, head log = Some w ∧
           (v = w ∨ collision (text (to_value v.(envelope))) (text (to_value w.(envelope))))
     | (c', Err _) => c' = c ∧ ¬ chain (v :: log)
     end).
Proof using shal jsl b64l.
  split.
  - intros v Hv. unfold start. destruct (_ || _) eqn:Hb.
    + inversion 1; subst. rewrite H2, H3 in Hb. done.
    + guards. split; [by constructor|]. exists v. split; [done|]. unfold checkpoint_of. by rewrite H.
  - intros c log v [Hc (w & Hw & ->)] Hv. destruct log as [|w' log]; [done|]. injection Hw as ->.
    pose proof (chain_head_genuine _ _ Hc) as Hgw.
    assert (chain (v :: w :: log) → session_of w = session_of v ∧
      v.(envelope).(sequence) = (w.(envelope).(sequence) + 1)%N ∧
      v.(envelope).(previous_event_sha256) = Some (verified_event_sha256 w) ∧
      (v.(envelope).(sequence) ≤ MAX_SAFE_JSON_INTEGER)%N) as Hinv.
    { inversion 1; subst. destruct Hv as [[Hv _] _]. apply ok_sequence, safe_nonzero_spec in Hv. split_and!; [congruence..|lia]. }
    rewrite audit_admit_checkpoint by done. case_bool_decide as Hsess; [split; [done|]; intros (? & _)%Hinv; congruence|].
    case_bool_decide as Hseq.
    { case_bool_decide as Hd; split; try done.
      - exists w. split; [done|]. by apply audit_same_digest.
      - intros H%Hinv. lia. }
    destruct (N.ltb_spec MAX_SAFE_JSON_INTEGER (sequence (envelope w) + 1)); [split; [done|]; intros H'%Hinv; lia|].
    case_bool_decide as Hn; [split; [done|]; intros (_ & ? & _)%Hinv; congruence|].
    case_bool_decide as Hp; [split; [done|]; intros (_ & _ & ? & _)%Hinv; congruence|].
    split; [by constructor|]. exists v. split; [done|]. unfold set_last, checkpoint_of. cbn.
    unfold session_of in Hsess. by injection Hsess as -> -> ->.
Qed.

(** A checkpoint pins the whole history of its session: two logs with the same checkpoint are the
    same log, event by event, or two of their events are documents that collide under SHA-256. *)
Theorem audit_history_pinned c log log' :
  tracks c log → tracks c log' →
  log = log' ∨ ∃ v v', v ∈ log ∧ v' ∈ log' ∧
    collision (text (to_value v.(envelope))) (text (to_value v'.(envelope))).
Proof using jsl b64l.
  clear edl shal ed. intros [Hl (v & Hv & ->)] [Hl' (v' & Hv' & Hc)].
  assert (verified_event_sha256 v = verified_event_sha256 v') as Hd by (by injection Hc). clear Hc.
  revert v Hv log' v' Hv' Hl' Hd. induction Hl as [v0 Hg Hs Hp|v0 w log Hl IH Hg Hsess Hseq Hp];
    intros v Hv log' v' Hv' Hl' Hd; injection Hv as ->.
  all: destruct log' as [|v0' log']; [done|]; injection Hv' as ->.
  all: destruct (audit_same_digest v v') as [->|Hcol]; [done|by eapply chain_head_genuine|done| |].
  2, 4: right; exists v, v'; set_solver.
  all: inversion Hl' as [? ? Hs' Hp'|? w' ? Hl'' ? ? ? Hp']; subst; try congruence.
  - by left.
  - rewrite Hp in Hp'. injection Hp' as Hp'.
    destruct (IH w eq_refl (w' :: log0) w' eq_refl Hl'' Hp') as [->|(x & y & Hx & Hy & Hcol)]; [by left|].
    right. exists x, y. set_solver.
Qed.
End audit.

(** ** Witnesses *)
Module AuditDemo.
Import SignatureDemo JsonDemo IdentityDemo.
#[local] Existing Instances light_sha256 light_sha256_laws demo_ed25519 demo_ed25519_laws demo_base64
  demo_base64_laws demo_json_string demo_json_string_laws.

Definition demo_time : Rfc3339 := λ s, s == "2026-01-02T03:04:05Z"%string.
#[local] Existing Instance demo_time.

Definition content (n : N) (previous : option string) : AuditEventContent :=
  mkContent "tenant-1" "session-1" "event-1" n previous "2026-01-02T03:04:05Z" AuthorizationDecision Denied
    (Some R4) (Some "action.1") None (Some (hex_string (replicate 32 x07)))
    [hex_string (replicate 32 x01); hex_string (replicate 32 x02)].

Definition event `{Ed25519} (n : N) (previous : option string) : SignedAuditEnvelope :=
  match sign demo_identity (content n previous) with
  | Ok e => e
  | Err _ => mkEnvelope "" "" "" "" "" 0 None "" PolicyApplied Failed None None None None [] ""
  end.
Definition verified (e : SignedAuditEnvelope) : VerifiedAuditEnvelope :=
  mkVerified e (sha256 (text (to_value e))).

Definition first : VerifiedAuditEnvelope := verified (event 1 None).
Definition second : VerifiedAuditEnvelope := verified (event 2 (Some (verified_event_sha256 first))).

(** Readers that know one document. *)
Definition demo_read : FromSlice SignedAuditEnvelope :=
  let e := event 1 None in let t := text (to_value e) in {|
  value_from_slice b := if b == t then Some (to_value e) else None;
  from_slice b := if b == t then Some e else None;
|}.
#[local] Existing Instance demo_read.

Lemma demo_audit_reads_back : reads_back (event 1 None).
Proof. unfold reads_back. cbn [value_from_slice from_slice demo_read]. by rewrite !eq_refl_true. Qed.

Lemma demo_audit_genuine n previous :
  validate_unsigned_fields (unsigned_envelope demo_identity (content n previous)) = Ok tt →
  genuine (verified (event n previous)).
Proof.
  intros Hv. apply audit_validate_unsigned_Ok in Hv. unfold event. rewrite (proj2 (audit_sign_Ok _ _ _) (conj Hv eq_refl)).
  split; [|done]. split; [by apply event_ok_set_signature|]. eexists. split; [done|]. apply ed_sign_length.
Qed.

Lemma first_genuine : genuine first.
Proof. apply demo_audit_genuine. vm_compute. reflexivity. Qed.
Lemma second_genuine : genuine second.
Proof. apply demo_audit_genuine. vm_compute. reflexivity. Qed.

Lemma first_tracked : tracks (checkpoint_of first) [first].
Proof.
  split; [|by exists first]. constructor; [apply first_genuine|vm_compute; reflexivity..].
Qed.
Lemma second_tracked : tracks (checkpoint_of second) [second; first].
Proof.
  split; [|by exists second]. constructor; [apply first_tracked|apply second_genuine|vm_compute; reflexivity..].
Qed.

Lemma audit_event_exchange_witness :
  reads_back (event 1 None) ∧
  ∃ e b v, sign demo_identity (content 1 None) = Ok e ∧ export_offline e = Ok b ∧
    verify e "tenant-1" (identity_device_id demo_identity) (identity_public_key demo_identity) = Ok v.
Proof.
  split; [apply demo_audit_reads_back|].
  pose proof (audit_event_exchange demo_identity (content 1 None)) as H.
  assert (validate_unsigned_fields (unsigned_envelope demo_identity (content 1 None)) = Ok tt) as Hv
    by (vm_compute; reflexivity).
  rewrite Hv in H. destruct H as (e & b & v & Hs & Hx & _ & _ & _ & Hver & _). eauto 6.
Defined.

(** A scheme in which only the first event has a signature. *)
Definition only_first : bytes := report_signature_message (audit_payload (event 1 None)).
Definition honest : Ed25519 := {|
  ed_public k := ed_public (Ed25519 := demo_ed25519) k;
  ed_sign k m := ed_sign (Ed25519 := demo_ed25519) k m;
  ed_key_valid k := true;
  ed_verify p m s := m == only_first;
|}.

Lemma honest_laws : ∀ m s, ed_verify (Ed25519 := honest) (identity_public_key (ed := honest) demo_identity) m s = true →
  (∃ c e', sign (ed := honest) demo_identity c = Ok e' ∧ m = report_signature_message (audit_payload e')) ∨
  (∀ p, m ≠ report_signature_message (AUDIT_SIGNATURE_DOMAIN ++ p)).
Proof.
  intros m s Hm. apply bool_decide_eq_true in Hm as ->. left. exists (content 1 None), (event 1 None).
  split; [vm_compute; reflexivity|done].
Qed.

Lemma audit_event_authentic_witness :
  ∃ c e', sign (ed := honest) demo_identity c = Ok e' ∧
    event 1 None = set_signature (event 1 None).(signature) e'.
Proof.
  apply (audit_event_authentic (ed := honest) demo_identity (event 1 None) "tenant-1"
    (identity_device_id (ed := honest) demo_identity) (verified (event 1 None)) honest_laws).
  vm_compute. reflexivity.
Defined.

Lemma audit_checkpoint_refines_log_witness :
  tracks (checkpoint_of first) [first] ∧ genuine second ∧
  checkpoint_admit second (checkpoint_of first) = (checkpoint_of second, Ok Advanced) ∧
  tracks (checkpoint_of second) [second; first].
Proof.
  pose proof (proj2 audit_checkpoint_refines_log (checkpoint_of first) [first] second
    first_tracked second_genuine) as H.
  assert (checkpoint_admit second (checkpoint_of first) = (checkpoint_of second, Ok Advanced)) as Ha
    by (vm_compute; reflexivity).
  rewrite Ha in H. exact (conj first_tracked (conj second_genuine (conj Ha H))).
Defined.

Lemma audit_history_pinned_witness :
  tracks (checkpoint_of second) [second; first] ∧
  ([second; first] = [second; first] ∨ ∃ v v', v ∈ [second; first] ∧ v' ∈ [second; first] ∧
     collision (text (to_value v.(envelope))) (text (to_value v'.(envelope)))).
Proof.
  exact (conj second_tracked (audit_history_pinned (checkpoint_of second) _ _ second_tracked second_tracked)).
Defined.
End AuditDemo.
