(* ===== verification/FleetPolicy.v ===== *)
(** * Fleet policy bundles (crates/fleet-policy)

    A tenant signs a policy; a device verifies it, keeps the newest revision it
    has seen in a checkpoint, and evaluates actions by intersecting the policy
    with its own limits. The file models the whole crate; the theorems are in
    [FleetPolicyProperties]. *)

From Stdlib.Strings Require Import Byte.
From Stdlib Require String.
From S2P Require Import Prelude Bytes Crypto Signatures Ordered CanonicalJson Documents.

Definition POLICY_BUNDLE_SCHEMA : string := "dev.kernaid.fleet.policy-bundle.v1".
Definition POLICY_CHECKPOINT_SCHEMA : string := "dev.kernaid.fleet.policy-checkpoint.v1".
Definition POLICY_SIGNATURE_DOMAIN : bytes := domain "kernaid:fleet:policy:v1".
Definition MAX_RETENTION_DAYS : N := 3650.
Definition MAX_POLICY_BYTES : Z := 1024 * 1024.
Definition MAX_CHECKPOINT_BYTES : Z := 4 * 1024.
Definition MAX_ASSIGNED_DEVICES : Z := 4096.
Definition MAX_ACTION_IDS : Z := 1024.
Definition MAX_PROVIDER_MODES : Z := 6.

(** ** Data *)

Inductive RiskLevel := R0 | R1 | R2 | R3.
(** [Offline_] is [ProviderMode::Offline]; the name without it is a transport state. *)
Inductive ProviderMode := AnthropicApi | Offline_ | OpenaiApi | OpenaiCompatible | Enterprise | GeminiApi.
Inductive UpdateRing := Hold | Canary | Stable.
Inductive Assignments := All | DeviceIds (device_ids : list string).

#[export] Instance RiskLevel_eq_dec : EqDecision RiskLevel.
Proof. solve_decision. Defined.
#[export] Instance ProviderMode_eq_dec : EqDecision ProviderMode.
Proof. solve_decision. Defined.
#[export] Instance UpdateRing_eq_dec : EqDecision UpdateRing.
Proof. solve_decision. Defined.

(** The derived order on risks. *)
Definition risk_rank (r : RiskLevel) : nat := match r with R0 => 0 | R1 => 1 | R2 => 2 | R3 => 3 end.
Definition risk_gt (a b : RiskLevel) : bool := risk_rank b <? risk_rank a.
Definition risk_ge (a b : RiskLevel) : bool := risk_rank b <=? risk_rank a.
Definition risk_min (a b : RiskLevel) : RiskLevel := if risk_gt a b then b else a.

Record PolicyRules := mkRules {
  max_risk : RiskLevel;
  local_approval_from : RiskLevel;
  allowed_action_ids : list string;
  denied_action_ids : list string;
  allow_evidence_upload : bool;
  retention_days : N;
  provider_modes : list ProviderMode;
  rules_update_ring : UpdateRing;
  emergency_rollback_always_allowed : bool;
}.

Record PolicyBundleContent := mkContent {
  content_tenant_id : string;
  content_policy_id : string;
  content_revision : N;
  content_issued_at_unix : N;
  content_not_before_unix : N;
  content_offline_allowed_until_unix : N;
  content_expires_at_unix : N;
  content_assignments : Assignments;
  content_rules : PolicyRules;
}.

Record SignedPolicyBundle := mkBundle {
  schema : string;
  tenant_id : string;
  policy_id : string;
  revision : N;
  issued_at_unix : N;
  not_before_unix : N;
  offline_allowed_until_unix : N;
  expires_at_unix : N;
  assignments : Assignments;
  rules : PolicyRules;
  signature : string;
}.

Record UnsignedPolicyBundle := mkUnsigned {
  u_schema : string;
  u_tenant_id : string;
  u_policy_id : string;
  u_revision : N;
  u_issued_at_unix : N;
  u_not_before_unix : N;
  u_offline_allowed_until_unix : N;
  u_expires_at_unix : N;
  u_assignments : Assignments;
  u_rules : PolicyRules;
}.

Record VerifiedPolicyBundle := mkVerified {
  bundle : SignedPolicyBundle;
  digest : bytes;
}.

Record PolicyCheckpoint := mkCheckpoint {
  cp_schema : string;
  cp_tenant_id : string;
  cp_policy_id : string;
  cp_revision : N;
  bundle_sha256 : string;
}.

Inductive CheckpointAdmission := Advanced | IdempotentReplay.
Inductive TransportState := Online | Offline.
Inductive PolicyOperation := Diagnostic | NewRepair | StartedRollback.

#[export] Instance TransportState_eq_dec : EqDecision TransportState.
Proof. solve_decision. Defined.

Record PolicyEvaluation := mkEvaluation {
  ev_device_id : string;
  ev_action_id : string;
  ev_action_risk : option RiskLevel;
  ev_local_max_risk : RiskLevel;
  ev_local_approval_from : RiskLevel;
  ev_locally_known : bool;
  ev_locally_allowed : bool;
  ev_operation : PolicyOperation;
  ev_transport : TransportState;
  ev_now_unix : N;
}.

Inductive DenyReason :=
| InvalidLocalContext | UnknownLocalAction | LocallyDenied | UnknownOrUnsupportedRisk
| ExceedsLocalRiskCeiling | DeviceNotAssigned | PolicyNotYetValid | PolicyExpired
| OfflineWindowElapsed | ExceedsFleetRiskCeiling | FleetDeniedAction | ActionNotFleetAllowed.

Inductive PolicyDecision :=
| DiagnosticsAllowed
| NewRepairAllowed (local_approval_required audit_required : bool)
| StartedRollbackAllowed (audit_required : bool)
| Denied (reason : DenyReason).

Inductive FleetPolicyError :=
| InvalidField (field : string)
| InvalidTimeWindow
| InvalidJson
| UnsupportedJsonValue
| UnsafeInteger
| NonCanonicalJson
| BundleTooLarge
| InvalidSignature
| UnexpectedTenant
| UnexpectedPolicy
| RevisionRollback
| RevisionConflict.

#[export] Instance policy_errors : JsonErrors FleetPolicyError := {|
  invalid_json := InvalidJson;
  unsupported_json_value := UnsupportedJsonValue;
  unsafe_integer := UnsafeInteger;
  non_canonical_json := NonCanonicalJson;
  document_too_large := BundleTooLarge;
|}.

(** ** The serializations *)

Definition risk_name (r : RiskLevel) : string :=
  match r with R0 => "R0" | R1 => "R1" | R2 => "R2" | R3 => "R3" end.
Definition wire_name (m : ProviderMode) : string :=
  match m with
  | AnthropicApi => "anthropic_api"
  | Offline_ => "offline"
  | OpenaiApi => "openai_api"
  | OpenaiCompatible => "openai_compatible"
  | Enterprise => "enterprise"
  | GeminiApi => "gemini_api"
  end.
Definition ring_name (r : UpdateRing) : string :=
  match r with Hold => "hold" | Canary => "canary" | Stable => "stable" end.

#[export] Instance assignments_to_value : ToValue Assignments := λ a,
  match a with
  | All => json_object [("all"%string, Bool true)]
  | DeviceIds device_ids => json_object [("deviceIds"%string, Arr (map Str device_ids))]
  end.

(** The two optional members that [Deserialize for Assignments] reads. *)
Definition assignments_from_wire (wire_all : option bool) (wire_device_ids : option (list string)) :
    option Assignments :=
  match wire_all, wire_device_ids with
  | Some true, None => Some All
  | None, Some device_ids => Some (DeviceIds device_ids)
  | _, _ => None
  end.

Definition rules_keys : list string :=
  ["maxRisk"; "localApprovalFrom"; "allowedActionIds"; "deniedActionIds"; "allowEvidenceUpload";
   "retentionDays"; "providerModes"; "updateRing"; "emergencyRollbackAlwaysAllowed"]%string.
#[export] Instance rules_to_value : ToValue PolicyRules := λ r,
  json_object (zip rules_keys
    [Str (risk_name r.(max_risk)); Str (risk_name r.(local_approval_from));
     Arr (map Str r.(allowed_action_ids)); Arr (map Str r.(denied_action_ids));
     Bool r.(allow_evidence_upload); json_u64 r.(retention_days);
     Arr (map (λ m, Str (wire_name m)) r.(provider_modes)); Str (ring_name r.(rules_update_ring));
     Bool r.(emergency_rollback_always_allowed)]).

Definition unsigned_keys : list string :=
  ["schema"; "tenantId"; "policyId"; "revision"; "issuedAtUnix"; "notBeforeUnix";
   "offlineAllowedUntilUnix"; "expiresAtUnix"; "assignments"; "rules"]%string.
Definition unsigned_values (u : UnsignedPolicyBundle) : list value :=
  [Str u.(u_schema); Str u.(u_tenant_id); Str u.(u_policy_id); json_u64 u.(u_revision);
   json_u64 u.(u_issued_at_unix); json_u64 u.(u_not_before_unix);
   json_u64 u.(u_offline_allowed_until_unix); json_u64 u.(u_expires_at_unix);
   to_value u.(u_assignments); to_value u.(u_rules)].
#[export] Instance unsigned_to_value : ToValue UnsignedPolicyBundle := λ u,
  json_object (zip unsigned_keys (unsigned_values u)).

Definition unsigned (b : SignedPolicyBundle) : UnsignedPolicyBundle :=
  mkUnsigned b.(schema) b.(tenant_id) b.(policy_id) b.(revision) b.(issued_at_unix)
    b.(not_before_unix) b.(offline_allowed_until_unix) b.(expires_at_unix) b.(assignments) b.(rules).

Definition signed_keys : list string := unsigned_keys ++ ["signature"%string].
#[export] Instance bundle_to_value : ToValue SignedPolicyBundle := λ b,
  json_object (zip signed_keys (unsigned_values (unsigned b) ++ [Str b.(signature)])).

Definition checkpoint_keys : list string :=
  ["schema"; "tenantId"; "policyId"; "revision"; "bundleSha256"]%string.
#[export] Instance checkpoint_to_value : ToValue PolicyCheckpoint := λ c,
  json_object (zip checkpoint_keys
    [Str c.(cp_schema); Str c.(cp_tenant_id); Str c.(cp_policy_id); json_u64 c.(cp_revision);
     Str c.(bundle_sha256)]).

(** ** Validation *)

Definition validate_identifier : string → string → result FleetPolicyError () :=
  Documents.validate_identifier InvalidField.
Definition validate_device_id : string → result FleetPolicyError () :=
  Documents.validate_device_id InvalidField.
Definition validate_safe_nonzero : string → N → result FleetPolicyError () :=
  Documents.validate_safe_nonzero InvalidField.
Definition validate_sha256 : string → string → result FleetPolicyError () :=
  Documents.validate_sha256 InvalidField.

Definition validate_sorted_unique_strings (field : string) (values : list string)
    (validate : string → result FleetPolicyError ()) : result FleetPolicyError () :=
  _ ← for_each validate values;
  reject (negb (strictly_sorted str_lt values)) with InvalidField field;
  Ok tt.

Definition validate_assignments (a : Assignments) : result FleetPolicyError () :=
  match a with
  | All => Ok tt
  | DeviceIds device_ids =>
      reject ((device_ids == []) || (MAX_ASSIGNED_DEVICES <? Z.of_nat (length device_ids))%Z)
        with InvalidField "assignments.deviceIds";
      validate_sorted_unique_strings "assignments.deviceIds" device_ids validate_device_id
  end.

Definition validate_rules (r : PolicyRules) : result FleetPolicyError () :=
  _ ← validate_sorted_unique_strings "rules.allowedActionIds" r.(allowed_action_ids)
        (validate_identifier "rules.allowedActionIds");
  _ ← validate_sorted_unique_strings "rules.deniedActionIds" r.(denied_action_ids)
        (validate_identifier "rules.deniedActionIds");
  reject ((MAX_ACTION_IDS <? Z.of_nat (length r.(allowed_action_ids)))%Z
          || (MAX_ACTION_IDS <? Z.of_nat (length r.(denied_action_ids)))%Z
          || existsb (λ action, contains_sorted r.(denied_action_ids) action) r.(allowed_action_ids))
    with InvalidField "rules.actionIds";
  reject (negb ((1 <=? r.(retention_days)) && (r.(retention_days) <=? MAX_RETENTION_DAYS))%N)
    with InvalidField "rules.retentionDays";
  reject ((r.(provider_modes) == [])
          || (MAX_PROVIDER_MODES <? Z.of_nat (length r.(provider_modes)))%Z
          || negb (strictly_sorted (λ a b, str_lt (wire_name a) (wire_name b)) r.(provider_modes)))
    with InvalidField "rules.providerModes";
  reject (negb r.(emergency_rollback_always_allowed))
    with InvalidField "rules.emergencyRollbackAlwaysAllowed";
  Ok tt.

Definition validate_unsigned_fields (b : SignedPolicyBundle) : result FleetPolicyError () :=
  reject (b.(schema) != POLICY_BUNDLE_SCHEMA) with InvalidField "schema";
  _ ← validate_identifier "tenantId" b.(tenant_id);
  _ ← validate_identifier "policyId" b.(policy_id);
  _ ← validate_safe_nonzero "revision" b.(revision);
  _ ← validate_safe_nonzero "issuedAtUnix" b.(issued_at_unix);
  _ ← validate_safe_nonzero "notBeforeUnix" b.(not_before_unix);
  _ ← validate_safe_nonzero "offlineAllowedUntilUnix" b.(offline_allowed_until_unix);
  _ ← validate_safe_nonzero "expiresAtUnix" b.(expires_at_unix);
  reject ((b.(not_before_unix) <? b.(issued_at_unix))
          || (b.(offline_allowed_until_unix) <? b.(not_before_unix))
          || (b.(expires_at_unix) <? b.(offline_allowed_until_unix)))%N
    with InvalidTimeWindow;
  _ ← validate_assignments b.(assignments);
  validate_rules b.(rules).

Definition hex_sha256 (digest : bytes) : string := hex_string digest.
Definition policy_signature_message (payload : bytes) : result FleetPolicyError bytes :=
  length_prefixed BundleTooLarge POLICY_SIGNATURE_DOMAIN payload.
Definition validate_size : Z → Z → result FleetPolicyError () := CanonicalJson.validate_size.
Definition validate_json_value : value → result FleetPolicyError () := CanonicalJson.validate_json_value.

(** ** Evaluation *)

Definition applies_to (a : Assignments) (device_id : string) : bool :=
  match a with
  | All => true
  | DeviceIds device_ids => contains_sorted device_ids device_id
  end.

Section evaluation.
Context (p : VerifiedPolicyBundle).

Definition applies_to_device (device_id : string) : bool :=
  is_ok (validate_device_id device_id) && applies_to p.(bundle).(assignments) device_id.

Definition is_applicable_to (device_id : string) (now_unix : N) (transport : TransportState) : bool :=
  (now_unix != 0%N)
  && (now_unix <=? MAX_SAFE_JSON_INTEGER)%N
  && applies_to_device device_id
  && (p.(bundle).(not_before_unix) <=? now_unix)%N
  && (now_unix <? p.(bundle).(expires_at_unix))%N
  && ((transport == Online) || (now_unix <=? p.(bundle).(offline_allowed_until_unix))%N).

Definition evaluate_new_repair (request : PolicyEvaluation) (action_risk : RiskLevel) : PolicyDecision :=
  let b := p.(bundle) in
  if negb (applies_to b.(assignments) request.(ev_device_id)) then Denied DeviceNotAssigned
  else if (request.(ev_now_unix) <? b.(not_before_unix))%N then Denied PolicyNotYetValid
  else if (b.(expires_at_unix) <=? request.(ev_now_unix))%N then Denied PolicyExpired
  else if (request.(ev_transport) == Offline)
          && (b.(offline_allowed_until_unix) <? request.(ev_now_unix))%N then Denied OfflineWindowElapsed
  else if risk_gt action_risk b.(rules).(max_risk) then Denied ExceedsFleetRiskCeiling
  else if contains_sorted b.(rules).(denied_action_ids) request.(ev_action_id) then Denied FleetDeniedAction
  else if negb (contains_sorted b.(rules).(allowed_action_ids) request.(ev_action_id))
    then Denied ActionNotFleetAllowed
  else
    let effective_approval_from :=
      risk_min request.(ev_local_approval_from) b.(rules).(local_approval_from) in
    NewRepairAllowed (risk_ge action_risk effective_approval_from) true.

Definition evaluate (request : PolicyEvaluation) : PolicyDecision :=
  if (request.(ev_now_unix) == 0%N) || (MAX_SAFE_JSON_INTEGER <? request.(ev_now_unix))%N
     || negb (is_ok (validate_device_id request.(ev_device_id)))
     || negb (is_ok (validate_identifier "actionId" request.(ev_action_id)))
  then Denied InvalidLocalContext
  else if negb request.(ev_locally_known) then Denied UnknownLocalAction
  else if negb request.(ev_locally_allowed) then Denied LocallyDenied
  else match request.(ev_action_risk) with
  | None => Denied UnknownOrUnsupportedRisk
  | Some action_risk =>
      if risk_gt action_risk request.(ev_local_max_risk) then Denied ExceedsLocalRiskCeiling
      else match request.(ev_operation) with
      | Diagnostic => DiagnosticsAllowed
      | StartedRollback => StartedRollbackAllowed true
      | NewRepair => evaluate_new_repair request action_risk
      end
  end.

Definition evidence_upload_allowed (locally_allowed : bool) : bool :=
  locally_allowed && p.(bundle).(rules).(allow_evidence_upload).
Definition effective_retention_days (local_maximum_days : N) : N :=
  N.min local_maximum_days p.(bundle).(rules).(retention_days).
Definition provider_mode_allowed (mode : ProviderMode) (locally_allowed : bool) : bool :=
  locally_allowed && bool_decide (mode ∈ p.(bundle).(rules).(provider_modes)).
Definition update_ring : UpdateRing := p.(bundle).(rules).(rules_update_ring).
End evaluation.

(** ** Signed bundles *)

(** [bundle.signature = ..]. *)
Definition set_signature (s : string) (b : SignedPolicyBundle) : SignedPolicyBundle :=
  mkBundle b.(schema) b.(tenant_id) b.(policy_id) b.(revision) b.(issued_at_unix) b.(not_before_unix)
    b.(offline_allowed_until_unix) b.(expires_at_unix) b.(assignments) b.(rules) s.

Definition unsigned_bundle (c : PolicyBundleContent) : SignedPolicyBundle :=
  mkBundle POLICY_BUNDLE_SCHEMA c.(content_tenant_id) c.(content_policy_id) c.(content_revision)
    c.(content_issued_at_unix) c.(content_not_before_unix) c.(content_offline_allowed_until_unix)
    c.(content_expires_at_unix) c.(content_assignments) c.(content_rules) "".

Section policy.
Context `{sha : Sha256} `{ed : Ed25519} `{b64 : Base64Url} `{js : JsonString}.
Context `{read_bundle : FromSlice SignedPolicyBundle} `{read_checkpoint : FromSlice PolicyCheckpoint}.

Definition write_canonical_value : value → bytes → result FleetPolicyError bytes :=
  CanonicalJson.write_canonical_value.
Definition canonical_json {T} `{ToValue T} : T → result FleetPolicyError bytes :=
  CanonicalJson.canonical_json.
Definition import_canonical {T} `{ToValue T} `{FromSlice T} : bytes → Z → result FleetPolicyError T :=
  CanonicalJson.import_canonical.
Definition decode_signature : string → result FleetPolicyError bytes :=
  Documents.decode_signature InvalidField.

Definition validate_fields (b : SignedPolicyBundle) : result FleetPolicyError () :=
  _ ← validate_unsigned_fields b;
  _ ← decode_signature b.(signature);
  Ok tt.

Definition unsigned_canonical_json (b : SignedPolicyBundle) : result FleetPolicyError bytes :=
  canonical_json (unsigned b).

Definition sign (content : PolicyBundleContent) (signing_key : bytes) :
    result FleetPolicyError SignedPolicyBundle :=
  let bundle := unsigned_bundle content in
  _ ← validate_unsigned_fields bundle;
  unsigned ← unsigned_canonical_json bundle;
  message ← policy_signature_message unsigned;
  let bundle := set_signature (b64_encode (ed_sign signing_key message)) bundle in
  _ ← validate_fields bundle;
  Ok bundle.

Definition export_canonical (b : SignedPolicyBundle) : result FleetPolicyError bytes :=
  _ ← validate_fields b;
  bytes ← canonical_json b;
  _ ← validate_size (blen bytes) MAX_POLICY_BYTES;
  Ok bytes.

(** The trust anchor is the bytes of a valid [VerifyingKey]. *)
Definition verify (b : SignedPolicyBundle) (trust_anchor : bytes) (expected_tenant_id : string) :
    result FleetPolicyError VerifiedPolicyBundle :=
  _ ← validate_fields b;
  _ ← validate_identifier "expectedTenantId" expected_tenant_id;
  reject (b.(tenant_id) != expected_tenant_id) with UnexpectedTenant;
  signature ← decode_signature b.(signature);
  unsigned ← unsigned_canonical_json b;
  message ← policy_signature_message unsigned;
  reject (negb (ed_verify trust_anchor message signature)) with InvalidSignature;
  canonical ← export_canonical b;
  Ok (mkVerified b (sha256 canonical)).

Definition import_and_verify (b : bytes) (trust_anchor : bytes) (expected_tenant_id : string) :
    result FleetPolicyError VerifiedPolicyBundle :=
  bundle ← import_canonical b MAX_POLICY_BYTES;
  verify bundle trust_anchor expected_tenant_id.

(** ** Checkpoints *)

Definition checkpoint_validate (c : PolicyCheckpoint) : result FleetPolicyError () :=
  reject (c.(cp_schema) != POLICY_CHECKPOINT_SCHEMA) with InvalidField "checkpoint.schema";
  _ ← validate_identifier "checkpoint.tenantId" c.(cp_tenant_id);
  _ ← validate_identifier "checkpoint.policyId" c.(cp_policy_id);
  _ ← validate_safe_nonzero "checkpoint.revision" c.(cp_revision);
  validate_sha256 "checkpoint.bundleSha256" c.(bundle_sha256).

Definition from_verified (policy : VerifiedPolicyBundle) : PolicyCheckpoint :=
  mkCheckpoint POLICY_CHECKPOINT_SCHEMA policy.(bundle).(tenant_id) policy.(bundle).(policy_id)
    policy.(bundle).(revision) (hex_sha256 policy.(digest)).

(** [self.revision = ..] and [self.bundle_sha256 = ..]. *)
Definition set_revision (n : N) (digest : string) (c : PolicyCheckpoint) : PolicyCheckpoint :=
  mkCheckpoint c.(cp_schema) c.(cp_tenant_id) c.(cp_policy_id) n digest.

Definition checkpoint_admit (policy : VerifiedPolicyBundle) :
    method PolicyCheckpoint FleetPolicyError CheckpointAdmission :=
  self ← get_self;
  lift (checkpoint_validate self);;
  let b := policy.(bundle) in
  fail_if (self.(cp_tenant_id) != b.(tenant_id)) UnexpectedTenant;;
  fail_if (self.(cp_policy_id) != b.(policy_id)) UnexpectedPolicy;;
  fail_if (b.(revision) <? self.(cp_revision))%N RevisionRollback;;
  let digest := hex_sha256 policy.(digest) in
  if b.(revision) == self.(cp_revision) then
    if digest == self.(bundle_sha256) then mret IdempotentReplay else throw RevisionConflict
  else
    modify_self (set_revision b.(revision) digest);;
    mret Advanced.

Definition checkpoint_export_canonical (c : PolicyCheckpoint) : result FleetPolicyError bytes :=
  _ ← checkpoint_validate c;
  b ← canonical_json c;
  _ ← validate_size (blen b) MAX_CHECKPOINT_BYTES;
  Ok b.

Definition checkpoint_import_canonical (b : bytes) : result FleetPolicyError PolicyCheckpoint :=
  checkpoint ← import_canonical b MAX_CHECKPOINT_BYTES;
  _ ← checkpoint_validate checkpoint;
  Ok checkpoint.
End policy.
