(* ===== verification/FleetPolicyProperties.v ===== *)
(** * What fleet policies promise

    - the evaluation allows a new repair exactly when the device's own limits
      and the policy both allow it, and never depends on the policy for
      diagnostics and started rollbacks;
    - the checkpoint never goes back, and holds one document per revision up to
      a collision of SHA-256;
    - a valid policy is always signed, fits its size limit and verifies. *)

From Stdlib.Strings Require Import Byte.
From Stdlib Require String.
From Stdlib.Sorting Require Import Sorted.
From S2P Require Import Prelude Bytes Crypto Signatures Ordered CanonicalJson Documents FleetPolicy.

(** ** Serialization *)

#[export] Instance risk_name_inj : Inj (=) (=) risk_name.
Proof. by intros [] []. Qed.
#[export] Instance wire_name_inj : Inj (=) (=) wire_name.
Proof. by intros [] []. Qed.
#[export] Instance ring_name_inj : Inj (=) (=) ring_name.
Proof. by intros [] []. Qed.

(** What the reader of assignments finds in the serialized object. *)
Definition wire_bool (v : option value) : option bool :=
  match v with Some (Bool b) => Some b | _ => None end.
Definition wire_strings (v : option value) : option (list string) :=
  match v with
  | Some (Arr l) => Some (omap (λ v, match v with Str s => Some s | _ => None end) l)
  | _ => None
  end.

Lemma assignments_roundtrip a :
  match to_value a with
  | Obj l => assignments_from_wire (wire_bool (map_get "all" l)) (wire_strings (map_get "deviceIds" l))
  | _ => None
  end = Some a.
Proof.
  destruct a as [|l]; [done|].
  change (Some (DeviceIds (omap (λ v, match v with Str s => Some s | _ => None end) (map Str l))) = Some (DeviceIds l)).
  do 2 f_equal. induction l as [|s l IH]; [done|]. cbn [map]. by rewrite <-IH at 2.
Qed.

Lemma assignments_inj (a a' : Assignments) : to_value a = to_value a' → a = a'.
Proof.
  intros Heq. pose proof (assignments_roundtrip a) as Ha. rewrite Heq, assignments_roundtrip in Ha. by simplify_eq.
Qed.

Lemma assignments_ok (a : Assignments) : value_ok (to_value a).
Proof. destruct a; object_ok. Qed.

Lemma rules_inj (r r' : PolicyRules) : to_value r = to_value r' → r = r'.
Proof.
  intros Heq. object_inj Heq.
  destruct r, r'. cbn in Heq. injection Heq as H1 H2 H3 H4 -> -> H7 H8 ->.
  apply (inj risk_name) in H1, H2. apply (inj ring_name) in H8. apply (list_fmap_eq_inj Str) in H3, H4; [|apply _..].
  apply (list_fmap_eq_inj (λ m, Str (wire_name m))) in H7; [by subst|].
  intros m m' [= Hm]. by apply (inj wire_name).
Qed.

Lemma rules_ok (r : PolicyRules) : value_ok (to_value r).
Proof. object_ok. Qed.

Lemma policy_unsigned_values_inj u u' : unsigned_values u = unsigned_values u' → u = u'.
Proof.
  intros Heq. unfold unsigned_values in Heq.
  pose proof (assignments_inj u.(u_assignments) u'.(u_assignments)) as Ha.
  pose proof (rules_inj u.(u_rules) u'.(u_rules)) as Hr. revert Heq Ha Hr.
  generalize (to_value u.(u_assignments)) as a, (to_value u.(u_rules)) as r,
    (to_value u'.(u_assignments)) as a', (to_value u'.(u_rules)) as r'.
  intros a r a' r' Heq Ha Hr. injection Heq as ? ? ? ? ? ? ? ? ?%Ha ?%Hr. destruct u, u'. simpl in *. by subst.
Qed.

#[export] Instance unsigned_value_ok : ToValueOk UnsignedPolicyBundle.
Proof.
  split.
  - intros u. object_ok; [apply assignments_ok|apply rules_ok].
  - intros u u' Heq. object_inj Heq.
    by apply policy_unsigned_values_inj.
Qed.

#[export] Instance bundle_value_ok : ToValueOk SignedPolicyBundle.
Proof.
  split.
  - intros b. object_ok; [apply assignments_ok|apply rules_ok].
  - intros u u' Heq. object_inj Heq.
    apply app_inj_2 in Heq as [Heq [= Hs]]; [|done]. apply policy_unsigned_values_inj in Heq.
    destruct u, u'. unfold unsigned in Heq. simpl in *. injection Heq; intros; by subst.
Qed.

#[export] Instance checkpoint_value_ok : ToValueOk PolicyCheckpoint.
Proof.
  split.
  - intros c. object_ok.
  - intros c c' Heq. object_inj Heq.
    destruct c, c'. simpl in *. by simplify_eq.
Qed.

(** ** Valid policies *)

Definition sorted_list (ok : string → bool) (l : list string) : Prop :=
  Forall (λ s, ok s = true) l ∧ strictly_sorted str_lt l = true.

Record rules_valid (r : PolicyRules) : Prop := {
  valid_allowed : sorted_list identifier r.(allowed_action_ids) ∧ length r.(allowed_action_ids) ≤ 1024;
  valid_denied : sorted_list identifier r.(denied_action_ids) ∧ length r.(denied_action_ids) ≤ 1024;
  valid_disjoint a : a ∈ r.(allowed_action_ids) → a ∉ r.(denied_action_ids);
  valid_retention : (1 ≤ r.(retention_days) ≤ MAX_RETENTION_DAYS)%N;
  valid_modes : r.(provider_modes) ≠ [] ∧ length r.(provider_modes) ≤ 6 ∧
    strictly_sorted (λ a b, str_lt (wire_name a) (wire_name b)) r.(provider_modes) = true;
  valid_rollback : r.(emergency_rollback_always_allowed) = true;
}.

Definition assignments_valid (a : Assignments) : Prop :=
  match a with
  | All => True
  | DeviceIds l => l ≠ [] ∧ length l ≤ 4096 ∧ sorted_list device_text l
  end.

Record policy_ok (b : SignedPolicyBundle) : Prop := {
  ok_schema : b.(schema) = POLICY_BUNDLE_SCHEMA;
  ok_tenant : identifier b.(tenant_id) = true;
  ok_policy : identifier b.(policy_id) = true;
  ok_revision : safe_nonzero b.(revision) = true;
  ok_times : safe_nonzero b.(issued_at_unix) = true ∧ safe_nonzero b.(not_before_unix) = true ∧
    safe_nonzero b.(offline_allowed_until_unix) = true ∧ safe_nonzero b.(expires_at_unix) = true;
  ok_window : (b.(issued_at_unix) ≤ b.(not_before_unix) ≤ b.(offline_allowed_until_unix) ∧
               b.(offline_allowed_until_unix) ≤ b.(expires_at_unix))%N;
  ok_assignments : assignments_valid b.(assignments);
  ok_rules : rules_valid b.(rules);
}.

Lemma contains_sorted_elem l s :
  strictly_sorted str_lt l = true → contains_sorted l s = true ↔ s ∈ l.
Proof. intros Hs. rewrite (contains_sorted_spec l s Hs). apply bool_decide_eq_true. Qed.

Lemma validate_sorted_Ok field l check ok u :
  (∀ s, check s = Ok tt ↔ ok s = true) →
  validate_sorted_unique_strings field l check = Ok u ↔ sorted_list ok l.
Proof.
  intros Hc. destruct u. unfold validate_sorted_unique_strings, sorted_list.
  assert (Forall (λ s, check s = Ok tt) l ↔ Forall (λ s, ok s = true) l) as <- by (by apply Forall_proper).
  split.
  - intros H. inv_ok H. guards. by apply for_each_Ok in Hcall.
  - intros [Hl ->]. apply bind_pass_unit; [by apply for_each_Ok|done].
Qed.

Lemma validate_assignments_Ok a u : validate_assignments a = Ok u ↔ assignments_valid a.
Proof.
  destruct u, a as [|l]; [done|]. unfold validate_assignments, assignments_valid, MAX_ASSIGNED_DEVICES.
  rewrite reject_Ok, orb_false_iff, bool_decide_eq_false, Z.ltb_ge.
  rewrite validate_sorted_Ok by (intros; apply validate_device_id_Ok). intuition lia.
Qed.

Lemma validate_rules_Ok r u : validate_rules r = Ok u ↔ rules_valid r.
Proof.
  destruct u. unfold validate_rules, MAX_ACTION_IDS, MAX_PROVIDER_MODES.
  assert (∀ field l, validate_sorted_unique_strings field l (validate_identifier field) = Ok tt ↔ sorted_list identifier l)
    as Hs by (intros; apply validate_sorted_Ok; intros; apply validate_identifier_Ok).
  assert (strictly_sorted str_lt r.(denied_action_ids) = true →
    existsb (λ action, contains_sorted r.(denied_action_ids) action) r.(allowed_action_ids) = false ↔
    ∀ a, a ∈ r.(allowed_action_ids) → a ∉ r.(denied_action_ids)) as He.
  { intros Hd. rewrite <-not_true_iff_false, existsb_exists. setoid_rewrite contains_sorted_elem; [|done].
    setoid_rewrite <-list_elem_of_In. naive_solver. }
  split.
  - intros H. inv_ok H. n_guards. apply Hs in Hcall as [Ha1 Ha2], Hcall0 as [Hd1 Hd2].
    split; [split; [by split|lia]..|by apply He|lia|split_and!; [done|lia|done]|done].
  - intros [[Ha Hal] [Hd Hdl] Hdis Hr (Hm1 & Hm2 & Hm3) He'].
    apply bind_pass_unit; [by apply Hs|]. apply bind_pass_unit; [by apply Hs|].
    rewrite (proj2 (He (proj2 Hd)) Hdis), Hm3, He', (bool_decide_false (_ = [])) by done.
    rewrite !(proj2 (Z.ltb_ge _ _)) by lia. rewrite !(proj2 (N.leb_le _ _)) by lia. done.
Qed.

Lemma policy_validate_unsigned_Ok b u : validate_unsigned_fields b = Ok u ↔ policy_ok b.
Proof.
  destruct u. unfold validate_unsigned_fields. split.
  - intros H. inv_ok H. n_guards. apply validate_identifier_Ok in Hcall, Hcall0.
    apply validate_safe_nonzero_Ok in Hcall1, Hcall2, Hcall3, Hcall4, Hcall5.
    apply validate_assignments_Ok in Hcall6. apply validate_rules_Ok in H. by split.
  - intros [-> Ht Hp Hr (H1 & H2 & H3 & H4) Hw Ha Hru]. rewrite ne_refl_false.
    run_ok ltac:(first [ by apply validate_identifier_Ok | by apply validate_safe_nonzero_Ok
      | by apply validate_assignments_Ok | rewrite !(proj2 (N.ltb_ge _ _)) by lia; done ]).
    by apply validate_rules_Ok.
Qed.

(** ** Evaluation *)

(** What the device itself demands, whatever the policy says. *)
Definition locally_permitted (q : PolicyEvaluation) (r : RiskLevel) : Prop :=
  (0 < q.(ev_now_unix) ≤ MAX_SAFE_JSON_INTEGER)%N ∧ device_text q.(ev_device_id) = true ∧
  identifier q.(ev_action_id) = true ∧ q.(ev_locally_known) = true ∧ q.(ev_locally_allowed) = true ∧
  q.(ev_action_risk) = Some r ∧ risk_rank r ≤ risk_rank q.(ev_local_max_risk).

(** What the policy demands of a new repair. *)
Definition assigned (a : Assignments) (device_id : string) : Prop :=
  match a with All => True | DeviceIds l => device_id ∈ l end.
Definition fleet_permitted (b : SignedPolicyBundle) (q : PolicyEvaluation) (r : RiskLevel) : Prop :=
  assigned b.(assignments) q.(ev_device_id) ∧
  (b.(not_before_unix) ≤ q.(ev_now_unix) < b.(expires_at_unix))%N ∧
  (q.(ev_transport) = Offline → (q.(ev_now_unix) ≤ b.(offline_allowed_until_unix))%N) ∧
  risk_rank r ≤ risk_rank b.(rules).(max_risk) ∧
  q.(ev_action_id) ∈ b.(rules).(allowed_action_ids) ∧ q.(ev_action_id) ∉ b.(rules).(denied_action_ids).

Lemma applies_to_assigned a d : assignments_valid a → applies_to a d = true ↔ assigned a d.
Proof. destruct a as [|l]; [done|]. intros (_ & _ & _ & Hs). by apply contains_sorted_elem. Qed.

Lemma is_ok_device d : is_ok (validate_device_id d) = device_text d.
Proof.
  destruct (device_text d) eqn:Hd.
  - by assert (validate_device_id d = Ok tt) as -> by by apply validate_device_id_Ok.
  - destruct (validate_device_id d) as [[]|] eqn:Hv; [|done]. apply validate_device_id_Ok in Hv. congruence.
Qed.
Lemma is_ok_identifier field s : is_ok (validate_identifier field s) = identifier s.
Proof.
  destruct (identifier s) eqn:Hd.
  - by assert (validate_identifier field s = Ok tt) as -> by by apply validate_identifier_Ok.
  - destruct (validate_identifier field s) as [[]|] eqn:Hv; [|done]. apply validate_identifier_Ok in Hv. congruence.
Qed.

Lemma risk_gt_false a b : risk_gt a b = false ↔ risk_rank a ≤ risk_rank b.
Proof. unfold risk_gt. apply Nat.ltb_ge. Qed.

(** The local half of the evaluation. *)
Lemma evaluate_local p q d :
  evaluate p q = d →
  (∃ reason, d = Denied reason ∧ ∀ p', evaluate p' q = d) ∧ (∀ r, ¬ locally_permitted q r) ∨
  (∃ r, locally_permitted q r ∧
     d = match q.(ev_operation) with
         | Diagnostic => DiagnosticsAllowed
         | StartedRollback => StartedRollbackAllowed true
         | NewRepair => evaluate_new_repair p q r
         end).
Proof.
  intros <-. unfold evaluate, locally_permitted. rewrite is_ok_device, is_ok_identifier.
  destruct (_ || _) eqn:Hc.
  { left. split; [by eauto|]. intros r (Hn & Hd & Hi & _). rewrite Hd, Hi in Hc.
    rewrite bool_decide_false in Hc by lia. rewrite (proj2 (N.ltb_ge _ _)) in Hc by lia. done. }
  n_guards. destruct q.(ev_locally_known); [|left; split; [by eauto|naive_solver]].
  destruct q.(ev_locally_allowed); [|left; split; [by eauto|naive_solver]].
  destruct q.(ev_action_risk) as [r|]; [|left; split; [by eauto|naive_solver]].
  cbn [negb]. destruct (risk_gt r (ev_local_max_risk q)) eqn:Hr.
  - left. split; [by eauto|]. intros r' (_ & _ & _ & _ & _ & [= <-] & Hle). apply risk_gt_false in Hle. congruence.
  - right. exists r. apply risk_gt_false in Hr. split; [|done]. split_and!; try done; lia.
Qed.

Lemma evaluate_new_repair_exact p q r d :
  policy_ok p.(bundle) →
  evaluate_new_repair p q r = d →
  (fleet_permitted p.(bundle) q r ∧
     d = NewRepairAllowed (risk_ge r (risk_min q.(ev_local_approval_from) p.(bundle).(rules).(local_approval_from))) true) ∨
  (¬ fleet_permitted p.(bundle) q r ∧ ∃ reason, d = Denied reason).
Proof.
  intros Hp <-. unfold evaluate_new_repair. set (b := bundle p) in *.
  pose proof (applies_to_assigned b.(assignments) q.(ev_device_id) (ok_assignments _ Hp)) as Ha.
  destruct (ok_rules _ Hp) as [[[_ Hals] _] [[_ Hds] _] _ _ _ _].
  pose proof (contains_sorted_elem _ q.(ev_action_id) Hals) as Hal.
  pose proof (contains_sorted_elem _ q.(ev_action_id) Hds) as Hd. unfold fleet_permitted.
  destruct (applies_to _ _); [|right; split; [|by eexists]; naive_solver]. cbn [negb].
  destruct (N.ltb_spec (ev_now_unix q) (not_before_unix b)); [right; split; [|by eexists]; lia|].
  destruct (N.leb_spec (expires_at_unix b) (ev_now_unix q)); [right; split; [|by eexists]; lia|].
  destruct (bool_decide_reflect (ev_transport q = Offline)) as [Ho|Ho]; cbn [andb].
  1: destruct (N.ltb_spec (offline_allowed_until_unix b) (ev_now_unix q));
     [right; split; [|by eexists]; intros (_ & _ & Hw & _); specialize (Hw Ho); lia|].
  all: destruct (risk_gt r _) eqn:Hr;
    [right; split; [|by eexists]; intros (_ & _ & _ & Hle & _); apply risk_gt_false in Hle; congruence|].
  all: apply risk_gt_false in Hr.
  all: destruct (contains_sorted (denied_action_ids _) _); [right; split; [|by eexists]; naive_solver|].
  all: destruct (contains_sorted (allowed_action_ids _) _); [|right; split; [|by eexists]; naive_solver].
  all: left; split; [|done]; split_and!; try done; naive_solver.
Qed.

(** C30. An action is judged by both sides and Fleet only restricts: a new repair is allowed exactly
    when the device's own limits and the verified policy permit it, with local approval as soon as
    either side asks for it; whatever the device itself does not permit is denied under every policy;
    and diagnostics and started rollbacks do not depend on the policy. *)
Theorem policy_evaluation_exact p q :
  policy_ok p.(bundle) →
  (∀ approval audit,
     evaluate p q = NewRepairAllowed approval audit ↔
     q.(ev_operation) = NewRepair ∧ audit = true ∧
     ∃ r, locally_permitted q r ∧ fleet_permitted p.(bundle) q r ∧
       (approval = true ↔ risk_rank q.(ev_local_approval_from) ≤ risk_rank r ∨
                          risk_rank p.(bundle).(rules).(local_approval_from) ≤ risk_rank r)) ∧
  ((∀ r, ¬ locally_permitted q r) → ∃ reason, ∀ p', evaluate p' q = Denied reason) ∧
  (q.(ev_operation) ≠ NewRepair → ∀ p', evaluate p' q = evaluate p q).
Proof.
  intros Hp.
  assert (∀ r a a', risk_ge r (risk_min a a') = true ↔ risk_rank a ≤ risk_rank r ∨ risk_rank a' ≤ risk_rank r) as Hmin.
  { intros r a a'. unfold risk_ge, risk_min. rewrite Nat.leb_le. destruct (risk_gt a a') eqn:Hg.
    - unfold risk_gt in Hg. apply Nat.ltb_lt in Hg. lia.
    - apply risk_gt_false in Hg. lia. }
  destruct (evaluate_local p q _ eq_refl) as [[(reason & Hd & Hall) Hno]|(r & Hr & He)].
  - rewrite Hd. split_and!; [naive_solver|..].
    + intros _. exists reason. intros p'. by rewrite Hall.
    + intros _ p'. by rewrite Hall.
  - assert (∀ r', locally_permitted q r' → r' = r) as Huniq
      by (unfold locally_permitted in *; intros r' Hr'; destruct_and!; congruence).
    split_and!.
    + rewrite He. destruct (ev_operation q); [naive_solver| |naive_solver]. intros approval audit.
      destruct (evaluate_new_repair_exact p q r _ Hp eq_refl) as [[Hf ->]|[Hf [reason ->]]].
      * split.
        -- intros [= <- <-]. split_and!; [done..|]. exists r. split_and!; try done.
        -- intros (_ & -> & r' & Hr' & _ & Hiff). apply Huniq in Hr' as ->. rewrite <-Hmin in Hiff. f_equal.
           by apply Bool.eq_iff_eq_true.
      * split; [done|]. intros (_ & _ & r' & Hr' & Hf' & _). by apply Huniq in Hr' as ->.
    + intros Hno. by destruct (Hno r).
    + intros Hop p'. destruct (evaluate_local p' q _ eq_refl) as [[_ Hno]|(r' & Hr' & ->)]; [by destruct (Hno r)|].
      rewrite He. by destruct (ev_operation q).
Qed.

(** ** Signing and verification *)

Section policy.
Context `{sha : Sha256} `{ed : Ed25519} `{b64 : Base64Url} `{js : JsonString}.
Context `{read_bundle : FromSlice SignedPolicyBundle} `{read_checkpoint : FromSlice PolicyCheckpoint}.
Context `{shal : !Sha256Laws} `{edl : !Ed25519Laws} `{b64l : !Base64UrlLaws} `{jsl : !JsonStringLaws}.

Lemma assignments_length a : assignments_valid a → (blen (text (to_value a)) ≤ 675870)%Z.
Proof using jsl.
  intros Ha. destruct a as [|l].
  - etrans; [apply (json_object_length [("all"%string, Bool true)])|]. unfold fields_length.
    cbn [foldr fst snd]. literal_lengths. done.
  - destruct Ha as (_ & Hl & Hd & _).
    etrans; [apply (json_object_length [("deviceIds"%string, Arr (map Str l))])|]. unfold fields_length.
    cbn [foldr fst snd]. literal_lengths.
    assert (blen (text (Arr (map Str l))) ≤ 2 + Z.of_nat (length l) * (164 + 1))%Z.
    { apply strings_length. eapply Forall_impl; [exact Hd|]. intros s. apply device_length. }
    lia.
Qed.

Lemma rules_length r : rules_valid r → (blen (text (to_value r)) ≤ 335000)%Z.
Proof using jsl.
  intros [[[Ha _] Hal] [[Hd _] Hdl] _ Hr (_ & Hm & _) _].
  etrans; [apply json_object_length|]. unfold fields_length, rules_keys. cbn [zip_with foldr fst snd].
  assert (∀ l, Forall (λ s, identifier s = true) l → length l ≤ 1024 →
    (blen (text (Arr (map Str l))) ≤ 2 + 1024 * (162 + 1))%Z) as Hids.
  { intros l Hf Hl. etrans; [apply (strings_length _ 162)|lia].
    eapply Forall_impl; [exact Hf|]. intros s. apply identifier_length. }
  pose proof (Hids _ Ha Hal). pose proof (Hids _ Hd Hdl).
  assert (blen (text (Arr (map (λ m, Str (wire_name m)) r.(provider_modes)))) ≤
    2 + Z.of_nat (length r.(provider_modes)) * (19 + 1))%Z.
  { apply (array_length (λ m, Str (wire_name m))), Forall_true. intros []; cbn [wire_name text]; literal_lengths; done. }
  assert (blen (text (json_u64 r.(retention_days))) ≤ 54)%Z
    by (apply decimal_safe_length; unfold MAX_RETENTION_DAYS, MAX_SAFE_JSON_INTEGER in *; lia).
  assert (∀ x, (blen (text (Str (risk_name x))) ≤ 4)%Z) as Hrisk by (intros []; cbn; literal_lengths; done).
  assert (∀ x, (blen (text (Str (ring_name x))) ≤ 8)%Z) as Hring by (intros []; cbn; literal_lengths; done).
  assert (∀ x, (blen (text (Bool x)) ≤ 5)%Z) as Hbool by (by intros []).
  pose proof (Hrisk r.(max_risk)). pose proof (Hrisk r.(local_approval_from)). pose proof (Hring r.(rules_update_ring)).
  pose proof (Hbool r.(allow_evidence_upload)). pose proof (Hbool r.(emergency_rollback_always_allowed)).
  literal_lengths. lia.
Qed.

Lemma policy_unsigned_fields_length b :
  policy_ok b → (fields_length (zip unsigned_keys (unsigned_values (unsigned b))) ≤ 1013000)%Z.
Proof using jsl.
  intros []. destruct ok_times0 as (? & ? & ? & ?).
  pose proof (assignments_length _ ok_assignments0). pose proof (rules_length _ ok_rules0).
  pose proof (identifier_length _ ok_tenant0). pose proof (identifier_length _ ok_policy0).
  pose proof (safe_length _ ok_revision0).
  repeat match goal with H : safe_nonzero _ = true |- _ => apply safe_length in H end.
  unfold fields_length, unsigned_keys, unsigned_values, unsigned.
  cbn [zip_with foldr fst snd u_schema u_tenant_id u_policy_id u_revision u_issued_at_unix
    u_not_before_unix u_offline_allowed_until_unix u_expires_at_unix u_assignments u_rules].
  rewrite ok_schema0. change (text (Str POLICY_BUNDLE_SCHEMA)) with (literal POLICY_BUNDLE_SCHEMA).
  change (text (Str (tenant_id b))) with (literal (tenant_id b)).
  change (text (Str (policy_id b))) with (literal (policy_id b)).
  unfold POLICY_BUNDLE_SCHEMA. literal_lengths. lia.
Qed.

Definition signed_ok (b : SignedPolicyBundle) : Prop :=
  policy_ok b ∧ ∃ d, b.(signature) = b64_encode d ∧ length d = 64.

Lemma policy_signature_text s d : decode_signature s = Ok d ↔ s = b64_encode d ∧ length d = 64.
Proof using b64l. apply (Documents.decode_signature_Ok InvalidField). Qed.

Lemma policy_validate_fields_Ok b u : validate_fields b = Ok u ↔ signed_ok b.
Proof using b64l.
  destruct u. unfold validate_fields. split.
  - intros Hv. inv_ok Hv. guards. apply policy_validate_unsigned_Ok in Hcall. apply policy_signature_text in Hcall0.
    split; eauto.
  - intros [He (d & Hs)]. run_ok ltac:(first [by apply policy_validate_unsigned_Ok | by apply policy_signature_text]). done.
Qed.

Lemma policy_nested_valid b :
  policy_ok b →
  CanonicalJson.validate_json_value (E := FleetPolicyError) (to_value b.(assignments)) = Ok tt ∧
  CanonicalJson.validate_json_value (E := FleetPolicyError) (to_value b.(rules)) = Ok tt.
Proof.
  intros []. split.
  - destruct (assignments b); object_valid.
  - object_valid. apply validate_json_u64. destruct ok_rules0.
    unfold MAX_RETENTION_DAYS, MAX_SAFE_JSON_INTEGER in *. lia.
Qed.

Lemma policy_unsigned_canonical b :
  policy_ok b → unsigned_canonical_json b = Ok (text (to_value (unsigned b))) ∧
  (blen (text (to_value (unsigned b))) ≤ 1013002)%Z.
Proof using jsl.
  intros Hb. split.
  - apply canonical_json_Ok. split; [|done]. object_valid; try (by apply policy_nested_valid); apply safe_valid; apply Hb.
  - etrans; [apply json_object_length|]. pose proof (policy_unsigned_fields_length b Hb). lia.
Qed.

Lemma policy_signed_canonical b :
  signed_ok b → canonical_json b = Ok (text (to_value b)) ∧ (0 < blen (text (to_value b)) ≤ MAX_POLICY_BYTES)%Z.
Proof using jsl b64l.
  intros [Hb (d & Hs & Hd)]. split.
  - apply canonical_json_Ok. split; [|done]. object_valid; try (by apply policy_nested_valid); apply safe_valid; apply Hb.
  - split; [apply json_object_nonempty|]. etrans; [apply json_object_length|].
    unfold signed_keys. rewrite zip_with_app by done. rewrite fields_length_app.
    pose proof (policy_unsigned_fields_length b Hb). pose proof (signature_length d Hd).
    unfold fields_length at 2. cbn [zip_with foldr fst snd text]. rewrite Hs. literal_lengths.
    unfold MAX_POLICY_BYTES. lia.
Qed.

Lemma policy_export_canonical_Ok b t : export_canonical b = Ok t ↔ signed_ok b ∧ t = text (to_value b).
Proof using jsl b64l.
  unfold export_canonical. split.
  - intros H. inv_ok H. apply policy_validate_fields_Ok in Hcall. split; [done|].
    by apply canonical_json_Ok in Hcall0 as [_ ->].
  - intros [Hb ->]. destruct (policy_signed_canonical b Hb) as [Hc Hl].
    apply bind_pass_unit; [by apply policy_validate_fields_Ok|]. rewrite Hc. cbn [mbind result_bind].
    apply bind_pass_unit; [|done]. apply validate_size_Ok. lia.
Qed.

(** What the tenant signs for a bundle. *)
Definition policy_message (b : SignedPolicyBundle) : bytes :=
  let t := text (to_value (unsigned b)) in POLICY_SIGNATURE_DOMAIN ++ to_be_bytes (blen t) ++ t.

Lemma policy_message_Ok b t :
  policy_ok b → unsigned_canonical_json b = Ok t → policy_signature_message t = Ok (policy_message b).
Proof using jsl.
  intros Hb Ht. destruct (policy_unsigned_canonical b Hb) as [Hu Hl]. rewrite Ht in Hu. apply Ok_inj_1 in Hu as ->.
  apply length_prefixed_small. change (blen POLICY_SIGNATURE_DOMAIN) with 24%Z. lia.
Qed.

Lemma policy_ok_set_signature s b : policy_ok (set_signature s b) ↔ policy_ok b.
Proof. split; intros []; by split. Qed.

(** The bundle [sign] returns. *)
Definition signed_bundle (c : PolicyBundleContent) (key : bytes) : SignedPolicyBundle :=
  set_signature (b64_encode (ed_sign key (policy_message (unsigned_bundle c)))) (unsigned_bundle c).

Lemma policy_sign_inv c key b : sign c key = Ok b → policy_ok (unsigned_bundle c) ∧ b = signed_bundle c key.
Proof using jsl.
  unfold sign. intros H. inv_ok H. apply policy_validate_unsigned_Ok in Hcall. split; [done|].
  rewrite (policy_message_Ok _ _ Hcall Hcall0) in Hcall1. by apply Ok_inj_1 in Hcall1 as <-.
Qed.

Lemma policy_sign_Ok c key : policy_ok (unsigned_bundle c) → sign c key = Ok (signed_bundle c key).
Proof using jsl b64l edl.
  intros Hb. unfold sign. destruct (policy_unsigned_canonical _ Hb) as [Hu _].
  apply bind_pass_unit; [by apply policy_validate_unsigned_Ok|]. rewrite Hu. cbn [mbind result_bind].
  rewrite (policy_message_Ok _ _ Hb Hu). cbn [mbind result_bind].
  apply bind_pass_unit; [|done]. apply policy_validate_fields_Ok. split; [by apply policy_ok_set_signature|].
  eexists. split; [done|]. apply ed_sign_length.
Qed.

Lemma policy_verify_Ok b anchor tenant v :
  verify b anchor tenant = Ok v ↔
    signed_ok b ∧ b.(tenant_id) = tenant ∧
    (∃ d, b.(signature) = b64_encode d ∧ ed_verify anchor (policy_message b) d = true) ∧
    v = mkVerified b (sha256 (text (to_value b))).
Proof using jsl b64l.
  unfold verify. split.
  - intros H. inv_ok H. guards. apply policy_validate_fields_Ok in Hcall as [Hb Hs].
    rewrite (policy_message_Ok _ _ Hb Hcall2) in Hcall3. apply Ok_inj_1 in Hcall3 as <-.
    apply policy_signature_text in Hcall1 as [? ?]. apply policy_export_canonical_Ok in Hcall4 as [_ ->].
    split_and!; try done. eauto.
  - intros ([Hb Hsig] & <- & (d & Hs & Hv) & ->).
    destruct Hsig as (d' & Hs' & Hd'). rewrite Hs in Hs'. apply (inj b64_encode) in Hs' as <-.
    assert (signed_ok b) as Hok by (split; eauto). destruct (policy_unsigned_canonical _ Hb) as [Hu _].
    run_ok ltac:(first [by apply policy_validate_fields_Ok | by apply validate_identifier_Ok, Hb | by rewrite ne_refl_false]).
    rewrite (proj2 (policy_signature_text _ _) (conj Hs Hd')), Hu. cbn [mbind result_bind].
    rewrite (policy_message_Ok _ _ Hb Hu). cbn [mbind result_bind]. rewrite Hv. cbn [negb].
    by rewrite (proj2 (policy_export_canonical_Ok _ _) (conj Hok eq_refl)).
Qed.

Lemma policy_message_inj b b' :
  policy_ok b → policy_ok b' → policy_message b = policy_message b' → unsigned b = unsigned b'.
Proof using jsl.
  intros Hb Hb' Heq. destruct (policy_unsigned_canonical _ Hb) as [Hc _], (policy_unsigned_canonical _ Hb') as [Hc' _].
  assert (text (to_value (unsigned b)) = text (to_value (unsigned b'))) as Ht.
  { eapply (length_prefixed_inj BundleTooLarge POLICY_SIGNATURE_DOMAIN);
      [exact (policy_message_Ok _ _ Hb Hc)|]. rewrite Heq. exact (policy_message_Ok _ _ Hb' Hc'). }
  rewrite Ht in Hc. by eapply (canonical_json_inj (E := FleetPolicyError)).
Qed.

(** ** Checkpoints *)

(** The results of [verify]. *)
Definition genuine (v : VerifiedPolicyBundle) : Prop :=
  signed_ok v.(bundle) ∧ v.(digest) = sha256 (text (to_value v.(bundle))).

Lemma policy_verify_genuine b anchor tenant v : verify b anchor tenant = Ok v → genuine v ∧ v.(bundle) = b.
Proof using jsl b64l. intros (Hs & _ & _ & ->)%policy_verify_Ok. done. Qed.

Lemma policy_checkpoint_of_valid v : genuine v → checkpoint_validate (from_verified v) = Ok tt.
Proof using shal.
  intros [[Hb _] Hd]. unfold checkpoint_validate, from_verified. cbn. rewrite ne_refl_false.
  run_ok ltac:(first [ by apply validate_identifier_Ok, Hb | by apply validate_safe_nonzero_Ok, Hb]).
  apply validate_sha256_Ok, hex_string_digest. rewrite Hd. apply length_sha256.
Qed.

Lemma policy_same_digest v w :
  genuine v → genuine w → hex_sha256 v.(digest) = hex_sha256 w.(digest) →
  v = w ∨ collision (text (to_value v.(bundle))) (text (to_value w.(bundle))).
Proof using jsl b64l.
  intros [Hv Hdv] [Hw Hdw] Heq. unfold hex_sha256 in Heq. apply (inj hex_string) in Heq.
  destruct (decide (text (to_value v.(bundle)) = text (to_value w.(bundle)))) as [Ht|]; [left|right; split; congruence].
  destruct (policy_signed_canonical _ Hv) as [Hc _], (policy_signed_canonical _ Hw) as [Hc' _]. rewrite Ht in Hc.
  assert (v.(bundle) = w.(bundle)) by by eapply (canonical_json_inj (E := FleetPolicyError)).
  destruct v, w. simpl in *. by subst.
Qed.

(** Calls on one checkpoint: the checkpoint they lead to and the policies they
    accepted, the latest first. *)
Inductive history : PolicyCheckpoint → list VerifiedPolicyBundle → Prop :=
| history_start p : genuine p → history (from_verified p) [p]
| history_accept c log p c' r : history c log → genuine p → checkpoint_admit p c = (c', Ok r) → history c' (p :: log)
| history_refuse c log p c' e : history c log → genuine p → checkpoint_admit p c = (c', Err e) → history c' log.

(** [checkpoint_admit] on a checkpoint that a policy of the log set. *)
Lemma policy_admit_checkpoint v w :
  genuine w →
  checkpoint_admit v (from_verified w) =
    if w.(bundle).(tenant_id) != v.(bundle).(tenant_id) then (from_verified w, Err UnexpectedTenant)
    else if w.(bundle).(policy_id) != v.(bundle).(policy_id) then (from_verified w, Err UnexpectedPolicy)
    else if (v.(bundle).(revision) <? w.(bundle).(revision))%N then (from_verified w, Err RevisionRollback)
    else if v.(bundle).(revision) == w.(bundle).(revision) then
      (from_verified w, if hex_sha256 v.(digest) == hex_sha256 w.(digest) then Ok IdempotentReplay else Err RevisionConflict)
    else (from_verified v, Ok Advanced).
Proof using shal.
  intros Hw. unfold checkpoint_admit. run_methods. rewrite policy_checkpoint_of_valid by done.
  cbn [from_verified cp_tenant_id cp_policy_id cp_revision bundle_sha256].
  case_bool_decide as Ht; [done|]. case_bool_decide as Hp; [done|].
  destruct (_ <? _)%N; [done|]. case_bool_decide; [by case_bool_decide|].
  unfold set_revision, from_verified. cbn. by rewrite Ht, Hp.
Qed.

(** The newest accepted policy sets the checkpoint. *)
Record current (c : PolicyCheckpoint) (log : list VerifiedPolicyBundle) (w : VerifiedPolicyBundle) : Prop := {
  current_checkpoint : c = from_verified w;
  current_genuine : Forall genuine log;
  current_stream : Forall (λ q, q.(bundle).(tenant_id) = w.(bundle).(tenant_id) ∧
    q.(bundle).(policy_id) = w.(bundle).(policy_id)) log;
  current_newest : newest (λ q, q.(bundle).(revision)) (λ q, hex_sha256 q.(digest)) log w;
}.

Lemma current_is_genuine c log w : current c log w → genuine w.
Proof. intros [_ Hg _ Hn]. rewrite Forall_forall in Hg. apply Hg, Hn. Qed.

Lemma history_current c log : history c log → ∃ w, current c log w.
Proof using shal.
  induction 1 as [p Hp|c log p c' r Hh [w Hc] Hp Ha|c log p c' e Hh [w Hc] Hp Ha].
  - exists p. split; [done|by apply Forall_singleton|by apply Forall_singleton|apply newest_first].
  - pose proof (current_is_genuine _ _ _ Hc) as Hw. destruct Hc as [-> Hg Hst Hn].
    rewrite policy_admit_checkpoint in Ha by done.
    case_bool_decide as Ht; [done|]. case_bool_decide as Hpi; [done|].
    destruct (N.ltb_spec (revision (bundle p)) (revision (bundle w))) as [|Hle]; [done|].
    case_bool_decide as Hrev; [case_bool_decide as Hdig; [|done]|]; injection Ha as <- <-.
    + exists w. split; [done|by constructor|by constructor|by apply newest_replay].
    + exists p. split; [done|by constructor| |].
      * constructor; [done|]. eapply Forall_impl; [exact Hst|]. intros q [? ?]. split; congruence.
      * eapply newest_advance; [done|]. simpl. lia.
  - exists w. pose proof (current_is_genuine _ _ _ Hc) as Hw. pose proof (current_checkpoint _ _ _ Hc) as ->.
    rewrite policy_admit_checkpoint in Ha by done.
    assert (c' = from_verified w) as ->; [|done]. repeat case_bool_decide; simplify_eq; try done.
    all: destruct (_ <? _)%N; by simplify_eq.
Qed.

(** ** The claims on documents and checkpoints *)

(** No call brings an older policy back: along any calls, accepted or refused, the accepted
    policies belong to one stream with revisions that never decrease, two accepted policies of one
    revision are the same document or collide under SHA-256, the checkpoint stands at the newest of
    them, and an authentic policy of the stream with an older revision, or with the current revision
    and another digest, is refused without a change. *)
Theorem policy_checkpoint_monotone c log :
  history c log →
  StronglySorted (λ q q', (q'.(bundle).(revision) ≤ q.(bundle).(revision))%N) log ∧
  (∀ q q', q ∈ log → q' ∈ log → q.(bundle).(revision) = q'.(bundle).(revision) →
     q = q' ∨ collision (text (to_value q.(bundle))) (text (to_value q'.(bundle)))) ∧
  (∃ w, w ∈ log ∧ c = from_verified w ∧ ∀ q, q ∈ log →
     q.(bundle).(tenant_id) = w.(bundle).(tenant_id) ∧ q.(bundle).(policy_id) = w.(bundle).(policy_id) ∧
     (q.(bundle).(revision) ≤ w.(bundle).(revision))%N) ∧
  (∀ q, q.(bundle).(tenant_id) = c.(cp_tenant_id) → q.(bundle).(policy_id) = c.(cp_policy_id) →
     (q.(bundle).(revision) < c.(cp_revision))%N → checkpoint_admit q c = (c, Err RevisionRollback)) ∧
  (∀ q, q.(bundle).(tenant_id) = c.(cp_tenant_id) → q.(bundle).(policy_id) = c.(cp_policy_id) →
     q.(bundle).(revision) = c.(cp_revision) → hex_sha256 q.(digest) ≠ c.(bundle_sha256) →
     checkpoint_admit q c = (c, Err RevisionConflict)).
Proof using shal jsl b64l.
  intros [w Hcur]%history_current. pose proof (current_is_genuine _ _ _ Hcur) as Hw.
  destruct Hcur as [-> Hg Hst Hn]. rewrite Forall_forall in Hg, Hst. split_and!; [apply Hn|..].
  - intros q q' Hq Hq' Heq. apply policy_same_digest; [by apply Hg..|]. by eapply Hn.
  - exists w. split; [apply Hn|]. split; [done|]. intros q Hq. destruct (Hst q Hq).
    split_and!; [done..|]. by apply (newest_highest _ _ _ _ Hn).
  - intros q Ht Hp Hlt. rewrite policy_admit_checkpoint by done. simpl in *. rewrite Ht, Hp, !ne_refl_false.
    by rewrite (proj2 (N.ltb_lt _ _)).
  - intros q Ht Hp Heq Hne. rewrite policy_admit_checkpoint by done. simpl in *. rewrite Ht, Hp, Heq, !ne_refl_false.
    by rewrite N.ltb_irrefl, eq_refl_true, bool_decide_false.
Qed.

(** Every valid policy can be distributed: a content whose fields are valid is signed, its
    document stays within the size limit, verifies under the key of its signer and is read back by
    import; what verifies has a valid time window, disjoint action lists and the emergency rollback;
    and a content with an invalid field is refused with the error of that field. *)
Theorem policy_bundle_exchange c key :
  match validate_unsigned_fields (unsigned_bundle c) with
  | Err err => sign c key = Err err
  | Ok _ =>
      ∃ b t v, sign c key = Ok b ∧ export_canonical b = Ok t ∧ (blen t ≤ MAX_POLICY_BYTES)%Z ∧
        v = mkVerified b (sha256 t) ∧ policy_ok b ∧
        verify b (ed_public key) c.(content_tenant_id) = Ok v ∧
        (reads_back b → import_and_verify t (ed_public key) c.(content_tenant_id) = Ok v)
  end.
Proof using jsl b64l edl.
  destruct (validate_unsigned_fields _) as [[]|err] eqn:Hv; [|unfold sign; by rewrite Hv].
  apply policy_validate_unsigned_Ok in Hv. pose proof (policy_sign_Ok c key Hv) as Hs.
  set (b := signed_bundle c key) in Hs. assert (signed_ok b) as Hb.
  { split; [by apply policy_ok_set_signature|]. eexists. split; [done|]. apply ed_sign_length. }
  destruct (policy_signed_canonical b Hb) as [Hc Hl].
  pose proof (proj2 (policy_export_canonical_Ok b _) (conj Hb eq_refl)) as Hx.
  assert (verify b (ed_public key) c.(content_tenant_id) = Ok (mkVerified b (sha256 (text (to_value b))))) as Hver.
  { apply policy_verify_Ok. split_and!; try done. eexists. split; [done|]. apply ed_sign_verify. }
  eexists b, _, _. split_and!; [done|exact Hx|lia|done|apply Hb|done|].
  intros Hr. unfold import_and_verify. eapply bind_pass; [|exact Hver].
  apply (import_canonical_exact (E := FleetPolicyError)); [done|exact Hc|lia].
Qed.

(** A policy that verifies is the tenant's own: if every signature under the trust anchor is on a
    message for a bundle that was signed, or on a message of another kind, then a bundle was signed
    that agrees with the verified one in every field but the signature. *)
Theorem policy_bundle_authentic key b tenant v :
  (∀ m s, ed_verify (ed_public key) m s = true →
     (∃ c b', sign c key = Ok b' ∧ m = policy_message b') ∨ (∀ p, m ≠ POLICY_SIGNATURE_DOMAIN ++ p)) →
  verify b (ed_public key) tenant = Ok v →
  ∃ c b', sign c key = Ok b' ∧ b = set_signature b.(signature) b'.
Proof using jsl b64l.
  intros Hunf ([Hb _] & _ & (d & Hs & Hd) & _)%policy_verify_Ok.
  apply Hunf in Hd as [(c & b' & Hsign & Hm)|Hno]; [|by destruct (Hno _ eq_refl)].
  exists c, b'. split; [done|]. pose proof Hsign as [Hb' Heq]%policy_sign_inv.
  apply policy_message_inj in Hm; [|done|rewrite Heq; by apply policy_ok_set_signature].
  destruct b, b'. unfold unsigned in Hm. simpl in *. unfold set_signature. simpl. injection Hm; intros; by subst.
Qed.
End policy.

(** ** Witnesses *)
Module PolicyDemo.
Import SignatureDemo JsonDemo.
#[local] Existing Instances light_sha256 light_sha256_laws demo_ed25519 demo_ed25519_laws demo_base64
  demo_base64_laws demo_json_string demo_json_string_laws.

Definition device : string := "KA-0123456789abcdef01234567".
Definition demo_rules : PolicyRules :=
  mkRules R2 R1 ["fstab.repair"; "grub.repair"]%string ["disk.format"%string] true 30 [AnthropicApi; Offline_] Stable true.
Definition demo_content (n : N) : PolicyBundleContent :=
  mkContent "tenant-1" "policy-1" n 10 20 30 40 (DeviceIds [device]) demo_rules.
Definition demo_key : bytes := replicate 32 x01.
Definition demo_bundle `{Ed25519} (n : N) : SignedPolicyBundle := signed_bundle (demo_content n) demo_key.
Definition demo_verified (n : N) : VerifiedPolicyBundle :=
  mkVerified (demo_bundle n) (sha256 (text (to_value (demo_bundle n)))).

Definition demo_request : PolicyEvaluation :=
  mkEvaluation device "fstab.repair" (Some R1) R3 R2 true true NewRepair Offline 25.

Lemma demo_content_ok n :
  validate_unsigned_fields (unsigned_bundle (demo_content n)) = Ok tt → policy_ok (unsigned_bundle (demo_content n)).
Proof. apply policy_validate_unsigned_Ok. Qed.
Lemma demo_bundle_ok n :
  validate_unsigned_fields (unsigned_bundle (demo_content n)) = Ok tt → policy_ok (demo_bundle n).
Proof. intros Hv. apply policy_ok_set_signature. by apply demo_content_ok. Qed.
Lemma demo_policy_genuine n :
  validate_unsigned_fields (unsigned_bundle (demo_content n)) = Ok tt → genuine (demo_verified n).
Proof.
  intros Hv. split; [|done]. split; [by apply demo_bundle_ok|]. eexists. split; [done|]. apply ed_sign_length.
Qed.

Lemma policy_evaluation_exact_witness :
  policy_ok (demo_bundle 3) ∧ evaluate (demo_verified 3) demo_request = NewRepairAllowed true true ∧
  ∃ r, locally_permitted demo_request r ∧ fleet_permitted (demo_bundle 3) demo_request r.
Proof.
  assert (policy_ok (demo_bundle 3)) as Hb by (apply demo_bundle_ok; vm_compute; reflexivity).
  assert (evaluate (demo_verified 3) demo_request = NewRepairAllowed true true) as He by (vm_compute; reflexivity).
  split; [exact Hb|]. split; [exact He|].
  destruct (proj1 (proj1 (policy_evaluation_exact (demo_verified 3) demo_request Hb) true true) He)
    as (_ & _ & r & Hl & Hf & _). eauto.
Defined.

Lemma demo_history : history (from_verified (demo_verified 4)) [demo_verified 4; demo_verified 3].
Proof.
  eapply (history_accept (from_verified (demo_verified 3)) [demo_verified 3] (demo_verified 4)).
  - constructor. apply demo_policy_genuine. vm_compute. reflexivity.
  - apply demo_policy_genuine. vm_compute. reflexivity.
  - vm_compute. reflexivity.
Qed.

Lemma policy_checkpoint_monotone_witness :
  history (from_verified (demo_verified 4)) [demo_verified 4; demo_verified 3] ∧
  checkpoint_admit (demo_verified 3) (from_verified (demo_verified 4)) = (from_verified (demo_verified 4), Err RevisionRollback).
Proof.
  split; [apply demo_history|].
  apply (proj1 (proj2 (proj2 (proj2 (policy_checkpoint_monotone _ _ demo_history))))); vm_compute; reflexivity.
Defined.

(** Readers that know one document. *)
Definition demo_read : FromSlice SignedPolicyBundle :=
  let b := demo_bundle 3 in let t := text (to_value b) in {|
  value_from_slice x := if x == t then Some (to_value b) else None;
  from_slice x := if x == t then Some b else None;
|}.
#[local] Existing Instance demo_read.

Lemma demo_policy_reads_back : reads_back (demo_bundle 3).
Proof. unfold reads_back. cbn [value_from_slice from_slice demo_read]. by rewrite !eq_refl_true. Qed.

Lemma policy_bundle_exchange_witness :
  reads_back (demo_bundle 3) ∧
  ∃ b t v, sign (demo_content 3) demo_key = Ok b ∧ export_canonical b = Ok t ∧
    verify b (ed_public demo_key) "tenant-1" = Ok v.
Proof.
  split; [apply demo_policy_reads_back|].
  pose proof (policy_bundle_exchange (demo_content 3) demo_key) as H.
  assert (validate_unsigned_fields (unsigned_bundle (demo_content 3)) = Ok tt) as Hv by (vm_compute; reflexivity).
  rewrite Hv in H. destruct H as (b & t & v & Hs & Hx & _ & _ & _ & Hver & _). eauto 6.
Defined.

(** A scheme in which only one bundle has a signature. *)
Definition honest : Ed25519 := {|
  ed_public k := ed_public (Ed25519 := demo_ed25519) k;
  ed_sign k m := ed_sign (Ed25519 := demo_ed25519) k m;
  ed_key_valid k := true;
  ed_verify p m s := m == policy_message (demo_bundle 3);
|}.

Lemma policy_honest_signs : ∀ m s, ed_verify (Ed25519 := honest) (ed_public (Ed25519 := honest) demo_key) m s = true →
  (∃ c b', sign (ed := honest) c demo_key = Ok b' ∧ m = policy_message b') ∨ (∀ p, m ≠ POLICY_SIGNATURE_DOMAIN ++ p).
Proof.
  intros m s Hm. apply bool_decide_eq_true in Hm as ->. left. exists (demo_content 3), (demo_bundle 3).
  split; [vm_compute; reflexivity|done].
Qed.

Lemma policy_bundle_authentic_witness :
  ∃ c b', sign (ed := honest) c demo_key = Ok b' ∧ demo_bundle 3 = set_signature (demo_bundle 3).(signature) b'.
Proof.
  apply (policy_bundle_authentic (ed := honest) demo_key (demo_bundle 3) "tenant-1" (demo_verified 3) policy_honest_signs).
  vm_compute. reflexivity.
Defined.
End PolicyDemo.
