(* ===== verification/UpdateClient.v ===== *)
(** * Device updates (crates/update-client/src/lib.rs)

    Signed release manifests, local eligibility, the admission checkpoint and
    the A/B slot machine with its bounded boot attempts. The file models the
    crate's library file; the stager that writes the inactive slot is a module of
    its own and is not modelled. The theorems are in [UpdateClientProperties]. *)

From Stdlib.Strings Require Import Byte.
From Stdlib Require String.
From S2P Require Import Prelude Bytes Crypto Signatures Ordered CanonicalJson Documents.

Definition UPDATE_MANIFEST_SCHEMA : string := "dev.kernaid.update.manifest.v1".
Definition UPDATE_CHECKPOINT_SCHEMA : string := "dev.kernaid.update.checkpoint.v1".
Definition UPDATE_STATE_SCHEMA : string := "dev.kernaid.update.state.v1".
Definition UPDATE_SIGNATURE_DOMAIN : bytes := domain "kernaid:update:manifest:v1".
Definition MAX_BOOT_ATTEMPTS : N := 5.
Definition MAX_MANIFEST_BYTES : Z := 64 * 1024.
Definition MAX_CHECKPOINT_BYTES : Z := 4 * 1024.
Definition MAX_STATE_BYTES : Z := 16 * 1024.
Definition MAX_VERSION_BYTES : Z := 128.
Definition MAX_URL_BYTES : Z := 4 * 1024.
Definition MAX_ARTIFACT_BYTES : N := 1099511627776.
Definition ROLLOUT_BASIS_POINTS : N := 10000.

(** [url::Url::parse] and the parts of a URL that the code reads. *)
Record Url := mkUrl {
  url_scheme : string;
  url_host_str : option string;
  url_username : string;
  url_password : option string;
  url_fragment : option string;
}.
Class UrlParse : Type := url_parse : string → option Url.

(** ** Data *)

Inductive UpdatePlatform := Rescue | Windows | Linux | Macos.
Inductive UpdateArchitecture := X86_64 | Aarch64.
Inductive ReleaseRing := ReleaseCanary | ReleaseStable.
Inductive UpdateRing := Hold | Canary | StableRing.
Inductive Slot := A | B.
Inductive UpdatePhase := Stable | Staged | PendingBoot | RollbackPending.
Inductive Availability :=
| Eligible | InvalidContext | PlatformMismatch | ArchitectureMismatch | NotYetValid | Expired
| Held | RingMismatch | RolloutDeferred.
Inductive CheckpointAdmission := First | Advanced | IdempotentReplay.

#[export] Instance UpdatePlatform_eq_dec : EqDecision UpdatePlatform.
Proof. solve_decision. Defined.
#[export] Instance UpdateArchitecture_eq_dec : EqDecision UpdateArchitecture.
Proof. solve_decision. Defined.
#[export] Instance ReleaseRing_eq_dec : EqDecision ReleaseRing.
Proof. solve_decision. Defined.
#[export] Instance UpdateRing_eq_dec : EqDecision UpdateRing.
Proof. solve_decision. Defined.
#[export] Instance Slot_eq_dec : EqDecision Slot.
Proof. solve_decision. Defined.
#[export] Instance UpdatePhase_eq_dec : EqDecision UpdatePhase.
Proof. solve_decision. Defined.
#[export] Instance Availability_eq_dec : EqDecision Availability.
Proof. solve_decision. Defined.

Record ArtifactDescriptor := mkArtifact { url : string; size_bytes : N; sha256_hex : string }.
Record Rollout := mkRollout { basis_points : N; seed : string }.

Record UpdateManifestContent := mkContent {
  content_sequence : N;
  content_release_id : string;
  content_release_version : string;
  content_platform : UpdatePlatform;
  content_architecture : UpdateArchitecture;
  content_release_ring : ReleaseRing;
  content_rollout : Rollout;
  content_issued_at_unix : N;
  content_not_before_unix : N;
  content_expires_at_unix : N;
  content_artifact : ArtifactDescriptor;
  content_emergency_rollback : bool;
}.

Record SignedUpdateManifest := mkManifest {
  schema : string;
  sequence : N;
  release_id : string;
  release_version : string;
  platform : UpdatePlatform;
  architecture : UpdateArchitecture;
  release_ring : ReleaseRing;
  rollout : Rollout;
  issued_at_unix : N;
  not_before_unix : N;
  expires_at_unix : N;
  artifact : ArtifactDescriptor;
  emergency_rollback : bool;
  signature : string;
}.

Record UnsignedUpdateManifest := mkUnsigned {
  u_schema : string;
  u_sequence : N;
  u_release_id : string;
  u_release_version : string;
  u_platform : UpdatePlatform;
  u_architecture : UpdateArchitecture;
  u_release_ring : ReleaseRing;
  u_rollout : Rollout;
  u_issued_at_unix : N;
  u_not_before_unix : N;
  u_expires_at_unix : N;
  u_artifact : ArtifactDescriptor;
  u_emergency_rollback : bool;
}.

Record VerifiedUpdate := mkVerified {
  manifest : SignedUpdateManifest;
  manifest_sha256 : bytes;
}.

Record UpdateContext := mkContext {
  ctx_device_id : string;
  ctx_platform : UpdatePlatform;
  ctx_architecture : UpdateArchitecture;
  ctx_update_ring : UpdateRing;
  ctx_now_unix : N;
}.

Record UpdateCheckpoint := mkCheckpoint {
  cp_schema : string;
  cp_sequence : N;
  cp_release_id : string;
  cp_manifest_sha256 : string;
}.

Record AdmittedUpdate := mkAdmitted { verified : VerifiedUpdate; admission : CheckpointAdmission }.
Record AdmissionOutcome := mkOutcome { update : AdmittedUpdate; next_checkpoint : UpdateCheckpoint }.

Record PendingUpdate := mkPending {
  p_release_id : string;
  p_sequence : N;
  p_manifest_sha256 : string;
  p_artifact_sha256 : string;
  target_slot : Slot;
  previous_slot : Slot;
  attempts_remaining : N;
  max_attempts : N;
  p_emergency_rollback : bool;
}.

Record UpdateState := mkState {
  st_schema : string;
  phase : UpdatePhase;
  active_slot : Slot;
  rollback_slot : Slot;
  pending : option PendingUpdate;
}.

Record SafetyCapabilities := mkSafety { diagnostics_available : bool; rollback_available : bool }.
Record StagePlan := mkStagePlan { plan_pending : PendingUpdate }.
Record LocalRollbackPlan := mkRollbackPlan { plan_slot : Slot; plan_previous_slot : Slot }.

Inductive BootAction :=
| BootStable (slot : Slot)
| TryPending (slot rollback_slot : Slot)
| Rollback (slot failed_slot : Slot).
Record BootTransition := mkBoot { boot_state : UpdateState; boot_action : BootAction }.

Inductive UpdateError :=
| InvalidField (field : string)
| InvalidTimeWindow
| InvalidJson
| UnsupportedJsonValue
| UnsafeInteger
| NonCanonicalJson
| DocumentTooLarge
| InvalidSignature
| SequenceRollback
| SequenceConflict
| NotEligible (reason : Availability)
| ArtifactMismatch
| InvalidBootAttempts
| InvalidTransition
| WrongRunningSlot
| InvalidState.

#[export] Instance update_errors : JsonErrors UpdateError := {|
  invalid_json := InvalidJson;
  unsupported_json_value := UnsupportedJsonValue;
  unsafe_integer := UnsafeInteger;
  non_canonical_json := NonCanonicalJson;
  document_too_large := DocumentTooLarge;
|}.

(** [CompletedArtifactEvidence] and its implementation. *)
Class CompletedArtifactEvidence (E : Type) : Type := {
  complete_size_bytes : E → N;
  complete_sha256 : E → bytes;
}.
Record CompletedArtifact := mkCompleted { done_size_bytes : N; done_sha256 : bytes }.
#[export] Instance CompletedArtifact_evidence : CompletedArtifactEvidence CompletedArtifact := {|
  complete_size_bytes := done_size_bytes;
  complete_sha256 := done_sha256;
|}.

(** ** The derived serializations *)

Definition platform_name (p : UpdatePlatform) : string :=
  match p with Rescue => "rescue" | Windows => "windows" | Linux => "linux" | Macos => "macos" end.
Definition architecture_name (a : UpdateArchitecture) : string :=
  match a with X86_64 => "x86_64" | Aarch64 => "aarch64" end.
Definition release_ring_name (r : ReleaseRing) : string :=
  match r with ReleaseCanary => "canary" | ReleaseStable => "stable" end.
Definition slot_name (s : Slot) : string := match s with A => "A" | B => "B" end.
Definition phase_name (p : UpdatePhase) : string :=
  match p with
  | Stable => "stable"
  | Staged => "staged"
  | PendingBoot => "pending_boot"
  | RollbackPending => "rollback_pending"
  end.

#[export] Instance artifact_to_value : ToValue ArtifactDescriptor := λ a,
  json_object (zip ["url"; "sizeBytes"; "sha256"]%string
    [Str a.(url); json_u64 a.(size_bytes); Str a.(sha256_hex)]).
#[export] Instance rollout_to_value : ToValue Rollout := λ r,
  json_object (zip ["basisPoints"; "seed"]%string [json_u64 r.(basis_points); Str r.(seed)]).

Definition unsigned_keys : list string :=
  ["schema"; "sequence"; "releaseId"; "releaseVersion"; "platform"; "architecture"; "releaseRing";
   "rollout"; "issuedAtUnix"; "notBeforeUnix"; "expiresAtUnix"; "artifact"; "emergencyRollback"]%string.
Definition unsigned_values (u : UnsignedUpdateManifest) : list value :=
  [Str u.(u_schema); json_u64 u.(u_sequence); Str u.(u_release_id); Str u.(u_release_version);
   Str (platform_name u.(u_platform)); Str (architecture_name u.(u_architecture));
   Str (release_ring_name u.(u_release_ring)); to_value u.(u_rollout); json_u64 u.(u_issued_at_unix);
   json_u64 u.(u_not_before_unix); json_u64 u.(u_expires_at_unix); to_value u.(u_artifact);
   Bool u.(u_emergency_rollback)].
#[export] Instance unsigned_to_value : ToValue UnsignedUpdateManifest := λ u,
  json_object (zip unsigned_keys (unsigned_values u)).

Definition unsigned (m : SignedUpdateManifest) : UnsignedUpdateManifest :=
  mkUnsigned m.(schema) m.(sequence) m.(release_id) m.(release_version) m.(platform)
    m.(architecture) m.(release_ring) m.(rollout) m.(issued_at_unix) m.(not_before_unix)
    m.(expires_at_unix) m.(artifact) m.(emergency_rollback).

Definition signed_keys : list string := unsigned_keys ++ ["signature"%string].
#[export] Instance manifest_to_value : ToValue SignedUpdateManifest := λ m,
  json_object (zip signed_keys (unsigned_values (unsigned m) ++ [Str m.(signature)])).

#[export] Instance checkpoint_to_value : ToValue UpdateCheckpoint := λ c,
  json_object (zip ["schema"; "sequence"; "releaseId"; "manifestSha256"]%string
    [Str c.(cp_schema); json_u64 c.(cp_sequence); Str c.(cp_release_id); Str c.(cp_manifest_sha256)]).

Definition pending_keys : list string :=
  ["releaseId"; "sequence"; "manifestSha256"; "artifactSha256"; "targetSlot"; "previousSlot";
   "attemptsRemaining"; "maxAttempts"; "emergencyRollback"]%string.
#[export] Instance pending_to_value : ToValue PendingUpdate := λ p,
  json_object (zip pending_keys
    [Str p.(p_release_id); json_u64 p.(p_sequence); Str p.(p_manifest_sha256);
     Str p.(p_artifact_sha256); Str (slot_name p.(target_slot)); Str (slot_name p.(previous_slot));
     json_u64 p.(attempts_remaining); json_u64 p.(max_attempts); Bool p.(p_emergency_rollback)]).
#[export] Instance state_to_value : ToValue UpdateState := λ s,
  json_object (zip ["schema"; "phase"; "activeSlot"; "rollbackSlot"; "pending"]%string
    [Str s.(st_schema); Str (phase_name s.(phase)); Str (slot_name s.(active_slot));
     Str (slot_name s.(rollback_slot));
     match s.(pending) with Some p => to_value p | None => Null end]).

(** ** Validation *)

Definition validate_identifier : string → string → result UpdateError () :=
  Documents.validate_identifier InvalidField.
Definition validate_device_id : string → result UpdateError () :=
  Documents.validate_device_id InvalidField.
Definition validate_safe_nonzero : string → N → result UpdateError () :=
  Documents.validate_safe_nonzero InvalidField.
Definition validate_sha256 : string → string → result UpdateError () :=
  Documents.validate_sha256 InvalidField.

(** [u8::is_ascii_graphic]. *)
Definition is_ascii_graphic (b : byte) : bool := in_range 33 126 b.

Definition validate_version (value : string) : result UpdateError () :=
  reject (is_empty value || (MAX_VERSION_BYTES <? len value)%Z
          || negb (all_bytes (λ b, is_ascii_graphic b && (b != x22) && (b != x5c)) value))
    with InvalidField "releaseVersion";
  Ok tt.

Definition hex_nibble (b : byte) : option Z :=
  if in_range 48 57 b then Some (byte_val b - 48)%Z
  else if in_range 97 102 b then Some (byte_val b - 97 + 10)%Z
  else None.

(** The loop over [chunks_exact(2)]. *)
Fixpoint decode_pairs (l : bytes) : result UpdateError bytes :=
  match l with
  | a :: b :: l =>
      high ← ok_or (hex_nibble a) (InvalidField "sha256");
      low ← ok_or (hex_nibble b) (InvalidField "sha256");
      output ← decode_pairs l;
      Ok (byte_of_Z (Z.lor (Z.shiftl high 4) low) :: output)
  | _ => Ok []
  end.

Definition decode_sha256 (value : string) : result UpdateError bytes :=
  _ ← validate_sha256 "sha256" value;
  decode_pairs (as_bytes value).

Definition hex_sha256 (digest : bytes) : string := hex_string digest.
Definition signature_message (payload : bytes) : result UpdateError bytes :=
  capacity ← ok_or (checked_add_u64 (blen UPDATE_SIGNATURE_DOMAIN) (blen payload)) DocumentTooLarge;
  Ok (UPDATE_SIGNATURE_DOMAIN ++ payload).
Definition validate_size : Z → Z → result UpdateError () := CanonicalJson.validate_size.
Definition validate_json_value : value → result UpdateError () := CanonicalJson.validate_json_value.

(** ** The slot machine *)

Definition inactive (s : Slot) : Slot := match s with A => B | B => A end.

(** [UpdateState::new]. *)
Definition new_state (active : Slot) : UpdateState :=
  mkState UPDATE_STATE_SCHEMA Stable active (inactive active) None.

Definition safety_capabilities (s : UpdateState) : SafetyCapabilities := mkSafety true true.

Definition state_validate (s : UpdateState) : result UpdateError () :=
  reject ((s.(st_schema) != UPDATE_STATE_SCHEMA) || (s.(active_slot) == s.(rollback_slot)))
    with InvalidState;
  match s.(phase), s.(pending) with
  | Stable, None => Ok tt
  | Stable, Some _ | _, None => Err InvalidState
  | _, Some pending =>
      _ ← validate_identifier "state.pending.releaseId" pending.(p_release_id);
      _ ← validate_safe_nonzero "state.pending.sequence" pending.(p_sequence);
      _ ← validate_sha256 "state.pending.manifestSha256" pending.(p_manifest_sha256);
      _ ← validate_sha256 "state.pending.artifactSha256" pending.(p_artifact_sha256);
      reject ((pending.(previous_slot) != s.(active_slot))
              || (pending.(target_slot) != inactive s.(active_slot))
              || (pending.(max_attempts) == 0%N)
              || (MAX_BOOT_ATTEMPTS <? pending.(max_attempts))%N
              || (pending.(max_attempts) <? pending.(attempts_remaining))%N)
        with InvalidState;
      Ok tt
  end.

(** [next.phase = ..], [next.pending = ..] and [next.rollback_slot = ..]. *)
Definition set_phase (p : UpdatePhase) (s : UpdateState) : UpdateState :=
  mkState s.(st_schema) p s.(active_slot) s.(rollback_slot) s.(pending).
Definition set_pending (p : option PendingUpdate) (s : UpdateState) : UpdateState :=
  mkState s.(st_schema) s.(phase) s.(active_slot) s.(rollback_slot) p.
Definition set_rollback_slot (r : Slot) (s : UpdateState) : UpdateState :=
  mkState s.(st_schema) s.(phase) s.(active_slot) r s.(pending).
Definition set_attempts (n : N) (p : PendingUpdate) : PendingUpdate :=
  mkPending p.(p_release_id) p.(p_sequence) p.(p_manifest_sha256) p.(p_artifact_sha256)
    p.(target_slot) p.(previous_slot) n p.(max_attempts) p.(p_emergency_rollback).

Definition confirm_staged (s : UpdateState) (plan : StagePlan) : result UpdateError UpdateState :=
  _ ← state_validate s;
  reject ((s.(phase) != Stable)
          || (plan.(plan_pending).(previous_slot) != s.(active_slot))
          || (plan.(plan_pending).(target_slot) != inactive s.(active_slot)))
    with InvalidTransition;
  let next := set_pending (Some plan.(plan_pending)) (set_phase Staged s) in
  _ ← state_validate next;
  Ok next.

Definition arm_pending_boot (s : UpdateState) : result UpdateError UpdateState :=
  _ ← state_validate s;
  reject (s.(phase) != Staged) with InvalidTransition;
  let next := set_phase PendingBoot s in
  _ ← state_validate next;
  Ok next.

Definition next_boot (s : UpdateState) : result UpdateError BootTransition :=
  _ ← state_validate s;
  match s.(phase) with
  | Stable => Ok (mkBoot s (BootStable s.(active_slot)))
  | Staged => Err InvalidTransition
  | RollbackPending =>
      pending ← ok_or s.(pending) InvalidState;
      Ok (mkBoot s (Rollback pending.(previous_slot) pending.(target_slot)))
  | PendingBoot =>
      pending ← ok_or s.(pending) InvalidState;
      if pending.(attempts_remaining) == 0%N then
        let state := set_phase RollbackPending s in
        _ ← state_validate state;
        Ok (mkBoot state (Rollback pending.(previous_slot) pending.(target_slot)))
      else
        let state := set_pending (Some (set_attempts (pending.(attempts_remaining) - 1) pending)) s in
        _ ← state_validate state;
        Ok (mkBoot state (TryPending pending.(target_slot) pending.(previous_slot)))
  end.

Definition mark_good (s : UpdateState) (running_slot : Slot) : result UpdateError UpdateState :=
  _ ← state_validate s;
  reject (s.(phase) != PendingBoot) with InvalidTransition;
  pending ← ok_or s.(pending) InvalidState;
  reject (running_slot != pending.(target_slot)) with WrongRunningSlot;
  let next := set_rollback_slot pending.(previous_slot) (new_state running_slot) in
  _ ← state_validate next;
  Ok next.

Definition record_failure (s : UpdateState) : result UpdateError UpdateState :=
  _ ← state_validate s;
  reject (s.(phase) != PendingBoot) with InvalidTransition;
  let next := set_phase RollbackPending s in
  _ ← state_validate next;
  Ok next.

Definition confirm_rollback (s : UpdateState) (running_slot : Slot) : result UpdateError UpdateState :=
  _ ← state_validate s;
  reject (s.(phase) != RollbackPending) with InvalidTransition;
  pending ← ok_or s.(pending) InvalidState;
  reject (running_slot != pending.(previous_slot)) with WrongRunningSlot;
  let next := set_rollback_slot pending.(target_slot) (new_state running_slot) in
  _ ← state_validate next;
  Ok next.

Definition plan_local_rollback (s : UpdateState) : result UpdateError LocalRollbackPlan :=
  _ ← state_validate s;
  if s.(phase) == Stable then Ok (mkRollbackPlan s.(rollback_slot) s.(active_slot))
  else
    pending ← ok_or s.(pending) InvalidState;
    Ok (mkRollbackPlan pending.(previous_slot) pending.(target_slot)).

Definition confirm_local_rollback (s : UpdateState) (plan : LocalRollbackPlan) (running_slot : Slot) :
    result UpdateError UpdateState :=
  _ ← state_validate s;
  valid_plan ←
    if s.(phase) == Stable then
      Ok ((plan.(plan_slot) == s.(rollback_slot)) && (plan.(plan_previous_slot) == s.(active_slot)))
    else
      pending ← ok_or s.(pending) InvalidState;
      Ok ((plan.(plan_slot) == pending.(previous_slot)) && (plan.(plan_previous_slot) == pending.(target_slot)));
  reject (negb valid_plan || (running_slot != plan.(plan_slot))) with InvalidTransition;
  let next := set_rollback_slot plan.(plan_previous_slot) (new_state running_slot) in
  _ ← state_validate next;
  Ok next.

(** [manifest.signature = ..]. *)
Definition set_signature (s : string) (m : SignedUpdateManifest) : SignedUpdateManifest :=
  mkManifest m.(schema) m.(sequence) m.(release_id) m.(release_version) m.(platform)
    m.(architecture) m.(release_ring) m.(rollout) m.(issued_at_unix) m.(not_before_unix)
    m.(expires_at_unix) m.(artifact) m.(emergency_rollback) s.

Definition unsigned_manifest (c : UpdateManifestContent) : SignedUpdateManifest :=
  mkManifest UPDATE_MANIFEST_SCHEMA c.(content_sequence) c.(content_release_id)
    c.(content_release_version) c.(content_platform) c.(content_architecture)
    c.(content_release_ring) c.(content_rollout) c.(content_issued_at_unix)
    c.(content_not_before_unix) c.(content_expires_at_unix) c.(content_artifact)
    c.(content_emergency_rollback) "".

Section update.
Context `{sha : Sha256} `{ed : Ed25519} `{b64 : Base64Url} `{js : JsonString} `{urls : UrlParse}.
Context `{read_manifest : FromSlice SignedUpdateManifest} `{read_checkpoint : FromSlice UpdateCheckpoint}.
Context `{read_state : FromSlice UpdateState}.

Definition write_canonical_value : value → bytes → result UpdateError bytes :=
  CanonicalJson.write_canonical_value.
Definition canonical_json {T} `{ToValue T} : T → result UpdateError bytes :=
  CanonicalJson.canonical_json.
Definition import_canonical {T} `{ToValue T} `{FromSlice T} : bytes → Z → result UpdateError T :=
  CanonicalJson.import_canonical.
Definition decode_signature : string → result UpdateError bytes :=
  Documents.decode_signature InvalidField.

Definition validate_artifact (a : ArtifactDescriptor) : result UpdateError () :=
  reject ((a.(size_bytes) =? 0) || (MAX_ARTIFACT_BYTES <? a.(size_bytes))
          || (MAX_SAFE_JSON_INTEGER <? a.(size_bytes)))%N
    with InvalidField "artifact.sizeBytes";
  _ ← validate_sha256 "artifact.sha256" a.(sha256_hex);
  reject (is_empty a.(url) || (MAX_URL_BYTES <? len a.(url))%Z) with InvalidField "artifact.url";
  parsed ← ok_or (url_parse a.(url)) (InvalidField "artifact.url");
  reject ((parsed.(url_scheme) != "https"%string) || (parsed.(url_host_str) == None)
          || negb (is_empty parsed.(url_username)) || (parsed.(url_password) != None)
          || (parsed.(url_fragment) != None))
    with InvalidField "artifact.url";
  Ok tt.

Definition validate_unsigned (m : SignedUpdateManifest) : result UpdateError () :=
  reject (m.(schema) != UPDATE_MANIFEST_SCHEMA) with InvalidField "schema";
  _ ← validate_safe_nonzero "sequence" m.(sequence);
  _ ← validate_identifier "releaseId" m.(release_id);
  _ ← validate_version m.(release_version);
  _ ← validate_safe_nonzero "issuedAtUnix" m.(issued_at_unix);
  _ ← validate_safe_nonzero "notBeforeUnix" m.(not_before_unix);
  _ ← validate_safe_nonzero "expiresAtUnix" m.(expires_at_unix);
  reject ((m.(not_before_unix) <? m.(issued_at_unix)) || (m.(expires_at_unix) <=? m.(not_before_unix)))%N
    with InvalidTimeWindow;
  reject (ROLLOUT_BASIS_POINTS <? m.(rollout).(basis_points))%N with InvalidField "rollout.basisPoints";
  _ ← validate_identifier "rollout.seed" m.(rollout).(seed);
  validate_artifact m.(artifact).

Definition validate (m : SignedUpdateManifest) : result UpdateError () :=
  _ ← validate_unsigned m;
  _ ← decode_signature m.(signature);
  Ok tt.

Definition unsigned_canonical (m : SignedUpdateManifest) : result UpdateError bytes :=
  canonical_json (unsigned m).

Definition sign (content : UpdateManifestContent) (signing_key : bytes) :
    result UpdateError SignedUpdateManifest :=
  let manifest := unsigned_manifest content in
  _ ← validate_unsigned manifest;
  canonical ← unsigned_canonical manifest;
  message ← signature_message canonical;
  let manifest := set_signature (b64_encode (ed_sign signing_key message)) manifest in
  _ ← validate manifest;
  Ok manifest.

Definition export_canonical (m : SignedUpdateManifest) : result UpdateError bytes :=
  _ ← validate m;
  bytes ← canonical_json m;
  _ ← validate_size (blen bytes) MAX_MANIFEST_BYTES;
  Ok bytes.

Definition verify (m : SignedUpdateManifest) (trust_anchor : bytes) : result UpdateError VerifiedUpdate :=
  _ ← validate m;
  signature ← decode_signature m.(signature);
  canonical ← unsigned_canonical m;
  message ← signature_message canonical;
  reject (negb (ed_verify trust_anchor message signature)) with InvalidSignature;
  exact ← export_canonical m;
  Ok (mkVerified m (sha256 exact)).

Definition import_and_verify (b : bytes) (trust_anchor : bytes) : result UpdateError VerifiedUpdate :=
  manifest ← import_canonical b MAX_MANIFEST_BYTES;
  verify manifest trust_anchor.

(** ** Eligibility *)

(** [u16::from_be_bytes([digest[0], digest[1]])]. *)
Definition digest_u16 (digest : bytes) : N := Z.to_N (be_value (take 2 digest)).

Definition in_rollout (device_id seed : string) (basis_points : N) : bool :=
  if basis_points == 0%N then false
  else if basis_points == ROLLOUT_BASIS_POINTS then true
  else
    let digest := sha256 (domain "kernaid:update:rollout:v1" ++ as_bytes seed ++ [x00] ++ as_bytes device_id) in
    let cohort := (digest_u16 digest mod ROLLOUT_BASIS_POINTS)%N in
    (cohort <? basis_points)%N.

Definition availability (u : VerifiedUpdate) (context : UpdateContext) : Availability :=
  let m := u.(manifest) in
  if (context.(ctx_now_unix) == 0%N) || (MAX_SAFE_JSON_INTEGER <? context.(ctx_now_unix))%N
     || negb (is_ok (validate_device_id context.(ctx_device_id))) then InvalidContext
  else if context.(ctx_platform) != m.(platform) then PlatformMismatch
  else if context.(ctx_architecture) != m.(architecture) then ArchitectureMismatch
  else if (context.(ctx_now_unix) <? m.(not_before_unix))%N then NotYetValid
  else if (m.(expires_at_unix) <=? context.(ctx_now_unix))%N then Expired
  else if m.(emergency_rollback) then Eligible
  else if context.(ctx_update_ring) == Hold then Held
  else if (m.(release_ring) == ReleaseCanary) && (context.(ctx_update_ring) != Canary) then RingMismatch
  else if negb (in_rollout context.(ctx_device_id) m.(rollout).(seed) m.(rollout).(basis_points))
    then RolloutDeferred
  else Eligible.

(** ** Admission *)

Definition checkpoint_validate (c : UpdateCheckpoint) : result UpdateError () :=
  reject (c.(cp_schema) != UPDATE_CHECKPOINT_SCHEMA) with InvalidField "checkpoint.schema";
  _ ← validate_safe_nonzero "checkpoint.sequence" c.(cp_sequence);
  _ ← validate_identifier "checkpoint.releaseId" c.(cp_release_id);
  validate_sha256 "checkpoint.manifestSha256" c.(cp_manifest_sha256).

Definition from_verified (u : VerifiedUpdate) : UpdateCheckpoint :=
  mkCheckpoint UPDATE_CHECKPOINT_SCHEMA u.(manifest).(sequence) u.(manifest).(release_id)
    (hex_sha256 u.(manifest_sha256)).

Definition admit_update (checkpoint : option UpdateCheckpoint) (verified : VerifiedUpdate) :
    result UpdateError AdmissionOutcome :=
  match checkpoint with
  | Some existing =>
      _ ← checkpoint_validate existing;
      reject (verified.(manifest).(sequence) <? existing.(cp_sequence))%N with SequenceRollback;
      if verified.(manifest).(sequence) == existing.(cp_sequence) then
        reject (hex_sha256 verified.(manifest_sha256) != existing.(cp_manifest_sha256)) with SequenceConflict;
        Ok (mkOutcome (mkAdmitted verified IdempotentReplay) existing)
      else Ok (mkOutcome (mkAdmitted verified Advanced) (from_verified verified))
  | None => Ok (mkOutcome (mkAdmitted verified First) (from_verified verified))
  end.

Definition checkpoint_export_canonical (c : UpdateCheckpoint) : result UpdateError bytes :=
  _ ← checkpoint_validate c;
  b ← canonical_json c;
  _ ← validate_size (blen b) MAX_CHECKPOINT_BYTES;
  Ok b.

Definition checkpoint_import_canonical (b : bytes) : result UpdateError UpdateCheckpoint :=
  checkpoint ← import_canonical b MAX_CHECKPOINT_BYTES;
  _ ← checkpoint_validate checkpoint;
  Ok checkpoint.

Definition state_export_canonical (s : UpdateState) : result UpdateError bytes :=
  _ ← state_validate s;
  b ← canonical_json s;
  _ ← validate_size (blen b) MAX_STATE_BYTES;
  Ok b.

Definition state_import_canonical (b : bytes) : result UpdateError UpdateState :=
  state ← import_canonical b MAX_STATE_BYTES;
  _ ← state_validate state;
  Ok state.

(** ** Staging plans *)

Definition plan_stage {E} `{CompletedArtifactEvidence E} (s : UpdateState) (admitted : AdmittedUpdate)
    (context : UpdateContext) (evidence : E) (max_boot_attempts : N) : result UpdateError StagePlan :=
  _ ← state_validate s;
  reject ((s.(phase) != Stable) || match s.(pending) with Some _ => true | None => false end)
    with InvalidTransition;
  let availability := availability admitted.(verified) context in
  reject (availability != Eligible) with NotEligible availability;
  reject (negb ((1 <=? max_boot_attempts) && (max_boot_attempts <=? MAX_BOOT_ATTEMPTS))%N)
    with InvalidBootAttempts;
  let artifact := admitted.(verified).(manifest).(artifact) in
  expected_sha256 ← decode_sha256 artifact.(sha256_hex);
  reject ((complete_size_bytes evidence != artifact.(size_bytes))
          || (complete_sha256 evidence != expected_sha256))
    with ArtifactMismatch;
  let target_slot := inactive s.(active_slot) in
  Ok (mkStagePlan (mkPending admitted.(verified).(manifest).(release_id)
        admitted.(verified).(manifest).(sequence) (hex_sha256 admitted.(verified).(manifest_sha256))
        artifact.(sha256_hex) target_slot s.(active_slot) max_boot_attempts max_boot_attempts
        admitted.(verified).(manifest).(emergency_rollback))).
End update.
