(* ===== verification/UpdateMachine.v ===== *)
(** * The A/B slot machine of updates

    What [UpdateState] of crates/update-client promises: every reachable state
    is valid, a pending release boots a bounded number of times before the
    device returns to the slot that worked, local rollback is possible in every
    state, and a release is staged only with complete evidence of its artifact. *)

From Stdlib.Strings Require Import Byte.
From Stdlib Require String.
From S2P Require Import Prelude Bytes Crypto Signatures Ordered CanonicalJson Documents UpdateClient.

(** ** Valid states *)

Lemma inactive_ne s : inactive s ≠ s.
Proof. by destruct s. Qed.
Lemma inactive_involutive s : inactive (inactive s) = s.
Proof. by destruct s. Qed.
Lemma other_slot s s' : s ≠ s' ↔ s' = inactive s.
Proof. by destruct s, s'. Qed.

(** A release on its way from slot [active] to the other one. *)
Record pending_ok (active : Slot) (p : PendingUpdate) : Prop := {
  pending_release : identifier p.(p_release_id) = true;
  pending_sequence : safe_nonzero p.(p_sequence) = true;
  pending_manifest : digest_text p.(p_manifest_sha256) = true;
  pending_artifact : digest_text p.(p_artifact_sha256) = true;
  pending_previous : p.(previous_slot) = active;
  pending_target : p.(target_slot) = inactive active;
  pending_attempts : (0 < p.(max_attempts) ≤ MAX_BOOT_ATTEMPTS)%N ∧ (p.(attempts_remaining) ≤ p.(max_attempts))%N;
}.

(** The states the machine can be in. *)
Inductive machine : UpdateState → Prop :=
| machine_stable active :
    machine (mkState UPDATE_STATE_SCHEMA Stable active (inactive active) None)
| machine_pending ph active p :
    ph ≠ Stable → pending_ok active p →
    machine (mkState UPDATE_STATE_SCHEMA ph active (inactive active) (Some p)).

Lemma state_validate_Ok s u : state_validate s = Ok u ↔ machine s.
Proof.
  destruct u. unfold state_validate. split.
  - destruct s as [sc ph ac rb pe]. cbn [st_schema phase active_slot rollback_slot pending].
    intros H. apply reject_Ok in H as [Hg H]. guards. subst sc.
    assert (rb = inactive ac) as -> by by apply other_slot.
    destruct pe as [p|], ph; try done; [..|constructor].
    all: constructor; [done|]; inv_ok H; n_guards; apply validate_identifier_Ok in Hcall;
      apply validate_safe_nonzero_Ok in Hcall0; apply validate_sha256_Ok in Hcall1, Hcall2; split; try done; lia.
  - intros [active|ph active p Hph [Hr Hs Hm Ha Hp Ht [Hmax Hrem]]]; cbn [st_schema phase active_slot rollback_slot pending];
      rewrite ne_refl_false, bool_decide_false by (by destruct active); [done|].
    destruct ph; [done|..];
      run_ok ltac:(first [ by apply validate_identifier_Ok | by apply validate_safe_nonzero_Ok
        | by apply validate_sha256_Ok
        | rewrite Hp, Ht, !ne_refl_false, (bool_decide_false (_ = 0%N)) by lia;
          by rewrite !(proj2 (N.ltb_ge _ _)) by lia ]); done.
Qed.

Lemma new_state_machine s : machine (new_state s).
Proof. constructor. Qed.
Lemma set_rollback_machine s r : machine (set_rollback_slot r (new_state s)) ↔ r = inactive s.
Proof.
  split; [|intros ->; apply new_state_machine]. inversion 1; congruence.
Qed.

(** Runs an operation on a state that is known to be valid. *)
Ltac validated H := rewrite (proj2 (state_validate_Ok _ tt)) by exact H; cbn [mbind result_bind].

(** The machine with a pending release, whatever its phase. *)
Lemma pending_phase ph ph' active p :
  machine (mkState UPDATE_STATE_SCHEMA ph active (inactive active) (Some p)) → ph' ≠ Stable →
  machine (mkState UPDATE_STATE_SCHEMA ph' active (inactive active) (Some p)).
Proof. intros Hm Hph. inversion Hm; subst. by constructor. Qed.

(** ** Operations *)

(** What a caller does with a state. A local rollback plans and confirms. *)
Inductive operation :=
| Stage (plan : StagePlan)
| Arm
| Boot
| MarkGood (running : Slot)
| Failure
| ConfirmRollback (running : Slot)
| LocalRollback (running : Slot).

Definition perform (s : UpdateState) (op : operation) : result UpdateError UpdateState :=
  match op with
  | Stage plan => confirm_staged s plan
  | Arm => arm_pending_boot s
  | Boot => t ← next_boot s; Ok t.(boot_state)
  | MarkGood running => mark_good s running
  | Failure => record_failure s
  | ConfirmRollback running => confirm_rollback s running
  | LocalRollback running => plan ← plan_local_rollback s; confirm_local_rollback s plan running
  end.

(** The slot that is known to work is the active one. The table of the machine:
    which operations a state admits and the state they lead to. *)
Definition next_state (s : UpdateState) (op : operation) : option UpdateState :=
  match op, s.(phase), s.(pending) with
  | Stage plan, Stable, _ => Some (mkState UPDATE_STATE_SCHEMA Staged s.(active_slot) (inactive s.(active_slot)) (Some plan.(plan_pending)))
  | Arm, Staged, _ => Some (set_phase PendingBoot s)
  | Boot, (Stable | RollbackPending), _ => Some s
  | Boot, PendingBoot, Some p =>
      Some (if p.(attempts_remaining) == 0%N then set_phase RollbackPending s
            else set_pending (Some (set_attempts (p.(attempts_remaining) - 1) p)) s)
  | MarkGood running, PendingBoot, _ => if running == inactive s.(active_slot) then Some (new_state running) else None
  | Failure, PendingBoot, _ => Some (set_phase RollbackPending s)
  | ConfirmRollback running, RollbackPending, _ => if running == s.(active_slot) then Some (new_state running) else None
  | LocalRollback running, Stable, _ => if running == inactive s.(active_slot) then Some (new_state running) else None
  | LocalRollback running, _, _ => if running == s.(active_slot) then Some (new_state running) else None
  | _, _, _ => None
  end.

(** A plan that a stable device with this active slot accepts. *)
Definition stageable (s : UpdateState) (op : operation) : Prop :=
  match op with Stage plan => pending_ok s.(active_slot) plan.(plan_pending) | _ => True end.

Lemma validate_machine s : machine s → state_validate s = Ok tt.
Proof. apply state_validate_Ok. Qed.

Lemma set_rollback_new s r : r = inactive s → set_rollback_slot r (new_state s) = new_state s.
Proof. by intros ->. Qed.

Lemma perform_boot s :
  machine s → match next_state s Boot with Some s' => perform s Boot = Ok s' ∧ machine s' | None => perform s Boot = Err InvalidTransition end.
Proof.
  intros Hs. unfold perform, next_boot. rewrite (validate_machine s) by done. cbn [mbind result_bind].
  destruct Hs as [active|ph active p Hph Hp]; [split; [done|constructor]|].
  assert (∀ ph' p', ph' ≠ Stable → pending_ok active p' →
    machine (mkState UPDATE_STATE_SCHEMA ph' active (inactive active) (Some p'))) as Hm by (by intros; constructor).
  destruct ph; try done; cbn [next_state phase pending ok_or mbind result_bind active_slot]; [|by split; auto].
  case_bool_decide as Hz; unfold set_phase, set_pending; cbn [phase pending st_schema active_slot rollback_slot].
  - rewrite validate_machine by (by apply Hm). split; [done|]. by apply Hm.
  - assert (pending_ok active (set_attempts (p.(attempts_remaining) - 1) p)) as Hp'
      by (destruct Hp; split; try done; cbn; lia).
    rewrite validate_machine by (by apply Hm). split; [done|]. by apply Hm.
Qed.

Lemma perform_exact s op :
  machine s → stageable s op →
  match next_state s op with
  | Some s' => perform s op = Ok s' ∧ machine s'
  | None => ∃ e, perform s op = Err e
  end.
Proof.
  intros Hs Hst. destruct op as [plan| | |running| |running|running].
  3: { pose proof (perform_boot s Hs). destruct (next_state s Boot); [done|]. by eexists. }
  all: unfold perform, confirm_staged, arm_pending_boot, mark_good, record_failure, confirm_rollback,
    plan_local_rollback, confirm_local_rollback.
  all: rewrite (validate_machine s) by done; cbn [mbind result_bind].
  all: destruct Hs as [active|ph active p Hph Hp]; [|pose proof Hp as [_ _ _ _ Hprev Htarget _]].
  all: cbn [phase pending active_slot rollback_slot next_state stageable ok_or mbind result_bind] in *.
  all: try (destruct ph; try done).
  all: try (by eexists).
  1: assert (machine (mkState UPDATE_STATE_SCHEMA Staged active (inactive active) (Some (plan_pending plan)))) as Hm
       by by constructor.
  2: assert (machine (mkState UPDATE_STATE_SCHEMA PendingBoot active (inactive active) (Some p))) as Hm by by constructor.
  4: assert (machine (mkState UPDATE_STATE_SCHEMA RollbackPending active (inactive active) (Some p))) as Hm by by constructor.
  1: rewrite (pending_previous _ _ Hst), (pending_target _ _ Hst).
  1, 2, 4: rewrite !ne_refl_false; unfold set_phase, set_pending; cbn [orb st_schema phase active_slot rollback_slot pending];
    by rewrite validate_machine.
  all: rewrite ?Hprev, ?Htarget; destruct running, active; try (by eexists); exact (conj eq_refl (new_state_machine _)).
Qed.

Lemma perform_stageable s op s' : perform s op = Ok s' → machine s ∧ stageable s op.
Proof.
  destruct op; cbn [perform]; intros H; unfold confirm_staged, arm_pending_boot, mark_good, record_failure,
    confirm_rollback, plan_local_rollback, next_boot in H.
  1: { apply result_bind_Ok in H as ([] & Hv & H). inv_ok H. apply state_validate_Ok in Hv, Hcall. split; [done|].
       by inversion Hcall. }
  all: apply result_bind_Ok in H as (? & H & _) || idtac.
  all: try (apply result_bind_Ok in H as (? & H & _)).
  all: by apply state_validate_Ok in H.
Qed.

(** Everything that callers can reach. *)
Inductive reachable : UpdateState → Prop :=
| reach_new s : reachable (new_state s)
| reach_step s op s' : reachable s → perform s op = Ok s' → reachable s'.

Lemma perform_Ok s op s' : perform s op = Ok s' ↔ machine s ∧ stageable s op ∧ next_state s op = Some s'.
Proof.
  split.
  - intros H. pose proof (perform_stageable _ _ _ H) as [Hm Hst]. split_and!; [done..|].
    pose proof (perform_exact s op Hm Hst) as He. destruct (next_state s op); [|destruct He as [e He]; congruence].
    destruct He as [He _]. congruence.
  - intros (Hm & Hst & Hn). pose proof (perform_exact s op Hm Hst) as He. rewrite Hn in He. apply He.
Qed.

Lemma reachable_machine s : reachable s → machine s.
Proof.
  induction 1 as [s|s op s' _ IH H]; [apply new_state_machine|].
  apply perform_Ok in H as (Hm & Hst & Hn). pose proof (perform_exact s op Hm Hst) as He. rewrite Hn in He. apply He.
Qed.

(** ** The claims *)

(** C27. The slot machine follows its table: in every state that callers can reach, with any plans and
    any answers about the running slot, the state is valid, the rollback slot is the inactive one, an
    operation succeeds exactly where the table admits it, and the active slot changes only when the
    pending release reports from its own slot or when a stable device rolls back. *)
Theorem update_machine_follows_table s :
  reachable s →
  state_validate s = Ok tt ∧ s.(rollback_slot) = inactive s.(active_slot) ∧
  (∀ op, stageable s op → ∀ s', perform s op = Ok s' ↔ next_state s op = Some s') ∧
  (∀ plan, ¬ stageable s (Stage plan) → ∃ e, perform s (Stage plan) = Err e) ∧
  (∀ op s', perform s op = Ok s' → s'.(active_slot) ≠ s.(active_slot) →
     (op = MarkGood s'.(active_slot) ∧ s.(phase) = PendingBoot) ∨
     (op = LocalRollback s'.(active_slot) ∧ s.(phase) = Stable)).
Proof.
  intros Hr%reachable_machine. split_and!.
  - by apply validate_machine.
  - by destruct Hr.
  - intros op Hst s'. rewrite perform_Ok. naive_solver.
  - intros plan Hn. destruct (perform s (Stage plan)) as [s'|e] eqn:He; [|by eexists].
    apply perform_stageable in He as [_ Hst]. by destruct Hn.
  - intros op s' (_ & _ & Hn)%perform_Ok Hne. unfold next_state in Hn. destruct op, (phase s) eqn:Hp; try done;
      try (simplify_eq; done); try (case_bool_decide; simplify_eq; auto; done).
    destruct (pending s); [|done]. case_bool_decide; by simplify_eq.
Qed.

(** Boots in sequence, with the actions they enact. *)
Fixpoint boots (k : nat) (s : UpdateState) : result UpdateError (list BootAction * UpdateState) :=
  match k with
  | O => Ok ([], s)
  | S k =>
      t ← next_boot s;
      r ← boots k t.(boot_state);
      Ok (t.(boot_action) :: r.1, r.2)
  end.

Definition pending_state (ph : UpdatePhase) (active : Slot) (p : PendingUpdate) : UpdateState :=
  mkState UPDATE_STATE_SCHEMA ph active (inactive active) (Some p).

Lemma next_boot_rollback active p :
  pending_ok active p →
  next_boot (pending_state RollbackPending active p) =
  Ok (mkBoot (pending_state RollbackPending active p) (Rollback active (inactive active))).
Proof.
  intros Hp. unfold next_boot. rewrite (validate_machine (pending_state _ _ _)) by by constructor. cbn.
  by rewrite (pending_previous _ _ Hp), (pending_target _ _ Hp).
Qed.

Lemma next_boot_exhausted active p :
  pending_ok active p → p.(attempts_remaining) = 0%N →
  next_boot (pending_state PendingBoot active p) =
  Ok (mkBoot (pending_state RollbackPending active p) (Rollback active (inactive active))).
Proof.
  intros Hp Hz. unfold next_boot. rewrite (validate_machine (pending_state _ _ _)) by by constructor.
  cbn [mbind result_bind pending_state phase pending ok_or]. rewrite bool_decide_true by done.
  rewrite (validate_machine (set_phase _ _)) by by constructor.
  by rewrite (pending_previous _ _ Hp), (pending_target _ _ Hp).
Qed.

Lemma next_boot_try n active p :
  pending_ok active p → p.(attempts_remaining) = N.of_nat (S n) →
  pending_ok active (set_attempts (N.of_nat n) p) ∧
  next_boot (pending_state PendingBoot active p) =
  Ok (mkBoot (pending_state PendingBoot active (set_attempts (N.of_nat n) p)) (TryPending (inactive active) active)).
Proof.
  intros Hp Hn. assert (pending_ok active (set_attempts (N.of_nat n) p)) as Hp'.
  { destruct Hp as [? ? ? ? ? ? [? ?]]. split; try done. cbn. lia. }
  split; [done|]. unfold next_boot. rewrite (validate_machine (pending_state _ _ _)) by by constructor.
  cbn [mbind result_bind pending_state phase pending ok_or]. rewrite bool_decide_false by lia.
  replace (attempts_remaining p - 1)%N with (N.of_nat n) by lia.
  rewrite (validate_machine (set_pending _ _)) by by constructor.
  by rewrite (pending_previous _ _ Hp), (pending_target _ _ Hp).
Qed.

Lemma boots_rollback k active p :
  pending_ok active p →
  boots k (pending_state RollbackPending active p) =
  Ok (replicate k (Rollback active (inactive active)), pending_state RollbackPending active p).
Proof.
  intros Hp. induction k as [|k IH]; [done|]. cbn [boots]. rewrite next_boot_rollback by done.
  cbn [mbind result_bind boot_state boot_action]. by rewrite IH.
Qed.

Lemma boots_pending n k active p :
  pending_ok active p → p.(attempts_remaining) = N.of_nat n →
  ∃ s', boots k (pending_state PendingBoot active p) =
    Ok (replicate (k `min` n) (TryPending (inactive active) active) ++ replicate (k - n) (Rollback active (inactive active)), s') ∧
    s' = if decide (n < k) then pending_state RollbackPending active (set_attempts 0 p)
         else pending_state PendingBoot active (set_attempts (N.of_nat (n - k)) p).
Proof.
  revert k p. induction n as [|n IH]; intros k p Hp Hn.
  all: assert (set_attempts (attempts_remaining p) p = p) as Hself by by destruct p.
  all: destruct k as [|k]; [eexists; split; [done|]; simpl; by rewrite <-Hn, Hself|]; cbn [boots].
  - rewrite next_boot_exhausted by done. cbn [mbind result_bind boot_state boot_action].
    rewrite boots_rollback by done. eexists. split; [done|]. change 0%N with (N.of_nat 0). simpl. by rewrite <-Hn, Hself.
  - destruct (next_boot_try n active p Hp Hn) as [Hp' ->]. cbn [mbind result_bind boot_state boot_action].
    destruct (IH k _ Hp' eq_refl) as (s' & -> & Hs'). exists s'. split; [done|]. rewrite Hs'.
    by destruct (decide (n < k)), (decide (S n < S k)); try lia.
Qed.

(** A release that never reports is abandoned: from a pending boot, whatever the number of boots,
    the device tries the new slot for exactly the attempts that remain, at most five, and then boots
    the slot that worked on every boot until the rollback is confirmed, which is always possible. *)
Theorem update_boot_attempts_bounded s p k :
  reachable s → s.(phase) = PendingBoot → s.(pending) = Some p →
  let n := N.to_nat p.(attempts_remaining) in
  n ≤ 5 ∧
  ∃ s', boots k s =
    Ok (replicate (k `min` n) (TryPending (inactive s.(active_slot)) s.(active_slot))
          ++ replicate (k - n) (Rollback s.(active_slot) (inactive s.(active_slot))), s') ∧
    s'.(active_slot) = s.(active_slot) ∧
    (n < k → confirm_rollback s' s.(active_slot) = Ok (new_state s.(active_slot))).
Proof.
  intros Hr%reachable_machine Hph Hpe. destruct Hr as [|ph active p' _ Hp]; simpl in Hph, Hpe; [done|]. simplify_eq.
  cbn [active_slot]. pose proof Hp as [_ _ _ _ _ _ [Hmax Hrem]]. unfold MAX_BOOT_ATTEMPTS in Hmax. split; [lia|].
  destruct (boots_pending (N.to_nat p.(attempts_remaining)) k active p) as (s' & Hb & Hs'); [done|lia|].
  exists s'. split; [exact Hb|]. split; [subst; by case_decide|]. intros Hlt. rewrite decide_True in Hs' by done. subst s'.
  assert (pending_ok active (set_attempts 0 p)) as Hp' by (destruct Hp; split; try done; cbn; lia).
  apply (perform_Ok _ (ConfirmRollback active)). split_and!; [by constructor|done|]. cbn. by rewrite eq_refl_true.
Qed.

(** Local rollback is always available: in every reachable state it can be planned and confirmed
    without any document, it leads to a stable state on the planned slot, which with an update in
    progress is the slot that worked, and the capabilities of the device are complete. *)
Theorem update_local_rollback_available s :
  reachable s →
  ∃ plan, plan_local_rollback s = Ok plan ∧
    confirm_local_rollback s plan plan.(plan_slot) = Ok (new_state plan.(plan_slot)) ∧
    plan.(plan_slot) = (if s.(phase) == Stable then s.(rollback_slot) else s.(active_slot)) ∧
    confirm_local_rollback s plan (inactive plan.(plan_slot)) = Err InvalidTransition ∧
    safety_capabilities s = mkSafety true true.
Proof.
  intros Hr%reachable_machine. unfold plan_local_rollback, confirm_local_rollback. rewrite validate_machine by done.
  cbn [mbind result_bind]. destruct Hr as [active|ph active p Hph Hp].
  - eexists. split; [done|]. by destruct active.
  - cbn [phase pending]. rewrite (bool_decide_false (ph = Stable)) by done. cbn [ok_or mbind result_bind].
    eexists. split; [done|]. cbn. rewrite (pending_previous _ _ Hp), (pending_target _ _ Hp).
    by destruct active.
Qed.

(** ** Witnesses *)
Module MachineDemo.
Definition demo_pending : PendingUpdate :=
  mkPending "release-7" 7 (hex_string (replicate 32 x01)) (hex_string (replicate 32 x02)) B A 3 3 false.
Definition staged : UpdateState := mkState UPDATE_STATE_SCHEMA Staged A B (Some demo_pending).
Definition armed : UpdateState := mkState UPDATE_STATE_SCHEMA PendingBoot A B (Some demo_pending).

Lemma armed_reachable : reachable armed.
Proof.
  apply (reach_step staged Arm); [apply (reach_step (new_state A) (Stage (mkStagePlan demo_pending)))|].
  - apply reach_new.
  - vm_compute. reflexivity.
  - vm_compute. reflexivity.
Qed.

Lemma update_machine_follows_table_witness :
  reachable armed ∧ state_validate armed = Ok tt ∧
  (perform armed (MarkGood B) = Ok (new_state B) ↔ next_state armed (MarkGood B) = Some (new_state B)).
Proof.
  split; [apply armed_reachable|].
  destruct (update_machine_follows_table armed armed_reachable) as (Hv & _ & Ht & _).
  split; [exact Hv|]. apply Ht. exact I.
Defined.

Lemma update_boot_attempts_bounded_witness :
  reachable armed ∧
  ∃ s', boots 5 armed = Ok ([TryPending B A; TryPending B A; TryPending B A; Rollback A B; Rollback A B], s') ∧
    confirm_rollback s' A = Ok (new_state A).
Proof.
  split; [apply armed_reachable|].
  destruct (update_boot_attempts_bounded armed demo_pending 5 armed_reachable eq_refl eq_refl) as (_ & s' & Hb & _ & Hc).
  exists s'. split; [exact Hb|]. apply Hc. apply (bool_decide_unpack _). reflexivity.
Defined.

Lemma update_local_rollback_available_witness :
  reachable armed ∧ ∃ plan, plan_local_rollback armed = Ok plan ∧ plan.(plan_slot) = A.
Proof.
  split; [apply armed_reachable|].
  destruct (update_local_rollback_available armed armed_reachable) as (plan & Hp & _ & Hs & _).
  exists plan. split; [exact Hp|exact Hs].
Defined.
End MachineDemo.
