(* ===== verification/UpdateClientProperties.v ===== *)
(** * What update manifests promise

    Manifests, eligibility, admission and staging of crates/update-client:
    - a release is staged only when it is admitted, eligible and downloaded
      completely with the digest its manifest names;
    - the checkpoint never goes back to an older release;
    - a valid manifest is always signed, fits its size limit and verifies;
    - a device that is in a rollout stays in it when the rollout grows. *)

From Stdlib.Strings Require Import Byte.
From Stdlib Require String.
From Stdlib.Sorting Require Import Sorted.
From S2P Require Import Prelude Bytes Crypto Signatures Ordered CanonicalJson Documents UpdateClient UpdateMachine.

(** ** Digests *)

Lemma hex_digit_nibble z :
  (0 ≤ z < 16)%Z → hex_nibble (Ascii.byte_of_ascii (hex_digit z)) = Some z.
Proof.
  intros Hz. rewrite byte_of_hex_digit. unfold hex_nibble, in_range. rewrite !byte_val_of_Z.
  destruct (Z.ltb_spec z 10); rewrite Z.mod_small by lia.
  - rewrite !(proj2 (Z.leb_le _ _)) by lia. simpl. f_equal. lia.
  - rewrite (proj2 (Z.leb_gt (z + 87) 57)) by lia. rewrite andb_false_r.
    rewrite !(proj2 (Z.leb_le _ _)) by lia. simpl. f_equal. lia.
Qed.

Lemma nibbles_byte b :
  byte_of_Z (Z.lor (Z.shiftl (byte_val b / 16) 4) (byte_val b mod 16)) = b.
Proof. by destruct b. Qed.

Lemma decode_pairs_hex d : decode_pairs (as_bytes (hex_string d)) = Ok d.
Proof.
  induction d as [|b d IH]; [done|]. cbn [hex_string]. rewrite !as_bytes_cons. cbn [decode_pairs].
  destruct (nibbles_range b). rewrite !hex_digit_nibble by done. cbn [ok_or mbind result_bind].
  rewrite IH. cbn [mbind result_bind]. by rewrite nibbles_byte.
Qed.

Lemma nibble_hex_digit b : lower_hex_byte b = true →
  ∃ z, hex_nibble b = Some z ∧ (0 ≤ z < 16)%Z ∧ Ascii.byte_of_ascii (hex_digit z) = b.
Proof. destruct b; intros H; try discriminate H; (eexists; split; [reflexivity|]); by split. Qed.

(** Every text of the right form is the text of a digest. *)
Lemma digest_text_hex s : digest_text s = true → ∃ d, s = hex_string d ∧ length d = 32.
Proof.
  intros [Hl Hb]%digest_text_spec. unfold len in Hl. unfold all_bytes in Hb.
  assert (∀ n l, length l = 2 * n → forallb lower_hex_byte l = true →
    ∃ d, l = as_bytes (hex_string d) ∧ length d = n) as Hd.
  { induction n as [|n IH]; intros l Hn Hf; [destruct l; [|done]; by exists []|].
    destruct l as [|a [|b l]]; [done|simpl in Hn; lia|]. simpl in Hn. cbn [forallb] in Hf.
    apply andb_true_iff in Hf as [Ha Hf]. apply andb_true_iff in Hf as [Hbb Hf].
    destruct (IH l) as (d & -> & Hd); [lia|done|].
    destruct (nibble_hex_digit a Ha) as (x & _ & Hx & <-), (nibble_hex_digit b Hbb) as (y & _ & Hy & <-).
    exists (byte_of_Z (x * 16 + y) :: d). split; [|simpl; lia]. cbn [hex_string]. rewrite !as_bytes_cons, byte_val_of_Z.
    rewrite (Z.mod_small (x * 16 + y)) by lia. rewrite Z.div_add_l, Z.div_small, Z.add_0_r by lia.
    by rewrite Z.add_comm, Z.mod_add, Z.mod_small by lia. }
  destruct (Hd 32 (as_bytes s)) as (d & Heq & Hlen); [rewrite length_as_bytes; lia|done|].
  apply (inj as_bytes) in Heq. by exists d.
Qed.

Lemma decode_sha256_Ok s d : decode_sha256 s = Ok d ↔ s = hex_string d ∧ length d = 32.
Proof.
  unfold decode_sha256. split.
  - intros H. inv_ok H. apply validate_sha256_Ok, digest_text_hex in Hcall as (d' & -> & Hd).
    rewrite decode_pairs_hex in H. by simplify_eq.
  - intros [-> Hd]. apply bind_pass_unit; [|apply decode_pairs_hex]. by apply validate_sha256_Ok, hex_string_digest.
Qed.

(** ** Serialization *)

#[export] Instance platform_name_inj : Inj (=) (=) platform_name.
Proof. by intros [] []. Qed.
#[export] Instance architecture_name_inj : Inj (=) (=) architecture_name.
Proof. by intros [] []. Qed.
#[export] Instance release_ring_name_inj : Inj (=) (=) release_ring_name.
Proof. by intros [] []. Qed.
#[export] Instance slot_name_inj : Inj (=) (=) slot_name.
Proof. by intros [] []. Qed.
#[export] Instance phase_name_inj : Inj (=) (=) phase_name.
Proof. by intros [] []. Qed.

#[export] Instance artifact_value_ok : ToValueOk ArtifactDescriptor.
Proof.
  split.
  - intros a. object_ok.
  - intros a a' Heq. object_inj Heq. destruct a, a'. simpl in *. by simplify_eq.
Qed.
#[export] Instance rollout_value_ok : ToValueOk Rollout.
Proof.
  split.
  - intros r. object_ok.
  - intros r r' Heq. object_inj Heq. destruct r, r'. simpl in *. by simplify_eq.
Qed.
#[export] Instance pending_value_ok : ToValueOk PendingUpdate.
Proof.
  split.
  - intros p. object_ok.
  - intros p p' Heq. object_inj Heq. destruct p, p'. simpl in *. injection Heq as -> -> -> -> H1 H2 -> -> ->.
    apply (inj slot_name) in H1, H2. by subst.
Qed.

Lemma update_unsigned_values_inj u u' : unsigned_values u = unsigned_values u' → u = u'.
Proof.
  intros Heq. unfold unsigned_values in Heq.
  pose proof (to_value_inj u.(u_rollout) u'.(u_rollout)) as Hr.
  pose proof (to_value_inj u.(u_artifact) u'.(u_artifact)) as Ha. revert Heq Hr Ha.
  generalize (to_value u.(u_rollout)) as r, (to_value u.(u_artifact)) as a,
    (to_value u'.(u_rollout)) as r', (to_value u'.(u_artifact)) as a'.
  intros r a r' a' Heq Hr Ha. injection Heq as ? ? ? ? Hp Hc Hg ?%Hr ? ? ? ?%Ha ?.
  apply (inj platform_name) in Hp. apply (inj architecture_name) in Hc. apply (inj release_ring_name) in Hg.
  destruct u, u'. simpl in *. by subst.
Qed.

#[export] Instance unsigned_value_ok : ToValueOk UnsignedUpdateManifest.
Proof.
  split.
  - intros u. object_ok; apply to_value_ok.
  - intros u u' Heq. object_inj Heq. by apply update_unsigned_values_inj.
Qed.
#[export] Instance manifest_value_ok : ToValueOk SignedUpdateManifest.
Proof.
  split.
  - intros m. object_ok; apply to_value_ok.
  - intros u u' Heq. object_inj Heq. apply app_inj_2 in Heq as [Heq [= Hs]]; [|done].
    apply update_unsigned_values_inj in Heq. destruct u, u'. unfold unsigned in Heq. simpl in *. injection Heq; intros; by subst.
Qed.
#[export] Instance checkpoint_value_ok : ToValueOk UpdateCheckpoint.
Proof.
  split.
  - intros c. object_ok.
  - intros c c' Heq. object_inj Heq. destruct c, c'. simpl in *. by simplify_eq.
Qed.
#[export] Instance state_value_ok : ToValueOk UpdateState.
Proof.
  split.
  - intros s. object_ok. destruct (pending s); [apply to_value_ok|done].
  - intros s s' Heq. object_inj Heq.
    assert (match s.(pending) with Some p => to_value p | None => Null end =
      match s'.(pending) with Some p => to_value p | None => Null end → s.(pending) = s'.(pending)) as Hp.
    { destruct s.(pending) as [p|], s'.(pending) as [p'|]; intros He; try done. by apply to_value_inj in He as ->. }
    revert Heq Hp. generalize (match s.(pending) with Some p => to_value p | None => Null end) as v,
      (match s'.(pending) with Some p => to_value p | None => Null end) as v'.
    intros v v' Heq Hp. injection Heq as ? Hph Ha Hr ?%Hp. apply (inj phase_name) in Hph.
    apply (inj slot_name) in Ha, Hr. destruct s, s'. simpl in *. by subst.
Qed.

(** ** Valid manifests *)

Section update.
Context `{sha : Sha256} `{ed : Ed25519} `{b64 : Base64Url} `{js : JsonString} `{urls : UrlParse}.
Context `{read_manifest : FromSlice SignedUpdateManifest} `{read_checkpoint : FromSlice UpdateCheckpoint}.
Context `{read_state : FromSlice UpdateState}.
Context `{shal : !Sha256Laws} `{edl : !Ed25519Laws} `{b64l : !Base64UrlLaws} `{jsl : !JsonStringLaws}.

Record manifest_ok (m : SignedUpdateManifest) : Prop := {
  ok_schema : m.(schema) = UPDATE_MANIFEST_SCHEMA;
  ok_sequence : safe_nonzero m.(sequence) = true;
  ok_release : identifier m.(release_id) = true;
  ok_version : validate_version m.(release_version) = Ok tt;
  ok_times : safe_nonzero m.(issued_at_unix) = true ∧ safe_nonzero m.(not_before_unix) = true ∧
    safe_nonzero m.(expires_at_unix) = true;
  ok_window : (m.(issued_at_unix) ≤ m.(not_before_unix) < m.(expires_at_unix))%N;
  ok_rollout : (m.(rollout).(basis_points) ≤ ROLLOUT_BASIS_POINTS)%N ∧ identifier m.(rollout).(seed) = true;
  ok_artifact : validate_artifact m.(artifact) = Ok tt;
}.

Lemma update_validate_unsigned_Ok m u : validate_unsigned m = Ok u ↔ manifest_ok m.
Proof.
  destruct u. unfold validate_unsigned. split.
  - intros H. inv_ok H. n_guards. apply validate_identifier_Ok in Hcall0, Hcall5.
    apply validate_safe_nonzero_Ok in Hcall, Hcall2, Hcall3, Hcall4. by split.
  - intros [-> Hs Hr Hv (H1 & H2 & H3) [Hw1 Hw2] [Hb Hseed] Ha]. rewrite ne_refl_false.
    run_ok ltac:(first [ by apply validate_identifier_Ok | by apply validate_safe_nonzero_Ok | done
      | rewrite (proj2 (N.ltb_ge _ _)), (proj2 (N.leb_gt _ _)) by lia; done
      | rewrite (proj2 (N.ltb_ge _ _)) by lia; done ]).
    done.
Qed.

(** An artifact that passes its check. *)
Lemma artifact_parts a :
  validate_artifact a = Ok tt →
  (0 < a.(size_bytes) ≤ MAX_SAFE_JSON_INTEGER)%N ∧ digest_text a.(sha256_hex) = true ∧ (len a.(url) ≤ 4096)%Z.
Proof.
  unfold validate_artifact. intros H. inv_ok H. n_guards. apply validate_sha256_Ok in Hcall.
  apply Z.ltb_ge in Hguard0. split_and!; [|lia|done|done].
  repeat match goal with H : (_ =? _)%N = false |- _ => apply N.eqb_neq in H end. lia.
Qed.

Lemma version_length s : validate_version s = Ok tt → (blen (literal s) ≤ 130)%Z.
Proof using jsl.
  unfold validate_version, MAX_VERSION_BYTES. intros H. inv_ok H. guards. rewrite literal_plain; [lia|].
  eapply all_bytes_impl; [|eassumption]. intros b. by destruct b.
Qed.

Lemma update_unsigned_fields_length m :
  manifest_ok m → (fields_length (zip unsigned_keys (unsigned_values (unsigned m))) ≤ 32768)%Z.
Proof using jsl.
  intros []. destruct ok_times0 as (? & ? & ?), ok_rollout0 as [Hb Hseed].
  apply artifact_parts in ok_artifact0 as (Hsize & Hsha & Hurl).
  pose proof (identifier_length _ ok_release0). pose proof (version_length _ ok_version0).
  pose proof (safe_length _ ok_sequence0).
  repeat match goal with H : safe_nonzero _ = true |- _ => apply safe_length in H end.
  assert (∀ x, (blen (text (Str (platform_name x))) ≤ 9)%Z) as Hplat by (intros []; cbn; literal_lengths; done).
  assert (∀ x, (blen (text (Str (architecture_name x))) ≤ 9)%Z) as Harch by (intros []; cbn; literal_lengths; done).
  assert (∀ x, (blen (text (Str (release_ring_name x))) ≤ 8)%Z) as Hring by (intros []; cbn; literal_lengths; done).
  pose proof (Hplat m.(platform)). pose proof (Harch m.(architecture)). pose proof (Hring m.(release_ring)).
  assert (blen (text (Bool m.(emergency_rollback))) ≤ 5)%Z by by destruct (emergency_rollback m).
  assert (blen (text (to_value m.(rollout))) ≤ 300)%Z.
  { etrans; [apply json_object_length|]. unfold fields_length. cbn [zip_with foldr fst snd].
    pose proof (identifier_length _ Hseed). change (text (Str (seed (rollout m)))) with (literal (seed (rollout m))).
    assert (blen (text (json_u64 (rollout m).(basis_points))) ≤ 54)%Z
      by (apply decimal_safe_length; unfold ROLLOUT_BASIS_POINTS, MAX_SAFE_JSON_INTEGER in *; lia).
    literal_lengths. lia. }
  assert (blen (text (to_value m.(artifact))) ≤ 25000)%Z.
  { etrans; [apply json_object_length|]. unfold fields_length. cbn [zip_with foldr fst snd].
    pose proof (digest_length _ Hsha). pose proof (literal_length m.(artifact).(url)).
    change (text (Str (url (artifact m)))) with (literal (url (artifact m))).
    change (text (Str (sha256_hex (artifact m)))) with (literal (sha256_hex (artifact m))).
    assert (blen (text (json_u64 (artifact m).(size_bytes))) ≤ 54)%Z by (apply decimal_safe_length; lia).
    literal_lengths. lia. }
  unfold fields_length, unsigned_keys, unsigned_values, unsigned.
  cbn [zip_with foldr fst snd u_schema u_sequence u_release_id u_release_version u_platform u_architecture
    u_release_ring u_rollout u_issued_at_unix u_not_before_unix u_expires_at_unix u_artifact u_emergency_rollback].
  rewrite ok_schema0. change (text (Str UPDATE_MANIFEST_SCHEMA)) with (literal UPDATE_MANIFEST_SCHEMA).
  change (text (Str (release_id m))) with (literal (release_id m)).
  change (text (Str (release_version m))) with (literal (release_version m)).
  unfold UPDATE_MANIFEST_SCHEMA. literal_lengths. lia.
Qed.

Definition signed_ok (m : SignedUpdateManifest) : Prop :=
  manifest_ok m ∧ ∃ d, m.(signature) = b64_encode d ∧ length d = 64.

Lemma update_signature_text s d : decode_signature s = Ok d ↔ s = b64_encode d ∧ length d = 64.
Proof using b64l. apply (Documents.decode_signature_Ok InvalidField). Qed.

Lemma validate_Ok m u : validate m = Ok u ↔ signed_ok m.
Proof using b64l.
  destruct u. unfold validate. split.
  - intros Hv. inv_ok Hv. guards. apply update_validate_unsigned_Ok in Hcall. apply update_signature_text in Hcall0.
    split; eauto.
  - intros [He (d & Hs)]. run_ok ltac:(first [by apply update_validate_unsigned_Ok | by apply update_signature_text]). done.
Qed.

Lemma update_nested_valid m :
  manifest_ok m →
  CanonicalJson.validate_json_value (E := UpdateError) (to_value m.(rollout)) = Ok tt ∧
  CanonicalJson.validate_json_value (E := UpdateError) (to_value m.(artifact)) = Ok tt.
Proof.
  intros []. apply artifact_parts in ok_artifact0 as (Hsize & _ & _). destruct ok_rollout0 as [Hb _]. split.
  - object_valid. apply validate_json_u64. unfold ROLLOUT_BASIS_POINTS, MAX_SAFE_JSON_INTEGER in *. lia.
  - object_valid. apply validate_json_u64. lia.
Qed.

Lemma unsigned_canonical_Ok m :
  manifest_ok m → unsigned_canonical m = Ok (text (to_value (unsigned m))) ∧
  (blen (text (to_value (unsigned m))) ≤ 32770)%Z.
Proof using jsl.
  intros Hm. split.
  - apply canonical_json_Ok. split; [|done]. object_valid; try (by apply update_nested_valid); apply safe_valid; apply Hm.
  - etrans; [apply json_object_length|]. pose proof (update_unsigned_fields_length m Hm). lia.
Qed.

Lemma update_signed_canonical m :
  signed_ok m → canonical_json m = Ok (text (to_value m)) ∧ (0 < blen (text (to_value m)) ≤ MAX_MANIFEST_BYTES)%Z.
Proof using jsl b64l.
  intros [Hm (d & Hs & Hd)]. split.
  - apply canonical_json_Ok. split; [|done]. object_valid; try (by apply update_nested_valid); apply safe_valid; apply Hm.
  - split; [apply json_object_nonempty|]. etrans; [apply json_object_length|].
    unfold signed_keys. rewrite zip_with_app by done. rewrite fields_length_app.
    pose proof (update_unsigned_fields_length m Hm). pose proof (signature_length d Hd).
    unfold fields_length at 2. cbn [zip_with foldr fst snd text]. rewrite Hs. literal_lengths.
    unfold MAX_MANIFEST_BYTES. lia.
Qed.

Lemma update_export_canonical_Ok m t : export_canonical m = Ok t ↔ signed_ok m ∧ t = text (to_value m).
Proof using jsl b64l.
  unfold export_canonical. split.
  - intros H. inv_ok H. apply validate_Ok in Hcall. split; [done|]. by apply canonical_json_Ok in Hcall0 as [_ ->].
  - intros [Hm ->]. destruct (update_signed_canonical m Hm) as [Hc Hl].
    apply bind_pass_unit; [by apply validate_Ok|]. rewrite Hc. cbn [mbind result_bind].
    apply bind_pass_unit; [|done]. apply validate_size_Ok. lia.
Qed.

(** What the release signer signs. *)
Definition update_message (m : SignedUpdateManifest) : bytes :=
  UPDATE_SIGNATURE_DOMAIN ++ text (to_value (unsigned m)).

Lemma update_message_Ok m t :
  manifest_ok m → unsigned_canonical m = Ok t → signature_message t = Ok (update_message m).
Proof using jsl.
  intros Hm Ht. destruct (unsigned_canonical_Ok m Hm) as [Hu Hl]. rewrite Ht in Hu. apply Ok_inj_1 in Hu as ->.
  unfold signature_message. rewrite checked_add_u64_fits; [done|].
  change (blen UPDATE_SIGNATURE_DOMAIN) with 27%Z. unfold U64_MAX. lia.
Qed.

Lemma update_message_inj m m' :
  manifest_ok m → manifest_ok m' → update_message m = update_message m' → unsigned m = unsigned m'.
Proof using jsl.
  intros Hm Hm' Heq. apply app_inv_head in Heq.
  destruct (unsigned_canonical_Ok _ Hm) as [Hc _], (unsigned_canonical_Ok _ Hm') as [Hc' _].
  rewrite Heq in Hc. by eapply (canonical_json_inj (E := UpdateError)).
Qed.

Lemma manifest_ok_set_signature s m : manifest_ok (set_signature s m) ↔ manifest_ok m.
Proof. split; intros []; by split. Qed.

(** The manifest [sign] returns. *)
Definition signed_manifest (c : UpdateManifestContent) (key : bytes) : SignedUpdateManifest :=
  set_signature (b64_encode (ed_sign key (update_message (unsigned_manifest c)))) (unsigned_manifest c).

Lemma update_sign_inv c key m : sign c key = Ok m → manifest_ok (unsigned_manifest c) ∧ m = signed_manifest c key.
Proof using jsl.
  unfold sign. intros H. inv_ok H. apply update_validate_unsigned_Ok in Hcall. split; [done|].
  rewrite (update_message_Ok _ _ Hcall Hcall0) in Hcall1. by apply Ok_inj_1 in Hcall1 as <-.
Qed.

Lemma update_sign_Ok c key : manifest_ok (unsigned_manifest c) → sign c key = Ok (signed_manifest c key).
Proof using jsl b64l edl.
  intros Hm. unfold sign. destruct (unsigned_canonical_Ok _ Hm) as [Hu _].
  apply bind_pass_unit; [by apply update_validate_unsigned_Ok|]. rewrite Hu. cbn [mbind result_bind].
  rewrite (update_message_Ok _ _ Hm Hu). cbn [mbind result_bind].
  apply bind_pass_unit; [|done]. apply validate_Ok. split; [by apply manifest_ok_set_signature|].
  eexists. split; [done|]. apply ed_sign_length.
Qed.

Lemma update_verify_Ok m anchor v :
  verify m anchor = Ok v ↔
    signed_ok m ∧
    (∃ d, m.(signature) = b64_encode d ∧ ed_verify anchor (update_message m) d = true) ∧
    v = mkVerified m (sha256 (text (to_value m))).
Proof using jsl b64l.
  unfold verify. split.
  - intros H. inv_ok H. guards. apply validate_Ok in Hcall as [Hm Hs].
    rewrite (update_message_Ok _ _ Hm Hcall1) in Hcall2. apply Ok_inj_1 in Hcall2 as <-.
    apply update_signature_text in Hcall0 as [? ?]. apply update_export_canonical_Ok in Hcall3 as [_ ->].
    split_and!; try done. eauto.
  - intros ([Hm Hsig] & (d & Hs & Hv) & ->).
    destruct Hsig as (d' & Hs' & Hd'). rewrite Hs in Hs'. apply (inj b64_encode) in Hs' as <-.
    assert (signed_ok m) as Hok by (split; eauto). destruct (unsigned_canonical_Ok _ Hm) as [Hu _].
    apply bind_pass_unit; [by apply validate_Ok|].
    rewrite (proj2 (update_signature_text _ _) (conj Hs Hd')), Hu. cbn [mbind result_bind].
    rewrite (update_message_Ok _ _ Hm Hu). cbn [mbind result_bind]. rewrite Hv. cbn [negb].
    by rewrite (proj2 (update_export_canonical_Ok _ _) (conj Hok eq_refl)).
Qed.

(** ** Verified and admitted releases *)

Definition genuine (v : VerifiedUpdate) : Prop :=
  signed_ok v.(manifest) ∧ v.(manifest_sha256) = sha256 (text (to_value v.(manifest))).

Lemma update_verify_genuine m anchor v : verify m anchor = Ok v → genuine v ∧ v.(manifest) = m.
Proof using jsl b64l. intros (Hs & _ & ->)%update_verify_Ok. done. Qed.

Lemma update_same_digest v w :
  genuine v → genuine w → hex_sha256 v.(manifest_sha256) = hex_sha256 w.(manifest_sha256) →
  v = w ∨ collision (text (to_value v.(manifest))) (text (to_value w.(manifest))).
Proof using jsl b64l.
  intros [Hv Hdv] [Hw Hdw] Heq. unfold hex_sha256 in Heq. apply (inj hex_string) in Heq.
  destruct (decide (text (to_value v.(manifest)) = text (to_value w.(manifest)))) as [Ht|]; [left|right; split; congruence].
  destruct (update_signed_canonical _ Hv) as [Hc _], (update_signed_canonical _ Hw) as [Hc' _]. rewrite Ht in Hc.
  assert (v.(manifest) = w.(manifest)) by by eapply (canonical_json_inj (E := UpdateError)).
  destruct v, w. simpl in *. by subst.
Qed.

Lemma from_verified_valid v : genuine v → checkpoint_validate (from_verified v) = Ok tt.
Proof using shal.
  intros [[Hm _] Hd]. unfold checkpoint_validate, from_verified. cbn. rewrite ne_refl_false.
  run_ok ltac:(first [ by apply validate_identifier_Ok, Hm | by apply validate_safe_nonzero_Ok, Hm]).
  apply validate_sha256_Ok, hex_string_digest. rewrite Hd. apply length_sha256.
Qed.

(** ** Admission *)

(** The checkpoints that calls lead to when the caller keeps each outcome, with
    the releases they admitted, the latest first. A refusal leaves the
    checkpoint alone. *)
Inductive admissions : option UpdateCheckpoint → list VerifiedUpdate → Prop :=
| admissions_start : admissions None []
| admissions_step c log v o :
    admissions c log → genuine v → admit_update c v = Ok o → admissions (Some o.(next_checkpoint)) (v :: log).

Lemma admit_exact w v :
  genuine w →
  admit_update (Some (from_verified w)) v =
    if (v.(manifest).(sequence) <? w.(manifest).(sequence))%N then Err SequenceRollback
    else if v.(manifest).(sequence) == w.(manifest).(sequence) then
      if hex_sha256 v.(manifest_sha256) != hex_sha256 w.(manifest_sha256) then Err SequenceConflict
      else Ok (mkOutcome (mkAdmitted v IdempotentReplay) (from_verified w))
    else Ok (mkOutcome (mkAdmitted v Advanced) (from_verified v)).
Proof using shal. intros Hw. unfold admit_update. by rewrite from_verified_valid. Qed.

Lemma admissions_newest c log :
  admissions c log →
  Forall genuine log ∧
  ((c = None ∧ log = []) ∨
   ∃ w, c = Some (from_verified w) ∧
     newest (λ q, q.(manifest).(sequence)) (λ q, hex_sha256 q.(manifest_sha256)) log w).
Proof using shal.
  induction 1 as [|c log v o Ha [Hg IH] Hv Ho]; [naive_solver|]. split; [by constructor|]. right.
  destruct IH as [[-> ->]|(w & -> & Hn)].
  - injection Ho as <-. exists v. split; [done|apply newest_first].
  - assert (genuine w) as Hw by (rewrite Forall_forall in Hg; apply Hg, Hn). rewrite admit_exact in Ho by done.
    destruct (N.ltb_spec (sequence (manifest v)) (sequence (manifest w))); [done|].
    case_bool_decide as Hseq; [case_bool_decide as Hd; [done|]|]; injection Ho as <-; simpl.
    + exists w. split; [done|]. by apply newest_replay.
    + exists v. split; [done|]. eapply newest_advance; [done|]. simpl. lia.
Qed.

(** No release is admitted behind a newer one, emergency releases included: the admitted sequence
    numbers never decrease, two admitted releases with one number are the same manifest or collide
    under SHA-256, the checkpoint stands at the newest of them, and a release with a lower number, or
    the same number and another manifest, is refused. *)
Theorem update_admission_monotone c log :
  admissions c log →
  StronglySorted (λ q q', (q'.(manifest).(sequence) ≤ q.(manifest).(sequence))%N) log ∧
  (∀ q q', q ∈ log → q' ∈ log → q.(manifest).(sequence) = q'.(manifest).(sequence) →
     q = q' ∨ collision (text (to_value q.(manifest))) (text (to_value q'.(manifest)))) ∧
  (log ≠ [] → ∃ w, w ∈ log ∧ c = Some (from_verified w) ∧
     (∀ q, q ∈ log → (q.(manifest).(sequence) ≤ w.(manifest).(sequence))%N) ∧
     (∀ q, (q.(manifest).(sequence) < w.(manifest).(sequence))%N → admit_update c q = Err SequenceRollback) ∧
     (∀ q, genuine q → q.(manifest).(sequence) = w.(manifest).(sequence) → q ≠ w →
        admit_update c q = Err SequenceConflict ∨
        collision (text (to_value q.(manifest))) (text (to_value w.(manifest))))).
Proof using shal jsl b64l.
  intros [Hg Hn]%admissions_newest. destruct Hn as [[-> ->]|(w & -> & Hn)].
  { split_and!; [constructor|intros ?? Hq; inversion Hq|done]. }
  rewrite Forall_forall in Hg. assert (genuine w) as Hw by apply Hg, Hn. split_and!; [apply Hn|..].
  - intros q q' Hq Hq' Heq. apply update_same_digest; [by apply Hg..|]. by eapply Hn.
  - intros _. exists w. split; [apply Hn|]. split; [done|]. split; [apply (newest_highest _ _ _ _ Hn)|]. split.
    + intros q Hlt. rewrite admit_exact by done. by rewrite (proj2 (N.ltb_lt _ _)).
    + intros q Hq Heq Hne. rewrite admit_exact by done. rewrite Heq, N.ltb_irrefl, eq_refl_true.
      case_bool_decide as Hd; [by left|right]. by destruct (update_same_digest q w Hq Hw Hd).
Qed.

(** ** Staging *)

(** What the artifact evidence must say. *)
Definition complete {E} `{CompletedArtifactEvidence E} (a : ArtifactDescriptor) (ev : E) : Prop :=
  complete_size_bytes ev = a.(size_bytes) ∧ hex_string (complete_sha256 ev) = a.(sha256_hex).

(** The release a plan stands for. *)
Definition plan_of (s : UpdateState) (v : VerifiedUpdate) (k : N) : StagePlan :=
  mkStagePlan (mkPending v.(manifest).(release_id) v.(manifest).(sequence) (hex_sha256 v.(manifest_sha256))
    v.(manifest).(artifact).(sha256_hex) (inactive s.(active_slot)) s.(active_slot) k k v.(manifest).(emergency_rollback)).

Lemma plan_stage_Ok {E} `{CompletedArtifactEvidence E} s a ctx (ev : E) k plan :
  machine s → genuine a.(verified) →
  plan_stage s a ctx ev k = Ok plan ↔
    s.(phase) = Stable ∧ availability a.(verified) ctx = Eligible ∧ (1 ≤ k ≤ MAX_BOOT_ATTEMPTS)%N ∧
    complete a.(verified).(manifest).(artifact) ev ∧ plan = plan_of s a.(verified) k.
Proof.
  intros Hs [[Hm _] _]. destruct (artifact_parts _ (ok_artifact _ Hm)) as (_ & Hd & _).
  apply digest_text_hex in Hd as (d & Hhex & Hd).
  assert (decode_sha256 (a.(verified).(manifest).(artifact).(sha256_hex)) = Ok d) as Hdec by by apply decode_sha256_Ok.
  unfold plan_stage, complete. rewrite validate_machine, Hdec by done. cbn [mbind result_bind]. rewrite Hhex. split.
  - intros Hp. inv_ok Hp. n_guards. subst. split_and!; try done. unfold plan_of. by rewrite Hhex.
  - intros (Hph & Hav & [Hk1 Hk2] & [Hsz Hsh%(inj hex_string)] & ->). rewrite Hph, Hav, !ne_refl_false.
    assert (s.(pending) = None) as -> by (destruct Hs; done).
    rewrite !(proj2 (N.leb_le _ _)) by done. cbn [andb negb orb]. rewrite Hsz, Hsh, !ne_refl_false.
    unfold plan_of. by rewrite Hhex.
Qed.

(** A release is staged only with complete evidence: a plan exists exactly for a stable device, an
    eligible release, one to five boot attempts and an artifact of the size and digest that the signed
    manifest names; it targets the inactive slot, and confirming and arming it gives the pending boot
    of that release with the active slot untouched. *)
Theorem update_staging_exact {E} `{CompletedArtifactEvidence E} s a ctx (ev : E) k :
  reachable s → genuine a.(verified) →
  (∀ plan, plan_stage s a ctx ev k = Ok plan ↔
     s.(phase) = Stable ∧ availability a.(verified) ctx = Eligible ∧ (1 ≤ k ≤ MAX_BOOT_ATTEMPTS)%N ∧
     complete a.(verified).(manifest).(artifact) ev ∧ plan = plan_of s a.(verified) k) ∧
  (∀ plan, plan_stage s a ctx ev k = Ok plan →
     ∃ s1 s2, confirm_staged s plan = Ok s1 ∧ arm_pending_boot s1 = Ok s2 ∧
       s2 = mkState UPDATE_STATE_SCHEMA PendingBoot s.(active_slot) (inactive s.(active_slot))
              (Some plan.(plan_pending)) ∧
       plan.(plan_pending).(target_slot) = inactive s.(active_slot) ∧
       plan.(plan_pending).(attempts_remaining) = k).
Proof using shal.
  intros Hr%reachable_machine Hv. split; [by intros plan; apply plan_stage_Ok|].
  intros plan (Hph & _ & [Hk1 Hk2] & _ & ->)%plan_stage_Ok; [|done..].
  assert (pending_ok s.(active_slot) (plan_of s a.(verified) k).(plan_pending)) as Hp.
  { destruct Hv as [[Hm _] Hd]. split; cbn; try done; try apply Hm.
    - apply hex_string_digest. rewrite Hd. apply length_sha256.
    - apply artifact_parts, Hm.
    - lia. }
  set (s1 := mkState UPDATE_STATE_SCHEMA Staged s.(active_slot) (inactive s.(active_slot)) (Some (plan_of s a.(verified) k).(plan_pending))).
  exists s1, (set_phase PendingBoot s1). split_and!; [| |done..].
  - apply (perform_Ok s (Stage _)). split_and!; [done..|]. cbn [next_state]. by rewrite Hph.
  - apply (perform_Ok s1 Arm). split_and!; [by constructor|done..].
Qed.

(** ** Eligibility *)

(** A staged rollout only grows and the local ring decides: a device that is eligible stays eligible
    when the release widens its rollout; a held device is eligible for emergency releases only; and
    an eligible release is for the platform and architecture of the device and inside its time window,
    emergency or not. *)
Theorem update_eligibility v ctx :
  (∀ v', v'.(manifest).(platform) = v.(manifest).(platform) → v'.(manifest).(architecture) = v.(manifest).(architecture) →
     v'.(manifest).(not_before_unix) = v.(manifest).(not_before_unix) → v'.(manifest).(expires_at_unix) = v.(manifest).(expires_at_unix) →
     v'.(manifest).(emergency_rollback) = v.(manifest).(emergency_rollback) → v'.(manifest).(release_ring) = v.(manifest).(release_ring) →
     v'.(manifest).(rollout).(seed) = v.(manifest).(rollout).(seed) →
     (v.(manifest).(rollout).(basis_points) ≤ v'.(manifest).(rollout).(basis_points) ≤ ROLLOUT_BASIS_POINTS)%N →
     availability v ctx = Eligible → availability v' ctx = Eligible) ∧
  (ctx.(ctx_update_ring) = Hold → availability v ctx = Eligible → v.(manifest).(emergency_rollback) = true) ∧
  (availability v ctx = Eligible →
     ctx.(ctx_platform) = v.(manifest).(platform) ∧ ctx.(ctx_architecture) = v.(manifest).(architecture) ∧
     (v.(manifest).(not_before_unix) ≤ ctx.(ctx_now_unix) < v.(manifest).(expires_at_unix))%N ∧
     device_text ctx.(ctx_device_id) = true).
Proof.
  assert (∀ d sd b b', (b ≤ b' ≤ ROLLOUT_BASIS_POINTS)%N → in_rollout d sd b = true → in_rollout d sd b' = true) as Hgrow.
  { intros d sd b b' Hb. unfold in_rollout. case_bool_decide; [done|]. rewrite (bool_decide_false (b' = 0%N)) by lia.
    case_bool_decide; [rewrite bool_decide_true by lia; done|]. case_bool_decide; [done|].
    rewrite !N.ltb_lt. lia. }
  split_and!.
  - intros v' Hp Ha Hnb Hex Hem Hri Hse Hb. unfold availability. rewrite Hp, Ha, Hnb, Hex, Hem, Hri, Hse.
    destruct (_ || _ || _); [done|]. destruct (_ != _); [done|]. destruct (_ != _); [done|].
    destruct (_ <? _)%N; [done|]. destruct (_ <=? _)%N; [done|]. destruct (emergency_rollback (manifest v)); [done|].
    case_bool_decide; [done|]. destruct (_ && _); [done|]. destruct (in_rollout _ _ (basis_points (rollout (manifest v)))) eqn:Hin; [|done].
    by rewrite (Hgrow _ _ _ _ Hb Hin).
  - intros Hh. unfold availability. rewrite Hh. destruct (emergency_rollback (manifest v)); [done|].
    rewrite (bool_decide_true (Hold = Hold)) by done. repeat case_match; done.
  - unfold availability. destruct (_ || _ || _) eqn:Hc; [done|]. guards. case_bool_decide; [done|]. case_bool_decide; [done|].
    destruct (N.ltb_spec (ctx_now_unix ctx) (not_before_unix (manifest v))); [done|].
    destruct (N.leb_spec (expires_at_unix (manifest v)) (ctx_now_unix ctx)); [done|]. intros _.
    split_and!; try done. destruct (validate_device_id (ctx_device_id ctx)) as [[]|] eqn:Hd; [|done].
    by apply validate_device_id_Ok in Hd.
Qed.

(** ** Exchange and persistence *)

Lemma slot_length x : (blen (text (Str (slot_name x))) ≤ 3)%Z.
Proof using jsl. destruct x; cbn; literal_lengths; done. Qed.
Lemma bool_length x : (blen (text (Bool x)) ≤ 5)%Z.
Proof. by destruct x. Qed.

Lemma attempts_safe active p :
  pending_ok active p →
  (p.(attempts_remaining) ≤ MAX_SAFE_JSON_INTEGER)%N ∧ (p.(max_attempts) ≤ MAX_SAFE_JSON_INTEGER)%N.
Proof. intros []. unfold MAX_BOOT_ATTEMPTS, MAX_SAFE_JSON_INTEGER in *. lia. Qed.

Lemma pending_length active p : pending_ok active p → (blen (text (to_value p)) ≤ 800)%Z.
Proof using jsl.
  intros Hp. destruct (attempts_safe _ _ Hp) as [H1 H2]. destruct Hp.
  etrans; [apply json_object_length|]. unfold fields_length, pending_keys. cbn [zip_with foldr fst snd].
  pose proof (identifier_length _ pending_release). pose proof (digest_length _ pending_manifest).
  pose proof (digest_length _ pending_artifact). pose proof (safe_length _ pending_sequence).
  apply decimal_safe_length in H1, H2. pose proof (slot_length (target_slot p)). pose proof (slot_length (previous_slot p)).
  pose proof (bool_length (p_emergency_rollback p)).
  change (text (Str (p_release_id p))) with (literal (p_release_id p)).
  change (text (Str (p_manifest_sha256 p))) with (literal (p_manifest_sha256 p)).
  change (text (Str (p_artifact_sha256 p))) with (literal (p_artifact_sha256 p)).
  change (text (json_u64 (attempts_remaining p))) with (decimal (attempts_remaining p)).
  change (text (json_u64 (max_attempts p))) with (decimal (max_attempts p)).
  literal_lengths. lia.
Qed.

Lemma state_canonical s :
  machine s → canonical_json s = Ok (text (to_value s)) ∧ (0 < blen (text (to_value s)) ≤ MAX_STATE_BYTES)%Z.
Proof using jsl.
  intros Hs. split.
  - apply canonical_json_Ok. split; [|done]. object_valid. destruct Hs as [active|ph active p Hph Hp]; [done|].
    cbn [pending]. destruct (attempts_safe _ _ Hp). object_valid; [apply safe_valid, Hp|by apply validate_json_u64..].
  - split; [apply json_object_nonempty|]. etrans; [apply json_object_length|]. unfold fields_length.
    cbn [zip_with foldr fst snd].
    assert (blen (text match pending s with Some p => to_value p | None => Null end) ≤ 800)%Z.
    { destruct Hs as [active|ph active p Hph Hp]; [done|]. cbn [pending]. by eapply pending_length. }
    assert (∀ x, (blen (text (Str (phase_name x))) ≤ 18)%Z) as Hph by (intros []; cbn; literal_lengths; done).
    pose proof (Hph (phase s)). pose proof (slot_length (active_slot s)). pose proof (slot_length (rollback_slot s)).
    assert (st_schema s = UPDATE_STATE_SCHEMA) as -> by by destruct Hs.
    change (text (Str UPDATE_STATE_SCHEMA)) with (literal UPDATE_STATE_SCHEMA).
    unfold UPDATE_STATE_SCHEMA, MAX_STATE_BYTES. literal_lengths. lia.
Qed.

(** A device can stop after any operation: every reachable state is exported within its size limit,
    two states never share their document, and import gives the state back. *)
Theorem update_state_persists s :
  reachable s →
  ∃ t, state_export_canonical s = Ok t ∧ (blen t ≤ MAX_STATE_BYTES)%Z ∧
    (reads_back s → state_import_canonical t = Ok s) ∧
    (∀ s', reachable s' → state_export_canonical s' = Ok t → s' = s).
Proof using jsl.
  intros Hr%reachable_machine.
  assert (∀ s', machine s' → state_export_canonical s' = Ok (text (to_value s'))) as Hx.
  { intros s' Hs'. destruct (state_canonical s' Hs') as [Hc Hl]. unfold state_export_canonical.
    rewrite validate_machine by done. cbn [mbind result_bind]. rewrite Hc. cbn [mbind result_bind].
    apply bind_pass_unit; [|done]. apply validate_size_Ok. lia. }
  destruct (state_canonical s Hr) as [Hc Hl]. exists (text (to_value s)). split_and!; [by apply Hx|lia|..].
  - intros Hb. unfold state_import_canonical. eapply bind_pass.
    { apply (import_canonical_exact (E := UpdateError)); [done|exact Hc|lia]. }
    by rewrite validate_machine.
  - intros s' Hs'%reachable_machine He. rewrite Hx in He by done. apply Ok_inj_1 in He.
    destruct (state_canonical s' Hs') as [Hc' _]. rewrite He in Hc'.
    by eapply (canonical_json_inj (E := UpdateError)).
Qed.

(** Every valid manifest can be released: a content whose fields are valid is signed, its document
    stays within the size limit, verifies under the key of its signer and is read back by import; a
    content with an invalid field is refused with the error of that field. *)
Theorem update_manifest_exchange c key :
  match validate_unsigned (unsigned_manifest c) with
  | Err err => sign c key = Err err
  | Ok _ =>
      ∃ m t v, sign c key = Ok m ∧ export_canonical m = Ok t ∧ (blen t ≤ MAX_MANIFEST_BYTES)%Z ∧
        v = mkVerified m (sha256 t) ∧ verify m (ed_public key) = Ok v ∧
        (reads_back m → import_and_verify t (ed_public key) = Ok v)
  end.
Proof using jsl b64l edl.
  destruct (validate_unsigned _) as [[]|err] eqn:Hv; [|unfold sign; by rewrite Hv].
  apply update_validate_unsigned_Ok in Hv. pose proof (update_sign_Ok c key Hv) as Hs.
  set (m := signed_manifest c key) in Hs. assert (signed_ok m) as Hm.
  { split; [by apply manifest_ok_set_signature|]. eexists. split; [done|]. apply ed_sign_length. }
  destruct (update_signed_canonical m Hm) as [Hc Hl].
  pose proof (proj2 (update_export_canonical_Ok m _) (conj Hm eq_refl)) as Hx.
  assert (verify m (ed_public key) = Ok (mkVerified m (sha256 (text (to_value m))))) as Hver.
  { apply update_verify_Ok. split_and!; try done. eexists. split; [done|]. apply ed_sign_verify. }
  eexists m, _, _. split_and!; [done|exact Hx|lia|done|done|].
  intros Hr. unfold import_and_verify. eapply bind_pass; [|exact Hver].
  apply (import_canonical_exact (E := UpdateError)); [done|exact Hc|lia].
Qed.

(** A manifest that verifies is the release signer's own, with every field as it was signed. *)
Theorem update_manifest_authentic key m v :
  (∀ x s, ed_verify (ed_public key) x s = true →
     (∃ c m', sign c key = Ok m' ∧ x = update_message m') ∨ (∀ p, x ≠ UPDATE_SIGNATURE_DOMAIN ++ p)) →
  verify m (ed_public key) = Ok v →
  ∃ c m', sign c key = Ok m' ∧ m = set_signature m.(signature) m'.
Proof using jsl b64l.
  intros Hunf ([Hm _] & (d & Hs & Hd) & _)%update_verify_Ok.
  apply Hunf in Hd as [(c & m' & Hsign & Hx)|Hno]; [|by destruct (Hno _ eq_refl)].
  exists c, m'. split; [done|]. pose proof Hsign as [Hm' Heq]%update_sign_inv.
  apply update_message_inj in Hx; [|done|rewrite Heq; by apply manifest_ok_set_signature].
  destruct m, m'. unfold unsigned in Hx. simpl in *. unfold set_signature. simpl. injection Hx; intros; by subst.
Qed.
End update.

(** ** Witnesses *)
Module UpdateDemo.
Import SignatureDemo JsonDemo MachineDemo.
#[local] Existing Instances light_sha256 light_sha256_laws demo_ed25519 demo_ed25519_laws demo_base64
  demo_base64_laws demo_json_string demo_json_string_laws.

Definition demo_url : UrlParse := λ s,
  if s == "https://updates.kernaid.dev/7"%string
  then Some (mkUrl "https" (Some "updates.kernaid.dev"%string) "" None None) else None.
#[local] Existing Instance demo_url.

Definition demo_artifact : ArtifactDescriptor :=
  mkArtifact "https://updates.kernaid.dev/7" 4096 (hex_string (replicate 32 x02)).
Definition demo_content (n : N) : UpdateManifestContent :=
  mkContent n "release-7" "1.2.3" Rescue X86_64 ReleaseStable (mkRollout 10000 "seed") 10 20 40 demo_artifact false.
Definition demo_key : bytes := replicate 32 x01.
Definition demo_manifest (n : N) : SignedUpdateManifest := signed_manifest (demo_content n) demo_key.
Definition demo_verified (n : N) : VerifiedUpdate :=
  mkVerified (demo_manifest n) (sha256 (text (to_value (demo_manifest n)))).
Definition demo_context : UpdateContext := mkContext "KA-0123456789abcdef01234567" Rescue X86_64 StableRing 25.
Definition demo_evidence : CompletedArtifact := mkCompleted 4096 (replicate 32 x02).

Lemma demo_update_genuine n : validate_unsigned (unsigned_manifest (demo_content n)) = Ok tt → genuine (demo_verified n).
Proof.
  intros Hv. split; [|done]. split; [apply manifest_ok_set_signature; by apply update_validate_unsigned_Ok in Hv|].
  eexists. split; [done|]. apply ed_sign_length.
Qed.
Lemma demo_genuine_7 : genuine (demo_verified 7).
Proof. apply demo_update_genuine. vm_compute. reflexivity. Qed.
Lemma demo_genuine_8 : genuine (demo_verified 8).
Proof. apply demo_update_genuine. vm_compute. reflexivity. Qed.

Lemma demo_admissions : admissions (Some (from_verified (demo_verified 8))) [demo_verified 8; demo_verified 7].
Proof.
  assert (admissions (Some (from_verified (demo_verified 7))) [demo_verified 7]) as H7.
  { exact (admissions_step None [] (demo_verified 7) (mkOutcome (mkAdmitted (demo_verified 7) First) (from_verified (demo_verified 7)))
      admissions_start demo_genuine_7 eq_refl). }
  refine (admissions_step _ _ (demo_verified 8) (mkOutcome (mkAdmitted (demo_verified 8) Advanced) (from_verified (demo_verified 8)))
    H7 demo_genuine_8 _). vm_compute. reflexivity.
Qed.

Lemma update_admission_monotone_witness :
  admissions (Some (from_verified (demo_verified 8))) [demo_verified 8; demo_verified 7] ∧
  ∃ w, w ∈ [demo_verified 8; demo_verified 7] ∧ Some (from_verified (demo_verified 8)) = Some (from_verified w).
Proof.
  split; [apply demo_admissions|].
  destruct (proj2 (proj2 (update_admission_monotone _ _ demo_admissions))) as (w & Hw & Hc & _).
  - discriminate.
  - exists w. exact (conj Hw Hc).
Defined.

Lemma update_staging_exact_witness :
  reachable (new_state A) ∧ genuine (demo_verified 7) ∧
  plan_stage (new_state A) (mkAdmitted (demo_verified 7) First) demo_context demo_evidence 3 =
    Ok (plan_of (new_state A) (demo_verified 7) 3).
Proof.
  split; [apply reach_new|]. split; [apply demo_genuine_7|].
  apply (proj1 (update_staging_exact (new_state A) (mkAdmitted (demo_verified 7) First) demo_context demo_evidence 3
    (reach_new A) demo_genuine_7)).
  split; [reflexivity|]. split; [vm_compute; reflexivity|].
  split; [apply (bool_decide_unpack _); reflexivity|]. split; [|reflexivity].
  split; vm_compute; reflexivity.
Defined.

Lemma update_eligibility_witness :
  availability (demo_verified 7) demo_context = Eligible ∧
  ctx_platform demo_context = platform (manifest (demo_verified 7)).
Proof.
  assert (availability (demo_verified 7) demo_context = Eligible) as He by (vm_compute; reflexivity).
  split; [exact He|].
  exact (proj1 (proj2 (proj2 (update_eligibility (demo_verified 7) demo_context)) He)).
Defined.

(** Readers that know one document. *)
Definition demo_read_state : FromSlice UpdateState :=
  let t := text (to_value armed) in {|
  value_from_slice x := if x == t then Some (to_value armed) else None;
  from_slice x := if x == t then Some armed else None;
|}.
#[local] Existing Instance demo_read_state.
Lemma armed_reads_back : reads_back armed.
Proof. unfold reads_back. cbn [value_from_slice from_slice demo_read_state]. by rewrite !eq_refl_true. Qed.

Lemma update_state_persists_witness :
  reachable armed ∧ ∃ t, state_export_canonical armed = Ok t ∧ state_import_canonical t = Ok armed.
Proof.
  split; [apply armed_reachable|].
  destruct (update_state_persists armed armed_reachable) as (t & Hx & _ & Hi & _).
  exists t. split; [exact Hx|]. apply Hi. apply armed_reads_back.
Defined.

Definition demo_read : FromSlice SignedUpdateManifest :=
  let m := demo_manifest 7 in let t := text (to_value m) in {|
  value_from_slice x := if x == t then Some (to_value m) else None;
  from_slice x := if x == t then Some m else None;
|}.
#[local] Existing Instance demo_read.

Lemma update_manifest_exchange_witness :
  ∃ m t v, sign (demo_content 7) demo_key = Ok m ∧ export_canonical m = Ok t ∧ verify m (ed_public demo_key) = Ok v.
Proof.
  pose proof (update_manifest_exchange (demo_content 7) demo_key) as H.
  assert (validate_unsigned (unsigned_manifest (demo_content 7)) = Ok tt) as Hv by (vm_compute; reflexivity).
  rewrite Hv in H. destruct H as (m & t & v & Hs & Hx & _ & _ & Hver & _). eauto 6.
Defined.

(** A scheme in which only one manifest has a signature. *)
Definition honest : Ed25519 := {|
  ed_public k := ed_public (Ed25519 := demo_ed25519) k;
  ed_sign k m := ed_sign (Ed25519 := demo_ed25519) k m;
  ed_key_valid k := true;
  ed_verify p m s := m == update_message (demo_manifest 7);
|}.
Lemma update_honest_signs : ∀ x s, ed_verify (Ed25519 := honest) (ed_public (Ed25519 := honest) demo_key) x s = true →
  (∃ c m', sign (ed := honest) c demo_key = Ok m' ∧ x = update_message m') ∨ (∀ p, x ≠ UPDATE_SIGNATURE_DOMAIN ++ p).
Proof.
  intros m s Hm. apply bool_decide_eq_true in Hm as ->. left. exists (demo_content 7), (demo_manifest 7).
  split; [vm_compute; reflexivity|done].
Qed.

Lemma update_manifest_authentic_witness :
  ∃ c m', sign (ed := honest) c demo_key = Ok m' ∧ demo_manifest 7 = set_signature (demo_manifest 7).(signature) m'.
Proof.
  apply (update_manifest_authentic (ed := honest) demo_key (demo_manifest 7) (demo_verified 7) update_honest_signs).
  vm_compute. reflexivity.
Defined.
End UpdateDemo.
