(* ===== verification/Entitlements.v ===== *)
(** * Commercial entitlements (crates/entitlements)

    Signed licenses and signed revocation lists, each with the checkpoint that
    prevents rollback, and the capabilities a device derives from them. The file
    models the whole crate; the theorems are in [EntitlementsProperties]. *)

From Stdlib.Strings Require Import Byte.
From Stdlib Require String.
From S2P Require Import Prelude Bytes Crypto Signatures Ordered CanonicalJson.

Definition ENTITLEMENT_SCHEMA : string := "dev.kernaid.entitlement.v1".
Definition REVOCATIONS_SCHEMA : string := "dev.kernaid.entitlement-revocations.v1".
Definition ENTITLEMENT_DOMAIN : bytes := domain "KERNAID-ENTITLEMENT-V1".
Definition REVOCATIONS_DOMAIN : bytes := domain "KERNAID-ENTITLEMENT-REVOCATIONS-V1".
Definition MAX_DOCUMENT_BYTES : Z := 64 * 1024.
Definition MAX_SAFE_INTEGER : N := 9007199254740991.
Definition SIGNATURE_BYTES : Z := 64.

(** ** Data *)

(** [FleetPlan] and [EnterprisePlan] are [Plan::Fleet] and [Plan::Enterprise]. *)
Inductive Plan := Retail | Pro | FleetPlan | EnterprisePlan.
Inductive Feature := Audit | ConsumerRepair | EnterpriseProviders | EnterpriseRepair | Fleet | Policy | Updates.

#[export] Instance Feature_eq_dec : EqDecision Feature.
Proof. solve_decision. Defined.

(** The derived order on features is the order of their declaration. *)
Definition feature_rank (f : Feature) : nat :=
  match f with
  | Audit => 0 | ConsumerRepair => 1 | EnterpriseProviders => 2 | EnterpriseRepair => 3
  | Fleet => 4 | Policy => 5 | Updates => 6
  end.
Definition feature_cmp (a b : Feature) : comparison := Nat.compare (feature_rank a) (feature_rank b).
Definition feature_lt (a b : Feature) : bool := feature_rank a <? feature_rank b.

Record EntitlementLimits := mkLimits {
  max_tool_devices : N;
  max_technicians : N;
  max_managed_assets : N;
}.

Record EntitlementClaims := mkClaims {
  schema : string;
  entitlement_id : string;
  tenant_id : string;
  sequence : N;
  plan : Plan;
  features : list Feature;
  device_ids : list string;
  limits : EntitlementLimits;
  issued_at_unix : N;
  not_before_unix : N;
  offline_lease_until_unix : N;
  expires_at_unix : N;
  grace_until_unix : N;
}.
Record EntitlementEnvelope := mkEnvelope { claims : EntitlementClaims; signature : string }.

Record RevocationClaims := mkRevocations {
  r_schema : string;
  r_sequence : N;
  r_issued_at_unix : N;
  revoked_entitlement_ids : list string;
}.
Record RevocationEnvelope := mkRevocationEnvelope { r_claims : RevocationClaims; r_signature : string }.

Record EntitlementCheckpoint := mkCheckpoint {
  cp_entitlement_id : string;
  cp_tenant_id : string;
  cp_highest_sequence : N;
  cp_envelope_sha256 : string;
}.
Record RevocationCheckpoint := mkRevocationCheckpoint {
  rcp_highest_sequence : N;
  rcp_envelope_sha256 : string;
}.

Record VerifiedEntitlement := mkVerified {
  envelope : EntitlementEnvelope;
  envelope_sha256 : string;
  checkpoint : EntitlementCheckpoint;
}.
Record VerifiedRevocations := mkVerifiedRevocations {
  r_envelope : RevocationEnvelope;
  r_envelope_sha256 : string;
  r_checkpoint : RevocationCheckpoint;
}.

Inductive EntitlementState :=
| NotYetValid | Active | RefreshRequired | Grace | Expired | Revoked | DeviceNotAssigned.

#[export] Instance EntitlementState_eq_dec : EqDecision EntitlementState.
Proof. solve_decision. Defined.

Record LicensedCapabilities := mkCapabilities {
  state : EntitlementState;
  diagnostics : bool;
  report_export : bool;
  rollback : bool;
  consumer_repair : bool;
  enterprise_repair : bool;
  fleet_sync : bool;
  cached_policy : bool;
  audit_upload : bool;
  updates : bool;
  enterprise_providers : bool;
}.

Inductive EntitlementError :=
| DocumentTooLarge
| InvalidDocument
| NonCanonicalDocument
| InvalidClaims
| InvalidSignature
| WrongTrustAnchor
| RollbackDetected
| SequenceConflict
| CheckpointMismatch.

(** ** The derived serializations *)

Definition plan_name (p : Plan) : string :=
  match p with Retail => "retail" | Pro => "pro" | FleetPlan => "fleet" | EnterprisePlan => "enterprise" end.
Definition feature_name (f : Feature) : string :=
  match f with
  | Audit => "audit"
  | ConsumerRepair => "consumer_repair"
  | EnterpriseProviders => "enterprise_providers"
  | EnterpriseRepair => "enterprise_repair"
  | Fleet => "fleet"
  | Policy => "policy"
  | Updates => "updates"
  end.

#[export] Instance limits_to_value : ToValue EntitlementLimits := λ l,
  json_object (zip ["maxToolDevices"; "maxTechnicians"; "maxManagedAssets"]%string
    [json_u64 l.(max_tool_devices); json_u64 l.(max_technicians); json_u64 l.(max_managed_assets)]).

Definition claims_keys : list string :=
  ["schema"; "entitlementId"; "tenantId"; "sequence"; "plan"; "features"; "deviceIds"; "limits";
   "issuedAtUnix"; "notBeforeUnix"; "offlineLeaseUntilUnix"; "expiresAtUnix"; "graceUntilUnix"]%string.
#[export] Instance claims_to_value : ToValue EntitlementClaims := λ c,
  json_object (zip claims_keys
    [Str c.(schema); Str c.(entitlement_id); Str c.(tenant_id); json_u64 c.(sequence);
     Str (plan_name c.(plan)); Arr (map (λ f, Str (feature_name f)) c.(features));
     Arr (map Str c.(device_ids)); to_value c.(limits); json_u64 c.(issued_at_unix);
     json_u64 c.(not_before_unix); json_u64 c.(offline_lease_until_unix);
     json_u64 c.(expires_at_unix); json_u64 c.(grace_until_unix)]).
#[export] Instance envelope_to_value : ToValue EntitlementEnvelope := λ e,
  json_object (zip ["claims"; "signature"]%string [to_value e.(claims); Str e.(signature)]).

#[export] Instance revocations_to_value : ToValue RevocationClaims := λ c,
  json_object (zip ["schema"; "sequence"; "issuedAtUnix"; "revokedEntitlementIds"]%string
    [Str c.(r_schema); json_u64 c.(r_sequence); json_u64 c.(r_issued_at_unix);
     Arr (map Str c.(revoked_entitlement_ids))]).
#[export] Instance revocation_envelope_to_value : ToValue RevocationEnvelope := λ e,
  json_object (zip ["claims"; "signature"]%string [to_value e.(r_claims); Str e.(r_signature)]).

(** ** Canonical documents *)

Fixpoint validate_canonical_value (v : value) : result EntitlementError () :=
  match v with
  | Null | Bool _ | Str _ => Ok tt
  | Num number =>
      ok_or (integer ← as_u64 number;
             if (integer <=? MAX_SAFE_INTEGER)%N then Some tt else None) InvalidClaims
  | Arr items =>
      (fix all (l : list value) : result EntitlementError () :=
        match l with [] => Ok tt | x :: l => _ ← validate_canonical_value x; all l end) items
  | Obj fields =>
      (fix all (l : list (string * value)) : result EntitlementError () :=
        match l with [] => Ok tt | kv :: l => _ ← validate_canonical_value kv.2; all l end) fields
  end.

(** [serde_json::to_vec] on a [Value]. *)
Class JsonVec : Type := to_vec : value → option bytes.

(** Compact text: the entries of an object in the order of its map. *)
Class JsonVecLaws `{JsonString, !JsonVec} : Prop :=
  to_vec_text v : value_ok v → integral v → to_vec v = Some (text v).

Definition sha256_hex `{Sha256} (b : bytes) : string := hex_string (sha256 b).
Definition signature_message (dom canonical_claims : bytes) : bytes :=
  dom ++ to_be_bytes (blen canonical_claims) ++ canonical_claims.

Definition safe_positive (value : N) : bool := (0 <? value)%N && (value <=? MAX_SAFE_INTEGER)%N.
Definition safe_timestamp (value : N) : bool := (value <=? MAX_SAFE_INTEGER)%N.

Definition valid_id (value : string) : bool :=
  negb (is_empty value) && (len value <=? 128)%Z
  && all_bytes (λ b, is_ascii_alphanumeric b || bool_decide (b ∈ [x2e; x5f; x3a; x2d])) value.

Definition validate_entitlement_claims (c : EntitlementClaims) : result EntitlementError () :=
  reject ((c.(schema) != ENTITLEMENT_SCHEMA)
          || negb (valid_id c.(entitlement_id))
          || negb (valid_id c.(tenant_id))
          || negb (safe_positive c.(sequence))
          || (16 <? Z.of_nat (length c.(features)))%Z
          || (c.(device_ids) == [])
          || (4096 <? Z.of_nat (length c.(device_ids)))%Z
          || (c.(limits).(max_tool_devices) =? 0)%N
          || (c.(limits).(max_technicians) =? 0)%N
          || (c.(limits).(max_managed_assets) =? 0)%N
          || (Z.of_N c.(limits).(max_tool_devices) <? Z.of_nat (length c.(device_ids)))%Z
          || negb (strictly_sorted feature_lt c.(features))
          || negb (strictly_sorted str_lt c.(device_ids))
          || existsb (λ device, negb (valid_id device)) c.(device_ids)
          || negb (safe_timestamp c.(issued_at_unix))
          || negb (safe_timestamp c.(not_before_unix))
          || negb (safe_timestamp c.(offline_lease_until_unix))
          || negb (safe_timestamp c.(expires_at_unix))
          || negb (safe_timestamp c.(grace_until_unix))
          || (c.(not_before_unix) <? c.(issued_at_unix))%N
          || (c.(offline_lease_until_unix) <? c.(not_before_unix))%N
          || (c.(expires_at_unix) <? c.(offline_lease_until_unix))%N
          || (c.(grace_until_unix) <? c.(expires_at_unix))%N)
    with InvalidClaims;
  Ok tt.

Definition validate_revocation_claims (c : RevocationClaims) : result EntitlementError () :=
  reject ((c.(r_schema) != REVOCATIONS_SCHEMA)
          || negb (safe_positive c.(r_sequence))
          || negb (safe_timestamp c.(r_issued_at_unix))
          || (65536 <? Z.of_nat (length c.(revoked_entitlement_ids)))%Z
          || negb (strictly_sorted str_lt c.(revoked_entitlement_ids))
          || existsb (λ entitlement, negb (valid_id entitlement)) c.(revoked_entitlement_ids))
    with InvalidClaims;
  Ok tt.

(** ** Checkpoints *)

Definition next_entitlement_checkpoint (c : EntitlementClaims) (digest : string)
    (retained : option EntitlementCheckpoint) : result EntitlementError EntitlementCheckpoint :=
  _ ← match retained with
      | None => Ok tt
      | Some retained =>
          reject ((retained.(cp_entitlement_id) != c.(entitlement_id))
                  || (retained.(cp_tenant_id) != c.(tenant_id)))
            with CheckpointMismatch;
          reject (c.(sequence) <? retained.(cp_highest_sequence))%N with RollbackDetected;
          reject ((c.(sequence) =? retained.(cp_highest_sequence))%N
                  && (retained.(cp_envelope_sha256) != digest))
            with SequenceConflict;
          Ok tt
      end;
  Ok (mkCheckpoint c.(entitlement_id) c.(tenant_id) c.(sequence) digest).

Definition next_revocation_checkpoint (c : RevocationClaims) (digest : string)
    (retained : option RevocationCheckpoint) : result EntitlementError RevocationCheckpoint :=
  _ ← match retained with
      | None => Ok tt
      | Some retained =>
          reject (c.(r_sequence) <? retained.(rcp_highest_sequence))%N with RollbackDetected;
          reject ((c.(r_sequence) =? retained.(rcp_highest_sequence))%N
                  && (retained.(rcp_envelope_sha256) != digest))
            with SequenceConflict;
          Ok tt
      end;
  Ok (mkRevocationCheckpoint c.(r_sequence) digest).

(** ** Capabilities *)

Definition has_feature (c : EntitlementClaims) (feature : Feature) : bool :=
  binary_search_by (λ candidate, feature_cmp candidate feature) c.(features).

Definition capabilities (entitlement : VerifiedEntitlement) (revocations : option VerifiedRevocations)
    (device_id : string) (now_unix : N) : LicensedCapabilities :=
  let claims := entitlement.(envelope).(claims) in
  let revoked :=
    match revocations with
    | Some list => contains_sorted list.(r_envelope).(r_claims).(revoked_entitlement_ids) claims.(entitlement_id)
    | None => false
    end in
  let assigned := contains_sorted claims.(device_ids) device_id in
  let state :=
    if revoked then Revoked
    else if negb assigned then DeviceNotAssigned
    else if (now_unix <? claims.(not_before_unix))%N then NotYetValid
    else if (now_unix <=? claims.(offline_lease_until_unix))%N then Active
    else if (now_unix <=? claims.(expires_at_unix))%N then RefreshRequired
    else if (now_unix <=? claims.(grace_until_unix))%N then Grace
    else Expired in
  let repair_window := match state with Active | RefreshRequired | Grace => true | _ => false end in
  let active := state == Active in
  let policy_window := repair_window in
  mkCapabilities state true true true
    (repair_window && has_feature claims ConsumerRepair)
    (repair_window && has_feature claims EnterpriseRepair)
    (active && has_feature claims Fleet)
    (policy_window && has_feature claims Policy)
    (active && has_feature claims Audit)
    (active && has_feature claims Updates)
    (repair_window && has_feature claims EnterpriseProviders).

(** ** Signing and verification *)

Section entitlements.
Context `{sha : Sha256} `{ed : Ed25519} `{b64 : Base64Url} `{vec : JsonVec}.
Context `{read_entitlement : FromSlice EntitlementEnvelope} `{read_revocations : FromSlice RevocationEnvelope}.

Definition canonical_json {T} `{ToValue T} (t : T) : result EntitlementError bytes :=
  let value := to_value t in
  _ ← validate_canonical_value value;
  ok_or (to_vec value) InvalidDocument.

Definition parse_canonical {T} `{ToValue T} `{FromSlice T} (document : bytes) : result EntitlementError T :=
  reject (MAX_DOCUMENT_BYTES <? blen document)%Z with DocumentTooLarge;
  parsed ← ok_or (from_slice document) InvalidDocument;
  canonical ← canonical_json parsed;
  reject (canonical != document) with NonCanonicalDocument;
  Ok parsed.

Definition verify_signature {T} `{ToValue T} (dom : bytes) (claims : T) (encoded_signature : string)
    (trusted_public_key : bytes) : result EntitlementError () :=
  decoded ← ok_or (b64_decode encoded_signature) InvalidSignature;
  reject (blen decoded != SIGNATURE_BYTES) with InvalidSignature;
  reject (b64_encode decoded != encoded_signature) with InvalidSignature;
  reject (negb (ed_key_valid trusted_public_key)) with WrongTrustAnchor;
  claims_bytes ← canonical_json claims;
  reject (negb (ed_verify trusted_public_key (signature_message dom claims_bytes) decoded))
    with InvalidSignature;
  Ok tt.

Definition sign_entitlement (c : EntitlementClaims) (signing_key : bytes) : result EntitlementError bytes :=
  _ ← validate_entitlement_claims c;
  claims_bytes ← canonical_json c;
  let signature := ed_sign signing_key (signature_message ENTITLEMENT_DOMAIN claims_bytes) in
  canonical_json (mkEnvelope c (b64_encode signature)).

Definition verify_entitlement (document trusted_public_key : bytes) (checkpoint : option EntitlementCheckpoint) :
    result EntitlementError VerifiedEntitlement :=
  envelope ← parse_canonical document;
  _ ← validate_entitlement_claims envelope.(claims);
  _ ← verify_signature ENTITLEMENT_DOMAIN envelope.(claims) envelope.(signature) trusted_public_key;
  let digest := sha256_hex document in
  next ← next_entitlement_checkpoint envelope.(claims) digest checkpoint;
  Ok (mkVerified envelope digest next).

Definition sign_revocations (c : RevocationClaims) (signing_key : bytes) : result EntitlementError bytes :=
  _ ← validate_revocation_claims c;
  claims_bytes ← canonical_json c;
  let signature := ed_sign signing_key (signature_message REVOCATIONS_DOMAIN claims_bytes) in
  canonical_json (mkRevocationEnvelope c (b64_encode signature)).

Definition verify_revocations (document trusted_public_key : bytes) (checkpoint : option RevocationCheckpoint) :
    result EntitlementError VerifiedRevocations :=
  envelope ← parse_canonical document;
  _ ← validate_revocation_claims envelope.(r_claims);
  _ ← verify_signature REVOCATIONS_DOMAIN envelope.(r_claims) envelope.(r_signature) trusted_public_key;
  let digest := sha256_hex document in
  next ← next_revocation_checkpoint envelope.(r_claims) digest checkpoint;
  Ok (mkVerifiedRevocations envelope digest next).
End entitlements.
