(* ===== verification/EntitlementsProperties.v ===== *)
(** * What entitlements promise

    - licensing never disables diagnostics, report export and rollback; every
      other capability follows the license, its time windows and revocations;
    - a signed document verifies under the key of its signer, unless it is larger
      than verification accepts, which the limits on the lists do not exclude;
    - licenses and revocation lists never go back to an older document. *)

From Stdlib.Strings Require Import Byte.
From Stdlib Require String.
From Stdlib.Sorting Require Import Sorted.
From S2P Require Import Prelude Bytes Crypto Signatures Ordered CanonicalJson Documents Entitlements.

(** ** Serialization *)

#[export] Instance plan_name_inj : Inj (=) (=) plan_name.
Proof. by intros [] []. Qed.
#[export] Instance feature_name_inj : Inj (=) (=) feature_name.
Proof. by intros [] []. Qed.

#[export] Instance limits_value_ok : ToValueOk EntitlementLimits.
Proof.
  split.
  - intros l. object_ok.
  - intros l l' Heq. object_inj Heq. destruct l, l'. simpl in *. by simplify_eq.
Qed.
#[export] Instance claims_value_ok : ToValueOk EntitlementClaims.
Proof.
  split.
  - intros c. object_ok. apply to_value_ok.
  - intros c c' Heq. object_inj Heq. pose proof (to_value_inj c.(limits) c'.(limits)) as Hl. revert Heq Hl.
    generalize (to_value c.(limits)) as v, (to_value c'.(limits)) as v'. intros v v' Heq Hl.
    injection Heq as ? ? ? ? Hp Hf Hd ?%Hl ? ? ? ? ?. apply (inj plan_name) in Hp.
    apply (list_fmap_eq_inj (λ f, Str (feature_name f))) in Hf; [|intros f f' [= ?]; by apply (inj feature_name)].
    apply (list_fmap_eq_inj Str) in Hd; [|apply _]. destruct c, c'. simpl in *. by subst.
Qed.
#[export] Instance envelope_value_ok : ToValueOk EntitlementEnvelope.
Proof.
  split.
  - intros e. object_ok. apply to_value_ok.
  - intros e e' Heq. object_inj Heq. pose proof (to_value_inj e.(claims) e'.(claims)) as Hc. revert Heq Hc.
    generalize (to_value e.(claims)) as v, (to_value e'.(claims)) as v'. intros v v' Heq Hc.
    injection Heq as ?%Hc ?. destruct e, e'. simpl in *. by subst.
Qed.
#[export] Instance revocations_value_ok : ToValueOk RevocationClaims.
Proof.
  split.
  - intros c. object_ok.
  - intros c c' Heq. object_inj Heq. destruct c, c'. simpl in *. injection Heq as -> -> -> Hl.
    apply (list_fmap_eq_inj Str) in Hl; [|apply _]. by subst.
Qed.
#[export] Instance revocation_envelope_value_ok : ToValueOk RevocationEnvelope.
Proof.
  split.
  - intros e. object_ok. apply to_value_ok.
  - intros e e' Heq. object_inj Heq. pose proof (to_value_inj e.(r_claims) e'.(r_claims)) as Hc. revert Heq Hc.
    generalize (to_value e.(r_claims)) as v, (to_value e'.(r_claims)) as v'. intros v v' Heq Hc.
    injection Heq as ?%Hc ?. destruct e, e'. simpl in *. by subst.
Qed.

(** ** Canonical documents *)

(** The values the crate accepts have no floats and no negative integers. *)
Lemma validate_canonical_integral v : validate_canonical_value v = Ok tt → integral v.
Proof.
  induction v as [|b|n|s|l IH|l IH] using value_ind'; intros Hv; try done.
  - by destruct n.
  - apply integral_Arr. cbn [validate_canonical_value] in Hv. induction IH as [|x l Hx _ IHl]; [done|].
    apply result_bind_Ok in Hv as ([] & Hvx & Hv). constructor; auto.
  - apply integral_Obj. cbn [validate_canonical_value] in Hv. induction IH as [|x l Hx _ IHl]; [done|].
    apply result_bind_Ok in Hv as ([] & Hvx & Hv). constructor; auto.
Qed.

(** ** Capabilities *)

Lemma feature_rank_inj a b : feature_rank a = feature_rank b → a = b.
Proof. by destruct a, b. Qed.

Lemma has_feature_elem c f : strictly_sorted feature_lt c.(features) = true → has_feature c f = true ↔ f ∈ c.(features).
Proof.
  assert (∀ a b d, feature_lt a b = true → feature_lt b d = true → feature_lt a d = true) as Htrans
    by (unfold feature_lt; intros a b d; rewrite !Nat.ltb_lt; lia).
  intros Hs. unfold has_feature. rewrite binary_search_by_spec.
  - unfold feature_cmp. setoid_rewrite Nat.compare_eq_iff. split; [|by eauto].
    by intros (a & Ha & ->%feature_rank_inj).
  - intros i j a b Hij Ha Hb Hne.
    pose proof (strictly_sorted_lookup feature_lt Htrans _ _ _ _ _ Hs Hij Ha Hb) as Hab.
    unfold feature_lt in Hab. apply Nat.ltb_lt in Hab. unfold feature_cmp in *. apply Nat.compare_lt_iff.
    assert (feature_rank b ≤ feature_rank f) by by apply Nat.compare_le_iff. lia.
Qed.

(** The parts of valid claims that the capabilities rely on. *)
Lemma valid_claims_parts c :
  validate_entitlement_claims c = Ok tt →
  strictly_sorted feature_lt c.(features) = true ∧ strictly_sorted str_lt c.(device_ids) = true ∧
  (c.(not_before_unix) ≤ c.(offline_lease_until_unix) ≤ c.(expires_at_unix))%N ∧
  (c.(expires_at_unix) ≤ c.(grace_until_unix) ≤ MAX_SAFE_INTEGER)%N.
Proof.
  unfold validate_entitlement_claims, safe_timestamp. intros H. inv_ok H. n_guards. split_and!; done.
Qed.

Lemma valid_revocations_sorted c :
  validate_revocation_claims c = Ok tt → strictly_sorted str_lt c.(revoked_entitlement_ids) = true.
Proof. unfold validate_revocation_claims. intros H. inv_ok H. by n_guards. Qed.

(** The intended state of a license, with sets for the lists. *)
Definition license_state (c : EntitlementClaims) (revoked_ids : list string) (device : string) (now : N)
    (s : EntitlementState) : Prop :=
  match s with
  | Revoked => c.(entitlement_id) ∈ revoked_ids
  | DeviceNotAssigned => (c.(entitlement_id) ∉ revoked_ids) ∧ (device ∉ c.(device_ids))
  | _ =>
      (c.(entitlement_id) ∉ revoked_ids) ∧ device ∈ c.(device_ids) ∧
      match s with
      | NotYetValid => (now < c.(not_before_unix))%N
      | Active => (c.(not_before_unix) ≤ now ≤ c.(offline_lease_until_unix))%N
      | RefreshRequired => (c.(offline_lease_until_unix) < now ≤ c.(expires_at_unix))%N
      | Grace => (c.(expires_at_unix) < now ≤ c.(grace_until_unix))%N
      | _ => (c.(grace_until_unix) < now)%N
      end
  end.

Definition revoked_ids (r : option VerifiedRevocations) : list string :=
  match r with Some r => r.(r_envelope).(r_claims).(revoked_entitlement_ids) | None => [] end.

(** Licensing never takes the safe functions away: diagnostics, report export and rollback are on in
    every state; the state is the one that the revocation list, the assigned devices and the time
    windows of the license determine; and each paid capability is on exactly when the license lists
    its feature and the state allows it. *)
Theorem entitlement_capabilities_exact v r device now :
  validate_entitlement_claims v.(envelope).(claims) = Ok tt →
  (∀ l, r = Some l → validate_revocation_claims l.(r_envelope).(r_claims) = Ok tt) →
  let c := v.(envelope).(claims) in
  let cap := capabilities v r device now in
  cap.(diagnostics) = true ∧ cap.(report_export) = true ∧ cap.(rollback) = true ∧
  (∀ s, cap.(state) = s ↔ license_state c (revoked_ids r) device now s) ∧
  (cap.(consumer_repair) = true ↔ cap.(state) ∈ [Active; RefreshRequired; Grace] ∧ ConsumerRepair ∈ c.(features)) ∧
  (cap.(enterprise_repair) = true ↔ cap.(state) ∈ [Active; RefreshRequired; Grace] ∧ EnterpriseRepair ∈ c.(features)) ∧
  (cap.(cached_policy) = true ↔ cap.(state) ∈ [Active; RefreshRequired; Grace] ∧ Policy ∈ c.(features)) ∧
  (cap.(enterprise_providers) = true ↔ cap.(state) ∈ [Active; RefreshRequired; Grace] ∧ EnterpriseProviders ∈ c.(features)) ∧
  (cap.(fleet_sync) = true ↔ cap.(state) = Active ∧ Fleet ∈ c.(features)) ∧
  (cap.(audit_upload) = true ↔ cap.(state) = Active ∧ Audit ∈ c.(features)) ∧
  (cap.(updates) = true ↔ cap.(state) = Active ∧ Updates ∈ c.(features)).
Proof.
  intros Hc Hr c cap. destruct (valid_claims_parts _ Hc) as (Hf & Hd & Hw1 & Hw2). fold c in Hf, Hd, Hw1, Hw2.
  assert (∀ s, (match s with Active | RefreshRequired | Grace => true | _ => false end) = true ↔
    s ∈ [Active; RefreshRequired; Grace]) as Hwin by (intros []; split; try done; set_solver).
  split_and!; [done..| | | | | | | |]; try (unfold cap, capabilities;
    cbn [consumer_repair enterprise_repair fleet_sync cached_policy audit_upload updates enterprise_providers state];
    rewrite andb_true_iff, ?Hwin, ?bool_decide_eq_true, has_feature_elem by done; done).
  assert (∀ s s', license_state c (revoked_ids r) device now s → license_state c (revoked_ids r) device now s' → s = s') as Huniq.
  { intros [] []; cbn; try done; intros; destruct_and?; try done; lia. }
  assert (license_state c (revoked_ids r) device now cap.(state)) as Hst; [|naive_solver].
  unfold cap, capabilities. cbn [state]. fold c.
  assert ((match r with Some l => contains_sorted l.(r_envelope).(r_claims).(revoked_entitlement_ids) c.(entitlement_id)
    | None => false end) = bool_decide (c.(entitlement_id) ∈ revoked_ids r)) as ->.
  { destruct r as [l|]; [|done]. apply contains_sorted_spec. by apply valid_revocations_sorted, Hr. }
  rewrite contains_sorted_spec by done. case_bool_decide; [done|]. case_bool_decide; [|done]. cbn [negb].
  destruct (N.ltb_spec now (not_before_unix c)); [done|]. destruct (N.leb_spec now (offline_lease_until_unix c)); [done|].
  destruct (N.leb_spec now (expires_at_unix c)); [done|]. by destruct (N.leb_spec now (grace_until_unix c)).
Qed.

(** ** Documents *)

Section documents.
Context `{sha : Sha256} `{ed : Ed25519} `{b64 : Base64Url} `{js : JsonString} `{vec : !JsonVec}.
Context `{read_entitlement : FromSlice EntitlementEnvelope} `{read_revocations : FromSlice RevocationEnvelope}.
Context `{shal : !Sha256Laws} `{edl : !Ed25519Laws} `{b64l : !Base64UrlLaws} `{jsl : !JsonStringLaws}.
Context `{vecl : !JsonVecLaws}.

Lemma canonical_Ok {T} `{ToValueOk T} (t : T) b :
  canonical_json t = Ok b ↔ validate_canonical_value (to_value t) = Ok tt ∧ b = text (to_value t).
Proof using vecl.
  unfold canonical_json. destruct (validate_canonical_value (to_value t)) as [[]|] eqn:Hv; cbn [mbind result_bind]; [|naive_solver].
  rewrite to_vec_text; [|apply to_value_ok|by apply validate_canonical_integral]. simpl. naive_solver.
Qed.

Lemma canonical_inj {T} `{ToValueOk T} (t t' : T) b : canonical_json t = Ok b → canonical_json t' = Ok b → t = t'.
Proof using vecl jsl.
  intros [Hv ->]%canonical_Ok [Hv' Heq]%canonical_Ok. apply to_value_inj. apply (f_equal (.++ [])) in Heq.
  apply text_inj in Heq as [-> _]; try done; try apply to_value_ok; by apply validate_canonical_integral.
Qed.

Lemma parse_canonical_Ok {T} `{ToValueOk T} `{FromSlice T} document (t : T) :
  parse_canonical document = Ok t → canonical_json t = Ok document ∧ (blen document ≤ MAX_DOCUMENT_BYTES)%Z.
Proof. unfold parse_canonical. intros Hp. inv_ok Hp. guards. subst. split; [done|]. apply Z.ltb_ge. done. Qed.

Lemma parse_canonical_exact {T} `{ToValueOk T} `{FromSlice T} (t : T) document :
  from_slice document = Some t → canonical_json t = Ok document → (blen document ≤ MAX_DOCUMENT_BYTES)%Z →
  parse_canonical document = Ok t.
Proof.
  intros Hr Hc Hl. unfold parse_canonical. rewrite (proj2 (Z.ltb_ge _ _)) by done.
  rewrite Hr. cbn [ok_or mbind result_bind]. rewrite Hc. cbn [mbind result_bind]. by rewrite ne_refl_false.
Qed.

(** Verification of a signature over claims. *)
Lemma verify_signature_Ok {T} `{ToValueOk T} dom (c : T) s pk u :
  verify_signature dom c s pk = Ok u ↔
    ed_key_valid pk = true ∧ ∃ d b, s = b64_encode d ∧ length d = 64 ∧ canonical_json c = Ok b ∧
      ed_verify pk (signature_message dom b) d = true.
Proof using b64l.
  destruct u. unfold verify_signature, SIGNATURE_BYTES. split.
  - intros Hv. inv_ok Hv. guards. split; [done|]. eexists _, _. split_and!; try done. unfold blen in *. lia.
  - intros (Hk & d & b & -> & Hd & Hb & Hv). rewrite b64_decode_encode. cbn [ok_or mbind result_bind].
    unfold blen. rewrite Hd, !ne_refl_false, Hk, Hb. cbn [negb mbind result_bind]. by rewrite Hv.
Qed.

Lemma signature_valid dom {T} `{ToValueOk T} (c : T) key b :
  canonical_json c = Ok b →
  verify_signature dom c (b64_encode (ed_sign key (signature_message dom b))) (ed_public key) = Ok tt.
Proof using b64l edl.
  intros Hb. apply verify_signature_Ok. split; [apply ed_public_valid|]. eexists _, b.
  split_and!; [done|apply ed_sign_length|done|apply ed_sign_verify].
Qed.

(** A license or a revocation list that is signed verifies under the key of its signer, as a first
    document, and gives back its claims with the digest of the document, provided that the document
    is within the size that verification accepts. *)
Theorem entitlement_sign_verify key :
  (∀ c doc, sign_entitlement c key = Ok doc → (blen doc ≤ MAX_DOCUMENT_BYTES)%Z →
     (∀ e : EntitlementEnvelope, canonical_json e = Ok doc → from_slice doc = Some e) →
     ∃ v, verify_entitlement doc (ed_public key) None = Ok v ∧ v.(envelope).(claims) = c ∧
       v.(checkpoint) = mkCheckpoint c.(entitlement_id) c.(tenant_id) c.(sequence) (sha256_hex doc)) ∧
  (∀ c doc, sign_revocations c key = Ok doc → (blen doc ≤ MAX_DOCUMENT_BYTES)%Z →
     (∀ e : RevocationEnvelope, canonical_json e = Ok doc → from_slice doc = Some e) →
     ∃ v, verify_revocations doc (ed_public key) None = Ok v ∧ v.(r_envelope).(r_claims) = c ∧
       v.(r_checkpoint) = mkRevocationCheckpoint c.(r_sequence) (sha256_hex doc)).
Proof using b64l edl.
  split; intros c doc Hs Hl Hr.
  - unfold sign_entitlement in Hs. apply result_bind_Ok in Hs as ([] & Hv & Hs).
    apply result_bind_Ok in Hs as (b & Hb & Hs). unfold verify_entitlement.
    rewrite (parse_canonical_exact _ doc (Hr _ Hs) Hs Hl). cbn [mbind result_bind claims signature].
    rewrite Hv. cbn [mbind result_bind]. rewrite (signature_valid _ c key b Hb). by eexists.
  - unfold sign_revocations in Hs. apply result_bind_Ok in Hs as ([] & Hv & Hs).
    apply result_bind_Ok in Hs as (b & Hb & Hs). unfold verify_revocations.
    rewrite (parse_canonical_exact _ doc (Hr _ Hs) Hs Hl). cbn [mbind result_bind r_claims r_signature].
    rewrite Hv. cbn [mbind result_bind]. rewrite (signature_valid _ c key b Hb). by eexists.
Qed.

(** ** Checkpoints *)

(** Licenses and lists that a caller verified in sequence, each against the
    checkpoint of the one before, the latest first. *)
Inductive licenses (pk : bytes) : option EntitlementCheckpoint → list (bytes * VerifiedEntitlement) → Prop :=
| licenses_start : licenses pk None []
| licenses_step c log doc v :
    licenses pk c log → verify_entitlement doc pk c = Ok v → licenses pk (Some v.(checkpoint)) ((doc, v) :: log).
Inductive lists (pk : bytes) : option RevocationCheckpoint → list (bytes * VerifiedRevocations) → Prop :=
| lists_start : lists pk None []
| lists_step c log doc v :
    lists pk c log → verify_revocations doc pk c = Ok v → lists pk (Some v.(r_checkpoint)) ((doc, v) :: log).

Definition license_number (q : bytes * VerifiedEntitlement) : N := q.2.(envelope).(claims).(sequence).
Definition list_number (q : bytes * VerifiedRevocations) : N := q.2.(r_envelope).(r_claims).(r_sequence).

Lemma verify_entitlement_parts doc pk c v :
  verify_entitlement doc pk c = Ok v →
  next_entitlement_checkpoint v.(envelope).(claims) (sha256_hex doc) c = Ok v.(checkpoint) ∧
  canonical_json v.(envelope) = Ok doc.
Proof using vecl.
  unfold verify_entitlement. intros Hv. inv_ok Hv. apply parse_canonical_Ok in Hcall as [Hc _]. done.
Qed.
Lemma verify_revocations_parts doc pk c v :
  verify_revocations doc pk c = Ok v →
  next_revocation_checkpoint v.(r_envelope).(r_claims) (sha256_hex doc) c = Ok v.(r_checkpoint) ∧
  canonical_json v.(r_envelope) = Ok doc.
Proof using vecl.
  unfold verify_revocations. intros Hv. inv_ok Hv. apply parse_canonical_Ok in Hcall as [Hc _]. done.
Qed.

Lemma licenses_newest pk c log :
  licenses pk c log →
  (c = None ∧ log = []) ∨
  ∃ w, c = Some (mkCheckpoint w.2.(envelope).(claims).(entitlement_id) w.2.(envelope).(claims).(tenant_id)
                   (license_number w) (sha256_hex w.1)) ∧
    newest license_number (λ q, sha256_hex q.1) log w ∧
    Forall (λ q, q.2.(envelope).(claims).(entitlement_id) = w.2.(envelope).(claims).(entitlement_id) ∧
      q.2.(envelope).(claims).(tenant_id) = w.2.(envelope).(claims).(tenant_id)) log.
Proof using vecl.
  induction 1 as [|c log doc v Hl IH Hv]; [by left|]. right.
  apply verify_entitlement_parts in Hv as [Hn _]. unfold next_entitlement_checkpoint in Hn.
  destruct IH as [[-> ->]|(w & -> & Hw & Hst)].
  - apply Ok_inj_1 in Hn as <-. exists (doc, v). split; [done|]. split; [apply newest_first|by repeat constructor].
  - inv_ok Hn. rewrite <-Hn. inv_ok Hcall. guards. simpl in *. apply N.ltb_ge in Hguard0.
    unfold license_number in *. destruct (N.eqb_spec (sequence (claims (envelope v))) (sequence (claims (envelope w.2)))) as [Heq|Hne].
    + simpl in Hguard1. guards. exists (doc, v). simpl. split; [done|]. split.
      * pose proof (newest_replay _ _ log w (doc, v) Hw Heq (eq_sym Hguard1)) as [Hm Hh Hs Hu].
        split; [by left| |done|done]. intros q Hq. simpl. rewrite Heq. by apply Hh.
      * constructor; [done|]. eapply Forall_impl; [exact Hst|]. intros q [? ?]. split; congruence.
    + exists (doc, v). split; [done|]. split; [eapply newest_advance; [exact Hw|]; simpl; lia|].
      constructor; [done|]. eapply Forall_impl; [exact Hst|]. intros q [? ?]. simpl. split; congruence.
Qed.

Lemma lists_newest pk c log :
  lists pk c log →
  (c = None ∧ log = []) ∨
  ∃ w, c = Some (mkRevocationCheckpoint (list_number w) (sha256_hex w.1)) ∧
    newest list_number (λ q, sha256_hex q.1) log w.
Proof using vecl.
  induction 1 as [|c log doc v Hl IH Hv]; [by left|]. right.
  apply verify_revocations_parts in Hv as [Hn _]. unfold next_revocation_checkpoint in Hn.
  destruct IH as [[-> ->]|(w & -> & Hw)].
  - apply Ok_inj_1 in Hn as <-. exists (doc, v). split; [done|apply newest_first].
  - inv_ok Hn. rewrite <-Hn. inv_ok Hcall. guards. simpl in *. apply N.ltb_ge in Hguard.
    unfold list_number in *. destruct (N.eqb_spec (r_sequence (r_claims (r_envelope v))) (r_sequence (r_claims (r_envelope w.2)))) as [Heq|Hne].
    + simpl in Hguard0. guards. exists (doc, v). simpl. split; [done|].
      pose proof (newest_replay _ _ log w (doc, v) Hw Heq (eq_sym Hguard0)) as [Hm Hh Hs Hu].
      split; [by left| |done|done]. intros q Hq. simpl. rewrite Heq. by apply Hh.
    + exists (doc, v). split; [done|]. eapply newest_advance; [exact Hw|]; simpl; lia.
Qed.

Lemma same_document {T} `{ToValueOk T} (t t' : T) doc doc' :
  canonical_json t = Ok doc → canonical_json t' = Ok doc' → sha256_hex doc = sha256_hex doc' →
  (doc = doc' ∧ t = t') ∨ collision doc doc'.
Proof using vecl jsl.
  intros Hc Hc' Hd. unfold sha256_hex in Hd. apply (inj hex_string) in Hd.
  destruct (decide (doc = doc')) as [<-|]; [left|right; by split]. split; [done|]. by eapply canonical_inj.
Qed.

Lemma licenses_canonical pk c log q : licenses pk c log → q ∈ log → canonical_json q.2.(envelope) = Ok q.1.
Proof using vecl.
  induction 1 as [|c log doc v _ IH Hv]; [by inversion 1|]. intros [->|Hq]%elem_of_cons; [|by apply IH].
  by apply verify_entitlement_parts in Hv as [_ Hv].
Qed.
Lemma lists_canonical pk c log q : lists pk c log → q ∈ log → canonical_json q.2.(r_envelope) = Ok q.1.
Proof using vecl.
  induction 1 as [|c log doc v _ IH Hv]; [by inversion 1|]. intros [->|Hq]%elem_of_cons; [|by apply IH].
  by apply verify_revocations_parts in Hv as [_ Hv].
Qed.

(** Licenses and revocation lists never go back: along any verified documents, each against the
    retained checkpoint, the sequence numbers never decrease, two documents with one number are the
    same bytes with the same content or collide under SHA-256, all licenses are of one entitlement
    and tenant, and an authentic license of it or an authentic list with a lower number is refused. *)
Theorem entitlement_checkpoints_monotone pk :
  (∀ c log, licenses pk c log →
     StronglySorted (λ q q', (license_number q' ≤ license_number q)%N) log ∧
     (∀ q q', q ∈ log → q' ∈ log → license_number q = license_number q' →
        (q.1 = q'.1 ∧ q.2.(envelope) = q'.2.(envelope)) ∨ collision q.1 q'.1) ∧
     (∀ q q', q ∈ log → q' ∈ log →
        q.2.(envelope).(claims).(entitlement_id) = q'.2.(envelope).(claims).(entitlement_id) ∧
        q.2.(envelope).(claims).(tenant_id) = q'.2.(envelope).(claims).(tenant_id)) ∧
     (∀ doc v w, verify_entitlement doc pk None = Ok v → w ∈ log →
        v.(envelope).(claims).(entitlement_id) = w.2.(envelope).(claims).(entitlement_id) →
        v.(envelope).(claims).(tenant_id) = w.2.(envelope).(claims).(tenant_id) →
        (license_number (doc, v) < license_number w)%N → verify_entitlement doc pk c = Err RollbackDetected)) ∧
  (∀ c log, lists pk c log →
     StronglySorted (λ q q', (list_number q' ≤ list_number q)%N) log ∧
     (∀ q q', q ∈ log → q' ∈ log → list_number q = list_number q' →
        (q.1 = q'.1 ∧ q.2.(r_envelope) = q'.2.(r_envelope)) ∨ collision q.1 q'.1) ∧
     (∀ doc v w, verify_revocations doc pk None = Ok v → w ∈ log →
        (list_number (doc, v) < list_number w)%N → verify_revocations doc pk c = Err RollbackDetected)).
Proof using vecl jsl.
  split; intros c log Hl.
  - destruct (licenses_newest _ _ _ Hl) as [[-> ->]|(n & -> & Hn & Hst)].
    { split_and!; [constructor|by inversion 1|by inversion 1|by inversion 2]. }
    split_and!; [apply Hn|..].
    + intros q q' Hq Hq' Heq. eapply same_document; [by eapply licenses_canonical..|]. by eapply Hn.
    + intros q q' Hq Hq'. rewrite Forall_forall in Hst.
      destruct (Hst q Hq) as [-> ->], (Hst q' Hq') as [-> ->]. done.
    + intros doc v w Hv Hw Hid Hten Hlt. unfold verify_entitlement in *.
      apply result_bind_Ok in Hv as (e & -> & Hv). apply result_bind_Ok in Hv as ([] & Hval & Hv).
      apply result_bind_Ok in Hv as ([] & Hsig & Hv). cbn [mbind result_bind]. rewrite Hval. cbn [mbind result_bind].
      rewrite Hsig. cbn [mbind result_bind]. apply Ok_inj_1 in Hv as <-. unfold license_number in *. simpl in *.
      unfold next_entitlement_checkpoint. cbn [cp_entitlement_id cp_tenant_id cp_highest_sequence].
      rewrite Forall_forall in Hst. destruct (Hst w Hw) as [Hi Ht]. rewrite Hid, Hten, <-Hi, <-Ht, !ne_refl_false.
      pose proof (newest_highest _ _ _ _ Hn w Hw). cbn [orb]. by rewrite (proj2 (N.ltb_lt _ _)) by (simpl in *; lia).
  - destruct (lists_newest _ _ _ Hl) as [[-> ->]|(n & -> & Hn)].
    { split_and!; [constructor|by inversion 1|by inversion 2]. }
    split_and!; [apply Hn|..].
    + intros q q' Hq Hq' Heq. eapply same_document; [by eapply lists_canonical..|]. by eapply Hn.
    + intros doc v w Hv Hw Hlt. unfold verify_revocations in *.
      apply result_bind_Ok in Hv as (e & -> & Hv). apply result_bind_Ok in Hv as ([] & Hval & Hv).
      apply result_bind_Ok in Hv as ([] & Hsig & Hv). cbn [mbind result_bind]. rewrite Hval. cbn [mbind result_bind].
      rewrite Hsig. cbn [mbind result_bind]. apply Ok_inj_1 in Hv as <-. unfold list_number in *. simpl in *.
      unfold next_revocation_checkpoint. cbn [rcp_highest_sequence].
      pose proof (newest_highest _ _ _ _ Hn w Hw). by rewrite (proj2 (N.ltb_lt _ _)) by (simpl in *; lia).
Qed.

(** ** The size limit *)

Lemma blen_ge_0 (a : bytes) : (0 ≤ blen a)%Z.
Proof. unfold blen. lia. Qed.

Lemma items_text_lower first items : (foldr (λ x n, blen x + n)%Z 0%Z items ≤ blen (items_text first items))%Z.
Proof.
  revert first. induction items as [|x items IH]; intros first; [done|]. cbn [foldr items_text].
  specialize (IH false). rewrite !blen_app. pose proof (blen_ge_0 (separator first)). lia.
Qed.

(** A member of an object or an array is part of its text. *)
Lemma foldr_lower (l : list bytes) x : x ∈ l → (blen x ≤ foldr (λ x n, blen x + n)%Z 0%Z l)%Z.
Proof.
  assert (∀ l : list bytes, (0 ≤ foldr (λ x n, blen x + n)%Z 0%Z l)%Z) as Hpos
    by (induction l0 as [|y l0 IH]; [done|]; cbn [foldr]; pose proof (blen_ge_0 y); lia).
  induction 1 as [x l|x y l _ IH]; cbn [foldr]; [pose proof (Hpos l)|pose proof (blen_ge_0 y)]; lia.
Qed.

Lemma object_text_lower (keys : list string) (vs : list value) k v :
  NoDup keys → length vs = length keys → map_get k (zip keys vs) = Some v →
  (blen (text v) ≤ blen (text (json_object (zip keys vs))))%Z.
Proof.
  intros Hn Hl Hg. assert (NoDup (map fst (zip keys vs))) as Hn' by (by rewrite fst_zip by lia).
  pose proof (json_object_get (zip keys vs) [] k Hn') as Hj. rewrite Hg in Hj. unfold json_object.
  revert Hj. generalize (fold_left (λ m kv, map_insert kv.1 kv.2 m) (zip keys vs) []) as l. intros l Hj.
  assert ((k, v) ∈ l) as Hin.
  { clear -Hj. induction l as [|[k' v'] l IH]; [done|]. simpl in Hj. case_bool_decide; [simplify_eq; by left|]. right. auto. }
  cbn [text]. rewrite !blen_app.
  pose proof (items_text_lower true (map (λ kv, literal kv.1 ++ [x3a] ++ text kv.2) l)) as Hi.
  pose proof (foldr_lower (map (λ kv, literal kv.1 ++ [x3a] ++ text kv.2) l) (literal k ++ [x3a] ++ text v)) as Hf.
  specialize (Hf ltac:(apply (list_elem_of_fmap_2 (λ kv, literal kv.1 ++ [x3a] ++ text kv.2) l (k, v) Hin))).
  rewrite !blen_app in Hf. pose proof (blen_ge_0 (literal k)). change (blen [x7b]) with 1%Z.
  change (blen [x7d]) with 1%Z. change (blen [x3a]) with 1%Z in Hf. lia.
Qed.

Lemma strings_text_lower l n :
  Forall (λ s, all_bytes plain s = true ∧ len s = n) l → (Z.of_nat (length l) * (n + 2) ≤ blen (text (Arr (map Str l))))%Z.
Proof using jsl.
  intros Hl. cbn [text]. rewrite !blen_app. change (blen [x5b]) with 1%Z. change (blen [x5d]) with 1%Z.
  pose proof (items_text_lower true (map text (map Str l))) as Hi.
  assert (foldr (λ x n, blen x + n)%Z 0%Z (map text (map Str l)) = Z.of_nat (length l) * (n + 2))%Z as He.
  { clear Hi. induction Hl as [|s l [Hp Hs] _ IH]; [done|]. cbn [map foldr length]. rewrite IH.
    change (text (Str s)) with (literal s). rewrite literal_plain by done. lia. }
  lia.
Qed.

Lemma validate_envelope v s :
  validate_canonical_value v = Ok tt →
  validate_canonical_value (json_object (zip ["claims"; "signature"]%string [v; Str s])) = Ok tt.
Proof.
  intros Hv. change (json_object (zip ["claims"; "signature"]%string [v; Str s]))
    with (Obj [("claims"%string, v); ("signature"%string, Str s)]).
  cbn [validate_canonical_value snd]. by rewrite Hv.
Qed.

(** A list of devices that does not fit makes a license that does not verify. *)
Lemma oversized_license c n key :
  validate_entitlement_claims c = Ok tt → validate_canonical_value (to_value c) = Ok tt →
  Forall (λ s, all_bytes plain s = true ∧ len s = n) c.(device_ids) →
  (MAX_DOCUMENT_BYTES < Z.of_nat (length c.(device_ids)) * (n + 2))%Z →
  ∃ doc, sign_entitlement c key = Ok doc ∧ ∀ pk cp, verify_entitlement doc pk cp = Err DocumentTooLarge.
Proof using vecl jsl.
  intros Hv Hc Hf Hn.
  set (sig := b64_encode (ed_sign key (signature_message ENTITLEMENT_DOMAIN (text (to_value c))))).
  exists (text (to_value (mkEnvelope c sig))). split.
  - unfold sign_entitlement. rewrite Hv. cbn [mbind result_bind].
    rewrite (proj2 (canonical_Ok c _) (conj Hc eq_refl)). cbn [mbind result_bind]. fold sig.
    apply canonical_Ok. split; [|done]. by apply validate_envelope.
  - intros pk cp. unfold verify_entitlement, parse_canonical.
    assert (MAX_DOCUMENT_BYTES < blen (text (to_value (mkEnvelope c sig))))%Z as Hl; [|by rewrite (proj2 (Z.ltb_lt _ _))].
    pose proof (strings_text_lower _ _ Hf) as H1.
    assert (blen (text (Arr (map Str c.(device_ids)))) ≤ blen (text (to_value c)))%Z as H2.
    { apply (object_text_lower claims_keys _ "deviceIds"); [by apply (bool_decide_unpack _)|done|done]. }
    assert (blen (text (to_value c)) ≤ blen (text (to_value (mkEnvelope c sig))))%Z as H3.
    { apply (object_text_lower ["claims"; "signature"]%string _ "claims"); [by apply (bool_decide_unpack _)|done|done]. }
    lia.
Qed.

(** A license for many devices, each with an identifier of the form devices have. *)
Definition fleet_devices : list string :=
  map (λ i, "KA-" +:+ hex_string (be_bytes 12 (Z.of_nat i))) (seq 0 2300).
Definition fleet_claims : EntitlementClaims :=
  mkClaims ENTITLEMENT_SCHEMA "fleet-license" "tenant-1" 1 FleetPlan [Fleet] fleet_devices
    (mkLimits 4096 1 1) 1 1 2 3 4.

Definition device_form (s : string) : bool := all_bytes plain s && (len s =? 27)%Z.
Lemma fleet_devices_form : forallb device_form fleet_devices && (length fleet_devices =? 2300) = true.
Proof. vm_compute. reflexivity. Qed.
Lemma fleet_claims_valid : validate_entitlement_claims fleet_claims = Ok tt.
Proof. vm_compute. reflexivity. Qed.
Lemma fleet_claims_canonical : validate_canonical_value (to_value fleet_claims) = Ok tt.
Proof. vm_compute. reflexivity. Qed.

(** C40. The limits on the lists do not imply the limit on the document: a license for 2300 devices,
    which its claims may list, is signed under any key, and its document is larger than verification
    accepts under any key and checkpoint. *)
Theorem entitlement_signs_unverifiable_license :
  validate_entitlement_claims fleet_claims = Ok tt ∧
  ∀ key, ∃ doc, sign_entitlement fleet_claims key = Ok doc ∧
    ∀ pk c, verify_entitlement doc pk c = Err DocumentTooLarge.
Proof using vecl jsl.
  split; [apply fleet_claims_valid|]. intros key.
  pose proof fleet_devices_form as [Hf Hl]%andb_true_iff. apply Nat.eqb_eq in Hl.
  apply (oversized_license fleet_claims 27); [apply fleet_claims_valid|apply fleet_claims_canonical|..].
  - apply Forall_forall. intros s Hs. apply (proj1 (forallb_forall _ _)) with (x := s) in Hf; [|by apply list_elem_of_In].
    apply andb_true_iff in Hf as [Hp Hn]. split; [done|]. by apply Z.eqb_eq.
  - change (device_ids fleet_claims) with fleet_devices. rewrite Hl. done.
Qed.
End documents.

(** ** Witnesses *)
Module EntitlementDemo.
Import SignatureDemo JsonDemo.
#[local] Existing Instances light_sha256 demo_ed25519 demo_ed25519_laws demo_base64
  demo_base64_laws demo_json_string demo_json_string_laws.

Definition demo_vec : JsonVec := λ v, Some (text v).
#[local] Existing Instance demo_vec.
Lemma demo_vec_laws : JsonVecLaws.
Proof. intros v _ _. reflexivity. Qed.
#[local] Existing Instance demo_vec_laws.

Definition demo_claims (n : N) : EntitlementClaims :=
  mkClaims ENTITLEMENT_SCHEMA "license-1" "tenant-1" n Pro [ConsumerRepair; Updates]
    ["KA-0123456789abcdef01234567"%string] (mkLimits 5 1 1) 10 20 30 40 50.
Definition demo_revocations : RevocationClaims := mkRevocations REVOCATIONS_SCHEMA 1 10 ["license-2"%string].
Definition demo_key : bytes := replicate 32 x01.

Definition demo_envelope (n : N) : EntitlementEnvelope :=
  mkEnvelope (demo_claims n)
    (b64_encode (ed_sign demo_key (signature_message ENTITLEMENT_DOMAIN (text (to_value (demo_claims n)))))).
Definition demo_document (n : N) : bytes := text (to_value (demo_envelope n)).
Definition demo_list : RevocationEnvelope :=
  mkRevocationEnvelope demo_revocations
    (b64_encode (ed_sign demo_key (signature_message REVOCATIONS_DOMAIN (text (to_value demo_revocations))))).

(** Readers that know two licenses and one list. *)
Definition demo_read : FromSlice EntitlementEnvelope := {|
  value_from_slice b := None;
  from_slice b :=
    if b == demo_document 1 then Some (demo_envelope 1)
    else if b == demo_document 2 then Some (demo_envelope 2) else None;
|}.
Definition demo_read_list : FromSlice RevocationEnvelope := {|
  value_from_slice b := None;
  from_slice b := if b == text (to_value demo_list) then Some demo_list else None;
|}.
#[local] Existing Instances demo_read demo_read_list.

Definition demo_checkpoint (n : N) : EntitlementCheckpoint :=
  mkCheckpoint "license-1" "tenant-1" n (sha256_hex (demo_document n)).
Definition demo_license (n : N) : VerifiedEntitlement :=
  mkVerified (demo_envelope n) (sha256_hex (demo_document n)) (demo_checkpoint n).
Definition demo_verified_list : VerifiedRevocations :=
  mkVerifiedRevocations demo_list (sha256_hex (text (to_value demo_list)))
    (mkRevocationCheckpoint 1 (sha256_hex (text (to_value demo_list)))).

Lemma entitlement_capabilities_exact_witness :
  license_state (demo_claims 1) ["license-2"%string] "KA-0123456789abcdef01234567" 35 RefreshRequired ∧
  (capabilities (demo_license 1) (Some demo_verified_list) "KA-0123456789abcdef01234567" 35).(rollback) = true.
Proof.
  assert (validate_entitlement_claims (demo_claims 1) = Ok tt) as Hc by (vm_compute; reflexivity).
  assert (∀ l, Some demo_verified_list = Some l → validate_revocation_claims l.(r_envelope).(r_claims) = Ok tt) as Hr
    by (intros l [= <-]; vm_compute; reflexivity).
  destruct (entitlement_capabilities_exact (demo_license 1) (Some demo_verified_list)
    "KA-0123456789abcdef01234567" 35 Hc Hr) as (_ & _ & Hrb & Hst & _).
  split; [|exact Hrb]. apply Hst. vm_compute. reflexivity.
Defined.

Lemma demo_license_reads_back (e : EntitlementEnvelope) :
  canonical_json e = Ok (demo_document 1) → from_slice (demo_document 1) = Some e.
Proof.
  intros He. cbn [from_slice demo_read]. rewrite eq_refl_true. f_equal. symmetry.
  apply (canonical_inj e (demo_envelope 1) (demo_document 1) He). vm_compute. reflexivity.
Qed.

Lemma entitlement_sign_verify_witness :
  sign_entitlement (demo_claims 1) demo_key = Ok (demo_document 1) ∧
  ∃ v, verify_entitlement (demo_document 1) (ed_public demo_key) None = Ok v ∧ v.(envelope).(claims) = demo_claims 1.
Proof.
  assert (sign_entitlement (demo_claims 1) demo_key = Ok (demo_document 1)) as Hs by (vm_compute; reflexivity).
  split; [exact Hs|].
  destruct (proj1 (entitlement_sign_verify demo_key) (demo_claims 1) (demo_document 1) Hs
    ltac:(apply (bool_decide_unpack _); vm_compute; exact I) demo_license_reads_back) as (v & Hv & Hc & _).
  exists v. exact (conj Hv Hc).
Defined.

Lemma demo_licenses :
  licenses (ed_public demo_key) (Some (demo_checkpoint 2))
    [(demo_document 2, demo_license 2); (demo_document 1, demo_license 1)].
Proof.
  apply (licenses_step _ (Some (demo_checkpoint 1)) _ (demo_document 2) (demo_license 2)).
  - apply (licenses_step _ None [] (demo_document 1) (demo_license 1)); [constructor|]. vm_compute. reflexivity.
  - vm_compute. reflexivity.
Qed.

Lemma entitlement_checkpoints_monotone_witness :
  licenses (ed_public demo_key) (Some (demo_checkpoint 2))
    [(demo_document 2, demo_license 2); (demo_document 1, demo_license 1)] ∧
  verify_entitlement (demo_document 1) (ed_public demo_key) (Some (demo_checkpoint 2)) = Err RollbackDetected.
Proof.
  split; [exact demo_licenses|].
  destruct (proj1 (entitlement_checkpoints_monotone (ed_public demo_key)) _ _ demo_licenses) as (_ & _ & _ & Hr).
  apply (Hr (demo_document 1) (demo_license 1) (demo_document 2, demo_license 2)).
  - vm_compute. reflexivity.
  - apply list_elem_of_here.
  - vm_compute. reflexivity.
  - vm_compute. reflexivity.
  - vm_compute. reflexivity.
Defined.

Lemma entitlement_signs_unverifiable_license_witness :
  ∃ doc, sign_entitlement fleet_claims demo_key = Ok doc ∧
    verify_entitlement doc (ed_public demo_key) None = Err DocumentTooLarge.
Proof.
  destruct (proj2 entitlement_signs_unverifiable_license demo_key) as (doc & Hs & Hv).
  exists doc. exact (conj Hs (Hv (ed_public demo_key) None)).
Defined.
End EntitlementDemo.
