(* ===== verification/VaultWire.v ===== *)
(** * Values of the Rescue vault protocol (crates/protocol/src/rescue_vault.rs)

    The closed vocabulary that requests, responses and repair records share:
    violations and error tokens, descriptor declarations, and the identifiers
    and digests that exist only in their wire form. A Rust newtype with a private
    field and a checking constructor is a text with the proof that the check
    accepts it ([checked]), so that a value of the type is a value that [parse]
    or [Deserialize] accepted. *)

From Stdlib.Strings Require Import Byte.
From Stdlib Require String Ascii.
From S2P Require Import Prelude Bytes Crypto.

(** ** Violations and error tokens *)

Inductive ProtocolViolation :=
| EmptyDatagram | DatagramTooLarge | InvalidJson | UnsupportedVersion | InvalidRequestId
| InvalidPayload | InvalidAllowlist | InvalidTransport | NotAuthorized | FdRequired
| FdForbidden | InvalidDescriptor.

Inductive ErrorToken :=
| TokenAbsent | TokenUnprovisioned | TokenLocked | TokenBadPassphrase | TokenMediaChanged
| TokenProfileMismatch | TokenStaleState | TokenFdRequired | TokenFdForbidden
| TokenNotAuthorized | TokenRateLimited | TokenBusy | TokenProviderUnconfigured
| TokenReportTooLarge | TokenIoFailed | TokenRebootRequired.

#[export] Instance ProtocolViolation_eq_dec : EqDecision ProtocolViolation.
Proof. solve_decision. Defined.
#[export] Instance ErrorToken_eq_dec : EqDecision ErrorToken.
Proof. solve_decision. Defined.

Definition error_token (v : ProtocolViolation) : option ErrorToken :=
  match v with
  | NotAuthorized => Some TokenNotAuthorized
  | FdRequired | InvalidDescriptor => Some TokenFdRequired
  | FdForbidden => Some TokenFdForbidden
  | EmptyDatagram | DatagramTooLarge | InvalidJson | UnsupportedVersion | InvalidRequestId
  | InvalidPayload | InvalidAllowlist | InvalidTransport => None
  end.

(** ** Descriptor declarations *)

Inductive DescriptorType :=
| PassphrasePipe | OpenAiApiKeyPipe | CodexHomeOPath | CodexMountNamespace | CodexMountRoot
| SessionReportJsonPipe | SignedReportEnvelopePipe | FleetEnrollmentInputPipe
| FleetWorkOrderClaimInputPipe | FleetWorkOrderResultInputPipe | RepairBackupInputPipe
| RepairBackupOutputPipe.

#[export] Instance DescriptorType_eq_dec : EqDecision DescriptorType.
Proof. solve_decision. Defined.

Record DescriptorDeclaration := mkDeclaration { kind : DescriptorType; size : Z }.

#[export] Instance DescriptorDeclaration_eq_dec : EqDecision DescriptorDeclaration.
Proof. solve_decision. Defined.

Definition validate_declaration (declaration : DescriptorDeclaration) (expected_kind : DescriptorType)
    (minimum_size maximum_size : Z) : result ProtocolViolation () :=
  reject ((declaration.(kind) != expected_kind)
          || (declaration.(size) <? minimum_size)%Z
          || (maximum_size <? declaration.(size))%Z) with InvalidPayload;
  Ok tt.

(** [(lo..=hi).contains(&n)]. *)
Definition contains (lo hi n : Z) : bool := (lo <=? n)%Z && (n <=? hi)%Z.

(** ** Checked texts *)

Record checked (p : string → bool) : Type := Checked { as_str : string; as_str_ok : Is_true (p as_str) }.
Arguments Checked {p} as_str as_str_ok.
Arguments as_str {p} c.
Arguments as_str_ok {p} c.

Lemma checked_eq {p} (a b : checked p) : a.(as_str) = b.(as_str) → a = b.
Proof.
  destruct a as [s Hs], b as [t Ht]. simpl. intros <-. f_equal. apply proof_irrel.
Qed.

#[export] Instance as_str_inj {p} : Inj (=) (=) (@as_str p).
Proof. intros a b. apply checked_eq. Qed.

#[export] Instance checked_eq_dec {p} : EqDecision (checked p).
Proof.
  intros a b. destruct (decide (a.(as_str) = b.(as_str))) as [H|H]; [left; by apply checked_eq|right].
  intros ->. done.
Defined.

(** The constructors: a text that passes the check, or an error. *)
Definition check {E} (p : string → bool) (e : E) (s : string) : result E (checked p) :=
  (if p s as b return (p s = b → _)
   then λ H, Ok (Checked s (Is_true_true_2 _ H))
   else λ _, Err e) eq_refl.

Lemma check_Ok {E} p (e : E) s c : check p e s = Ok c ↔ c.(as_str) = s.
Proof.
  unfold check. destruct c as [t Ht]. simpl.
  assert (∀ b (H : p s = b),
    (if b as b return (p s = b → result E (checked p))
     then λ H, Ok (Checked s (Is_true_true_2 _ H)) else λ _, Err e) H = Ok (Checked t Ht) ↔ t = s) as Hc.
  { intros [] H; split.
    - by intros [= ->].
    - intros ->. f_equal. by apply checked_eq.
    - done.
    - intros ->. pose proof (Is_true_true_1 _ Ht). congruence. }
  apply Hc.
Qed.

Lemma check_Err {E} p (e e' : E) s : check p e s = Err e' ↔ e' = e ∧ p s = false.
Proof.
  destruct (p s) eqn:Hp.
  - destruct (check p e s) as [c|err] eqn:Hc; [naive_solver|].
    assert (check p e s = Ok (Checked s (Is_true_true_2 _ Hp))) as H by by apply check_Ok. congruence.
  - destruct (check p e s) as [c|err] eqn:Hc.
    + apply check_Ok in Hc as <-. pose proof c.(as_str_ok) as H. by rewrite Hp in H.
    + enough (err = e) as -> by naive_solver. revert Hc. unfold check. generalize (eq_refl (p s)).
      assert (∀ b (H : p s = b),
        (if b as b return (p s = b → result E (checked p))
         then λ H, Ok (Checked s (Is_true_true_2 _ H)) else λ _, Err e) H = Err err → err = e) as Hc
        by (intros [] H; naive_solver).
      intros H. apply Hc.
Qed.

(** ** Identifiers *)

Definition is_lower_hex (b : byte) : bool := is_ascii_digit b || is_lower_a_f b.

Definition canonical_uuid (value : bytes) : bool :=
  (length value == 36)
  && forallb (λ '(index, byte),
       if bool_decide (index ∈ [8; 13; 18; 23]) then byte == x2d else is_lower_hex byte)
       (imap pair value).

Definition request_id_text (value : string) : bool :=
  negb ((len value != 38%Z) || negb (bool_decide (is_Some (strip_prefix "R-" value)))
        || negb (canonical_uuid (drop 2 (as_bytes value)))).
Definition report_id_text (value : string) : bool :=
  negb ((len value != 39%Z) || negb (bool_decide (is_Some (strip_prefix "RP-" value)))
        || negb (canonical_uuid (drop 3 (as_bytes value)))).
Definition sha256_chars (value : string) : bool :=
  negb ((len value != 64%Z) || negb (all_bytes is_lower_hex value)).

Definition RequestId : Type := checked request_id_text.
Definition ReportId : Type := checked report_id_text.
(** [rescue_vault::Sha256], a digest in its text form. *)
Definition Sha256Text : Type := checked sha256_chars.

Definition parse_request_id : string → result ProtocolViolation RequestId := check _ InvalidRequestId.
Definition report_id_parse : string → result ProtocolViolation ReportId := check _ InvalidPayload.
Definition sha256_parse : string → result ProtocolViolation Sha256Text := check _ InvalidPayload.

#[export] Instance RequestId_eq_dec : EqDecision RequestId := checked_eq_dec.
#[export] Instance ReportId_eq_dec : EqDecision ReportId := checked_eq_dec.
#[export] Instance Sha256Text_eq_dec : EqDecision Sha256Text := checked_eq_dec.

(** The last case is [unreachable!]: the text of a digest has no other bytes. *)
Definition hex_nibble (b : byte) : Z :=
  if is_ascii_digit b then byte_val b - 48
  else if is_lower_a_f b then byte_val b - 97 + 10
  else 0.

Fixpoint pairs_bytes (l : bytes) : bytes :=
  match l with
  | high :: low :: rest =>
      byte_of_Z (Z.lor (Z.shiftl (hex_nibble high) 4) (hex_nibble low)) :: pairs_bytes rest
  | _ => []
  end.

Definition sha_bytes (s : Sha256Text) : bytes := pairs_bytes (as_bytes s.(as_str)).

Definition zero_digest : Sha256Text :=
  Checked (p := sha256_chars)
    "0000000000000000000000000000000000000000000000000000000000000000" I.

(** [Sha256::parse(&encode_hex(digest)).expect(..)]. The value for a text that
    does not parse stands for the panic; [digest_text_parses] shows that a
    digest of 32 bytes parses. *)
Definition sha256_expect (digest : bytes) : Sha256Text :=
  match sha256_parse (hex_string digest) with Ok s => s | Err _ => zero_digest end.

(** ** Digests as bytes *)

Lemma pairs_bytes_hex d : pairs_bytes (as_bytes (hex_string d)) = d.
Proof.
  induction d as [|b d IH]; [done|]. cbn [hex_string]. rewrite !as_bytes_cons. cbn [pairs_bytes].
  rewrite IH. f_equal. by destruct b.
Qed.

Lemma lower_hex_digit b : is_lower_hex b = true →
  (0 ≤ hex_nibble b < 16)%Z ∧ Ascii.byte_of_ascii (hex_digit (hex_nibble b)) = b.
Proof. destruct b; intros H; try discriminate H; by split. Qed.

Lemma lower_hex_pairs n l :
  length l = 2 * n → forallb is_lower_hex l = true → ∃ d, l = as_bytes (hex_string d) ∧ length d = n.
Proof.
  revert l. induction n as [|n IH]; intros l Hn Hf; [destruct l; [|done]; by exists []|].
  destruct l as [|a [|b l]]; [done|simpl in Hn; lia|]. simpl in Hn. cbn [forallb] in Hf. guards.
  destruct (IH l) as (d & -> & Hd); [lia|done|].
  destruct (lower_hex_digit a) as [Hx Ha]; [done|]. destruct (lower_hex_digit b) as [Hy Hb]; [done|].
  exists (byte_of_Z (hex_nibble a * 16 + hex_nibble b) :: d). split; [|simpl; lia].
  cbn [hex_string]. rewrite !as_bytes_cons, byte_val_of_Z.
  rewrite (Z.mod_small (hex_nibble a * 16 + hex_nibble b)) by lia.
  rewrite Z.div_add_l, Z.div_small, Z.add_0_r by lia.
  rewrite (Z.add_comm (_ * 16)), Z.mod_add, Z.mod_small by lia. by rewrite Ha, Hb.
Qed.

(** A digest text is the text of exactly one string of 32 bytes. *)
Lemma sha_text_digest (s : Sha256Text) : s.(as_str) = hex_string (sha_bytes s) ∧ length (sha_bytes s) = 32.
Proof.
  destruct s as [t Ht]. unfold sha_bytes. simpl. apply Is_true_true_1 in Ht. unfold sha256_chars in Ht.
  guards. unfold len in *. destruct (lower_hex_pairs 32 (as_bytes t)) as (d & Heq & Hd);
    [rewrite length_as_bytes; lia|done|].
  apply (inj as_bytes) in Heq as ->. by rewrite pairs_bytes_hex.
Qed.

Lemma length_sha_bytes s : length (sha_bytes s) = 32.
Proof. apply sha_text_digest. Qed.

#[export] Instance sha_bytes_inj : Inj (=) (=) sha_bytes.
Proof.
  intros s t Heq. apply checked_eq. destruct (sha_text_digest s) as [-> _], (sha_text_digest t) as [-> _].
  by rewrite Heq.
Qed.

Lemma hex_string_chars d : length d = 32 → sha256_chars (hex_string d) = true.
Proof.
  intros Hd. unfold sha256_chars, len. rewrite length_hex_string, Hd. rewrite (bool_decide_false (_ ≠ _)) by (by intros []).
  pose proof (hex_string_class d) as Hc. change (λ b, _) with is_lower_hex in Hc. by rewrite Hc.
Qed.

(** The [expect] of a computed digest never fails. *)
Lemma digest_text_parses d : length d = 32 → sha256_parse (hex_string d) = Ok (sha256_expect d).
Proof.
  intros Hd. unfold sha256_expect. destruct (sha256_parse _) as [s|e] eqn:Hp; [done|].
  apply check_Err in Hp as [_ Hp]. by rewrite hex_string_chars in Hp.
Qed.

Lemma sha256_expect_bytes d : length d = 32 → sha_bytes (sha256_expect d) = d.
Proof.
  intros Hd. pose proof (digest_text_parses d Hd) as Hp. apply check_Ok in Hp.
  unfold sha_bytes. rewrite Hp. apply pairs_bytes_hex.
Qed.

Section digests.
Context `{sha : Sha256} `{shal : !Sha256Laws}.

(** The wire digest of a hashed message. *)
Definition digest_of (message : bytes) : Sha256Text := sha256_expect (sha256 message).

Lemma digest_of_inj m m' : digest_of m = digest_of m' → m = m' ∨ collision m m'.
Proof using shal.
  intros Heq. apply (f_equal sha_bytes) in Heq. unfold digest_of in Heq.
  rewrite !sha256_expect_bytes in Heq by apply length_sha256.
  destruct (decide (m = m')); [by left|by right].
Qed.
End digests.

(** ** Checks *)

Lemma validate_declaration_Ok d k lo hi u :
  validate_declaration d k lo hi = Ok u ↔ d.(kind) = k ∧ (lo ≤ d.(size) ≤ hi)%Z.
Proof.
  unfold validate_declaration. destruct u. rewrite reject_Ok, !orb_false_iff, !Z.ltb_ge.
  split; [intros [? _]; guards; naive_solver|]. intros (-> & ? & ?). rewrite ne_refl_false. naive_solver.
Qed.

Lemma contains_spec lo hi n : contains lo hi n = true ↔ (lo ≤ n ≤ hi)%Z.
Proof. unfold contains. rewrite andb_true_iff, !Z.leb_le. done. Qed.
