(* ===== verification/RepairVault.v ===== *)
(** * Records of the repair store (crates/protocol/src/rescue_repair_vault.rs)

    The path-free values in which the vault, the broker and the target helper
    talk about one repair: drafts and reservations of a backup, the approved
    execution intent, the durable transaction with its resolution, the child
    rollback transaction, and the receipts of consumed write leases. Each
    record carries a digest over everything before it; the preimages are
    definitions of their own. *)

From Stdlib.Strings Require Import Byte.
From Stdlib Require String Ascii.
From S2P Require Import Prelude Bytes Text Crypto VaultWire.

(** ** Constants *)

Definition MAX_REPAIR_BACKUP_BYTES : Z := 16 * 1024 * 1024.
Definition MAX_REPAIR_RESERVED_BYTES : Z := 16 * 1024 * 1024.
Definition REPAIR_BACKUP_LOCATOR_PREFIX : string := "vault://repair/".
Definition REPAIR_EXECUTION_ACTION_ID : string := "linux.fstab.disable-missing-uuid.v1".
Definition REPAIR_EXECUTION_RESOURCE_ID : string := "rescue:selected-linux-root:etc/fstab".
Definition REPAIR_WRITE_LEASE_CAPABILITY : string := "fstab-direct-leaf-rw-v1".
Definition REPAIR_ROLLBACK_ACTION_ID : string := "linux.fstab.restore".
Definition REPAIR_ROLLBACK_WRITE_LEASE_CAPABILITY : string := "fstab-rollback-direct-leaf-rw-v1".
Definition CRYPTTAB_REPAIR_EXECUTION_ACTION_ID : string := "linux.crypttab.disable-missing-uuid.v1".
Definition CRYPTTAB_REPAIR_EXECUTION_RESOURCE_ID : string := "rescue:selected-linux-root:etc/crypttab".
Definition CRYPTTAB_REPAIR_WRITE_LEASE_CAPABILITY : string := "crypttab-direct-leaf-rw-v1".
Definition CRYPTTAB_REPAIR_ROLLBACK_ACTION_ID : string := "linux.crypttab.disable-missing-source.v1".
Definition CRYPTTAB_REPAIR_ROLLBACK_WRITE_LEASE_CAPABILITY : string :=
  "crypttab-rollback-direct-leaf-rw-v1".
Definition EXT4_REPAIR_EXECUTION_ACTION_ID : string := "linux.ext4.fsck-preen-with-undo.v1".
Definition EXT4_REPAIR_EXECUTION_RESOURCE_ID : string := "rescue:selected-linux-filesystem:ext4".
Definition EXT4_REPAIR_WRITE_LEASE_CAPABILITY : string := "ext4-block-rw-v1".
Definition EXT4_REPAIR_ROLLBACK_ACTION_ID : string := "linux.ext4.fsck-undo.same-boot.v1".
Definition EXT4_REPAIR_ROLLBACK_WRITE_LEASE_CAPABILITY : string := "ext4-block-rollback-rw-v1".
Definition RESOLVER_LINK_REPAIR_EXECUTION_ACTION_ID : string := "linux.network.restore-resolver-link.v1".
Definition RESOLVER_LINK_REPAIR_EXECUTION_RESOURCE_ID : string :=
  "rescue:selected-linux-root:etc/resolver-link".
Definition RESOLVER_LINK_REPAIR_WRITE_LEASE_CAPABILITY : string := "resolver-link-direct-leaf-rw-v1".
Definition RESOLVER_LINK_REPAIR_ROLLBACK_ACTION_ID : string :=
  "linux.network.restore-resolver-link-state.v1".
Definition RESOLVER_LINK_REPAIR_ROLLBACK_WRITE_LEASE_CAPABILITY : string :=
  "resolver-link-rollback-direct-leaf-rw-v1".

Definition MAX_OPAQUE_ID_BYTES : Z := 128.
Definition RESERVATION_BINDING_DOMAIN : bytes := domain "KERNAID-REPAIR-RESERVATION-V1".
Definition FILE_METADATA_DOMAIN : bytes := domain "KERNAID-REPAIR-FILE-METADATA-V1".
Definition EXECUTION_INTENT_BINDING_DOMAIN : bytes := domain "KERNAID-REPAIR-EXECUTION-INTENT-V1".
Definition TRANSACTION_BINDING_DOMAIN : bytes := domain "KERNAID-REPAIR-TRANSACTION-V1".
Definition WRITE_LEASE_BINDING_DOMAIN : bytes := domain "KERNAID-REPAIR-WRITE-LEASE-V1".
Definition ROLLBACK_TRANSACTION_BINDING_DOMAIN : bytes := domain "KERNAID-REPAIR-ROLLBACK-TRANSACTION-V1".
Definition ROLLBACK_WRITE_LEASE_BINDING_DOMAIN : bytes := domain "KERNAID-REPAIR-ROLLBACK-WRITE-LEASE-V1".
Definition LOCK_ID_DOMAIN : bytes := domain "kernaid:rescue-fstab:target-lock:v2".
Definition CRYPTTAB_LOCK_ID_DOMAIN : bytes := domain "kernaid:rescue-crypttab:target-lock:v1".
Definition EXT4_LOCK_ID_DOMAIN : bytes := domain "kernaid:rescue-ext4-fsck:target-lock:v1".
Definition RESOLVER_LINK_LOCK_ID_DOMAIN : bytes := domain "kernaid:rescue-resolver-link:target-lock:v1".
Definition MAX_PERMISSION_MODE : Z := 4095.
Definition MAX_SAFE_JSON_INTEGER : Z := 9007199254740991.

(** ** Identifiers *)

Definition valid_prefixed_id (value prefix : string) : bool :=
  (len value <=? MAX_OPAQUE_ID_BYTES)%Z
  && match strip_prefix prefix value with
     | Some suffix => negb (is_empty suffix) && all_bytes (λ b, is_ascii_alphanumeric b || (b == x2d)) suffix
     | None => false
     end.

Definition valid_opaque_id (value : string) : bool :=
  negb (is_empty value) && (len value <=? MAX_OPAQUE_ID_BYTES)%Z && negb (dot_dot (as_bytes value))
  && all_bytes (λ b, is_ascii_alphanumeric b || bool_decide (b ∈ [x2d; x5f; x3a; x2e])) value.

(** [strip_prefix(prefix).is_some_and(|suffix| suffix.len() == n && all(is_lower_hex))]. *)
Definition hex_id (n : Z) (prefix value : string) : bool :=
  match strip_prefix prefix value with
  | Some suffix => (len suffix == n) && all_bytes is_lower_hex suffix
  | None => false
  end.

Definition valid_digest_id (value prefix : string) : bool := hex_id 64 prefix value.
Definition valid_vault_id (value : string) : bool := hex_id 32 "V-" value.

Definition RepairReservationId : Type := checked (hex_id 32 "B-").
Definition RepairRollbackId : Type := checked (hex_id 32 "RB-").
#[export] Instance RepairReservationId_eq_dec : EqDecision RepairReservationId := checked_eq_dec.
#[export] Instance RepairRollbackId_eq_dec : EqDecision RepairRollbackId := checked_eq_dec.

Definition reservation_id_parse : string → result ProtocolViolation RepairReservationId :=
  check _ InvalidPayload.
Definition rollback_id_parse : string → result ProtocolViolation RepairRollbackId :=
  check _ InvalidPayload.
Definition reservation_locator (id : RepairReservationId) : string :=
  REPAIR_BACKUP_LOCATOR_PREFIX +:+ id.(as_str).

(** ** Resources *)

Inductive RepairResourceV1 := Fstab | Crypttab | Ext4Filesystem | ResolverLink.

#[export] Instance RepairResourceV1_eq_dec : EqDecision RepairResourceV1.
Proof. solve_decision. Defined.

Definition resource_action_id (r : RepairResourceV1) : string :=
  match r with
  | Fstab => REPAIR_EXECUTION_ACTION_ID
  | Crypttab => CRYPTTAB_REPAIR_EXECUTION_ACTION_ID
  | Ext4Filesystem => EXT4_REPAIR_EXECUTION_ACTION_ID
  | ResolverLink => RESOLVER_LINK_REPAIR_EXECUTION_ACTION_ID
  end.
Definition resource_resource_id (r : RepairResourceV1) : string :=
  match r with
  | Fstab => REPAIR_EXECUTION_RESOURCE_ID
  | Crypttab => CRYPTTAB_REPAIR_EXECUTION_RESOURCE_ID
  | Ext4Filesystem => EXT4_REPAIR_EXECUTION_RESOURCE_ID
  | ResolverLink => RESOLVER_LINK_REPAIR_EXECUTION_RESOURCE_ID
  end.
Definition write_lease_capability (r : RepairResourceV1) : string :=
  match r with
  | Fstab => REPAIR_WRITE_LEASE_CAPABILITY
  | Crypttab => CRYPTTAB_REPAIR_WRITE_LEASE_CAPABILITY
  | Ext4Filesystem => EXT4_REPAIR_WRITE_LEASE_CAPABILITY
  | ResolverLink => RESOLVER_LINK_REPAIR_WRITE_LEASE_CAPABILITY
  end.
Definition rollback_action_id (r : RepairResourceV1) : string :=
  match r with
  | Fstab => REPAIR_ROLLBACK_ACTION_ID
  | Crypttab => CRYPTTAB_REPAIR_ROLLBACK_ACTION_ID
  | Ext4Filesystem => EXT4_REPAIR_ROLLBACK_ACTION_ID
  | ResolverLink => RESOLVER_LINK_REPAIR_ROLLBACK_ACTION_ID
  end.
Definition rollback_write_lease_capability (r : RepairResourceV1) : string :=
  match r with
  | Fstab => REPAIR_ROLLBACK_WRITE_LEASE_CAPABILITY
  | Crypttab => CRYPTTAB_REPAIR_ROLLBACK_WRITE_LEASE_CAPABILITY
  | Ext4Filesystem => EXT4_REPAIR_ROLLBACK_WRITE_LEASE_CAPABILITY
  | ResolverLink => RESOLVER_LINK_REPAIR_ROLLBACK_WRITE_LEASE_CAPABILITY
  end.
Definition lock_domain (r : RepairResourceV1) : bytes :=
  match r with
  | Fstab => LOCK_ID_DOMAIN
  | Crypttab => CRYPTTAB_LOCK_ID_DOMAIN
  | Ext4Filesystem => EXT4_LOCK_ID_DOMAIN
  | ResolverLink => RESOLVER_LINK_LOCK_ID_DOMAIN
  end.

Definition from_resource_id (value : string) : result ProtocolViolation RepairResourceV1 :=
  if value == REPAIR_EXECUTION_RESOURCE_ID then Ok Fstab
  else if value == CRYPTTAB_REPAIR_EXECUTION_RESOURCE_ID then Ok Crypttab
  else if value == EXT4_REPAIR_EXECUTION_RESOURCE_ID then Ok Ext4Filesystem
  else if value == RESOLVER_LINK_REPAIR_EXECUTION_RESOURCE_ID then Ok ResolverLink
  else Err InvalidPayload.

Definition from_execution (action_id resource_id : string) : result ProtocolViolation RepairResourceV1 :=
  resource ← from_resource_id resource_id;
  reject (action_id != resource_action_id resource) with InvalidPayload;
  Ok resource.

Definition valid_resource_id (value : string) : bool := is_ok (from_resource_id value).

(** ** Records *)

Inductive RepairMetadataAbsence := AbsenceNone.

Record RepairFileMetadataV1 := mkMetadata {
  mode : Z;
  meta_uid : Z;
  meta_gid : Z;
  xattrs : RepairMetadataAbsence;
  posix_acl : RepairMetadataAbsence;
}.

Record RepairBackupDraft := mkDraft {
  draft_session_id : string;
  draft_target_id : string;
  draft_target_fingerprint : Sha256Text;
  draft_target_recovery_fingerprint : string;
  draft_expected_backup_sha256 : Sha256Text;
  draft_metadata_sha256 : Sha256Text;
  draft_backup_size : Z;
  required_capacity_bytes : Z;
}.

Record RepairExecutionIntentV1 := mkIntent {
  action_id : string;
  session_id : string;
  approval_sequence : Z;
  target_id : string;
  scan_fingerprint : string;
  target_fingerprint : Sha256Text;
  target_physical_parent_fingerprint : Sha256Text;
  target_recovery_fingerprint : string;
  lock_identity : string;
  before_sha256 : Sha256Text;
  after_sha256 : Sha256Text;
  diff_sha256 : Sha256Text;
  observed_uuid_set_sha256 : Sha256Text;
  before_metadata : RepairFileMetadataV1;
}.

Record RepairBackupBinding := mkBackupBinding {
  binding_plan_id : string;
  binding_plan_sha256 : Sha256Text;
  binding_approval_id : string;
  binding_approval_sha256 : Sha256Text;
  binding_resource_id : string;
  binding_resource_sha256 : Sha256Text;
  binding_execution_intent : RepairExecutionIntentV1;
}.

Inductive RepairBackupState := Reserved | Durable.

Record RepairVaultLiveIdentityPayload := mkLiveIdentity {
  live_vault_id : string;
  live_vault_identity_fingerprint : Sha256Text;
  live_physical_parent_fingerprint : Sha256Text;
}.

Record RepairBackupStatusPayload := mkBackup {
  backup_state : RepairBackupState;
  reservation_id : RepairReservationId;
  draft_binding_sha256 : Sha256Text;
  locator : string;
  vault_id : string;
  vault_identity_fingerprint : Sha256Text;
  physical_parent_fingerprint : Sha256Text;
  reserved_bytes : Z;
  backup_size : Z;
  expected_backup_sha256 : Sha256Text;
  metadata_sha256 : Sha256Text;
  plan_id : option string;
  plan_sha256 : option Sha256Text;
  approval_id : option string;
  approval_sha256 : option Sha256Text;
  resource_id : option string;
  resource_sha256 : option Sha256Text;
  execution_intent : option RepairExecutionIntentV1;
}.

Record RepairBackupReleasePayload := mkRelease {
  release_reservation_id : RepairReservationId;
  release_draft_binding_sha256 : Sha256Text;
  released_bytes : Z;
}.

Inductive RepairTransactionPhase := Pending | Resolved | ManualReconciliationRequired.
Inductive RepairTransactionTargetState := Before | After | Third.
Inductive RepairTransactionResolutionOutcome :=
| CommittedAfter | ClosedBeforeUnchanged | ClosedBeforeRestored | ManualOutcome.

Record RepairTransactionResolution := mkResolution {
  outcome : RepairTransactionResolutionOutcome;
  target_state : RepairTransactionTargetState;
  observed_resource_sha256 : Sha256Text;
  observed_metadata_sha256 : Sha256Text;
  mount_cleanup_verified : bool;
}.

Record RepairTransactionStatusPayload := mkTransaction {
  phase : RepairTransactionPhase;
  transaction_binding_sha256 : Sha256Text;
  backup : RepairBackupStatusPayload;
  resolution : option RepairTransactionResolution;
}.

Inductive RepairTransactionStatusSelector :=
| PendingSingleton
| Exact (reservation_id : RepairReservationId) (transaction_binding_sha256 : Sha256Text).

Record RepairTransactionStatusResultPayload := mkTransactionResult {
  transaction : option RepairTransactionStatusPayload;
}.

Record RepairWriteLeasePayload := mkWriteLease {
  lease_capability : string;
  lease_boot_epoch_sha256 : Sha256Text;
  lease_binding_sha256 : Sha256Text;
  lease_transaction : RepairTransactionStatusPayload;
}.

Record RepairRollbackBindingV1 := mkRollbackBinding {
  rb_action_id : string;
  rb_plan_id : string;
  rb_plan_sha256 : Sha256Text;
  rb_approval_id : string;
  rb_approval_sha256 : Sha256Text;
  rb_approval_sequence : Z;
}.

Inductive RepairRollbackResolutionOutcome := RolledBackBefore | ManualRollbackOutcome.

Record RepairRollbackResolution := mkRollbackResolution {
  rr_outcome : RepairRollbackResolutionOutcome;
  rr_target_state : RepairTransactionTargetState;
  rr_observed_resource_sha256 : Sha256Text;
  rr_observed_metadata_sha256 : Sha256Text;
  rr_mount_cleanup_verified : bool;
}.

Record RepairRollbackTransactionStatusPayload := mkRollbackTransaction {
  rt_phase : RepairTransactionPhase;
  rollback_id : RepairRollbackId;
  rollback_transaction_binding_sha256 : Sha256Text;
  rt_source : RepairTransactionStatusPayload;
  rt_binding : RepairRollbackBindingV1;
  rt_resolution : option RepairRollbackResolution;
}.

Inductive RepairRollbackStatusSelector :=
| RollbackPendingSingleton
| RollbackExact (rollback_id : RepairRollbackId) (rollback_transaction_binding_sha256 : Sha256Text).

Record RepairRollbackStatusResultPayload := mkRollbackResult {
  rollback_transaction : option RepairRollbackTransactionStatusPayload;
}.

Record RepairRollbackWriteLeasePayload := mkRollbackWriteLease {
  rl_capability : string;
  rl_boot_epoch_sha256 : Sha256Text;
  rl_lease_binding_sha256 : Sha256Text;
  rl_transaction : RepairRollbackTransactionStatusPayload;
}.

#[export] Instance RepairMetadataAbsence_eq_dec : EqDecision RepairMetadataAbsence.
Proof. solve_decision. Defined.
#[export] Instance RepairFileMetadataV1_eq_dec : EqDecision RepairFileMetadataV1.
Proof. solve_decision. Defined.
#[export] Instance RepairExecutionIntentV1_eq_dec : EqDecision RepairExecutionIntentV1.
Proof. solve_decision. Defined.
#[export] Instance RepairBackupState_eq_dec : EqDecision RepairBackupState.
Proof. solve_decision. Defined.
#[export] Instance RepairBackupStatusPayload_eq_dec : EqDecision RepairBackupStatusPayload.
Proof. solve_decision. Defined.
#[export] Instance RepairTransactionPhase_eq_dec : EqDecision RepairTransactionPhase.
Proof. solve_decision. Defined.
#[export] Instance RepairTransactionTargetState_eq_dec : EqDecision RepairTransactionTargetState.
Proof. solve_decision. Defined.
#[export] Instance RepairTransactionResolutionOutcome_eq_dec : EqDecision RepairTransactionResolutionOutcome.
Proof. solve_decision. Defined.
#[export] Instance RepairTransactionResolution_eq_dec : EqDecision RepairTransactionResolution.
Proof. solve_decision. Defined.
#[export] Instance RepairTransactionStatusPayload_eq_dec : EqDecision RepairTransactionStatusPayload.
Proof. solve_decision. Defined.
#[export] Instance RepairRollbackBindingV1_eq_dec : EqDecision RepairRollbackBindingV1.
Proof. solve_decision. Defined.
#[export] Instance RepairRollbackResolutionOutcome_eq_dec : EqDecision RepairRollbackResolutionOutcome.
Proof. solve_decision. Defined.
#[export] Instance RepairRollbackResolution_eq_dec : EqDecision RepairRollbackResolution.
Proof. solve_decision. Defined.

(** ** Checks without a hash *)

Definition supports_metadata (r : RepairResourceV1) (metadata : RepairFileMetadataV1) : bool :=
  match r with
  | Fstab => metadata.(mode) == 420%Z
  | Crypttab => (metadata.(mode) == 384%Z) || (metadata.(mode) == 420%Z)
  | Ext4Filesystem => metadata.(mode) == 384%Z
  | ResolverLink => metadata.(mode) == 384%Z
  end.

Definition metadata_new (mode uid gid : Z) : result ProtocolViolation RepairFileMetadataV1 :=
  reject (MAX_PERMISSION_MODE <? mode)%Z with InvalidPayload;
  Ok (mkMetadata mode uid gid AbsenceNone AbsenceNone).
Definition metadata_validate (m : RepairFileMetadataV1) : result ProtocolViolation () :=
  reject (MAX_PERMISSION_MODE <? m.(mode))%Z with InvalidPayload;
  Ok tt.

Definition draft_new (session_id target_id : string) (target_fingerprint : Sha256Text)
    (target_recovery_fingerprint : string) (expected_backup_sha256 metadata_sha256 : Sha256Text)
    (backup_size required_capacity_bytes : Z) : result ProtocolViolation RepairBackupDraft :=
  reject (negb (valid_prefixed_id session_id "S-") || negb (valid_opaque_id target_id)
          || negb (valid_digest_id target_recovery_fingerprint "recovery:")
          || negb (contains 1 MAX_REPAIR_BACKUP_BYTES backup_size)
          || negb (contains backup_size MAX_REPAIR_RESERVED_BYTES required_capacity_bytes))
    with InvalidPayload;
  Ok (mkDraft session_id target_id target_fingerprint target_recovery_fingerprint
        expected_backup_sha256 metadata_sha256 backup_size required_capacity_bytes).

Definition action_resource (action_id : string) : result ProtocolViolation RepairResourceV1 :=
  if action_id == REPAIR_EXECUTION_ACTION_ID then Ok Fstab
  else if action_id == CRYPTTAB_REPAIR_EXECUTION_ACTION_ID then Ok Crypttab
  else if action_id == EXT4_REPAIR_EXECUTION_ACTION_ID then Ok Ext4Filesystem
  else if action_id == RESOLVER_LINK_REPAIR_EXECUTION_ACTION_ID then Ok ResolverLink
  else Err InvalidPayload.

Definition intent_validate (i : RepairExecutionIntentV1) : result ProtocolViolation () :=
  resource ← action_resource i.(action_id);
  reject (negb (valid_prefixed_id i.(session_id) "S-")
          || negb (contains 1 MAX_SAFE_JSON_INTEGER i.(approval_sequence))
          || negb (valid_opaque_id i.(target_id))
          || negb (valid_digest_id i.(scan_fingerprint) "scan:")
          || negb (valid_digest_id i.(target_recovery_fingerprint) "recovery:")
          || negb (valid_digest_id i.(lock_identity) "lock:")
          || (i.(before_sha256) == i.(after_sha256))
          || negb (is_ok (metadata_validate i.(before_metadata)))
          || negb (supports_metadata resource i.(before_metadata))) with InvalidPayload;
  Ok tt.

Definition intent_new_for_resource (resource : RepairResourceV1) (session_id : string)
    (approval_sequence : Z) (target_id scan_fingerprint : string)
    (target_fingerprint target_physical_parent_fingerprint : Sha256Text)
    (target_recovery_fingerprint lock_identity : string)
    (before_sha256 after_sha256 diff_sha256 observed_uuid_set_sha256 : Sha256Text)
    (before_metadata : RepairFileMetadataV1) : result ProtocolViolation RepairExecutionIntentV1 :=
  let value := mkIntent (resource_action_id resource) session_id approval_sequence target_id
    scan_fingerprint target_fingerprint target_physical_parent_fingerprint target_recovery_fingerprint
    lock_identity before_sha256 after_sha256 diff_sha256 observed_uuid_set_sha256 before_metadata in
  _ ← intent_validate value;
  Ok value.

Definition intent_new : string → Z → string → string → Sha256Text → Sha256Text → string → string →
    Sha256Text → Sha256Text → Sha256Text → Sha256Text → RepairFileMetadataV1 →
    result ProtocolViolation RepairExecutionIntentV1 := intent_new_for_resource Fstab.

Definition backup_binding_new (plan_id : string) (plan_sha256 : Sha256Text) (approval_id : string)
    (approval_sha256 : Sha256Text) (resource_id : string) (resource_sha256 : Sha256Text)
    (execution_intent : RepairExecutionIntentV1) : result ProtocolViolation RepairBackupBinding :=
  reject (negb (valid_prefixed_id plan_id "P-") || negb (valid_prefixed_id approval_id "A-")
          || negb (valid_resource_id resource_id)
          || negb (is_ok (intent_validate execution_intent))
          || negb (is_ok (from_execution execution_intent.(action_id) resource_id))
          || (resource_sha256 != execution_intent.(before_sha256))) with InvalidPayload;
  Ok (mkBackupBinding plan_id plan_sha256 approval_id approval_sha256 resource_id resource_sha256
        execution_intent).

(** [sha.bytes() == [0; 32]]. *)
Definition all_zero (s : Sha256Text) : bool := sha_bytes s == replicate 32 x00.

Definition live_identity_validate (p : RepairVaultLiveIdentityPayload) : result ProtocolViolation () :=
  reject (negb (valid_vault_id p.(live_vault_id))
          || all_zero p.(live_vault_identity_fingerprint)
          || all_zero p.(live_physical_parent_fingerprint)) with InvalidPayload;
  Ok tt.
Definition live_identity_new (vault_id : string) (identity parent : Sha256Text) :
    result ProtocolViolation RepairVaultLiveIdentityPayload :=
  let value := mkLiveIdentity vault_id identity parent in
  _ ← live_identity_validate value;
  Ok value.

Definition release_validate (p : RepairBackupReleasePayload) : result ProtocolViolation () :=
  reject (negb (contains 1 MAX_REPAIR_RESERVED_BYTES p.(released_bytes))) with InvalidPayload;
  Ok tt.
Definition release_new (reservation_id : RepairReservationId) (draft_binding_sha256 : Sha256Text)
    (released_bytes : Z) : result ProtocolViolation RepairBackupReleasePayload :=
  reject (negb (contains 1 MAX_REPAIR_RESERVED_BYTES released_bytes)) with InvalidPayload;
  Ok (mkRelease reservation_id draft_binding_sha256 released_bytes).

(** [sha.bytes().iter().all(|byte| *byte == 0)]. *)
Definition every_zero (s : Sha256Text) : bool := forallb (λ b, b == x00) (sha_bytes s).

Definition transaction_phase (r : RepairTransactionResolution) : RepairTransactionPhase :=
  match r.(outcome) with
  | ManualOutcome => ManualReconciliationRequired
  | CommittedAfter | ClosedBeforeUnchanged | ClosedBeforeRestored => Resolved
  end.
Definition rollback_phase (r : RepairRollbackResolution) : RepairTransactionPhase :=
  match r.(rr_outcome) with
  | RolledBackBefore => Resolved
  | ManualRollbackOutcome => ManualReconciliationRequired
  end.

Definition classify_target_state (observed : Sha256Text) (intent : RepairExecutionIntentV1) :
    RepairTransactionTargetState :=
  if observed == intent.(before_sha256) then Before
  else if observed == intent.(after_sha256) then After
  else Third.

Definition unresolved (p : RepairTransactionPhase) : bool :=
  match p with Pending | ManualReconciliationRequired => true | Resolved => false end.
Definition transaction_is_unresolved (t : RepairTransactionStatusPayload) : bool := unresolved t.(phase).
Definition rollback_is_unresolved (t : RepairRollbackTransactionStatusPayload) : bool :=
  unresolved t.(rt_phase).

Definition repair_resource_from_transaction (t : RepairTransactionStatusPayload) :
    result ProtocolViolation RepairResourceV1 :=
  intent ← ok_or t.(backup).(execution_intent) InvalidPayload;
  resource_id ← ok_or t.(backup).(resource_id) InvalidPayload;
  from_execution intent.(action_id) resource_id.

Definition binding_fields_are_none (b : RepairBackupStatusPayload) : bool :=
  (b.(plan_id) == None) && (b.(plan_sha256) == None) && (b.(approval_id) == None)
  && (b.(approval_sha256) == None) && (b.(resource_id) == None) && (b.(resource_sha256) == None)
  && (b.(execution_intent) == None).

(** [option.is_some_and(f)]. *)
Definition is_some_and {A} (o : option A) (f : A → bool) : bool :=
  match o with Some a => f a | None => false end.

Definition immutable_fields_match (b other : RepairBackupStatusPayload) : bool :=
  (b.(reservation_id) == other.(reservation_id))
  && (b.(draft_binding_sha256) == other.(draft_binding_sha256))
  && (b.(locator) == other.(locator)) && (b.(vault_id) == other.(vault_id))
  && (b.(vault_identity_fingerprint) == other.(vault_identity_fingerprint))
  && (b.(physical_parent_fingerprint) == other.(physical_parent_fingerprint))
  && (b.(reserved_bytes) == other.(reserved_bytes)) && (b.(backup_size) == other.(backup_size))
  && (b.(expected_backup_sha256) == other.(expected_backup_sha256))
  && (b.(metadata_sha256) == other.(metadata_sha256)).

Definition backup_new (state : RepairBackupState) (reservation_id : RepairReservationId)
    (draft_binding_sha256 : Sha256Text) (locator vault_id : string)
    (vault_identity_fingerprint physical_parent_fingerprint : Sha256Text)
    (reserved_bytes backup_size : Z) (expected_backup_sha256 metadata_sha256 : Sha256Text)
    (binding : option RepairBackupBinding) : result ProtocolViolation RepairBackupStatusPayload :=
  reject ((locator != reservation_locator reservation_id) || negb (valid_vault_id vault_id)
          || negb (contains 1 MAX_REPAIR_BACKUP_BYTES backup_size)
          || negb (contains backup_size MAX_REPAIR_RESERVED_BYTES reserved_bytes)
          || ((state == Reserved) != match binding with None => true | Some _ => false end))
    with InvalidPayload;
  Ok (mkBackup state reservation_id draft_binding_sha256 locator vault_id vault_identity_fingerprint
        physical_parent_fingerprint reserved_bytes backup_size expected_backup_sha256 metadata_sha256
        (binding_plan_id <$> binding) (binding_plan_sha256 <$> binding) (binding_approval_id <$> binding)
        (binding_approval_sha256 <$> binding) (binding_resource_id <$> binding)
        (binding_resource_sha256 <$> binding) (binding_execution_intent <$> binding)).

Definition backup_reserved (reservation_id : RepairReservationId) (draft_binding_sha256 : Sha256Text)
    (locator vault_id : string) (vault_identity_fingerprint physical_parent_fingerprint : Sha256Text)
    (reserved_bytes backup_size : Z) (expected_backup_sha256 metadata_sha256 : Sha256Text) :
    result ProtocolViolation RepairBackupStatusPayload :=
  backup_new Reserved reservation_id draft_binding_sha256 locator vault_id vault_identity_fingerprint
    physical_parent_fingerprint reserved_bytes backup_size expected_backup_sha256 metadata_sha256 None.
Definition backup_durable (reservation_id : RepairReservationId) (draft_binding_sha256 : Sha256Text)
    (locator vault_id : string) (vault_identity_fingerprint physical_parent_fingerprint : Sha256Text)
    (reserved_bytes backup_size : Z) (expected_backup_sha256 metadata_sha256 : Sha256Text)
    (binding : RepairBackupBinding) : result ProtocolViolation RepairBackupStatusPayload :=
  backup_new Durable reservation_id draft_binding_sha256 locator vault_id vault_identity_fingerprint
    physical_parent_fingerprint reserved_bytes backup_size expected_backup_sha256 metadata_sha256
    (Some binding).

Definition transaction_selector_validate (s : RepairTransactionStatusSelector) :
    result ProtocolViolation () := Ok tt.
Definition rollback_selector_validate (s : RepairRollbackStatusSelector) :
    result ProtocolViolation () := Ok tt.
Definition selector_for_status (t : RepairTransactionStatusPayload) : RepairTransactionStatusSelector :=
  Exact t.(backup).(reservation_id) t.(transaction_binding_sha256).
Definition rollback_selector_for_status (t : RepairRollbackTransactionStatusPayload) :
    RepairRollbackStatusSelector :=
  RollbackExact t.(rollback_id) t.(rollback_transaction_binding_sha256).

Definition repair_backup_input (size : Z) : result ProtocolViolation DescriptorDeclaration :=
  reject (negb (contains 1 MAX_REPAIR_BACKUP_BYTES size)) with InvalidPayload;
  Ok (mkDeclaration RepairBackupInputPipe size).
Definition repair_backup_output (size : Z) : result ProtocolViolation DescriptorDeclaration :=
  reject (negb (contains 1 MAX_REPAIR_BACKUP_BYTES size)) with InvalidPayload;
  Ok (mkDeclaration RepairBackupOutputPipe size).

(** ** Digests *)

Definition metadata_preimage (m : RepairFileMetadataV1) : bytes :=
  FILE_METADATA_DOMAIN
  ++ frames [be_bytes 4 m.(mode); be_bytes 4 m.(meta_uid); be_bytes 4 m.(meta_gid); [x00]; [x00]].

Definition draft_preimage (d : RepairBackupDraft) : bytes :=
  RESERVATION_BINDING_DOMAIN
  ++ frames [as_bytes d.(draft_session_id); as_bytes d.(draft_target_id);
             sha_bytes d.(draft_target_fingerprint); as_bytes d.(draft_target_recovery_fingerprint);
             sha_bytes d.(draft_expected_backup_sha256); sha_bytes d.(draft_metadata_sha256);
             to_be_bytes d.(draft_backup_size); to_be_bytes d.(required_capacity_bytes)].

Definition lock_preimage (target_recovery_fingerprint : string) (r : RepairResourceV1) : bytes :=
  lock_domain r ++ frames (map as_bytes [target_recovery_fingerprint; resource_resource_id r]).

Section records.
Context `{sha : Sha256}.

Definition canonical_repair_file_metadata_sha256 (m : RepairFileMetadataV1) : Sha256Text :=
  digest_of (metadata_preimage m).
Definition canonical_repair_draft_binding_sha256 (d : RepairBackupDraft) : Sha256Text :=
  digest_of (draft_preimage d).

Definition intent_preimage (i : RepairExecutionIntentV1) : bytes :=
  EXECUTION_INTENT_BINDING_DOMAIN
  ++ frames [as_bytes i.(action_id); as_bytes i.(session_id); to_be_bytes i.(approval_sequence);
             as_bytes i.(target_id); as_bytes i.(scan_fingerprint); sha_bytes i.(target_fingerprint);
             sha_bytes i.(target_physical_parent_fingerprint); as_bytes i.(target_recovery_fingerprint);
             as_bytes i.(lock_identity); sha_bytes i.(before_sha256); sha_bytes i.(after_sha256);
             sha_bytes i.(diff_sha256); sha_bytes i.(observed_uuid_set_sha256);
             sha_bytes (canonical_repair_file_metadata_sha256 i.(before_metadata))].
Definition canonical_repair_execution_intent_sha256 (i : RepairExecutionIntentV1) : Sha256Text :=
  digest_of (intent_preimage i).

Definition canonical_repair_lock_identity_for_resource (target_recovery_fingerprint : string)
    (r : RepairResourceV1) : string :=
  "lock:" +:+ hex_string (sha256 (lock_preimage target_recovery_fingerprint r)).
Definition canonical_repair_lock_identity (target_recovery_fingerprint : string) : string :=
  canonical_repair_lock_identity_for_resource target_recovery_fingerprint Fstab.

(** *** The backup *)

Definition binding_fields_are_valid (b : RepairBackupStatusPayload) : bool :=
  is_some_and b.(plan_id) (λ value, valid_prefixed_id value "P-")
  && bool_decide (is_Some b.(plan_sha256))
  && is_some_and b.(approval_id) (λ value, valid_prefixed_id value "A-")
  && bool_decide (is_Some b.(approval_sha256))
  && is_some_and b.(resource_id) valid_resource_id
  && is_some_and b.(resource_sha256) (λ resource_sha256,
       is_some_and b.(execution_intent) (λ intent,
         is_ok (intent_validate intent)
         && (resource_sha256 == intent.(before_sha256))
         && (b.(expected_backup_sha256) == intent.(before_sha256))
         && (b.(metadata_sha256) == canonical_repair_file_metadata_sha256 intent.(before_metadata))
         && (b.(physical_parent_fingerprint) != intent.(target_physical_parent_fingerprint)))).

Definition backup_validate (b : RepairBackupStatusPayload) : result ProtocolViolation () :=
  let valid_binding :=
    match b.(backup_state) with
    | Reserved => binding_fields_are_none b
    | Durable => binding_fields_are_valid b
    end in
  reject ((b.(locator) != reservation_locator b.(reservation_id))
          || negb (valid_vault_id b.(vault_id))
          || negb (contains 1 MAX_REPAIR_BACKUP_BYTES b.(backup_size))
          || negb (contains b.(backup_size) MAX_REPAIR_RESERVED_BYTES b.(reserved_bytes))
          || negb valid_binding) with InvalidPayload;
  Ok tt.

(** *** The transaction *)

Definition transaction_preimage (b : RepairBackupStatusPayload) (plan_id : string)
    (plan_sha256 : Sha256Text) (approval_id : string) (approval_sha256 : Sha256Text)
    (resource_id : string) (resource_sha256 : Sha256Text) (intent : RepairExecutionIntentV1) : bytes :=
  TRANSACTION_BINDING_DOMAIN
  ++ frames [as_bytes b.(reservation_id).(as_str); sha_bytes b.(draft_binding_sha256);
             as_bytes b.(locator); as_bytes b.(vault_id); sha_bytes b.(vault_identity_fingerprint);
             sha_bytes b.(physical_parent_fingerprint); to_be_bytes b.(reserved_bytes);
             to_be_bytes b.(backup_size); sha_bytes b.(expected_backup_sha256);
             sha_bytes b.(metadata_sha256); as_bytes plan_id; sha_bytes plan_sha256;
             as_bytes approval_id; sha_bytes approval_sha256; as_bytes resource_id;
             sha_bytes resource_sha256; sha_bytes (canonical_repair_execution_intent_sha256 intent)].

Definition canonical_repair_transaction_binding_sha256 (b : RepairBackupStatusPayload) :
    result ProtocolViolation Sha256Text :=
  _ ← backup_validate b;
  reject (b.(backup_state) != Durable) with InvalidPayload;
  plan_id ← ok_or b.(plan_id) InvalidPayload;
  plan_sha256 ← ok_or b.(plan_sha256) InvalidPayload;
  approval_id ← ok_or b.(approval_id) InvalidPayload;
  approval_sha256 ← ok_or b.(approval_sha256) InvalidPayload;
  resource_id ← ok_or b.(resource_id) InvalidPayload;
  resource_sha256 ← ok_or b.(resource_sha256) InvalidPayload;
  execution_intent ← ok_or b.(execution_intent) InvalidPayload;
  Ok (digest_of (transaction_preimage b plan_id plan_sha256 approval_id approval_sha256 resource_id
                   resource_sha256 execution_intent)).

Definition resolution_validate_against (r : RepairTransactionResolution) (intent : RepairExecutionIntentV1) :
    result ProtocolViolation () :=
  _ ← intent_validate intent;
  reject (r.(target_state) != classify_target_state r.(observed_resource_sha256) intent) with InvalidPayload;
  let metadata_matches :=
    r.(observed_metadata_sha256) == canonical_repair_file_metadata_sha256 intent.(before_metadata) in
  let exact_closed_state :=
    match r.(outcome) with
    | CommittedAfter => (r.(target_state) == After) && metadata_matches && r.(mount_cleanup_verified)
    | ClosedBeforeUnchanged | ClosedBeforeRestored =>
        (r.(target_state) == Before) && metadata_matches && r.(mount_cleanup_verified)
    | ManualOutcome => true
    end in
  reject (negb exact_closed_state) with InvalidPayload;
  Ok tt.

Definition resolution_new (outcome : RepairTransactionResolutionOutcome)
    (observed_resource_sha256 observed_metadata_sha256 : Sha256Text) (mount_cleanup_verified : bool)
    (intent : RepairExecutionIntentV1) : result ProtocolViolation RepairTransactionResolution :=
  let value := mkResolution outcome (classify_target_state observed_resource_sha256 intent)
    observed_resource_sha256 observed_metadata_sha256 mount_cleanup_verified in
  _ ← resolution_validate_against value intent;
  Ok value.

Definition transaction_validate (t : RepairTransactionStatusPayload) : result ProtocolViolation () :=
  _ ← backup_validate t.(backup);
  reject (t.(backup).(backup_state) != Durable) with InvalidPayload;
  expected ← canonical_repair_transaction_binding_sha256 t.(backup);
  reject (t.(transaction_binding_sha256) != expected) with InvalidPayload;
  intent ← ok_or t.(backup).(execution_intent) InvalidPayload;
  match t.(phase), t.(resolution) with
  | Pending, None => Ok tt
  | Resolved, Some r =>
      if transaction_phase r == Resolved then resolution_validate_against r intent else Err InvalidPayload
  | ManualReconciliationRequired, Some r =>
      if transaction_phase r == ManualReconciliationRequired then resolution_validate_against r intent
      else Err InvalidPayload
  | _, _ => Err InvalidPayload
  end.

Definition transaction_new (phase : RepairTransactionPhase) (backup : RepairBackupStatusPayload)
    (resolution : option RepairTransactionResolution) : result ProtocolViolation RepairTransactionStatusPayload :=
  transaction_binding_sha256 ← canonical_repair_transaction_binding_sha256 backup;
  let value := mkTransaction phase transaction_binding_sha256 backup resolution in
  _ ← transaction_validate value;
  Ok value.
Definition transaction_pending (backup : RepairBackupStatusPayload) :
    result ProtocolViolation RepairTransactionStatusPayload := transaction_new Pending backup None.
Definition transaction_resolved (backup : RepairBackupStatusPayload) (r : RepairTransactionResolution) :
    result ProtocolViolation RepairTransactionStatusPayload :=
  transaction_new (transaction_phase r) backup (Some r).

Definition transaction_same (t other : RepairTransactionStatusPayload) : bool :=
  (t.(backup).(reservation_id) == other.(backup).(reservation_id))
  && (t.(transaction_binding_sha256) == other.(transaction_binding_sha256))
  && (t.(backup) == other.(backup)).
Definition transaction_resolves_with (t : RepairTransactionStatusPayload) (r : RepairTransactionResolution) : bool :=
  (t.(resolution) == Some r) && (t.(phase) == transaction_phase r).

Definition transaction_result_validate (r : RepairTransactionStatusResultPayload) : result ProtocolViolation () :=
  match r.(transaction) with Some t => transaction_validate t | None => Ok tt end.
Definition transaction_matches_result (s : RepairTransactionStatusSelector)
    (r : RepairTransactionStatusResultPayload) : bool :=
  if negb (is_ok (transaction_result_validate r)) then false
  else match s, r.(transaction) with
  | PendingSingleton, None => true
  | PendingSingleton, Some status => transaction_is_unresolved status
  | Exact reservation_id binding, Some status =>
      (status.(backup).(RepairVault.reservation_id) == reservation_id)
      && (status.(transaction_binding_sha256) == binding)
  | Exact _ _, None => false
  end.

(** *** Write leases *)

Definition write_lease_preimage (r : RepairResourceV1) (t : RepairTransactionStatusPayload)
    (boot_epoch : Sha256Text) (intent : RepairExecutionIntentV1) : bytes :=
  WRITE_LEASE_BINDING_DOMAIN
  ++ frames [as_bytes (write_lease_capability r); sha_bytes t.(transaction_binding_sha256);
             sha_bytes boot_epoch; as_bytes intent.(target_recovery_fingerprint);
             as_bytes intent.(lock_identity)].

Definition canonical_repair_write_lease_sha256 (t : RepairTransactionStatusPayload)
    (boot_epoch : Sha256Text) : result ProtocolViolation Sha256Text :=
  _ ← transaction_validate t;
  reject ((t.(phase) != Pending) || every_zero boot_epoch) with InvalidPayload;
  intent ← ok_or t.(backup).(execution_intent) InvalidPayload;
  resource ← repair_resource_from_transaction t;
  reject (intent.(lock_identity)
          != canonical_repair_lock_identity_for_resource intent.(target_recovery_fingerprint) resource)
    with InvalidPayload;
  Ok (digest_of (write_lease_preimage resource t boot_epoch intent)).

Definition write_lease_validate (l : RepairWriteLeasePayload) : result ProtocolViolation () :=
  let t := l.(lease_transaction) in
  _ ← transaction_validate t;
  intent ← ok_or t.(backup).(execution_intent) InvalidPayload;
  resource ← repair_resource_from_transaction t;
  reject ((l.(lease_capability) != write_lease_capability resource)
          || (t.(phase) != Pending) || (t.(backup).(backup_state) != Durable)
          || every_zero l.(lease_boot_epoch_sha256)
          || (intent.(lock_identity)
              != canonical_repair_lock_identity_for_resource intent.(target_recovery_fingerprint) resource))
    with InvalidPayload;
  expected ← canonical_repair_write_lease_sha256 t l.(lease_boot_epoch_sha256);
  reject (l.(lease_binding_sha256) != expected) with InvalidPayload;
  Ok tt.

Definition write_lease_consumed (t : RepairTransactionStatusPayload) (boot_epoch : Sha256Text) :
    result ProtocolViolation RepairWriteLeasePayload :=
  resource ← repair_resource_from_transaction t;
  lease_binding ← canonical_repair_write_lease_sha256 t boot_epoch;
  let value := mkWriteLease (write_lease_capability resource) boot_epoch lease_binding t in
  _ ← write_lease_validate value;
  Ok value.

(** *** Rollback of a committed transaction *)

Definition validate_committed_rollback_source (source : RepairTransactionStatusPayload) :
    result ProtocolViolation () :=
  _ ← transaction_validate source;
  reject ((source.(phase) != Resolved) || ((outcome <$> source.(resolution)) != Some CommittedAfter))
    with InvalidPayload;
  Ok tt.

(** [sequence.checked_add(1).filter(|value| *value <= MAX_SAFE_JSON_INTEGER)]. *)
Definition next_sequence (sequence : Z) : option Z :=
  value ← checked_add_u64 sequence 1;
  if (value <=? MAX_SAFE_JSON_INTEGER)%Z then Some value else None.

Definition rollback_binding_validate_against (b : RepairRollbackBindingV1)
    (source : RepairTransactionStatusPayload) : result ProtocolViolation () :=
  _ ← validate_committed_rollback_source source;
  source_plan_id ← ok_or source.(backup).(plan_id) InvalidPayload;
  source_plan_sha256 ← ok_or source.(backup).(plan_sha256) InvalidPayload;
  source_approval_id ← ok_or source.(backup).(approval_id) InvalidPayload;
  source_approval_sha256 ← ok_or source.(backup).(approval_sha256) InvalidPayload;
  source_intent ← ok_or source.(backup).(execution_intent) InvalidPayload;
  resource ← repair_resource_from_transaction source;
  reject (resource == Ext4Filesystem) with InvalidPayload;
  next_sequence ← ok_or (next_sequence source_intent.(approval_sequence)) InvalidPayload;
  reject ((b.(rb_action_id) != rollback_action_id resource)
          || negb (valid_prefixed_id b.(rb_plan_id) "P-")
          || negb (valid_prefixed_id b.(rb_approval_id) "A-")
          || all_zero b.(rb_plan_sha256) || all_zero b.(rb_approval_sha256)
          || (b.(rb_plan_id) == source_plan_id) || (b.(rb_plan_sha256) == source_plan_sha256)
          || (b.(rb_approval_id) == source_approval_id)
          || (b.(rb_approval_sha256) == source_approval_sha256)
          || (b.(rb_approval_sequence) != next_sequence)) with InvalidPayload;
  Ok tt.

Definition rollback_binding_new (source : RepairTransactionStatusPayload) (plan_id : string)
    (plan_sha256 : Sha256Text) (approval_id : string) (approval_sha256 : Sha256Text)
    (approval_sequence : Z) : result ProtocolViolation RepairRollbackBindingV1 :=
  resource ← repair_resource_from_transaction source;
  let value := mkRollbackBinding (rollback_action_id resource) plan_id plan_sha256 approval_id
    approval_sha256 approval_sequence in
  _ ← rollback_binding_validate_against value source;
  Ok value.

Definition rollback_resolution_validate_against (r : RepairRollbackResolution)
    (source : RepairTransactionStatusPayload) : result ProtocolViolation () :=
  _ ← validate_committed_rollback_source source;
  intent ← ok_or source.(backup).(execution_intent) InvalidPayload;
  reject (r.(rr_target_state) != classify_target_state r.(rr_observed_resource_sha256) intent)
    with InvalidPayload;
  let metadata_matches :=
    r.(rr_observed_metadata_sha256) == canonical_repair_file_metadata_sha256 intent.(before_metadata) in
  let exact_closed_state :=
    match r.(rr_outcome) with
    | RolledBackBefore =>
        (r.(rr_target_state) == Before) && metadata_matches && r.(rr_mount_cleanup_verified)
    | ManualRollbackOutcome => true
    end in
  reject (negb exact_closed_state) with InvalidPayload;
  Ok tt.

Definition rollback_resolution_new (outcome : RepairRollbackResolutionOutcome)
    (observed_resource_sha256 observed_metadata_sha256 : Sha256Text) (mount_cleanup_verified : bool)
    (source : RepairTransactionStatusPayload) : result ProtocolViolation RepairRollbackResolution :=
  _ ← validate_committed_rollback_source source;
  intent ← ok_or source.(backup).(execution_intent) InvalidPayload;
  let value := mkRollbackResolution outcome (classify_target_state observed_resource_sha256 intent)
    observed_resource_sha256 observed_metadata_sha256 mount_cleanup_verified in
  _ ← rollback_resolution_validate_against value source;
  Ok value.

Definition rollback_transaction_preimage (id : RepairRollbackId) (source : RepairTransactionStatusPayload)
    (b : RepairRollbackBindingV1) : bytes :=
  ROLLBACK_TRANSACTION_BINDING_DOMAIN
  ++ frames [as_bytes id.(as_str); as_bytes source.(backup).(reservation_id).(as_str);
             sha_bytes source.(transaction_binding_sha256); as_bytes b.(rb_action_id);
             as_bytes b.(rb_plan_id); sha_bytes b.(rb_plan_sha256); as_bytes b.(rb_approval_id);
             sha_bytes b.(rb_approval_sha256); to_be_bytes b.(rb_approval_sequence)].

Definition canonical_repair_rollback_transaction_binding_sha256 (id : RepairRollbackId)
    (source : RepairTransactionStatusPayload) (b : RepairRollbackBindingV1) :
    result ProtocolViolation Sha256Text :=
  _ ← rollback_binding_validate_against b source;
  Ok (digest_of (rollback_transaction_preimage id source b)).

Definition rollback_validate (t : RepairRollbackTransactionStatusPayload) : result ProtocolViolation () :=
  _ ← rollback_binding_validate_against t.(rt_binding) t.(rt_source);
  expected ← canonical_repair_rollback_transaction_binding_sha256 t.(rollback_id) t.(rt_source) t.(rt_binding);
  reject (t.(rollback_transaction_binding_sha256) != expected) with InvalidPayload;
  match t.(rt_phase), t.(rt_resolution) with
  | Pending, None => Ok tt
  | Resolved, Some r =>
      if rollback_phase r == Resolved then rollback_resolution_validate_against r t.(rt_source)
      else Err InvalidPayload
  | ManualReconciliationRequired, Some r =>
      if rollback_phase r == ManualReconciliationRequired
      then rollback_resolution_validate_against r t.(rt_source) else Err InvalidPayload
  | _, _ => Err InvalidPayload
  end.

Definition rollback_new (phase : RepairTransactionPhase) (id : RepairRollbackId)
    (source : RepairTransactionStatusPayload) (b : RepairRollbackBindingV1)
    (resolution : option RepairRollbackResolution) :
    result ProtocolViolation RepairRollbackTransactionStatusPayload :=
  _ ← rollback_binding_validate_against b source;
  binding ← canonical_repair_rollback_transaction_binding_sha256 id source b;
  let value := mkRollbackTransaction phase id binding source b resolution in
  _ ← rollback_validate value;
  Ok value.
Definition rollback_pending (id : RepairRollbackId) (source : RepairTransactionStatusPayload)
    (b : RepairRollbackBindingV1) : result ProtocolViolation RepairRollbackTransactionStatusPayload :=
  rollback_new Pending id source b None.
Definition rollback_resolved (id : RepairRollbackId) (source : RepairTransactionStatusPayload)
    (b : RepairRollbackBindingV1) (r : RepairRollbackResolution) :
    result ProtocolViolation RepairRollbackTransactionStatusPayload :=
  rollback_new (rollback_phase r) id source b (Some r).

Definition rollback_same (t other : RepairRollbackTransactionStatusPayload) : bool :=
  (t.(rollback_id) == other.(rollback_id))
  && (t.(rollback_transaction_binding_sha256) == other.(rollback_transaction_binding_sha256))
  && (t.(rt_source) == other.(rt_source)) && (t.(rt_binding) == other.(rt_binding)).
Definition rollback_resolves_with (t : RepairRollbackTransactionStatusPayload) (r : RepairRollbackResolution) : bool :=
  (t.(rt_resolution) == Some r) && (t.(rt_phase) == rollback_phase r).

Definition rollback_result_validate (r : RepairRollbackStatusResultPayload) : result ProtocolViolation () :=
  match r.(rollback_transaction) with Some t => rollback_validate t | None => Ok tt end.
Definition rollback_matches_result (s : RepairRollbackStatusSelector)
    (r : RepairRollbackStatusResultPayload) : bool :=
  if negb (is_ok (rollback_result_validate r)) then false
  else match s, r.(rollback_transaction) with
  | RollbackPendingSingleton, None => true
  | RollbackPendingSingleton, Some status => rollback_is_unresolved status
  | RollbackExact id binding, Some status =>
      (status.(rollback_id) == id) && (status.(rollback_transaction_binding_sha256) == binding)
  | RollbackExact _ _, None => false
  end.

Definition rollback_write_lease_preimage (r : RepairResourceV1) (t : RepairRollbackTransactionStatusPayload)
    (boot_epoch : Sha256Text) (intent : RepairExecutionIntentV1) : bytes :=
  ROLLBACK_WRITE_LEASE_BINDING_DOMAIN
  ++ frames [as_bytes (rollback_write_lease_capability r);
             sha_bytes t.(rollback_transaction_binding_sha256); sha_bytes boot_epoch;
             as_bytes intent.(target_recovery_fingerprint); as_bytes intent.(lock_identity)].

Definition canonical_repair_rollback_write_lease_sha256 (t : RepairRollbackTransactionStatusPayload)
    (boot_epoch : Sha256Text) : result ProtocolViolation Sha256Text :=
  _ ← rollback_validate t;
  reject ((t.(rt_phase) != Pending) || all_zero boot_epoch) with InvalidPayload;
  intent ← ok_or t.(rt_source).(backup).(execution_intent) InvalidPayload;
  resource ← repair_resource_from_transaction t.(rt_source);
  reject (intent.(lock_identity)
          != canonical_repair_lock_identity_for_resource intent.(target_recovery_fingerprint) resource)
    with InvalidPayload;
  Ok (digest_of (rollback_write_lease_preimage resource t boot_epoch intent)).

Definition rollback_write_lease_validate (l : RepairRollbackWriteLeasePayload) : result ProtocolViolation () :=
  let t := l.(rl_transaction) in
  _ ← rollback_validate t;
  source_intent ← ok_or t.(rt_source).(backup).(execution_intent) InvalidPayload;
  resource ← repair_resource_from_transaction t.(rt_source);
  reject ((l.(rl_capability) != rollback_write_lease_capability resource)
          || (t.(rt_phase) != Pending)
          || (t.(rt_binding).(rb_action_id) != rollback_action_id resource)
          || all_zero l.(rl_boot_epoch_sha256)
          || (source_intent.(lock_identity)
              != canonical_repair_lock_identity_for_resource source_intent.(target_recovery_fingerprint) resource))
    with InvalidPayload;
  expected ← canonical_repair_rollback_write_lease_sha256 t l.(rl_boot_epoch_sha256);
  reject (l.(rl_lease_binding_sha256) != expected) with InvalidPayload;
  Ok tt.

Definition rollback_write_lease_consumed (t : RepairRollbackTransactionStatusPayload)
    (boot_epoch : Sha256Text) : result ProtocolViolation RepairRollbackWriteLeasePayload :=
  resource ← repair_resource_from_transaction t.(rt_source);
  lease_binding ← canonical_repair_rollback_write_lease_sha256 t boot_epoch;
  let value := mkRollbackWriteLease (rollback_write_lease_capability resource) boot_epoch lease_binding t in
  _ ← rollback_write_lease_validate value;
  Ok value.

End records.
