(* ===== verification/RepairVaultProperties.v ===== *)
(** * What the repair records promise

    - a record read from the wire passes its validation exactly when the
      constructors build it;
    - the digest of a write lease pins the whole chain of authority behind it,
      from the metadata of the file to the boot in which it was consumed;
    - a rollback lease exists only for a committed repair, with a fresh plan and
      the next approval. *)

From Stdlib.Strings Require Import Byte.
From Stdlib Require String Ascii.
From S2P Require Import Prelude Bytes Text Crypto VaultWire RepairVault Signatures.

(** ** What the checks accept *)

Lemma from_resource_id_Ok v r : from_resource_id v = Ok r ↔ v = resource_resource_id r.
Proof.
  unfold from_resource_id. split.
  - repeat case_bool_decide; intros [= <-]; done.
  - intros ->. by destruct r.
Qed.

Lemma from_execution_Ok a v r :
  from_execution a v = Ok r ↔ a = resource_action_id r ∧ v = resource_resource_id r.
Proof.
  unfold from_execution. split.
  - intros H. inv_ok H. apply from_resource_id_Ok in Hcall. guards. done.
  - intros [-> ->]. eapply bind_pass; [by apply from_resource_id_Ok|]. cbv beta. by rewrite ne_refl_false.
Qed.

Lemma action_resource_Ok a r : action_resource a = Ok r ↔ a = resource_action_id r.
Proof.
  unfold action_resource. split.
  - repeat case_bool_decide; intros [= <-]; done.
  - intros ->. by destruct r.
Qed.

#[export] Instance resource_action_id_inj : Inj (=) (=) resource_action_id.
Proof. by intros [] []. Qed.
#[export] Instance resource_resource_id_inj : Inj (=) (=) resource_resource_id.
Proof. by intros [] []. Qed.
#[export] Instance write_lease_capability_inj : Inj (=) (=) write_lease_capability.
Proof. by intros [] []. Qed.
#[export] Instance rollback_write_lease_capability_inj : Inj (=) (=) rollback_write_lease_capability.
Proof. by intros [] []. Qed.

Lemma valid_resource_id_spec v : valid_resource_id v = true ↔ ∃ r, v = resource_resource_id r.
Proof.
  unfold valid_resource_id. split.
  - destruct (from_resource_id v) as [r|] eqn:H; [|done]. apply from_resource_id_Ok in H. eauto.
  - intros [r ->]. by rewrite (proj2 (from_resource_id_Ok _ r) eq_refl).
Qed.

Lemma every_zero_all_zero s : every_zero s = all_zero s.
Proof.
  unfold every_zero, all_zero. pose proof (length_sha_bytes s) as Hl. revert Hl. generalize (sha_bytes s), 32.
  intros l. induction l as [|b l IH]; intros n Hl; simpl in Hl; subst n; [done|]. cbn [forallb replicate].
  rewrite (IH (length l) eq_refl). apply eq_true_iff_eq. rewrite andb_true_iff, !bool_decide_eq_true. split; [intros [-> Hl]; by f_equal|by intros [= Hb Hl]].
Qed.

Lemma is_ok_unit {E} (r : result E ()) : is_ok r = true ↔ r = Ok tt.
Proof. destruct r as [[]|]; naive_solver. Qed.

(** ** Texts short enough to be framed *)

Lemma fits_short (l : bytes) : (blen l ≤ 1000)%Z → fits l.
Proof. unfold fits, is_u64, U64_MAX, blen. lia. Qed.

Lemma fits_len (s : string) : (len s ≤ 1000)%Z → fits (as_bytes s).
Proof. intros. apply fits_short. unfold blen, len in *. by rewrite length_as_bytes. Qed.

Lemma fits_sha s : fits (sha_bytes s).
Proof. apply fits_short. unfold blen. rewrite length_sha_bytes. done. Qed.

Lemma fits_u64 z : fits (to_be_bytes z).
Proof. apply fits_short. unfold blen. rewrite length_to_be_bytes. done. Qed.

Lemma fits_u32 z : fits (be_bytes 4 z).
Proof. apply fits_short. unfold blen. rewrite length_be_bytes. done. Qed.

Lemma fits_prefixed v p : valid_prefixed_id v p = true → fits (as_bytes v).
Proof.
  intros H. unfold valid_prefixed_id, MAX_OPAQUE_ID_BYTES in H. guards. apply fits_len.
  rewrite Z.leb_le in *. lia.
Qed.

Lemma fits_opaque v : valid_opaque_id v = true → fits (as_bytes v).
Proof.
  intros H. unfold valid_opaque_id, MAX_OPAQUE_ID_BYTES in H. guards. apply fits_len.
  rewrite Z.leb_le in *. lia.
Qed.

Lemma hex_id_len n p v : hex_id n p v = true → len v = (len p + n)%Z.
Proof.
  unfold hex_id. destruct (strip_prefix p v) as [s|] eqn:Hs; [|done]. apply strip_prefix_Some in Hs as ->.
  intros H. guards. rewrite len_app. lia.
Qed.

Lemma fits_digest_id v p : valid_digest_id v p = true → (len p ≤ 100)%Z → fits (as_bytes v).
Proof. intros H%hex_id_len ?. apply fits_len. lia. Qed.

Lemma fits_vault_id v : valid_vault_id v = true → fits (as_bytes v).
Proof. intros H%hex_id_len. apply fits_len. rewrite H. done. Qed.

Lemma reservation_len (id : RepairReservationId) : len id.(as_str) = 34%Z.
Proof. destruct id as [t Ht]. simpl. by apply Is_true_true_1, hex_id_len in Ht. Qed.
Lemma rollback_len (id : RepairRollbackId) : len id.(as_str) = 35%Z.
Proof. destruct id as [t Ht]. simpl. by apply Is_true_true_1, hex_id_len in Ht. Qed.

Lemma fits_reservation (id : RepairReservationId) : fits (as_bytes id.(as_str)).
Proof. apply fits_len. rewrite reservation_len. done. Qed.
Lemma fits_rollback (id : RepairRollbackId) : fits (as_bytes id.(as_str)).
Proof. apply fits_len. rewrite rollback_len. done. Qed.
Lemma fits_locator (id : RepairReservationId) : fits (as_bytes (reservation_locator id)).
Proof. apply fits_len. unfold reservation_locator. rewrite len_app, reservation_len. done. Qed.
Lemma fits_resource r : fits (as_bytes (resource_resource_id r)).
Proof. apply fits_len. by destruct r. Qed.
Lemma fits_action r : fits (as_bytes (resource_action_id r)).
Proof. apply fits_len. by destruct r. Qed.
Lemma fits_rollback_action r : fits (as_bytes (rollback_action_id r)).
Proof. apply fits_len. by destruct r. Qed.
Lemma fits_capability r : fits (as_bytes (write_lease_capability r)).
Proof. apply fits_len. by destruct r. Qed.
Lemma fits_rollback_capability r : fits (as_bytes (rollback_write_lease_capability r)).
Proof. apply fits_len. by destruct r. Qed.

Create HintDb framed.
#[export] Hint Resolve fits_sha fits_u64 fits_u32 fits_prefixed fits_opaque fits_vault_id fits_reservation
  fits_rollback fits_locator fits_resource fits_action fits_rollback_action fits_capability
  fits_rollback_capability : framed.
#[export] Hint Extern 1 (fits (as_bytes _)) => eapply fits_digest_id; [eassumption|done] : framed.
#[export] Hint Extern 2 (fits [_]) => by apply fits_short : framed.

Lemma frames_inj vs vs' :
  length vs = length vs' → Forall fits vs → Forall fits vs' → frames vs = frames vs' → vs = vs'.
Proof.
  intros Hl Hv Hv' Heq. apply (f_equal (.++ [])) in Heq. by apply frames_app_inj in Heq as [-> _].
Qed.

Ltac all_fit := repeat (apply Forall_cons_2; [eauto with framed|]); apply Forall_nil_2.

(** Equal framed records have equal fields. *)
Ltac frame_fields H :=
  apply frames_inj in H; [|done|all_fit..];
  repeat match type of H with
  | _ :: _ = _ :: _ => let E := fresh "Hf" in apply cons_eq_inj in H as [E H]
  end.

(** ** Widths *)

(** Ranges of the Rust types of the fields that no check bounds. *)
Definition is_u32 (z : Z) : Prop := (0 ≤ z < 2 ^ 32)%Z.
Definition metadata_typed (m : RepairFileMetadataV1) : Prop :=
  is_u32 m.(mode) ∧ is_u32 m.(meta_uid) ∧ is_u32 m.(meta_gid).

Lemma be_bytes_4_inj z z' : is_u32 z → is_u32 z' → be_bytes 4 z = be_bytes 4 z' → z = z'.
Proof.
  unfold is_u32. intros Hz Hz' H%(f_equal be_value). rewrite !be_value_be_bytes in H.
  change (256 ^ Z.of_nat 4)%Z with (2 ^ 32)%Z in H. by rewrite !Z.mod_small in H by lia.
Qed.

Lemma metadata_preimage_inj m m' :
  metadata_typed m → metadata_typed m' → metadata_preimage m = metadata_preimage m' → m = m'.
Proof.
  intros (?&?&?) (?&?&?) Heq. apply app_inv_head in Heq. frame_fields Heq.
  apply be_bytes_4_inj in Hf, Hf0, Hf1; [|done..].
  destruct m as [? ? ? [] []], m' as [? ? ? [] []]. simpl in *. congruence.
Qed.

(** ** Intents, bindings and backups *)

Lemma intent_validate_Ok i :
  intent_validate i = Ok tt ↔
  ∃ r, i.(action_id) = resource_action_id r ∧ valid_prefixed_id i.(session_id) "S-" = true ∧
    (1 ≤ i.(approval_sequence) ≤ MAX_SAFE_JSON_INTEGER)%Z ∧ valid_opaque_id i.(target_id) = true ∧
    valid_digest_id i.(scan_fingerprint) "scan:" = true ∧
    valid_digest_id i.(target_recovery_fingerprint) "recovery:" = true ∧
    valid_digest_id i.(lock_identity) "lock:" = true ∧ i.(before_sha256) ≠ i.(after_sha256) ∧
    (i.(before_metadata).(mode) ≤ MAX_PERMISSION_MODE)%Z ∧ supports_metadata r i.(before_metadata) = true.
Proof.
  unfold intent_validate. split.
  - intros H. inv_ok H. apply action_resource_Ok in Hcall. guards. rewrite contains_spec in *.
    match goal with H : is_ok _ = true |- _ => apply is_ok_unit in H; unfold metadata_validate in H; inv_ok H end.
    rewrite Z.ltb_ge in *. exists v. split_and!; (done || lia).
  - intros (r & Ha & Hs & Hq & Ht & Hsc & Hr & Hl & Hne & Hm & Hsup).
    eapply bind_pass; [by apply action_resource_Ok|]. cbv beta.
    rewrite Hs, (proj2 (contains_spec _ _ _) Hq), Ht, Hsc, Hr, Hl, Hsup, (bool_decide_false _ Hne).
    unfold metadata_validate. rewrite (proj2 (Z.ltb_ge _ _) Hm). done.
Qed.

(** The optional fields of a durable record are those of one binding. *)
Definition carries (b : RepairBackupStatusPayload) (g : RepairBackupBinding) : Prop :=
  b.(plan_id) = Some g.(binding_plan_id) ∧ b.(plan_sha256) = Some g.(binding_plan_sha256) ∧
  b.(approval_id) = Some g.(binding_approval_id) ∧ b.(approval_sha256) = Some g.(binding_approval_sha256) ∧
  b.(resource_id) = Some g.(binding_resource_id) ∧ b.(resource_sha256) = Some g.(binding_resource_sha256) ∧
  b.(execution_intent) = Some g.(binding_execution_intent).

Section records.
Context `{sha : Sha256} `{shal : !Sha256Laws}.

Record durable (b : RepairBackupStatusPayload) (g : RepairBackupBinding) : Prop := {
  du_state : b.(backup_state) = Durable;
  du_locator : b.(locator) = reservation_locator b.(reservation_id);
  du_vault : valid_vault_id b.(vault_id) = true;
  du_size : (1 ≤ b.(backup_size) ≤ MAX_REPAIR_BACKUP_BYTES)%Z;
  du_reserved : (b.(backup_size) ≤ b.(reserved_bytes) ≤ MAX_REPAIR_RESERVED_BYTES)%Z;
  du_carries : carries b g;
  du_plan : valid_prefixed_id g.(binding_plan_id) "P-" = true;
  du_approval : valid_prefixed_id g.(binding_approval_id) "A-" = true;
  du_resource : ∃ r, g.(binding_resource_id) = resource_resource_id r;
  du_intent : intent_validate g.(binding_execution_intent) = Ok tt;
  du_before : g.(binding_resource_sha256) = g.(binding_execution_intent).(before_sha256);
  du_backup : b.(expected_backup_sha256) = g.(binding_execution_intent).(before_sha256);
  du_metadata : b.(metadata_sha256)
    = canonical_repair_file_metadata_sha256 g.(binding_execution_intent).(before_metadata);
  du_parent : b.(physical_parent_fingerprint)
    ≠ g.(binding_execution_intent).(target_physical_parent_fingerprint);
}.

Lemma is_some_and_true {A} (o : option A) f : is_some_and o f = true ↔ ∃ a, o = Some a ∧ f a = true.
Proof. destruct o; simpl; naive_solver. Qed.

Lemma durable_Ok b :
  backup_validate b = Ok tt ∧ b.(backup_state) = Durable ↔ ∃ g, durable b g.
Proof.
  unfold backup_validate. split.
  - intros [H Hst]. inv_ok H. rewrite Hst in *. unfold binding_fields_are_valid in *. guards.
    rewrite !contains_spec, !is_some_and_true in *.
    repeat match goal with H : is_Some _ |- _ => destruct H as [? ?] | H : ∃ _, _ |- _ => destruct H as (?&?&?) end.
    match goal with H : is_some_and _ _ = true |- _ => apply is_some_and_true in H as (i & Hi & H) end.
    guards. rewrite is_ok_unit, valid_resource_id_spec in *.
    eexists (mkBackupBinding _ _ _ _ _ _ i). split; unfold carries; cbn; first [assumption | split_and!; assumption | by eauto].
  - intros (g & [Hst Hl Hv Hs Hr Hc Hp Ha Hres Hi Hb He Hm Hpar]). split; [|done].
    rewrite Hst. unfold binding_fields_are_valid. destruct Hc as (->&->&->&->&->&->&->).
    destruct g as [gp gps ga gas gr grs gi]. simpl in *.
    rewrite Hl, ne_refl_false, Hv, (proj2 (contains_spec _ _ _) Hs), (proj2 (contains_spec _ _ _) Hr). cbn [is_some_and].
    rewrite Hp, Ha, (proj2 (valid_resource_id_spec _) Hres), Hi, Hb, He, Hm, !eq_refl_true.
    rewrite (bool_decide_true (_ ≠ _)) by done. done.
Qed.

Lemma durable_fun b g g' : carries b g → carries b g' → g = g'.
Proof. unfold carries. destruct g, g'. simpl. intuition congruence. Qed.

(** ** Transactions *)

Definition tx_preimage (b : RepairBackupStatusPayload) (g : RepairBackupBinding) : bytes :=
  transaction_preimage b g.(binding_plan_id) g.(binding_plan_sha256) g.(binding_approval_id)
    g.(binding_approval_sha256) g.(binding_resource_id) g.(binding_resource_sha256)
    g.(binding_execution_intent).

Lemma transaction_binding_Ok b s :
  canonical_repair_transaction_binding_sha256 b = Ok s ↔ ∃ g, durable b g ∧ s = digest_of (tx_preimage b g).
Proof.
  unfold canonical_repair_transaction_binding_sha256. split.
  - intros H. apply result_bind_Ok in H as ([] & Hv & H). apply reject_Ok in H as [Hst H]. guards.
    destruct (proj1 (durable_Ok b) (conj Hv Hst)) as [g Hg].
    destruct (du_carries _ _ Hg) as (E1&E2&E3&E4&E5&E6&E7). rewrite E1, E2, E3, E4, E5, E6, E7 in H.
    cbn [ok_or mbind result_bind] in H. apply Ok_inj_1 in H as <-. by exists g.
  - intros (g & Hg & ->). destruct (proj2 (durable_Ok b) (ex_intro _ g Hg)) as [Hv Hst].
    rewrite Hv, Hst, ne_refl_false. cbn [mbind result_bind].
    destruct (du_carries _ _ Hg) as (E1&E2&E3&E4&E5&E6&E7). rewrite E1, E2, E3, E4, E5, E6, E7. done.
Qed.

(** What an observation must show to close a transaction. *)
Definition closes (r : RepairTransactionResolution) (i : RepairExecutionIntentV1) : Prop :=
  r.(target_state) = classify_target_state r.(observed_resource_sha256) i ∧
  (r.(outcome) ≠ ManualOutcome →
   r.(observed_metadata_sha256) = canonical_repair_file_metadata_sha256 i.(before_metadata) ∧
   r.(mount_cleanup_verified) = true ∧
   r.(observed_resource_sha256) = match r.(outcome) with CommittedAfter => i.(after_sha256) | _ => i.(before_sha256) end).

Lemma classify_spec s i :
  i.(before_sha256) ≠ i.(after_sha256) →
  (classify_target_state s i = Before ↔ s = i.(before_sha256)) ∧
  (classify_target_state s i = After ↔ s = i.(after_sha256)).
Proof. intros Hne. unfold classify_target_state. repeat case_bool_decide; naive_solver. Qed.

Lemma resolution_validate_Ok r i :
  resolution_validate_against r i = Ok tt ↔ intent_validate i = Ok tt ∧ closes r i.
Proof.
  unfold resolution_validate_against, closes. split.
  - intros H. apply result_bind_Ok in H as ([] & Hi & H). split; [done|].
    apply reject_Ok in H as [Hts H]. apply reject_Ok in H as [Hc _]. guards. split; [done|].
    apply intent_validate_Ok in Hi as (? & _ & _ & _ & _ & _ & _ & _ & Hne & _).
    destruct (classify_spec r.(observed_resource_sha256) i Hne) as [Hb Ha].
    rewrite Hts in Hc. destruct r.(outcome); intros ?; try done; guards; naive_solver.
  - intros (Hi & Hts & Hc). rewrite Hi. cbn [mbind result_bind]. rewrite Hts, ne_refl_false.
    apply intent_validate_Ok in Hi as (? & _ & _ & _ & _ & _ & _ & _ & Hne & _).
    destruct (classify_spec r.(observed_resource_sha256) i Hne) as [Hb Ha].
    destruct r.(outcome); try done; destruct Hc as (-> & -> & Ho); try done;
      (rewrite (proj2 Ha Ho) || rewrite (proj2 Hb Ho)); by rewrite !eq_refl_true.
Qed.

Definition progress (p : RepairTransactionPhase) (r : option RepairTransactionResolution)
    (i : RepairExecutionIntentV1) : Prop :=
  match r with
  | None => p = Pending
  | Some r => p = transaction_phase r ∧ closes r i
  end.

Lemma transaction_validate_Ok t :
  transaction_validate t = Ok tt ↔
  ∃ g, durable t.(backup) g ∧ t.(transaction_binding_sha256) = digest_of (tx_preimage t.(backup) g) ∧
    progress t.(phase) t.(resolution) g.(binding_execution_intent).
Proof.
  unfold transaction_validate. split.
  - intros H. apply result_bind_Ok in H as ([] & Hv & H). apply reject_Ok in H as [Hst H].
    apply result_bind_Ok in H as (s & Hs & H). apply reject_Ok in H as [Hb H]. guards.
    apply transaction_binding_Ok in Hs as (g & Hg & ->). exists g. split_and!; [done..|].
    destruct (du_carries _ _ Hg) as (_&_&_&_&_&_&Hi). rewrite Hi in H. cbn [ok_or mbind result_bind] in H.
    unfold progress. destruct t.(phase), t.(resolution) as [r|]; try done; case_bool_decide; try done;
      apply resolution_validate_Ok in H as [_ H]; done.
  - intros (g & Hg & Hb & Hp). destruct (proj2 (durable_Ok _) (ex_intro _ g Hg)) as [Hv Hst].
    rewrite Hv. cbn [mbind result_bind]. rewrite Hst, ne_refl_false.
    rewrite (proj2 (transaction_binding_Ok _ _) (ex_intro _ g (conj Hg eq_refl))). cbn [mbind result_bind].
    rewrite Hb, ne_refl_false. destruct (du_carries _ _ Hg) as (_&_&_&_&_&_&Hi). rewrite Hi.
    cbn [ok_or mbind result_bind]. unfold progress in Hp. pose proof (du_intent _ _ Hg).
    destruct t.(resolution) as [r|]; [|by rewrite Hp]. destruct Hp as [-> Hc].
    destruct (transaction_phase r) eqn:Hr; [by unfold transaction_phase in Hr; destruct r.(outcome)|..];
      by apply resolution_validate_Ok.
Qed.

(** ** Commitments *)

(** Two lists of hashed messages that contain a collision at the same place. *)
Definition collides (l l' : list bytes) : Prop := Exists (λ p, collision p.1 p.2) (zip l l').

Lemma collides_here x y l l' : collision x y → collides (x :: l) (y :: l').
Proof. intros. by left. Qed.
Lemma collides_there x y l l' : collides l l' → collides (x :: l) (y :: l').
Proof. intros. by right. Qed.

Definition intent_hashed (i : RepairExecutionIntentV1) : list bytes :=
  [intent_preimage i; metadata_preimage i.(before_metadata)].
Definition backup_hashed (b : RepairBackupStatusPayload) (g : RepairBackupBinding) : list bytes :=
  tx_preimage b g :: intent_hashed g.(binding_execution_intent).

Lemma intent_commits i i' :
  intent_validate i = Ok tt → intent_validate i' = Ok tt →
  metadata_typed i.(before_metadata) → metadata_typed i'.(before_metadata) →
  canonical_repair_execution_intent_sha256 i = canonical_repair_execution_intent_sha256 i' →
  i = i' ∨ collides (intent_hashed i) (intent_hashed i').
Proof using shal.
  intros Hi Hi' Hm Hm' [Heq|Hc]%digest_of_inj; [|right; by apply collides_here].
  apply intent_validate_Ok in Hi as (r & Ha & ? & Hq & ? & ? & ? & ? & _).
  apply intent_validate_Ok in Hi' as (r' & Ha' & ? & Hq' & ? & ? & ? & ? & _).
  unfold intent_preimage in Heq. apply app_inv_head in Heq. rewrite Ha, Ha' in Heq. frame_fields Heq.
  match goal with H : sha_bytes (canonical_repair_file_metadata_sha256 _) = _ |- _ =>
    apply (inj sha_bytes), digest_of_inj in H as [Hme|Hc]; [|right; by apply collides_there, collides_here] end.
  apply metadata_preimage_inj in Hme; [|done..]. left.
  repeat match goal with
  | H : as_bytes _ = as_bytes _ |- _ => apply (inj as_bytes) in H
  | H : sha_bytes _ = sha_bytes _ |- _ => apply (inj sha_bytes) in H
  | H : to_be_bytes _ = to_be_bytes _ |- _ => apply to_be_bytes_inj in H; [|unfold MAX_SAFE_JSON_INTEGER, is_u64, U64_MAX in *; lia..]
  end.
  clear Hq Hq' Hm Hm'. repeat match goal with H : _ = true |- _ => clear H end.
  destruct i, i'. simpl in *. f_equal; congruence.
Qed.

Ltac field_eqs :=
  repeat match goal with
  | H : as_bytes _ = as_bytes _ |- _ => apply (inj as_bytes) in H
  | H : sha_bytes _ = sha_bytes _ |- _ => apply (inj sha_bytes) in H
  | H : as_str _ = as_str _ |- _ => apply (inj as_str) in H
  end.

Lemma backup_commits b b' g g' :
  durable b g → durable b' g' →
  metadata_typed g.(binding_execution_intent).(before_metadata) →
  metadata_typed g'.(binding_execution_intent).(before_metadata) →
  digest_of (tx_preimage b g) = digest_of (tx_preimage b' g') →
  b = b' ∨ collides (backup_hashed b g) (backup_hashed b' g').
Proof using shal.
  intros Hd Hd' Hm Hm' [Heq|Hc]%digest_of_inj; [|right; by apply collides_here].
  destruct Hd as [? Hloc ? Hs Hr Hcar ? ? [r Hres] Hi _ _ _ _], Hd' as [? Hloc' ? Hs' Hr' Hcar' ? ? [r' Hres'] Hi' _ _ _ _].
  unfold tx_preimage, transaction_preimage in Heq. apply app_inv_head in Heq.
  rewrite Hloc, Hloc', Hres, Hres' in Heq. frame_fields Heq. field_eqs.
  match goal with H : canonical_repair_execution_intent_sha256 _ = _ |- _ =>
    apply intent_commits in H as [Hint|Hc]; [|right; by apply collides_there|done..] end.
  unfold MAX_REPAIR_BACKUP_BYTES, MAX_REPAIR_RESERVED_BYTES in *.
  repeat match goal with H : to_be_bytes _ = to_be_bytes _ |- _ =>
    apply to_be_bytes_inj in H; [|unfold is_u64, U64_MAX; lia..] end.
  repeat match goal with H : _ = true |- _ => clear H end. clear Hi Hi'.
  left. destruct Hcar as (?&?&?&?&?&?&?), Hcar' as (?&?&?&?&?&?&?).
  destruct b, b'. simpl in *. f_equal; congruence.
Qed.

(** ** Write leases *)

Lemma resource_from_transaction_Ok t g r :
  carries t.(backup) g →
  repair_resource_from_transaction t = Ok r ↔
  g.(binding_execution_intent).(action_id) = resource_action_id r ∧ g.(binding_resource_id) = resource_resource_id r.
Proof.
  intros (_&_&_&_&Hr&_&Hi). unfold repair_resource_from_transaction. rewrite Hr, Hi. apply from_execution_Ok.
Qed.

(** The action, the resource and the lock of a record are those of one resource. *)
Record bound_to (g : RepairBackupBinding) (r : RepairResourceV1) : Prop := {
  bt_action : g.(binding_execution_intent).(action_id) = resource_action_id r;
  bt_resource : g.(binding_resource_id) = resource_resource_id r;
  bt_lock : g.(binding_execution_intent).(lock_identity)
    = canonical_repair_lock_identity_for_resource
        g.(binding_execution_intent).(target_recovery_fingerprint) r;
}.

(** A pending transaction whose lease may be consumed. *)
Record leasable (t : RepairTransactionStatusPayload) (g : RepairBackupBinding) (r : RepairResourceV1) : Prop := {
  le_durable : durable t.(backup) g;
  le_binding : t.(transaction_binding_sha256) = digest_of (tx_preimage t.(backup) g);
  le_phase : t.(phase) = Pending;
  le_resolution : t.(resolution) = None;
  le_bound : bound_to g r;
}.

Lemma pending_Ok t :
  transaction_validate t = Ok tt ∧ t.(phase) = Pending ↔
  ∃ g, durable t.(backup) g ∧ t.(transaction_binding_sha256) = digest_of (tx_preimage t.(backup) g) ∧
    t.(phase) = Pending ∧ t.(resolution) = None.
Proof.
  rewrite transaction_validate_Ok. split.
  - intros [(g & Hg & Hb & Hp) Hph]. exists g. split_and!; try done. rewrite Hph in Hp.
    destruct t.(resolution) as [r|]; [|done]. destruct Hp as [Hp _]. unfold transaction_phase in Hp.
    by destruct r.(outcome).
  - intros (g & Hg & Hb & Hph & Hr). split; [|done]. exists g. split_and!; try done. by rewrite Hr.
Qed.

Lemma write_lease_sha256_Ok t e s :
  canonical_repair_write_lease_sha256 t e = Ok s ↔
  all_zero e = false ∧
  ∃ g r, leasable t g r ∧ s = digest_of (write_lease_preimage r t e g.(binding_execution_intent)).
Proof.
  unfold canonical_repair_write_lease_sha256. rewrite every_zero_all_zero. split.
  - intros H. apply result_bind_Ok in H as ([] & Hv & H). apply reject_Ok in H as [Hg H].
    apply orb_false_iff in Hg as [Hph He]. guards. split; [done|].
    destruct (proj1 (pending_Ok t) (conj Hv Hph)) as (g & Hd & Hb & _ & Hr).
    destruct (du_carries _ _ Hd) as (_&_&_&_&_&_&Hi). rewrite Hi in H. cbn [ok_or mbind result_bind] in H.
    apply result_bind_Ok in H as (r & Hres & H). apply (resource_from_transaction_Ok _ g) in Hres as [Ha Hrid]; [|apply Hd].
    apply reject_Ok in H as [Hl H]. guards. apply Ok_inj_1 in H as <-. by exists g, r.
  - intros (He & g & r & [Hd Hb Hph Hr [Ha Hrid Hl]] & ->).
    rewrite (proj1 (proj2 (pending_Ok t) (ex_intro _ g (conj Hd (conj Hb (conj Hph Hr)))))).
    cbn [mbind result_bind]. rewrite Hph, ne_refl_false, He. cbn [orb].
    pose proof (du_carries _ _ Hd) as Hc. pose proof Hc as (_&_&_&_&_&_&Hi). rewrite Hi. cbn [ok_or mbind result_bind].
    rewrite (proj2 (resource_from_transaction_Ok t g r Hc) (conj Ha Hrid)). cbn [mbind result_bind].
    by rewrite <-Hl, ne_refl_false.
Qed.

Lemma write_lease_validate_Ok l :
  write_lease_validate l = Ok tt ↔
  all_zero l.(lease_boot_epoch_sha256) = false ∧
  ∃ g r, leasable l.(lease_transaction) g r ∧ l.(lease_capability) = write_lease_capability r ∧
    l.(lease_binding_sha256)
    = digest_of (write_lease_preimage r l.(lease_transaction) l.(lease_boot_epoch_sha256) g.(binding_execution_intent)).
Proof.
  unfold write_lease_validate. split.
  - intros H. apply result_bind_Ok in H as ([] & Hv & H). apply result_bind_Ok in H as (i & Hi & H).
    apply result_bind_Ok in H as (r & Hres & H). apply reject_Ok in H as [Hg H].
    apply result_bind_Ok in H as (s & Hs & H). apply reject_Ok in H as [Hb _]. guards.
    apply write_lease_sha256_Ok in Hs as (He & g & r' & Hle & ->). split; [done|]. exists g, r'.
    apply (resource_from_transaction_Ok _ g) in Hres as [Ha _]; [|apply Hle].
    assert (r = r') as -> by (apply (inj resource_action_id); rewrite <-Ha; apply Hle). by split_and!.
  - intros (He & g & r & Hle & Hc & Hb). pose proof Hle as [Hd Hbi Hph Hr [Ha Hrid Hl]].
    rewrite (proj1 (proj2 (pending_Ok _) (ex_intro _ g (conj Hd (conj Hbi (conj Hph Hr)))))).
    cbn [mbind result_bind]. pose proof (du_carries _ _ Hd) as Hca. pose proof Hca as (_&_&_&_&_&_&Hi). rewrite Hi.
    cbn [ok_or mbind result_bind]. rewrite (proj2 (resource_from_transaction_Ok _ g r Hca) (conj Ha Hrid)).
    cbn [mbind result_bind]. rewrite Hc, Hph, (du_state _ _ Hd), every_zero_all_zero, He, <-Hl, !ne_refl_false.
    cbn [orb]. rewrite (proj2 (write_lease_sha256_Ok _ _ _) (conj He (ex_intro _ g (ex_intro _ r (conj Hle eq_refl))))).
    cbn [mbind result_bind]. by rewrite Hb, ne_refl_false.
Qed.

Definition lease_hashed (l : RepairWriteLeasePayload) (g : RepairBackupBinding) (r : RepairResourceV1) : list bytes :=
  write_lease_preimage r l.(lease_transaction) l.(lease_boot_epoch_sha256) g.(binding_execution_intent)
  :: backup_hashed l.(lease_transaction).(backup) g.

(** ** Rollbacks *)

(** The one resolution of a committed repair: the approved bytes and the old
    metadata were seen after the mounts were cleaned up. *)
Definition committed_resolution (i : RepairExecutionIntentV1) : RepairTransactionResolution :=
  mkResolution CommittedAfter After i.(after_sha256)
    (canonical_repair_file_metadata_sha256 i.(before_metadata)) true.

Record committed (s : RepairTransactionStatusPayload) (g : RepairBackupBinding) : Prop := {
  co_durable : durable s.(backup) g;
  co_binding : s.(transaction_binding_sha256) = digest_of (tx_preimage s.(backup) g);
  co_phase : s.(phase) = Resolved;
  co_resolution : s.(resolution) = Some (committed_resolution g.(binding_execution_intent));
}.

Lemma committed_source_Ok s :
  validate_committed_rollback_source s = Ok tt ↔ ∃ g, committed s g.
Proof.
  unfold validate_committed_rollback_source. split.
  - intros H. apply result_bind_Ok in H as ([] & Hv & H). apply reject_Ok in H as [Hg _].
    apply orb_false_iff in Hg as [Hph Ho]. guards. apply transaction_validate_Ok in Hv as (g & Hd & Hb & Hp).
    exists g. split; try done. destruct s.(resolution) as [r|]; [|done]. simpl in Ho. apply (inj Some) in Ho.
    destruct Hp as [_ [Hts Hc]]. rewrite Ho in Hc. destruct Hc as (Hm & Hcl & Hob); [done|].
    destruct (proj1 (intent_validate_Ok _) (du_intent _ _ Hd)) as (? & _ & _ & _ & _ & _ & _ & _ & Hne & _).
    rewrite (proj2 (proj2 (classify_spec _ _ Hne)) Hob) in Hts.
    destruct r. unfold committed_resolution. simpl in *. by subst.
  - intros (g & [Hd Hb Hph Hr]).
    assert (transaction_validate s = Ok tt) as ->.
    { apply transaction_validate_Ok. exists g. split_and!; [done..|]. rewrite Hph, Hr.
      destruct (proj1 (intent_validate_Ok _) (du_intent _ _ Hd)) as (? & _ & _ & _ & _ & _ & _ & _ & Hne & _).
      split; [done|]. split; [|done]. simpl. symmetry. by apply (proj2 (classify_spec _ _ Hne)). }
    cbn [mbind result_bind]. by rewrite Hph, Hr, !ne_refl_false.
Qed.

(** A plan and an approval that were made for this rollback. *)
Record fresh (b : RepairRollbackBindingV1) (g : RepairBackupBinding) (r : RepairResourceV1) : Prop := {
  fr_supported : r ≠ Ext4Filesystem;
  fr_source_action : g.(binding_execution_intent).(action_id) = resource_action_id r;
  fr_source_resource : g.(binding_resource_id) = resource_resource_id r;
  fr_action : b.(rb_action_id) = rollback_action_id r;
  fr_plan_id : valid_prefixed_id b.(rb_plan_id) "P-" = true;
  fr_approval_id : valid_prefixed_id b.(rb_approval_id) "A-" = true;
  fr_plan_nonzero : all_zero b.(rb_plan_sha256) = false;
  fr_approval_nonzero : all_zero b.(rb_approval_sha256) = false;
  fr_new_plan_id : b.(rb_plan_id) ≠ g.(binding_plan_id);
  fr_new_plan : b.(rb_plan_sha256) ≠ g.(binding_plan_sha256);
  fr_new_approval_id : b.(rb_approval_id) ≠ g.(binding_approval_id);
  fr_new_approval : b.(rb_approval_sha256) ≠ g.(binding_approval_sha256);
  fr_next : b.(rb_approval_sequence) = (g.(binding_execution_intent).(approval_sequence) + 1)%Z;
  fr_bound : (b.(rb_approval_sequence) ≤ MAX_SAFE_JSON_INTEGER)%Z;
}.

Lemma approval_sequence_Some n m :
  next_sequence n = Some m ↔ m = (n + 1)%Z ∧ (m ≤ MAX_SAFE_JSON_INTEGER)%Z.
Proof.
  unfold next_sequence. split.
  - intros H. apply bind_Some in H as (v & Hv & H). apply checked_add_u64_Some in Hv as [-> _].
    destruct (Z.leb_spec (n + 1) MAX_SAFE_JSON_INTEGER); naive_solver.
  - intros [-> Hm]. rewrite checked_add_u64_fits by (unfold MAX_SAFE_JSON_INTEGER, U64_MAX in *; lia). simpl.
    by rewrite (proj2 (Z.leb_le _ _) Hm).
Qed.

Lemma rollback_binding_Ok b s :
  rollback_binding_validate_against b s = Ok tt ↔ ∃ g r, committed s g ∧ fresh b g r.
Proof.
  unfold rollback_binding_validate_against. split.
  - intros H. apply result_bind_Ok in H as ([] & Hv & H). apply committed_source_Ok in Hv as (g & Hc).
    pose proof (du_carries _ _ (co_durable _ _ Hc)) as Hca. destruct (Hca) as (E1&E2&E3&E4&E5&E6&E7).
    rewrite E1, E2, E3, E4, E7 in H. cbn [ok_or mbind result_bind] in H.
    apply result_bind_Ok in H as (r & Hr & H). apply (resource_from_transaction_Ok _ g) in Hr as [Ha Hrid]; [|done].
    apply reject_Ok in H as [Hx H]. apply result_bind_Ok in H as (m & Hm & H).
    apply ok_or_Ok in Hm. apply approval_sequence_Some in Hm as [-> Hm]. apply reject_Ok in H as [Hg _].
    guards. exists g, r. split; [done|]. split; try done; congruence || lia.
  - intros (g & r & Hc & []). rewrite (proj2 (committed_source_Ok s) (ex_intro _ g Hc)).
    cbn [mbind result_bind]. pose proof (du_carries _ _ (co_durable _ _ Hc)) as Hca.
    destruct (Hca) as (E1&E2&E3&E4&E5&E6&E7). rewrite E1, E2, E3, E4, E7. cbn [ok_or mbind result_bind].
    rewrite (proj2 (resource_from_transaction_Ok _ g r Hca)) by done. cbn [mbind result_bind].
    rewrite (bool_decide_false (r = _)) by done.
    rewrite (proj2 (approval_sequence_Some _ _)) by (split; [reflexivity|lia]). cbn [ok_or mbind result_bind].
    rewrite fr_action0, fr_plan_id0, fr_approval_id0, fr_plan_nonzero0, fr_approval_nonzero0, fr_next0, !ne_refl_false.
    by rewrite !bool_decide_false by done.
Qed.

Lemma rollback_digest_Ok id s b d :
  canonical_repair_rollback_transaction_binding_sha256 id s b = Ok d ↔
  rollback_binding_validate_against b s = Ok tt ∧ d = digest_of (rollback_transaction_preimage id s b).
Proof.
  unfold canonical_repair_rollback_transaction_binding_sha256. split.
  - intros H. apply result_bind_Ok in H as ([] & Hv & H). by apply Ok_inj_1 in H as <-.
  - intros [-> ->]. done.
Qed.

Lemma rollback_pending_Ok t :
  rollback_validate t = Ok tt ∧ t.(rt_phase) = Pending ↔
  rollback_binding_validate_against t.(rt_binding) t.(rt_source) = Ok tt ∧
  t.(rollback_transaction_binding_sha256)
    = digest_of (rollback_transaction_preimage t.(rollback_id) t.(rt_source) t.(rt_binding)) ∧
  t.(rt_phase) = Pending ∧ t.(rt_resolution) = None.
Proof.
  unfold rollback_validate. split.
  - intros [H Hph]. apply result_bind_Ok in H as ([] & Hv & H). apply result_bind_Ok in H as (d & Hd & H).
    apply rollback_digest_Ok in Hd as [_ ->]. apply reject_Ok in H as [Hb H]. guards. rewrite Hph in H.
    destruct t.(rt_resolution); done.
  - intros (Hv & Hb & Hph & Hr). split; [|done]. rewrite Hv. cbn [mbind result_bind].
    rewrite (proj2 (rollback_digest_Ok _ _ _ _) (conj Hv eq_refl)). cbn [mbind result_bind].
    by rewrite Hb, ne_refl_false, Hph, Hr.
Qed.

(** A pending rollback whose lease may be consumed. *)
Record rollback_leasable (t : RepairRollbackTransactionStatusPayload) (g : RepairBackupBinding)
    (r : RepairResourceV1) : Prop := {
  rl_committed : committed t.(rt_source) g;
  rl_fresh : fresh t.(rt_binding) g r;
  rl_digest : t.(rollback_transaction_binding_sha256)
    = digest_of (rollback_transaction_preimage t.(rollback_id) t.(rt_source) t.(rt_binding));
  rl_phase : t.(rt_phase) = Pending;
  rl_resolution : t.(rt_resolution) = None;
  rl_bound : bound_to g r;
}.

Lemma rollback_write_lease_sha256_Ok t e s :
  canonical_repair_rollback_write_lease_sha256 t e = Ok s ↔
  all_zero e = false ∧
  ∃ g r, rollback_leasable t g r ∧ s = digest_of (rollback_write_lease_preimage r t e g.(binding_execution_intent)).
Proof.
  unfold canonical_repair_rollback_write_lease_sha256. split.
  - intros H. apply result_bind_Ok in H as ([] & Hv & H). apply reject_Ok in H as [Hg H].
    apply orb_false_iff in Hg as [Hph He]. guards. split; [done|].
    destruct (proj1 (rollback_pending_Ok t) (conj Hv Hph)) as (Hbi & Hd & _ & Hr).
    apply rollback_binding_Ok in Hbi as (g & r & Hc & Hf).
    pose proof (du_carries _ _ (co_durable _ _ Hc)) as Hca. destruct (Hca) as (_&_&_&_&_&_&Hi).
    rewrite Hi in H. cbn [ok_or mbind result_bind] in H. apply result_bind_Ok in H as (r' & Hres & H).
    apply (resource_from_transaction_Ok _ g) in Hres as [Ha Hrid]; [|done].
    assert (r = r') as <- by (apply (inj resource_action_id); rewrite <-Ha; symmetry; apply Hf).
    apply reject_Ok in H as [Hl H]. guards. apply Ok_inj_1 in H as <-. by exists g, r.
  - intros (He & g & r & [Hc Hf Hd Hph Hr [Ha Hrid Hl]] & ->).
    rewrite (proj1 (proj2 (rollback_pending_Ok t)
      (conj (proj2 (rollback_binding_Ok _ _) (ex_intro _ g (ex_intro _ r (conj Hc Hf)))) (conj Hd (conj Hph Hr))))).
    cbn [mbind result_bind]. rewrite Hph, ne_refl_false, He. cbn [orb].
    pose proof (du_carries _ _ (co_durable _ _ Hc)) as Hca. destruct (Hca) as (_&_&_&_&_&_&Hi). rewrite Hi.
    cbn [ok_or mbind result_bind]. rewrite (proj2 (resource_from_transaction_Ok _ g r Hca) (conj Ha Hrid)).
    cbn [mbind result_bind]. by rewrite <-Hl, ne_refl_false.
Qed.

Lemma rollback_write_lease_validate_Ok l :
  rollback_write_lease_validate l = Ok tt ↔
  all_zero l.(rl_boot_epoch_sha256) = false ∧
  ∃ g r, rollback_leasable l.(rl_transaction) g r ∧ l.(rl_capability) = rollback_write_lease_capability r ∧
    l.(rl_lease_binding_sha256)
    = digest_of (rollback_write_lease_preimage r l.(rl_transaction) l.(rl_boot_epoch_sha256) g.(binding_execution_intent)).
Proof.
  unfold rollback_write_lease_validate. split.
  - intros H. apply result_bind_Ok in H as ([] & Hv & H). apply result_bind_Ok in H as (i & Hi & H).
    apply result_bind_Ok in H as (r & Hres & H). apply reject_Ok in H as [Hg H].
    apply result_bind_Ok in H as (s & Hs & H). apply reject_Ok in H as [Hb _]. guards.
    apply rollback_write_lease_sha256_Ok in Hs as (He & g & r' & Hle & ->). split; [done|]. exists g, r'.
    apply (resource_from_transaction_Ok _ g) in Hres as [Ha _]; [|apply Hle].
    assert (r = r') as -> by (apply (inj resource_action_id); rewrite <-Ha; apply Hle). by split_and!.
  - intros (He & g & r & Hle & Hc & Hb). pose proof Hle as [Hco Hf Hd Hph Hr [Ha Hrid Hl]].
    rewrite (proj1 (proj2 (rollback_pending_Ok _)
      (conj (proj2 (rollback_binding_Ok _ _) (ex_intro _ g (ex_intro _ r (conj Hco Hf)))) (conj Hd (conj Hph Hr))))).
    cbn [mbind result_bind]. pose proof (du_carries _ _ (co_durable _ _ Hco)) as Hca. destruct (Hca) as (_&_&_&_&_&_&Hi).
    rewrite Hi. cbn [ok_or mbind result_bind]. rewrite (proj2 (resource_from_transaction_Ok _ g r Hca) (conj Ha Hrid)).
    cbn [mbind result_bind]. rewrite Hc, Hph, (fr_action _ _ _ Hf), He, <-Hl, !ne_refl_false. cbn [orb].
    rewrite (proj2 (rollback_write_lease_sha256_Ok _ _ _) (conj He (ex_intro _ g (ex_intro _ r (conj Hle eq_refl))))).
    cbn [mbind result_bind]. by rewrite Hb, ne_refl_false.
Qed.

(** ** Leases of both kinds *)

(** A receipt that the broker may act on: of a repair or of its rollback. *)
Inductive Receipt := RepairLease (l : RepairWriteLeasePayload) | RollbackLease (l : RepairRollbackWriteLeasePayload).

Definition receipt_validate (l : Receipt) : result ProtocolViolation () :=
  match l with RepairLease l => write_lease_validate l | RollbackLease l => rollback_write_lease_validate l end.
Definition receipt_digest (l : Receipt) : Sha256Text :=
  match l with RepairLease l => l.(lease_binding_sha256) | RollbackLease l => l.(rl_lease_binding_sha256) end.
(** The transaction that holds the authority: the one of the lease, or the one it rolls back. *)
Definition receipt_transaction (l : Receipt) : RepairTransactionStatusPayload :=
  match l with RepairLease l => l.(lease_transaction) | RollbackLease l => l.(rl_transaction).(rt_source) end.
Definition receipt_typed (l : Receipt) : Prop :=
  match (receipt_transaction l).(backup).(execution_intent) with
  | Some i => metadata_typed i.(before_metadata)
  | None => True
  end.

(** Everything that was hashed on the way to the digest of a lease. *)
Definition binding_of (b : RepairBackupStatusPayload) : option RepairBackupBinding :=
  p ← b.(plan_id); ps ← b.(plan_sha256); a ← b.(approval_id); as_ ← b.(approval_sha256);
  r ← b.(resource_id); rs ← b.(resource_sha256); i ← b.(execution_intent);
  Some (mkBackupBinding p ps a as_ r rs i).
Definition receipt_hashed (l : Receipt) : list bytes :=
  match binding_of (receipt_transaction l).(backup), repair_resource_from_transaction (receipt_transaction l) with
  | Some g, Ok r =>
      match l with
      | RepairLease l => lease_hashed l g r
      | RollbackLease l =>
          rollback_write_lease_preimage r l.(rl_transaction) l.(rl_boot_epoch_sha256) g.(binding_execution_intent)
          :: rollback_transaction_preimage l.(rl_transaction).(rollback_id) l.(rl_transaction).(rt_source)
               l.(rl_transaction).(rt_binding)
          :: backup_hashed l.(rl_transaction).(rt_source).(backup) g
      end
  | _, _ => []
  end.

Lemma binding_of_carries b g : carries b g → binding_of b = Some g.
Proof. intros (E1&E2&E3&E4&E5&E6&E7). unfold binding_of. rewrite E1, E2, E3, E4, E5, E6, E7. by destruct g. Qed.

Lemma typed_carries b g :
  carries b g → match b.(execution_intent) with Some i => metadata_typed i.(before_metadata) | None => True end →
  metadata_typed g.(binding_execution_intent).(before_metadata).
Proof. intros (_&_&_&_&_&_&->) H. exact H. Qed.

Lemma bound_resource t g r : carries t.(backup) g → bound_to g r → repair_resource_from_transaction t = Ok r.
Proof. intros Hc [Ha Hr _]. by apply (resource_from_transaction_Ok t g r Hc). Qed.

Lemma fits_intent i :
  intent_validate i = Ok tt →
  fits (as_bytes i.(target_recovery_fingerprint)) ∧ fits (as_bytes i.(lock_identity)).
Proof. intros (r & _ & _ & _ & _ & _ & ? & ? & _)%intent_validate_Ok. split; eauto with framed. Qed.

(** Both lease digests commit to capability, transaction, boot, target and lock. *)
Lemma write_lease_preimage_inj r r' t t' e e' i i' :
  intent_validate i = Ok tt → intent_validate i' = Ok tt →
  write_lease_preimage r t e i = write_lease_preimage r' t' e' i' →
  r = r' ∧ t.(transaction_binding_sha256) = t'.(transaction_binding_sha256) ∧ e = e'.
Proof.
  intros [? ?]%fits_intent [? ?]%fits_intent Heq. unfold write_lease_preimage in Heq. apply app_inv_head in Heq.
  frame_fields Heq. field_eqs. split_and!; [by apply (inj write_lease_capability)|assumption..].
Qed.

Lemma rollback_lease_preimage_inj r r' t t' e e' i i' :
  intent_validate i = Ok tt → intent_validate i' = Ok tt →
  rollback_write_lease_preimage r t e i = rollback_write_lease_preimage r' t' e' i' →
  r = r' ∧ t.(rollback_transaction_binding_sha256) = t'.(rollback_transaction_binding_sha256) ∧ e = e'.
Proof.
  intros [? ?]%fits_intent [? ?]%fits_intent Heq. unfold rollback_write_lease_preimage in Heq. apply app_inv_head in Heq.
  frame_fields Heq. field_eqs. split_and!; [by apply (inj rollback_write_lease_capability)|assumption..].
Qed.

Lemma repair_leases_commit l l' :
  write_lease_validate l = Ok tt → write_lease_validate l' = Ok tt →
  receipt_typed (RepairLease l) → receipt_typed (RepairLease l') →
  l.(lease_binding_sha256) = l'.(lease_binding_sha256) →
  l = l' ∨ collides (receipt_hashed (RepairLease l)) (receipt_hashed (RepairLease l')).
Proof using shal.
  intros (_ & g & r & Hle & Hc & Hb)%write_lease_validate_Ok (_ & g' & r' & Hle' & Hc' & Hb')%write_lease_validate_Ok Ht Ht' Heq.
  pose proof (du_carries _ _ (le_durable _ _ _ Hle)) as Hca. pose proof (du_carries _ _ (le_durable _ _ _ Hle')) as Hca'.
  unfold receipt_hashed; cbn [receipt_transaction].
  rewrite (binding_of_carries _ _ Hca), (binding_of_carries _ _ Hca'), (bound_resource _ _ _ Hca (le_bound _ _ _ Hle)),
    (bound_resource _ _ _ Hca' (le_bound _ _ _ Hle')).
  rewrite Hb, Hb' in Heq. apply digest_of_inj in Heq as [Heq|Hcol]; [|right; by apply collides_here].
  apply write_lease_preimage_inj in Heq as (<- & Htx & He);
    [|apply (du_intent _ _ (le_durable _ _ _ Hle))|apply (du_intent _ _ (le_durable _ _ _ Hle'))].
  rewrite (le_binding _ _ _ Hle), (le_binding _ _ _ Hle') in Htx.
  apply backup_commits in Htx as [Hbk|Hcol];
    [|right; by apply collides_there|apply Hle|apply Hle'|exact (typed_carries _ _ Hca Ht)|exact (typed_carries _ _ Hca' Ht')].
  left. assert (g = g') as <- by (eapply durable_fun; [apply Hca|by rewrite Hbk]).
  destruct Hle as [_ Htb Hph Hr _], Hle' as [_ Htb' Hph' Hr' _].
  assert (l.(lease_transaction) = l'.(lease_transaction)) as Hteq.
  { rewrite Hbk in Htb. destruct (lease_transaction l), (lease_transaction l'); simpl in *; congruence. }
  destruct l as [c e b t], l' as [c' e' b' t']. simpl in *. clear Htb Htb' Hph Hph' Hr Hr'. subst. done.
Qed.

Lemma rollback_frames_inj id id' s s' b b' g g' r r' :
  fresh b g r → fresh b' g' r' → intent_validate g.(binding_execution_intent) = Ok tt →
  intent_validate g'.(binding_execution_intent) = Ok tt →
  rollback_transaction_preimage id s b = rollback_transaction_preimage id' s' b' →
  id = id' ∧ s.(transaction_binding_sha256) = s'.(transaction_binding_sha256) ∧ b = b'.
Proof.
  intros [] [] (? & _ & _ & Hq & _)%intent_validate_Ok (? & _ & _ & Hq' & _)%intent_validate_Ok Heq.
  unfold rollback_transaction_preimage in Heq. apply app_inv_head in Heq.
  rewrite fr_action0, fr_action1 in Heq. frame_fields Heq. field_eqs.
  match goal with H : to_be_bytes _ = to_be_bytes _ |- _ =>
    apply to_be_bytes_inj in H; [|unfold MAX_SAFE_JSON_INTEGER, is_u64, U64_MAX in *; lia..] end.
  repeat match goal with H : _ = true |- _ => clear H end. split_and!; [done..|].
  destruct b, b'. simpl in *. f_equal; congruence.
Qed.

Lemma rollback_leases_commit l l' :
  rollback_write_lease_validate l = Ok tt → rollback_write_lease_validate l' = Ok tt →
  receipt_typed (RollbackLease l) → receipt_typed (RollbackLease l') →
  l.(rl_lease_binding_sha256) = l'.(rl_lease_binding_sha256) →
  l = l' ∨ collides (receipt_hashed (RollbackLease l)) (receipt_hashed (RollbackLease l')).
Proof using shal.
  intros (_ & g & r & Hle & Hc & Hb)%rollback_write_lease_validate_Ok
    (_ & g' & r' & Hle' & Hc' & Hb')%rollback_write_lease_validate_Ok Ht Ht' Heq.
  pose proof (rl_committed _ _ _ Hle) as Hco. pose proof (rl_committed _ _ _ Hle') as Hco'.
  pose proof (du_carries _ _ (co_durable _ _ Hco)) as Hca. pose proof (du_carries _ _ (co_durable _ _ Hco')) as Hca'.
  pose proof (du_intent _ _ (co_durable _ _ Hco)) as Hi. pose proof (du_intent _ _ (co_durable _ _ Hco')) as Hi'.
  unfold receipt_hashed; cbn [receipt_transaction].
  rewrite (binding_of_carries _ _ Hca), (binding_of_carries _ _ Hca'), (bound_resource _ _ _ Hca (rl_bound _ _ _ Hle)),
    (bound_resource _ _ _ Hca' (rl_bound _ _ _ Hle')).
  rewrite Hb, Hb' in Heq. apply digest_of_inj in Heq as [Heq|Hcol]; [|right; by apply collides_here].
  apply rollback_lease_preimage_inj in Heq as (<- & Htx & He); [|done..].
  rewrite (rl_digest _ _ _ Hle), (rl_digest _ _ _ Hle') in Htx.
  apply digest_of_inj in Htx as [Htx|Hcol]; [|right; by apply collides_there, collides_here].
  apply (rollback_frames_inj _ _ _ _ _ _ g g' r r) in Htx as (Hid & Hs & Hrb); [|apply Hle|apply Hle'|done..].
  rewrite (co_binding _ _ Hco), (co_binding _ _ Hco') in Hs.
  apply backup_commits in Hs as [Hbk|Hcol];
    [|right; by apply collides_there, collides_there|apply Hco|apply Hco'|exact (typed_carries _ _ Hca Ht)|exact (typed_carries _ _ Hca' Ht')].
  left. assert (g = g') as <- by (eapply durable_fun; [apply Hca|by rewrite Hbk]).
  assert (l.(rl_transaction).(rt_source) = l'.(rl_transaction).(rt_source)) as Hseq.
  { destruct Hco as [_ Hsb Hsp Hsr], Hco' as [_ Hsb' Hsp' Hsr']. rewrite Hbk in Hsb.
    destruct (rt_source (rl_transaction l)), (rt_source (rl_transaction l')); simpl in *; congruence. }
  destruct Hle as [_ _ Hd Hph Hr _], Hle' as [_ _ Hd' Hph' Hr' _]. clear Hco Hco' Hca Hca' Hi Hi' Ht Ht' Hbk.
  rewrite Hid, Hseq, Hrb in Hd. rewrite <-Hd' in Hd. clear Hd'.
  destruct l as [c e b [p id d s bi re]], l' as [c' e' b' [p' id' d' s' bi' re']]. simpl in *. subst. done.
Qed.

(** The two kinds of lease are hashed under different domains. *)
Lemma lease_kinds_apart l l' :
  write_lease_validate l = Ok tt → rollback_write_lease_validate l' = Ok tt →
  l.(lease_binding_sha256) = l'.(rl_lease_binding_sha256) →
  collides (receipt_hashed (RepairLease l)) (receipt_hashed (RollbackLease l')).
Proof using shal.
  intros (_ & g & r & Hle & _ & Hb)%write_lease_validate_Ok
    (_ & g' & r' & Hle' & _ & Hb')%rollback_write_lease_validate_Ok Heq.
  pose proof (du_carries _ _ (le_durable _ _ _ Hle)) as Hca.
  pose proof (du_carries _ _ (co_durable _ _ (rl_committed _ _ _ Hle'))) as Hca'.
  unfold receipt_hashed; cbn [receipt_transaction].
  rewrite (binding_of_carries _ _ Hca), (binding_of_carries _ _ Hca'), (bound_resource _ _ _ Hca (le_bound _ _ _ Hle)),
    (bound_resource _ _ _ Hca' (rl_bound _ _ _ Hle')).
  rewrite Hb, Hb' in Heq. apply digest_of_inj in Heq as [Heq|Hcol]; [|by apply collides_here].
  apply domain_app_inj in Heq as [Heq _]; [discriminate Heq|done..].
Qed.

Lemma collides_sym l l' : collides l l' → collides l' l.
Proof.
  unfold collides. revert l'. induction l as [|x l IH]; intros [|y l'] H; simpl in *; try by inversion H.
  apply Exists_cons in H as [[Hne Heq]|H]; [left|right; by apply IH]. by split; [apply not_eq_sym|symmetry].
Qed.

(** C17. The digest of a write lease pins the whole authority behind it: two
    leases that pass validation, each of a repair or of a rollback, and carry the
    same lease digest are the same lease (same kind and capability, same boot
    epoch, same transaction with its backup, plan, approval, approved intent and
    file metadata, same rollback identity and approval) unless the messages that
    were hashed for them exhibit a SHA-256 collision. *)
Theorem repair_leases_pin_authority l l' :
  receipt_validate l = Ok tt → receipt_validate l' = Ok tt → receipt_typed l → receipt_typed l' →
  receipt_digest l = receipt_digest l' →
  l = l' ∨ collides (receipt_hashed l) (receipt_hashed l').
Proof using shal.
  destruct l as [l|l], l' as [l'|l']; cbn [receipt_validate receipt_digest]; intros Hv Hv' Ht Ht' Heq.
  - destruct (repair_leases_commit l l') as [->|]; auto.
  - right. by apply lease_kinds_apart.
  - right. by apply collides_sym, lease_kinds_apart.
  - destruct (rollback_leases_commit l l') as [->|]; auto.
Qed.

(** ** Construction and validation *)

Lemma write_lease_consumed_Ok t e l :
  write_lease_consumed t e = Ok l ↔
  all_zero e = false ∧ ∃ g r, leasable t g r ∧
    l = mkWriteLease (write_lease_capability r) e
          (digest_of (write_lease_preimage r t e g.(binding_execution_intent))) t.
Proof.
  unfold write_lease_consumed. split.
  - intros H. apply result_bind_Ok in H as (r & Hr & H). apply result_bind_Ok in H as (d & Hd & H).
    apply result_bind_Ok in H as ([] & _ & H). apply Ok_inj_1 in H as <-.
    apply write_lease_sha256_Ok in Hd as (He & g & r' & Hle & ->). split; [done|]. exists g, r'.
    rewrite (bound_resource _ _ _ (du_carries _ _ (le_durable _ _ _ Hle)) (le_bound _ _ _ Hle)) in Hr.
    by apply Ok_inj_1 in Hr as <-.
  - intros (He & g & r & Hle & ->).
    rewrite (bound_resource _ _ _ (du_carries _ _ (le_durable _ _ _ Hle)) (le_bound _ _ _ Hle)). cbn [mbind result_bind].
    rewrite (proj2 (write_lease_sha256_Ok t e _) (conj He (ex_intro _ g (ex_intro _ r (conj Hle eq_refl))))).
    cbn [mbind result_bind]. eapply bind_pass; [|done].
    apply write_lease_validate_Ok. split; [done|]. by exists g, r.
Qed.

Lemma rollback_write_lease_consumed_Ok t e l :
  rollback_write_lease_consumed t e = Ok l ↔
  all_zero e = false ∧ ∃ g r, rollback_leasable t g r ∧
    l = mkRollbackWriteLease (rollback_write_lease_capability r) e
          (digest_of (rollback_write_lease_preimage r t e g.(binding_execution_intent))) t.
Proof.
  unfold rollback_write_lease_consumed. split.
  - intros H. apply result_bind_Ok in H as (r & Hr & H). apply result_bind_Ok in H as (d & Hd & H).
    apply result_bind_Ok in H as ([] & _ & H). apply Ok_inj_1 in H as <-.
    apply rollback_write_lease_sha256_Ok in Hd as (He & g & r' & Hle & ->). split; [done|]. exists g, r'.
    rewrite (bound_resource _ _ _ (du_carries _ _ (co_durable _ _ (rl_committed _ _ _ Hle))) (rl_bound _ _ _ Hle)) in Hr.
    by apply Ok_inj_1 in Hr as <-.
  - intros (He & g & r & Hle & ->).
    rewrite (bound_resource _ _ _ (du_carries _ _ (co_durable _ _ (rl_committed _ _ _ Hle))) (rl_bound _ _ _ Hle)).
    cbn [mbind result_bind].
    rewrite (proj2 (rollback_write_lease_sha256_Ok t e _) (conj He (ex_intro _ g (ex_intro _ r (conj Hle eq_refl))))).
    cbn [mbind result_bind]. eapply bind_pass; [|done].
    apply rollback_write_lease_validate_Ok. split; [done|]. by exists g, r.
Qed.

Lemma transaction_new_Ok p b r t :
  transaction_new p b r = Ok t ↔
  transaction_validate t = Ok tt ∧ t.(phase) = p ∧ t.(backup) = b ∧ t.(resolution) = r.
Proof.
  unfold transaction_new. split.
  - intros H. apply result_bind_Ok in H as (s & _ & H). apply result_bind_Ok in H as ([] & Hv & H).
    by apply Ok_inj_1 in H as <-.
  - intros (Hv & <- & <- & <-). pose proof (proj1 (transaction_validate_Ok t) Hv) as (g & Hd & Hb & _).
    rewrite (proj2 (transaction_binding_Ok _ _) (ex_intro _ g (conj Hd eq_refl))). cbn [mbind result_bind].
    rewrite <-Hb. destruct t. cbn in *. by rewrite Hv.
Qed.

Lemma transaction_built t :
  transaction_validate t = Ok tt ↔
  (∃ b, transaction_pending b = Ok t) ∨ (∃ b r, transaction_resolved b r = Ok t).
Proof.
  unfold transaction_pending, transaction_resolved. setoid_rewrite transaction_new_Ok. split.
  - intros Hv. pose proof (proj1 (transaction_validate_Ok t) Hv) as (g & _ & _ & Hp).
    destruct t.(resolution) as [r|] eqn:Hr; [right|left]; [exists t.(backup), r|exists t.(backup)]; naive_solver.
  - naive_solver.
Qed.

Lemma rollback_new_Ok p id s b r t :
  rollback_new p id s b r = Ok t ↔
  rollback_validate t = Ok tt ∧ t.(rt_phase) = p ∧ t.(rollback_id) = id ∧ t.(rt_source) = s ∧
  t.(rt_binding) = b ∧ t.(rt_resolution) = r.
Proof.
  unfold rollback_new. split.
  - intros H. apply result_bind_Ok in H as ([] & _ & H). apply result_bind_Ok in H as (d & _ & H).
    apply result_bind_Ok in H as ([] & Hv & H). by apply Ok_inj_1 in H as <-.
  - intros (Hv & <- & <- & <- & <- & <-). pose proof Hv as H. unfold rollback_validate in H.
    apply result_bind_Ok in H as ([] & Hb & H). apply result_bind_Ok in H as (d & Hd & H).
    apply reject_Ok in H as [Hbi _]. guards. rewrite Hb. cbn [mbind result_bind]. rewrite Hd. cbn [mbind result_bind].
    rewrite <-Hbi. destruct t. cbn in *. by rewrite Hv.
Qed.

Lemma rollback_built t :
  rollback_validate t = Ok tt ↔
  (∃ id s b, rollback_pending id s b = Ok t) ∨ (∃ id s b r, rollback_resolved id s b r = Ok t).
Proof.
  unfold rollback_pending, rollback_resolved. setoid_rewrite rollback_new_Ok. split.
  - intros Hv. pose proof Hv as H. unfold rollback_validate in H.
    apply result_bind_Ok in H as ([] & _ & H). apply result_bind_Ok in H as (d & _ & H). apply reject_Ok in H as [_ H].
    destruct t.(rt_phase) eqn:Hp, t.(rt_resolution) as [r|] eqn:Hr; try done; [left|right..];
      [|case_bool_decide; [|done]..]; eauto 12.
  - naive_solver.
Qed.

Lemma rollback_binding_built b s :
  rollback_binding_validate_against b s = Ok tt ↔
  rollback_binding_new s b.(rb_plan_id) b.(rb_plan_sha256) b.(rb_approval_id) b.(rb_approval_sha256)
    b.(rb_approval_sequence) = Ok b.
Proof.
  unfold rollback_binding_new. split.
  - intros Hv. pose proof (proj1 (rollback_binding_Ok b s) Hv) as (g & r & Hc & Hf).
    rewrite (proj2 (resource_from_transaction_Ok s g r (du_carries _ _ (co_durable _ _ Hc)))
      (conj (fr_source_action _ _ _ Hf) (fr_source_resource _ _ _ Hf))). cbn [mbind result_bind].
    rewrite <-(fr_action _ _ _ Hf). destruct b. cbn in *. by rewrite Hv.
  - intros H. apply result_bind_Ok in H as (r & _ & H). apply result_bind_Ok in H as ([] & Hv & H).
    apply Ok_inj_1 in H as <-. apply Hv.
Qed.

Lemma intent_built i :
  intent_validate i = Ok tt ↔
  ∃ r, intent_new_for_resource r i.(session_id) i.(approval_sequence) i.(target_id) i.(scan_fingerprint)
    i.(target_fingerprint) i.(target_physical_parent_fingerprint) i.(target_recovery_fingerprint)
    i.(lock_identity) i.(before_sha256) i.(after_sha256) i.(diff_sha256) i.(observed_uuid_set_sha256)
    i.(before_metadata) = Ok i.
Proof.
  unfold intent_new_for_resource. split.
  - intros Hv. pose proof (proj1 (intent_validate_Ok i) Hv) as (r & Ha & _). exists r. rewrite <-Ha.
    destruct i. cbn in *. by rewrite Hv.
  - intros (r & H). apply result_bind_Ok in H as ([] & Hv & H). by apply Ok_inj_1 in H as <-.
Qed.

Lemma resolution_built r i :
  resolution_validate_against r i = Ok tt ↔
  resolution_new r.(outcome) r.(observed_resource_sha256) r.(observed_metadata_sha256)
    r.(mount_cleanup_verified) i = Ok r.
Proof.
  unfold resolution_new. split.
  - intros Hv. pose proof (proj1 (resolution_validate_Ok r i) Hv) as (_ & Hts & _). rewrite <-Hts.
    destruct r. cbn in *. by rewrite Hv.
  - intros H. apply result_bind_Ok in H as ([] & Hv & H). by apply Ok_inj_1 in H as <-.
Qed.

(** C37. Validation of a record read from the wire is equivalent to its
    construction: an intent, a resolution, a transaction, a rollback binding, a
    rollback transaction, a write lease and a rollback write lease pass their
    validation exactly when the checking constructors build them from their own
    fields, so a decoder that validates admits no record that the code could not
    have produced, and rejects none that it produces. *)
Theorem repair_validation_matches_construction :
  (∀ i, intent_validate i = Ok tt ↔
    ∃ r, intent_new_for_resource r i.(session_id) i.(approval_sequence) i.(target_id) i.(scan_fingerprint)
      i.(target_fingerprint) i.(target_physical_parent_fingerprint) i.(target_recovery_fingerprint)
      i.(lock_identity) i.(before_sha256) i.(after_sha256) i.(diff_sha256) i.(observed_uuid_set_sha256)
      i.(before_metadata) = Ok i) ∧
  (∀ r i, resolution_validate_against r i = Ok tt ↔
    resolution_new r.(outcome) r.(observed_resource_sha256) r.(observed_metadata_sha256)
      r.(mount_cleanup_verified) i = Ok r) ∧
  (∀ t, transaction_validate t = Ok tt ↔
    (∃ b, transaction_pending b = Ok t) ∨ (∃ b r, transaction_resolved b r = Ok t)) ∧
  (∀ b s, rollback_binding_validate_against b s = Ok tt ↔
    rollback_binding_new s b.(rb_plan_id) b.(rb_plan_sha256) b.(rb_approval_id) b.(rb_approval_sha256)
      b.(rb_approval_sequence) = Ok b) ∧
  (∀ t, rollback_validate t = Ok tt ↔
    (∃ id s b, rollback_pending id s b = Ok t) ∨ (∃ id s b r, rollback_resolved id s b r = Ok t)) ∧
  (∀ l, write_lease_validate l = Ok tt ↔
    write_lease_consumed l.(lease_transaction) l.(lease_boot_epoch_sha256) = Ok l) ∧
  (∀ l, rollback_write_lease_validate l = Ok tt ↔
    rollback_write_lease_consumed l.(rl_transaction) l.(rl_boot_epoch_sha256) = Ok l).
Proof.
  split_and!; [apply intent_built|apply resolution_built|apply transaction_built|apply rollback_binding_built
    |apply rollback_built|..]; intros l.
  - rewrite write_lease_validate_Ok, write_lease_consumed_Ok. destruct l. simpl. naive_solver.
  - rewrite rollback_write_lease_validate_Ok, rollback_write_lease_consumed_Ok. destruct l. simpl. naive_solver.
Qed.

(** C19. When write authority is granted. [consumed] gives a repair lease exactly
    for a pending transaction over a durable backup whose digest it carries and
    whose action, resource and lock are those of one resource; it gives a rollback
    lease exactly for a pending rollback of a repair that was committed with the
    approved bytes and the old metadata observed after the mounts were cleaned up,
    of a resource other than ext4, with a plan and an approval that differ from
    the repair's own in identity and digest and with the approval sequence that
    follows the repair's within the JSON-safe range; both only in a boot with a
    non-zero epoch. The lease carries the capability of that resource and the
    digest of exactly these facts. *)
Theorem repair_lease_authority :
  (∀ t e l, write_lease_consumed t e = Ok l ↔
    all_zero e = false ∧ ∃ g r, leasable t g r ∧
      l = mkWriteLease (write_lease_capability r) e
            (digest_of (write_lease_preimage r t e g.(binding_execution_intent))) t) ∧
  (∀ t e l, rollback_write_lease_consumed t e = Ok l ↔
    all_zero e = false ∧ ∃ g r, rollback_leasable t g r ∧
      l = mkRollbackWriteLease (rollback_write_lease_capability r) e
            (digest_of (rollback_write_lease_preimage r t e g.(binding_execution_intent))) t).
Proof. split; [apply write_lease_consumed_Ok|apply rollback_write_lease_consumed_Ok]. Qed.

End records.

(** ** A repair and its rollback *)

Module RepairDemo.
(** A hash that is cheap to evaluate: the first bytes of the message. *)
Definition prefix_sha256 : Sha256 := λ m, take 32 (m ++ replicate 32 x5a).
Lemma prefix_sha256_laws : @Sha256Laws prefix_sha256.
Proof. intros m. unfold prefix_sha256. cbv [sha256]. rewrite length_take, length_app, length_replicate. lia. Qed.
#[local] Existing Instances prefix_sha256 prefix_sha256_laws.

Definition hex_digest (b : byte) : Sha256Text := sha256_expect (replicate 32 b).
Definition demo_reservation : RepairReservationId :=
  Checked (p := hex_id 32 "B-") "B-0123456789abcdef0123456789abcdef" I.
Definition demo_rollback_id : RepairRollbackId :=
  Checked (p := hex_id 32 "RB-") "RB-0123456789abcdef0123456789abcdef" I.
Definition demo_recovery : string := "recovery:" +:+ hex_string (replicate 32 x11).
Definition demo_metadata : RepairFileMetadataV1 := mkMetadata 420 0 0 AbsenceNone AbsenceNone.

(** fstab: approve, back up, repair, commit, and open the rollback. *)
Definition demo_lease : result ProtocolViolation (RepairWriteLeasePayload * RepairRollbackWriteLeasePayload) :=
  intent ← intent_new "S-1" 7 "disk:1" ("scan:" +:+ hex_string (replicate 32 x01)) (hex_digest x02)
    (hex_digest x03) demo_recovery (canonical_repair_lock_identity demo_recovery) (hex_digest x04)
    (hex_digest x05) (hex_digest x06) (hex_digest x07) demo_metadata;
  binding ← backup_binding_new "P-1" (hex_digest x08) "A-1" (hex_digest x09)
    REPAIR_EXECUTION_RESOURCE_ID (hex_digest x04) intent;
  backup ← backup_durable demo_reservation (hex_digest x0a) (reservation_locator demo_reservation)
    "V-0123456789abcdef0123456789abcdef" (hex_digest x0b) (hex_digest x0c) 4096 100 (hex_digest x04)
    (canonical_repair_file_metadata_sha256 demo_metadata) binding;
  pending ← transaction_pending backup;
  lease ← write_lease_consumed pending (hex_digest x0d);
  resolution ← resolution_new CommittedAfter (hex_digest x05)
    (canonical_repair_file_metadata_sha256 demo_metadata) true intent;
  committed ← transaction_resolved backup resolution;
  rollback ← rollback_binding_new committed "P-2" (hex_digest x18) "A-2" (hex_digest x19) 8;
  open ← rollback_pending demo_rollback_id committed rollback;
  rollback_lease ← rollback_write_lease_consumed open (hex_digest x0e);
  Ok (lease, rollback_lease).

Lemma demo_leases : is_ok demo_lease = true.
Proof. vm_compute. reflexivity. Qed.

Definition demo_rollback_lease : RepairRollbackWriteLeasePayload :=
  match demo_lease as r return (is_ok r = true → _) with
  | Ok (_, l) => λ _, l
  | Err _ => λ H, False_rect _ (eq_ind false (λ b, if b then False else True) I true H)
  end demo_leases.

Lemma repair_leases_pin_authority_witness :
  rollback_write_lease_validate demo_rollback_lease = Ok tt ∧
  (RollbackLease demo_rollback_lease = RollbackLease demo_rollback_lease ∨
   collides (receipt_hashed (RollbackLease demo_rollback_lease)) (receipt_hashed (RollbackLease demo_rollback_lease))).
Proof.
  assert (rollback_write_lease_validate demo_rollback_lease = Ok tt) as Hv by (vm_compute; reflexivity).
  assert (receipt_typed (RollbackLease demo_rollback_lease)) as Ht.
  { vm_compute. split_and!; congruence. }
  split; [exact Hv|].
  exact (repair_leases_pin_authority (RollbackLease demo_rollback_lease) (RollbackLease demo_rollback_lease)
    Hv Hv Ht Ht eq_refl).
Defined.

End RepairDemo.
