(* ===== verification/RescueVault.v ===== *)
(** * The Rescue vault protocol, server side (crates/protocol/src/rescue_vault.rs)

    The closed contract of the vault socket: which kernel UID has which role,
    which role may ask for which operation, how one datagram with its descriptors
    becomes a validated request or a refusal, and which response a request
    admits. Both optional features (fleet signing, repair store) are on.

    What the kernel answers about a descriptor is a record of the answers; the
    flag values of the kernel interface and the serde_json readers and writers are
    class parameters. *)

From Stdlib.Strings Require Import Byte.
From Stdlib Require String Ascii.
From S2P Require Import Prelude Bytes Text Crypto VaultWire DeviceIdentity RepairVault.

(** ** Constants *)

Definition API_VERSION : string := "kernaid.dev/rescue-vault/v1alpha1".
Definition ROLLBACK_API_VERSION : string := "kernaid.dev/rescue-vault/v1alpha2".
Definition MAX_DATAGRAM_BYTES : Z := 64 * 1024.
Definition MAX_INITIAL_STATE_VERSION : Z := Z.shiftl 1 52 - 1.
Definition MAX_AUDIT_SEQUENCE : Z := 1000000.
Definition MIN_PASSPHRASE_BYTES : Z := 12.
Definition MAX_PASSPHRASE_BYTES : Z := 1024.
Definition MAX_OPENAI_KEY_BYTES : Z := 512.
Definition MAX_SESSION_REPORT_JSON_BYTES : Z := MAX_SIGNED_REPORT_PAYLOAD_BYTES.
Definition MAX_SIGNED_REPORT_ENVELOPE_BYTES : Z := 1536 * 1024.
Definition MAX_FLEET_SIGNING_INPUT_BYTES : Z := 4 * 1024.
Definition MAX_FLEET_SIGNED_REQUEST_BYTES : Z := 4 * 1024.
Definition MAX_REPORTS_PER_RESPONSE : nat := 256.
Definition SESSION_REPORT_MEDIA_TYPE : string := "application/json".
Definition PIPEFS_MAGIC : Z := 0x50495045.
Definition NSFS_MAGIC : Z := 0x6e736673.

(** ** Peers *)

Inductive AgentRole := Application | OpenAi | Codex | Fleet.
Inductive PeerRole := Companion | Agent (role : AgentRole) | RepairBroker | RepairTargetHelper.

#[export] Instance AgentRole_eq_dec : EqDecision AgentRole.
Proof. solve_decision. Defined.
#[export] Instance PeerRole_eq_dec : EqDecision PeerRole.
Proof. solve_decision. Defined.

Record PeerAllowlist := mkAllowlist {
  companion_uid : Z;
  application_uid : option Z;
  openai_uid : option Z;
  codex_uid : option Z;
  fleet_uid : option Z;
  repair_broker_uid : option Z;
  root_only : bool;
}.

Definition role_for (a : PeerAllowlist) (peer_uid : Z) : result ProtocolViolation PeerRole :=
  if a.(root_only) then
    if peer_uid == 0%Z then Ok RepairTargetHelper else Err NotAuthorized
  else if peer_uid == a.(companion_uid) then Ok Companion
  else if a.(application_uid) == Some peer_uid then Ok (Agent Application)
  else if a.(openai_uid) == Some peer_uid then Ok (Agent OpenAi)
  else if a.(codex_uid) == Some peer_uid then Ok (Agent Codex)
  else if a.(fleet_uid) == Some peer_uid then Ok (Agent Fleet)
  else if a.(repair_broker_uid) == Some peer_uid then Ok RepairBroker
  else Err NotAuthorized.

Definition repair_target_helper_root_only : PeerAllowlist :=
  mkAllowlist 0 None None None None None true.

(** [PeerAllowlistBuilder]. *)
Record PeerAllowlistBuilder := mkAllowlistBuilder {
  b_companion_uid : Z;
  b_application_uid : option Z;
  b_openai_uid : option Z;
  b_codex_uid : option Z;
  b_fleet_uid : option Z;
  b_repair_broker_uid : option Z;
}.

Definition builder (companion_uid : Z) : PeerAllowlistBuilder :=
  mkAllowlistBuilder companion_uid None None None None None.

Definition uid_for (b : PeerAllowlistBuilder) (role : AgentRole) : option Z :=
  match role with
  | Application => b.(b_application_uid)
  | OpenAi => b.(b_openai_uid)
  | Codex => b.(b_codex_uid)
  | Fleet => b.(b_fleet_uid)
  end.
(** [*self.uid_for_mut(role) = value]. *)
Definition set_uid_for (role : AgentRole) (value : option Z) (b : PeerAllowlistBuilder) :
    PeerAllowlistBuilder :=
  let '(mkAllowlistBuilder c a o x f r) := b in
  match role with
  | Application => mkAllowlistBuilder c value o x f r
  | OpenAi => mkAllowlistBuilder c a value x f r
  | Codex => mkAllowlistBuilder c a o value f r
  | Fleet => mkAllowlistBuilder c a o x value r
  end.

Definition builder_agent (b : PeerAllowlistBuilder) (role : AgentRole) (uid : Z) :
    result ProtocolViolation PeerAllowlistBuilder :=
  reject ((uid == 0%Z) || (uid == b.(b_companion_uid)) || (b.(b_application_uid) == Some uid)
          || (b.(b_openai_uid) == Some uid) || (b.(b_codex_uid) == Some uid)
          || (b.(b_fleet_uid) == Some uid) || (b.(b_repair_broker_uid) == Some uid)
          || bool_decide (is_Some (uid_for b role))) with InvalidAllowlist;
  Ok (set_uid_for role (Some uid) b).

Definition builder_repair_broker (b : PeerAllowlistBuilder) (uid : Z) :
    result ProtocolViolation PeerAllowlistBuilder :=
  reject ((uid == 0%Z) || (uid == b.(b_companion_uid)) || (b.(b_application_uid) == Some uid)
          || (b.(b_openai_uid) == Some uid) || (b.(b_codex_uid) == Some uid)
          || (b.(b_fleet_uid) == Some uid) || bool_decide (is_Some b.(b_repair_broker_uid)))
    with InvalidAllowlist;
  Ok (mkAllowlistBuilder b.(b_companion_uid) b.(b_application_uid) b.(b_openai_uid) b.(b_codex_uid)
        b.(b_fleet_uid) (Some uid)).

(** [configured.iter().flatten()]. *)
Definition configured (b : PeerAllowlistBuilder) : list Z :=
  omap id [b.(b_application_uid); b.(b_openai_uid); b.(b_codex_uid); b.(b_fleet_uid); b.(b_repair_broker_uid)].

Definition build (b : PeerAllowlistBuilder) : result ProtocolViolation PeerAllowlist :=
  let uids := configured b in
  reject ((b.(b_companion_uid) == 0%Z)
          || existsb (λ uid, (uid == 0%Z) || (uid == b.(b_companion_uid))) uids
          || existsb (λ '(index, uid), existsb (λ other, other == uid) (drop (index + 1) uids))
               (imap pair uids)) with InvalidAllowlist;
  Ok (mkAllowlist b.(b_companion_uid) b.(b_application_uid) b.(b_openai_uid) b.(b_codex_uid)
        b.(b_fleet_uid) b.(b_repair_broker_uid) false).

Definition companion_only (companion_uid : Z) : result ProtocolViolation PeerAllowlist :=
  build (builder companion_uid).

(** ** Operations *)

Inductive Operation :=
| OpVaultStatus | OpVaultUnlock | OpVaultLock | OpProviderOpenAiConfigure | OpProviderStatus
| OpProviderLogout | OpProviderOpenAiBorrow | OpProviderCodexHomeLease | OpAuditAppend
| OpReportPersist | OpReportList | OpReportGet | OpFleetEnrollmentSign | OpFleetWorkOrderClaimSign
| OpFleetWorkOrderResultSign | OpRepairBackupReserve | OpRepairBackupPersist | OpRepairBackupStatus
| OpRepairBackupGet | OpRepairBackupCancel | OpRepairBackupRetire | OpRepairTransactionStatus
| OpRepairTransactionResolve | OpRepairVaultLiveParent | OpRepairTransactionWriteLeaseConsume
| OpRepairRollbackBegin | OpRepairRollbackStatus | OpRepairRollbackResolve
| OpRepairRollbackWriteLeaseConsume.

#[export] Instance Operation_eq_dec : EqDecision Operation.
Proof. solve_decision. Defined.

Definition api_version (op : Operation) : string :=
  match op with
  | OpRepairRollbackBegin | OpRepairRollbackStatus | OpRepairRollbackResolve
  | OpRepairRollbackWriteLeaseConsume => ROLLBACK_API_VERSION
  | _ => API_VERSION
  end.

Definition permits (op : Operation) (role : PeerRole) : bool :=
  match role with
  | Companion =>
      match op with
      | OpVaultStatus | OpVaultUnlock | OpVaultLock | OpProviderOpenAiConfigure | OpProviderStatus
      | OpProviderLogout | OpReportList | OpReportGet => true
      | _ => false
      end
  | Agent Application =>
      match op with
      | OpVaultStatus | OpProviderStatus | OpAuditAppend | OpReportPersist | OpReportList | OpReportGet => true
      | _ => false
      end
  | Agent OpenAi =>
      match op with OpVaultStatus | OpProviderStatus | OpProviderOpenAiBorrow => true | _ => false end
  | Agent Codex => match op with OpVaultStatus | OpProviderCodexHomeLease => true | _ => false end
  | Agent Fleet =>
      match op with
      | OpVaultStatus | OpFleetEnrollmentSign | OpFleetWorkOrderClaimSign | OpFleetWorkOrderResultSign => true
      | _ => false
      end
  | RepairBroker =>
      match op with
      | OpRepairBackupReserve | OpRepairBackupPersist | OpRepairBackupStatus | OpRepairBackupGet
      | OpRepairBackupCancel | OpRepairBackupRetire | OpRepairTransactionStatus
      | OpRepairTransactionResolve | OpRepairRollbackBegin | OpRepairRollbackStatus
      | OpRepairRollbackResolve | OpRepairVaultLiveParent => true
      | _ => false
      end
  | RepairTargetHelper =>
      match op with
      | OpRepairTransactionWriteLeaseConsume | OpRepairRollbackWriteLeaseConsume => true
      | _ => false
      end
  end.

(** ** Requests *)

Inductive Provider := ProviderOpenAi | ProviderCodex.
Inductive AuditEventType := AgentSessionStart | AgentDiagnosisComplete | AgentSessionEnd.
Inductive AuditOutcome := Succeeded | Rejected | Failed.

#[export] Instance Provider_eq_dec : EqDecision Provider.
Proof. solve_decision. Defined.
#[export] Instance AuditEventType_eq_dec : EqDecision AuditEventType.
Proof. solve_decision. Defined.
#[export] Instance AuditOutcome_eq_dec : EqDecision AuditOutcome.
Proof. solve_decision. Defined.

Inductive RequestPayload :=
| ReqEmpty
| ReqVaultUnlock (input : DescriptorDeclaration)
| ReqProviderOpenAiConfigure (input : DescriptorDeclaration)
| ReqProviderCodexHomeLease (mount_namespace mount_root : DescriptorDeclaration)
| ReqProviderLogout (provider : Provider)
| ReqAuditAppend (sequence : Z) (event : AuditEventType) (outcome : AuditOutcome) (error : option ErrorToken)
| ReqReportPersist (report_id : ReportId) (payload_sha256 : Sha256Text) (input : DescriptorDeclaration)
| ReqReportGet (report_id : ReportId)
| ReqFleetEnrollmentSign (input : DescriptorDeclaration)
| ReqFleetWorkOrderClaimSign (input : DescriptorDeclaration)
| ReqFleetWorkOrderResultSign (input : DescriptorDeclaration)
| ReqRepairBackupReserve (draft : RepairBackupDraft)
| ReqRepairBackupPersist (expected : RepairBackupStatusPayload) (binding : RepairBackupBinding)
    (metadata : RepairFileMetadataV1) (input : DescriptorDeclaration)
| ReqRepairBackupStatus (expected : RepairBackupStatusPayload)
| ReqRepairBackupGet (expected : RepairBackupStatusPayload)
| ReqRepairBackupCancel (reservation_id : RepairReservationId) (draft_binding_sha256 : Sha256Text)
| ReqRepairBackupRetire (expected : RepairBackupStatusPayload)
| ReqRepairTransactionStatus (selector : RepairTransactionStatusSelector)
| ReqRepairTransactionResolve (expected : RepairTransactionStatusPayload) (resolution : RepairTransactionResolution)
| ReqRepairTransactionWriteLeaseConsume (selector : RepairTransactionStatusSelector)
| ReqRepairRollbackBegin (source : RepairTransactionStatusPayload) (rollback_id : RepairRollbackId)
    (binding : RepairRollbackBindingV1)
| ReqRepairRollbackStatus (selector : RepairRollbackStatusSelector)
| ReqRepairRollbackResolve (expected : RepairRollbackTransactionStatusPayload) (resolution : RepairRollbackResolution)
| ReqRepairRollbackWriteLeaseConsume (selector : RepairRollbackStatusSelector).

(** *** Wire structs *)

(** The text of a JSON value that is read later ([serde_json::value::RawValue]). *)
Definition RawValue : Type := string.

Record WireRequest := mkWireRequest {
  wire_api_version : string;
  wire_request_id : string;
  wire_expected_state_version : Z;
  wire_operation : Operation;
  wire_payload : RawValue;
}.
Record CodexHomeLeasePayload := mkCodexHomeLease {
  ch_mount_namespace : DescriptorDeclaration;
  ch_mount_root : DescriptorDeclaration;
}.
Record AuditPayload := mkAudit {
  au_sequence : Z;
  au_event : AuditEventType;
  au_outcome : AuditOutcome;
  au_error : option ErrorToken;
}.
Record PersistPayload := mkPersist {
  pe_report_id : string;
  pe_payload_sha256 : string;
  pe_input : DescriptorDeclaration;
}.
Record RepairBackupReservePayload := mkReserve {
  re_session_id : string;
  re_target_id : string;
  re_target_fingerprint : string;
  re_target_recovery_fingerprint : string;
  re_expected_backup_sha256 : string;
  re_metadata_sha256 : string;
  re_backup_size : Z;
  re_required_capacity_bytes : Z;
}.
Record RepairBackupPersistPayload := mkRepairPersist {
  rp_expected : RepairBackupStatusPayload;
  rp_metadata : RepairFileMetadataV1;
  rp_plan_id : string;
  rp_plan_sha256 : string;
  rp_approval_id : string;
  rp_approval_sha256 : string;
  rp_resource_id : string;
  rp_resource_sha256 : string;
  rp_execution_intent : RepairExecutionIntentV1;
  rp_input : DescriptorDeclaration;
}.
Record RepairBackupCancelPayload := mkCancel {
  ca_reservation_id : string;
  ca_draft_binding_sha256 : string;
}.
Record RepairTransactionResolveRequestPayload := mkResolve {
  rs_expected : RepairTransactionStatusPayload;
  rs_resolution : RepairTransactionResolution;
}.
Record RepairRollbackBeginRequestPayload := mkBegin {
  be_source : RepairTransactionStatusPayload;
  be_rollback_id : RepairRollbackId;
  be_binding : RepairRollbackBindingV1;
}.
Record RepairRollbackResolveRequestPayload := mkRollbackResolve {
  rrs_expected : RepairRollbackTransactionStatusPayload;
  rrs_resolution : RepairRollbackResolution;
}.

(** The readers that [#[derive(Deserialize)]] and serde_json give: the envelope
    from the datagram, each payload struct from the text of the payload. A struct
    with a single field is read as this field. *)
Class RequestJson : Type := {
  read_request : bytes → option WireRequest;
  read_empty : RawValue → option ();
  read_input : RawValue → option DescriptorDeclaration;
  read_codex_home_lease : RawValue → option CodexHomeLeasePayload;
  read_logout : RawValue → option Provider;
  read_audit : RawValue → option AuditPayload;
  read_persist : RawValue → option PersistPayload;
  read_get : RawValue → option string;
  read_reserve : RawValue → option RepairBackupReservePayload;
  read_repair_persist : RawValue → option RepairBackupPersistPayload;
  read_reference : RawValue → option RepairBackupStatusPayload;
  read_cancel : RawValue → option RepairBackupCancelPayload;
  read_transaction_selector : RawValue → option RepairTransactionStatusSelector;
  read_resolve : RawValue → option RepairTransactionResolveRequestPayload;
  read_rollback_begin : RawValue → option RepairRollbackBeginRequestPayload;
  read_rollback_selector : RawValue → option RepairRollbackStatusSelector;
  read_rollback_resolve : RawValue → option RepairRollbackResolveRequestPayload;
}.

(** *** Payloads *)

Definition is_exact_selector (s : RepairTransactionStatusSelector) : bool :=
  match s with Exact _ _ => true | PendingSingleton => false end.
Definition is_exact_rollback_selector (s : RepairRollbackStatusSelector) : bool :=
  match s with RollbackExact _ _ => true | RollbackPendingSingleton => false end.

Definition audit_payload_valid (p : AuditPayload) : bool :=
  negb (negb (contains 1 MAX_AUDIT_SEQUENCE p.(au_sequence))
        || ((p.(au_outcome) == Succeeded) && bool_decide (is_Some p.(au_error)))
        || ((p.(au_outcome) != Succeeded) && (p.(au_error) == None))).

Section requests.
Context `{sha : Sha256} `{json : RequestJson}.

(** The arm of [parse_payload] for [RepairBackupPersist]. *)
Definition parse_repair_persist (raw : RawValue) : result ProtocolViolation RequestPayload :=
  p ← ok_or (read_repair_persist raw) InvalidPayload;
  _ ← backup_validate p.(rp_expected);
  _ ← metadata_validate p.(rp_metadata);
  _ ← intent_validate p.(rp_execution_intent);
  reject ((p.(rp_expected).(backup_state) != Reserved)
          || (canonical_repair_file_metadata_sha256 p.(rp_metadata) != p.(rp_expected).(metadata_sha256))
          || (p.(rp_execution_intent).(before_sha256) != p.(rp_expected).(expected_backup_sha256))
          || (p.(rp_execution_intent).(before_metadata) != p.(rp_metadata))
          || (p.(rp_execution_intent).(target_physical_parent_fingerprint)
              == p.(rp_expected).(physical_parent_fingerprint))) with InvalidPayload;
  _ ← validate_declaration p.(rp_input) RepairBackupInputPipe 1 MAX_REPAIR_BACKUP_BYTES;
  plan_sha256 ← sha256_parse p.(rp_plan_sha256);
  approval_sha256 ← sha256_parse p.(rp_approval_sha256);
  resource_sha256 ← sha256_parse p.(rp_resource_sha256);
  binding ← backup_binding_new p.(rp_plan_id) plan_sha256 p.(rp_approval_id) approval_sha256
    p.(rp_resource_id) resource_sha256 p.(rp_execution_intent);
  Ok (ReqRepairBackupPersist p.(rp_expected) binding p.(rp_metadata) p.(rp_input)).

(** The arm for [RepairBackupStatus], [RepairBackupGet] and [RepairBackupRetire]. *)
Definition parse_reference (op : Operation) (raw : RawValue) : result ProtocolViolation RequestPayload :=
  expected ← ok_or (read_reference raw) InvalidPayload;
  _ ← backup_validate expected;
  reject (bool_decide (op ∈ [OpRepairBackupGet; OpRepairBackupRetire])
          && (expected.(backup_state) != Durable)) with InvalidPayload;
  if op == OpRepairBackupStatus then Ok (ReqRepairBackupStatus expected)
  else if op == OpRepairBackupGet then Ok (ReqRepairBackupGet expected)
  else Ok (ReqRepairBackupRetire expected).

Definition parse_payload (op : Operation) (raw : RawValue) : result ProtocolViolation RequestPayload :=
  match op with
  | OpVaultStatus | OpVaultLock | OpProviderStatus | OpProviderOpenAiBorrow | OpReportList
  | OpRepairVaultLiveParent =>
      _ ← ok_or (read_empty raw) InvalidPayload;
      Ok ReqEmpty
  | OpVaultUnlock =>
      input ← ok_or (read_input raw) InvalidPayload;
      _ ← validate_declaration input PassphrasePipe MIN_PASSPHRASE_BYTES MAX_PASSPHRASE_BYTES;
      Ok (ReqVaultUnlock input)
  | OpProviderOpenAiConfigure =>
      input ← ok_or (read_input raw) InvalidPayload;
      _ ← validate_declaration input OpenAiApiKeyPipe 1 MAX_OPENAI_KEY_BYTES;
      Ok (ReqProviderOpenAiConfigure input)
  | OpFleetEnrollmentSign =>
      input ← ok_or (read_input raw) InvalidPayload;
      _ ← validate_declaration input FleetEnrollmentInputPipe 2 MAX_FLEET_SIGNING_INPUT_BYTES;
      Ok (ReqFleetEnrollmentSign input)
  | OpFleetWorkOrderClaimSign =>
      input ← ok_or (read_input raw) InvalidPayload;
      _ ← validate_declaration input FleetWorkOrderClaimInputPipe 2 MAX_FLEET_SIGNING_INPUT_BYTES;
      Ok (ReqFleetWorkOrderClaimSign input)
  | OpFleetWorkOrderResultSign =>
      input ← ok_or (read_input raw) InvalidPayload;
      _ ← validate_declaration input FleetWorkOrderResultInputPipe 2 MAX_FLEET_SIGNING_INPUT_BYTES;
      Ok (ReqFleetWorkOrderResultSign input)
  | OpProviderCodexHomeLease =>
      p ← ok_or (read_codex_home_lease raw) InvalidPayload;
      _ ← validate_declaration p.(ch_mount_namespace) CodexMountNamespace 0 0;
      _ ← validate_declaration p.(ch_mount_root) CodexMountRoot 0 0;
      Ok (ReqProviderCodexHomeLease p.(ch_mount_namespace) p.(ch_mount_root))
  | OpProviderLogout =>
      provider ← ok_or (read_logout raw) InvalidPayload;
      Ok (ReqProviderLogout provider)
  | OpAuditAppend =>
      p ← ok_or (read_audit raw) InvalidPayload;
      reject (negb (audit_payload_valid p)) with InvalidPayload;
      Ok (ReqAuditAppend p.(au_sequence) p.(au_event) p.(au_outcome) p.(au_error))
  | OpReportPersist =>
      p ← ok_or (read_persist raw) InvalidPayload;
      _ ← validate_declaration p.(pe_input) SessionReportJsonPipe 2 MAX_SESSION_REPORT_JSON_BYTES;
      report_id ← report_id_parse p.(pe_report_id);
      payload_sha256 ← sha256_parse p.(pe_payload_sha256);
      Ok (ReqReportPersist report_id payload_sha256 p.(pe_input))
  | OpReportGet =>
      report_id ← ok_or (read_get raw) InvalidPayload;
      report_id ← report_id_parse report_id;
      Ok (ReqReportGet report_id)
  | OpRepairBackupReserve =>
      p ← ok_or (read_reserve raw) InvalidPayload;
      target_fingerprint ← sha256_parse p.(re_target_fingerprint);
      expected_backup_sha256 ← sha256_parse p.(re_expected_backup_sha256);
      metadata_sha256 ← sha256_parse p.(re_metadata_sha256);
      draft ← draft_new p.(re_session_id) p.(re_target_id) target_fingerprint
        p.(re_target_recovery_fingerprint) expected_backup_sha256 metadata_sha256 p.(re_backup_size)
        p.(re_required_capacity_bytes);
      Ok (ReqRepairBackupReserve draft)
  | OpRepairBackupPersist => parse_repair_persist raw
  | OpRepairBackupStatus | OpRepairBackupGet | OpRepairBackupRetire => parse_reference op raw
  | OpRepairBackupCancel =>
      p ← ok_or (read_cancel raw) InvalidPayload;
      reservation_id ← reservation_id_parse p.(ca_reservation_id);
      draft_binding_sha256 ← sha256_parse p.(ca_draft_binding_sha256);
      Ok (ReqRepairBackupCancel reservation_id draft_binding_sha256)
  | OpRepairTransactionStatus =>
      selector ← ok_or (read_transaction_selector raw) InvalidPayload;
      _ ← transaction_selector_validate selector;
      Ok (ReqRepairTransactionStatus selector)
  | OpRepairTransactionResolve =>
      p ← ok_or (read_resolve raw) InvalidPayload;
      _ ← transaction_validate p.(rs_expected);
      intent ← ok_or p.(rs_expected).(backup).(execution_intent) InvalidPayload;
      _ ← resolution_validate_against p.(rs_resolution) intent;
      reject (negb (transaction_is_unresolved p.(rs_expected))) with InvalidPayload;
      Ok (ReqRepairTransactionResolve p.(rs_expected) p.(rs_resolution))
  | OpRepairTransactionWriteLeaseConsume =>
      selector ← ok_or (read_transaction_selector raw) InvalidPayload;
      _ ← transaction_selector_validate selector;
      reject (negb (is_exact_selector selector)) with InvalidPayload;
      Ok (ReqRepairTransactionWriteLeaseConsume selector)
  | OpRepairRollbackBegin =>
      p ← ok_or (read_rollback_begin raw) InvalidPayload;
      _ ← transaction_validate p.(be_source);
      _ ← rollback_binding_validate_against p.(be_binding) p.(be_source);
      Ok (ReqRepairRollbackBegin p.(be_source) p.(be_rollback_id) p.(be_binding))
  | OpRepairRollbackStatus =>
      selector ← ok_or (read_rollback_selector raw) InvalidPayload;
      _ ← rollback_selector_validate selector;
      Ok (ReqRepairRollbackStatus selector)
  | OpRepairRollbackResolve =>
      p ← ok_or (read_rollback_resolve raw) InvalidPayload;
      _ ← rollback_validate p.(rrs_expected);
      _ ← rollback_resolution_validate_against p.(rrs_resolution) p.(rrs_expected).(rt_source);
      reject (negb (rollback_is_unresolved p.(rrs_expected))) with InvalidPayload;
      Ok (ReqRepairRollbackResolve p.(rrs_expected) p.(rrs_resolution))
  | OpRepairRollbackWriteLeaseConsume =>
      selector ← ok_or (read_rollback_selector raw) InvalidPayload;
      _ ← rollback_selector_validate selector;
      reject (negb (is_exact_rollback_selector selector)) with InvalidPayload;
      Ok (ReqRepairRollbackWriteLeaseConsume selector)
  end.
End requests.

Definition request_payload_is_authorized (role : PeerRole) (payload : RequestPayload) : bool :=
  match role, payload with
  | Agent Codex, ReqProviderLogout provider => provider == ProviderCodex
  | Companion, ReqProviderLogout _ => true
  | _, ReqProviderLogout _ => false
  | _, _ => true
  end.

Definition payload_descriptor (payload : RequestPayload) : option DescriptorDeclaration :=
  match payload with
  | ReqVaultUnlock input | ReqProviderOpenAiConfigure input | ReqReportPersist _ _ input
  | ReqFleetEnrollmentSign input | ReqFleetWorkOrderClaimSign input | ReqFleetWorkOrderResultSign input
  | ReqRepairBackupPersist _ _ _ input => Some input
  | ReqProviderCodexHomeLease _ _ => None
  | ReqEmpty | ReqProviderLogout _ | ReqAuditAppend _ _ _ _ | ReqReportGet _ => None
  | ReqRepairBackupReserve _ | ReqRepairBackupStatus _ | ReqRepairBackupGet _
  | ReqRepairBackupCancel _ _ | ReqRepairBackupRetire _ | ReqRepairTransactionStatus _
  | ReqRepairTransactionResolve _ _ | ReqRepairTransactionWriteLeaseConsume _
  | ReqRepairRollbackBegin _ _ _ | ReqRepairRollbackStatus _ | ReqRepairRollbackResolve _ _
  | ReqRepairRollbackWriteLeaseConsume _ => None
  end.

Definition validate_openai_api_key_bytes (value : bytes) : result ProtocolViolation () :=
  reject ((value == []) || (MAX_OPENAI_KEY_BYTES <? blen value)%Z
          || negb (forallb (in_range 0x21 0x7e) value)) with InvalidPayload;
  Ok tt.

Definition validate_passphrase_read (value : bytes) (declared_size : Z) (reached_eof : bool) :
    result ProtocolViolation () :=
  reject (negb (contains MIN_PASSPHRASE_BYTES MAX_PASSPHRASE_BYTES declared_size)
          || (blen value != declared_size) || negb reached_eof || existsb (λ b, b == x00) value)
    with InvalidPayload;
  Ok tt.

(** ** Descriptors *)

Record Stat := mkStat { st_mode : Z; st_uid : Z; st_gid : Z; st_size : Z }.

(** A received descriptor: what [fstat], the type field of [fstatfs], [F_GETFL],
    [F_GETFD] and the link under [/proc/self/fd] answer for it, [None] for an
    error. *)
Record Descriptor := mkDescriptor {
  fd_stat : option Stat;
  fd_filesystem : option Z;
  fd_status : option Z;
  fd_flags : option Z;
  fd_link : option bytes;
}.

(** The values of the kernel interface. *)
Class LinuxFlags : Type := {
  is_fifo : Z → bool;
  is_dir : Z → bool;
  O_ACCMODE : Z;
  O_RDONLY : Z;
  O_PATH : Z;
  O_DIRECTORY : Z;
  O_NOFOLLOW : Z;
  FD_CLOEXEC : Z;
}.

(** [flags.contains(flag)]. *)
Definition has_flag (flags flag : Z) : bool := Z.land flags flag == flag.

Section descriptors.
Context `{flags : LinuxFlags}.

Definition validate_borrowed_pipe (d : Descriptor) : result ProtocolViolation () :=
  stat ← ok_or d.(fd_stat) InvalidDescriptor;
  filesystem ← ok_or d.(fd_filesystem) InvalidDescriptor;
  filesystem_type ← ok_or (u64_try_from_i64 filesystem) InvalidDescriptor;
  status ← ok_or d.(fd_status) InvalidDescriptor;
  fd ← ok_or d.(fd_flags) InvalidDescriptor;
  reject (negb (is_fifo stat.(st_mode)) || (filesystem_type != PIPEFS_MAGIC)
          || (Z.land status O_ACCMODE != O_RDONLY) || negb (has_flag fd FD_CLOEXEC)
          || (stat.(st_size) != 0%Z)) with InvalidDescriptor;
  Ok tt.
(** The same checks on an [OwnedFd]. *)
Definition validate_pipe_descriptor (d : Descriptor) : result ProtocolViolation () :=
  stat ← ok_or d.(fd_stat) InvalidDescriptor;
  filesystem ← ok_or d.(fd_filesystem) InvalidDescriptor;
  filesystem_type ← ok_or (u64_try_from_i64 filesystem) InvalidDescriptor;
  status ← ok_or d.(fd_status) InvalidDescriptor;
  fd ← ok_or d.(fd_flags) InvalidDescriptor;
  reject (negb (is_fifo stat.(st_mode)) || (filesystem_type != PIPEFS_MAGIC)
          || (Z.land status O_ACCMODE != O_RDONLY) || negb (has_flag fd FD_CLOEXEC)
          || (stat.(st_size) != 0%Z)) with InvalidDescriptor;
  Ok tt.

Definition validate_mount_namespace_descriptor (d : Descriptor) : result ProtocolViolation () :=
  filesystem ← ok_or d.(fd_filesystem) InvalidDescriptor;
  status ← ok_or d.(fd_status) InvalidDescriptor;
  fd ← ok_or d.(fd_flags) InvalidDescriptor;
  reject ((u64_try_from_i64 filesystem != Some NSFS_MAGIC) || (Z.land status O_ACCMODE != O_RDONLY)
          || (fd != FD_CLOEXEC)) with InvalidDescriptor;
  target ← ok_or d.(fd_link) InvalidDescriptor;
  identifier ← ok_or (strip_prefix_bytes (as_bytes "mnt:[") target ≫= strip_suffix_bytes (as_bytes "]"))
    InvalidDescriptor;
  reject ((identifier == []) || negb (forallb is_ascii_digit identifier)) with InvalidDescriptor;
  Ok tt.

Definition validate_mount_root_descriptor (d : Descriptor) : result ProtocolViolation () :=
  stat ← ok_or d.(fd_stat) InvalidDescriptor;
  status ← ok_or d.(fd_status) InvalidDescriptor;
  fd ← ok_or d.(fd_flags) InvalidDescriptor;
  reject (negb (is_dir stat.(st_mode)) || (stat.(st_uid) != 0%Z) || (stat.(st_gid) != 0%Z)
          || (status != Z.lor (Z.lor O_PATH O_DIRECTORY) O_NOFOLLOW) || (fd != FD_CLOEXEC))
    with InvalidDescriptor;
  Ok tt.

Definition validate_o_path_directory (d : Descriptor) : result ProtocolViolation () :=
  stat ← ok_or d.(fd_stat) InvalidDescriptor;
  status ← ok_or d.(fd_status) InvalidDescriptor;
  fd ← ok_or d.(fd_flags) InvalidDescriptor;
  reject (negb (is_dir stat.(st_mode)) || (status != Z.lor (Z.lor O_PATH O_DIRECTORY) O_NOFOLLOW)
          || (fd != FD_CLOEXEC)) with InvalidDescriptor;
  Ok tt.

Definition validate_received_descriptors (payload : RequestPayload) (descriptors : list Descriptor) :
    result ProtocolViolation () :=
  match payload with
  | ReqProviderCodexHomeLease mount_namespace mount_root =>
      _ ← validate_declaration mount_namespace CodexMountNamespace 0 0;
      _ ← validate_declaration mount_root CodexMountRoot 0 0;
      match descriptors with
      | [] | [_] => Err FdRequired
      | [namespace; root] =>
          _ ← validate_mount_namespace_descriptor namespace;
          validate_mount_root_descriptor root
      | _ => Err FdForbidden
      end
  | _ =>
      match payload_descriptor payload, descriptors with
      | Some _, [] => Err FdRequired
      | Some declaration, [descriptor] =>
          match declaration.(kind) with
          | CodexMountNamespace => validate_mount_namespace_descriptor descriptor
          | PassphrasePipe | OpenAiApiKeyPipe | SessionReportJsonPipe
          | FleetEnrollmentInputPipe | FleetWorkOrderClaimInputPipe | FleetWorkOrderResultInputPipe
          | RepairBackupInputPipe => validate_pipe_descriptor descriptor
          | CodexHomeOPath | CodexMountRoot | SignedReportEnvelopePipe | RepairBackupOutputPipe =>
              Err InvalidPayload
          end
      | Some _, _ :: _ | None, _ :: _ => Err FdForbidden
      | None, [] => Ok tt
      end
  end.
End descriptors.

(** ** Decoding *)

Record SeqpacketSocketIdentity := mkSocketIdentity { device : Z; inode : Z }.
#[export] Instance SeqpacketSocketIdentity_eq_dec : EqDecision SeqpacketSocketIdentity.
Proof. solve_decision. Defined.

(** The allocation behind an [Arc<()>]: two tokens are one when the allocations are. *)
Definition Token : Type := nat.

Record PeerIdentity := mkPeer {
  peer_pid : Z;
  peer_uid : Z;
  peer_role : PeerRole;
  connection_identity : SeqpacketSocketIdentity;
  connection_token : Token;
}.

Record ValidatedRequest := mkRequest {
  req_request_id : RequestId;
  req_expected_state_version : Z;
  req_operation : Operation;
  req_peer_pid : Z;
  req_peer_uid : Z;
  req_role : PeerRole;
  req_payload : RequestPayload;
  req_descriptors : list Descriptor;
  req_connection_identity : SeqpacketSocketIdentity;
  req_connection_token : Token;
}.

Record RejectedRequestContext := mkRejected {
  rej_request_id : RequestId;
  rej_operation : Operation;
  rej_violation : ProtocolViolation;
  rej_error : ErrorToken;
  rej_connection_identity : SeqpacketSocketIdentity;
  rej_connection_token : Token;
}.

Inductive RequestDecodeError := Close (v : ProtocolViolation) | Reject (context : RejectedRequestContext).

Definition decode_violation (e : RequestDecodeError) : ProtocolViolation :=
  match e with Close violation => violation | Reject context => context.(rej_violation) end.

Definition rejected_request (request_id : RequestId) (op : Operation) (violation : ProtocolViolation)
    (error : ErrorToken) (peer : PeerIdentity) : RequestDecodeError :=
  Reject (mkRejected request_id op violation error peer.(connection_identity) peer.(connection_token)).

(** [request.take_descriptor()]: pops the last descriptor. *)
Definition take_descriptor (r : ValidatedRequest) : option Descriptor * ValidatedRequest :=
  let '(mkRequest id v op pid uid role p ds ci ct) := r in
  (last ds, mkRequest id v op pid uid role p (take (length ds - 1) ds) ci ct).

Section decoding.
Context `{sha : Sha256} `{json : RequestJson} `{flags : LinuxFlags}.

Definition decode_request (datagram : bytes) (peer : PeerIdentity) (received_descriptors : list Descriptor) :
    result RequestDecodeError ValidatedRequest :=
  reject (datagram == []) with Close EmptyDatagram;
  reject (MAX_DATAGRAM_BYTES <? blen datagram)%Z with Close DatagramTooLarge;
  wire ← ok_or (read_request datagram) (Close InvalidJson);
  reject (wire.(wire_api_version) != api_version wire.(wire_operation)) with Close UnsupportedVersion;
  reject (MAX_SAFE_JSON_INTEGER <? wire.(wire_expected_state_version))%Z with Close InvalidPayload;
  request_id ← map_err Close (parse_request_id wire.(wire_request_id));
  reject (negb (permits wire.(wire_operation) peer.(peer_role)))
    with rejected_request request_id wire.(wire_operation) NotAuthorized TokenNotAuthorized peer;
  payload ← map_err Close (parse_payload wire.(wire_operation) wire.(wire_payload));
  reject (negb (request_payload_is_authorized peer.(peer_role) payload))
    with rejected_request request_id wire.(wire_operation) NotAuthorized TokenNotAuthorized peer;
  _ ← map_err (λ violation,
        match error_token violation with
        | None => Close violation
        | Some error => rejected_request request_id wire.(wire_operation) violation error peer
        end) (validate_received_descriptors payload received_descriptors);
  Ok (mkRequest request_id wire.(wire_expected_state_version) wire.(wire_operation) peer.(peer_pid)
        peer.(peer_uid) peer.(peer_role) payload received_descriptors peer.(connection_identity)
        peer.(connection_token)).
End decoding.

(** ** States and responses *)

Inductive VaultState :=
| Absent | Unprovisioned | Locked | Unlocking | Unlocked | Locking | FaultedRebootRequired.
Inductive ProviderState := Unconfigured | Configured.

#[export] Instance VaultState_eq_dec : EqDecision VaultState.
Proof. solve_decision. Defined.
#[export] Instance ProviderState_eq_dec : EqDecision ProviderState.
Proof. solve_decision. Defined.

Definition gate_operation_for_vault_state (vault_state : VaultState) (op : Operation) :
    result ErrorToken () :=
  match vault_state, op with
  | FaultedRebootRequired, OpVaultStatus => Ok tt
  | FaultedRebootRequired, _ => Err TokenRebootRequired
  | (Unlocking | Locking), OpVaultStatus => Ok tt
  | (Unlocking | Locking), _ => Err TokenBusy
  | _, _ => Ok tt
  end.

Record VaultStatusPayload := mkVaultStatus { vault_state : VaultState; device_id : option string }.

(** The match of [VaultStatusPayload::new], which [is_exact] repeats. *)
Definition exact_status (vault_state : VaultState) (device_id : option string) : bool :=
  match vault_state, device_id with
  | Unlocked, Some device_id => is_ok (validate_device_id device_id)
  | (Absent | Unprovisioned | Locked | Unlocking | Locking | FaultedRebootRequired), None => true
  | _, _ => false
  end.
Definition vault_status_new (vault_state : VaultState) (device_id : option string) :
    result ProtocolViolation VaultStatusPayload :=
  reject (negb (exact_status vault_state device_id)) with InvalidPayload;
  Ok (mkVaultStatus vault_state device_id).
Definition status_is_exact (s : VaultStatusPayload) : bool := exact_status s.(vault_state) s.(device_id).

Record ProviderStatusPayload := mkProviderStatus { openai : ProviderState; codex : ProviderState }.

Record ReportSummary := mkSummary {
  report_id : ReportId;
  envelope_size : Z;
  envelope_sha256 : Sha256Text;
}.
Definition summary_new (report_id : ReportId) (envelope_size : Z) (envelope_sha256 : Sha256Text) :
    result ProtocolViolation ReportSummary :=
  reject (negb (contains 2 MAX_SIGNED_REPORT_ENVELOPE_BYTES envelope_size)) with InvalidPayload;
  Ok (mkSummary report_id envelope_size envelope_sha256).

Definition valid_report_list (reports : list ReportSummary) : bool :=
  (length reports <=? MAX_REPORTS_PER_RESPONSE)
  && forallb (λ '(index, report),
       forallb (λ other, other.(report_id) != report.(report_id)) (take index reports))
       (imap pair reports).

Record FleetSignedEnvelopePayload := mkFleetSigned {
  fleet_device_id : string;
  fleet_public_key : bytes;
  signed_request : string;
}.

Inductive SuccessPayload :=
| OkVaultStatus (status : VaultStatusPayload)
| OkProviderStatus (status : ProviderStatusPayload)
| OkDescriptor (output : DescriptorDeclaration)
| OkAuditAppended (sequence : Z)
| OkReportStored (report : ReportSummary)
| OkReportList (reports : list ReportSummary)
| OkReport (report : ReportSummary) (output : DescriptorDeclaration)
| OkFleetSigned (signed : FleetSignedEnvelopePayload)
| OkRepairBackupStatus (status : RepairBackupStatusPayload)
| OkRepairBackup (status : RepairBackupStatusPayload) (output : DescriptorDeclaration)
| OkRepairBackupReleased (released : RepairBackupReleasePayload)
| OkRepairTransactionStatus (result : RepairTransactionStatusResultPayload)
| OkRepairTransactionResolved (status : RepairTransactionStatusPayload)
| OkRepairVaultLiveIdentity (identity : RepairVaultLiveIdentityPayload)
| OkRepairWriteLeaseConsumed (lease : RepairWriteLeasePayload)
| OkRepairRollbackBegun (status : RepairRollbackTransactionStatusPayload)
| OkRepairRollbackStatus (result : RepairRollbackStatusResultPayload)
| OkRepairRollbackResolved (status : RepairRollbackTransactionStatusPayload)
| OkRepairRollbackWriteLeaseConsumed (lease : RepairRollbackWriteLeasePayload).

(** [SuccessWire] and [ErrorWire]. The payload of a success is written as the
    struct inside the variant, with [output] beside it where there is one. *)
Record SuccessWire := mkSuccessWire {
  sw_api_version : string;
  sw_request_id : string;
  sw_state_version : Z;
  sw_operation : Operation;
  sw_outcome : string;
  sw_payload : SuccessPayload;
}.
Record ErrorWire := mkErrorWire {
  ew_api_version : string;
  ew_request_id : string;
  ew_state_version : Z;
  ew_operation : Operation;
  ew_outcome : string;
  ew_error : ErrorToken;
}.

(** [serde_json::to_vec] on the response structs. *)
Class ResponseWriter : Type := {
  write_success : SuccessWire → option bytes;
  write_error : ErrorWire → option bytes;
}.

Section responses.
Context `{sha : Sha256} `{flags : LinuxFlags} `{writer : ResponseWriter}.

Definition fleet_signed_validate (p : FleetSignedEnvelopePayload) : result ProtocolViolation () :=
  let request := as_bytes p.(signed_request) in
  reject (negb (is_ok (validate_device_id p.(fleet_device_id)))
          || (device_id_for_public_key p.(fleet_public_key) != p.(fleet_device_id))
          || negb (contains 2 MAX_FLEET_SIGNED_REQUEST_BYTES (len p.(signed_request)))
          || negb (forallb (in_range 0 0x7f) request)
          || (head request != Some x7b) || (last request != Some x7d)) with InvalidPayload;
  Ok tt.
Definition fleet_signed_new (device_id : string) (public_key signed_request : bytes) :
    result ProtocolViolation FleetSignedEnvelopePayload :=
  signed_request ← ok_or (from_utf8 signed_request) InvalidPayload;
  let payload := mkFleetSigned device_id public_key signed_request in
  _ ← fleet_signed_validate payload;
  Ok payload.

(** The guards of [validate_success]: [None] for a pair that no arm admits, else
    the declaration of the descriptor that the response must carry. *)
Definition success_declaration (op : Operation) (request : RequestPayload) (payload : SuccessPayload) :
    option (option DescriptorDeclaration) :=
  let none_if (b : bool) := if b then Some None else None in
  let some_if (b : bool) (d : DescriptorDeclaration) := if b then Some (Some d) else None in
  match op, request, payload with
  | OpVaultStatus, ReqEmpty, OkVaultStatus status => none_if (status_is_exact status)
  | OpVaultUnlock, ReqVaultUnlock _, OkVaultStatus status =>
      none_if (status_is_exact status && (status.(vault_state) == Unlocked))
  | OpVaultLock, ReqEmpty, OkVaultStatus status =>
      none_if (status_is_exact status && (status.(vault_state) == Locked))
  | OpProviderOpenAiConfigure, ReqProviderOpenAiConfigure _, OkProviderStatus status =>
      none_if (status.(openai) == Configured)
  | OpProviderStatus, ReqEmpty, OkProviderStatus _ => Some None
  | OpProviderLogout, ReqProviderLogout ProviderOpenAi, OkProviderStatus status =>
      none_if (status.(openai) == Unconfigured)
  | OpProviderLogout, ReqProviderLogout ProviderCodex, OkProviderStatus status =>
      none_if (status.(codex) == Unconfigured)
  | OpAuditAppend, ReqAuditAppend requested _ _ _, OkAuditAppended sequence =>
      none_if (contains 1 MAX_AUDIT_SEQUENCE sequence && (sequence == requested))
  | OpReportPersist, ReqReportPersist requested _ _, OkReportStored report =>
      none_if (report.(report_id) == requested)
  | OpProviderOpenAiBorrow, ReqEmpty, OkDescriptor declaration =>
      some_if ((declaration.(kind) == OpenAiApiKeyPipe) && contains 1 MAX_OPENAI_KEY_BYTES declaration.(size))
        declaration
  | OpProviderCodexHomeLease, ReqProviderCodexHomeLease _ _, OkDescriptor declaration =>
      some_if ((declaration.(kind) == CodexHomeOPath) && (declaration.(size) == 0%Z)) declaration
  | OpReportList, ReqEmpty, OkReportList reports => none_if (valid_report_list reports)
  | OpReportGet, ReqReportGet requested, OkReport report declaration =>
      some_if ((declaration.(kind) == SignedReportEnvelopePipe) && (declaration.(size) == report.(envelope_size))
               && (declaration.(size) <=? MAX_SIGNED_REPORT_ENVELOPE_BYTES)%Z
               && (report.(report_id) == requested)) declaration
  | OpFleetEnrollmentSign, ReqFleetEnrollmentSign _, OkFleetSigned signed
  | OpFleetWorkOrderClaimSign, ReqFleetWorkOrderClaimSign _, OkFleetSigned signed
  | OpFleetWorkOrderResultSign, ReqFleetWorkOrderResultSign _, OkFleetSigned signed =>
      none_if (is_ok (fleet_signed_validate signed))
  | OpRepairBackupReserve, ReqRepairBackupReserve draft, OkRepairBackupStatus status =>
      none_if (is_ok (backup_validate status) && (status.(backup_state) == Reserved)
               && (status.(draft_binding_sha256) == canonical_repair_draft_binding_sha256 draft)
               && (status.(backup_size) == draft.(draft_backup_size))
               && (status.(expected_backup_sha256) == draft.(draft_expected_backup_sha256))
               && (status.(metadata_sha256) == draft.(draft_metadata_sha256))
               && (draft.(required_capacity_bytes) <=? status.(reserved_bytes))%Z)
  | OpRepairBackupPersist, ReqRepairBackupPersist expected binding metadata input, OkRepairBackupStatus status =>
      none_if (is_ok (backup_validate status) && (status.(backup_state) == Durable)
               && immutable_fields_match status expected
               && (canonical_repair_file_metadata_sha256 metadata == expected.(metadata_sha256))
               && (status.(backup_size) == input.(size))
               && (status.(plan_id) == Some binding.(binding_plan_id))
               && (status.(plan_sha256) == Some binding.(binding_plan_sha256))
               && (status.(approval_id) == Some binding.(binding_approval_id))
               && (status.(approval_sha256) == Some binding.(binding_approval_sha256))
               && (status.(resource_id) == Some binding.(binding_resource_id))
               && (status.(resource_sha256) == Some binding.(binding_resource_sha256))
               && (status.(execution_intent) == Some binding.(binding_execution_intent)))
  | OpRepairBackupStatus, ReqRepairBackupStatus expected, OkRepairBackupStatus status =>
      none_if (is_ok (backup_validate status) && immutable_fields_match status expected
               && (status.(backup_state) == expected.(backup_state)))
  | OpRepairBackupGet, ReqRepairBackupGet expected, OkRepairBackup status declaration =>
      some_if (is_ok (backup_validate status) && (status.(backup_state) == Durable) && (status == expected)
               && (declaration.(kind) == RepairBackupOutputPipe)
               && (declaration.(size) == status.(backup_size))) declaration
  | OpRepairBackupCancel, ReqRepairBackupCancel reservation draft_binding, OkRepairBackupReleased released =>
      none_if (is_ok (release_validate released) && (released.(release_reservation_id) == reservation)
               && (released.(release_draft_binding_sha256) == draft_binding))
  | OpRepairBackupRetire, ReqRepairBackupRetire expected, OkRepairBackupReleased released =>
      none_if ((expected.(backup_state) == Durable) && is_ok (release_validate released)
               && (released.(release_reservation_id) == expected.(reservation_id))
               && (released.(release_draft_binding_sha256) == expected.(draft_binding_sha256))
               && (released.(released_bytes) == expected.(reserved_bytes)))
  | OpRepairTransactionStatus, ReqRepairTransactionStatus selector, OkRepairTransactionStatus result =>
      none_if (transaction_matches_result selector result)
  | OpRepairTransactionResolve, ReqRepairTransactionResolve expected resolution, OkRepairTransactionResolved status =>
      none_if (is_ok (transaction_validate status) && transaction_same status expected
               && transaction_resolves_with status resolution)
  | OpRepairVaultLiveParent, ReqEmpty, OkRepairVaultLiveIdentity identity =>
      none_if (is_ok (live_identity_validate identity))
  | OpRepairTransactionWriteLeaseConsume, ReqRepairTransactionWriteLeaseConsume selector,
      OkRepairWriteLeaseConsumed lease =>
      none_if (is_ok (write_lease_validate lease)
               && match selector with
                  | Exact reservation binding =>
                      (lease.(lease_transaction).(backup).(reservation_id) == reservation)
                      && (lease.(lease_transaction).(transaction_binding_sha256) == binding)
                  | PendingSingleton => false
                  end)
  | OpRepairRollbackBegin, ReqRepairRollbackBegin source id binding, OkRepairRollbackBegun status =>
      none_if (is_ok (rollback_validate status) && (status.(rollback_id) == id)
               && (status.(rt_source) == source) && (status.(rt_binding) == binding))
  | OpRepairRollbackStatus, ReqRepairRollbackStatus selector, OkRepairRollbackStatus result =>
      none_if (rollback_matches_result selector result)
  | OpRepairRollbackResolve, ReqRepairRollbackResolve expected resolution, OkRepairRollbackResolved status =>
      none_if (is_ok (rollback_validate status) && rollback_same status expected
               && rollback_resolves_with status resolution)
  | OpRepairRollbackWriteLeaseConsume, ReqRepairRollbackWriteLeaseConsume selector,
      OkRepairRollbackWriteLeaseConsumed lease =>
      none_if (is_ok (rollback_write_lease_validate lease)
               && match selector with
                  | RollbackExact id binding =>
                      (lease.(rl_transaction).(rollback_id) == id)
                      && (lease.(rl_transaction).(rollback_transaction_binding_sha256) == binding)
                  | RollbackPendingSingleton => false
                  end)
  | _, _, _ => None
  end.

Definition validate_success (request : ValidatedRequest) (payload : SuccessPayload)
    (descriptors : list Descriptor) : result ProtocolViolation () :=
  descriptor_declaration ←
    ok_or (success_declaration request.(req_operation) request.(req_payload) payload) InvalidPayload;
  match descriptor_declaration, descriptors with
  | None, [] => Ok tt
  | None, _ :: _ | Some _, _ :: _ :: _ => Err FdForbidden
  | Some _, [] => Err FdRequired
  | Some declaration, [descriptor] =>
      match declaration.(kind) with
      | OpenAiApiKeyPipe | SignedReportEnvelopePipe | RepairBackupOutputPipe => validate_borrowed_pipe descriptor
      | FleetEnrollmentInputPipe | FleetWorkOrderClaimInputPipe | FleetWorkOrderResultInputPipe =>
          Err InvalidDescriptor
      | CodexHomeOPath => validate_o_path_directory descriptor
      | PassphrasePipe | CodexMountNamespace | CodexMountRoot | SessionReportJsonPipe
      | RepairBackupInputPipe => Err InvalidPayload
      end
  end.

(** The version each arm of [encode_success] writes. *)
Definition success_api_version (payload : SuccessPayload) : string :=
  match payload with
  | OkVaultStatus _ | OkProviderStatus _ | OkDescriptor _ | OkAuditAppended _ | OkReportStored _
  | OkReportList _ | OkReport _ _ | OkFleetSigned _ | OkRepairBackupStatus _ | OkRepairBackup _ _
  | OkRepairBackupReleased _ | OkRepairTransactionStatus _ | OkRepairTransactionResolved _
  | OkRepairVaultLiveIdentity _ | OkRepairWriteLeaseConsumed _ => API_VERSION
  | OkRepairRollbackBegun _ | OkRepairRollbackStatus _ | OkRepairRollbackResolved _
  | OkRepairRollbackWriteLeaseConsumed _ => ROLLBACK_API_VERSION
  end.

Definition encode_success (request : ValidatedRequest) (state_version : Z) (payload : SuccessPayload)
    (output_descriptors : list Descriptor) : result ProtocolViolation bytes :=
  reject (MAX_SAFE_JSON_INTEGER <? state_version)%Z with InvalidPayload;
  _ ← validate_success request payload output_descriptors;
  bytes ← ok_or (write_success (mkSuccessWire (success_api_version payload)
    request.(req_request_id).(as_str) state_version request.(req_operation) "ok" payload)) InvalidPayload;
  reject (MAX_DATAGRAM_BYTES <? blen bytes)%Z with DatagramTooLarge;
  Ok bytes.

Definition encode_error (request : ValidatedRequest) (state_version : Z) (error : ErrorToken)
    (output_descriptors : list Descriptor) : result ProtocolViolation bytes :=
  reject (MAX_SAFE_JSON_INTEGER <? state_version)%Z with InvalidPayload;
  reject (negb (bool_decide (length output_descriptors = 0))) with FdForbidden;
  bytes ← ok_or (write_error (mkErrorWire (api_version request.(req_operation))
    request.(req_request_id).(as_str) state_version request.(req_operation) "error" error)) InvalidPayload;
  reject (MAX_DATAGRAM_BYTES <? blen bytes)%Z with DatagramTooLarge;
  Ok bytes.

Definition encode_rejection (rejected : RejectedRequestContext) (state_version : Z) :
    result ProtocolViolation bytes :=
  reject (MAX_SAFE_JSON_INTEGER <? state_version)%Z with InvalidPayload;
  bytes ← ok_or (write_error (mkErrorWire (api_version rejected.(rej_operation))
    rejected.(rej_request_id).(as_str) state_version rejected.(rej_operation) "error" rejected.(rej_error)))
    InvalidPayload;
  reject (MAX_DATAGRAM_BYTES <? blen bytes)%Z with DatagramTooLarge;
  Ok bytes.
End responses.
