(* ===== verification/VaultAllowlist.v ===== *)
(** * The allowlist of the vault socket

    Every configured UID gets exactly its role and nobody else gets one, root
    included. *)

From Stdlib.Strings Require Import Byte.
From Stdlib Require String Ascii.
From S2P Require Import Prelude Bytes Text Crypto VaultWire DeviceIdentity RepairVault RescueVault.

(** ** Allowlists *)

(** The calls on a builder. *)
Inductive AllowCall := AddAgent (role : AgentRole) (uid : Z) | AddBroker (uid : Z).

Definition allow_step (b : result ProtocolViolation PeerAllowlistBuilder) (c : AllowCall) :
    result ProtocolViolation PeerAllowlistBuilder :=
  b ← b;
  match c with AddAgent role uid => builder_agent b role uid | AddBroker uid => builder_repair_broker b uid end.
Definition run_builder (companion : Z) (calls : list AllowCall) : result ProtocolViolation PeerAllowlist :=
  b ← foldl allow_step (Ok (builder companion)) calls;
  build b.

Definition call_uid (c : AllowCall) : Z := match c with AddAgent _ uid | AddBroker uid => uid end.
Definition call_role (c : AllowCall) : PeerRole :=
  match c with AddAgent role _ => Agent role | AddBroker _ => RepairBroker end.

(** The mapping that a list of calls describes. *)
Definition holds_role (companion : Z) (calls : list AllowCall) (role : PeerRole) (uid : Z) : Prop :=
  (role = Companion ∧ uid = companion) ∨ ∃ c, c ∈ calls ∧ call_role c = role ∧ call_uid c = uid.

(** Every UID is configured once and is neither root nor the companion, every role once. *)
Definition admissible (companion : Z) (calls : list AllowCall) : Prop :=
  (0%Z ∉ (call_uid <$> calls)) ∧ (companion ∉ (call_uid <$> calls)) ∧
  NoDup (call_uid <$> calls) ∧ NoDup (call_role <$> calls).

Definition slot (b : PeerAllowlistBuilder) (role : PeerRole) : option Z :=
  match role with
  | Companion => Some b.(b_companion_uid)
  | Agent role => uid_for b role
  | RepairBroker => b.(b_repair_broker_uid)
  | RepairTargetHelper => None
  end.

(** The builder after some calls. *)
Definition tracks (companion : Z) (calls : list AllowCall) (b : PeerAllowlistBuilder) : Prop :=
  ∀ role uid, slot b role = Some uid ↔ holds_role companion calls role uid.

Lemma tracks_start companion : tracks companion [] (builder companion).
Proof.
  intros role uid. unfold holds_role. setoid_rewrite elem_of_nil.
  destruct role as [|[]| |]; simpl; naive_solver.
Qed.

Definition with_slot (b : PeerAllowlistBuilder) (c : AllowCall) : PeerAllowlistBuilder :=
  match c with
  | AddAgent role uid => set_uid_for role (Some uid) b
  | AddBroker uid =>
      mkAllowlistBuilder b.(b_companion_uid) b.(b_application_uid) b.(b_openai_uid) b.(b_codex_uid)
        b.(b_fleet_uid) (Some uid)
  end.

Lemma slot_with_slot b c role :
  slot (with_slot b c) role = if role == call_role c then Some (call_uid c) else slot b role.
Proof. destruct b, c as [[] ?|?], role as [|[]| |]; done. Qed.

Lemma tracks_step companion calls b c :
  tracks companion calls b → call_role c ∉ (call_role <$> calls) →
  tracks companion (calls ++ [c]) (with_slot b c).
Proof.
  intros Ht Hc role uid. rewrite slot_with_slot. unfold holds_role. setoid_rewrite elem_of_app.
  setoid_rewrite list_elem_of_singleton. case_bool_decide as Hr.
  - subst role. split; [intros [= <-]; right; eauto|].
    intros [[Hk _]|(c' & [Hin| ->] & Hrole & <-)]; [by destruct c| |done].
    destruct Hc. rewrite <-Hrole. by apply list_elem_of_fmap_2.
  - rewrite (Ht role uid). unfold holds_role. naive_solver.
Qed.

(** Whose UID a builder knows. *)
Lemma slot_taken b uid :
  (uid == b.(b_companion_uid)) || (b.(b_application_uid) == Some uid)
    || (b.(b_openai_uid) == Some uid) || (b.(b_codex_uid) == Some uid)
    || (b.(b_fleet_uid) == Some uid) || (b.(b_repair_broker_uid) == Some uid) = true ↔
  ∃ role, slot b role = Some uid.
Proof.
  rewrite !orb_true_iff, !bool_decide_eq_true. split.
  - intros [[[[[-> |?]|?]|?]|?]|?];
      [by exists Companion|by exists (Agent Application)|by exists (Agent OpenAi)|by exists (Agent Codex)
      |by exists (Agent Fleet)|by exists RepairBroker].
  - intros [[|[]| |] H]; simpl in H; naive_solver.
Qed.

Lemma holds_uid companion calls uid :
  (∃ role, holds_role companion calls role uid) ↔ uid = companion ∨ uid ∈ (call_uid <$> calls).
Proof.
  unfold holds_role. rewrite list_elem_of_fmap. split; [naive_solver|].
  intros [->|(c & -> & Hc)]; [by exists Companion; left|exists (call_role c); right; eauto].
Qed.

Lemma role_taken companion calls b role :
  tracks companion calls b → role ≠ Companion → is_Some (slot b role) ↔ role ∈ (call_role <$> calls).
Proof.
  intros Ht Hr. unfold is_Some. setoid_rewrite (Ht role). unfold holds_role. rewrite list_elem_of_fmap. naive_solver.
Qed.

(** What either builder call refuses. *)
Definition refused (b : PeerAllowlistBuilder) (c : AllowCall) : bool :=
  (call_uid c == 0%Z) || bool_decide (is_Some (slot b (call_role c)))
  || ((call_uid c == b.(b_companion_uid)) || (b.(b_application_uid) == Some (call_uid c))
      || (b.(b_openai_uid) == Some (call_uid c)) || (b.(b_codex_uid) == Some (call_uid c))
      || (b.(b_fleet_uid) == Some (call_uid c)) || (b.(b_repair_broker_uid) == Some (call_uid c))).

Lemma allow_step_refuses b c :
  allow_step (Ok b) c = if refused b c then Err InvalidAllowlist else Ok (with_slot b c).
Proof.
  unfold refused. destruct c as [role uid|uid];
    cbn [allow_step mbind result_bind call_uid call_role slot with_slot]; unfold builder_agent, builder_repair_broker.
  - destruct (uid == 0%Z), (uid == _), (b_application_uid b == _), (b_openai_uid b == _), (b_codex_uid b == _),
      (b_fleet_uid b == _), (b_repair_broker_uid b == _), (bool_decide (is_Some (uid_for b role))) eqn:Hr; done.
  - destruct (uid == 0%Z), (uid == _), (b_application_uid b == _), (b_openai_uid b == _), (b_codex_uid b == _),
      (b_fleet_uid b == _), (b_repair_broker_uid b); done.
Qed.

Lemma allow_step_spec companion calls b c :
  tracks companion calls b →
  allow_step (Ok b) c = if bool_decide (call_uid c ≠ 0%Z ∧ call_uid c ≠ companion ∧
      (call_uid c ∉ (call_uid <$> calls)) ∧ (call_role c ∉ (call_role <$> calls)))
    then Ok (with_slot b c) else Err InvalidAllowlist.
Proof.
  intros Ht. rewrite allow_step_refuses. pose proof (slot_taken b (call_uid c)) as Hs.
  setoid_rewrite (Ht _ (call_uid c)) in Hs. rewrite holds_uid in Hs.
  pose proof (role_taken _ _ _ (call_role c) Ht ltac:(by destruct c)) as Hr.
  assert (refused b c = true ↔ call_uid c = 0%Z ∨ (call_role c ∈ (call_role <$> calls))
    ∨ call_uid c = companion ∨ (call_uid c ∈ (call_uid <$> calls))) as Hg.
  { unfold refused. rewrite orb_true_iff, Hs, orb_true_iff, !bool_decide_eq_true, Hr. tauto. }
  clear Hs. destruct (refused b c) eqn:He; case_bool_decide as Hc; try done; exfalso.
  - pose proof (proj1 Hg eq_refl). tauto.
  - apply Hc. split_and!; intros Hx; enough (false = true) by done; apply Hg; tauto.
Qed.

Lemma admissible_snoc companion calls c :
  admissible companion (calls ++ [c]) ↔
  admissible companion calls ∧ call_uid c ≠ 0%Z ∧ call_uid c ≠ companion ∧
    (call_uid c ∉ (call_uid <$> calls)) ∧ (call_role c ∉ (call_role <$> calls)).
Proof.
  unfold admissible. rewrite !fmap_app, !not_elem_of_app, !NoDup_app. simpl.
  setoid_rewrite list_elem_of_singleton. pose proof (NoDup_singleton (call_uid c)). pose proof (NoDup_singleton (call_role c)).
  split.
  - intros ([? ?] & [? ?] & (? & ? & ?) & (? & ? & ?)). split_and!; try done; naive_solver.
  - intros ((? & ? & ? & ?) & ? & ? & ? & ?). split_and!; try done; naive_solver.
Qed.

Lemma run_calls companion calls :
  match foldl allow_step (Ok (builder companion)) calls with
  | Ok b => admissible companion calls ∧ tracks companion calls b
  | Err e => e = InvalidAllowlist ∧ ¬ admissible companion calls
  end.
Proof.
  induction calls as [|c calls IH] using rev_ind.
  - simpl. split; [|apply tracks_start]. unfold admissible. simpl. split_and!; (apply not_elem_of_nil || apply NoDup_nil_2).
  - rewrite foldl_snoc. destruct (foldl _ _ _) as [b|e].
    + destruct IH as [Ha Ht]. rewrite (allow_step_spec _ _ _ _ Ht). case_bool_decide as Hc.
      * split; [by apply admissible_snoc|]. apply tracks_step; naive_solver.
      * split; [done|]. rewrite admissible_snoc. naive_solver.
    + simpl. destruct IH as [-> IH]. split; [done|]. rewrite admissible_snoc. naive_solver.
Qed.

Lemma duplicate_check (l : list Z) :
  existsb (λ '(index, uid), existsb (λ other, other == uid) (drop (index + 1) l)) (imap pair l) = false ↔ NoDup l.
Proof.
  rewrite <-not_true_iff_false, existsb_exists, NoDup_alt. split.
  - intros Hn. enough (∀ i j x, i < j → l !! i = Some x → l !! j = Some x → False) as H.
    { intros i j x Hi Hj. destruct (Nat.lt_trichotomy i j) as [?|[?|?]]; [|done|]; exfalso; eauto. }
    intros i j x Hij Hi Hj. apply Hn. exists (i, x). rewrite <-list_elem_of_In. split.
    { apply elem_of_lookup_imap. eauto. }
    apply existsb_exists. exists x. split; [|by apply bool_decide_eq_true]. rewrite <-list_elem_of_In.
    apply list_elem_of_lookup. exists (j - (i + 1)). rewrite lookup_drop. by replace (i + 1 + (j - (i + 1))) with j by lia.
  - intros Hd ([i x] & Hin & Hex). rewrite <-list_elem_of_In in Hin. apply elem_of_lookup_imap in Hin as (i' & x' & [= -> ->] & Hi).
    apply existsb_exists in Hex as (y & Hy & ->%bool_decide_eq_true). rewrite <-list_elem_of_In in Hy.
    apply list_elem_of_lookup in Hy as (k & Hk). rewrite lookup_drop in Hk.
    specialize (Hd _ _ _ Hi Hk). lia.
Qed.

(** No UID has two roles. *)
Definition distinct (b : PeerAllowlistBuilder) : Prop :=
  ∀ role role' uid, slot b role = Some uid → slot b role' = Some uid → role = role'.

Lemma tracks_distinct companion calls b :
  admissible companion calls → tracks companion calls b → distinct b.
Proof.
  intros (_ & Hc & Hu & Hr) Ht role role' uid H H'. apply Ht in H, H'.
  assert (∀ c, c ∈ calls → call_uid c ≠ companion) as Hne.
  { intros c Hin Heq. apply Hc. rewrite <-Heq. by apply list_elem_of_fmap_2. }
  destruct H as [[-> ->]|(c & Hin & <- & <-)], H' as [[-> H']|(c' & Hin' & <- & Heq)]; try done.
  - by destruct (Hne c' Hin').
  - by destruct (Hne c Hin).
  - apply list_elem_of_lookup in Hin as (i & Hi), Hin' as (j & Hj). rewrite NoDup_alt in Hu.
    assert (i = j) as <-; [|by rewrite Hi in Hj; simplify_eq].
    apply (Hu i j (call_uid c)); rewrite list_lookup_fmap; [by rewrite Hi|by rewrite Hj, <-Heq].
Qed.

Lemma configured_slots b uid : uid ∈ configured b ↔ ∃ role, role ≠ Companion ∧ slot b role = Some uid.
Proof.
  unfold configured. rewrite list_elem_of_omap. split.
  - intros (o & Hin & Ho). unfold id in Ho. subst o. rewrite !elem_of_cons, elem_of_nil in Hin.
    destruct Hin as [?|[?|[?|[?|[?|[]]]]]];
      [exists (Agent Application)|exists (Agent OpenAi)|exists (Agent Codex)|exists (Agent Fleet)|exists RepairBroker];
      by split.
  - intros (role & Hr & Hs). exists (Some uid). split; [|done]. rewrite !elem_of_cons. rewrite <-Hs.
    destruct role as [|[]| |]; simpl in *; naive_solver.
Qed.

Lemma configured_nodup b : distinct b → NoDup (configured b).
Proof.
  intros Hd. destruct b as [c a o x f r].
  pose proof (Hd (Agent Application) (Agent OpenAi)). pose proof (Hd (Agent Application) (Agent Codex)).
  pose proof (Hd (Agent Application) (Agent Fleet)). pose proof (Hd (Agent Application) RepairBroker).
  pose proof (Hd (Agent OpenAi) (Agent Codex)). pose proof (Hd (Agent OpenAi) (Agent Fleet)).
  pose proof (Hd (Agent OpenAi) RepairBroker). pose proof (Hd (Agent Codex) (Agent Fleet)).
  pose proof (Hd (Agent Codex) RepairBroker). pose proof (Hd (Agent Fleet) RepairBroker). clear Hd.
  destruct a, o, x, f, r; unfold configured; simpl in *;
    repeat (apply NoDup_cons_2; [rewrite ?elem_of_cons, ?elem_of_nil; naive_solver|]); apply NoDup_nil_2.
Qed.

Lemma build_spec companion calls b :
  admissible companion calls → tracks companion calls b →
  build b = if companion == 0%Z then Err InvalidAllowlist
    else Ok (mkAllowlist b.(b_companion_uid) b.(b_application_uid) b.(b_openai_uid) b.(b_codex_uid)
               b.(b_fleet_uid) b.(b_repair_broker_uid) false).
Proof.
  intros Ha Ht. pose proof (tracks_distinct _ _ _ Ha Ht) as Hd. unfold build.
  rewrite (proj2 (duplicate_check _) (configured_nodup _ Hd)), orb_false_r.
  assert (b.(b_companion_uid) = companion) as ->.
  { assert (slot b Companion = Some companion) as [= ->]; [|done]. apply Ht. by left. }
  assert (existsb (λ uid, (uid == 0%Z) || (uid == companion)) (configured b) = false) as ->.
  { apply not_true_iff_false. rewrite existsb_exists. intros (uid & Hin & Hu). rewrite <-list_elem_of_In in Hin.
    apply configured_slots in Hin as (role & Hr & Hs). apply Ht in Hs as [[? _]|(c & Hc & _ & <-)]; [done|].
    destruct Ha as (H0 & Hco & _). rewrite orb_true_iff, !bool_decide_eq_true in Hu.
    apply (list_elem_of_fmap_2 call_uid) in Hc. destruct Hu as [Hu|Hu]; rewrite Hu in Hc; contradiction. }
  rewrite orb_false_r. done.
Qed.

Lemma role_for_slot b uid role :
  distinct b →
  role_for (mkAllowlist b.(b_companion_uid) b.(b_application_uid) b.(b_openai_uid) b.(b_codex_uid)
              b.(b_fleet_uid) b.(b_repair_broker_uid) false) uid = Ok role ↔ slot b role = Some uid.
Proof.
  intros Hd. unfold role_for. simpl. split.
  - repeat case_bool_decide; intros [= <-]; simpl; congruence.
  - intros Hs. repeat case_bool_decide; try f_equal;
      first [apply (Hd _ _ uid); [simpl; congruence|done] | exfalso; destruct role as [|[]| |]; simpl in Hs; congruence].
Qed.

Lemma allowlist_roles companion calls a :
  run_builder companion calls = Ok a → ∀ uid role, role_for a uid = Ok role ↔ holds_role companion calls role uid.
Proof.
  unfold run_builder. pose proof (run_calls companion calls) as Hrun. destruct (foldl _ _ _) as [b|e]; [|done].
  destruct Hrun as [Ha Ht]. cbn [mbind result_bind]. rewrite (build_spec _ _ _ Ha Ht).
  pose proof (tracks_distinct _ _ _ Ha Ht) as Hd. case_bool_decide; [done|]. intros [= <-] uid role.
  rewrite role_for_slot by done. apply Ht.
Qed.

(** Nobody is configured as the target helper. *)
Lemma holds_helper companion calls uid : ¬ holds_role companion calls RepairTargetHelper uid.
Proof. intros [[? _]|([] & _ & ? & _)]; done. Qed.

(** The allowlist of the vault socket is exact. A sequence of builder calls
    gives an allowlist exactly when the companion is not root, no UID is
    configured twice or is root or the companion, and no role is configured
    twice; it then authenticates a UID in a role exactly when the calls configured
    it so, so root and every other UID are refused. The helper's allowlist accepts
    root alone, as the target helper. *)
Theorem vault_allowlist_exact companion calls :
  (is_ok (run_builder companion calls) = true ↔ companion ≠ 0%Z ∧ admissible companion calls) ∧
  (∀ a, run_builder companion calls = Ok a →
    (∀ uid role, role_for a uid = Ok role ↔ holds_role companion calls role uid) ∧
    role_for a 0 = Err NotAuthorized) ∧
  (∀ uid, role_for repair_target_helper_root_only uid
     = if uid == 0%Z then Ok RepairTargetHelper else Err NotAuthorized).
Proof.
  unfold run_builder. pose proof (run_calls companion calls) as Hrun.
  destruct (foldl _ _ _) as [b|e]; simpl.
  - destruct Hrun as [Ha Ht]. rewrite (build_spec _ _ _ Ha Ht). pose proof (tracks_distinct _ _ _ Ha Ht) as Hd.
    case_bool_decide as Hc; (split; [naive_solver|]); (split; [|done]); [done|].
    intros a [= <-]. split; [intros uid role; rewrite role_for_slot by done; apply Ht|].
    destruct (role_for _ 0) as [role|e] eqn:Hr; [|revert Hr; unfold role_for; repeat case_match; congruence].
    apply role_for_slot in Hr; [|done]. apply Ht in Hr as [[_ ?]|(c & Hin & _ & Hu)]; [done|].
    destruct Ha as (H0 & _). destruct H0. rewrite <-Hu. by apply list_elem_of_fmap_2.
  - destruct Hrun as [-> Hrun]. split; [naive_solver|]. done.
Qed.
