(* ===== verification/RescueVaultProperties.v ===== *)
(** * What the vault protocol promises, server side

    - a request that is decoded was permitted to its peer and is valid in every
      field, and a refusal is answered only when the envelope was trustworthy;
    - descriptors travel only where an operation declares them, in both
      directions. *)

From Stdlib.Strings Require Import Byte.
From Stdlib Require String Ascii.
From S2P Require Import Prelude Bytes Text Crypto VaultWire DeviceIdentity RepairVault RescueVault.

(** ** Requests *)

(** The one role that may ask for an operation; [None] for the operations that
    only report and are shared. *)
Definition holder (op : Operation) : option PeerRole :=
  match op with
  | OpVaultStatus | OpProviderStatus | OpReportList | OpReportGet => None
  | OpVaultUnlock | OpVaultLock | OpProviderOpenAiConfigure | OpProviderLogout => Some Companion
  | OpProviderOpenAiBorrow => Some (Agent OpenAi)
  | OpProviderCodexHomeLease => Some (Agent Codex)
  | OpAuditAppend | OpReportPersist => Some (Agent Application)
  | OpFleetEnrollmentSign | OpFleetWorkOrderClaimSign | OpFleetWorkOrderResultSign => Some (Agent Fleet)
  | OpRepairBackupReserve | OpRepairBackupPersist | OpRepairBackupStatus | OpRepairBackupGet
  | OpRepairBackupCancel | OpRepairBackupRetire | OpRepairTransactionStatus | OpRepairTransactionResolve
  | OpRepairVaultLiveParent | OpRepairRollbackBegin | OpRepairRollbackStatus | OpRepairRollbackResolve =>
      Some RepairBroker
  | OpRepairTransactionWriteLeaseConsume | OpRepairRollbackWriteLeaseConsume => Some RepairTargetHelper
  end.

Lemma permits_holder op role holder_role :
  holder op = Some holder_role → permits op role = true → role = holder_role.
Proof. destruct op, role as [|[]| |]; simpl; congruence. Qed.

(** The shape, the sizes and the validity that a payload has after decoding. *)
Definition declares (d : DescriptorDeclaration) (k : DescriptorType) (lo hi : Z) : Prop :=
  d.(kind) = k ∧ (lo ≤ d.(size) ≤ hi)%Z.

(** One step of a payload parser that returned [Ok]. *)
Ltac payload_steps H :=
  repeat match type of H with
  | (_ ≫= _) = Ok _ => let v := fresh "v" in let C := fresh "Hcall" in
      apply result_bind_Ok in H as (v & C & H); cbv beta in H
  | (if _ then Err _ else _) = Ok _ => let C := fresh "Hguard" in apply reject_Ok in H as [C H]
  | Ok _ = Ok _ => apply Ok_inj_1 in H
  end;
  repeat match goal with
  | C : validate_declaration _ _ _ _ = Ok _ |- _ => apply validate_declaration_Ok in C
  | C : ok_or _ _ = Ok _ |- _ => apply ok_or_Ok in C
  | v : () |- _ => destruct v
  end.

Section requests.
Context `{sha : Sha256}.

Definition draft_valid (d : RepairBackupDraft) : Prop :=
  draft_new d.(draft_session_id) d.(draft_target_id) d.(draft_target_fingerprint)
    d.(draft_target_recovery_fingerprint) d.(draft_expected_backup_sha256) d.(draft_metadata_sha256)
    d.(draft_backup_size) d.(required_capacity_bytes) = Ok d.
Definition binding_valid (g : RepairBackupBinding) : Prop :=
  backup_binding_new g.(binding_plan_id) g.(binding_plan_sha256) g.(binding_approval_id)
    g.(binding_approval_sha256) g.(binding_resource_id) g.(binding_resource_sha256)
    g.(binding_execution_intent) = Ok g.

Definition payload_valid (op : Operation) (p : RequestPayload) : Prop :=
  match op, p with
  | (OpVaultStatus | OpVaultLock | OpProviderStatus | OpProviderOpenAiBorrow | OpReportList
     | OpRepairVaultLiveParent), ReqEmpty => True
  | OpVaultUnlock, ReqVaultUnlock d => declares d PassphrasePipe MIN_PASSPHRASE_BYTES MAX_PASSPHRASE_BYTES
  | OpProviderOpenAiConfigure, ReqProviderOpenAiConfigure d => declares d OpenAiApiKeyPipe 1 MAX_OPENAI_KEY_BYTES
  | OpProviderCodexHomeLease, ReqProviderCodexHomeLease ns root =>
      declares ns CodexMountNamespace 0 0 ∧ declares root CodexMountRoot 0 0
  | OpProviderLogout, ReqProviderLogout _ => True
  | OpAuditAppend, ReqAuditAppend n _ outcome error =>
      (1 ≤ n ≤ MAX_AUDIT_SEQUENCE)%Z ∧ (outcome = Succeeded ↔ error = None)
  | OpReportPersist, ReqReportPersist _ _ d => declares d SessionReportJsonPipe 2 MAX_SESSION_REPORT_JSON_BYTES
  | OpReportGet, ReqReportGet _ => True
  | OpFleetEnrollmentSign, ReqFleetEnrollmentSign d =>
      declares d FleetEnrollmentInputPipe 2 MAX_FLEET_SIGNING_INPUT_BYTES
  | OpFleetWorkOrderClaimSign, ReqFleetWorkOrderClaimSign d =>
      declares d FleetWorkOrderClaimInputPipe 2 MAX_FLEET_SIGNING_INPUT_BYTES
  | OpFleetWorkOrderResultSign, ReqFleetWorkOrderResultSign d =>
      declares d FleetWorkOrderResultInputPipe 2 MAX_FLEET_SIGNING_INPUT_BYTES
  | OpRepairBackupReserve, ReqRepairBackupReserve draft => draft_valid draft
  | OpRepairBackupPersist, ReqRepairBackupPersist expected g metadata d =>
      backup_validate expected = Ok tt ∧ expected.(backup_state) = Reserved ∧ binding_valid g ∧
      canonical_repair_file_metadata_sha256 metadata = expected.(metadata_sha256) ∧
      g.(binding_execution_intent).(before_sha256) = expected.(expected_backup_sha256) ∧
      g.(binding_execution_intent).(before_metadata) = metadata ∧
      g.(binding_execution_intent).(target_physical_parent_fingerprint) ≠ expected.(physical_parent_fingerprint) ∧
      declares d RepairBackupInputPipe 1 MAX_REPAIR_BACKUP_BYTES
  | OpRepairBackupStatus, ReqRepairBackupStatus expected => backup_validate expected = Ok tt
  | OpRepairBackupGet, ReqRepairBackupGet expected
  | OpRepairBackupRetire, ReqRepairBackupRetire expected =>
      backup_validate expected = Ok tt ∧ expected.(backup_state) = Durable
  | OpRepairBackupCancel, ReqRepairBackupCancel _ _ => True
  | OpRepairTransactionStatus, ReqRepairTransactionStatus _ => True
  | OpRepairTransactionResolve, ReqRepairTransactionResolve expected resolution =>
      transaction_validate expected = Ok tt ∧ transaction_is_unresolved expected = true ∧
      ∃ intent, expected.(backup).(execution_intent) = Some intent ∧
        resolution_validate_against resolution intent = Ok tt
  | OpRepairTransactionWriteLeaseConsume, ReqRepairTransactionWriteLeaseConsume selector =>
      is_exact_selector selector = true
  | OpRepairRollbackBegin, ReqRepairRollbackBegin source _ g =>
      transaction_validate source = Ok tt ∧ rollback_binding_validate_against g source = Ok tt
  | OpRepairRollbackStatus, ReqRepairRollbackStatus _ => True
  | OpRepairRollbackResolve, ReqRepairRollbackResolve expected resolution =>
      rollback_validate expected = Ok tt ∧ rollback_is_unresolved expected = true ∧
      rollback_resolution_validate_against resolution expected.(rt_source) = Ok tt
  | OpRepairRollbackWriteLeaseConsume, ReqRepairRollbackWriteLeaseConsume selector =>
      is_exact_rollback_selector selector = true
  | _, _ => False
  end.

Context `{json : RequestJson}.

Lemma audit_valid_spec p :
  audit_payload_valid p = true ↔
  (1 ≤ p.(au_sequence) ≤ MAX_AUDIT_SEQUENCE)%Z ∧ (p.(au_outcome) = Succeeded ↔ p.(au_error) = None).
Proof.
  unfold audit_payload_valid. rewrite negb_true_iff, !orb_false_iff, negb_false_iff, contains_spec, !andb_false_iff,
    !bool_decide_eq_false, <-not_eq_None_Some.
  destruct (decide (p.(au_outcome) = Succeeded)), (decide (p.(au_error) = None)); naive_solver.
Qed.

Lemma draft_new_valid s t f r e m b c d : draft_new s t f r e m b c = Ok d → draft_valid d.
Proof. unfold draft_valid, draft_new. intros H. apply reject_Ok in H as [Hg H]. apply Ok_inj_1 in H as <-. simpl. by rewrite Hg. Qed.

Lemma backup_binding_new_valid p ps a as_ r rs i g : backup_binding_new p ps a as_ r rs i = Ok g → binding_valid g.
Proof.
  unfold binding_valid, backup_binding_new. intros H. apply reject_Ok in H as [Hg H]. apply Ok_inj_1 in H as <-.
  simpl. by rewrite Hg.
Qed.

Lemma repair_persist_valid raw p : parse_repair_persist raw = Ok p → payload_valid OpRepairBackupPersist p.
Proof.
  unfold parse_repair_persist. intros H. payload_steps H. subst p.
  match goal with H : backup_binding_new _ _ _ _ _ _ _ = Ok ?g |- _ =>
    pose proof (backup_binding_new_valid _ _ _ _ _ _ _ _ H); unfold backup_binding_new in H;
    apply reject_Ok in H as [_ H]; apply Ok_inj_1 in H; subst g end.
  guards. simpl. split_and!; done.
Qed.

Lemma parse_reference_valid op raw p :
  parse_reference op raw = Ok p →
  ∃ b, backup_validate b = Ok tt ∧
    match op with
    | OpRepairBackupStatus => p = ReqRepairBackupStatus b
    | OpRepairBackupGet => p = ReqRepairBackupGet b ∧ b.(backup_state) = Durable
    | OpRepairBackupRetire => p = ReqRepairBackupRetire b ∧ b.(backup_state) = Durable
    | _ => True
    end.
Proof.
  unfold parse_reference. intros H. payload_steps H. exists v. split; [done|].
  destruct op; try done; simpl in Hguard, H; guards; by inversion H.
Qed.

Lemma parse_payload_valid op raw p : parse_payload op raw = Ok p → payload_valid op p.
Proof.
  unfold parse_payload. intros H. destruct op; try by (payload_steps H; subst p; simpl; unfold declares; naive_solver).
  - payload_steps H. subst p. rewrite negb_false_iff in Hguard. by apply audit_valid_spec in Hguard.
  - payload_steps H. subst p. by eapply draft_new_valid.
  - by eapply repair_persist_valid.
  - by apply parse_reference_valid in H as (b & Hb & ->).
  - by apply parse_reference_valid in H as (b & Hb & -> & Hd).
  - by apply parse_reference_valid in H as (b & Hb & -> & Hd).
  - payload_steps H. subst p. rewrite negb_false_iff in Hguard. simpl. eauto.
  - payload_steps H. subst p. rewrite negb_false_iff in Hguard. done.
  - payload_steps H. subst p. rewrite negb_false_iff in Hguard. done.
  - payload_steps H. subst p. rewrite negb_false_iff in Hguard. done.
Qed.
End requests.

(** ** Descriptors *)

Section descriptors.
Context `{flags : LinuxFlags}.

(** The read end of an anonymous pipe that does not leak into a child. *)
Definition readable_pipe (d : Descriptor) : Prop :=
  ∃ stat status fd, d.(fd_stat) = Some stat ∧ d.(fd_filesystem) = Some PIPEFS_MAGIC ∧
    d.(fd_status) = Some status ∧ d.(fd_flags) = Some fd ∧
    is_fifo stat.(st_mode) = true ∧ stat.(st_size) = 0%Z ∧
    Z.land status O_ACCMODE = O_RDONLY ∧ Z.land fd FD_CLOEXEC = FD_CLOEXEC.
(** A directory that can be walked from and nothing else. *)
Definition path_directory (d : Descriptor) : Prop :=
  ∃ stat, d.(fd_stat) = Some stat ∧ is_dir stat.(st_mode) = true ∧
    d.(fd_status) = Some (Z.lor (Z.lor O_PATH O_DIRECTORY) O_NOFOLLOW) ∧ d.(fd_flags) = Some FD_CLOEXEC.
Definition root_owned (d : Descriptor) : Prop :=
  ∃ stat, d.(fd_stat) = Some stat ∧ stat.(st_uid) = 0%Z ∧ stat.(st_gid) = 0%Z.
(** A mount namespace, by its filesystem and by the name procfs gives it. *)
Definition mount_namespace (d : Descriptor) : Prop :=
  d.(fd_filesystem) = Some NSFS_MAGIC ∧ d.(fd_flags) = Some FD_CLOEXEC ∧
  (∃ status, d.(fd_status) = Some status ∧ Z.land status O_ACCMODE = O_RDONLY) ∧
  ∃ digits, d.(fd_link) = Some (as_bytes "mnt:[" ++ digits ++ as_bytes "]") ∧ digits ≠ [] ∧
    forallb is_ascii_digit digits = true.

Lemma u64_try_from_Some z v : u64_try_from_i64 z = Some v ↔ z = v ∧ (0 ≤ v)%Z.
Proof. unfold u64_try_from_i64. case_match; [rewrite Z.leb_le in *|rewrite Z.leb_gt in *]; naive_solver lia. Qed.

Lemma pipe_Ok d u : validate_borrowed_pipe d = Ok u ↔ readable_pipe d.
Proof.
  unfold validate_borrowed_pipe, readable_pipe, has_flag. destruct u. split.
  - intros H. payload_steps H. guards. repeat match goal with H : u64_try_from_i64 _ = Some _ |- _ =>
      apply u64_try_from_Some in H as [-> _] end.
    subst. eexists _, _, _. split_and!; done.
  - intros (stat & status & fd & -> & -> & -> & -> & Hf & Hs & Ha & Hc). cbn [ok_or mbind result_bind].
    rewrite (proj2 (u64_try_from_Some PIPEFS_MAGIC PIPEFS_MAGIC)) by done. cbn [ok_or mbind result_bind].
    by rewrite Hf, Hs, Ha, Hc, !ne_refl_false, eq_refl_true.
Qed.

Lemma owned_pipe d : validate_pipe_descriptor d = validate_borrowed_pipe d.
Proof. done. Qed.

Lemma mount_namespace_Ok d u : validate_mount_namespace_descriptor d = Ok u ↔ mount_namespace d.
Proof.
  unfold validate_mount_namespace_descriptor, mount_namespace. destruct u. split.
  - intros H. payload_steps H.
    match goal with H : _ ≫= _ = Some _ |- _ => apply bind_Some in H as (x & Hx & Hy) end.
    apply strip_prefix_bytes_Some in Hx. apply strip_suffix_bytes_Some in Hy. guards.
    match goal with H : u64_try_from_i64 _ = Some _ |- _ => apply u64_try_from_Some in H as [-> _] end.
    subst. split_and!; [done..|by eauto|]. eauto.
  - intros (-> & -> & (status & -> & Hs) & digits & -> & Hne & Hd). cbn [ok_or mbind result_bind].
    rewrite (proj2 (u64_try_from_Some NSFS_MAGIC NSFS_MAGIC)) by done. rewrite Hs, !ne_refl_false. cbn [orb ok_or mbind result_bind].
    rewrite (proj2 (strip_prefix_bytes_Some _ _ _) eq_refl). cbn [mbind option_bind].
    rewrite (proj2 (strip_suffix_bytes_Some _ _ _) eq_refl). cbn [ok_or mbind result_bind].
    by rewrite (bool_decide_false _ Hne), Hd.
Qed.

Lemma mount_root_Ok d u : validate_mount_root_descriptor d = Ok u ↔ path_directory d ∧ root_owned d.
Proof.
  unfold validate_mount_root_descriptor, path_directory, root_owned. destruct u. split.
  - intros H. payload_steps H. guards. subst. eauto 10.
  - intros ((stat & Hs & Hd & Hst & Hf) & stat' & Hs' & Hu & Hg). rewrite Hs in Hs'. injection Hs' as <-.
    rewrite Hs, Hst, Hf. cbn [ok_or mbind result_bind]. by rewrite Hd, Hu, Hg, !ne_refl_false.
Qed.

Lemma o_path_Ok d u : validate_o_path_directory d = Ok u ↔ path_directory d.
Proof.
  unfold validate_o_path_directory, path_directory. destruct u. split.
  - intros H. payload_steps H. guards. subst. eauto 10.
  - intros (stat & -> & Hd & -> & ->). cbn [ok_or mbind result_bind]. by rewrite Hd, !ne_refl_false.
Qed.

(** The descriptors of a request: the two of a home lease, one pipe where the
    payload declares an input, none elsewhere. *)
Definition request_descriptors (p : RequestPayload) (ds : list Descriptor) : Prop :=
  match p with
  | ReqProviderCodexHomeLease _ _ =>
      ∃ namespace root, ds = [namespace; root] ∧ mount_namespace namespace ∧ path_directory root ∧ root_owned root
  | _ => match payload_descriptor p with Some _ => ∃ d, ds = [d] ∧ readable_pipe d | None => ds = [] end
  end.

(** A descriptor that is not what it should be is refused as such. *)
Lemma descriptor_Err d v :
  validate_borrowed_pipe d = Err v ∨ validate_mount_namespace_descriptor d = Err v ∨
  validate_mount_root_descriptor d = Err v ∨ validate_o_path_directory d = Err v → v = InvalidDescriptor.
Proof.
  unfold validate_borrowed_pipe, validate_mount_namespace_descriptor, validate_mount_root_descriptor, validate_o_path_directory.
  intros [H|[H|[H|H]]];
    repeat match type of H with
    | (ok_or ?o _ ≫= _) = _ => destruct o; cbn [ok_or mbind result_bind] in H; [|congruence]
    | (if ?c then _ else _) = _ => destruct c; [congruence|]
    end; congruence.
Qed.

Lemma declaration_Err d k lo hi v : validate_declaration d k lo hi = Err v → v = InvalidPayload.
Proof. unfold validate_declaration. case_match; congruence. Qed.

Lemma received_descriptors_Err p ds v :
  validate_received_descriptors p ds = Err v → v ≠ NotAuthorized.
Proof.
  intros H ->. destruct p; try (simpl in H; destruct ds as [|d [|d' ds]]; try congruence;
    repeat case_match; try congruence; rewrite ?owned_pipe in H; pose proof (descriptor_Err d NotAuthorized); naive_solver).
  cbn [validate_received_descriptors] in H.
  destruct (validate_declaration _ CodexMountNamespace 0 0) as [|v] eqn:Hd; cbn [mbind result_bind] in H;
    [|apply declaration_Err in Hd; congruence].
  destruct (validate_declaration _ CodexMountRoot 0 0) as [|v] eqn:Hd'; cbn [mbind result_bind] in H;
    [|apply declaration_Err in Hd'; congruence].
  destruct ds as [|ns [|root [|]]]; try congruence.
  destruct (validate_mount_namespace_descriptor ns) as [|v] eqn:Hn; cbn [mbind result_bind] in H.
  - by pose proof (descriptor_Err root NotAuthorized (or_intror (or_intror (or_introl H)))).
  - injection H as ->. by pose proof (descriptor_Err ns NotAuthorized (or_intror (or_introl Hn))).
Qed.

Context `{sha : Sha256}.

Lemma received_descriptors_Ok op p ds u :
  payload_valid op p → validate_received_descriptors p ds = Ok u ↔ request_descriptors p ds.
Proof.
  intros Hv. destruct u. destruct p; try (
    simpl; destruct op; try done; simpl in Hv; unfold declares in Hv;
    repeat match goal with H : _ ∧ _ |- _ => destruct H end;
    destruct ds as [|d [|d' ds]];
    repeat match goal with H : kind _ = _ |- _ => rewrite H; clear H end;
    rewrite ?owned_pipe, ?pipe_Ok; naive_solver).
  cbn [validate_received_descriptors request_descriptors]. destruct op; try done. destruct Hv as [[Hk Hs] [Hk' Hs']].
  rewrite (proj2 (validate_declaration_Ok _ _ _ _ tt) (conj Hk Hs)),
    (proj2 (validate_declaration_Ok _ _ _ _ tt) (conj Hk' Hs')). cbn [mbind result_bind].
  destruct ds as [|ns [|root [|d ds]]]; try naive_solver. rewrite result_bind_Ok.
  setoid_rewrite mount_namespace_Ok. setoid_rewrite mount_root_Ok. split; [naive_solver|].
  intros (n & r & [= -> ->] & Hn & Hr). exists tt. tauto.
Qed.
End descriptors.

(** ** Decoding *)

Section decoding.
Context `{sha : Sha256} `{json : RequestJson} `{flags : LinuxFlags}.

(** The envelope of a datagram that decoding may answer. *)
Definition trustworthy (datagram : bytes) (id : RequestId) (op : Operation) : Prop :=
  datagram ≠ [] ∧ (blen datagram ≤ MAX_DATAGRAM_BYTES)%Z ∧
  ∃ wire, read_request datagram = Some wire ∧ wire.(wire_api_version) = api_version op ∧
    wire.(wire_operation) = op ∧ wire.(wire_request_id) = id.(as_str) ∧
    (wire.(wire_expected_state_version) ≤ MAX_SAFE_JSON_INTEGER)%Z.

Lemma authorized_permits op role p :
  permits op role = true → payload_valid op p → request_payload_is_authorized role p = true.
Proof. destruct op, role as [|[]| |], p; simpl; try done; by intros ? []. Qed.

(** The decoder in one equation, for an envelope that passes its checks. *)
Lemma decode_trusted datagram peer ds id wire :
  datagram ≠ [] → (blen datagram ≤ MAX_DATAGRAM_BYTES)%Z → read_request datagram = Some wire →
  wire.(wire_api_version) = api_version wire.(wire_operation) →
  (wire.(wire_expected_state_version) ≤ MAX_SAFE_JSON_INTEGER)%Z → wire.(wire_request_id) = id.(as_str) →
  decode_request datagram peer ds =
    let op := wire.(wire_operation) in
    if negb (permits op peer.(peer_role)) then Err (rejected_request id op NotAuthorized TokenNotAuthorized peer)
    else match parse_payload op wire.(wire_payload) with
    | Err v => Err (Close v)
    | Ok p =>
        match validate_received_descriptors p ds with
        | Err v => Err match error_token v with None => Close v | Some e => rejected_request id op v e peer end
        | Ok _ => Ok (mkRequest id wire.(wire_expected_state_version) op peer.(peer_pid) peer.(peer_uid)
                       peer.(peer_role) p ds peer.(connection_identity) peer.(connection_token))
        end
    end.
Proof.
  intros Hne Hlen Hr Hv Hs Hid. unfold decode_request. rewrite (bool_decide_false _ Hne), (proj2 (Z.ltb_ge _ _) Hlen), Hr.
  cbn [ok_or mbind result_bind]. rewrite Hv, ne_refl_false, (proj2 (Z.ltb_ge _ _) Hs).
  assert (parse_request_id wire.(wire_request_id) = Ok id) as -> by by apply check_Ok. cbn [map_err mbind result_bind].
  destruct (permits _ _) eqn:Hp; [|done]. cbn [negb].
  destruct (parse_payload _ _) as [p|v] eqn:Hpp; [|done]. cbn [map_err mbind result_bind].
  rewrite (authorized_permits _ _ _ Hp (parse_payload_valid _ _ _ Hpp)). cbn [negb].
  by destruct (validate_received_descriptors p ds).
Qed.

Lemma decode_untrusted datagram peer ds :
  (∃ v, decode_request datagram peer ds = Err (Close v)) ∨
  ∃ (id : RequestId) wire, datagram ≠ [] ∧ (blen datagram ≤ MAX_DATAGRAM_BYTES)%Z ∧ read_request datagram = Some wire ∧
    wire.(wire_api_version) = api_version wire.(wire_operation) ∧
    (wire.(wire_expected_state_version) ≤ MAX_SAFE_JSON_INTEGER)%Z ∧ wire.(wire_request_id) = id.(as_str).
Proof.
  unfold decode_request. case_bool_decide as Hne; [by left; eauto|]. destruct (Z.ltb_spec MAX_DATAGRAM_BYTES (blen datagram)); [by left; eauto|].
  destruct (read_request datagram) as [wire|] eqn:Hr; [|by left; eauto]. cbn [ok_or mbind result_bind].
  case_bool_decide as Hv; [by left; eauto|].
  destruct (Z.ltb_spec MAX_SAFE_JSON_INTEGER wire.(wire_expected_state_version)); [by left; eauto|].
  destruct (parse_request_id _) as [id|e] eqn:Hid; [|by left; eauto]. apply check_Ok in Hid.
  right. exists id, wire. by split_and!.
Qed.

Lemma decode_Ok_peer datagram peer ds r :
  decode_request datagram peer ds = Ok r →
  permits r.(req_operation) peer.(peer_role) = true ∧ r.(req_peer_uid) = peer.(peer_uid) ∧
  r.(req_connection_identity) = peer.(connection_identity) ∧ r.(req_connection_token) = peer.(connection_token).
Proof.
  destruct (decode_untrusted datagram peer ds) as [[v ->]|(id & wire & Hne & Hlen & Hr & Hv & Hs & Hid)]; [done|].
  rewrite (decode_trusted _ _ _ _ _ Hne Hlen Hr Hv Hs Hid). cbv zeta. destruct (permits _ _) eqn:Hp; [|done]. cbn [negb].
  destruct (parse_payload _ _) as [p|v]; [|done]. by destruct (validate_received_descriptors p ds); intros [= <-].
Qed.

(** C18. What decoding lets through. A decoded request came in a datagram of 1 to
    65536 bytes with the version of its operation, asks for an operation that the
    role of its peer permits, has a payload of that operation's shape, within its
    sizes and valid in every part, carries exactly the descriptors that this
    payload declares, and keeps the identity of the peer and of the connection. A
    refusal that is answered names an envelope that passed all of these checks,
    the request identifier and operation in it, and one of the closed tokens, and
    says not-authorized exactly when the role does not permit the operation;
    every other failure only closes the connection. *)
Theorem vault_requests_authorized datagram peer ds :
  match decode_request datagram peer ds with
  | Ok r =>
      trustworthy datagram r.(req_request_id) r.(req_operation) ∧
      permits r.(req_operation) peer.(peer_role) = true ∧ payload_valid r.(req_operation) r.(req_payload) ∧
      request_descriptors r.(req_payload) ds ∧ r.(req_descriptors) = ds ∧
      (r.(req_expected_state_version) ≤ MAX_SAFE_JSON_INTEGER)%Z ∧
      (r.(req_peer_pid), r.(req_peer_uid), r.(req_role), r.(req_connection_identity), r.(req_connection_token))
      = (peer.(peer_pid), peer.(peer_uid), peer.(peer_role), peer.(connection_identity), peer.(connection_token))
  | Err (Reject c) =>
      trustworthy datagram c.(rej_request_id) c.(rej_operation) ∧
      error_token c.(rej_violation) = Some c.(rej_error) ∧
      (c.(rej_violation) = NotAuthorized ↔ permits c.(rej_operation) peer.(peer_role) = false) ∧
      c.(rej_connection_identity) = peer.(connection_identity) ∧
      c.(rej_connection_token) = peer.(connection_token)
  | Err (Close _) => True
  end.
Proof.
  destruct (decode_untrusted datagram peer ds) as [[v ->]|(id & wire & Hne & Hlen & Hr & Hv & Hs & Hid)]; [done|].
  rewrite (decode_trusted _ _ _ _ _ Hne Hlen Hr Hv Hs Hid). cbv zeta.
  assert (trustworthy datagram id wire.(wire_operation)) as Ht by (split_and!; [done..|]; exists wire; by split_and!).
  destruct (permits _ _) eqn:Hp; [|by split_and!]. cbn [negb].
  destruct (parse_payload _ _) as [p|v] eqn:Hpp; [|done]. apply parse_payload_valid in Hpp as Hpv.
  destruct (validate_received_descriptors p ds) as [u|v] eqn:Hd.
  - apply (received_descriptors_Ok _ _ _ _ Hpv) in Hd. by split_and!.
  - destruct (error_token v) as [e|] eqn:He; [|done]. cbn. split_and!; try done. rewrite Hp. split; [|done].
    intros ->. by apply received_descriptors_Err in Hd.
Qed.
End decoding.

(** ** Responses *)

Section responses.
Context `{sha : Sha256} `{flags : LinuxFlags} `{writer : ResponseWriter}.

(** The descriptor that the success of an operation hands over, if any. *)
Definition hands_over (op : Operation) : option DescriptorType :=
  match op with
  | OpProviderOpenAiBorrow => Some OpenAiApiKeyPipe
  | OpProviderCodexHomeLease => Some CodexHomeOPath
  | OpReportGet => Some SignedReportEnvelopePipe
  | OpRepairBackupGet => Some RepairBackupOutputPipe
  | _ => None
  end.

Definition response_descriptors (op : Operation) (ds : list Descriptor) : Prop :=
  match hands_over op with
  | None => ds = []
  | Some CodexHomeOPath => ∃ d, ds = [d] ∧ path_directory d
  | Some _ => ∃ d, ds = [d] ∧ readable_pipe d
  end.

Lemma success_declared op p s decl :
  success_declaration op p s = Some decl →
  kind <$> decl = hands_over op ∧ success_api_version s = api_version op.
Proof.
  destruct op; destruct p; try (intros H; exact (False_ind _ (eq_ind None (λ o, match o with None => True | _ => False end) I _ H)));
    cbn [success_declaration];
    (destruct s; try discriminate; cbv zeta; repeat case_match; try discriminate; intros [= <-]; guards; simpl; split; congruence).
Qed.

Lemma validate_success_Ok r s ds u :
  validate_success r s ds = Ok u ↔
  is_Some (success_declaration r.(req_operation) r.(req_payload) s) ∧ response_descriptors r.(req_operation) ds.
Proof.
  unfold validate_success, response_descriptors. destruct u.
  destruct (success_declaration _ _ s) as [decl|] eqn:Hs; cbn [ok_or mbind result_bind]; [|split; [done|intros [[? ?] _]; done]].
  apply success_declared in Hs as [Hk _]. rewrite <-Hk. destruct decl as [d|]; cbn [fmap option_fmap option_map].
  - assert (kind d ∈ [OpenAiApiKeyPipe; CodexHomeOPath; SignedReportEnvelopePipe; RepairBackupOutputPipe]) as Hin.
    { destruct r.(req_operation); simpl in Hk; simplify_eq; rewrite Hk; set_solver. }
    rewrite !elem_of_cons, elem_of_nil in Hin. clear Hk.
    destruct Hin as [Hk|[Hk|[Hk|[Hk|[]]]]]; rewrite Hk; destruct ds as [|x [|y ds]]; rewrite ?pipe_Ok, ?o_path_Ok;
      split; naive_solver.
  - destruct ds; split; naive_solver.
Qed.

Lemma encode_success_Ok r sv s ds b :
  encode_success r sv s ds = Ok b ↔
  (sv ≤ MAX_SAFE_JSON_INTEGER)%Z ∧ is_Some (success_declaration r.(req_operation) r.(req_payload) s) ∧
  response_descriptors r.(req_operation) ds ∧ (blen b ≤ MAX_DATAGRAM_BYTES)%Z ∧
  write_success (mkSuccessWire (api_version r.(req_operation)) r.(req_request_id).(as_str) sv
    r.(req_operation) "ok" s) = Some b.
Proof.
  unfold encode_success. rewrite reject_Ok, Z.ltb_ge, result_bind_Ok. setoid_rewrite validate_success_Ok.
  split.
  - intros (Hsv & _ & [Hd Hr] & H). apply result_bind_Ok in H as (b' & Hb & H). apply ok_or_Ok in Hb.
    apply reject_Ok in H as [Hl H]. apply Z.ltb_ge in Hl. apply Ok_inj_1 in H as ->.
    destruct Hd as [decl Hd]. pose proof (proj2 (success_declared _ _ _ _ Hd)) as Hv. rewrite Hv in Hb. by eauto 10.
  - intros (Hsv & [decl Hd] & Hr & Hl & Hb). split; [done|]. exists tt. split; [by split; [eauto|]|].
    rewrite (proj2 (success_declared _ _ _ _ Hd)), Hb. cbn [ok_or mbind result_bind]. by rewrite (proj2 (Z.ltb_ge _ _) Hl).
Qed.

Lemma write_error_bounded w b :
  (x ← ok_or (write_error w) InvalidPayload;
   if (MAX_DATAGRAM_BYTES <? blen x)%Z then Err DatagramTooLarge else Ok x) = Ok b ↔
  (blen b ≤ MAX_DATAGRAM_BYTES)%Z ∧ write_error w = Some b.
Proof.
  rewrite result_bind_Ok. setoid_rewrite ok_or_Ok. setoid_rewrite reject_Ok. setoid_rewrite Z.ltb_ge.
  split; [intros (x & Hx & Hl & [= ->]); done|]. intros [Hl Hx]. by exists b.
Qed.

Lemma encode_error_Ok r sv e ds b :
  encode_error r sv e ds = Ok b ↔
  (sv ≤ MAX_SAFE_JSON_INTEGER)%Z ∧ ds = [] ∧ (blen b ≤ MAX_DATAGRAM_BYTES)%Z ∧
  write_error (mkErrorWire (api_version r.(req_operation)) r.(req_request_id).(as_str) sv
    r.(req_operation) "error" e) = Some b.
Proof.
  unfold encode_error. rewrite reject_Ok, Z.ltb_ge, reject_Ok, write_error_bounded, negb_false_iff, bool_decide_eq_true.
  destruct ds; simpl; split; intros H; repeat match goal with H : _ ∧ _ |- _ => destruct H end; try done.
Qed.

Lemma encode_rejection_Ok c sv b :
  encode_rejection c sv = Ok b ↔
  (sv ≤ MAX_SAFE_JSON_INTEGER)%Z ∧ (blen b ≤ MAX_DATAGRAM_BYTES)%Z ∧
  write_error (mkErrorWire (api_version c.(rej_operation)) c.(rej_request_id).(as_str) sv
    c.(rej_operation) "error" c.(rej_error)) = Some b.
Proof. unfold encode_rejection. by rewrite reject_Ok, Z.ltb_ge, write_error_bounded. Qed.

(** What a response may carry. A success is encoded exactly when the state
    version is JSON-safe, the payload is one that the request admits and the
    descriptors are exactly those its operation hands over: one read-only,
    close-on-exec pipe for a borrowed key, a report or a repair backup, one
    O_PATH directory for the Codex home, none for anything else; it is written
    under the version of its operation within one datagram. An error and a
    rejection never carry a descriptor and repeat the identifier and the
    operation of their request. *)
Theorem vault_responses_confined :
  (∀ r sv s ds b, encode_success r sv s ds = Ok b ↔
    (sv ≤ MAX_SAFE_JSON_INTEGER)%Z ∧ is_Some (success_declaration r.(req_operation) r.(req_payload) s) ∧
    response_descriptors r.(req_operation) ds ∧ (blen b ≤ MAX_DATAGRAM_BYTES)%Z ∧
    write_success (mkSuccessWire (api_version r.(req_operation)) r.(req_request_id).(as_str) sv
      r.(req_operation) "ok" s) = Some b) ∧
  (∀ r sv e ds b, encode_error r sv e ds = Ok b ↔
    (sv ≤ MAX_SAFE_JSON_INTEGER)%Z ∧ ds = [] ∧ (blen b ≤ MAX_DATAGRAM_BYTES)%Z ∧
    write_error (mkErrorWire (api_version r.(req_operation)) r.(req_request_id).(as_str) sv
      r.(req_operation) "error" e) = Some b) ∧
  (∀ c sv b, encode_rejection c sv = Ok b ↔
    (sv ≤ MAX_SAFE_JSON_INTEGER)%Z ∧ (blen b ≤ MAX_DATAGRAM_BYTES)%Z ∧
    write_error (mkErrorWire (api_version c.(rej_operation)) c.(rej_request_id).(as_str) sv
      c.(rej_operation) "error" c.(rej_error)) = Some b).
Proof.
  split_and!; [apply encode_success_Ok|apply encode_error_Ok|apply encode_rejection_Ok].
Qed.
End responses.
