(* ===== verification/VaultTransport.v ===== *)
(** * The seqpacket transport (crates/protocol/src/rescue_vault_transport.rs)

    One bounded record with at most two descriptors, sent or received before a
    deadline. The kernel is a class over its own state: every system call may
    answer anything and change that state. The loops that retry on [EINTR] and
    [EAGAIN] take fuel; [Spent] says that the fuel is used up and is not a result
    of the code. *)

From Stdlib.Strings Require Import Byte.
From Stdlib Require String Ascii.
From S2P Require Import Prelude Bytes Text VaultWire RescueVault.

Inductive SeqpacketTransportError :=
| TransportInvalid | ServerNotRoot | TransportEmptyDatagram | AmbiguousZeroByte | TransportTooLarge
| AncillaryTruncated | UnexpectedAncillary | TooManyDescriptors | TimedOut | IoFailed | IncompleteSend.

#[export] Instance SeqpacketTransportError_eq_dec : EqDecision SeqpacketTransportError.
Proof. solve_decision. Defined.

Inductive Halt := Fails (e : SeqpacketTransportError) | Spent.

(** ** The kernel *)

Inductive Errno := INTR | AGAIN | OtherErrno.

Inductive Ancillary := ScmRights (rights : list Descriptor) | ScmCredentials | OtherAncillary.

(** A record as [recvmsg] reports it: the whole receive buffer, the length of the
    record (the real one, with [MSG_TRUNC]), the return flags, the control
    messages. *)
Record RecvMessage := mkMessage {
  msg_buffer : bytes;
  msg_bytes : Z;
  msg_trunc : bool;
  msg_ctrunc : bool;
  msg_control : list Ancillary;
}.

Inductive Interest := PollIn | PollOut | PollInRdhup.
Record PollEvents := mkEvents {
  ev_in : bool; ev_out : bool; ev_err : bool; ev_hup : bool; ev_rdhup : bool; ev_nval : bool;
}.

Inductive AddressFamily := AfUnix | AfOther.
Inductive SocketType := Seqpacket | OtherSocketType.
#[export] Instance AddressFamily_eq_dec : EqDecision AddressFamily.
Proof. solve_decision. Defined.
#[export] Instance SocketType_eq_dec : EqDecision SocketType.
Proof. solve_decision. Defined.

(** Answers about a socket: [F_GETFD], [SO_DOMAIN], [SO_TYPE], [SO_ACCEPTCONN],
    [getpeername], device and inode of [fstat], [SO_PEERCRED]. *)
Record SocketView := mkSocketView {
  so_flags : option Z;
  so_domain : option AddressFamily;
  so_type : option SocketType;
  so_acceptconn : option bool;
  so_peername : option ();
  so_identity : option SeqpacketSocketIdentity;
  so_peercred : option (Z * Z);
}.

(** [Timespec] and [Duration] in nanoseconds. *)
Record Timespec := mkTimespec { tv_sec : Z; tv_nsec : Z }.

Class Kernel (K : Type) : Type := {
  now : K → K * Z;
  socket_view : K → K * SocketView;
  recvmsg : K → K * result Errno RecvMessage;
  peek : K → K * result Errno RecvMessage;
  sendmsg : bytes → list Descriptor → K → K * result Errno Z;
  poll : Interest → Timespec → K → K * result Errno (Z * PollEvents);
  (** [control.push] of the descriptors into the control buffer. *)
  push_rights : list Descriptor → bool;
}.

(** ** Deadlines *)

Definition NANOS_PER_SEC : Z := 1000000000.

Definition duration_to_timespec (duration : Z) : Timespec :=
  let seconds := default I64_MAX (let s := (duration / NANOS_PER_SEC)%Z in if (s <=? I64_MAX)%Z then Some s else None) in
  mkTimespec seconds (if seconds == I64_MAX then 999999999 else (duration mod NANOS_PER_SEC))%Z.

(** [deadline.checked_duration_since(now).filter(|remaining| !remaining.is_zero())]. *)
Definition remaining (deadline now : Z) : option Z :=
  let d := (deadline - now)%Z in if (0 <? d)%Z then Some d else None.

Record ReceivedSeqpacket := mkPacket {
  packet_bytes : bytes;
  packet_descriptors : list Descriptor;
  packet_identity : SeqpacketSocketIdentity;
}.

Section transport.
Context {K : Type} `{kernel : !Kernel K} `{flags : LinuxFlags}.

(** A system call as a method. *)
Definition call {A} (f : K → K * A) : method K Halt A := λ k, let '(k', a) := f k in (k', Ok a).

Definition ensure_deadline (deadline : Z) : method K Halt () :=
  n ← call now;
  fail_if (bool_decide (remaining deadline n = None)) (Fails TimedOut).

Definition validate_seqpacket_socket : method K Halt SeqpacketSocketIdentity :=
  v ← call socket_view;
  descriptor_flags ← lift (ok_or v.(so_flags) (Fails TransportInvalid));
  domain ← lift (ok_or v.(so_domain) (Fails TransportInvalid));
  fail_if (domain != AfUnix) (Fails TransportInvalid);;
  type ← lift (ok_or v.(so_type) (Fails TransportInvalid));
  fail_if (type != Seqpacket) (Fails TransportInvalid);;
  acceptconn ← lift (ok_or v.(so_acceptconn) (Fails TransportInvalid));
  fail_if (acceptconn || negb (has_flag descriptor_flags FD_CLOEXEC)) (Fails TransportInvalid);;
  lift (ok_or v.(so_peername) (Fails TransportInvalid));;
  lift (ok_or v.(so_identity) (Fails TransportInvalid)).

Definition validate_bound_seqpacket_socket (expected : SeqpacketSocketIdentity) : method K Halt () :=
  identity ← validate_seqpacket_socket;
  fail_if (identity != expected) (Fails TransportInvalid).

(** [ready.intersects(interest | ERR | HUP | RDHUP)]. *)
Definition is_ready (interest : Interest) (e : PollEvents) : bool :=
  match interest with
  | PollIn => e.(ev_in)
  | PollOut => e.(ev_out)
  | PollInRdhup => e.(ev_in) || e.(ev_rdhup)
  end || e.(ev_err) || e.(ev_hup) || e.(ev_rdhup).

Fixpoint wait_until_ready (fuel : nat) (interest : Interest) (deadline : Z) : method K Halt () :=
  match fuel with
  | O => throw Spent
  | S fuel =>
      n ← call now;
      remaining ← lift (ok_or (remaining deadline n) (Fails TimedOut));
      r ← call (poll interest (duration_to_timespec remaining));
      match r with
      | Ok (count, ready) =>
          if count == 0%Z then throw (Fails TimedOut)
          else if ready.(ev_nval) then throw (Fails TransportInvalid)
          else if is_ready interest ready then mret tt
          else wait_until_ready fuel interest deadline
      | Err INTR => wait_until_ready fuel interest deadline
      | Err _ => throw (Fails IoFailed)
      end
  end.

(** ** Receiving *)

Fixpoint recv_loop (fuel : nat) (deadline : Z) : method K Halt RecvMessage :=
  match fuel with
  | O => throw Spent
  | S fuel' =>
      ensure_deadline deadline;;
      r ← call recvmsg;
      match r with
      | Ok message => mret message
      | Err INTR => recv_loop fuel' deadline
      | Err AGAIN => wait_until_ready fuel PollIn deadline;; recv_loop fuel' deadline
      | Err OtherErrno => throw (Fails IoFailed)
      end
  end.

(** The inner [poll] loop of [classify_zero_length_receive]. *)
Fixpoint classify_poll (fuel : nat) (deadline : Z) : method K Halt SeqpacketTransportError :=
  match fuel with
  | O => throw Spent
  | S fuel =>
      d ← attempt (ensure_deadline deadline);
      match d with
      | Err _ => mret AmbiguousZeroByte
      | Ok _ =>
          r ← call (poll PollInRdhup (mkTimespec 0 0));
          match r with
          | Ok (_, events) =>
              if events.(ev_err) || events.(ev_nval) then mret IoFailed
              else if events.(ev_hup) || events.(ev_rdhup) then mret AmbiguousZeroByte
              else mret TransportEmptyDatagram
          | Err INTR => classify_poll fuel deadline
          | Err _ => mret IoFailed
          end
      end
  end.

Fixpoint classify_zero_length_receive (fuel : nat) (deadline : Z) : method K Halt SeqpacketTransportError :=
  match fuel with
  | O => throw Spent
  | S fuel' =>
      d ← attempt (ensure_deadline deadline);
      match d with
      | Err _ => mret AmbiguousZeroByte
      | Ok _ =>
          r ← call peek;
          match r with
          | Err INTR => classify_zero_length_receive fuel' deadline
          | Err AGAIN => mret TransportEmptyDatagram
          | Err OtherErrno => mret IoFailed
          | Ok message =>
              if (0 <? message.(msg_bytes))%Z || negb (length message.(msg_control) =? 0)
                 || message.(msg_trunc) || message.(msg_ctrunc)
              then mret TransportEmptyDatagram
              else classify_poll fuel deadline
          end
      end
  end.

(** [for ancillary in control.drain()]: the descriptors in order, and whether
    anything else was there. *)
Definition drain (control : list Ancillary) : list Descriptor * bool :=
  foldl (λ '(descriptors, unexpected) a,
           match a with
           | ScmRights rights => (descriptors ++ rights, unexpected)
           | ScmCredentials => (descriptors, true)
           | OtherAncillary => (descriptors, true)
           end) ([], false) control.

(** [fcntl_getfd(d).map(|flags| !flags.contains(CLOEXEC)).unwrap_or(true)]. *)
Definition leaks_on_exec (d : Descriptor) : bool :=
  match d.(fd_flags) with Some f => negb (has_flag f FD_CLOEXEC) | None => true end.

Definition recv_seqpacket (fuel : nat) (deadline : Z) : method K Halt ReceivedSeqpacket :=
  ensure_deadline deadline;;
  socket_identity ← validate_seqpacket_socket;
  ensure_deadline deadline;;
  message ← recv_loop fuel deadline;
  fail_if message.(msg_ctrunc) (Fails AncillaryTruncated);;
  fail_if (message.(msg_trunc) || (MAX_DATAGRAM_BYTES <? message.(msg_bytes))%Z) (Fails TransportTooLarge);;
  let '(descriptors, unexpected_ancillary) := drain message.(msg_control) in
  if message.(msg_bytes) == 0%Z then
    if negb (length descriptors =? 0) || unexpected_ancillary then throw (Fails TransportEmptyDatagram)
    else (e ← classify_zero_length_receive fuel deadline; throw (Fails e))
  else
    fail_if unexpected_ancillary (Fails UnexpectedAncillary);;
    fail_if (2 <? length descriptors) (Fails TooManyDescriptors);;
    fail_if (existsb leaks_on_exec descriptors) (Fails UnexpectedAncillary);;
    mret (mkPacket (take (Z.to_nat message.(msg_bytes)) message.(msg_buffer)) descriptors socket_identity).

(** ** Sending *)

Fixpoint send_loop (fuel : nat) (bytes : bytes) (descriptors : list Descriptor) (deadline : Z) :
    method K Halt Z :=
  match fuel with
  | O => throw Spent
  | S fuel' =>
      ensure_deadline deadline;;
      r ← call (sendmsg bytes descriptors);
      match r with
      | Ok sent => mret sent
      | Err INTR => send_loop fuel' bytes descriptors deadline
      | Err AGAIN => wait_until_ready fuel PollOut deadline;; send_loop fuel' bytes descriptors deadline
      | Err OtherErrno => throw (Fails IoFailed)
      end
  end.

Definition send_seqpacket (fuel : nat) (bytes : bytes) (descriptors : list Descriptor) (deadline : Z) :
    method K Halt () :=
  ensure_deadline deadline;;
  _ ← validate_seqpacket_socket;
  fail_if (bytes == []) (Fails TransportEmptyDatagram);;
  fail_if (MAX_DATAGRAM_BYTES <? blen bytes)%Z (Fails TransportTooLarge);;
  fail_if (2 <? length descriptors) (Fails TooManyDescriptors);;
  ensure_deadline deadline;;
  fail_if (negb (length descriptors =? 0) && negb (push_rights descriptors)) (Fails IoFailed);;
  sent ← send_loop fuel bytes descriptors deadline;
  fail_if (sent != blen bytes) (Fails IncompleteSend).

End transport.
