(* ===== verification/VaultClient.v ===== *)
(** * The client codec of the vault protocol (crates/protocol/src/rescue_vault_transport.rs)

    Typed requests, their encoding with the descriptors they carry, and the
    strict decoding of the one response that belongs to a request. The structs
    that the client writes and the structs that it reads are its own; that the
    server reads what the client writes is a law of the serde_json parameter, one
    clause per struct. *)

From Stdlib.Strings Require Import Byte.
From Stdlib Require String Ascii.
From S2P Require Import Prelude Bytes Text Crypto VaultWire DeviceIdentity RepairVault RescueVault.

(** ** Requests *)

Inductive ClientRequestPayload :=
| CliVaultStatus
| CliVaultUnlock (passphrase_size : Z)
| CliVaultLock
| CliProviderOpenAiConfigure (api_key_size : Z)
| CliProviderStatus
| CliProviderLogout (provider : Provider)
| CliProviderOpenAiBorrow
| CliProviderCodexHomeLease
| CliAuditAppend (sequence : Z) (event : AuditEventType) (outcome : AuditOutcome) (error : option ErrorToken)
| CliReportPersist (report_id : ReportId) (payload_sha256 : Sha256Text) (input_size : Z)
| CliReportList
| CliReportGet (report_id : ReportId)
| CliFleetEnrollmentSign (input_size : Z)
| CliFleetWorkOrderClaimSign (input_size : Z)
| CliFleetWorkOrderResultSign (input_size : Z)
| CliRepairBackupReserve (draft : RepairBackupDraft)
| CliRepairBackupPersist (expected : RepairBackupStatusPayload) (binding : RepairBackupBinding)
    (metadata : RepairFileMetadataV1) (input_size : Z)
| CliRepairBackupStatus (expected : RepairBackupStatusPayload)
| CliRepairBackupGet (expected : RepairBackupStatusPayload)
| CliRepairBackupCancel (reservation_id : RepairReservationId) (draft_binding_sha256 : Sha256Text)
| CliRepairBackupRetire (expected : RepairBackupStatusPayload)
| CliRepairTransactionStatus (selector : RepairTransactionStatusSelector)
| CliRepairTransactionResolve (expected : RepairTransactionStatusPayload) (resolution : RepairTransactionResolution)
| CliRepairTransactionWriteLeaseConsume (selector : RepairTransactionStatusSelector)
| CliRepairRollbackBegin (source : RepairTransactionStatusPayload) (rollback_id : RepairRollbackId)
    (binding : RepairRollbackBindingV1)
| CliRepairRollbackStatus (selector : RepairRollbackStatusSelector)
| CliRepairRollbackResolve (expected : RepairRollbackTransactionStatusPayload) (resolution : RepairRollbackResolution)
| CliRepairRollbackWriteLeaseConsume (selector : RepairRollbackStatusSelector)
| CliRepairVaultLiveParent.

Definition client_operation (p : ClientRequestPayload) : Operation :=
  match p with
  | CliVaultStatus => OpVaultStatus
  | CliVaultUnlock _ => OpVaultUnlock
  | CliVaultLock => OpVaultLock
  | CliProviderOpenAiConfigure _ => OpProviderOpenAiConfigure
  | CliProviderStatus => OpProviderStatus
  | CliProviderLogout _ => OpProviderLogout
  | CliProviderOpenAiBorrow => OpProviderOpenAiBorrow
  | CliProviderCodexHomeLease => OpProviderCodexHomeLease
  | CliAuditAppend _ _ _ _ => OpAuditAppend
  | CliReportPersist _ _ _ => OpReportPersist
  | CliReportList => OpReportList
  | CliReportGet _ => OpReportGet
  | CliFleetEnrollmentSign _ => OpFleetEnrollmentSign
  | CliFleetWorkOrderClaimSign _ => OpFleetWorkOrderClaimSign
  | CliFleetWorkOrderResultSign _ => OpFleetWorkOrderResultSign
  | CliRepairBackupReserve _ => OpRepairBackupReserve
  | CliRepairBackupPersist _ _ _ _ => OpRepairBackupPersist
  | CliRepairBackupStatus _ => OpRepairBackupStatus
  | CliRepairBackupGet _ => OpRepairBackupGet
  | CliRepairBackupCancel _ _ => OpRepairBackupCancel
  | CliRepairBackupRetire _ => OpRepairBackupRetire
  | CliRepairTransactionStatus _ => OpRepairTransactionStatus
  | CliRepairTransactionResolve _ _ => OpRepairTransactionResolve
  | CliRepairVaultLiveParent => OpRepairVaultLiveParent
  | CliRepairTransactionWriteLeaseConsume _ => OpRepairTransactionWriteLeaseConsume
  | CliRepairRollbackBegin _ _ _ => OpRepairRollbackBegin
  | CliRepairRollbackStatus _ => OpRepairRollbackStatus
  | CliRepairRollbackResolve _ _ => OpRepairRollbackResolve
  | CliRepairRollbackWriteLeaseConsume _ => OpRepairRollbackWriteLeaseConsume
  end.

Definition input_declaration (p : ClientRequestPayload) : option DescriptorDeclaration :=
  match p with
  | CliVaultUnlock passphrase_size => Some (mkDeclaration PassphrasePipe passphrase_size)
  | CliProviderOpenAiConfigure api_key_size => Some (mkDeclaration OpenAiApiKeyPipe api_key_size)
  | CliReportPersist _ _ input_size => Some (mkDeclaration SessionReportJsonPipe input_size)
  | CliFleetEnrollmentSign input_size => Some (mkDeclaration FleetEnrollmentInputPipe input_size)
  | CliFleetWorkOrderClaimSign input_size => Some (mkDeclaration FleetWorkOrderClaimInputPipe input_size)
  | CliFleetWorkOrderResultSign input_size => Some (mkDeclaration FleetWorkOrderResultInputPipe input_size)
  | CliRepairBackupPersist _ _ _ input_size => Some (mkDeclaration RepairBackupInputPipe input_size)
  | CliVaultStatus | CliVaultLock | CliProviderStatus | CliProviderLogout _ | CliProviderOpenAiBorrow
  | CliProviderCodexHomeLease | CliAuditAppend _ _ _ _ | CliReportList | CliReportGet _ => None
  | CliRepairBackupReserve _ | CliRepairBackupStatus _ | CliRepairBackupGet _
  | CliRepairBackupCancel _ _ | CliRepairBackupRetire _ | CliRepairTransactionStatus _
  | CliRepairTransactionResolve _ _ | CliRepairVaultLiveParent
  | CliRepairTransactionWriteLeaseConsume _ | CliRepairRollbackBegin _ _ _ | CliRepairRollbackStatus _
  | CliRepairRollbackResolve _ _ | CliRepairRollbackWriteLeaseConsume _ => None
  end.

Record ClientRequest := mkClientRequest {
  cli_request_id : RequestId;
  cli_expected_state_version : Z;
  cli_payload : ClientRequestPayload;
}.
Definition request_operation (r : ClientRequest) : Operation := client_operation r.(cli_payload).

(** The payload structs that the client writes, texts in their wire form. *)
Inductive RequestBody :=
| BodyEmpty
| BodyInput (input : DescriptorDeclaration)
| BodyCodexHomeLease (p : CodexHomeLeasePayload)
| BodyLogout (provider : Provider)
| BodyAudit (p : AuditPayload)
| BodyPersist (p : PersistPayload)
| BodyGet (report_id : string)
| BodyReserve (p : RepairBackupReservePayload)
| BodyRepairPersist (p : RepairBackupPersistPayload)
| BodyReference (expected : RepairBackupStatusPayload)
| BodyCancel (p : RepairBackupCancelPayload)
| BodyTransactionSelector (selector : RepairTransactionStatusSelector)
| BodyResolve (p : RepairTransactionResolveRequestPayload)
| BodyRollbackBegin (p : RepairRollbackBeginRequestPayload)
| BodyRollbackSelector (selector : RepairRollbackStatusSelector)
| BodyRollbackResolve (p : RepairRollbackResolveRequestPayload).

Record ClientRequestWire := mkClientRequestWire {
  cw_api_version : string;
  cw_request_id : string;
  cw_expected_state_version : Z;
  cw_operation : Operation;
  cw_payload : RequestBody;
}.

(** [serde_json::to_vec] on a request struct. *)
Class RequestWriter : Type := write_request : ClientRequestWire → option bytes.

(** A text that JSON writes without an escape; a borrowed [&str] field is read
    from no other. *)
Definition plain (s : string) : bool :=
  all_bytes (λ b, in_range 0x20 0x7e b && (b != x22) && (b != x5c)) s.

(** The server reads back what the client writes: the field names of both sides
    are the same, and a struct written by [Serialize] is read by [Deserialize]. *)
Class RequestWireLaws `{RequestJson, RequestWriter} : Prop :=
  read_write_request w b :
    plain w.(cw_api_version) = true → plain w.(cw_request_id) = true →
    write_request w = Some b →
    b ≠ [] ∧ ∃ raw,
      read_request b = Some (mkWireRequest w.(cw_api_version) w.(cw_request_id)
        w.(cw_expected_state_version) w.(cw_operation) raw) ∧
      match w.(cw_payload) with
      | BodyEmpty => read_empty raw = Some tt
      | BodyInput d => read_input raw = Some d
      | BodyCodexHomeLease p => read_codex_home_lease raw = Some p
      | BodyLogout p => read_logout raw = Some p
      | BodyAudit p => read_audit raw = Some p
      | BodyPersist p => read_persist raw = Some p
      | BodyGet i => read_get raw = Some i
      | BodyReserve p => read_reserve raw = Some p
      | BodyRepairPersist p => read_repair_persist raw = Some p
      | BodyReference b => read_reference raw = Some b
      | BodyCancel p => read_cancel raw = Some p
      | BodyTransactionSelector s => read_transaction_selector raw = Some s
      | BodyResolve p => read_resolve raw = Some p
      | BodyRollbackBegin p => read_rollback_begin raw = Some p
      | BodyRollbackSelector s => read_rollback_selector raw = Some s
      | BodyRollbackResolve p => read_rollback_resolve raw = Some p
      end.

Section requests.
Context `{sha : Sha256} `{flags : LinuxFlags} `{writer : RequestWriter}.

Definition valid_client_payload (p : ClientRequestPayload) : bool :=
  match p with
  | CliVaultUnlock passphrase_size => contains MIN_PASSPHRASE_BYTES MAX_PASSPHRASE_BYTES passphrase_size
  | CliProviderOpenAiConfigure api_key_size => contains 1 MAX_OPENAI_KEY_BYTES api_key_size
  | CliAuditAppend sequence _ outcome error =>
      contains 1 MAX_AUDIT_SEQUENCE sequence
      && (((outcome == Succeeded) && (error == None))
          || ((outcome != Succeeded) && bool_decide (is_Some error)))
  | CliReportPersist _ _ input_size => contains 2 MAX_SESSION_REPORT_JSON_BYTES input_size
  | CliFleetEnrollmentSign input_size | CliFleetWorkOrderClaimSign input_size
  | CliFleetWorkOrderResultSign input_size => contains 2 MAX_FLEET_SIGNING_INPUT_BYTES input_size
  | CliRepairBackupPersist expected binding metadata input_size =>
      is_ok (backup_validate expected) && (expected.(backup_state) == Reserved)
      && (expected.(backup_size) == input_size) && is_ok (metadata_validate metadata)
      && (canonical_repair_file_metadata_sha256 metadata == expected.(metadata_sha256))
      && (binding.(binding_execution_intent).(before_sha256) == expected.(expected_backup_sha256))
      && (binding.(binding_execution_intent).(before_metadata) == metadata)
      && (binding.(binding_execution_intent).(target_physical_parent_fingerprint)
          != expected.(physical_parent_fingerprint))
      && contains 1 MAX_REPAIR_BACKUP_BYTES input_size
  | CliVaultStatus | CliVaultLock | CliProviderStatus | CliProviderLogout _ | CliProviderOpenAiBorrow
  | CliProviderCodexHomeLease | CliReportList | CliReportGet _ => true
  | CliRepairBackupReserve _ => true
  | CliRepairBackupStatus expected => is_ok (backup_validate expected)
  | CliRepairBackupGet expected => is_ok (backup_validate expected) && (expected.(backup_state) == Durable)
  | CliRepairBackupCancel _ _ => true
  | CliRepairBackupRetire expected => is_ok (backup_validate expected) && (expected.(backup_state) == Durable)
  | CliRepairTransactionStatus selector => is_ok (transaction_selector_validate selector)
  | CliRepairTransactionResolve expected resolution =>
      is_ok (transaction_validate expected) && transaction_is_unresolved expected
      && is_some_and expected.(backup).(execution_intent)
           (λ intent, is_ok (resolution_validate_against resolution intent))
  | CliRepairVaultLiveParent => true
  | CliRepairTransactionWriteLeaseConsume selector =>
      is_exact_selector selector && is_ok (transaction_selector_validate selector)
  | CliRepairRollbackBegin source _ binding =>
      is_ok (transaction_validate source) && is_ok (rollback_binding_validate_against binding source)
  | CliRepairRollbackStatus selector => is_ok (rollback_selector_validate selector)
  | CliRepairRollbackResolve expected resolution =>
      is_ok (rollback_validate expected) && rollback_is_unresolved expected
      && is_ok (rollback_resolution_validate_against resolution expected.(rt_source))
  | CliRepairRollbackWriteLeaseConsume selector =>
      is_exact_rollback_selector selector && is_ok (rollback_selector_validate selector)
  end.

Definition client_request_new (request_id : RequestId) (expected_state_version : Z)
    (payload : ClientRequestPayload) : result ProtocolViolation ClientRequest :=
  reject ((MAX_SAFE_JSON_INTEGER <? expected_state_version)%Z || negb (valid_client_payload payload))
    with InvalidPayload;
  Ok (mkClientRequest request_id expected_state_version payload).

Definition validate_client_request_descriptors (r : ClientRequest) (descriptors : list Descriptor) :
    result ProtocolViolation () :=
  match r.(cli_payload) with
  | CliProviderCodexHomeLease =>
      match descriptors with
      | [] | [_] => Err FdRequired
      | [namespace; root] =>
          _ ← validate_mount_namespace_descriptor namespace;
          validate_mount_root_descriptor root
      | _ => Err FdForbidden
      end
  | _ =>
      match input_declaration r.(cli_payload), descriptors with
      | None, [] => Ok tt
      | None, _ :: _ | Some _, _ :: _ :: _ => Err FdForbidden
      | Some _, [] => Err FdRequired
      | Some declaration, [descriptor] =>
          match declaration.(kind) with
          | CodexMountNamespace => validate_mount_namespace_descriptor descriptor
          | PassphrasePipe | OpenAiApiKeyPipe | SessionReportJsonPipe
          | FleetEnrollmentInputPipe | FleetWorkOrderClaimInputPipe | FleetWorkOrderResultInputPipe
          | RepairBackupInputPipe => validate_borrowed_pipe descriptor
          | CodexHomeOPath | CodexMountRoot | SignedReportEnvelopePipe | RepairBackupOutputPipe =>
              Err InvalidPayload
          end
      end
  end.

(** The struct that [encode_client_request] writes for a payload. *)
Definition request_body (p : ClientRequestPayload) : result ProtocolViolation RequestBody :=
  let declaration := input_declaration p in
  match p with
  | CliVaultStatus | CliVaultLock | CliProviderStatus | CliProviderOpenAiBorrow | CliReportList
  | CliRepairVaultLiveParent => Ok BodyEmpty
  | CliVaultUnlock _ | CliProviderOpenAiConfigure _ | CliFleetEnrollmentSign _
  | CliFleetWorkOrderClaimSign _ | CliFleetWorkOrderResultSign _ =>
      input ← ok_or declaration InvalidPayload;
      Ok (BodyInput input)
  | CliProviderCodexHomeLease =>
      Ok (BodyCodexHomeLease (mkCodexHomeLease (mkDeclaration CodexMountNamespace 0) (mkDeclaration CodexMountRoot 0)))
  | CliProviderLogout provider => Ok (BodyLogout provider)
  | CliAuditAppend sequence event outcome error => Ok (BodyAudit (mkAudit sequence event outcome error))
  | CliReportPersist report_id payload_sha256 _ =>
      input ← ok_or declaration InvalidPayload;
      Ok (BodyPersist (mkPersist report_id.(as_str) payload_sha256.(as_str) input))
  | CliReportGet report_id => Ok (BodyGet report_id.(as_str))
  | CliRepairBackupReserve draft =>
      Ok (BodyReserve (mkReserve draft.(draft_session_id) draft.(draft_target_id)
        draft.(draft_target_fingerprint).(as_str) draft.(draft_target_recovery_fingerprint)
        draft.(draft_expected_backup_sha256).(as_str) draft.(draft_metadata_sha256).(as_str)
        draft.(draft_backup_size) draft.(required_capacity_bytes)))
  | CliRepairBackupPersist expected binding metadata _ =>
      input ← ok_or declaration InvalidPayload;
      Ok (BodyRepairPersist (mkRepairPersist expected metadata binding.(binding_plan_id)
        binding.(binding_plan_sha256).(as_str) binding.(binding_approval_id)
        binding.(binding_approval_sha256).(as_str) binding.(binding_resource_id)
        binding.(binding_resource_sha256).(as_str) binding.(binding_execution_intent) input))
  | CliRepairBackupStatus expected | CliRepairBackupGet expected | CliRepairBackupRetire expected =>
      Ok (BodyReference expected)
  | CliRepairBackupCancel reservation_id draft_binding_sha256 =>
      Ok (BodyCancel (mkCancel reservation_id.(as_str) draft_binding_sha256.(as_str)))
  | CliRepairTransactionStatus selector | CliRepairTransactionWriteLeaseConsume selector =>
      Ok (BodyTransactionSelector selector)
  | CliRepairTransactionResolve expected resolution => Ok (BodyResolve (mkResolve expected resolution))
  | CliRepairRollbackBegin source rollback_id binding => Ok (BodyRollbackBegin (mkBegin source rollback_id binding))
  | CliRepairRollbackStatus selector | CliRepairRollbackWriteLeaseConsume selector =>
      Ok (BodyRollbackSelector selector)
  | CliRepairRollbackResolve expected resolution => Ok (BodyRollbackResolve (mkRollbackResolve expected resolution))
  end.

Definition encode_client_request_payload (r : ClientRequest) (payload : RequestBody) :
    result ProtocolViolation bytes :=
  ok_or (write_request (mkClientRequestWire (api_version (request_operation r)) r.(cli_request_id).(as_str)
    r.(cli_expected_state_version) (request_operation r) payload)) InvalidPayload.

Definition encode_client_request (r : ClientRequest) (descriptors : list Descriptor) :
    result ProtocolViolation bytes :=
  _ ← validate_client_request_descriptors r descriptors;
  body ← request_body r.(cli_payload);
  bytes ← encode_client_request_payload r body;
  reject (MAX_DATAGRAM_BYTES <? blen bytes)%Z with DatagramTooLarge;
  Ok bytes.
End requests.

(** ** Responses *)

Inductive ClientResponseOutcome := Success (payload : SuccessPayload) | Error (error : ErrorToken).

Record ClientResponse := mkClientResponse {
  rsp_state_version : Z;
  rsp_operation : Operation;
  rsp_outcome : ClientResponseOutcome;
  rsp_descriptors : list Descriptor;
}.

Inductive ClientResponseDecodeError :=
| RspEmptyDatagram | RspDatagramTooLarge | RspInvalidJson | RspUnsupportedVersion | RspInvalidCorrelation
| RspInvalidStateVersion | RspInvalidPayload | RspFdRequired | RspFdForbidden | RspInvalidDescriptor.

Inductive ResponseOutcome := OutcomeOk | OutcomeError.

Record SuccessResponseWire := mkSuccessResponse {
  srw_api_version : string;
  srw_request_id : string;
  srw_state_version : Z;
  srw_operation : Operation;
  srw_payload : RawValue;
}.
Record ErrorResponseWire := mkErrorResponse {
  erw_api_version : string;
  erw_request_id : string;
  erw_state_version : Z;
  erw_operation : Operation;
  erw_error : ErrorToken;
}.
Record ReportSummaryWire := mkSummaryWire {
  sm_report_id : string;
  sm_envelope_size : Z;
  sm_envelope_sha256 : string;
}.
Inductive VaultStatusResponseWire := UnlockedStatus (device_id : string) | OtherStatus (vault_state : VaultState).

(** The readers of the client. A struct with a single field is read as this
    field; [read_outcome] is [ResponseOutcomeProbe]. *)
Class ResponseJson : Type := {
  read_outcome : bytes → option ResponseOutcome;
  read_success : bytes → option SuccessResponseWire;
  read_error : bytes → option ErrorResponseWire;
  read_vault_status : RawValue → option VaultStatusResponseWire;
  read_provider_status : RawValue → option ProviderStatusPayload;
  read_output : RawValue → option DescriptorDeclaration;
  read_sequence : RawValue → option Z;
  read_summary : RawValue → option ReportSummaryWire;
  read_reports : RawValue → option (list ReportSummaryWire);
  read_report : RawValue → option (ReportSummaryWire * DescriptorDeclaration);
  read_fleet_signed : RawValue → option FleetSignedEnvelopePayload;
  read_backup : RawValue → option RepairBackupStatusPayload;
  read_backup_output : RawValue → option (RepairBackupStatusPayload * DescriptorDeclaration);
  read_release : RawValue → option RepairBackupReleasePayload;
  read_transaction_result : RawValue → option RepairTransactionStatusResultPayload;
  read_transaction : RawValue → option RepairTransactionStatusPayload;
  read_live_identity : RawValue → option RepairVaultLiveIdentityPayload;
  read_write_lease : RawValue → option RepairWriteLeasePayload;
  read_rollback : RawValue → option RepairRollbackTransactionStatusPayload;
  read_rollback_result : RawValue → option RepairRollbackStatusResultPayload;
  read_rollback_lease : RawValue → option RepairRollbackWriteLeasePayload;
}.

Definition summary_wire (r : ReportSummary) : ReportSummaryWire :=
  mkSummaryWire r.(report_id).(as_str) r.(envelope_size) r.(envelope_sha256).(as_str).

(** What the reader of [payload] gives for the text that was written for it. *)
Definition reads_payload `{ResponseJson} (raw : RawValue) (payload : SuccessPayload) : Prop :=
  match payload with
  | OkVaultStatus s =>
      match s.(vault_state), s.(device_id) with
      | Unlocked, Some d => read_vault_status raw = Some (UnlockedStatus d)
      | v, None => read_vault_status raw = Some (OtherStatus v)
      | _, Some _ => read_vault_status raw = None
      end
  | OkProviderStatus s => read_provider_status raw = Some s
  | OkDescriptor d => read_output raw = Some d
  | OkAuditAppended n => read_sequence raw = Some n
  | OkReportStored r => read_summary raw = Some (summary_wire r)
  | OkReportList l => read_reports raw = Some (summary_wire <$> l)
  | OkReport r d => read_report raw = Some (summary_wire r, d)
  | OkFleetSigned s => read_fleet_signed raw = Some s
  | OkRepairBackupStatus b => read_backup raw = Some b
  | OkRepairBackup b d => read_backup_output raw = Some (b, d)
  | OkRepairBackupReleased r => read_release raw = Some r
  | OkRepairTransactionStatus r => read_transaction_result raw = Some r
  | OkRepairTransactionResolved t => read_transaction raw = Some t
  | OkRepairVaultLiveIdentity i => read_live_identity raw = Some i
  | OkRepairWriteLeaseConsumed l => read_write_lease raw = Some l
  | OkRepairRollbackBegun t | OkRepairRollbackResolved t => read_rollback raw = Some t
  | OkRepairRollbackStatus r => read_rollback_result raw = Some r
  | OkRepairRollbackWriteLeaseConsumed l => read_rollback_lease raw = Some l
  end.

(** The client reads back what the server writes. *)
Class ResponseWireLaws `{ResponseJson, ResponseWriter} : Prop := {
  read_write_success w b :
    plain w.(sw_api_version) = true → plain w.(sw_request_id) = true → w.(sw_outcome) = "ok"%string →
    write_success w = Some b →
    b ≠ [] ∧ read_outcome b = Some OutcomeOk ∧
    ∃ raw,
      read_success b = Some (mkSuccessResponse w.(sw_api_version) w.(sw_request_id)
        w.(sw_state_version) w.(sw_operation) raw) ∧ reads_payload raw w.(sw_payload);
  read_write_error w b :
    plain w.(ew_api_version) = true → plain w.(ew_request_id) = true → w.(ew_outcome) = "error"%string →
    write_error w = Some b →
    b ≠ [] ∧ read_outcome b = Some OutcomeError ∧
    read_error b = Some (mkErrorResponse w.(ew_api_version) w.(ew_request_id)
      w.(ew_state_version) w.(ew_operation) w.(ew_error));
}.

Definition require_no_descriptors (descriptors : list Descriptor) : result ClientResponseDecodeError () :=
  match descriptors with [] => Ok tt | _ => Err RspFdForbidden end.

Definition parse_report_summary (r : ReportSummaryWire) : result ClientResponseDecodeError ReportSummary :=
  report_id ← map_err (λ _, RspInvalidPayload) (report_id_parse r.(sm_report_id));
  sha256 ← map_err (λ _, RspInvalidPayload) (sha256_parse r.(sm_envelope_sha256));
  map_err (λ _, RspInvalidPayload) (summary_new report_id r.(sm_envelope_size) sha256).

(** [into_iter().map(parse_report_summary).collect::<Result<Vec<_>, _>>()]. *)
Fixpoint parse_report_summaries (l : list ReportSummaryWire) :
    result ClientResponseDecodeError (list ReportSummary) :=
  match l with
  | [] => Ok []
  | r :: l =>
      report ← parse_report_summary r;
      reports ← parse_report_summaries l;
      Ok (report :: reports)
  end.

Definition validate_response_correlation (version request_id : string) (state_version : Z)
    (op : Operation) (request : ClientRequest) : result ClientResponseDecodeError () :=
  reject (version != api_version (request_operation request)) with RspUnsupportedVersion;
  reject (negb (is_ok (parse_request_id request_id)) || (request_id != request.(cli_request_id).(as_str))
          || (op != request_operation request)) with RspInvalidCorrelation;
  reject (MAX_SAFE_JSON_INTEGER <? state_version)%Z with RspInvalidStateVersion;
  Ok tt.

Definition base_mutation (p : ClientRequestPayload) : bool :=
  match p with
  | CliVaultUnlock _ | CliVaultLock | CliProviderOpenAiConfigure _ | CliProviderLogout _ => true
  | _ => false
  end.
Definition repair_mutation (p : ClientRequestPayload) : bool :=
  match p with
  | CliRepairBackupReserve _ | CliRepairBackupPersist _ _ _ _ | CliRepairBackupCancel _ _
  | CliRepairBackupRetire _ | CliRepairTransactionResolve _ _
  | CliRepairTransactionWriteLeaseConsume _ => true
  | _ => false
  end.

(** [expected.checked_add(2).filter(|version| *version <= MAX_SAFE_JSON_INTEGER)]. *)
Definition next_state_version (expected : Z) : option Z :=
  version ← checked_add_u64 expected 2;
  if (version <=? MAX_SAFE_JSON_INTEGER)%Z then Some version else None.

Definition validate_success_state_version (state_version : Z) (request : ClientRequest) :
    result ClientResponseDecodeError () :=
  reject ((base_mutation request.(cli_payload) || repair_mutation request.(cli_payload))
          && (next_state_version request.(cli_expected_state_version) != Some state_version))
    with RspInvalidStateVersion;
  Ok tt.

Section responses.
Context `{sha : Sha256} `{flags : LinuxFlags} `{json : ResponseJson}.

Definition validate_one_descriptor (descriptors : list Descriptor) (kind : DescriptorType) :
    result ClientResponseDecodeError () :=
  match descriptors with
  | [] => Err RspFdRequired
  | [descriptor] =>
      map_err (λ _, RspInvalidDescriptor)
        match kind with
        | OpenAiApiKeyPipe | SignedReportEnvelopePipe | RepairBackupOutputPipe => validate_borrowed_pipe descriptor
        | CodexHomeOPath => validate_o_path_directory descriptor
        | PassphrasePipe | CodexMountNamespace | CodexMountRoot | SessionReportJsonPipe
        | FleetEnrollmentInputPipe | FleetWorkOrderClaimInputPipe | FleetWorkOrderResultInputPipe
        | RepairBackupInputPipe => Err InvalidDescriptor
        end
  | _ => Err RspFdForbidden
  end.

Definition decode_vault_status (raw : RawValue) : result ClientResponseDecodeError VaultStatusPayload :=
  status ← ok_or (read_vault_status raw) RspInvalidPayload;
  map_err (λ _, RspInvalidPayload)
    match status with
    | UnlockedStatus device_id => vault_status_new Unlocked (Some device_id)
    | OtherStatus vault_state =>
        if vault_state != Unlocked then vault_status_new vault_state None else Err InvalidPayload
    end.

(** A response struct without a descriptor that must pass a check. *)
Definition decode_checked {A} (descriptors : list Descriptor) (read : option A) (valid : A → bool)
    (wrap : A → SuccessPayload) : result ClientResponseDecodeError SuccessPayload :=
  _ ← require_no_descriptors descriptors;
  value ← ok_or read RspInvalidPayload;
  reject (negb (valid value)) with RspInvalidPayload;
  Ok (wrap value).

Definition decode_success_payload (raw : RawValue) (descriptors : list Descriptor) (request : ClientRequest) :
    result ClientResponseDecodeError SuccessPayload :=
  match request.(cli_payload) with
  | CliVaultStatus =>
      _ ← require_no_descriptors descriptors;
      status ← decode_vault_status raw;
      reject (negb (status_is_exact status)) with RspInvalidPayload;
      Ok (OkVaultStatus status)
  | CliVaultUnlock _ =>
      _ ← require_no_descriptors descriptors;
      status ← decode_vault_status raw;
      reject (negb (status_is_exact status) || (status.(vault_state) != Unlocked)) with RspInvalidPayload;
      Ok (OkVaultStatus status)
  | CliVaultLock =>
      _ ← require_no_descriptors descriptors;
      status ← decode_vault_status raw;
      reject (negb (status_is_exact status) || (status.(vault_state) != Locked)) with RspInvalidPayload;
      Ok (OkVaultStatus status)
  | CliProviderOpenAiConfigure _ =>
      decode_checked descriptors (read_provider_status raw) (λ s, s.(openai) == Configured) OkProviderStatus
  | CliProviderStatus =>
      decode_checked descriptors (read_provider_status raw) (λ _, true) OkProviderStatus
  | CliProviderLogout ProviderOpenAi =>
      decode_checked descriptors (read_provider_status raw) (λ s, s.(openai) == Unconfigured) OkProviderStatus
  | CliProviderLogout ProviderCodex =>
      decode_checked descriptors (read_provider_status raw) (λ s, s.(codex) == Unconfigured) OkProviderStatus
  | CliProviderOpenAiBorrow =>
      output ← ok_or (read_output raw) RspInvalidPayload;
      reject ((output.(kind) != OpenAiApiKeyPipe) || negb (contains 1 MAX_OPENAI_KEY_BYTES output.(size)))
        with RspInvalidPayload;
      _ ← validate_one_descriptor descriptors OpenAiApiKeyPipe;
      Ok (OkDescriptor output)
  | CliProviderCodexHomeLease =>
      output ← ok_or (read_output raw) RspInvalidPayload;
      reject ((output.(kind) != CodexHomeOPath) || (output.(size) != 0%Z)) with RspInvalidPayload;
      _ ← validate_one_descriptor descriptors CodexHomeOPath;
      Ok (OkDescriptor output)
  | CliAuditAppend sequence _ _ _ =>
      decode_checked descriptors (read_sequence raw)
        (λ n, (n == sequence) && contains 1 MAX_AUDIT_SEQUENCE n) OkAuditAppended
  | CliReportPersist id _ _ =>
      _ ← require_no_descriptors descriptors;
      wire ← ok_or (read_summary raw) RspInvalidPayload;
      report ← parse_report_summary wire;
      reject (report.(report_id) != id) with RspInvalidPayload;
      Ok (OkReportStored report)
  | CliReportList =>
      _ ← require_no_descriptors descriptors;
      response ← ok_or (read_reports raw) RspInvalidPayload;
      reject (MAX_REPORTS_PER_RESPONSE <? length response) with RspInvalidPayload;
      reports ← parse_report_summaries response;
      reject (negb (valid_report_list reports)) with RspInvalidPayload;
      Ok (OkReportList reports)
  | CliReportGet id =>
      response ← ok_or (read_report raw) RspInvalidPayload;
      report ← parse_report_summary response.1;
      let output := response.2 in
      reject ((report.(report_id) != id) || (output.(kind) != SignedReportEnvelopePipe)
              || (output.(size) != report.(envelope_size))
              || (MAX_SIGNED_REPORT_ENVELOPE_BYTES <? output.(size))%Z) with RspInvalidPayload;
      _ ← validate_one_descriptor descriptors SignedReportEnvelopePipe;
      Ok (OkReport report output)
  | CliFleetEnrollmentSign _ | CliFleetWorkOrderClaimSign _ | CliFleetWorkOrderResultSign _ =>
      decode_checked descriptors (read_fleet_signed raw) (λ s, is_ok (fleet_signed_validate s)) OkFleetSigned
  | CliRepairBackupReserve draft =>
      decode_checked descriptors (read_backup raw) (λ status,
        is_ok (backup_validate status) && (status.(backup_state) == Reserved)
        && (status.(draft_binding_sha256) == canonical_repair_draft_binding_sha256 draft)
        && (status.(backup_size) == draft.(draft_backup_size))
        && (status.(expected_backup_sha256) == draft.(draft_expected_backup_sha256))
        && (status.(metadata_sha256) == draft.(draft_metadata_sha256))
        && (draft.(required_capacity_bytes) <=? status.(reserved_bytes))%Z) OkRepairBackupStatus
  | CliRepairBackupPersist expected binding _ input_size =>
      decode_checked descriptors (read_backup raw) (λ status,
        is_ok (backup_validate status) && (status.(backup_state) == Durable)
        && immutable_fields_match status expected && (status.(backup_size) == input_size)
        && (status.(plan_id) == Some binding.(binding_plan_id))
        && (status.(plan_sha256) == Some binding.(binding_plan_sha256))
        && (status.(approval_id) == Some binding.(binding_approval_id))
        && (status.(approval_sha256) == Some binding.(binding_approval_sha256))
        && (status.(resource_id) == Some binding.(binding_resource_id))
        && (status.(resource_sha256) == Some binding.(binding_resource_sha256))
        && (status.(execution_intent) == Some binding.(binding_execution_intent))) OkRepairBackupStatus
  | CliRepairBackupStatus expected =>
      decode_checked descriptors (read_backup raw) (λ status,
        is_ok (backup_validate status) && immutable_fields_match status expected) OkRepairBackupStatus
  | CliRepairBackupGet expected =>
      response ← ok_or (read_backup_output raw) RspInvalidPayload;
      let '(backup, output) := response in
      reject (negb (is_ok (backup_validate backup)) || (backup.(backup_state) != Durable)
              || negb (immutable_fields_match backup expected)
              || (output.(kind) != RepairBackupOutputPipe) || (output.(size) != backup.(backup_size)))
        with RspInvalidPayload;
      _ ← validate_one_descriptor descriptors RepairBackupOutputPipe;
      Ok (OkRepairBackup backup output)
  | CliRepairBackupCancel id draft_binding =>
      decode_checked descriptors (read_release raw) (λ released,
        is_ok (release_validate released) && (released.(release_reservation_id) == id)
        && (released.(release_draft_binding_sha256) == draft_binding)) OkRepairBackupReleased
  | CliRepairBackupRetire expected =>
      decode_checked descriptors (read_release raw) (λ released,
        is_ok (release_validate released)
        && (released.(release_reservation_id) == expected.(reservation_id))
        && (released.(release_draft_binding_sha256) == expected.(draft_binding_sha256))
        && (released.(released_bytes) == expected.(reserved_bytes))) OkRepairBackupReleased
  | CliRepairTransactionStatus selector =>
      decode_checked descriptors (read_transaction_result raw) (transaction_matches_result selector)
        OkRepairTransactionStatus
  | CliRepairTransactionResolve expected resolution =>
      decode_checked descriptors (read_transaction raw) (λ status,
        is_ok (transaction_validate status) && transaction_same status expected
        && transaction_resolves_with status resolution) OkRepairTransactionResolved
  | CliRepairVaultLiveParent =>
      decode_checked descriptors (read_live_identity raw) (λ identity, is_ok (live_identity_validate identity))
        OkRepairVaultLiveIdentity
  | CliRepairTransactionWriteLeaseConsume selector =>
      decode_checked descriptors (read_write_lease raw) (λ lease,
        is_ok (write_lease_validate lease)
        && match selector with
           | Exact id binding =>
               (lease.(lease_transaction).(backup).(reservation_id) == id)
               && (lease.(lease_transaction).(transaction_binding_sha256) == binding)
           | PendingSingleton => false
           end) OkRepairWriteLeaseConsumed
  | CliRepairRollbackBegin source id binding =>
      decode_checked descriptors (read_rollback raw) (λ status,
        is_ok (rollback_validate status) && (status.(rollback_id) == id)
        && (status.(rt_source) == source) && (status.(rt_binding) == binding)) OkRepairRollbackBegun
  | CliRepairRollbackStatus selector =>
      decode_checked descriptors (read_rollback_result raw) (rollback_matches_result selector)
        OkRepairRollbackStatus
  | CliRepairRollbackResolve expected resolution =>
      decode_checked descriptors (read_rollback raw) (λ status,
        is_ok (rollback_validate status) && rollback_same status expected
        && rollback_resolves_with status resolution) OkRepairRollbackResolved
  | CliRepairRollbackWriteLeaseConsume selector =>
      decode_checked descriptors (read_rollback_lease raw) (λ lease,
        is_ok (rollback_write_lease_validate lease)
        && match selector with
           | RollbackExact id binding =>
               (lease.(rl_transaction).(rollback_id) == id)
               && (lease.(rl_transaction).(rollback_transaction_binding_sha256) == binding)
           | RollbackPendingSingleton => false
           end) OkRepairRollbackWriteLeaseConsumed
  end.

Definition decode_client_response (datagram : bytes) (received_descriptors : list Descriptor)
    (request : ClientRequest) : result ClientResponseDecodeError ClientResponse :=
  reject (datagram == []) with RspEmptyDatagram;
  reject (MAX_DATAGRAM_BYTES <? blen datagram)%Z with RspDatagramTooLarge;
  outcome ← ok_or (read_outcome datagram) RspInvalidJson;
  match outcome with
  | OutcomeOk =>
      response ← ok_or (read_success datagram) RspInvalidJson;
      _ ← validate_response_correlation response.(srw_api_version) response.(srw_request_id)
        response.(srw_state_version) response.(srw_operation) request;
      _ ← validate_success_state_version response.(srw_state_version) request;
      payload ← decode_success_payload response.(srw_payload) received_descriptors request;
      Ok (mkClientResponse response.(srw_state_version) response.(srw_operation) (Success payload)
            received_descriptors)
  | OutcomeError =>
      response ← ok_or (read_error datagram) RspInvalidJson;
      _ ← validate_response_correlation response.(erw_api_version) response.(erw_request_id)
        response.(erw_state_version) response.(erw_operation) request;
      _ ← require_no_descriptors received_descriptors;
      Ok (mkClientResponse response.(erw_state_version) response.(erw_operation)
            (Error response.(erw_error)) received_descriptors)
  end.
End responses.
