(* ===== verification/VaultEndpoints.v ===== *)
(** * Endpoints of the vault socket

    [AuthenticatedPeer] of rescue_vault.rs and [AuthenticatedVaultServer] of
    rescue_vault_transport.rs: the connection with the identity that the kernel
    reported when it was authenticated, and the only calls that receive and send
    on it. *)

From Stdlib.Strings Require Import Byte.
From Stdlib Require String Ascii.
From S2P Require Import Prelude Bytes Text Crypto VaultWire DeviceIdentity RepairVault RescueVault VaultTransport VaultClient.

Inductive ServerReceiveError := ReceiveTransport (h : Halt) | ReceiveDecode (e : RequestDecodeError).
Inductive ServerSendError := SendProtocol (v : ProtocolViolation) | SendTransport (h : Halt).
Inductive ClientExchangeError :=
| ExchangeRequest (v : ProtocolViolation)
| ExchangeTransport (h : Halt)
| ExchangeResponse (e : ClientResponseDecodeError).

Record AuthenticatedPeer := mkAuthenticatedPeer {
  ap_socket_identity : SeqpacketSocketIdentity;
  ap_connection_token : Token;
  ap_pid : Z;
  ap_uid : Z;
  ap_role : PeerRole;
}.
Record AuthenticatedVaultServer := mkAuthenticatedServer {
  as_socket_identity : SeqpacketSocketIdentity;
  as_pid : Z;
}.

Section endpoints.
Context {K : Type} `{kernel : !Kernel K} `{flags : LinuxFlags} `{sha : Sha256}.
Context `{requests : RequestJson} `{writer : ResponseWriter} `{cwriter : RequestWriter} `{responses : ResponseJson}.

(** [validate_seqpacket_socket(socket)] with the error mapped. *)
Definition socket_or {E} (e : Halt → E) : method K E SeqpacketSocketIdentity :=
  map_err_method e validate_seqpacket_socket.

(** A system call in a function with another error type. *)
Definition call_in {E A} (f : K → K * A) : method K E A := λ k, let '(k', a) := f k in (k', Ok a).

(** [token] is the allocation of [Arc::new(())]. *)
Definition authenticate_seqpacket_peer (allowlist : PeerAllowlist) (token : Token) :
    method K ProtocolViolation AuthenticatedPeer :=
  socket_identity ← socket_or (λ _, InvalidTransport);
  view ← call_in socket_view;
  credentials ← lift (ok_or view.(so_peercred) InvalidTransport);
  role ← lift (role_for allowlist credentials.2);
  mret (mkAuthenticatedPeer socket_identity token credentials.1 credentials.2 role).

Definition validate_root_server_identity (uid : Z) : result Halt () :=
  reject (uid != 0%Z) with Fails ServerNotRoot;
  Ok tt.

Definition authenticate_root_seqpacket_server : method K Halt AuthenticatedVaultServer :=
  socket_identity ← validate_seqpacket_socket;
  view ← call socket_view;
  credentials ← lift (ok_or view.(so_peercred) (Fails TransportInvalid));
  lift (validate_root_server_identity credentials.2);;
  mret (mkAuthenticatedServer socket_identity credentials.1).

(** ** Server *)

Definition receive_request (p : AuthenticatedPeer) (fuel : nat) (deadline : Z) :
    method K ServerReceiveError ValidatedRequest :=
  map_err_method ReceiveTransport (ensure_deadline deadline);;
  map_err_method ReceiveTransport (validate_bound_seqpacket_socket p.(ap_socket_identity));;
  packet ← map_err_method ReceiveTransport (recv_seqpacket fuel deadline);
  fail_if (packet.(packet_identity) != p.(ap_socket_identity)) (ReceiveTransport (Fails TransportInvalid));;
  lift (map_err ReceiveDecode (decode_request packet.(packet_bytes)
    (mkPeer p.(ap_pid) p.(ap_uid) p.(ap_role) p.(ap_socket_identity) p.(ap_connection_token))
    packet.(packet_descriptors))).

Definition validate_response_binding (p : AuthenticatedPeer) (identity : SeqpacketSocketIdentity)
    (token : Token) : method K ServerSendError () :=
  map_err_method SendTransport (validate_bound_seqpacket_socket p.(ap_socket_identity));;
  fail_if ((identity != p.(ap_socket_identity)) || negb (token =? p.(ap_connection_token)))
    (SendTransport (Fails TransportInvalid)).

Definition send_success (p : AuthenticatedPeer) (request : ValidatedRequest) (state_version : Z)
    (payload : SuccessPayload) (output_descriptors : list Descriptor) (fuel : nat) (deadline : Z) :
    method K ServerSendError () :=
  map_err_method SendTransport (ensure_deadline deadline);;
  validate_response_binding p request.(req_connection_identity) request.(req_connection_token);;
  datagram ← lift (map_err SendProtocol (encode_success request state_version payload output_descriptors));
  map_err_method SendTransport (send_seqpacket fuel datagram output_descriptors deadline).

Definition send_error (p : AuthenticatedPeer) (request : ValidatedRequest) (state_version : Z)
    (error : ErrorToken) (fuel : nat) (deadline : Z) : method K ServerSendError () :=
  map_err_method SendTransport (ensure_deadline deadline);;
  validate_response_binding p request.(req_connection_identity) request.(req_connection_token);;
  datagram ← lift (map_err SendProtocol (encode_error request state_version error []));
  map_err_method SendTransport (send_seqpacket fuel datagram [] deadline).

Definition send_rejection (p : AuthenticatedPeer) (rejected : RejectedRequestContext) (state_version : Z)
    (fuel : nat) (deadline : Z) : method K ServerSendError () :=
  map_err_method SendTransport (ensure_deadline deadline);;
  validate_response_binding p rejected.(rej_connection_identity) rejected.(rej_connection_token);;
  datagram ← lift (map_err SendProtocol (encode_rejection rejected state_version));
  map_err_method SendTransport (send_seqpacket fuel datagram [] deadline).

(** ** Client *)

Definition send_request (s : AuthenticatedVaultServer) (request : ClientRequest)
    (descriptors : list Descriptor) (fuel : nat) (deadline : Z) : method K ClientExchangeError () :=
  map_err_method ExchangeTransport (ensure_deadline deadline);;
  map_err_method ExchangeTransport (validate_bound_seqpacket_socket s.(as_socket_identity));;
  datagram ← lift (map_err ExchangeRequest (encode_client_request request descriptors));
  map_err_method ExchangeTransport (send_seqpacket fuel datagram descriptors deadline).

Definition receive_response (s : AuthenticatedVaultServer) (request : ClientRequest) (fuel : nat)
    (deadline : Z) : method K ClientExchangeError ClientResponse :=
  map_err_method ExchangeTransport (ensure_deadline deadline);;
  map_err_method ExchangeTransport (validate_bound_seqpacket_socket s.(as_socket_identity));;
  packet ← map_err_method ExchangeTransport (recv_seqpacket fuel deadline);
  fail_if (packet.(packet_identity) != s.(as_socket_identity)) (ExchangeTransport (Fails TransportInvalid));;
  lift (map_err ExchangeResponse (decode_client_response packet.(packet_bytes) packet.(packet_descriptors) request)).
End endpoints.
