(* ===== verification/VaultClientProperties.v ===== *)
(** * Client and server of the vault protocol agree

    - a request that the client encodes is decoded by the server as the request it
      stands for, or refused for the role of the peer and for nothing else;
    - a response that the server encodes is decoded by the client as it was sent,
      and a success with a state version that the client does not expect is
      refused. *)

From Stdlib.Strings Require Import Byte.
From Stdlib Require String Ascii.
From S2P Require Import Prelude Bytes Text Crypto VaultWire DeviceIdentity RepairVault RescueVault RescueVaultProperties VaultClient Signatures.

(** What a client payload means to the server. *)
Definition server_payload (p : ClientRequestPayload) : RequestPayload :=
  match p with
  | CliVaultStatus | CliVaultLock | CliProviderStatus | CliProviderOpenAiBorrow | CliReportList
  | CliRepairVaultLiveParent => ReqEmpty
  | CliVaultUnlock n => ReqVaultUnlock (mkDeclaration PassphrasePipe n)
  | CliProviderOpenAiConfigure n => ReqProviderOpenAiConfigure (mkDeclaration OpenAiApiKeyPipe n)
  | CliProviderLogout provider => ReqProviderLogout provider
  | CliProviderCodexHomeLease =>
      ReqProviderCodexHomeLease (mkDeclaration CodexMountNamespace 0) (mkDeclaration CodexMountRoot 0)
  | CliAuditAppend n event outcome error => ReqAuditAppend n event outcome error
  | CliReportPersist id s n => ReqReportPersist id s (mkDeclaration SessionReportJsonPipe n)
  | CliReportGet id => ReqReportGet id
  | CliFleetEnrollmentSign n => ReqFleetEnrollmentSign (mkDeclaration FleetEnrollmentInputPipe n)
  | CliFleetWorkOrderClaimSign n => ReqFleetWorkOrderClaimSign (mkDeclaration FleetWorkOrderClaimInputPipe n)
  | CliFleetWorkOrderResultSign n => ReqFleetWorkOrderResultSign (mkDeclaration FleetWorkOrderResultInputPipe n)
  | CliRepairBackupReserve draft => ReqRepairBackupReserve draft
  | CliRepairBackupPersist expected g metadata n =>
      ReqRepairBackupPersist expected g metadata (mkDeclaration RepairBackupInputPipe n)
  | CliRepairBackupStatus expected => ReqRepairBackupStatus expected
  | CliRepairBackupGet expected => ReqRepairBackupGet expected
  | CliRepairBackupCancel id s => ReqRepairBackupCancel id s
  | CliRepairBackupRetire expected => ReqRepairBackupRetire expected
  | CliRepairTransactionStatus selector => ReqRepairTransactionStatus selector
  | CliRepairTransactionResolve expected resolution => ReqRepairTransactionResolve expected resolution
  | CliRepairTransactionWriteLeaseConsume selector => ReqRepairTransactionWriteLeaseConsume selector
  | CliRepairRollbackBegin source id g => ReqRepairRollbackBegin source id g
  | CliRepairRollbackStatus selector => ReqRepairRollbackStatus selector
  | CliRepairRollbackResolve expected resolution => ReqRepairRollbackResolve expected resolution
  | CliRepairRollbackWriteLeaseConsume selector => ReqRepairRollbackWriteLeaseConsume selector
  end.

(** ** Texts without escapes *)

Lemma plain_hex_dash l : forallb (λ b, is_lower_hex b || (b == x2d)) l = true →
  forallb (λ b, in_range 0x20 0x7e b && (b != x22) && (b != x5c)) l = true.
Proof.
  rewrite !forallb_forall. intros H b Hb. specialize (H b Hb). destruct b; (discriminate H || done).
Qed.

Lemma canonical_uuid_bytes l : canonical_uuid l = true → forallb (λ b, is_lower_hex b || (b == x2d)) l = true.
Proof.
  unfold canonical_uuid. intros H. guards. rewrite forallb_forall in *. intros b Hb.
  rewrite <-list_elem_of_In in Hb. apply list_elem_of_lookup in Hb as (i & Hi).
  match goal with H : ∀ x, In x (imap pair l) → _ |- _ => specialize (H (i, b)); rename H into Hall end.
  rewrite <-list_elem_of_In in Hall. specialize (Hall ltac:(apply elem_of_lookup_imap; eauto)). simpl in Hall.
  destruct (bool_decide _); rewrite Hall; [apply orb_true_r|done].
Qed.

Lemma plain_request_id (id : RequestId) : plain id.(as_str) = true.
Proof.
  destruct id as [t Ht]. simpl. apply Is_true_true_1 in Ht. unfold request_id_text in Ht. guards.
  match goal with H : is_Some (strip_prefix _ _) |- _ => destruct H as [s Hs] end.
  apply strip_prefix_Some in Hs as ->. unfold plain, all_bytes. rewrite as_bytes_app in *.
  rewrite forallb_app. split_and?. apply andb_true_iff. split; [done|].
  apply plain_hex_dash, canonical_uuid_bytes. done.
Qed.

Lemma plain_version op : plain (api_version op) = true.
Proof. by destruct op. Qed.

(** ** Requests *)

Section requests.
Context `{sha : Sha256} `{flags : LinuxFlags} `{json : RequestJson} `{writer : RequestWriter} `{laws : !RequestWireLaws}.

(** Values that Rust code can only obtain from the checking constructors. *)
Definition client_typed (p : ClientRequestPayload) : Prop :=
  match p with
  | CliRepairBackupReserve draft => draft_valid draft
  | CliRepairBackupPersist _ g _ _ => binding_valid g
  | _ => True
  end.

Lemma is_ok_tt {E} (r : result E ()) : is_ok r = true → r = Ok tt.
Proof. by destruct r as [[]|]. Qed.

Lemma client_payload_valid p :
  client_typed p → valid_client_payload p = true → payload_valid (client_operation p) (server_payload p).
Proof.
  intros Ht Hv. destruct p; simpl in *; unfold declares; guards;
    rewrite ?contains_spec in *; repeat match goal with H : is_ok _ = true |- _ => apply is_ok_tt in H end;
    try done; try (split_and!; done).
  - match goal with H : _ || _ = true |- _ => apply orb_true_iff in H as [H|H] end; guards; (split; [done|]); [by subst|].
    match goal with H : is_Some _ |- _ => destruct H as [? ->] end. naive_solver.
  - destruct (execution_intent _) as [i|]; [|done]. simpl in Hv. apply is_ok_tt in Hv. by eauto.
Qed.

Lemma sha256_parse_text (s : Sha256Text) : sha256_parse s.(as_str) = Ok s.
Proof. by apply check_Ok. Qed.

Lemma repair_persist_parses expected g metadata d raw :
  read_repair_persist raw = Some (mkRepairPersist expected metadata g.(binding_plan_id)
    g.(binding_plan_sha256).(as_str) g.(binding_approval_id) g.(binding_approval_sha256).(as_str)
    g.(binding_resource_id) g.(binding_resource_sha256).(as_str) g.(binding_execution_intent) d) →
  metadata_validate metadata = Ok tt →
  payload_valid OpRepairBackupPersist (ReqRepairBackupPersist expected g metadata d) →
  parse_repair_persist raw = Ok (ReqRepairBackupPersist expected g metadata d).
Proof.
  intros Hraw Hm (He & Hs & Hg & Hms & Hb & Hbm & Hp & Hd). unfold parse_repair_persist. rewrite Hraw. cbn [ok_or mbind result_bind].
  cbn [rp_expected rp_metadata rp_plan_id rp_plan_sha256 rp_approval_id rp_approval_sha256 rp_resource_id
    rp_resource_sha256 rp_execution_intent rp_input].
  rewrite He, Hm. cbn [mbind result_bind].
  assert (intent_validate g.(binding_execution_intent) = Ok tt) as ->.
  { unfold binding_valid, backup_binding_new in Hg. apply reject_Ok in Hg as [Hg _]. guards. by apply is_ok_tt. }
  cbn [mbind result_bind]. rewrite Hs, Hms, Hb, Hbm, !ne_refl_false, (bool_decide_false _ Hp). cbn [orb].
  rewrite (proj2 (validate_declaration_Ok _ _ _ _ tt)) by exact Hd. cbn [mbind result_bind].
  rewrite !sha256_parse_text. cbn [mbind result_bind]. by rewrite Hg.
Qed.

Lemma body_parses p body raw :
  client_typed p → valid_client_payload p = true → request_body p = Ok body →
  match body with
  | BodyEmpty => read_empty raw = Some tt
  | BodyInput d => read_input raw = Some d
  | BodyCodexHomeLease p => read_codex_home_lease raw = Some p
  | BodyLogout p => read_logout raw = Some p
  | BodyAudit p => read_audit raw = Some p
  | BodyPersist p => read_persist raw = Some p
  | BodyGet i => read_get raw = Some i
  | BodyReserve p => read_reserve raw = Some p
  | BodyRepairPersist p => read_repair_persist raw = Some p
  | BodyReference b => read_reference raw = Some b
  | BodyCancel p => read_cancel raw = Some p
  | BodyTransactionSelector s => read_transaction_selector raw = Some s
  | BodyResolve p => read_resolve raw = Some p
  | BodyRollbackBegin p => read_rollback_begin raw = Some p
  | BodyRollbackSelector s => read_rollback_selector raw = Some s
  | BodyRollbackResolve p => read_rollback_resolve raw = Some p
  end → parse_payload (client_operation p) raw = Ok (server_payload p).
Proof.
  intros Ht Hv Hb Hraw. pose proof (client_payload_valid p Ht Hv) as Hpv.
  destruct p; cbn in Hb; apply Ok_inj_1 in Hb as <-;
    cbn [client_operation server_payload payload_valid parse_payload] in *; rewrite ?Hraw; cbn [ok_or mbind result_bind];
    try done;
    try (rewrite (proj2 (validate_declaration_Ok _ _ _ _ tt)) by exact Hpv; done).
  - by rewrite (proj2 (audit_valid_spec (mkAudit _ _ _ _)) Hpv).
  - cbn. rewrite (proj2 (validate_declaration_Ok _ _ _ _ tt)) by exact Hpv. cbn [mbind result_bind].
    rewrite (proj2 (check_Ok report_id_text InvalidPayload report_id.(as_str) report_id) eq_refl : report_id_parse _ = _).
    cbn [mbind result_bind]. by rewrite sha256_parse_text.
  - by rewrite (proj2 (check_Ok report_id_text InvalidPayload report_id.(as_str) report_id) eq_refl : report_id_parse _ = _).
  - cbn. rewrite !sha256_parse_text. cbn [mbind result_bind]. by rewrite Hpv.
  - apply repair_persist_parses; [done| |done]. clear -Hv. cbn in Hv. guards. by apply is_ok_tt.
  - unfold parse_reference. rewrite Hraw. cbn [ok_or mbind result_bind]. by rewrite Hpv.
  - destruct Hpv as [Hb Hd]. unfold parse_reference. rewrite Hraw. cbn [ok_or mbind result_bind]. by rewrite Hb, Hd.
  - cbn. rewrite (proj2 (check_Ok _ InvalidPayload reservation_id.(as_str) reservation_id) eq_refl : reservation_id_parse _ = _).
    cbn [mbind result_bind]. by rewrite sha256_parse_text.
  - destruct Hpv as [Hb Hd]. unfold parse_reference. rewrite Hraw. cbn [ok_or mbind result_bind]. by rewrite Hb, Hd.
  - destruct Hpv as (Hb & Hu & i & Hi & Hr). cbn. rewrite Hb. cbn. rewrite Hi. cbn. rewrite Hr. cbn. by rewrite Hu.
  - by rewrite Hpv.
  - destruct Hpv as [Hs Hb]. cbn. rewrite Hs. cbn. by rewrite Hb.
  - destruct Hpv as (Hb & Hu & Hr). cbn. rewrite Hb. cbn. rewrite Hr. cbn. by rewrite Hu.
  - by rewrite Hpv.
Qed.

Lemma client_descriptors_Ok r ds u :
  validate_client_request_descriptors r ds = Ok u ↔ request_descriptors (server_payload r.(cli_payload)) ds.
Proof.
  unfold validate_client_request_descriptors. destruct u, r as [id v p]. cbn [cli_payload].
  destruct p; cbn; destruct ds as [|d [|d' [|d'' ds]]]; rewrite ?pipe_Ok; try (split; naive_solver).
  rewrite result_bind_Ok. setoid_rewrite mount_namespace_Ok. setoid_rewrite mount_root_Ok. split.
  - intros (_ & Hn & Hr). eauto 10.
  - intros (n & r & [= -> ->] & Hn & Hr). exists tt. tauto.
Qed.

(** C24. Requests survive the wire. When the client encodes a request that its
    constructor accepted, the server decodes the datagram as exactly that
    request, with its identifier, state version, operation, payload and
    descriptors and with the identity of the peer, if the role of the peer permits
    the operation, and otherwise refuses it as not authorized under the same
    identifier and operation; no request of a well-behaved client closes the
    connection. *)
Theorem vault_request_roundtrip id version p r ds b peer :
  client_request_new id version p = Ok r → client_typed p → encode_client_request r ds = Ok b →
  decode_request b peer ds =
    if permits (client_operation p) peer.(peer_role)
    then Ok (mkRequest id version (client_operation p) peer.(peer_pid) peer.(peer_uid) peer.(peer_role)
               (server_payload p) ds peer.(connection_identity) peer.(connection_token))
    else Err (rejected_request id (client_operation p) NotAuthorized TokenNotAuthorized peer).
Proof using laws.
  unfold client_request_new. intros Hn Ht He. apply reject_Ok in Hn as [Hg Hn]. apply Ok_inj_1 in Hn as <-.
  apply orb_false_iff in Hg as [Hver Hv]. apply Z.ltb_ge in Hver. apply negb_false_iff in Hv.
  unfold encode_client_request in He. apply result_bind_Ok in He as (u & Hd & He). apply client_descriptors_Ok in Hd.
  apply result_bind_Ok in He as (body & Hbody & He). apply result_bind_Ok in He as (b' & Hb & He).
  apply reject_Ok in He as [Hl He]. apply Ok_inj_1 in He as ->. apply Z.ltb_ge in Hl.
  unfold encode_client_request_payload in Hb. apply ok_or_Ok in Hb.
  apply read_write_request in Hb as (Hne & raw & Hr & Hraw); [|apply plain_version|apply plain_request_id].
  cbn [cw_api_version cw_request_id cw_expected_state_version cw_operation cw_payload cli_request_id
    cli_expected_state_version cli_payload request_operation] in *.
  rewrite (decode_trusted _ peer ds id _ Hne Hl Hr) by done. cbn [wire_operation wire_payload wire_expected_state_version].
  unfold request_operation. cbn [cli_payload]. destruct (permits _ _); [|done]. cbn [negb].
  rewrite (body_parses p body raw Ht Hv Hbody Hraw).
  by rewrite (proj2 (received_descriptors_Ok _ _ _ tt (client_payload_valid p Ht Hv)) Hd).
Qed.
End requests.

(** ** Responses *)

Section responses.
Context `{sha : Sha256} `{flags : LinuxFlags} `{json : ResponseJson} `{writer : ResponseWriter} `{laws : !ResponseWireLaws}.

Lemma decode_vault_status_exact raw status :
  status_is_exact status = true → reads_payload raw (OkVaultStatus status) → decode_vault_status raw = Ok status.
Proof.
  destruct status as [v d]. unfold status_is_exact, decode_vault_status, vault_status_new. cbn. intros He Hr.
  destruct v, d as [d|]; try done; rewrite Hr; cbn; try done. cbn in He. by rewrite He.
Qed.

(** Summaries that [ReportSummary::new] made. *)
Definition summary_typed (r : ReportSummary) : Prop := (2 ≤ r.(envelope_size) ≤ MAX_SIGNED_REPORT_ENVELOPE_BYTES)%Z.
Definition success_typed (s : SuccessPayload) : Prop :=
  match s with
  | OkReportStored r | OkReport r _ => summary_typed r
  | OkReportList l => Forall summary_typed l
  | _ => True
  end.

Lemma parse_summary_wire r : summary_typed r → parse_report_summary (summary_wire r) = Ok r.
Proof.
  intros Hr. destruct r as [id n s]. unfold parse_report_summary. cbn.
  rewrite (proj2 (check_Ok report_id_text InvalidPayload id.(as_str) id) eq_refl : report_id_parse _ = _). cbn.
  rewrite (proj2 (check_Ok sha256_chars InvalidPayload s.(as_str) s) eq_refl : sha256_parse _ = _). cbn.
  unfold summary_typed in Hr. cbn in Hr. unfold summary_new. by rewrite (proj2 (contains_spec _ _ _) Hr).
Qed.

Lemma parse_summaries_wire l : Forall summary_typed l → parse_report_summaries (summary_wire <$> l) = Ok l.
Proof.
  induction 1 as [|r l Hr _ IH]; [done|]. cbn. rewrite (parse_summary_wire r Hr). cbn. by rewrite IH.
Qed.

Lemma immutable_fields_refl b : immutable_fields_match b b = true.
Proof. unfold immutable_fields_match. by rewrite !eq_refl_true. Qed.

Lemma decode_checked_Ok {A} (read : option A) valid wrap a :
  read = Some a → valid a = true → decode_checked [] read valid wrap = Ok (wrap a).
Proof. intros -> Hv. unfold decode_checked. cbn. by rewrite Hv. Qed.

Lemma one_descriptor_Ok d k :
  k = OpenAiApiKeyPipe ∨ k = SignedReportEnvelopePipe ∨ k = RepairBackupOutputPipe →
  readable_pipe d → validate_one_descriptor [d] k = Ok tt.
Proof. intros [->|[->| ->]] Hd; cbn; by rewrite (proj2 (pipe_Ok d tt) Hd). Qed.

(** The client does not repeat the third check of a conjunction of the server. *)
Lemma andb_split_drop (a b c x d e f g h i j k : bool) :
  a && b && c && x && d && e && f && g && h && i && j && k = true →
  a && b && c && d && e && f && g && h && i && j && k = true.
Proof. by destruct a, b, c, x. Qed.

Lemma decode_success_Ok raw ds r s :
  is_Some (success_declaration (request_operation r) (server_payload r.(cli_payload)) s) →
  response_descriptors (request_operation r) ds → reads_payload raw s → success_typed s →
  decode_success_payload raw ds r = Ok s.
Proof.
  destruct r as [id v p]. unfold request_operation. cbn [cli_payload]. intros Hs Hd Hr Ht.
  unfold response_descriptors in Hd.
  destruct p; repeat match goal with q : Provider |- _ => destruct q end;
    cbn [client_operation server_payload hands_over] in Hs, Hd;
    (destruct s; try (exfalso; exact (is_Some_None Hs)));
    cbn [success_declaration] in Hs; cbv zeta in Hs;
    try (match type of Hs with is_Some (if ?c then _ else _) =>
           let Hc := fresh "Hc" in destruct c eqn:Hc; [|exfalso; exact (is_Some_None Hs)] end); clear Hs;
    cbn [decode_success_payload cli_payload];
    try (subst ds; apply decode_checked_Ok; [exact Hr|]; first [ reflexivity | exact Hc ]).
  - subst ds. rewrite (decode_vault_status_exact _ _ Hc Hr). cbn [require_no_descriptors mbind result_bind]. by rewrite Hc.
  - subst ds. apply andb_true_iff in Hc as [He Hc]. rewrite (decode_vault_status_exact _ _ He Hr).
    cbn [require_no_descriptors mbind result_bind]. guards. by rewrite He, Hc.
  - subst ds. apply andb_true_iff in Hc as [He Hc]. rewrite (decode_vault_status_exact _ _ He Hr).
    cbn [require_no_descriptors mbind result_bind]. guards. by rewrite He, Hc.
  - destruct Hd as (d & -> & Hd). rewrite (Hr : read_output raw = _). cbn [ok_or mbind result_bind]. guards.
    rewrite (one_descriptor_Ok d OpenAiApiKeyPipe); [|by left|exact Hd].
    match goal with H : kind _ = _ |- _ => rewrite H end. by rewrite Hc.
  - destruct Hd as (d & -> & Hd). rewrite (Hr : read_output raw = _). cbn [ok_or mbind result_bind]. guards.
    match goal with H : kind _ = _ |- _ => rewrite H end. rewrite Hc, !ne_refl_false. cbn [orb validate_one_descriptor].
    by rewrite (proj2 (o_path_Ok d tt) Hd).
  - subst ds. apply decode_checked_Ok; [exact Hr|]. by rewrite andb_comm.
  - subst ds. cbn [require_no_descriptors mbind result_bind]. rewrite (Hr : read_summary raw = _).
    cbn [ok_or mbind result_bind]. rewrite (parse_summary_wire _ Ht). cbn [mbind result_bind]. guards. by rewrite Hc, ne_refl_false.
  - subst ds. cbn [require_no_descriptors mbind result_bind]. rewrite (Hr : read_reports raw = _).
    cbn [ok_or mbind result_bind]. rewrite length_fmap, (parse_summaries_wire _ Ht). cbn [mbind result_bind]. rewrite Hc.
    unfold valid_report_list in Hc. guards. by rewrite (proj2 (Nat.ltb_ge _ _)) by by apply Nat.leb_le.
  - destruct Hd as (d & -> & Hd). rewrite (Hr : read_report raw = _). cbn [ok_or mbind result_bind fst snd].
    rewrite (parse_summary_wire _ Ht). cbn [mbind result_bind]. guards.
    match goal with H : kind _ = _ |- _ => rewrite H end. match goal with H : size _ = _ |- _ => rewrite H in * end.
    rewrite Hc, !ne_refl_false, (proj2 (Z.ltb_ge _ _)) by by apply Z.leb_le.
    cbn [orb]. by rewrite (one_descriptor_Ok d SignedReportEnvelopePipe); [|by right; left|].
  - subst ds. apply decode_checked_Ok; [exact Hr|]. exact (andb_split_drop _ _ _ _ _ _ _ _ _ _ _ _ Hc).
  - subst ds. apply decode_checked_Ok; [exact Hr|]. by apply andb_true_iff in Hc as [? _].
  - destruct Hd as (d & -> & Hd). rewrite (Hr : read_backup_output raw = _). cbn [ok_or mbind result_bind]. guards. subst.
    rewrite immutable_fields_refl.
    match goal with H : kind _ = _ |- _ => rewrite H end. match goal with H : size _ = _ |- _ => rewrite H end.
    match goal with H : backup_state _ = _ |- _ => rewrite H end. match goal with H : is_ok _ = true |- _ => rewrite H end.
    rewrite !ne_refl_false. cbn [negb orb]. by rewrite (one_descriptor_Ok d RepairBackupOutputPipe); [|by right; right|].
  - subst ds. apply decode_checked_Ok; [exact Hr|]. rewrite <-!andb_assoc in Hc. apply andb_true_iff in Hc as [_ Hc]. by rewrite <-!andb_assoc.
Qed.

(** The server's request is the client's. *)
Definition answers (r : ValidatedRequest) (c : ClientRequest) : Prop :=
  r.(req_request_id) = c.(cli_request_id) ∧ r.(req_operation) = request_operation c ∧
  r.(req_payload) = server_payload c.(cli_payload).

(** The state version that a success must carry: two past the expected one after a
    mutation that the client knows, any other time whatever it is. *)
Definition version_expected (c : ClientRequest) (version : Z) : bool :=
  negb (base_mutation c.(cli_payload) || repair_mutation c.(cli_payload))
  || ((version == c.(cli_expected_state_version) + 2)%Z && (version <=? MAX_SAFE_JSON_INTEGER)%Z).

Lemma next_state_version_Some n m :
  next_state_version n = Some m ↔ m = (n + 2)%Z ∧ (m ≤ MAX_SAFE_JSON_INTEGER)%Z.
Proof.
  unfold next_state_version. split.
  - intros H. apply bind_Some in H as (v & Hv & H). apply checked_add_u64_Some in Hv as [-> _].
    destruct (Z.leb_spec (n + 2) MAX_SAFE_JSON_INTEGER); naive_solver.
  - intros [-> Hm]. rewrite checked_add_u64_fits by (unfold MAX_SAFE_JSON_INTEGER, U64_MAX in *; lia). simpl.
    by rewrite (proj2 (Z.leb_le _ _) Hm).
Qed.

Lemma success_version_spec version c :
  validate_success_state_version version c
  = if version_expected c version then Ok tt else Err RspInvalidStateVersion.
Proof.
  unfold validate_success_state_version, version_expected.
  destruct (base_mutation _ || repair_mutation _); [|done]. cbn [negb orb andb].
  case_bool_decide as Hn.
  - destruct (_ && _) eqn:Hv; [|done]. guards. destruct Hn. apply next_state_version_Some.
    split; [done|]. by apply Z.leb_le.
  - apply next_state_version_Some in Hn as [-> Hv].
    by rewrite eq_refl_true, (proj2 (Z.leb_le _ _) Hv).
Qed.

Lemma correlation_Ok c id version :
  id = c.(cli_request_id) → (version ≤ MAX_SAFE_JSON_INTEGER)%Z →
  validate_response_correlation (api_version (request_operation c)) id.(as_str) version (request_operation c) c = Ok tt.
Proof.
  intros -> Hv. unfold validate_response_correlation.
  rewrite (proj2 (check_Ok request_id_text InvalidRequestId _ c.(cli_request_id)) eq_refl : parse_request_id _ = _).
  by rewrite !ne_refl_false, (proj2 (Z.ltb_ge _ _) Hv).
Qed.

Lemma decode_error_Ok c id version e b :
  id = c.(cli_request_id) → (version ≤ MAX_SAFE_JSON_INTEGER)%Z → (blen b ≤ MAX_DATAGRAM_BYTES)%Z →
  write_error (mkErrorWire (api_version (request_operation c)) id.(as_str) version (request_operation c) "error" e) = Some b →
  decode_client_response b [] c = Ok (mkClientResponse version (request_operation c) (Error e) []).
Proof using laws.
  intros Hid Hv Hl Hw. apply read_write_error in Hw as (Hne & Ho & Hr); [|apply plain_version|apply plain_request_id|done].
  unfold decode_client_response. rewrite (bool_decide_false _ Hne), (proj2 (Z.ltb_ge _ _) Hl), Ho. cbn [ok_or mbind result_bind].
  rewrite Hr. cbn [ok_or mbind result_bind erw_api_version erw_request_id erw_state_version erw_operation erw_error
    ew_api_version ew_request_id ew_state_version ew_operation ew_error].
  by rewrite (correlation_Ok c id version Hid Hv).
Qed.

(** Responses survive the wire. When the server encodes the success of the
    request that a client sent, the client decodes the datagram as exactly that
    payload, state version and descriptors, unless the request changes the vault
    in a way the client tracks and the version is not two past the one it
    expected, which it refuses as an invalid state version; an error and a
    rejection arrive as their token. *)
Theorem vault_response_roundtrip r c :
  answers r c →
  (∀ version s ds b, success_typed s → encode_success r version s ds = Ok b →
    decode_client_response b ds c =
      if version_expected c version
      then Ok (mkClientResponse version (request_operation c) (Success s) ds)
      else Err RspInvalidStateVersion) ∧
  (∀ version e b, encode_error r version e [] = Ok b →
    decode_client_response b [] c = Ok (mkClientResponse version (request_operation c) (Error e) [])) ∧
  (∀ j version b, j.(rej_request_id) = c.(cli_request_id) → j.(rej_operation) = request_operation c →
    encode_rejection j version = Ok b →
    decode_client_response b [] c = Ok (mkClientResponse version (request_operation c) (Error j.(rej_error)) [])).
Proof using laws.
  intros (Hid & Hop & Hp). split_and!.
  - intros version s ds b Ht He. apply encode_success_Ok in He as (Hv & Hd & Hds & Hl & Hw). rewrite Hop, Hp in *.
    apply read_write_success in Hw as (Hne & Ho & raw & Hr & Hraw); [|apply plain_version|apply plain_request_id|done].
    unfold decode_client_response. rewrite (bool_decide_false _ Hne), (proj2 (Z.ltb_ge _ _) Hl), Ho. cbn [ok_or mbind result_bind].
    rewrite Hr. cbn [ok_or mbind result_bind srw_api_version srw_request_id srw_state_version srw_operation srw_payload
      sw_api_version sw_request_id sw_state_version sw_operation sw_payload] in *.
    rewrite (correlation_Ok c _ version Hid Hv). cbn [mbind result_bind]. rewrite success_version_spec.
    destruct (version_expected c version); [|done]. cbn [mbind result_bind].
    by rewrite (decode_success_Ok raw ds c s Hd Hds Hraw Ht).
  - intros version e b He. apply encode_error_Ok in He as (Hv & _ & Hl & Hw). rewrite Hop in Hw.
    by apply (decode_error_Ok c r.(req_request_id)).
  - intros j version b Hj Ho He. apply encode_rejection_Ok in He as (Hv & Hl & Hw). rewrite Ho in Hw.
    by apply (decode_error_Ok c j.(rej_request_id)).
Qed.
End responses.

(** ** One exchange *)

Module VaultDemo.
Import SignatureDemo.
#[local] Existing Instance light_sha256.

Definition demo_flags : LinuxFlags := {|
  is_fifo mode := Z.land mode 0xf000 == 0x1000%Z;
  is_dir mode := Z.land mode 0xf000 == 0x4000%Z;
  O_ACCMODE := 3; O_RDONLY := 0; O_PATH := 0x200000; O_DIRECTORY := 0x10000; O_NOFOLLOW := 0x20000;
  FD_CLOEXEC := 1;
|}.
#[local] Existing Instance demo_flags.

Definition demo_id : RequestId :=
  Checked (p := request_id_text) "R-01234567-89ab-cdef-0123-456789abcdef" I.
Definition demo_pipe : Descriptor :=
  mkDescriptor (Some (mkStat 0x1180 0 0 0)) (Some PIPEFS_MAGIC) (Some 0%Z) (Some 1%Z) (Some (as_bytes "pipe:[7]")).
Definition demo_status : VaultStatusPayload :=
  mkVaultStatus Unlocked (Some "KA-0123456789abcdef01234567"%string).

(** Readers and writers that know one request (an unlock with a passphrase of 20
    bytes) and its answers. *)
Definition demo_input : DescriptorDeclaration := mkDeclaration PassphrasePipe 20.
#[local] Instance demo_request_json : RequestJson := {|
  read_request b :=
    if b == [x01] then Some (mkWireRequest API_VERSION demo_id.(as_str) 5 OpVaultUnlock "1") else None;
  read_input raw := if raw == "1"%string then Some demo_input else None;
  read_empty _ := None; read_codex_home_lease _ := None; read_logout _ := None; read_audit _ := None;
  read_persist _ := None; read_get _ := None; read_reserve _ := None; read_repair_persist _ := None;
  read_reference _ := None; read_cancel _ := None; read_transaction_selector _ := None;
  read_resolve _ := None; read_rollback_begin _ := None; read_rollback_selector _ := None;
  read_rollback_resolve _ := None;
|}.
#[local] Instance demo_request_writer : RequestWriter := λ w,
  if (w.(cw_api_version) == API_VERSION) && (w.(cw_request_id) == demo_id.(as_str))
     && (w.(cw_expected_state_version) == 5%Z) && (w.(cw_operation) == OpVaultUnlock)
     && match w.(cw_payload) with BodyInput d => d == demo_input | _ => false end
  then Some [x01] else None.
#[local] Instance demo_request_laws : RequestWireLaws.
Proof.
  intros w b _ _. unfold write_request, demo_request_writer. destruct (_ && _) eqn:Hw; [|done]. intros [= <-].
  split; [done|]. exists "1"%string. destruct w as [v i n o p]. cbn in *. guards. subst. split; [done|].
  destruct p; try done. by guards; subst.
Qed.

#[local] Instance demo_response_json : ResponseJson := {|
  read_outcome b := if b == [x02] then Some OutcomeOk else if b == [x03] then Some OutcomeError else None;
  read_success b :=
    if b == [x02] then Some (mkSuccessResponse API_VERSION demo_id.(as_str) 7 OpVaultUnlock "2") else None;
  read_error b :=
    if b == [x03] then Some (mkErrorResponse API_VERSION demo_id.(as_str) 5 OpVaultUnlock TokenBadPassphrase) else None;
  read_vault_status raw :=
    if raw == "2"%string then Some (UnlockedStatus "KA-0123456789abcdef01234567") else None;
  read_provider_status _ := None; read_output _ := None; read_sequence _ := None; read_summary _ := None;
  read_reports _ := None; read_report _ := None; read_fleet_signed _ := None; read_backup _ := None;
  read_backup_output _ := None; read_release _ := None; read_transaction_result _ := None;
  read_transaction _ := None; read_live_identity _ := None; read_write_lease _ := None;
  read_rollback _ := None; read_rollback_result _ := None; read_rollback_lease _ := None;
|}.
#[local] Instance demo_response_writer : ResponseWriter := {|
  write_success w :=
    if (w.(sw_api_version) == API_VERSION) && (w.(sw_request_id) == demo_id.(as_str))
       && (w.(sw_state_version) == 7%Z) && (w.(sw_operation) == OpVaultUnlock)
       && match w.(sw_payload) with
          | OkVaultStatus s => (s.(vault_state) == Unlocked) && (s.(device_id) == demo_status.(device_id))
          | _ => false
          end
    then Some [x02] else None;
  write_error w :=
    if (w.(ew_api_version) == API_VERSION) && (w.(ew_request_id) == demo_id.(as_str))
       && (w.(ew_state_version) == 5%Z) && (w.(ew_operation) == OpVaultUnlock)
       && (w.(ew_error) == TokenBadPassphrase)
    then Some [x03] else None;
|}.
#[local] Instance demo_response_laws : ResponseWireLaws.
Proof.
  split; intros w b _ _ _; unfold write_success, write_error, demo_response_writer;
    (destruct (_ && _) eqn:Hw; [|done]); intros [= <-]; (split; [done|]); (split; [done|]).
  - exists "2"%string. destruct w as [v i n o x p]. cbn in *. guards. subst. split; [done|].
    destruct p as [s| | | | | | | | | | | | | | | | | |]; try done. guards. destruct s as [vs d]. cbn in *. by subst.
  - destruct w as [v i n o x e]. cbn in *. guards. by subst.
Qed.

Definition demo_request : ClientRequest := mkClientRequest demo_id 5 (CliVaultUnlock 20).
Definition demo_peer : PeerIdentity := mkPeer 42 1000 Companion (mkSocketIdentity 8 9) 3.
Definition demo_received : ValidatedRequest :=
  mkRequest demo_id 5 OpVaultUnlock 42 1000 Companion (ReqVaultUnlock demo_input) [demo_pipe] (mkSocketIdentity 8 9) 3.

Lemma vault_request_roundtrip_witness :
  encode_client_request demo_request [demo_pipe] = Ok [x01] ∧
  decode_request [x01] demo_peer [demo_pipe] = Ok demo_received.
Proof.
  assert (encode_client_request demo_request [demo_pipe] = Ok [x01]) as He by (vm_compute; reflexivity).
  split; [exact He|].
  exact (vault_request_roundtrip demo_id 5 (CliVaultUnlock 20) demo_request [demo_pipe] [x01] demo_peer eq_refl I He).
Defined.

Lemma vault_response_roundtrip_witness :
  encode_success demo_received 7 (OkVaultStatus demo_status) [] = Ok [x02] ∧
  decode_client_response [x02] [] demo_request
    = Ok (mkClientResponse 7 OpVaultUnlock (Success (OkVaultStatus demo_status)) []).
Proof.
  assert (encode_success demo_received 7 (OkVaultStatus demo_status) [] = Ok [x02]) as He by (vm_compute; reflexivity).
  split; [exact He|].
  exact (proj1 (vault_response_roundtrip demo_received demo_request (conj eq_refl (conj eq_refl eq_refl)))
    7%Z (OkVaultStatus demo_status) [] [x02] I He).
Defined.

End VaultDemo.
