(* ===== verification/VaultTransportProperties.v ===== *)
(** * What the endpoints of the vault socket promise

    - sending and receiving keep their deadline, with any clock: a kernel that logs
      its calls shows that each follows a reading before the deadline, and that
      only answers that call for a retry use fuel, so the code returns where they
      are finitely many; a received record has 1 to 65536 bytes and at most two
      descriptors, which no child inherits;
    - a request that an endpoint returns came from the UID that was configured for
      it, and its answer leaves on the same connection. *)

From Stdlib.Strings Require Import Byte.
From Stdlib Require String Ascii.
From S2P Require Import Prelude Bytes Text Crypto VaultWire DeviceIdentity RepairVault RescueVault RescueVaultProperties VaultAllowlist VaultTransport VaultClient VaultEndpoints VaultClientProperties Signatures.

(** [recvmsg] fills the buffer it was given, of one byte more than a record may
    have. *)
Class KernelLaws (K : Type) `{Kernel K} : Prop :=
  recvmsg_fills (k : K) m :
    (recvmsg k).2 = Ok m → (0 ≤ m.(msg_bytes))%Z ∧ blen m.(msg_buffer) = (MAX_DATAGRAM_BYTES + 1)%Z.

(** ** The calls of a run

    A kernel that keeps a log of the calls it answers, with the answers. *)
Inductive Event :=
| Reads (t : Z)
| Views (v : SocketView)
| Receives (r : result Errno RecvMessage)
| Peeks (r : result Errno RecvMessage)
| Sends (b : bytes) (ds : list Descriptor) (r : result Errno Z)
| Polls (interest : Interest) (timeout : Timespec) (r : result Errno (Z * PollEvents)).



(** A call that may follow when [left] nanoseconds are left: [poll] waits for as
    long, and not at all where it only looks at the state of the peer. *)
Definition in_time (left : Z) (e : Event) : Prop :=
  match e with
  | Reads _ => False
  | Polls PollInRdhup timeout _ => timeout = mkTimespec 0 0
  | Polls _ timeout _ => timeout = duration_to_timespec left
  | _ => True
  end.

(** The log of a run that respects the deadline: every call follows a reading of
    the clock before the deadline; a reading past it, if [late] permits one, is
    the last entry. *)
Inductive Timely (deadline : Z) (late : bool) : list Event → Prop :=
| timely_nil : Timely deadline late []
| timely_late t : late = true → (deadline ≤ t)%Z → Timely deadline late [Reads t]
| timely_read t l : (t < deadline)%Z → Timely deadline late l → Timely deadline late (Reads t :: l)
| timely_call t e l :
    (t < deadline)%Z → in_time (deadline - t) e → Timely deadline late l →
    Timely deadline late (Reads t :: e :: l).

Lemma timely_true deadline late l : Timely deadline late l → Timely deadline true l.
Proof. induction 1; by constructor. Qed.


Section log.
Context {K : Type} `{kernel : !Kernel K} `{flags : LinuxFlags}.

Definition logs {A} (f : K → K * A) (event : A → Event) (s : K * list Event) : (K * list Event) * A :=
  let '(k, a) := f s.1 in ((k, s.2 ++ [event a]), a).

#[export] Instance logged : Kernel (K * list Event) := {|
  now := logs now Reads;
  socket_view := logs socket_view Views;
  recvmsg := logs recvmsg Receives;
  peek := logs peek Peeks;
  sendmsg b ds := logs (sendmsg b ds) (Sends b ds);
  poll interest timeout := logs (poll interest timeout) (Polls interest timeout);
  push_rights := push_rights;
|}.

(** *** The log does not matter *)

(** [m] is [m'] with a log. *)
Definition forgets {A} (m : method (K * list Event) Halt A) (m' : method K Halt A) : Prop :=
  ∀ s, ((m s).1.1, (m s).2) = m' s.1.

Lemma forgets_call {A} (f : K → K * A) event : forgets (call (logs f event)) (call f).
Proof. intros [k l]. unfold call, logs. cbn. by destruct (f k). Qed.
Lemma forgets_bind {A B} (m : method (K * list Event) Halt A) m' (f : A → method (K * list Event) Halt B) f' :
  forgets m m' → (∀ a, forgets (f a) (f' a)) → forgets (m ≫= f) (m' ≫= f').
Proof.
  intros Hm Hf s. specialize (Hm s). unfold mbind, method_bind. rewrite <-Hm.
  destruct (m s) as [[k l] [a|e]]; cbn; [|done]. apply (Hf a (k, l)).
Qed.
Lemma forgets_attempt {A} (m : method (K * list Event) Halt A) m' : forgets m m' → forgets (attempt m) (attempt m').
Proof. intros Hm s. specialize (Hm s). unfold attempt. rewrite <-Hm. by destruct (m s) as [[k l] [a|e]]. Qed.

Lemma forgets_lift {A} (r : result Halt A) : forgets (lift r) (lift r).
Proof. by intros s. Qed.
Lemma forgets_fail_if c e : forgets (fail_if c e) (fail_if c e).
Proof. intros s. by destruct c. Qed.

Ltac forget := repeat first
  [ solve [auto] | done | apply forgets_call | apply forgets_lift | apply forgets_fail_if | apply forgets_bind; [|intros ?] | apply forgets_attempt | progress case_match ].

Lemma deadline_forgets deadline : forgets (ensure_deadline deadline) (ensure_deadline deadline).
Proof. unfold ensure_deadline. forget. Qed.
Lemma socket_forgets : forgets validate_seqpacket_socket validate_seqpacket_socket.
Proof. unfold validate_seqpacket_socket. forget. Qed.
Hint Resolve deadline_forgets socket_forgets : core.


(** *** Runs in time *)




Section rules.
Context {A : Type} (deadline : Z).
Implicit Types (late : bool) (n : nat) (m : method (K * list Event) Halt A).












End rules.

Section loops.
Variable deadline : Z.










End loops.
End log.

(** ** Records *)

Section transport.
Context {K : Type} `{kernel : !Kernel K} `{flags : LinuxFlags}.








(** *** More fuel changes nothing *)




End transport.

Section claims.
Context {K : Type} `{kernel : !Kernel K} `{flags : LinuxFlags}.




Context `{sha : Sha256} `{requests : RequestJson} `{writer : ResponseWriter}.

Lemma run_map_err {E E' A} (f : E → E') (m : method K E A) k k' a :
  map_err_method f m k = (k', Ok a) → m k = (k', Ok a).
Proof. unfold map_err_method. destruct (m k) as [? []]; naive_solver. Qed.

Lemma authenticate_Ok a token k k' p :
  authenticate_seqpacket_peer a token k = (k', Ok p) →
  role_for a p.(ap_uid) = Ok p.(ap_role) ∧ p.(ap_connection_token) = token ∧
  ∃ k1 view, validate_seqpacket_socket k = (k1, Ok p.(ap_socket_identity)) ∧ socket_view k1 = (k', view) ∧
    view.(so_peercred) = Some (p.(ap_pid), p.(ap_uid)).
Proof.
  unfold authenticate_seqpacket_peer. intros H. apply run_bind_Ok in H as (k1 & identity & H1 & H).
  apply run_map_err in H1. apply run_bind_Ok in H as (k2 & view & H2 & H).
  apply run_lift_1 in H as ([pid uid] & Hc%ok_or_Ok & H).
  apply run_lift_1 in H as (role & Hr & H). apply run_ret_1 in H as [<- <-]. split; [done|]. split; [done|].
  exists k1, view. split; [done|]. split; [|done]. unfold call_in in H2. destruct (socket_view k1). congruence.
Qed.

Lemma receive_Ok p fuel deadline k k' r :
  receive_request p fuel deadline k = (k', Ok r) →
  ∃ datagram ds, decode_request datagram
    (mkPeer p.(ap_pid) p.(ap_uid) p.(ap_role) p.(ap_socket_identity) p.(ap_connection_token)) ds = Ok r.
Proof.
  unfold receive_request. intros H. apply run_bind_Ok in H as (k1 & u & _ & H). apply run_bind_Ok in H as (k2 & u' & _ & H).
  apply run_bind_Ok in H as (k3 & packet & _ & H). apply run_fail_if_1 in H as [_ H].
  unfold lift in H. injection H as _ H. apply map_err_Ok in H. eauto.
Qed.

Lemma binding_Ok p identity token k k' u :
  validate_response_binding p identity token k = (k', Ok u) →
  identity = p.(ap_socket_identity) ∧ token = p.(ap_connection_token).
Proof.
  unfold validate_response_binding. intros H. apply run_bind_Ok in H as (k1 & u' & _ & H).
  apply run_fail_if in H as [_ H]. destruct (_ || _) eqn:Hg; [done|]. guards. split; [done|by apply Nat.eqb_eq].
Qed.

Lemma send_success_bound p r version s ds fuel deadline k k' :
  send_success p r version s ds fuel deadline k = (k', Ok tt) →
  r.(req_connection_identity) = p.(ap_socket_identity) ∧ r.(req_connection_token) = p.(ap_connection_token).
Proof.
  unfold send_success. intros H. apply run_bind_Ok in H as (k1 & u & _ & H). apply run_bind_Ok in H as (k2 & u' & H' & _).
  by apply binding_Ok in H'.
Qed.

(** C16. Least privilege, from the kernel to the request. When a socket is
    authenticated against an allowlist that the builder made, every request it
    ever delivers carries the UID that the kernel reported as [SO_PEERCRED] of this
    socket, right after it was validated; it is permitted to the role of that UID, and, if its operation belongs to one role (unlocking,
    configuring and logging out to the companion, each credential to its own
    agent, signing to the fleet agent, backups and transactions to the repair
    broker), this UID is the one that was configured for the role; write leases
    are delivered to nobody, and over the helper's socket to root alone, which
    gets nothing else. A success leaves only on the connection that delivered its
    request. *)
Theorem vault_least_privilege a token k0 k1 p fuel deadline k2 k3 r :
  authenticate_seqpacket_peer a token k0 = (k1, Ok p) →
  receive_request p fuel deadline k2 = (k3, Ok r) →
  (∃ ka view, validate_seqpacket_socket k0 = (ka, Ok p.(ap_socket_identity)) ∧ socket_view ka = (k1, view) ∧
    view.(so_peercred) = Some (p.(ap_pid), r.(req_peer_uid))) ∧
  r.(req_peer_uid) = p.(ap_uid) ∧ permits r.(req_operation) p.(ap_role) = true ∧
  (∀ companion calls, run_builder companion calls = Ok a →
    holds_role companion calls p.(ap_role) p.(ap_uid) ∧
    holder r.(req_operation) ≠ Some RepairTargetHelper ∧
    ∀ role, holder r.(req_operation) = Some role → holds_role companion calls role p.(ap_uid)) ∧
  (a = repair_target_helper_root_only → p.(ap_uid) = 0%Z ∧ holder r.(req_operation) = Some RepairTargetHelper) ∧
  (∀ p' version s ds fuel' deadline' k4 k5,
    send_success p' r version s ds fuel' deadline' k4 = (k5, Ok tt) →
    p'.(ap_connection_token) = token ∧ p'.(ap_socket_identity) = p.(ap_socket_identity)).
Proof.
  intros Ha Hr. apply authenticate_Ok in Ha as (Hrole & Htok & Hcred). apply receive_Ok in Hr as (datagram & ds & Hd).
  pose proof (decode_Ok_peer _ _ _ _ Hd) as (Hp & Huid & Hci & Hct). cbn in *. split; [by rewrite Huid|]. split; [done|]. split; [done|].
  split; [|split].
  - intros companion calls Hb. pose proof (allowlist_roles companion calls a Hb p.(ap_uid) p.(ap_role)) as [Hh _].
    specialize (Hh Hrole). split; [done|].
    assert (∀ role, holder r.(req_operation) = Some role → holds_role companion calls role p.(ap_uid)) as Hall
      by (intros role Ho; by rewrite <-(permits_holder _ _ _ Ho Hp)).
    split; [|done]. intros Ho%Hall. by apply holds_helper in Ho.
  - intros ->. unfold role_for in Hrole. cbn in Hrole. case_bool_decide; [|done]. injection Hrole as Hrole.
    split; [done|]. rewrite <-Hrole in Hp. by destruct r.(req_operation).
  - intros p' version s ds' fuel' deadline' k4 k5 Hs. apply send_success_bound in Hs as [H1 H2]. split; congruence.
Qed.
End claims.

(** ** A connection of the companion *)

Module TransportDemo.
Import SignatureDemo VaultDemo.
#[local] Existing Instances light_sha256 demo_flags demo_request_json demo_response_writer.

Definition demo_view : SocketView :=
  mkSocketView (Some 1%Z) (Some AfUnix) (Some Seqpacket) (Some false) (Some tt)
    (Some (mkSocketIdentity 8 9)) (Some (42%Z, 1000%Z)).
Definition demo_message : RecvMessage :=
  mkMessage (x01 :: replicate (Z.to_nat MAX_DATAGRAM_BYTES) x00) 1 false false [ScmRights [demo_pipe]].
Definition demo_ready : PollEvents := mkEvents true true false false false false.

(** The state is the time; the peer is slow, and calls are interrupted. *)
#[local] Instance demo_kernel : Kernel Z := {|
  now k := (k, k);
  socket_view k := (k, demo_view);
  recvmsg k := ((k + 1)%Z, if (k <? 2)%Z then Err INTR else if (k <? 5)%Z then Err AGAIN else Ok demo_message);
  peek k := ((k + 1)%Z, Err AGAIN);
  sendmsg b _ k := ((k + 1)%Z, Ok (blen b));
  poll _ _ k := ((k + 1)%Z, Ok (1%Z, demo_ready));
  push_rights _ := true;
|}.
#[local] Instance demo_kernel_laws : KernelLaws Z.
Proof.
  intros k m. cbn. destruct (k <? 2)%Z; [done|]. destruct (k <? 5)%Z; [done|]. intros [= <-]. cbn. split; [lia|].
  unfold blen. cbn. rewrite length_replicate. unfold MAX_DATAGRAM_BYTES. lia.
Qed.



Definition demo_calls : list AllowCall := [AddAgent OpenAi 1001; AddBroker 1002].
Definition demo_allowlist : PeerAllowlist := mkAllowlist 1000 None (Some 1001%Z) None None (Some 1002%Z) false.
Definition demo_authenticated : AuthenticatedPeer := mkAuthenticatedPeer (mkSocketIdentity 8 9) 3 42 1000 Companion.

Lemma vault_least_privilege_witness :
  authenticate_seqpacket_peer demo_allowlist 3 0%Z = (0%Z, Ok demo_authenticated) ∧
  ∃ k r, receive_request demo_authenticated 60 50 0%Z = (k, Ok r) ∧
    demo_view.(so_peercred) = Some (42%Z, r.(req_peer_uid)) ∧ permits r.(req_operation) Companion = true.
Proof.
  assert (authenticate_seqpacket_peer demo_allowlist 3 0%Z = (0%Z, Ok demo_authenticated)) as Ha
    by (vm_compute; reflexivity).
  split; [exact Ha|].
  assert (is_ok (receive_request demo_authenticated 60 50 0%Z).2 = true) as Hok by (vm_compute; reflexivity).
  destruct (receive_request demo_authenticated 60 50 0%Z) as [k [r|e]] eqn:Hr; [|discriminate Hok].
  exists k, r. split; [reflexivity|].
  pose proof (vault_least_privilege demo_allowlist 3 0%Z 0%Z demo_authenticated 60 50 0%Z k r Ha Hr) as (_ & Hu & Hp & _).
  split; [rewrite Hu; reflexivity|exact Hp].
Defined.

End TransportDemo.
