(* ===== verification/ConfigLines.v ===== *)
(** * ConfigLines: line-oriented configuration files

    The loops that src/packs/linux/src/rescue_fstab_candidate.rs and
    rescue_crypttab_candidate.rs share as textual copies: cutting a document
    into numbered lines, cutting a line into blank-separated fields, and the
    octal escapes of fstab fields. They are generic in the error of the module
    and in what it does with a line. The reference definitions [text_lines] and
    [tokens] say what the loops compute. *)

From Stdlib.Strings Require Import Byte.
From Stdlib Require String Ascii.
From S2P Require Import Prelude Bytes Text.

Record ParsedLine := mkLine {
  start : nat;
  content_end : nat;
  line_number : nat;
  fields : option (list bytes);
}.

Definition is_newline (b : byte) : bool := b == x0a.
Definition is_blank (b : byte) : bool := (b == x20) || (b == x09).

(** Whether a line is a comment or blank. *)
Definition inactive (content : bytes) : bool :=
  match position (λ b, negb (is_blank b)) content with
  | None => true
  | Some index => content !! index == Some x23
  end.

(** ** Lines *)

Section lines.
Context {E : Type} (malformed : E) (line_fields : bytes → result E (option (list bytes))).

Fixpoint parse_loop (fuel : nat) (document : bytes) (start line_number : nat) :
    result E (list ParsedLine) :=
  match fuel with
  | O => Err malformed
  | S fuel =>
      if start <? length document then
        let newline :=
          match position is_newline (drop start document) with
          | Some offset => start + offset + 1
          | None => length document
          end in
        let content_end :=
          if (start <? newline) && (document !! (newline - 1) == Some x0a) then newline - 1 else newline in
        let content := take (content_end - start) (drop start document) in
        fields ← line_fields content;
        parsed ← parse_loop fuel document newline (S line_number);
        Ok (mkLine start content_end line_number fields :: parsed)
      else Ok []
  end.
End lines.

(** ** Fields *)

Section fields.
Context {E : Type} (malformed : E) (stop : byte → bool) (decode : bytes → result E bytes) (max_fields : nat).

(** [rest] is the line from the cursor on. *)
Fixpoint field_loop (fuel : nat) (rest : bytes) (fields : list bytes) : result E (list bytes) :=
  match fuel with
  | O => Err malformed
  | S fuel =>
      match drop_while is_blank rest with
      | [] => Ok fields
      | (b :: _) as rest =>
          if stop b then Ok fields
          else
            field ← decode (take_while (λ b, negb (is_blank b)) rest);
            let fields := fields ++ [field] in
            reject (max_fields <? length fields) with malformed;
            field_loop fuel (drop_while (λ b, negb (is_blank b)) rest) fields
      end
  end.
End fields.

(** ** Selection and edit *)

(** The loop that looks for candidates among the lines. *)
Fixpoint select_lines {E C} (candidate : option (list bytes) → result E (option C)) (parsed : list ParsedLine) :
    result E (list (ParsedLine * C)) :=
  match parsed with
  | [] => Ok []
  | line :: parsed =>
      selected ← candidate line.(fields);
      candidates ← select_lines candidate parsed;
      Ok (match selected with Some c => (line, c) :: candidates | None => candidates end)
  end.

(** The bytes of a line, and the document with [prefix] before it. *)
Definition line_bytes (target : ParsedLine) (document : bytes) : bytes :=
  take (target.(content_end) - target.(start)) (drop target.(start) document).
Definition commented (prefix : bytes) (target : ParsedLine) (document : bytes) : bytes :=
  take target.(start) document ++ prefix ++ line_bytes target document ++ drop target.(content_end) document.

(** ** Octal escapes *)

Definition octal_digit (b : byte) : bool := in_range 48 55 b.
Definition octal_value (a b c : byte) : Z :=
  (byte_val a - 48) * 64 + (byte_val b - 48) * 8 + (byte_val c - 48).
Definition control (b : byte) : bool := (byte_val b <? 32)%Z || (b == x7f).

Fixpoint decode_octal {E} (malformed : E) (field : bytes) : result E bytes :=
  match field with
  | [] => Ok []
  | x5c :: a :: b :: c :: rest =>
      reject (negb (octal_digit a && octal_digit b && octal_digit c)) with malformed;
      let value := octal_value a b c in
      reject (255 <? value)%Z with malformed;
      let byte := byte_of_Z value in
      reject (control byte) with malformed;
      decoded ← decode_octal malformed rest;
      Ok (byte :: decoded)
  | x5c :: _ => Err malformed
  | byte :: rest =>
      reject (control byte) with malformed;
      decoded ← decode_octal malformed rest;
      Ok (byte :: decoded)
  end.

(** [str::from_utf8(field).ok().and_then(|value| value.parse::<u32>().ok())]. *)
Definition numeric_field (field : bytes) : option Z := text ← from_utf8 field; parse_u32 (as_bytes text).

(** ** Reference definitions *)

(** The lines of a document, without their terminators. *)
Fixpoint text_lines (document : bytes) : list bytes :=
  match document with
  | [] => []
  | b :: rest =>
      if is_newline b then [] :: text_lines rest
      else match text_lines rest with
      | line :: lines => (b :: line) :: lines
      | [] => [[b]]
      end
  end.
Definition unlines (lines : list bytes) : bytes := concat (map (λ l, l ++ [x0a]) lines).

(** The maximal runs of bytes that are not blank. *)
Definition ends_token (rest : bytes) : bool := match rest with b :: _ => is_blank b | [] => true end.
Fixpoint tokens (line : bytes) : list bytes :=
  match line with
  | [] => []
  | b :: rest =>
      let others := tokens rest in
      if is_blank b then others
      else if ends_token rest then [b] :: others
      else match others with token :: others => (b :: token) :: others | [] => [[b]] end
  end.

(** Lines with their offsets and numbers. *)
Fixpoint number_lines {E} (line_fields : bytes → result E (option (list bytes))) (start line_number : nat)
    (lines : list bytes) : result E (list ParsedLine) :=
  match lines with
  | [] => Ok []
  | line :: lines =>
      fields ← line_fields line;
      parsed ← number_lines line_fields (start + length line + 1) (S line_number) lines;
      Ok (mkLine start (start + length line) line_number fields :: parsed)
  end.

(** ** Documents and their lines *)

Definition one_line (l : bytes) : Prop := Forall (λ b, is_newline b = false) l.

Lemma text_lines_app l rest : one_line l → text_lines (l ++ x0a :: rest) = l :: text_lines rest.
Proof. induction 1 as [|b l Hb Hl IH]; [done|]. simpl. by rewrite Hb, IH. Qed.

Lemma text_lines_last l : one_line l → l ≠ [] → text_lines l = [l].
Proof.
  induction 1 as [|b l Hb Hl IH]; [done|]. intros _. simpl. rewrite Hb.
  destruct l as [|c l]; [done|]. by rewrite IH.
Qed.

Lemma text_lines_one_line document : Forall one_line (text_lines document).
Proof.
  induction document as [|b d IH]; simpl; [done|]. destruct (is_newline b) eqn:E.
  - constructor; [by apply Forall_nil|done].
  - destruct IH as [|l ls Hl Hls]; repeat constructor; done.
Qed.

(** A document is its complete lines and, at the end, one without a terminator. *)
Inductive cut (document : bytes) : Prop :=
| cut_end : document = [] → cut document
| cut_last : one_line document → document ≠ [] → cut document
| cut_line l rest : one_line l → document = l ++ x0a :: rest → cut document.

Lemma cut_document document : cut document.
Proof.
  destruct (position is_newline document) as [i|] eqn:E.
  - apply position_Some in E as (a & b & c & -> & _ & Hb & Ha). apply bool_decide_eq_true in Hb as ->. by eapply cut_line.
  - apply position_None in E. destruct document; [by apply cut_end|by apply cut_last].
Qed.

Lemma split_lines document before line after :
  text_lines document = before ++ line :: after →
  ∃ post, document = unlines before ++ line ++ post ∧
    (∀ line', one_line line' → line' ≠ [] → text_lines (unlines before ++ line' ++ post) = before ++ line' :: after).
Proof.
  revert document. induction before as [|l before IH]; intros document; simpl.
  - destruct (cut_document document) as [->|Hl Hne|l rest Hl ->]; [done|..].
    + rewrite text_lines_last by done. intros [= <- <-]. exists []. rewrite app_nil_r. split; [done|].
      intros l' Hl' Hne'. by rewrite app_nil_r, text_lines_last.
    + rewrite text_lines_app by done. intros [= <- <-]. exists (x0a :: rest). split; [done|].
      intros l' Hl' _. by rewrite text_lines_app.
  - destruct (cut_document document) as [->|Hl Hne|l0 rest Hl ->]; [done|..].
    + rewrite text_lines_last by done. intros [= _ H]. by destruct before.
    + rewrite text_lines_app by done. intros [= -> H]. apply IH in H as (post & -> & Hr). exists post.
      unfold unlines. simpl. rewrite <-!app_assoc. split; [done|]. intros l' ??. simpl.
      rewrite <-!app_assoc. simpl. rewrite text_lines_app by done. f_equal. by apply Hr.
Qed.

Lemma parse_loop_lines {E} (malformed : E) f fuel pre rest n :
  length rest < fuel →
  parse_loop malformed f fuel (pre ++ rest) (length pre) n = number_lines f (length pre) n (text_lines rest).
Proof.
  revert pre rest n. induction fuel as [|fuel IH]; intros pre rest n Hf; [lia|]. simpl.
  rewrite length_app, drop_app_length.
  destruct (cut_document rest) as [->|Hl Hne|l c Hl ->].
  - simpl. by rewrite (proj2 (Nat.ltb_ge _ _)) by lia.
  - rewrite (proj2 (position_None _ _) Hl), text_lines_last by done.
    assert (0 < length rest) by (destruct rest; simpl; [done|lia]).
    rewrite !(proj2 (Nat.ltb_lt _ _)) by lia.
    rewrite lookup_app_r by lia. replace (length pre + length rest - 1 - length pre) with (length rest - 1) by lia.
    rewrite bool_decide_false; [|]; cycle 1.
    { intros H'. apply list_elem_of_lookup_2 in H'. by pose proof (proj1 (Forall_forall _ _) Hl _ H'). }
    simpl. replace (length pre + length rest - length pre) with (length rest) by lia. rewrite firstn_all.
    destruct (f rest) as [fs|]; [|done]. simpl. destruct fuel; [lia|]. simpl.
    rewrite length_app, (proj2 (Nat.ltb_ge _ _)) by lia. done.
  - assert (position is_newline (l ++ x0a :: c) = Some (length l)) as ->.
    { apply position_Some. by exists l, x0a, c. }
    rewrite text_lines_app by done. rewrite length_app in *. simpl in *.
    rewrite !(proj2 (Nat.ltb_lt _ _)) by lia.
    rewrite lookup_app_r by lia. rewrite lookup_app_r by lia.
    replace (length pre + length l + 1 - 1 - length pre - length l) with 0 by lia. simpl.
    replace (length pre + length l + 1 - 1 - length pre) with (length l) by lia.
    replace (length pre + length l + 1 - 1) with (length pre + length l) by lia.
    rewrite take_app_length. destruct (f l) as [fs|]; [|done]. simpl.
    specialize (IH (pre ++ l ++ [x0a]) c (S n) ltac:(lia)). rewrite !length_app in IH. simpl in IH.
    rewrite <-!app_assoc in IH. simpl in IH. rewrite Nat.add_assoc in IH. rewrite IH. done.
Qed.

(** ** Lines and their fields *)

Lemma tokens_word w rest :
  w ≠ [] → Forall (λ b, negb (is_blank b) = true) w → ends_token rest = true → tokens (w ++ rest) = w :: tokens rest.
Proof.
  intros Hne Hw He. induction Hw as [|b w Hb Hw IH]; [done|]. apply negb_true_iff in Hb.
  cbn [app tokens]. rewrite Hb. destruct w as [|c w]; [by cbn [app]; rewrite He|].
  rewrite IH by done. apply Forall_cons_1 in Hw as [Hc%negb_true_iff Hw]. cbn [app ends_token]. by rewrite Hc.
Qed.

Lemma tokens_drop_blank l : tokens (drop_while is_blank l) = tokens l.
Proof. induction l as [|b l IH]; simpl; [done|]. destruct (is_blank b) eqn:E; [done|]. simpl. by rewrite E. Qed.

Lemma length_drop_while f l : length (drop_while f l) ≤ length l.
Proof. induction l as [|b l IH]; simpl; [done|]. destruct (f b); simpl; lia. Qed.

(** What the field loop adds to [fields]: the decoded tokens up to the first one
    that starts where it stops. *)
Section field_loop.
Context {E : Type} (malformed : E) (stop : byte → bool) (decode : bytes → result E bytes) (max_fields : nat).

Definition stops (token : bytes) : bool := match token with b :: _ => stop b | [] => false end.
Fixpoint decode_tokens (fields : list bytes) (ts : list bytes) : result E (list bytes) :=
  match ts with
  | [] => Ok fields
  | token :: ts =>
      if stops token then Ok fields
      else
        field ← decode token;
        reject (max_fields <? length (fields ++ [field])) with malformed;
        decode_tokens (fields ++ [field]) ts
  end.

Lemma field_loop_tokens fuel rest fs :
  length rest < fuel → field_loop malformed stop decode max_fields fuel rest fs = decode_tokens fs (tokens rest).
Proof.
  revert rest fs. induction fuel as [|fuel IH]; intros rest fs Hf; [lia|]. cbn [field_loop].
  rewrite <-(tokens_drop_blank rest). pose proof (length_drop_while is_blank rest) as Hlen.
  destruct (drop_while is_blank rest) as [|b r] eqn:Hd; [done|].
  pose proof (drop_while_head _ _ _ _ Hd) as Hb. set (nonblank := λ b, negb (is_blank b)).
  assert (tokens (b :: r) = take_while nonblank (b :: r) :: tokens (drop_while nonblank (b :: r))) as ->.
  { rewrite <-(take_drop_while nonblank (b :: r)) at 1. apply tokens_word.
    - simpl. unfold nonblank at 1. by rewrite Hb.
    - apply take_while_all.
    - destruct (drop_while nonblank (b :: r)) as [|c r'] eqn:Hd'; [done|]. simpl.
      apply drop_while_head in Hd'. by apply negb_false_iff in Hd'. }
  assert (length (drop_while nonblank (b :: r)) < fuel) as Hlen'.
  { simpl. unfold nonblank at 1. rewrite Hb. simpl. pose proof (length_drop_while nonblank r). simpl in Hlen. lia. }
  assert (stops (take_while nonblank (b :: r)) = stop b) as Hs by (simpl; unfold nonblank; by rewrite Hb).
  cbn [decode_tokens]. rewrite Hs. destruct (stop b); [done|].
  fold nonblank. destruct (decode (take_while nonblank (b :: r))) as [field|]; [|done]. cbn [mbind result_bind].
  cbv zeta. destruct (max_fields <? _); [done|]. by apply IH.
Qed.
End field_loop.

(** A comment stays inactive whatever follows the mark. *)
Lemma inactive_comment l : inactive (x23 :: l) = true.
Proof. by unfold inactive; simpl. Qed.

(** ** Selected lines *)

Section selection.
Context {E C : Type} (line_fields : bytes → result E (option (list bytes)))
  (candidate : option (list bytes) → result E (option C)).

(** What a line does to the selection. *)
Definition keeps (line : bytes) : Prop := ∃ fs, line_fields line = Ok fs ∧ candidate fs = Ok None.
Definition picks (line : bytes) (c : C) : Prop := ∃ fs, line_fields line = Ok fs ∧ candidate fs = Ok (Some c).

Lemma line_cases line parsed s n ls :
  number_lines line_fields s n (line :: ls) = Ok parsed →
  ∃ fs parsed', line_fields line = Ok fs ∧ number_lines line_fields (s + length line + 1) (S n) ls = Ok parsed' ∧
    parsed = mkLine s (s + length line) n fs :: parsed'.
Proof.
  cbn [number_lines]. intros H. apply result_bind_Ok in H as (fs & Hf & H). apply result_bind_Ok in H as (p & Hp & H).
  apply Ok_inj_1 in H as <-. by exists fs, p.
Qed.

Lemma select_none s n ls parsed :
  number_lines line_fields s n ls = Ok parsed →
  select_lines candidate parsed = Ok [] ↔ Forall keeps ls.
Proof.
  revert s n parsed. induction ls as [|line ls IH]; intros s n parsed H.
  { apply Ok_inj_1 in H as <-. by split. }
  apply line_cases in H as (fs & p & Hf & Hp & ->). cbn [select_lines fields]. rewrite Forall_cons. split.
  - intros H. apply result_bind_Ok in H as (c & Hc & H). apply result_bind_Ok in H as (cs & Hcs & H).
    apply Ok_inj_1 in H. destruct c; [done|]. subst cs. split; [by exists fs|]. by eapply IH.
  - intros [(fs' & Hf' & Hc) Hls]. rewrite Hf in Hf'. apply Ok_inj_1 in Hf' as <-. rewrite Hc. simpl.
    by rewrite (proj2 (IH _ _ _ Hp) Hls).
Qed.

Lemma select_one s n ls parsed t c :
  number_lines line_fields s n ls = Ok parsed →
  select_lines candidate parsed = Ok [(t, c)] ↔
  ∃ before line after fs, ls = before ++ line :: after ∧ Forall keeps before ∧
    line_fields line = Ok fs ∧ candidate fs = Ok (Some c) ∧ Forall keeps after ∧
    t = mkLine (s + length (unlines before)) (s + length (unlines before) + length line) (n + length before) fs.
Proof.
  revert s n parsed. induction ls as [|line ls IH]; intros s n parsed H.
  { apply Ok_inj_1 in H as <-. split; [done|]. intros ([|??] & ? & ? & ? & ? & _); done. }
  apply line_cases in H as (fs & p & Hf & Hp & ->). cbn [select_lines fields]. split.
  - intros H. apply result_bind_Ok in H as (k & Hk & H). apply result_bind_Ok in H as (cs & Hcs & H).
    apply Ok_inj_1 in H. destruct k as [c'|].
    + injection H as <- -> ->. exists [], line, ls, fs. simpl. rewrite !Nat.add_0_r.
      split_and!; try done. by eapply select_none.
    + subst cs. apply (IH _ _ _ Hp) in Hcs as (before & l & after & fs' & -> & Hb & Hl & He & Ha & ->).
      exists (line :: before), l, after, fs'. split_and!; try done; [constructor; [by exists fs|done]|].
      unfold unlines. simpl. rewrite !length_app. simpl. f_equal; lia.
  - intros (before & l & after & fs' & Hls & Hb & Hl & He & Ha & ->). destruct before as [|l0 before]; simpl in Hls.
    + injection Hls as -> ->. rewrite Hf in Hl. apply Ok_inj_1 in Hl as ->. simpl. rewrite He. simpl.
      rewrite (proj2 (select_none _ _ _ _ Hp) Ha). simpl. by rewrite !Nat.add_0_r.
    + injection Hls as -> ->. apply Forall_cons in Hb as [(fs0 & Hf0 & Hc0) Hb]. rewrite Hf in Hf0.
      apply Ok_inj_1 in Hf0 as <-. rewrite Hc0. cbn [mbind result_bind].
      rewrite (proj2 (IH _ _ _ Hp)); [done|]. exists before, l, after, fs'. split_and!; try done.
      unfold unlines. simpl. rewrite !length_app. simpl. f_equal; lia.
Qed.

Lemma number_lines_total s n ls :
  (∃ parsed, number_lines line_fields s n ls = Ok parsed) ↔ Forall (λ l, ∃ fs, line_fields l = Ok fs) ls.
Proof.
  revert s n. induction ls as [|l ls IH]; intros s n; cbn [number_lines].
  - split; [done|]. by exists [].
  - rewrite Forall_cons, <-(IH (s + length l + 1) (S n)). split.
    + intros (parsed & H). apply result_bind_Ok in H as (fs & Hf & H). apply result_bind_Ok in H as (p & Hp & _). eauto.
    + intros [(fs & ->) (p & Hp)]. simpl. rewrite Hp. simpl. eauto.
Qed.
End selection.

Lemma one_line_app a b : one_line (a ++ b) ↔ one_line a ∧ one_line b.
Proof. apply Forall_app. Qed.

(** The edit of a line is an insertion before it and changes no other line. *)
Lemma commented_line prefix pre line post n fs :
  commented prefix (mkLine (length pre) (length pre + length line) n fs) (pre ++ line ++ post)
  = pre ++ prefix ++ line ++ post
  ∧ line_bytes (mkLine (length pre) (length pre + length line) n fs) (pre ++ line ++ post) = line.
Proof.
  unfold commented, line_bytes. cbn [start content_end].
  replace (length pre + length line - length pre) with (length line) by lia.
  rewrite !drop_app_length, take_app_length, take_app_length. split; [|done]. do 3 f_equal.
  by rewrite app_assoc, <-length_app, drop_app_length.
Qed.

Lemma unlines_utf8 before prefix rest :
  Forall (λ b, in_range 0 0x7f b = true) prefix →
  utf8_valid (unlines before ++ rest) = utf8_valid (unlines before ++ prefix ++ rest).
Proof.
  intros Hp. destruct before as [|l before _] using rev_ind.
  - unfold unlines. simpl. by rewrite (utf8_valid_ascii prefix rest Hp).
  - unfold unlines. rewrite map_app, concat_app. simpl. rewrite app_nil_r, <-!app_assoc. cbn [app].
    set (a := concat _). rewrite !(app_assoc a l).
    rewrite (utf8_valid_app _ _ rest), (utf8_valid_app _ _ (prefix ++ rest)) by reflexivity. by rewrite (utf8_valid_ascii prefix rest Hp).
Qed.
