(* ===== verification/ConfigEdit.v ===== *)
(** * ConfigEdit: commenting out the one line that matters

    The repairs of fstab and crypttab have one shape: parse a document, look for
    the only line that a candidate function picks, insert a comment mark before
    it and parse the result. Here this shape is characterized once, for any
    parser of lines, candidate function and mark. *)

From Stdlib.Strings Require Import Byte.
From Stdlib Require String Ascii.
From S2P Require Import Prelude Bytes Text ConfigLines.

(** A non-empty UTF-8 text without NUL within a limit. *)
Definition document (limit : Z) (d : bytes) : Prop :=
  d ≠ [] ∧ (blen d ≤ limit)%Z ∧ (x00 ∉ d) ∧ utf8_valid d = true.

(** A mark that comments out a line. *)
Record comment_mark (mark : bytes) : Prop := {
  cm_nonempty : mark ≠ [];
  cm_one_line : one_line mark;
  cm_ascii : Forall (λ b, in_range 0 0x7f b = true) mark;
  cm_nul : x00 ∉ mark;
}.

Section edit.
Context {E C : Type} (line_fields : bytes → result E (option (list bytes)))
  (candidate : option (list bytes) → result E (option C)) (limit line_limit : Z) (mark : bytes)
  (parse : bytes → result E (list ParsedLine)).

(** The line that is disabled; [post] is the document after it. *)
Record target (d : bytes) (before : list bytes) (line : bytes) (after : list bytes) (post : bytes) (c : C) : Prop := {
  tg_document : document limit d;
  tg_split : d = unlines before ++ line ++ post;
  tg_lines : text_lines d = before ++ line :: after;
  tg_edited : text_lines (unlines before ++ mark ++ line ++ post) = before ++ (mark ++ line) :: after;
  tg_picked : picks line_fields candidate line c;
  tg_others : Forall (keeps line_fields candidate) (before ++ after);
  tg_size : (blen mark + blen d ≤ limit)%Z;
  tg_line_size : (blen mark + blen line ≤ line_limit)%Z;
}.

(** The active lines of a document. *)
Definition entries (d : bytes) : list (list bytes) :=
  omap (λ l, match line_fields l with Ok fs => fs | Err _ => None end) (text_lines d).

Context (parse_Ok : ∀ d parsed,
    parse d = Ok parsed ↔ document limit d ∧ number_lines line_fields 0 1 (text_lines d) = Ok parsed)
  (mark_ok : comment_mark mark)
  (marked_line : ∀ line fs r, line_fields line = Ok fs →
    line_fields (mark ++ line) = Ok r ↔ r = None ∧ (blen mark + blen line ≤ line_limit)%Z)
  (candidate_none : candidate None = Ok None).

Lemma document_parses d : (∃ parsed, parse d = Ok parsed) ↔
  document limit d ∧ Forall (λ l, ∃ fs, line_fields l = Ok fs) (text_lines d).
Proof using parse_Ok.
  setoid_rewrite parse_Ok. rewrite <-(number_lines_total line_fields 0 1). split.
  - intros (parsed & Hd & Hn). eauto.
  - intros (Hd & parsed & Hn). eauto.
Qed.

Lemma marked_document before line post :
  document limit (unlines before ++ line ++ post) →
  document limit (unlines before ++ mark ++ line ++ post) ↔ (blen mark + blen (unlines before ++ line ++ post) ≤ limit)%Z.
Proof using mark_ok.
  destruct mark_ok as [Hne _ Ha Hz]. intros (_ & _ & Hnul & Hu). unfold document.
  rewrite <-(unlines_utf8 _ _ _ Ha), !blen_app. split; [intros (_ & H & _); lia|].
  intros H. split_and!; [|lia|clear -Hz Hnul; set_solver|done]. intros Hnil. by apply app_eq_nil in Hnil as [_ [Hm _]%app_eq_nil].
Qed.

(** Parsing, selecting one line and parsing the edited document succeed exactly at a target. *)
Lemma edit_exact d t c :
  (∃ parsed parsed', parse d = Ok parsed ∧ select_lines candidate parsed = Ok [(t, c)] ∧
    parse (commented mark t d) = Ok parsed') ↔
  ∃ before line after post fs, target d before line after post c ∧ line_fields line = Ok fs ∧
    t = mkLine (length (unlines before)) (length (unlines before) + length line) (S (length before)) fs.
Proof using parse_Ok mark_ok marked_line.
  pose proof mark_ok as [Hne Hone _ _]. split.
  - intros (parsed & parsed' & Hp & Hsel & Hp'). pose proof Hp as [Hd Hn]%parse_Ok.
    apply (select_one line_fields candidate 0 1 _ _ _ _ Hn) in Hsel as (before & line & after & fs & Hl & Hb & Hf & Hc & Ha & ->).
    destruct (split_lines _ _ _ _ Hl) as (post & -> & Hedit). cbn [plus] in Hp'.
    pose proof (text_lines_one_line (unlines before ++ line ++ post)) as Hol. rewrite Hl in Hol.
    apply Forall_app in Hol as [_ [Hol _]%Forall_cons].
    assert (text_lines (unlines before ++ mark ++ line ++ post) = before ++ (mark ++ line) :: after) as He.
    { rewrite (app_assoc mark). apply Hedit; [by apply one_line_app|]. intros Hnil. by apply app_eq_nil in Hnil as [? _]. }
    rewrite (proj1 (commented_line _ _ _ _ _ _)) in Hp'. apply parse_Ok in Hp' as [Hd' Hn'].
    assert (Forall (λ l, ∃ fs, line_fields l = Ok fs) (before ++ (mark ++ line) :: after)) as Hall.
    { rewrite <-He. apply (number_lines_total line_fields 0 1). eauto. }
    apply Forall_app in Hall as [_ [(r & Hr) _]%Forall_cons]. apply (marked_line _ _ _ Hf) in Hr as [_ Hs].
    exists before, line, after, post, fs. split; [|done].
    split; [done..|by exists fs|by apply Forall_app|by apply marked_document|done].
  - intros (before & line & after & post & fs & [Hd -> Hl He (fs' & Hf & Hc) Ho Hs Hs'] & Hfs & ->).
    rewrite Hf in Hfs. apply Ok_inj_1 in Hfs as <-. apply Forall_app in Ho as [Hb Ha].
    assert (∀ ls, Forall (keeps line_fields candidate) ls → Forall (λ l, ∃ fs, line_fields l = Ok fs) ls) as Hk.
    { intros ls Hls. eapply Forall_impl; [exact Hls|]. intros l (f & ? & _). by exists f. }
    destruct (proj2 (document_parses (unlines before ++ line ++ post))) as (parsed & Hp).
    { split; [done|]. rewrite Hl, Forall_app, Forall_cons. split_and!; [by apply Hk|by exists fs'|by apply Hk]. }
    destruct (proj2 (document_parses (unlines before ++ mark ++ line ++ post))) as (parsed' & Hp').
    { split; [by apply marked_document|]. rewrite He, Forall_app, Forall_cons. split_and!; [by apply Hk| |by apply Hk].
      exists None. by apply (marked_line _ _ _ Hf). }
    exists parsed, parsed'. rewrite (proj1 (commented_line _ _ _ _ _ _)). split_and!; [done| |done].
    apply parse_Ok in Hp as [_ Hn]. apply (select_one line_fields candidate 0 1 _ _ _ _ Hn).
    exists before, line, after, fs'. by split_and!.
Qed.

(** Afterwards there is nothing left to select, and one entry less. *)
Lemma edit_converges d before line after post c :
  target d before line after post c →
  (∃ parsed, parse (unlines before ++ mark ++ line ++ post) = Ok parsed ∧ select_lines candidate parsed = Ok []) ∧
  ∃ a entry b, entries d = a ++ entry :: b ∧ entries (unlines before ++ mark ++ line ++ post) = a ++ b ∧
    line_fields line = Ok (Some entry) ∧ candidate (Some entry) = Ok (Some c).
Proof using parse_Ok mark_ok marked_line candidate_none.
  intros [Hd -> Hl He (fs & Hf & Hc) Ho Hs Hs']. pose proof Ho as [Hb Ha]%Forall_app.
  assert (line_fields (mark ++ line) = Ok None) as Hm by (by apply (marked_line _ _ _ Hf)).
  assert (Forall (keeps line_fields candidate) (before ++ (mark ++ line) :: after)) as Hk.
  { rewrite Forall_app, Forall_cons. split_and!; [done| |done]. by exists None. }
  split.
  - destruct (proj2 (document_parses (unlines before ++ mark ++ line ++ post))) as (parsed & Hp).
    { split; [by apply marked_document|]. rewrite He. eapply Forall_impl; [exact Hk|]. intros l (f & ? & _). by exists f. }
    exists parsed. split; [done|]. apply parse_Ok in Hp as [_ Hn].
    apply (select_none line_fields candidate 0 1 _ _ Hn). by rewrite He.
  - destruct fs as [entry|]; [|congruence].
    set (active := λ l, match line_fields l with Ok fs => fs | Err _ => None end).
    exists (omap active before), entry, (omap active after). unfold entries. fold active. rewrite Hl, He, !omap_app.
    cbn [omap list_omap]. assert (active line = Some entry) as -> by (unfold active; by rewrite Hf).
    assert (active (mark ++ line) = None) as -> by (unfold active; by rewrite Hm). done.
Qed.
End edit.

(** ** Sets of UUIDs under a digest *)

Lemma uuid_frames_inj (prefix : bytes) (limit : Z) s s' :
  (limit ≤ U64_MAX)%Z → (Z.of_nat (length s) ≤ limit)%Z → (Z.of_nat (length s') ≤ limit)%Z →
  Forall (λ u, (len u ≤ limit)%Z) s → Forall (λ u, (len u ≤ limit)%Z) s' →
  prefix ++ to_be_bytes (Z.of_nat (length s)) ++ frames (as_bytes <$> s)
  = prefix ++ to_be_bytes (Z.of_nat (length s')) ++ frames (as_bytes <$> s') → s = s'.
Proof.
  intros Hlim Hl Hl' Hs Hs' Heq. apply app_inv_head in Heq.
  apply to_be_bytes_app_inj in Heq as [Hn Heq]; [|unfold is_u64; lia..]. apply (f_equal (.++ [])) in Heq.
  assert (∀ l : list string, Forall (λ u, (len u ≤ limit)%Z) l → Forall fits (as_bytes <$> l)) as Hfit.
  { intros l Hall. apply Forall_fmap. eapply Forall_impl; [exact Hall|]. intros u Hu. apply fits_as_bytes. cbn in Hu. lia. }
  apply frames_app_inj in Heq as [Heq _]; [|rewrite !length_fmap; lia|auto..]. by apply (inj (fmap as_bytes)) in Heq.
Qed.
