(* ===== verification/FstabPreview.v ===== *)
(** * FstabPreview: the edit that disables a missing mount

    src/packs/linux/src/rescue_fstab_candidate.rs - from the bytes of an fstab and
    the UUIDs that were observed, the one edit that comments out the one
    mandatory ext4 entry below [/mnt], [/media] or [/srv] whose device is absent,
    with the digests that a plan binds. *)

From Stdlib.Strings Require Import Byte.
From Stdlib Require String Ascii.
From S2P Require Import Prelude Bytes Ordered Text Crypto ConfigLines.

Definition MAX_FSTAB_BYTES : Z := 1024 * 1024.
Definition MAX_FSTAB_LINE_BYTES : Z := 16 * 1024.
Definition MAX_OBSERVED_UUIDS : Z := 4096.
Definition MAX_UUID_BYTES : Z := 128.
Definition COMMENT_PREFIX : bytes := as_bytes "# KernAid Rescue disabled missing UUID: ".
Definition OBSERVED_UUID_SET_HASH_DOMAIN : bytes :=
  domain "kernaid:linux.fstab.disable-missing-uuid.v1:observed-uuid-set:v1".
Definition DIFF_HASH_DOMAIN : bytes := domain "kernaid:linux.fstab.disable-missing-uuid.v1:diff:v1".

Inductive PreviewError :=
| InvalidFstabSize | MalformedFstab | TooManyObservedUuids | InvalidObservedUuid | AmbiguousObservedUuid
| RepairNotApplicable | AmbiguousTarget | CriticalMountMissing | UnsupportedMountMissing
| UnsupportedEntryKind | UnsupportedFilesystem.

Record DisableMissingUuidPreview := mkPreview {
  selected_uuid : string;
  selected_mountpoint : string;
  source_line : nat;
  proposed_fstab : bytes;
  before_sha256 : string;
  observed_uuid_set_sha256 : string;
  after_sha256 : string;
  diff_sha256 : string;
}.

(** ** Parsing *)

Definition decode_field (field : bytes) : result PreviewError bytes := decode_octal MalformedFstab field.

(** One line of [parse_fstab]: its checks and its fields. *)
Definition fstab_line (content : bytes) : result PreviewError (option (list bytes)) :=
  reject ((MAX_FSTAB_LINE_BYTES <? blen content)%Z || bool_decide (x0d ∈ content)) with MalformedFstab;
  if inactive content then Ok None
  else
    fields ← field_loop MalformedFstab (λ _, false) decode_field 6 (S (length content)) content [];
    reject (negb ((4 <=? length fields) && (length fields <=? 6))) with MalformedFstab;
    reject (existsb (λ numeric, numeric_field numeric == None) (drop 4 fields)) with MalformedFstab;
    Ok (Some fields).

Definition parse_fstab (document : bytes) : result PreviewError (list ParsedLine) :=
  reject ((document == []) || (MAX_FSTAB_BYTES <? blen document)%Z) with InvalidFstabSize;
  reject (bool_decide (x00 ∈ document) || negb (utf8_valid document)) with MalformedFstab;
  parse_loop MalformedFstab fstab_line (S (length document)) document 0 1.

(** ** Observed UUIDs *)

Definition normalize_uuid (value : bytes) : result PreviewError string :=
  reject ((value == []) || (MAX_UUID_BYTES <? blen value)%Z || (head value == Some x2d)
          || (last value == Some x2d)
          || negb (forallb (λ b, is_ascii_hexdigit b || (b == x2d)) value)) with MalformedFstab;
  text ← ok_or (from_utf8 value) MalformedFstab;
  Ok (to_ascii_lowercase text).

(** The loop over the observed set, with the normalized set so far. *)
Fixpoint normalize_loop (uuids normalized : list string) : result PreviewError (list string) :=
  match uuids with
  | [] => Ok normalized
  | uuid :: uuids =>
      value ← map_err (λ _, InvalidObservedUuid) (normalize_uuid (as_bytes uuid));
      normalized ← ok_or (set_insert value normalized) AmbiguousObservedUuid;
      normalize_loop uuids normalized
  end.
Definition normalize_observed_uuids (observed_uuids : list string) : result PreviewError (list string) :=
  reject (MAX_OBSERVED_UUIDS <? Z.of_nat (length observed_uuids))%Z with TooManyObservedUuids;
  normalize_loop observed_uuids [].

(** ** Digests *)

Definition uuid_set_preimage (observed : list string) : bytes :=
  OBSERVED_UUID_SET_HASH_DOMAIN ++ to_be_bytes (Z.of_nat (length observed)) ++ frames (as_bytes <$> observed).
Definition diff_preimage (fstab : bytes) (target : ParsedLine) : bytes :=
  let original := line_bytes target fstab in
  let replacement := COMMENT_PREFIX ++ original in
  DIFF_HASH_DOMAIN ++ to_be_bytes (Z.of_nat target.(start)) ++ to_be_bytes (Z.of_nat target.(content_end))
  ++ frames [original; replacement].

(** ** Entries *)

Definition options (field : bytes) : result PreviewError (list string) :=
  raw ← ok_or (from_utf8 field) MalformedFstab;
  let values := split x2c raw in
  reject (existsb is_empty values) with MalformedFstab;
  Ok values.

Definition at_or_below (path root : string) : bool :=
  (path == root)
  || match strip_prefix root path with Some suffix => starts_with "/" suffix | None => false end.

Definition is_critical_mount (mountpoint filesystem : string) : bool :=
  (mountpoint == "/"%string) || (filesystem == "swap"%string) || (mountpoint == "swap"%string)
  || existsb (at_or_below mountpoint) ["/boot"; "/etc"; "/usr"; "/var"; "/home"]%string.

Definition is_allowed_data_mount (mountpoint : string) : bool :=
  existsb (λ prefix,
    match strip_prefix prefix mountpoint with
    | Some suffix =>
        negb (is_empty suffix)
        && forallb (λ component, negb (is_empty component) && (component != "."%string)
                                 && (component != ".."%string)) (split x2f suffix)
    | None => false
    end) ["/mnt/"; "/media/"; "/srv/"]%string.

Definition is_network_filesystem (filesystem : string) : bool :=
  bool_decide (filesystem ∈ ["nfs"; "nfs4"; "cifs"; "smb3"; "9p"; "ceph"; "glusterfs"; "sshfs"; "fuse.sshfs";
                             "davfs"; "davfs2"; "afs"]%string).

Definition is_optional (option : string) : bool := bool_decide (option ∈ ["nofail"; "noauto"]%string).

(** The body of the selection loop: [None] to continue, the UUID and the mount
    point to push a candidate. An entry has at least four fields. *)
Definition entry_candidate (observed : list string) (fields : list bytes) :
    result PreviewError (option (string * string)) :=
  match fields with
  | source :: mount :: fstype :: opts :: _ =>
      match strip_prefix_bytes (as_bytes "UUID=") source with
      | None => Ok None
      | Some raw_uuid =>
          uuid ← normalize_uuid raw_uuid;
          if bool_decide (uuid ∈ observed) then Ok None
          else
            entry_options ← options opts;
            if existsb is_optional entry_options then Ok None
            else
              mountpoint ← ok_or (from_utf8 mount) MalformedFstab;
              filesystem ← ok_or (from_utf8 fstype) MalformedFstab;
              reject (is_critical_mount mountpoint filesystem) with CriticalMountMissing;
              reject (existsb (λ option, bool_decide (option ∈ ["bind"; "rbind"; "_netdev"]%string)) entry_options
                      || is_network_filesystem filesystem) with UnsupportedEntryKind;
              reject (filesystem != "ext4"%string) with UnsupportedFilesystem;
              reject (negb (is_allowed_data_mount mountpoint)) with UnsupportedMountMissing;
              Ok (Some (uuid, mountpoint))
      end
  | _ => Err MalformedFstab
  end.

Definition line_candidate (observed : list string) (fields : option (list bytes)) :
    result PreviewError (option (string * string)) :=
  match fields with None => Ok None | Some fields => entry_candidate observed fields end.

Section preview.
Context `{sha : Sha256}.

Definition preview_disable_missing_uuid (fstab : bytes) (observed_uuids : list string) :
    result PreviewError DisableMissingUuidPreview :=
  observed ← normalize_observed_uuids observed_uuids;
  parsed ← parse_fstab fstab;
  candidates ← select_lines (line_candidate observed) parsed;
  match candidates with
  | [] => Err RepairNotApplicable
  | [(target, (uuid, mountpoint))] =>
      let proposed := commented COMMENT_PREFIX target fstab in
      _ ← parse_fstab proposed;
      Ok (mkPreview uuid mountpoint target.(line_number) proposed (sha256_tagged fstab)
            (sha256_tagged (uuid_set_preimage observed)) (sha256_tagged proposed)
            (sha256_tagged (diff_preimage fstab target)))
  | _ => Err AmbiguousTarget
  end.
End preview.
