(* ===== verification/FstabPreviewProperties.v ===== *)
(** * FstabPreviewProperties: what the fstab edit does

    The preview is characterized by the lines of the document: it exists exactly
    when one line is a missing mandatory data mount and no other line stands in
    the way, and it changes that line alone. Applying it leaves nothing to do. *)

From Stdlib.Strings Require Import Byte.
From Stdlib Require String Ascii.
From S2P Require Import Prelude Bytes Ordered Text Crypto Signatures ConfigLines ConfigEdit FstabPreview.

(** ** Lines and documents *)

Lemma parse_fstab_Ok d parsed :
  parse_fstab d = Ok parsed ↔ document MAX_FSTAB_BYTES d ∧ number_lines fstab_line 0 1 (text_lines d) = Ok parsed.
Proof.
  unfold parse_fstab, document. rewrite !reject_Ok, !orb_false_iff, bool_decide_eq_false, Z.ltb_ge,
    bool_decide_eq_false, negb_false_iff.
  pose proof (parse_loop_lines MalformedFstab fstab_line (S (length d)) [] d 1 ltac:(lia)) as Hl. cbn [app length] in Hl.
  rewrite Hl. tauto.
Qed.

Lemma fstab_mark : comment_mark COMMENT_PREFIX.
Proof. split; [done|repeat constructor..|]. by apply (bool_decide_unpack _). Qed.

Lemma marked_fstab_line line fs r :
  fstab_line line = Ok fs →
  fstab_line (COMMENT_PREFIX ++ line) = Ok r ↔
  r = None ∧ (blen COMMENT_PREFIX + blen line ≤ MAX_FSTAB_LINE_BYTES)%Z.
Proof.
  intros Hf. assert (x0d ∉ line) as Hr.
  { unfold fstab_line in Hf. apply reject_Ok in Hf as [Hf _]. apply orb_false_iff in Hf as [_ Hf]. by guards. }
  unfold fstab_line at 1. rewrite reject_Ok, orb_false_iff, bool_decide_eq_false, Z.ltb_ge, blen_app.
  assert (inactive (COMMENT_PREFIX ++ line) = true) as -> by apply inactive_comment.
  rewrite elem_of_app. assert (x0d ∉ COMMENT_PREFIX) by (by apply (bool_decide_unpack _)).
  split; [intros [[Hl _] H']; injection H' as <-|intros [-> Hl]]; tauto.
Qed.

(** What an active line is: four to six tokens, decoded, with numbers at the end. *)
Lemma fstab_line_tokens line fs :
  fstab_line line = Ok (Some fs) ↔
  (blen line ≤ MAX_FSTAB_LINE_BYTES)%Z ∧ (x0d ∉ line) ∧ inactive line = false ∧
  decode_tokens MalformedFstab (λ _, false) decode_field 6 [] (tokens line) = Ok fs ∧
  4 ≤ length fs ≤ 6 ∧ Forall (λ n, is_Some (numeric_field n)) (drop 4 fs).
Proof.
  unfold fstab_line. rewrite reject_Ok, orb_false_iff, bool_decide_eq_false, Z.ltb_ge, field_loop_tokens by lia.
  destruct (inactive line); [naive_solver|].
  rewrite result_bind_Ok. setoid_rewrite reject_Ok. setoid_rewrite reject_Ok. setoid_rewrite negb_false_iff.
  setoid_rewrite andb_true_iff. setoid_rewrite Nat.leb_le. setoid_rewrite existsb_false.
  assert (∀ fs' : list bytes, Forall (λ n, (numeric_field n == None) = false) (drop 4 fs') ↔
    Forall (λ n, is_Some (numeric_field n)) (drop 4 fs')) as Hnum.
  { intros fs'. apply Forall_proper; [|done]. intros n. rewrite bool_decide_eq_false. by rewrite not_eq_None_Some. }
  setoid_rewrite Hnum. naive_solver.
Qed.

(** ** Missing mounts *)

(** A mandatory local ext4 mount below a data directory whose device was not seen. *)
Record missing_mount (observed : list string) (fs : list bytes) (uuid mountpoint : string) : Prop := {
  mm_fields : ∃ raw mount fstype opts rest values,
    fs = (as_bytes "UUID=" ++ raw) :: mount :: fstype :: opts :: rest ∧
    normalize_uuid raw = Ok uuid ∧ from_utf8 mount = Some mountpoint ∧ from_utf8 fstype = Some "ext4"%string ∧
    options opts = Ok values ∧ Forall (λ o, o ∉ ["nofail"; "noauto"; "bind"; "rbind"; "_netdev"]%string) values;
  mm_absent : uuid ∉ observed;
  mm_data : is_allowed_data_mount mountpoint = true;
}.

Lemma data_mount_not_critical mp : is_allowed_data_mount mp = true → is_critical_mount mp "ext4" = false.
Proof.
  unfold is_allowed_data_mount. rewrite existsb_exists. intros (prefix & Hin & H).
  destruct (strip_prefix prefix mp) as [suffix|] eqn:Hs; [|done]. apply strip_prefix_Some in Hs as ->. clear H.
  simpl in Hin. destruct Hin as [<-|[<-|[<-|[]]]]; reflexivity.
Qed.

Lemma mandatory_mount_options values :
  existsb is_optional values = false ∧
  existsb (λ o, bool_decide (o ∈ ["bind"; "rbind"; "_netdev"]%string)) values = false ↔
  Forall (λ o, o ∉ ["nofail"; "noauto"; "bind"; "rbind"; "_netdev"]%string) values.
Proof.
  rewrite !existsb_false, <-Forall_and. apply Forall_proper; [|done]. intros o. unfold is_optional.
  rewrite !bool_decide_eq_false, !elem_of_cons, elem_of_nil. naive_solver.
Qed.

Lemma entry_candidate_Some observed fs uuid mp :
  entry_candidate observed fs = Ok (Some (uuid, mp)) ↔ missing_mount observed fs uuid mp.
Proof.
  split.
  - destruct fs as [|source [|mount [|fstype [|opts rest]]]]; try done. cbn [entry_candidate].
    destruct (strip_prefix_bytes _ source) as [raw|] eqn:Hs; [|done]. apply strip_prefix_bytes_Some in Hs as ->.
    intros H. apply result_bind_Ok in H as (u & Hu & H). case_bool_decide as Hobs; [done|].
    apply result_bind_Ok in H as (values & Hv & H). destruct (existsb is_optional values) eqn:Ho; [done|].
    apply result_bind_Ok in H as (m & Hm & H). apply result_bind_Ok in H as (ft & Hft & H).
    apply reject_Ok in H as [_ H]. apply reject_Ok in H as [Hk H]. apply reject_Ok in H as [He H].
    apply reject_Ok in H as [Hd H]. injection H as -> ->. apply ok_or_Ok in Hm, Hft.
    apply orb_false_iff in Hk as [Hk _]. apply negb_false_iff in Hd. guards. subst ft.
    split; [|done..]. exists raw, mount, fstype, opts, rest, values. split_and!; try done. by apply mandatory_mount_options.
  - intros [(raw & mount & fstype & opts & rest & values & -> & Hu & Hm & Hft & Hv & Ho) Habs Hdata].
    apply mandatory_mount_options in Ho as [Ho1 Ho2]. cbn [entry_candidate].
    rewrite (proj2 (strip_prefix_bytes_Some _ _ _) eq_refl), Hu. cbn [mbind result_bind].
    rewrite bool_decide_false by done. rewrite Hv. cbn [mbind result_bind]. rewrite Ho1, Hm, Hft. cbn [ok_or mbind result_bind].
    by rewrite (data_mount_not_critical _ Hdata), Ho2, Hdata.
Qed.

Section claims.
Context `{sha : Sha256}.

(** The preview of an edit of [line], [before] complete lines in. *)
Definition edit_of (observed : list string) (before : list bytes) (line post : bytes) (uuid mountpoint : string) :
    DisableMissingUuidPreview :=
  let fstab := unlines before ++ line ++ post in
  let proposed := unlines before ++ COMMENT_PREFIX ++ line ++ post in
  let offset := length (unlines before) in
  mkPreview uuid mountpoint (S (length before)) proposed (sha256_tagged fstab)
    (sha256_tagged (uuid_set_preimage observed)) (sha256_tagged proposed)
    (sha256_tagged (DIFF_HASH_DOMAIN ++ to_be_bytes (Z.of_nat offset) ++ to_be_bytes (Z.of_nat (offset + length line))
      ++ frames [line; COMMENT_PREFIX ++ line])).

(** When [line] is the one to disable. *)
Definition fstab_target (observed : list string) : bytes → list bytes → bytes → list bytes → bytes → string * string → Prop :=
  target fstab_line (line_candidate observed) MAX_FSTAB_BYTES MAX_FSTAB_LINE_BYTES COMMENT_PREFIX.

Lemma fstab_edit_exact observed d t c :
  (∃ parsed parsed', parse_fstab d = Ok parsed ∧ select_lines (line_candidate observed) parsed = Ok [(t, c)] ∧
    parse_fstab (commented COMMENT_PREFIX t d) = Ok parsed') ↔
  ∃ before line after post fs, fstab_target observed d before line after post c ∧ fstab_line line = Ok fs ∧
    t = mkLine (length (unlines before)) (length (unlines before) + length line) (S (length before)) fs.
Proof. apply edit_exact; [apply parse_fstab_Ok|apply fstab_mark|apply marked_fstab_line]. Qed.

Lemma preview_edit observed before line post n fs uuid mp :
  let fstab := unlines before ++ line ++ post in
  let t := mkLine (length (unlines before)) (length (unlines before) + length line) n fs in
  mkPreview uuid mp (S (length before)) (commented COMMENT_PREFIX t fstab) (sha256_tagged fstab)
    (sha256_tagged (uuid_set_preimage observed)) (sha256_tagged (commented COMMENT_PREFIX t fstab))
    (sha256_tagged (diff_preimage fstab t)) = edit_of observed before line post uuid mp.
Proof.
  intros fstab t. subst fstab t. unfold edit_of, diff_preimage. cbn [start content_end].
  destruct (commented_line COMMENT_PREFIX (unlines before) line post n fs) as [-> ->]. done.
Qed.

Lemma preview_Ok fstab observed_uuids p :
  preview_disable_missing_uuid fstab observed_uuids = Ok p ↔
  ∃ observed before line after post uuid mountpoint,
    normalize_observed_uuids observed_uuids = Ok observed ∧
    fstab_target observed fstab before line after post (uuid, mountpoint) ∧
    p = edit_of observed before line post uuid mountpoint.
Proof.
  unfold preview_disable_missing_uuid. split.
  - intros H. apply result_bind_Ok in H as (obs & Hobs & H). apply result_bind_Ok in H as (parsed & Hp & H).
    apply result_bind_Ok in H as (cs & Hcs & H). destruct cs as [|[t [uuid mp]] [|? ?]]; [done| |done].
    apply result_bind_Ok in H as (parsed' & Hp' & H). apply Ok_inj_1 in H as <-.
    destruct (proj1 (fstab_edit_exact obs fstab t (uuid, mp))) as (before & line & after & post & fs & Ht & _ & ->); [by eauto|].
    exists obs, before, line, after, post, uuid, mp. split_and!; [done..|]. rewrite (tg_split _ _ _ _ _ _ _ _ _ _ _ Ht).
    apply preview_edit.
  - intros (obs & before & line & after & post & uuid & mp & Hobs & Ht & ->). rewrite Hobs. cbn [mbind result_bind].
    pose proof (tg_picked _ _ _ _ _ _ _ _ _ _ _ Ht) as (fs & Hf & _).
    set (t := mkLine (length (unlines before)) (length (unlines before) + length line) (S (length before)) fs).
    destruct (proj2 (fstab_edit_exact obs fstab t (uuid, mp))) as (parsed & parsed' & Hp & Hs & Hp'); [by eauto 10|].
    rewrite Hp. cbn [mbind result_bind]. rewrite Hs. cbn [mbind result_bind]. rewrite Hp'. cbn [mbind result_bind line_number].
    rewrite (tg_split _ _ _ _ _ _ _ _ _ _ _ Ht). f_equal. apply preview_edit.
Qed.

(** C20. The fstab repair is exact. A preview exists exactly when the observed
    UUIDs are valid, the file is a well-formed fstab with exactly one mandatory
    local ext4 entry below [/mnt], [/media] or [/srv] whose UUID was not observed,
    every other line is a comment, blank, of another kind of source, present or
    optional, and the edited file keeps the limits. It then proposes the same
    bytes with the comment mark inserted before that line, and names its UUID,
    mount point, line number and the digests of the file before and after, of the
    observed set and of the edit. *)
Theorem fstab_preview_exact fstab observed_uuids p :
  preview_disable_missing_uuid fstab observed_uuids = Ok p ↔
  ∃ observed before line after post fs uuid mountpoint,
    normalize_observed_uuids observed_uuids = Ok observed ∧
    fstab_target observed fstab before line after post (uuid, mountpoint) ∧
    fstab_line line = Ok (Some fs) ∧ missing_mount observed fs uuid mountpoint ∧
    p = edit_of observed before line post uuid mountpoint.
Proof.
  rewrite preview_Ok. split.
  - intros (obs & before & line & after & post & uuid & mp & Hobs & Ht & ->).
    pose proof (tg_picked _ _ _ _ _ _ _ _ _ _ _ Ht) as ([fs|] & Hf & Hc); [|done].
    exists obs, before, line, after, post, fs, uuid, mp. split_and!; [done..| |done]. by apply entry_candidate_Some.
  - intros (obs & before & line & after & post & fs & uuid & mp & Hobs & Ht & _ & _ & ->). eauto 10.
Qed.

(** C21. The repair converges and touches nothing else. After the proposed edit
    the same evidence gives no further repair; the entries of the new file are
    those of the old one without the one that was missing; and deleting the
    inserted comment mark, at the start of the line the preview names, gives the
    old file back. *)
Theorem fstab_repair_converges fstab observed_uuids p :
  preview_disable_missing_uuid fstab observed_uuids = Ok p →
  preview_disable_missing_uuid p.(proposed_fstab) observed_uuids = Err RepairNotApplicable ∧
  (∃ observed before entry after, normalize_observed_uuids observed_uuids = Ok observed ∧
    entries fstab_line fstab = before ++ entry :: after ∧ entries fstab_line p.(proposed_fstab) = before ++ after ∧
    missing_mount observed entry p.(selected_uuid) p.(selected_mountpoint)) ∧
  (∃ before rest, fstab = unlines before ++ rest ∧ p.(proposed_fstab) = unlines before ++ COMMENT_PREFIX ++ rest ∧
    p.(source_line) = S (length before)).
Proof.
  intros (obs & before & line & after & post & uuid & mp & Hobs & Ht & ->)%preview_Ok.
  destruct (edit_converges _ _ _ _ _ parse_fstab parse_fstab_Ok fstab_mark marked_fstab_line eq_refl _ _ _ _ _ _ Ht)
    as [(parsed & Hp & Hs) (a & entry & b & He & He' & _ & Hc)].
  unfold edit_of. cbn [proposed_fstab selected_uuid selected_mountpoint source_line]. split_and!.
  - unfold preview_disable_missing_uuid. rewrite Hobs. cbn [mbind result_bind]. rewrite Hp. cbn [mbind result_bind]. by rewrite Hs.
  - exists obs, a, entry, b. split_and!; [done..|]. by apply entry_candidate_Some.
  - exists before, (line ++ post). by rewrite <-(tg_split _ _ _ _ _ _ _ _ _ _ _ Ht).
Qed.

(** ** Digests *)

Lemma normalize_uuid_len value s : normalize_uuid value = Ok s → (len s ≤ MAX_UUID_BYTES)%Z.
Proof.
  unfold normalize_uuid. intros H. apply reject_Ok in H as [H1 H]. apply result_bind_Ok in H as (t & Ht & H).
  apply Ok_inj_1 in H as <-. apply ok_or_Ok, from_utf8_len in Ht. rewrite to_ascii_lowercase_len, Ht.
  repeat (apply orb_false_iff in H1 as [H1 ?]). by apply Z.ltb_ge.
Qed.

Lemma normalize_loop_spec uuids acc s :
  normalize_loop uuids acc = Ok s → Forall (λ u, (len u ≤ MAX_UUID_BYTES)%Z) acc →
  Forall (λ u, (len u ≤ MAX_UUID_BYTES)%Z) s ∧ length s = length acc + length uuids.
Proof.
  revert acc. induction uuids as [|u uuids IH]; intros acc H Hacc; simpl in H.
  - apply Ok_inj_1 in H as <-. simpl. split; [done|lia].
  - apply result_bind_Ok in H as (v & Hv & H). apply result_bind_Ok in H as (acc' & Ha & H).
    apply map_err_Ok, normalize_uuid_len in Hv. apply ok_or_Ok in Ha.
    destruct (set_insert_Forall _ _ _ _ Ha Hv Hacc) as [Hf Hl]. destruct (IH _ H Hf) as [Hs Hl']. split; [done|simpl; lia].
Qed.

Lemma uuid_set_preimage_inj uuids uuids' s s' :
  normalize_observed_uuids uuids = Ok s → normalize_observed_uuids uuids' = Ok s' →
  uuid_set_preimage s = uuid_set_preimage s' → s = s'.
Proof.
  assert (∀ uuids s, normalize_observed_uuids uuids = Ok s →
    (Z.of_nat (length s) ≤ 4096)%Z ∧ Forall (λ u, (len u ≤ 4096)%Z) s) as Hbound.
  { clear. intros uuids s H. apply reject_Ok in H as [Hn H]. apply Z.ltb_ge in Hn.
    apply normalize_loop_spec in H as [Hf Hl]; [|done]. unfold MAX_OBSERVED_UUIDS, MAX_UUID_BYTES in *. simpl in Hl.
    split; [lia|]. eapply Forall_impl; [exact Hf|]. simpl. lia. }
  intros [Hs Hf]%Hbound [Hs' Hf']%Hbound. by apply (uuid_frames_inj _ 4096).
Qed.

(** The digests of a preview pin the edit: two previews with the same digest of
    the old file and of the observed set are the same preview of the same file,
    or the files or the hashed sets are a collision. *)
Lemma preview_digests_pin fstab fstab' uuids uuids' p p' :
  preview_disable_missing_uuid fstab uuids = Ok p → preview_disable_missing_uuid fstab' uuids' = Ok p' →
  p.(before_sha256) = p'.(before_sha256) → p.(observed_uuid_set_sha256) = p'.(observed_uuid_set_sha256) →
  (fstab = fstab' ∧ p = p') ∨ collision fstab fstab' ∨
  ∃ s s', normalize_observed_uuids uuids = Ok s ∧ normalize_observed_uuids uuids' = Ok s' ∧
    collision (uuid_set_preimage s) (uuid_set_preimage s').
Proof.
  intros Hp Hp' Hb Ho. assert (∀ fstab uuids p, preview_disable_missing_uuid fstab uuids = Ok p →
    p.(before_sha256) = sha256_tagged fstab ∧ ∃ s, normalize_observed_uuids uuids = Ok s ∧
      p.(observed_uuid_set_sha256) = sha256_tagged (uuid_set_preimage s)) as Hd.
  { clear. intros fstab uuids p (s & before & line & after & post & uuid & mp & Hs & Ht & ->)%preview_Ok.
    rewrite (tg_split _ _ _ _ _ _ _ _ _ _ _ Ht). eauto. }
  destruct (Hd _ _ _ Hp) as (Hb1 & s & Hs & Ho1), (Hd _ _ _ Hp') as (Hb2 & s' & Hs' & Ho2).
  rewrite Hb1, Hb2 in Hb. rewrite Ho1, Ho2 in Ho.
  apply sha256_tagged_inj in Hb as [<-|]; [|by right; left].
  apply sha256_tagged_inj in Ho as [Ho|]; [|by right; right; eauto]. left. split; [done|].
  pose proof (uuid_set_preimage_inj _ _ _ _ Hs Hs' Ho) as <-.
  unfold preview_disable_missing_uuid in Hp, Hp'. rewrite Hs in Hp. rewrite Hs' in Hp'. rewrite Hp in Hp'. by apply Ok_inj_1 in Hp'.
Qed.
End claims.

(** ** A file with one missing disk *)

Module FstabDemo.
Import SignatureDemo.
#[local] Existing Instances light_sha256 light_sha256_laws.

Definition before_lines : list bytes :=
  as_bytes <$> ["# /etc/fstab"; "UUID=AAAA-bbbb / ext4 defaults 0 1"; ""]%string.
Definition missing_line : bytes := as_bytes "UUID=1234-ABCD /mnt/old\040disk ext4 rw,relatime 0 2".
Definition rest_of_file : bytes := x0a :: as_bytes "UUID=9999 /srv/spare ext4 nofail 0 2".
Definition demo_fstab : bytes := unlines before_lines ++ missing_line ++ rest_of_file.
Definition demo_observed : list string := ["aaaa-bbbb"%string].
Definition demo_preview : DisableMissingUuidPreview :=
  edit_of demo_observed before_lines missing_line rest_of_file "1234-abcd" "/mnt/old disk".

Lemma demo_previewed : preview_disable_missing_uuid demo_fstab demo_observed = Ok demo_preview.
Proof. by vm_compute. Qed.

Lemma fstab_repair_converges_witness :
  preview_disable_missing_uuid demo_preview.(proposed_fstab) demo_observed = Err RepairNotApplicable ∧
  demo_preview.(source_line) = 4.
Proof. split; [exact (proj1 (fstab_repair_converges _ _ _ demo_previewed))|reflexivity]. Defined.

End FstabDemo.
