(* ===== verification/CrypttabPreview.v ===== *)
(** * CrypttabPreview: the edit that disables a missing encrypted volume

    src/packs/linux/src/rescue_crypttab_candidate.rs - from the bytes of a
    crypttab and an fstab and the UUIDs that were observed, the one edit that
    comments out the one mandatory mapping whose device is absent and that no
    mandatory fstab entry needs. *)

From Stdlib.Strings Require Import Byte.
From Stdlib Require String Ascii.
From S2P Require Import Prelude Bytes Ordered Text Crypto ConfigLines.

Definition MAX_DOCUMENT_BYTES : Z := 1024 * 1024.
Definition MAX_LINE_BYTES : Z := 16 * 1024.
Definition MAX_FIELDS : nat := 6.
Definition MAX_OBSERVED_UUIDS : Z := 4096.
Definition MAX_UUID_BYTES : Z := 128.
Definition MAX_NAME_BYTES : Z := 128.
Definition COMMENT_PREFIX : bytes := as_bytes "# KernAid Rescue disabled missing crypttab UUID: ".
Definition UUID_SET_DOMAIN : bytes := domain "kernaid:linux.crypttab.disable-missing-uuid.v1:uuid-set:v1".
Definition FSTAB_CONSUMER_DOMAIN : bytes :=
  domain "kernaid:linux.crypttab.disable-missing-uuid.v1:fstab-consumers:v1".
Definition DIFF_DOMAIN : bytes := domain "kernaid:linux.crypttab.disable-missing-uuid.v1:diff:v1".

Inductive CrypttabPreviewError :=
| InvalidCrypttabSize | InvalidFstabSize | MalformedCrypttab | MalformedFstab | TooManyObservedUuids
| InvalidObservedUuid | AmbiguousObservedUuid | RepairNotApplicable | AmbiguousTarget | CriticalMapping
| UnsupportedKeySource | UnsupportedMapping | MandatoryFstabConsumer.

Record DisableMissingCrypttabUuidPreview := mkCrypttabPreview {
  source_line : nat;
  proposed_crypttab : bytes;
  before_sha256 : string;
  observed_uuid_set_sha256 : string;
  fstab_consumer_set_sha256 : string;
  after_sha256 : string;
  diff_sha256 : string;
}.

(** ** Parsing *)

(** One line of [parse_lines]. *)
Definition config_line (malformed : CrypttabPreviewError) (content : bytes) :
    result CrypttabPreviewError (option (list bytes)) :=
  reject ((MAX_LINE_BYTES <? blen content)%Z || bool_decide (x0d ∈ content)
          || existsb (λ b, (byte_val b <? 32)%Z && (b != x09)) content) with malformed;
  if inactive content then Ok None
  else
    fields ← field_loop malformed (λ b, b == x23) Ok MAX_FIELDS (S (length content)) content [];
    Ok (Some fields).

Definition parse_lines (document : bytes) (empty_allowed : bool) (malformed invalid_size : CrypttabPreviewError) :
    result CrypttabPreviewError (list ParsedLine) :=
  reject ((MAX_DOCUMENT_BYTES <? blen document)%Z || (negb empty_allowed && (document == []))) with invalid_size;
  reject (bool_decide (x00 ∈ document) || negb (utf8_valid document)) with malformed;
  parse_loop malformed (config_line malformed) (S (length document)) document 0 1.

(** ** Observed UUIDs *)

Definition normalize_uuid (value : bytes) : option string :=
  if (value == []) || (MAX_UUID_BYTES <? blen value)%Z || (head value == Some x2d) || (last value == Some x2d)
     || negb (forallb (λ b, is_ascii_hexdigit b || (b == x2d)) value)
  then None
  else to_ascii_lowercase <$> from_utf8 value.

Fixpoint normalize_loop (values normalized : list string) : result CrypttabPreviewError (list string) :=
  match values with
  | [] => Ok normalized
  | value :: values =>
      uuid ← ok_or (normalize_uuid (as_bytes value)) InvalidObservedUuid;
      normalized ← ok_or (set_insert uuid normalized) AmbiguousObservedUuid;
      normalize_loop values normalized
  end.
Definition normalize_observed (values : list string) : result CrypttabPreviewError (list string) :=
  reject (MAX_OBSERVED_UUIDS <? Z.of_nat (length values))%Z with TooManyObservedUuids;
  normalize_loop values [].

(** ** Mappings *)

Definition valid_mapper_name (value : bytes) : bool :=
  (value != []) && (blen value <=? MAX_NAME_BYTES)%Z && (head value != Some x2d)
  && forallb (λ b, is_ascii_alphanumeric b || bool_decide (b ∈ [x5f; x2e; x2b; x2d])) value.

Definition parse_options (value : option bytes) : option (list string) :=
  match value with
  | None => Some []
  | Some value =>
      text ← from_utf8 value;
      if (text == "none"%string) || (text == "-"%string) then Some []
      else let options := split x2c text in if existsb is_empty options then None else Some options
  end.

Definition has_critical_option (options : list string) : bool :=
  existsb (λ option,
    bool_decide (option ∈ ["initramfs"; "x-initrd.attach"; "swap"; "resume"; "_netdev"]%string)
    || starts_with "keyscript=" option) options.

(** The name is ASCII here, so that [from_utf8_lossy] changes nothing. *)
Definition critical_name (name : bytes) : bool :=
  let lower := to_ascii_lowercase (String.string_of_list_byte name) in
  bool_decide (lower ∈ ["root"; "cryptroot"; "swap"; "cryptswap"; "resume"]%string)
  || starts_with "cryptroot-" lower.

Definition is_optional (option : string) : bool := bool_decide (option ∈ ["nofail"; "noauto"]%string).

Definition has_unsupported_option (options : list string) : bool :=
  existsb (λ option,
    starts_with "keyfile-" option || starts_with "header=" option || starts_with "pkcs11-uri=" option
    || starts_with "fido2-device=" option || starts_with "tpm2-device=" option) options.

(** ** Consumers in fstab *)

Definition decode_fstab_field (field : bytes) : result CrypttabPreviewError bytes := decode_octal MalformedFstab field.

Definition mapper_source_matches (source name : bytes) : bool :=
  (source == as_bytes "/dev/mapper/" ++ name) || (source == as_bytes "/dev/disk/by-id/dm-name-" ++ name).

Fixpoint decode_fields (raw : list bytes) : result CrypttabPreviewError (list bytes) :=
  match raw with
  | [] => Ok []
  | field :: raw => decoded ← decode_fstab_field field; rest ← decode_fields raw; Ok (decoded :: rest)
  end.

(** The body of the loop of [fstab_has_mandatory_consumer]: whether this line is one. *)
Definition mandatory_consumer (name : bytes) (fields : option (list bytes)) : result CrypttabPreviewError bool :=
  match fields with
  | None => Ok false
  | Some raw =>
      reject (negb ((4 <=? length raw) && (length raw <=? 6))) with MalformedFstab;
      fields ← decode_fields raw;
      reject (existsb (λ numeric, numeric_field numeric == None) (drop 4 fields)) with MalformedFstab;
      match fields with
      | source :: _ :: _ :: opts :: _ =>
          if negb (mapper_source_matches source name) then Ok false
          else
            text ← ok_or (from_utf8 opts) MalformedFstab;
            let options := split x2c text in
            reject (existsb is_empty options) with MalformedFstab;
            Ok (negb (existsb is_optional options))
      | _ => Err MalformedFstab
      end
  end.

Fixpoint consumer_loop (name : bytes) (lines : list ParsedLine) : result CrypttabPreviewError bool :=
  match lines with
  | [] => Ok false
  | line :: lines =>
      consumer ← mandatory_consumer name line.(fields);
      if consumer : bool then Ok true else consumer_loop name lines
  end.
Definition fstab_has_mandatory_consumer (fstab name : bytes) : result CrypttabPreviewError bool :=
  lines ← parse_lines fstab true MalformedFstab InvalidFstabSize;
  consumer_loop name lines.

(** ** Digests *)

Definition uuid_set_preimage (values : list string) : bytes :=
  UUID_SET_DOMAIN ++ to_be_bytes (Z.of_nat (length values)) ++ frames (as_bytes <$> values).
Definition fstab_consumer_preimage (fstab name : bytes) : bytes := FSTAB_CONSUMER_DOMAIN ++ frames [fstab; name].
Definition diff_preimage (document : bytes) (target : ParsedLine) : bytes :=
  let original := line_bytes target document in
  let replacement := COMMENT_PREFIX ++ original in
  DIFF_DOMAIN ++ to_be_bytes (Z.of_nat target.(start)) ++ to_be_bytes (Z.of_nat target.(content_end))
  ++ frames [original; replacement].

(** ** Selection *)

(** The body of the selection loop: [None] to continue, the mapper name to push a
    candidate. *)
Definition mapping_candidate (observed : list string) (fstab : bytes) (fields : option (list bytes)) :
    result CrypttabPreviewError (option bytes) :=
  match fields with
  | None => Ok None
  | Some fields =>
      reject (negb ((2 <=? length fields) && (length fields <=? 4))) with MalformedCrypttab;
      match fields with
      | name :: source :: more =>
          reject (negb (valid_mapper_name name)) with MalformedCrypttab;
          match strip_prefix_bytes (as_bytes "UUID=") source with
          | None => Ok None
          | Some raw_uuid =>
              uuid ← ok_or (normalize_uuid raw_uuid) MalformedCrypttab;
              if bool_decide (uuid ∈ observed) then Ok None
              else
                reject match more !! 0 with
                       | Some key_source => negb (bool_decide (key_source ∈ [as_bytes "none"; as_bytes "-"]))
                       | None => false
                       end with UnsupportedKeySource;
                options ← ok_or (parse_options (more !! 1)) MalformedCrypttab;
                if existsb is_optional options then Ok None
                else
                  reject (critical_name name || has_critical_option options) with CriticalMapping;
                  reject (has_unsupported_option options) with UnsupportedMapping;
                  consumer ← fstab_has_mandatory_consumer fstab name;
                  reject (consumer : bool) with MandatoryFstabConsumer;
                  Ok (Some name)
          end
      | _ => Err MalformedCrypttab
      end
  end.

Section preview.
Context `{sha : Sha256}.

Definition preview_disable_missing_crypttab_uuid (crypttab fstab : bytes) (observed_uuids : list string) :
    result CrypttabPreviewError DisableMissingCrypttabUuidPreview :=
  observed ← normalize_observed observed_uuids;
  lines ← parse_lines crypttab false MalformedCrypttab InvalidCrypttabSize;
  candidates ← select_lines (mapping_candidate observed fstab) lines;
  match candidates with
  | [] => Err RepairNotApplicable
  | [(target, name)] =>
      let proposed := commented COMMENT_PREFIX target crypttab in
      _ ← parse_lines proposed false MalformedCrypttab InvalidCrypttabSize;
      Ok (mkCrypttabPreview target.(line_number) proposed (sha256_tagged crypttab)
            (sha256_tagged (uuid_set_preimage observed)) (sha256_tagged (fstab_consumer_preimage fstab name))
            (sha256_tagged proposed) (sha256_tagged (diff_preimage crypttab target)))
  | _ => Err AmbiguousTarget
  end.
End preview.
