(* ===== verification/CrypttabPreviewProperties.v ===== *)
(** * CrypttabPreviewProperties: what the crypttab edit does

    As for fstab, with one more duty: a mapping that a mandatory fstab entry
    needs is never disabled. *)

From Stdlib.Strings Require Import Byte.
From Stdlib Require String Ascii.
From S2P Require Import Prelude Bytes Ordered Text Crypto Signatures ConfigLines ConfigEdit CrypttabPreview.

(** ** Lines and documents *)

Lemma parse_lines_Ok d empty_allowed malformed invalid_size parsed :
  parse_lines d empty_allowed malformed invalid_size = Ok parsed ↔
  (document MAX_DOCUMENT_BYTES d ∨ (empty_allowed = true ∧ d = [])) ∧
  number_lines (config_line malformed) 0 1 (text_lines d) = Ok parsed.
Proof.
  unfold parse_lines, document. rewrite !reject_Ok, !orb_false_iff, andb_false_iff, !negb_false_iff, Z.ltb_ge,
    !bool_decide_eq_false.
  pose proof (parse_loop_lines malformed (config_line malformed) (S (length d)) [] d 1 ltac:(lia)) as Hl. cbn [app length] in Hl.
  rewrite Hl. split.
  - intros ([Hlen He] & [Hz Hu] & Hn). split; [|done]. destruct (decide (d = [])) as [->|Hne]; [right|by left].
    by destruct He.
  - intros [[(Hne & Hlen & Hz & Hu)|[-> ->]] Hn]; [by split_and!; try right|].
    split_and!; try done; [by left|apply not_elem_of_nil].
Qed.

Lemma crypttab_document d parsed :
  parse_lines d false MalformedCrypttab InvalidCrypttabSize = Ok parsed ↔
  document MAX_DOCUMENT_BYTES d ∧ number_lines (config_line MalformedCrypttab) 0 1 (text_lines d) = Ok parsed.
Proof. rewrite parse_lines_Ok. naive_solver. Qed.

Lemma crypttab_mark : comment_mark COMMENT_PREFIX.
Proof. split; [done|repeat constructor..|]. by apply (bool_decide_unpack _). Qed.

Lemma marked_crypttab_line malformed line fs r :
  config_line malformed line = Ok fs →
  config_line malformed (COMMENT_PREFIX ++ line) = Ok r ↔
  r = None ∧ (blen COMMENT_PREFIX + blen line ≤ MAX_LINE_BYTES)%Z.
Proof.
  intros Hf. unfold config_line in Hf. apply reject_Ok in Hf as [Hf _]. apply orb_false_iff in Hf as [Hf Hc].
  apply orb_false_iff in Hf as [_ Hr]. guards.
  unfold config_line. rewrite reject_Ok, !orb_false_iff, bool_decide_eq_false, Z.ltb_ge, blen_app, existsb_app, Hc.
  assert (inactive (COMMENT_PREFIX ++ line) = true) as -> by apply inactive_comment.
  rewrite elem_of_app. assert (x0d ∉ COMMENT_PREFIX) by (by apply (bool_decide_unpack _)).
  assert (existsb (λ b, (byte_val b <? 32)%Z && (b != x09)) COMMENT_PREFIX = false) as -> by done.
  split; [intros [[[Hl _] _] H']; injection H' as <-|intros [-> Hl]]; tauto.
Qed.

(** ** Consumers *)

(** An fstab entry that needs the mapping [name]: its source is the mapped device
    and it has neither [nofail] nor [noauto]. *)
Definition needs (name : bytes) (fs : list bytes) : Prop :=
  ∃ source mount fstype opts rest text, fs = source :: mount :: fstype :: opts :: rest ∧
    mapper_source_matches source name = true ∧ from_utf8 opts = Some text ∧
    Forall (λ o, o ∉ ["nofail"; "noauto"]%string) (split x2c text).

Lemma consumer_loop_false name lines :
  consumer_loop name lines = Ok false ↔ Forall (λ l, mandatory_consumer name l.(fields) = Ok false) lines.
Proof.
  induction lines as [|l lines IH]; cbn [consumer_loop]; [by split|]. rewrite Forall_cons, <-IH.
  destruct (mandatory_consumer name (fields l)) as [[]|]; cbn [mbind result_bind]; naive_solver.
Qed.

Lemma number_lines_fields {E} (f : bytes → result E (option (list bytes))) s n ls parsed :
  number_lines f s n ls = Ok parsed → Forall2 (λ l p, f l = Ok p.(fields)) ls parsed.
Proof.
  revert s n parsed. induction ls as [|l ls IH]; intros s n parsed H.
  - apply Ok_inj_1 in H as <-. constructor.
  - apply line_cases in H as (fs & p & Hf & Hp & ->). constructor; [done|]. by eapply IH.
Qed.

Lemma not_needed name fs : mandatory_consumer name (Some fs) = Ok false → ∀ decoded, decode_fields fs = Ok decoded → ¬ needs name decoded.
Proof.
  unfold mandatory_consumer. intros H decoded Hd (source & mount & fstype & opts & rest & text & -> & Hm & Ht & Ho).
  apply reject_Ok in H as [_ H]. rewrite Hd in H. cbn [mbind result_bind] in H. apply reject_Ok in H as [_ H].
  rewrite Hm, Ht in H. cbn [negb ok_or mbind result_bind] in H. apply reject_Ok in H as [_ H]. apply Ok_inj_1 in H.
  apply negb_false_iff, existsb_exists in H as (o & Hin & Ho'). apply list_elem_of_In in Hin.
  rewrite Forall_forall in Ho. apply Ho in Hin. by apply bool_decide_eq_true in Ho'.
Qed.

(** No line of [fstab] is an entry that needs the mapping. *)
Definition unused (fstab name : bytes) : Prop :=
  ∀ line raw fs, line ∈ text_lines fstab → config_line MalformedFstab line = Ok (Some raw) →
    decode_fields raw = Ok fs → ¬ needs name fs.

Lemma consumer_false fstab name : fstab_has_mandatory_consumer fstab name = Ok false → unused fstab name.
Proof.
  unfold fstab_has_mandatory_consumer. intros H. apply result_bind_Ok in H as (lines & Hl & H).
  apply parse_lines_Ok in Hl as [_ Hn]. apply number_lines_fields in Hn. apply consumer_loop_false in H.
  intros line raw fs Hin Hline Hd. apply list_elem_of_lookup_1 in Hin as (i & Hi).
  destruct (Forall2_lookup_l _ _ _ _ _ Hn Hi) as (p & Hp & Hf). rewrite Hline in Hf. apply Ok_inj_1 in Hf.
  rewrite Forall_lookup in H. specialize (H _ _ Hp). rewrite <-Hf in H. by eapply not_needed.
Qed.

(** ** Missing mappings *)

(** A mandatory mapping with a passphrase whose device was not seen, that is not
    needed for booting and that fstab can do without. *)
Record missing_mapping (observed : list string) (fstab : bytes) (fs : list bytes) (name : bytes) : Prop := {
  mp_fields : ∃ raw more uuid options,
    fs = name :: (as_bytes "UUID=" ++ raw) :: more ∧ length more ≤ 2 ∧
    normalize_uuid raw = Some uuid ∧ (uuid ∉ observed) ∧
    (∀ key, more !! 0 = Some key → key ∈ [as_bytes "none"; as_bytes "-"]) ∧
    parse_options (more !! 1) = Some options ∧ Forall (λ o, o ∉ ["nofail"; "noauto"]%string) options ∧
    has_critical_option options = false ∧ has_unsupported_option options = false;
  mp_name : valid_mapper_name name = true;
  mp_critical : critical_name name = false;
  mp_unused : fstab_has_mandatory_consumer fstab name = Ok false;
}.

Lemma mandatory_mapping_options options :
  existsb is_optional options = false ↔ Forall (λ o, o ∉ ["nofail"; "noauto"]%string) options.
Proof.
  rewrite existsb_false. apply Forall_proper; [|done]. intros o. unfold is_optional. by rewrite bool_decide_eq_false.
Qed.

Lemma mapping_candidate_Some observed fstab fs name :
  mapping_candidate observed fstab (Some fs) = Ok (Some name) ↔ missing_mapping observed fstab fs name.
Proof.
  split.
  - intros H. unfold mapping_candidate in H. apply reject_Ok in H as [Hl H].
    apply negb_false_iff, andb_true_iff in Hl as [_ Hl]. apply Nat.leb_le in Hl.
    destruct fs as [|n [|source more]]; [done..|]. apply reject_Ok in H as [Hn H]. apply negb_false_iff in Hn.
    destruct (strip_prefix_bytes _ source) as [raw|] eqn:Hs; [|done]. apply strip_prefix_bytes_Some in Hs as ->.
    apply result_bind_Ok in H as (uuid & Hu & H). apply ok_or_Ok in Hu. case_bool_decide as Hobs; [done|].
    apply reject_Ok in H as [Hk H]. apply result_bind_Ok in H as (options & Ho & H). apply ok_or_Ok in Ho.
    destruct (existsb is_optional options) eqn:Hopt; [done|]. apply mandatory_mapping_options in Hopt.
    apply reject_Ok in H as [Hc H]. apply orb_false_iff in Hc as [Hc1 Hc2]. apply reject_Ok in H as [Hun H].
    apply result_bind_Ok in H as (consumer & Hcons & H). apply reject_Ok in H as [-> H]. injection H as ->.
    split; [|done..]. exists raw, more, uuid, options. simpl in Hl. split_and!; try done; [lia|].
    intros key Hkey. rewrite Hkey in Hk. by apply negb_false_iff, bool_decide_eq_true in Hk.
  - intros [(raw & more & uuid & options & -> & Hl & Hu & Hobs & Hk & Ho & Hopt & Hc & Hun) Hn Hcn Hcons].
    unfold mapping_candidate. set (fs := name :: _).
    assert (negb ((2 <=? length fs) && (length fs <=? 4)) = false) as ->.
    { apply negb_false_iff, andb_true_iff. rewrite !Nat.leb_le. subst fs. simpl. lia. }
    subst fs. rewrite Hn. cbn [negb]. rewrite (proj2 (strip_prefix_bytes_Some _ _ _) eq_refl), Hu.
    cbn [ok_or mbind result_bind]. rewrite bool_decide_false by done.
    assert (match more !! 0 with
            | Some key_source => negb (bool_decide (key_source ∈ [as_bytes "none"; as_bytes "-"]))
            | None => false end = false) as ->.
    { destruct (more !! 0) as [key|] eqn:E; [|done]. rewrite bool_decide_true by auto. done. }
    rewrite Ho. cbn [ok_or mbind result_bind]. rewrite (proj2 (mandatory_mapping_options _) Hopt), Hcn, Hc, Hun, Hcons. done.
Qed.

Section claims.
Context `{sha : Sha256}.

Definition mapping_edit (observed : list string) (fstab : bytes) (before : list bytes) (line post name : bytes) :
    DisableMissingCrypttabUuidPreview :=
  let crypttab := unlines before ++ line ++ post in
  let proposed := unlines before ++ COMMENT_PREFIX ++ line ++ post in
  let offset := length (unlines before) in
  mkCrypttabPreview (S (length before)) proposed (sha256_tagged crypttab) (sha256_tagged (uuid_set_preimage observed))
    (sha256_tagged (fstab_consumer_preimage fstab name)) (sha256_tagged proposed)
    (sha256_tagged (DIFF_DOMAIN ++ to_be_bytes (Z.of_nat offset) ++ to_be_bytes (Z.of_nat (offset + length line))
      ++ frames [line; COMMENT_PREFIX ++ line])).

Definition crypttab_target (observed : list string) (fstab : bytes) :
    bytes → list bytes → bytes → list bytes → bytes → bytes → Prop :=
  target (config_line MalformedCrypttab) (mapping_candidate observed fstab) MAX_DOCUMENT_BYTES MAX_LINE_BYTES COMMENT_PREFIX.

Lemma crypttab_edit_exact observed fstab d t c :
  (∃ parsed parsed', parse_lines d false MalformedCrypttab InvalidCrypttabSize = Ok parsed ∧
    select_lines (mapping_candidate observed fstab) parsed = Ok [(t, c)] ∧
    parse_lines (commented COMMENT_PREFIX t d) false MalformedCrypttab InvalidCrypttabSize = Ok parsed') ↔
  ∃ before line after post fs, crypttab_target observed fstab d before line after post c ∧
    config_line MalformedCrypttab line = Ok fs ∧
    t = mkLine (length (unlines before)) (length (unlines before) + length line) (S (length before)) fs.
Proof.
  apply (edit_exact _ _ _ _ _ (λ d, parse_lines d false MalformedCrypttab InvalidCrypttabSize));
    [apply crypttab_document|apply crypttab_mark|apply marked_crypttab_line].
Qed.

Lemma mapping_preview_edit observed fstab before line post n fs name :
  let crypttab := unlines before ++ line ++ post in
  let t := mkLine (length (unlines before)) (length (unlines before) + length line) n fs in
  mkCrypttabPreview (S (length before)) (commented COMMENT_PREFIX t crypttab) (sha256_tagged crypttab)
    (sha256_tagged (uuid_set_preimage observed)) (sha256_tagged (fstab_consumer_preimage fstab name))
    (sha256_tagged (commented COMMENT_PREFIX t crypttab)) (sha256_tagged (diff_preimage crypttab t))
  = mapping_edit observed fstab before line post name.
Proof.
  intros crypttab t. subst crypttab t. unfold mapping_edit, diff_preimage. cbn [start content_end].
  destruct (commented_line COMMENT_PREFIX (unlines before) line post n fs) as [-> ->]. done.
Qed.

Lemma crypttab_preview_Ok crypttab fstab observed_uuids p :
  preview_disable_missing_crypttab_uuid crypttab fstab observed_uuids = Ok p ↔
  ∃ observed before line after post name,
    normalize_observed observed_uuids = Ok observed ∧
    crypttab_target observed fstab crypttab before line after post name ∧
    p = mapping_edit observed fstab before line post name.
Proof.
  unfold preview_disable_missing_crypttab_uuid. split.
  - intros H. apply result_bind_Ok in H as (obs & Hobs & H). apply result_bind_Ok in H as (parsed & Hp & H).
    apply result_bind_Ok in H as (cs & Hcs & H). destruct cs as [|[t name] [|? ?]]; [done| |done].
    apply result_bind_Ok in H as (parsed' & Hp' & H). apply Ok_inj_1 in H as <-.
    destruct (proj1 (crypttab_edit_exact obs fstab crypttab t name)) as (before & line & after & post & fs & Ht & _ & ->); [by eauto|].
    exists obs, before, line, after, post, name. split_and!; [done..|]. rewrite (tg_split _ _ _ _ _ _ _ _ _ _ _ Ht).
    apply mapping_preview_edit.
  - intros (obs & before & line & after & post & name & Hobs & Ht & ->). rewrite Hobs. cbn [mbind result_bind].
    pose proof (tg_picked _ _ _ _ _ _ _ _ _ _ _ Ht) as (fs & Hf & _).
    set (t := mkLine (length (unlines before)) (length (unlines before) + length line) (S (length before)) fs).
    destruct (proj2 (crypttab_edit_exact obs fstab crypttab t name)) as (parsed & parsed' & Hp & Hs & Hp'); [by eauto 10|].
    rewrite Hp. cbn [mbind result_bind]. rewrite Hs. cbn [mbind result_bind]. rewrite Hp'. cbn [mbind result_bind line_number].
    rewrite (tg_split _ _ _ _ _ _ _ _ _ _ _ Ht). f_equal. apply mapping_preview_edit.
Qed.

(** The crypttab repair is exact. A preview exists exactly when the observed
    UUIDs are valid, the file is a well-formed crypttab with exactly one mandatory
    mapping by UUID that was not observed, that asks for a passphrase, is not
    needed for booting and that no mandatory entry of a well-formed fstab uses;
    every other line is a comment, blank, of another source, present or optional;
    and the edited file keeps the limits. It proposes the same bytes with the
    comment mark inserted before that line. *)
Theorem crypttab_preview_exact crypttab fstab observed_uuids p :
  preview_disable_missing_crypttab_uuid crypttab fstab observed_uuids = Ok p ↔
  ∃ observed before line after post fs name,
    normalize_observed observed_uuids = Ok observed ∧
    crypttab_target observed fstab crypttab before line after post name ∧
    config_line MalformedCrypttab line = Ok (Some fs) ∧ missing_mapping observed fstab fs name ∧
    p = mapping_edit observed fstab before line post name.
Proof.
  rewrite crypttab_preview_Ok. split.
  - intros (obs & before & line & after & post & name & Hobs & Ht & ->).
    pose proof (tg_picked _ _ _ _ _ _ _ _ _ _ _ Ht) as ([fs|] & Hf & Hc); [|done].
    exists obs, before, line, after, post, fs, name. split_and!; [done..| |done]. by apply mapping_candidate_Some.
  - intros (obs & before & line & after & post & fs & name & Hobs & Ht & _ & _ & ->). eauto 10.
Qed.

(** C22. The crypttab repair converges, touches nothing else and breaks no mount.
    After the proposed edit the same evidence gives no further repair; the
    mappings of the new file are those of the old one without the missing one; no
    entry of fstab names the disabled mapping as its source (/dev/mapper/NAME or
    /dev/disk/by-id/dm-name-NAME) unless it is marked [nofail] or [noauto]; and deleting the mark gives the old file back. *)
Theorem crypttab_repair_converges crypttab fstab observed_uuids p :
  preview_disable_missing_crypttab_uuid crypttab fstab observed_uuids = Ok p →
  preview_disable_missing_crypttab_uuid p.(proposed_crypttab) fstab observed_uuids = Err RepairNotApplicable ∧
  (∃ observed before entry after name, normalize_observed observed_uuids = Ok observed ∧
    entries (config_line MalformedCrypttab) crypttab = before ++ entry :: after ∧
    entries (config_line MalformedCrypttab) p.(proposed_crypttab) = before ++ after ∧
    missing_mapping observed fstab entry name ∧ unused fstab name) ∧
  (∃ before rest, crypttab = unlines before ++ rest ∧
    p.(proposed_crypttab) = unlines before ++ COMMENT_PREFIX ++ rest ∧ p.(source_line) = S (length before)).
Proof.
  intros (obs & before & line & after & post & name & Hobs & Ht & ->)%crypttab_preview_Ok.
  destruct (edit_converges _ _ _ _ _ (λ d, parse_lines d false MalformedCrypttab InvalidCrypttabSize)
    crypttab_document crypttab_mark (marked_crypttab_line _) eq_refl _ _ _ _ _ _ Ht)
    as [(parsed & Hp & Hs) (a & entry & b & He & He' & _ & Hc)]. apply mapping_candidate_Some in Hc.
  unfold mapping_edit. cbn [proposed_crypttab source_line]. split_and!.
  - unfold preview_disable_missing_crypttab_uuid. rewrite Hobs. cbn [mbind result_bind].
    rewrite Hp. cbn [mbind result_bind]. by rewrite Hs.
  - exists obs, a, entry, b, name. split_and!; [done..|]. apply consumer_false, Hc.
  - exists before, (line ++ post). by rewrite <-(tg_split _ _ _ _ _ _ _ _ _ _ _ Ht).
Qed.
End claims.

(** ** Files with one missing volume *)

Module CrypttabDemo.
Import SignatureDemo.
#[local] Existing Instances light_sha256 light_sha256_laws.

Definition before_lines : list bytes :=
  as_bytes <$> ["# name device key options"; "data UUID=AAAA-bbbb none luks"]%string.
Definition missing_line : bytes := as_bytes "old_disk  UUID=1234-ABCD none luks,discard # archive".
Definition demo_crypttab : bytes := unlines before_lines ++ missing_line ++ [x0a].
Definition demo_fstab : bytes :=
  unlines (as_bytes <$> ["UUID=cccc / ext4 defaults 0 1"; "/dev/mapper/old_disk /mnt/old ext4 nofail 0 2"]%string).
Definition demo_observed : list string := ["aaaa-bbbb"%string].
Definition demo_edit : DisableMissingCrypttabUuidPreview :=
  mapping_edit demo_observed demo_fstab before_lines missing_line [x0a] (as_bytes "old_disk").

Lemma demo_mapping_previewed :
  preview_disable_missing_crypttab_uuid demo_crypttab demo_fstab demo_observed = Ok demo_edit.
Proof. by vm_compute. Qed.

Lemma crypttab_repair_converges_witness :
  preview_disable_missing_crypttab_uuid demo_edit.(proposed_crypttab) demo_fstab demo_observed = Err RepairNotApplicable ∧
  demo_edit.(source_line) = 3.
Proof. split; [exact (proj1 (crypttab_repair_converges _ _ _ _ demo_mapping_previewed))|reflexivity]. Defined.
End CrypttabDemo.
