(* ===== verification/FstabPlan.v ===== *)
(** * FstabPlan: the transaction plan of the fstab repair

    src/packs/linux/src/production_candidate_contract.rs and
    rescue_fstab_transaction_candidate.rs - the pinned input of the action, the
    capabilities of target and vault, the claims of a plan, and the plan that
    binds them to the digests of a preview. *)

From Stdlib.Strings Require Import Byte.
From Stdlib Require String Ascii.
From S2P Require Import Prelude Bytes Ordered Text Crypto ConfigLines FstabPreview.

(** ** The contract *)

Definition ACTION_ID : string := "linux.fstab.disable-missing-uuid.v1".
Definition RESOURCE_ID : string := "rescue:selected-linux-root:etc/fstab".
Definition FINDING_ID : string := "KA-LNX-P0-003".
Definition FINDING_VERSION : Z := 2.
Definition PREFLIGHT_ID : string := "linux.fstab.preflight".
Definition VALIDATE_ID : string := "linux.boot.validate-fstab".
Definition ROLLBACK_ID : string := "linux.fstab.restore".
Definition SUPPORTED_FILESYSTEM : string := "ext4".
Definition BACKUP_POLICY_ID : string := "rescue.boot-vault.byte-exact-before-write.v1".
Definition BACKUP_RESERVATION_POLICY_ID : string := "rescue.boot-vault.durable-reservation-before-approval.v1".
Definition BACKUP_PHYSICAL_PARENT_POLICY : string := "distinct".
Definition TRANSACTION_TIMEOUT_MILLISECONDS : Z := 120000.
Definition CANCELLATION_POLICY_ID : string := "rescue.transaction.safe-boundaries-auto-restore.v1".
Definition IDEMPOTENCY_POLICY_ID : string := "rescue.fstab.disable-missing-uuid.converge-once.v1".
Definition REDACTION_POLICY_ID : string := "rescue.transaction.opaque-identifiers-and-hashes-only.v1".
Definition MAX_ACTION_INPUT_BYTES : Z := 768.

Record DisableMissingUuidInput := mkInput {
  expected_before_sha256 : string;
  input_uuid_set_sha256 : string;
  expected_after_sha256 : string;
}.

Inductive CandidateInputError :=
| WrongActionId | InvalidSize | InvalidJson | WrongResourceId | WrongFinding | InvalidBeforeHash
| InvalidObservedUuidSetHash | InvalidAfterHash | IdenticalBeforeAfter.

Record WireDisableMissingUuidInput := mkWireInput {
  wire_resource_id : string;
  wire_finding_id : string;
  wire_finding_version : Z;
  wire_before_sha256 : string;
  wire_uuid_set_sha256 : string;
  wire_after_sha256 : string;
}.

Definition is_lowercase_sha256 (value : string) : bool :=
  match strip_prefix "sha256:" value with
  | None => false
  | Some digest => (len digest =? 64)%Z && all_bytes (λ b, is_ascii_digit b || is_lower_a_f b) digest
  end.

(** serde_json: [deserialize] followed by [end]. *)
Class InputJson : Type := read_input : bytes → option WireDisableMissingUuidInput.

Definition parse_disable_missing_uuid_input `{InputJson} (action_id : string) (input : bytes) :
    result CandidateInputError DisableMissingUuidInput :=
  reject (action_id != ACTION_ID) with WrongActionId;
  reject ((input == []) || (MAX_ACTION_INPUT_BYTES <? blen input)%Z) with InvalidSize;
  wire ← ok_or (read_input input) InvalidJson;
  reject (wire.(wire_resource_id) != RESOURCE_ID) with WrongResourceId;
  reject ((wire.(wire_finding_id) != FINDING_ID) || (wire.(wire_finding_version) != FINDING_VERSION)) with WrongFinding;
  reject (negb (is_lowercase_sha256 wire.(wire_before_sha256))) with InvalidBeforeHash;
  reject (negb (is_lowercase_sha256 wire.(wire_uuid_set_sha256))) with InvalidObservedUuidSetHash;
  reject (negb (is_lowercase_sha256 wire.(wire_after_sha256))) with InvalidAfterHash;
  reject (wire.(wire_before_sha256) == wire.(wire_after_sha256)) with IdenticalBeforeAfter;
  Ok (mkInput wire.(wire_before_sha256) wire.(wire_uuid_set_sha256) wire.(wire_after_sha256)).

(** ** Checks *)

Definition PLAN_HASH_DOMAIN : bytes := domain "kernaid:linux.fstab.disable-missing-uuid.v1:transaction-plan:v4".
Definition MAX_ID_BYTES : Z := 128.
Definition MAX_OPAQUE_BYTES : Z := 96.
Definition RISK_ID : string := "R2".
Definition FSTAB_EVIDENCE_ID : string := "E-LINUX-FSTAB".
Definition LSBLK_EVIDENCE_ID : string := "E-LINUX-LSBLK".

Definition valid_lower_hex_64 (value : string) : bool :=
  (len value == 64%Z) && all_bytes (λ b, is_ascii_digit b || in_range 97 102 b) value.
Definition hex_after (prefix value : string) : bool :=
  match strip_prefix prefix value with Some suffix => valid_lower_hex_64 suffix | None => false end.
Definition valid_sha256 (value : string) : bool := hex_after "sha256:" value.
Definition valid_scan_fingerprint (value : string) : bool := hex_after "scan:" value.
Definition valid_recovery_fingerprint (value : string) : bool := hex_after "recovery:" value.

Definition id_suffix (suffix : string) : bool :=
  negb (is_empty suffix) && all_bytes (λ b, is_ascii_alphanumeric b || (b == x2d)) suffix.
Definition valid_prefixed_id (value prefix : string) : bool :=
  (len value <=? MAX_ID_BYTES)%Z
  && match strip_prefix prefix value with Some suffix => id_suffix suffix | None => false end.
Definition valid_opaque_id (value : string) : bool :=
  (1 <=? len value)%Z && (len value <=? MAX_OPAQUE_BYTES)%Z
  && all_bytes (λ b, is_ascii_alphanumeric b || bool_decide (b ∈ [x2d; x5f; x3a; x2e])) value
  && negb (dot_dot (as_bytes value)).
Definition valid_evidence_id (value : string) : bool :=
  (len value <=? MAX_OPAQUE_BYTES)%Z
  && match strip_prefix "E-" value with
     | Some suffix =>
         negb (is_empty suffix) && all_bytes (λ b, is_ascii_uppercase b || is_ascii_digit b || (b == x2d)) suffix
     | None => false
     end.
Definition valid_vault_locator (value : string) : bool :=
  (len value <=? 128)%Z
  && match strip_prefix "vault://repair/" value with
     | Some suffix =>
         negb (is_empty suffix) && (len suffix <=? 64)%Z
         && all_bytes (λ b, is_ascii_alphanumeric b || (b == x2d)) suffix
     | None => false
     end.

(** ** Capabilities, evidence and claims *)

Inductive CandidateTransactionError :=
| InvalidCapability | InvalidSessionId | InvalidPlanId | InvalidScanFingerprint | InvalidFingerprint
| PlanContractMismatch | InvalidEvidenceBinding | EvidenceSetMismatch | InvalidVaultLocator
| VaultNotAuthenticated | InvalidVaultCapacity | VaultCapacityInsufficient | PhysicalDeviceNotDistinct.

Record SelectedTargetCapability := mkTarget {
  target_id : string;
  scan_fingerprint : string;
  recovery_fingerprint : string;
  target_physical_parent_fingerprint : string;
}.
Definition target_new (target_id scan_fingerprint recovery_fingerprint physical_parent_fingerprint : string) :
    result CandidateTransactionError SelectedTargetCapability :=
  reject (negb (valid_opaque_id target_id)) with InvalidCapability;
  reject (negb (valid_scan_fingerprint scan_fingerprint)) with InvalidScanFingerprint;
  reject (negb (valid_recovery_fingerprint recovery_fingerprint)) with InvalidFingerprint;
  reject (negb (valid_sha256 physical_parent_fingerprint)) with InvalidFingerprint;
  Ok (mkTarget target_id scan_fingerprint recovery_fingerprint physical_parent_fingerprint).

Record BootVaultBackupCapability := mkVault {
  vault_id : string;
  reservation_id : string;
  reservation_binding_sha256 : string;
  backup_locator : string;
  vault_identity_fingerprint : string;
  vault_physical_parent_fingerprint : string;
  authenticated_and_unlocked : bool;
  required_capacity_bytes : Z;
  reserved_capacity_bytes : Z;
}.
(** The arguments arrive as a value of the struct; [v] is what [new] builds first. *)
Definition vault_new (v : BootVaultBackupCapability) : result CandidateTransactionError BootVaultBackupCapability :=
  reject (negb (valid_opaque_id v.(vault_id)) || negb (valid_prefixed_id v.(reservation_id) "B-"))
    with InvalidCapability;
  reject (negb (valid_vault_locator v.(backup_locator))
          || (strip_prefix "vault://repair/" v.(backup_locator) != Some v.(reservation_id))) with InvalidVaultLocator;
  reject (negb (valid_sha256 v.(reservation_binding_sha256)) || negb (valid_sha256 v.(vault_identity_fingerprint))
          || negb (valid_sha256 v.(vault_physical_parent_fingerprint))) with InvalidFingerprint;
  reject (negb v.(authenticated_and_unlocked)) with VaultNotAuthenticated;
  reject ((v.(required_capacity_bytes) == 0%Z) || (v.(reserved_capacity_bytes) == 0%Z)) with InvalidVaultCapacity;
  reject (v.(reserved_capacity_bytes) <? v.(required_capacity_bytes))%Z with VaultCapacityInsufficient;
  Ok v.

Record CandidateEvidenceBinding := mkEvidence { evidence_id : string; evidence_sha256 : string }.
Definition evidence_new (evidence_id sha256 : string) : result CandidateTransactionError CandidateEvidenceBinding :=
  reject (negb (valid_evidence_id evidence_id)) with InvalidEvidenceBinding;
  reject (negb (valid_sha256 sha256)) with InvalidFingerprint;
  Ok (mkEvidence evidence_id sha256).

(** [CandidatePlanClaimsInput] and [CandidatePlanClaims] have the same fields. *)
Record CandidatePlanClaims := mkClaims {
  session_id : string;
  plan_id : string;
  action_id : string;
  resource_id : string;
  finding_id : string;
  finding_version : Z;
  risk : string;
  supported_filesystem : string;
  preflight_id : string;
  backup_policy_id : string;
  backup_reservation_policy_id : string;
  backup_physical_parent_policy : string;
  validation_id : string;
  rollback_id : string;
  timeout_milliseconds : Z;
  cancellation_policy_id : string;
  idempotency_policy_id : string;
  redaction_policy_id : string;
}.
Definition claims_admit (c : CandidatePlanClaims) : result CandidateTransactionError CandidatePlanClaims :=
  reject (negb (valid_prefixed_id c.(session_id) "S-")) with InvalidSessionId;
  reject (negb (valid_prefixed_id c.(plan_id) "P-")) with InvalidPlanId;
  reject ((c.(action_id) != ACTION_ID) || (c.(resource_id) != RESOURCE_ID) || (c.(finding_id) != FINDING_ID)
          || (c.(finding_version) != FINDING_VERSION) || (c.(risk) != RISK_ID)
          || (c.(supported_filesystem) != SUPPORTED_FILESYSTEM) || (c.(preflight_id) != PREFLIGHT_ID)
          || (c.(backup_policy_id) != BACKUP_POLICY_ID)
          || (c.(backup_reservation_policy_id) != BACKUP_RESERVATION_POLICY_ID)
          || (c.(backup_physical_parent_policy) != BACKUP_PHYSICAL_PARENT_POLICY)
          || (c.(validation_id) != VALIDATE_ID) || (c.(rollback_id) != ROLLBACK_ID)
          || (c.(timeout_milliseconds) != TRANSACTION_TIMEOUT_MILLISECONDS)
          || (c.(cancellation_policy_id) != CANCELLATION_POLICY_ID)
          || (c.(idempotency_policy_id) != IDEMPOTENCY_POLICY_ID)
          || (c.(redaction_policy_id) != REDACTION_POLICY_ID)) with PlanContractMismatch;
  Ok c.

(** ** The plan *)

Record FstabCandidateTransactionPlan := mkPlan {
  plan_sha256 : string;
  claims : CandidatePlanClaims;
  target : SelectedTargetCapability;
  vault : BootVaultBackupCapability;
  evidence : CandidateEvidenceBinding * CandidateEvidenceBinding;
  plan_before_sha256 : string;
  plan_uuid_set_sha256 : string;
  plan_after_sha256 : string;
  plan_diff_sha256 : string;
}.

Definition texts (values : list string) : bytes := frames (map as_bytes values).

(** What [compute_hash] feeds to the digest. *)
Definition plan_preimage (p : FstabCandidateTransactionPlan) : bytes :=
  let c := p.(claims) in let t := p.(target) in let v := p.(vault) in
  PLAN_HASH_DOMAIN
  ++ texts [c.(session_id); c.(plan_id); c.(action_id); c.(resource_id); c.(finding_id)]
  ++ be_bytes 2 c.(finding_version)
  ++ texts [c.(risk); c.(supported_filesystem); c.(preflight_id); c.(backup_policy_id);
            c.(backup_reservation_policy_id); c.(backup_physical_parent_policy); c.(validation_id); c.(rollback_id)]
  ++ to_be_bytes c.(timeout_milliseconds)
  ++ texts [c.(cancellation_policy_id); c.(idempotency_policy_id); c.(redaction_policy_id)]
  ++ texts [t.(target_id); t.(scan_fingerprint); t.(recovery_fingerprint); t.(target_physical_parent_fingerprint);
            v.(vault_id); v.(reservation_id); v.(reservation_binding_sha256); v.(backup_locator);
            v.(vault_identity_fingerprint); v.(vault_physical_parent_fingerprint)]
  ++ [if v.(authenticated_and_unlocked) then x01 else x00]
  ++ to_be_bytes v.(required_capacity_bytes) ++ to_be_bytes v.(reserved_capacity_bytes)
  ++ texts [p.(evidence).1.(evidence_id); p.(evidence).1.(evidence_sha256);
            p.(evidence).2.(evidence_id); p.(evidence).2.(evidence_sha256)]
  ++ texts [p.(plan_before_sha256); p.(plan_uuid_set_sha256); p.(plan_after_sha256); p.(plan_diff_sha256)].

Section plan.
Context `{sha : Sha256}.

Definition compute_hash (p : FstabCandidateTransactionPlan) : string := sha256_tagged (plan_preimage p).

Definition stage (preview : DisableMissingUuidPreview) (claims : CandidatePlanClaims)
    (target : SelectedTargetCapability) (vault : BootVaultBackupCapability)
    (evidence : list CandidateEvidenceBinding) : result CandidateTransactionError FstabCandidateTransactionPlan :=
  reject (target.(target_physical_parent_fingerprint) == vault.(vault_physical_parent_fingerprint))
    with PhysicalDeviceNotDistinct;
  let minimum_capacity := blen preview.(proposed_fstab) in
  reject (vault.(required_capacity_bytes) <? minimum_capacity)%Z with InvalidVaultCapacity;
  match evidence with
  | [first; second] =>
      reject ((first.(evidence_id) != FSTAB_EVIDENCE_ID) || (second.(evidence_id) != LSBLK_EVIDENCE_ID))
        with EvidenceSetMismatch;
      let plan hash := mkPlan hash claims target vault (first, second) preview.(before_sha256)
        preview.(observed_uuid_set_sha256) preview.(after_sha256) preview.(diff_sha256) in
      Ok (plan (compute_hash (plan ""%string)))
  | _ => Err EvidenceSetMismatch
  end.
End plan.
