(* ===== verification/FstabPlanProperties.v ===== *)
(** * FstabPlanProperties: what an approved plan stands for

    A plan digest commits to the whole plan, and through it to the bytes that the
    repair replaces and those it writes. *)

From Stdlib.Strings Require Import Byte.
From Stdlib Require String Ascii.
From S2P Require Import Prelude Bytes Ordered Text Crypto Signatures ConfigLines ConfigEdit FstabPreview FstabPreviewProperties FstabPlan.

(** ** Sizes of the checked texts *)

Lemma short_text_fits s : (len s ≤ 128)%Z → text_fits s.
Proof. intros H. apply fits_as_bytes. unfold U64_MAX. lia. Qed.

Lemma hex_after_fits p s : (len p ≤ 64)%Z → hex_after p s = true → text_fits s.
Proof.
  unfold hex_after. intros Hp. destruct (strip_prefix p s) as [t|] eqn:E; [|done]. apply strip_prefix_Some in E as ->.
  intros [Hl _]%andb_true_iff. guards. apply short_text_fits. rewrite len_app. lia.
Qed.

Lemma prefixed_id_fits s p : valid_prefixed_id s p = true → text_fits s.
Proof. intros [H _]%andb_true_iff. apply Z.leb_le in H. by apply short_text_fits. Qed.

Lemma opaque_id_fits s : valid_opaque_id s = true → text_fits s.
Proof.
  unfold valid_opaque_id, MAX_OPAQUE_BYTES. rewrite !andb_true_iff, !Z.leb_le. intros [[[_ ?] _] _]. apply short_text_fits. lia.
Qed.

Lemma locator_fits s : valid_vault_locator s = true → text_fits s.
Proof. intros [H _]%andb_true_iff. apply Z.leb_le in H. by apply short_text_fits. Qed.

Lemma evidence_id_fits s : valid_evidence_id s = true → text_fits s.
Proof.
  intros [H _]%andb_true_iff. apply Z.leb_le in H. apply short_text_fits. unfold MAX_OPAQUE_BYTES in *. lia.
Qed.

Create HintDb plan_fits.
#[local] Hint Resolve prefixed_id_fits opaque_id_fits locator_fits evidence_id_fits : plan_fits.
#[local] Hint Extern 1 (text_fits _) => eapply hex_after_fits; [|eassumption]; by vm_compute : plan_fits.

Ltac all_texts := repeat (apply Forall_cons_2); try apply Forall_nil_2.

(** ** Checked parts *)

Definition pinned_claims (session plan : string) : CandidatePlanClaims :=
  mkClaims session plan ACTION_ID RESOURCE_ID FINDING_ID FINDING_VERSION RISK_ID SUPPORTED_FILESYSTEM PREFLIGHT_ID
    BACKUP_POLICY_ID BACKUP_RESERVATION_POLICY_ID BACKUP_PHYSICAL_PARENT_POLICY VALIDATE_ID ROLLBACK_ID
    TRANSACTION_TIMEOUT_MILLISECONDS CANCELLATION_POLICY_ID IDEMPOTENCY_POLICY_ID REDACTION_POLICY_ID.

Lemma claims_admit_Ok c c' :
  claims_admit c = Ok c' ↔
  c' = c ∧ valid_prefixed_id c.(session_id) "S-" = true ∧ valid_prefixed_id c.(plan_id) "P-" = true ∧
  c = pinned_claims c.(session_id) c.(plan_id).
Proof.
  unfold claims_admit. rewrite !reject_Ok, !negb_false_iff. split.
  - intros (Hs & Hp & H & Hc). apply Ok_inj_1 in Hc as <-. split_and!; try done.
    repeat (apply orb_false_iff in H as [H ?]). guards. destruct c. unfold pinned_claims. cbn in *. by subst.
  - intros (-> & Hs & Hp & ->). by split_and!.
Qed.

Lemma target_new_Ok i s r h t :
  target_new i s r h = Ok t ↔
  t = mkTarget i s r h ∧ valid_opaque_id i = true ∧ valid_scan_fingerprint s = true ∧
  valid_recovery_fingerprint r = true ∧ valid_sha256 h = true.
Proof. unfold target_new. rewrite !reject_Ok, !negb_false_iff. naive_solver. Qed.

Lemma evidence_new_Ok i h e :
  evidence_new i h = Ok e ↔ e = mkEvidence i h ∧ valid_evidence_id i = true ∧ valid_sha256 h = true.
Proof. unfold evidence_new. rewrite !reject_Ok, !negb_false_iff. naive_solver. Qed.

(** A vault that a plan may use: unlocked, with room, and with the locator of its
    reservation. *)
Record usable_vault (v : BootVaultBackupCapability) : Prop := {
  uv_id : valid_opaque_id v.(vault_id) = true;
  uv_reservation : valid_prefixed_id v.(reservation_id) "B-" = true;
  uv_locator : valid_vault_locator v.(backup_locator) = true;
  uv_names : v.(backup_locator) = "vault://repair/" +:+ v.(reservation_id);
  uv_binding : valid_sha256 v.(reservation_binding_sha256) = true;
  uv_identity : valid_sha256 v.(vault_identity_fingerprint) = true;
  uv_parent : valid_sha256 v.(vault_physical_parent_fingerprint) = true;
  uv_unlocked : v.(authenticated_and_unlocked) = true;
  uv_required : v.(required_capacity_bytes) ≠ 0%Z;
  uv_room : (v.(required_capacity_bytes) ≤ v.(reserved_capacity_bytes))%Z;
  uv_reserved : v.(reserved_capacity_bytes) ≠ 0%Z;
}.

Lemma vault_new_Ok v v' : vault_new v = Ok v' ↔ v' = v ∧ usable_vault v.
Proof.
  unfold vault_new. rewrite !reject_Ok, !orb_false_iff, !negb_false_iff, !bool_decide_eq_false, Z.ltb_ge. split.
  - intros ([? ?] & [? Hl] & [[? ?] ?] & ? & [? ?] & ? & Hv). apply Ok_inj_1 in Hv as <-. split; [done|].
    apply dec_stable, strip_prefix_Some in Hl. by split.
  - intros (-> & []). split_and!; try done. rewrite uv_names0. intros Hn. apply Hn. by apply strip_prefix_Some.
Qed.

(** ** Plans *)

Section plans.
Context `{sha : Sha256} `{shal : !Sha256Laws}.

(** A plan that was staged from a preview of [fstab] and checked parts. *)
Record staged (fstab : bytes) (uuids : list string) (p : FstabCandidateTransactionPlan) : Prop := {
  st_staged : ∃ preview e1 e2, preview_disable_missing_uuid fstab uuids = Ok preview ∧
    evidence_new e1.(evidence_id) e1.(evidence_sha256) = Ok e1 ∧
    evidence_new e2.(evidence_id) e2.(evidence_sha256) = Ok e2 ∧
    stage preview p.(claims) p.(target) p.(vault) [e1; e2] = Ok p;
  st_claims : ∃ c, claims_admit c = Ok p.(claims);
  st_target : ∃ i s r h, target_new i s r h = Ok p.(target);
  st_vault : ∃ v, vault_new v = Ok p.(vault);
  st_capacity : is_u64 p.(vault).(required_capacity_bytes) ∧ is_u64 p.(vault).(reserved_capacity_bytes);
}.

(** [plan_sha256] is hashed over a plan without it. *)
Definition without_hash (p : FstabCandidateTransactionPlan) : FstabCandidateTransactionPlan :=
  mkPlan "" p.(claims) p.(target) p.(vault) p.(evidence) p.(plan_before_sha256) p.(plan_uuid_set_sha256)
    p.(plan_after_sha256) p.(plan_diff_sha256).

Lemma stage_Ok preview c t v es p :
  stage preview c t v es = Ok p ↔
  ∃ e1 e2, es = [e1; e2] ∧ t.(target_physical_parent_fingerprint) ≠ v.(vault_physical_parent_fingerprint) ∧
    (blen preview.(proposed_fstab) ≤ v.(required_capacity_bytes))%Z ∧
    e1.(evidence_id) = FSTAB_EVIDENCE_ID ∧ e2.(evidence_id) = LSBLK_EVIDENCE_ID ∧
    p = mkPlan (compute_hash p) c t v (e1, e2) preview.(before_sha256) preview.(observed_uuid_set_sha256)
          preview.(after_sha256) preview.(diff_sha256).
Proof.
  unfold stage. rewrite !reject_Ok, bool_decide_eq_false, Z.ltb_ge. split.
  - intros (Hne & Hcap & H). destruct es as [|e1 [|e2 [|? ?]]]; try done. apply reject_Ok in H as [He H].
    apply orb_false_iff in He as [He1 He2]. guards. apply Ok_inj_1 in H as <-. exists e1, e2. split_and!; try done.
  - intros (e1 & e2 & -> & Hne & Hcap & He1 & He2 & Hp). split_and!; [done..|]. rewrite He1, He2, !ne_refl_false. cbn [orb].
    f_equal. etransitivity; [|symmetry; exact Hp]. f_equal. unfold compute_hash. f_equal. by rewrite Hp.
Qed.

(** What a plan fixes besides the texts that are constants. *)
Lemma plan_parts fstab uuids p :
  staged fstab uuids p →
  ∃ preview e1 e2 session plan,
    preview_disable_missing_uuid fstab uuids = Ok preview ∧ usable_vault p.(vault) ∧
    p.(target).(target_physical_parent_fingerprint) ≠ p.(vault).(vault_physical_parent_fingerprint) ∧
    (blen preview.(proposed_fstab) ≤ p.(vault).(required_capacity_bytes))%Z ∧
    p = mkPlan (compute_hash p) (pinned_claims session plan) p.(target) p.(vault) (e1, e2) preview.(before_sha256)
          preview.(observed_uuid_set_sha256) preview.(after_sha256) preview.(diff_sha256) ∧
    Forall text_fits [session; plan] ∧
    Forall text_fits [p.(target).(target_id); p.(target).(scan_fingerprint); p.(target).(recovery_fingerprint);
      p.(target).(target_physical_parent_fingerprint)] ∧
    Forall text_fits [e1.(evidence_id); e1.(evidence_sha256); e2.(evidence_id); e2.(evidence_sha256)] ∧
    Forall text_fits [preview.(before_sha256); preview.(observed_uuid_set_sha256); preview.(after_sha256);
      preview.(diff_sha256)].
Proof using shal.
  intros [(preview & e1 & e2 & Hp & He1 & He2 & Hst) (c & Hc) (i & s & r & h & Ht) (v & Hv) _].
  apply stage_Ok in Hst as (e1' & e2' & [= <- <-] & Hne & Hcap & _ & _ & Hplan).
  apply claims_admit_Ok in Hc as (Hcl & Hs & Hpl & Hpin). apply vault_new_Ok in Hv as [Hv Huv].
  apply target_new_Ok in Ht as (Ht & ? & ? & ? & ?). apply evidence_new_Ok in He1 as (_ & ? & ?), He2 as (_ & ? & ?).
  rewrite Hpin in Hcl. exists preview, e1, e2, c.(session_id), c.(plan_id). rewrite <-Hcl. split_and!; try done.
  - by rewrite Hv.
  - all_texts; eauto with plan_fits.
  - rewrite Ht. all_texts; cbn; eauto with plan_fits.
  - all_texts; eauto with plan_fits.
  - apply preview_Ok in Hp as (obs & before & line & after & post & uuid & mp & _ & _ & ->).
    all_texts; apply text_fits_sha256, sha256_tagged_text.
Qed.
(** The texts of the vault, as the digest takes them. *)
Lemma vault_fits v :
  usable_vault v →
  Forall text_fits [v.(vault_id); v.(reservation_id); v.(reservation_binding_sha256); v.(backup_locator);
    v.(vault_identity_fingerprint); v.(vault_physical_parent_fingerprint)].
Proof. intros []. all_texts; eauto with plan_fits. Qed.

Lemma texts_cut ss ss' t t' :
  length ss = length ss' → Forall text_fits ss → Forall text_fits ss' → texts ss ++ t = texts ss' ++ t' → ss = ss' ∧ t = t'.
Proof. apply texts_app_inj. Qed.

Lemma pinned_fits session plan :
  Forall text_fits [session; plan] → Forall text_fits [session; plan; ACTION_ID; RESOURCE_ID; FINDING_ID].
Proof. intros [? [? _]%Forall_cons]%Forall_cons. all_texts; try done; by apply short_text_fits. Qed.

Lemma fstab_plan_preimage_inj fstab fstab' uuids uuids' p p' :
  staged fstab uuids p → staged fstab' uuids' p' → plan_preimage p = plan_preimage p' → p = p'.
Proof using shal.
  intros Hst Hst' Heq.
  pose proof (st_capacity _ _ _ Hst) as [Hc1 Hc2]. pose proof (st_capacity _ _ _ Hst') as [Hc1' Hc2'].
  destruct (plan_parts _ _ _ Hst) as (w & e1 & e2 & se & pl & _ & Huv & _ & _ & Hp & Hf1 & Hf2 & Hf3 & Hf4).
  destruct (plan_parts _ _ _ Hst') as (w' & e1' & e2' & se' & pl' & _ & Huv' & _ & _ & Hp' & Hf1' & Hf2' & Hf3' & Hf4').
  assert (compute_hash p = compute_hash p') as Hhash by (unfold compute_hash; by rewrite Heq).
  rewrite Hp, Hp' in Heq. unfold plan_preimage in Heq. cbn in Heq. apply app_inv_head in Heq.
  apply texts_cut in Heq as [Hses Heq]; [|done|by apply pinned_fits..]. injection Hses as <- <-.
  do 2 apply cons_eq_inj in Heq as [_ Heq]. do 3 apply app_inv_head in Heq.
  apply (texts_cut (_ :: _ :: _ :: _ :: _) (_ :: _ :: _ :: _ :: _)) in Heq as [Htv Heq]; [|done| |].
  2: { apply (Forall_app_2 _ [_; _; _; _]); [done|by apply vault_fits]. }
  2: { apply (Forall_app_2 _ [_; _; _; _]); [done|by apply vault_fits]. }
  apply cons_eq_inj in Heq as [_ Heq].
  apply to_be_bytes_app_inj in Heq as [Hreq Heq]; [|done..]. apply to_be_bytes_app_inj in Heq as [Hres Heq]; [|done..].
  apply texts_cut in Heq as [Hev Heq]; [|done..]. apply texts_inj in Heq; [|done..].
  rewrite Hp, Hp', Hhash. destruct (target p), (target p'), (vault p), (vault p'), e1, e2, e1', e2'. cbn in *.
  pose proof (uv_unlocked _ Huv) as U. pose proof (uv_unlocked _ Huv') as U'.
  clear Huv Huv' Hhash Hp Hp' Hst Hst'. cbn in U, U'. simplify_eq. cbn in *. simplify_eq. f_equal; congruence.
Qed.

(** The digests of a preview are an input that the action accepts: an input text
    that is read as them is refused only when the old and the new file collide. *)
Lemma preview_input_accepted `{InputJson} fstab uuids preview input :
  preview_disable_missing_uuid fstab uuids = Ok preview →
  input ≠ [] → (blen input ≤ MAX_ACTION_INPUT_BYTES)%Z →
  read_input input = Some (mkWireInput RESOURCE_ID FINDING_ID FINDING_VERSION preview.(before_sha256)
    preview.(observed_uuid_set_sha256) preview.(after_sha256)) →
  parse_disable_missing_uuid_input ACTION_ID input
    = Ok (mkInput preview.(before_sha256) preview.(observed_uuid_set_sha256) preview.(after_sha256)) ∨
  collision fstab preview.(proposed_fstab).
Proof using shal.
  intros (obs & before & line & after & post & uuid & mp & _ & Ht & ->)%preview_Ok Hne Hlen Hread.
  unfold parse_disable_missing_uuid_input. rewrite Hread. unfold edit_of. cbn [ok_or mbind result_bind before_sha256
    observed_uuid_set_sha256 after_sha256 proposed_fstab wire_resource_id wire_finding_id wire_finding_version
    wire_before_sha256 wire_uuid_set_sha256 wire_after_sha256]. rewrite !ne_refl_false. cbn [orb].
  assert (∀ m, is_lowercase_sha256 (sha256_tagged m) = true) as Htext by (intros m; apply (sha256_tagged_text m)).
  rewrite !Htext, bool_decide_false, (proj2 (Z.ltb_ge _ _)) by done. cbn [orb negb].
  case_bool_decide as Heq; [|by left]. right. rewrite (tg_split _ _ _ _ _ _ _ _ _ _ _ Ht).
  apply sha256_tagged_ne; [|done]. intros Hsame%app_inv_head. apply (f_equal length) in Hsame.
  rewrite (length_app COMMENT_PREFIX) in Hsame. assert (length COMMENT_PREFIX = 40) by done. lia.
Qed.

(** C23. Approving a plan digest approves one edit. Two staged plans with the same
    digest are the same plan (claims, target, vault, evidence and digests) for the
    same preview of the same fstab, or the hashed plans, the files or the hashed
    UUID sets are a SHA-256 collision; and every staged plan keeps its backup on
    another physical device than its target, in an unlocked vault with room for
    the new file, and takes its digests from a preview of its file. *)
Theorem fstab_plan_pins_repair fstab fstab' uuids uuids' p p' :
  staged fstab uuids p → staged fstab' uuids' p' → p.(plan_sha256) = p'.(plan_sha256) →
  (p = p' ∧ fstab = fstab' ∧
    preview_disable_missing_uuid fstab uuids = preview_disable_missing_uuid fstab' uuids' ∧
    ∃ preview, preview_disable_missing_uuid fstab uuids = Ok preview ∧
      p.(plan_before_sha256) = sha256_tagged fstab ∧
      p.(plan_after_sha256) = sha256_tagged preview.(proposed_fstab) ∧
      p.(target).(target_physical_parent_fingerprint) ≠ p.(vault).(vault_physical_parent_fingerprint) ∧
      p.(vault).(authenticated_and_unlocked) = true ∧
      (blen preview.(proposed_fstab) ≤ p.(vault).(required_capacity_bytes) ≤ p.(vault).(reserved_capacity_bytes))%Z) ∨
  collision (plan_preimage p) (plan_preimage p') ∨ collision fstab fstab' ∨
  ∃ s s', normalize_observed_uuids uuids = Ok s ∧ normalize_observed_uuids uuids' = Ok s' ∧
    collision (uuid_set_preimage s) (uuid_set_preimage s').
Proof using shal.
  intros Hst Hst' Heq.
  destruct (plan_parts _ _ _ Hst) as (w & e1 & e2 & se & pl & Hw & Huv & Hne & Hcap & Hp & _).
  destruct (plan_parts _ _ _ Hst') as (w' & e1' & e2' & se' & pl' & Hw' & _ & _ & _ & Hp' & _).
  rewrite Hp, Hp' in Heq. cbn [plan_sha256] in Heq. apply sha256_tagged_inj in Heq as [Heq|]; [|by right; left].
  apply (fstab_plan_preimage_inj _ _ _ _ _ _ Hst Hst') in Heq as <-.
  destruct (preview_digests_pin _ _ _ _ _ _ Hw Hw') as [(<- & <-)|[?|?]]; [..|by right; right; left|by right; right; right].
  { rewrite Hp in Hp'. congruence. }
  { rewrite Hp in Hp'. congruence. }
  left. split_and!; try done; [by rewrite Hw, Hw'|].
  exists w. apply preview_Ok in Hw as Hd. destruct Hd as (obs & before & line & after & post & uuid & mp & _ & Ht & Hedit).
  split_and!; try done.
  - rewrite Hp. cbn. by rewrite Hedit, (tg_split _ _ _ _ _ _ _ _ _ _ _ Ht).
  - rewrite Hp. cbn. by rewrite Hedit.
  - apply Huv.
  - apply Huv.
Qed.
End plans.

(** ** A staged plan *)

Module PlanDemo.
Import SignatureDemo FstabDemo.
#[local] Existing Instances light_sha256 light_sha256_laws.

Definition hex64 (b : byte) : string := hex_string (replicate 32 b).
Definition demo_target : SelectedTargetCapability :=
  mkTarget "disk:1" ("scan:" +:+ hex64 x01) ("recovery:" +:+ hex64 x02) ("sha256:" +:+ hex64 x03).
Definition demo_vault : BootVaultBackupCapability :=
  mkVault "V-1" "B-1" ("sha256:" +:+ hex64 x04) "vault://repair/B-1" ("sha256:" +:+ hex64 x05)
    ("sha256:" +:+ hex64 x06) true 4096 8192.
Definition demo_e1 : CandidateEvidenceBinding := mkEvidence FSTAB_EVIDENCE_ID ("sha256:" +:+ hex64 x07).
Definition demo_e2 : CandidateEvidenceBinding := mkEvidence LSBLK_EVIDENCE_ID ("sha256:" +:+ hex64 x08).
Definition demo_plan : FstabCandidateTransactionPlan :=
  let plan hash := mkPlan hash (pinned_claims "S-1" "P-1") demo_target demo_vault (demo_e1, demo_e2)
    demo_preview.(before_sha256) demo_preview.(observed_uuid_set_sha256) demo_preview.(after_sha256)
    demo_preview.(diff_sha256) in
  plan (compute_hash (plan ""%string)).

Lemma demo_staged : staged demo_fstab demo_observed demo_plan.
Proof.
  split.
  - exists demo_preview, demo_e1, demo_e2. split_and!; [exact demo_previewed|by vm_compute..].
  - by exists (pinned_claims "S-1" "P-1").
  - by exists "disk:1"%string, ("scan:" +:+ hex64 x01), ("recovery:" +:+ hex64 x02), ("sha256:" +:+ hex64 x03).
  - by exists demo_vault.
  - by split; apply (bool_decide_unpack _).
Qed.

Lemma fstab_plan_pins_repair_witness :
  (demo_plan = demo_plan ∧ demo_fstab = demo_fstab ∧
    preview_disable_missing_uuid demo_fstab demo_observed = preview_disable_missing_uuid demo_fstab demo_observed ∧
    ∃ preview, preview_disable_missing_uuid demo_fstab demo_observed = Ok preview ∧
      demo_plan.(plan_before_sha256) = sha256_tagged demo_fstab ∧
      demo_plan.(plan_after_sha256) = sha256_tagged preview.(proposed_fstab) ∧
      demo_plan.(target).(target_physical_parent_fingerprint) ≠ demo_plan.(vault).(vault_physical_parent_fingerprint) ∧
      demo_plan.(vault).(authenticated_and_unlocked) = true ∧
      (blen preview.(proposed_fstab) ≤ demo_plan.(vault).(required_capacity_bytes)
        ≤ demo_plan.(vault).(reserved_capacity_bytes))%Z) ∨
  collision (plan_preimage demo_plan) (plan_preimage demo_plan) ∨ collision demo_fstab demo_fstab ∨
  ∃ s s', normalize_observed_uuids demo_observed = Ok s ∧ normalize_observed_uuids demo_observed = Ok s' ∧
    collision (uuid_set_preimage s) (uuid_set_preimage s').
Proof. exact (fstab_plan_pins_repair _ _ _ _ _ _ demo_staged demo_staged eq_refl). Defined.
End PlanDemo.
