(* ===== verification/RepairServiceTypes.v ===== *)
(** * RepairServiceTypes: the vocabulary of the Rescue repair service

    src/crates/broker/src/rescue_repair_service.rs, the build with every repair
    candidate enabled - the contracts of the candidates, the requests and the
    check of their envelope, commands and approvals, receipts and descriptors
    with their constructors, and the responses. *)

From Stdlib.Strings Require Import Byte.
From Stdlib Require String Ascii.
From S2P Require Import Prelude Bytes Text Crypto Policy Protocol Admission FstabPlan VaultWire RepairVault.

(** ** Constants *)

Definition REPAIR_SERVICE_API_VERSION : string := "kernaid.dev/rescue-repair-service/v1alpha1".
Definition ROLLBACK_SERVICE_API_VERSION : string := "kernaid.dev/rescue-repair-service/v1alpha2".
Definition REPAIR_SERVICE_MAX_FRAME_BYTES : Z := 4096.

(** Instants and durations are nanoseconds. *)
Definition seconds (n : Z) : Z := (n * 1000000000)%Z.
Definition PREPARE_TIMEOUT : Z := seconds 150.
Definition EXECUTE_TIMEOUT : Z := seconds 240.
Definition CANCEL_TIMEOUT : Z := seconds 15.
Definition RISK_ID : string := "R2".
Definition EXT4_RISK_ID : string := "R3".
Definition ROLLBACK_ACTION_ID : string := "linux.fstab.restore".
Definition ROLLBACK_CONFIRMATION : string := "RIPRISTINA FSTAB ORIGINALE".

(** rescue_ext4_fsck_candidate.rs and rescue_resolver_link_candidate.rs. *)
Definition EXT4_ACTION_ID : string := "linux.ext4.fsck-preen-with-undo.v1".
Definition EXT4_RESOURCE_ID : string := "rescue:selected-linux-filesystem:ext4".
Definition EXT4_TYPED_CONFIRMATION : string := "REPAIR EXT4 OFFLINE".
Definition EXT4_PREPARED_KIND : string := "ext4-fsck-prepared".
Definition RESOLVER_LINK_ACTION_ID : string := "linux.network.restore-resolver-link.v1".
Definition RESOLVER_LINK_RESOURCE_ID : string := "rescue:selected-linux-root:etc/resolver-link".
Definition RESOLVER_LINK_TYPED_CONFIRMATION : string := "RESTORE RESOLVER LINK".
Definition RESOLVER_LINK_PREPARED_KIND : string := "resolver-link-prepared".

(** The names under which the module imports constants of other crates. *)
Abbreviation FSTAB_ACTION := FstabPlan.ACTION_ID.
Abbreviation FSTAB_RESOURCE := FstabPlan.RESOURCE_ID.
Abbreviation FSTAB_CONFIRMATION := FstabCandidate.TYPED_CONFIRMATION.
Abbreviation CRYPTTAB_ACTION := rescue_crypttab_repair.ACTION_ID.
Abbreviation CRYPTTAB_RESOURCE := rescue_crypttab_repair.RESOURCE_ID.
Abbreviation CRYPTTAB_CONFIRMATION := Crypttab.TYPED_CONFIRMATION.
Abbreviation CRYPTTAB_ROLLBACK_CONFIRMATION := Rollback.CRYPTTAB_TYPED_CONFIRMATION.

(** ** Candidates *)

Inductive RepairCandidateKind := CandidateFstab | CandidateCrypttab | CandidateExt4Fsck | CandidateResolverLink.
#[export] Instance RepairCandidateKind_eq_dec : EqDecision RepairCandidateKind.
Proof. solve_decision. Defined.

Definition resource_id (c : RepairCandidateKind) : string :=
  match c with
  | CandidateFstab => FSTAB_RESOURCE
  | CandidateCrypttab => CRYPTTAB_RESOURCE
  | CandidateExt4Fsck => EXT4_RESOURCE_ID
  | CandidateResolverLink => RESOLVER_LINK_RESOURCE_ID
  end.
Definition repair_resource (c : RepairCandidateKind) : RepairResourceV1 :=
  match c with
  | CandidateFstab => RepairVault.Fstab
  | CandidateCrypttab => RepairVault.Crypttab
  | CandidateExt4Fsck => RepairVault.Ext4Filesystem
  | CandidateResolverLink => RepairVault.ResolverLink
  end.
Definition rollback_kind (c : RepairCandidateKind) : string :=
  match c with
  | CandidateFstab => "fstab-rollback-prepared"
  | CandidateCrypttab => "crypttab-rollback-prepared"
  | CandidateExt4Fsck => "ext4-fsck-rollback-unavailable"
  | CandidateResolverLink => "resolver-link-rollback-unavailable"
  end.
Definition candidate_rollback_action_id (c : RepairCandidateKind) : string :=
  rollback_action_id (repair_resource c).
Definition rollback_confirmation (c : RepairCandidateKind) : string :=
  match c with
  | CandidateFstab => ROLLBACK_CONFIRMATION
  | CandidateCrypttab => CRYPTTAB_ROLLBACK_CONFIRMATION
  | CandidateExt4Fsck => "EXT4 SAME-BOOT ROLLBACK IS NOT EXPOSED"
  | CandidateResolverLink => "RESOLVER LINK ROLLBACK IS AUTOMATIC ONLY"
  end.
Definition from_resource_id (resource : string) : option RepairCandidateKind :=
  if resource == FSTAB_RESOURCE then Some CandidateFstab
  else if resource == CRYPTTAB_RESOURCE then Some CandidateCrypttab
  else if resource == EXT4_RESOURCE_ID then Some CandidateExt4Fsck
  else if resource == RESOLVER_LINK_RESOURCE_ID then Some CandidateResolverLink
  else None.

(** Kind, action and typed confirmation of a prepared repair. *)
Definition repair_contract (resource : string) : option (string * string * string) :=
  if resource == FSTAB_RESOURCE then Some ("fstab-prepared"%string, FSTAB_ACTION, FSTAB_CONFIRMATION)
  else if resource == CRYPTTAB_RESOURCE
  then Some ("crypttab-prepared"%string, CRYPTTAB_ACTION, CRYPTTAB_CONFIRMATION)
  else if resource == EXT4_RESOURCE_ID
  then Some (EXT4_PREPARED_KIND, EXT4_ACTION_ID, EXT4_TYPED_CONFIRMATION)
  else if resource == RESOLVER_LINK_RESOURCE_ID
  then Some (RESOLVER_LINK_PREPARED_KIND, RESOLVER_LINK_ACTION_ID, RESOLVER_LINK_TYPED_CONFIRMATION)
  else None.
Definition repair_risk (resource : string) : string :=
  if resource == EXT4_RESOURCE_ID then EXT4_RISK_ID else RISK_ID.
Definition rollback_contract (resource : string) : option (string * string * string) :=
  candidate ← from_resource_id resource;
  Some (rollback_kind candidate, candidate_rollback_action_id candidate, rollback_confirmation candidate).

(** ** Identifiers *)

Definition lower_hex (l : bytes) : bool := forallb (λ b, is_ascii_digit b || is_lower_a_f b) l.
Definition valid_fixed_id (value prefix : string) : bool :=
  match strip_prefix prefix value with
  | Some suffix => (len suffix == 32%Z) && lower_hex (as_bytes suffix)
  | None => false
  end.
Definition valid_prefixed_hash (value prefix : string) : bool :=
  match strip_prefix prefix value with
  | Some suffix => (len suffix == 64%Z) && lower_hex (as_bytes suffix)
  | None => false
  end.
Definition valid_reservation_id (value : string) : bool := valid_fixed_id value "B-".
Definition valid_backup_locator (value : string) : bool :=
  match strip_prefix "vault://repair/" value with
  | Some id => valid_reservation_id id
  | None => false
  end.

(** ** Errors, stages and states *)

Inductive RepairPrepareFailureStage :=
| TargetCapabilityTimedOut | TargetCapabilityIdentityChanged | TargetCapabilityUnavailable
| ObservationPreview | VaultReserve | AdmissionInternal.

Inductive RepairExecutionFailureStage :=
| ApprovalProof | ApprovalBinding | ApprovalAdmission | ApprovalAuthorize | ApprovalCancel
| StageAuthority | StageTarget | StageLock | StageTimeout | StageVault | StageWrite | StageMutation
| StageRecovery.

Inductive RepairEngineFailure :=
| FailPrepare (stage : RepairPrepareFailureStage)
| FailApproval (stage : RepairExecutionFailureStage)
| FailCancel
| FailExecution (stage : RepairExecutionFailureStage)
| FailRecovery
| FailRollback (stage : RepairExecutionFailureStage)
| FailInternal.

Inductive RepairServiceErrorToken :=
| TokInvalidRequest | TokUnauthorized | TokBusy | TokStateConflict | TokBindingMismatch
| TokApprovalRejected | TokPrepareFailed | TokCancelFailed | TokExecutionFailed
| TokRecoveryUnavailable | TokRollbackUnavailable | TokInternal.

Inductive RepairPublicState :=
| PubIdle | PubPreparing | PubPrepared | PubExecuting | PubSucceeded | PubRestored | PubCancelled
| PubManualReconciliationRequired | PubFailed.

Inductive RepairTerminalOutcome :=
| Committed | ClosedBeforeUnchanged | ClosedBeforeRestored | RolledBackOriginal | OutcomeCancelled
| ManualReconciliationRequired | OutcomeFailed.

#[export] Instance RepairPrepareFailureStage_eq_dec : EqDecision RepairPrepareFailureStage.
Proof. solve_decision. Defined.
#[export] Instance RepairExecutionFailureStage_eq_dec : EqDecision RepairExecutionFailureStage.
Proof. solve_decision. Defined.
#[export] Instance RepairEngineFailure_eq_dec : EqDecision RepairEngineFailure.
Proof. solve_decision. Defined.
#[export] Instance RepairServiceErrorToken_eq_dec : EqDecision RepairServiceErrorToken.
Proof. solve_decision. Defined.
#[export] Instance RepairPublicState_eq_dec : EqDecision RepairPublicState.
Proof. solve_decision. Defined.
#[export] Instance RepairTerminalOutcome_eq_dec : EqDecision RepairTerminalOutcome.
Proof. solve_decision. Defined.

(** ** Selectors *)

Record RollbackSourceReceipt := mkSource {
  src_reservation_id : string;
  src_transaction_binding_sha256 : string;
}.
#[export] Instance RollbackSourceReceipt_eq_dec : EqDecision RollbackSourceReceipt.
Proof. solve_decision. Defined.

Definition source_validate (s : RollbackSourceReceipt) : result RepairServiceErrorToken () :=
  reject (negb (valid_reservation_id s.(src_reservation_id))
          || negb (valid_prefixed_hash s.(src_transaction_binding_sha256) "sha256:"))
    with TokInvalidRequest;
  Ok tt.
Definition source_new (reservation_id transaction_binding_sha256 : string) :
    result RepairEngineFailure RollbackSourceReceipt :=
  let value := mkSource reservation_id transaction_binding_sha256 in
  _ ← map_err (λ _, FailInternal) (source_validate value);
  Ok value.

Record RepairTargetSelector := mkTarget {
  tgt_scan_fingerprint : string;
  tgt_target_fingerprint : string;
  tgt_target_id : string;
}.
Definition target_validate (t : RepairTargetSelector) : result RepairServiceErrorToken () :=
  reject (negb (valid_prefixed_hash t.(tgt_scan_fingerprint) "scan:")
          || negb (valid_prefixed_hash t.(tgt_target_fingerprint) "sha256:")
          || negb (valid_prefixed_hash t.(tgt_target_id) "target:"))
    with TokInvalidRequest;
  Ok tt.

(** ** Requests *)

Inductive RepairServiceRequest :=
| Status (api_version request_id : string)
| Prepare (api_version request_id : string) (target : RepairTargetSelector)
| CrypttabPrepare (api_version request_id : string) (target : RepairTargetSelector)
| Ext4Prepare (api_version request_id : string) (target : RepairTargetSelector)
| ResolverLinkPrepare (api_version request_id : string) (target : RepairTargetSelector)
| Approve (api_version request_id prepared_id session_id plan_id plan_hash approval_id : string)
    (approval_sequence : Z) (typed_confirmation : string)
| CrypttabApprove (api_version request_id prepared_id session_id plan_id plan_hash approval_id : string)
    (approval_sequence : Z) (typed_confirmation : string)
| Ext4Approve (api_version request_id prepared_id session_id plan_id plan_hash approval_id : string)
    (approval_sequence : Z) (typed_confirmation : string)
| ResolverLinkApprove (api_version request_id prepared_id session_id plan_id plan_hash approval_id : string)
    (approval_sequence : Z) (typed_confirmation : string)
| Cancel (api_version request_id prepared_id plan_hash : string)
| CrypttabCancel (api_version request_id prepared_id plan_hash : string)
| Ext4Cancel (api_version request_id prepared_id plan_hash : string)
| ResolverLinkCancel (api_version request_id prepared_id plan_hash : string)
| RollbackStatus (api_version request_id : string)
| CrypttabRollbackStatus (api_version request_id : string)
| RollbackPrepare (api_version request_id : string) (source : RollbackSourceReceipt)
| CrypttabRollbackPrepare (api_version request_id : string) (source : RollbackSourceReceipt)
| RollbackApprove (api_version request_id prepared_id rollback_id session_id plan_id plan_hash : string)
    (source : RollbackSourceReceipt) (approval_id : string) (approval_sequence : Z)
    (typed_confirmation : string)
| CrypttabRollbackApprove (api_version request_id prepared_id rollback_id session_id plan_id plan_hash : string)
    (source : RollbackSourceReceipt) (approval_id : string) (approval_sequence : Z)
    (typed_confirmation : string)
| RollbackCancel (api_version request_id prepared_id rollback_id plan_hash : string)
    (source : RollbackSourceReceipt)
| CrypttabRollbackCancel (api_version request_id prepared_id rollback_id plan_hash : string)
    (source : RollbackSourceReceipt).

Definition operation (r : RepairServiceRequest) : string :=
  match r with
  | Status _ _ => "repair.status"
  | Prepare _ _ _ => "repair.fstab.prepare"
  | CrypttabPrepare _ _ _ => "repair.crypttab.prepare"
  | Ext4Prepare _ _ _ => "repair.ext4.prepare"
  | ResolverLinkPrepare _ _ _ => "repair.resolver-link.prepare"
  | Approve _ _ _ _ _ _ _ _ _ => "repair.fstab.approve"
  | CrypttabApprove _ _ _ _ _ _ _ _ _ => "repair.crypttab.approve"
  | Ext4Approve _ _ _ _ _ _ _ _ _ => "repair.ext4.approve"
  | ResolverLinkApprove _ _ _ _ _ _ _ _ _ => "repair.resolver-link.approve"
  | Cancel _ _ _ _ => "repair.fstab.cancel"
  | CrypttabCancel _ _ _ _ => "repair.crypttab.cancel"
  | Ext4Cancel _ _ _ _ => "repair.ext4.cancel"
  | ResolverLinkCancel _ _ _ _ => "repair.resolver-link.cancel"
  | RollbackStatus _ _ => "repair.fstab.rollback.status"
  | RollbackPrepare _ _ _ => "repair.fstab.rollback.prepare"
  | RollbackApprove _ _ _ _ _ _ _ _ _ _ _ => "repair.fstab.rollback.approve"
  | RollbackCancel _ _ _ _ _ _ => "repair.fstab.rollback.cancel"
  | CrypttabRollbackStatus _ _ => "repair.crypttab.rollback.status"
  | CrypttabRollbackPrepare _ _ _ => "repair.crypttab.rollback.prepare"
  | CrypttabRollbackApprove _ _ _ _ _ _ _ _ _ _ _ => "repair.crypttab.rollback.approve"
  | CrypttabRollbackCancel _ _ _ _ _ _ => "repair.crypttab.rollback.cancel"
  end.

Definition request_api_version (r : RepairServiceRequest) : string :=
  match r with
  | Status api_version _
  | Prepare api_version _ _ | CrypttabPrepare api_version _ _ | Ext4Prepare api_version _ _
  | ResolverLinkPrepare api_version _ _
  | Approve api_version _ _ _ _ _ _ _ _ | CrypttabApprove api_version _ _ _ _ _ _ _ _
  | Ext4Approve api_version _ _ _ _ _ _ _ _ | ResolverLinkApprove api_version _ _ _ _ _ _ _ _
  | Cancel api_version _ _ _ | CrypttabCancel api_version _ _ _ | Ext4Cancel api_version _ _ _
  | ResolverLinkCancel api_version _ _ _
  | RollbackStatus api_version _ | CrypttabRollbackStatus api_version _
  | RollbackPrepare api_version _ _ | CrypttabRollbackPrepare api_version _ _
  | RollbackApprove api_version _ _ _ _ _ _ _ _ _ _
  | CrypttabRollbackApprove api_version _ _ _ _ _ _ _ _ _ _
  | RollbackCancel api_version _ _ _ _ _ | CrypttabRollbackCancel api_version _ _ _ _ _ => api_version
  end.

Definition request_request_id (r : RepairServiceRequest) : string :=
  match r with
  | Status _ request_id
  | Prepare _ request_id _ | CrypttabPrepare _ request_id _ | Ext4Prepare _ request_id _
  | ResolverLinkPrepare _ request_id _
  | Approve _ request_id _ _ _ _ _ _ _ | CrypttabApprove _ request_id _ _ _ _ _ _ _
  | Ext4Approve _ request_id _ _ _ _ _ _ _ | ResolverLinkApprove _ request_id _ _ _ _ _ _ _
  | Cancel _ request_id _ _ | CrypttabCancel _ request_id _ _ | Ext4Cancel _ request_id _ _
  | ResolverLinkCancel _ request_id _ _
  | RollbackStatus _ request_id | CrypttabRollbackStatus _ request_id
  | RollbackPrepare _ request_id _ | CrypttabRollbackPrepare _ request_id _
  | RollbackApprove _ request_id _ _ _ _ _ _ _ _ _
  | CrypttabRollbackApprove _ request_id _ _ _ _ _ _ _ _ _
  | RollbackCancel _ request_id _ _ _ _ | CrypttabRollbackCancel _ request_id _ _ _ _ => request_id
  end.

Definition expected_version (r : RepairServiceRequest) : string :=
  match r with
  | Status _ _
  | Prepare _ _ _ | CrypttabPrepare _ _ _ | Ext4Prepare _ _ _ | ResolverLinkPrepare _ _ _
  | Approve _ _ _ _ _ _ _ _ _ | CrypttabApprove _ _ _ _ _ _ _ _ _ | Ext4Approve _ _ _ _ _ _ _ _ _
  | ResolverLinkApprove _ _ _ _ _ _ _ _ _
  | Cancel _ _ _ _ | CrypttabCancel _ _ _ _ | Ext4Cancel _ _ _ _ | ResolverLinkCancel _ _ _ _ =>
      REPAIR_SERVICE_API_VERSION
  | RollbackStatus _ _ | CrypttabRollbackStatus _ _
  | RollbackPrepare _ _ _ | CrypttabRollbackPrepare _ _ _
  | RollbackApprove _ _ _ _ _ _ _ _ _ _ _ | CrypttabRollbackApprove _ _ _ _ _ _ _ _ _ _ _
  | RollbackCancel _ _ _ _ _ _ | CrypttabRollbackCancel _ _ _ _ _ _ => ROLLBACK_SERVICE_API_VERSION
  end.

(** The identifiers every approval carries. *)
Definition invalid_approval_ids (prepared_id session_id plan_id plan_hash approval_id : string) : bool :=
  negb (valid_fixed_id prepared_id "Q-") || negb (valid_fixed_id session_id "S-")
  || negb (valid_fixed_id plan_id "P-") || negb (valid_prefixed_hash plan_hash "sha256:")
  || negb (valid_fixed_id approval_id "A-").
Definition invalid_cancel_ids (prepared_id plan_hash : string) : bool :=
  negb (valid_fixed_id prepared_id "Q-") || negb (valid_prefixed_hash plan_hash "sha256:").

Definition validate_envelope (r : RepairServiceRequest) : result RepairServiceErrorToken () :=
  reject ((request_api_version r != expected_version r)
          || negb (is_ok (parse_request_id (request_request_id r)))) with TokInvalidRequest;
  match r with
  | Status _ _ => Ok tt
  | Prepare _ _ target | CrypttabPrepare _ _ target | Ext4Prepare _ _ target
  | ResolverLinkPrepare _ _ target => target_validate target
  | Approve _ _ prepared_id session_id plan_id plan_hash approval_id approval_sequence typed_confirmation =>
      reject (invalid_approval_ids prepared_id session_id plan_id plan_hash approval_id
              || (approval_sequence == 0%Z) || (typed_confirmation != FSTAB_CONFIRMATION))
        with TokInvalidRequest;
      Ok tt
  | CrypttabApprove _ _ prepared_id session_id plan_id plan_hash approval_id approval_sequence
      typed_confirmation =>
      reject (invalid_approval_ids prepared_id session_id plan_id plan_hash approval_id
              || (approval_sequence != 1%Z) || (typed_confirmation != CRYPTTAB_CONFIRMATION))
        with TokInvalidRequest;
      Ok tt
  | Ext4Approve _ _ prepared_id session_id plan_id plan_hash approval_id approval_sequence
      typed_confirmation =>
      reject (invalid_approval_ids prepared_id session_id plan_id plan_hash approval_id
              || (approval_sequence != 1%Z) || (typed_confirmation != EXT4_TYPED_CONFIRMATION))
        with TokInvalidRequest;
      Ok tt
  | ResolverLinkApprove _ _ prepared_id session_id plan_id plan_hash approval_id approval_sequence
      typed_confirmation =>
      reject (invalid_approval_ids prepared_id session_id plan_id plan_hash approval_id
              || (approval_sequence != 1%Z) || (typed_confirmation != RESOLVER_LINK_TYPED_CONFIRMATION))
        with TokInvalidRequest;
      Ok tt
  | Cancel _ _ prepared_id plan_hash | CrypttabCancel _ _ prepared_id plan_hash
  | Ext4Cancel _ _ prepared_id plan_hash | ResolverLinkCancel _ _ prepared_id plan_hash =>
      reject (invalid_cancel_ids prepared_id plan_hash) with TokInvalidRequest;
      Ok tt
  | RollbackStatus _ _ | CrypttabRollbackStatus _ _ => Ok tt
  | RollbackPrepare _ _ source | CrypttabRollbackPrepare _ _ source => source_validate source
  | RollbackApprove _ _ prepared_id rollback_id session_id plan_id plan_hash source approval_id
      approval_sequence typed_confirmation =>
      _ ← source_validate source;
      reject (invalid_approval_ids prepared_id session_id plan_id plan_hash approval_id
              || negb (valid_fixed_id rollback_id "RB-")
              || (approval_sequence == 0%Z) || (typed_confirmation != ROLLBACK_CONFIRMATION))
        with TokInvalidRequest;
      Ok tt
  | CrypttabRollbackApprove _ _ prepared_id rollback_id session_id plan_id plan_hash source approval_id
      approval_sequence typed_confirmation =>
      _ ← source_validate source;
      reject (invalid_approval_ids prepared_id session_id plan_id plan_hash approval_id
              || negb (valid_fixed_id rollback_id "RB-")
              || (approval_sequence == 0%Z) || (typed_confirmation != CRYPTTAB_ROLLBACK_CONFIRMATION))
        with TokInvalidRequest;
      Ok tt
  | RollbackCancel _ _ prepared_id rollback_id plan_hash source
  | CrypttabRollbackCancel _ _ prepared_id rollback_id plan_hash source =>
      _ ← source_validate source;
      reject (invalid_cancel_ids prepared_id plan_hash || negb (valid_fixed_id rollback_id "RB-"))
        with TokInvalidRequest;
      Ok tt
  end.

(** ** Commands and approvals *)

Record BrokerOwnedPrepareCommand := mkCommand {
  cmd_request_id : string;
  cmd_session_id : string;
  cmd_plan_id : string;
  cmd_target : RepairTargetSelector;
  cmd_candidate : RepairCandidateKind;
}.
Record BoundRepairApproval := mkApproval {
  apr_request_id : string;
  apr_prepared_id : string;
  apr_session_id : string;
  apr_plan_id : string;
  apr_plan_hash : string;
  apr_approval_id : string;
  apr_approval_sequence : Z;
  apr_typed_confirmation : string;
}.
Record BrokerOwnedRollbackPrepareCommand := mkRollbackCommand {
  rcmd_request_id : string;
  rcmd_session_id : string;
  rcmd_rollback_id : string;
  rcmd_plan_id : string;
  rcmd_source : RollbackSourceReceipt;
  rcmd_candidate : RepairCandidateKind;
}.
Record BoundRollbackApproval := mkRollbackApproval {
  rap_request_id : string;
  rap_prepared_id : string;
  rap_rollback_id : string;
  rap_session_id : string;
  rap_plan_id : string;
  rap_plan_hash : string;
  rap_source : RollbackSourceReceipt;
  rap_approval_id : string;
  rap_approval_sequence : Z;
  rap_typed_confirmation : string;
}.

(** ** Receipts *)

Record RepairTerminalReceipt := mkReceipt {
  rcp_outcome : RepairTerminalOutcome;
  rcp_reservation_id : option string;
  rcp_transaction_binding_sha256 : option string;
  rcp_prepare_failure_stage : option RepairPrepareFailureStage;
  rcp_execution_failure_stage : option RepairExecutionFailureStage;
}.
#[export] Instance RepairTerminalReceipt_eq_dec : EqDecision RepairTerminalReceipt.
Proof. solve_decision. Defined.

(** [as_deref().is_some_and(f)]. *)
Definition is_some_and {A} (f : A → bool) (o : option A) : bool :=
  match o with Some a => f a | None => false end.
Definition is_some {A} (o : option A) : bool := is_some_and (λ _, true) o.

Definition receipt_new (outcome : RepairTerminalOutcome) (reservation_id transaction_binding_sha256 : option string) :
    result RepairEngineFailure RepairTerminalReceipt :=
  let has_transaction := is_some reservation_id || is_some transaction_binding_sha256 in
  reject (has_transaction
          && (negb (is_some_and valid_reservation_id reservation_id)
              || negb (is_some_and (λ v, valid_prefixed_hash v "sha256:") transaction_binding_sha256)))
    with FailInternal;
  reject (bool_decide (outcome ∈ [OutcomeCancelled; OutcomeFailed]) && has_transaction) with FailInternal;
  reject (bool_decide (outcome ∈ [Committed; ClosedBeforeUnchanged; ClosedBeforeRestored; RolledBackOriginal])
          && negb has_transaction) with FailInternal;
  Ok (mkReceipt outcome reservation_id transaction_binding_sha256 None None).

Definition with_execution_failure_stage (r : RepairTerminalReceipt) (stage : option RepairExecutionFailureStage) :
    result RepairEngineFailure RepairTerminalReceipt :=
  reject (is_some stage && negb (bool_decide (r.(rcp_outcome) ∈ [ClosedBeforeUnchanged; ClosedBeforeRestored])))
    with FailInternal;
  Ok (mkReceipt r.(rcp_outcome) r.(rcp_reservation_id) r.(rcp_transaction_binding_sha256)
        r.(rcp_prepare_failure_stage) stage).

Definition cancelled_receipt : RepairTerminalReceipt := mkReceipt OutcomeCancelled None None None None.
Definition failed_receipt : RepairTerminalReceipt := mkReceipt OutcomeFailed None None None None.
Definition prepare_failed_receipt (stage : RepairPrepareFailureStage) : RepairTerminalReceipt :=
  mkReceipt OutcomeFailed None None (Some stage) None.
Definition committed_source_receipt (source : RollbackSourceReceipt) : RepairTerminalReceipt :=
  mkReceipt Committed (Some source.(src_reservation_id)) (Some source.(src_transaction_binding_sha256)) None None.
Definition source_matches_terminal (source : RollbackSourceReceipt) (terminal : RepairTerminalReceipt) : bool :=
  (terminal.(rcp_outcome) == Committed)
  && (terminal.(rcp_reservation_id) == Some source.(src_reservation_id))
  && (terminal.(rcp_transaction_binding_sha256) == Some source.(src_transaction_binding_sha256)).

Definition prepare_failure_stage (error : RepairEngineFailure) : RepairPrepareFailureStage :=
  match error with
  | FailPrepare stage => stage
  | FailApproval _ | FailCancel | FailExecution _ | FailRecovery | FailRollback _ | FailInternal =>
      AdmissionInternal
  end.

(** ** Descriptors *)

Record PreparedRepairDescriptor := mkDescriptorOf {
  dsc_session_id : string;
  dsc_plan_id : string;
  dsc_plan_hash : string;
  dsc_target_fingerprint : string;
  dsc_before_sha256 : string;
  dsc_after_sha256 : string;
  dsc_diff_sha256 : string;
  dsc_resource_id : string;
  dsc_backup_locator : string;
  dsc_next_approval_sequence : Z;
  dsc_backup_reserved : bool;
  dsc_vault_distinct : bool;
}.
Definition descriptor_new (session_id plan_id plan_hash target_fingerprint before_sha256 after_sha256
    diff_sha256 resource_id backup_locator : string) (next_approval_sequence : Z)
    (backup_reserved vault_distinct : bool) : result RepairEngineFailure PreparedRepairDescriptor :=
  reject (negb (valid_fixed_id session_id "S-")
          || negb (valid_fixed_id plan_id "P-")
          || negb (valid_prefixed_hash plan_hash "sha256:")
          || negb (valid_prefixed_hash target_fingerprint "sha256:")
          || negb (valid_prefixed_hash before_sha256 "sha256:")
          || negb (valid_prefixed_hash after_sha256 "sha256:")
          || negb (valid_prefixed_hash diff_sha256 "sha256:")
          || negb (is_some (repair_contract resource_id))
          || negb (valid_backup_locator backup_locator)
          || (next_approval_sequence == 0%Z)
          || negb backup_reserved
          || negb vault_distinct) with FailInternal;
  Ok (mkDescriptorOf session_id plan_id plan_hash target_fingerprint before_sha256 after_sha256
        diff_sha256 resource_id backup_locator next_approval_sequence backup_reserved vault_distinct).

Record PreparedRollbackDescriptor := mkRollbackDescriptor {
  rds_session_id : string;
  rds_rollback_id : string;
  rds_plan_id : string;
  rds_plan_hash : string;
  rds_target_fingerprint : string;
  rds_source : RollbackSourceReceipt;
  rds_source_approval_id : string;
  rds_resource_id : string;
  rds_backup_locator : string;
  rds_next_approval_sequence : Z;
}.
Definition locator_of (source : RollbackSourceReceipt) : string :=
  "vault://repair/" +:+ source.(src_reservation_id).
Definition rollback_descriptor_new (session_id rollback_id plan_id plan_hash target_fingerprint : string)
    (source : RollbackSourceReceipt) (source_approval_id resource_id backup_locator : string)
    (next_approval_sequence : Z) : result RepairEngineFailure PreparedRollbackDescriptor :=
  reject (negb (valid_fixed_id session_id "S-")
          || negb (valid_fixed_id rollback_id "RB-")
          || negb (valid_fixed_id plan_id "P-")
          || negb (valid_prefixed_hash plan_hash "sha256:")
          || negb (valid_prefixed_hash target_fingerprint "sha256:")
          || negb (is_ok (source_validate source))
          || negb (valid_fixed_id source_approval_id "A-")
          || negb (is_some (rollback_contract resource_id))
          || negb (valid_backup_locator backup_locator)
          || (backup_locator != locator_of source)
          || (next_approval_sequence <? 2)%Z) with FailInternal;
  Ok (mkRollbackDescriptor session_id rollback_id plan_id plan_hash target_fingerprint source
        source_approval_id resource_id backup_locator next_approval_sequence).

Definition descriptor_matches (command : BrokerOwnedPrepareCommand) (d : PreparedRepairDescriptor) : bool :=
  (d.(dsc_session_id) == command.(cmd_session_id))
  && (d.(dsc_plan_id) == command.(cmd_plan_id))
  && (d.(dsc_target_fingerprint) == command.(cmd_target).(tgt_target_fingerprint))
  && (d.(dsc_resource_id) == resource_id command.(cmd_candidate))
  && d.(dsc_backup_reserved)
  && d.(dsc_vault_distinct).

Definition rollback_resource (c : RepairCandidateKind) : option Rollback.Resource :=
  match c with
  | CandidateFstab => Some Rollback.Fstab
  | CandidateCrypttab => Some Rollback.Crypttab
  | CandidateExt4Fsck | CandidateResolverLink => None
  end.
Definition canonical_rollback_hash `{Sha256} (resource : Rollback.Resource)
    (command : BrokerOwnedRollbackPrepareCommand) (target_fingerprint : string) : option string :=
  match Rollback.canonical_rescue_repair_rollback_plan
          (Rollback.mkPlanInput resource command.(rcmd_plan_id) command.(rcmd_rollback_id)
             target_fingerprint command.(rcmd_source).(src_reservation_id)
             command.(rcmd_source).(src_transaction_binding_sha256)) with
  | Ok (_, hash) => Some hash
  | Err _ => None
  end.
Definition rollback_descriptor_matches `{Sha256} (command : BrokerOwnedRollbackPrepareCommand)
    (d : PreparedRollbackDescriptor) : bool :=
  match rollback_resource command.(rcmd_candidate) with
  | None => false
  | Some resource =>
      let canonical_hash := canonical_rollback_hash resource command d.(rds_target_fingerprint) in
      (d.(rds_session_id) == command.(rcmd_session_id))
      && (d.(rds_rollback_id) == command.(rcmd_rollback_id))
      && (d.(rds_plan_id) == command.(rcmd_plan_id))
      && (canonical_hash == Some d.(rds_plan_hash))
      && (d.(rds_source) == command.(rcmd_source))
      && (d.(rds_resource_id) == resource_id command.(rcmd_candidate))
      && (d.(rds_backup_locator) == locator_of command.(rcmd_source))
  end.

(** ** Summaries and responses *)

Record PreparedSummary := mkSummary {
  sum_prepare_request_id : string;
  sum_prepared_id : string;
  sum_descriptor : PreparedRepairDescriptor;
}.
Record PreparedRollbackSummary := mkRollbackSummary {
  rsum_prepare_request_id : string;
  rsum_prepared_id : string;
  rsum_descriptor : PreparedRollbackDescriptor;
}.

Record PreparedBackupDetail := mkBackupDetail { bd_state : string; bd_vault_distinct : bool }.
Record PreparedRepairDetail := mkPreparedDetail {
  pd_kind : string;
  pd_prepared_id : string;
  pd_session_id : string;
  pd_plan_id : string;
  pd_plan_hash : string;
  pd_target_fingerprint : string;
  pd_before_sha256 : string;
  pd_after_sha256 : string;
  pd_diff_sha256 : string;
  pd_resource_id : string;
  pd_backup_locator : string;
  pd_action_id : string;
  pd_risk : string;
  pd_backup : PreparedBackupDetail;
  pd_next_approval_sequence : Z;
  pd_confirmation_required : string;
}.
Record PreparedRollbackDetail := mkRollbackDetail {
  rd_kind : string;
  rd_prepared_id : string;
  rd_rollback_id : string;
  rd_session_id : string;
  rd_plan_id : string;
  rd_plan_hash : string;
  rd_target_fingerprint : string;
  rd_source : RollbackSourceReceipt;
  rd_resource_id : string;
  rd_backup_locator : string;
  rd_action_id : string;
  rd_risk : string;
  rd_next_approval_sequence : Z;
  rd_confirmation_required : string;
}.
Record TerminalRepairDetail := mkTerminalDetail {
  td_kind : string;
  td_terminal_outcome : string;
  td_reservation_id : option string;
  td_transaction_binding_sha256 : option string;
  td_reboot_required : bool;
  td_prepare_failure_stage : option RepairPrepareFailureStage;
}.
Inductive RepairResponseDetail :=
| DetailPrepared (d : PreparedRepairDetail)
| DetailRollbackPrepared (d : PreparedRollbackDetail)
| DetailTerminal (d : TerminalRepairDetail).

Definition summary_detail (s : PreparedSummary) : PreparedRepairDetail :=
  let d := s.(sum_descriptor) in
  let '(kind, action_id, confirmation_required) :=
    default ("invalid-prepared"%string, FSTAB_ACTION, FSTAB_CONFIRMATION) (repair_contract d.(dsc_resource_id)) in
  mkPreparedDetail kind s.(sum_prepared_id) d.(dsc_session_id) d.(dsc_plan_id) d.(dsc_plan_hash)
    d.(dsc_target_fingerprint) d.(dsc_before_sha256) d.(dsc_after_sha256) d.(dsc_diff_sha256)
    d.(dsc_resource_id) d.(dsc_backup_locator) action_id (repair_risk d.(dsc_resource_id))
    (mkBackupDetail "reserved" true) d.(dsc_next_approval_sequence) confirmation_required.

Definition rollback_summary_detail (s : PreparedRollbackSummary) : PreparedRollbackDetail :=
  let d := s.(rsum_descriptor) in
  let '(kind, action_id, confirmation_required) :=
    default ("invalid-rollback-prepared"%string, ROLLBACK_ACTION_ID, ROLLBACK_CONFIRMATION)
      (rollback_contract d.(rds_resource_id)) in
  mkRollbackDetail kind s.(rsum_prepared_id) d.(rds_rollback_id) d.(rds_session_id) d.(rds_plan_id)
    d.(rds_plan_hash) d.(rds_target_fingerprint) d.(rds_source) d.(rds_resource_id) d.(rds_backup_locator)
    action_id RISK_ID d.(rds_next_approval_sequence) confirmation_required.

Definition public_terminal_state (outcome : RepairTerminalOutcome) : RepairPublicState :=
  match outcome with
  | Committed => PubSucceeded
  | ClosedBeforeUnchanged | ClosedBeforeRestored | RolledBackOriginal => PubRestored
  | OutcomeCancelled => PubCancelled
  | ManualReconciliationRequired => PubManualReconciliationRequired
  | OutcomeFailed => PubFailed
  end.

Definition terminal_outcome (outcome : RepairTerminalOutcome) : string :=
  match outcome with
  | Committed => "committed"
  | ClosedBeforeUnchanged => "closed-before-unchanged"
  | ClosedBeforeRestored => "closed-before-restored"
  | RolledBackOriginal => "rolled-back-original"
  | OutcomeCancelled => "cancelled"
  | ManualReconciliationRequired => "manual-reconciliation-required"
  | OutcomeFailed => "failed"
  end.
Definition terminal_detail (r : RepairTerminalReceipt) : TerminalRepairDetail :=
  mkTerminalDetail "terminal" (terminal_outcome r.(rcp_outcome)) r.(rcp_reservation_id)
    r.(rcp_transaction_binding_sha256) (r.(rcp_outcome) == ManualReconciliationRequired)
    r.(rcp_prepare_failure_stage).

(** [SuccessResponse] ([error] absent) and [ErrorResponse]. *)
Record ServiceResponse := mkResponse {
  rsp_api_version : string;
  rsp_request_id : string;
  rsp_operation : string;
  rsp_outcome : string;
  rsp_state_version : Z;
  rsp_state : RepairPublicState;
  rsp_detail : option RepairResponseDetail;
  rsp_error : option RepairServiceErrorToken;
}.

Definition starts_with (prefix s : string) : bool := is_some (strip_prefix prefix s).
Definition rollback_candidate_for_operation (operation : string) : option RepairCandidateKind :=
  if starts_with "repair.fstab.rollback." operation then Some CandidateFstab
  else if starts_with "repair.crypttab.rollback." operation then Some CandidateCrypttab
  else None.
Definition api_version_for_operation (operation : string) : string :=
  if is_some (rollback_candidate_for_operation operation) then ROLLBACK_SERVICE_API_VERSION
  else REPAIR_SERVICE_API_VERSION.

(** ** Correlation of frames that do not parse *)

Record CorrelationProbe := mkProbe { probe_request_id : option string; probe_operation : option string }.

Definition correlated_request_id (p : CorrelationProbe) : string :=
  match p.(probe_request_id) with
  | Some value =>
      if is_ok (parse_request_id value) then value else "R-00000000-0000-0000-0000-000000000000"
  | None => "R-00000000-0000-0000-0000-000000000000"
  end.
Definition known_operations : list string :=
  ["repair.status"; "repair.fstab.prepare"; "repair.fstab.approve"; "repair.fstab.cancel";
   "repair.fstab.rollback.status"; "repair.fstab.rollback.prepare"; "repair.fstab.rollback.approve";
   "repair.fstab.rollback.cancel"; "repair.crypttab.prepare"; "repair.crypttab.approve";
   "repair.crypttab.cancel"; "repair.crypttab.rollback.status"; "repair.crypttab.rollback.prepare";
   "repair.crypttab.rollback.approve"; "repair.crypttab.rollback.cancel"; "repair.ext4.prepare";
   "repair.ext4.approve"; "repair.ext4.cancel"; "repair.resolver-link.prepare";
   "repair.resolver-link.approve"; "repair.resolver-link.cancel"]%string.
Definition correlated_operation (p : CorrelationProbe) : string :=
  match p.(probe_operation) with
  | Some value => if bool_decide (value ∈ known_operations) then value else "repair.status"
  | None => "repair.status"
  end.

(** serde_json on requests, probes and responses. *)
Class ServiceJson : Type := {
  read_service_request : bytes → option RepairServiceRequest;
  read_probe : bytes → option CorrelationProbe;
  write_response : ServiceResponse → option bytes;
}.

Definition correlation_probe `{ServiceJson} (frame : bytes) : CorrelationProbe :=
  default (mkProbe None None) (read_probe frame).

(** The literal that [encode_bounded] answers for a value that does not
    serialize, with the quotes of JSON written as apostrophes. *)
Definition fallback_text : string :=
  "{'apiVersion':'kernaid.dev/rescue-repair-service/v1alpha1','requestId':'R-00000000-0000-0000-0000-000000000000','operation':'repair.status','outcome':'error','stateVersion':0,'state':'failed','detail':{'kind':'terminal','terminalOutcome':'failed','reservationId':null,'transactionBindingSha256':null,'rebootRequired':false,'prepareFailureStage':null},'error':'internal'}".
Definition encode_bounded `{ServiceJson} (value : ServiceResponse) : bytes :=
  default (map (λ b, if b == x27 then x22 else b) (as_bytes fallback_text)) (write_response value).
