(* ===== verification/RepairService.v ===== *)
(** * RepairService: the state machine of the Rescue repair service

    src/crates/broker/src/rescue_repair_service.rs - the service thread, which
    answers frames, and the worker thread, which runs the engine, joined by two
    channels of capacity one. The engine is the interface [RepairEngine] (the
    traits [RepairPreparationEngine] and [RescueFstabRollbackBackend]). A
    [System] is the service, both channels, the worker and what they act on; the
    service's methods and the worker's iterations are functions on it, and
    [step] interleaves them. *)

From Stdlib.Strings Require Import Byte.
From Stdlib Require String Ascii.
From S2P Require Import Prelude Bytes Text Crypto VaultWire RepairServiceTypes.

(** ** The engine *)

(** [W] is the engine together with the outside that [cancel_prepared] and
    [cancel_prepared_rollback], which take no [self], act on. *)
Class RepairEngine (W P A PR AR : Type) : Type := {
  recover_pending : W → Z → W * result RepairEngineFailure (option RepairTerminalReceipt);
  engine_prepare : W → BrokerOwnedPrepareCommand → Z →
    W * result RepairEngineFailure (P * PreparedRepairDescriptor);
  engine_approve : W → P → BoundRepairApproval → Z → W * result RepairEngineFailure A;
  engine_execute : W → A → Z → W * result RepairEngineFailure RepairTerminalReceipt;
  cancel_prepared : W → P → Z → W * result RepairEngineFailure ();
  prepare_rollback : W → BrokerOwnedRollbackPrepareCommand → Z →
    W * result RepairEngineFailure (PR * PreparedRollbackDescriptor);
  approve_rollback : W → PR → BoundRollbackApproval → Z → W * result RepairEngineFailure AR;
  execute_rollback : W → AR → Z → W * result RepairEngineFailure RepairTerminalReceipt;
  cancel_prepared_rollback : W → PR → Z → W * result RepairEngineFailure ();
}.

(** ** States, jobs and results *)

Section states.
Context {P A PR AR : Type}.

Inductive InternalState : Type :=
| Idle
| Preparing (operation_id : Z) (command : BrokerOwnedPrepareCommand) (prepared_id : string)
| Prepared (authority : P) (summary : PreparedSummary)
| Executing (operation_id : Z)
| RollbackPreparing (operation_id : Z) (command : BrokerOwnedRollbackPrepareCommand)
    (prepared_id : string) (source_terminal : option RepairTerminalReceipt)
| RollbackPrepared (authority : PR) (summary : PreparedRollbackSummary)
    (source_terminal : RepairTerminalReceipt)
| RollbackExecuting (operation_id : Z) (source_terminal : RepairTerminalReceipt)
| RollbackCancelling (operation_id : Z) (source_terminal : RepairTerminalReceipt)
| Terminal (receipt : RepairTerminalReceipt).

Record ServiceState : Type := mkServiceState {
  version : Z;
  next_operation_id : Z;
  phase : InternalState;
}.

Inductive WorkerJob : Type :=
| JobPrepare (operation_id : Z) (command : BrokerOwnedPrepareCommand) (deadline : Z)
| JobApproveAndExecute (operation_id : Z) (prepared : P) (approval : BoundRepairApproval) (deadline : Z)
| JobCancel (operation_id : Z) (prepared : P) (deadline : Z)
| JobRollbackPrepare (operation_id : Z) (command : BrokerOwnedRollbackPrepareCommand) (deadline : Z)
| JobRollbackApproveAndExecute (operation_id : Z) (prepared : PR) (approval : BoundRollbackApproval)
    (deadline : Z)
| JobRollbackCancel (operation_id : Z) (prepared : PR) (deadline : Z).

Inductive WorkerResult : Type :=
| ResPrepared (operation_id : Z) (r : result RepairEngineFailure (P * PreparedRepairDescriptor))
| ResExecuted (operation_id : Z) (r : result RepairEngineFailure RepairTerminalReceipt)
| ResCancelled (operation_id : Z) (r : result RepairEngineFailure ())
| ResRollbackPrepared (operation_id : Z) (r : result RepairEngineFailure (PR * PreparedRollbackDescriptor))
| ResRollbackExecuted (operation_id : Z) (r : result RepairEngineFailure RepairTerminalReceipt)
| ResRollbackCancelled (operation_id : Z) (r : result RepairEngineFailure ()).

(** Where the worker is: in [jobs.recv()], in a job, in [results.send(..)], or
    out of its loop. *)
Inductive WorkerState : Type :=
| Receiving
| Working (job : WorkerJob)
| Sending (r : WorkerResult)
| Gone.

(** The calls of the engine that have been made, with their results. *)
Inductive Call : Type :=
| CallPrepare (command : BrokerOwnedPrepareCommand)
    (r : result RepairEngineFailure (P * PreparedRepairDescriptor))
| CallApprove (prepared : P) (approval : BoundRepairApproval) (r : result RepairEngineFailure A)
| CallExecute (approved : A)
| CallCancel (prepared : P)
| CallPrepareRollback (command : BrokerOwnedRollbackPrepareCommand)
    (r : result RepairEngineFailure (PR * PreparedRollbackDescriptor))
| CallApproveRollback (prepared : PR) (approval : BoundRollbackApproval) (r : result RepairEngineFailure AR)
| CallExecuteRollback (approved : AR)
| CallCancelRollback (prepared : PR).
End states.
Arguments InternalState : clear implicits.
Arguments ServiceState : clear implicits.
Arguments WorkerJob : clear implicits.
Arguments WorkerResult : clear implicits.
Arguments WorkerState : clear implicits.
Arguments Call : clear implicits.

(** The service ([state], [execution_failure_diagnostic]), the channels, whether
    the service still holds its ends, the worker, the outside with the history
    of the engine's calls, and what the kernel answers: the clock, and the
    responses of [getrandom] still to come (no more of them is an error).
    [dropped] are the authorities that went out of scope unused. *)
Record System {W P A PR AR} : Type := mkSystem {
  state : ServiceState P PR;
  execution_failure_diagnostic : option RepairExecutionFailureStage;
  jobs : list (WorkerJob P PR);
  results : list (WorkerResult P PR);
  connected : bool;
  worker : WorkerState P PR;
  world : W;
  calls : list (Call P A PR AR);
  dropped : list (P + PR);
  now : Z;
  entropy : list (option bytes);
}.
Arguments System : clear implicits.
Arguments mkSystem {W P A PR AR}.

Section fields.
Context {W P A PR AR : Type}.
Abbreviation system := (System W P A PR AR).

Definition set_state (x : ServiceState P PR) (s : system) : system :=
  let '(mkSystem _ d j r c w o l k n e) := s in mkSystem x d j r c w o l k n e.
Definition set_diagnostic (x : option RepairExecutionFailureStage) (s : system) : system :=
  let '(mkSystem st _ j r c w o l k n e) := s in mkSystem st x j r c w o l k n e.
Definition set_jobs (x : list (WorkerJob P PR)) (s : system) : system :=
  let '(mkSystem st d _ r c w o l k n e) := s in mkSystem st d x r c w o l k n e.
Definition set_results (x : list (WorkerResult P PR)) (s : system) : system :=
  let '(mkSystem st d j _ c w o l k n e) := s in mkSystem st d j x c w o l k n e.
Definition set_connected (x : bool) (s : system) : system :=
  let '(mkSystem st d j r _ w o l k n e) := s in mkSystem st d j r x w o l k n e.
Definition set_worker (x : WorkerState P PR) (s : system) : system :=
  let '(mkSystem st d j r c _ o l k n e) := s in mkSystem st d j r c x o l k n e.
(** One call of the engine: the outside after it, and the call. *)
Definition record_call (o : W) (call : Call P A PR AR) (s : system) : system :=
  let '(mkSystem st d j r c w _ l k n e) := s in mkSystem st d j r c w o (l ++ [call]) k n e.
Definition drop_authorities (x : list (P + PR)) (s : system) : system :=
  let '(mkSystem st d j r c w o l k n e) := s in mkSystem st d j r c w o l (k ++ x) n e.
Definition set_kernel (t : Z) (x : list (option bytes)) (s : system) : system :=
  let '(mkSystem st d j r c w o l k _ _) := s in mkSystem st d j r c w o l k t x.

Definition set_phase (p : InternalState P PR) (s : system) : system :=
  set_state (mkServiceState s.(state).(version) s.(state).(next_operation_id) p) s.
Definition set_version (v : Z) (s : system) : system :=
  set_state (mkServiceState v s.(state).(next_operation_id) s.(state).(phase)) s.
Definition set_next_operation_id (n : Z) (s : system) : system :=
  set_state (mkServiceState s.(state).(version) n s.(state).(phase)) s.
End fields.

(** ** The kernel *)

(** [Instant::checked_add]: seconds are an [i64]. *)
Definition INSTANT_LIMIT : Z := (2 ^ 63 * 1000000000)%Z.

(** The loop of [fresh_fixed_id] over the buffer: what [getrandom] answers for
    the part of [remaining] bytes that is not filled. *)
Fixpoint fill_random (responses : list (option bytes)) (remaining : nat) :
    list (option bytes) * option bytes :=
  match responses with
  | _ =>
      match remaining, responses with
      | O, _ => (responses, Some [])
      | _, [] => ([], None)
      | _, None :: rest => (rest, None)
      | _, Some answer :: rest =>
          let got := take remaining answer in
          match got with
          | [] => (rest, None)
          | _ :: _ =>
              let '(rest, more) := fill_random rest (remaining - length got) in
              (rest, app got <$> more)
          end
      end
  end.

Definition session_id_from_request (request_id : string) : result RepairServiceErrorToken string :=
  _ ← map_err (λ _, TokInvalidRequest) (parse_request_id request_id);
  let compact := filter (λ b, b ≠ x2d) (drop 2 (as_bytes request_id)) in
  reject (negb (bool_decide (length compact = 32)) || negb (lower_hex compact)) with TokInvalidRequest;
  Ok ("S-" +:+ String.string_of_list_byte compact).

Section service.
Context `{sha : Sha256} `{json : ServiceJson}.
Context {W P A PR AR : Type} `{engine : !RepairEngine W P A PR AR}.
Abbreviation system := (System W P A PR AR).
Abbreviation action := (method system RepairServiceErrorToken).

Definition absolute_deadline (budget : Z) : action Z :=
  s ← get_self;
  lift (reject (INSTANT_LIMIT <=? s.(now) + budget)%Z with TokInternal; Ok (s.(now) + budget)%Z).

Definition fresh_fixed_id (prefix : string) : action string := λ s,
  let '(rest, filled) := fill_random s.(entropy) 16 in
  (set_kernel s.(now) rest s,
   random ← ok_or filled TokInternal; Ok (prefix +:+ hex_string random)).

Definition take_operation_id : action Z :=
  s ← get_self;
  let value := s.(state).(next_operation_id) in
  next ← lift (ok_or (checked_add_u64 value 1) TokInternal);
  modify_self (set_next_operation_id next);;
  mret value.

Definition bump_version : action () :=
  s ← get_self;
  v ← lift (ok_or (checked_add_u64 s.(state).(version) 1) TokInternal);
  modify_self (set_version v).

Definition cancel_authority (prepared : P) (deadline : Z) (s : system) : system * result RepairEngineFailure () :=
  let '(w, r) := cancel_prepared s.(world) prepared deadline in
  (record_call w (CallCancel prepared) s, r).
Definition cancel_rollback_authority (prepared : PR) (deadline : Z) (s : system) :
    system * result RepairEngineFailure () :=
  let '(w, r) := cancel_prepared_rollback s.(world) prepared deadline in
  (record_call w (CallCancelRollback prepared) s, r).
(** [let _ = Engine::cancel_prepared(prepared, Instant::now() + CANCEL_TIMEOUT);] *)
Definition discard (prepared : P) (s : system) : system :=
  (cancel_authority prepared (s.(now) + CANCEL_TIMEOUT)%Z s).1.
Definition discard_rollback (prepared : PR) (s : system) : system :=
  (cancel_rollback_authority prepared (s.(now) + CANCEL_TIMEOUT)%Z s).1.

(** [self.jobs.try_send(job)]: fails when the slot is taken or the receiver is gone. *)
Definition try_send (job : WorkerJob P PR) (s : system) : option system :=
  match s.(worker), s.(jobs) with
  | Gone, _ => None
  | _, _ :: _ => None
  | _, [] => Some (set_jobs [job] s)
  end.

(** *** Prepare, approve, cancel *)

Definition begin_prepare (request_id : string) (target : RepairTargetSelector)
    (candidate : RepairCandidateKind) : action () :=
  s ← get_self;
  lift (match s.(state).(phase) with
        | Idle => Ok tt
        | Preparing _ _ _ | Executing _ | RollbackPreparing _ _ _ _ | RollbackExecuting _ _
        | RollbackCancelling _ _ => Err TokBusy
        | Prepared _ _ | RollbackPrepared _ _ _ | Terminal _ => Err TokStateConflict
        end);;
  session_id ← lift (session_id_from_request request_id);
  plan_id ← fresh_fixed_id "P-";
  prepared_id ← fresh_fixed_id "Q-";
  operation_id ← take_operation_id;
  let command := mkCommand request_id session_id plan_id target candidate in
  deadline ← absolute_deadline PREPARE_TIMEOUT;
  s ← get_self;
  match try_send (JobPrepare operation_id command deadline) s with
  | None => throw TokInternal
  | Some sent =>
      modify_self (λ _, sent);;
      modify_self (set_phase (Preparing operation_id command prepared_id));;
      bump_version
  end.

Definition begin_approval (approval : BoundRepairApproval) (candidate : RepairCandidateKind) : action () :=
  s ← get_self;
  lift (match s.(state).(phase) with
        | Preparing _ _ _ | Executing _ | RollbackPreparing _ _ _ _ | RollbackExecuting _ _
        | RollbackCancelling _ _ => Err TokBusy
        | Idle | Terminal _ | RollbackPrepared _ _ _ => Err TokStateConflict
        | Prepared _ summary =>
            let descriptor := summary.(sum_descriptor) in
            reject ((approval.(apr_request_id) == summary.(sum_prepare_request_id))
                    || (approval.(apr_prepared_id) != summary.(sum_prepared_id))
                    || (approval.(apr_session_id) != descriptor.(dsc_session_id))
                    || (approval.(apr_plan_id) != descriptor.(dsc_plan_id))
                    || (approval.(apr_plan_hash) != descriptor.(dsc_plan_hash))
                    || (approval.(apr_approval_sequence) != descriptor.(dsc_next_approval_sequence))
                    || (descriptor.(dsc_resource_id) != resource_id candidate))
              with TokBindingMismatch;
            Ok tt
        end);;
  operation_id ← take_operation_id;
  deadline ← absolute_deadline EXECUTE_TIMEOUT;
  previous ← get_self;
  modify_self (set_phase (Executing operation_id));;
  match previous.(state).(phase) with
  | Prepared prepared _ =>
      s ← get_self;
      match try_send (JobApproveAndExecute operation_id prepared approval deadline) s with
      | None =>
          modify_self (discard prepared);;
          modify_self (set_phase (Terminal failed_receipt));;
          bump_version;;
          throw TokInternal
      | Some sent => modify_self (λ _, sent);; bump_version
      end
  | _ => throw TokInternal
  end.

Definition begin_cancel (request_id prepared_id plan_hash : string) (candidate : RepairCandidateKind) :
    action () :=
  s ← get_self;
  lift (match s.(state).(phase) with
        | Preparing _ _ _ | Executing _ | RollbackPreparing _ _ _ _ | RollbackExecuting _ _
        | RollbackCancelling _ _ => Err TokBusy
        | Idle | Terminal _ | RollbackPrepared _ _ _ => Err TokStateConflict
        | Prepared _ summary =>
            reject ((request_id == summary.(sum_prepare_request_id))
                    || (prepared_id != summary.(sum_prepared_id))
                    || (plan_hash != summary.(sum_descriptor).(dsc_plan_hash))
                    || (summary.(sum_descriptor).(dsc_resource_id) != resource_id candidate))
              with TokBindingMismatch;
            Ok tt
        end);;
  operation_id ← take_operation_id;
  deadline ← absolute_deadline CANCEL_TIMEOUT;
  previous ← get_self;
  modify_self (set_phase (Executing operation_id));;
  match previous.(state).(phase) with
  | Prepared prepared _ =>
      s ← get_self;
      match try_send (JobCancel operation_id prepared deadline) s with
      | None =>
          modify_self (discard prepared);;
          modify_self (set_phase (Terminal failed_receipt));;
          bump_version;;
          throw TokInternal
      | Some sent => modify_self (λ _, sent);; bump_version
      end
  | _ => throw TokInternal
  end.

(** *** Rollback *)

Definition begin_rollback_prepare (request_id : string) (source : RollbackSourceReceipt)
    (candidate : RepairCandidateKind) : action () :=
  s ← get_self;
  source_terminal ← lift (match s.(state).(phase) with
        | Idle => Ok None
        | Terminal receipt =>
            if source_matches_terminal source receipt then Ok (Some receipt) else Err TokBindingMismatch
        | Preparing _ _ _ | Executing _ | RollbackPreparing _ _ _ _ | RollbackExecuting _ _
        | RollbackCancelling _ _ => Err TokBusy
        | Prepared _ _ | RollbackPrepared _ _ _ => Err TokBindingMismatch
        end);
  session_id ← lift (session_id_from_request request_id);
  rollback_id ← fresh_fixed_id "RB-";
  plan_id ← fresh_fixed_id "P-";
  prepared_id ← fresh_fixed_id "Q-";
  operation_id ← take_operation_id;
  let command := mkRollbackCommand request_id session_id rollback_id plan_id source candidate in
  deadline ← absolute_deadline PREPARE_TIMEOUT;
  s ← get_self;
  match try_send (JobRollbackPrepare operation_id command deadline) s with
  | None => throw TokInternal
  | Some sent =>
      modify_self (λ _, sent);;
      modify_self (set_phase (RollbackPreparing operation_id command prepared_id source_terminal));;
      bump_version
  end.

Definition begin_rollback_approval (approval : BoundRollbackApproval) (candidate : RepairCandidateKind) :
    action () :=
  s ← get_self;
  lift (match s.(state).(phase) with
        | RollbackPrepared _ summary _ =>
            let descriptor := summary.(rsum_descriptor) in
            reject ((approval.(rap_request_id) == summary.(rsum_prepare_request_id))
                    || (approval.(rap_prepared_id) != summary.(rsum_prepared_id))
                    || (approval.(rap_rollback_id) != descriptor.(rds_rollback_id))
                    || (approval.(rap_session_id) != descriptor.(rds_session_id))
                    || (approval.(rap_plan_id) != descriptor.(rds_plan_id))
                    || (approval.(rap_plan_hash) != descriptor.(rds_plan_hash))
                    || (approval.(rap_source) != descriptor.(rds_source))
                    || (approval.(rap_approval_id) == descriptor.(rds_source_approval_id))
                    || (approval.(rap_approval_sequence) != descriptor.(rds_next_approval_sequence))
                    || (descriptor.(rds_resource_id) != resource_id candidate))
              with TokBindingMismatch;
            Ok tt
        | Preparing _ _ _ | Executing _ | RollbackPreparing _ _ _ _ | RollbackExecuting _ _
        | RollbackCancelling _ _ => Err TokBusy
        | Idle | Prepared _ _ | Terminal _ => Err TokStateConflict
        end);;
  executing_source ← lift (match s.(state).(phase) with
        | RollbackPrepared _ _ source_terminal => Ok source_terminal
        | _ => Err TokInternal
        end);
  operation_id ← take_operation_id;
  deadline ← absolute_deadline EXECUTE_TIMEOUT;
  previous ← get_self;
  modify_self (set_phase (RollbackExecuting operation_id executing_source));;
  match previous.(state).(phase) with
  | RollbackPrepared authority _ source_terminal =>
      s ← get_self;
      match try_send (JobRollbackApproveAndExecute operation_id authority approval deadline) s with
      | None =>
          modify_self (discard_rollback authority);;
          modify_self (set_phase (Terminal source_terminal));;
          bump_version;;
          throw TokInternal
      | Some sent => modify_self (λ _, sent);; bump_version
      end
  | _ => throw TokInternal
  end.

Definition begin_rollback_cancel (request_id prepared_id rollback_id plan_hash : string)
    (source : RollbackSourceReceipt) (candidate : RepairCandidateKind) : action () :=
  s ← get_self;
  lift (match s.(state).(phase) with
        | RollbackPrepared _ summary _ =>
            let descriptor := summary.(rsum_descriptor) in
            reject ((request_id == summary.(rsum_prepare_request_id))
                    || (prepared_id != summary.(rsum_prepared_id))
                    || (rollback_id != descriptor.(rds_rollback_id))
                    || (plan_hash != descriptor.(rds_plan_hash))
                    || (source != descriptor.(rds_source))
                    || (descriptor.(rds_resource_id) != resource_id candidate))
              with TokBindingMismatch;
            Ok tt
        | Preparing _ _ _ | Executing _ | RollbackPreparing _ _ _ _ | RollbackExecuting _ _
        | RollbackCancelling _ _ => Err TokBusy
        | Idle | Prepared _ _ | Terminal _ => Err TokStateConflict
        end);;
  cancelling_source ← lift (match s.(state).(phase) with
        | RollbackPrepared _ _ source_terminal => Ok source_terminal
        | _ => Err TokInternal
        end);
  operation_id ← take_operation_id;
  deadline ← absolute_deadline CANCEL_TIMEOUT;
  previous ← get_self;
  modify_self (set_phase (RollbackExecuting operation_id cancelling_source));;
  match previous.(state).(phase) with
  | RollbackPrepared authority _ source_terminal =>
      s ← get_self;
      match try_send (JobRollbackCancel operation_id authority deadline) s with
      | None =>
          modify_self (discard_rollback authority);;
          modify_self (set_phase (Terminal source_terminal));;
          bump_version;;
          throw TokInternal
      | Some sent =>
          modify_self (λ _, sent);;
          modify_self (set_phase (RollbackCancelling operation_id source_terminal));;
          bump_version
      end
  | _ => throw TokInternal
  end.

Definition dispatch (r : RepairServiceRequest) : action () :=
  match r with
  | Status _ _ | RollbackStatus _ _ | CrypttabRollbackStatus _ _ => mret tt
  | Prepare _ request_id target => begin_prepare request_id target CandidateFstab
  | CrypttabPrepare _ request_id target => begin_prepare request_id target CandidateCrypttab
  | Ext4Prepare _ request_id target => begin_prepare request_id target CandidateExt4Fsck
  | ResolverLinkPrepare _ request_id target => begin_prepare request_id target CandidateResolverLink
  | Approve _ request_id prepared_id session_id plan_id plan_hash approval_id sequence confirmation =>
      begin_approval (mkApproval request_id prepared_id session_id plan_id plan_hash approval_id sequence
        confirmation) CandidateFstab
  | CrypttabApprove _ request_id prepared_id session_id plan_id plan_hash approval_id sequence confirmation =>
      begin_approval (mkApproval request_id prepared_id session_id plan_id plan_hash approval_id sequence
        confirmation) CandidateCrypttab
  | Ext4Approve _ request_id prepared_id session_id plan_id plan_hash approval_id sequence confirmation =>
      begin_approval (mkApproval request_id prepared_id session_id plan_id plan_hash approval_id sequence
        confirmation) CandidateExt4Fsck
  | ResolverLinkApprove _ request_id prepared_id session_id plan_id plan_hash approval_id sequence
      confirmation =>
      begin_approval (mkApproval request_id prepared_id session_id plan_id plan_hash approval_id sequence
        confirmation) CandidateResolverLink
  | Cancel _ request_id prepared_id plan_hash =>
      begin_cancel request_id prepared_id plan_hash CandidateFstab
  | CrypttabCancel _ request_id prepared_id plan_hash =>
      begin_cancel request_id prepared_id plan_hash CandidateCrypttab
  | Ext4Cancel _ request_id prepared_id plan_hash =>
      begin_cancel request_id prepared_id plan_hash CandidateExt4Fsck
  | ResolverLinkCancel _ request_id prepared_id plan_hash =>
      begin_cancel request_id prepared_id plan_hash CandidateResolverLink
  | RollbackPrepare _ request_id source => begin_rollback_prepare request_id source CandidateFstab
  | CrypttabRollbackPrepare _ request_id source => begin_rollback_prepare request_id source CandidateCrypttab
  | RollbackApprove _ request_id prepared_id rollback_id session_id plan_id plan_hash source approval_id
      sequence confirmation =>
      begin_rollback_approval (mkRollbackApproval request_id prepared_id rollback_id session_id plan_id
        plan_hash source approval_id sequence confirmation) CandidateFstab
  | CrypttabRollbackApprove _ request_id prepared_id rollback_id session_id plan_id plan_hash source
      approval_id sequence confirmation =>
      begin_rollback_approval (mkRollbackApproval request_id prepared_id rollback_id session_id plan_id
        plan_hash source approval_id sequence confirmation) CandidateCrypttab
  | RollbackCancel _ request_id prepared_id rollback_id plan_hash source =>
      begin_rollback_cancel request_id prepared_id rollback_id plan_hash source CandidateFstab
  | CrypttabRollbackCancel _ request_id prepared_id rollback_id plan_hash source =>
      begin_rollback_cancel request_id prepared_id rollback_id plan_hash source CandidateCrypttab
  end.

(** *** Results of the worker *)

(** [if self.execution_failure_diagnostic.is_none() { .. = stage; }] *)
Definition note_diagnostic (stage : option RepairExecutionFailureStage) (s : system) : system :=
  match s.(execution_failure_diagnostic) with
  | None => set_diagnostic stage s
  | Some _ => s
  end.
(** [let _ = self.bump_version();] *)
Definition bump (s : system) : system := final bump_version s.
(** [self.state.phase = phase; let _ = self.bump_version();] *)
Definition enter (p : InternalState P PR) (s : system) : system := bump (set_phase p s).
(** [fallback.map_or(InternalState::Idle, InternalState::Terminal)] *)
Definition idle_or_terminal (fallback : option RepairTerminalReceipt) : InternalState P PR :=
  match fallback with None => Idle | Some receipt => Terminal receipt end.

Definition apply_prepared (operation_id : Z) (r : result RepairEngineFailure (P * PreparedRepairDescriptor))
    (s : system) : system :=
  let stale := match r with Ok (prepared, _) => discard prepared s | Err _ => s end in
  match s.(state).(phase) with
  | Preparing expected command prepared_id =>
      if operation_id != expected then stale
      else match r with
      | Ok (authority, descriptor) =>
          if descriptor_matches command descriptor
          then enter (Prepared authority (mkSummary command.(cmd_request_id) prepared_id descriptor)) s
          else enter (Terminal (prepare_failed_receipt AdmissionInternal)) (discard authority s)
      | Err error => enter (Terminal (prepare_failed_receipt (prepare_failure_stage error))) s
      end
  | _ => stale
  end.

Definition apply_executed (operation_id : Z) (r : result RepairEngineFailure RepairTerminalReceipt)
    (s : system) : system :=
  match s.(state).(phase) with
  | Executing expected =>
      if expected != operation_id then s
      else
        let '(receipt, s) :=
          match r with
          | Ok receipt => (receipt, note_diagnostic receipt.(rcp_execution_failure_stage) s)
          | Err (FailApproval stage) => (failed_receipt, note_diagnostic (Some stage) s)
          | Err FailCancel => (failed_receipt, note_diagnostic (Some ApprovalCancel) s)
          | Err (FailExecution stage) => (failed_receipt, note_diagnostic (Some stage) s)
          | Err _ => (failed_receipt, s)
          end in
        enter (Terminal receipt) s
  | _ => s
  end.

Definition apply_cancelled (operation_id : Z) (r : result RepairEngineFailure ()) (s : system) : system :=
  match s.(state).(phase) with
  | Executing expected =>
      if expected != operation_id then s
      else enter (Terminal (if is_ok r then cancelled_receipt else failed_receipt)) s
  | _ => s
  end.

Definition apply_rollback_prepared (operation_id : Z)
    (r : result RepairEngineFailure (PR * PreparedRollbackDescriptor)) (s : system) : system :=
  let stale := match r with Ok (prepared, _) => discard_rollback prepared s | Err _ => s end in
  match s.(state).(phase) with
  | RollbackPreparing expected command prepared_id fallback =>
      if operation_id != expected then stale
      else match r with
      | Ok (authority, descriptor) =>
          if rollback_descriptor_matches command descriptor
          then enter (RollbackPrepared authority
                        (mkRollbackSummary command.(rcmd_request_id) prepared_id descriptor)
                        (committed_source_receipt descriptor.(rds_source))) s
          else enter (idle_or_terminal fallback) (discard_rollback authority s)
      | Err (FailRollback stage) => enter (idle_or_terminal fallback) (note_diagnostic (Some stage) s)
      | Err _ => enter (idle_or_terminal fallback) s
      end
  | _ => stale
  end.

Definition apply_rollback_executed (operation_id : Z) (r : result RepairEngineFailure RepairTerminalReceipt)
    (s : system) : system :=
  match s.(state).(phase) with
  | RollbackExecuting expected source_terminal =>
      if expected != operation_id then s
      else
        let '(receipt, s) :=
          match r with
          | Ok receipt =>
              (if bool_decide (receipt.(rcp_outcome) ∈ [RolledBackOriginal; ManualReconciliationRequired])
               then receipt else failed_receipt, s)
          | Err (FailApproval stage) => (source_terminal, note_diagnostic (Some stage) s)
          | Err (FailExecution stage) => (failed_receipt, note_diagnostic (Some stage) s)
          | Err _ => (failed_receipt, s)
          end in
        enter (Terminal receipt) s
  | _ => s
  end.

Definition apply_rollback_cancelled (operation_id : Z) (r : result RepairEngineFailure ()) (s : system) :
    system :=
  match s.(state).(phase) with
  | RollbackCancelling expected source_terminal =>
      if expected != operation_id then s
      else enter (Terminal source_terminal)
             (if is_ok r then s else note_diagnostic (Some ApprovalCancel) s)
  | _ => s
  end.

Definition apply_worker_result (r : WorkerResult P PR) (s : system) : system :=
  match r with
  | ResPrepared operation_id r => apply_prepared operation_id r s
  | ResExecuted operation_id r => apply_executed operation_id r s
  | ResCancelled operation_id r => apply_cancelled operation_id r s
  | ResRollbackPrepared operation_id r => apply_rollback_prepared operation_id r s
  | ResRollbackExecuted operation_id r => apply_rollback_executed operation_id r s
  | ResRollbackCancelled operation_id r => apply_rollback_cancelled operation_id r s
  end.

(** The loop over what the channel holds. *)
Definition drain_results (s : system) : system :=
  foldl (λ s r, apply_worker_result r s) (set_results [] s) s.(results).

(** *** Responses *)

Definition snapshot (s : system) : RepairPublicState * option RepairResponseDetail :=
  match s.(state).(phase) with
  | Idle => (PubIdle, None)
  | Preparing _ _ _ | RollbackPreparing _ _ _ _ => (PubPreparing, None)
  | Prepared _ summary => (PubPrepared, Some (DetailPrepared (summary_detail summary)))
  | Executing _ => (PubExecuting, None)
  | RollbackPrepared _ summary _ =>
      (PubPrepared, Some (DetailRollbackPrepared (rollback_summary_detail summary)))
  | RollbackExecuting _ _ | RollbackCancelling _ _ => (PubExecuting, None)
  | Terminal receipt =>
      (public_terminal_state receipt.(rcp_outcome), Some (DetailTerminal (terminal_detail receipt)))
  end.

Definition snapshot_for_operation (operation : string) (s : system) :
    RepairPublicState * option RepairResponseDetail :=
  let rollback_candidate := rollback_candidate_for_operation operation in
  let rollback_api := is_some rollback_candidate in
  let other_resource :=
    match s.(state).(phase), rollback_candidate with
    | RollbackPrepared _ summary _, Some candidate =>
        summary.(rsum_descriptor).(rds_resource_id) != resource_id candidate
    | _, _ => false
    end in
  if other_resource then (PubExecuting, None)
  else match s.(state).(phase), rollback_api with
  | (Preparing _ _ _ | Prepared _ _ | Executing _), true
  | (RollbackPreparing _ _ _ _ | RollbackPrepared _ _ _ | RollbackExecuting _ _
     | RollbackCancelling _ _), false => (PubExecuting, None)
  | Terminal receipt, false =>
      if receipt.(rcp_outcome) == RolledBackOriginal
      then let legacy := mkReceipt ClosedBeforeRestored receipt.(rcp_reservation_id)
                           receipt.(rcp_transaction_binding_sha256) receipt.(rcp_prepare_failure_stage)
                           receipt.(rcp_execution_failure_stage) in
           (PubRestored, Some (DetailTerminal (terminal_detail legacy)))
      else snapshot s
  | _, _ => snapshot s
  end.

Definition success_response (request_id operation : string) (s : system) : ServiceResponse :=
  let '(state_, detail) := snapshot_for_operation operation s in
  mkResponse (api_version_for_operation operation) request_id operation "ok" s.(state).(version) state_
    detail None.
Definition error_response (request_id operation : string) (error : RepairServiceErrorToken) (s : system) :
    ServiceResponse :=
  let '(state_, detail) := snapshot_for_operation operation s in
  mkResponse (api_version_for_operation operation) request_id operation "error" s.(state).(version) state_
    detail (Some error).

(** *** The worker *)

Definition run_job (job : WorkerJob P PR) (s : system) : system * WorkerResult P PR :=
  match job with
  | JobPrepare operation_id command deadline =>
      let '(w, r) := engine_prepare s.(world) command deadline in
      (record_call w (CallPrepare command r) s, ResPrepared operation_id r)
  | JobApproveAndExecute operation_id prepared approval deadline =>
      let '(w, approved) := engine_approve s.(world) prepared approval deadline in
      let s := record_call w (CallApprove prepared approval approved) s in
      match approved with
      | Err e => (s, ResExecuted operation_id (Err e))
      | Ok approved =>
          let '(w, r) := engine_execute s.(world) approved deadline in
          (record_call w (CallExecute approved) s, ResExecuted operation_id r)
      end
  | JobCancel operation_id prepared deadline =>
      let '(s, r) := cancel_authority prepared deadline s in (s, ResCancelled operation_id r)
  | JobRollbackPrepare operation_id command deadline =>
      let '(w, r) := prepare_rollback s.(world) command deadline in
      (record_call w (CallPrepareRollback command r) s, ResRollbackPrepared operation_id r)
  | JobRollbackApproveAndExecute operation_id prepared approval deadline =>
      let '(w, approved) := approve_rollback s.(world) prepared approval deadline in
      let s := record_call w (CallApproveRollback prepared approval approved) s in
      match approved with
      | Err e => (s, ResRollbackExecuted operation_id (Err e))
      | Ok approved =>
          let '(w, r) := execute_rollback s.(world) approved deadline in
          (record_call w (CallExecuteRollback approved) s, ResRollbackExecuted operation_id r)
      end
  | JobRollbackCancel operation_id prepared deadline =>
      let '(s, r) := cancel_rollback_authority prepared deadline s in (s, ResRollbackCancelled operation_id r)
  end.

(** One move of the loop of [run_worker]: receive, run, send. A receive on an
    empty channel, or a send into a full one, blocks while the service lives;
    once the service has dropped its ends, the first ends the loop and the
    second fails, which cancels a prepared authority and ends the loop. *)
Definition worker_move (s : system) : system :=
  match s.(worker) with
  | Receiving =>
      match s.(jobs) with
      | job :: rest => set_worker (Working job) (set_jobs rest s)
      | [] => if s.(connected) then s else set_worker Gone s
      end
  | Working job => let '(s, r) := run_job job s in set_worker (Sending r) s
  | Sending r =>
      if s.(connected)
      then match s.(results) with
           | [] => set_worker Receiving (set_results [r] s)
           | _ :: _ => s
           end
      else set_worker Gone
             (match r with
              | ResPrepared _ (Ok (prepared, _)) => discard prepared s
              | ResRollbackPrepared _ (Ok (prepared, _)) => discard_rollback prepared s
              | _ => s
              end)
  | Gone => s
  end.

(** *** The service's entry points *)

(** [moves] counts the moves the worker makes between the dispatch and the
    second drain. *)
Definition handle_request (moves : nat) (request : RepairServiceRequest) (s : system) :
    system * ServiceResponse :=
  let request_id := request_request_id request in
  match validate_envelope request with
  | Err error => (s, error_response request_id (operation request) error s)
  | Ok _ =>
      let '(s, outcome) := dispatch request s in
      let s := drain_results (Nat.iter moves worker_move s) in
      (s, match outcome with
          | Ok _ => success_response request_id (operation request) s
          | Err error => error_response request_id (operation request) error s
          end)
  end.

Definition handle_frame (moves : nat) (frame : bytes) (s : system) : system * bytes :=
  let s := drain_results s in
  let correlation := correlation_probe frame in
  let malformed :=
    (s, encode_bounded (error_response (correlated_request_id correlation)
          (correlated_operation correlation) TokInvalidRequest s)) in
  if bool_decide (frame = []) || (REPAIR_SERVICE_MAX_FRAME_BYTES <? blen frame)%Z then malformed
  else match read_service_request frame with
  | None => malformed
  | Some request =>
      let '(s, response) := handle_request moves request s in (s, encode_bounded response)
  end.

Definition public_state (s : system) : system * RepairPublicState :=
  let s := drain_results s in (s, (snapshot s).1).
Definition state_version (s : system) : system * Z :=
  let s := drain_results s in (s, s.(state).(version)).
Definition take_execution_failure_diagnostic (s : system) :
    system * option RepairExecutionFailureStage :=
  let s := drain_results s in (set_diagnostic None s, s.(execution_failure_diagnostic)).

(** [RescueRepairService::start]; [spawned] is whether the thread started. *)
Inductive RepairServiceStartError := RecoveryUnavailable | WorkerUnavailable.

Definition start (w : W) (recovery_deadline : Z) (spawned : bool) (t : Z) (random : list (option bytes)) :
    result RepairServiceStartError system :=
  let '(w, recovery) := recover_pending w recovery_deadline in
  recovered ← map_err (λ _, RecoveryUnavailable) recovery;
  let recovery_failure_diagnostic := recovered ≫= rcp_execution_failure_stage in
  reject (negb spawned) with WorkerUnavailable;
  Ok (mkSystem (mkServiceState 1 1 (idle_or_terminal recovered)) recovery_failure_diagnostic [] [] true
        Receiving w [] [] t random).

(** *** Runs *)

Definition phase_authorities (p : InternalState P PR) : list (P + PR) :=
  match p with
  | Prepared authority _ => [inl authority]
  | RollbackPrepared authority _ _ => [inr authority]
  | _ => []
  end.
Definition job_authorities (j : WorkerJob P PR) : list (P + PR) :=
  match j with
  | JobApproveAndExecute _ prepared _ _ | JobCancel _ prepared _ => [inl prepared]
  | JobRollbackApproveAndExecute _ prepared _ _ | JobRollbackCancel _ prepared _ => [inr prepared]
  | JobPrepare _ _ _ | JobRollbackPrepare _ _ _ => []
  end.
Definition result_authorities (r : WorkerResult P PR) : list (P + PR) :=
  match r with
  | ResPrepared _ (Ok (prepared, _)) => [inl prepared]
  | ResRollbackPrepared _ (Ok (prepared, _)) => [inr prepared]
  | _ => []
  end.

(** The service goes out of scope: what it holds and what waits in its channel
    is dropped, and both channels lose their end. *)
Definition drop_service (s : system) : system :=
  set_connected false (set_results []
    (drop_authorities (phase_authorities s.(state).(phase) ++ (s.(results) ≫= result_authorities)) s)).

(** A panic of the engine unwinds the worker: the job in progress and the jobs
    in the channel are dropped with it. *)
Definition worker_panics (s : system) : system :=
  match s.(worker) with
  | Working job =>
      set_worker Gone (set_jobs []
        (drop_authorities (job_authorities job ++ (s.(jobs) ≫= job_authorities)) s))
  | _ => s
  end.

Inductive step : system → system → Prop :=
| step_frame s moves frame :
    s.(connected) = true → step s (handle_frame moves frame s).1
| step_poll s :
    s.(connected) = true → step s (take_execution_failure_diagnostic s).1
| step_worker s : step s (worker_move s)
| step_panic s : step s (worker_panics s)
| step_drop s : s.(connected) = true → step s (drop_service s)
| step_kernel s t random : (s.(now) ≤ t)%Z → step s (set_kernel t random s).

Inductive reachable : system → Prop :=
| reach_start w deadline t random s :
    start w deadline true t random = Ok s → reachable s
| reach_step s s' : reachable s → step s s' → reachable s'.
End service.
