(* ===== verification/RepairServiceInvariant.v ===== *)
(** * RepairServiceInvariant: what holds in every reachable state of the service

    The invariant of the repair service and its worker. At most one job is
    anywhere between the service and the worker, and it is the job the phase of
    the service waits for; every approval on its way to the engine is bound to
    the plan the engine prepared; and every authority the engine handed out is
    in exactly one place: held by the phase, travelling in a channel, consumed
    by a call, or dropped. *)

From Stdlib.Strings Require Import Byte.
From Stdlib Require String Ascii.
From S2P Require Import Prelude Bytes Text Crypto VaultWire RepairServiceTypes RepairService.

(** Unfolds the setters on a system given by its fields. *)
Ltac open_system s := destruct s as [[? ? ?] ? ? ? ? ? ? ? ? ? ?]; simpl in *.

Section invariant.
Context `{sha : Sha256}.
Context {W P A PR AR : Type} `{engine : !RepairEngine W P A PR AR}.
Abbreviation system := (System W P A PR AR).

(** ** The part of the state that versions, clocks and diagnostics leave alone *)

Record Core := mkCore {
  c_phase : InternalState P PR;
  c_jobs : list (WorkerJob P PR);
  c_results : list (WorkerResult P PR);
  c_connected : bool;
  c_worker : WorkerState P PR;
  c_calls : list (Call P A PR AR);
  c_dropped : list (P + PR);
}.
Definition core (s : system) : Core :=
  mkCore s.(state).(phase) s.(jobs) s.(results) s.(connected) s.(worker) s.(calls) s.(dropped).

(** ** Approvals that are bound to what the engine prepared *)

(** The typed confirmation of a candidate's repair. *)
Definition repair_confirmation (c : RepairCandidateKind) : string :=
  match c with
  | CandidateFstab => FSTAB_CONFIRMATION
  | CandidateCrypttab => CRYPTTAB_CONFIRMATION
  | CandidateExt4Fsck => EXT4_TYPED_CONFIRMATION
  | CandidateResolverLink => RESOLVER_LINK_TYPED_CONFIRMATION
  end.

Record approval_binds (a : BoundRepairApproval) (command : BrokerOwnedPrepareCommand)
    (d : PreparedRepairDescriptor) : Prop := {
  ab_fresh : a.(apr_request_id) ≠ command.(cmd_request_id);
  ab_session : a.(apr_session_id) = command.(cmd_session_id);
  ab_plan : a.(apr_plan_id) = command.(cmd_plan_id);
  ab_hash : a.(apr_plan_hash) = d.(dsc_plan_hash);
  ab_sequence : a.(apr_approval_sequence) = d.(dsc_next_approval_sequence);
  ab_confirmation : a.(apr_typed_confirmation) = repair_confirmation command.(cmd_candidate);
}.

Record rollback_binds (a : BoundRollbackApproval) (command : BrokerOwnedRollbackPrepareCommand)
    (d : PreparedRollbackDescriptor) : Prop := {
  rb_fresh : a.(rap_request_id) ≠ command.(rcmd_request_id);
  rb_rollback : a.(rap_rollback_id) = command.(rcmd_rollback_id);
  rb_session : a.(rap_session_id) = command.(rcmd_session_id);
  rb_plan : a.(rap_plan_id) = command.(rcmd_plan_id);
  rb_hash : a.(rap_plan_hash) = d.(rds_plan_hash);
  rb_source : a.(rap_source) = command.(rcmd_source);
  rb_approval : a.(rap_approval_id) ≠ d.(rds_source_approval_id);
  rb_sequence : a.(rap_approval_sequence) = d.(rds_next_approval_sequence);
  rb_confirmation : a.(rap_typed_confirmation) = rollback_confirmation command.(rcmd_candidate);
}.

Definition repair_justified (l : list (Call P A PR AR)) (p : P) (a : BoundRepairApproval) : Prop :=
  ∃ command d, CallPrepare command (Ok (p, d)) ∈ l ∧ descriptor_matches command d = true
    ∧ approval_binds a command d.
Definition rollback_justified (l : list (Call P A PR AR)) (p : PR) (a : BoundRollbackApproval) : Prop :=
  ∃ command d, CallPrepareRollback command (Ok (p, d)) ∈ l ∧ rollback_descriptor_matches command d = true
    ∧ rollback_binds a command d.

(** Commands with well-formed identifiers of the kinds the engine expects. *)
Record command_valid (c : BrokerOwnedPrepareCommand) : Prop := {
  cv_request : request_id_text c.(cmd_request_id) = true;
  cv_session : valid_fixed_id c.(cmd_session_id) "S-" = true;
  cv_plan : valid_fixed_id c.(cmd_plan_id) "P-" = true;
  cv_target : target_validate c.(cmd_target) = Ok tt;
}.
Record rollback_command_valid (c : BrokerOwnedRollbackPrepareCommand) : Prop := {
  rcv_request : request_id_text c.(rcmd_request_id) = true;
  rcv_session : valid_fixed_id c.(rcmd_session_id) "S-" = true;
  rcv_rollback : valid_fixed_id c.(rcmd_rollback_id) "RB-" = true;
  rcv_plan : valid_fixed_id c.(rcmd_plan_id) "P-" = true;
  rcv_source : source_validate c.(rcmd_source) = Ok tt;
}.

(** What must have happened before a call. *)
Definition call_justified (before : list (Call P A PR AR)) (c : Call P A PR AR) : Prop :=
  match c with
  | CallApprove p a _ => repair_justified before p a
  | CallExecute approved => ∃ p a, CallApprove p a (Ok approved) ∈ before
  | CallApproveRollback p a _ => rollback_justified before p a
  | CallExecuteRollback approved => ∃ p a, CallApproveRollback p a (Ok approved) ∈ before
  | CallPrepare command _ => command_valid command
  | CallPrepareRollback command _ => rollback_command_valid command
  | CallCancel _ | CallCancelRollback _ => True
  end.
Definition history_justified (l : list (Call P A PR AR)) : Prop :=
  ∀ before c after, l = before ++ c :: after → call_justified before c.

Lemma history_snoc l c : history_justified l → call_justified l c → history_justified (l ++ [c]).
Proof.
  intros Hl Hc before c' after Heq. destruct after as [|x after _] using rev_ind.
  - apply app_inj_tail in Heq as [-> ->]. done.
  - rewrite app_comm_cons, app_assoc in Heq. apply app_inj_tail in Heq as [-> _]. by eapply Hl.
Qed.
Lemma history_snoc_2 l c1 c2 :
  history_justified l → call_justified l c1 → call_justified (l ++ [c1]) c2 →
  history_justified (l ++ [c1; c2]).
Proof. intros. change [c1; c2] with ([c1] ++ [c2]). rewrite app_assoc. by repeat apply history_snoc. Qed.

Lemma repair_justified_mono l l' p a : l ⊆ l' → repair_justified l p a → repair_justified l' p a.
Proof. intros Hl (c & d & Hin & ?). exists c, d. split; [by apply Hl|done]. Qed.
Lemma rollback_justified_mono l l' p a : l ⊆ l' → rollback_justified l p a → rollback_justified l' p a.
Proof. intros Hl (c & d & Hin & ?). exists c, d. split; [by apply Hl|done]. Qed.

(** ** The job between the service and the worker *)

Inductive Item := OfJob (j : WorkerJob P PR) | OfResult (r : WorkerResult P PR).
Definition worker_items (w : WorkerState P PR) : list Item :=
  match w with Working j => [OfJob j] | Sending r => [OfResult r] | Receiving | Gone => [] end.
Definition pipeline (c : Core) : list Item :=
  map OfJob c.(c_jobs) ++ worker_items c.(c_worker) ++ map OfResult c.(c_results).

Definition busy (p : InternalState P PR) : bool :=
  match p with
  | Preparing _ _ _ | Executing _ | RollbackPreparing _ _ _ _ | RollbackExecuting _ _
  | RollbackCancelling _ _ => true
  | Idle | Prepared _ _ | RollbackPrepared _ _ _ | Terminal _ => false
  end.

(** The phase waits for this item. *)
Definition awaits (l : list (Call P A PR AR)) (p : InternalState P PR) (i : Item) : Prop :=
  match p, i with
  | Preparing op command _, OfJob (JobPrepare op' command' _) =>
      op' = op ∧ command' = command ∧ command_valid command
  | Preparing op command _, OfResult (ResPrepared op' r) => op' = op ∧ CallPrepare command r ∈ l
  | Executing op, OfJob (JobApproveAndExecute op' p a _) => op' = op ∧ repair_justified l p a
  | Executing op, OfJob (JobCancel op' _ _) => op' = op
  | Executing op, OfResult (ResExecuted op' _) => op' = op
  | Executing op, OfResult (ResCancelled op' _) => op' = op
  | RollbackPreparing op command _ _, OfJob (JobRollbackPrepare op' command' _) =>
      op' = op ∧ command' = command ∧ rollback_command_valid command
  | RollbackPreparing op command _ _, OfResult (ResRollbackPrepared op' r) =>
      op' = op ∧ CallPrepareRollback command r ∈ l
  | RollbackExecuting op _, OfJob (JobRollbackApproveAndExecute op' p a _) =>
      op' = op ∧ rollback_justified l p a
  | RollbackExecuting op _, OfResult (ResRollbackExecuted op' _) => op' = op
  | RollbackCancelling op _, OfJob (JobRollbackCancel op' _ _) => op' = op
  | RollbackCancelling op _, OfResult (ResRollbackCancelled op' _) => op' = op
  | _, _ => False
  end.

(** What the phase holds was prepared by the engine for the command it names. *)
Definition settled (l : list (Call P A PR AR)) (p : InternalState P PR) : Prop :=
  match p with
  | Prepared p summary =>
      ∃ command, CallPrepare command (Ok (p, summary.(sum_descriptor))) ∈ l
        ∧ descriptor_matches command summary.(sum_descriptor) = true
        ∧ summary.(sum_prepare_request_id) = command.(cmd_request_id)
  | RollbackPrepared p summary source =>
      source = committed_source_receipt summary.(rsum_descriptor).(rds_source)
      ∧ ∃ command, CallPrepareRollback command (Ok (p, summary.(rsum_descriptor))) ∈ l
        ∧ rollback_descriptor_matches command summary.(rsum_descriptor) = true
        ∧ summary.(rsum_prepare_request_id) = command.(rcmd_request_id)
  | _ => True
  end.

(** A job that outlives the service. *)
Definition orphan (l : list (Call P A PR AR)) (i : Item) : Prop :=
  match i with
  | OfJob (JobPrepare _ command _) => command_valid command
  | OfJob (JobRollbackPrepare _ command _) => rollback_command_valid command
  | OfJob (JobApproveAndExecute _ p a _) => repair_justified l p a
  | OfJob (JobRollbackApproveAndExecute _ p a _) => rollback_justified l p a
  | _ => True
  end.

Definition coherent (c : Core) : Prop :=
  if c.(c_connected) then
    if busy c.(c_phase)
    then match c.(c_worker) with
         | Gone => pipeline c = []
         | _ => ∃ i, pipeline c = [i] ∧ awaits c.(c_calls) c.(c_phase) i
         end
    else c.(c_worker) ≠ Gone ∧ pipeline c = [] ∧ settled c.(c_calls) c.(c_phase)
  else Forall (orphan c.(c_calls)) (pipeline c).

(** ** Where the authorities are *)

Definition item_authorities (i : Item) : list (P + PR) :=
  match i with OfJob j => job_authorities j | OfResult r => result_authorities r end.
Definition held (c : Core) : list (P + PR) :=
  (if c.(c_connected) then phase_authorities c.(c_phase) else []) ++ (pipeline c ≫= item_authorities).
Definition issued (c : Call P A PR AR) : list (P + PR) :=
  match c with
  | CallPrepare _ (Ok (p, _)) => [inl p]
  | CallPrepareRollback _ (Ok (p, _)) => [inr p]
  | _ => []
  end.
Definition consumed (c : Call P A PR AR) : list (P + PR) :=
  match c with
  | CallApprove p _ _ | CallCancel p => [inl p]
  | CallApproveRollback p _ _ | CallCancelRollback p => [inr p]
  | _ => []
  end.
Definition conserved (c : Core) : Prop :=
  c.(c_calls) ≫= issued ≡ₚ (c.(c_calls) ≫= consumed) ++ c.(c_dropped) ++ held c.

Record Inv (c : Core) : Prop := {
  inv_history : history_justified c.(c_calls);
  inv_coherent : coherent c;
  inv_conserved : conserved c;
}.

(** ** What a request does to the core *)

(** The job slot is free and somebody will take the job. *)
Definition sendable (c : Core) : Prop := c.(c_jobs) = [] ∧ c.(c_worker) ≠ Gone.
Definition launch (j : WorkerJob P PR) (p : InternalState P PR) (c : Core) : Core :=
  mkCore p [j] c.(c_results) c.(c_connected) c.(c_worker) c.(c_calls) c.(c_dropped).
Definition abandon (call : Call P A PR AR) (p : InternalState P PR) (c : Core) : Core :=
  mkCore p c.(c_jobs) c.(c_results) c.(c_connected) c.(c_worker) (c.(c_calls) ++ [call]) c.(c_dropped).

(** The approval repeats the summary the service shows for the candidate. *)
Record approval_echoes (a : BoundRepairApproval) (s : PreparedSummary) (c : RepairCandidateKind) : Prop := {
  ae_fresh : a.(apr_request_id) ≠ s.(sum_prepare_request_id);
  ae_prepared : a.(apr_prepared_id) = s.(sum_prepared_id);
  ae_session : a.(apr_session_id) = s.(sum_descriptor).(dsc_session_id);
  ae_plan : a.(apr_plan_id) = s.(sum_descriptor).(dsc_plan_id);
  ae_hash : a.(apr_plan_hash) = s.(sum_descriptor).(dsc_plan_hash);
  ae_sequence : a.(apr_approval_sequence) = s.(sum_descriptor).(dsc_next_approval_sequence);
  ae_resource : s.(sum_descriptor).(dsc_resource_id) = resource_id c;
}.
Record rollback_echoes (a : BoundRollbackApproval) (s : PreparedRollbackSummary) (c : RepairCandidateKind) :
    Prop := {
  re_fresh : a.(rap_request_id) ≠ s.(rsum_prepare_request_id);
  re_prepared : a.(rap_prepared_id) = s.(rsum_prepared_id);
  re_rollback : a.(rap_rollback_id) = s.(rsum_descriptor).(rds_rollback_id);
  re_session : a.(rap_session_id) = s.(rsum_descriptor).(rds_session_id);
  re_plan : a.(rap_plan_id) = s.(rsum_descriptor).(rds_plan_id);
  re_hash : a.(rap_plan_hash) = s.(rsum_descriptor).(rds_plan_hash);
  re_source : a.(rap_source) = s.(rsum_descriptor).(rds_source);
  re_approval : a.(rap_approval_id) ≠ s.(rsum_descriptor).(rds_source_approval_id);
  re_sequence : a.(rap_approval_sequence) = s.(rsum_descriptor).(rds_next_approval_sequence);
  re_resource : s.(rsum_descriptor).(rds_resource_id) = resource_id c;
}.

Inductive effect (c : Core) : Core → Prop :=
| eff_none : effect c c
| eff_prepare op command prepared_id deadline :
    c.(c_phase) = Idle → sendable c → command_valid command →
    effect c (launch (JobPrepare op command deadline) (Preparing op command prepared_id) c)
| eff_approve op p summary a candidate deadline :
    c.(c_phase) = Prepared p summary → sendable c →
    approval_echoes a summary candidate → a.(apr_typed_confirmation) = repair_confirmation candidate →
    effect c (launch (JobApproveAndExecute op p a deadline) (Executing op) c)
| eff_cancel op p summary deadline :
    c.(c_phase) = Prepared p summary → sendable c →
    effect c (launch (JobCancel op p deadline) (Executing op) c)
| eff_abandon p summary :
    c.(c_phase) = Prepared p summary → ¬ sendable c →
    effect c (abandon (CallCancel p) (Terminal failed_receipt) c)
| eff_rollback_prepare op command prepared_id source deadline :
    c.(c_phase) = idle_or_terminal source → sendable c →
    (∀ receipt, source = Some receipt → source_matches_terminal command.(rcmd_source) receipt = true) →
    rollback_command_valid command →
    effect c (launch (JobRollbackPrepare op command deadline)
                (RollbackPreparing op command prepared_id source) c)
| eff_rollback_approve op p summary source a candidate deadline :
    c.(c_phase) = RollbackPrepared p summary source → sendable c →
    rollback_echoes a summary candidate → a.(rap_typed_confirmation) = rollback_confirmation candidate →
    effect c (launch (JobRollbackApproveAndExecute op p a deadline) (RollbackExecuting op source) c)
| eff_rollback_cancel op p summary source deadline :
    c.(c_phase) = RollbackPrepared p summary source → sendable c →
    effect c (launch (JobRollbackCancel op p deadline) (RollbackCancelling op source) c)
| eff_rollback_abandon p summary source :
    c.(c_phase) = RollbackPrepared p summary source → ¬ sendable c →
    effect c (abandon (CallCancelRollback p) (Terminal source) c).

(** The version tells states apart until it reaches its maximum. *)
Definition versioned (s s' : system) : Prop :=
  (s.(state).(version) ≤ s'.(state).(version))%Z
  ∧ (s'.(state).(version) = s.(state).(version) →
     s'.(state).(phase) = s.(state).(phase) ∨ (U64_MAX ≤ s.(state).(version))%Z).

#[export] Instance versioned_preorder : PreOrder versioned.
Proof.
  split; [intros s; split; [done|by left]|].
  intros s1 s2 s3 [H1 E1] [H2 E2]. split; [lia|]. intros Heq.
  destruct E1 as [E1|]; [lia| |by right]. destruct E2 as [E2|]; [lia|left; congruence|right; lia].
Qed.

(** What one method of the service may do. *)
Record bounded_call (s s' : system) (r : result RepairServiceErrorToken ()) : Prop := {
  bc_effect : effect (core s) (core s');
  bc_version : versioned s s';
  bc_error : ∀ e, r = Err e → e ≠ TokInternal → core s' = core s;
}.

(** *** The statements the methods share *)

Lemma bump_version_run (s : system) :
  ∃ s' r, bump_version s = (s', r) ∧ core s' = core s ∧ s'.(state).(phase) = s.(state).(phase)
    ∧ (r = Ok tt ∧ s'.(state).(version) = (s.(state).(version) + 1)%Z
       ∨ r = Err TokInternal ∧ s' = s ∧ (U64_MAX ≤ s.(state).(version))%Z).
Proof.
  destruct s as [[v n ph] d j r c w o l k t e]. unfold bump_version. run_methods. simpl.
  destruct (checked_add_u64 v 1) as [v'|] eqn:Hv; simpl.
  - apply checked_add_u64_Some in Hv as [-> _]. eauto 10.
  - eexists _, _. split_and!; [done..|]. right. split_and!; [done..|].
    unfold checked_add_u64 in Hv. destruct (Z.leb_spec (v + 1) U64_MAX); [done|lia].
Qed.

Lemma fill_random_length responses n rest l : fill_random responses n = (rest, Some l) → length l = n.
Proof.
  revert n rest l. induction responses as [|[answer|] responses IH]; intros [|n] rest l H; simpl in H; try naive_solver.
  destruct (take (S n) answer) as [|b got] eqn:Hgot; [done|].
  destruct (fill_random responses _) as [rest' [more|]] eqn:Hmore; [|done]. injection H as _ <-.
  apply IH in Hmore. assert (length (b :: got) ≤ S n) by (rewrite <-Hgot, length_take; lia).
  simpl in *. rewrite length_app. lia.
Qed.

Lemma fixed_id_valid prefix suffix :
  String.length suffix = 32 → lower_hex (as_bytes suffix) = true → valid_fixed_id (prefix +:+ suffix) prefix = true.
Proof.
  intros Hl Hh. unfold valid_fixed_id. rewrite (proj2 (strip_prefix_Some _ _ suffix) eq_refl).
  unfold len. by rewrite Hl, Hh.
Qed.

Lemma fresh_fixed_id_run prefix (s s' : system) r :
  fresh_fixed_id prefix s = (s', r) → core s' = core s ∧ s'.(state) = s.(state)
  ∧ (∀ id, r = Ok id → valid_fixed_id id prefix = true).
Proof.
  destruct s. unfold fresh_fixed_id. simpl. destruct (fill_random _ _) as [rest [l|]] eqn:Hl; intros [= <- <-]; [|done].
  split_and!; [done..|]. intros id [= <-]. apply fixed_id_valid; [|apply hex_string_class].
  rewrite length_hex_string. by rewrite (fill_random_length _ _ _ _ Hl).
Qed.

Lemma session_id_valid request_id id :
  session_id_from_request request_id = Ok id → valid_fixed_id id "S-" = true.
Proof.
  unfold session_id_from_request. intros H. inv_ok H. guards. apply fixed_id_valid.
  - rewrite <-length_as_bytes. unfold as_bytes. by rewrite String.list_byte_of_string_of_list_byte.
  - unfold as_bytes. by rewrite String.list_byte_of_string_of_list_byte.
Qed.

Lemma take_operation_id_run (s s' : system) r :
  take_operation_id s = (s', r) →
  core s' = core s ∧ s'.(state).(version) = s.(state).(version) ∧ (∀ e, r = Err e → e = TokInternal).
Proof.
  destruct s as [[] ? ? ? ? ? ? ? ? ? ?]. unfold take_operation_id. run_methods. simpl.
  destruct (checked_add_u64 _ _); intros [= <- <-]; naive_solver.
Qed.

Lemma absolute_deadline_run budget (s s' : system) r :
  absolute_deadline budget s = (s', r) → s' = s ∧ (∀ e, r = Err e → e = TokInternal).
Proof. unfold absolute_deadline. run_methods. destruct (_ <=? _)%Z; intros [= <- <-]; naive_solver. Qed.

Lemma try_send_Some j (s s' : system) : try_send j s = Some s' ↔ sendable (core s) ∧ s' = set_jobs [j] s.
Proof.
  unfold try_send, sendable, core. simpl. destruct (worker s), (jobs s); naive_solver.
Qed.
Lemma try_send_None j (s : system) : try_send j s = None → ¬ sendable (core s).
Proof. intros H Hs. assert (try_send j s = Some (set_jobs [j] s)) by by apply try_send_Some. congruence. Qed.

(** A statement that changes neither the core nor the version. *)
Definition quiet (s s' : system) : Prop := core s' = core s ∧ s'.(state).(version) = s.(state).(version).
Definition quietly {E B} (m : method system E B) : Prop := ∀ s s' r, m s = (s', r) → quiet s s'.

Lemma quiet_phase s s' : quiet s s' → s'.(state).(phase) = s.(state).(phase).
Proof. intros [H _]. by apply (f_equal c_phase) in H. Qed.
Lemma quiet_call s s' r : quiet s s' → bounded_call s s' r.
Proof.
  intros Hq. pose proof (quiet_phase _ _ Hq). destruct Hq as [Hc Hv].
  split; [rewrite Hc; constructor|split; [lia|by left]|done].
Qed.
Lemma quiet_before s s1 s' r : quiet s s1 → bounded_call s1 s' r → bounded_call s s' r.
Proof.
  intros Hq [He [Hle Hv] Hr]. pose proof (quiet_phase _ _ Hq) as Hp. destruct Hq as [Hc Hq].
  split; rewrite <-?Hc; [done| |done]. unfold versioned. by rewrite <-Hq, <-Hp.
Qed.
Lemma rquiet_bind {B} (m : method system _ B) f s s' r :
  quietly m → (∀ b s1, quiet s s1 → m s = (s1, Ok b) → f b s1 = (s', r) → bounded_call s1 s' r) →
  (m ≫= f) s = (s', r) → bounded_call s s' r.
Proof.
  intros Hm Hf. rewrite run_bind. intros [(s1 & b & Hs & Hk)|(e & Hs & ->)].
  - pose proof (Hm _ _ _ Hs). eapply quiet_before; eauto.
  - apply quiet_call. by eapply Hm.
Qed.
Lemma guard_bind {B} (g : result _ B) f s s' r :
  (∀ b, g = Ok b → f b s = (s', r) → bounded_call s s' r) →
  (lift g ≫= f) s = (s', r) → bounded_call s s' r.
Proof.
  intros Hf. rewrite run_bind. unfold lift. intros [(s1 & b & Hs & Hk)|(e & Hs & ->)]; simplify_eq.
  - by eapply Hf.
  - by apply quiet_call.
Qed.

Lemma quiet_fresh prefix : quietly (fresh_fixed_id prefix).
Proof. intros s s' r H. apply fresh_fixed_id_run in H as (? & Hs & _). split; [done|by rewrite Hs]. Qed.
Lemma quiet_take_id : quietly take_operation_id.
Proof. intros s s' r H. apply take_operation_id_run in H as (? & ? & _). done. Qed.
Lemma quiet_deadline budget : quietly (absolute_deadline budget).
Proof. intros s s' r H. by apply absolute_deadline_run in H as [-> _]. Qed.

(** A change of the phase, then the version. *)
Lemma enter_bounded s s1 s' r :
  effect (core s) (core s1) → s1.(state).(version) = s.(state).(version) →
  bump_version s1 = (s', r) → bounded_call s s' r.
Proof.
  intros He Hv Hb. destruct (bump_version_run s1) as (s2 & r2 & Hb' & Hc & _ & Hr).
  rewrite Hb in Hb'. injection Hb' as <- <-.
  split; [by rewrite Hc| |].
  - split; [destruct Hr as [[_ Hr]|(_ & -> & _)]; lia|]. intros Heq. right.
    destruct Hr as [[_ Hr]|(_ & _ & Hr)]; lia.
  - intros e -> Hne. destruct Hr as [[]|[]]; congruence.
Qed.
Lemma enter_fails s s1 s' r :
  effect (core s) (core s1) → s1.(state).(version) = s.(state).(version) →
  (bump_version;; throw TokInternal) s1 = (s', r) → bounded_call s s' r.
Proof.
  intros He Hv. rewrite run_bind. intros [(s2 & [] & Hb & [= <- <-])|(e & Hb & ->)].
  - pose proof (enter_bounded s s1 s2 _ He Hv Hb) as [H1 H2 H3]. split; naive_solver.
  - by eapply enter_bounded.
Qed.

(** The end of a method that sends an authority to the worker, or cancels it
    when the job is not taken. *)
Ltac hand_over H s sent abandoned :=
  let Hs := fresh in
  apply run_get_self_1 in H; destruct (try_send _ _) as [?|] eqn:Hs;
  [ apply try_send_Some in Hs as [? ->];
    first [apply run_modify_1, run_modify_1 in H | apply run_modify_1 in H];
    eapply enter_bounded; [| |exact H]; open_system s; [by eapply sent|done]
  | apply try_send_None in Hs; apply run_modify_1, run_modify_1 in H;
    eapply enter_fails; [| |exact H]; unfold discard, discard_rollback, cancel_authority,
      cancel_rollback_authority; open_system s;
    match goal with |- context [match ?x with _ => _ end] => destruct x end; [by eapply abandoned|done] ].

Lemma begin_prepare_bounded request_id target candidate s s' r :
  request_id_text request_id = true → target_validate target = Ok tt →
  begin_prepare request_id target candidate s = (s', r) → bounded_call s s' r.
Proof.
  unfold begin_prepare. intros Hreq Htgt H. apply run_get_self_1 in H. revert H.
  apply guard_bind. intros [] Hphase. apply guard_bind. intros session_id Hsid.
  apply rquiet_bind; [apply quiet_fresh|]. intros plan_id s1 Q1 V1.
  apply rquiet_bind; [apply quiet_fresh|]. intros prepared_id s2 Q2 _.
  apply rquiet_bind; [apply quiet_take_id|]. intros op s3 Q3 _. cbv zeta.
  apply rquiet_bind; [apply quiet_deadline|]. intros deadline s4 Q4 _.
  intros H. apply run_get_self_1 in H.
  assert (s4.(state).(phase) = Idle) as Hidle.
  { rewrite (quiet_phase _ _ Q4), (quiet_phase _ _ Q3), (quiet_phase _ _ Q2), (quiet_phase _ _ Q1).
    by destruct (phase (state s)). }
  destruct (try_send _ s4) as [sent|] eqn:Hsend; [|injection H as <- <-; by apply quiet_call].
  apply try_send_Some in Hsend as [Hs ->]. apply run_modify_1, run_modify_1 in H.
  eapply enter_bounded; [| |exact H]; open_system s4; [|done].
  apply eff_prepare; [done..|]. apply session_id_valid in Hsid. apply fresh_fixed_id_run in V1 as (_ & _ & V1).
  split; auto.
Qed.

Lemma begin_approval_bounded a candidate s s' r :
  a.(apr_typed_confirmation) = repair_confirmation candidate →
  begin_approval a candidate s = (s', r) → bounded_call s s' r.
Proof.
  unfold begin_approval. intros Hconf H. apply run_get_self_1 in H. revert H.
  apply guard_bind. intros [] Hphase.
  apply rquiet_bind; [apply quiet_take_id|]. intros op s1 Q1 _.
  apply rquiet_bind; [apply quiet_deadline|]. intros deadline s2 Q2 _.
  intros H. apply run_get_self_1, run_modify_1 in H.
  assert (s2.(state).(phase) = s.(state).(phase)) as Heq
    by by rewrite (quiet_phase _ _ Q2), (quiet_phase _ _ Q1).
  rewrite Heq in H. destruct (phase (state s)) as [| |p summary| | | | | |] eqn:Hp; try done.
  assert (approval_echoes a summary candidate) as Hecho.
  { apply reject_Ok_1 in Hphase as [Hg _]. clear -Hg. guards. by split. }
  hand_over H s2 eff_approve eff_abandon.
Qed.

Lemma begin_cancel_bounded request_id prepared_id plan_hash candidate s s' r :
  begin_cancel request_id prepared_id plan_hash candidate s = (s', r) → bounded_call s s' r.
Proof.
  unfold begin_cancel. intros H. apply run_get_self_1 in H. revert H.
  apply guard_bind. intros [] Hphase.
  apply rquiet_bind; [apply quiet_take_id|]. intros op s1 Q1 _.
  apply rquiet_bind; [apply quiet_deadline|]. intros deadline s2 Q2 _.
  intros H. apply run_get_self_1, run_modify_1 in H.
  assert (s2.(state).(phase) = s.(state).(phase)) as Heq
    by by rewrite (quiet_phase _ _ Q2), (quiet_phase _ _ Q1).
  rewrite Heq in H. destruct (phase (state s)) as [| |p summary| | | | | |] eqn:Hp; try done.
  hand_over H s2 eff_cancel eff_abandon.
Qed.

Lemma begin_rollback_prepare_bounded request_id source candidate s s' r :
  request_id_text request_id = true → source_validate source = Ok tt →
  begin_rollback_prepare request_id source candidate s = (s', r) → bounded_call s s' r.
Proof.
  unfold begin_rollback_prepare. intros Hreq Hsrc H. apply run_get_self_1 in H. revert H.
  apply guard_bind. intros source_terminal Hphase. apply guard_bind. intros session_id Hsid.
  apply rquiet_bind; [apply quiet_fresh|]. intros rollback_id s0 Q0 V0.
  apply rquiet_bind; [apply quiet_fresh|]. intros plan_id s1 Q1 V1.
  apply rquiet_bind; [apply quiet_fresh|]. intros prepared_id s2 Q2 _.
  apply rquiet_bind; [apply quiet_take_id|]. intros op s3 Q3 _. cbv zeta.
  apply rquiet_bind; [apply quiet_deadline|]. intros deadline s4 Q4 _.
  intros H. apply run_get_self_1 in H.
  assert (s4.(state).(phase) = idle_or_terminal source_terminal
    ∧ ∀ receipt, source_terminal = Some receipt → source_matches_terminal source receipt = true) as [Hidle Hm].
  { rewrite (quiet_phase _ _ Q4), (quiet_phase _ _ Q3), (quiet_phase _ _ Q2), (quiet_phase _ _ Q1),
      (quiet_phase _ _ Q0).
    destruct (phase (state s)); try destruct (source_matches_terminal _ _) eqn:?; naive_solver. }
  destruct (try_send _ s4) as [sent|] eqn:Hsend; [|injection H as <- <-; by apply quiet_call].
  apply try_send_Some in Hsend as [Hs ->]. apply run_modify_1, run_modify_1 in H.
  eapply enter_bounded; [| |exact H]; open_system s4; [|done].
  apply eff_rollback_prepare; [done..|]. apply session_id_valid in Hsid.
  apply fresh_fixed_id_run in V0 as (_ & _ & V0). apply fresh_fixed_id_run in V1 as (_ & _ & V1).
  split; auto.
Qed.

Lemma begin_rollback_approval_bounded a candidate s s' r :
  a.(rap_typed_confirmation) = rollback_confirmation candidate →
  begin_rollback_approval a candidate s = (s', r) → bounded_call s s' r.
Proof.
  unfold begin_rollback_approval. intros Hconf H. apply run_get_self_1 in H. revert H.
  apply guard_bind. intros [] Hphase. apply guard_bind. intros source Hsource.
  apply rquiet_bind; [apply quiet_take_id|]. intros op s1 Q1 _.
  apply rquiet_bind; [apply quiet_deadline|]. intros deadline s2 Q2 _.
  intros H. apply run_get_self_1, run_modify_1 in H.
  assert (s2.(state).(phase) = s.(state).(phase)) as Heq
    by by rewrite (quiet_phase _ _ Q2), (quiet_phase _ _ Q1).
  rewrite Heq in H. destruct (phase (state s)) as [| | | | |p summary source'| | |] eqn:Hp; try done.
  injection Hsource as ->.
  assert (rollback_echoes a summary candidate) as Hecho.
  { apply reject_Ok_1 in Hphase as [Hg _]. clear -Hg. guards. by split. }
  hand_over H s2 eff_rollback_approve eff_rollback_abandon.
Qed.

Lemma begin_rollback_cancel_bounded request_id prepared_id rollback_id plan_hash source candidate s s' r :
  begin_rollback_cancel request_id prepared_id rollback_id plan_hash source candidate s = (s', r) →
  bounded_call s s' r.
Proof.
  unfold begin_rollback_cancel. intros H. apply run_get_self_1 in H. revert H.
  apply guard_bind. intros [] Hphase. apply guard_bind. intros source' Hsource.
  apply rquiet_bind; [apply quiet_take_id|]. intros op s1 Q1 _.
  apply rquiet_bind; [apply quiet_deadline|]. intros deadline s2 Q2 _.
  intros H. apply run_get_self_1, run_modify_1 in H.
  assert (s2.(state).(phase) = s.(state).(phase)) as Heq
    by by rewrite (quiet_phase _ _ Q2), (quiet_phase _ _ Q1).
  rewrite Heq in H. destruct (phase (state s)) as [| | | | |p summary source''| | |] eqn:Hp; try done.
  injection Hsource as ->. hand_over H s2 eff_rollback_cancel eff_rollback_abandon.
Qed.

(** The envelope check fixes the typed confirmation of an approval. *)
Lemma dispatch_bounded request s s' r :
  validate_envelope request = Ok tt → dispatch request s = (s', r) → bounded_call s s' r.
Proof.
  intros Hv H. unfold validate_envelope in Hv. apply reject_Ok_1 in Hv as [Hid Hv].
  assert (request_id_text (request_request_id request) = true) as Hreq.
  { guards. destruct (parse_request_id _) as [id|] eqn:Hp; [|done]. apply check_Ok in Hp as <-. apply Is_true_true, as_str_ok. }
  clear Hid.
  destruct request; simpl in H, Hv; inv_ok Hv; guards;
    solve [ injection H as <- <-; by apply quiet_call
          | eapply begin_prepare_bounded; [| |eauto]; done
          | eapply begin_approval_bounded; [|eauto]; done
          | eapply begin_cancel_bounded; eauto
          | eapply begin_rollback_prepare_bounded; [| |eauto]; done
          | eapply begin_rollback_approval_bounded; [|eauto]; done
          | eapply begin_rollback_cancel_bounded; eauto ].
Qed.

(** ** Every step keeps the invariant *)

(** A phase that waits for nothing has nothing under way. *)
Lemma settled_core c :
  coherent c → c.(c_connected) = true → busy c.(c_phase) = false →
  c = mkCore c.(c_phase) [] [] true Receiving c.(c_calls) c.(c_dropped) ∧ settled c.(c_calls) c.(c_phase).
Proof.
  destruct c as [p j r k w l d]. unfold coherent, pipeline. simpl. intros Hc -> Hb. rewrite Hb in Hc.
  destruct Hc as (Hw & Hp & Hs). apply app_eq_nil in Hp as [Hj Hp]. apply app_eq_nil in Hp as [Hp Hr].
  apply map_eq_nil in Hj as ->. apply map_eq_nil in Hr as ->. by destruct w.
Qed.

(** The phase has the result it waits for in its channel. *)
Lemma result_core c r rest :
  coherent c → c.(c_connected) = true → c.(c_results) = r :: rest →
  c = mkCore c.(c_phase) [] [r] true Receiving c.(c_calls) c.(c_dropped)
  ∧ awaits c.(c_calls) c.(c_phase) (OfResult r).
Proof.
  destruct c as [p j r' k w l d]. unfold coherent, pipeline. simpl. intros Hc -> ->.
  destruct (busy p).
  - assert (∀ l1 l2 i, map OfJob j ++ l1 ++ OfResult r :: l2 = [i] →
      j = [] ∧ l1 = [] ∧ l2 = [] ∧ i = OfResult r) as Hone.
    { intros l1 l2 i. destruct j as [|? [|]], l1 as [|? [|]]; naive_solver. }
    destruct w; try (destruct Hc as (i & Hc & Ha); apply Hone in Hc as (-> & Hw & Hl & ->); try done;
      by apply map_eq_nil in Hl as ->).
    by apply app_eq_nil in Hc as [_ Hc].
  - destruct Hc as (_ & Hc & _). by destruct j, (worker_items w).
Qed.

Lemma echoes_justified l p summary a candidate :
  settled l (Prepared p summary) → approval_echoes a summary candidate →
  a.(apr_typed_confirmation) = repair_confirmation candidate → repair_justified l p a.
Proof.
  intros (command & Hin & Hm & Hreq) [] Hconf. exists command, (sum_descriptor summary). split_and!; [done..|].
  unfold descriptor_matches in Hm. guards. split; try congruence. rewrite Hconf.
  assert (resource_id candidate = resource_id (cmd_candidate command)) as He by congruence.
  by destruct candidate, (cmd_candidate command).
Qed.
Lemma echoes_rollback_justified l p summary source a candidate :
  settled l (RollbackPrepared p summary source) → rollback_echoes a summary candidate →
  a.(rap_typed_confirmation) = rollback_confirmation candidate → rollback_justified l p a.
Proof.
  intros (_ & command & Hin & Hm & Hreq) [] Hconf. exists command, (rsum_descriptor summary).
  split_and!; [done..|]. unfold rollback_descriptor_matches in Hm. destruct (rollback_resource _); [|done].
  guards. split; try congruence. rewrite Hconf.
  assert (resource_id candidate = resource_id (rcmd_candidate command)) as He by congruence.
  by destruct candidate, (rcmd_candidate command).
Qed.

(** The slot is free whenever the service would use it. *)
Lemma settled_sendable c :
  coherent c → c.(c_connected) = true → busy c.(c_phase) = false → sendable c.
Proof. intros H1 H2 H3. destruct (settled_core c H1 H2 H3) as [-> _]. done. Qed.

Lemma effect_inv c c' : c.(c_connected) = true → Inv c → effect c c' → Inv c'.
Proof.
  intros Hk Hc He.
  assert (∀ p', c.(c_phase) = p' → busy p' = false →
    c = mkCore p' [] [] true Receiving c.(c_calls) c.(c_dropped) ∧ settled c.(c_calls) p') as Hset.
  { intros p' <- ?. by apply settled_core; [apply Hc|..]. }
  destruct Hc as [Hh Hco Hcon]. destruct c as [ph j r k w l d]. simpl in *. subst k.
  destruct He; [done|..]; simpl in *; subst ph;
    (destruct (Hset _ eq_refl) as [[= -> -> ->] Hs]; [by try destruct source|]);
    try match goal with Hn : ¬ sendable _ |- _ => by destruct Hn end.
  all: split; [done| |by unfold conserved in *; simpl in *; try destruct source].
  all: unfold coherent; simpl; eexists; split; [done|]; simpl;
    eauto using echoes_justified, echoes_rollback_justified.
Qed.

(** *** Results *)

Definition with_phase (p : InternalState P PR) (c : Core) : Core :=
  mkCore p c.(c_jobs) c.(c_results) c.(c_connected) c.(c_worker) c.(c_calls) c.(c_dropped).

Lemma core_enter p (s : system) : core (enter p s) = with_phase p (core s).
Proof.
  unfold enter, bump, final. destruct (bump_version_run (set_phase p s)) as (s' & r & Hb & Hc & _).
  rewrite Hb. cbn [fst]. rewrite Hc. by destruct s.
Qed.
Lemma core_note stage (s : system) : core (note_diagnostic stage s) = core s.
Proof. unfold note_diagnostic. open_system s. by case_match. Qed.
Lemma core_discard p (s : system) :
  core (discard p s) = abandon (CallCancel p) s.(state).(phase) (core s).
Proof. unfold discard, cancel_authority. open_system s. by destruct (cancel_prepared _ _ _). Qed.
Lemma core_discard_rollback p (s : system) :
  core (discard_rollback p s) = abandon (CallCancelRollback p) s.(state).(phase) (core s).
Proof.
  unfold discard_rollback, cancel_rollback_authority. open_system s.
  by destruct (cancel_prepared_rollback _ _ _).
Qed.

(** The phase takes over what its result carries. *)
Lemma settle_inv ph r l d p :
  Inv (mkCore ph [] [r] true Receiving l d) → busy ph = true → busy p = false → settled l p →
  phase_authorities p = result_authorities r → Inv (mkCore p [] [] true Receiving l d).
Proof.
  intros [Hh _ Hcon] Hb Hp Hs Ha. split; [done|unfold coherent; simpl; by rewrite Hp|].
  unfold conserved, held in *. simpl in *. rewrite Hcon, Ha.
  replace (phase_authorities ph) with (@nil (P + PR)) by by destruct ph.
  by rewrite app_nil_r.
Qed.

(** The service cancels what its result carries. *)
Lemma settle_abandon_inv ph r l d p call :
  Inv (mkCore ph [] [r] true Receiving l d) → busy ph = true →
  busy p = false → (∀ l, settled l p) → phase_authorities p = [] →
  (∀ l, call_justified l call) → issued call = [] → consumed call = result_authorities r →
  Inv (mkCore p [] [] true Receiving (l ++ [call]) d).
Proof.
  intros [Hh _ Hcon] Hb Hp Hs Ha Hj Hi Hc. split; [by apply history_snoc|unfold coherent; simpl; by rewrite Hp|].
  unfold conserved, held in *. simpl in *. rewrite !bind_app. simpl. rewrite Hi, Hc, Hcon, Ha.
  replace (phase_authorities ph) with (@nil (P + PR)) by by destruct ph.
  simpl. rewrite !app_nil_r, <-!app_assoc. by rewrite (Permutation_app_comm (result_authorities r)).
Qed.

Lemma apply_inv r (s : system) :
  Inv (core s) → s.(connected) = true → s.(results) = [r] →
  Inv (core (apply_worker_result r (set_results [] s))).
Proof.
  intros Hinv Hk Hr. destruct (result_core (core s) r [] (inv_coherent _ Hinv) Hk Hr) as [Hc Ha].
  set (s1 := set_results [] s).
  assert (core s1 = mkCore s.(state).(phase) [] [] true Receiving s.(calls) s.(dropped)
    ∧ s1.(state).(phase) = s.(state).(phase)) as [Hc1 Hp1].
  { unfold s1. rewrite Hc in *. open_system s. unfold core in *. simpl in *. by injection Hc as -> -> -> ->. }
  rewrite Hc in Hinv. clearbody s1. simpl in Hinv, Ha.
  destruct (phase (state s)) as [|op command pid| |op|op command pid src| |op src|op src|] eqn:Hph;
    destruct r as [op' r|op' r|op' r|op' r|op' r|op' r]; simpl in Ha; try done;
    try match type of Ha with _ ∧ _ => destruct Ha as [-> Ha] end; try subst op'; simpl;
    unfold apply_prepared, apply_executed, apply_cancelled, apply_rollback_prepared,
      apply_rollback_executed, apply_rollback_cancelled; rewrite Hp1, ne_refl_false;
    repeat case_match; simplify_eq;
    rewrite core_enter, ?core_note, ?core_discard, ?core_discard_rollback; rewrite Hc1; simpl;
    first [ eapply settle_inv; [exact Hinv|done|by try destruct src|by try destruct src|by try destruct src]
          | eapply settle_abandon_inv; [exact Hinv|done|by try destruct src|by try destruct src|by try destruct src|done..]
          | idtac ].
  all: eapply settle_inv; [exact Hinv|done|done|simpl; try (split; [done|]); by exists command|done].
Qed.

(** *** The worker *)

Definition with_calls (new : list (Call P A PR AR)) (c : Core) : Core :=
  mkCore c.(c_phase) c.(c_jobs) c.(c_results) c.(c_connected) c.(c_worker) (c.(c_calls) ++ new) c.(c_dropped).

Lemma orphan_mono l l' i : l ⊆ l' → orphan l i → orphan l' i.
Proof.
  intros Hl. destruct i as [[]|]; simpl; eauto using repair_justified_mono, rollback_justified_mono.
Qed.
Lemma awaits_orphan l p i : awaits l p i → orphan l i.
Proof.
  destruct p, i as [[]|[]]; simpl; intros Ha; try done; destruct_and?; by subst.
Qed.

(** A job turns into its result, in one or two calls of the engine. *)
Record job_runs (l : list (Call P A PR AR)) (job : WorkerJob P PR) (new : list (Call P A PR AR))
    (r : WorkerResult P PR) : Prop := {
  jr_history : history_justified l → orphan l (OfJob job) → history_justified (l ++ new);
  jr_authorities : (new ≫= issued) ++ job_authorities job ≡ₚ (new ≫= consumed) ++ result_authorities r;
  jr_awaited : ∀ p, awaits l p (OfJob job) → awaits (l ++ new) p (OfResult r);
}.

Lemma run_job_runs job (s s' : system) r :
  run_job job s = (s', r) → ∃ new, core s' = with_calls new (core s) ∧ job_runs s.(calls) job new r.
Proof.
  intros H. open_system s.
  destruct job; simpl in H; unfold cancel_authority, cancel_rollback_authority in H; simpl in H;
    try match type of H with
    | context [cancel_prepared ?a ?b ?c] => destruct (cancel_prepared a b c)
    | context [cancel_prepared_rollback ?a ?b ?c] => destruct (cancel_prepared_rollback a b c)
    end; repeat (case_match; simpl in H); simplify_eq;
    (eexists; split; [unfold with_calls, core; simpl; first [reflexivity|rewrite <-app_assoc; reflexivity]|]);
    (split; [intros Hl Ho| |intros [] Ha; simpl in *; try done; destruct_and?; set_solver]); simpl;
    repeat case_match; simplify_eq; try done.
  all: try by apply history_snoc.
  all: apply history_snoc_2; [done..|];
    eexists _, _; apply elem_of_app; right; constructor.
Qed.

Lemma decide_gone c : c.(c_worker) = Gone ∨ c.(c_worker) ≠ Gone.
Proof. destruct (c_worker c); [right|right|right|left]; congruence. Qed.

(** The item moves on to the next place. *)
Lemma moved_inv c c' :
  c'.(c_phase) = c.(c_phase) → c'.(c_connected) = c.(c_connected) → c'.(c_calls) = c.(c_calls) →
  c'.(c_dropped) = c.(c_dropped) → (c.(c_connected) = true → c.(c_worker) = Gone ↔ c'.(c_worker) = Gone) →
  pipeline c' ≡ₚ pipeline c → Inv c → Inv c'.
Proof.
  intros Hp Hk Hl Hd Hg Hperm [Hh Hco Hcon]. split; [by rewrite Hl| |].
  - unfold coherent in *. rewrite Hk, Hp, Hl. destruct (c_connected c); [|by rewrite Hperm].
    specialize (Hg eq_refl). destruct (busy (c_phase c)).
    + destruct (decide_gone c) as [Hgone|Hgone].
      * rewrite Hgone in Hco. apply Hg in Hgone as ->. apply Permutation_nil_r. by rewrite Hperm, Hco.
      * assert (∃ i, pipeline c = [i] ∧ awaits (c_calls c) (c_phase c) i) as (i & Hi & Ha)
          by by destruct (c_worker c).
        rewrite Hi in Hperm. apply Permutation_singleton_r in Hperm.
        assert (c_worker c' ≠ Gone) as Hn by naive_solver. destruct (c_worker c'); eauto; done.
    + destruct Hco as (? & Hnil & ?). split_and!; [naive_solver| |done]. rewrite Hnil in Hperm.
      by apply Permutation_nil_r in Hperm.
  - unfold conserved, held in *. rewrite Hl, Hd, Hk, Hp. by rewrite Hperm.
Qed.

(** The item is replaced by what a run of its job leaves. *)
Lemma run_inv p js rs k job r l d new :
  job_runs l job new r →
  Inv (mkCore p js rs k (Working job) l d) → Inv (mkCore p js rs k (Sending r) (l ++ new) d).
Proof.
  intros [Hjh Hja Hjw] [Hh Hco Hcon].
  assert (orphan l (OfJob job) ∧ coherent (mkCore p js rs k (Sending r) (l ++ new) d)) as [Ho Hco'].
  { unfold coherent, pipeline in *. simpl in *. destruct k.
    - destruct (busy p); [|by destruct Hco as (_ & Hco & _); destruct js].
      destruct Hco as (i & Hi & Ha). destruct js as [|? []]; simplify_list_eq. simplify_eq.
      split; [exact (awaits_orphan _ _ _ Ha)|]. rewrite H0. eauto.
    - rewrite !Forall_app, Forall_cons in Hco. destruct Hco as (H1 & Ho & H2). split; [done|].
      assert (∀ its, Forall (orphan l) its → Forall (orphan (l ++ new)) its) as Hmono.
      { intros its Hf. eapply Forall_impl; [exact Hf|]. intros i. apply orphan_mono. set_solver. }
      rewrite !Forall_app, Forall_cons. split_and!; auto. by destruct r. }
  split; [by apply Hjh|done|]. clear Hco Hco' Ho Hjw Hjh Hh.
  unfold conserved, held, pipeline in *. simpl in *. rewrite !bind_app in *. simpl in *.
  rewrite Hcon, <-!app_assoc. simpl. rewrite !app_assoc. rewrite <-!app_assoc.
  transitivity ((l ≫= consumed) ++ ((new ≫= issued) ++ job_authorities job)
    ++ d ++ (if k then phase_authorities p else []) ++ (map OfJob js ≫= item_authorities)
    ++ (map OfResult rs ≫= item_authorities)); [solve_Permutation|]. rewrite Hja. solve_Permutation.
Qed.

(** A worker that cannot deliver its result cancels what the result carries. *)
Lemma undelivered_inv p js r l d call :
  Inv (mkCore p js [] false (Sending r) l d) → (∀ l, call_justified l call) → issued call = [] →
  consumed call = result_authorities r → Inv (mkCore p js [] false Gone (l ++ [call]) d).
Proof.
  intros [Hh Hco Hcon] Hj Hi Hc. unfold coherent, conserved, held, pipeline in *. simpl in *.
  rewrite !bind_app in *. simpl in *. rewrite !app_nil_r in *.
  split; simpl; unfold coherent, conserved, held, pipeline; simpl; rewrite ?bind_app; simpl; rewrite ?app_nil_r.
  - by apply history_snoc.
  - rewrite Forall_app in Hco. destruct Hco as [Hco _]. eapply Forall_impl; [exact Hco|].
    intros i. apply orphan_mono. set_solver.
  - rewrite Hi, Hc, Hcon. solve_Permutation.
Qed.
Lemma undelivered_nothing_inv p js r l d :
  Inv (mkCore p js [] false (Sending r) l d) → result_authorities r = [] → Inv (mkCore p js [] false Gone l d).
Proof.
  intros [Hh Hco Hcon] Hr. unfold coherent, conserved, held, pipeline in *. simpl in *.
  rewrite !bind_app in *. simpl in *. rewrite Hr in Hcon.
  split; simpl; unfold coherent, conserved, held, pipeline; simpl; rewrite ?bind_app; simpl; rewrite ?app_nil_r in *;
    [done| |done].
  rewrite Forall_app in Hco. by destruct Hco as [Hco _].
Qed.

(** Once the service is gone, its channel is empty. *)
Definition closed (s : system) : Prop := s.(connected) = false → s.(results) = [].

Lemma worker_move_inv (s : system) :
  closed s → Inv (core s) → Inv (core (worker_move s)) ∧ closed (worker_move s).
Proof.
  unfold worker_move, closed. intros Hcl Hi. destruct (worker s) as [|job|r|] eqn:Hw; [| | |done].
  - destruct (jobs s) as [|job rest] eqn:Hj.
    + destruct (connected s) eqn:Hk; [by split; [|congruence]|]. split; [|open_system s; by auto].
      by eapply moved_inv; [..|exact Hi]; open_system s; subst.
    + split; [|open_system s; by auto]. eapply moved_inv; [..|exact Hi]; open_system s; subst; try done; try by split.
      unfold pipeline. simpl. solve_Permutation.
  - destruct (run_job job s) as [s' r] eqn:Hr. apply run_job_runs in Hr as (new & Hc & Hr).
    assert (connected s' = connected s ∧ results s' = results s) as [Hk Hres].
    { by apply (f_equal (λ c, (c_connected c, c_results c))) in Hc as [=]. }
    split; [|open_system s'; by rewrite Hk, Hres].
    replace (core (set_worker (Sending r) s')) with
      (mkCore (phase (state s)) (jobs s) (results s) (connected s) (Sending r) (calls s ++ new) (dropped s)).
    + eapply run_inv; [exact Hr|]. rewrite <-Hw. exact Hi.
    + open_system s'. unfold core, with_calls in *. simpl in *. by injection Hc as -> -> -> -> -> -> ->.
  - destruct (connected s) eqn:Hk.
    + destruct (results s) as [|r' rs] eqn:Hres; [|by split; [|congruence]]. split; [|by open_system s; subst].
      eapply moved_inv; [..|exact Hi]; open_system s; subst; try done; try by split.
    + specialize (Hcl eq_refl). split.
      * destruct (result_authorities r) eqn:Ha.
        -- assert (Inv (core (set_worker Gone s))) as Hg.
           { open_system s. subst. unfold core in *. simpl in *. by eapply undelivered_nothing_inv. }
           destruct r as [? [[]|]| | |? [[]|]| |]; done.
        -- destruct r as [? [[]|]| | |? [[]|]| |]; try done; simpl;
             unfold discard, discard_rollback, cancel_authority, cancel_rollback_authority;
             open_system s; subst; case_match; eapply undelivered_inv; done.
      * intros _. destruct r as [? [[]|]| | |? [[]|]| |]; try done; simpl;
          unfold discard, discard_rollback, cancel_authority, cancel_rollback_authority;
          open_system s; subst; try case_match; done.
Qed.

(** *** Frames *)

Lemma enter_versioned p (s : system) : versioned s (enter p s).
Proof.
  unfold enter, bump, final. destruct (bump_version_run (set_phase p s)) as (s' & r & Hb & Hc & _ & Hr).
  rewrite Hb. cbn [fst]. open_system s. unfold versioned. destruct Hr as [[_ ->]|(_ & -> & Hv)]; simpl in *; [lia|].
  split; [done|by right].
Qed.
Lemma note_state stage (s : system) : (note_diagnostic stage s).(state) = s.(state).
Proof. unfold note_diagnostic. open_system s. by case_match. Qed.
Lemma discard_state p (s : system) : (discard p s).(state) = s.(state).
Proof. unfold discard, cancel_authority. open_system s. by case_match. Qed.
Lemma discard_rollback_state p (s : system) : (discard_rollback p s).(state) = s.(state).
Proof. unfold discard_rollback, cancel_rollback_authority. open_system s. by case_match. Qed.
Lemma versioned_state (s s1 s' : system) : s1.(state) = s.(state) → versioned s1 s' → versioned s s'.
Proof. unfold versioned. by intros ->. Qed.

(** What the service does not touch: its connection, the worker and what was dropped. *)
Definition ends (c : Core) : bool * WorkerState P PR * list (P + PR) := (c.(c_connected), c.(c_worker), c.(c_dropped)).

(** A result changes the phase only by entering another. *)
Lemma apply_shape r (s : system) :
  ∃ s1, s1.(state) = s.(state) ∧ ends (core s1) = ends (core s)
    ∧ (apply_worker_result r s = s1 ∨ ∃ p, busy s.(state).(phase) = true ∧ apply_worker_result r s = enter p s1).
Proof.
  assert (∀ p, ends (core (discard p s)) = ends (core s)) as H1 by (intros; by rewrite core_discard).
  assert (∀ p, ends (core (discard_rollback p s)) = ends (core s)) as H2
    by (intros; by rewrite core_discard_rollback).
  assert (∀ d, ends (core (note_diagnostic d s)) = ends (core s)) as H3
    by (intros; by rewrite core_note).
  destruct r; simpl; unfold apply_prepared, apply_executed, apply_cancelled, apply_rollback_prepared,
    apply_rollback_executed, apply_rollback_cancelled; destruct (phase (state s)) eqn:Hp; repeat case_match; simplify_eq;
    lazymatch goal with
    | |- ∃ _, _ ∧ _ ∧ (enter _ ?x = _ ∨ _) => exists x; split_and!; [| |right; by eexists]
    | |- ∃ _, _ ∧ _ ∧ (?x = _ ∨ _) => exists x; split_and!; [| |by left]
    end; solve [ done | apply H1 | apply H2 | apply H3 | apply discard_state
               | apply discard_rollback_state | apply note_state ].
Qed.

Lemma apply_versioned r (s : system) : versioned s (apply_worker_result r s).
Proof.
  destruct (apply_shape r s) as (s1 & Hs & _ & [->|(p & _ & ->)]); (eapply versioned_state; [done|]);
    [done|apply enter_versioned].
Qed.
Lemma apply_ends r (s : system) : ends (core (apply_worker_result r s)) = ends (core s).
Proof.
  destruct (apply_shape r s) as (s1 & _ & <- & [->|(p & _ & ->)]); [done|]. by rewrite core_enter.
Qed.
Lemma apply_connected r (s : system) : (apply_worker_result r s).(connected) = s.(connected).
Proof. by injection (apply_ends r s). Qed.

(** What holds between two statements of the service. *)
Definition alive (s : system) : Prop := Inv (core s) ∧ s.(connected) = true.

Lemma drain_nil (s : system) : s.(results) = [] → drain_results s = s.
Proof. intros Hr. unfold drain_results. rewrite Hr. simpl. by open_system s; subst. Qed.
Lemma drain_one r (s : system) :
  s.(results) = [r] → drain_results s = apply_worker_result r (set_results [] s).
Proof. intros Hr. unfold drain_results. by rewrite Hr. Qed.

(** The channel holds at most one result. *)
Lemma alive_results s : alive s → s.(results) = [] ∨ ∃ r, s.(results) = [r].
Proof.
  intros [Hi Hk]. destruct (results s) as [|r rest] eqn:Hr; [by left|right].
  destruct (result_core (core s) r rest (inv_coherent _ Hi) Hk Hr) as [Hc _].
  apply (f_equal c_results) in Hc. simpl in Hc. exists r. congruence.
Qed.

Lemma drain_alive s : alive s → alive (drain_results s) ∧ versioned s (drain_results s).
Proof.
  intros Ha. destruct (alive_results s Ha) as [Hr|[r Hr]]; [by rewrite drain_nil|].
  rewrite (drain_one r) by done. destruct Ha as [Hi Hk]. split.
  - split; [by apply apply_inv|]. rewrite apply_connected. by open_system s.
  - eapply versioned_state; [|apply apply_versioned]. by open_system s.
Qed.

Lemma run_job_fields job (s s' : system) r :
  run_job job s = (s', r) → s'.(state) = s.(state) ∧ ends (core s') = ends (core s).
Proof.
  intros Hr. open_system s. destruct job; simpl in Hr; unfold cancel_authority, cancel_rollback_authority in Hr;
    simpl in Hr; repeat (case_match; simplify_eq; simpl in * ); simplify_eq; done.
Qed.
Lemma worker_move_fields (s : system) :
  (worker_move s).(state) = s.(state) ∧ (worker_move s).(connected) = s.(connected)
  ∧ (worker_move s).(dropped) = s.(dropped) ∧ (s.(worker) = Gone → worker_move s = s).
Proof.
  unfold worker_move. destruct (worker s) as [|job|r|]; [| | |done].
  - destruct (jobs s); [|by open_system s]. destruct (connected s) eqn:Hk; [done|by open_system s].
  - destruct (run_job job s) as [s' r] eqn:Hr. apply run_job_fields in Hr as [<- He].
    injection He as <- _ <-. by open_system s'.
  - destruct (connected s) eqn:Hk.
    + destruct (results s); [by open_system s|done].
    + assert (∀ s1, s1.(state) = s.(state) → s1.(connected) = s.(connected) → s1.(dropped) = s.(dropped) →
        (set_worker Gone s1).(state) = s.(state) ∧ (set_worker Gone s1).(connected) = false
        ∧ (set_worker Gone s1).(dropped) = s.(dropped) ∧ (Sending r = Gone → set_worker Gone s1 = s)) as Hg.
      { intros s1 ???. open_system s1. naive_solver congruence. }
      destruct r as [? [[]|]| | |? [[]|]| |]; apply Hg; try done;
        unfold discard, discard_rollback, cancel_authority, cancel_rollback_authority; open_system s; by case_match.
Qed.

Lemma worker_move_alive s : alive s → alive (worker_move s) ∧ (worker_move s).(state) = s.(state).
Proof.
  intros [Hi Hk]. assert (closed s) as Hcl by (intros Hf; congruence).
  destruct (worker_move_inv s Hcl Hi) as [Hi' _]. unfold alive.
  destruct (worker_move_fields s) as (-> & -> & _). done.
Qed.
Lemma worker_moves_alive n s :
  alive s → alive (Nat.iter n worker_move s) ∧ (Nat.iter n worker_move s).(state) = s.(state).
Proof.
  intros Ha. induction n as [|n [IH Hs]]; [done|]. simpl. apply worker_move_alive in IH as [IH Hs']. by rewrite Hs', Hs.
Qed.

Lemma effect_connected c c' : effect c c' → c'.(c_connected) = c.(c_connected).
Proof. by destruct 1. Qed.

Lemma dispatch_alive request s s' r :
  alive s → validate_envelope request = Ok tt → dispatch request s = (s', r) → alive s' ∧ versioned s s'.
Proof.
  intros [Hi Hk] Hv Hd. pose proof (dispatch_bounded _ _ _ _ Hv Hd) as [He Hvs _].
  split; [|done]. split; [by apply (effect_inv (core s))|]. apply effect_connected in He. simpl in He. congruence.
Qed.

Lemma handle_request_alive n request s :
  alive s → alive (handle_request n request s).1 ∧ versioned s (handle_request n request s).1.
Proof.
  intros Ha. unfold handle_request. destruct (validate_envelope request) as [[]|e] eqn:Hv; [|done].
  destruct (dispatch request s) as [s1 r] eqn:Hd. destruct (dispatch_alive _ _ _ _ Ha Hv Hd) as [Ha1 V1].
  destruct (worker_moves_alive n s1 Ha1) as [Ha2 Hs2]. destruct (drain_alive _ Ha2) as [Ha3 V3]. simpl.
  split; [done|]. etrans; [exact V1|]. by eapply versioned_state.
Qed.
End invariant.

Section frames.
Context `{sha : Sha256} `{json : ServiceJson}.
Context {W P A PR AR : Type} `{engine : !RepairEngine W P A PR AR}.
Abbreviation system := (System W P A PR AR).

Lemma handle_frame_alive n frame (s : system) :
  alive s → alive (handle_frame n frame s).1 ∧ versioned s (handle_frame n frame s).1.
Proof.
  intros Ha. unfold handle_frame. destruct (drain_alive s Ha) as [Ha1 V1].
  destruct (_ || _); [done|]. destruct (read_service_request frame) as [request|]; [|done].
  destruct (handle_request_alive n request _ Ha1) as [Ha2 V2].
  destruct (handle_request n request (drain_results s)) as [s2 response]. simpl in *.
  split; [done|]. by etrans.
Qed.

Definition sound (s : system) : Prop := Inv (core s) ∧ closed s.

Lemma alive_sound s : alive s → sound s.
Proof. intros [Hi Hk]. split; [done|]. intros Hf. congruence. Qed.

Lemma drop_sound (s : system) : sound s → s.(connected) = true → sound (drop_service s).
Proof.
  intros [[Hh Hco Hcon] _] Hk. split; [|by open_system s]. open_system s. unfold core in *. simpl in *. subst connected.
  split; [done| |].
  - unfold coherent in *. simpl in *. destruct (busy phase) eqn:Hb.
    + assert (pipeline (mkCore phase jobs results true worker calls dropped) = [] ∨ ∃ i,
        pipeline (mkCore phase jobs results true worker calls dropped) = [i] ∧ awaits calls phase i) as Hp
        by (destruct worker; eauto).
      assert (Forall (orphan calls) (pipeline (mkCore phase jobs results true worker calls dropped))) as Hf.
      { destruct Hp as [->|(i & -> & Ha)]; [constructor|]. constructor; [by eapply awaits_orphan|done]. }
      unfold pipeline in *. simpl in *. rewrite !Forall_app in *. naive_solver.
    + destruct Hco as (_ & Hp & _). unfold pipeline in *. simpl in *.
      apply app_eq_nil in Hp as [-> Hp]. apply app_eq_nil in Hp as [-> _]. constructor.
  - unfold conserved, held, pipeline in *. simpl in *. rewrite Hcon, !bind_app. simpl.
    assert (map OfResult results ≫= item_authorities = results ≫= result_authorities) as ->.
    { clear. induction results as [|r rs IH]; [done|]. csimpl. by rewrite IH. }
    solve_Permutation.
Qed.

Lemma panic_sound (s : system) : sound s → sound (worker_panics s).
Proof.
  unfold worker_panics. intros Hs. destruct (worker s) as [|job| |] eqn:Hw; try done.
  destruct Hs as [[Hh Hco Hcon] Hcl]. split; [|unfold closed in *; by open_system s].
  open_system s. unfold core in *. simpl in *. subst worker. split; [done| |].
  - unfold coherent, pipeline in *. simpl in *. destruct connected.
    + destruct (busy phase); [|by destruct Hco as (_ & Hco & _); destruct jobs].
      destruct Hco as (i & Hi & _). destruct jobs as [|? []]; by simplify_list_eq.
    + rewrite !Forall_app, Forall_cons in Hco. naive_solver.
  - unfold conserved, held, pipeline in *. simpl in *. rewrite Hcon, !bind_app. simpl.
    assert (map OfJob jobs ≫= item_authorities = jobs ≫= job_authorities) as ->.
    { clear. induction jobs as [|r rs IH]; [done|]. csimpl. by rewrite IH. }
    solve_Permutation.
Qed.

Lemma start_sound w deadline spawned t random (s : system) :
  start w deadline spawned t random = Ok s → sound s.
Proof.
  unfold start. destruct (recover_pending w deadline) as [w' r]. intros H. inv_ok H. split; [|by intros]. split.
  - intros before c after Heq. by destruct before.
  - unfold coherent. simpl. by destruct v.
  - unfold conserved, held. simpl. by destruct v.
Qed.

Lemma repair_step_sound (s s' : system) : sound s → step s s' → sound s'.
Proof.
  intros Hs Hstep. destruct Hstep as [s moves frame Hk|s Hk|s|s|s Hk|s t random Ht].
  - apply alive_sound, handle_frame_alive. by split; [apply Hs|].
  - assert (alive s) as Ha by by split; [apply Hs|]. apply drain_alive in Ha as [Ha _].
    apply alive_sound. unfold take_execution_failure_diagnostic. simpl.
    destruct Ha as [Hi Hc]. by destruct (drain_results s).
  - destruct Hs as [Hi Hcl]. destruct (worker_move_inv s Hcl Hi). by split.
  - by apply panic_sound.
  - by apply drop_sound.
  - destruct Hs as [Hi Hcl]. by destruct s.
Qed.

Lemma reachable_sound (s : system) : reachable s → sound s.
Proof. induction 1; eauto using start_sound, repair_step_sound. Qed.
End frames.
