(* ===== verification/RepairServiceProperties.v ===== *)
(** * RepairServiceProperties: what the Rescue repair service guarantees

    For every engine and every interleaving of frames, polls, moves of the
    worker, panics of the engine and the end of the service: which calls of the
    engine are possible, that authorities are neither lost nor used twice, that
    a waiting phase is always answered, that end states are final, and what
    requests and responses may say. *)

From Stdlib.Strings Require Import Byte.
From Stdlib Require String Ascii.
From stdpp Require Import relations.
From S2P Require Import Prelude Bytes Text Crypto Admission VaultWire RepairServiceTypes RepairService RepairServiceInvariant.

Section properties.
Context `{sha : Sha256} `{json : ServiceJson}.
Context {W P A PR AR : Type} `{engine : !RepairEngine W P A PR AR}.
Abbreviation system := (System W P A PR AR).

(** ** Progress *)

(** How many moves the worker needs until the result is in the channel. *)
Definition pending (s : system) : option nat :=
  match s.(jobs), s.(worker), s.(results) with
  | [_], Receiving, [] => Some 3
  | [], Working _, [] => Some 2
  | [], Sending _, [] => Some 1
  | [], Receiving, [_] => Some 0
  | _, _, _ => None
  end.

Lemma waiting_pending (s : system) :
  alive s → s.(worker) ≠ Gone → busy s.(state).(phase) = true → ∃ n, n ≤ 3 ∧ pending s = Some n.
Proof using sha.
  intros [Hi Hk] Hw Hb. destruct Hi as [_ Hc _]. unfold coherent, pipeline, pending in *. simpl in *.
  rewrite Hk, Hb in Hc.
  assert (∃ i, map OfJob (jobs s) ++ worker_items (worker s) ++ map OfResult (results s) = [i]) as [i Hp]
    by (destruct (worker s); naive_solver). clear Hc.
  destruct (jobs s) as [|? [|]], (worker s), (results s) as [|? [|]]; simplify_list_eq; try done;
    (eexists; split; [|reflexivity]; lia).
Qed.

Lemma move_pending (s : system) n :
  s.(connected) = true → pending s = Some (S n) →
  pending (worker_move s) = Some n ∧ (worker_move s).(connected) = true.
Proof using sha.
  unfold pending, worker_move. intros Hk Hp. rewrite Hk.
  destruct (jobs s) as [|j [|]] eqn:Hj, (worker s) as [|j'|r|] eqn:Hw, (results s) as [|? [|]] eqn:Hr; simplify_eq.
  - destruct (run_job j' s) as [s' r] eqn:Hrun. apply run_job_runs in Hrun as (new & Hc & _).
    apply (f_equal (λ c, (c_jobs c, c_results c, c_connected c))) in Hc. injection Hc as Hj' Hr' Hk'.
    open_system s'. rewrite Hj', Hr', Hk', Hj, Hr. done.
  - open_system s. by subst.
  - open_system s. by subst.
Qed.
Lemma pending_done (s : system) : s.(connected) = true → pending s = Some 0 → worker_move s = s.
Proof using sha.
  unfold pending, worker_move. intros Hk Hp. rewrite Hk.
  by destruct (jobs s) as [|j [|]], (worker s), (results s) as [|? [|]]; simplify_eq.
Qed.
Lemma moves_pending n m (s : system) :
  s.(connected) = true → pending s = Some n → n ≤ m → pending (Nat.iter m worker_move s) = Some 0.
Proof using sha.
  intros Hk Hp Hm.
  assert (∀ m, pending (Nat.iter m worker_move s) = Some (n - m)
    ∧ (Nat.iter m worker_move s).(connected) = true) as Hall.
  { clear Hm m. intros m. induction m as [|m [IH Hc]]; simpl; [by rewrite Nat.sub_0_r|].
    destruct (n - m) as [|k] eqn:Hk'; [rewrite pending_done by done; by replace (n - S m) with 0 by lia|].
    replace (n - S m) with k by lia. by apply move_pending. }
  destruct (Hall m) as [-> _]. f_equal. lia.
Qed.

(** The result a phase waits for ends the wait. *)
Lemma awaited_enters (l : list (Call P A PR AR)) r (s : system) :
  awaits l s.(state).(phase) (OfResult r) →
  ∃ p s1, apply_worker_result r s = enter p s1 ∧ busy p = false ∧ s1.(state) = s.(state).
Proof using sha.
  intros Ha. destruct (phase (state s)) eqn:Hp, r as [op r|op r|op r|op r|op r|op r]; simpl in Ha; try done;
    try match type of Ha with _ ∧ _ => destruct Ha as [-> Ha] end; try subst op; simpl;
    unfold apply_prepared, apply_executed, apply_cancelled, apply_rollback_prepared,
      apply_rollback_executed, apply_rollback_cancelled; rewrite Hp, ne_refl_false; repeat case_match; simplify_eq;
    (eexists _, _; split; [reflexivity|]);
    (split; [|solve [done|apply discard_state|apply discard_rollback_state|apply note_state]]);
    first [done|by destruct source_terminal].
Qed.

Lemma enter_spec p (s : system) :
  (enter p s).(state).(phase) = p
  ∧ ((s.(state).(version) < U64_MAX)%Z → (enter p s).(state).(version) = (s.(state).(version) + 1)%Z).
Proof using sha.
  split; [by apply (f_equal c_phase (core_enter p s))|]. intros Hv.
  unfold enter, bump, final. destruct (bump_version_run (set_phase p s)) as (s' & r & -> & _ & _ & Hr). simpl.
  destruct Hr as [[_ ->]|(_ & -> & Hm)]; [by open_system s|]. open_system s. lia.
Qed.

Lemma wait_ends (s : system) n :
  alive s → s.(worker) ≠ Gone → busy s.(state).(phase) = true → 3 ≤ n →
  let s' := drain_results (Nat.iter n worker_move s) in
  busy s'.(state).(phase) = false
  ∧ ((s.(state).(version) < U64_MAX)%Z → s'.(state).(version) = (s.(state).(version) + 1)%Z).
Proof using sha.
  intros Ha Hw Hb Hn. destruct (waiting_pending s Ha Hw Hb) as (m & Hm & Hp).
  destruct (worker_moves_alive n s Ha) as [Ha' Hs]. destruct Ha as [_ Hk].
  apply (moves_pending m n) in Hp; [|done|lia]. revert Ha' Hs Hp. generalize (Nat.iter n worker_move s).
  intros s1 [Hi1 Hk1] Hs Hp. simpl.
  assert (∃ r, results s1 = [r]) as [r Hr].
  { unfold pending in Hp. destruct (jobs s1) as [|? [|]], (worker s1), (results s1) as [|? [|]]; simplify_eq. eauto. }
  destruct (result_core (core s1) r [] (inv_coherent _ Hi1) Hk1 Hr) as [_ Haw].
  rewrite (drain_one r) by done. simpl in Haw.
  destruct (awaited_enters (calls s1) r (set_results [] s1)) as (p & s2 & -> & Hbp & Hs2); [by open_system s1|].
  destruct (enter_spec p s2) as [-> Hv]. split; [done|].
  assert (state (set_results [] s1) = state s) as He by (by open_system s1).
  rewrite Hs2, He in Hv. done.
Qed.

(** ** Nothing is dropped while both threads run *)

(** Nothing new is dropped, and a worker that is gone stays gone. *)
Definition keeps (s s' : system) : Prop :=
  s'.(dropped) = s.(dropped) ∧ (s.(worker) = Gone → s'.(worker) = Gone).
#[local] Instance keeps_preorder : PreOrder keeps.
Proof. split; [done|]. intros s1 s2 s3 [] []. split; [congruence|auto]. Qed.

Lemma ends_keeps (s s' : system) : ends (core s') = ends (core s) → keeps s s'.
Proof. intros [= _ Hw Hd]. split; congruence. Qed.
Lemma drain_keeps (s : system) : alive s → keeps s (drain_results s).
Proof using sha.
  intros Ha. destruct (alive_results s Ha) as [Hr|[r Hr]]; [by rewrite drain_nil|].
  rewrite (drain_one r) by done. apply ends_keeps. rewrite apply_ends. by open_system s.
Qed.
Lemma moves_keep n (s : system) : keeps s (Nat.iter n worker_move s).
Proof using sha.
  induction n as [|n IH]; simpl; [done|]. etrans; [exact IH|].
  destruct (worker_move_fields (Nat.iter n worker_move s)) as (_ & _ & ? & Hg). split; [done|].
  intros Hgone. by rewrite Hg.
Qed.
Lemma frame_keeps n frame (s : system) : alive s → keeps s (handle_frame n frame s).1.
Proof.
  intros Ha. unfold handle_frame. destruct (drain_alive s Ha) as [Ha1 _]. pose proof (drain_keeps s Ha) as K1.
  destruct (_ || _); [done|]. destruct (read_service_request frame) as [request|]; [|done].
  unfold handle_request. destruct (validate_envelope request) as [[]|e] eqn:Hv; [|done].
  destruct (dispatch request _) as [s2 r] eqn:Hd. destruct (dispatch_alive _ _ _ _ Ha1 Hv Hd) as [Ha2 _].
  apply dispatch_bounded in Hd as [He _ _]; [|done]. simpl. etrans; [exact K1|].
  transitivity s2; [apply ends_keeps; by destruct He|]. etrans; [apply (moves_keep n)|].
  by apply drain_keeps, worker_moves_alive.
Qed.

Lemma nothing_dropped (s : system) :
  reachable s → s.(connected) = true → s.(worker) ≠ Gone → s.(dropped) = [].
Proof.
  induction 1 as [w deadline t random s Hs|s s' Hr IH Hstep].
  - unfold start in Hs. destruct (recover_pending w deadline). by inv_ok Hs.
  - pose proof (reachable_sound s Hr) as Hsd. intros Hk Hw.
    assert (∀ s1, s.(connected) = true → keeps s s1 → s1.(worker) ≠ Gone → s1.(dropped) = []) as Hkeep.
    { intros s1 ? [-> Hg] ?. apply IH; auto. }
    destruct Hstep as [s moves frame Hc|s Hc|s|s|s Hc|s t random Ht].
    + apply Hkeep; [done| |done]. by apply frame_keeps; split; [apply Hsd|].
    + assert (keeps s (drain_results s)) as [Hd Hg] by by apply drain_keeps; split; [apply Hsd|].
      unfold take_execution_failure_diagnostic in *. simpl in *. apply Hkeep; [done| |done].
      by split; [rewrite <-Hd|intros ?%Hg]; destruct (drain_results s).
    + destruct (worker_move_fields s) as (_ & Hc & _). rewrite Hc in Hk. apply Hkeep; [done|apply (moves_keep 1)|done].
    + unfold worker_panics in *. destruct (worker s) eqn:Hws; try by apply IH; [|congruence]. by open_system s.
    + by open_system s.
    + open_system s. auto.
Qed.

(** ** End states *)

Lemma idle_drain (s : system) : alive s → busy s.(state).(phase) = false → drain_results s = s.
Proof using sha.
  intros [Hi Hk] Hb. apply drain_nil.
  destruct (settled_core (core s) (inv_coherent _ Hi) Hk Hb) as [Hc _]. by apply (f_equal c_results) in Hc.
Qed.

Lemma terminal_step (s s' : system) r :
  sound s → step s s' → s.(state).(phase) = Terminal r → r.(rcp_outcome) ≠ Committed →
  s'.(state).(phase) = Terminal r.
Proof.
  intros Hsd Hstep Hp Hr. destruct Hstep as [s moves frame Hk|s Hk|s|s|s Hk|s t random Ht].
  - assert (alive s) as Ha by by split; [apply Hsd|].
    unfold handle_frame. rewrite (idle_drain s Ha) by by rewrite Hp.
    destruct (_ || _); [done|]. destruct (read_service_request frame) as [request|]; [|done].
    unfold handle_request. destruct (validate_envelope request) as [[]|e] eqn:Hv; [|done].
    destruct (dispatch request s) as [s1 res] eqn:Hd. destruct (dispatch_alive _ _ _ _ Ha Hv Hd) as [Ha1 _].
    assert (phase (state s1) = Terminal r) as Hp1.
    { apply dispatch_bounded in Hd as [He _ _]; [|done]. change (c_phase (core s1) = Terminal r).
      destruct He as [| | | | |op command pid source deadline Hph _ Hm| | |]; simpl in *; try congruence.
      rewrite Hp in Hph. destruct source as [receipt|]; simplify_eq/=.
      specialize (Hm _ eq_refl). unfold source_matches_terminal in Hm. by guards. }
    destruct (worker_moves_alive moves s1 Ha1) as [Ha2 Hs2]. simpl.
    rewrite idle_drain; [by rewrite Hs2|done|by rewrite Hs2, Hp1].
  - unfold take_execution_failure_diagnostic. simpl.
    rewrite idle_drain; [by open_system s|by split; [apply Hsd|]|by rewrite Hp].
  - by destruct (worker_move_fields s) as [-> _].
  - unfold worker_panics. destruct (worker s); try done. by open_system s.
  - by open_system s.
  - by open_system s.
Qed.

Lemma step_versioned (s s' : system) : sound s → step s s' → versioned s s'.
Proof.
  intros Hsd Hstep. destruct Hstep as [s moves frame Hk|s Hk|s|s|s Hk|s t random Ht].
  - by apply handle_frame_alive; split; [apply Hsd|].
  - unfold take_execution_failure_diagnostic. simpl. destruct (drain_alive s) as [_ Hv]; [by split; [apply Hsd|]|].
    by destruct (drain_results s).
  - unfold versioned. destruct (worker_move_fields s) as [-> _]. split; [done|by left].
  - unfold worker_panics. destruct (worker s); try done. unfold versioned. open_system s. auto with lia.
  - unfold versioned. open_system s. auto with lia.
  - unfold versioned. open_system s. auto with lia.
Qed.

(** ** Approvals *)

(** The resources an approval needs besides the state. *)
Definition resourced (s : system) : Prop :=
  (s.(state).(next_operation_id) < U64_MAX)%Z ∧ (s.(state).(version) < U64_MAX)%Z
  ∧ (s.(now) + EXECUTE_TIMEOUT < INSTANT_LIMIT)%Z.

(** The answer to an approval, by phase. *)
Definition approval_answer (a : BoundRepairApproval) (c : RepairCandidateKind) (s s' : system)
    (r : result RepairServiceErrorToken ()) : Prop :=
  match s.(state).(phase) with
  | Prepared p summary =>
      (approval_echoes a summary c → r = Ok tt
         ∧ s'.(state).(phase) = Executing s.(state).(next_operation_id)
         ∧ s'.(jobs) = [JobApproveAndExecute s.(state).(next_operation_id) p a (s.(now) + EXECUTE_TIMEOUT)%Z])
      ∧ (¬ approval_echoes a summary c → r = Err TokBindingMismatch ∧ s' = s)
  | Preparing _ _ _ | Executing _ | RollbackPreparing _ _ _ _ | RollbackExecuting _ _
  | RollbackCancelling _ _ => r = Err TokBusy ∧ s' = s
  | Idle | Terminal _ | RollbackPrepared _ _ _ => r = Err TokStateConflict ∧ s' = s
  end.

Lemma begin_approval_answer a c (s : system) :
  (busy s.(state).(phase) = false → sendable (core s)) → resourced s →
  approval_answer a c s (begin_approval a c s).1 (begin_approval a c s).2.
Proof using sha.
  intros Hsend (Hop & Hv & Hd). unfold approval_answer, begin_approval, take_operation_id, absolute_deadline,
    bump_version, try_send. run_methods. unfold sendable in Hsend.
  open_system s. destruct phase as [| |p summary| | | | | |]; simpl in *; try done.
  destruct (Hsend eq_refl) as [-> Hw]. clear Hsend.
  split.
  - intros [H1 H2 H3 H4 H5 H6 H7].
    rewrite (bool_decide_false (_ = sum_prepare_request_id _)), H2, H3, H4, H5, H6, H7, !ne_refl_false by done. simpl.
    rewrite checked_add_u64_fits by lia. simpl. destruct (Z.leb_spec INSTANT_LIMIT (now + EXECUTE_TIMEOUT)); [lia|]. simpl.
    destruct worker; try done; simpl; rewrite checked_add_u64_fits by lia; done.
  - intros Hn. match goal with |- context [if ?b then _ else _] => destruct b eqn:Hg end; [done|].
    destruct Hn. clear -Hg. guards. by split.
Qed.

(** ** Claims *)

(** C4. In every run of the service, with every engine, the commands that reach
    the engine carry well-formed identifiers; an approval reaches the engine only after the engine prepared exactly that authority for a command
    whose session, plan and resource the approval names, with the plan hash and
    sequence number the engine returned, the typed confirmation of the candidate
    and another request identifier than the preparation; an execution follows a
    successful approval; and an approval of a rollback names the digest of the
    canonical rollback plan of its source transaction and an approval identifier
    other than that of the source. *)
Theorem repair_executes_only_bound_approvals (s : system) before c after :
  reachable s → s.(calls) = before ++ c :: after →
  match c with
  | CallApprove p a _ =>
      ∃ command d, CallPrepare command (Ok (p, d)) ∈ before ∧ descriptor_matches command d = true
        ∧ approval_binds a command d
  | CallExecute approved => ∃ p a, CallApprove p a (Ok approved) ∈ before
  | CallApproveRollback p a _ =>
      ∃ command d resource plan, CallPrepareRollback command (Ok (p, d)) ∈ before
        ∧ rollback_resource command.(rcmd_candidate) = Some resource
        ∧ Rollback.canonical_rescue_repair_rollback_plan
            (Rollback.mkPlanInput resource command.(rcmd_plan_id) command.(rcmd_rollback_id)
               d.(rds_target_fingerprint) command.(rcmd_source).(src_reservation_id)
               command.(rcmd_source).(src_transaction_binding_sha256)) = Ok (plan, a.(rap_plan_hash))
        ∧ rollback_binds a command d
  | CallExecuteRollback approved => ∃ p a, CallApproveRollback p a (Ok approved) ∈ before
  | CallPrepare command _ => command_valid command
  | CallPrepareRollback command _ => rollback_command_valid command
  | CallCancel _ | CallCancelRollback _ => True
  end.
Proof.
  intros Hr Hc. destruct (reachable_sound s Hr) as [[Hh _ _] _]. specialize (Hh _ _ _ Hc).
  destruct c as [| | | | |p a r| |]; try done. destruct Hh as (command & d & Hin & Hm & Hb).
  unfold rollback_descriptor_matches in Hm. destruct (rollback_resource _) as [resource|] eqn:Hres; [|done]. guards.
  unfold canonical_rollback_hash in *. rewrite (rb_hash _ _ _ Hb).
  destruct (Rollback.canonical_rescue_repair_rollback_plan _) as [[plan hash]|] eqn:Hplan; [|done].
  exists command, d, resource, plan. split_and!; [done..| |done]. rewrite Hplan. naive_solver.
Qed.

(** C5. In every run of the service the authorities that the engine handed out
    are, as a multiset, those that calls of the engine consumed, those that were
    dropped and those still held; while the service lives at most one is held;
    and none is dropped unless the service ends or the engine panics. *)
Theorem repair_authorities_conserved (s : system) :
  reachable s →
  s.(calls) ≫= issued ≡ₚ (s.(calls) ≫= consumed) ++ s.(dropped) ++ held (core s)
  ∧ (s.(connected) = true → length (held (core s)) ≤ 1)
  ∧ (s.(connected) = true → s.(worker) ≠ Gone → s.(dropped) = []).
Proof.
  intros Hr. destruct (reachable_sound s Hr) as [[_ Hco Hcon] _].
  split_and!; [done| |by apply nothing_dropped].
  intros Hk. unfold held, coherent in *. simpl in *. rewrite Hk in *. destruct (busy _) eqn:Hb.
  - replace (phase_authorities _) with (@nil (P + PR)) by by destruct (phase (state s)).
    assert (pipeline (core s) = [] ∨ ∃ i, pipeline (core s) = [i]) as [->|[i ->]]
      by (destruct (worker s); naive_solver); [simpl; lia|].
    simpl. rewrite app_nil_r. destruct i as [[]|[? [[]|]| | |? [[]|]| |]]; simpl; lia.
  - destruct Hco as (_ & -> & _). rewrite app_nil_r. destruct (phase (state s)); simpl; lia.
Qed.

(** C6. While the service lives and its worker has not panicked, a phase that
    waits is answered: after three moves of the worker the next drain takes the
    result, leaves the waiting phase and advances the version by one. A phase
    that does not wait can always hand a job to the worker. *)
Theorem repair_service_progress (s : system) :
  reachable s → s.(connected) = true → s.(worker) ≠ Gone →
  if busy s.(state).(phase)
  then ∀ n, 3 ≤ n →
    let s' := drain_results (Nat.iter n worker_move s) in
    busy s'.(state).(phase) = false
    ∧ ((s.(state).(version) < U64_MAX)%Z → s'.(state).(version) = (s.(state).(version) + 1)%Z)
  else ∀ job, try_send job s = Some (set_jobs [job] s).
Proof.
  intros Hr Hk Hw. pose proof (reachable_sound s Hr) as [Hi _]. destruct (busy _) eqn:Hb.
  - intros n Hn. by apply wait_ends.
  - intros job. apply try_send_Some. split; [|done]. by apply settled_sendable; [apply Hi|..].
Qed.

(** C7. Along every run the state version never decreases and, below its
    maximum, two moments with the same version have the same phase; and an end
    state other than a committed repair is final. *)
Theorem repair_end_states_final (s s' : system) :
  reachable s → rtc step s s' →
  versioned s s' ∧ ∀ r, s.(state).(phase) = Terminal r → r.(rcp_outcome) ≠ Committed →
    s'.(state).(phase) = Terminal r.
Proof.
  intros Hr Hs. apply reachable_sound in Hr.
  induction Hs as [s|s s1 s2 Hstep _ IH]; [done|].
  destruct IH as [Hv Ht]; [by eapply repair_step_sound|]. split; [etrans; [by apply step_versioned|done]|].
  intros r Hp Ho. apply Ht; [|done]. by eapply terminal_step.
Qed.

(** C8. In every reachable state an approval is accepted exactly when a repair of
    its candidate is prepared and the approval repeats the summary of it under
    another request identifier; acceptance hands the prepared authority with the
    approval and the deadline to the worker. Every other approval changes
    nothing and is answered with a binding mismatch, a conflict or busy. *)
Theorem repair_approval_exact (s : system) a c :
  reachable s → s.(connected) = true → resourced s →
  approval_answer a c s (begin_approval a c s).1 (begin_approval a c s).2.
Proof.
  intros Hr Hk Hres. apply begin_approval_answer; [|done]. intros Hb.
  destruct (reachable_sound s Hr) as [[_ Hco _] _]. by apply settled_sendable.
Qed.

(** A client of the first API version never sees the vocabulary of rollbacks,
    and a client of the rollback API sees neither prepared repairs nor prepared
    rollbacks of another resource. *)
Theorem repair_responses_separated operation (s : system) :
  match rollback_candidate_for_operation operation with
  | None =>
      (∀ d, (snapshot_for_operation operation s).2 ≠ Some (DetailRollbackPrepared d))
      ∧ ∀ d, (snapshot_for_operation operation s).2 = Some (DetailTerminal d) →
          d.(td_terminal_outcome) ≠ "rolled-back-original"%string
  | Some c =>
      (∀ d, (snapshot_for_operation operation s).2 ≠ Some (DetailPrepared d))
      ∧ ∀ d, (snapshot_for_operation operation s).2 = Some (DetailRollbackPrepared d) →
          d.(rd_resource_id) = resource_id c
  end.
Proof.
  unfold snapshot_for_operation, snapshot.
  destruct (rollback_candidate_for_operation operation) as [c|]; simpl;
    destruct (phase (state s)) as [| | | | |p summary source| | |receipt] eqn:Hp; simpl; try (split; naive_solver).
  - destruct (bool_decide_reflect (rds_resource_id (rsum_descriptor summary) ≠ resource_id c)) as [Hn|Hn];
      (split; [done|]); simpl; intros d [= <-]. unfold rollback_summary_detail.
    destruct (default _ _) as [[]]. simpl. by apply dec_stable.
  - case_bool_decide; (split; [done|]); simpl; intros d [= <-]; [done|]. simpl. by destruct (rcp_outcome receipt).
Qed.
End properties.

(** ** A run *)

Module RepairDemo.
#[local] Existing Instance Demo.demo_sha256.

Definition zeros (n : nat) : string := String.string_of_list_byte (repeat x30 n).
Definition digest (prefix : string) : string := prefix +:+ zeros 64.
Definition prepare_id : string := "R-00000000-0000-4000-8000-000000000001".
Definition approve_id : string := "R-00000000-0000-4000-8000-000000000002".
Definition session : string := "S-00000000000040008000000000000001".

(** Authorities are numbers; a repair commits at once. *)
Definition committed : RepairTerminalReceipt :=
  mkReceipt Committed (Some ("B-" +:+ zeros 32)) (Some (digest "sha256:")) None None.
#[local] Instance demo_engine : RepairEngine () nat nat nat nat := {
  recover_pending w _ := (w, Ok None);
  engine_prepare w command _ :=
    (w, Ok (0, mkDescriptorOf command.(cmd_session_id) command.(cmd_plan_id) (digest "sha256:")
               command.(cmd_target).(tgt_target_fingerprint) (digest "sha256:") (digest "sha256:")
               (digest "sha256:") (resource_id command.(cmd_candidate)) ("vault://repair/B-" +:+ zeros 32)
               1 true true));
  engine_approve w p _ _ := (w, Ok p);
  engine_execute w _ _ := (w, Ok committed);
  cancel_prepared w _ _ := (w, Ok tt);
  prepare_rollback w _ _ := (w, Err FailInternal);
  approve_rollback w p _ _ := (w, Ok p);
  execute_rollback w _ _ := (w, Err FailInternal);
  cancel_prepared_rollback w _ _ := (w, Ok tt);
}.
Definition prepare_request : RepairServiceRequest :=
  Prepare REPAIR_SERVICE_API_VERSION prepare_id (mkTarget (digest "scan:") (digest "sha256:") (digest "target:")).
Definition approve_request : RepairServiceRequest :=
  Approve REPAIR_SERVICE_API_VERSION approve_id ("Q-" +:+ zeros 32) session ("P-" +:+ zeros 32)
    (digest "sha256:") ("A-" +:+ zeros 32) 1 FSTAB_CONFIRMATION.
Definition approval : BoundRepairApproval :=
  mkApproval approve_id ("Q-" +:+ zeros 32) session ("P-" +:+ zeros 32) (digest "sha256:")
    ("A-" +:+ zeros 32) 1 FSTAB_CONFIRMATION.
(** One byte stands for each request. *)
#[local] Instance demo_json : ServiceJson := {
  read_service_request frame :=
    match frame with [x01] => Some prepare_request | [x02] => Some approve_request | _ => None end;
  read_probe _ := None;
  write_response _ := None;
}.

Abbreviation system := (System () nat nat nat nat).
Definition started : system :=
  mkSystem (mkServiceState 1 1 Idle) None [] [] true Receiving tt [] [] 0
    [Some (repeat x00 16); Some (repeat x00 16)].
Definition preparing : system := (handle_frame 0 [x01] started).1.
Definition prepared : system := (handle_frame 3 [x01] started).1.
Definition executing : system := (handle_frame 0 [x02] prepared).1.
Definition executed : system := (handle_frame 3 [x02] prepared).1.

Lemma started_reachable : reachable started.
Proof. by apply (reach_start tt 0%Z 0%Z [Some (repeat x00 16); Some (repeat x00 16)]). Defined.
Lemma preparing_reachable : reachable preparing.
Proof. apply (reach_step started); [apply started_reachable|by apply (step_frame started 0 [x01])]. Defined.
Lemma prepared_reachable : reachable prepared.
Proof. apply (reach_step started); [apply started_reachable|by apply (step_frame started 3 [x01])]. Defined.
Lemma executed_reachable : reachable executed.
Proof. apply (reach_step prepared); [apply prepared_reachable|by apply (step_frame prepared 3 [x02])]. Defined.

(** The calls of the run: prepare, approve, execute. *)
Definition prepare_call : Call nat nat nat nat := default (CallCancel 7) (head executed.(calls)).
Definition approve_call : Call nat nat nat nat := CallApprove 0 approval (Ok 0).

Lemma repair_executes_only_bound_approvals_witness :
  executed.(calls) = [prepare_call] ++ approve_call :: [CallExecute 0]
  ∧ ∃ command d, CallPrepare command (Ok (0, d)) ∈ [prepare_call] ∧ descriptor_matches command d = true
    ∧ approval_binds approval command d.
Proof.
  assert (executed.(calls) = [prepare_call] ++ approve_call :: [CallExecute 0]) as H by (vm_compute; reflexivity).
  split; [exact H|].
  exact (repair_executes_only_bound_approvals executed [prepare_call] approve_call [CallExecute 0] executed_reachable H).
Defined.

Lemma repair_authorities_conserved_witness :
  executed.(calls) ≫= issued ≡ₚ [inl 0]
  ∧ executed.(calls) ≫= issued ≡ₚ (executed.(calls) ≫= consumed) ++ executed.(dropped) ++ held (core executed).
Proof.
  split; [vm_compute; reflexivity|]. exact (proj1 (repair_authorities_conserved executed executed_reachable)).
Defined.

Lemma repair_service_progress_witness :
  busy preparing.(state).(phase) = true
  ∧ busy (drain_results (Nat.iter 3 worker_move preparing)).(state).(phase) = false.
Proof.
  split; [vm_compute; reflexivity|].
  assert (preparing.(worker) ≠ Gone) as Hw by (vm_compute; discriminate).
  exact (proj1 (repair_service_progress preparing preparing_reachable eq_refl Hw 3 (le_n 3))).
Defined.

Lemma repair_end_states_final_witness :
  executed.(state).(version) = 5%Z ∧ versioned started executed.
Proof.
  split; [vm_compute; reflexivity|].
  refine (proj1 (repair_end_states_final started executed started_reachable _)).
  eapply rtc_l; [exact (step_frame started 3 [x01] eq_refl)|].
  eapply rtc_l; [exact (step_frame prepared 3 [x02] eq_refl)|]. apply rtc_refl.
Defined.

Lemma repair_approval_exact_witness :
  (begin_approval approval CandidateFstab prepared).2 = Ok tt
  ∧ approval_answer approval CandidateFstab prepared (begin_approval approval CandidateFstab prepared).1
      (begin_approval approval CandidateFstab prepared).2.
Proof.
  split; [vm_compute; reflexivity|].
  apply (repair_approval_exact prepared approval CandidateFstab prepared_reachable); [vm_compute; reflexivity|].
  split_and!; vm_compute; reflexivity.
Defined.
End RepairDemo.
