(* ===== verification/RepairStoreTypes.v ===== *)
(** * The durable repair store: records, events and projections
    (crates/rescue-secrets/src/repair_store.rs)

    The vault keeps the backups of a repair and the state of its transactions in
    one event-sourced store. This file holds its data: drafts, bindings, the 19
    journal events, the recovered state, the checks of texts and identifiers, and
    the projection of a durable record to the protocol's status payloads. The
    replay of events is in [RepairStoreEvents]. *)

From stdpp Require Import sorting gmap.
From Stdlib.Strings Require Import Byte.
From Stdlib Require String Ascii.
From S2P Require Import Prelude Bytes Text Crypto VaultWire JournalChain RepairVault.

(** ** Constants *)

Definition MAX_BACKUP_BYTES : Z := 16 * 1024 * 1024.
Definition MAX_RESERVATIONS : Z := 64.
Definition MAX_JOURNAL_EVENTS : Z := 4096.
Definition MAX_EVENT_BYTES : Z := 4096.
Definition JOURNAL_COMPACTION_TRIGGER_EVENTS : Z := 3072.
Definition MAX_RELEASE_TOMBSTONES : Z := MAX_JOURNAL_EVENTS / 2.
Definition MAX_RETAINED_RELEASE_TOMBSTONES : Z := 64.
Definition RELEASE_TOMBSTONE_EVENT_TTL : Z := 512.
Definition VAULT_IDENTITY_DOMAIN : bytes := domain "KERNAID-REPAIR-VAULT-IDENTITY-V1".
Definition STABLE_VAULT_ID_DOMAIN : bytes := domain "KERNAID-REPAIR-STABLE-VAULT-ID-V1".
Definition WRITE_LEASE_BOOT_EPOCH_DOMAIN : bytes := domain "KERNAID-REPAIR-WRITE-LEASE-BOOT-EPOCH-V1".
Definition RESERVATION_BINDING_DOMAIN : bytes := domain "KERNAID-REPAIR-RESERVATION-V1".
Definition BACKUP_PREFIX : string := "backup-".

Inductive RepairVaultStoreError :=
| InvalidDraft | InvalidBinding | InvalidReservationId | ReservationNotFound | ReservationConflict
| ReservationNotReady | WriteLeaseConsumed | ReconciliationRequired | UnsafeSource | SourceHashMismatch
| InsufficientCapacity | PhysicalParentUnavailable | CorruptJournal | CorruptStore | ConcurrentWrite
| WriteVerificationFailed | StorageUnavailable.

#[export] Instance RepairVaultStoreError_eq_dec : EqDecision RepairVaultStoreError.
Proof. solve_decision. Defined.

(** ** Identifiers and texts *)

Definition valid_lower_hex (value : string) (length : Z) : bool :=
  (len value == length) && all_bytes is_lower_hex value.
Definition valid_sha256 (value : string) : bool := valid_lower_hex value 64.

Definition valid_reservation_id (value : string) : bool :=
  (len value == 34%Z)
  && match strip_prefix "B-" value with Some suffix => all_bytes is_lower_hex suffix | None => false end.
Definition valid_vault_id (value : string) : bool :=
  (len value == 34%Z)
  && match strip_prefix "V-" value with Some suffix => all_bytes is_lower_hex suffix | None => false end.
Definition valid_prefixed_id (value prefix : string) : bool :=
  contains 3 128 (len value)
  && match strip_prefix prefix value with
     | Some suffix => negb (is_empty suffix) && all_bytes (λ b, is_ascii_alphanumeric b || (b == x2d)) suffix
     | None => false
     end.
Definition valid_opaque_id (value : string) : bool :=
  contains 1 128 (len value)
  && all_bytes (λ b, is_ascii_alphanumeric b || bool_decide (b ∈ [x2d; x5f; x3a; x2e])) value
  && negb (dot_dot (as_bytes value)).
Definition valid_recovery_fingerprint (value : string) : bool :=
  match strip_prefix "recovery:" value with Some digest => valid_lower_hex digest 64 | None => false end.

(** [ReservationId(String)], whose constructors check the text. *)
Definition ReservationId : Type := checked valid_reservation_id.
#[export] Instance ReservationId_eq_dec : EqDecision ReservationId := checked_eq_dec.
#[export] Instance ReservationId_countable : Countable ReservationId.
Proof.
  refine (inj_countable as_str (λ s, match check valid_reservation_id () s with Ok c => Some c | Err _ => None end) _).
  intros c. destruct (check _ _ _) as [c'|e] eqn:Hc.
  - apply check_Ok in Hc. f_equal. by apply checked_eq.
  - apply check_Err in Hc as [_ Hc]. pose proof c.(as_str_ok) as H. by rewrite Hc in H.
Defined.
Definition ReservationId_parse : string → result RepairVaultStoreError ReservationId :=
  check _ InvalidReservationId.
Definition backup_locator (id : ReservationId) : string := "vault://repair/" +:+ id.(as_str).
Definition backup_filename (id : ReservationId) : string := BACKUP_PREFIX +:+ id.(as_str).

(** [[u8; 32]]. *)
Record array32 : Type := Array32 { raw : bytes; raw_len : Is_true (length raw == 32) }.
Lemma array32_eq a b : a.(raw) = b.(raw) → a = b.
Proof. destruct a as [a Ha], b as [b Hb]. cbn. intros ->. f_equal. apply proof_irrel. Qed.
#[export] Instance array32_eq_dec : EqDecision array32.
Proof. refine (λ a b, cast_if (decide (a.(raw) = b.(raw)))); [by apply array32_eq|congruence]. Defined.
Definition zero32 (a : array32) : bool := a.(raw) == replicate 32 x00.

(** Parses a journal anchor from its text in a compaction record. *)
Definition decode_compaction_anchor (value : string) : option JournalAnchor :=
  if negb (valid_lower_hex value (2 * Z.of_nat ENCODED_BYTES)) then None
  else match from_bytes (pairs_bytes (as_bytes value)) with Ok a => Some a | Err _ => None end.

(** ** Drafts and bindings *)

Record RepairBackupDraft := mkDraft {
  d_session_id : string;
  d_target_id : string;
  d_target_fingerprint : array32;
  d_target_recovery_fingerprint : string;
  d_expected_backup_sha256 : array32;
  d_metadata_sha256 : array32;
  d_backup_size_bytes : Z;
  d_required_capacity_bytes : Z;
}.

Record RepairBinding := mkBinding {
  b_plan_id : string;
  b_plan_sha256 : array32;
  b_approval_id : string;
  b_approval_sha256 : array32;
  b_resource_id : string;
  b_resource_sha256 : array32;
  b_execution_intent : RepairExecutionIntentV1;
}.

#[export] Instance RepairBackupDraft_eq_dec : EqDecision RepairBackupDraft.
Proof. solve_decision. Defined.
#[export] Instance RepairBinding_eq_dec : EqDecision RepairBinding.
Proof. solve_decision. Defined.

(** ** Events *)

Inductive RepairEvent :=
| CompactionBegin (generation logical_event_clock active_reservations retained_releases : Z)
    (previous_anchor : string)
| CompactionComplete (generation : Z)
| ReserveIntent (reservation_id : ReservationId) (draft : RepairBackupDraft)
    (reservation_binding_sha256 : string) (reserved_capacity_bytes : Z)
    (vault_id vault_identity_fingerprint physical_parent_fingerprint : string)
| ReserveComplete (reservation_id : ReservationId)
| ReserveAbort (reservation_id : ReservationId)
| PersistIntent (reservation_id : ReservationId) (binding : RepairBinding)
| PersistComplete (reservation_id : ReservationId) (backup_sha256 : string) (backup_size_bytes : Z)
| PersistAbort (reservation_id : ReservationId)
| TransactionResolveIntent (reservation_id : ReservationId) (transaction_binding_sha256 : string)
    (expected_phase : RepairTransactionPhase) (resolution : RepairTransactionResolution)
| TransactionResolveComplete (reservation_id : ReservationId) (transaction_binding_sha256 : string)
| TransactionWriteLeaseConsume (reservation_id : ReservationId)
    (transaction_binding_sha256 boot_epoch_sha256 lease_binding_sha256 : string)
| RollbackBegin (source_reservation_id : ReservationId) (source_transaction_binding_sha256 : string)
    (rollback_id : RepairRollbackId) (rollback_transaction_binding_sha256 : string)
    (binding : RepairRollbackBindingV1)
| RollbackWriteLeaseConsume (source_reservation_id : ReservationId) (rollback_id : RepairRollbackId)
    (rollback_transaction_binding_sha256 boot_epoch_sha256 lease_binding_sha256 : string)
| RollbackResolveIntent (source_reservation_id : ReservationId) (rollback_id : RepairRollbackId)
    (rollback_transaction_binding_sha256 : string) (expected_phase : RepairTransactionPhase)
    (resolution : RepairRollbackResolution)
| RollbackResolveComplete (source_reservation_id : ReservationId) (rollback_id : RepairRollbackId)
    (rollback_transaction_binding_sha256 : string)
| CancelIntent (reservation_id : ReservationId)
| CancelComplete (reservation_id : ReservationId) (released_at_event : option Z)
| RetireIntent (reservation_id : ReservationId)
| RetireComplete (reservation_id : ReservationId) (released_at_event : option Z).

(** ** The recovered state *)

Inductive ReservationPhase :=
| ReservePending
| ReservedPhase
| PersistPending (binding : RepairBinding)
| CancelPending
| RetirePending (binding : RepairBinding) (resolution : RepairTransactionResolution)
| DurablePhase (binding : RepairBinding).

Record ReservationRecord := mkRecord {
  r_draft : RepairBackupDraft;
  r_reservation_binding_sha256 : string;
  r_reserved_capacity_bytes : Z;
  r_vault_id : string;
  r_vault_identity_fingerprint : string;
  r_physical_parent_fingerprint : string;
  r_phase : ReservationPhase;
}.

Record ConsumedWriteLease := mkLease {
  boot_epoch_sha256 : string;
  lease_binding_sha256 : string;
}.

Record PendingTransactionResolution := mkPending {
  p_transaction_binding_sha256 : string;
  p_expected_phase : RepairTransactionPhase;
  p_resolution : RepairTransactionResolution;
}.

Record PendingRollbackResolution := mkPendingRollback {
  pr_rollback_transaction_binding_sha256 : string;
  pr_expected_phase : RepairTransactionPhase;
  pr_resolution : RepairRollbackResolution;
}.

Record RepairRollbackTransactionRecord := mkRollbackRecord {
  rb_rollback_id : RepairRollbackId;
  rb_binding : RepairRollbackBindingV1;
  rb_resolution : option RepairRollbackResolution;
  rb_pending_resolution : option PendingRollbackResolution;
  rb_write_lease : option ConsumedWriteLease;
}.

Record RepairTransactionRecord := mkTransactionRecord {
  t_resolution : option RepairTransactionResolution;
  t_pending_resolution : option PendingTransactionResolution;
  t_write_lease : option ConsumedWriteLease;
  t_rollback : option RepairRollbackTransactionRecord;
}.

Inductive ReleaseOperation := CancelRelease | RetireRelease.

Record ReleaseTombstone := mkTombstone {
  operation : ReleaseOperation;
  tomb_record : ReservationRecord;
  released_at_event : Z;
}.

Record CompactionReplay := mkReplay {
  replay_generation : Z;
  replay_active_reservations : Z;
  replay_retained_releases : Z;
}.

#[export] Instance ReservationPhase_eq_dec : EqDecision ReservationPhase.
Proof. solve_decision. Defined.
#[export] Instance ReservationRecord_eq_dec : EqDecision ReservationRecord.
Proof. solve_decision. Defined.
#[export] Instance ConsumedWriteLease_eq_dec : EqDecision ConsumedWriteLease.
Proof. solve_decision. Defined.
#[export] Instance PendingTransactionResolution_eq_dec : EqDecision PendingTransactionResolution.
Proof. solve_decision. Defined.
#[export] Instance PendingRollbackResolution_eq_dec : EqDecision PendingRollbackResolution.
Proof. solve_decision. Defined.
#[export] Instance RepairRollbackTransactionRecord_eq_dec : EqDecision RepairRollbackTransactionRecord.
Proof. solve_decision. Defined.
#[export] Instance RepairTransactionRecord_eq_dec : EqDecision RepairTransactionRecord.
Proof. solve_decision. Defined.
#[export] Instance ReleaseOperation_eq_dec : EqDecision ReleaseOperation.
Proof. solve_decision. Defined.
#[export] Instance ReleaseTombstone_eq_dec : EqDecision ReleaseTombstone.
Proof. solve_decision. Defined.
#[export] Instance CompactionReplay_eq_dec : EqDecision CompactionReplay.
Proof. solve_decision. Defined.

(** [RecoveredState]; the maps are B-tree maps ordered by the identifier. *)
Record RecoveredState := mkState {
  reservations : gmap ReservationId ReservationRecord;
  released : gmap ReservationId ReleaseTombstone;
  seen_reservation_ids : gset ReservationId;
  pending : option ReservationId;
  transactions : gmap ReservationId RepairTransactionRecord;
  unresolved_transaction : option ReservationId;
  unresolved_rollback : option ReservationId;
  logical_event_clock : Z;
  compaction_generation : Z;
  previous_compaction_anchor : option JournalAnchor;
  compaction_replay : option CompactionReplay;
}.
#[export] Instance RecoveredState_eq_dec : EqDecision RecoveredState.
Proof. solve_decision. Defined.

(** [RecoveredState::default()]. *)
Definition default_state : RecoveredState := mkState ∅ ∅ ∅ None ∅ None None 0 0 None None.

(** [BTreeMap::iter]: the entries in the order of the identifiers, and
    [BTreeMap::len] as a [usize]. *)
Definition key_le {V} (a b : ReservationId * V) : Prop := String.le a.1.(as_str) b.1.(as_str).
#[export] Instance key_le_dec {V} : RelDecision (@key_le V).
Proof. intros a b. unfold key_le. apply _. Defined.
Definition btree_iter {V} (m : gmap ReservationId V) : list (ReservationId * V) :=
  merge_sort key_le (map_to_list m).
Definition usize {V} (m : gmap ReservationId V) : Z := Z.of_nat (base.size m).

(** The record of a transaction that nothing has happened to yet. *)
Definition fresh_transaction : RepairTransactionRecord := mkTransactionRecord None None None None.

(** Assignments to fields. *)
Definition set_phase (p : ReservationPhase) (r : ReservationRecord) : ReservationRecord :=
  mkRecord r.(r_draft) r.(r_reservation_binding_sha256) r.(r_reserved_capacity_bytes) r.(r_vault_id)
    r.(r_vault_identity_fingerprint) r.(r_physical_parent_fingerprint) p.
Definition set_pending_resolution (p : option PendingTransactionResolution) (t : RepairTransactionRecord) :=
  mkTransactionRecord t.(t_resolution) p t.(t_write_lease) t.(t_rollback).
Definition set_resolution (r : option RepairTransactionResolution) (t : RepairTransactionRecord) :=
  mkTransactionRecord r t.(t_pending_resolution) t.(t_write_lease) t.(t_rollback).
Definition set_write_lease (l : option ConsumedWriteLease) (t : RepairTransactionRecord) :=
  mkTransactionRecord t.(t_resolution) t.(t_pending_resolution) l t.(t_rollback).
Definition set_rollback (r : option RepairRollbackTransactionRecord) (t : RepairTransactionRecord) :=
  mkTransactionRecord t.(t_resolution) t.(t_pending_resolution) t.(t_write_lease) r.
Definition set_rollback_pending (p : option PendingRollbackResolution) (r : RepairRollbackTransactionRecord) :=
  mkRollbackRecord r.(rb_rollback_id) r.(rb_binding) r.(rb_resolution) p r.(rb_write_lease).
Definition set_rollback_resolution (o : option RepairRollbackResolution) (r : RepairRollbackTransactionRecord) :=
  mkRollbackRecord r.(rb_rollback_id) r.(rb_binding) o r.(rb_pending_resolution) r.(rb_write_lease).
Definition set_rollback_lease (l : option ConsumedWriteLease) (r : RepairRollbackTransactionRecord) :=
  mkRollbackRecord r.(rb_rollback_id) r.(rb_binding) r.(rb_resolution) r.(rb_pending_resolution) l.

(** ** Phases *)

Definition transaction_phase (t : RepairTransactionRecord) : RepairTransactionPhase :=
  match outcome <$> t.(t_resolution) with
  | None => Pending
  | Some ManualOutcome => ManualReconciliationRequired
  | Some (CommittedAfter | ClosedBeforeUnchanged | ClosedBeforeRestored) => Resolved
  end.

Definition rollback_transaction_phase (r : RepairRollbackTransactionRecord) : RepairTransactionPhase :=
  match rr_outcome <$> r.(rb_resolution) with
  | None => Pending
  | Some ManualRollbackOutcome => ManualReconciliationRequired
  | Some RolledBackBefore => Resolved
  end.

Definition rollback_unresolved (t : RepairTransactionRecord) : bool :=
  is_some_and t.(t_rollback) (λ r, rollback_transaction_phase r != Resolved).

(** ** Digests of the protocol in the store's errors *)

Definition protocol_sha256_str (value : string) : result RepairVaultStoreError Sha256Text :=
  map_err (λ _, CorruptStore) (sha256_parse value).
Definition protocol_sha256_bytes (bytes : array32) : result RepairVaultStoreError Sha256Text :=
  protocol_sha256_str (hex_string bytes.(raw)).

Section store.
Context `{sha : Sha256}.

(** ** Validation *)

(** [RepairFileMetadataV1::new(mode, 0, 0).expect(..).canonical_sha256().bytes()]. *)
Definition canonical_root_metadata (mode : Z) : bytes :=
  match metadata_new mode 0 0 with
  | Ok m => sha_bytes (canonical_repair_file_metadata_sha256 m)
  | Err _ => []
  end.
Definition canonical_fstab_metadata_sha256 : bytes := canonical_root_metadata 420.
Definition canonical_private_crypttab_metadata_sha256 : bytes := canonical_root_metadata 384.
Definition valid_reserved_metadata_sha256 (value : array32) : bool :=
  (value.(raw) == canonical_fstab_metadata_sha256)
  || (value.(raw) == canonical_private_crypttab_metadata_sha256).

Definition draft_validate (d : RepairBackupDraft) : result RepairVaultStoreError () :=
  reject (negb (valid_prefixed_id d.(d_session_id) "S-") || negb (valid_opaque_id d.(d_target_id))
          || zero32 d.(d_target_fingerprint)
          || negb (valid_recovery_fingerprint d.(d_target_recovery_fingerprint))
          || zero32 d.(d_expected_backup_sha256)
          || negb (valid_reserved_metadata_sha256 d.(d_metadata_sha256))
          || (d.(d_backup_size_bytes) == 0%Z)
          || (d.(d_required_capacity_bytes) <? d.(d_backup_size_bytes))%Z
          || (MAX_BACKUP_BYTES <? d.(d_required_capacity_bytes))%Z) with InvalidDraft;
  Ok tt.

Definition draft_new (session_id target_id : string) (target_fingerprint : array32)
    (target_recovery_fingerprint : string) (expected_backup_sha256 metadata_sha256 : array32)
    (backup_size_bytes required_capacity_bytes : Z) : result RepairVaultStoreError RepairBackupDraft :=
  let value := mkDraft session_id target_id target_fingerprint target_recovery_fingerprint
    expected_backup_sha256 metadata_sha256 backup_size_bytes required_capacity_bytes in
  _ ← draft_validate value;
  Ok value.

Definition reservation_preimage (d : RepairBackupDraft) : bytes :=
  RESERVATION_BINDING_DOMAIN
  ++ frames [as_bytes d.(d_session_id); as_bytes d.(d_target_id); d.(d_target_fingerprint).(raw);
             as_bytes d.(d_target_recovery_fingerprint); d.(d_expected_backup_sha256).(raw);
             d.(d_metadata_sha256).(raw); to_be_bytes d.(d_backup_size_bytes);
             to_be_bytes d.(d_required_capacity_bytes)].
Definition reservation_binding (d : RepairBackupDraft) : string :=
  hex_string (sha256 (reservation_preimage d)).

Definition valid_execution_intent (i : RepairExecutionIntentV1) : bool :=
  let resource :=
    if i.(action_id) == resource_action_id Fstab then Some Fstab
    else if i.(action_id) == resource_action_id Crypttab then Some Crypttab
    else if i.(action_id) == resource_action_id Ext4Filesystem then Some Ext4Filesystem
    else None in
  match resource with
  | None => false
  | Some resource =>
      match intent_new_for_resource resource i.(session_id) i.(approval_sequence) i.(target_id)
              i.(scan_fingerprint) i.(target_fingerprint) i.(target_physical_parent_fingerprint)
              i.(target_recovery_fingerprint) i.(lock_identity) i.(before_sha256) i.(after_sha256)
              i.(diff_sha256) i.(observed_uuid_set_sha256) i.(before_metadata) with
      | Ok canonical => canonical == i
      | Err _ => false
      end
  end.

Definition binding_validate (b : RepairBinding) : result RepairVaultStoreError () :=
  reject (negb (valid_prefixed_id b.(b_plan_id) "P-") || negb (valid_prefixed_id b.(b_approval_id) "A-")
          || zero32 b.(b_plan_sha256) || zero32 b.(b_approval_sha256)
          || negb (is_ok (from_execution b.(b_execution_intent).(action_id) b.(b_resource_id)))
          || zero32 b.(b_resource_sha256) || negb (valid_execution_intent b.(b_execution_intent))
          || (b.(b_resource_sha256).(raw) != sha_bytes b.(b_execution_intent).(before_sha256)))
    with InvalidBinding;
  Ok tt.

Definition binding_new (plan_id : string) (plan_sha256 : array32) (approval_id : string)
    (approval_sha256 : array32) (resource_id : string) (resource_sha256 : array32)
    (execution_intent : RepairExecutionIntentV1) : result RepairVaultStoreError RepairBinding :=
  let value := mkBinding plan_id plan_sha256 approval_id approval_sha256 resource_id resource_sha256
    execution_intent in
  _ ← binding_validate value;
  Ok value.

Definition validate_for_record (b : RepairBinding) (record : ReservationRecord) :
    result RepairVaultStoreError () :=
  _ ← binding_validate b;
  let intent := b.(b_execution_intent) in
  let draft := record.(r_draft) in
  reject ((intent.(session_id) != draft.(d_session_id)) || (intent.(target_id) != draft.(d_target_id))
          || (sha_bytes intent.(target_fingerprint) != draft.(d_target_fingerprint).(raw))
          || (intent.(target_recovery_fingerprint) != draft.(d_target_recovery_fingerprint))
          || (sha_bytes intent.(before_sha256) != draft.(d_expected_backup_sha256).(raw))
          || (sha_bytes (canonical_repair_file_metadata_sha256 intent.(before_metadata))
              != draft.(d_metadata_sha256).(raw))
          || (intent.(target_physical_parent_fingerprint).(as_str) == record.(r_physical_parent_fingerprint)))
    with InvalidBinding;
  Ok tt.

(** ** Status payloads *)

Definition protocol_backup_status_from_record (id : ReservationId) (record : ReservationRecord) :
    result RepairVaultStoreError RepairBackupStatusPayload :=
  binding ← match record.(r_phase) with
            | DurablePhase binding | RetirePending binding _ => Ok binding
            | _ => Err ReservationNotReady
            end;
  reservation_id ← map_err (λ _, CorruptStore) (reservation_id_parse id.(as_str));
  plan_sha256 ← protocol_sha256_bytes binding.(b_plan_sha256);
  approval_sha256 ← protocol_sha256_bytes binding.(b_approval_sha256);
  resource_sha256 ← protocol_sha256_bytes binding.(b_resource_sha256);
  protocol_binding ← map_err (λ _, CorruptStore)
    (backup_binding_new binding.(b_plan_id) plan_sha256 binding.(b_approval_id) approval_sha256
       binding.(b_resource_id) resource_sha256 binding.(b_execution_intent));
  draft_binding ← protocol_sha256_str record.(r_reservation_binding_sha256);
  identity ← protocol_sha256_str record.(r_vault_identity_fingerprint);
  parent ← protocol_sha256_str record.(r_physical_parent_fingerprint);
  expected ← protocol_sha256_bytes record.(r_draft).(d_expected_backup_sha256);
  metadata ← protocol_sha256_bytes record.(r_draft).(d_metadata_sha256);
  map_err (λ _, CorruptStore)
    (backup_durable reservation_id draft_binding (reservation_locator reservation_id) record.(r_vault_id)
       identity parent record.(r_reserved_capacity_bytes) record.(r_draft).(d_backup_size_bytes) expected
       metadata protocol_binding).

Definition protocol_transaction_status_from_record (id : ReservationId) (reservation : ReservationRecord)
    (transaction : RepairTransactionRecord) : result RepairVaultStoreError RepairTransactionStatusPayload :=
  backup ← protocol_backup_status_from_record id reservation;
  map_err (λ _, CorruptStore)
    match transaction.(t_resolution) with
    | Some resolution => transaction_resolved backup resolution
    | None => transaction_pending backup
    end.

Definition protocol_rollback_status_from_record (id : ReservationId) (reservation : ReservationRecord)
    (transaction : RepairTransactionRecord) (rollback : RepairRollbackTransactionRecord) :
    result RepairVaultStoreError RepairRollbackTransactionStatusPayload :=
  reject (bool_decide (is_Some transaction.(t_pending_resolution))) with ReconciliationRequired;
  source ← protocol_transaction_status_from_record id reservation transaction;
  map_err (λ _, CorruptStore)
    match rollback.(rb_resolution) with
    | Some resolution => rollback_resolved rollback.(rb_rollback_id) source rollback.(rb_binding) resolution
    | None => rollback_pending rollback.(rb_rollback_id) source rollback.(rb_binding)
    end.

Definition validate_resolution_against_intent (r : RepairTransactionResolution)
    (intent : RepairExecutionIntentV1) : result RepairVaultStoreError () :=
  canonical ← map_err (λ _, InvalidBinding)
    (resolution_new r.(outcome) r.(observed_resource_sha256) r.(observed_metadata_sha256)
       r.(mount_cleanup_verified) intent);
  reject (canonical != r) with InvalidBinding;
  Ok tt.

Definition validate_protocol_transaction_status (status : RepairTransactionStatusPayload) :
    result RepairVaultStoreError () :=
  canonical ← map_err (λ _, InvalidBinding)
    match status.(resolution) with
    | Some resolution => transaction_resolved status.(backup) resolution
    | None => transaction_pending status.(backup)
    end;
  reject (canonical != status) with InvalidBinding;
  Ok tt.

(** ** Leases recorded in the state *)

Definition write_lease_is_consistent (id : ReservationId) (reservation : ReservationRecord)
    (transaction : RepairTransactionRecord) : bool :=
  match transaction.(t_write_lease) with
  | None => true
  | Some consumed =>
      match (status ← protocol_transaction_status_from_record id reservation fresh_transaction;
             boot_epoch ← protocol_sha256_str consumed.(boot_epoch_sha256);
             map_err (λ _, CorruptJournal) (write_lease_consumed status boot_epoch)) with
      | Ok lease => lease.(RepairVault.lease_binding_sha256).(as_str) == consumed.(lease_binding_sha256)
      | Err _ => false
      end
  end.

Definition rollback_write_lease_is_consistent (id : ReservationId) (reservation : ReservationRecord)
    (transaction : RepairTransactionRecord) (rollback : RepairRollbackTransactionRecord) : bool :=
  match rollback.(rb_write_lease) with
  | None => true
  | Some consumed =>
      let pending := mkRollbackRecord rollback.(rb_rollback_id) rollback.(rb_binding) None None None in
      match (status ← protocol_rollback_status_from_record id reservation transaction pending;
             boot_epoch ← protocol_sha256_str consumed.(boot_epoch_sha256);
             map_err (λ _, CorruptJournal) (rollback_write_lease_consumed status boot_epoch)) with
      | Ok lease => lease.(rl_lease_binding_sha256).(as_str) == consumed.(lease_binding_sha256)
      | Err _ => false
      end
  end.

(** ** Identity of the vault and of the boot *)

Definition stable_vault_identity (luks_uuid identity_public_key : bytes) : string * string :=
  let fields := frames [luks_uuid; identity_public_key] in
  let stable_id_digest := hex_string (sha256 (STABLE_VAULT_ID_DOMAIN ++ fields)) in
  ("V-" +:+ String.substring 0 32 stable_id_digest, hex_string (sha256 (VAULT_IDENTITY_DOMAIN ++ fields))).

Definition canonical_boot_uuid (value : bytes) : bool := canonical_uuid value.

(** The epoch of the boot whose identifier was read, in its 37 bytes; that the
    file stayed the same while it was read is not part of this definition. *)
Definition boot_epoch_of (boot_id : bytes) : result RepairVaultStoreError Sha256Text :=
  reject (negb (length boot_id == 37) || ((boot_id !! 36) != Some x0a)
          || negb (canonical_boot_uuid (take 36 boot_id))) with CorruptStore;
  protocol_sha256_str
    (hex_string (sha256 (WRITE_LEASE_BOOT_EPOCH_DOMAIN ++ frame (take 36 boot_id)))).

End store.
