(* ===== verification/RepairStoreEvents.v ===== *)
(** * Replay of the repair journal
    (crates/rescue-secrets/src/repair_store.rs, [apply_repair_event])

    The state of the store is what the events of its journal leave behind. One
    definition per event: its guards, the record it changes and the singletons it
    moves ([pending], [unresolved_transaction], [unresolved_rollback]). A refused
    event leaves the state as far as the code had changed it. *)

From stdpp Require Import sorting gmap.
From Stdlib.Strings Require Import Byte.
From Stdlib Require String Ascii.
From S2P Require Import Prelude Bytes Text Crypto VaultWire JournalChain RepairVault RepairStoreTypes.

(** [state.field = ..]. *)
Definition set_reservations (f : gmap ReservationId ReservationRecord → gmap ReservationId ReservationRecord)
    (s : RecoveredState) : RecoveredState :=
  mkState (f s.(reservations)) s.(released) s.(seen_reservation_ids) s.(pending) s.(transactions)
    s.(unresolved_transaction) s.(unresolved_rollback) s.(logical_event_clock) s.(compaction_generation)
    s.(previous_compaction_anchor) s.(compaction_replay).
Definition set_released (f : gmap ReservationId ReleaseTombstone → gmap ReservationId ReleaseTombstone)
    (s : RecoveredState) : RecoveredState :=
  mkState s.(reservations) (f s.(released)) s.(seen_reservation_ids) s.(pending) s.(transactions)
    s.(unresolved_transaction) s.(unresolved_rollback) s.(logical_event_clock) s.(compaction_generation)
    s.(previous_compaction_anchor) s.(compaction_replay).
Definition see (id : ReservationId) (s : RecoveredState) : RecoveredState :=
  mkState s.(reservations) s.(released) ({[id]} ∪ s.(seen_reservation_ids)) s.(pending) s.(transactions)
    s.(unresolved_transaction) s.(unresolved_rollback) s.(logical_event_clock) s.(compaction_generation)
    s.(previous_compaction_anchor) s.(compaction_replay).
Definition set_pending (p : option ReservationId) (s : RecoveredState) : RecoveredState :=
  mkState s.(reservations) s.(released) s.(seen_reservation_ids) p s.(transactions)
    s.(unresolved_transaction) s.(unresolved_rollback) s.(logical_event_clock) s.(compaction_generation)
    s.(previous_compaction_anchor) s.(compaction_replay).
Definition set_transactions
    (f : gmap ReservationId RepairTransactionRecord → gmap ReservationId RepairTransactionRecord)
    (s : RecoveredState) : RecoveredState :=
  mkState s.(reservations) s.(released) s.(seen_reservation_ids) s.(pending) (f s.(transactions))
    s.(unresolved_transaction) s.(unresolved_rollback) s.(logical_event_clock) s.(compaction_generation)
    s.(previous_compaction_anchor) s.(compaction_replay).
Definition set_unresolved_transaction (u : option ReservationId) (s : RecoveredState) : RecoveredState :=
  mkState s.(reservations) s.(released) s.(seen_reservation_ids) s.(pending) s.(transactions)
    u s.(unresolved_rollback) s.(logical_event_clock) s.(compaction_generation)
    s.(previous_compaction_anchor) s.(compaction_replay).
Definition set_unresolved_rollback (u : option ReservationId) (s : RecoveredState) : RecoveredState :=
  mkState s.(reservations) s.(released) s.(seen_reservation_ids) s.(pending) s.(transactions)
    s.(unresolved_transaction) u s.(logical_event_clock) s.(compaction_generation)
    s.(previous_compaction_anchor) s.(compaction_replay).
Definition set_clock (c : Z) (s : RecoveredState) : RecoveredState :=
  mkState s.(reservations) s.(released) s.(seen_reservation_ids) s.(pending) s.(transactions)
    s.(unresolved_transaction) s.(unresolved_rollback) c s.(compaction_generation)
    s.(previous_compaction_anchor) s.(compaction_replay).
Definition set_compaction (generation : Z) (anchor : option JournalAnchor) (s : RecoveredState) : RecoveredState :=
  mkState s.(reservations) s.(released) s.(seen_reservation_ids) s.(pending) s.(transactions)
    s.(unresolved_transaction) s.(unresolved_rollback) s.(logical_event_clock) generation
    anchor s.(compaction_replay).
Definition set_replay (r : option CompactionReplay) (s : RecoveredState) : RecoveredState :=
  mkState s.(reservations) s.(released) s.(seen_reservation_ids) s.(pending) s.(transactions)
    s.(unresolved_transaction) s.(unresolved_rollback) s.(logical_event_clock) s.(compaction_generation)
    s.(previous_compaction_anchor) r.

Definition is_some {A} (o : option A) : bool := match o with Some _ => true | None => false end.
Definition has_key {V} (id : ReservationId) (m : gmap ReservationId V) : bool := is_some (m !! id).
Definition is_reserved (p : ReservationPhase) : bool := match p with ReservedPhase => true | _ => false end.
Definition is_reserve_pending (p : ReservationPhase) : bool := match p with ReservePending => true | _ => false end.
Definition is_persist_pending (p : ReservationPhase) : bool := match p with PersistPending _ => true | _ => false end.
Definition is_cancel_pending (p : ReservationPhase) : bool := match p with CancelPending => true | _ => false end.
Definition is_retire_pending (p : ReservationPhase) : bool := match p with RetirePending _ _ => true | _ => false end.
Definition is_durable (p : ReservationPhase) : bool := match p with DurablePhase _ => true | _ => false end.
(** [matches!(state.reservations.get(&id).map(|record| &record.phase), Some(..))]. *)
Definition phase_matches (f : ReservationPhase → bool) (id : ReservationId) (s : RecoveredState) : bool :=
  is_some_and (s.(reservations) !! id) (λ r, f r.(r_phase)).

Section events.
Context `{sha : Sha256}.

(** ** Consistency of a settled state *)

(** The checks of one reservation, and the unresolved ones met so far. *)
Definition consistent_reservation (s : RecoveredState) (id : ReservationId) (record : ReservationRecord)
    (acc : option ReservationId * option ReservationId * Z) :
    option (option ReservationId * option ReservationId * Z) :=
  let '(unresolved, unresolved_rollback, durable_count) := acc in
  match record.(r_phase) with
  | DurablePhase _ =>
      transaction ← s.(transactions) !! id;
      if is_some transaction.(t_pending_resolution)
         || negb (write_lease_is_consistent id record transaction)
         || negb (is_ok (protocol_transaction_status_from_record id record transaction))
      then None
      else
        unresolved_rollback ←
          match transaction.(t_rollback) with
          | None => Some unresolved_rollback
          | Some rollback =>
              if (transaction_phase transaction != Resolved)
                 || ((outcome <$> transaction.(t_resolution)) != Some CommittedAfter)
                 || is_some rollback.(rb_pending_resolution)
                 || negb (is_ok (protocol_rollback_status_from_record id record transaction rollback))
                 || negb (rollback_write_lease_is_consistent id record transaction rollback)
              then None
              else if rollback_transaction_phase rollback != Resolved
              then if is_some unresolved_rollback then None else Some (Some id)
              else Some unresolved_rollback
          end;
        unresolved ←
          (if transaction_phase transaction != Resolved
           then if is_some unresolved then None else Some (Some id)
           else Some unresolved);
        Some (unresolved, unresolved_rollback, (durable_count + 1)%Z)
  | ReservedPhase => if has_key id s.(transactions) then None else Some acc
  | ReservePending | PersistPending _ | CancelPending | RetirePending _ _ => None
  end.

Fixpoint consistent_loop (s : RecoveredState) (l : list (ReservationId * ReservationRecord))
    (acc : option ReservationId * option ReservationId * Z) :
    option (option ReservationId * option ReservationId * Z) :=
  match l with
  | [] => Some acc
  | (id, record) :: l => acc ← consistent_reservation s id record acc; consistent_loop s l acc
  end.

Definition transactions_are_consistent (s : RecoveredState) : bool :=
  match consistent_loop s (btree_iter s.(reservations)) (None, None, 0%Z) with
  | None => false
  | Some (u, ur, durable_count) =>
      (durable_count == usize s.(transactions))
      && (u == s.(unresolved_transaction)) && (ur == s.(unresolved_rollback))
      && negb (is_some s.(unresolved_transaction) && is_some s.(unresolved_rollback))
  end.

(** ** One definition per event *)

Local Abbreviation step := (method RecoveredState RepairVaultStoreError ()).
(** [value.ok_or(RepairVaultStoreError::CorruptJournal)?]. *)
Local Abbreviation required o := (lift (ok_or o CorruptJournal)).
Local Abbreviation corrupt_if c := (fail_if c CorruptJournal).
Local Abbreviation or_corrupt r := (lift (map_err (λ _, CorruptJournal) r)).

Definition apply_compaction_begin (sequence : Z) (generation logical_event_clock active_reservations
    retained_releases : Z) (previous_anchor : string) : step :=
  anchor ← required (decode_compaction_anchor previous_anchor);
  s ← get_self;
  corrupt_if ((sequence != 1%Z) || (generation == 0%Z) || (MAX_RESERVATIONS <? active_reservations)%Z
    || (MAX_RETAINED_RELEASE_TOMBSTONES <? retained_releases)%Z
    || (s.(reservations) != ∅) || (s.(released) != ∅) || (s.(seen_reservation_ids) != ∅)
    || is_some s.(pending) || (s.(transactions) != ∅) || is_some s.(unresolved_transaction)
    || is_some s.(unresolved_rollback) || (s.(RepairStoreTypes.logical_event_clock) != 0%Z)
    || (s.(compaction_generation) != 0%Z) || is_some s.(previous_compaction_anchor)
    || is_some s.(compaction_replay));;
  modify_self (λ s, set_replay (Some (mkReplay generation active_reservations retained_releases))
    (set_compaction generation (Some anchor) (set_clock logical_event_clock s))).

Definition apply_compaction_complete (generation : Z) : step :=
  s ← get_self;
  replay ← required s.(compaction_replay);
  corrupt_if ((generation != replay.(replay_generation)) || is_some s.(pending)
    || (usize s.(reservations) != replay.(replay_active_reservations))
    || (usize s.(released) != replay.(replay_retained_releases))
    || (Z.of_nat (base.size s.(seen_reservation_ids))
        != (replay.(replay_active_reservations) + replay.(replay_retained_releases))%Z)
    || existsb (λ '(_, record), negb (is_reserved record.(r_phase) || is_durable record.(r_phase)))
         (btree_iter s.(reservations))
    || negb (transactions_are_consistent s));;
  modify_self (set_replay None).

Definition apply_reserve_intent (id : ReservationId) (draft : RepairBackupDraft) (binding : string)
    (capacity : Z) (vault_id identity parent : string) : step :=
  lift (draft_validate draft);;
  s ← get_self;
  corrupt_if (negb (valid_sha256 binding) || (binding != reservation_binding draft)
    || (capacity != draft.(d_required_capacity_bytes)) || is_some s.(pending)
    || is_some s.(unresolved_transaction) || is_some s.(unresolved_rollback)
    || (MAX_RESERVATIONS <=? usize s.(reservations))%Z || has_key id s.(reservations)
    || has_key id s.(released) || bool_decide (id ∈ s.(seen_reservation_ids))
    || negb (valid_vault_id vault_id) || negb (valid_sha256 identity) || negb (valid_sha256 parent));;
  modify_self (λ s, set_reservations
    <[id := mkRecord draft binding capacity vault_id identity parent ReservePending]>
    (set_pending (Some id) (see id s))).

Definition apply_reserve_complete (id : ReservationId) : step :=
  s ← get_self;
  corrupt_if (s.(pending) != Some id);;
  record ← required (s.(reservations) !! id);
  corrupt_if (negb (is_reserve_pending record.(r_phase)));;
  modify_self (λ s, set_pending None (set_reservations <[id := set_phase ReservedPhase record]> s)).

Definition apply_reserve_abort (id : ReservationId) : step :=
  s ← get_self;
  corrupt_if ((s.(pending) != Some id) || negb (phase_matches is_reserve_pending id s));;
  modify_self (λ s, set_pending None (set_reservations (delete id) s)).

Definition apply_persist_intent (id : ReservationId) (binding : RepairBinding) : step :=
  lift (binding_validate binding);;
  s ← get_self;
  corrupt_if (is_some s.(pending) || is_some s.(unresolved_transaction) || is_some s.(unresolved_rollback));;
  existing ← required (s.(reservations) !! id);
  or_corrupt (validate_for_record binding existing);;
  corrupt_if (negb (is_reserved existing.(r_phase))
    || (binding.(b_resource_sha256) != existing.(r_draft).(d_expected_backup_sha256)));;
  modify_self (λ s, set_pending (Some id)
    (set_reservations <[id := set_phase (PersistPending binding) existing]> s)).

Definition apply_persist_complete (id : ReservationId) (backup_sha256 : string) (backup_size_bytes : Z) : step :=
  s ← get_self;
  corrupt_if (s.(pending) != Some id);;
  record ← required (s.(reservations) !! id);
  corrupt_if ((backup_sha256 != hex_string record.(r_draft).(d_expected_backup_sha256).(raw))
    || (backup_size_bytes != record.(r_draft).(d_backup_size_bytes)));;
  binding ← match record.(r_phase) with
            | PersistPending binding => mret binding
            | _ => throw CorruptJournal
            end;
  let previous := s.(transactions) !! id in
  modify_self (λ s, set_transactions <[id := fresh_transaction]>
    (set_reservations <[id := set_phase (DurablePhase binding) record]> s));;
  corrupt_if (is_some previous || is_some s.(unresolved_transaction));;
  modify_self (λ s, set_pending None (set_unresolved_transaction (Some id) s)).

Definition apply_persist_abort (id : ReservationId) : step :=
  s ← get_self;
  corrupt_if (s.(pending) != Some id);;
  record ← required (s.(reservations) !! id);
  corrupt_if (negb (is_persist_pending record.(r_phase)));;
  modify_self (λ s, set_pending None (set_reservations <[id := set_phase ReservedPhase record]> s)).

Definition apply_transaction_write_lease_consume (id : ReservationId)
    (transaction_binding epoch lease_binding : string) : step :=
  s ← get_self;
  corrupt_if (is_some s.(pending) || (s.(unresolved_transaction) != Some id)
    || negb (valid_sha256 transaction_binding) || negb (valid_sha256 epoch)
    || negb (valid_sha256 lease_binding));;
  reservation ← required (s.(reservations) !! id);
  binding ← match reservation.(r_phase) with
            | DurablePhase binding => mret binding
            | _ => throw CorruptJournal
            end;
  or_corrupt (validate_for_record binding reservation);;
  let intent := binding.(b_execution_intent) in
  resource ← or_corrupt (from_execution intent.(action_id) binding.(b_resource_id));
  corrupt_if (intent.(lock_identity)
    != canonical_repair_lock_identity_for_resource intent.(target_recovery_fingerprint) resource);;
  transaction ← required (s.(transactions) !! id);
  corrupt_if (is_some transaction.(t_resolution) || is_some transaction.(t_pending_resolution)
    || is_some_and transaction.(t_write_lease) (λ lease, lease.(boot_epoch_sha256) == epoch));;
  status ← or_corrupt (protocol_transaction_status_from_record id reservation transaction);
  corrupt_if ((status.(phase) != Pending)
    || (status.(transaction_binding_sha256).(as_str) != transaction_binding));;
  boot_epoch ← or_corrupt (protocol_sha256_str epoch);
  lease ← or_corrupt (write_lease_consumed status boot_epoch);
  corrupt_if (lease.(RepairVault.lease_binding_sha256).(as_str) != lease_binding);;
  modify_self (set_transactions
    <[id := set_write_lease (Some (mkLease epoch lease_binding)) transaction]>).

Definition apply_transaction_resolve_intent (id : ReservationId) (transaction_binding : string)
    (expected_phase : RepairTransactionPhase) (resolution : RepairTransactionResolution) : step :=
  s ← get_self;
  corrupt_if (is_some s.(pending) || negb (valid_sha256 transaction_binding)
    || (s.(unresolved_transaction) != Some id));;
  reservation ← required (s.(reservations) !! id);
  binding ← match reservation.(r_phase) with
            | DurablePhase binding => mret binding
            | _ => throw CorruptJournal
            end;
  transaction ← required (s.(transactions) !! id);
  status ← or_corrupt (protocol_transaction_status_from_record id reservation transaction);
  corrupt_if ((transaction_binding != status.(transaction_binding_sha256).(as_str))
    || (expected_phase != status.(phase)) || (expected_phase == Resolved)
    || (transaction.(t_resolution) == Some resolution) || is_some transaction.(t_pending_resolution));;
  or_corrupt (validate_resolution_against_intent resolution binding.(b_execution_intent));;
  modify_self (λ s, set_pending (Some id) (set_transactions
    <[id := set_pending_resolution (Some (mkPending transaction_binding expected_phase resolution)) transaction]> s)).

Definition apply_transaction_resolve_complete (id : ReservationId) (transaction_binding : string) : step :=
  s ← get_self;
  corrupt_if ((s.(pending) != Some id) || negb (valid_sha256 transaction_binding)
    || (s.(unresolved_transaction) != Some id));;
  reservation ← required (s.(reservations) !! id);
  transaction ← required (s.(transactions) !! id);
  pending ← required transaction.(t_pending_resolution);
  status ← or_corrupt (protocol_transaction_status_from_record id reservation transaction);
  corrupt_if ((pending.(p_transaction_binding_sha256) != transaction_binding)
    || (status.(transaction_binding_sha256).(as_str) != transaction_binding)
    || (status.(phase) != pending.(p_expected_phase)));;
  let transaction := set_resolution (Some pending.(p_resolution)) (set_pending_resolution None transaction) in
  modify_self (λ s, set_pending None
    ((if transaction_phase transaction == Resolved then set_unresolved_transaction None else λ s, s)
       (set_transactions <[id := transaction]> s))).

Definition apply_rollback_begin (id : ReservationId) (source_binding : string)
    (rollback_id : RepairRollbackId) (rollback_binding : string) (binding : RepairRollbackBindingV1) : step :=
  s ← get_self;
  corrupt_if (is_some s.(pending) || is_some s.(unresolved_transaction) || is_some s.(unresolved_rollback)
    || existsb (λ '(_, transaction),
         is_some_and transaction.(t_rollback) (λ rollback, rollback.(rb_rollback_id) == rollback_id))
         (btree_iter s.(transactions))
    || negb (valid_sha256 source_binding) || negb (valid_sha256 rollback_binding));;
  reservation ← required (s.(reservations) !! id);
  corrupt_if (negb (is_durable reservation.(r_phase)));;
  transaction ← required (s.(transactions) !! id);
  corrupt_if (is_some transaction.(t_pending_resolution) || is_some transaction.(t_rollback));;
  source ← or_corrupt (protocol_transaction_status_from_record id reservation transaction);
  or_corrupt (rollback_binding_validate_against binding source);;
  pending ← or_corrupt (rollback_pending rollback_id source binding);
  corrupt_if ((source.(transaction_binding_sha256).(as_str) != source_binding)
    || (pending.(rollback_transaction_binding_sha256).(as_str) != rollback_binding));;
  modify_self (λ s, set_unresolved_rollback (Some id) (set_transactions
    <[id := set_rollback (Some (mkRollbackRecord rollback_id binding None None None)) transaction]> s)).

Definition apply_rollback_write_lease_consume (id : ReservationId) (rollback_id : RepairRollbackId)
    (rollback_binding epoch lease_binding : string) : step :=
  s ← get_self;
  corrupt_if (is_some s.(pending) || (s.(unresolved_rollback) != Some id)
    || negb (valid_sha256 rollback_binding) || negb (valid_sha256 epoch)
    || negb (valid_sha256 lease_binding));;
  reservation ← required (s.(reservations) !! id);
  transaction ← required (s.(transactions) !! id);
  rollback ← required transaction.(t_rollback);
  corrupt_if ((rollback.(rb_rollback_id) != rollback_id) || is_some rollback.(rb_resolution)
    || is_some rollback.(rb_pending_resolution)
    || is_some_and rollback.(rb_write_lease) (λ lease, lease.(boot_epoch_sha256) == epoch));;
  status ← or_corrupt (protocol_rollback_status_from_record id reservation transaction rollback);
  corrupt_if ((status.(rt_phase) != Pending)
    || (status.(rollback_transaction_binding_sha256).(as_str) != rollback_binding));;
  boot_epoch ← or_corrupt (protocol_sha256_str epoch);
  lease ← or_corrupt (rollback_write_lease_consumed status boot_epoch);
  corrupt_if (lease.(rl_lease_binding_sha256).(as_str) != lease_binding);;
  modify_self (set_transactions
    <[id := set_rollback (Some (set_rollback_lease (Some (mkLease epoch lease_binding)) rollback)) transaction]>).

Definition apply_rollback_resolve_intent (id : ReservationId) (rollback_id : RepairRollbackId)
    (rollback_binding : string) (expected_phase : RepairTransactionPhase)
    (resolution : RepairRollbackResolution) : step :=
  s ← get_self;
  corrupt_if (is_some s.(pending) || (s.(unresolved_rollback) != Some id)
    || negb (valid_sha256 rollback_binding));;
  reservation ← required (s.(reservations) !! id);
  transaction ← required (s.(transactions) !! id);
  rollback ← required transaction.(t_rollback);
  status ← or_corrupt (protocol_rollback_status_from_record id reservation transaction rollback);
  corrupt_if ((rollback.(rb_rollback_id) != rollback_id)
    || (status.(rollback_transaction_binding_sha256).(as_str) != rollback_binding)
    || (status.(rt_phase) != expected_phase) || (expected_phase == Resolved)
    || (rollback.(rb_resolution) == Some resolution) || is_some rollback.(rb_pending_resolution));;
  or_corrupt (rollback_resolution_validate_against resolution status.(rt_source));;
  modify_self (λ s, set_pending (Some id) (set_transactions
    <[id := set_rollback (Some (set_rollback_pending
        (Some (mkPendingRollback rollback_binding expected_phase resolution)) rollback)) transaction]> s)).

Definition apply_rollback_resolve_complete (id : ReservationId) (rollback_id : RepairRollbackId)
    (rollback_binding : string) : step :=
  s ← get_self;
  corrupt_if ((s.(pending) != Some id) || (s.(unresolved_rollback) != Some id)
    || negb (valid_sha256 rollback_binding));;
  reservation ← required (s.(reservations) !! id);
  transaction ← required (s.(transactions) !! id);
  rollback ← required transaction.(t_rollback);
  pending ← required rollback.(rb_pending_resolution);
  status ← or_corrupt (protocol_rollback_status_from_record id reservation transaction rollback);
  corrupt_if ((rollback.(rb_rollback_id) != rollback_id)
    || (pending.(pr_rollback_transaction_binding_sha256) != rollback_binding)
    || (status.(rollback_transaction_binding_sha256).(as_str) != rollback_binding)
    || (status.(rt_phase) != pending.(pr_expected_phase)));;
  let rollback := set_rollback_resolution (Some pending.(pr_resolution)) (set_rollback_pending None rollback) in
  modify_self (λ s, set_pending None
    ((if rollback_transaction_phase rollback == Resolved then set_unresolved_rollback None else λ s, s)
       (set_transactions <[id := set_rollback (Some rollback) transaction]> s))).

Definition apply_cancel_intent (id : ReservationId) : step :=
  s ← get_self;
  corrupt_if (is_some s.(pending) || negb (phase_matches is_reserved id s));;
  modify_self (set_pending (Some id));;
  record ← required (s.(reservations) !! id);
  modify_self (set_reservations <[id := set_phase CancelPending record]>).

(** The event at which a release counts: now, or as the snapshot says. *)
Definition release_event (restoring : bool) (at_event : option Z) (clock : Z) :
    result RepairVaultStoreError Z :=
  match restoring, at_event with
  | false, None => Ok clock
  | true, Some at_event =>
      if (at_event <=? clock)%Z && (Z.max 0 (clock - at_event) <=? RELEASE_TOMBSTONE_EVENT_TTL)%Z
      then Ok at_event else Err CorruptJournal
  | _, _ => Err CorruptJournal
  end.

Definition apply_cancel_complete (restoring : bool) (id : ReservationId) (at_event : option Z) : step :=
  s ← get_self;
  at_event ← lift (release_event restoring at_event s.(logical_event_clock));
  corrupt_if ((s.(pending) != Some id) || (MAX_RELEASE_TOMBSTONES <=? usize s.(released))%Z
    || has_key id s.(released) || negb (phase_matches is_cancel_pending id s));;
  record ← required (s.(reservations) !! id);
  modify_self (λ s, set_pending None
    (set_released <[id := mkTombstone CancelRelease record at_event]> (set_reservations (delete id) s))).

(** What keeps a durable backup from being retired. *)
Definition retire_blocked (id : ReservationId) (transaction : RepairTransactionRecord) (s : RecoveredState) : bool :=
  (transaction_phase transaction != Resolved) || (s.(unresolved_transaction) == Some id)
  || rollback_unresolved transaction || (s.(unresolved_rollback) == Some id).

Definition apply_retire_intent (id : ReservationId) : step :=
  s ← get_self;
  corrupt_if (is_some s.(pending) || negb (phase_matches is_durable id s));;
  record ← required (s.(reservations) !! id);
  binding ← match record.(r_phase) with
            | DurablePhase binding => mret binding
            | _ => throw CorruptJournal
            end;
  transaction ← required (s.(transactions) !! id);
  corrupt_if (retire_blocked id transaction s);;
  resolution ← required transaction.(t_resolution);
  modify_self (λ s, set_pending (Some id)
    (set_reservations <[id := set_phase (RetirePending binding resolution) record]> s)).

Definition apply_retire_complete (restoring : bool) (id : ReservationId) (at_event : option Z) : step :=
  s ← get_self;
  at_event ← lift (release_event restoring at_event s.(logical_event_clock));
  corrupt_if ((s.(pending) != Some id) || (MAX_RELEASE_TOMBSTONES <=? usize s.(released))%Z
    || has_key id s.(released) || negb (phase_matches is_retire_pending id s));;
  record ← required (s.(reservations) !! id);
  modify_self (set_reservations (delete id));;
  transaction ← required (s.(transactions) !! id);
  modify_self (set_transactions (delete id));;
  corrupt_if (retire_blocked id transaction s);;
  modify_self (λ s, set_pending None
    (set_released <[id := mkTombstone RetireRelease record at_event]> s)).

(** ** Applying and replaying *)

Definition control_event (event : RepairEvent) : bool :=
  match event with CompactionBegin _ _ _ _ _ | CompactionComplete _ => true | _ => false end.

Definition dispatch (sequence : Z) (restoring : bool) (event : RepairEvent) : step :=
  match event with
  | CompactionBegin g c a r p => apply_compaction_begin sequence g c a r p
  | CompactionComplete g => apply_compaction_complete g
  | ReserveIntent id d b c v i p => apply_reserve_intent id d b c v i p
  | ReserveComplete id => apply_reserve_complete id
  | ReserveAbort id => apply_reserve_abort id
  | PersistIntent id b => apply_persist_intent id b
  | PersistComplete id h n => apply_persist_complete id h n
  | PersistAbort id => apply_persist_abort id
  | TransactionWriteLeaseConsume id b e l => apply_transaction_write_lease_consume id b e l
  | TransactionResolveIntent id b p r => apply_transaction_resolve_intent id b p r
  | TransactionResolveComplete id b => apply_transaction_resolve_complete id b
  | RollbackBegin id sb rid rb b => apply_rollback_begin id sb rid rb b
  | RollbackWriteLeaseConsume id rid rb e l => apply_rollback_write_lease_consume id rid rb e l
  | RollbackResolveIntent id rid rb p r => apply_rollback_resolve_intent id rid rb p r
  | RollbackResolveComplete id rid rb => apply_rollback_resolve_complete id rid rb
  | CancelIntent id => apply_cancel_intent id
  | CancelComplete id a => apply_cancel_complete restoring id a
  | RetireIntent id => apply_retire_intent id
  | RetireComplete id a => apply_retire_complete restoring id a
  end.

(** Every event outside a restored snapshot advances the logical clock. *)
Definition tick (event : RepairEvent) : step :=
  s ← get_self;
  if negb (control_event event) && negb (is_some s.(compaction_replay))
  then clock ← required (checked_add_u64 s.(logical_event_clock) 1); modify_self (set_clock clock)
  else mret tt.

Definition apply_repair_event (sequence : Z) (event : RepairEvent) : step :=
  s ← get_self;
  let restoring_snapshot := is_some s.(compaction_replay) in
  tick event;;
  dispatch sequence restoring_snapshot event.

(** [journal.fold(.., RecoveredState::default(), replay_repair_event)] over decoded
    entries, whose sequence numbers start at 1. *)
Fixpoint replay_from (sequence : Z) (events : list RepairEvent) (s : RecoveredState) :
    result RepairVaultStoreError RecoveredState :=
  match events with
  | [] => Ok s
  | event :: events =>
      match apply_repair_event sequence event s with
      | (s, Ok _) => replay_from (sequence + 1) events s
      | (_, Err e) => Err e
      end
  end.

(** [open_journal_generation] after the journal was authenticated: its [fold] is
    limited to [MAX_JOURNAL_EVENTS] entries. No entry is longer than
    [MAX_EVENT_BYTES], so the limit on the sum of their lengths holds with it. *)
Definition open_generation (events : list RepairEvent) : result RepairVaultStoreError RecoveredState :=
  reject (MAX_JOURNAL_EVENTS <? Z.of_nat (length events))%Z with CorruptJournal;
  state ← map_err (λ _, CorruptJournal) (replay_from 1 events default_state);
  reject (is_some state.(compaction_replay)) with CorruptJournal;
  Ok state.

End events.
