(* ===== verification/RepairStoreCompaction.v ===== *)
(** * Compaction of the repair journal
    (crates/rescue-secrets/src/repair_store.rs, [compaction_events])

    A compaction replaces the journal by a snapshot: the events that rebuild the
    active reservations, the retained releases and, last, the one unresolved
    transaction, between a begin and a complete record. The staged journal is
    replayed and compared with the live state before it is installed. *)

From stdpp Require Import sorting gmap.
From Stdlib.Strings Require Import Byte.
From Stdlib Require String Ascii.
From S2P Require Import Prelude Bytes Text Crypto VaultWire JournalChain RepairVault RepairStoreTypes RepairStoreEvents.

(** ** Releases that are kept *)

(** [left.released_at_event.cmp(&right.released_at_event).then_with(|| left_id.cmp(right_id))]. *)
Definition release_le (a b : ReservationId * ReleaseTombstone) : Prop :=
  (a.2.(released_at_event) < b.2.(released_at_event))%Z ∨
  (a.2.(released_at_event) = b.2.(released_at_event) ∧ String.le a.1.(as_str) b.1.(as_str)).
#[export] Instance release_le_dec : RelDecision release_le.
Proof. intros a b. unfold release_le. apply _. Defined.

Definition release_live (clock : Z) (t : ReleaseTombstone) : bool :=
  (t.(released_at_event) <=? clock)%Z
  && (Z.max 0 (clock - t.(released_at_event)) <=? RELEASE_TOMBSTONE_EVENT_TTL)%Z.

Definition retained_release_tombstones (s : RecoveredState) : gmap ReservationId ReleaseTombstone :=
  let retained := filter (λ e, release_live s.(logical_event_clock) e.2 = true) (btree_iter s.(released)) in
  let sorted := merge_sort release_le retained in
  let discard := length sorted - Z.to_nat MAX_RETAINED_RELEASE_TOMBSTONES in
  list_to_map (drop discard sorted).

Section compaction.
Context `{sha : Sha256}.

(** ** Snapshots *)

Definition append_reserve_snapshot (id : ReservationId) (record : ReservationRecord) : list RepairEvent :=
  [ReserveIntent id record.(r_draft) record.(r_reservation_binding_sha256)
     record.(r_reserved_capacity_bytes) record.(r_vault_id) record.(r_vault_identity_fingerprint)
     record.(r_physical_parent_fingerprint);
   ReserveComplete id].

Definition append_persist_snapshot (id : ReservationId) (record : ReservationRecord)
    (binding : RepairBinding) : list RepairEvent :=
  [PersistIntent id binding;
   PersistComplete id (hex_string record.(r_draft).(d_expected_backup_sha256).(raw))
     record.(r_draft).(d_backup_size_bytes)].

Definition append_rollback_snapshot (id : ReservationId) (record : ReservationRecord)
    (transaction : RepairTransactionRecord) (rollback : RepairRollbackTransactionRecord) :
    result RepairVaultStoreError (list RepairEvent) :=
  source ← protocol_transaction_status_from_record id record transaction;
  pending ← map_err (λ _, CorruptJournal)
    (rollback_pending rollback.(rb_rollback_id) source rollback.(rb_binding));
  let text := pending.(rollback_transaction_binding_sha256).(as_str) in
  Ok (RollbackBegin id source.(transaction_binding_sha256).(as_str) rollback.(rb_rollback_id) text
        rollback.(rb_binding)
      :: match rollback.(rb_write_lease) with
         | Some lease =>
             [RollbackWriteLeaseConsume id rollback.(rb_rollback_id) text lease.(boot_epoch_sha256)
                lease.(lease_binding_sha256)]
         | None => []
         end
      ++ match rollback.(rb_resolution) with
         | Some resolution =>
             [RollbackResolveIntent id rollback.(rb_rollback_id) text Pending resolution;
              RollbackResolveComplete id rollback.(rb_rollback_id) text]
         | None => []
         end).

Definition append_transaction_snapshot (id : ReservationId) (record : ReservationRecord)
    (transaction : RepairTransactionRecord) : result RepairVaultStoreError (list RepairEvent) :=
  pending ← protocol_transaction_status_from_record id record fresh_transaction;
  let text := pending.(transaction_binding_sha256).(as_str) in
  rollback_events ← match transaction.(t_rollback) with
                    | Some rollback => append_rollback_snapshot id record transaction rollback
                    | None => Ok []
                    end;
  Ok (match transaction.(t_write_lease) with
      | Some lease =>
          [TransactionWriteLeaseConsume id text lease.(boot_epoch_sha256) lease.(lease_binding_sha256)]
      | None => []
      end
      ++ match transaction.(t_resolution) with
         | Some resolution =>
             [TransactionResolveIntent id text Pending resolution; TransactionResolveComplete id text]
         | None => []
         end
      ++ rollback_events).

Definition append_reservation_snapshot (id : ReservationId) (record : ReservationRecord)
    (transaction : option RepairTransactionRecord) : result RepairVaultStoreError (list RepairEvent) :=
  let reserve := append_reserve_snapshot id record in
  match record.(r_phase) with
  | ReservedPhase => Ok reserve
  | DurablePhase binding =>
      transaction ← ok_or transaction CorruptJournal;
      events ← append_transaction_snapshot id record transaction;
      Ok (reserve ++ append_persist_snapshot id record binding ++ events)
  | _ => Err ReconciliationRequired
  end.

Definition append_release_snapshot (id : ReservationId) (tombstone : ReleaseTombstone) :
    result RepairVaultStoreError (list RepairEvent) :=
  let record := tombstone.(tomb_record) in
  let reserve := append_reserve_snapshot id record in
  let at_event := Some tombstone.(released_at_event) in
  match tombstone.(operation), record.(r_phase) with
  | CancelRelease, CancelPending => Ok (reserve ++ [CancelIntent id; CancelComplete id at_event])
  | RetireRelease, RetirePending binding resolution =>
      let durable_record := set_phase (DurablePhase binding) record in
      events ← append_transaction_snapshot id durable_record
        (mkTransactionRecord (Some resolution) None None None);
      Ok (reserve ++ append_persist_snapshot id record binding ++ events
          ++ [RetireIntent id; RetireComplete id at_event])
  | _, _ => Err CorruptJournal
  end.

(** [for .. in entries { append(&mut events, ..)?; }]. *)
Fixpoint append_all {A} (f : A → result RepairVaultStoreError (list RepairEvent)) (l : list A) :
    result RepairVaultStoreError (list RepairEvent) :=
  match l with
  | [] => Ok []
  | a :: l => events ← f a; rest ← append_all f l; Ok (events ++ rest)
  end.

Definition unresolved_record (transaction : RepairTransactionRecord) : bool :=
  (transaction_phase transaction != Resolved) || rollback_unresolved transaction.

(** [transactions.iter().find_map(..)]: the first transaction that is unresolved. *)
Definition first_unresolved (transactions : gmap ReservationId RepairTransactionRecord) : option ReservationId :=
  fst <$> List.find (λ '(_, transaction), unresolved_record transaction) (btree_iter transactions).

Definition compaction_events (reservations : gmap ReservationId ReservationRecord)
    (releases : gmap ReservationId ReleaseTombstone)
    (transactions : gmap ReservationId RepairTransactionRecord)
    (logical_event_clock generation : Z) (previous_anchor : JournalAnchor) :
    result RepairVaultStoreError (list RepairEvent) :=
  let unresolved_id := first_unresolved transactions in
  active ← append_all (λ '(id, record), append_reservation_snapshot id record (transactions !! id))
    (filter (λ e, Some e.1 ≠ unresolved_id) (btree_iter reservations));
  released ← append_all (λ '(id, tombstone), append_release_snapshot id tombstone) (btree_iter releases);
  last ← match unresolved_id with
         | Some id =>
             record ← ok_or (reservations !! id) CorruptJournal;
             append_reservation_snapshot id record (transactions !! id)
         | None => Ok []
         end;
  Ok (CompactionBegin generation logical_event_clock (usize reservations) (usize releases)
        (hex_string (to_bytes previous_anchor))
      :: active ++ released ++ last ++ [CompactionComplete generation]).

(** ** The check of the staged journal *)

Definition validate_compacted_state (s : RecoveredState) (reservations : gmap ReservationId ReservationRecord)
    (releases : gmap ReservationId ReleaseTombstone)
    (transactions : gmap ReservationId RepairTransactionRecord)
    (unresolved_transaction unresolved_rollback : option ReservationId)
    (logical_event_clock generation : Z) (previous_anchor : JournalAnchor) :
    result RepairVaultStoreError () :=
  let expected_seen : gset ReservationId := dom reservations ∪ dom releases in
  reject ((s.(RepairStoreTypes.reservations) != reservations) || (s.(released) != releases)
          || (s.(RepairStoreTypes.transactions) != transactions)
          || (s.(RepairStoreTypes.unresolved_transaction) != unresolved_transaction)
          || (s.(RepairStoreTypes.unresolved_rollback) != unresolved_rollback)
          || (s.(seen_reservation_ids) != expected_seen) || is_some s.(pending)
          || (s.(RepairStoreTypes.logical_event_clock) != logical_event_clock)
          || (s.(compaction_generation) != generation)
          || (s.(previous_compaction_anchor) != Some previous_anchor) || is_some s.(compaction_replay))
    with CorruptJournal;
  Ok tt.

(** [append_compaction_event], up to the journal: an encoded event has to fit.
    [encoded_len] is the length of its [serde_json] encoding. *)
Definition event_fits (encoded_len : RepairEvent → Z) (event : RepairEvent) : bool :=
  (encoded_len event <=? MAX_EVENT_BYTES)%Z.

(** [compact_journal_until], step by step: the generation and the events of the
    snapshot, *)
Definition snapshot_events (s : RecoveredState) (previous_anchor : JournalAnchor) :
    result RepairVaultStoreError (Z * list RepairEvent) :=
  generation ← ok_or (checked_add_u64 s.(compaction_generation) 1) CorruptJournal;
  events ← compaction_events s.(reservations) (retained_release_tombstones s) s.(transactions)
    s.(logical_event_clock) generation previous_anchor;
  reject (JOURNAL_COMPACTION_TRIGGER_EVENTS <=? Z.of_nat (length events))%Z with InsufficientCapacity;
  Ok (generation, events).

(** the check of a journal of these events against the state, *)
Definition reopen_snapshot (s : RecoveredState) (generation : Z) (previous_anchor : JournalAnchor)
    (events : list RepairEvent) : result RepairVaultStoreError RecoveredState :=
  staged_state ← open_generation events;
  _ ← validate_compacted_state staged_state s.(reservations) (retained_release_tombstones s) s.(transactions)
    s.(unresolved_transaction) s.(unresolved_rollback) s.(logical_event_clock) generation previous_anchor;
  Ok staged_state.

(** and what is staged: the events, and the state that replaying them gives, or
    the error that stops the compaction. *)
Definition staged_snapshot (encoded_len : RepairEvent → Z) (s : RecoveredState) (previous_anchor : JournalAnchor) :
    result RepairVaultStoreError (list RepairEvent * RecoveredState) :=
  '(generation, events) ← snapshot_events s previous_anchor;
  reject (negb (forallb (event_fits encoded_len) events)) with CorruptStore;
  staged_state ← reopen_snapshot s generation previous_anchor events;
  Ok (events, staged_state).

End compaction.
