(* ===== verification/RepairStore.v ===== *)
(** * The calls of the repair store
    (crates/rescue-secrets/src/repair_store.rs, [RepairVaultStore])

    Reservations and releases first, then transactions and rollbacks over a durable
    backup, the recovery of an interrupted change, the opening of a handle and a
    store over its lifetime. A handle holds the state its journal determines and
    appends one event before and one after every change of a backup file. The
    descriptor-bound file operations take the handle by shared reference and never
    touch that state: they are the class [StoreFiles], in which every operation may
    fail. A failing append may or may not have reached the journal, and a failing
    exchange of journals leaves the old or the new one in place. The journal of a
    handle is absent only after such a failure, on a handle that is not healthy and
    appends nothing. *)

From stdpp Require Import sorting gmap.
From Stdlib.Strings Require Import Byte.
From Stdlib Require String Ascii.
From S2P Require Import Prelude Bytes Text Crypto VaultWire JournalChain RepairVault RepairStoreTypes RepairStoreEvents RepairStoreCompaction.

(** ** Evidence that the calls return *)

Record RepairBackupSummary := mkSummary {
  s_reservation_id : ReservationId;
  s_backup_locator : string;
  s_reservation_binding_sha256 : string;
  s_vault_id : string;
  s_vault_identity_fingerprint : string;
  s_physical_parent_fingerprint : string;
  s_reserved_capacity_bytes : Z;
  s_backup_size_bytes : Z;
  s_expected_backup_sha256 : string;
  s_metadata_sha256 : string;
}.

(** The capability over one reservation. *)
Record ReservedRepairBackup := mkReserved { summary : RepairBackupSummary }.

Record VerifiedBackupMetadata := mkVerified {
  v_reservation_id : ReservationId;
  v_backup_locator : string;
  v_reservation_binding_sha256 : string;
  v_backup_sha256 : string;
  v_metadata_sha256 : string;
  v_backup_size_bytes : Z;
  v_reserved_capacity_bytes : Z;
  v_vault_id : string;
  v_vault_identity_fingerprint : string;
  v_physical_parent_fingerprint : string;
  v_plan_id : string;
  v_plan_sha256 : string;
  v_approval_id : string;
  v_approval_sha256 : string;
  v_resource_id : string;
  v_resource_sha256 : string;
  v_execution_intent : RepairExecutionIntentV1;
}.
#[export] Instance VerifiedBackupMetadata_eq_dec : EqDecision VerifiedBackupMetadata.
Proof. solve_decision. Defined.

Record DurableRepairBackup := mkDurable { metadata : VerifiedBackupMetadata }.

Inductive RepairBackupStatus :=
| StatusAbsent
| StatusReserved (summary : RepairBackupSummary)
| StatusDurable (metadata : VerifiedBackupMetadata)
| StatusReconciliationRequired.

Record RepairVaultLiveIdentity := mkLiveIdentity {
  live_vault_id : string;
  live_vault_identity_fingerprint : string;
  live_physical_parent_fingerprint : string;
}.

Definition verified_metadata_from_record (id : ReservationId) (record : ReservationRecord)
    (binding : RepairBinding) : VerifiedBackupMetadata :=
  mkVerified id (backup_locator id) record.(r_reservation_binding_sha256)
    (hex_string record.(r_draft).(d_expected_backup_sha256).(raw))
    (hex_string record.(r_draft).(d_metadata_sha256).(raw)) record.(r_draft).(d_backup_size_bytes)
    record.(r_reserved_capacity_bytes) record.(r_vault_id) record.(r_vault_identity_fingerprint)
    record.(r_physical_parent_fingerprint) binding.(b_plan_id) (hex_string binding.(b_plan_sha256).(raw))
    binding.(b_approval_id) (hex_string binding.(b_approval_sha256).(raw)) binding.(b_resource_id)
    (hex_string binding.(b_resource_sha256).(raw)) binding.(b_execution_intent).

Definition summary_of (id : ReservationId) (record : ReservationRecord) : RepairBackupSummary :=
  mkSummary id (backup_locator id) record.(r_reservation_binding_sha256) record.(r_vault_id)
    record.(r_vault_identity_fingerprint) record.(r_physical_parent_fingerprint)
    record.(r_reserved_capacity_bytes) record.(r_draft).(d_backup_size_bytes)
    (hex_string record.(r_draft).(d_expected_backup_sha256).(raw))
    (hex_string record.(r_draft).(d_metadata_sha256).(raw)).

(** ** Files *)

Record FilesystemState := mkFileState {
  device : Z; inode : Z; size : Z; blocks : Z; mode : Z; uid : Z; gid : Z; links : Z;
}.

Definition exact_allocation (state : FilesystemState) (required : Z) : bool :=
  (0 <=? state.(size))%Z && (state.(size) == required)
  && (0 <=? state.(blocks))%Z && (state.(blocks) * 512 <=? U64_MAX)%Z && (required <=? state.(blocks) * 512)%Z.

(** How an append to the journal and the exchange of two journals end. *)
Inductive AppendOutcome := Appended | AppendFailed (written : bool).
Inductive ExchangeOutcome := Exchanged | ExchangeFailed (installed : bool) (error : RepairVaultStoreError).

Class StoreFiles := {
  World : Type;
  File : Type;
  Source : Type;
  encoded_len : RepairEvent → Z;
  prepare_namespace : method World RepairVaultStoreError ();
  journal_append : RepairEvent → World → World * AppendOutcome;
  journal_head : method World RepairVaultStoreError JournalAnchor;
  validate_store_boundary : method World RepairVaultStoreError ();
  scan_namespace_and_backups : RecoveredState → method World RepairVaultStoreError ();
  ensure_compaction_artifacts_absent : method World RepairVaultStoreError ();
  open_staged_generation : method World RepairVaultStoreError ();
  append_staged : RepairEvent → method World RepairVaultStoreError ();
  seal_staged_generation : method World RepairVaultStoreError ();
  exchange_generation : list RepairEvent → World → World * ExchangeOutcome;
  verify_previous_anchor_against_backup : RecoveredState → method World RepairVaultStoreError ();
  remove_previous_generation : method World RepairVaultStoreError ();
  generate : World → World * ReservationId;
  backup_name_taken : ReservationId → method World RepairVaultStoreError bool;
  allocate_and_verify : ReservationId → Z → method World RepairVaultStoreError ();
  read_source : Source → Z → array32 → method World RepairVaultStoreError bytes;
  install_and_verify : ReservationId → bytes → Z → array32 → Z → method World RepairVaultStoreError ();
  verify_reserved_file : ReservationId → ReservationRecord → method World RepairVaultStoreError ();
  verify_durable_file : ReservationId → ReservationRecord → method World RepairVaultStoreError ();
  open_pending_backup_file : ReservationId → method World RepairVaultStoreError (option (File * FilesystemState));
  verify_zero_filled : File → Z → method World RepairVaultStoreError ();
  verify_file_contents : File → ReservationRecord → method World RepairVaultStoreError ();
  remove_pending_backup_file : ReservationId → FilesystemState → method World RepairVaultStoreError ();
  reset_pending_backup_file :
    ReservationId → option FilesystemState → Z → method World RepairVaultStoreError ();
}.

Section store.
Context `{sha : Sha256} `{files : StoreFiles}.

(** The identity a handle is opened with. *)
Record StoreIdentity := mkIdentity {
  vault_id : string;
  vault_identity_fingerprint : string;
  physical_parent_fingerprint : string;
  boot_epoch : Sha256Text;
}.

(** [RepairVaultStore]; [journal] is what the active journal file holds. *)
Record Store := mkStore {
  world : World;
  journal : list RepairEvent;
  state : RecoveredState;
  event_count : Z;
  checked_out : gset ReservationId;
  healthy : bool;
}.

Definition set_world (w : World) (s : Store) : Store :=
  mkStore w s.(journal) s.(state) s.(event_count) s.(checked_out) s.(healthy).
Definition set_journal (j : list RepairEvent) (s : Store) : Store :=
  mkStore s.(world) j s.(state) s.(event_count) s.(checked_out) s.(healthy).
Definition set_state (r : RecoveredState) (s : Store) : Store :=
  mkStore s.(world) s.(journal) r s.(event_count) s.(checked_out) s.(healthy).
Definition set_event_count (n : Z) (s : Store) : Store :=
  mkStore s.(world) s.(journal) s.(state) n s.(checked_out) s.(healthy).
Definition set_checked_out (f : gset ReservationId → gset ReservationId) (s : Store) : Store :=
  mkStore s.(world) s.(journal) s.(state) s.(event_count) (f s.(checked_out)) s.(healthy).
Definition set_unhealthy (s : Store) : Store :=
  mkStore s.(world) s.(journal) s.(state) s.(event_count) s.(checked_out) false.

Variable identity : StoreIdentity.

Local Abbreviation call := (method Store RepairVaultStoreError).
Local Abbreviation required o e := (lift (ok_or o e)).

(** A file operation. *)
Definition io {A} (m : method World RepairVaultStoreError A) : call A := on_field world set_world m.

(** ** Appending *)

(** [self.journal.append(&encoded)]. *)
Definition append_entry (event : RepairEvent) : call AppendOutcome := λ s,
  let '(w, outcome) := journal_append event s.(world) in
  let s := set_world w s in
  (match outcome with
   | Appended | AppendFailed true => set_journal (s.(journal) ++ [event]) s
   | AppendFailed false => s
   end, Ok outcome).

Definition append_event (event : RepairEvent) : call () :=
  self ← get_self;
  fail_if (MAX_JOURNAL_EVENTS <=? self.(event_count))%Z InsufficientCapacity;;
  fail_if (negb (event_fits encoded_len event)) CorruptStore;;
  outcome ← append_entry event;
  match outcome with
  | AppendFailed _ => modify_self set_unhealthy;; throw CorruptJournal
  | Appended =>
      let sequence := (Z.of_nat (length self.(journal)) + 1)%Z in
      applied ← attempt (on_field state set_state (apply_repair_event sequence event));
      match applied with
      | Err _ => modify_self set_unhealthy;; throw CorruptJournal
      | Ok _ =>
          count ← required (checked_add_u64 self.(event_count) 1) CorruptJournal;
          modify_self (set_event_count count)
      end
  end.

(** ** Checks *)

Definition require_mutable : call () :=
  self ← get_self;
  fail_if (negb self.(healthy) || is_some self.(state).(pending)) ReconciliationRequired;;
  io validate_store_boundary.

Definition validate_layout : call () :=
  io validate_store_boundary;;
  self ← get_self;
  fail_if (negb (transactions_are_consistent self.(state))) CorruptJournal;;
  io (scan_namespace_and_backups self.(state)).

Definition verify_record_vault_identity (record : ReservationRecord) : result RepairVaultStoreError () :=
  reject ((record.(r_vault_id) != identity.(vault_id))
          || (record.(r_vault_identity_fingerprint) != identity.(vault_identity_fingerprint)))
    with ReservationConflict;
  Ok tt.

Definition verify_record_live_parent (record : ReservationRecord) : result RepairVaultStoreError () :=
  _ ← verify_record_vault_identity record;
  reject (record.(r_physical_parent_fingerprint) != identity.(physical_parent_fingerprint))
    with ReservationConflict;
  Ok tt.

Definition verify_release_tombstone (clock : Z) (released : ReleaseTombstone) : result RepairVaultStoreError () :=
  _ ← verify_record_vault_identity released.(tomb_record);
  reject ((released.(released_at_event) == 0%Z) || (clock <? released.(released_at_event))%Z) with CorruptJournal;
  match released.(operation), released.(tomb_record).(r_phase) with
  | CancelRelease, CancelPending => Ok tt
  | RetireRelease, RetirePending binding resolution =>
      _ ← map_err (λ _, CorruptJournal) (validate_for_record binding released.(tomb_record));
      _ ← map_err (λ _, CorruptJournal) (validate_resolution_against_intent resolution binding.(b_execution_intent));
      reject (RepairVault.outcome resolution == ManualOutcome) with CorruptJournal;
      Ok tt
  | _, _ => Err CorruptJournal
  end.

Fixpoint check_all {A} (f : A → result RepairVaultStoreError ()) (l : list A) : result RepairVaultStoreError () :=
  match l with [] => Ok tt | a :: l => _ ← f a; check_all f l end.

Definition verify_recovered_vault_identity (s : RecoveredState) : result RepairVaultStoreError () :=
  _ ← check_all (λ e, verify_record_vault_identity e.2) (btree_iter s.(reservations));
  check_all (λ e, verify_release_tombstone s.(logical_event_clock) e.2) (btree_iter s.(released)).

Definition consume_checkout (id : ReservationId) : call () :=
  self ← get_self;
  modify_self (set_checked_out (λ c, c ∖ {[id]}));;
  fail_if (negb (bool_decide (id ∈ self.(checked_out)))) ReservationConflict.

(** ** Compaction *)

Definition compaction_due (self : Store) (required : Z) : bool :=
  (JOURNAL_COMPACTION_TRIGGER_EVENTS <? Z.min U64_MAX (self.(event_count) + required))%Z
  || (MAX_RETAINED_RELEASE_TOMBSTONES <? usize self.(state).(released))%Z
  || existsb (λ '(_, released),
       (released.(released_at_event) <=? self.(state).(logical_event_clock))%Z
       && (RELEASE_TOMBSTONE_EVENT_TTL <? Z.max 0 (self.(state).(logical_event_clock) - released.(released_at_event)))%Z)
       (btree_iter self.(state).(released)).

(** [for event in events { append_compaction_event(&mut staged, event)?; }]. *)
Fixpoint append_compaction_events (events : list RepairEvent) : call () :=
  match events with
  | [] => mret tt
  | event :: events =>
      fail_if (negb (event_fits encoded_len event)) CorruptStore;;
      io (append_staged event);;
      append_compaction_events events
  end.

(** Installs the staged journal: the marker, the two renames of its files. *)
Definition exchange (events : list RepairEvent) : call () := λ s,
  let '(w, outcome) := exchange_generation events s.(world) in
  let s := set_world w s in
  match outcome with
  | Exchanged => (set_journal events s, Ok tt)
  | ExchangeFailed installed error => (if installed then set_journal events s else s, Err error)
  end.

Definition compact_journal_until : call () :=
  self ← get_self;
  fail_if (negb self.(healthy) || is_some self.(state).(pending) || is_some self.(state).(compaction_replay))
    ReconciliationRequired;;
  validate_layout;;
  io ensure_compaction_artifacts_absent;;
  previous_anchor ← io journal_head;
  '(generation, events) ← lift (snapshot_events self.(state) previous_anchor);
  io open_staged_generation;;
  append_compaction_events events;;
  io seal_staged_generation;;
  lift (reopen_snapshot self.(state) generation previous_anchor events);;
  exchange events;;
  state ← lift (reopen_snapshot self.(state) generation previous_anchor events);
  io (verify_previous_anchor_against_backup state);;
  modify_self (λ s, set_event_count (Z.of_nat (length events)) (set_state state s));;
  io remove_previous_generation;;
  validate_layout.

Definition compact_journal : call () := on_error set_unhealthy compact_journal_until.

Definition require_event_capacity (required : Z) : call () :=
  self ← get_self;
  (if compaction_due self required then compact_journal else mret tt);;
  self ← get_self;
  fail_if (MAX_JOURNAL_EVENTS <? Z.min U64_MAX (self.(event_count) + required))%Z InsufficientCapacity.

(** ** Reservations *)

Definition reservation_summary (id : ReservationId) : call RepairBackupSummary :=
  self ← get_self;
  record ← required (self.(state).(reservations) !! id) ReservationNotFound;
  mret (summary_of id record).

Definition reserved_capability (id : ReservationId) : call ReservedRepairBackup :=
  self ← get_self;
  record ← required (self.(state).(reservations) !! id) ReservationNotFound;
  fail_if (negb (is_reserved record.(r_phase))) ReservationNotReady;;
  summary ← reservation_summary id;
  modify_self (set_checked_out (λ c, {[id]} ∪ c));;
  fail_if (bool_decide (id ∈ self.(checked_out))) ReservationConflict;;
  mret (mkReserved summary).

(** Sixteen attempts to draw an identifier. *)
Fixpoint generate_unused (attempts : nat) : call ReservationId :=
  match attempts with
  | 0 => throw StorageUnavailable
  | S attempts =>
      candidate ← (λ s, let '(w, id) := generate s.(world) in (set_world w s, Ok id));
      self ← get_self;
      if bool_decide (candidate ∈ self.(state).(seen_reservation_ids)) then generate_unused attempts
      else
        taken ← io (backup_name_taken candidate);
        if (taken : bool) then generate_unused attempts else mret candidate
  end.
Definition generate_unused_reservation_id : call ReservationId := generate_unused 16.

Fixpoint matching_reservation (draft : RepairBackupDraft) (binding : string)
    (l : list (ReservationId * ReservationRecord)) (found : option ReservationId) : call (option ReservationId) :=
  match l with
  | [] => mret found
  | (id, record) :: l =>
      if record.(r_reservation_binding_sha256) != binding then matching_reservation draft binding l found
      else
        fail_if (is_some found || negb (is_reserved record.(r_phase)) || (record.(r_draft) != draft)
          || (record.(r_reserved_capacity_bytes) != draft.(d_required_capacity_bytes))
          || (reservation_binding record.(r_draft) != binding)) ReservationConflict;;
        lift (verify_record_live_parent record);;
        io (verify_reserved_file id record);;
        matching_reservation draft binding l (Some id)
  end.

Definition reconcile_reserved_retry (draft : RepairBackupDraft) (binding : string) :
    call (option ReservedRepairBackup) :=
  self ← get_self;
  found ← matching_reservation draft binding (btree_iter self.(state).(reservations)) None;
  fail_if (existsb (λ '(_, released), released.(tomb_record).(r_reservation_binding_sha256) == binding)
    (btree_iter self.(state).(released))) ReservationConflict;;
  match found with
  | Some id => reserved ← reserved_capability id; mret (Some reserved)
  | None => mret None
  end.

Definition reserve_backup (draft : RepairBackupDraft) : call ReservedRepairBackup :=
  lift (draft_validate draft);;
  require_mutable;;
  let binding := reservation_binding draft in
  retry ← reconcile_reserved_retry draft binding;
  match retry with
  | Some reserved => mret reserved
  | None =>
      self ← get_self;
      fail_if (is_some self.(state).(unresolved_transaction) || is_some self.(state).(unresolved_rollback))
        ReconciliationRequired;;
      require_event_capacity 2;;
      self ← get_self;
      fail_if (MAX_RESERVATIONS <=? usize self.(state).(reservations))%Z InsufficientCapacity;;
      id ← generate_unused_reservation_id;
      append_event (ReserveIntent id draft binding draft.(d_required_capacity_bytes) identity.(vault_id)
        identity.(vault_identity_fingerprint) identity.(physical_parent_fingerprint));;
      on_error set_unhealthy (io (allocate_and_verify id draft.(d_required_capacity_bytes)));;
      append_event (ReserveComplete id);;
      reserved_capability id
  end.

Definition verified_metadata (id : ReservationId) : call VerifiedBackupMetadata :=
  self ← get_self;
  record ← required (self.(state).(reservations) !! id) ReservationNotFound;
  match record.(r_phase) with
  | DurablePhase binding => mret (verified_metadata_from_record id record binding)
  | _ => throw ReservationNotReady
  end.

Definition persist_backup_until (reservation : ReservedRepairBackup) (binding : RepairBinding) (source : Source) :
    call DurableRepairBackup :=
  let id := reservation.(summary).(s_reservation_id) in
  lift (binding_validate binding);;
  require_mutable;;
  consume_checkout id;;
  self ← get_self;
  fail_if (is_some self.(state).(unresolved_transaction) || is_some self.(state).(unresolved_rollback))
    ReconciliationRequired;;
  require_event_capacity 2;;
  self ← get_self;
  record ← required (self.(state).(reservations) !! id) ReservationNotFound;
  lift (validate_for_record binding record);;
  lift (verify_record_live_parent record);;
  fail_if (binding.(b_resource_sha256) != record.(r_draft).(d_expected_backup_sha256)) InvalidBinding;;
  fail_if (negb (is_reserved record.(r_phase))
    || (reservation.(summary).(s_reservation_binding_sha256) != record.(r_reservation_binding_sha256))
    || (reservation.(summary).(s_reserved_capacity_bytes) != record.(r_reserved_capacity_bytes))
    || (reservation.(summary).(s_vault_identity_fingerprint) != identity.(vault_identity_fingerprint))
    || (reservation.(summary).(s_physical_parent_fingerprint) != identity.(physical_parent_fingerprint)))
    ReservationConflict;;
  let draft := record.(r_draft) in
  bytes ← io (read_source source draft.(d_backup_size_bytes) draft.(d_expected_backup_sha256));
  append_event (PersistIntent id binding);;
  on_error set_unhealthy (io (install_and_verify id bytes draft.(d_backup_size_bytes)
    draft.(d_expected_backup_sha256) record.(r_reserved_capacity_bytes)));;
  append_event (PersistComplete id (hex_string draft.(d_expected_backup_sha256).(raw)) draft.(d_backup_size_bytes));;
  metadata ← verified_metadata id;
  mret (mkDurable metadata).

(** ** Releases *)

(** Removes the file of the pending release, if it is still there. *)
Definition remove_file (id : ReservationId) : call () :=
  existing ← io (open_pending_backup_file id);
  match existing with
  | Some (_, file_state) => io (remove_pending_backup_file id file_state)
  | None => mret tt
  end.

Definition cancel_reserved (id : ReservationId) (binding : string) : call Z :=
  require_mutable;;
  fail_if (negb (valid_sha256 binding)) ReservationConflict;;
  require_event_capacity 0;;
  self ← get_self;
  match self.(state).(released) !! id with
  | Some released =>
      lift (verify_release_tombstone self.(state).(logical_event_clock) released);;
      fail_if (negb ((released.(operation) == CancelRelease)
        && (released.(tomb_record).(r_reservation_binding_sha256) == binding))) ReservationConflict;;
      mret released.(tomb_record).(r_reserved_capacity_bytes)
  | None =>
      require_event_capacity 2;;
      self ← get_self;
      record ← required (self.(state).(reservations) !! id) ReservationNotFound;
      lift (verify_record_vault_identity record);;
      fail_if (negb (is_reserved record.(r_phase)) || (binding != record.(r_reservation_binding_sha256)))
        ReservationConflict;;
      io (verify_reserved_file id record);;
      modify_self (set_checked_out (λ c, c ∖ {[id]}));;
      append_event (CancelIntent id);;
      remove_file id;;
      append_event (CancelComplete id None);;
      mret record.(r_reserved_capacity_bytes)
  end.

Definition cancel_reservation (reservation : ReservedRepairBackup) : call () :=
  consume_checkout reservation.(summary).(s_reservation_id);;
  cancel_reserved reservation.(summary).(s_reservation_id) reservation.(summary).(s_reservation_binding_sha256);;
  mret tt.

Definition released_verified_metadata (clock : Z) (id : ReservationId) (released : ReleaseTombstone) :
    result RepairVaultStoreError VerifiedBackupMetadata :=
  _ ← verify_release_tombstone clock released;
  match released.(tomb_record).(r_phase) with
  | RetirePending binding _ => Ok (verified_metadata_from_record id released.(tomb_record) binding)
  | _ => Err ReservationConflict
  end.

(** [released.operation == Retire && self.released_verified_metadata(..)? == *expected]. *)
Definition same_release (clock : Z) (released : ReleaseTombstone) (expected : VerifiedBackupMetadata) :
    result RepairVaultStoreError bool :=
  match released.(operation) with
  | RetireRelease =>
      metadata ← released_verified_metadata clock expected.(v_reservation_id) released;
      Ok (metadata == expected)
  | CancelRelease => Ok false
  end.

Definition retire_backup (expected : VerifiedBackupMetadata) : call Z :=
  let id := expected.(v_reservation_id) in
  require_mutable;;
  require_event_capacity 0;;
  self ← get_self;
  match self.(state).(released) !! id with
  | Some released =>
      lift (verify_release_tombstone self.(state).(logical_event_clock) released);;
      same ← lift (same_release self.(state).(logical_event_clock) released expected);
      fail_if (negb same) ReservationConflict;;
      mret released.(tomb_record).(r_reserved_capacity_bytes)
  | None =>
      require_event_capacity 2;;
      self ← get_self;
      record ← required (self.(state).(reservations) !! id) ReservationNotFound;
      lift (verify_record_vault_identity record);;
      fail_if (negb (is_durable record.(r_phase))) ReservationConflict;;
      metadata ← verified_metadata id;
      fail_if (metadata != expected) ReservationConflict;;
      transaction ← required (self.(state).(transactions) !! id) CorruptJournal;
      fail_if ((transaction_phase transaction != Resolved) || rollback_unresolved transaction)
        ReconciliationRequired;;
      io (verify_durable_file id record);;
      append_event (RetireIntent id);;
      remove_file id;;
      append_event (RetireComplete id None);;
      mret record.(r_reserved_capacity_bytes)
  end.

Definition resume_reserved (id : ReservationId) (binding : string) : call ReservedRepairBackup :=
  self ← get_self;
  fail_if (negb self.(healthy) || is_some self.(state).(pending)) ReconciliationRequired;;
  fail_if (negb (valid_sha256 binding)) ReservationConflict;;
  record ← required (self.(state).(reservations) !! id) ReservationNotFound;
  lift (verify_record_live_parent record);;
  fail_if (negb (is_reserved record.(r_phase)) || (record.(r_reservation_binding_sha256) != binding))
    ReservationConflict;;
  io (verify_reserved_file id record);;
  reserved_capability id.

Definition backup_status (id : ReservationId) (binding : string) : call RepairBackupStatus :=
  io validate_store_boundary;;
  self ← get_self;
  if is_some self.(state).(pending) then mret StatusReconciliationRequired
  else match self.(state).(reservations) !! id with
  | None =>
      match self.(state).(released) !! id with
      | Some released =>
          lift (verify_release_tombstone self.(state).(logical_event_clock) released);;
          fail_if (released.(tomb_record).(r_reservation_binding_sha256) != binding) ReservationConflict;;
          mret StatusAbsent
      | None => mret StatusAbsent
      end
  | Some record =>
      lift (verify_record_vault_identity record);;
      fail_if (record.(r_reservation_binding_sha256) != binding) ReservationConflict;;
      match record.(r_phase) with
      | ReservePending | PersistPending _ | CancelPending | RetirePending _ _ => mret StatusReconciliationRequired
      | ReservedPhase =>
          io (verify_reserved_file id record);;
          summary ← reservation_summary id;
          mret (StatusReserved summary)
      | DurablePhase _ =>
          io (verify_durable_file id record);;
          metadata ← verified_metadata id;
          mret (StatusDurable metadata)
      end
  end.

Definition every_zero_digit (s : string) : bool := all_bytes (λ b, b == x30) s.

Definition live_identity : call RepairVaultLiveIdentity :=
  self ← get_self;
  fail_if (negb self.(healthy) || is_some self.(state).(pending)) ReconciliationRequired;;
  io validate_store_boundary;;
  fail_if (negb (valid_vault_id identity.(vault_id)) || negb (valid_sha256 identity.(vault_identity_fingerprint))
    || negb (valid_sha256 identity.(physical_parent_fingerprint))
    || every_zero_digit identity.(vault_identity_fingerprint)
    || every_zero_digit identity.(physical_parent_fingerprint)) CorruptStore;;
  mret (mkLiveIdentity identity.(vault_id) identity.(vault_identity_fingerprint)
    identity.(physical_parent_fingerprint)).

End store.

#[export] Instance RepairRollbackTransactionStatusPayload_eq_dec :
  EqDecision RepairRollbackTransactionStatusPayload.
Proof. solve_decision. Defined.

Section store.
Context `{sha : Sha256} `{files : StoreFiles}.
Variable identity : StoreIdentity.

Local Abbreviation call := (method Store RepairVaultStoreError).
Local Abbreviation required o e := (lift (ok_or o e)).
Local Abbreviation or_error r e := (lift (map_err (λ _, e) r)).

(** ** Status *)

Definition transaction_status_for_id (id : ReservationId) : call RepairTransactionStatusPayload :=
  self ← get_self;
  reservation ← required (self.(state).(reservations) !! id) ReservationNotFound;
  lift (verify_record_vault_identity identity reservation);;
  fail_if (negb (is_durable reservation.(r_phase))) ReservationNotReady;;
  io (verify_durable_file id reservation);;
  transaction ← required (self.(state).(transactions) !! id) CorruptJournal;
  lift (protocol_transaction_status_from_record id reservation transaction).

Definition rollback_status_for_source (id : ReservationId) : call RepairRollbackTransactionStatusPayload :=
  self ← get_self;
  reservation ← required (self.(state).(reservations) !! id) ReservationNotFound;
  lift (verify_record_vault_identity identity reservation);;
  fail_if (negb (is_durable reservation.(r_phase))) ReservationNotReady;;
  io (verify_durable_file id reservation);;
  transaction ← required (self.(state).(transactions) !! id) CorruptJournal;
  rollback ← required transaction.(t_rollback) ReservationNotFound;
  lift (protocol_rollback_status_from_record id reservation transaction rollback).

Definition transaction_status (selector : RepairTransactionStatusSelector) :
    call RepairTransactionStatusResultPayload :=
  io validate_store_boundary;;
  self ← get_self;
  fail_if (is_some self.(state).(pending)) ReconciliationRequired;;
  match selector with
  | PendingSingleton =>
      match self.(state).(unresolved_transaction) with
      | None => mret (mkTransactionResult None)
      | Some id =>
          status ← transaction_status_for_id id;
          fail_if (negb (transaction_is_unresolved status)) CorruptJournal;;
          mret (mkTransactionResult (Some status))
      end
  | Exact reservation_id transaction_binding =>
      id ← lift (ReservationId_parse reservation_id.(as_str));
      fail_if (negb (has_key id self.(state).(transactions))) ReservationNotFound;;
      status ← transaction_status_for_id id;
      fail_if (status.(transaction_binding_sha256) != transaction_binding) ReservationConflict;;
      mret (mkTransactionResult (Some status))
  end.

(** The transaction whose rollback has this identifier. *)
Definition find_rollback (rollback_id : RepairRollbackId) (s : RecoveredState) : option ReservationId :=
  fst <$> List.find (λ '(_, transaction),
    is_some_and transaction.(t_rollback) (λ rollback, rollback.(rb_rollback_id) == rollback_id))
    (btree_iter s.(transactions)).

Definition rollback_transaction_status (selector : RepairRollbackStatusSelector) :
    call RepairRollbackStatusResultPayload :=
  or_error (rollback_selector_validate selector) InvalidBinding;;
  io validate_store_boundary;;
  self ← get_self;
  fail_if (is_some self.(state).(pending)) ReconciliationRequired;;
  match selector with
  | RollbackPendingSingleton =>
      match self.(state).(unresolved_rollback) with
      | None => mret (mkRollbackResult None)
      | Some id =>
          status ← rollback_status_for_source id;
          fail_if (negb (rollback_is_unresolved status)) CorruptJournal;;
          mret (mkRollbackResult (Some status))
      end
  | RollbackExact rollback_id rollback_binding =>
      id ← required (find_rollback rollback_id self.(state)) ReservationNotFound;
      status ← rollback_status_for_source id;
      fail_if (status.(rollback_transaction_binding_sha256) != rollback_binding) ReservationConflict;;
      mret (mkRollbackResult (Some status))
  end.

(** ** Leases and resolutions of a transaction *)

Definition consume_write_lease (selector : RepairTransactionStatusSelector) : call RepairWriteLeasePayload :=
  require_mutable;;
  match selector with
  | PendingSingleton => throw InvalidBinding
  | Exact reservation_id transaction_binding =>
      id ← lift (ReservationId_parse reservation_id.(as_str));
      status ← transaction_status_for_id id;
      fail_if ((status.(phase) != Pending) || (status.(transaction_binding_sha256) != transaction_binding))
        ReservationConflict;;
      self ← get_self;
      reservation ← required (self.(state).(reservations) !! id) ReservationNotFound;
      match reservation.(r_phase) with
      | DurablePhase binding =>
          lift (validate_for_record binding reservation);;
          let intent := binding.(b_execution_intent) in
          resource ← or_error (from_execution intent.(action_id) binding.(b_resource_id)) InvalidBinding;
          fail_if (intent.(lock_identity)
            != canonical_repair_lock_identity_for_resource intent.(target_recovery_fingerprint) resource)
            InvalidBinding;;
          transaction ← required (self.(state).(transactions) !! id) CorruptJournal;
          fail_if (is_some transaction.(t_pending_resolution) || is_some transaction.(t_resolution))
            ReservationConflict;;
          fail_if (is_some_and transaction.(t_write_lease)
            (λ lease, lease.(boot_epoch_sha256) == identity.(boot_epoch).(as_str))) WriteLeaseConsumed;;
          lease ← or_error (write_lease_consumed status identity.(boot_epoch)) InvalidBinding;
          require_event_capacity 1;;
          append_event (TransactionWriteLeaseConsume id
            lease.(lease_transaction).(transaction_binding_sha256).(as_str)
            lease.(lease_boot_epoch_sha256).(as_str) lease.(RepairVault.lease_binding_sha256).(as_str));;
          mret lease
      | _ => throw ReservationNotReady
      end
  end.

Definition resolve_transaction (expected : RepairTransactionStatusPayload)
    (resolution : RepairTransactionResolution) : call RepairTransactionStatusPayload :=
  require_mutable;;
  lift (validate_protocol_transaction_status expected);;
  id ← lift (ReservationId_parse expected.(backup).(reservation_id).(as_str));
  current ← transaction_status_for_id id;
  if current != expected
  then
    if (current.(backup) == expected.(backup))
       && (current.(transaction_binding_sha256) == expected.(transaction_binding_sha256))
       && (current.(RepairVault.resolution) == Some resolution)
    then mret current
    else throw ReservationConflict
  else
    self ← get_self;
    reservation ← required (self.(state).(reservations) !! id) ReservationNotFound;
    match reservation.(r_phase) with
    | DurablePhase binding =>
        lift (validate_resolution_against_intent resolution binding.(b_execution_intent));;
        transaction ← required (self.(state).(transactions) !! id) CorruptJournal;
        if transaction.(t_resolution) == Some resolution then mret current
        else
          fail_if (transaction_phase transaction == Resolved) ReservationConflict;;
          require_event_capacity 2;;
          let text := current.(transaction_binding_sha256).(as_str) in
          append_event (TransactionResolveIntent id text current.(phase) resolution);;
          append_event (TransactionResolveComplete id text);;
          transaction_status_for_id id
    | _ => throw ReservationNotReady
    end.

(** ** Rollbacks *)

Definition begin_rollback_transaction (source : RepairTransactionStatusPayload) (rollback_id : RepairRollbackId)
    (binding : RepairRollbackBindingV1) : call RepairRollbackTransactionStatusPayload :=
  require_mutable;;
  lift (validate_protocol_transaction_status source);;
  or_error (rollback_binding_validate_against binding source) InvalidBinding;;
  id ← lift (ReservationId_parse source.(backup).(reservation_id).(as_str));
  current_source ← transaction_status_for_id id;
  fail_if (current_source != source) ReservationConflict;;
  self ← get_self;
  source_record ← required (self.(state).(reservations) !! id) ReservationNotFound;
  lift (verify_record_vault_identity identity source_record);;
  io (verify_durable_file id source_record);;
  transaction ← required (self.(state).(transactions) !! id) CorruptJournal;
  match transaction.(t_rollback) with
  | Some existing =>
      status ← lift (protocol_rollback_status_from_record id source_record transaction existing);
      if (status.(RepairVault.rollback_id) == rollback_id) && (status.(rt_source) == source)
         && (status.(rt_binding) == binding)
      then mret status
      else throw ReservationConflict
  | None =>
      fail_if (is_some self.(state).(unresolved_transaction) || is_some self.(state).(unresolved_rollback))
        ReconciliationRequired;;
      fail_if (is_some (find_rollback rollback_id self.(state))) ReservationConflict;;
      pending ← or_error (rollback_pending rollback_id source binding) InvalidBinding;
      require_event_capacity 1;;
      append_event (RollbackBegin id source.(transaction_binding_sha256).(as_str) rollback_id
        pending.(rollback_transaction_binding_sha256).(as_str) binding);;
      mret pending
  end.

Definition consume_rollback_write_lease (selector : RepairRollbackStatusSelector) :
    call RepairRollbackWriteLeasePayload :=
  require_mutable;;
  match selector with
  | RollbackPendingSingleton => throw InvalidBinding
  | RollbackExact rollback_id _ =>
      self ← get_self;
      id ← required (find_rollback rollback_id self.(state)) ReservationNotFound;
      status ← rollback_status_for_source id;
      fail_if (negb (rollback_matches_result selector (mkRollbackResult (Some status)))
        || (status.(rt_phase) != Pending)) ReservationConflict;;
      self ← get_self;
      source_record ← required (self.(state).(reservations) !! id) ReservationNotFound;
      io (verify_durable_file id source_record);;
      rollback ← required (transaction ← self.(state).(transactions) !! id; transaction.(t_rollback)) CorruptJournal;
      fail_if (is_some rollback.(rb_pending_resolution) || is_some rollback.(rb_resolution)) ReservationConflict;;
      fail_if (is_some_and rollback.(rb_write_lease)
        (λ lease, lease.(boot_epoch_sha256) == identity.(boot_epoch).(as_str))) WriteLeaseConsumed;;
      lease ← or_error (rollback_write_lease_consumed status identity.(boot_epoch)) InvalidBinding;
      require_event_capacity 1;;
      append_event (RollbackWriteLeaseConsume id lease.(rl_transaction).(RepairVault.rollback_id)
        lease.(rl_transaction).(rollback_transaction_binding_sha256).(as_str)
        lease.(rl_boot_epoch_sha256).(as_str) lease.(rl_lease_binding_sha256).(as_str));;
      mret lease
  end.

Definition resolve_rollback_transaction (expected : RepairRollbackTransactionStatusPayload)
    (resolution : RepairRollbackResolution) : call RepairRollbackTransactionStatusPayload :=
  require_mutable;;
  or_error (rollback_validate expected) InvalidBinding;;
  or_error (rollback_resolution_validate_against resolution expected.(rt_source)) InvalidBinding;;
  id ← lift (ReservationId_parse expected.(rt_source).(backup).(reservation_id).(as_str));
  current ← rollback_status_for_source id;
  if current != expected
  then
    if rollback_same current expected && rollback_resolves_with current resolution
    then mret current
    else throw ReservationConflict
  else
    fail_if (current.(rt_phase) == Resolved) ReservationConflict;;
    require_event_capacity 2;;
    let text := expected.(rollback_transaction_binding_sha256).(as_str) in
    append_event (RollbackResolveIntent id expected.(RepairVault.rollback_id) text expected.(rt_phase) resolution);;
    append_event (RollbackResolveComplete id expected.(RepairVault.rollback_id) text);;
    id ← lift (ReservationId_parse expected.(rt_source).(backup).(reservation_id).(as_str));
    rollback_status_for_source id.

(** ** Recovery *)

(** [match verify(..) { Ok(()) => true, Err(WriteVerificationFailed) => false, Err(error) => return Err(error) }]
    for a file of exactly the reserved capacity. *)
Definition pending_file_complete (capacity : Z) (verify : File → method World RepairVaultStoreError ())
    (observed : option (File * FilesystemState)) : call bool :=
  match observed with
  | None => mret false
  | Some (file, file_state) =>
      if exact_allocation file_state capacity
      then
        verified ← attempt (io (verify file));
        match verified with
        | Ok _ => mret true
        | Err WriteVerificationFailed => mret false
        | Err error => throw error
        end
      else mret false
  end.

(** The change of a reservation that is pending: its file decides how it ends. *)
Definition reconcile_reservation (id : ReservationId) : call () :=
  self ← get_self;
  record ← required (self.(state).(reservations) !! id) CorruptJournal;
  let capacity := record.(r_reserved_capacity_bytes) in
  match record.(r_phase) with
  | ReservePending =>
      observed ← io (open_pending_backup_file id);
      complete ← pending_file_complete capacity (λ file, verify_zero_filled file capacity) observed;
      if (complete : bool) then append_event (ReserveComplete id)
      else remove_file id;; append_event (ReserveAbort id)
  | PersistPending _ =>
      observed ← io (open_pending_backup_file id);
      durable ← pending_file_complete capacity (λ file, verify_file_contents file record) observed;
      if (durable : bool)
      then append_event (PersistComplete id (hex_string record.(r_draft).(d_expected_backup_sha256).(raw))
             record.(r_draft).(d_backup_size_bytes))
      else
        expected ← io (open_pending_backup_file id);
        io (reset_pending_backup_file id (snd <$> expected) capacity);;
        append_event (PersistAbort id)
  | CancelPending => remove_file id;; append_event (CancelComplete id None)
  | RetirePending _ _ => remove_file id;; append_event (RetireComplete id None)
  | ReservedPhase | DurablePhase _ => throw CorruptJournal
  end.

Definition reconcile_pending : call () :=
  self ← get_self;
  match self.(state).(pending) with
  | None => mret tt
  | Some id =>
      let transaction := self.(state).(transactions) !! id in
      let rollback := transaction ≫= t_rollback in
      match transaction ≫= t_pending_resolution, rollback ≫= rb_pending_resolution, rollback with
      | Some pending, _, _ => append_event (TransactionResolveComplete id pending.(p_transaction_binding_sha256))
      | None, Some pending, Some rollback =>
          append_event (RollbackResolveComplete id rollback.(rb_rollback_id)
            pending.(pr_rollback_transaction_binding_sha256))
      | None, _, _ => reconcile_reservation id
      end
  end.

(** ** Opening

    [prepare_namespace] stands for what comes before the replay: the lock, the
    directories, the recovery of an interrupted exchange and the authentication of
    the journal. The handle that comes out of the replay is checked, repaired and,
    if due, compacted. *)
Definition fresh_handle (w : World) (events : list RepairEvent) (s : RecoveredState) : Store :=
  mkStore w events s (Z.of_nat (length events)) ∅ true.

Definition open_body : call () :=
  self ← get_self;
  lift (verify_recovered_vault_identity identity self.(state));;
  reconcile_pending;;
  validate_layout;;
  self ← get_self;
  if compaction_due self 0 then compact_journal else mret tt.

(** What an attempt to open leaves behind, and the handle if it succeeds. *)
Definition open (w : World) (events : list RepairEvent) : World * list RepairEvent * result RepairVaultStoreError Store :=
  match prepare_namespace w with
  | (w, Err e) => (w, events, Err e)
  | (w, Ok _) =>
      match open_generation events with
      | Err e => (w, events, Err e)
      | Ok s =>
          match open_body (fresh_handle w events s) with
          | (self, Ok _) => (self.(world), self.(journal), Ok self)
          | (self, Err e) => (self.(world), self.(journal), Err e)
          end
      end
  end.

(** ** A store over its lifetime

    The calls a client makes on a handle, and a handle that is dropped, at the
    latest when the machine stops, and opened again. A machine that stops inside a
    call is a call whose next file operation fails. *)
Inductive StoreCall :=
| ReserveBackup (draft : RepairBackupDraft)
| PersistBackup (reservation : ReservedRepairBackup) (binding : RepairBinding) (source : Source)
| CancelReservation (reservation : ReservedRepairBackup)
| CancelReserved (id : ReservationId) (binding : string)
| RetireBackup (expected : VerifiedBackupMetadata)
| ResumeReserved (id : ReservationId) (binding : string)
| BackupStatus (id : ReservationId) (binding : string)
| TransactionStatus (selector : RepairTransactionStatusSelector)
| BeginRollbackTransaction (source : RepairTransactionStatusPayload) (rollback_id : RepairRollbackId)
    (binding : RepairRollbackBindingV1)
| RollbackTransactionStatus (selector : RepairRollbackStatusSelector)
| ConsumeRollbackWriteLease (selector : RepairRollbackStatusSelector)
| ResolveRollbackTransaction (expected : RepairRollbackTransactionStatusPayload)
    (resolution : RepairRollbackResolution)
| ConsumeWriteLease (selector : RepairTransactionStatusSelector)
| LiveIdentity
| ResolveTransaction (expected : RepairTransactionStatusPayload) (resolution : RepairTransactionResolution).

Definition perform (request : StoreCall) (self : Store) : Store :=
  match request with
  | ReserveBackup draft => final (reserve_backup identity draft) self
  | PersistBackup reservation binding source => final (persist_backup_until identity reservation binding source) self
  | CancelReservation reservation => final (cancel_reservation identity reservation) self
  | CancelReserved id binding => final (cancel_reserved identity id binding) self
  | RetireBackup expected => final (retire_backup identity expected) self
  | ResumeReserved id binding => final (resume_reserved identity id binding) self
  | BackupStatus id binding => final (backup_status identity id binding) self
  | TransactionStatus selector => final (transaction_status selector) self
  | BeginRollbackTransaction source rollback_id binding =>
      final (begin_rollback_transaction source rollback_id binding) self
  | RollbackTransactionStatus selector => final (rollback_transaction_status selector) self
  | ConsumeRollbackWriteLease selector => final (consume_rollback_write_lease selector) self
  | ResolveRollbackTransaction expected resolution => final (resolve_rollback_transaction expected resolution) self
  | ConsumeWriteLease selector => final (consume_write_lease selector) self
  | LiveIdentity => final (live_identity identity) self
  | ResolveTransaction expected resolution => final (resolve_transaction expected resolution) self
  end.
End store.

Section session.
Context `{sha : Sha256} `{files : StoreFiles}.

Inductive Session :=
| Closed (w : World) (events : list RepairEvent)
| Opened (identity : StoreIdentity) (self : Store).

Inductive Action :=
| OpenStore (identity : StoreIdentity)
| Do (request : StoreCall).

Definition reopened (identity : StoreIdentity) (w : World) (events : list RepairEvent) : Session :=
  match open identity w events with
  | (_, _, Ok self) => Opened identity self
  | (w, events, Err _) => Closed w events
  end.

Definition act (session : Session) (action : Action) : Session :=
  match action, session with
  | OpenStore identity, Closed w events => reopened identity w events
  | OpenStore identity, Opened _ self => reopened identity self.(world) self.(journal)
  | Do request, Opened identity self => Opened identity (perform identity request self)
  | Do _, Closed _ _ => session
  end.

Definition run (actions : list Action) (session : Session) : Session := foldl act session actions.

Definition session_journal (session : Session) : list RepairEvent :=
  match session with Closed _ events => events | Opened _ self => self.(journal) end.
End session.
