(* ===== verification/RepairStoreFacts.v ===== *)
(** * Facts about durable records of the repair store

    The store and the protocol check the same texts in their own words; a record
    that passed the store's checks projects to a status payload of the protocol,
    and the payload of a transaction is determined by its resolution. *)

From stdpp Require Import sorting gmap.
From Stdlib.Strings Require Import Byte.
From Stdlib Require String Ascii.
From S2P Require Import Prelude Bytes Text Crypto VaultWire JournalChain RepairVault RepairVaultProperties RepairStoreTypes RepairStoreEvents.

(** ** Texts *)

Lemma valid_reservation_id_hex s : valid_reservation_id s = hex_id 32 "B-" s.
Proof.
  unfold valid_reservation_id, hex_id. destruct (strip_prefix "B-" s) as [t|] eqn:Hs; [|by rewrite andb_false_r].
  apply strip_prefix_Some in Hs as ->. rewrite len_app. change (len "B-") with 2%Z.
  f_equal. apply bool_decide_ext. lia.
Qed.

Lemma valid_vault_id_hex s : valid_vault_id s = RepairVault.valid_vault_id s.
Proof.
  unfold valid_vault_id, RepairVault.valid_vault_id, hex_id.
  destruct (strip_prefix "V-" s) as [t|] eqn:Hs; [|by rewrite andb_false_r].
  apply strip_prefix_Some in Hs as ->. rewrite len_app. change (len "V-") with 2%Z.
  f_equal. apply bool_decide_ext. lia.
Qed.

Lemma valid_sha256_chars s : valid_sha256 s = sha256_chars s.
Proof.
  unfold valid_sha256, valid_lower_hex, sha256_chars. rewrite negb_orb, !negb_involutive. f_equal.
  destruct (decide (len s = 64%Z)) as [->|H]; [done|].
  by rewrite bool_decide_false, (bool_decide_true (_ ≠ _)).
Qed.

Lemma valid_prefixed_id_protocol v p :
  valid_prefixed_id v p = true → RepairVault.valid_prefixed_id v p = true.
Proof.
  unfold valid_prefixed_id, RepairVault.valid_prefixed_id, contains, RepairVault.MAX_OPAQUE_ID_BYTES.
  rewrite !andb_true_iff. naive_solver.
Qed.

(** ** Digests *)

Lemma valid_sha256_text (s : Sha256Text) : valid_sha256 s.(as_str) = true.
Proof. rewrite valid_sha256_chars. apply Is_true_true_1, as_str_ok. Qed.

Lemma protocol_sha256_str_Ok v s : protocol_sha256_str v = Ok s ↔ s.(as_str) = v.
Proof. unfold protocol_sha256_str, sha256_parse. rewrite map_err_Ok. apply check_Ok. Qed.

Lemma protocol_sha256_str_valid v : valid_sha256 v = true ↔ ∃ s, protocol_sha256_str v = Ok s.
Proof.
  rewrite valid_sha256_chars. split.
  - intros Hv. exists (Checked (p := sha256_chars) v (Is_true_true_2 _ Hv)). by apply protocol_sha256_str_Ok.
  - intros (s & <-%protocol_sha256_str_Ok). apply Is_true_true_1, as_str_ok.
Qed.

Lemma protocol_sha256_text (s : Sha256Text) : protocol_sha256_str s.(as_str) = Ok s.
Proof. by apply protocol_sha256_str_Ok. Qed.

Lemma length_raw (a : array32) : length a.(raw) = 32.
Proof. destruct a as [l Hl]. simpl. by apply Is_true_true_1, bool_decide_eq_true in Hl. Qed.


(** The protocol's text of an array of 32 bytes. *)
Definition text_of (a : array32) : Sha256Text := sha256_expect a.(raw).

Lemma sha_bytes_text_of a : sha_bytes (text_of a) = a.(raw).
Proof. apply sha256_expect_bytes, length_raw. Qed.

Lemma protocol_sha256_bytes_Ok a : protocol_sha256_bytes a = Ok (text_of a).
Proof.
  unfold protocol_sha256_bytes, protocol_sha256_str. by rewrite (digest_text_parses _ (length_raw a)).
Qed.

Lemma text_of_eq a s : sha_bytes s = a.(raw) → text_of a = s.
Proof. intros H. apply (inj sha_bytes). by rewrite sha_bytes_text_of. Qed.

(** ** Identifiers *)

Program Definition protocol_id (id : ReservationId) : RepairReservationId :=
  Checked (p := hex_id 32 "B-") id.(as_str) _.
Next Obligation. intros id. rewrite <-valid_reservation_id_hex. apply as_str_ok. Qed.

Lemma protocol_id_parses id : reservation_id_parse id.(as_str) = Ok (protocol_id id).
Proof. by apply check_Ok. Qed.

(** ** Iteration in key order *)

Lemma btree_iter_perm {V} (m : gmap ReservationId V) : btree_iter m ≡ₚ map_to_list m.
Proof. apply merge_sort_Permutation. Qed.

Lemma elem_of_btree_iter {V} (m : gmap ReservationId V) id v : (id, v) ∈ btree_iter m ↔ m !! id = Some v.
Proof. by rewrite btree_iter_perm, elem_of_map_to_list. Qed.

Lemma existsb_btree_iter {V} (m : gmap ReservationId V) (f : ReservationId * V → bool) :
  existsb f (btree_iter m) = false ↔ ∀ id v, m !! id = Some v → f (id, v) = false.
Proof.
  rewrite existsb_false, Forall_forall. split.
  - intros H id v Hv. by apply H, elem_of_btree_iter.
  - intros H [id v] Hv. by apply H, elem_of_btree_iter.
Qed.

(** ** Records *)

(** What replay guarantees of every record it ever stores. *)
Record record_ok `{sha : Sha256} (r : ReservationRecord) : Prop := {
  ro_draft : draft_validate r.(r_draft) = Ok tt;
  ro_size : (0 ≤ r.(r_draft).(d_backup_size_bytes))%Z;
  ro_binding : r.(r_reservation_binding_sha256) = reservation_binding r.(r_draft);
  ro_text : valid_sha256 r.(r_reservation_binding_sha256) = true;
  ro_capacity : r.(r_reserved_capacity_bytes) = r.(r_draft).(d_required_capacity_bytes);
  ro_vault : valid_vault_id r.(r_vault_id) = true;
  ro_identity : valid_sha256 r.(r_vault_identity_fingerprint) = true;
  ro_parent : valid_sha256 r.(r_physical_parent_fingerprint) = true;
}.

Section facts.
Context `{sha : Sha256}.

Lemma record_ok_phase r p : record_ok r → record_ok (set_phase p r).
Proof. intros []. by split. Qed.

Lemma set_phase_same r p : r.(r_phase) = p → set_phase p r = r.
Proof. destruct r. simpl. by intros ->. Qed.
Lemma set_phase_twice p q r : set_phase p (set_phase q r) = set_phase p r.
Proof. done. Qed.
Lemma validate_for_record_phase b p r : validate_for_record b (set_phase p r) = validate_for_record b r.
Proof. done. Qed.

Lemma draft_sizes d :
  draft_validate d = Ok tt → (0 ≤ d.(d_backup_size_bytes))%Z →
  (1 ≤ d.(d_backup_size_bytes) ≤ d.(d_required_capacity_bytes))%Z ∧
  (d.(d_required_capacity_bytes) ≤ MAX_BACKUP_BYTES)%Z.
Proof. unfold draft_validate. intros H Hs. inv_ok H. guards. rewrite !Z.ltb_ge in *. lia. Qed.

(** The binding as the protocol's record. *)
Definition binding_view (b : RepairBinding) : RepairBackupBinding :=
  mkBackupBinding b.(b_plan_id) (text_of b.(b_plan_sha256)) b.(b_approval_id) (text_of b.(b_approval_sha256))
    b.(b_resource_id) (text_of b.(b_resource_sha256)) b.(b_execution_intent).

Lemma valid_execution_intent_Ok i : valid_execution_intent i = true → intent_validate i = Ok tt.
Proof.
  unfold valid_execution_intent. intros H.
  case_match; [|done].
  destruct (intent_new_for_resource _ _ _ _ _ _ _ _ _ _ _ _ _ _) as [c|] eqn:Hc; [|done].
  guards. subst c. apply intent_built. eauto.
Qed.

Lemma binding_validate_Ok b :
  binding_validate b = Ok tt →
  valid_prefixed_id b.(b_plan_id) "P-" = true ∧ valid_prefixed_id b.(b_approval_id) "A-" = true ∧
  (∃ r, from_execution b.(b_execution_intent).(action_id) b.(b_resource_id) = Ok r) ∧
  intent_validate b.(b_execution_intent) = Ok tt ∧
  b.(b_resource_sha256).(raw) = sha_bytes b.(b_execution_intent).(before_sha256).
Proof.
  unfold binding_validate. intros H. inv_ok H. guards. split_and!; try done.
  - destruct (from_execution _ _); [eauto|done].
  - by apply valid_execution_intent_Ok.
Qed.

(** The durable payload of a record, from its fields alone. *)
Definition backup_view (id : ReservationId) (r : ReservationRecord) (b : RepairBinding)
    (binding identity parent : Sha256Text) : RepairBackupStatusPayload :=
  let g := binding_view b in
  mkBackup Durable (protocol_id id) binding (reservation_locator (protocol_id id)) r.(r_vault_id) identity
    parent r.(r_reserved_capacity_bytes) r.(r_draft).(d_backup_size_bytes)
    (text_of r.(r_draft).(d_expected_backup_sha256)) (text_of r.(r_draft).(d_metadata_sha256))
    (Some g.(binding_plan_id)) (Some g.(binding_plan_sha256)) (Some g.(binding_approval_id))
    (Some g.(binding_approval_sha256)) (Some g.(binding_resource_id)) (Some g.(binding_resource_sha256))
    (Some g.(binding_execution_intent)).

Lemma backup_view_durable id r b binding identity parent :
  record_ok r → validate_for_record b r = Ok tt → parent.(as_str) = r.(r_physical_parent_fingerprint) →
  durable (backup_view id r b binding identity parent) (binding_view b).
Proof.
  intros Hr Hb Hp. unfold validate_for_record in Hb. inv_ok Hb. guards.
  match goal with H : binding_validate b = _ |- _ => apply binding_validate_Ok in H as (Hpl & Hap & [res Hres] & Hi & Hrs) end.
  apply from_execution_Ok in Hres as [_ Hres].
  destruct (draft_sizes _ (ro_draft _ Hr) (ro_size _ Hr)) as [Hs Hm].
  split; cbn [backup_view binding_view backup_state locator reservation_id vault_id backup_size reserved_bytes
    binding_plan_id binding_approval_id binding_resource_id binding_execution_intent binding_resource_sha256
    expected_backup_sha256 metadata_sha256 physical_parent_fingerprint].
  - reflexivity.
  - reflexivity.
  - rewrite <-valid_vault_id_hex. apply Hr.
  - unfold MAX_REPAIR_BACKUP_BYTES, MAX_BACKUP_BYTES in *. lia.
  - rewrite (ro_capacity _ Hr). unfold MAX_REPAIR_RESERVED_BYTES, MAX_BACKUP_BYTES in *. lia.
  - unfold carries. by split_and!.
  - by apply valid_prefixed_id_protocol.
  - by apply valid_prefixed_id_protocol.
  - by exists res.
  - exact Hi.
  - by apply text_of_eq.
  - by apply text_of_eq.
  - by apply text_of_eq.
  - intros ->. by rewrite Hp in *.
Qed.

(** A durable record projects to the durable payload of its fields. *)
Lemma backup_status_durable id r b :
  record_ok r → validate_for_record b r = Ok tt →
  ∃ bk, durable bk (binding_view b) ∧
    ∀ p, p = DurablePhase b ∨ (∃ x, p = RetirePending b x) →
      protocol_backup_status_from_record id (set_phase p r) = Ok bk.
Proof.
  intros Hr Hb.
  destruct (proj1 (protocol_sha256_str_valid _) (ro_text _ Hr)) as [binding Hbi].
  destruct (proj1 (protocol_sha256_str_valid _) (ro_identity _ Hr)) as [identity Hid].
  destruct (proj1 (protocol_sha256_str_valid _) (ro_parent _ Hr)) as [parent Hpa].
  pose proof (proj1 (protocol_sha256_str_Ok _ _) Hpa) as Hpt.
  pose proof (backup_view_durable id r b binding identity parent Hr Hb Hpt) as Hd.
  exists (backup_view id r b binding identity parent). split; [done|]. intros p Hp.
  assert (match r_phase (set_phase p r) with
          | DurablePhase binding | RetirePending binding _ => Ok binding
          | _ => @Err RepairVaultStoreError _ ReservationNotReady end = Ok b) as Hph
    by (destruct Hp as [->|[x ->]]; done).
  unfold protocol_backup_status_from_record. rewrite Hph. cbn [mbind result_bind].
  rewrite protocol_id_parses. cbn [map_err mbind result_bind]. rewrite !protocol_sha256_bytes_Ok. cbn [mbind result_bind].
  assert (backup_binding_new b.(b_plan_id) (text_of b.(b_plan_sha256)) b.(b_approval_id)
    (text_of b.(b_approval_sha256)) b.(b_resource_id) (text_of b.(b_resource_sha256)) b.(b_execution_intent)
    = Ok (binding_view b)) as ->.
  { unfold validate_for_record in Hb. inv_ok Hb. guards.
    match goal with H : binding_validate b = _ |- _ => apply binding_validate_Ok in H as (Hpl & Hap & [res Hres] & Hi & Hrs) end.
    pose proof (proj1 (from_execution_Ok _ _ _) Hres) as [_ Hv].
    unfold backup_binding_new. rewrite (valid_prefixed_id_protocol _ _ Hpl), (valid_prefixed_id_protocol _ _ Hap).
    rewrite (proj2 (valid_resource_id_spec _) (ex_intro _ res Hv)), Hi, Hres, (text_of_eq _ _ (eq_sym Hrs)), ne_refl_false.
    unfold binding_view. by rewrite (text_of_eq _ _ (eq_sym Hrs)). }
  cbn [map_err mbind result_bind]. change (r_reservation_binding_sha256 (set_phase p r)) with (r_reservation_binding_sha256 r).
  change (r_vault_identity_fingerprint (set_phase p r)) with (r_vault_identity_fingerprint r).
  change (r_physical_parent_fingerprint (set_phase p r)) with (r_physical_parent_fingerprint r).
  rewrite Hbi, Hid, Hpa. cbn [mbind result_bind].
  unfold backup_durable, backup_new.
  rewrite ne_refl_false. change (r_vault_id (set_phase p r)) with (r_vault_id r).
  change (r_draft (set_phase p r)) with (r_draft r).
  change (r_reserved_capacity_bytes (set_phase p r)) with (r_reserved_capacity_bytes r).
  pose proof (du_vault _ _ Hd) as Hv. cbn [backup_view vault_id] in Hv. rewrite Hv.
  pose proof (du_size _ _ Hd) as Hs. cbn [backup_view backup_size] in Hs.
  rewrite (proj2 (contains_spec _ _ _) Hs).
  pose proof (du_reserved _ _ Hd) as Hre. cbn [backup_view backup_size reserved_bytes] in Hre.
  rewrite (proj2 (contains_spec _ _ _) Hre). done.
Qed.

(** ** Transactions *)

Lemma transaction_phase_record t :
  transaction_phase t = match t.(t_resolution) with Some x => RepairVault.transaction_phase x | None => Pending end.
Proof. unfold transaction_phase, RepairVault.transaction_phase. destruct t.(t_resolution) as [[[] ? ? ? ?]|]; done. Qed.

Lemma rollback_phase_record t :
  rollback_transaction_phase t = match t.(rb_resolution) with Some x => rollback_phase x | None => Pending end.
Proof. unfold rollback_transaction_phase, rollback_phase. destruct t.(rb_resolution) as [[[] ? ? ? ?]|]; done. Qed.

Lemma validate_resolution_Ok x i :
  validate_resolution_against_intent x i = Ok tt ↔ resolution_validate_against x i = Ok tt.
Proof.
  rewrite resolution_built. unfold validate_resolution_against_intent. split.
  - intros H. inv_ok H. guards. by subst.
  - intros ->. cbn [map_err mbind result_bind]. by rewrite ne_refl_false.
Qed.

Definition resolution_ok (x : option RepairTransactionResolution) (b : RepairBinding) : Prop :=
  match x with Some x => resolution_validate_against x b.(b_execution_intent) = Ok tt | None => True end.

(** The payload of a transaction over a durable backup. *)
Definition status_view (bk : RepairBackupStatusPayload) (b : RepairBinding) (t : RepairTransactionRecord) :
    RepairTransactionStatusPayload :=
  mkTransaction (transaction_phase t) (digest_of (tx_preimage bk (binding_view b))) bk t.(t_resolution).

Lemma transaction_status_Ok id r bk b t :
  protocol_backup_status_from_record id r = Ok bk → durable bk (binding_view b) →
  (∀ s, protocol_transaction_status_from_record id r t = Ok s → s = status_view bk b t ∧ resolution_ok t.(t_resolution) b) ∧
  (resolution_ok t.(t_resolution) b → protocol_transaction_status_from_record id r t = Ok (status_view bk b t)).
Proof.
  intros Hbk Hd. unfold protocol_transaction_status_from_record. rewrite Hbk. cbn [mbind result_bind].
  assert (∀ s, map_err (λ _, CorruptStore) match t.(t_resolution) with
      | Some x => transaction_resolved bk x | None => transaction_pending bk end = Ok s ↔
    transaction_validate s = Ok tt ∧ s.(phase) = transaction_phase t ∧ s.(backup) = bk ∧ s.(resolution) = t.(t_resolution)) as Hs.
  { intros s. rewrite map_err_Ok, transaction_phase_record.
    destruct t.(t_resolution); apply transaction_new_Ok. }
  split.
  - intros s (Hv & Hp & Hb & Hr)%Hs. apply transaction_validate_Ok in Hv as (g & Hg & Hdig & Hpr).
    rewrite Hb in *. assert (g = binding_view b) as -> by (eapply durable_fun; apply du_carries; eassumption).
    split; [destruct s; unfold status_view; cbn in *; congruence|].
    rewrite Hr in Hpr. unfold progress in Hpr. destruct t.(t_resolution) as [x|]; [|done].
    apply resolution_validate_Ok. split; [apply (du_intent _ _ Hd)|apply Hpr].
  - intros Hok. apply Hs. split_and!; try done. apply transaction_validate_Ok. exists (binding_view b).
    cbn [status_view backup RepairVault.transaction_binding_sha256 phase resolution].
    split_and!; [done|done|]. unfold progress. rewrite transaction_phase_record.
    destruct t.(t_resolution) as [x|]; [|done]. split; [done|]. by apply resolution_validate_Ok in Hok as [_ Hok].
Qed.

(** ** Rollbacks *)

Definition rollback_resolution_ok (x : option RepairRollbackResolution) (src : RepairTransactionStatusPayload) : Prop :=
  match x with Some x => rollback_resolution_validate_against x src = Ok tt | None => True end.

Definition rollback_view (src : RepairTransactionStatusPayload) (rb : RepairRollbackTransactionRecord) :
    RepairRollbackTransactionStatusPayload :=
  mkRollbackTransaction (rollback_transaction_phase rb) rb.(rb_rollback_id)
    (digest_of (rollback_transaction_preimage rb.(rb_rollback_id) src rb.(rb_binding))) src rb.(rb_binding)
    rb.(rb_resolution).

Lemma rollback_view_validate src rb :
  rollback_validate (rollback_view src rb) = Ok tt ↔
  rollback_binding_validate_against rb.(rb_binding) src = Ok tt ∧ rollback_resolution_ok rb.(rb_resolution) src.
Proof.
  unfold rollback_validate, rollback_view. cbn [rt_binding rt_source rollback_id rollback_transaction_binding_sha256 rt_phase rt_resolution].
  split.
  - intros H. apply result_bind_Ok in H as ([] & Hb & H). split; [done|].
    apply result_bind_Ok in H as (d & _ & H). apply reject_Ok in H as [_ H].
    rewrite rollback_phase_record in H. unfold rollback_resolution_ok.
    destruct rb.(rb_resolution) as [x|]; [|done].
    destruct (rollback_phase x) eqn:Hx; [by unfold rollback_phase in Hx; destruct x.(rr_outcome)|..];
      rewrite bool_decide_true in H by done; done.
  - intros [Hb Hr]. rewrite Hb. cbn [mbind result_bind].
    rewrite (proj2 (rollback_digest_Ok _ _ _ _) (conj Hb eq_refl)). cbn [mbind result_bind].
    rewrite ne_refl_false, rollback_phase_record. unfold rollback_resolution_ok in Hr.
    destruct rb.(rb_resolution) as [x|]; [|done].
    destruct (rollback_phase x) eqn:Hx; [by unfold rollback_phase in Hx; destruct x.(rr_outcome)|..];
      by rewrite bool_decide_true by done.
Qed.

Lemma rollback_status_Ok id r t rb src :
  t.(t_pending_resolution) = None → protocol_transaction_status_from_record id r t = Ok src →
  (∀ s, protocol_rollback_status_from_record id r t rb = Ok s →
     s = rollback_view src rb ∧ rollback_binding_validate_against rb.(rb_binding) src = Ok tt ∧
     rollback_resolution_ok rb.(rb_resolution) src) ∧
  (rollback_binding_validate_against rb.(rb_binding) src = Ok tt → rollback_resolution_ok rb.(rb_resolution) src →
   protocol_rollback_status_from_record id r t rb = Ok (rollback_view src rb)).
Proof.
  intros Hp Hs. unfold protocol_rollback_status_from_record. rewrite Hp, Hs. cbn [mbind result_bind].
  rewrite (bool_decide_false (is_Some None)) by (by intros []).
  assert (∀ s, map_err (λ _, CorruptStore) match rb.(rb_resolution) with
      | Some x => rollback_resolved rb.(rb_rollback_id) src rb.(rb_binding) x
      | None => rollback_pending rb.(rb_rollback_id) src rb.(rb_binding) end = Ok s ↔
    rollback_validate s = Ok tt ∧ s.(rt_phase) = rollback_transaction_phase rb ∧ s.(rollback_id) = rb.(rb_rollback_id) ∧
    s.(rt_source) = src ∧ s.(rt_binding) = rb.(rb_binding) ∧ s.(rt_resolution) = rb.(rb_resolution)) as Hr.
  { intros s. rewrite map_err_Ok, rollback_phase_record. destruct rb.(rb_resolution); apply rollback_new_Ok. }
  split.
  - intros s (Hv & H1 & H2 & H3 & H4 & H5)%Hr.
    assert (s = rollback_view src rb) as ->.
    { pose proof Hv as H. unfold rollback_validate in H. apply result_bind_Ok in H as ([] & _ & H).
      apply result_bind_Ok in H as (d & Hd & H). apply rollback_digest_Ok in Hd as [_ ->].
      apply reject_Ok in H as [Hb _]. guards. destruct s. unfold rollback_view. cbn in *. congruence. }
    split; [done|]. by apply rollback_view_validate.
  - intros Hb Hx. apply Hr. split_and!; try done. by apply rollback_view_validate.
Qed.

(** ** Leases *)

Lemma write_lease_consistent_Some id r t l :
  t.(t_write_lease) = Some l →
  write_lease_is_consistent id r t = true ↔
  ∃ st epoch lease, protocol_transaction_status_from_record id r fresh_transaction = Ok st ∧
    protocol_sha256_str l.(boot_epoch_sha256) = Ok epoch ∧ write_lease_consumed st epoch = Ok lease ∧
    lease.(RepairVault.lease_binding_sha256).(as_str) = l.(lease_binding_sha256).
Proof.
  intros Hl. unfold write_lease_is_consistent. rewrite Hl. split.
  - intros H. case_match eqn:Hm; [|done]. inv_ok Hm. guards. eauto 8.
  - intros (st & epoch & lease & -> & He & Hc & <-). cbn [mbind result_bind]. rewrite He. cbn [mbind result_bind].
    rewrite Hc. cbn [map_err]. apply eq_refl_true.
Qed.

Lemma rollback_lease_consistent_Some id r t rb l :
  rb.(rb_write_lease) = Some l →
  rollback_write_lease_is_consistent id r t rb = true ↔
  ∃ st epoch lease,
    protocol_rollback_status_from_record id r t
      (mkRollbackRecord rb.(rb_rollback_id) rb.(rb_binding) None None None) = Ok st ∧
    protocol_sha256_str l.(boot_epoch_sha256) = Ok epoch ∧ rollback_write_lease_consumed st epoch = Ok lease ∧
    lease.(rl_lease_binding_sha256).(as_str) = l.(lease_binding_sha256).
Proof.
  intros Hl. unfold rollback_write_lease_is_consistent. rewrite Hl. cbv zeta. split.
  - intros H. case_match eqn:Hm; [|done]. inv_ok Hm. guards. eauto 8.
  - intros (st & epoch & lease & -> & He & Hc & <-). cbn [mbind result_bind]. rewrite He. cbn [mbind result_bind].
    rewrite Hc. cbn [map_err]. apply eq_refl_true.
Qed.

End facts.
