(* ===== verification/RepairStoreInvariant.v ===== *)
(** * The invariant of the replayed repair store

    What every accepted event keeps: records carry the checks they were admitted
    with, the one pending operation is the only record in a transitional phase,
    the unresolved singletons name exactly the unresolved transaction or rollback,
    and released reservations never come back. *)

From stdpp Require Import sorting gmap.
From Stdlib.Strings Require Import Byte.
From Stdlib Require String Ascii.
From S2P Require Import Prelude Bytes Text Crypto VaultWire JournalChain RepairVault RepairVaultProperties RepairStoreTypes RepairStoreEvents RepairStoreFacts.

(** What the types of an event guarantee: its numbers are [u64]. *)
Definition event_typed (e : RepairEvent) : Prop :=
  match e with
  | CompactionBegin g c a r _ => is_u64 g ∧ is_u64 c ∧ is_u64 a ∧ is_u64 r
  | CompactionComplete g => is_u64 g
  | ReserveIntent _ d _ c _ _ _ => is_u64 d.(d_backup_size_bytes) ∧ is_u64 d.(d_required_capacity_bytes) ∧ is_u64 c
  | PersistComplete _ _ n => is_u64 n
  | CancelComplete _ (Some n) | RetireComplete _ (Some n) => is_u64 n
  | _ => True
  end.

Section invariant.
Context `{sha : Sha256}.

(** ** One transaction *)

Record rollback_ok (id : ReservationId) (r : ReservationRecord) (t : RepairTransactionRecord)
    (rb : RepairRollbackTransactionRecord) (src : RepairTransactionStatusPayload) : Prop := {
  rk_binding : rollback_binding_validate_against rb.(rb_binding) src = Ok tt;
  rk_resolution : rollback_resolution_ok rb.(rb_resolution) src;
  rk_pending : ∀ p, rb.(rb_pending_resolution) = Some p →
    p.(pr_rollback_transaction_binding_sha256) = (rollback_view src rb).(rollback_transaction_binding_sha256).(as_str) ∧
    p.(pr_expected_phase) = rollback_transaction_phase rb ∧ rollback_transaction_phase rb ≠ Resolved ∧
    rollback_resolution_validate_against p.(pr_resolution) src = Ok tt;
  rk_lease : rollback_write_lease_is_consistent id r t rb = true;
}.

(** A transaction over the durable record [r], whose payload is [bk]. *)
Record tx_ok (id : ReservationId) (r : ReservationRecord) (b : RepairBinding)
    (bk : RepairBackupStatusPayload) (t : RepairTransactionRecord) : Prop := {
  tk_resolution : resolution_ok t.(t_resolution) b;
  tk_pending : ∀ p, t.(t_pending_resolution) = Some p →
    p.(p_transaction_binding_sha256) = (status_view bk b t).(transaction_binding_sha256).(as_str) ∧
    p.(p_expected_phase) = transaction_phase t ∧ transaction_phase t ≠ Resolved ∧
    resolution_validate_against p.(p_resolution) b.(b_execution_intent) = Ok tt;
  tk_lease : write_lease_is_consistent id r t = true;
  tk_rollback : ∀ rb, t.(t_rollback) = Some rb →
    (outcome <$> t.(t_resolution)) = Some CommittedAfter ∧ t.(t_pending_resolution) = None ∧
    rollback_ok id r t rb (status_view bk b t);
}.

Definition rollback_pends (t : RepairTransactionRecord) : bool :=
  is_some_and t.(t_rollback) (λ rb, is_some rb.(rb_pending_resolution)).
Definition resolution_pends (t : RepairTransactionRecord) : bool :=
  is_some t.(t_pending_resolution) || rollback_pends t.

(** ** One reservation

    [p], [u] and [ur] say whether the singletons name it. *)
Definition durable_entry (id : ReservationId) (r : ReservationRecord) (b : RepairBinding)
    (t : RepairTransactionRecord) : Prop :=
  validate_for_record b r = Ok tt ∧
  ∃ bk, protocol_backup_status_from_record id (set_phase (DurablePhase b) r) = Ok bk ∧
    durable bk (binding_view b) ∧ tx_ok id (set_phase (DurablePhase b) r) b bk t.

Definition entry_ok (p u ur : bool) (id : ReservationId) (r : ReservationRecord)
    (t : option RepairTransactionRecord) : Prop :=
  match r.(r_phase) with
  | ReservePending | CancelPending => t = None ∧ p = true ∧ u = false ∧ ur = false
  | ReservedPhase => t = None ∧ p = false ∧ u = false ∧ ur = false
  | PersistPending b => (t = None ∧ p = true ∧ u = false ∧ ur = false) ∧ validate_for_record b r = Ok tt
  | DurablePhase b => ∃ t', t = Some t' ∧ durable_entry id r b t' ∧
      p = resolution_pends t' ∧ u = (transaction_phase t' != Resolved) ∧ ur = rollback_unresolved t'
  | RetirePending b x => ∃ t', t = Some t' ∧ durable_entry id r b t' ∧ t'.(t_resolution) = Some x ∧
      transaction_phase t' = Resolved ∧ resolution_pends t' = false ∧ rollback_unresolved t' = false ∧
      p = true ∧ u = false ∧ ur = false
  end.

(** ** Releases *)

Definition tombstone_ok (clock : Z) (t : ReleaseTombstone) : Prop :=
  record_ok t.(tomb_record) ∧ (0 ≤ t.(released_at_event) ≤ clock)%Z ∧
  match t.(operation), t.(tomb_record).(r_phase) with
  | CancelRelease, CancelPending => True
  | RetireRelease, RetirePending b x =>
      validate_for_record b t.(tomb_record) = Ok tt ∧
      resolution_validate_against x b.(b_execution_intent) = Ok tt ∧ RepairVault.transaction_phase x = Resolved
  | _, _ => False
  end.

(** ** The state *)

Definition names (o : option ReservationId) (id : ReservationId) : bool := bool_decide (o = Some id).

Record Inv (s : RecoveredState) : Prop := {
  inv_record : ∀ id r, s.(reservations) !! id = Some r → record_ok r;
  inv_entry : ∀ id r, s.(reservations) !! id = Some r →
    entry_ok (names s.(pending) id) (names s.(unresolved_transaction) id) (names s.(unresolved_rollback) id)
      id r (s.(transactions) !! id);
  inv_absent : ∀ id, s.(reservations) !! id = None →
    s.(transactions) !! id = None ∧ names s.(pending) id = false ∧
    names s.(unresolved_transaction) id = false ∧ names s.(unresolved_rollback) id = false;
  inv_exclusive : s.(unresolved_transaction) = None ∨ s.(unresolved_rollback) = None;
  inv_released : ∀ id t, s.(released) !! id = Some t →
    s.(reservations) !! id = None ∧ tombstone_ok s.(logical_event_clock) t;
  inv_seen : ∀ id, is_Some (s.(reservations) !! id) ∨ is_Some (s.(released) !! id) → id ∈ s.(seen_reservation_ids);
  inv_capacity : (usize s.(reservations) ≤ MAX_RESERVATIONS)%Z;
  inv_rollback_ids : ∀ id id' t t' rb rb', s.(transactions) !! id = Some t → s.(transactions) !! id' = Some t' →
    t.(t_rollback) = Some rb → t'.(t_rollback) = Some rb' → rb.(rb_rollback_id) = rb'.(rb_rollback_id) → id = id';
  inv_persist : ∀ id r b, s.(reservations) !! id = Some r → r.(r_phase) = PersistPending b →
    s.(unresolved_transaction) = None ∧ s.(unresolved_rollback) = None;
  inv_clock : is_u64 s.(logical_event_clock);
  inv_generation : is_u64 s.(compaction_generation);
}.

Lemma Inv_default : Inv default_state.
Proof.
  split; simpl; try (intros *; rewrite !lookup_empty; done).
  - by left.
  - intros id. rewrite !lookup_empty. by intros [[]|[]].
  - unfold usize. by rewrite map_size_empty.
  - unfold is_u64, U64_MAX. lia.
  - unfold is_u64, U64_MAX. lia.
Qed.

(** ** One reservation changes at a time *)

(** The singleton changes at most between naming [id] and naming nothing. *)
Definition moves (o o' : option ReservationId) (id : ReservationId) : Prop :=
  o' = o ∨ (o = None ∨ o = Some id) ∧ (o' = None ∨ o' = Some id).

(** As above for the pending operation, which has to be free or [id]. *)
Definition held (o o' : option ReservationId) (id : ReservationId) : Prop :=
  (o = None ∨ o = Some id) ∧ (o' = None ∨ o' = Some id).

Lemma held_moves o o' id : held o o' id → moves o o' id.
Proof. by right. Qed.

Lemma moves_names o o' id id' : moves o o' id → id' ≠ id → names o' id' = names o id'.
Proof.
  unfold moves, names. intros Hm Hne. apply bool_decide_ext. naive_solver.
Qed.

(** [s'] differs from [s] only at [id]. *)
Record changes_only (id : ReservationId) (s s' : RecoveredState) : Prop := {
  co_reservations : ∀ id', id' ≠ id → s'.(reservations) !! id' = s.(reservations) !! id';
  co_transactions : ∀ id', id' ≠ id → s'.(transactions) !! id' = s.(transactions) !! id';
  co_released : ∀ id', id' ≠ id → s'.(released) !! id' = s.(released) !! id';
  co_pending : held s.(pending) s'.(pending) id;
  co_unresolved : moves s.(unresolved_transaction) s'.(unresolved_transaction) id;
  co_rollback : moves s.(unresolved_rollback) s'.(unresolved_rollback) id;
  co_seen : s.(seen_reservation_ids) ⊆ s'.(seen_reservation_ids);
  co_clock : s'.(logical_event_clock) = s.(logical_event_clock);
  co_generation : s'.(compaction_generation) = s.(compaction_generation);
}.

(** What the new state must show about [id]. *)
Definition entry_at (s : RecoveredState) (id : ReservationId) : Prop :=
  match s.(reservations) !! id with
  | Some r => record_ok r ∧
      entry_ok (names s.(pending) id) (names s.(unresolved_transaction) id) (names s.(unresolved_rollback) id)
        id r (s.(transactions) !! id)
  | None => s.(transactions) !! id = None ∧ names s.(pending) id = false ∧
      names s.(unresolved_transaction) id = false ∧ names s.(unresolved_rollback) id = false
  end.

Definition release_at (s : RecoveredState) (id : ReservationId) : Prop :=
  ∀ t, s.(released) !! id = Some t → s.(reservations) !! id = None ∧ tombstone_ok s.(logical_event_clock) t.

Definition rollback_fresh (s s' : RecoveredState) (id : ReservationId) : Prop :=
  ∀ t' rb', s'.(transactions) !! id = Some t' → t'.(t_rollback) = Some rb' →
    (∃ t rb, s.(transactions) !! id = Some t ∧ t.(t_rollback) = Some rb ∧ rb.(rb_rollback_id) = rb'.(rb_rollback_id)) ∨
    (∀ id' t rb, s.(transactions) !! id' = Some t → t.(t_rollback) = Some rb → rb.(rb_rollback_id) ≠ rb'.(rb_rollback_id)).

Lemma Inv_change id s s' :
  Inv s → changes_only id s s' → entry_at s' id → release_at s' id → rollback_fresh s s' id →
  (is_Some (s'.(reservations) !! id) ∨ is_Some (s'.(released) !! id) → id ∈ s'.(seen_reservation_ids)) →
  s'.(unresolved_transaction) = None ∨ s'.(unresolved_rollback) = None →
  (∀ r b, s'.(reservations) !! id = Some r → r.(r_phase) = PersistPending b →
     s'.(unresolved_transaction) = None ∧ s'.(unresolved_rollback) = None) →
  (usize s'.(reservations) ≤ MAX_RESERVATIONS)%Z → Inv s'.
Proof.
  intros HI [Cr Ct Cl Ch Cu Cv Cs Cc Cg] He Hrel Hf Hs Hx Hps Hcap. pose proof (held_moves _ _ _ Ch) as Cp. unfold entry_at, release_at, rollback_fresh in *.
  split; [..|rewrite Cc; apply HI|rewrite Cg; apply HI].
  - intros i r Hi. destruct (decide (i = id)) as [->|Hne]; [rewrite Hi in He; apply He|].
    rewrite Cr in Hi by done. by eapply inv_record.
  - intros i r Hi. destruct (decide (i = id)) as [->|Hne]; [rewrite Hi in He; apply He|].
    rewrite Cr in Hi by done. rewrite Ct, (moves_names _ _ _ _ Cp), (moves_names _ _ _ _ Cu), (moves_names _ _ _ _ Cv) by done. by apply inv_entry.
  - intros i Hi. destruct (decide (i = id)) as [->|Hne]; [rewrite Hi in He; apply He|].
    rewrite Cr in Hi by done. rewrite Ct, (moves_names _ _ _ _ Cp), (moves_names _ _ _ _ Cu), (moves_names _ _ _ _ Cv) by done. by apply inv_absent.
  - done.
  - intros i t Hi. destruct (decide (i = id)) as [->|Hne]; [by apply Hrel|].
    rewrite Cl in Hi by done. rewrite Cr, Cc by done. by apply inv_released.
  - intros i Hi. destruct (decide (i = id)) as [->|Hne]; [by apply Hs|].
    rewrite Cr, Cl in Hi by done. apply Cs. by apply inv_seen.
  - done.
  - intros i i' t t' rb rb' Hi Hi' Hrb Hrb' Heq.
    destruct (decide (i = id)) as [->|Hne], (decide (i' = id)) as [->|Hne']; [done|..].
    + rewrite Ct in Hi' by done. destruct (Hf _ _ Hi Hrb) as [(t0 & rb0 & H0 & Hr0 & He0)|Hfr].
      * eapply (inv_rollback_ids s HI id i'); [exact H0|exact Hi'|exact Hr0|exact Hrb'|congruence].
      * by destruct (Hfr _ _ _ Hi' Hrb').
    + rewrite Ct in Hi by done. destruct (Hf _ _ Hi' Hrb') as [(t0 & rb0 & H0 & Hr0 & He0)|Hfr].
      * eapply (inv_rollback_ids s HI i id); [exact Hi|exact H0|exact Hrb|exact Hr0|congruence].
      * by destruct (Hfr _ _ _ Hi Hrb).
    + rewrite Ct in Hi, Hi' by done. by eapply (inv_rollback_ids s HI i i').
  - intros i r b Hi Hb. destruct (decide (i = id)) as [->|Hne]; [by eapply Hps|].
    rewrite Cr in Hi by done. pose proof (inv_entry _ HI _ _ Hi) as Hen. red in Hen. rewrite Hb in Hen.
    destruct Hen as ((_ & Hpe & _) & _). unfold names in Hpe. apply bool_decide_eq_true in Hpe.
    destruct Ch as [[Hn|Hn] _]; congruence.
Qed.

(** The clock advances between events. *)
Lemma Inv_tick s c : Inv s → (s.(logical_event_clock) ≤ c ≤ U64_MAX)%Z → Inv (set_clock c s).
Proof.
  intros [H1 H2 H3 H4 H5 H6 H7 H8 H8' H9 H10] Hc. split; try done.
  - intros id t Ht. destruct (H5 id t Ht) as [Hr (Ho & Ha & Hm)]. split; [done|]. split_and!; [done|..|done]; simpl; lia.
  - unfold is_u64 in *. simpl. lia.
Qed.

End invariant.
