(* ===== verification/RepairStorePreservation.v ===== *)
(** * Every accepted event keeps the invariant of the repair store *)

From stdpp Require Import sorting gmap.
From Stdlib.Strings Require Import Byte.
From Stdlib Require String Ascii.
From S2P Require Import Prelude Bytes Text Crypto VaultWire JournalChain RepairVault RepairVaultProperties RepairStoreTypes RepairStoreEvents RepairStoreFacts RepairStoreInvariant.

(** ** Reading the guards of an event *)

Lemma is_some_false {A} (o : option A) : is_some o = false → o = None.
Proof. by destruct o. Qed.
Lemma is_some_true {A} (o : option A) : is_some o = true → ∃ a, o = Some a.
Proof. destruct o; [eauto|done]. Qed.

Lemma durable_phase_1 {A} (p : ReservationPhase) (f : RepairBinding → method RecoveredState RepairVaultStoreError A) s s' a :
  ((match p with DurablePhase b => mret b | _ => throw CorruptJournal end) ≫= f) s = (s', Ok a) →
  ∃ b, p = DurablePhase b ∧ f b s = (s', Ok a).
Proof. destruct p; try done. eauto. Qed.
Lemma persist_phase_1 {A} (p : ReservationPhase) (f : RepairBinding → method RecoveredState RepairVaultStoreError A) s s' a :
  ((match p with PersistPending b => mret b | _ => throw CorruptJournal end) ≫= f) s = (s', Ok a) →
  ∃ b, p = PersistPending b ∧ f b s = (s', Ok a).
Proof. destruct p; try done. eauto. Qed.

(** Inverts an accepted event into the facts its guards established. *)
Ltac accepted H :=
  repeat (inv_run H; cbv zeta in H;
    lazymatch type of H with
    | mbind _ (match ?p with ReservePending => _ | _ => _ end) _ = _ =>
        let b := fresh "b" in let C := fresh "Hphase" in
        first [apply durable_phase_1 in H as (b & C & H) | apply persist_phase_1 in H as (b & C & H)]
    | _ => fail
    end);
  inv_run H;
  repeat match goal with
  | C : map_err _ _ = Ok _ |- _ => apply map_err_Ok_1 in C
  | C : ok_or _ _ = Ok _ |- _ => apply ok_or_Ok_1 in C
  end;
  guards;
  repeat match goal with
  | C : is_some _ = false |- _ => apply is_some_false in C
  | C : has_key _ _ = false |- _ => unfold has_key in C; apply is_some_false in C
  end.

Lemma phase_matches_true f id s :
  phase_matches f id s = true → ∃ r, s.(reservations) !! id = Some r ∧ f r.(r_phase) = true.
Proof. unfold phase_matches. apply is_some_and_true. Qed.

Lemma names_Some id : names (Some id) id = true.
Proof. by apply bool_decide_true. Qed.
Lemma names_None id : names None id = false.
Proof. by apply bool_decide_false. Qed.

(** ** Shapes of changes *)

Ltac lookups := repeat first
  [ rewrite lookup_insert_eq | rewrite lookup_delete_eq
  | rewrite lookup_insert_ne by (done || congruence) | rewrite lookup_delete_ne by (done || congruence) ].

Ltac only_at :=
  split; simpl; intros; lookups; unfold moves, held; try done; try set_solver;
  first [by left | by right; split; auto | naive_solver].

Lemma usize_insert {V} id (v : V) m : is_Some (m !! id) → usize (<[id := v]> m) = usize m.
Proof. intros H. unfold usize. by rewrite map_size_insert_Some. Qed.
Lemma usize_insert_new {V} id (v : V) m : m !! id = None → usize (<[id := v]> m) = (usize m + 1)%Z.
Proof. intros H. unfold usize. rewrite map_size_insert_None by done. lia. Qed.
Lemma usize_delete {V} id (m : gmap ReservationId V) : (usize (delete id m) ≤ usize m)%Z.
Proof. unfold usize. rewrite map_size_delete. destruct (m !! id); simpl; lia. Qed.

Section preservation.
Context `{sha : Sha256}.

Lemma reserve_intent_inv id d b c v i p s s' :
  Inv s → (0 ≤ d.(d_backup_size_bytes))%Z → apply_reserve_intent id d b c v i p s = (s', Ok tt) → Inv s'.
Proof.
  intros HI Hd H. unfold apply_reserve_intent in H. accepted H. subst.
  destruct (inv_absent _ HI id) as (Ht & Hp & Hu & Hv); [done|].
  apply (Inv_change id s).
  - done.
  - only_at.
  - red. simpl. lookups. split; [by split|]. red. simpl. rewrite names_Some. done.
  - red. simpl. lookups. intros t Ht'. congruence.
  - red. simpl. intros ?? Hx. congruence.
  - simpl. set_solver.
  - simpl. apply HI.
  - simpl. lookups. intros ?? [= <-]. done.
  - simpl. rewrite usize_insert_new by done. rewrite Z.leb_gt in *. lia.
Qed.

(** A record that moves to another phase while its transaction stays. *)
Lemma phase_change id r p q s :
  Inv s → s.(reservations) !! id = Some r → held s.(pending) p id →
  entry_ok (names p id) (names s.(unresolved_transaction) id) (names s.(unresolved_rollback) id) id
    (set_phase q r) (s.(transactions) !! id) →
  (∀ b, q = PersistPending b → s.(unresolved_transaction) = None ∧ s.(unresolved_rollback) = None) →
  Inv (set_pending p (set_reservations <[id := set_phase q r]> s)).
Proof.
  intros HI Hr Hm He Hq. pose proof (inv_record _ HI _ _ Hr) as Hok. apply (Inv_change id s).
  - done.
  - split; simpl; intros; lookups; try done; try (by left).
  - red. simpl. lookups. split; [by apply record_ok_phase|done].
  - red. simpl. lookups. intros t Ht. destruct (inv_released _ HI _ _ Ht). congruence.
  - red. simpl. intros t' rb' Ht' Hrb'. left. eauto.
  - simpl. intros _. apply (inv_seen _ HI). left. eauto.
  - apply HI.
  - simpl. lookups. intros ? b [= <-]. simpl. by apply Hq.
  - simpl. rewrite usize_insert by eauto. apply HI.
Qed.

(** A transaction that changes while its record stays. *)
Lemma transaction_change id r t t' p u ur s :
  Inv s → s.(reservations) !! id = Some r → s.(transactions) !! id = Some t →
  held s.(pending) p id → moves s.(unresolved_transaction) u id → moves s.(unresolved_rollback) ur id →
  entry_ok (names p id) (names u id) (names ur id) id r (Some t') →
  (∀ rb', t'.(t_rollback) = Some rb' →
    (∃ rb, t.(t_rollback) = Some rb ∧ rb.(rb_rollback_id) = rb'.(rb_rollback_id)) ∨
    (∀ id' t rb, s.(transactions) !! id' = Some t → t.(t_rollback) = Some rb → rb.(rb_rollback_id) ≠ rb'.(rb_rollback_id))) →
  u = None ∨ ur = None →
  Inv (set_pending p (set_unresolved_transaction u (set_unresolved_rollback ur
    (set_transactions <[id := t']> s)))).
Proof.
  intros HI Hr Ht Hp Hu Hur He Hf Hx. pose proof (inv_record _ HI _ _ Hr) as Hok. apply (Inv_change id s).
  - done.
  - split; simpl; intros; lookups; done.
  - red. simpl. lookups. rewrite Hr. done.
  - red. simpl. apply (inv_released _ HI).
  - red. simpl. lookups. intros t0 rb' [= <-] Hrb'. destruct (Hf _ Hrb') as [(rb & ? & ?)|]; eauto 8.
  - simpl. apply (inv_seen _ HI).
  - done.
  - simpl. rewrite Hr. intros ? b [= <-] Hb. red in He. rewrite Hb in He. by destruct He as ((? & _) & _).
  - apply HI.
Qed.

Lemma moves_same o id : moves o o id.
Proof. by left. Qed.
Lemma moves_local o o' id : (o = None ∨ o = Some id) → (o' = None ∨ o' = Some id) → moves o o' id.
Proof. by right. Qed.
Lemma held_local o o' id : (o = None ∨ o = Some id) → (o' = None ∨ o' = Some id) → held o o' id.
Proof. by split. Qed.
#[local] Hint Resolve moves_same : core.

Lemma reserve_complete_inv id s s' : Inv s → apply_reserve_complete id s = (s', Ok tt) → Inv s'.
Proof.
  intros HI H. unfold apply_reserve_complete in H. accepted H.
  match goal with H : s.(reservations) !! id = Some ?x |- _ => rename H into Hr; rename x into r end.
  pose proof (inv_entry _ HI _ _ Hr) as He. red in He. destruct r.(r_phase) eqn:Hph; try done.
  destruct He as (Ht & _ & Hu & Hur). apply phase_change; [done|done|apply held_local; auto|..].
  - rewrite names_None. red. simpl. done.
  - done.
Qed.

Lemma reserve_abort_inv id s s' : Inv s → apply_reserve_abort id s = (s', Ok tt) → Inv s'.
Proof.
  intros HI H. unfold apply_reserve_abort in H. accepted H.
  match goal with H : phase_matches _ _ _ = true |- _ => apply phase_matches_true in H as (r & Hr & Hph) end.
  pose proof (inv_entry _ HI _ _ Hr) as He. red in He. destruct r.(r_phase) eqn:Hph'; try done.
  destruct He as (Ht & _ & Hu & Hur). apply (Inv_change id s).
  - done.
  - only_at.
  - red. simpl. lookups. by rewrite names_None.
  - red. simpl. lookups. intros t Htt. destruct (inv_released _ HI _ _ Htt). done.
  - red. simpl. intros ?? Hx. congruence.
  - simpl. lookups. intros [[]|Hx]; [done|]. apply (inv_seen _ HI). auto.
  - apply HI.
  - simpl. by lookups.
  - simpl. etrans; [apply usize_delete|apply HI].
Qed.

Lemma persist_intent_inv id b s s' : Inv s → apply_persist_intent id b s = (s', Ok tt) → Inv s'.
Proof.
  intros HI H. unfold apply_persist_intent in H. accepted H.
  match goal with H : s.(reservations) !! id = Some ?x |- _ => rename H into Hr; rename x into r end.
  pose proof (inv_entry _ HI _ _ Hr) as He. red in He. destruct r.(r_phase) eqn:Hph; try done.
  destruct He as (Ht & _ & Hu & Hur). apply phase_change; [done|done|apply held_local; auto|..].
  - rewrite names_Some. red. simpl. rewrite validate_for_record_phase. done.
  - done.
Qed.

Lemma persist_abort_inv id s s' : Inv s → apply_persist_abort id s = (s', Ok tt) → Inv s'.
Proof.
  intros HI H. unfold apply_persist_abort in H. accepted H.
  match goal with H : s.(reservations) !! id = Some ?x |- _ => rename H into Hr; rename x into r end.
  pose proof (inv_entry _ HI _ _ Hr) as He. red in He. destruct r.(r_phase) eqn:Hph; try done.
  destruct He as ((Ht & _ & Hu & Hur) & _). apply phase_change; [done|done|apply held_local; auto|..].
  - rewrite names_None. red. simpl. done.
  - done.
Qed.

Lemma cancel_intent_inv id s s' : Inv s → apply_cancel_intent id s = (s', Ok tt) → Inv s'.
Proof.
  intros HI H. unfold apply_cancel_intent in H. accepted H.
  match goal with H : phase_matches _ _ _ = true |- _ => apply phase_matches_true in H as (r' & Hr & Hph) end.
  match goal with H : s.(reservations) !! id = Some ?r |- _ => assert (r = r') as -> by congruence end.
  pose proof (inv_entry _ HI _ _ Hr) as He. red in He. destruct r'.(r_phase) eqn:Hph'; try done.
  destruct He as (Ht & _ & Hu & Hur).
  apply (phase_change id r' (Some id) CancelPending s HI Hr); [apply held_local; auto|..].
  - rewrite names_Some. red. simpl. done.
  - done.
Qed.

Lemma retire_intent_inv id s s' : Inv s → apply_retire_intent id s = (s', Ok tt) → Inv s'.
Proof.
  intros HI H. unfold apply_retire_intent in H. accepted H.
  match goal with H : s.(reservations) !! id = Some ?x |- _ => rename H into Hr; rename x into r end.
  match goal with H : s.(transactions) !! id = Some ?x |- _ => rename H into Ht; rename x into t end.
  pose proof (inv_entry _ HI _ _ Hr) as He. red in He. rewrite Hphase, Ht in He.
  destruct He as (t' & [= <-] & Hd & Hp & Hu & Hur). unfold retire_blocked in *. guards.
  apply phase_change; [done|done|apply held_local; auto| |done]. rewrite names_Some.
  red. simpl. rewrite Ht. exists t. split_and!; try done.
  - match goal with H : s.(pending) = None |- _ => rewrite H, names_None in Hp end. done.
  - rewrite Hu. apply bool_decide_eq_false. intros Hx. done.
  - by rewrite Hur.
Qed.

(** ** Transactions *)

Lemma status_same id r t t' :
  t.(t_resolution) = t'.(t_resolution) →
  protocol_transaction_status_from_record id r t = protocol_transaction_status_from_record id r t'.
Proof. unfold protocol_transaction_status_from_record. by intros ->. Qed.

Lemma rollback_status_same id r t t' rb rb' :
  t.(t_resolution) = t'.(t_resolution) → t.(t_pending_resolution) = t'.(t_pending_resolution) →
  rb.(rb_rollback_id) = rb'.(rb_rollback_id) → rb.(rb_binding) = rb'.(rb_binding) →
  rb.(rb_resolution) = rb'.(rb_resolution) →
  protocol_rollback_status_from_record id r t rb = protocol_rollback_status_from_record id r t' rb'.
Proof. unfold protocol_rollback_status_from_record, protocol_transaction_status_from_record. by intros -> -> -> -> ->. Qed.

Lemma rollback_lease_same id r t t' rb rb' :
  t.(t_resolution) = t'.(t_resolution) → t.(t_pending_resolution) = t'.(t_pending_resolution) →
  rb.(rb_rollback_id) = rb'.(rb_rollback_id) → rb.(rb_binding) = rb'.(rb_binding) →
  rb.(rb_write_lease) = rb'.(rb_write_lease) →
  rollback_write_lease_is_consistent id r t rb = rollback_write_lease_is_consistent id r t' rb'.
Proof.
  intros Ht Hp Hi Hb Hl. unfold rollback_write_lease_is_consistent. rewrite Hl, Hi, Hb.
  by rewrite (rollback_status_same id r t t' _ (mkRollbackRecord rb'.(rb_rollback_id) rb'.(rb_binding) None None None)).
Qed.

Lemma phase_same t t' : t.(t_resolution) = t'.(t_resolution) → transaction_phase t = transaction_phase t'.
Proof. unfold transaction_phase. by intros ->. Qed.

Lemma committed_resolved t : (outcome <$> t.(t_resolution)) = Some CommittedAfter → transaction_phase t = Resolved.
Proof. unfold transaction_phase. by intros ->. Qed.

(** A durable reservation and everything known about it. *)
Record durable_at (s : RecoveredState) (id : ReservationId) (r : ReservationRecord) (b : RepairBinding)
    (bk : RepairBackupStatusPayload) (t : RepairTransactionRecord) : Prop := {
  da_reservation : s.(reservations) !! id = Some r;
  da_phase : r.(r_phase) = DurablePhase b;
  da_transaction : s.(transactions) !! id = Some t;
  da_bound : validate_for_record b r = Ok tt;
  da_backup : protocol_backup_status_from_record id r = Ok bk;
  da_durable : durable bk (binding_view b);
  da_tx : tx_ok id r b bk t;
  da_pends : names s.(pending) id = resolution_pends t;
  da_unresolved : names s.(unresolved_transaction) id = (transaction_phase t != Resolved);
  da_rollback : names s.(unresolved_rollback) id = rollback_unresolved t;
}.

Lemma durable_facts s id r b :
  Inv s → s.(reservations) !! id = Some r → r.(r_phase) = DurablePhase b → ∃ bk t, durable_at s id r b bk t.
Proof.
  intros HI Hr Hph. pose proof (inv_entry _ HI _ _ Hr) as He. red in He. rewrite Hph in He.
  destruct He as (t & Ht & [Hb (bk & Hbk & Hd & Htx)] & Hp & Hu & Hur).
  rewrite (set_phase_same _ _ Hph) in *. exists bk, t. by split.
Qed.

Lemma durable_entry_ok s id r b bk t t' p u ur :
  durable_at s id r b bk t → tx_ok id r b bk t' → p = resolution_pends t' →
  u = (transaction_phase t' != Resolved) → ur = rollback_unresolved t' → entry_ok p u ur id r (Some t').
Proof.
  intros [] Htx -> -> ->. red. rewrite da_phase0. exists t'. split_and!; try done.
  split; [done|]. exists bk. by rewrite (set_phase_same _ _ da_phase0).
Qed.

Lemma names_eq o id : o = Some id → names o id = true.
Proof. intros ->. apply names_Some. Qed.
Lemma names_none o id : o = None → names o id = false.
Proof. intros ->. apply names_None. Qed.

(** An unresolved transaction has no rollback yet. *)
Lemma unresolved_no_rollback id r b bk t : tx_ok id r b bk t → transaction_phase t ≠ Resolved → t.(t_rollback) = None.
Proof.
  intros [_ _ _ Hrb] Hp. destruct t.(t_rollback) as [rb|]; [|done].
  destruct (Hrb _ eq_refl) as (Hc & _). by apply committed_resolved in Hc.
Qed.

Lemma unresolved_phase s id r b bk t :
  durable_at s id r b bk t → s.(unresolved_transaction) = Some id → transaction_phase t ≠ Resolved.
Proof.
  intros [] Hu Hp. rewrite (names_eq _ _ Hu), Hp, ne_refl_false in da_unresolved0. done.
Qed.

Lemma persist_complete_inv id h n s s' : Inv s → apply_persist_complete id h n s = (s', Ok tt) → Inv s'.
Proof.
  intros HI H. unfold apply_persist_complete in H. accepted H.
  match goal with H : s.(reservations) !! id = Some ?x |- _ => rename H into Hr; rename x into r end.
  pose proof (inv_entry _ HI _ _ Hr) as He. red in He. rewrite Hphase in He.
  destruct He as ((Ht & _ & Hu & Hur) & Hb). destruct (inv_persist _ HI _ _ _ Hr Hphase) as [Hun Hrn].
  pose proof (inv_record _ HI _ _ Hr) as Hok.
  destruct (backup_status_durable id r b Hok Hb) as (bk & Hd & Hst).
  apply (Inv_change id s).
  - done.
  - only_at.
  - red. simpl. lookups. split; [by apply record_ok_phase|]. rewrite names_None, names_Some. red. simpl.
    exists fresh_transaction. split_and!; try done. split; [done|]. exists bk. rewrite set_phase_twice.
    split_and!; [apply Hst; auto|done|]. split; done.
  - red. simpl. lookups. intros t Htt. destruct (inv_released _ HI _ _ Htt). congruence.
  - red. simpl. lookups. by intros t' rb' [= <-].
  - simpl. intros _. apply (inv_seen _ HI). left. eauto.
  - simpl. auto.
  - simpl. lookups. by intros ?? [= <-].
  - simpl. rewrite usize_insert by eauto. apply HI.
Qed.

Lemma transaction_lease_inv id tb e lb s s' :
  Inv s → apply_transaction_write_lease_consume id tb e lb s = (s', Ok tt) → Inv s'.
Proof.
  intros HI H. unfold apply_transaction_write_lease_consume in H. accepted H.
  match goal with H : s.(reservations) !! id = Some ?x |- _ => rename H into Hr; rename x into r end.
  match goal with H : s.(transactions) !! id = Some ?x |- _ => rename H into Ht; rename x into t end.
  destruct (durable_facts _ _ _ _ HI Hr Hphase) as (bk & t' & D). pose proof D as []. assert (t' = t) as -> by congruence.
  pose proof (unresolved_no_rollback _ _ _ _ _ da_tx0 (unresolved_phase _ _ _ _ _ _ D ltac:(done))) as Hnr.
  match goal with H : t.(t_resolution) = None |- _ => rename H into Hres end.
  match goal with H : protocol_transaction_status_from_record _ _ _ = Ok ?x |- _ => rename H into Hst; rename x into st end.
  rewrite (status_same _ _ _ fresh_transaction Hres) in Hst.
  match goal with |- Inv (set_transactions _ _) =>
    apply (transaction_change id r t _ s.(pending) s.(unresolved_transaction) s.(unresolved_rollback) s) end;
    try done; [by apply held_local; auto|..].
  - eapply durable_entry_ok; try done. destruct da_tx0 as [K1 K2 K3 K4]. split; try done.
    + eapply write_lease_consistent_Some; [done|]. eauto 8.
    + intros rb Hrb. cbn in Hrb. congruence.
  - intros rb Hrb. cbn in Hrb. congruence.
  - apply HI.
Qed.

Lemma transaction_resolve_intent_inv id tb ph x s s' :
  Inv s → apply_transaction_resolve_intent id tb ph x s = (s', Ok tt) → Inv s'.
Proof.
  intros HI H. unfold apply_transaction_resolve_intent in H. accepted H.
  match goal with H : s.(reservations) !! id = Some ?x |- _ => rename H into Hr; rename x into r end.
  match goal with H : s.(transactions) !! id = Some ?x |- _ => rename H into Ht; rename x into t end.
  destruct (durable_facts _ _ _ _ HI Hr Hphase) as (bk & t' & D). pose proof D as []. assert (t' = t) as -> by congruence.
  pose proof (unresolved_phase _ _ _ _ _ _ D ltac:(done)) as Hnp.
  pose proof (unresolved_no_rollback _ _ _ _ _ da_tx0 Hnp) as Hnr.
  match goal with H : protocol_transaction_status_from_record _ _ _ = Ok ?x |- _ => rename H into Hst; rename x into st end.
  apply (proj1 (transaction_status_Ok id r bk b t da_backup0 da_durable0)) in Hst as [-> _].
  match goal with H : validate_resolution_against_intent _ _ = _ |- _ => apply validate_resolution_Ok in H end.
  apply (transaction_change id r t _ (Some id) s.(unresolved_transaction) s.(unresolved_rollback) s);
    try done; [by apply held_local; auto|..].
  - rewrite names_Some. eapply durable_entry_ok; try done. destruct da_tx0 as [K1 K2 K3 K4]. split; try done.
    + intros p [= <-]. cbn. split_and!; try done; by subst.
    + intros rb Hrb. cbn in Hrb. congruence.
  - intros rb Hrb. cbn in Hrb. congruence.
  - apply HI.
Qed.

(** Only a durable reservation is ever unresolved. *)
Lemma named_durable s id r :
  Inv s → s.(reservations) !! id = Some r →
  s.(unresolved_transaction) = Some id ∨ s.(unresolved_rollback) = Some id → ∃ b, r.(r_phase) = DurablePhase b.
Proof.
  intros HI Hr Hn. pose proof (inv_entry _ HI _ _ Hr) as He. red in He.
  destruct Hn as [Hn|Hn]; rewrite (names_eq _ _ Hn) in He; destruct r.(r_phase); naive_solver.
Qed.

Lemma transaction_resolve_complete_inv id tb s s' :
  Inv s → apply_transaction_resolve_complete id tb s = (s', Ok tt) → Inv s'.
Proof.
  intros HI H. unfold apply_transaction_resolve_complete in H. accepted H.
  match goal with H : s.(reservations) !! id = Some ?x |- _ => rename H into Hr; rename x into r end.
  match goal with H : s.(transactions) !! id = Some ?x |- _ => rename H into Ht; rename x into t end.
  match goal with H : t.(t_pending_resolution) = Some ?x |- _ => rename H into Hp; rename x into p end.
  match goal with H : s.(unresolved_transaction) = Some id |- _ => rename H into Hu end.
  destruct (named_durable s id r HI Hr (or_introl Hu)) as [b Hph].
  destruct (durable_facts _ _ _ _ HI Hr Hph) as (bk & t' & D). pose proof D as []. assert (t' = t) as -> by congruence.
  pose proof (unresolved_phase _ _ _ _ _ _ D Hu) as Hnp.
  pose proof (unresolved_no_rollback _ _ _ _ _ da_tx0 Hnp) as Hnr.
  destruct (tk_pending _ _ _ _ _ da_tx0 _ Hp) as (_ & _ & _ & Hval).
  set (t2 := set_resolution (Some p.(p_resolution)) (set_pending_resolution None t)).
  assert (tx_ok id r b bk t2) as Htx2.
  { destruct da_tx0 as [K1 K2 K3 K4]. split; try done. intros rb Hrb. cbn in Hrb. congruence. }
  assert (Inv (set_pending None (set_unresolved_transaction
      (if transaction_phase t2 == Resolved then None else Some id)
      (set_unresolved_rollback s.(unresolved_rollback) (set_transactions <[id := t2]> s))))) as Hgoal.
  { apply (transaction_change id r t); try done.
    - by apply held_local; auto.
    - apply moves_local; [by right|]. destruct (transaction_phase t2 == Resolved); auto.
    - eapply durable_entry_ok; try done.
      + unfold resolution_pends, rollback_pends, t2. cbn. by rewrite Hnr.
      + destruct (decide (transaction_phase t2 = Resolved)) as [Hc|Hc].
        * rewrite Hc, ne_refl_false, eq_refl_true. apply names_None.
        * rewrite bool_decide_false, (bool_decide_true (_ ≠ _)) by done. apply names_Some.
    - intros rb Hrb. cbn in Hrb. congruence.
    - destruct (inv_exclusive _ HI) as [He|He]; [congruence|by right]. }
  destruct (transaction_phase t2 == Resolved) eqn:Hc.
  - exact Hgoal.
  - destruct s. cbn in *. by rewrite Hu.
Qed.

(** ** Rollbacks *)

Lemma tx_ok_rollback id r b bk t rb :
  tx_ok id r b bk t → (outcome <$> t.(t_resolution)) = Some CommittedAfter → t.(t_pending_resolution) = None →
  rollback_ok id r t rb (status_view bk b t) → tx_ok id r b bk (set_rollback (Some rb) t).
Proof.
  intros [K1 K2 K3 K4] Hc Hp [L1 L2 L3 L4]. split; try done.
  intros rb0 [= <-]. by split_and!.
Qed.

(** The committed transaction whose rollback is unresolved. *)
Lemma rollback_facts s id r t rb :
  Inv s → s.(reservations) !! id = Some r → s.(transactions) !! id = Some t → t.(t_rollback) = Some rb →
  s.(unresolved_rollback) = Some id →
  ∃ b bk, durable_at s id r b bk t ∧ rollback_ok id r t rb (status_view bk b t) ∧
    (outcome <$> t.(t_resolution)) = Some CommittedAfter ∧ t.(t_pending_resolution) = None ∧
    s.(unresolved_transaction) = None ∧
    protocol_transaction_status_from_record id r t = Ok (status_view bk b t).
Proof.
  intros HI Hr Ht Hrb Hu. destruct (named_durable s id r HI Hr (or_intror Hu)) as [b Hph].
  destruct (durable_facts _ _ _ _ HI Hr Hph) as (bk & t' & D). pose proof D as []. assert (t' = t) as -> by congruence.
  destruct (tk_rollback _ _ _ _ _ da_tx0 _ Hrb) as (Hc & Hp & Hok). exists b, bk. split_and!; try done.
  - destruct (inv_exclusive _ HI); congruence.
  - apply (transaction_status_Ok id r bk b t da_backup0 da_durable0), da_tx0.
Qed.

(** A rollback that changes while it stays the child of its transaction. *)
Lemma rollback_change id r b bk t rb rb' p ur s :
  Inv s → durable_at s id r b bk t → t.(t_rollback) = Some rb → s.(unresolved_transaction) = None →
  s.(unresolved_rollback) = Some id → rb'.(rb_rollback_id) = rb.(rb_rollback_id) →
  held s.(pending) p id → (ur = None ∨ ur = Some id) →
  tx_ok id r b bk (set_rollback (Some rb') t) → names p id = is_some rb'.(rb_pending_resolution) →
  t.(t_pending_resolution) = None → names ur id = (rollback_transaction_phase rb' != Resolved) →
  Inv (set_pending p (set_unresolved_transaction s.(unresolved_transaction) (set_unresolved_rollback ur
    (set_transactions <[id := set_rollback (Some rb') t]> s)))).
Proof.
  intros HI D Hrb Hut Hur Hid Hp Hmv Htx Hn Hpn Hph. pose proof D as [].
  apply (transaction_change id r t); try done.
  - apply moves_local; [by right|done].
  - eapply durable_entry_ok; try done. unfold resolution_pends, rollback_pends. cbn. by rewrite Hn, Hpn.
  - intros rb0 [= <-]. left. by exists rb.
  - by left.
Qed.

Lemma rollback_begin_inv id sb rid rt b s s' :
  Inv s → apply_rollback_begin id sb rid rt b s = (s', Ok tt) → Inv s'.
Proof.
  intros HI H. unfold apply_rollback_begin in H. accepted H.
  match goal with H : s.(reservations) !! id = Some ?x |- _ => rename H into Hr; rename x into r end.
  match goal with H : s.(transactions) !! id = Some ?x |- _ => rename H into Ht; rename x into t end.
  match goal with H : existsb _ _ = false |- _ => rename H into Hex end.
  assert (∃ b, r.(r_phase) = DurablePhase b) as [bi Hph] by (destruct r.(r_phase); naive_solver).
  destruct (durable_facts _ _ _ _ HI Hr Hph) as (bk & t' & D). pose proof D as []. assert (t' = t) as -> by congruence.
  match goal with H : protocol_transaction_status_from_record _ _ _ = Ok ?x |- _ => rename H into Hst; rename x into st end.
  apply (proj1 (transaction_status_Ok id r bk bi t da_backup0 da_durable0)) in Hst as [-> _].
  match goal with H : rollback_binding_validate_against _ _ = _ |- _ => rename H into Hbi end.
  pose proof (proj1 (rollback_binding_Ok _ _) Hbi) as (g & res & Hco & _).
  apply (transaction_change id r t _ s.(pending) s.(unresolved_transaction) (Some id) s);
    try done; [by apply held_local; auto|by apply moves_local; auto|..].
  - rewrite names_Some. eapply durable_entry_ok; try done; [|by rewrite da_pends0; unfold resolution_pends, rollback_pends; cbn;
      repeat match goal with H : _ = None |- _ => rewrite H end].
    apply tx_ok_rollback; try done.
    pose proof (co_resolution _ _ Hco) as Hcr. cbn in Hcr. by rewrite Hcr.
  - intros rb' [= <-]. right. intros id' t0 rb Ht0 Hrb0.
    pose proof (proj1 (existsb_btree_iter _ _) Hex _ _ Ht0) as Hf. cbn in Hf. rewrite Hrb0 in Hf. cbn in Hf.
    by apply bool_decide_eq_false in Hf.
  - by left.
Qed.

Lemma rollback_lease_inv id rid rt e lb s s' :
  Inv s → apply_rollback_write_lease_consume id rid rt e lb s = (s', Ok tt) → Inv s'.
Proof.
  intros HI H. unfold apply_rollback_write_lease_consume in H. accepted H.
  match goal with H : s.(reservations) !! id = Some ?x |- _ => rename H into Hr; rename x into r end.
  match goal with H : s.(transactions) !! id = Some ?x |- _ => rename H into Ht; rename x into t end.
  match goal with H : t.(t_rollback) = Some ?x |- _ => rename H into Hrb; rename x into rb end.
  match goal with H : s.(unresolved_rollback) = Some id |- _ => rename H into Hur end.
  destruct (rollback_facts s id r t rb HI Hr Ht Hrb Hur) as (b & bk & D & [L1 L2 L3 L4] & Hc & Hp & Hun & Hst).
  match goal with H : rb.(rb_resolution) = None |- _ => rename H into Hres end.
  match goal with H : protocol_rollback_status_from_record _ _ _ _ = Ok ?x |- _ => rename H into Hrs; rename x into st end.
  rewrite (rollback_status_same _ _ _ t _ (mkRollbackRecord rb.(rb_rollback_id) rb.(rb_binding) None None None)) in Hrs by done.
  assert (s.(pending) = None) as Hpe by done.
  set (rb' := set_rollback_lease (Some (mkLease e lb)) rb).
  pose proof (rollback_change id r b bk t rb rb' s.(pending) s.(unresolved_rollback) s HI D Hrb Hun Hur) as G.
  rewrite Hpe, Hun, Hur in G. destruct s. cbn in *. subst. apply G.
  - done.
  - apply held_local; auto.
  - by right.
  - apply tx_ok_rollback; [apply D|done|done|]. split; try done.
    eapply (rollback_lease_consistent_Some _ _ _ _ (mkLease e _)); [done|]. eauto 8.
  - rewrite names_None. symmetry. cbn. by repeat match goal with H : _ = None |- _ => rewrite H end.
  - done.
  - rewrite names_Some. unfold rollback_transaction_phase. cbn. by rewrite Hres.
Qed.

Lemma rollback_resolve_intent_inv id rid rt ph x s s' :
  Inv s → apply_rollback_resolve_intent id rid rt ph x s = (s', Ok tt) → Inv s'.
Proof.
  intros HI H. unfold apply_rollback_resolve_intent in H. accepted H.
  match goal with H : s.(reservations) !! id = Some ?x |- _ => rename H into Hr; rename x into r end.
  match goal with H : s.(transactions) !! id = Some ?x |- _ => rename H into Ht; rename x into t end.
  match goal with H : t.(t_rollback) = Some ?x |- _ => rename H into Hrb; rename x into rb end.
  match goal with H : s.(unresolved_rollback) = Some id |- _ => rename H into Hur end.
  destruct (rollback_facts s id r t rb HI Hr Ht Hrb Hur) as (b & bk & D & [L1 L2 L3 L4] & Hc & Hp & Hun & Hst).
  match goal with H : protocol_rollback_status_from_record _ _ _ _ = Ok ?x |- _ => rename H into Hrs; rename x into st end.
  apply (proj1 (rollback_status_Ok id r t rb _ Hp Hst)) in Hrs as (-> & _ & _).
  match goal with H : rollback_resolution_validate_against _ _ = _ |- _ => rename H into Hval end.
  assert (s.(pending) = None) as Hpe by done.
  set (rb' := set_rollback_pending (Some (mkPendingRollback rt ph x)) rb).
  pose proof (rollback_change id r b bk t rb rb' (Some id) s.(unresolved_rollback) s HI D Hrb Hun Hur) as G.
  rewrite Hpe, Hun, Hur in G. destruct s. cbn in *. subst. apply G.
  - done.
  - apply held_local; auto.
  - by right.
  - apply tx_ok_rollback; [apply D|done|done|]. split; try done. intros p [= <-]. by cbn.
  - apply names_Some.
  - done.
  - rewrite names_Some. symmetry. by apply bool_decide_true.
Qed.

Lemma rollback_resolve_complete_inv id rid rt s s' :
  Inv s → apply_rollback_resolve_complete id rid rt s = (s', Ok tt) → Inv s'.
Proof.
  intros HI H. unfold apply_rollback_resolve_complete in H. accepted H.
  match goal with H : s.(reservations) !! id = Some ?x |- _ => rename H into Hr; rename x into r end.
  match goal with H : s.(transactions) !! id = Some ?x |- _ => rename H into Ht; rename x into t end.
  match goal with H : t.(t_rollback) = Some ?x |- _ => rename H into Hrb; rename x into rb end.
  match goal with H : s.(unresolved_rollback) = Some id |- _ => rename H into Hur end.
  match goal with H : rb.(rb_pending_resolution) = Some ?x |- _ => rename H into Hpd; rename x into p end.
  destruct (rollback_facts s id r t rb HI Hr Ht Hrb Hur) as (b & bk & D & [L1 L2 L3 L4] & Hc & Hp & Hun & Hst).
  destruct (L3 _ Hpd) as (_ & _ & _ & Hval).
  set (rb' := set_rollback_resolution (Some p.(pr_resolution)) (set_rollback_pending None rb)).
  pose proof (rollback_change id r b bk t rb rb' None
    (if rollback_transaction_phase rb' == Resolved then None else Some id) s HI D Hrb Hun Hur) as G.
  assert (tx_ok id r b bk (set_rollback (Some rb') t)) as Htx.
  { apply tx_ok_rollback; [apply D|done|done|]. by split. }
  assert (s.(pending) = Some id) as Hpe by done. rewrite Hun in G.
  destruct (rollback_transaction_phase rb' == Resolved) eqn:Hph.
  - destruct s. cbn in *. subst. apply G; try done.
    + apply held_local; auto.
    + by left.
    + guards. rewrite Hph, ne_refl_false. apply names_None.
  - destruct s. cbn in *. subst. apply G; try done.
    + apply held_local; auto.
    + by right.
    + guards. rewrite bool_decide_true by done. apply names_Some.
Qed.

(** ** Releases *)

Lemma release_event_Ok restoring a c n :
  release_event restoring a c = Ok n → is_u64 c → match a with Some a => is_u64 a | None => True end → (0 ≤ n ≤ c)%Z.
Proof.
  unfold release_event, is_u64. intros H Hc Ha. destruct restoring, a; simplify_eq; try lia.
  case_match; [|done]. simplify_eq. guards. rewrite !Z.leb_le in *. lia.
Qed.

Lemma cancel_complete_inv restoring id a s s' :
  Inv s → match a with Some a => is_u64 a | None => True end →
  apply_cancel_complete restoring id a s = (s', Ok tt) → Inv s'.
Proof.
  intros HI Ha H. unfold apply_cancel_complete in H. accepted H.
  match goal with H : phase_matches _ _ _ = true |- _ => apply phase_matches_true in H as (r & Hr & Hph) end.
  match goal with H : s.(reservations) !! id = Some ?x |- _ => assert (x = r) as -> by congruence end.
  match goal with H : release_event _ _ _ = Ok ?x |- _ =>
    apply release_event_Ok in H; [|apply HI|done]; rename H into Hat; rename x into n end.
  pose proof (inv_entry _ HI _ _ Hr) as He. red in He. destruct r.(r_phase) eqn:Hph'; try done.
  destruct He as (Ht & _ & Hu & Hur). pose proof (inv_record _ HI _ _ Hr) as Hok. apply (Inv_change id s).
  - done.
  - only_at.
  - red. simpl. lookups. by rewrite names_None.
  - red. simpl. lookups. intros t [= <-]. split; [done|]. split; [done|]. split; [exact Hat|]. simpl. by rewrite Hph'.
  - red. simpl. intros ?? Hx. congruence.
  - simpl. intros _. apply (inv_seen _ HI). left. eauto.
  - apply HI.
  - simpl. by lookups.
  - simpl. etrans; [apply usize_delete|apply HI].
Qed.

Lemma retire_complete_inv restoring id a s s' :
  Inv s → match a with Some a => is_u64 a | None => True end →
  apply_retire_complete restoring id a s = (s', Ok tt) → Inv s'.
Proof.
  intros HI Ha H. unfold apply_retire_complete in H. accepted H.
  match goal with H : phase_matches _ _ _ = true |- _ => apply phase_matches_true in H as (r & Hr & Hph) end.
  match goal with H : s.(reservations) !! id = Some ?x |- _ => assert (x = r) as -> by congruence end.
  match goal with H : release_event _ _ _ = Ok ?x |- _ =>
    apply release_event_Ok in H; [|apply HI|done]; rename H into Hat; rename x into n end.
  pose proof (inv_entry _ HI _ _ Hr) as He. red in He. destruct r.(r_phase) as [| | | |b x|] eqn:Hph'; try done.
  destruct He as (t & Ht & [Hb (bk & Hbk & Hd & Htx)] & Hres & Hrp & _ & _ & _ & Hu & Hur).
  pose proof (inv_record _ HI _ _ Hr) as Hok. apply (Inv_change id s).
  - done.
  - only_at.
  - red. simpl. lookups. by rewrite names_None.
  - red. simpl. lookups. intros t0 [= <-]. split; [done|]. split; [done|]. split; [exact Hat|]. simpl. rewrite Hph'.
    pose proof (tk_resolution _ _ _ _ _ Htx) as Hx. rewrite Hres in Hx. split_and!; [done|done|].
    by rewrite transaction_phase_record, Hres in Hrp.
  - red. simpl. lookups. done.
  - simpl. intros _. apply (inv_seen _ HI). left. eauto.
  - apply HI.
  - simpl. by lookups.
  - simpl. etrans; [apply usize_delete|apply HI].
Qed.

(** ** Compaction records *)

Lemma Inv_empty s :
  s.(reservations) = ∅ → s.(released) = ∅ → s.(transactions) = ∅ → s.(pending) = None →
  s.(unresolved_transaction) = None → s.(unresolved_rollback) = None → is_u64 s.(logical_event_clock) →
  is_u64 s.(compaction_generation) → Inv s.
Proof.
  intros Hr Hl Ht Hp Hu Hur Hc Hg. split; rewrite ?Hr, ?Hl, ?Ht, ?Hp, ?Hu, ?Hur; try done; [by left|].
  intros id. rewrite !lookup_empty. by intros [[]|[]].
Qed.

Lemma compaction_begin_inv n g c a r p s s' :
  is_u64 g → is_u64 c → apply_compaction_begin n g c a r p s = (s', Ok tt) → Inv s'.
Proof.
  intros Hg Hc H. unfold apply_compaction_begin in H. accepted H. by apply Inv_empty.
Qed.

Lemma compaction_complete_inv g s s' : Inv s → apply_compaction_complete g s = (s', Ok tt) → Inv s'.
Proof. intros [] H. unfold apply_compaction_complete in H. accepted H. by split. Qed.

(** ** Every event *)

Lemma dispatch_inv n restoring e s s' :
  Inv s → event_typed e → dispatch n restoring e s = (s', Ok tt) → Inv s'.
Proof.
  intros HI Ht H. destruct e; cbn [dispatch event_typed] in *.
  - destruct Ht as (Hg & Hc & _). apply (compaction_begin_inv _ _ _ _ _ _ _ _ Hg Hc H).
  - by eapply compaction_complete_inv.
  - eapply reserve_intent_inv; [done| |done]. unfold is_u64 in *. lia.
  - by eapply reserve_complete_inv.
  - by eapply reserve_abort_inv.
  - by eapply persist_intent_inv.
  - by eapply persist_complete_inv.
  - by eapply persist_abort_inv.
  - by eapply transaction_resolve_intent_inv.
  - by eapply transaction_resolve_complete_inv.
  - by eapply transaction_lease_inv.
  - by eapply rollback_begin_inv.
  - by eapply rollback_lease_inv.
  - by eapply rollback_resolve_intent_inv.
  - by eapply rollback_resolve_complete_inv.
  - by eapply cancel_intent_inv.
  - by eapply cancel_complete_inv.
  - by eapply retire_intent_inv.
  - by eapply retire_complete_inv.
Qed.

(** The state in which an event is dispatched. *)
Lemma apply_event_Ok n e s s' :
  apply_repair_event n e s = (s', Ok tt) →
  ∃ s1, dispatch n (is_some s.(compaction_replay)) e s1 = (s', Ok tt) ∧
    (s1 = s ∨ ∃ c, checked_add_u64 s.(logical_event_clock) 1 = Some c ∧ s1 = set_clock c s).
Proof.
  unfold apply_repair_event. rewrite run_bind_Ok. intros (s0 & ? & [= <- <-] & H).
  apply run_bind_Ok in H as (s1 & [] & Ht & H). exists s1. split; [done|].
  unfold tick in Ht. inv_run Ht. destruct (_ && _); inv_run Ht; [|by left].
  right. apply ok_or_Ok in Hcall. eauto.
Qed.

Lemma apply_event_inv n e s s' :
  Inv s → event_typed e → apply_repair_event n e s = (s', Ok tt) → Inv s'.
Proof.
  intros HI Ht (s1 & H & [->|(c & Hc & ->)])%apply_event_Ok; [by eapply dispatch_inv|].
  eapply dispatch_inv; [|done|done]. apply checked_add_u64_Some in Hc as [-> Hc].
  apply Inv_tick; [done|]. pose proof (inv_clock _ HI) as Hu. unfold is_u64 in Hu. lia.
Qed.

Lemma replay_inv n es s s' :
  Inv s → Forall event_typed es → replay_from n es s = Ok s' → Inv s'.
Proof.
  revert n s. induction es as [|e es IH]; intros n s HI Ht H; [by simplify_eq/=|].
  apply Forall_cons in Ht as [Ht Hts]. cbn [replay_from] in H.
  destruct (apply_repair_event n e s) as [s1 [[]|]] eqn:Ha; [|done].
  eapply IH; [|done|done]. by eapply apply_event_inv.
Qed.

(** ** A settled state is consistent *)

(** The part of a singleton that has been met so far. *)
Definition upto (o : option ReservationId) (l : list ReservationId) : option ReservationId :=
  match o with Some i => if decide (i ∈ l) then Some i else None | None => None end.

Lemma upto_step o i l :
  i ∉ l → upto o (l ++ [i]) = if names o i then Some i else upto o l.
Proof.
  intros Hi. unfold upto, names. destruct o as [j|]; [|done]. repeat case_decide; case_bool_decide; set_solver.
Qed.
Lemma upto_fresh o i l : i ∉ l → names o i = true → upto o l = None.
Proof. unfold upto, names. intros Hi H. guards. subst. by rewrite decide_False. Qed.

Definition count_durable (l : list (ReservationId * ReservationRecord)) : Z :=
  Z.of_nat (length (filter (λ e, is_durable e.2.(r_phase) = true) l)).

Lemma consistent_reservation_Ok s id r done n :
  Inv s → s.(pending) = None → s.(reservations) !! id = Some r → id ∉ done →
  consistent_reservation s id r (upto s.(unresolved_transaction) done, upto s.(unresolved_rollback) done, n)
  = Some (upto s.(unresolved_transaction) (done ++ [id]), upto s.(unresolved_rollback) (done ++ [id]),
          (n + count_durable [(id, r)])%Z).
Proof.
  intros HI Hp Hr Hd. pose proof (inv_entry _ HI _ _ Hr) as He. red in He. rewrite (names_none _ _ Hp) in He.
  unfold consistent_reservation, count_durable. rewrite !upto_step by done. rewrite filter_cons. cbn [snd].
  destruct r.(r_phase) as [| |b| |b x|b] eqn:Hph; try (by naive_solver).
  - destruct He as (Ht & _ & -> & ->). unfold has_key. rewrite Ht. cbn. by rewrite Z.add_0_r.
  - destruct (durable_facts _ _ _ _ HI Hr Hph) as (bk & t & []). clear He.
    rewrite da_transaction0. cbn [mbind option_bind]. rewrite (names_none _ _ Hp) in da_pends0.
    unfold resolution_pends in da_pends0. symmetry in da_pends0. apply orb_false_iff in da_pends0 as [Hp1 Hp2].
    rewrite Hp1, (tk_lease _ _ _ _ _ da_tx0).
    rewrite (proj2 (transaction_status_Ok id r bk b t da_backup0 da_durable0) (tk_resolution _ _ _ _ _ da_tx0)).
    cbn [is_ok negb orb].
    assert ((match t.(t_rollback) with
      | None => Some (upto s.(unresolved_rollback) done)
      | Some rollback =>
          if (transaction_phase t != Resolved) || ((outcome <$> t.(t_resolution)) != Some CommittedAfter)
             || is_some rollback.(rb_pending_resolution)
             || negb (is_ok (protocol_rollback_status_from_record id r t rollback))
             || negb (rollback_write_lease_is_consistent id r t rollback)
          then None
          else if rollback_transaction_phase rollback != Resolved
          then if is_some (upto s.(unresolved_rollback) done) then None else Some (Some id)
          else Some (upto s.(unresolved_rollback) done)
      end) = Some (if names s.(unresolved_rollback) id then Some id else upto s.(unresolved_rollback) done)) as ->.
    { destruct t.(t_rollback) as [rb|] eqn:Hrb.
      - destruct (tk_rollback _ _ _ _ _ da_tx0 _ Hrb) as (Hc & Hpn & [L1 L2 L3 L4]).
        unfold rollback_pends in Hp2. rewrite Hrb in Hp2. cbn in Hp2.
        rewrite (committed_resolved _ Hc), Hc, !ne_refl_false, Hp2, L4.
        rewrite (proj2 (rollback_status_Ok id r t rb _ Hpn
          (proj2 (transaction_status_Ok id r bk b t da_backup0 da_durable0) (tk_resolution _ _ _ _ _ da_tx0))) L1 L2).
        cbn [is_ok negb orb]. rewrite da_rollback0. unfold rollback_unresolved. rewrite Hrb. cbn [is_some_and].
        destruct (rollback_transaction_phase rb != Resolved) eqn:Hrp; [|done].
        rewrite (upto_fresh s.(unresolved_rollback) id); [done|done|]. rewrite da_rollback0. unfold rollback_unresolved. by rewrite Hrb.
      - rewrite da_rollback0. unfold rollback_unresolved. by rewrite Hrb. }
    cbn [mbind option_bind]. rewrite da_unresolved0. destruct (transaction_phase t != Resolved) eqn:Htp; cbn [mbind option_bind].
    + rewrite (upto_fresh s.(unresolved_transaction) id) by (done || congruence). done.
    + done.
Qed.

Lemma count_durable_cons e l : count_durable (e :: l) = (count_durable [e] + count_durable l)%Z.
Proof. unfold count_durable. rewrite !filter_cons. destruct (decide _); cbn; lia. Qed.

Lemma consistent_loop_Ok s l done n :
  Inv s → s.(pending) = None → (∀ id r, (id, r) ∈ l → s.(reservations) !! id = Some r) → NoDup (done ++ l.*1) →
  consistent_loop s l (upto s.(unresolved_transaction) done, upto s.(unresolved_rollback) done, n)
  = Some (upto s.(unresolved_transaction) (done ++ l.*1), upto s.(unresolved_rollback) (done ++ l.*1),
          (n + count_durable l)%Z).
Proof.
  intros HI Hp. revert done n. induction l as [|[id r] l IH]; intros done n Hl Hnd.
  - cbn. by rewrite app_nil_r, Z.add_0_r.
  - cbn [consistent_loop]. rewrite consistent_reservation_Ok; [|done|done| |].
    + cbn [mbind option_bind]. rewrite IH.
      * rewrite (count_durable_cons (id, r) l), Z.add_assoc. cbn [fmap list_fmap fst]. by rewrite <-!app_assoc.
      * intros i r' Hi. apply Hl. by right.
      * cbn in Hnd. by rewrite <-app_assoc.
    + apply Hl. left.
    + cbn in Hnd. apply NoDup_app in Hnd as (_ & Hx & _). intros Hi. apply (Hx _ Hi). left.
Qed.

Lemma NoDup_fst_filter {A B} (P : A * B → Prop) `{!∀ x, Decision (P x)} (l : list (A * B)) :
  NoDup l.*1 → NoDup (filter P l).*1.
Proof.
  intros Hn. eapply sublist_NoDup; [exact Hn|]. apply fmap_sublist, sublist_filter.
Qed.

(** The reservations that are durable are those that have a transaction. *)
Lemma count_durable_transactions s :
  Inv s → s.(pending) = None → count_durable (btree_iter s.(reservations)) = usize s.(transactions).
Proof.
  intros HI Hp. unfold count_durable, usize. f_equal. rewrite <-(length_map_to_list s.(transactions)).
  rewrite <-(length_fmap fst (filter _ _)), <-(length_fmap fst (map_to_list _)).
  apply Permutation_length, NoDup_Permutation.
  - apply NoDup_fst_filter. rewrite btree_iter_perm. apply NoDup_fst_map_to_list.
  - apply NoDup_fst_map_to_list.
  - intros id. rewrite !list_elem_of_fmap. split.
    + intros ([i r] & -> & [Hd Hi]%list_elem_of_filter). cbn in Hd. apply elem_of_btree_iter in Hi.
      destruct r.(r_phase) as [| | | | |b] eqn:Hph; try done.
      destruct (durable_facts _ _ _ _ HI Hi Hph) as (bk & t & []). exists (i, t). split; [done|]. by apply elem_of_map_to_list.
    + intros ([i t] & -> & Hi%elem_of_map_to_list). cbn.
      destruct (s.(reservations) !! i) as [r|] eqn:Hr; [|destruct (inv_absent _ HI _ Hr); congruence].
      exists (i, r). split; [done|]. apply list_elem_of_filter. split; [|by apply elem_of_btree_iter].
      pose proof (inv_entry _ HI _ _ Hr) as He. red in He. rewrite (names_none _ _ Hp), Hi in He.
      cbn. destruct r.(r_phase); naive_solver.
Qed.

Lemma upto_all s o :
  (∀ id, s.(reservations) !! id = None → names o id = false) → upto o ((btree_iter s.(reservations)).*1) = o.
Proof.
  intros H. unfold upto. destruct o as [i|]; [|done]. rewrite decide_True; [done|].
  destruct (s.(reservations) !! i) as [r|] eqn:Hr; [|specialize (H _ Hr); by rewrite names_Some in H].
  apply list_elem_of_fmap. exists (i, r). split; [done|]. by apply elem_of_btree_iter.
Qed.

Lemma settled_consistent s : Inv s → s.(pending) = None → transactions_are_consistent s = true.
Proof.
  intros HI Hp. unfold transactions_are_consistent.
  pose proof (consistent_loop_Ok s (btree_iter s.(reservations)) [] 0 HI Hp) as H.
  assert (∀ o, upto o [] = None) as Hu by (by intros []). rewrite !Hu in H. rewrite H; clear H.
  - rewrite !app_nil_l. rewrite !upto_all.
    + rewrite Z.add_0_l, count_durable_transactions, !eq_refl_true by done.
      by destruct (inv_exclusive _ HI) as [->| ->]; [|rewrite andb_false_r].
    + intros id Hid. by destruct (inv_absent _ HI _ Hid) as (_ & _ & _ & ?).
    + intros id Hid. by destruct (inv_absent _ HI _ Hid) as (_ & _ & ? & _).
  - intros id r. by apply elem_of_btree_iter.
  - rewrite app_nil_l, btree_iter_perm. apply NoDup_fst_map_to_list.
Qed.

End preservation.
