(* ===== verification/RepairStoreSnapshot.v ===== *)
(** * Snapshots rebuild what they describe

    The events that a compaction writes for one reservation, one transaction, one
    rollback or one release, replayed inside a snapshot, put back exactly the
    record they were made from. *)

From stdpp Require Import sorting gmap.
From Stdlib.Strings Require Import Byte.
From Stdlib Require String Ascii.
From S2P Require Import Prelude Bytes Text Crypto VaultWire JournalChain RepairVault RepairVaultProperties RepairStoreTypes RepairStoreEvents RepairStoreCompaction RepairStoreFacts RepairStoreInvariant RepairStorePreservation.

(** ** Running an event forward *)

Section forward.
Context {S E : Type}.

Lemma fwd_get {A} (f : S → method S E A) s r : f s s = r → (get_self ≫= f) s = r.
Proof. done. Qed.
Lemma fwd_fail {A} c (e : E) (k : method S E A) s r : c = false → k s = r → (fail_if c e;; k) s = r.
Proof. by intros ->. Qed.
Lemma fwd_lift {A B} (m : result E A) (f : A → method S E B) a s r : m = Ok a → f a s = r → (lift m ≫= f) s = r.
Proof. by intros ->. Qed.
Lemma fwd_modify {A} (f : S → S) (k : method S E A) s r : k (f s) = r → (modify_self f;; k) s = r.
Proof. done. Qed.
Lemma fwd_ret {A B} (a : A) (f : A → method S E B) s r : f a s = r → (mret (M := method S E) a ≫= f) s = r.
Proof. done. Qed.
End forward.

Ltac fwd := repeat (cbv zeta; lazymatch goal with
  | |- mbind _ get_self _ = _ => apply fwd_get; cbv beta
  | |- mbind _ (modify_self _) _ = _ => apply fwd_modify
  | |- mbind _ (mret _) _ = _ => apply fwd_ret; cbv beta
  end).
Ltac fwd_guard := fwd; apply fwd_fail.
Ltac fwd_call := fwd; eapply fwd_lift; [|cbv beta].

(** The fields of an updated state. *)
Ltac state_fields :=
  unfold modify_self, set_pending, set_reservations, set_released, see, set_transactions,
    set_unresolved_transaction, set_unresolved_rollback;
  cbn [reservations released seen_reservation_ids pending transactions unresolved_transaction
    unresolved_rollback logical_event_clock compaction_generation previous_compaction_anchor compaction_replay].

Lemma map_err_pass {E E' A} (f : E → E') (r : result E A) a : r = Ok a → map_err f r = Ok a.
Proof. by intros ->. Qed.

Section snapshot.
Context `{sha : Sha256}.
Variables (clock generation : Z) (anchor : option JournalAnchor) (replay : CompactionReplay).

(** A state inside a snapshot. *)
Definition snap (M : gmap ReservationId ReservationRecord) (R : gmap ReservationId ReleaseTombstone)
    (S : gset ReservationId) (p : option ReservationId) (T : gmap ReservationId RepairTransactionRecord)
    (u ur : option ReservationId) : RecoveredState :=
  mkState M R S p T u ur clock generation anchor (Some replay).

(** Replaying [events] leads from [s] to [s'], whatever follows. *)
Definition rebuilds (events : list RepairEvent) (s s' : RecoveredState) : Prop :=
  ∀ n rest, replay_from n (events ++ rest) s = replay_from (n + Z.of_nat (length events)) rest s'.

Lemma rebuilds_nil s : rebuilds [] s s.
Proof. intros n rest. cbn. by rewrite Z.add_0_r. Qed.

Lemma rebuilds_app l l' s s1 s2 : rebuilds l s s1 → rebuilds l' s1 s2 → rebuilds (l ++ l') s s2.
Proof.
  intros H1 H2 n rest. rewrite <-app_assoc, H1, H2, length_app. f_equal. lia.
Qed.

Lemma rebuilds_cons e l s s1 s2 :
  is_some s.(compaction_replay) = true → control_event e = false →
  (∀ n, dispatch n true e s = (s1, Ok tt)) → rebuilds l s1 s2 → rebuilds (e :: l) s s2.
Proof.
  intros Hr Hc Hd Hl n rest. cbn [app replay_from].
  assert (apply_repair_event n e s = (s1, Ok tt)) as ->.
  { unfold apply_repair_event, tick. run_methods. rewrite Hr, Hc. cbn. apply Hd. }
  rewrite Hl. f_equal. cbn [length]. lia.
Qed.

(** ** Reservations *)

Lemma reserve_rebuilds id r M R S T :
  record_ok r → (usize M < MAX_RESERVATIONS)%Z → M !! id = None → R !! id = None → id ∉ S →
  rebuilds (append_reserve_snapshot id r) (snap M R S None T None None)
    (snap (<[id := set_phase ReservedPhase r]> M) R ({[id]} ∪ S) None T None None).
Proof.
  intros Hr Hm HM HR HS. eapply rebuilds_cons; [done|done| |].
  { intros n. cbn [dispatch]. unfold apply_reserve_intent. fwd_call; [apply Hr|]. fwd_guard.
    - cbn. unfold has_key. rewrite HM, HR, (ro_text _ Hr), (ro_vault _ Hr), (ro_identity _ Hr), (ro_parent _ Hr).
      rewrite <-(ro_binding _ Hr), (ro_capacity _ Hr), !ne_refl_false, bool_decide_false by done.
      rewrite (proj2 (Z.leb_gt _ _) Hm). done.
    - reflexivity. }
  eapply rebuilds_cons; [done|done| |apply rebuilds_nil].
  intros n. cbn [dispatch]. unfold apply_reserve_complete. fwd_guard; [cbn; apply ne_refl_false|].
  fwd_call; [cbn; rewrite lookup_insert_eq; reflexivity|]. fwd_guard; [done|].
  cbn. unfold modify_self, set_pending, set_reservations, snap. cbn. by rewrite insert_insert_eq.
Qed.

(** The durable reservation [r], bound by [b], whose payload is [bk]. *)
Context (id : ReservationId) (r : ReservationRecord) (b : RepairBinding) (bk : RepairBackupStatusPayload).
Context (Hok : record_ok r) (Hph : r.(r_phase) = DurablePhase b) (Hb : validate_for_record b r = Ok tt)
  (Hbk : protocol_backup_status_from_record id r = Ok bk) (Hd : durable bk (binding_view b)).

Lemma bound_before : b.(b_resource_sha256) = r.(r_draft).(d_expected_backup_sha256).
Proof using Hb.
  unfold validate_for_record in Hb. inv_ok Hb. guards.
  match goal with H : binding_validate b = _ |- _ => apply binding_validate_Ok in H as (_ & _ & _ & _ & Hrs) end.
  apply array32_eq. congruence.
Qed.

Lemma persist_rebuilds M R S T :
  M !! id = Some (set_phase ReservedPhase r) → T !! id = None →
  rebuilds (append_persist_snapshot id r b) (snap M R S None T None None)
    (snap (<[id := r]> M) R S None (<[id := fresh_transaction]> T) (Some id) None).
Proof using Hb Hph.
  intros HM HT. eapply rebuilds_cons; [done|done| |].
  { intros n. cbn [dispatch]. unfold apply_persist_intent.
    fwd_call. { unfold validate_for_record in Hb. inv_ok Hb. guards. done. }
    fwd_guard; [done|]. fwd_call; [cbn; by rewrite HM|].
    fwd_call; [apply map_err_pass; by rewrite validate_for_record_phase|].
    fwd_guard; [cbn; by rewrite bound_before, ne_refl_false|]. reflexivity. }
  eapply rebuilds_cons; [done|done| |apply rebuilds_nil].
  intros n. cbn [dispatch]. unfold apply_persist_complete. fwd_guard; [cbn; apply ne_refl_false|].
  fwd_call; [cbn; rewrite lookup_insert_eq; reflexivity|]. fwd_guard; [cbn; by rewrite !ne_refl_false|].
  cbn [set_phase r_phase]. fwd. fwd_guard; [cbn; by rewrite HT|].
  cbn. unfold modify_self, set_pending, set_unresolved_transaction, set_transactions, set_reservations, snap. cbn.
  rewrite insert_insert_eq. do 3 f_equal. by rewrite <-(set_phase_same r (DurablePhase b)) at 2.
Qed.

(** ** The transaction *)

Lemma status_at t : resolution_ok t.(t_resolution) b →
  protocol_transaction_status_from_record id r t = Ok (status_view bk b t).
Proof using Hbk Hd. apply (transaction_status_Ok id r bk b t Hbk Hd). Qed.

Definition binding_text : string := (status_view bk b fresh_transaction).(transaction_binding_sha256).(as_str).

Lemma lease_rebuilds l M R S T :
  write_lease_is_consistent id r (set_write_lease (Some l) fresh_transaction) = true →
  M !! id = Some r → T !! id = Some fresh_transaction →
  rebuilds [TransactionWriteLeaseConsume id binding_text l.(boot_epoch_sha256) l.(lease_binding_sha256)]
    (snap M R S None T (Some id) None)
    (snap M R S None (<[id := set_write_lease (Some l) fresh_transaction]> T) (Some id) None).
Proof using Hph Hb Hbk Hd.
  intros Hl HM HT. destruct (proj1 (write_lease_consistent_Some _ _ (set_write_lease (Some l) fresh_transaction) l eq_refl) Hl) as (st & epoch & lease & Hst & He & Hc & Hlb).
  rewrite status_at in Hst by done. apply Ok_inj_1 in Hst as <-.
  pose proof (proj1 (write_lease_consumed_Ok _ _ _) Hc) as (_ & g & res & Hle & _).
  assert (g = binding_view b) as ->.
  { eapply durable_fun; [exact (du_carries _ _ (le_durable _ _ _ Hle))|apply (du_carries _ _ Hd)]. }
  destruct (le_bound _ _ _ Hle) as [Ba Br Bl]. cbn in Ba, Br, Bl.
  eapply rebuilds_cons; [done|done| |apply rebuilds_nil]. intros n. cbn [dispatch].
  unfold apply_transaction_write_lease_consume. fwd_guard.
  { cbn. rewrite ne_refl_false. unfold binding_text. rewrite valid_sha256_text, <-Hlb, valid_sha256_text.
    by rewrite (proj2 (protocol_sha256_str_valid _) (ex_intro _ epoch He)). }
  fwd_call; [cbn; by rewrite HM|]. rewrite Hph. fwd_call; [by apply map_err_pass|].
  fwd_call; [apply map_err_pass; by apply from_execution_Ok|]. fwd_guard; [by rewrite Bl, ne_refl_false|].
  fwd_call; [cbn; by rewrite HT|]. fwd_guard; [done|].
  fwd_call; [apply map_err_pass; by apply status_at|]. fwd_guard; [cbn; apply ne_refl_false|].
  fwd_call; [apply map_err_pass; exact He|]. fwd_call; [apply map_err_pass; exact Hc|].
  fwd_guard; [by rewrite Hlb, ne_refl_false|]. cbn. by destruct l.
Qed.

Lemma resolve_rebuilds x t M R S T :
  resolution_validate_against x b.(b_execution_intent) = Ok tt →
  t.(t_resolution) = None → t.(t_pending_resolution) = None →
  M !! id = Some r → T !! id = Some t →
  rebuilds [TransactionResolveIntent id binding_text Pending x; TransactionResolveComplete id binding_text]
    (snap M R S None T (Some id) None)
    (snap M R S None (<[id := set_resolution (Some x) t]> T)
       (if RepairVault.transaction_phase x == Resolved then None else Some id) None).
Proof using Hph Hbk Hd.
  intros Hx Hres Hpr HM HT.
  assert (resolution_ok t.(t_resolution) b) as Hro by by rewrite Hres.
  assert (transaction_phase t = Pending) as Htp by (unfold transaction_phase; by rewrite Hres).
  eapply rebuilds_cons; [done|done| |].
  { intros n. cbn [dispatch]. unfold apply_transaction_resolve_intent.
    fwd_guard; [cbn; unfold binding_text; by rewrite ne_refl_false, valid_sha256_text|].
    fwd_call; [cbn; by rewrite HM|]. rewrite Hph. fwd_call; [cbn; by rewrite HT|].
    fwd_call; [apply map_err_pass; by apply status_at|].
    fwd_guard. { cbn. by rewrite !ne_refl_false, Htp, Hres, Hpr. }
    fwd_call; [apply map_err_pass; by apply validate_resolution_Ok|]. reflexivity. }
  eapply rebuilds_cons; [done|done| |apply rebuilds_nil].
  intros n. cbn [dispatch]. unfold apply_transaction_resolve_complete.
  fwd_guard; [cbn; unfold binding_text; by rewrite !ne_refl_false, valid_sha256_text|].
  fwd_call; [cbn; by rewrite HM|]. fwd_call; [cbn; rewrite lookup_insert_eq; reflexivity|].
  fwd_call; [reflexivity|]. fwd_call; [apply map_err_pass; by apply status_at|].
  fwd_guard. { cbn. rewrite !ne_refl_false. change (transaction_phase _) with (transaction_phase t). by rewrite Htp. }
  unfold modify_self, snap. rewrite transaction_phase_record. cbn [set_resolution t_resolution p_resolution].
  assert (set_resolution (Some x) (set_pending_resolution None t) = set_resolution (Some x) t) as Heq
    by (destruct t; cbn in *; by subst).
  change (set_pending_resolution None _) with (set_pending_resolution None t). rewrite Heq.
  destruct (RepairVault.transaction_phase x == Resolved); state_fields; by rewrite insert_insert_eq.
Qed.

(** ** The rollback *)

Section rollback.
Context (t : RepairTransactionRecord) (rid : RepairRollbackId) (rbind : RepairRollbackBindingV1).
Context (Hres : resolution_ok t.(t_resolution) b) (Hpend : t.(t_pending_resolution) = None).
Let src := status_view bk b t.
Context (Hbind : rollback_binding_validate_against rbind src = Ok tt).

Definition rollback_record (x : option RepairRollbackResolution) (l : option ConsumedWriteLease) :=
  mkRollbackRecord rid rbind x None l.
Definition rollback_text : string :=
  (rollback_view src (rollback_record None None)).(rollback_transaction_binding_sha256).(as_str).

Lemma rollback_status_at t' rb :
  t'.(t_resolution) = t.(t_resolution) → t'.(t_pending_resolution) = None →
  rb.(rb_rollback_id) = rid → rb.(rb_binding) = rbind → rollback_resolution_ok rb.(rb_resolution) src →
  protocol_rollback_status_from_record id r t' rb = Ok (rollback_view src rb).
Proof using Hbk Hd Hres Hbind.
  intros Ht Hp Hi Hb' Hx. apply rollback_status_Ok; [done| |by rewrite Hb'|done].
  rewrite (status_same _ _ _ t Ht). by apply status_at.
Qed.

Lemma rollback_pending_at : rollback_pending rid src rbind = Ok (rollback_view src (rollback_record None None)).
Proof using Hbind.
  apply (rollback_new_Ok Pending). split_and!; try done.
  apply (rollback_view_validate _ (rollback_record None None)). by split.
Qed.

Lemma rollback_begin_rebuilds M R S T :
  t.(t_rollback) = None → M !! id = Some r → T !! id = Some t →
  (∀ id' t' rb', T !! id' = Some t' → t'.(t_rollback) = Some rb' → rb'.(rb_rollback_id) ≠ rid) →
  rebuilds [RollbackBegin id src.(transaction_binding_sha256).(as_str) rid rollback_text rbind]
    (snap M R S None T None None)
    (snap M R S None (<[id := set_rollback (Some (rollback_record None None)) t]> T) None (Some id)).
Proof using Hph Hbk Hd Hres Hpend Hbind.
  intros Hnr HM HT Hf. eapply rebuilds_cons; [done|done| |apply rebuilds_nil].
  intros n. cbn [dispatch]. unfold apply_rollback_begin. fwd_guard.
  { cbn. unfold rollback_text. rewrite !valid_sha256_text. cbn. rewrite !orb_false_r.
    apply existsb_btree_iter. intros id' t' Ht'. destruct t'.(t_rollback) as [rb'|] eqn:Hrb; [|done].
    cbn. apply bool_decide_eq_false. by eapply Hf. }
  fwd_call; [cbn; by rewrite HM|]. fwd_guard; [by rewrite Hph|]. fwd_call; [cbn; by rewrite HT|].
  fwd_guard; [by rewrite Hpend, Hnr|]. fwd_call; [apply map_err_pass; by apply status_at|].
  fwd_call; [by apply map_err_pass|].
  fwd_call; [apply map_err_pass, rollback_pending_at|].
  fwd_guard; [by rewrite !ne_refl_false|]. reflexivity.
Qed.

Lemma rollback_lease_rebuilds l M R S T :
  rollback_write_lease_is_consistent id r t (rollback_record None (Some l)) = true →
  M !! id = Some r → T !! id = Some (set_rollback (Some (rollback_record None None)) t) →
  rebuilds [RollbackWriteLeaseConsume id rid rollback_text l.(boot_epoch_sha256) l.(lease_binding_sha256)]
    (snap M R S None T None (Some id))
    (snap M R S None (<[id := set_rollback (Some (rollback_record None (Some l))) t]> T) None (Some id)).
Proof using Hbk Hd Hres Hpend Hbind.
  intros Hl HM HT.
  destruct (proj1 (rollback_lease_consistent_Some _ _ _ (rollback_record None (Some l)) l eq_refl) Hl)
    as (st & epoch & lease & Hst & He & Hc & Hlb).
  cbn in Hst. rewrite rollback_status_at in Hst by done. apply Ok_inj_1 in Hst as <-.
  eapply rebuilds_cons; [done|done| |apply rebuilds_nil]. intros n. cbn [dispatch].
  unfold apply_rollback_write_lease_consume. fwd_guard.
  { cbn. rewrite ne_refl_false. unfold rollback_text. rewrite valid_sha256_text, <-Hlb, valid_sha256_text.
    by rewrite (proj2 (protocol_sha256_str_valid _) (ex_intro _ epoch He)). }
  fwd_call; [cbn; by rewrite HM|]. fwd_call; [cbn; by rewrite HT|]. fwd_call; [reflexivity|].
  fwd_guard; [cbn; by rewrite ne_refl_false|].
  fwd_call; [apply map_err_pass; by apply rollback_status_at|]. fwd_guard; [cbn; apply ne_refl_false|].
  fwd_call; [apply map_err_pass; exact He|]. fwd_call; [apply map_err_pass; exact Hc|].
  fwd_guard; [by rewrite Hlb, ne_refl_false|]. cbn. by destruct l.
Qed.

Lemma rollback_resolve_rebuilds x l M R S T :
  rollback_resolution_validate_against x src = Ok tt →
  M !! id = Some r → T !! id = Some (set_rollback (Some (rollback_record None l)) t) →
  rebuilds [RollbackResolveIntent id rid rollback_text Pending x; RollbackResolveComplete id rid rollback_text]
    (snap M R S None T None (Some id))
    (snap M R S None (<[id := set_rollback (Some (rollback_record (Some x) l)) t]> T) None
       (if rollback_phase x == Resolved then None else Some id)).
Proof using Hbk Hd Hres Hpend Hbind.
  intros Hx HM HT. eapply rebuilds_cons; [done|done| |].
  { intros n. cbn [dispatch]. unfold apply_rollback_resolve_intent.
    fwd_guard; [cbn; unfold rollback_text; by rewrite ne_refl_false, valid_sha256_text|].
    fwd_call; [cbn; by rewrite HM|]. fwd_call; [cbn; by rewrite HT|]. fwd_call; [reflexivity|].
    fwd_call; [apply map_err_pass; by apply rollback_status_at|].
    fwd_guard. { cbn. by rewrite !ne_refl_false. }
    fwd_call; [by apply map_err_pass|]. reflexivity. }
  eapply rebuilds_cons; [done|done| |apply rebuilds_nil].
  intros n. cbn [dispatch]. unfold apply_rollback_resolve_complete.
  fwd_guard; [cbn; unfold rollback_text; by rewrite !ne_refl_false, valid_sha256_text|].
  fwd_call; [cbn; by rewrite HM|]. fwd_call; [cbn; rewrite lookup_insert_eq; reflexivity|].
  fwd_call; [reflexivity|]. fwd_call; [reflexivity|]. fwd_call; [apply map_err_pass; by apply rollback_status_at|].
  fwd_guard; [cbn; by rewrite !ne_refl_false|].
  unfold modify_self, snap. rewrite rollback_phase_record. cbn [set_rollback_resolution rb_resolution pr_resolution].
  destruct (rollback_phase x == Resolved); state_fields; by rewrite insert_insert_eq.
Qed.
End rollback.

Lemma rollback_rebuilds t rb M R S T :
  tx_ok id r b bk t → t.(t_rollback) = Some rb → rb.(rb_pending_resolution) = None →
  M !! id = Some r → T !! id = Some (set_rollback None t) →
  (∀ id' t' rb', T !! id' = Some t' → t'.(t_rollback) = Some rb' → rb'.(rb_rollback_id) ≠ rb.(rb_rollback_id)) →
  ∃ events, append_rollback_snapshot id r t rb = Ok events ∧
    rebuilds events (snap M R S None T None None)
      (snap M R S None (<[id := t]> T) None (if rollback_transaction_phase rb == Resolved then None else Some id)).
Proof using Hph Hbk Hd.
  intros Htx Hrb Hrp HM HT Hf. destruct (tk_rollback _ _ _ _ _ Htx _ Hrb) as (_ & Hp & [L1 L2 L3 L4]).
  pose proof (tk_resolution _ _ _ _ _ Htx) as Hres.
  set (rid := rb.(rb_rollback_id)) in *. set (rbi := rb.(rb_binding)) in *.
  set (t0 := set_rollback None t) in *.
  assert (∀ x, set_rollback x t0 = set_rollback x t) as Hset by done.
  assert (append_rollback_snapshot id r t rb = Ok
    (RollbackBegin id (status_view bk b t).(transaction_binding_sha256).(as_str) rid (rollback_text t0 rid rbi) rbi
     :: match rb.(rb_write_lease) with
        | Some l => [RollbackWriteLeaseConsume id rid (rollback_text t0 rid rbi) l.(boot_epoch_sha256) l.(lease_binding_sha256)]
        | None => [] end
     ++ match rb.(rb_resolution) with
        | Some x => [RollbackResolveIntent id rid (rollback_text t0 rid rbi) Pending x;
                     RollbackResolveComplete id rid (rollback_text t0 rid rbi)]
        | None => [] end)) as ->.
  { unfold append_rollback_snapshot. rewrite status_at by done. cbn [mbind result_bind].
    fold rid rbi. by rewrite (rollback_pending_at t rid rbi L1). }
  eexists. split; [reflexivity|]. rewrite rollback_phase_record.
  assert (t = set_rollback (Some (rollback_record rid rbi rb.(rb_resolution) rb.(rb_write_lease))) t0) as Ht.
  { unfold rollback_record, t0. destruct t, rb. cbn in *. by subst. }
  eapply (rebuilds_app [_]); [eapply (rollback_begin_rebuilds t0 rid rbi); done|].
  set (T1 := <[id := set_rollback (Some (rollback_record rid rbi None None)) t0]> T).
  assert (rebuilds match rb.(rb_write_lease) with
      | Some l => [RollbackWriteLeaseConsume id rid (rollback_text t0 rid rbi) l.(boot_epoch_sha256) l.(lease_binding_sha256)]
      | None => [] end (snap M R S None T1 None (Some id))
    (snap M R S None (<[id := set_rollback (Some (rollback_record rid rbi None rb.(rb_write_lease))) t0]> T) None (Some id))) as Hlease.
  { destruct rb.(rb_write_lease) as [l|] eqn:Hl; [|apply rebuilds_nil].
    pose proof (rollback_lease_rebuilds t0 rid rbi Hres Hp L1 l M R S T1) as H. unfold T1 in H at 3.
    rewrite insert_insert_eq in H. apply H; [|done|apply lookup_insert_eq].
    rewrite <-L4. by apply rollback_lease_same. }
  eapply rebuilds_app; [exact Hlease|].
  destruct rb.(rb_resolution) as [x|] eqn:Hx.
  - set (T2 := <[id := set_rollback (Some (rollback_record rid rbi None rb.(rb_write_lease))) t0]> T).
    pose proof (rollback_resolve_rebuilds t0 rid rbi Hres Hp L1 x rb.(rb_write_lease) M R S T2) as H.
    unfold T2 in H at 3. rewrite insert_insert_eq, <-Ht in H. apply H; [done|done|apply lookup_insert_eq].
  - rewrite <-Ht. apply rebuilds_nil.
Qed.

(** ** The whole transaction *)

Lemma transaction_rebuilds t M R S T :
  tx_ok id r b bk t → resolution_pends t = false → M !! id = Some r → T !! id = Some fresh_transaction →
  (∀ id' t' rb rb', t.(t_rollback) = Some rb → T !! id' = Some t' → t'.(t_rollback) = Some rb' →
     rb'.(rb_rollback_id) ≠ rb.(rb_rollback_id)) →
  ∃ events, append_transaction_snapshot id r t = Ok events ∧
    rebuilds events (snap M R S None T (Some id) None)
      (snap M R S None (<[id := t]> T) (if transaction_phase t == Resolved then None else Some id)
         (if rollback_unresolved t then Some id else None)).
Proof using Hph Hb Hbk Hd.
  intros Htx Hnp HM HT Hf. unfold resolution_pends in Hnp. apply orb_false_iff in Hnp as [Hp%is_some_false Hrp].
  pose proof (tk_resolution _ _ _ _ _ Htx) as Hres.
  set (t1 := mkTransactionRecord None None t.(t_write_lease) None).
  set (t2 := mkTransactionRecord t.(t_resolution) None t.(t_write_lease) None).
  set (T1 := <[id := t1]> T). set (T2 := <[id := t2]> T).
  assert (rebuilds match t.(t_write_lease) with
      | Some l => [TransactionWriteLeaseConsume id binding_text l.(boot_epoch_sha256) l.(lease_binding_sha256)]
      | None => [] end (snap M R S None T (Some id) None) (snap M R S None T1 (Some id) None)) as H1.
  { unfold T1, t1. destruct t.(t_write_lease) as [l|] eqn:Hl.
    - apply lease_rebuilds; try done. rewrite <-(tk_lease _ _ _ _ _ Htx).
      unfold write_lease_is_consistent. by rewrite Hl.
    - change (mkTransactionRecord None None None None) with fresh_transaction. rewrite insert_id by done. apply rebuilds_nil. }
  assert (rebuilds match t.(t_resolution) with
      | Some x => [TransactionResolveIntent id binding_text Pending x; TransactionResolveComplete id binding_text]
      | None => [] end (snap M R S None T1 (Some id) None)
      (snap M R S None T2 (if transaction_phase t == Resolved then None else Some id) None)) as H2.
  { rewrite transaction_phase_record. unfold T2, t2. destruct t.(t_resolution) as [x|].
    - pose proof (resolve_rebuilds x t1 M R S T1 Hres) as H. unfold T1 in H at 3. rewrite insert_insert_eq in H.
      apply H; try done. apply lookup_insert_eq.
    - rewrite bool_decide_false by done. apply rebuilds_nil. }
  unfold append_transaction_snapshot. rewrite status_at by done. cbn [mbind result_bind]. fold binding_text.
  destruct t.(t_rollback) as [rb|] eqn:Hrb.
  - destruct (tk_rollback _ _ _ _ _ Htx _ Hrb) as (Hc & _ & _). apply committed_resolved in Hc.
    rewrite Hc, eq_refl_true in *.
    unfold rollback_pends in Hrp. rewrite Hrb in Hrp. cbn in Hrp. apply is_some_false in Hrp.
    destruct (rollback_rebuilds t rb M R S T2 Htx Hrb Hrp HM) as (evs & He & H3).
    { unfold T2. rewrite lookup_insert_eq. f_equal. unfold t2. destruct t. cbn in *. by subst. }
    { intros id' t' rb' Ht' Hrb'. unfold T2 in Ht'. destruct (decide (id' = id)) as [->|Hne].
      - rewrite lookup_insert_eq in Ht'. by simplify_eq.
      - rewrite lookup_insert_ne in Ht' by done. by eapply Hf. }
    rewrite He. cbn [mbind result_bind]. eexists. split; [reflexivity|].
    eapply rebuilds_app; [exact H1|]. eapply rebuilds_app; [exact H2|].
    unfold T2 in H3 at 2. rewrite insert_insert_eq in H3. unfold rollback_unresolved. rewrite Hrb. cbn [is_some_and].
    destruct (decide (rollback_transaction_phase rb = Resolved)) as [Hr|Hr].
    + rewrite Hr, ne_refl_false, eq_refl_true in *. exact H3.
    + rewrite bool_decide_false in H3 by done. rewrite bool_decide_true by done. exact H3.
  - cbn [mbind result_bind]. eexists. split; [reflexivity|]. rewrite app_nil_r.
    eapply rebuilds_app; [exact H1|]. unfold rollback_unresolved. rewrite Hrb. cbn [is_some_and].
    assert (t2 = t) as Ht by (unfold t2; clear -Hrb Hp; destruct t; cbn in *; by subst).
    unfold T2 in H2. rewrite Ht in H2. exact H2.
Qed.

(** ** A durable reservation *)

Lemma durable_rebuilds t M R S T :
  tx_ok id r b bk t → resolution_pends t = false → (usize M < MAX_RESERVATIONS)%Z →
  M !! id = None → R !! id = None → id ∉ S → T !! id = None →
  (∀ id' t' rb rb', t.(t_rollback) = Some rb → T !! id' = Some t' → t'.(t_rollback) = Some rb' →
     rb'.(rb_rollback_id) ≠ rb.(rb_rollback_id)) →
  ∃ events, append_reservation_snapshot id r (Some t) = Ok events ∧
    rebuilds events (snap M R S None T None None)
      (snap (<[id := r]> M) R ({[id]} ∪ S) None (<[id := t]> T)
         (if transaction_phase t == Resolved then None else Some id)
         (if rollback_unresolved t then Some id else None)).
Proof using Hok Hph Hb Hbk Hd.
  intros Htx Hnp Hm HM HR HS HT Hf.
  destruct (transaction_rebuilds t (<[id := r]> M) R ({[id]} ∪ S) (<[id := fresh_transaction]> T) Htx Hnp) as (evs & He & H).
  { apply lookup_insert_eq. }
  { apply lookup_insert_eq. }
  { intros id' t' rb rb' Hrb Ht' Hrb'. destruct (decide (id' = id)) as [->|Hne].
    - rewrite lookup_insert_eq in Ht'. by simplify_eq.
    - rewrite lookup_insert_ne in Ht' by done. by eapply Hf. }
  rewrite insert_insert_eq in H.
  unfold append_reservation_snapshot. rewrite Hph. cbn [ok_or mbind result_bind]. rewrite He. cbn [mbind result_bind].
  eexists. split; [reflexivity|]. eapply rebuilds_app; [by apply reserve_rebuilds|].
  pose proof (persist_rebuilds (<[id := set_phase ReservedPhase r]> M) R ({[id]} ∪ S) T) as Hp.
  rewrite insert_insert_eq in Hp. eapply rebuilds_app; [apply Hp; [apply lookup_insert_eq|done]|exact H].
Qed.

End snapshot.

(** ** Releases *)

Section releases.
Context `{sha : Sha256}.
Variables (clock generation : Z) (anchor : option JournalAnchor) (replay : CompactionReplay).
Local Abbreviation snap := (snap clock generation anchor replay).

Lemma release_live_event t : release_live clock t = true →
  release_event true (Some t.(released_at_event)) clock = Ok t.(released_at_event).
Proof. unfold release_live, release_event. by intros ->. Qed.

Lemma cancel_rebuilds id t M R S T :
  tombstone_ok clock t → t.(operation) = CancelRelease → release_live clock t = true →
  (usize R < MAX_RELEASE_TOMBSTONES)%Z → M !! id = Some (set_phase ReservedPhase t.(tomb_record)) → R !! id = None →
  rebuilds [CancelIntent id; CancelComplete id (Some t.(released_at_event))] (snap M R S None T None None)
    (snap (delete id M) (<[id := t]> R) S None T None None).
Proof.
  intros (Hok & _ & Hm) Hop Hl HsR HM HR. rewrite Hop in Hm.
  assert (t.(tomb_record).(r_phase) = CancelPending) as Hph by by destruct (r_phase _).
  eapply rebuilds_cons; [done|done| |].
  { intros n. cbn [dispatch]. unfold apply_cancel_intent.
    fwd_guard; [cbn; unfold phase_matches; cbn; by rewrite HM|]. fwd. fwd_call; [cbn; by rewrite HM|]. reflexivity. }
  eapply rebuilds_cons; [done|done| |apply rebuilds_nil].
  intros n. cbn [dispatch]. unfold apply_cancel_complete. fwd.
  eapply fwd_lift; [cbn; by apply release_live_event|cbv beta]. fwd_guard.
  { cbn. unfold has_key, phase_matches. cbn. rewrite ne_refl_false, HR, lookup_insert_eq.
    rewrite (proj2 (Z.leb_gt _ _) HsR). done. }
  fwd_call; [cbn; rewrite lookup_insert_eq; reflexivity|].
  state_fields. unfold RepairStoreSnapshot.snap. state_fields. rewrite delete_insert_eq.
  do 3 f_equal. rewrite set_phase_twice, (set_phase_same _ _ Hph). by destruct t; cbn in *; subst.
Qed.

Lemma retire_rebuilds id t b x M R S T :
  tombstone_ok clock t → t.(operation) = RetireRelease → t.(tomb_record).(r_phase) = RetirePending b x →
  release_live clock t = true → (usize R < MAX_RELEASE_TOMBSTONES)%Z →
  M !! id = Some (set_phase (DurablePhase b) t.(tomb_record)) → R !! id = None →
  T !! id = Some (mkTransactionRecord (Some x) None None None) →
  rebuilds [RetireIntent id; RetireComplete id (Some t.(released_at_event))] (snap M R S None T None None)
    (snap (delete id M) (<[id := t]> R) S None (delete id T) None None).
Proof.
  intros (Hok & _ & Hm) Hop Hph Hl HsR HM HR HT. rewrite Hop, Hph in Hm. destruct Hm as (Hb & Hx & Hxp).
  assert (∀ s, s.(unresolved_transaction) = None → s.(unresolved_rollback) = None →
    retire_blocked id (mkTransactionRecord (Some x) None None None) s = false) as Hnb.
  { intros s Hu Hur. unfold retire_blocked. rewrite transaction_phase_record. cbn. rewrite Hxp, Hu, Hur, ne_refl_false. done. }
  eapply rebuilds_cons; [done|done| |].
  { intros n. cbn [dispatch]. unfold apply_retire_intent.
    fwd_guard; [cbn; unfold phase_matches; cbn; by rewrite HM|]. fwd_call; [cbn; by rewrite HM|].
    cbn [set_phase r_phase]. fwd. fwd_call; [cbn; by rewrite HT|]. fwd_guard; [by apply Hnb|].
    fwd_call; [reflexivity|]. reflexivity. }
  eapply rebuilds_cons; [done|done| |apply rebuilds_nil].
  intros n. cbn [dispatch]. unfold apply_retire_complete. fwd.
  eapply fwd_lift; [cbn; by apply release_live_event|cbv beta]. fwd_guard.
  { cbn. unfold has_key, phase_matches. cbn. rewrite ne_refl_false, HR, lookup_insert_eq.
    rewrite (proj2 (Z.leb_gt _ _) HsR). done. }
  fwd_call; [cbn; rewrite lookup_insert_eq; reflexivity|]. fwd. fwd_call; [cbn; by rewrite HT|]. fwd.
  fwd_guard; [by apply Hnb|].
  state_fields. unfold RepairStoreSnapshot.snap. state_fields. rewrite delete_insert_eq.
  do 3 f_equal. rewrite set_phase_twice, (set_phase_same _ _ Hph). by destruct t; cbn in *; subst.
Qed.

(** The snapshot of a release puts the tombstone back and nothing else. *)
Lemma release_rebuilds id t M R S T :
  tombstone_ok clock t → release_live clock t = true → (usize M < MAX_RESERVATIONS)%Z →
  (usize R < MAX_RELEASE_TOMBSTONES)%Z → M !! id = None → R !! id = None → id ∉ S → T !! id = None →
  ∃ events, append_release_snapshot id t = Ok events ∧
    rebuilds events (snap M R S None T None None) (snap M (<[id := t]> R) ({[id]} ∪ S) None T None None).
Proof.
  intros Ht Hl HsM HsR HM HR HS HT. pose proof Ht as (Hok & _ & Hm).
  unfold append_release_snapshot. destruct t.(operation) eqn:Hop, t.(tomb_record).(r_phase) as [| | | |b x|] eqn:Hph; try done.
  - eexists. split; [reflexivity|]. eapply rebuilds_app; [by apply reserve_rebuilds|].
    pose proof (cancel_rebuilds id t (<[id := set_phase ReservedPhase t.(tomb_record)]> M) R ({[id]} ∪ S) T
      Ht Hop Hl HsR ltac:(apply lookup_insert_eq) HR) as H. by rewrite delete_insert_id in H by done.
  - destruct Hm as (Hb & Hx & Hxp). set (dr := set_phase (DurablePhase b) t.(tomb_record)).
    destruct (backup_status_durable id t.(tomb_record) b Hok Hb) as (bk & Hd & Hbk).
    specialize (Hbk _ (or_introl eq_refl)). fold dr in Hbk.
    set (tx := mkTransactionRecord (Some x) None None None).
    assert (tx_ok id dr b bk tx) as Htx by (split; done).
    assert (validate_for_record b dr = Ok tt) as Hbd by done.
    destruct (transaction_rebuilds clock generation anchor replay id dr b bk eq_refl Hbd Hbk Hd tx
      (<[id := dr]> M) R ({[id]} ∪ S) (<[id := fresh_transaction]> T) Htx eq_refl) as (evs & He & H);
      [apply lookup_insert_eq|apply lookup_insert_eq|done|].
    fold dr tx. rewrite He. cbn [mbind result_bind]. eexists. split; [reflexivity|].
    assert (transaction_phase tx = Resolved) as Htp by (by rewrite transaction_phase_record).
    rewrite Htp, eq_refl_true, insert_insert_eq in H. cbn in H.
    eapply rebuilds_app; [by apply reserve_rebuilds|].
    pose proof (persist_rebuilds clock generation anchor replay id dr b eq_refl Hbd
      (<[id := set_phase ReservedPhase t.(tomb_record)]> M) R ({[id]} ∪ S) T) as Hp.
    rewrite insert_insert_eq in Hp. eapply rebuilds_app; [apply Hp; [apply lookup_insert_eq|done]|].
    eapply rebuilds_app; [exact H|].
    pose proof (retire_rebuilds id t b x (<[id := dr]> M) R ({[id]} ∪ S) (<[id := tx]> T) Ht Hop Hph Hl HsR
      ltac:(apply lookup_insert_eq) HR ltac:(apply lookup_insert_eq)) as Hr.
    by rewrite !delete_insert_id in Hr by done.
Qed.

End releases.
