(* ===== verification/RepairStoreRestore.v ===== *)
(** * Replaying a whole compaction

    The snapshot of a settled state, replayed from the empty state, gives that
    state back with the retained releases, unless the table of reservations is
    full and a release has to pass through it. *)

From stdpp Require Import sorting gmap.
From Stdlib.Strings Require Import Byte.
From Stdlib Require String Ascii.
From S2P Require Import Prelude Bytes Text Crypto VaultWire JournalChain RepairVault RepairVaultProperties RepairStoreTypes RepairStoreEvents RepairStoreCompaction RepairStoreFacts RepairStoreInvariant RepairStorePreservation RepairStoreSnapshot.

(** ** The part of a map that has been restored *)

Definition restrict {V} (X : gset ReservationId) (m : gmap ReservationId V) : gmap ReservationId V :=
  filter (λ e, e.1 ∈ X) m.

Section restrict.
Context {V : Type}.
Implicit Types m : gmap ReservationId V.

Lemma restrict_lookup X m i : restrict X m !! i = if decide (i ∈ X) then m !! i else None.
Proof.
  unfold restrict. destruct (m !! i) as [v|] eqn:Hv; case_decide as Hi.
  - by apply map_lookup_filter_Some.
  - apply map_lookup_filter_None. right. intros x Hx. done.
  - apply map_lookup_filter_None. by left.
  - apply map_lookup_filter_None. by left.
Qed.

Lemma restrict_fresh X m i : i ∉ X → restrict X m !! i = None.
Proof. intros Hi. rewrite restrict_lookup. by rewrite decide_False. Qed.

Lemma restrict_insert X m i v : m !! i = Some v → restrict ({[i]} ∪ X) m = <[i := v]> (restrict X m).
Proof.
  intros Hi. apply map_eq. intros j. rewrite restrict_lookup. destruct (decide (j = i)) as [->|Hne].
  - rewrite lookup_insert_eq, decide_True by set_solver. done.
  - rewrite lookup_insert_ne by done. rewrite restrict_lookup. apply decide_ext. set_solver.
Qed.

Lemma restrict_absent X m i : m !! i = None → restrict ({[i]} ∪ X) m = restrict X m.
Proof.
  intros Hi. apply map_eq. intros j. rewrite !restrict_lookup. destruct (decide (j = i)) as [->|Hne].
  - by rewrite Hi; repeat case_decide.
  - apply decide_ext. set_solver.
Qed.

Lemma restrict_empty m : restrict ∅ m = ∅.
Proof. apply map_eq. intros i. by rewrite restrict_lookup, decide_False, lookup_empty by set_solver. Qed.

Lemma restrict_all X m : dom m ⊆ X → restrict X m = m.
Proof.
  intros HX. apply map_eq. intros i. rewrite restrict_lookup. case_decide as Hi; [done|].
  symmetry. apply not_elem_of_dom. set_solver.
Qed.

Lemma restrict_size X m i v : m !! i = Some v → i ∉ X → (usize (restrict X m) < usize m)%Z.
Proof.
  intros Hi HX. assert (restrict ({[i]} ∪ X) m ⊆ m) as Hs by apply map_filter_subseteq.
  apply map_subseteq_size in Hs. rewrite (restrict_insert _ _ _ _ Hi) in Hs.
  rewrite map_size_insert_None in Hs by (by apply restrict_fresh). unfold usize. lia.
Qed.
Lemma restrict_size_le X m : (usize (restrict X m) ≤ usize m)%Z.
Proof. unfold usize. pose proof (map_subseteq_size (restrict X m) m ltac:(apply map_filter_subseteq)). lia. Qed.
End restrict.

(** ** The order of the snapshot *)

Section restore.
Context `{sha : Sha256}.

(** A reservation of a settled state is reserved, or durable and complete. *)
Lemma settled_entry s id r :
  Inv s → s.(pending) = None → s.(reservations) !! id = Some r →
  (r.(r_phase) = ReservedPhase ∧ s.(transactions) !! id = None ∧ names s.(unresolved_transaction) id = false ∧
    names s.(unresolved_rollback) id = false) ∨
  (∃ b bk t, durable_at s id r b bk t ∧ resolution_pends t = false).
Proof.
  intros HI Hp Hr. pose proof (inv_entry _ HI _ _ Hr) as He. red in He. rewrite (names_none _ _ Hp) in He.
  destruct r.(r_phase) as [| |b| |b x|b] eqn:Hph.
  1, 4: by destruct He as (_ & ? & _).
  2: by destruct He as ((_ & ? & _) & _).
  2: by destruct He as (? & _ & _ & _ & _ & _ & _ & ? & _).
  - left. destruct He as (? & _ & ? & ?). by split_and!.
  - right. destruct (durable_facts _ _ _ _ HI Hr Hph) as (bk & t & D). exists b, bk, t. split; [done|].
    destruct D. by rewrite (names_none _ _ Hp) in da_pends.
Qed.

Lemma settled_transaction s id t :
  Inv s → s.(pending) = None → s.(transactions) !! id = Some t →
  ∃ r b bk, durable_at s id r b bk t ∧ resolution_pends t = false.
Proof.
  intros HI Hp Ht. destruct (s.(reservations) !! id) as [r|] eqn:Hr; [|destruct (inv_absent _ HI _ Hr); congruence].
  destruct (settled_entry s id r HI Hp Hr) as [(_ & Hn & _)|(b & bk & t' & D & Hrp)]; [congruence|].
  assert (t' = t) as -> by (destruct D; congruence). by exists r, b, bk.
Qed.

Definition unresolved_id (s : RecoveredState) : option ReservationId :=
  match s.(unresolved_transaction) with Some i => Some i | None => s.(unresolved_rollback) end.

Lemma unresolved_record_named s id t :
  Inv s → s.(pending) = None → s.(transactions) !! id = Some t →
  unresolved_record t = names (unresolved_id s) id.
Proof.
  intros HI Hp Ht. destruct (settled_transaction s id t HI Hp Ht) as (r & b & bk & [] & _).
  unfold unresolved_record, unresolved_id. rewrite <-da_unresolved, <-da_rollback.
  destruct (inv_exclusive _ HI) as [->|Hx]; [by rewrite names_None|].
  rewrite Hx, names_None, orb_false_r. by destruct (unresolved_transaction s).
Qed.

Lemma unresolved_id_known s id :
  Inv s → s.(pending) = None → unresolved_id s = Some id → ∃ t, s.(transactions) !! id = Some t.
Proof.
  intros HI Hp Hu. destruct (s.(reservations) !! id) as [r|] eqn:Hr.
  - destruct (settled_entry s id r HI Hp Hr) as [(_ & _ & Hn & Hn')|(b & bk & t & D & _)]; [|destruct D; eauto].
    unfold unresolved_id in Hu. destruct (unresolved_transaction s); simplify_eq;
      [by rewrite names_Some in Hn|by rewrite Hu, names_Some in Hn'].
  - destruct (inv_absent _ HI _ Hr) as (_ & _ & Hn & Hn').
    unfold unresolved_id in Hu. destruct (unresolved_transaction s); simplify_eq;
      [by rewrite names_Some in Hn|by rewrite Hu, names_Some in Hn'].
Qed.

(** The search for the unresolved transaction finds the singleton. *)
Lemma first_unresolved_id s :
  Inv s → s.(pending) = None → first_unresolved s.(transactions) = unresolved_id s.
Proof.
  intros HI Hp. unfold first_unresolved. destruct (List.find _ _) as [[i t]|] eqn:Hf.
  - apply List.find_some in Hf as [Hi Hu]. apply list_elem_of_In, elem_of_btree_iter in Hi.
    rewrite (unresolved_record_named s i t HI Hp Hi) in Hu. apply bool_decide_eq_true in Hu. by rewrite Hu.
  - destruct (unresolved_id s) as [i|] eqn:Hu; [|done].
    destruct (unresolved_id_known s i HI Hp Hu) as [t Ht].
    pose proof (List.find_none _ _ Hf (i, t)) as Hn. cbn in Hn.
    rewrite (unresolved_record_named s i t HI Hp Ht), Hu, names_Some in Hn.
    discriminate Hn. by apply list_elem_of_In, elem_of_btree_iter.
Qed.

(** ** Restoring the reservations *)

Section with_state.
Variables (s : RecoveredState) (HI : Inv s) (Hp : s.(pending) = None).
Variables (generation : Z) (anchor : option JournalAnchor) (replay : CompactionReplay).
Local Abbreviation snap := (snap s.(logical_event_clock) generation anchor replay).
Local Abbreviation res := s.(reservations).
Local Abbreviation txs := s.(transactions).

(** One reservation, after those in [X]. *)
Lemma entry_rebuilds id r R S X :
  res !! id = Some r → id ∉ X → R !! id = None → id ∉ S →
  ∃ events, append_reservation_snapshot id r (txs !! id) = Ok events ∧
    rebuilds events (snap (restrict X res) R S None (restrict X txs) None None)
      (snap (restrict ({[id]} ∪ X) res) R ({[id]} ∪ S) None (restrict ({[id]} ∪ X) txs)
         (if names s.(unresolved_transaction) id then Some id else None)
         (if names s.(unresolved_rollback) id then Some id else None)).
Proof using HI Hp.
  intros Hr HX HR HS. pose proof (inv_record _ HI _ _ Hr) as Hok.
  assert (usize (restrict X res) < MAX_RESERVATIONS)%Z as Hsz.
  { eapply Z.lt_le_trans; [by eapply restrict_size|apply HI]. }
  rewrite (restrict_insert _ _ _ _ Hr).
  destruct (settled_entry s id r HI Hp Hr) as [(Hph & Ht & -> & ->)|(b & bk & t & D & Hrp)].
  - unfold append_reservation_snapshot. rewrite Hph. eexists. split; [reflexivity|].
    rewrite (restrict_absent _ _ _ Ht). rewrite <-(set_phase_same r ReservedPhase Hph) at 2.
    apply reserve_rebuilds; try done. by apply restrict_fresh.
  - destruct D. rewrite da_transaction, (restrict_insert _ _ _ _ da_transaction).
    destruct (durable_rebuilds s.(logical_event_clock) generation anchor replay id r b bk Hok da_phase da_bound
      da_backup da_durable t (restrict X res) R S (restrict X txs) da_tx Hrp Hsz
      ltac:(by apply restrict_fresh) HR HS ltac:(by apply restrict_fresh)) as (events & He & Hev).
    { intros id' t' rb rb' Hrb Ht' Hrb' Heq. rewrite restrict_lookup in Ht'. case_decide as Hi; [|done].
      assert (id' = id) as -> by (eapply (inv_rollback_ids _ HI id' id); eauto). done. }
    exists events. split; [done|]. rewrite da_unresolved, da_rollback.
    destruct (decide (transaction_phase t = Resolved)) as [Hc|Hc].
    + rewrite Hc, ne_refl_false, eq_refl_true in *. done.
    + rewrite bool_decide_true by done. rewrite bool_decide_false in Hev by done. done.
Qed.

Lemma append_all_app {A} (f : A → result RepairVaultStoreError (list RepairEvent)) a l e es :
  f a = Ok e → append_all f l = Ok es → append_all f (a :: l) = Ok (e ++ es).
Proof. intros Ha Hl. cbn [append_all]. rewrite Ha, Hl. done. Qed.

(** Every reservation except the unresolved one, in any order. *)
Lemma active_rebuild l X :
  NoDup l.*1 → (∀ id r, ((id, r) ∈ l) → res !! id = Some r ∧ (id ∉ X) ∧ unresolved_id s ≠ Some id) →
  ∃ events, append_all (λ '(id, record), append_reservation_snapshot id record (txs !! id)) l = Ok events ∧
    rebuilds events (snap (restrict X res) ∅ X None (restrict X txs) None None)
      (snap (restrict (list_to_set l.*1 ∪ X) res) ∅ (list_to_set l.*1 ∪ X) None
         (restrict (list_to_set l.*1 ∪ X) txs) None None).
Proof using HI Hp.
  revert X. induction l as [|[id r] l IH]; intros X Hnd Hl.
  - exists []. split; [done|]. cbn. rewrite !(left_id_L ∅ (∪)). apply rebuilds_nil.
  - cbn in Hnd. apply NoDup_cons in Hnd as [Hni Hnd].
    destruct (Hl id r) as (Hr & HX & Hu); [left|].
    assert (names s.(unresolved_transaction) id = false ∧ names s.(unresolved_rollback) id = false) as [Hu1 Hu2].
    { unfold unresolved_id in Hu. unfold names. rewrite !bool_decide_eq_false.
      destruct (inv_exclusive _ HI) as [Hx|Hx]; rewrite Hx in *; [naive_solver|].
      destruct (unresolved_transaction s); naive_solver. }
    destruct (entry_rebuilds id r ∅ X X Hr HX (lookup_empty _) HX) as (e & He & Hev). rewrite Hu1, Hu2 in Hev.
    destruct (IH ({[id]} ∪ X)) as (es & Hes & Hevs); [done| |].
    { intros i r' Hi. destruct (Hl i r') as (? & ? & ?); [by right|]. split_and!; [done| |done].
      rewrite not_elem_of_union, not_elem_of_singleton. split; [|done]. intros ->. apply Hni.
      apply list_elem_of_fmap. by exists (id, r'). }
    exists (e ++ es). split; [by apply append_all_app|].
    eapply rebuilds_app; [exact Hev|]. cbn [fmap list_fmap fst list_to_set].
    replace ({[id]} ∪ list_to_set l.*1 ∪ X) with (list_to_set l.*1 ∪ ({[id]} ∪ X) : gset ReservationId) by set_solver.
    exact Hevs.
Qed.

(** ** Restoring the releases *)

Variables (rel : gmap ReservationId ReleaseTombstone).
Hypothesis Hrel : ∀ id t, rel !! id = Some t → s.(released) !! id = Some t ∧ release_live s.(logical_event_clock) t = true.
Hypothesis Hrelsize : (usize rel ≤ MAX_RETAINED_RELEASE_TOMBSTONES)%Z.

Lemma releases_rebuild l X Y :
  (usize (restrict X res) < MAX_RESERVATIONS)%Z → X ⊆ dom res →
  NoDup l.*1 → (∀ id t, ((id, t) ∈ l) → rel !! id = Some t ∧ id ∉ Y) →
  ∃ events, append_all (λ '(id, tombstone), append_release_snapshot id tombstone) l = Ok events ∧
    rebuilds events (snap (restrict X res) (restrict Y rel) (X ∪ Y) None (restrict X txs) None None)
      (snap (restrict X res) (restrict (list_to_set l.*1 ∪ Y) rel) (X ∪ (list_to_set l.*1 ∪ Y)) None
         (restrict X txs) None None).
Proof using HI Hp Hrel Hrelsize.
  intros Hsz HX. revert Y. induction l as [|[id t] l IH]; intros Y Hnd Hl.
  - exists []. split; [done|]. cbn. rewrite (left_id_L ∅ (∪)). apply rebuilds_nil.
  - cbn in Hnd. apply NoDup_cons in Hnd as [Hni Hnd].
    destruct (Hl id t) as (Ht & HY); [left|]. destruct (Hrel id t Ht) as [Hrl Hlive].
    destruct (inv_released _ HI _ _ Hrl) as [Hnr Htok].
    assert (id ∉ X) as HidX by (intros Hi; apply HX in Hi; by apply elem_of_dom in Hi as [? ?]; congruence).
    destruct (release_rebuilds s.(logical_event_clock) generation anchor replay id t (restrict X res) (restrict Y rel)
      (X ∪ Y) (restrict X txs) Htok Hlive Hsz) as (e & He & Hev).
    { eapply Z.lt_trans; [by eapply restrict_size|]. eapply Z.le_lt_trans; [exact Hrelsize|].
      unfold MAX_RETAINED_RELEASE_TOMBSTONES, MAX_RELEASE_TOMBSTONES, MAX_JOURNAL_EVENTS. done. }
    { by apply restrict_fresh. }
    { by apply restrict_fresh. }
    { set_solver. }
    { by apply restrict_fresh. }
    destruct (IH ({[id]} ∪ Y)) as (es & Hes & Hevs); [done| |].
    { intros i t' Hi. destruct (Hl i t') as (? & ?); [by right|]. split; [done|].
      rewrite not_elem_of_union, not_elem_of_singleton. split; [|done]. intros ->. apply Hni.
      apply list_elem_of_fmap. by exists (id, t'). }
    exists (e ++ es). split; [by apply append_all_app|].
    rewrite <-(restrict_insert _ _ _ _ Ht) in Hev.
    replace ({[id]} ∪ (X ∪ Y)) with (X ∪ ({[id]} ∪ Y) : gset ReservationId) in Hev by set_solver.
    eapply rebuilds_app; [exact Hev|]. cbn [fmap list_fmap fst list_to_set].
    replace ({[id]} ∪ list_to_set l.*1 ∪ Y) with (list_to_set l.*1 ∪ ({[id]} ∪ Y) : gset ReservationId) by set_solver.
    exact Hevs.
Qed.

End with_state.
End restore.
