(* ===== verification/RepairStoreCompactionProperties.v ===== *)
(** * Compaction of the repair journal is exact, where it succeeds

    The staged snapshot of a settled store replays to the store it was taken
    from; it fails to replay in exactly one situation, which a store can reach. *)

From stdpp Require Import sorting gmap.
From Stdlib.Strings Require Import Byte.
From Stdlib Require String Ascii.
From S2P Require Import Prelude Bytes Text Crypto VaultWire JournalChain JournalChainProperties JournalChainClaims RepairVault RepairVaultProperties RepairStoreTypes RepairStoreEvents RepairStoreCompaction RepairStoreFacts RepairStoreInvariant RepairStorePreservation RepairStoreSnapshot RepairStoreRestore.

(** ** The retained releases *)

Lemma NoDup_fst_perm {A B} (l l' : list (A * B)) : l ≡ₚ l' → NoDup l'.*1 → NoDup l.*1.
Proof. by intros ->. Qed.

Lemma retained_entries s :
  ∃ l, retained_release_tombstones s = list_to_map l ∧ NoDup l.*1 ∧ length l ≤ 64 ∧
    ∀ e, e ∈ l → e ∈ btree_iter s.(released) ∧ release_live s.(logical_event_clock) e.2 = true.
Proof.
  unfold retained_release_tombstones.
  set (f := filter _ (btree_iter s.(released))). set (so := merge_sort release_le f).
  assert (so ≡ₚ f) as Hp by apply merge_sort_Permutation.
  eexists. split; [reflexivity|]. split_and!.
  - eapply sublist_NoDup; [|apply fmap_sublist, sublist_drop].
    eapply NoDup_fst_perm; [exact Hp|]. apply NoDup_fst_filter. rewrite btree_iter_perm. apply NoDup_fst_map_to_list.
  - rewrite length_drop. unfold MAX_RETAINED_RELEASE_TOMBSTONES. lia.
  - intros e He. apply subseteq_drop in He. rewrite Hp in He. by apply list_elem_of_filter in He as [? ?].
Qed.

Lemma retained_live s id t :
  retained_release_tombstones s !! id = Some t →
  s.(released) !! id = Some t ∧ release_live s.(logical_event_clock) t = true.
Proof.
  destruct (retained_entries s) as (l & -> & Hnd & _ & Hl). intros H%elem_of_list_to_map_2.
  apply Hl in H as [H1 H2]. by apply elem_of_btree_iter in H1.
Qed.

Lemma retained_size s : (usize (retained_release_tombstones s) ≤ MAX_RETAINED_RELEASE_TOMBSTONES)%Z.
Proof.
  destruct (retained_entries s) as (l & -> & Hnd & Hlen & _). unfold usize, MAX_RETAINED_RELEASE_TOMBSTONES.
  rewrite map_size_list_to_map by done. lia.
Qed.

Lemma btree_keys {V} (m : gmap ReservationId V) : list_to_set (btree_iter m).*1 = dom m.
Proof.
  apply set_eq. intros i. rewrite elem_of_list_to_set, elem_of_dom, list_elem_of_fmap. split.
  - intros ([j v] & -> & Hj%elem_of_btree_iter). by exists v.
  - intros [v Hv]. exists (i, v). split; [done|]. by apply elem_of_btree_iter.
Qed.

Lemma NoDup_btree_keys {V} (m : gmap ReservationId V) : NoDup (btree_iter m).*1.
Proof. eapply NoDup_fst_perm; [apply btree_iter_perm|apply NoDup_fst_map_to_list]. Qed.

Lemma length_btree_iter {V} (m : gmap ReservationId V) : Z.of_nat (length (btree_iter m)) = usize m.
Proof. unfold usize. by rewrite btree_iter_perm, length_map_to_list. Qed.

Section compaction.
Context `{sha : Sha256}.

(** ** The length of a snapshot *)

Ltac count := repeat (rewrite length_app || cbn [length]).

Lemma rollback_snapshot_length id r t rb l : append_rollback_snapshot id r t rb = Ok l → length l ≤ 4.
Proof.
  unfold append_rollback_snapshot. intros H. apply result_bind_Ok in H as (src & _ & H).
  apply result_bind_Ok in H as (p & _ & H). apply Ok_inj_1 in H as <-.
  count. destruct (rb_write_lease rb), (rb_resolution rb); cbn [length]; lia.
Qed.

Lemma transaction_snapshot_length id r t l : append_transaction_snapshot id r t = Ok l → length l ≤ 7.
Proof.
  unfold append_transaction_snapshot. intros H. apply result_bind_Ok in H as (p & _ & H).
  apply result_bind_Ok in H as (rb & Hrb & H). apply Ok_inj_1 in H as <-.
  assert (length rb ≤ 4).
  { destruct (t_rollback t); [by eapply rollback_snapshot_length|]. apply Ok_inj_1 in Hrb as <-. cbn. lia. }
  count. destruct (t_write_lease t), (t_resolution t); cbn [length]; lia.
Qed.

Lemma reservation_snapshot_length id r t l : append_reservation_snapshot id r t = Ok l → length l ≤ 11.
Proof.
  unfold append_reservation_snapshot. intros H. destruct r.(r_phase); try done.
  - apply Ok_inj_1 in H as <-. cbn. lia.
  - apply result_bind_Ok in H as (t' & _ & H). apply result_bind_Ok in H as (evs & He & H).
    apply Ok_inj_1 in H as <-. apply transaction_snapshot_length in He.
    unfold append_reserve_snapshot, append_persist_snapshot. count. lia.
Qed.

Lemma release_snapshot_length id t l : append_release_snapshot id t = Ok l → length l ≤ 13.
Proof.
  unfold append_release_snapshot. intros H. destruct t.(operation), (r_phase _); try done.
  - apply Ok_inj_1 in H as <-. cbn. lia.
  - apply result_bind_Ok in H as (evs & He & H). apply Ok_inj_1 in H as <-.
    apply transaction_snapshot_length in He.
    unfold append_reserve_snapshot, append_persist_snapshot. count. lia.
Qed.

Lemma append_all_length {A} (f : A → result RepairVaultStoreError (list RepairEvent)) k l es :
  (∀ a e, f a = Ok e → length e ≤ k) → append_all f l = Ok es → length es ≤ k * length l.
Proof.
  intros Hf. revert es. induction l as [|a l IH]; intros es H; [by apply Ok_inj_1 in H as <-; cbn; lia|].
  cbn in H. apply result_bind_Ok in H as (e & He & H). apply result_bind_Ok in H as (es' & Hes & H).
  apply Ok_inj_1 in H as <-. apply Hf in He. apply IH in Hes. rewrite length_app. cbn [length]. lia.
Qed.

Lemma decode_anchor_text anchor : wf_anchor anchor → decode_compaction_anchor (hex_string (to_bytes anchor)) = Some anchor.
Proof.
  intros Hw. unfold decode_compaction_anchor, valid_lower_hex, len.
  rewrite hex_string_class, length_hex_string, length_to_bytes by done.
  rewrite bool_decide_true by lia. cbn [negb andb].
  rewrite pairs_bytes_hex. by rewrite (proj2 (anchor_encoding_bijective _ anchor) (conj Hw eq_refl)).
Qed.

(** A full table takes no further reservation. *)
Lemma full_refuses n id d b c v i p st :
  is_some st.(compaction_replay) = true → (MAX_RESERVATIONS ≤ usize st.(reservations))%Z →
  ∃ st' e, apply_repair_event n (ReserveIntent id d b c v i p) st = (st', Err e).
Proof.
  intros Hr Hf. unfold apply_repair_event, tick. run_methods. rewrite Hr. cbn [control_event negb andb dispatch].
  unfold apply_reserve_intent. run_methods. destruct (draft_validate d) as [[]|e]; [|eauto].
  rewrite (proj2 (Z.leb_le _ _) Hf), !orb_true_r. eauto.
Qed.

(** ** The state that a compaction leaves *)

Definition compacted (s : RecoveredState) (anchor : JournalAnchor) : RecoveredState :=
  mkState s.(reservations) (retained_release_tombstones s)
    (dom s.(reservations) ∪ dom (retained_release_tombstones s)) None s.(transactions)
    s.(unresolved_transaction) s.(unresolved_rollback) s.(logical_event_clock)
    (s.(compaction_generation) + 1) (Some anchor) None.

(** A full table with nothing unresolved, and a release to carry over. *)
Definition compaction_blocked (s : RecoveredState) : bool :=
  (usize s.(reservations) == MAX_RESERVATIONS) && (retained_release_tombstones s != ∅)
  && negb (is_some (unresolved_id s)).

Section one.
Variables (s : RecoveredState) (anchor : JournalAnchor).
Hypothesis (HI : Inv s) (Hp : s.(pending) = None).
Let generation := (s.(compaction_generation) + 1)%Z.
Let rel := retained_release_tombstones s.
Let replay := mkReplay generation (usize s.(reservations)) (usize rel).
Local Abbreviation snap := (snap s.(logical_event_clock) generation (Some anchor) replay).
Local Abbreviation res := s.(reservations).
Local Abbreviation txs := s.(transactions).

(** The reservations that are restored before the releases. *)
Definition settled_ids : gset ReservationId := filter (λ id, Some id ≠ unresolved_id s) (dom res).

Lemma active_events :
  ∃ events, append_all (λ '(id, record), append_reservation_snapshot id record (txs !! id))
      (filter (λ e, Some e.1 ≠ unresolved_id s) (btree_iter res)) = Ok events ∧ length events ≤ 704 ∧
    rebuilds events (snap ∅ ∅ ∅ None ∅ None None)
      (snap (restrict settled_ids res) ∅ settled_ids None (restrict settled_ids txs) None None).
Proof using HI Hp.
  set (l := filter _ _).
  destruct (active_rebuild s HI Hp generation (Some anchor) replay l ∅) as (events & He & Hev).
  - apply NoDup_fst_filter, NoDup_btree_keys.
  - intros id r [Hu Hi]%list_elem_of_filter. cbn in Hu. apply elem_of_btree_iter in Hi.
    split_and!; [done|set_solver|congruence].
  - exists events. split; [done|]. split.
    + pose proof He as Hle. apply (append_all_length _ 11) in Hle; [|intros [??] e; apply reservation_snapshot_length].
      assert (length l ≤ length (btree_iter res)) as Hl by (apply sublist_length, sublist_filter).
      pose proof (length_btree_iter res) as Hbl. pose proof (inv_capacity _ HI) as Hc.
      unfold MAX_RESERVATIONS in Hc. lia.
    + assert (list_to_set l.*1 ∪ ∅ = settled_ids) as Hset.
      { unfold settled_ids. apply set_eq. intros i.
        rewrite elem_of_union, elem_of_list_to_set, elem_of_filter, elem_of_dom, list_elem_of_fmap. split.
        - intros [([j r] & -> & [Hj Hi]%list_elem_of_filter)|Hx]; [|set_solver]. cbn in *.
          apply elem_of_btree_iter in Hi. split; [done|eauto].
        - intros [Hu [r Hr]]. left. exists (i, r). split; [done|]. apply list_elem_of_filter.
          split; [done|]. by apply elem_of_btree_iter. }
      rewrite Hset in Hev. by rewrite !restrict_empty in Hev.
Qed.

Lemma settled_subset : settled_ids ⊆ dom res.
Proof. unfold settled_ids. by intros i [_ ?]%elem_of_filter. Qed.

Lemma settled_room :
  compaction_blocked s = false → rel = ∅ ∨ (usize (restrict settled_ids res) < MAX_RESERVATIONS)%Z.
Proof using HI Hp.
  unfold compaction_blocked. rewrite !andb_false_iff, negb_false_iff. intros [[Hb|Hb]|Hb].
  - right. apply bool_decide_eq_false in Hb. pose proof (restrict_size_le settled_ids res).
    pose proof (inv_capacity _ HI). lia.
  - left. by apply bool_decide_not_false_1 in Hb; [|apply _].
  - right. apply is_some_true in Hb as [u Hu]. destruct (unresolved_id_known s u HI Hp Hu) as [t Ht].
    destruct (settled_transaction s u t HI Hp Ht) as (r & b & bk & [] & _).
    eapply Z.lt_le_trans; [eapply restrict_size; [exact da_reservation|]|apply HI].
    unfold settled_ids. rewrite elem_of_filter. naive_solver.
Qed.

Lemma releases_length events :
  append_all (λ '(id, tombstone), append_release_snapshot id tombstone) (btree_iter rel) = Ok events →
  length events ≤ 832.
Proof.
  intros Hle%(append_all_length _ 13); [|intros [??] e; apply release_snapshot_length].
  pose proof (length_btree_iter rel) as Hbl. pose proof (retained_size s) as Hc. fold rel in Hc.
  unfold MAX_RETAINED_RELEASE_TOMBSTONES in Hc. lia.
Qed.

Lemma release_events :
  rel = ∅ ∨ (usize (restrict settled_ids res) < MAX_RESERVATIONS)%Z →
  ∃ events, append_all (λ '(id, tombstone), append_release_snapshot id tombstone) (btree_iter rel) = Ok events ∧
    length events ≤ 832 ∧
    rebuilds events (snap (restrict settled_ids res) ∅ settled_ids None (restrict settled_ids txs) None None)
      (snap (restrict settled_ids res) rel (settled_ids ∪ dom rel) None (restrict settled_ids txs) None None).
Proof using HI Hp.
  intros [He|Hroom].
  - exists []. rewrite He. split; [done|]. split; [cbn; lia|]. rewrite dom_empty_L, (right_id_L ∅ (∪)). apply rebuilds_nil.
  - destruct (releases_rebuild s HI Hp generation (Some anchor) replay rel (retained_live s) (retained_size s)
      (btree_iter rel) settled_ids ∅ Hroom settled_subset) as (events & He & Hev).
    + apply NoDup_btree_keys.
    + intros id t Hi%elem_of_btree_iter. split; [done|set_solver].
    + exists events. split; [done|]. split; [by apply releases_length|].
      rewrite btree_keys, !(right_id_L ∅ (∪)), restrict_empty in Hev. rewrite (restrict_all (dom rel) rel) in Hev by done. exact Hev.
Qed.

Lemma last_events :
  ∃ events, match unresolved_id s with
      | Some id => record ← ok_or (res !! id) CorruptJournal; append_reservation_snapshot id record (txs !! id)
      | None => Ok []
      end = Ok events ∧ length events ≤ 11 ∧
    rebuilds events (snap (restrict settled_ids res) rel (settled_ids ∪ dom rel) None (restrict settled_ids txs) None None)
      (snap res rel (dom res ∪ dom rel) None txs s.(unresolved_transaction) s.(unresolved_rollback)).
Proof using HI Hp.
  assert (dom txs ⊆ dom res) as Hdt.
  { intros i [t Ht]%elem_of_dom. destruct (settled_transaction s i t HI Hp Ht) as (r & b & bk & [] & _).
    by apply elem_of_dom. }
  destruct (unresolved_id s) as [u|] eqn:Hu.
  - destruct (unresolved_id_known s u HI Hp Hu) as [t Ht].
    destruct (settled_transaction s u t HI Hp Ht) as (r & b & bk & D & _). pose proof (da_reservation _ _ _ _ _ _ D) as Hr.
    assert (u ∉ settled_ids) as HuX by (unfold settled_ids; rewrite elem_of_filter; naive_solver).
    assert (rel !! u = None) as HuR.
    { destruct (rel !! u) as [tb|] eqn:Htb; [|done]. apply retained_live in Htb as [Htb _].
      destruct (inv_released _ HI _ _ Htb). congruence. }
    assert (u ∉ settled_ids ∪ dom rel) as HuS by (rewrite elem_of_union, elem_of_dom; intros [?|[? ?]]; [done|congruence]).
    destruct (entry_rebuilds s HI Hp generation (Some anchor) replay u r rel (settled_ids ∪ dom rel) settled_ids Hr HuX HuR HuS)
      as (events & He & Hev).
    exists events. rewrite Hr. cbn [ok_or mbind result_bind]. split; [done|]. split; [by eapply reservation_snapshot_length|].
    assert ({[u]} ∪ settled_ids = dom res) as Hall.
    { unfold settled_ids. apply set_eq. intros i. rewrite elem_of_union, elem_of_singleton, elem_of_filter, elem_of_dom.
      rewrite Hu. destruct (decide (i = u)) as [->|Hne]; naive_solver. }
    replace ({[u]} ∪ (settled_ids ∪ dom rel)) with (({[u]} ∪ settled_ids) ∪ dom rel) in Hev by set_solver.
    rewrite Hall, (restrict_all (dom res) res), (restrict_all (dom res) txs) in Hev by done.
    replace (if names s.(unresolved_transaction) u then Some u else None) with s.(unresolved_transaction) in Hev.
    2:{ unfold unresolved_id in Hu. destruct (unresolved_transaction s) as [v|]; simplify_eq; [by rewrite names_Some|done]. }
    replace (if names s.(unresolved_rollback) u then Some u else None) with s.(unresolved_rollback) in Hev; [done|].
    unfold unresolved_id in Hu. destruct (inv_exclusive _ HI) as [Hx|Hx]; rewrite Hx in *; [by rewrite Hu, names_Some|done].
  - exists []. split; [done|]. split; [cbn; lia|].
    assert (settled_ids = dom res) as -> by
      (unfold settled_ids; apply set_eq; intros i; rewrite elem_of_filter, Hu; naive_solver).
    rewrite (restrict_all (dom res) res), (restrict_all (dom res) txs) by done. unfold unresolved_id in Hu.
    destruct (unresolved_transaction s) eqn:Hut; [done|]. rewrite Hu. apply rebuilds_nil.
Qed.

(** The staged journal between its control records. *)
Lemma staged_events :
  compaction_blocked s = false →
  ∃ events, compaction_events res rel txs s.(logical_event_clock) generation anchor
      = Ok (CompactionBegin generation s.(logical_event_clock) (usize res) (usize rel) (hex_string (to_bytes anchor))
            :: events ++ [CompactionComplete generation]) ∧
    length events ≤ 1547 ∧
    rebuilds events (snap ∅ ∅ ∅ None ∅ None None)
      (snap res rel (dom res ∪ dom rel) None txs s.(unresolved_transaction) s.(unresolved_rollback)).
Proof using HI Hp.
  intros Hb. destruct active_events as (ea & Ha & La & Ra).
  destruct (release_events (settled_room Hb)) as (er & Hr & Lr & Rr). destruct last_events as (el & Hl & Ll & Rl).
  exists (ea ++ er ++ el). unfold compaction_events. rewrite first_unresolved_id by done.
  rewrite Ha. cbn [mbind result_bind]. rewrite Hr. cbn [mbind result_bind]. rewrite Hl. cbn [mbind result_bind].
  split; [by rewrite <-!app_assoc|]. split; [rewrite !length_app; lia|].
  eapply rebuilds_app; [exact Ra|]. eapply rebuilds_app; [exact Rr|exact Rl].
Qed.

(** ** The control records *)

Lemma begin_applies n :
  n = 1%Z → wf_anchor anchor →
  apply_repair_event n (CompactionBegin generation s.(logical_event_clock) (usize res) (usize rel)
    (hex_string (to_bytes anchor))) default_state = (snap ∅ ∅ ∅ None ∅ None None, Ok tt).
Proof using HI.
  intros -> Hw. unfold apply_repair_event, tick. run_methods. cbn [control_event negb andb dispatch].
  unfold apply_compaction_begin. fwd_call; [by rewrite decode_anchor_text|].
  pose proof (inv_capacity _ HI) as Hc. pose proof (retained_size s) as Hr. fold rel in Hr.
  pose proof (inv_generation _ HI) as [Hg _].
  fwd_guard; [|reflexivity]. cbn.
  rewrite (proj2 (Z.ltb_ge _ _) Hc), (proj2 (Z.ltb_ge _ _) Hr). unfold generation.
  rewrite !ne_refl_false, bool_decide_false by lia. done.
Qed.

(** The rebuilt state is as good as the one it was taken from. *)
Lemma rebuilt_inv S :
  dom res ∪ dom rel ⊆ S →
  is_u64 generation →
  Inv (snap res rel S None txs s.(unresolved_transaction) s.(unresolved_rollback)).
Proof using HI Hp.
  intros HS Hg. destruct HI. rewrite Hp in *. split; try done.
  - intros id t Ht. apply inv_released. by apply retained_live.
  - intros id Hi. apply HS, elem_of_union. rewrite !elem_of_dom. exact Hi.
Qed.

(** The completion check accepts the rebuilt state. *)
Lemma complete_applies n :
  is_u64 generation →
  apply_repair_event n (CompactionComplete generation)
    (snap res rel (dom res ∪ dom rel) None txs s.(unresolved_transaction) s.(unresolved_rollback))
    = (compacted s anchor, Ok tt).
Proof using HI Hp.
  intros Hg. unfold apply_repair_event, tick. run_methods. cbn [control_event negb andb dispatch].
  unfold apply_compaction_complete. fwd_call; [reflexivity|]. fwd_guard; [|reflexivity]. cbn -[base.size].
  rewrite !ne_refl_false, settled_consistent by (done || by apply rebuilt_inv).
  assert (Z.of_nat (base.size (dom res ∪ dom rel)) = usize res + usize rel)%Z as ->.
  { rewrite size_union, !size_dom; [unfold usize; lia|].
    intros i [r Hr]%elem_of_dom [t Ht]%elem_of_dom. apply retained_live in Ht as [Ht _].
    destruct (inv_released _ HI _ _ Ht). congruence. }
  rewrite ne_refl_false. destruct (existsb _ _) eqn:He; [|done].
  apply existsb_exists in He as ([i r] & Hi%list_elem_of_In%elem_of_btree_iter & He).
  destruct (settled_entry s i r HI Hp Hi) as [(Hph & _)|(b & bk & t & [] & _)]; [by rewrite Hph in He|].
  by rewrite da_phase in He.
Qed.

(** ** Compaction from a settled state *)

Lemma generation_fits : (s.(compaction_generation) < U64_MAX)%Z →
  checked_add_u64 s.(compaction_generation) 1 = Some generation ∧ is_u64 generation.
Proof using HI.
  intros Hg. pose proof (inv_generation _ HI) as [H0 _]. unfold checked_add_u64, is_u64, generation.
  rewrite (proj2 (Z.leb_le _ _)) by lia. split; [done|lia].
Qed.

Lemma staged_short events : length events ≤ 1547 →
  (JOURNAL_COMPACTION_TRIGGER_EVENTS <=? Z.of_nat (length (CompactionBegin generation s.(logical_event_clock)
    (usize res) (usize rel) (hex_string (to_bytes anchor)) :: events ++ [CompactionComplete generation])))%Z = false.
Proof. intros Hl. apply Z.leb_gt. cbn [length]. rewrite length_app. unfold JOURNAL_COMPACTION_TRIGGER_EVENTS. cbn. lia. Qed.

Lemma open_short events : length events ≤ 1547 →
  let staged := CompactionBegin generation s.(logical_event_clock) (usize res) (usize rel)
    (hex_string (to_bytes anchor)) :: events ++ [CompactionComplete generation] in
  open_generation staged =
    (state ← map_err (λ _, CorruptJournal) (replay_from 1 staged default_state);
     if is_some state.(compaction_replay) then Err CorruptJournal else Ok state).
Proof.
  intros Hl staged. unfold open_generation. rewrite (proj2 (Z.ltb_ge _ _)); [done|].
  unfold staged. cbn [length]. rewrite length_app. unfold MAX_JOURNAL_EVENTS. cbn. lia.
Qed.

(** The events of the snapshot, and what staging them gives. *)
Lemma settled_snapshot :
  wf_anchor anchor → (s.(compaction_generation) < U64_MAX)%Z → compaction_blocked s = false →
  ∃ events, compaction_events res rel txs s.(logical_event_clock) generation anchor = Ok events ∧
    snapshot_events s anchor = Ok (generation, events) ∧ length events ≤ 1549 ∧
    reopen_snapshot s generation anchor events = Ok (compacted s anchor).
Proof using HI Hp.
  intros Hw Hg Hb. destruct (generation_fits Hg) as [Hadd Hu]. destruct (staged_events Hb) as (events & He & Hl & Hrb).
  eexists. split; [exact He|]. split_and!.
  - unfold snapshot_events. rewrite Hadd. cbn [ok_or mbind result_bind]. fold rel. rewrite He.
    cbn [mbind result_bind]. by rewrite (staged_short _ Hl).
  - cbn [length]. rewrite length_app. cbn. lia.
  - unfold reopen_snapshot. rewrite (open_short _ Hl). cbn [replay_from app].
    rewrite begin_applies by done. rewrite Hrb. cbn [replay_from].
    rewrite complete_applies by done. cbn [map_err mbind result_bind compacted compaction_replay is_some].
    unfold validate_compacted_state. cbn -[dom]. by rewrite !ne_refl_false.
Qed.

Lemma settled_compacts encoded_len :
  wf_anchor anchor → (s.(compaction_generation) < U64_MAX)%Z → compaction_blocked s = false →
  ∃ events, compaction_events res rel txs s.(logical_event_clock) generation anchor = Ok events ∧
    (forallb (event_fits encoded_len) events = true →
     staged_snapshot encoded_len s anchor = Ok (events, compacted s anchor)).
Proof using HI Hp.
  intros Hw Hg Hb. destruct (settled_snapshot Hw Hg Hb) as (events & He & Hs & _ & Hr).
  exists events. split; [done|]. intros Hfit. unfold staged_snapshot. rewrite Hs. cbn [mbind result_bind].
  rewrite Hfit. cbn [negb]. by rewrite Hr.
Qed.

(** The first release to restore asks for a reservation. *)
Lemma releases_append : rel ≠ ∅ →
  ∃ id d b c v i p rest, append_all (λ '(id, tombstone), append_release_snapshot id tombstone) (btree_iter rel)
    = Ok (ReserveIntent id d b c v i p :: rest) ∧ length rest ≤ 832.
Proof using HI Hp anchor.
  intros Hne. destruct (releases_rebuild s HI Hp generation (Some anchor) replay rel (retained_live s) (retained_size s)
      (btree_iter rel) ∅ ∅) as (er & Hr & _).
  - rewrite restrict_empty. done.
  - set_solver.
  - apply NoDup_btree_keys.
  - intros id t Hi%elem_of_btree_iter. split; [done|set_solver].
  - pose proof (releases_length er Hr) as Hl. destruct (btree_iter rel) as [|[id t] l] eqn:Hb.
    { destruct Hne. apply map_size_empty_iff. pose proof (length_btree_iter rel) as Hz. rewrite Hb in Hz.
      unfold usize in Hz. cbn in Hz. lia. }
    cbn [append_all] in Hr |- *. apply result_bind_Ok in Hr as (e & He & Hr). rewrite He. cbn [mbind result_bind].
    apply result_bind_Ok in Hr as (es & Hes & Hr). rewrite Hes. cbn [mbind result_bind]. apply Ok_inj_1 in Hr as <-.
    unfold append_release_snapshot in He. destruct (operation t), (r_phase _); try done.
    + apply Ok_inj_1 in He as <-. do 8 eexists. split; [reflexivity|]. exact (Nat.le_trans _ _ _ (Nat.le_succ_diag_r _) Hl).
    + apply result_bind_Ok in He as (? & _ & He). apply Ok_inj_1 in He as <-.
      do 8 eexists. split; [reflexivity|]. exact (Nat.le_trans _ _ _ (Nat.le_succ_diag_r _) Hl).
Qed.

(** Nothing is unresolved, so every reservation is restored before the first release. *)
Lemma blocked_compaction encoded_len :
  wf_anchor anchor → (s.(compaction_generation) < U64_MAX)%Z → compaction_blocked s = true →
  ∃ e, staged_snapshot encoded_len s anchor = Err e ∧ (e = CorruptStore ∨ e = CorruptJournal).
Proof using HI Hp.
  unfold compaction_blocked. rewrite !andb_true_iff, negb_true_iff. intros Hw Hg [[Hfull Hne] Hnone].
  apply bool_decide_eq_true in Hfull. apply bool_decide_eq_true in Hne.
  assert (unresolved_id s = None) as Hu by (by destruct (unresolved_id s)).
  destruct (generation_fits Hg) as [Hadd Hgen]. destruct active_events as (ea & Ha & La & Ra).
  assert (settled_ids = dom res) as Hs.
  { unfold settled_ids. apply set_eq. intros i. rewrite elem_of_filter, Hu. naive_solver. }
  rewrite Hs, (restrict_all (dom res) res) in Ra by done.
  destruct (releases_append Hne) as (id & d & b & c & v & i & p & rest & Hr & Lr).
  unfold staged_snapshot, snapshot_events, reopen_snapshot. rewrite Hadd. cbn [ok_or mbind result_bind]. fold rel.
  unfold compaction_events. rewrite first_unresolved_id, Ha by done. cbn [mbind result_bind]. rewrite Hr, Hu. cbn [mbind result_bind].
  rewrite app_nil_l, (app_assoc ea), staged_short by (rewrite length_app; cbn [length]; lia).
  cbn [mbind result_bind]. destruct (forallb (event_fits encoded_len) _); cbn [negb]; [|eauto].
  rewrite open_short by (rewrite length_app; cbn [length]; lia). cbn [replay_from]. rewrite begin_applies by done. rewrite <-!app_assoc, Ra.
  cbn [app replay_from]. match goal with |- context [apply_repair_event ?n (ReserveIntent id d b c v i p) ?st] =>
    destruct (full_refuses n id d b c v i p st) as (st' & e & ->) end; [done|cbn; lia|cbn; eauto].
Qed.
End one.
End compaction.
