(* ===== verification/RepairStoreProperties.v ===== *)
(** * What a repair journal guarantees

    Consequences of the invariant over whole journals: reservation identifiers
    are used once, the backup of an unresolved transaction stays, and a boot gets
    the write lease of a transaction once. *)

From stdpp Require Import sorting gmap.
From Stdlib.Strings Require Import Byte.
From Stdlib Require String Ascii.
From S2P Require Import Prelude Bytes Text Crypto VaultWire JournalChain RepairVault RepairVaultProperties RepairStoreTypes RepairStoreEvents RepairStoreCompaction RepairStoreFacts RepairStoreInvariant RepairStorePreservation RepairStoreSnapshot RepairStoreRestore RepairStoreCompactionProperties.

(** The reservation that an event is about. *)
Definition event_target (e : RepairEvent) : option ReservationId :=
  match e with
  | CompactionBegin _ _ _ _ _ | CompactionComplete _ => None
  | ReserveIntent id _ _ _ _ _ _ | ReserveComplete id | ReserveAbort id | PersistIntent id _
  | PersistComplete id _ _ | PersistAbort id | TransactionWriteLeaseConsume id _ _ _
  | TransactionResolveIntent id _ _ _ | TransactionResolveComplete id _ | RollbackBegin id _ _ _ _
  | RollbackWriteLeaseConsume id _ _ _ _ | RollbackResolveIntent id _ _ _ _ | RollbackResolveComplete id _ _
  | CancelIntent id | CancelComplete id _ | RetireIntent id | RetireComplete id _ => Some id
  end.

(** The identifiers that a journal reserves, in order. *)
Definition reserved_ids (events : list RepairEvent) : list ReservationId :=
  omap (λ e, match e with ReserveIntent id _ _ _ _ _ _ => Some id | _ => None end) events.

(** The events that may end the transaction or the rollback of a reservation. *)
Definition resolves (id : ReservationId) (e : RepairEvent) : bool :=
  match e with
  | TransactionResolveComplete i _ | RollbackResolveComplete i _ _ => i == id
  | _ => false
  end.

Section properties.
Context `{sha : Sha256}.

(** ** One event, one reservation *)

Lemma dispatch_frame n restoring e i s s' :
  dispatch n restoring e s = (s', Ok tt) → event_target e = Some i →
  s.(seen_reservation_ids) ⊆ s'.(seen_reservation_ids) ∧
  (∀ id, id ≠ i → s'.(reservations) !! id = s.(reservations) !! id ∧ s'.(transactions) !! id = s.(transactions) !! id).
Proof.
  intros H Ht. destruct e; simplify_eq/=;
  (match type of H with ?f _ = _ => let h := get_head f in unfold h in H end; accepted H; split;
    [repeat case_match; set_solver|intros id Hne; repeat case_match; simpl; by lookups]).
Qed.

(** A control record leaves the reservations alone, or starts from nothing. *)
Lemma dispatch_control n restoring e s s' :
  dispatch n restoring e s = (s', Ok tt) → event_target e = None →
  s'.(seen_reservation_ids) = s.(seen_reservation_ids) ∧ s'.(reservations) = s.(reservations) ∧
  s'.(transactions) = s.(transactions) ∧ s'.(unresolved_transaction) = s.(unresolved_transaction) ∧
  s'.(unresolved_rollback) = s.(unresolved_rollback).
Proof.
  intros H Ht. destruct e; try done; cbn [dispatch] in H;
  (match type of H with ?f _ = _ => let h := get_head f in unfold h in H end; accepted H; done).
Qed.

(** ** Identifiers are used once *)

Lemma dispatch_seen n restoring e s s' :
  dispatch n restoring e s = (s', Ok tt) → s.(seen_reservation_ids) ⊆ s'.(seen_reservation_ids).
Proof.
  intros H. destruct (event_target e) as [i|] eqn:Ht; [by eapply dispatch_frame|].
  by rewrite (proj1 (dispatch_control _ _ _ _ _ H Ht)).
Qed.

Lemma reserve_seen n restoring id d b c v i p s s' :
  dispatch n restoring (ReserveIntent id d b c v i p) s = (s', Ok tt) →
  (id ∉ s.(seen_reservation_ids)) ∧ id ∈ s'.(seen_reservation_ids).
Proof. cbn [dispatch]. unfold apply_reserve_intent. intros H. accepted H. simpl. set_solver. Qed.

(** Inverts one replayed event: it is dispatched in [s] with the clock advanced. *)
Lemma replay_cons n e es s s' :
  replay_from n (e :: es) s = Ok s' →
  ∃ c s1, dispatch n (is_some s.(compaction_replay)) e (set_clock c s) = (s1, Ok tt) ∧
    replay_from (n + 1) es s1 = Ok s' ∧ (Inv s → Inv (set_clock c s)).
Proof.
  cbn [replay_from]. destruct (apply_repair_event n e s) as [s1 [[]|]] eqn:Ha; [|done]. intros H.
  destruct (apply_event_Ok _ _ _ _ Ha) as (s0 & Hd & [->|(c & Hc & ->)]).
  - exists s.(logical_event_clock), s1. by destruct s.
  - exists c, s1. split_and!; [done..|]. intros HI. apply checked_add_u64_Some in Hc as [-> Hc].
    apply Inv_tick; [done|]. pose proof (inv_clock _ HI) as Hcl. unfold is_u64 in Hcl. lia.
Qed.

Lemma reserved_ids_fresh n es s s' :
  replay_from n es s = Ok s' →
  NoDup (reserved_ids es) ∧ (∀ id, id ∈ reserved_ids es → id ∉ s.(seen_reservation_ids)).
Proof.
  revert n s. induction es as [|e es IH]; intros n s H; [split; [constructor|set_solver]|].
  apply replay_cons in H as (c & s1 & Hd & Hr & _). apply IH in Hr as [Hnd Hf]. clear IH.
  pose proof (dispatch_seen _ _ _ _ _ Hd) as Hsub. cbn in Hsub.
  assert (∀ id, id ∈ reserved_ids es → id ∉ s.(seen_reservation_ids)) as Hf' by set_solver.
  destruct e; try done. apply reserve_seen in Hd as [Hn Hi]. cbn. split.
  - constructor; [|done]. intros Hin. by apply Hf in Hin.
  - intros id' [->|Hin]%elem_of_cons; [done|by apply Hf'].
Qed.

(** ** An unresolved transaction keeps its backup *)

(** Inverts the event that was dispatched. *)
Ltac by_event H :=
  match type of H with ?f _ = _ => let h := get_head f in unfold h in H end; accepted H;
  repeat match goal with H : phase_matches _ _ _ = true |- _ => apply phase_matches_true in H as (? & ? & ?) end.

Lemma unresolved_singleton s id :
  Inv s → unresolved_id s = Some id →
  s.(unresolved_transaction) = Some id ∧ s.(unresolved_rollback) = None ∨
  s.(unresolved_transaction) = None ∧ s.(unresolved_rollback) = Some id.
Proof.
  unfold unresolved_id. intros HI Hu. destruct (inv_exclusive _ HI) as [He|He]; rewrite He in *; [by right|].
  left. by destruct (unresolved_transaction s).
Qed.

Lemma unresolved_named_kept n restoring e id s s' :
  Inv s → unresolved_id s = Some id → resolves id e = false → dispatch n restoring e s = (s', Ok tt) →
  unresolved_id s' = Some id.
Proof.
  intros HI Hu Hx H. pose proof (unresolved_singleton s id HI Hu) as Hs. unfold unresolved_id in *.
  destruct e; cbn [dispatch resolves] in *; try (by_event H; repeat case_match; naive_solver).
  by_event H. destruct (inv_persist _ HI _ _ _ Hcall Hphase) as [H1 H2]. rewrite H1, H2 in Hs. naive_solver.
Qed.

Lemma unresolved_record_kept n restoring e id r s s' :
  Inv s → unresolved_id s = Some id → s.(reservations) !! id = Some r → dispatch n restoring e s = (s', Ok tt) →
  s'.(reservations) !! id = Some r.
Proof.
  intros HI Hu Hr H. pose proof (unresolved_singleton s id HI Hu) as Hs.
  destruct (named_durable s id r HI Hr) as [b Hph]; [naive_solver|].
  destruct (event_target e) as [i|] eqn:Ht; [|by destruct (dispatch_control _ _ _ _ _ H Ht) as (_ & -> & _)].
  destruct (decide (id = i)) as [<-|Hne]; [|by rewrite (proj1 (proj2 (dispatch_frame _ _ _ _ _ _ H Ht) id Hne))].
  destruct e; simplify_eq/=; by_event H; unfold retire_blocked in *; guards; simplify_map_eq;
    first [done | by rewrite Hph in * | by case_match | naive_solver].
Qed.

Lemma unresolved_replay n es id r s s' :
  Inv s → Forall event_typed es → unresolved_id s = Some id → s.(reservations) !! id = Some r →
  Forall (λ e, resolves id e = false) es → replay_from n es s = Ok s' →
  s'.(reservations) !! id = Some r ∧ unresolved_id s' = Some id.
Proof.
  revert n s. induction es as [|e es IH]; intros n s HI Ht Hu Hr Hx H; [by simplify_eq/=|].
  apply Forall_cons in Ht as [Ht Hts]. apply Forall_cons in Hx as [Hx Hxs].
  apply replay_cons in H as (c & s1 & Hd & Hrep & Hc). specialize (Hc HI).
  apply (IH (n + 1)%Z s1); [by eapply dispatch_inv|done|by eapply unresolved_named_kept|by eapply unresolved_record_kept|done|done].
Qed.

(** ** The write lease of a boot *)

(** The lease of [id] that is on record belongs to the boot [epoch], unless the
    reservation is gone for good. *)
Definition leased (epoch : string) (id : ReservationId) (s : RecoveredState) : Prop :=
  id ∈ s.(seen_reservation_ids) ∧
  (s.(reservations) !! id = None ∨
   ∃ t, s.(transactions) !! id = Some t ∧ (boot_epoch_sha256 <$> t.(t_write_lease)) = Some epoch).

(** Another boot takes the lease of [id]. *)
Definition other_boot (epoch : string) (id : ReservationId) (e : RepairEvent) : bool :=
  match e with
  | TransactionWriteLeaseConsume i _ epoch' _ => (i == id) && (epoch' != epoch)
  | _ => false
  end.

Lemma lease_recorded n restoring id tb epoch lb s s' :
  Inv s → dispatch n restoring (TransactionWriteLeaseConsume id tb epoch lb) s = (s', Ok tt) → leased epoch id s'.
Proof.
  intros HI H. cbn [dispatch] in H. by_event H. split; [apply (inv_seen _ HI); eauto|]. right.
  eexists. split; [apply lookup_insert_eq|done].
Qed.

Lemma lease_refused n restoring id tb epoch lb s s' :
  Inv s → leased epoch id s →
  dispatch n restoring (TransactionWriteLeaseConsume id tb epoch lb) s = (s', Ok tt) → False.
Proof.
  intros HI [_ [Hn|(t & Ht & Hl)]] H; cbn [dispatch] in H; by_event H; [congruence|].
  simplify_map_eq. destruct (t_write_lease t); [|done]. simplify_eq/=. by rewrite eq_refl_true in *.
Qed.

Lemma leased_kept n restoring e epoch id s s' :
  Inv s → leased epoch id s → other_boot epoch id e = false → dispatch n restoring e s = (s', Ok tt) →
  leased epoch id s'.
Proof.
  intros HI [Hsn Hl] Ho H. split; [by eapply dispatch_seen|].
  destruct (event_target e) as [i|] eqn:Ht.
  2:{ destruct (dispatch_control _ _ _ _ _ H Ht) as (_ & -> & -> & _). exact Hl. }
  destruct (decide (id = i)) as [<-|Hne].
  2:{ destruct (proj2 (dispatch_frame _ _ _ _ _ _ H Ht) id Hne) as [-> ->]. exact Hl. }
  destruct Hl as [Hn|(t & Htx & Hle)].
  - left. destruct e; simplify_eq/=; by_event H; simplify_map_eq; done.
  - destruct e; simplify_eq/=; by_event H; simplify_map_eq; eauto; try (case_match; simplify_map_eq; eauto).
    right. eexists. split; [done|]. rewrite eq_refl_true in Ho. cbn in *.
    apply bool_decide_eq_false in Ho. f_equal. by apply dec_stable.
Qed.

Lemma leased_replay n es epoch id tb lb s s' :
  Inv s → leased epoch id s → Forall event_typed es → Forall (λ e, other_boot epoch id e = false) es →
  replay_from n (es ++ [TransactionWriteLeaseConsume id tb epoch lb]) s = Ok s' → False.
Proof.
  revert n s. induction es as [|e es IH]; intros n s HI Hl Ht Ho H;
    apply replay_cons in H as (c & s1 & Hd & Hr & Hc); specialize (Hc HI); assert (leased epoch id (set_clock c s)) by done.
  - by eapply lease_refused.
  - apply Forall_cons in Ht as [Ht Hts]. apply Forall_cons in Ho as [Ho Hos].
    apply (IH (n + 1)%Z s1); [by eapply dispatch_inv|by eapply leased_kept|done..].
Qed.

(** ** The state of an opened journal *)

Lemma opened_inv events s : Forall event_typed events → open_generation events = Ok s → Inv s.
Proof.
  unfold open_generation. intros Ht H. inv_ok H. eapply replay_inv; [apply Inv_default|done|done].
Qed.

(** The entries of an opened journal, read off its invariant. *)
Lemma entry_unresolved s id t :
  Inv s → s.(transactions) !! id = Some t →
  is_Some (s.(reservations) !! id) ∧ (transaction_phase t ≠ Resolved → s.(unresolved_transaction) = Some id) ∧
  (rollback_unresolved t = true → s.(unresolved_rollback) = Some id).
Proof.
  intros HI Ht. destruct (s.(reservations) !! id) as [r|] eqn:Hr; [|destruct (inv_absent _ HI _ Hr); congruence].
  split; [done|]. pose proof (inv_entry _ HI _ _ Hr) as He. red in He. rewrite Ht in He.
  assert (∀ o, names o id = true → o = Some id) as Hn by (intros o; apply bool_decide_eq_true).
  destruct r.(r_phase); first [by destruct He | by destruct He as [[? _] _] | destruct He as (t' & [= <-] & _ & He)].
  - destruct He as (_ & Hp & _ & Hru & _). by rewrite Hru.
  - destruct He as (_ & Hu & Hur). split; intros Hx; apply Hn; [rewrite Hu; by apply bool_decide_true|by rewrite Hur].
Qed.

(** *** What the journal guarantees *)

(** C12. The state recovered from an accepted journal holds at most 64 reservations,
    none of them released; every transaction belongs to a reservation, the
    singletons name the one whose transaction or rollback is unresolved, never both,
    and once nothing is pending the full consistency check of the code passes. *)
Theorem repair_journal_state events s :
  Forall event_typed events → open_generation events = Ok s →
  (usize s.(reservations) ≤ MAX_RESERVATIONS)%Z ∧
  (∀ id, is_Some (s.(released) !! id) → s.(reservations) !! id = None) ∧
  (∀ id t, s.(transactions) !! id = Some t →
     is_Some (s.(reservations) !! id) ∧ (transaction_phase t ≠ Resolved → s.(unresolved_transaction) = Some id) ∧
     (rollback_unresolved t = true → s.(unresolved_rollback) = Some id)) ∧
  (s.(unresolved_transaction) = None ∨ s.(unresolved_rollback) = None) ∧
  (s.(pending) = None → transactions_are_consistent s = true).
Proof.
  intros Ht Ho. pose proof (opened_inv _ _ Ht Ho) as HI. split_and!; try apply HI.
  - intros id [t Hr]. by destruct (inv_released _ HI _ _ Hr).
  - intros id t. by apply entry_unresolved.
  - by apply settled_consistent.
Qed.

(** No accepted journal reserves an identifier twice, also not after its
    reservation was aborted, cancelled or retired. *)
Theorem reservation_ids_unique events s :
  open_generation events = Ok s → NoDup (reserved_ids events).
Proof. unfold open_generation. intros H. inv_ok H. by eapply reserved_ids_fresh. Qed.

(** C10. While the transaction or rollback of a reservation is unresolved, no
    accepted continuation of the journal without a completed resolution of it
    changes its record: the backup is neither cancelled nor retired, and it
    stays the unresolved one. *)
Theorem unresolved_backup_kept events later n s s' id r :
  Forall event_typed (events ++ later) → open_generation events = Ok s → replay_from n later s = Ok s' →
  unresolved_id s = Some id → s.(reservations) !! id = Some r → Forall (λ e, resolves id e = false) later →
  s'.(reservations) !! id = Some r ∧ unresolved_id s' = Some id.
Proof.
  intros [Ht Htl]%Forall_app Ho Hr Hu Hrec Hx.
  exact (unresolved_replay n later id r s s' (opened_inv _ _ Ht Ho) Htl Hu Hrec Hx Hr).
Qed.

(** C13. A boot takes the write lease of a transaction at most once: after an
    accepted lease, the journal never accepts a second one of the same boot
    unless another boot took the lease in between. *)
Theorem write_lease_once_per_boot events middle s n s' id tb tb' epoch lb lb' :
  Forall event_typed (events ++ middle) → open_generation events = Ok s →
  Forall (λ e, other_boot epoch id e = false) middle →
  replay_from n (TransactionWriteLeaseConsume id tb epoch lb :: middle
    ++ [TransactionWriteLeaseConsume id tb' epoch lb']) s ≠ Ok s'.
Proof.
  intros [Ht Htm]%Forall_app Ho Hx H. pose proof (opened_inv _ _ Ht Ho) as HI.
  apply replay_cons in H as (c & s1 & Hd & Hr & Hc). specialize (Hc HI).
  eapply leased_replay; [|exact (lease_recorded _ _ _ _ _ _ _ _ Hc Hd)|exact Htm|exact Hx|exact Hr].
  by eapply dispatch_inv; [exact Hc| |exact Hd].
Qed.

(** C11. Compaction of a settled store that is not blocked succeeds: the snapshot
    is built, and if its encoded events fit the journal, the staged journal stays
    below the trigger, replays, and gives the store back with the retained
    releases, the next generation and the anchor of the old journal. *)
Theorem compaction_roundtrip encoded_len events s anchor :
  Forall event_typed events → open_generation events = Ok s → s.(pending) = None → wf_anchor anchor →
  (s.(compaction_generation) < U64_MAX)%Z → compaction_blocked s = false →
  ∃ staged, compaction_events s.(reservations) (retained_release_tombstones s) s.(transactions)
      s.(logical_event_clock) (s.(compaction_generation) + 1) anchor = Ok staged ∧
    (forallb (event_fits encoded_len) staged = true →
     staged_snapshot encoded_len s anchor = Ok (staged, compacted s anchor)).
Proof. intros Ht Ho Hp Hw Hg Hb. apply settled_compacts; try done. by eapply opened_inv. Qed.

(** C14. With a full table, nothing unresolved and a release to retain, the
    snapshot restores the 64 reservations before the release, whose reservation
    is then refused: the compaction fails, whatever the encoding of the events. *)
Theorem compaction_full_table_fails encoded_len events s anchor :
  Forall event_typed events → open_generation events = Ok s → s.(pending) = None → wf_anchor anchor →
  (s.(compaction_generation) < U64_MAX)%Z → compaction_blocked s = true →
  ∃ e, staged_snapshot encoded_len s anchor = Err e ∧ (e = CorruptStore ∨ e = CorruptJournal).
Proof. intros Ht Ho Hp Hw Hg Hb. apply blocked_compaction; try done. by eapply opened_inv. Qed.

End properties.

(** ** A concrete journal *)

Module StoreDemo.
Import RepairDemo.
#[local] Existing Instances prefix_sha256 prefix_sha256_laws.

(** The [k]-th reservation, [k < 256]. *)
Definition demo_id_text (k : nat) : string := "B-" +:+ hex_string (replicate 15 x00 ++ [byte_of_Z (Z.of_nat k)]).
Definition demo_id (k : nat) : option ReservationId :=
  match ReservationId_parse (demo_id_text k) with Ok i => Some i | Err _ => None end.
Definition array_of (l : bytes) : option array32 :=
  match decide (Is_true (length l == 32)) with left H => Some (Array32 l H) | right _ => None end.
Definition array_at (b : byte) : option array32 := array_of (replicate 32 b).

Definition demo_draft (k : nat) : option RepairBackupDraft :=
  target ← array_at x02; before ← array_at x04;
  metadata ← array_of (sha_bytes (canonical_repair_file_metadata_sha256 demo_metadata));
  Some (mkDraft ("S-" +:+ hex_string [byte_of_Z (Z.of_nat k)]) "disk:1" target demo_recovery before metadata 100 4096).
Definition demo_vault : string := "V-0123456789abcdef0123456789abcdef".
Definition demo_identity : string := hex_string (replicate 32 x0b).
Definition demo_parent : string := hex_string (replicate 32 x0c).

Definition demo_reserve (k : nat) : list RepairEvent :=
  match demo_id k, demo_draft k with
  | Some id, Some d =>
      [ReserveIntent id d (reservation_binding d) 4096 demo_vault demo_identity demo_parent; ReserveComplete id]
  | _, _ => []
  end.

Definition demo_cancel (k : nat) : list RepairEvent :=
  match demo_id k with Some id => [CancelIntent id; CancelComplete id None] | None => [] end.

(** One reservation is cancelled, then the table fills up. *)
Definition full_journal : list RepairEvent :=
  demo_reserve 0 ++ demo_cancel 0 ++ flat_map demo_reserve (seq 1 64).

Definition opened (events : list RepairEvent) : RecoveredState :=
  match open_generation events with Ok s => s | Err _ => default_state end.

Lemma is_ok_true {E A} (r : result E A) : is_ok r = true → ∃ a, r = Ok a.
Proof. destruct r; [eauto|done]. Qed.

(** A backup is made durable, leased by two boots and committed. *)
Definition demo_binding : option RepairBinding :=
  plan ← array_at x08; approval ← array_at x09; resource ← array_at x04;
  match intent_new "S-00" 7 "disk:1" ("scan:" +:+ hex_string (replicate 32 x01)) (hex_digest x02)
    (hex_digest x03) demo_recovery (canonical_repair_lock_identity demo_recovery) (hex_digest x04)
    (hex_digest x05) (hex_digest x06) (hex_digest x07) demo_metadata with
  | Ok intent => Some (mkBinding "P-1" plan "A-1" approval REPAIR_EXECUTION_RESOURCE_ID resource intent)
  | Err _ => None
  end.

Definition demo_status : option (ReservationId * RepairBinding * RepairTransactionStatusPayload) :=
  id ← demo_id 0; d ← demo_draft 0; b ← demo_binding;
  match protocol_transaction_status_from_record id
    (mkRecord d (reservation_binding d) 4096 demo_vault demo_identity demo_parent (DurablePhase b)) fresh_transaction with
  | Ok status => Some (id, b, status)
  | Err _ => None
  end.

(** The events that follow from the status of the transaction. *)
Definition with_status (f : ReservationId → RepairBinding → RepairTransactionStatusPayload → list RepairEvent) :
    list RepairEvent :=
  from_option (λ '(id, b, status), f id b status) [] demo_status.

Definition demo_persist : list RepairEvent :=
  demo_reserve 0 ++ with_status (λ id b _,
    [PersistIntent id b; PersistComplete id (hex_string (replicate 32 x04)) 100]).

Definition demo_lease_event (boot : byte) : list RepairEvent :=
  with_status (λ id _ status,
    match write_lease_consumed status (hex_digest boot) with
    | Ok lease => [TransactionWriteLeaseConsume id status.(transaction_binding_sha256).(as_str)
                     (hex_digest boot).(as_str) lease.(RepairVault.lease_binding_sha256).(as_str)]
    | Err _ => []
    end).

Definition demo_resolve : list RepairEvent :=
  with_status (λ id b status,
    match resolution_new CommittedAfter (hex_digest x05)
            (canonical_repair_file_metadata_sha256 demo_metadata) true b.(b_execution_intent) with
    | Ok resolution =>
        [TransactionResolveIntent id status.(transaction_binding_sha256).(as_str) Pending resolution;
         TransactionResolveComplete id status.(transaction_binding_sha256).(as_str)]
    | Err _ => []
    end).

Definition leased_journal : list RepairEvent := demo_persist ++ demo_lease_event x0d.
Definition settled_journal : list RepairEvent :=
  leased_journal ++ demo_lease_event x0e ++ demo_resolve ++ demo_reserve 1 ++ demo_cancel 1 ++ demo_reserve 2.
Definition demo_anchor : JournalAnchor := mkAnchor (replicate 16 x01) 9 (replicate 32 x02).

(** ** The numbers of the demonstration fit their types *)

Lemma demo_draft_sizes k d : demo_draft k = Some d → d.(d_backup_size_bytes) = 100%Z ∧ d.(d_required_capacity_bytes) = 4096%Z.
Proof.
  unfold demo_draft. intros H. apply bind_Some in H as (t & _ & H). apply bind_Some in H as (b & _ & H).
  apply bind_Some in H as (m & _ & H). by simplify_eq/=.
Qed.

Lemma demo_reserve_typed k : Forall event_typed (demo_reserve k).
Proof.
  unfold demo_reserve. destruct (demo_draft k) as [d|] eqn:Hd; [|by destruct (demo_id k)].
  apply demo_draft_sizes in Hd as [H1 H2]. destruct (demo_id k); repeat constructor; cbn; rewrite ?H1, ?H2; done.
Qed.

Lemma with_status_typed f :
  (∀ id b status, Forall event_typed (f id b status)) → Forall event_typed (with_status f).
Proof. intros H. unfold with_status. destruct demo_status as [[[id b] st]|]; [apply H|constructor]. Qed.
Lemma demo_persist_typed : Forall event_typed demo_persist.
Proof.
  apply Forall_app_2; [apply demo_reserve_typed|]. apply with_status_typed. intros id b st.
  repeat apply Forall_cons_2; [done|done|constructor].
Qed.
Lemma demo_lease_typed boot : Forall event_typed (demo_lease_event boot).
Proof.
  apply with_status_typed. intros id b st. destruct (write_lease_consumed _ _); [|constructor].
  by apply Forall_singleton.
Qed.
Lemma demo_resolve_typed : Forall event_typed demo_resolve.
Proof.
  apply with_status_typed. intros id b st. destruct (resolution_new _ _ _ _ _); [|constructor].
  repeat apply Forall_cons_2; [done|done|constructor].
Qed.
Lemma demo_cancel_typed k : Forall event_typed (demo_cancel k).
Proof. unfold demo_cancel. destruct (demo_id k); [|constructor]. repeat apply Forall_cons_2; [done|done|constructor]. Qed.

Lemma leased_typed : Forall event_typed leased_journal.
Proof. exact (Forall_app_2 _ _ _ demo_persist_typed (demo_lease_typed x0d)). Qed.
Lemma settled_typed : Forall event_typed settled_journal.
Proof.
  exact (Forall_app_2 _ _ _ leased_typed (Forall_app_2 _ _ _ (demo_lease_typed x0e) (Forall_app_2 _ _ _ demo_resolve_typed
    (Forall_app_2 _ _ _ (demo_reserve_typed 1) (Forall_app_2 _ _ _ (demo_cancel_typed 1) (demo_reserve_typed 2)))))).
Qed.
Lemma full_typed : Forall event_typed full_journal.
Proof.
  refine (Forall_app_2 _ _ _ (demo_reserve_typed 0) (Forall_app_2 _ _ _ (demo_cancel_typed 0) _)).
  induction (seq 1 64) as [|k l IH]; [constructor|]. exact (Forall_app_2 _ _ _ (demo_reserve_typed k) IH).
Qed.

(** ** What the journals recover to *)

Definition recovers (events : list RepairEvent) (check : RecoveredState → bool) : bool :=
  match open_generation events with Ok s => check s | Err _ => false end.
Lemma recovers_opened events check :
  recovers events check = true → open_generation events = Ok (opened events) ∧ check (opened events) = true.
Proof. unfold recovers, opened. by destruct (open_generation events). Qed.

Definition compactable (s : RecoveredState) : bool :=
  negb (is_some s.(pending)) && (s.(compaction_generation) <? U64_MAX)%Z.
Lemma compactable_true s :
  compactable s = true → s.(pending) = None ∧ (s.(compaction_generation) < U64_MAX)%Z.
Proof. unfold compactable. intros [H1 H2]%andb_true_iff. split; [by destruct (pending s)|by apply Z.ltb_lt]. Qed.
Lemma demo_anchor_wf : wf_anchor demo_anchor.
Proof. split; [done|]. split; [|done]. unfold is_u64, U64_MAX. cbn. lia. Qed.

Lemma full_recovers : recovers full_journal (λ s, compactable s && compaction_blocked s) = true.
Proof. vm_compute. reflexivity. Qed.
Lemma settled_recovers : recovers settled_journal (λ s, compactable s && negb (compaction_blocked s)) = true.
Proof. vm_compute. reflexivity. Qed.

(** The first record of a leased journal is unresolved; the lease of the second
    boot and an unfinished resolution follow. *)
Definition later_events : list RepairEvent := demo_lease_event x0e ++ take 1 demo_resolve.

Definition demo_first : ReservationId :=
  Checked (p := valid_reservation_id) "B-00000000000000000000000000000000" I.
Definition first_boot : string := (hex_digest x0d).(as_str).

Lemma forallb_negb {A} (f : A → bool) (l : list A) : forallb (λ a, negb (f a)) l = true → Forall (λ a, f a = false) l.
Proof.
  rewrite forallb_forall. intros H. apply Forall_forall. intros a Ha%list_elem_of_In. by apply negb_true_iff, H.
Qed.

Lemma leased_recovers : recovers leased_journal (λ s,
  (unresolved_id s == Some demo_first) && is_some (s.(reservations) !! demo_first)
  && is_ok (replay_from 6 later_events s) && forallb (λ e, negb (resolves demo_first e)) later_events) = true.
Proof. vm_compute. reflexivity. Qed.
Lemma persist_recovers : recovers demo_persist (λ s,
  is_ok (replay_from 5 (demo_lease_event x0d ++ take 1 demo_resolve) s)
  && forallb (λ e, negb (other_boot first_boot demo_first e)) (take 1 demo_resolve)) = true.
Proof. vm_compute. reflexivity. Qed.

Lemma repair_journal_state_witness :
  open_generation settled_journal = Ok (opened settled_journal) ∧
  transactions_are_consistent (opened settled_journal) = true.
Proof.
  destruct (recovers_opened _ _ settled_recovers) as [Ho [[Hp _]%compactable_true _]%andb_true_iff].
  split; [exact Ho|]. exact (proj2 (proj2 (proj2 (proj2 (repair_journal_state _ _ settled_typed Ho)))) Hp).
Defined.

Lemma reservation_ids_unique_witness : NoDup (reserved_ids full_journal).
Proof.
  destruct (recovers_opened _ _ full_recovers) as [Ho _]. exact (reservation_ids_unique _ _ Ho).
Defined.

Lemma unresolved_backup_kept_witness :
  ∃ r s', replay_from 6 later_events (opened leased_journal) = Ok s' ∧ s'.(reservations) !! demo_first = Some r ∧
    unresolved_id s' = Some demo_first.
Proof.
  destruct (recovers_opened _ _ leased_recovers) as [Ho [[[Hu Hr]%andb_true_iff Hl]%andb_true_iff Hx]%andb_true_iff].
  apply bool_decide_eq_true in Hu. apply is_some_true in Hr as [r Hr].
  apply is_ok_true in Hl as [s' Hs].
  exists r, s'. split; [done|]. refine (unresolved_backup_kept leased_journal later_events 6 _ s' demo_first r _ Ho Hs Hu Hr _).
  - apply Forall_app_2; [exact leased_typed|]. apply Forall_app_2; [apply demo_lease_typed|apply Forall_take, demo_resolve_typed].
  - by apply forallb_negb.
Defined.

Lemma write_lease_once_per_boot_witness :
  is_ok (replay_from 5 (demo_lease_event x0d ++ take 1 demo_resolve) (opened demo_persist)) = true ∧
  ∀ tb lb tb' lb' s', replay_from 5 (TransactionWriteLeaseConsume demo_first tb first_boot lb :: take 1 demo_resolve
    ++ [TransactionWriteLeaseConsume demo_first tb' first_boot lb']) (opened demo_persist) ≠ Ok s'.
Proof.
  destruct (recovers_opened _ _ persist_recovers) as [Ho [Hl Hx]%andb_true_iff]. split; [exact Hl|].
  intros tb lb tb' lb' s'. refine (write_lease_once_per_boot demo_persist _ _ 5 s' demo_first tb tb' first_boot lb lb' _ Ho _).
  - exact (Forall_app_2 _ _ _ demo_persist_typed (Forall_take _ _ _ demo_resolve_typed)).
  - by apply forallb_negb.
Defined.

Lemma compaction_roundtrip_witness :
  ∃ staged, staged_snapshot (λ _, 1024%Z) (opened settled_journal) demo_anchor
    = Ok (staged, compacted (opened settled_journal) demo_anchor).
Proof.
  destruct (recovers_opened _ _ settled_recovers) as [Ho [[Hp Hg]%compactable_true Hb%negb_true_iff]%andb_true_iff].
  destruct (compaction_roundtrip (λ _, 1024%Z) _ _ _ settled_typed Ho Hp demo_anchor_wf Hg Hb) as (staged & _ & H).
  exists staged. apply H. by apply forallb_forall.
Defined.

Lemma compaction_full_table_fails_witness :
  usize (opened full_journal).(reservations) = MAX_RESERVATIONS ∧
  ∃ e, staged_snapshot (λ _, 1024%Z) (opened full_journal) demo_anchor = Err e ∧ (e = CorruptStore ∨ e = CorruptJournal).
Proof.
  destruct (recovers_opened _ _ full_recovers) as [Ho [[Hp Hg]%compactable_true Hb]%andb_true_iff]. split.
  - unfold compaction_blocked in Hb. apply andb_true_iff in Hb as [[Hb _]%andb_true_iff _].
    by apply bool_decide_eq_true in Hb.
  - exact (compaction_full_table_fails _ _ _ _ full_typed Ho Hp demo_anchor_wf Hg Hb).
Defined.

End StoreDemo.
