(* ===== verification/RepairStoreLive.v ===== *)
(** * A handle and its journal

    First the events that a good state accepts: the conditions that a call has
    checked are enough for its event to apply. A healthy handle holds exactly the
    state its journal replays to; a handle that is not healthy leaves behind a
    journal that replays. Appending an event that the state accepts and compacting
    the journal keep both, whatever the file operations do. *)

From stdpp Require Import sorting gmap.
From Stdlib.Strings Require Import Byte.
From Stdlib Require String Ascii.
From S2P Require Import Prelude Bytes Text Crypto VaultWire JournalChain RepairVault RepairVaultProperties RepairStoreTypes RepairStoreEvents RepairStoreCompaction RepairStore RepairStoreFacts RepairStoreInvariant RepairStorePreservation RepairStoreSnapshot RepairStoreRestore RepairStoreCompactionProperties.

(** ** Events that a good state accepts *)

(** The digest of a draft is one. *)
Lemma reservation_binding_valid `{Sha256Laws} d : valid_sha256 (reservation_binding d) = true.
Proof.
  unfold valid_sha256, valid_lower_hex, reservation_binding, len.
  rewrite length_hex_string, length_sha256, hex_string_class. done.
Qed.

Section accept.
Context `{sha : Sha256} `{laws : !Sha256Laws}.
Variables (s : RecoveredState) (id : ReservationId).
Hypothesis (HI : Inv s).

(** ** Reservations *)

Lemma accept_reserve_intent n d b v i p :
  draft_validate d = Ok tt → b = reservation_binding d → s.(pending) = None →
  s.(unresolved_transaction) = None → s.(unresolved_rollback) = None →
  (usize s.(reservations) < MAX_RESERVATIONS)%Z → id ∉ s.(seen_reservation_ids) →
  valid_vault_id v = true → valid_sha256 i = true → valid_sha256 p = true →
  dispatch n false (ReserveIntent id d b d.(d_required_capacity_bytes) v i p) s
  = (set_reservations <[id := mkRecord d b d.(d_required_capacity_bytes) v i p ReservePending]>
       (set_pending (Some id) (see id s)), Ok tt).
Proof using HI laws.
  intros Hd -> Hp Hu Hur Hsz Hs Hv Hi Hpa. cbn [dispatch]. unfold apply_reserve_intent.
  assert (s.(reservations) !! id = None ∧ s.(released) !! id = None) as [Hr Hl].
  { split; apply eq_None_not_Some; intros H; apply Hs, (inv_seen _ HI); auto. }
  fwd_call; [exact Hd|]. fwd_guard; [|reflexivity].
  rewrite Hp, Hu, Hur, Hv, Hi, Hpa, !ne_refl_false, bool_decide_false by done. unfold has_key. rewrite Hr, Hl.
  rewrite (proj2 (Z.leb_gt _ _) Hsz). by rewrite reservation_binding_valid.
Qed.

Lemma accept_reserve_complete n r :
  s.(pending) = Some id → s.(reservations) !! id = Some r → r.(r_phase) = ReservePending →
  dispatch n false (ReserveComplete id) s
  = (set_pending None (set_reservations <[id := set_phase ReservedPhase r]> s), Ok tt).
Proof.
  intros Hp Hr Hph. cbn [dispatch]. unfold apply_reserve_complete. fwd_guard; [by rewrite Hp, ne_refl_false|].
  fwd_call; [by rewrite Hr|]. fwd_guard; [by rewrite Hph|]. reflexivity.
Qed.

Lemma accept_reserve_abort n r :
  s.(pending) = Some id → s.(reservations) !! id = Some r → r.(r_phase) = ReservePending →
  dispatch n false (ReserveAbort id) s = (set_pending None (set_reservations (delete id) s), Ok tt).
Proof.
  intros Hp Hr Hph. cbn [dispatch]. unfold apply_reserve_abort.
  fwd_guard; [by rewrite Hp, ne_refl_false; unfold phase_matches; rewrite Hr; cbn; rewrite Hph|]. reflexivity.
Qed.

Lemma accept_persist_intent n b r :
  s.(pending) = None → s.(unresolved_transaction) = None → s.(unresolved_rollback) = None →
  s.(reservations) !! id = Some r → r.(r_phase) = ReservedPhase → validate_for_record b r = Ok tt →
  b.(b_resource_sha256) = r.(r_draft).(d_expected_backup_sha256) →
  dispatch n false (PersistIntent id b) s
  = (set_pending (Some id) (set_reservations <[id := set_phase (PersistPending b) r]> s), Ok tt).
Proof.
  intros Hp Hu Hur Hr Hph Hb He. cbn [dispatch]. unfold apply_persist_intent.
  fwd_call. { unfold validate_for_record in Hb. inv_ok Hb. guards. done. }
  fwd_guard; [by rewrite Hp, Hu, Hur|]. fwd_call; [by rewrite Hr|]. fwd_call; [by apply map_err_pass|].
  fwd_guard; [by rewrite Hph, He, ne_refl_false|]. reflexivity.
Qed.

Lemma accept_persist_complete n r b :
  s.(pending) = Some id → s.(reservations) !! id = Some r → r.(r_phase) = PersistPending b →
  dispatch n false (PersistComplete id (hex_string r.(r_draft).(d_expected_backup_sha256).(raw))
    r.(r_draft).(d_backup_size_bytes)) s
  = (set_pending None (set_unresolved_transaction (Some id) (set_transactions <[id := fresh_transaction]>
       (set_reservations <[id := set_phase (DurablePhase b) r]> s))), Ok tt).
Proof using HI.
  intros Hp Hr Hph. cbn [dispatch]. unfold apply_persist_complete.
  pose proof (inv_entry _ HI _ _ Hr) as He. red in He. rewrite Hph in He. destruct He as [(Ht & _) _].
  destruct (inv_persist _ HI _ _ _ Hr Hph) as [Hu _].
  fwd_guard; [by rewrite Hp, ne_refl_false|]. fwd_call; [by rewrite Hr|].
  fwd_guard; [by rewrite !ne_refl_false|]. rewrite Hph. fwd. fwd_guard; [by rewrite Ht, Hu|]. reflexivity.
Qed.

Lemma accept_persist_abort n r b :
  s.(pending) = Some id → s.(reservations) !! id = Some r → r.(r_phase) = PersistPending b →
  dispatch n false (PersistAbort id) s
  = (set_pending None (set_reservations <[id := set_phase ReservedPhase r]> s), Ok tt).
Proof.
  intros Hp Hr Hph. cbn [dispatch]. unfold apply_persist_abort. fwd_guard; [by rewrite Hp, ne_refl_false|].
  fwd_call; [by rewrite Hr|]. fwd_guard; [by rewrite Hph|]. reflexivity.
Qed.

(** ** Releases *)

Lemma accept_cancel_intent n r :
  s.(pending) = None → s.(reservations) !! id = Some r → r.(r_phase) = ReservedPhase →
  dispatch n false (CancelIntent id) s
  = (set_reservations <[id := set_phase CancelPending r]> (set_pending (Some id) s), Ok tt).
Proof.
  intros Hp Hr Hph. cbn [dispatch]. unfold apply_cancel_intent.
  fwd_guard; [by rewrite Hp; unfold phase_matches; rewrite Hr; cbn; rewrite Hph|].
  fwd_call; [by rewrite Hr|]. reflexivity.
Qed.

Lemma not_released r : s.(reservations) !! id = Some r → s.(released) !! id = None.
Proof using HI.
  intros Hr. destruct (s.(released) !! id) as [t|] eqn:Ht; [|done]. destruct (inv_released _ HI _ _ Ht). congruence.
Qed.

Lemma accept_cancel_complete n r :
  s.(pending) = Some id → s.(reservations) !! id = Some r → r.(r_phase) = CancelPending →
  (usize s.(released) < MAX_RELEASE_TOMBSTONES)%Z →
  dispatch n false (CancelComplete id None) s
  = (set_pending None (set_released <[id := mkTombstone CancelRelease r s.(logical_event_clock)]>
       (set_reservations (delete id) s)), Ok tt).
Proof using HI.
  intros Hp Hr Hph Hl. cbn [dispatch]. unfold apply_cancel_complete. fwd_call; [done|].
  fwd_guard.
  { rewrite Hp, ne_refl_false. unfold has_key, phase_matches. rewrite (not_released r Hr), Hr. cbn. rewrite Hph.
    by rewrite (proj2 (Z.leb_gt _ _) Hl). }
  fwd_call; [by rewrite Hr|]. reflexivity.
Qed.

Lemma accept_retire_intent n r b t :
  s.(pending) = None → s.(reservations) !! id = Some r → r.(r_phase) = DurablePhase b →
  s.(transactions) !! id = Some t → transaction_phase t = Resolved → rollback_unresolved t = false →
  ∃ x, t.(t_resolution) = Some x ∧
  dispatch n false (RetireIntent id) s
  = (set_pending (Some id) (set_reservations <[id := set_phase (RetirePending b x) r]> s), Ok tt).
Proof using HI.
  intros Hp Hr Hph Ht Hres Hrb. destruct (durable_facts _ _ _ _ HI Hr Hph) as (bk & t' & []).
  assert (t' = t) as -> by congruence. rewrite Hres, ne_refl_false in da_unresolved. rewrite Hrb in da_rollback.
  destruct t.(t_resolution) as [x|] eqn:Hx; [|unfold transaction_phase in Hres; by rewrite Hx in Hres].
  exists x. split; [done|]. cbn [dispatch]. unfold apply_retire_intent.
  fwd_guard; [by rewrite Hp; unfold phase_matches; rewrite Hr; cbn; rewrite Hph|].
  fwd_call; [by rewrite Hr|]. rewrite Hph. fwd. fwd_call; [by rewrite Ht|]. fwd_guard.
  { unfold retire_blocked. unfold names in da_unresolved, da_rollback.
    by rewrite Hres, Hrb, ne_refl_false, da_unresolved, da_rollback. }
  fwd_call; [by rewrite Hx|]. reflexivity.
Qed.

Lemma accept_retire_complete n r b x :
  s.(pending) = Some id → s.(reservations) !! id = Some r → r.(r_phase) = RetirePending b x →
  (usize s.(released) < MAX_RELEASE_TOMBSTONES)%Z →
  dispatch n false (RetireComplete id None) s
  = (set_pending None (set_released <[id := mkTombstone RetireRelease r s.(logical_event_clock)]>
       (set_transactions (delete id) (set_reservations (delete id) s))), Ok tt).
Proof using HI.
  intros Hp Hr Hph Hl. pose proof (inv_entry _ HI _ _ Hr) as He. red in He. rewrite Hph in He.
  destruct He as (t & Ht & _ & _ & Hres & _ & Hrb & _ & Hu & Hur).
  cbn [dispatch]. unfold apply_retire_complete. fwd_call; [done|]. fwd_guard.
  { rewrite Hp, ne_refl_false. unfold has_key, phase_matches. rewrite (not_released r Hr), Hr. cbn. rewrite Hph.
    by rewrite (proj2 (Z.leb_gt _ _) Hl). }
  fwd_call; [by rewrite Hr|]. fwd. fwd_call; [by rewrite Ht|]. fwd. fwd_guard.
  { unfold retire_blocked. unfold names in Hu, Hur. by rewrite Hres, Hrb, ne_refl_false, Hu, Hur. }
  reflexivity.
Qed.

(** ** Transactions *)

(** A durable reservation of a settled store. *)
Lemma settled_status r b bk t :
  durable_at s id r b bk t → protocol_transaction_status_from_record id r t = Ok (status_view bk b t).
Proof. intros []. apply (transaction_status_Ok id r bk b t da_backup da_durable), da_tx. Qed.

Lemma named o : names o id = true → o = Some id.
Proof. apply bool_decide_eq_true. Qed.

Lemma accept_write_lease n r b bk t epoch lease res :
  s.(pending) = None → durable_at s id r b bk t → t.(t_resolution) = None → t.(t_pending_resolution) = None →
  from_execution b.(b_execution_intent).(action_id) b.(b_resource_id) = Ok res →
  b.(b_execution_intent).(lock_identity)
    = canonical_repair_lock_identity_for_resource b.(b_execution_intent).(target_recovery_fingerprint) res →
  is_some_and t.(t_write_lease) (λ l, l.(boot_epoch_sha256) == epoch.(as_str)) = false →
  write_lease_consumed (status_view bk b t) epoch = Ok lease →
  dispatch n false (TransactionWriteLeaseConsume id (status_view bk b t).(transaction_binding_sha256).(as_str)
    epoch.(as_str) lease.(RepairVault.lease_binding_sha256).(as_str)) s
  = (set_transactions <[id := set_write_lease (Some (mkLease epoch.(as_str)
       lease.(RepairVault.lease_binding_sha256).(as_str))) t]> s, Ok tt).
Proof using HI.
  intros Hp D Hres Hpr Hfe Hlk Hle Hc. pose proof D as [].
  assert (transaction_phase t = Pending) as Hph by (unfold transaction_phase; by rewrite Hres).
  assert (s.(unresolved_transaction) = Some id) as Hu by (apply named; by rewrite da_unresolved, Hph).
  cbn [dispatch]. unfold apply_transaction_write_lease_consume.
  fwd_guard; [by rewrite Hp, Hu, ne_refl_false, !valid_sha256_text|]. fwd_call; [by rewrite da_reservation|].
  rewrite da_phase. fwd_call; [by apply map_err_pass|]. fwd_call; [by apply map_err_pass|].
  fwd_guard; [by rewrite Hlk, ne_refl_false|]. fwd_call; [by rewrite da_transaction|].
  fwd_guard; [by rewrite Hres, Hpr, Hle|]. fwd_call; [apply map_err_pass; by eapply settled_status|].
  fwd_guard; [cbn; by rewrite Hph, !ne_refl_false|].
  fwd_call; [apply map_err_pass, protocol_sha256_text|]. fwd_call; [by apply map_err_pass|].
  fwd_guard; [by rewrite ne_refl_false|]. reflexivity.
Qed.

Lemma accept_resolve_intent n r b bk t x :
  s.(pending) = None → durable_at s id r b bk t → transaction_phase t ≠ Resolved →
  t.(t_resolution) ≠ Some x → validate_resolution_against_intent x b.(b_execution_intent) = Ok tt →
  let text := (status_view bk b t).(transaction_binding_sha256).(as_str) in
  dispatch n false (TransactionResolveIntent id text (transaction_phase t) x) s
  = (set_pending (Some id) (set_transactions
       <[id := set_pending_resolution (Some (mkPending text (transaction_phase t) x)) t]> s), Ok tt).
Proof using HI.
  intros Hp D Hph Hne Hx text. pose proof D as [].
  assert (s.(unresolved_transaction) = Some id) as Hu by (apply named; rewrite da_unresolved; by apply bool_decide_true).
  assert (t.(t_pending_resolution) = None) as Hpr.
  { rewrite (names_none _ _ Hp) in da_pends. unfold resolution_pends in da_pends. by destruct (t_pending_resolution t). }
  cbn [dispatch]. unfold apply_transaction_resolve_intent, text.
  fwd_guard; [by rewrite Hp, Hu, ne_refl_false, valid_sha256_text|]. fwd_call; [by rewrite da_reservation|].
  rewrite da_phase. fwd_call; [by rewrite da_transaction|]. fwd_call; [apply map_err_pass; by eapply settled_status|].
  fwd_guard; [cbn; by rewrite Hpr, !ne_refl_false, !bool_decide_false|].
  fwd_call; [by apply map_err_pass|]. reflexivity.
Qed.

(** A transaction with a pending resolution is over a durable reservation. *)
Lemma pending_durable t :
  s.(transactions) !! id = Some t →
  is_some t.(t_pending_resolution) = true ∨ is_some (t.(t_rollback) ≫= rb_pending_resolution) = true →
  ∃ r b bk, durable_at s id r b bk t.
Proof using HI.
  intros Ht Hpend.
  destruct (s.(reservations) !! id) as [r|] eqn:Hr; [|destruct (inv_absent _ HI _ Hr); congruence].
  assert (resolution_pends t = true) as Hpr.
  { unfold resolution_pends, rollback_pends. destruct Hpend as [->|Hrb]; [done|].
    destruct (t_rollback t) as [rb|]; [|done]. cbn in *. by rewrite Hrb, orb_true_r. }
  assert (∃ b, r.(r_phase) = DurablePhase b) as [b Hph].
  { pose proof (inv_entry _ HI _ _ Hr) as He. red in He. rewrite Ht in He.
    destruct r.(r_phase) as [| | | |b' x'|b']; try (destruct He as [? ?]; done); [by destruct He as [[? _] _]| |by exists b'].
    destruct He as (t' & [= <-] & _ & _ & _ & Hpd & _). congruence. }
  destruct (durable_facts _ _ _ _ HI Hr Hph) as (bk & t' & D). pose proof D as []. assert (t' = t) as -> by congruence.
  by exists r, b, bk.
Qed.

(** The pending resolution of a transaction can always be completed. *)
Lemma accept_resolve_complete n t p :
  s.(pending) = Some id → s.(transactions) !! id = Some t → t.(t_pending_resolution) = Some p →
  ∃ s', dispatch n false (TransactionResolveComplete id p.(p_transaction_binding_sha256)) s = (s', Ok tt) ∧
    s'.(pending) = None ∧ s'.(released) = s.(released) ∧ s'.(compaction_replay) = s.(compaction_replay) ∧
    s'.(logical_event_clock) = s.(logical_event_clock).
Proof using HI.
  intros Hp Ht Hpr. destruct (pending_durable t) as (r & b & bk & D); [done|by rewrite Hpr; left|]. pose proof D as [].
  destruct (tk_pending _ _ _ _ _ da_tx _ Hpr) as (Htext & Hphase & Hnr & _).
  assert (s.(unresolved_transaction) = Some id) as Hu by (apply named; rewrite da_unresolved; by apply bool_decide_true).
  eexists. split.
  - cbn [dispatch]. unfold apply_transaction_resolve_complete.
    fwd_guard; [by rewrite Hp, Hu, !ne_refl_false, Htext, valid_sha256_text|]. fwd_call; [by rewrite da_reservation|].
    fwd_call; [by rewrite Ht|]. fwd_call; [by rewrite Hpr|]. fwd_call; [apply map_err_pass; by eapply settled_status|].
    fwd_guard; [by rewrite Htext, Hphase, !ne_refl_false|]. reflexivity.
  - cbn. by case_match.
Qed.

(** ** Rollbacks *)

Lemma accept_rollback_begin n r b bk t rid rbind pend :
  s.(pending) = None → s.(unresolved_transaction) = None → s.(unresolved_rollback) = None →
  durable_at s id r b bk t → t.(t_rollback) = None →
  (∀ id' t' rb', s.(transactions) !! id' = Some t' → t'.(t_rollback) = Some rb' → rb'.(rb_rollback_id) ≠ rid) →
  rollback_binding_validate_against rbind (status_view bk b t) = Ok tt →
  rollback_pending rid (status_view bk b t) rbind = Ok pend →
  dispatch n false (RollbackBegin id (status_view bk b t).(transaction_binding_sha256).(as_str) rid
    pend.(rollback_transaction_binding_sha256).(as_str) rbind) s
  = (set_unresolved_rollback (Some id) (set_transactions
       <[id := set_rollback (Some (mkRollbackRecord rid rbind None None None)) t]> s), Ok tt).
Proof using HI.
  intros Hp Hu Hur D Hrb Hf Hb Hpend. pose proof D as [].
  assert (t.(t_pending_resolution) = None) as Hpr.
  { rewrite (names_none _ _ Hp) in da_pends. unfold resolution_pends in da_pends. by destruct (t_pending_resolution t). }
  cbn [dispatch]. unfold apply_rollback_begin. fwd_guard.
  { rewrite Hp, Hu, Hur, !valid_sha256_text. cbn. rewrite !orb_false_r.
    apply existsb_btree_iter. intros id' t' Ht'. destruct t'.(t_rollback) as [rb'|] eqn:Hrb'; [|done].
    cbn. apply bool_decide_eq_false. by eapply Hf. }
  fwd_call; [by rewrite da_reservation|]. fwd_guard; [by rewrite da_phase|]. fwd_call; [by rewrite da_transaction|].
  fwd_guard; [by rewrite Hpr, Hrb|]. fwd_call; [apply map_err_pass; by eapply settled_status|].
  fwd_call; [by apply map_err_pass|]. fwd_call; [by apply map_err_pass|].
  fwd_guard; [by rewrite !ne_refl_false|]. reflexivity.
Qed.

(** The rollback of a durable, committed transaction. *)
Lemma settled_rollback r b bk t rb :
  durable_at s id r b bk t → t.(t_rollback) = Some rb →
  protocol_rollback_status_from_record id r t rb = Ok (rollback_view (status_view bk b t) rb) ∧
  t.(t_pending_resolution) = None ∧ rollback_ok id r t rb (status_view bk b t).
Proof.
  intros D Hrb. pose proof D as []. destruct (tk_rollback _ _ _ _ _ da_tx _ Hrb) as (_ & Hpr & Hok).
  split_and!; [|done|done]. apply rollback_status_Ok; [done|by eapply settled_status|apply Hok|apply Hok].
Qed.

Lemma accept_rollback_lease n r b bk t rb epoch lease :
  s.(pending) = None → durable_at s id r b bk t → t.(t_rollback) = Some rb →
  rb.(rb_resolution) = None → rb.(rb_pending_resolution) = None →
  is_some_and rb.(rb_write_lease) (λ l, l.(boot_epoch_sha256) == epoch.(as_str)) = false →
  rollback_write_lease_consumed (rollback_view (status_view bk b t) rb) epoch = Ok lease →
  dispatch n false (RollbackWriteLeaseConsume id rb.(rb_rollback_id)
    (rollback_view (status_view bk b t) rb).(rollback_transaction_binding_sha256).(as_str)
    epoch.(as_str) lease.(rl_lease_binding_sha256).(as_str)) s
  = (set_transactions <[id := set_rollback (Some (set_rollback_lease (Some (mkLease epoch.(as_str)
       lease.(rl_lease_binding_sha256).(as_str))) rb)) t]> s, Ok tt).
Proof using HI.
  intros Hp D Hrb Hres Hpr Hle Hc. destruct (settled_rollback _ _ _ _ _ D Hrb) as (Hst & _ & _). pose proof D as [].
  assert (rollback_transaction_phase rb = Pending) as Hph by (unfold rollback_transaction_phase; by rewrite Hres).
  assert (s.(unresolved_rollback) = Some id) as Hu.
  { apply named. rewrite da_rollback. unfold rollback_unresolved. rewrite Hrb. cbn. by rewrite Hph. }
  cbn [dispatch]. unfold apply_rollback_write_lease_consume.
  fwd_guard; [by rewrite Hp, Hu, ne_refl_false, !valid_sha256_text|]. fwd_call; [by rewrite da_reservation|].
  fwd_call; [by rewrite da_transaction|]. fwd_call; [by rewrite Hrb|].
  fwd_guard; [by rewrite Hres, Hpr, Hle, ne_refl_false|]. fwd_call; [by apply map_err_pass|].
  fwd_guard; [cbn; by rewrite Hph, !ne_refl_false|].
  fwd_call; [apply map_err_pass, protocol_sha256_text|]. fwd_call; [by apply map_err_pass|].
  fwd_guard; [by rewrite ne_refl_false|]. reflexivity.
Qed.

Lemma accept_rollback_resolve_intent n r b bk t rb x :
  s.(pending) = None → durable_at s id r b bk t → t.(t_rollback) = Some rb →
  rollback_transaction_phase rb ≠ Resolved → rb.(rb_resolution) ≠ Some x →
  rollback_resolution_validate_against x (status_view bk b t) = Ok tt →
  let text := (rollback_view (status_view bk b t) rb).(rollback_transaction_binding_sha256).(as_str) in
  dispatch n false (RollbackResolveIntent id rb.(rb_rollback_id) text (rollback_transaction_phase rb) x) s
  = (set_pending (Some id) (set_transactions <[id := set_rollback (Some (set_rollback_pending
       (Some (mkPendingRollback text (rollback_transaction_phase rb) x)) rb)) t]> s), Ok tt).
Proof using HI.
  intros Hp D Hrb Hph Hne Hx text. destruct (settled_rollback _ _ _ _ _ D Hrb) as (Hst & _ & _). pose proof D as [].
  assert (s.(unresolved_rollback) = Some id) as Hu.
  { apply named. rewrite da_rollback. unfold rollback_unresolved. rewrite Hrb. cbn. by apply bool_decide_true. }
  assert (rb.(rb_pending_resolution) = None) as Hpr.
  { rewrite (names_none _ _ Hp) in da_pends. unfold resolution_pends, rollback_pends in da_pends.
    rewrite Hrb in da_pends. cbn in da_pends. destruct (rb_pending_resolution rb); [|done]. by rewrite orb_true_r in da_pends. }
  cbn [dispatch]. unfold apply_rollback_resolve_intent, text.
  fwd_guard; [by rewrite Hp, Hu, ne_refl_false, valid_sha256_text|]. fwd_call; [by rewrite da_reservation|].
  fwd_call; [by rewrite da_transaction|]. fwd_call; [by rewrite Hrb|]. fwd_call; [by apply map_err_pass|].
  fwd_guard; [cbn; by rewrite Hpr, !ne_refl_false, !bool_decide_false|].
  fwd_call; [by apply map_err_pass|]. reflexivity.
Qed.

(** The pending resolution of a rollback can always be completed. *)
Lemma accept_rollback_resolve_complete n t rb p :
  s.(pending) = Some id → s.(transactions) !! id = Some t → t.(t_rollback) = Some rb →
  rb.(rb_pending_resolution) = Some p →
  ∃ s', dispatch n false (RollbackResolveComplete id rb.(rb_rollback_id)
      p.(pr_rollback_transaction_binding_sha256)) s = (s', Ok tt) ∧
    s'.(pending) = None ∧ s'.(released) = s.(released) ∧ s'.(compaction_replay) = s.(compaction_replay) ∧
    s'.(logical_event_clock) = s.(logical_event_clock).
Proof using HI.
  intros Hp Ht Hrb Hpr. destruct (pending_durable t) as (r & b & bk & D); [done|right; rewrite Hrb; cbn; by rewrite Hpr|].
  destruct (settled_rollback _ _ _ _ _ D Hrb) as (Hst & _ & Hok). pose proof D as [].
  destruct (rk_pending _ _ _ _ _ Hok _ Hpr) as (Htext & Hphase & Hnr & _).
  assert (s.(unresolved_rollback) = Some id) as Hu.
  { apply named. rewrite da_rollback. unfold rollback_unresolved. rewrite Hrb. cbn. by apply bool_decide_true. }
  eexists. split.
  - cbn [dispatch]. unfold apply_rollback_resolve_complete.
    fwd_guard; [by rewrite Hp, Hu, !ne_refl_false, Htext, valid_sha256_text|]. fwd_call; [by rewrite da_reservation|].
    fwd_call; [by rewrite Ht|]. fwd_call; [by rewrite Hrb|]. fwd_call; [by rewrite Hpr|].
    fwd_call; [by apply map_err_pass|].
    fwd_guard; [by rewrite Htext, Hphase, !ne_refl_false|]. reflexivity.
  - cbn. by case_match.
Qed.

End accept.

(** ** Handles *)

Lemma replay_app `{Sha256} n es e s s1 :
  replay_from n es s = Ok s1 →
  replay_from n (es ++ [e]) s =
    match apply_repair_event (n + Z.of_nat (length es)) e s1 with (s2, Ok _) => Ok s2 | (_, Err x) => Err x end.
Proof.
  revert n s. induction es as [|e' es IH]; intros n s Hr.
  - cbn in *. simplify_eq. rewrite Z.add_0_r. by destruct (apply_repair_event _ _ _) as [? []].
  - cbn [replay_from app length] in *. destruct (apply_repair_event n e' s) as [s' [[]|]]; [|done].
    rewrite (IH _ _ Hr). by replace (n + 1 + Z.of_nat (length es))%Z with (n + Z.of_nat (S (length es)))%Z by lia.
Qed.

Section live.
Context `{sha : Sha256} `{files : StoreFiles}.
Implicit Types (h : Store) (s : RecoveredState) (c : Z).

(** ** The invariant *)

(** The releases of a store: a compaction is due before there are more. *)
Definition released_fit s : Prop :=
  (usize s.(released) + (if is_some s.(pending) then 1 else 0) ≤ MAX_RETAINED_RELEASE_TOMBSTONES + 1)%Z.

(** The journal replays to [s], whose clock is at most [c]. *)
Record Recovers c (events : list RepairEvent) s : Prop := {
  rc_open : open_generation events = Ok s;
  rc_inv : Inv s;
  rc_fit : released_fit s;
  rc_clock : (s.(logical_event_clock) ≤ c)%Z;
}.

(** A healthy handle in the state [s]. *)
Record At c s h : Prop := {
  at_recovers : Recovers c h.(journal) s;
  at_state : h.(state) = s;
  at_healthy : h.(healthy) = true;
  at_count : h.(event_count) = Z.of_nat (length h.(journal));
}.

Definition Recoverable c h : Prop := ∃ s, Recovers c h.(journal) s.
Definition Sound c h : Prop := Recoverable c h ∧ (h.(healthy) = true → At c h.(state) h).

Lemma Recovers_mono c c' events s : Recovers c events s → (c ≤ c')%Z → Recovers c' events s.
Proof. intros [] ?. split; [done..|lia]. Qed.
Lemma At_mono c c' s h : At c s h → (c ≤ c')%Z → At c' s h.
Proof. intros [] ?. split; [by eapply Recovers_mono|done..]. Qed.
Lemma Recoverable_mono c c' h : Recoverable c h → (c ≤ c')%Z → Recoverable c' h.
Proof. intros [s ?] ?. exists s. by eapply Recovers_mono. Qed.
Lemma Sound_mono c c' h : Sound c h → (c ≤ c')%Z → Sound c' h.
Proof. intros [H1 H2] Hc. split; [by eapply Recoverable_mono|]. intros Hh. by eapply At_mono; [apply H2|]. Qed.

Lemma At_recoverable c s h : At c s h → Recoverable c h.
Proof. intros []. by exists s. Qed.
Lemma At_sound c s h : At c s h → Sound c h.
Proof. intros H. split; [by eapply At_recoverable|]. intros _. pose proof (at_state _ _ _ H). by subst. Qed.
Lemma Sound_unhealthy c h : Recoverable c h → Sound c (set_unhealthy h).
Proof. by split. Qed.

(** ** Calls that only read *)

(** The fields a file operation leaves alone. *)
Definition same h h' : Prop :=
  h'.(journal) = h.(journal) ∧ h'.(state) = h.(state) ∧ h'.(event_count) = h.(event_count) ∧
  h'.(healthy) = h.(healthy).

Lemma same_refl h : same h h.
Proof. by split_and!. Qed.
#[local] Hint Resolve same_refl : core.
Lemma same_trans h1 h2 h3 : same h1 h2 → same h2 h3 → same h1 h3.
Proof. intros (?&?&?&?) (?&?&?&?). split_and!; congruence. Qed.

Lemma At_same c s h h' : same h h' → At c s h → At c s h'.
Proof. intros (Hj & Hs & Hc & Hh) []. split; congruence. Qed.
Lemma Recoverable_same c h h' : same h h' → Recoverable c h → Recoverable c h'.
Proof. intros (Hj & _). unfold Recoverable. by rewrite Hj. Qed.
Lemma Sound_same c h h' : same h h' → Sound c h → Sound c h'.
Proof.
  intros Hs [H1 H2]. split; [by eapply Recoverable_same|]. destruct Hs as (Hj & Hst & Hc & Hh) eqn:E.
  rewrite Hh, Hst. intros Hy. eapply At_same; [|by apply H2]. by split_and!.
Qed.

Definition reads {A} (m : method Store RepairVaultStoreError A) : Prop :=
  ∀ h, wp m (λ _, same h) (λ _, same h) h.

Lemma reads_bind {A B} (m : method Store RepairVaultStoreError A) (f : A → method Store RepairVaultStoreError B) :
  reads m → (∀ a, reads (f a)) → reads (m ≫= f).
Proof.
  intros Hm Hf h. apply wp_bind. eapply wp_mono; [apply Hm| |done]. intros a h1 H1.
  eapply wp_mono; [apply Hf| |]; intros ? h2 H2; exact (same_trans _ _ _ H1 H2).
Qed.
Lemma reads_ret {A} (a : A) : reads (mret a).
Proof. intros h. apply wp_ret. done. Qed.
Lemma reads_throw {A} e : reads (A := A) (throw e).
Proof. intros h. by apply wp_throw. Qed.
Lemma reads_get : reads get_self.
Proof. intros h. by apply wp_get_self. Qed.
Lemma reads_fail_if b e : reads (fail_if b e).
Proof. intros h. by apply wp_fail_if. Qed.
Lemma reads_lift {A} (r : result RepairVaultStoreError A) : reads (lift r).
Proof. intros h. by apply wp_lift. Qed.
Lemma reads_io {A} (m : method World RepairVaultStoreError A) : reads (io m).
Proof. intros h. unfold io, wp, on_field. by destruct (m _) as [? []]. Qed.
Lemma reads_checked_out f : reads (modify_self (set_checked_out f)).
Proof. intros h. by apply wp_modify. Qed.
Lemma reads_attempt {A} (m : method Store RepairVaultStoreError A) : reads m → reads (attempt m).
Proof. intros Hm h. by apply wp_attempt, Hm. Qed.

End live.

Create HintDb repair_store.
#[export] Hint Resolve reads_ret reads_throw reads_get reads_fail_if reads_lift reads_io reads_checked_out reads_attempt : repair_store.

(** Shows that a call only reads. *)
Ltac solve_reads :=
  repeat first [ solve [auto with repair_store nocore]
               | match goal with |- reads (match ?x with _ => _ end) => destruct x end
               | match goal with |- reads (if ?x then _ else _) => destruct x end
               | apply reads_bind; [solve [auto with repair_store nocore]|intros ?] ].

Section live.
Context `{sha : Sha256} `{files : StoreFiles}.
Implicit Types (h : Store) (s : RecoveredState) (c : Z).

Lemma reads_validate_layout : reads validate_layout.
Proof. unfold validate_layout. solve_reads. Qed.
Lemma reads_consume_checkout id : reads (consume_checkout id).
Proof. unfold consume_checkout. solve_reads. Qed.
Lemma reads_remove_file id : reads (remove_file id).
Proof. unfold remove_file. solve_reads. Qed.
Lemma reads_summary id : reads (reservation_summary id).
Proof. unfold reservation_summary. solve_reads. Qed.

(** A read in a specification. *)
Lemma wp_reads {A} (m : method Store RepairVaultStoreError A) (P : Store → Prop) (Q : A → Store → Prop)
    (R : RepairVaultStoreError → Store → Prop) h :
  reads m → P h → (∀ h1 h2, same h1 h2 → P h1 → P h2) → (∀ a h', P h' → Q a h') → (∀ e h', P h' → R e h') →
  wp m Q R h.
Proof.
  intros Hm HP Hs HQ HR. eapply wp_mono; [apply Hm| |]; intros x h' H; [apply HQ|apply HR]; exact (Hs _ _ H HP).
Qed.

Lemma wp_reads_at {A} (m : method Store RepairVaultStoreError A) c s (Q : A → Store → Prop) R h :
  reads m → At c s h → (∀ a h', At c s h' → Q a h') → (∀ e h', At c s h' → R e h') → wp m Q R h.
Proof. intros Hm HA HQ HR. apply (wp_reads m (At c s)); eauto using At_same. Qed.

Lemma require_mutable_sound c h :
  Sound c h → wp require_mutable (λ _ h', At c h'.(state) h' ∧ h'.(state).(pending) = None) (λ _, Sound c) h.
Proof.
  intros Hs. unfold require_mutable. apply wp_bind, wp_get_self, wp_bind, wp_fail_if; [done|].
  intros [Hh Hp]%orb_false_iff. apply negb_false_iff in Hh. pose proof (proj2 Hs Hh) as HA.
  eapply wp_reads_at; [apply reads_io|exact HA| |].
  - intros _ h' HA'. rewrite (at_state _ _ _ HA'). split; [done|]. by destruct (pending _).
  - intros e h' HA'. by eapply At_sound.
Qed.

(** ** Appending an event that the state accepts *)

Record accepts (e : RepairEvent) s s' : Prop := {
  ac_typed : event_typed e;
  ac_control : control_event e = false;
  ac_dispatch : ∀ n, dispatch n false e (set_clock (s.(logical_event_clock) + 1) s) = (s', Ok tt);
  ac_clock : s'.(logical_event_clock) = (s.(logical_event_clock) + 1)%Z;
  ac_replay : s'.(compaction_replay) = s.(compaction_replay);
  ac_fit : released_fit s';
}.

Lemma opened_settled events s : open_generation events = Ok s →
  s.(compaction_replay) = None ∧ (Z.of_nat (length events) ≤ MAX_JOURNAL_EVENTS)%Z ∧
  replay_from 1 events default_state = Ok s.
Proof.
  unfold open_generation. intros H. inv_ok H. guards. split_and!; [by destruct (compaction_replay _)|lia|done].
Qed.

Lemma accepted_applies c e events s s' :
  Recovers c events s → accepts e s s' → (s.(logical_event_clock) + 1 ≤ U64_MAX)%Z →
  (∀ n, apply_repair_event n e s = (s', Ok tt)) ∧
  ((Z.of_nat (length events) < MAX_JOURNAL_EVENTS)%Z → Recovers (c + 1) (events ++ [e]) s').
Proof.
  intros [Ho HI Hf Hcl] [Ht Hctl Hd Hc Hr Hfit] Hm. destruct (opened_settled _ _ Ho) as (Hn & _ & Hrep).
  assert (∀ n, apply_repair_event n e s = (s', Ok tt)) as Ha.
  { intros n. unfold apply_repair_event, tick. run_methods. rewrite Hn, Hctl. cbn [negb andb is_some].
    rewrite checked_add_u64_fits by done. cbn. apply Hd. }
  split; [done|]. intros Hl. split; [|exact (apply_event_inv 0 e s s' HI Ht (Ha 0%Z))|done|lia].
  unfold open_generation. rewrite length_app. cbn [length]. rewrite (proj2 (Z.ltb_ge _ _)) by lia.
  rewrite (replay_app _ _ _ _ _ Hrep), Ha. cbn. by rewrite Hr, Hn.
Qed.

Lemma append_sound c e s s' h :
  At c s h → accepts e s s' → (s.(logical_event_clock) + 1 ≤ U64_MAX)%Z →
  wp (append_event e) (λ _, At (c + 1) s') (λ _, Sound (c + 1)) h.
Proof.
  intros HA Hacc Hm. pose proof HA as [Hrec Hst Hh Hcount].
  destruct (accepted_applies _ _ _ _ _ Hrec Hacc Hm) as [Happ Hnew].
  assert (Sound (c + 1) h) as HS by (eapply Sound_mono; [by eapply At_sound|lia]).
  unfold append_event. apply wp_bind, wp_get_self, wp_bind, wp_fail_if; [done|]. intros Hl%Z.leb_gt.
  apply wp_bind, wp_fail_if; [done|]. intros _. rewrite Hcount in Hl. specialize (Hnew Hl). apply wp_bind.
  unfold append_entry, wp at 1. destruct (journal_append e (world h)) as [w [|[]]].
  - apply wp_bind, wp_attempt, wp_on_field. cbn [state set_world set_journal]. rewrite Hst. unfold wp at 1.
    rewrite Happ. apply wp_bind, wp_lift.
    + intros k [-> Hk]%ok_or_Ok%checked_add_u64_Some. apply wp_modify. split; [done|done|done|].
      cbn. rewrite length_app, Hcount. cbn. lia.
    + intros x. rewrite Hcount, checked_add_u64_fits; [done|]. unfold MAX_JOURNAL_EVENTS, U64_MAX in *. lia.
  - apply wp_bind, wp_modify, wp_throw, Sound_unhealthy. by exists s'.
  - apply wp_bind, wp_modify, wp_throw, Sound_unhealthy. by apply HS.
Qed.

(** ** Compaction *)

Lemma Inv_compacted s anchor :
  Inv s → s.(pending) = None → (s.(compaction_generation) + 1 ≤ U64_MAX)%Z → Inv (compacted s anchor).
Proof.
  intros [] Hp Hg. split; cbn [compacted reservations released seen_reservation_ids pending transactions
    unresolved_transaction unresolved_rollback logical_event_clock compaction_generation]; try done.
  - intros id r Hr. rewrite <-Hp. by apply inv_entry.
  - intros id Hr. rewrite <-Hp. by apply inv_absent.
  - intros id t [Ht _]%retained_live. by apply inv_released.
  - intros id [Hi|Hi]; apply elem_of_dom in Hi; set_solver.
  - unfold is_u64 in *. lia.
Qed.

Lemma reopen_compacted s generation anchor events s' :
  s.(pending) = None → checked_add_u64 s.(compaction_generation) 1 = Some generation →
  reopen_snapshot s generation anchor events = Ok s' →
  open_generation events = Ok s' ∧ s' = compacted s anchor.
Proof.
  intros Hp [-> _]%checked_add_u64_Some H. unfold reopen_snapshot in H. inv_ok H. split; [done|].
  match goal with H : validate_compacted_state _ _ _ _ _ _ _ _ _ = _ |- _ => unfold validate_compacted_state in H; inv_ok H end.
  guards. unfold compacted.
  match goal with |- ?x = _ => destruct x as [????? ????? ?] end; cbn in *.
  repeat match goal with H : is_some ?x = false |- _ => destruct x; [done|]; clear H end. by subst.
Qed.

Lemma snapshot_generation s anchor generation events :
  snapshot_events s anchor = Ok (generation, events) → checked_add_u64 s.(compaction_generation) 1 = Some generation.
Proof. unfold snapshot_events. intros H. inv_ok H. by simplify_eq. Qed.

Lemma compacted_recovers c s generation anchor events events' s' :
  Recovers c events s → s.(pending) = None → checked_add_u64 s.(compaction_generation) 1 = Some generation →
  reopen_snapshot s generation anchor events' = Ok s' → Recovers c events' (compacted s anchor) ∧ s' = compacted s anchor.
Proof.
  intros [_ HI _ Hc] Hp Hg Hr. destruct (reopen_compacted _ _ _ _ _ Hp Hg Hr) as [Ho ->]. split; [|done].
  apply checked_add_u64_Some in Hg as [_ Hg]. split; [done|by apply Inv_compacted| |done].
  unfold released_fit. cbn. pose proof (retained_size s). lia.
Qed.

Lemma reads_staged events : reads (append_compaction_events events).
Proof. induction events as [|e events IH]; cbn [append_compaction_events]; solve_reads. Qed.

(** The new journal is in place and the handle still holds the old state. *)
Definition Installed events h : Prop := h.(journal) = events ∧ h.(healthy) = true.
Lemma Installed_same events h h' : same h h' → Installed events h → Installed events h'.
Proof. intros (Hj & _ & _ & Hh) [? ?]. split; congruence. Qed.

Lemma compact_sound c s h :
  At c s h → wp compact_journal (λ _ h', ∃ anchor, At c (compacted s anchor) h') (λ _, Sound c) h.
Proof.
  intros HA. apply wp_on_error. eapply (wp_mono _ _ _ (λ _, Recoverable c));
    [|intros a h' H; exact H|intros e h' H; by apply Sound_unhealthy].
  unfold compact_journal_until. apply wp_bind, wp_get_self. rewrite (at_state _ _ _ HA).
  apply wp_bind, wp_fail_if; [intros _; by eapply At_recoverable|].
  intros [[_ Hp]%orb_false_iff _]%orb_false_iff. assert (s.(pending) = None) as Hn by (by destruct (pending s)). clear Hp.
  apply wp_bind. eapply wp_reads_at; [apply reads_validate_layout|exact HA| |intros; by eapply At_recoverable].
  clear h HA. intros _ h HA. apply wp_bind. eapply wp_reads_at; [apply reads_io|exact HA| |intros; by eapply At_recoverable].
  clear h HA. intros _ h HA. apply wp_bind. eapply wp_reads_at; [apply reads_io|exact HA| |intros; by eapply At_recoverable].
  clear h HA. intros anchor h HA. apply wp_bind, wp_lift; [|intros; by eapply At_recoverable].
  intros [generation events] Hs. pose proof (snapshot_generation _ _ _ _ Hs) as Hg.
  apply wp_bind. eapply wp_reads_at; [apply reads_io|exact HA| |intros; by eapply At_recoverable].
  clear h HA. intros _ h HA. apply wp_bind. eapply wp_reads_at; [apply reads_staged|exact HA| |intros; by eapply At_recoverable].
  clear h HA. intros _ h HA. apply wp_bind. eapply wp_reads_at; [apply reads_io|exact HA| |intros; by eapply At_recoverable].
  clear h HA. intros _ h HA. apply wp_bind, wp_lift; [|intros; by eapply At_recoverable]. intros s' Hr.
  destruct (compacted_recovers _ _ _ _ _ _ _ (at_recovers _ _ _ HA) Hn Hg Hr) as [Hrec ->].
  apply wp_bind. unfold exchange, wp at 1. destruct (exchange_generation events (world h)) as [w [|[] e]];
    [|by eexists|by eapply At_recoverable, At_same; [|exact HA]].
  apply wp_bind, wp_lift; [|by rewrite Hr]. rewrite Hr. intros s' <-%Ok_inj_1.
  assert (Installed events (set_journal events (set_world w h))) as Hi by (by split; [|apply HA]).
  clear HA. revert Hi. generalize (set_journal events (set_world w h)). clear h w. intros h Hi. apply wp_bind.
  eapply (wp_reads _ (Installed events)); [apply reads_io|exact Hi|apply Installed_same| |].
  2: { intros _ h' [Hj _]. exists (compacted s anchor). by rewrite Hj. }
  clear h Hi. intros _ h [Hj Hh]. apply wp_bind, wp_modify.
  assert (At c (compacted s anchor) (set_event_count (Z.of_nat (length events)) (set_state (compacted s anchor) h))) as HA
    by (split; cbn; rewrite ?Hj; done).
  apply wp_bind. eapply wp_reads_at; [apply reads_io|exact HA| |intros; by eapply At_recoverable].
  intros _ h' HA'. eapply wp_reads_at; [apply reads_validate_layout|exact HA'| |intros; by eapply At_recoverable].
  intros _ h2 HA2. by exists anchor.
Qed.

(** What making room leaves alone. *)
Record pruned s s' : Prop := {
  pr_reservations : s'.(reservations) = s.(reservations);
  pr_transactions : s'.(transactions) = s.(transactions);
  pr_pending : s'.(pending) = None;
  pr_unresolved : s'.(unresolved_transaction) = s.(unresolved_transaction);
  pr_rollback : s'.(unresolved_rollback) = s.(unresolved_rollback);
  pr_clock : s'.(logical_event_clock) = s.(logical_event_clock);
  pr_released : (usize s'.(released) ≤ MAX_RETAINED_RELEASE_TOMBSTONES)%Z;
}.

Lemma capacity_sound c s n h :
  At c s h → s.(pending) = None →
  wp (require_event_capacity n) (λ _ h', ∃ s', At c s' h' ∧ pruned s s') (λ _, Sound c) h.
Proof.
  intros HA Hp. unfold require_event_capacity. apply wp_bind, wp_get_self, wp_bind.
  eapply (wp_mono _ (λ _ h', ∃ s', At c s' h' ∧ pruned s s') _ (λ _, Sound c)); [|intros _ h' (s' & HA' & Hpr)|done].
  - destruct (compaction_due h n) eqn:Hdue.
    + eapply wp_mono; [by apply compact_sound| |done]. intros _ h' [anchor HA']. exists (compacted s anchor).
      split; [done|]. split; [done..|]. apply retained_size.
    + apply wp_ret. exists s. split; [done|]. unfold compaction_due in Hdue. rewrite (at_state _ _ _ HA) in Hdue.
      apply orb_false_iff in Hdue as [[_ Hr]%orb_false_iff _]. apply Z.ltb_ge in Hr. by split.
  - apply wp_bind, wp_get_self, wp_fail_if; [intros _; by eapply At_sound|]. intros _. by exists s'.
Qed.

End live.
