(* ===== verification/RepairStoreCalls.v ===== *)
(** * The calls of the repair store keep its journal

    Every call takes a sound handle to a sound handle, whatever the file operations
    do and wherever the call stops: what it appends is accepted by the state it
    holds. *)

From stdpp Require Import sorting gmap.
From Stdlib.Strings Require Import Byte.
From Stdlib Require String Ascii.
From S2P Require Import Prelude Bytes Text Crypto VaultWire JournalChain RepairVault RepairVaultProperties RepairStoreTypes RepairStoreEvents RepairStoreCompaction RepairStore RepairStoreFacts RepairStoreInvariant RepairStorePreservation RepairStoreSnapshot RepairStoreRestore RepairStoreCompactionProperties RepairStoreLive.

(** Leaves a call early, with the handle as it was. *)
Ltac leave :=
  intros; eapply Sound_mono; [first [eassumption | eapply At_sound; eassumption] | lia].

(** One statement of a call on a handle in a known state. *)
Ltac at_step :=
  match goal with HA : At ?c ?s ?h |- wp ?m _ _ ?h =>
    lazymatch m with
    | mbind _ get_self => apply wp_bind, wp_get_self; cbv beta; rewrite ?(at_state _ _ _ HA)
    | mbind _ (fail_if _ _) => apply wp_bind, wp_fail_if; [leave|let C := fresh "Hguard" in intros C]
    | mbind _ (lift _) =>
        apply wp_bind, wp_lift; [let v := fresh "v" in let C := fresh "Hcall" in intros v C|leave]
    | mbind _ (mret _) => apply wp_bind, wp_ret
    | mbind _ _ =>
        apply wp_bind; eapply wp_reads_at; [solve [solve_reads]|exact HA| |leave];
        clear HA; try clear h; let v := fresh "v" in let h' := fresh "h" in let H := fresh "HA" in intros v h' H
    | mret _ => apply wp_ret; leave
    | throw _ => apply wp_throw; leave
    end
  end.

Ltac read_last :=
  match goal with HA : At ?c ?s ?h |- wp ?m _ _ ?h => eapply wp_reads_at; [solve [solve_reads]|exact HA|leave|leave] end.

Lemma is_some_None {A} (o : option A) : is_some o = false → o = None.
Proof. by destruct o. Qed.
Lemma is_reserved_phase p : is_reserved p = true → p = ReservedPhase.
Proof. by destruct p. Qed.
Lemma is_durable_phase p : is_durable p = true → ∃ b, p = DurablePhase b.
Proof. destruct p; by eauto. Qed.

(** The releases after an event of a call that made room. *)
Ltac fits :=
  unfold released_fit, MAX_RETAINED_RELEASE_TOMBSTONES in *; cbn in *;
  repeat match goal with H : _ = None |- _ => rewrite H end; cbn; lia.

Section calls.
Context `{sha : Sha256} `{laws : !Sha256Laws} `{files : StoreFiles}.
Variable identity : StoreIdentity.
Implicit Types (h : Store) (s : RecoveredState) (c : Z).

(** The identity of an opened vault is well formed. *)
Record identity_ok : Prop := {
  io_vault : valid_vault_id identity.(vault_id) = true;
  io_fingerprint : valid_sha256 identity.(vault_identity_fingerprint) = true;
  io_parent : valid_sha256 identity.(physical_parent_fingerprint) = true;
}.

(** ** Reads *)

Lemma reads_capability id : reads (reserved_capability id).
Proof.
  unfold reserved_capability. apply reads_bind; [apply reads_get|intros self]. solve_reads.
  apply reads_bind; [apply reads_summary|intros ?]. solve_reads.
Qed.
Lemma reads_metadata id : reads (verified_metadata id).
Proof. unfold verified_metadata. solve_reads. Qed.
Lemma reads_matching d b l found : reads (matching_reservation identity d b l found).
Proof.
  revert found. induction l as [|[id r] l IH]; intros found; cbn [matching_reservation]; [apply reads_ret|].
  destruct (_ != _); [apply IH|]. solve_reads.
Qed.
Lemma reads_reserved_retry d b : reads (reconcile_reserved_retry identity d b).
Proof.
  unfold reconcile_reserved_retry. apply reads_bind; [apply reads_get|intros self].
  apply reads_bind; [apply reads_matching|intros found]. solve_reads.
  apply reads_bind; [apply reads_capability|intros ?]. apply reads_ret.
Qed.

End calls.

#[export] Hint Resolve reads_validate_layout reads_consume_checkout reads_remove_file reads_summary reads_capability
  reads_metadata reads_reserved_retry : repair_store.

Section calls.
Context `{sha : Sha256} `{laws : !Sha256Laws} `{files : StoreFiles}.
Variable identity : StoreIdentity.
Implicit Types (h : Store) (s : RecoveredState) (c : Z).

Lemma reads_resume id b : reads (resume_reserved identity id b).
Proof. unfold resume_reserved. solve_reads. Qed.
Lemma reads_status id b : reads (backup_status identity id b).
Proof. unfold backup_status. solve_reads. Qed.
Lemma reads_live_identity : reads (live_identity identity).
Proof. unfold live_identity. solve_reads. Qed.

(** ** Starting a change *)

(** The guards that open a call, and the room it makes. *)
Lemma mutable_sound {A} c k (m : method Store RepairVaultStoreError A) h :
  Sound c h → (c ≤ k)%Z → (∀ s h', At c s h' → s.(pending) = None → wp m (λ _, Sound k) (λ _, Sound k) h') →
  wp (require_mutable;; m) (λ _, Sound k) (λ _, Sound k) h.
Proof.
  intros Hs Hk Hm. apply wp_bind. eapply wp_mono; [by apply require_mutable_sound| |].
  - intros _ h' [HA Hp]. by eapply Hm.
  - intros e h' H. exact (Sound_mono _ _ _ H Hk).
Qed.

Lemma room_sound {A} c k n (m : method Store RepairVaultStoreError A) s h :
  At c s h → s.(pending) = None → (c ≤ k)%Z →
  (∀ s' h', At c s' h' → pruned s s' → wp m (λ _, Sound k) (λ _, Sound k) h') →
  wp (require_event_capacity n;; m) (λ _, Sound k) (λ _, Sound k) h.
Proof.
  intros HA Hp Hk Hm. apply wp_bind. eapply wp_mono; [by eapply capacity_sound| |].
  - intros _ h' (s' & HA' & Hpr). by eapply Hm.
  - intros e h' H. exact (Sound_mono _ _ _ H Hk).
Qed.

Lemma event_sound {A} c k e (m : () → method Store RepairVaultStoreError A) s s' h :
  At c s h → accepts e s s' → (c + 1 ≤ U64_MAX)%Z → (c + 1 ≤ k)%Z →
  (∀ h', At (c + 1) s' h' → wp (m tt) (λ _, Sound k) (λ _, Sound k) h') →
  wp (append_event e ≫= m) (λ _, Sound k) (λ _, Sound k) h.
Proof.
  intros HA Hacc Hu Hk Hm. apply wp_bind. pose proof (rc_clock _ _ _ (at_recovers _ _ _ HA)).
  eapply wp_mono; [eapply append_sound; [exact HA|exact Hacc|lia]| |].
  - intros [] h' HA'. by apply Hm.
  - intros x h' H'. exact (Sound_mono _ _ _ H' Hk).
Qed.

(** A file operation whose failure ends the handle. *)
Lemma guarded_io_sound {A B} c k s (m : method World RepairVaultStoreError A)
    (f : A → method Store RepairVaultStoreError B) h :
  At c s h → (c ≤ k)%Z → (∀ a h', At c s h' → wp (f a) (λ _, Sound k) (λ _, Sound k) h') →
  wp (on_error set_unhealthy (io m) ≫= f) (λ _, Sound k) (λ _, Sound k) h.
Proof.
  intros HA Hk Hf. apply wp_bind, wp_on_error. eapply wp_reads_at; [apply reads_io|exact HA|done|].
  intros e h' HA'. eapply Sound_mono; [|exact Hk]. by apply Sound_unhealthy, (At_recoverable c s).
Qed.

(** The state with its clock advanced, as an event finds it. *)
Lemma ticked c s h : At c s h → (c + 1 ≤ U64_MAX)%Z → Inv (set_clock (s.(logical_event_clock) + 1) s).
Proof. intros [[_ HI _ Hc] _ _ _] Hu. apply Inv_tick; [done|lia]. Qed.

(** ** Completing a pending change

    A handle that is open, or opened again, with a pending change can always
    append what completes it. *)
Section complete.
Context (c : Z) (events : list RepairEvent) (s : RecoveredState) (id : ReservationId).
Hypothesis (HR : Recovers c events s) (Hc : (c + 1 ≤ U64_MAX)%Z) (Hp : s.(pending) = Some id).
Local Abbreviation s1 := (set_clock (s.(logical_event_clock) + 1) s).

Lemma pending_inv : Inv s1.
Proof using HR Hc. destruct HR. apply Inv_tick; [done|lia]. Qed.

Lemma pending_released : (usize s.(released) ≤ MAX_RETAINED_RELEASE_TOMBSTONES)%Z.
Proof using HR Hp. destruct HR as [_ _ Hf _]. unfold released_fit in Hf. rewrite Hp in Hf. cbn in Hf. lia. Qed.

Lemma released_below : (usize s.(released) < MAX_RELEASE_TOMBSTONES)%Z.
Proof using HR Hp.
  eapply Z.le_lt_trans; [exact pending_released|done].
Qed.

Lemma completed_fit s' : s'.(released) = s.(released) → s'.(pending) = None → released_fit s'.
Proof using HR Hp. intros Hr Hn. unfold released_fit. rewrite Hr, Hn. cbn. pose proof pending_released. lia. Qed.

Lemma released_one_more t s' :
  s'.(released) = <[id := t]> s.(released) → s'.(pending) = None → released_fit s'.
Proof using HR Hp.
  intros Hr Hn. unfold released_fit. rewrite Hr, Hn. cbn. pose proof pending_released.
  unfold usize in *. rewrite map_size_insert. case_match; cbn; lia.
Qed.

Lemma reserve_completes r :
  s.(reservations) !! id = Some r → r.(r_phase) = ReservePending →
  ∃ s', accepts (ReserveComplete id) s s'.
Proof using HR Hp.
  intros Hr Hph. eexists. split; [done|done|intros n; by eapply accept_reserve_complete|done|done|by apply completed_fit].
Qed.
Lemma reserve_aborts r :
  s.(reservations) !! id = Some r → r.(r_phase) = ReservePending → ∃ s', accepts (ReserveAbort id) s s'.
Proof using HR Hp.
  intros Hr Hph. eexists. split; [done|done|intros n; by eapply accept_reserve_abort|done|done|by apply completed_fit].
Qed.
Lemma persist_completes r b :
  s.(reservations) !! id = Some r → r.(r_phase) = PersistPending b →
  ∃ s', accepts (PersistComplete id (hex_string r.(r_draft).(d_expected_backup_sha256).(raw))
    r.(r_draft).(d_backup_size_bytes)) s s'.
Proof using HR Hc Hp.
  intros Hr Hph. eexists.
  split; [|done|intros n; by eapply (accept_persist_complete _ _ pending_inv)|done|done|by apply completed_fit].
  destruct (inv_record _ pending_inv _ _ Hr). pose proof (draft_sizes _ ro_draft ro_size) as [H1 H2].
  cbn. unfold is_u64, U64_MAX, MAX_BACKUP_BYTES in *. lia.
Qed.
Lemma persist_aborts r b :
  s.(reservations) !! id = Some r → r.(r_phase) = PersistPending b → ∃ s', accepts (PersistAbort id) s s'.
Proof using HR Hp.
  intros Hr Hph. eexists. split; [done|done|intros n; by eapply accept_persist_abort|done|done|by apply completed_fit].
Qed.
Lemma cancel_completes r :
  s.(reservations) !! id = Some r → r.(r_phase) = CancelPending → ∃ s', accepts (CancelComplete id None) s s'.
Proof using HR Hc Hp.
  intros Hr Hph. eexists.
  split; [done|done|intros n; by eapply (accept_cancel_complete _ _ pending_inv), released_below|done|done|].
  by eapply released_one_more.
Qed.
Lemma retire_completes r b x :
  s.(reservations) !! id = Some r → r.(r_phase) = RetirePending b x → ∃ s', accepts (RetireComplete id None) s s'.
Proof using HR Hc Hp.
  intros Hr Hph. eexists.
  split; [done|done|intros n; by eapply (accept_retire_complete _ _ pending_inv), released_below|done|done|].
  by eapply released_one_more.
Qed.
Lemma resolution_completes t p :
  s.(transactions) !! id = Some t → t.(t_pending_resolution) = Some p →
  ∃ s', accepts (TransactionResolveComplete id p.(p_transaction_binding_sha256)) s s'.
Proof using HR Hc Hp.
  intros Ht Hpr. destruct (accept_resolve_complete s1 id pending_inv 0 t p Hp Ht Hpr) as (s' & Hd & Hn & Hr & Hcr & Hck).
  exists s'. split; [done|done| |done|done|by apply completed_fit]. intros n. exact Hd.
Qed.
Lemma rollback_resolution_completes t rb p :
  s.(transactions) !! id = Some t → t.(t_rollback) = Some rb → rb.(rb_pending_resolution) = Some p →
  ∃ s', accepts (RollbackResolveComplete id rb.(rb_rollback_id) p.(pr_rollback_transaction_binding_sha256)) s s'.
Proof using HR Hc Hp.
  intros Ht Hrb Hpr.
  destruct (accept_rollback_resolve_complete s1 id pending_inv 0 t rb p Hp Ht Hrb Hpr) as (s' & Hd & Hn & Hr & Hcr & Hck).
  exists s'. split; [done|done| |done|done|by apply completed_fit]. intros n. exact Hd.
Qed.
End complete.

(** ** Reservations *)

Lemma generate_sound c s n h :
  At c s h → wp (generate_unused n) (λ id h', At c s h' ∧ id ∉ s.(seen_reservation_ids)) (λ _, Sound c) h.
Proof.
  revert h. induction n as [|n IH]; intros h HA; cbn [generate_unused]; [apply wp_throw; by eapply At_sound|].
  apply wp_bind. unfold wp at 1. destruct (generate (world h)) as [w id].
  assert (At c s (set_world w h)) as HA' by (by eapply At_same; [|exact HA]). clear HA.
  revert HA'. generalize (set_world w h). clear h. intros h HA. at_step.
  destruct (bool_decide _) eqn:Hseen; [by apply IH|]. apply bool_decide_eq_false in Hseen. apply wp_bind.
  eapply wp_reads_at; [apply reads_io|exact HA| |intros; by eapply At_sound].
  clear h HA. intros [] h HA; [by apply IH|]. by apply wp_ret.
Qed.

Lemma reserve_sound c d h :
  identity_ok identity → is_u64 d.(d_backup_size_bytes) → is_u64 d.(d_required_capacity_bytes) →
  Sound c h → (c + 2 ≤ U64_MAX)%Z →
  wp (reserve_backup identity d) (λ _, Sound (c + 2)) (λ _, Sound (c + 2)) h.
Proof using laws.
  intros [] Hsize Hcap Hs Hu. unfold reserve_backup. apply wp_bind, wp_lift; [|leave]. intros [] Hd.
  apply (mutable_sound c); [done|lia|]. clear h Hs. intros s h HA Hp. at_step.
  destruct v as [?|]; [at_step|]. do 2 at_step. apply orb_false_iff in Hguard as [Hut%is_some_None Hur%is_some_None].
  eapply room_sound; [done|done|lia|]. clear h HA. intros s' h HA [].
  do 2 at_step. apply Z.leb_gt in Hguard. apply wp_bind.
  eapply wp_mono; [by apply generate_sound| |intros ? h' Hs; eapply Sound_mono; [exact Hs|lia]].
  clear h HA. intros id h [HA Hseen]. eapply event_sound; [done| |lia|lia|].
  { split; [by cbn|done|intros n; eapply accept_reserve_intent; try done|done|done|fits].
    - eapply ticked; [exact HA|lia].
    - by rewrite <-Hut.
    - by rewrite <-Hur. }
  clear h HA. intros h HA. eapply guarded_io_sound; [done|lia|]. clear h HA. intros _ h HA.
  eapply event_sound; [done| |lia|lia|].
  { split; [done|done|intros n; eapply accept_reserve_complete|done|done|fits]; [done|by simplify_map_eq|done]. }
  clear h HA. intros h HA. read_last.
Qed.

Lemma persist_sound c r b source h :
  Sound c h → (c + 2 ≤ U64_MAX)%Z →
  wp (persist_backup_until identity r b source) (λ _, Sound (c + 2)) (λ _, Sound (c + 2)) h.
Proof.
  intros Hs Hu. unfold persist_backup_until. cbv zeta. apply wp_bind, wp_lift; [|leave]. intros [] Hb.
  apply (mutable_sound c); [done|lia|]. clear h Hs. intros s h HA Hp. do 3 at_step.
  apply orb_false_iff in Hguard as [Hut%is_some_None Hur%is_some_None].
  eapply room_sound; [done|done|lia|]. clear h HA. intros s' h HA [].
  do 6 at_step. apply ok_or_Ok in Hcall. guards. at_step.
  match goal with H : is_reserved _ = true |- _ => apply is_reserved_phase in H; rename H into Hph end.
  eapply event_sound; [done| |lia|lia|].
  { split; [done|done|intros n; eapply accept_persist_intent; try done|done|done|fits]; by cbn; congruence. }
  clear h HA. intros h HA. eapply guarded_io_sound; [done|lia|]. clear h HA. intros _ h HA.
  edestruct (persist_completes (c + 1) h.(journal)) as [s2 Hacc]; [apply HA|lia|done|by apply lookup_insert_eq|done|].
  eapply event_sound; [done|exact Hacc|lia|lia|].
  clear h HA. intros h HA. at_step. at_step.
Qed.

Lemma cancel_reserved_sound c id b h :
  Sound c h → (c + 2 ≤ U64_MAX)%Z →
  wp (cancel_reserved identity id b) (λ _, Sound (c + 2)) (λ _, Sound (c + 2)) h.
Proof.
  intros Hs Hu. unfold cancel_reserved. apply (mutable_sound c); [done|lia|]. clear h Hs. intros s0 h HA Hp. at_step.
  eapply room_sound; [done|done|lia|]. clear h HA. intros s h HA Hpr. at_step. destruct (released s !! id) as [t|].
  { do 2 at_step. at_step. }
  eapply room_sound; [done|apply Hpr|lia|]. clear h HA Hpr Hp. intros s' h HA []. do 4 at_step. guards.
  apply ok_or_Ok in Hcall. match goal with H : is_reserved _ = true |- _ => apply is_reserved_phase in H; rename H into Hph end.
  do 2 at_step. eapply event_sound; [done| |lia|lia|].
  { split; [done|done|intros n; eapply accept_cancel_intent; done|done|done|fits]. }
  clear h HA. intros h HA. at_step.
  edestruct (cancel_completes (c + 1) h.(journal)) as [s2 Hacc]; [apply HA|lia|done|by apply lookup_insert_eq|done|].
  eapply event_sound; [done|exact Hacc|lia|lia|]. clear h HA. intros h HA. at_step.
Qed.

Lemma cancel_reservation_sound c r h :
  Sound c h → (c + 2 ≤ U64_MAX)%Z →
  wp (cancel_reservation identity r) (λ _, Sound (c + 2)) (λ _, Sound (c + 2)) h.
Proof.
  intros Hs Hu. unfold cancel_reservation. apply wp_bind. eapply (wp_reads _ (Sound c)); [apply reads_consume_checkout|done|..].
  - intros h1 h2. apply Sound_same.
  - intros _ h' Hs'. apply wp_bind. eapply wp_mono; [by apply cancel_reserved_sound| |done]. intros ? h2 H2. by apply wp_ret.
  - leave.
Qed.

Lemma retire_sound c m h :
  Sound c h → (c + 2 ≤ U64_MAX)%Z → wp (retire_backup identity m) (λ _, Sound (c + 2)) (λ _, Sound (c + 2)) h.
Proof.
  intros Hs Hu. unfold retire_backup. cbv zeta. apply (mutable_sound c); [done|lia|]. clear h Hs. intros s0 h HA Hp.
  eapply room_sound; [done|done|lia|]. clear h HA. intros s h HA Hpr. at_step. destruct (released s !! _) as [t|].
  { do 4 at_step. }
  eapply room_sound; [done|apply Hpr|lia|]. clear h HA Hpr Hp. intros s' h HA []. do 8 at_step. guards.
  apply ok_or_Ok in Hcall, Hcall1. apply is_durable_phase in Hguard as [b Hph].
  pose proof (ticked _ _ _ HA ltac:(lia)) as HI.
  destruct (accept_retire_intent _ (v_reservation_id m) HI 0 v b v2) as (x & _ & Hd); [done..|]. clear HI. at_step.
  eapply event_sound; [done| |lia|lia|].
  { split; [done|done|intros n; exact Hd|done|done|fits]. }
  clear h HA Hd. intros h HA. at_step.
  edestruct (retire_completes (c + 1) h.(journal)) as [s2 Hacc]; [apply HA|lia|done|by apply lookup_insert_eq|done|].
  eapply event_sound; [done|exact Hacc|lia|lia|]. clear h HA. intros h HA. at_step.
Qed.

End calls.

Section calls.
Context `{sha : Sha256} `{laws : !Sha256Laws} `{files : StoreFiles}.
Variable identity : StoreIdentity.
Implicit Types (h : Store) (s : RecoveredState) (c : Z).

(** ** Status *)

Lemma reads_transaction_status_for_id id : reads (transaction_status_for_id identity id).
Proof. unfold transaction_status_for_id. solve_reads. Qed.
Lemma reads_rollback_status_for_source id : reads (rollback_status_for_source identity id).
Proof. unfold rollback_status_for_source. solve_reads. Qed.
#[local] Hint Resolve reads_transaction_status_for_id reads_rollback_status_for_source : repair_store.
Lemma reads_transaction_status selector : reads (transaction_status identity selector).
Proof. unfold transaction_status. solve_reads. Qed.
Lemma reads_rollback_transaction_status selector : reads (rollback_transaction_status identity selector).
Proof. unfold rollback_transaction_status. solve_reads. Qed.

Lemma transaction_status_known c k s id h (Q : RepairTransactionStatusPayload → Store → Prop) :
  At c s h → (c ≤ k)%Z →
  (∀ r b bk t h', At c s h' → durable_at s id r b bk t → Q (status_view bk b t) h') →
  wp (transaction_status_for_id identity id) Q (λ _, Sound k) h.
Proof.
  intros HA Hk HQ. unfold transaction_status_for_id. do 6 at_step. apply ok_or_Ok in Hcall, Hcall1.
  apply negb_false_iff, is_durable_phase in Hguard as [b Hph].
  destruct (durable_facts _ _ _ _ (rc_inv _ _ _ (at_recovers _ _ _ HA)) Hcall Hph) as (bk & t & D).
  assert (t = v2) as -> by (destruct D; congruence). apply wp_lift; rewrite (settled_status _ _ _ _ _ _ D); [|leave].
  intros st <-%Ok_inj_1. by eapply HQ.
Qed.

Lemma rollback_status_known c k s id h (Q : RepairRollbackTransactionStatusPayload → Store → Prop) :
  At c s h → (c ≤ k)%Z →
  (∀ r b bk t rb h', At c s h' → durable_at s id r b bk t → t.(t_rollback) = Some rb →
     Q (rollback_view (status_view bk b t) rb) h') →
  wp (rollback_status_for_source identity id) Q (λ _, Sound k) h.
Proof.
  intros HA Hk HQ. unfold rollback_status_for_source. do 7 at_step. apply ok_or_Ok in Hcall, Hcall1, Hcall2.
  apply negb_false_iff, is_durable_phase in Hguard as [b Hph].
  destruct (durable_facts _ _ _ _ (rc_inv _ _ _ (at_recovers _ _ _ HA)) Hcall Hph) as (bk & t & D).
  assert (t = v2) as -> by (destruct D; congruence).
  destruct (settled_rollback _ _ _ _ _ _ _ D Hcall2) as [Hst _]. apply wp_lift; rewrite Hst; [|leave].
  intros st <-%Ok_inj_1. by eapply HQ.
Qed.

Lemma durable_pruned s s' id r b bk t :
  durable_at s id r b bk t → s.(pending) = None → pruned s s' → durable_at s' id r b bk t.
Proof.
  intros [] Hp []. split; try congruence; try done; by rewrite ?pr_reservations, ?pr_transactions, ?pr_pending, ?pr_unresolved, ?pr_rollback, <-?Hp.
Qed.

Lemma durable_tick s id r b bk t k :
  durable_at s id r b bk t → durable_at (set_clock k s) id r b bk t.
Proof. intros []. by split. Qed.

(** A durable reservation, once room is made and the clock advanced. *)
Lemma durable_later s s' id r b bk t k :
  durable_at s id r b bk t → s.(pending) = None → pruned s s' → durable_at (set_clock k s') id r b bk t.
Proof. intros. by eapply durable_tick, durable_pruned. Qed.

(** An event after room was made keeps the releases in bounds. *)
Lemma room_fit s s' s2 : pruned s s' → s2.(released) = s'.(released) → released_fit s2.
Proof.
  intros [] Hr. unfold released_fit. rewrite Hr. case_match; lia.
Qed.

(** ** Leases and resolutions *)

Lemma write_lease_of t e l :
  write_lease_consumed t e = Ok l → l.(lease_transaction) = t ∧ l.(lease_boot_epoch_sha256) = e.
Proof. by intros (_ & g & r & _ & ->)%write_lease_consumed_Ok. Qed.
Lemma rollback_lease_of t e l :
  rollback_write_lease_consumed t e = Ok l → l.(rl_transaction) = t ∧ l.(rl_boot_epoch_sha256) = e.
Proof. by intros (_ & g & r & _ & ->)%rollback_write_lease_consumed_Ok. Qed.

Lemma write_lease_sound c selector h :
  Sound c h → (c + 2 ≤ U64_MAX)%Z →
  wp (consume_write_lease identity selector) (λ _, Sound (c + 2)) (λ _, Sound (c + 2)) h.
Proof.
  intros Hs Hu. unfold consume_write_lease. apply (mutable_sound c); [done|lia|]. clear h Hs. intros s h HA Hp.
  destruct selector as [|rid tb]; [at_step|]. at_step. apply wp_bind. eapply transaction_status_known; [done|lia|].
  clear h HA. intros r b bk t h HA D. at_step. guards. do 2 at_step. pose proof D as [].
  rewrite da_reservation in Hcall0. apply Ok_inj_1 in Hcall0 as <-. rewrite da_phase. do 7 at_step. guards.
  rewrite da_transaction in Hcall2. apply Ok_inj_1 in Hcall2 as <-. apply map_err_Ok in Hcall1, Hcall3.
  destruct (write_lease_of _ _ _ Hcall3) as [-> ->].
  eapply room_sound; [done|done|lia|]. clear h HA. intros s' h HA Hpr. pose proof (ticked _ _ _ HA ltac:(lia)) as HI.
  eapply event_sound; [done| |lia|lia|].
  { split; [done|done|intros n; eapply (accept_write_lease _ _ HI); try done; [|by eapply durable_later|..]|done|done|].
    - apply Hpr.
    - by apply is_some_None.
    - by apply is_some_None.
    - by eapply room_fit. }
  clear h HA HI. intros h HA. at_step.
Qed.

Lemma resolve_sound c expected x h :
  Sound c h → (c + 2 ≤ U64_MAX)%Z →
  wp (resolve_transaction identity expected x) (λ _, Sound (c + 2)) (λ _, Sound (c + 2)) h.
Proof.
  intros Hs Hu. unfold resolve_transaction. apply (mutable_sound c); [done|lia|]. clear h Hs. intros s h HA Hp.
  do 2 at_step. apply wp_bind. eapply transaction_status_known; [done|lia|].
  clear h HA. intros r b bk t h HA D. destruct (_ != _); [by case_match; at_step|]. do 2 at_step. pose proof D as [].
  rewrite da_reservation in Hcall1. apply Ok_inj_1 in Hcall1 as <-. rewrite da_phase. do 2 at_step. rewrite da_transaction in Hcall2.
  apply Ok_inj_1 in Hcall2 as <-. destruct (_ == _) eqn:Hx; [at_step|]. apply bool_decide_eq_false in Hx. at_step. guards.
  eapply room_sound; [done|done|lia|]. clear h HA. intros s' h HA Hpr. pose proof (ticked _ _ _ HA ltac:(lia)) as HI. cbv zeta.
  eapply event_sound; [done| |lia|lia|].
  { split; [done|done|intros n; eapply (accept_resolve_intent _ _ HI); try done; [|by eapply durable_later]|done|done|].
    - apply Hpr.
    - by eapply room_fit. }
  clear h HA HI. intros h HA.
  edestruct (resolution_completes (c + 1) h.(journal)) as [s2 Hacc];
    [apply HA|lia|done|by apply lookup_insert_eq|done|]. cbn [p_transaction_binding_sha256] in Hacc.
  eapply event_sound; [done|exact Hacc|lia|lia|]. clear h HA. intros h HA. read_last.
Qed.

(** ** Rollbacks *)

Lemma find_rollback_None rid s :
  is_some (find_rollback rid s) = false →
  ∀ id t rb, s.(transactions) !! id = Some t → t.(t_rollback) = Some rb → rb.(rb_rollback_id) ≠ rid.
Proof.
  unfold find_rollback. intros Hf id t rb Ht Hrb Heq. apply is_some_None, fmap_None in Hf.
  apply elem_of_btree_iter, list_elem_of_In in Ht. pose proof (find_none _ _ Hf _ Ht) as Hn. cbn in Hn.
  rewrite Hrb in Hn. cbn in Hn. by rewrite Heq, eq_refl_true in Hn.
Qed.

Lemma begin_rollback_sound c source rid rbind h :
  Sound c h → (c + 2 ≤ U64_MAX)%Z →
  wp (begin_rollback_transaction identity source rid rbind) (λ _, Sound (c + 2)) (λ _, Sound (c + 2)) h.
Proof.
  intros Hs Hu. unfold begin_rollback_transaction. apply (mutable_sound c); [done|lia|]. clear h Hs. intros s h HA Hp.
  do 3 at_step. apply map_err_Ok in Hcall0. apply wp_bind. eapply transaction_status_known; [done|lia|].
  clear h HA. intros r b bk t h HA D. at_step. guards. subst source. do 5 at_step. pose proof D as [].
  rewrite da_transaction in Hcall4. apply Ok_inj_1 in Hcall4 as <-.
  destruct (t_rollback t) as [rb|] eqn:Hrb; [at_step; case_match; at_step|]. do 3 at_step.
  apply orb_false_iff in Hguard as [Hut%is_some_None Hur%is_some_None]. apply map_err_Ok in Hcall4.
  eapply room_sound; [done|done|lia|]. clear h HA. intros s' h HA Hpr. pose proof (ticked _ _ _ HA ltac:(lia)) as HI.
  pose proof (find_rollback_None _ _ Hguard0) as Hfresh.
  eapply event_sound; [done| |lia|lia|].
  { split; [done|done|intros n; eapply (accept_rollback_begin _ _ HI); try done; [..|by eapply durable_later|]|done|done|].
    - apply Hpr.
    - cbn. by rewrite (pr_unresolved _ _ Hpr).
    - cbn. by rewrite (pr_rollback _ _ Hpr).
    - cbn. by rewrite (pr_transactions _ _ Hpr).
    - by eapply room_fit. }
  clear h HA HI. intros h HA. at_step.
Qed.

Lemma rollback_lease_sound c selector h :
  Sound c h → (c + 2 ≤ U64_MAX)%Z →
  wp (consume_rollback_write_lease identity selector) (λ _, Sound (c + 2)) (λ _, Sound (c + 2)) h.
Proof.
  intros Hs Hu. unfold consume_rollback_write_lease. apply (mutable_sound c); [done|lia|]. clear h Hs. intros s h HA Hp.
  destruct selector as [|rid tb]; [at_step|]. do 2 at_step. apply wp_bind. eapply rollback_status_known; [done|lia|].
  clear h HA. intros r b bk t rb h HA D Hrb. do 8 at_step. pose proof D as []. guards.
  rewrite da_transaction in Hcall1. cbn in Hcall1. rewrite Hrb in Hcall1. apply Ok_inj_1 in Hcall1 as <-.
  apply map_err_Ok in Hcall2. destruct (rollback_lease_of _ _ _ Hcall2) as [-> ->].
  eapply room_sound; [done|done|lia|]. clear h HA. intros s' h HA Hpr. pose proof (ticked _ _ _ HA ltac:(lia)) as HI.
  eapply event_sound; [done| |lia|lia|].
  { split; [done|done|intros n; eapply (accept_rollback_lease _ _ HI); try done; [|by eapply durable_later|..]|done|done|].
    - apply Hpr.
    - by apply is_some_None.
    - by apply is_some_None.
    - by eapply room_fit. }
  clear h HA HI. intros h HA. at_step.
Qed.

Lemma resolve_rollback_sound c expected x h :
  (expected.(rt_phase) ≠ Resolved → expected.(rt_resolution) ≠ Some x) → Sound c h → (c + 2 ≤ U64_MAX)%Z →
  wp (resolve_rollback_transaction identity expected x) (λ _, Sound (c + 2)) (λ _, Sound (c + 2)) h.
Proof.
  intros Hx Hs Hu. unfold resolve_rollback_transaction. apply (mutable_sound c); [done|lia|]. clear h Hs. intros s h HA Hp.
  do 3 at_step. apply map_err_Ok in Hcall0. destruct v0. apply wp_bind. eapply rollback_status_known; [done|lia|].
  clear h HA. intros r b bk t rb h HA D Hrb. destruct (_ != _) eqn:He; [by case_match; at_step|]. guards. subst expected.
  at_step. guards. specialize (Hx ltac:(done)). eapply room_sound; [done|done|lia|]. clear h HA. intros s' h HA Hpr.
  pose proof (ticked _ _ _ HA ltac:(lia)) as HI. cbv zeta.
  eapply event_sound; [done| |lia|lia|].
  { split; [done|done|intros n; eapply (accept_rollback_resolve_intent _ _ HI); try done; [|by eapply durable_later]|done|done|].
    - apply Hpr.
    - by eapply room_fit. }
  clear h HA HI. intros h HA.
  edestruct (rollback_resolution_completes (c + 1) h.(journal)) as [s2 Hacc];
    [apply HA|lia|done|by apply lookup_insert_eq|done|done|]. cbn [pr_rollback_transaction_binding_sha256] in Hacc.
  eapply event_sound; [done|exact Hacc|lia|lia|]. clear h HA. intros h HA. at_step. read_last.
Qed.
End calls.
