(* ===== verification/RepairStoreDurability.v ===== *)
(** * The repair journal always recovers

    Recovery and opening of a handle, and the theorem over a whole lifetime of a
    store: whatever the file operations do, the journal replays and a healthy
    handle holds the state it replays to, as long as no call asks an unresolved
    rollback for the resolution it already has; and that this call does break the
    journal. *)

From stdpp Require Import sorting gmap.
From Stdlib.Strings Require Import Byte.
From Stdlib Require String Ascii.
From S2P Require Import Prelude Bytes Text Crypto VaultWire JournalChain RepairVault RepairVaultProperties RepairStoreTypes RepairStoreEvents RepairStoreCompaction RepairStore RepairStoreFacts RepairStoreInvariant RepairStorePreservation RepairStoreSnapshot RepairStoreRestore RepairStoreCompactionProperties RepairStoreLive RepairStoreCalls RepairStoreProperties.

Section recovery.
Context `{sha : Sha256} `{laws : !Sha256Laws} `{files : StoreFiles}.
Variable identity : StoreIdentity.
Implicit Types (h : Store) (s : RecoveredState) (c : Z).

(** A healthy handle in some state. *)
Definition Healthy c h : Prop := At c h.(state) h.

Lemma At_healthy c s h : At c s h → Healthy c h.
Proof. intros H. red. by rewrite (at_state _ _ _ H). Qed.

(** ** Recovery *)

Lemma reads_pending_file capacity verify observed : reads (pending_file_complete capacity verify observed).
Proof. unfold pending_file_complete. solve_reads. Qed.

Lemma append_last_sound c e s s' h :
  At c s h → accepts e s s' → (c + 1 ≤ U64_MAX)%Z →
  wp (append_event e) (λ _, Healthy (c + 1)) (λ _, Sound (c + 1)) h.
Proof.
  intros HA Hacc Hc. pose proof (rc_clock _ _ _ (at_recovers _ _ _ HA)).
  eapply wp_mono; [eapply append_sound; [exact HA|exact Hacc|lia]| |done]. intros [] h' H'. by eapply At_healthy.
Qed.

Lemma reconcile_reservation_sound c s id h :
  At c s h → (c + 1 ≤ U64_MAX)%Z → s.(pending) = Some id →
  wp (reconcile_reservation id) (λ _, Healthy (c + 1)) (λ _, Sound (c + 1)) h.
Proof.
  intros HA Hc Hp. pose proof reads_pending_file. unfold reconcile_reservation. do 2 at_step. apply ok_or_Ok in Hcall. cbv zeta.
  pose proof (at_recovers _ _ _ HA) as HR.
  destruct (r_phase v) as [| |b| |b x|b] eqn:Hph; try (apply wp_throw; leave).
  - destruct (reserve_completes c _ s id HR Hp v Hcall Hph) as [s1 H1].
    destruct (reserve_aborts c _ s id HR Hp v Hcall Hph) as [s2 H2]. clear HR. do 2 at_step. destruct v1; [|at_step];
      by eapply append_last_sound.
  - destruct (persist_completes c _ s id HR Hc Hp v b Hcall Hph) as [s1 H1].
    destruct (persist_aborts c _ s id HR Hp v b Hcall Hph) as [s2 H2]. clear HR. do 2 at_step. destruct v1; [|do 2 at_step];
      by eapply append_last_sound.
  - destruct (cancel_completes c _ s id HR Hc Hp v Hcall Hph) as [s1 H1]. clear HR. at_step. by eapply append_last_sound.
  - destruct (retire_completes c _ s id HR Hc Hp v b x Hcall Hph) as [s1 H1]. clear HR. at_step. by eapply append_last_sound.
Qed.

Lemma reconcile_sound c s h :
  At c s h → (c + 1 ≤ U64_MAX)%Z → wp reconcile_pending (λ _, Healthy (c + 1)) (λ _, Sound (c + 1)) h.
Proof.
  intros HA Hc. unfold reconcile_pending. at_step. destruct (pending s) as [id|] eqn:Hp.
  2: { apply wp_ret. eapply At_healthy, At_mono; [exact HA|lia]. }
  cbv zeta. pose proof (at_recovers _ _ _ HA) as HR.
  destruct (transactions s !! id) as [t|] eqn:Ht; [|by eapply reconcile_reservation_sound]. cbn [mbind option_bind].
  destruct (t_pending_resolution t) as [p|] eqn:Hpt.
  { destruct (resolution_completes c _ s id HR Hc Hp t p Ht Hpt) as [s' Hacc]. by eapply append_last_sound. }
  destruct (t_rollback t) as [rb|] eqn:Hrb; [|by eapply reconcile_reservation_sound]. cbn [mbind option_bind].
  destruct (rb_pending_resolution rb) as [p|] eqn:Hpr; [|by eapply reconcile_reservation_sound].
  destruct (rollback_resolution_completes c _ s id HR Hc Hp t rb p Ht Hrb Hpr) as [s' Hacc]. by eapply append_last_sound.
Qed.

(** ** Opening *)

Lemma open_body_sound c s h :
  At c s h → (c + 1 ≤ U64_MAX)%Z → wp (open_body identity) (λ _, Healthy (c + 1)) (λ _, Sound (c + 1)) h.
Proof.
  intros HA Hc. unfold open_body. do 2 at_step. apply wp_bind. eapply wp_mono; [by eapply reconcile_sound| |done].
  clear h HA. intros [] h HA. red in HA. at_step. at_step. destruct (compaction_due _ 0).
  - eapply wp_mono; [by eapply compact_sound| |done]. intros [] h' [anchor H']. by eapply At_healthy.
  - apply wp_ret. by eapply At_healthy.
Qed.

Lemma open_sound c w events s :
  Recovers c events s → (c + 1 ≤ U64_MAX)%Z →
  match open identity w events with
  | (_, _, Ok h) => Healthy (c + 1) h
  | (_, events', Err _) => ∃ s', Recovers (c + 1) events' s'
  end.
Proof.
  intros HR Hc. unfold open. destruct (prepare_namespace w) as [w' [[]|e]].
  2: { exists s. eapply Recovers_mono; [done|lia]. }
  rewrite (rc_open _ _ _ HR).
  pose proof (open_body_sound c s (fresh_handle w' events s)) as H. unfold wp in H.
  destruct (open_body _ _) as [h [[]|e]].
  - apply H; [by split|done].
  - apply H; [by split|done].
Qed.

End recovery.

(** ** A lifetime *)

Section lifetime.
Context `{sha : Sha256} `{laws : !Sha256Laws} `{files : StoreFiles}.
Implicit Types (c : Z) (σ : Session).

(** The sizes of a draft are 64-bit integers, as their types say. The one request
    that is excluded otherwise presents an unresolved rollback together with the
    resolution that it already has (it has one when it needs manual
    reconciliation): [repeated_rollback_resolution_corrupts] is about it. *)
Definition request_ok (request : StoreCall) : Prop :=
  match request with
  | ReserveBackup d => is_u64 d.(d_backup_size_bytes) ∧ is_u64 d.(d_required_capacity_bytes)
  | ResolveRollbackTransaction expected x => expected.(rt_phase) ≠ Resolved → expected.(rt_resolution) ≠ Some x
  | _ => True
  end.
Definition action_ok (action : Action) : Prop :=
  match action with OpenStore identity => identity_ok identity | Do request => request_ok request end.

Definition session_sound c σ : Prop :=
  match σ with
  | Closed _ events => ∃ s, Recovers c events s
  | Opened identity h => identity_ok identity ∧ Sound c h
  end.

Lemma final_sound {A} c (m : method Store RepairVaultStoreError A) h :
  wp m (λ _, Sound c) (λ _, Sound c) h → Sound c (final m h).
Proof. unfold wp, final. by destruct (m h) as [h' [|]]. Qed.

Lemma reads_sound {A} c (m : method Store RepairVaultStoreError A) h : reads m → Sound c h → Sound (c + 2) (final m h).
Proof.
  intros Hm Hs. apply final_sound. eapply wp_mono; [apply Hm|..]; intros ? h' H;
    (eapply Sound_mono; [exact (Sound_same _ _ _ H Hs)|lia]).
Qed.

Lemma perform_sound c identity request h :
  identity_ok identity → request_ok request → Sound c h → (c + 2 ≤ U64_MAX)%Z →
  Sound (c + 2) (perform identity request h).
Proof using laws.
  intros Hi Hr Hs Hc. destruct request; cbn [perform request_ok] in *;
    try (apply reads_sound; [auto using reads_resume, reads_status, reads_live_identity, reads_transaction_status,
      reads_rollback_transaction_status|done]; fail); apply final_sound.
  - destruct Hr. by apply reserve_sound.
  - by apply persist_sound.
  - by apply cancel_reservation_sound.
  - by apply cancel_reserved_sound.
  - by apply retire_sound.
  - by apply begin_rollback_sound.
  - by apply rollback_lease_sound.
  - by apply resolve_rollback_sound.
  - by apply write_lease_sound.
  - by apply resolve_sound.
Qed.

Lemma reopened_sound c identity w events s :
  identity_ok identity → Recovers c events s → (c + 1 ≤ U64_MAX)%Z → session_sound (c + 1) (reopened identity w events).
Proof using laws.
  intros Hi HR Hc. pose proof (open_sound identity c w events s HR Hc) as H. unfold reopened.
  destruct (open identity w events) as [[w' events'] [h|e]]; [|done]. split; [done|]. by eapply At_sound.
Qed.

Lemma session_mono c c' σ : session_sound c σ → (c ≤ c')%Z → session_sound c' σ.
Proof.
  destruct σ as [w events|i h]; cbn.
  - intros [s ?] ?. exists s. by eapply Recovers_mono.
  - intros [? ?] ?. split; [done|]. by eapply Sound_mono.
Qed.

Lemma act_sound c σ action :
  session_sound c σ → action_ok action → (c + 2 ≤ U64_MAX)%Z → session_sound (c + 2) (act σ action).
Proof using laws.
  intros Hσ Ha Hc. destruct action as [identity|request], σ as [w events|i h]; cbn [act action_ok session_sound] in *.
  - destruct Hσ as [s HR]. eapply session_mono; [eapply (reopened_sound c); [done|exact HR|lia]|lia].
  - destruct Hσ as [_ [[s HR] _]]. eapply session_mono; [eapply (reopened_sound c); [done|exact HR|lia]|lia].
  - destruct Hσ as [s HR]. exists s. eapply Recovers_mono; [done|lia].
  - destruct Hσ as [Hi Hs]. split; [done|]. by apply perform_sound.
Qed.

Lemma run_sound actions c σ :
  session_sound c σ → Forall action_ok actions → (c + 2 * Z.of_nat (length actions) ≤ U64_MAX)%Z →
  session_sound (c + 2 * Z.of_nat (length actions)) (run actions σ).
Proof using laws.
  unfold run. revert c σ. induction actions as [|a actions IH]; intros c σ Hσ Ha Hc; cbn [foldl length] in *.
  - eapply session_mono; [done|lia].
  - apply Forall_cons in Ha as [Ha Has]. eapply session_mono; [apply (IH (c + 2)%Z)|lia]; [|done|lia].
    apply act_sound; [done|done|lia].
Qed.

Lemma empty_recovers : Recovers 0 [] default_state.
Proof.
  split; [done|apply Inv_default| |done]. unfold released_fit, usize. cbn. rewrite map_size_empty.
  unfold MAX_RETAINED_RELEASE_TOMBSTONES. lia.
Qed.

(** C9. Every request but one keeps the journal recoverable. The exception asks
    an unresolved rollback for the resolution that its presented status already
    shows, which only a rollback in manual reconciliation can have. Without it,
    whatever is called on the handles of a store over its lifetime (fewer than
    2^63 openings and requests, on well-formed vault identities), and wherever
    file operations fail, the journal that is left replays to a consistent state,
    which is the state a healthy handle holds. The exception is needed, as
    [repeated_rollback_resolution_corrupts] shows. *)
Theorem repair_journal_always_recovers w actions :
  Forall action_ok actions → (2 * Z.of_nat (length actions) ≤ U64_MAX)%Z →
  let session := run actions (Closed w []) in
  ∃ s, open_generation (session_journal session) = Ok s ∧
    (s.(pending) = None → transactions_are_consistent s = true) ∧
    (∀ identity self, session = Opened identity self → self.(healthy) = true →
       self.(state) = s ∧ self.(event_count) = Z.of_nat (length self.(journal))).
Proof using laws.
  intros Ha Hc session. pose proof (run_sound actions 0 (Closed w []) (ex_intro _ _ empty_recovers) Ha Hc) as H.
  fold session in H. destruct session as [w' events|identity h]; cbn [session_sound session_journal] in *.
  - destruct H as [s []]. exists s. split; [done|]. split; [|done]. by apply settled_consistent.
  - destruct H as [_ [[s HR] Hh]]. pose proof HR as []. exists s. split; [done|]. split; [by apply settled_consistent|].
    intros i h' [= -> ->] Hy. destruct (Hh Hy) as [[Ho _ _ _] _ _ Hn]. split; [congruence|done].
Qed.

(** ** A resolution that is already there *)

Lemma repeated_resolution_refused n id rid text phase x s t rb :
  s.(transactions) !! id = Some t → t.(t_rollback) = Some rb → rb.(rb_resolution) = Some x →
  ∃ s' e, apply_repair_event n (RollbackResolveIntent id rid text phase x) s = (s', Err e).
Proof.
  intros Ht Hrb Hx. destruct (apply_repair_event n _ s) as [s' [[]|e]] eqn:Ha; [|by eauto]. exfalso.
  apply apply_event_Ok in Ha as (s1 & Hd & Hs1). cbn [dispatch] in Hd. unfold apply_rollback_resolve_intent in Hd. accepted Hd.
  assert (s1.(transactions) = s.(transactions)) as Heq by (by destruct Hs1 as [->|(? & _ & ->)]). rewrite Heq in *.
  guards. simplify_eq.
Qed.

Lemma wp_io_Ok {A} (m : method World RepairVaultStoreError A) (Q : A → Store → Prop) R h a :
  m h.(world) = (h.(world), Ok a) → Q a h → wp (io m) Q R h.
Proof. intros Hm HQ. apply wp_on_field. unfold wp. rewrite Hm. by destruct h. Qed.

Lemma compaction_due_same h h' n : same h h' → compaction_due h' n = compaction_due h n.
Proof. intros (_ & Hs & Hc & _). unfold compaction_due. by rewrite Hs, Hc. Qed.

Lemma not_due_count h n : (0 ≤ n)%Z → compaction_due h n = false → (h.(event_count) + n < MAX_JOURNAL_EVENTS)%Z.
Proof.
  intros Hn [[H%Z.ltb_ge _]%orb_false_iff _]%orb_false_iff.
  unfold JOURNAL_COMPACTION_TRIGGER_EVENTS, MAX_JOURNAL_EVENTS, U64_MAX in *. lia.
Qed.

(** An event that is refused when it is applied is in the journal by then. *)
Lemma append_refused c e h :
  Healthy c h → (h.(event_count) < MAX_JOURNAL_EVENTS)%Z → event_fits encoded_len e = true →
  (∀ w, journal_append e w = (w, Appended)) → (∀ n, ∃ s' x, apply_repair_event n e h.(state) = (s', Err x)) →
  wp (append_event e) (λ _ _, False)
    (λ x h', x = CorruptJournal ∧ h'.(healthy) = false ∧ open_generation h'.(journal) = Err CorruptJournal) h.
Proof.
  intros HA Hc Hf Hj Ha. unfold append_event. apply wp_bind, wp_get_self, wp_bind, wp_fail_if; [intros ?%Z.leb_le; lia|].
  intros _. apply wp_bind, wp_fail_if; [by rewrite Hf|]. intros _. apply wp_bind.
  unfold append_entry, wp at 1. rewrite Hj. apply wp_bind, wp_attempt, wp_on_field. cbn [state set_world set_journal].
  unfold wp at 1. destruct (Ha (Z.of_nat (length (journal h)) + 1)%Z) as (s' & x & ->).
  apply wp_bind, wp_modify, wp_throw. split; [done|]. split; [done|]. cbn.
  destruct (opened_settled _ _ (rc_open _ _ _ (at_recovers _ _ _ HA))) as (_ & _ & Hrep).
  unfold open_generation. rewrite (replay_app _ _ _ _ _ Hrep), Z.add_comm.
  destruct (Ha (Z.of_nat (length (journal h)) + 1)%Z) as (s2 & x2 & ->). by case_match.
Qed.

Lemma resolve_again_wp c identity expected x id h :
  Healthy c h → h.(state).(pending) = None →
  (∀ w, validate_store_boundary w = (w, Ok tt)) → (∀ event w, journal_append event w = (w, Appended)) →
  (∀ event, event_fits encoded_len event = true) →
  ReservationId_parse expected.(rt_source).(backup).(reservation_id).(as_str) = Ok id →
  Prelude.outcome (rollback_status_for_source identity id) h = Ok expected →
  expected.(rt_resolution) = Some x → expected.(rt_phase) ≠ Resolved → compaction_due h 2 = false →
  wp (resolve_rollback_transaction identity expected x) (λ _ _, False)
    (λ e h', e = CorruptJournal ∧ h'.(healthy) = false ∧ open_generation h'.(journal) = Err CorruptJournal) h.
Proof.
  intros HA Hp Hb Hj Hfit Hid Hst Hx Hph Hdue. unfold resolve_rollback_transaction, require_mutable.
  pose proof (at_healthy _ _ _ HA) as Hh. apply wp_bind, wp_bind, wp_get_self, wp_bind, wp_fail_if; [by rewrite Hh, Hp|].
  intros _. eapply wp_io_Ok; [apply Hb|].
  unfold Prelude.outcome in Hst. destruct (rollback_status_for_source identity id h) as [h1 r1] eqn:Hrun. cbn in Hst. subst r1.
  assert (∃ r b bk t rb, durable_at h.(state) id r b bk t ∧ t.(t_rollback) = Some rb ∧
    expected = rollback_view (status_view bk b t) rb) as (r & b & bk & t & rb & D & Hrb & ->).
  { refine (wp_run _ (λ st _, ∃ r b bk t rb, durable_at h.(state) id r b bk t ∧ t.(t_rollback) = Some rb ∧
      st = rollback_view (status_view bk b t) rb) _ _ _ _ _ Hrun).
    eapply (rollback_status_known identity c c); [exact HA|lia|]. intros. by do 5 eexists. }
  pose proof (wp_run _ _ _ _ _ _ (reads_rollback_status_for_source identity id h) Hrun) as Hsame. cbn in Hsame.
  destruct (settled_rollback _ _ _ _ _ _ _ D Hrb) as (_ & _ & []). cbn in Hx.
  assert (rollback_validate (rollback_view (status_view bk b t) rb) = Ok tt) as Hv by (by apply rollback_view_validate).
  rewrite Hx in rk_resolution.
  assert (rollback_resolution_validate_against x (rollback_view (status_view bk b t) rb).(rt_source) = Ok tt) as Hrv by done.
  apply wp_bind, wp_lift; rewrite Hv; [intros _ _|done]. apply wp_bind, wp_lift; rewrite Hrv; [intros _ _|done].
  apply wp_bind, wp_lift; rewrite Hid; [intros i <-%Ok_inj_1|done].
  apply wp_bind. unfold wp at 1. rewrite Hrun, ne_refl_false. apply wp_bind, wp_fail_if.
  { intros Hr%bool_decide_eq_true. by destruct Hph. }
  intros _. pose proof Hsame as (_ & Hs1 & Hc1 & _). pose proof (not_due_count h 2 ltac:(lia) Hdue).
  unfold require_event_capacity. apply wp_bind, wp_bind, wp_get_self, wp_bind.
  rewrite (compaction_due_same _ _ _ Hsame), Hdue. apply wp_ret, wp_bind, wp_get_self, wp_fail_if; [rewrite Hc1; intros ?%Z.ltb_lt; lia|].
  intros _. cbv zeta. apply wp_bind.
  eapply wp_mono; [eapply (append_refused c)|by intros|done]; [|lia|done|done|].
  - apply (At_healthy c h.(state)). by eapply At_same.
  - intros n. rewrite Hs1. eapply repeated_resolution_refused; [apply D|done|done].
Qed.
(** C15. A rollback that needs manual reconciliation is asked to take the
    resolution it already has, with its current status: the event is appended
    before it is refused, and from then on the journal does not open. *)
Theorem repeated_rollback_resolution_corrupts identity expected x id h h' r :
  Forall event_typed h.(journal) → open_generation h.(journal) = Ok h.(state) → h.(healthy) = true →
  h.(event_count) = Z.of_nat (length h.(journal)) → h.(state).(pending) = None → compaction_due h 2 = false →
  (∀ w, validate_store_boundary w = (w, Ok tt)) → (∀ event w, journal_append event w = (w, Appended)) →
  (∀ event, event_fits encoded_len event = true) →
  ReservationId_parse expected.(rt_source).(backup).(reservation_id).(as_str) = Ok id →
  Prelude.outcome (rollback_status_for_source identity id) h = Ok expected →
  expected.(rt_resolution) = Some x → expected.(rt_phase) ≠ Resolved →
  resolve_rollback_transaction identity expected x h = (h', r) →
  r = Err CorruptJournal ∧ h'.(healthy) = false ∧ open_generation h'.(journal) = Err CorruptJournal.
Proof.
  intros Ht Ho Hh Hc Hp Hdue Hb Hj Hf Hid Hst Hx Hph Hrun.
  assert (Healthy h.(state).(logical_event_clock) h) as HA.
  { split; [|done..]. split; [done|by eapply opened_inv| |done]. unfold released_fit. rewrite Hp. cbn.
    unfold compaction_due in Hdue. apply orb_false_iff in Hdue as [[_ Hr%Z.ltb_ge]%orb_false_iff _]. lia. }
  pose proof (wp_run _ _ _ _ _ _ (resolve_again_wp _ _ _ _ _ _ HA Hp Hb Hj Hf Hid Hst Hx Hph Hdue) Hrun) as H.
  destruct r as [?|e]; [done|]. destruct H as (-> & ? & ?). done.
Qed.

End lifetime.

(** ** Lifetimes of a store with few files *)

Module DurabilityDemo.
Import RepairDemo StoreDemo.
#[local] Existing Instances prefix_sha256 prefix_sha256_laws.

(** File operations that succeed; [append] is the outcome of an append, and the
    world counts. *)
Definition demo_files (append : nat → nat * AppendOutcome) : StoreFiles := {|
  World := nat; File := (); Source := ();
  encoded_len := λ _, 1024%Z;
  prepare_namespace := λ w, (w, Ok tt);
  journal_append := λ _ w, append w;
  journal_head := λ w, (w, Ok demo_anchor);
  validate_store_boundary := λ w, (w, Ok tt);
  scan_namespace_and_backups := λ _ w, (w, Ok tt);
  ensure_compaction_artifacts_absent := λ w, (w, Ok tt);
  open_staged_generation := λ w, (w, Ok tt);
  append_staged := λ _ w, (w, Ok tt);
  seal_staged_generation := λ w, (w, Ok tt);
  exchange_generation := λ _ w, (w, Exchanged);
  verify_previous_anchor_against_backup := λ _ w, (w, Ok tt);
  remove_previous_generation := λ w, (w, Ok tt);
  generate := λ w, (S w, default demo_first (demo_id w));
  backup_name_taken := λ _ w, (w, Ok false);
  allocate_and_verify := λ _ _ w, (w, Ok tt);
  read_source := λ _ _ _ w, (w, Ok []);
  install_and_verify := λ _ _ _ _ _ w, (w, Ok tt);
  verify_reserved_file := λ _ _ w, (w, Ok tt);
  verify_durable_file := λ _ _ w, (w, Ok tt);
  open_pending_backup_file := λ _ w, (w, Ok None);
  verify_zero_filled := λ _ _ w, (w, Ok tt);
  verify_file_contents := λ _ _ w, (w, Ok tt);
  remove_pending_backup_file := λ _ _ w, (w, Ok tt);
  reset_pending_backup_file := λ _ _ _ w, (w, Ok tt);
|}.

Definition demo_store_identity : StoreIdentity := mkIdentity demo_vault demo_identity demo_parent (hex_digest x0d).
Lemma demo_identity_ok : identity_ok demo_store_identity.
Proof. by split; vm_compute. Qed.

End DurabilityDemo.

(** *** A lifetime with a fault

    The second append fails: the reservation is interrupted and the handle refuses
    further changes; the next opening aborts it, and the draft is reserved anew. *)
Module FaultDemo.
Import RepairDemo StoreDemo DurabilityDemo.
#[local] Existing Instances prefix_sha256 prefix_sha256_laws.
#[local] Instance faulty : StoreFiles :=
  demo_files (λ w, (S w, if Nat.eqb w 2 then AppendFailed false else Appended)).

Definition demo_actions : list Action :=
  match demo_draft 0 with
  | Some d =>
      [OpenStore demo_store_identity; Do (ReserveBackup d); Do (ReserveBackup d);
       OpenStore demo_store_identity; Do (ReserveBackup d)]
  | None => []
  end.

Lemma demo_actions_ok : Forall action_ok demo_actions.
Proof.
  unfold demo_actions. destruct (demo_draft 0) as [d|] eqn:Hd; [|constructor].
  apply demo_draft_sizes in Hd as [H1 H2]. pose proof demo_identity_ok.
  assert (request_ok (ReserveBackup d)) by (split; [rewrite H1|rewrite H2]; done).
  by repeat (apply Forall_cons_2; [done|]).
Qed.

Definition demo_session : Session := run demo_actions (Closed (files := faulty) 0 []).

(** The kinds of the events: an intent, its abort, an intent and its completion. *)
Definition demo_tag (e : RepairEvent) : Z :=
  match e with ReserveIntent _ _ _ _ _ _ _ => 0 | ReserveAbort _ => 1 | ReserveComplete _ => 2 | _ => 3 end%Z.

Lemma repair_journal_always_recovers_witness :
  map demo_tag (session_journal demo_session) = [0; 1; 0; 2]%Z ∧
  ∃ s, open_generation (session_journal demo_session) = Ok s ∧
    (s.(pending) = None → transactions_are_consistent s = true).
Proof.
  split; [vm_compute; reflexivity|].
  destruct (repair_journal_always_recovers (files := faulty) 0 demo_actions demo_actions_ok) as (s & Ho & Hc & _).
  - vm_compute. congruence.
  - exists s. split; [exact Ho|exact Hc].
Defined.

End FaultDemo.

(** *** A rollback that stays unresolved

    The calls that take one draft to a rollback with a manual resolution, on files
    that work. *)
Module ManualDemo.
Import RepairDemo StoreDemo DurabilityDemo.
#[local] Existing Instances prefix_sha256 prefix_sha256_laws.
#[local] Instance steady : StoreFiles := demo_files (λ w, (w, Appended)).

Definition demo_call (A : Type) : Type := method Store RepairVaultStoreError A.
Definition manual_rollback : demo_call (RepairRollbackTransactionStatusPayload * RepairRollbackResolution) :=
  d ← lift (ok_or (demo_draft 0) InvalidDraft);
  b ← lift (ok_or demo_binding InvalidBinding);
  reserved ← reserve_backup demo_store_identity d;
  persist_backup_until demo_store_identity reserved b tt;;
  status ← transaction_status_for_id demo_store_identity reserved.(summary).(s_reservation_id);
  x ← lift (map_err (λ _, InvalidBinding) (resolution_new CommittedAfter (hex_digest x05)
        (canonical_repair_file_metadata_sha256 demo_metadata) true b.(b_execution_intent)));
  committed ← resolve_transaction demo_store_identity status x;
  binding ← lift (map_err (λ _, InvalidBinding)
        (rollback_binding_new committed "P-2" (hex_digest x18) "A-2" (hex_digest x19) 8));
  opened ← begin_rollback_transaction demo_store_identity committed demo_rollback_id binding;
  y ← lift (map_err (λ _, InvalidBinding) (rollback_resolution_new ManualRollbackOutcome (hex_digest x05)
        (canonical_repair_file_metadata_sha256 demo_metadata) false committed));
  manual ← resolve_rollback_transaction demo_store_identity opened y;
  mret (manual, y).

Definition manual_run : Store * result RepairVaultStoreError (RepairRollbackTransactionStatusPayload * RepairRollbackResolution) :=
  manual_rollback (fresh_handle (files := steady) 0 [] default_state).
Definition manual_journal : list RepairEvent := manual_run.1.(journal).
Definition manual_handle : Store := fresh_handle (files := steady) 0 manual_journal (opened manual_journal).

#[local] Instance event_typed_dec e : Decision (event_typed e).
Proof. destruct e as [| | | | | | | | | | | | | | | |? []| |? []]; cbn; apply _. Defined.

(** The status and the resolution that the calls returned are what the journal
    recovers to. *)
Definition manual_check (id : ReservationId) (expected : RepairRollbackTransactionStatusPayload)
    (x : RepairRollbackResolution) : bool :=
  bool_decide (Forall event_typed manual_journal) && recovers manual_journal (λ s, negb (is_some s.(pending)))
  && negb (compaction_due manual_handle 2)
  && match Prelude.outcome (rollback_status_for_source demo_store_identity id) manual_handle with
     | Ok status => status == expected
     | Err _ => false
     end
  && (expected.(rt_resolution) == Some x) && (expected.(rt_phase) != Resolved).

Lemma manual_checked :
  match manual_run.2 with
  | Ok (expected, x) =>
      match ReservationId_parse expected.(rt_source).(backup).(reservation_id).(as_str) with
      | Ok id => manual_check id expected x
      | Err _ => false
      end
  | Err _ => false
  end = true.
Proof. vm_compute. reflexivity. Qed.

Lemma repeated_rollback_resolution_corrupts_witness :
  ∃ expected x, manual_run.2 = Ok (expected, x) ∧
    (resolve_rollback_transaction demo_store_identity expected x manual_handle).2 = Err CorruptJournal ∧
    open_generation (resolve_rollback_transaction demo_store_identity expected x manual_handle).1.(journal) = Err CorruptJournal.
Proof.
  pose proof manual_checked as H. destruct (manual_run.2) as [[expected x]|] eqn:Hrun; [|done].
  destruct (ReservationId_parse _) as [id|] eqn:Hid; [|done]. exists expected, x. split; [reflexivity|]. unfold manual_check in H. guards.
  match goal with H : recovers _ _ = true |- _ => apply recovers_opened in H as [Ho Hp] end.
  apply negb_true_iff, is_some_None in Hp.
  destruct (Prelude.outcome _ _) as [status|] eqn:Hst; [|done]. guards. subst status.
  destruct (repeated_rollback_resolution_corrupts (files := steady) demo_store_identity expected x id manual_handle
    _ _ ltac:(done) Ho eq_refl eq_refl Hp ltac:(done) ltac:(done) ltac:(done) ltac:(done) Hid Hst ltac:(done) ltac:(done)
    (surjective_pairing _)) as (Hres & _ & Hjournal).
  by split.
Defined.
End ManualDemo.
